(* ===== verification/_CoqProject ===== *)
-Q . S2P
Prelude.v
Effects.v
Numbers.v
Calendar.v
Config.v
Limits.v
Utf8.v
Variables.v
Runtime.v
Settings.v
HeaderValue.v
HeaderFields.v
HeaderStore.v
HeaderStoreFacts.v
HeaderStoreRefine.v
HeaderStoreOps.v
EditedHeader.v
StructuredHeader.v
Mime.v
HeaderEdit.v
Message.v
EvalMessage.v
ShellPattern.v
ShellEval.v
ShellEvalKeeps.v
ExprParser.v
ExprPrint.v
Expand.v
Binding.v
Syntax.v
HeaderSyntax.v
RegexSyntax.v
ConditionSyntax.v
RcParser.v
RcParserFacts.v
RcParserLoop.v
SyntaxErrors.v
Prepare.v
Conditions.v
Plan.v
PlanFacts.v
RcFile.v
RcFileFacts.v
RuntimeRc.v
RuntimeRcFacts.v
PrepareFacts.v
Delivery.v
Identity.v
Trace.v
TraceFacts.v
Explanation.v
Startup.v
Files.v
LocalLock.v
Mbox.v
MboxFacts.v
Maildir.v
MaildirFacts.v
Staging.v
Streaming.v
Environment.v
ExternalProcess.v
ExternalProcessFacts.v
Formail.v
FormailFacts.v
HeaderPlan.v
HeaderPlanFacts.v
HeaderPlanFuel.v
Ordered.v
OrderedFacts.v
OrderedFuel.v
OrderedAgree.v
CommandRunner.v
DeliveryRuntime.v
DeliveryHost.v
DeliveryHostFacts.v
DeliveryRuntimeFacts.v
Program.v
Session.v
SessionFacts.v
