(* ===== verification/Prelude.v ===== *)
(** A verification development of procmail-rs, a mail filter compatible with
    procmail, and of its companion formail-rs (all paths below are under
    [src/src/]).

    * The programs

    [procmail-rs] reads an rc file ([rc_file.rs], [config/]), compiles its
    statements to an execution plan ([eval/tree.rs]), reads one message with hard
    limits ([message.rs]) and delivers it ([delivery_runtime.rs]).  A plan is carried
    out in one of two ways.  Where nothing in it needs more, deliveries are planned
    from the header alone, or from the header and then the rest of the message
    ([eval/header.rs]), and made at the end; otherwise the recipes are executed in
    order, with their commands, locks and copy blocks ([eval/ordered.rs]).  Every
    value the mail or the rc file provides goes through bounded buffers, a shell
    pattern matcher with a ceiling on its steps, and an evaluator of shell
    expressions with a ceiling on its depth.  A header can be edited in place
    ([header_edit.rs]).  A delivery writes to Maildirs and mailboxes under locks
    ([delivery/]), or gives the message to a command ([external_process.rs]).
    [formail-rs] edits the header of one message and streams its body.

    * How the source is modelled

    A byte is a [Z] in range, text is a list of bytes ([Utf8] says which are
    UTF-8), [usize] is a [nat] or a [Z] bounded by [usize_max] of the class
    [Target], and every checked addition of the source is a checked addition here.
    A fallible function returns [result], an error is a value of the source's
    error type or of the text it prints.  A function with [&mut] arguments passes
    its state, or is a computation of the monad [Effects.M], which keeps the state
    of a run that failed.  What is outside of the program is a type [W] of worlds
    with classes of operations, each a computation over [W] that may fail with any
    number the system gives; a value that is dropped is an explicit step where
    dropping has an effect.  Recursion that is not structural has fuel; what ran out
    of fuel is told apart ([Effects.OutOfFuel]), and a theorem for each says how
    much is enough.
    A panic of the code is an error of the host
    ([CommandRunner.HE_Panic]) that goes past everything that looks at results: to
    the thread of a copy branch, which it ends, or to the end of the process, whose
    status it makes 101.

    Each definition that models code names its file and item after "Source:".

    * The parts

    - Shared: this file, [Effects] (the monad, its Hoare rules), [Numbers], [Utf8],
      [Calendar] (the dates of [delivery/mbox.rs] and [trace.rs]).
    - Data: [Config] ([config/mod.rs]), [Variables] ([config/variables.rs],
      [config/arguments.rs]), [Limits] ([limits.rs], [bounded_bytes.rs]),
      [Runtime] ([runtime.rs]), [Settings] ([runtime/settings.rs],
      [trace/config.rs], [configuration.rs]).
    - The parser: [Syntax], [HeaderSyntax], [RegexSyntax], [ConditionSyntax] and
      [RcParser] ([config/parser.rs]), with [RcParserFacts], [RcParserLoop],
      [SyntaxErrors].
    - Rc files: [RcFile] ([rc_file.rs]) with [RcFileFacts]; [Prepare]
      ([config/expand.rs]) with [PrepareFacts].
    - Shell expressions: [ExprParser], [ExprPrint], [Expand], [Binding]
      ([config/expand.rs]), [ShellEval] with [ShellEvalKeeps]
      ([config/shell_eval.rs]), [ShellPattern] ([config/shell_pattern.rs]).
    - Headers: [HeaderValue] ([header_value.rs]), [HeaderFields], [HeaderStore]
      with [HeaderStoreFacts], [HeaderStoreRefine] and [HeaderStoreOps], and
      [EditedHeader] ([header_edit/storage.rs]), [HeaderEdit] ([header_edit.rs]),
      [StructuredHeader] ([structured_header.rs]).
    - Messages: [Message] ([message.rs]), [Mime] ([mime.rs]), [EvalMessage]
      ([eval/message.rs]).
    - Plans: [Conditions] ([eval/condition.rs]), [Plan] with [PlanFacts]
      ([eval/tree.rs], [eval.rs]), [RuntimeRc] with [RuntimeRcFacts]
      ([eval/runtime_rc.rs]), [Explanation] ([eval/explanation.rs]).
    - Runs of a plan: [HeaderPlan] with [HeaderPlanFacts] and [HeaderPlanFuel]
      ([eval/header.rs]), [Ordered] with [OrderedFacts], [OrderedFuel] and
      [OrderedAgree] ([eval/ordered.rs], [eval/services.rs]).
    - Traces: [Trace] with [TraceFacts] ([trace/]).
    - Destinations: [Delivery] ([delivery.rs]), [Files] (the calls of the system,
      paths and signals), [LocalLock], [Mbox] with [MboxFacts], [Maildir] with
      [MaildirFacts], [Staging] ([delivery/]), [Streaming] (the message on its way to
      the sinks, and what errors say).
    - Commands: [Environment] ([environment.rs], [external_command.rs]),
      [ExternalProcess] with [ExternalProcessFacts] ([external_process.rs]),
      [CommandRunner] ([command_runner.rs], [command_log.rs]).
    - Deliveries: [DeliveryRuntime] (preparation, publication and single
      deliveries), [DeliveryHost] (the host of an execution in order, decided and
      staged deliveries) with [DeliveryHostFacts] and [DeliveryRuntimeFacts]
      ([delivery_runtime.rs], [delivery_runtime/]).
    - The programs: [Identity] ([user_identity.rs], [hostname.rs]), [Startup]
      (arguments and root file), [Program] (the parser, the loader and the runs put
      together), [Session] with [SessionFacts] (a run from its arguments to its
      status, [bin/procmail-rs.rs]); [Formail] with [FormailFacts]
      ([bin/formail-rs.rs]).

    Components meet through type classes.  Inside of the program:
    [EvaluationContext] (what a context of expressions may do), [ConditionExpander],
    [RcSource] (files, the parser and the expander, for the loader),
    [RuntimeRcLoader] and [LoaderInvariant] (the loader, for a run), [PendingSink]
    with [SinkLaws] (what a fanout asks of a sink; Maildirs over both backends and
    the discarding sink fulfil it), [MaildirBackend] with [BackendLaws],
    [OrderedExecutionHost] (what an execution asks of its host; [DeliveryHost]
    implements it), [TraceSink].  Outside of it: [RegexEngine], [RegexCompiler] (the
    [regex] crates), [Os], [Platform], [RcFiles], [NameCounter], [Processes],
    [Terminal], [CommandBudget], [SessionWorld].

    * What is shown

    - A run ends with a status, whatever it is given, and no wait of it is cut by the
      model ([SessionFacts]); the parts of
      that are in [HeaderPlanFuel], [OrderedFuel], [ShellEval], [RcFileFacts] and
      [Identity].  Waits for locks and commands end in time ([LocalLock],
      [ExternalProcessFacts]).
    - The two ways agree: [OrderedAgree] and [Program] (execution makes the planned
      deliveries), [HeaderPlanFacts] (planning with the header and then the message
      is planning with the message).
    - What readers of the mailboxes see is what a delivery reports, whichever call of
      the system fails: [MaildirFacts] for a message, [Delivery] for a fanout,
      [MboxFacts] for a mailbox, [DeliveryRuntimeFacts] for a plan with LASTFOLDER
      and its result.  A mailbox gives its messages back ([MboxFacts]).
    - Resources: locks and branches ([OrderedFacts], and [DeliveryHostFacts] for the
      host that implements their interface), lock files of others
      ([LocalLock]), transitions of rc files ([RuntimeRcFacts]), limits of the
      parser ([RcParserFacts]), of the loader ([RcFileFacts]), of a message
      ([Message]), of a value ([ShellEval]), of a trace ([TraceFacts]), of the
      environment of a command ([Environment]), of its output
      ([ExternalProcessFacts]); steps of a pattern ([ShellPattern]).
    - Optimised code against a reference: the header arena against a list of
      fields, the gates of recipe flags against the whole history, the evaluator
      against the forms of the manual over environments (and, for the one form where
      the two differ, against the reading of the code), the pattern matcher against a
      relation, the layers of variables against one map, the parser's loop against
      its statements, the streamed body of formail-rs against a function on text,
      the dates against the calendar.
    - Round trips: printing and parsing expressions, recipe headers and header
      operations, generated header fields, mailboxes, quoting of patterns, MIME
      sections, strings of a trace.
    - Safety of paths and destinations: a destination that is relative stays below its
      base, and binding it early does not change what it resolves to, where it can be
      bound.  The explanation of a
      plan reveals no value of the configuration ([Explanation]).

    * Fuel and bounds

    [levels] counts nested sequences: a plan needs the nesting of its own tree and,
    for each of the at most [MAX_RC_TRANSITIONS] files a run may enter, the nesting
    of a file ([HeaderPlanFuel.levels_for], [Program.FILE_LEVELS]); [Session] gives
    a run that many.  An expression needs its depth, a condition that is expanded
    again at most [MAX_EXPANSION_DEPTH] rounds.  The fuel of a scanner is the length
    of its input, that of a writer the bytes it has left.  A wait follows the steps
    of its [Patience] and answers as it says in place of those after; from a number
    of steps on, which the longest time of a wait and the disturbances of the system
    give, neither the steps nor that answer have an effect on anything a run does
    ([SessionFacts.program_ends]).

    * What is not modelled

    What the operating system and the C library do: the classes above say what the
    code asks of them.  A descriptor is closed by the system without an effect that
    is looked at; a write that a signal interrupts is repeated by the interface;
    mapped memory is a list of bytes; reading the standard input answers what an
    [InterruptibleReader] would.  Threads: the writer of a command's input, its
    reader and its waiter run one after the other, a background command is waited for
    when it is joined, and of a copy block that runs beside its parent one of the two
    goes first; the theorems hold for either order.  Allocations do not fail and
    printing to the standard error does not panic.  The trace events that planning
    and execution record are left out of [HeaderPlan] and [Ordered] (they return
    nothing to the evaluation); those of a delivery are modelled.  The [regex]
    crates.  The fuzz entry points, the tests and their services. *)
From Stdlib Require Export ZArith Lia.
From stdpp Require Export base tactics decidable list option numbers strings sorting sets.

#[global] Open Scope Z_scope.

(** * Bytes *)

(** A byte is an unsigned 8-bit integer, a slice or a [Vec<u8>] a list of
    them.  The range is a predicate, so that every definition computes on
    plain integers and the theorems that need the range say so. *)
Abbreviation byte := Z (only parsing).
Abbreviation bytes := (list Z) (only parsing).

Definition is_byte (b : byte) : bool := (0 <=? b) && (b <? 256).
Definition bytes_ok (l : bytes) : Prop := Forall (fun b => is_byte b = true) l.

(** String literals of the source, as bytes. *)
Fixpoint B (s : string) : bytes :=
  match s with
  | EmptyString => []
  | String a s' => Z.of_N (Ascii.N_of_ascii a) :: B s'
  end.

(** Byte literals of the source. *)
Abbreviation c_TAB := 9 (only parsing).
Abbreviation c_LF := 10 (only parsing).
Abbreviation c_CR := 13 (only parsing).
Abbreviation c_SP := 32 (only parsing).
Abbreviation c_BANG := 33 (only parsing).
Abbreviation c_QUOTE := 34 (only parsing).
Abbreviation c_HASH := 35 (only parsing).
Abbreviation c_PERCENT := 37 (only parsing).
Abbreviation c_APOS := 39 (only parsing).
Abbreviation c_LPAREN := 40 (only parsing).
Abbreviation c_RPAREN := 41 (only parsing).
Abbreviation c_STAR := 42 (only parsing).
Abbreviation c_PLUS := 43 (only parsing).
Abbreviation c_COMMA := 44 (only parsing).
Abbreviation c_DASH := 45 (only parsing).
Abbreviation c_DOT := 46 (only parsing).
Abbreviation c_SLASH := 47 (only parsing).
Abbreviation c_0 := 48 (only parsing).
Abbreviation c_9 := 57 (only parsing).
Abbreviation c_COLON := 58 (only parsing).
Abbreviation c_SEMI := 59 (only parsing).
Abbreviation c_LT := 60 (only parsing).
Abbreviation c_EQ := 61 (only parsing).
Abbreviation c_GT := 62 (only parsing).
Abbreviation c_QM := 63 (only parsing).
Abbreviation c_AT := 64 (only parsing).
Abbreviation c_A := 65 (only parsing).
Abbreviation c_B := 66 (only parsing).
Abbreviation c_Q := 81 (only parsing).
Abbreviation c_Z := 90 (only parsing).
Abbreviation c_LBRACK := 91 (only parsing).
Abbreviation c_BSLASH := 92 (only parsing).
Abbreviation c_RBRACK := 93 (only parsing).
Abbreviation c_CARET := 94 (only parsing).
Abbreviation c_UNDER := 95 (only parsing).
Abbreviation c_a := 97 (only parsing).
Abbreviation c_z := 122 (only parsing).
Abbreviation c_TILDE := 126 (only parsing).

Definition between (lo hi b : Z) : bool := (lo <=? b) && (b <=? hi).

(** The [u8] methods of the standard library that the source uses. *)
Definition is_ascii (b : byte) : bool := b <? 128.
Definition is_ascii_whitespace (b : byte) : bool :=
  (b =? c_SP) || (b =? c_TAB) || (b =? c_LF) || (b =? c_CR) || (b =? 12).
Definition is_ascii_graphic (b : byte) : bool := between c_BANG c_TILDE b.
Definition is_ascii_control (b : byte) : bool := (b <? 32) || (b =? 127).
Definition is_ascii_digit (b : byte) : bool := between c_0 c_9 b.
Definition is_ascii_uppercase (b : byte) : bool := between c_A c_Z b.
Definition is_ascii_lowercase (b : byte) : bool := between c_a c_z b.
Definition is_ascii_alphanumeric (b : byte) : bool :=
  is_ascii_digit b || is_ascii_uppercase b || is_ascii_lowercase b.
Definition to_ascii_lowercase (b : byte) : byte :=
  if is_ascii_uppercase b then b + 32 else b.
Definition to_ascii_uppercase (b : byte) : byte :=
  if is_ascii_lowercase b then b - 32 else b.
Definition is_blank (b : byte) : bool := (b =? c_SP) || (b =? c_TAB).

Definition bytes_eqb (a b : bytes) : bool := bool_decide (a = b).
Definition eq_ignore_ascii_case (a b : bytes) : bool :=
  bytes_eqb (to_ascii_lowercase <$> a) (to_ascii_lowercase <$> b).

(** * Slices *)

Definition slice {A} (lo hi : nat) (l : list A) : list A := take (hi - lo) (drop lo l).

Fixpoint position {A} (p : A -> bool) (l : list A) : option nat :=
  match l with
  | [] => None
  | x :: l' => if p x then Some O else S <$> position p l'
  end.

(** [iter().rposition(p)]: the index, from the front, of the last match. *)
Fixpoint rposition {A} (p : A -> bool) (l : list A) : option nat :=
  match l with
  | [] => None
  | x :: l' =>
      match rposition p l' with
      | Some i => Some (S i)
      | None => if p x then Some O else None
      end
  end.

Definition starts_with (l p : bytes) : bool := bytes_eqb (take (length p) l) p.
Definition ends_with (l p : bytes) : bool :=
  (length p <=? length l)%nat && bytes_eqb (drop (length l - length p) l) p.
Definition strip_suffix (l p : bytes) : option bytes :=
  if ends_with l p then Some (take (length l - length p) l) else None.

(** [windows(pat.len()).position(|w| w == pat)] for a non-empty [pat]. *)
Fixpoint find_window (pat l : bytes) : option nat :=
  if starts_with l pat then Some O
  else match l with
       | [] => None
       | _ :: l' => S <$> find_window pat l'
       end.

(** [split(p)]: the maximal runs of bytes that do not satisfy [p], one more
    than there are separators. *)
Fixpoint split_on {A} (p : A -> bool) (l : list A) : list (list A) :=
  match l with
  | [] => [[]]
  | x :: l' =>
      match split_on p l' with
      | [] => [[]]
      | w :: ws => if p x then [] :: w :: ws else (x :: w) :: ws
      end
  end.

(** * Results *)

Inductive result (E A : Type) : Type :=
| Ok (a : A)
| Err (e : E).
Arguments Ok {E A} _.
Arguments Err {E A} _.

#[export] Instance result_ret E : MRet (result E) := fun A a => Ok a.
#[export] Instance result_bind E : MBind (result E) := fun A B f m =>
  match m with Ok a => f a | Err e => Err e end.
#[export] Instance result_fmap E : FMap (result E) := fun A B f m =>
  match m with Ok a => Ok (f a) | Err e => Err e end.

Definition ok_or {E A} (e : E) (o : option A) : result E A :=
  match o with Some a => Ok a | None => Err e end.
Definition map_err {E F A} (f : E -> F) (m : result E A) : result F A :=
  match m with Ok a => Ok a | Err e => Err (f e) end.
Definition is_ok {E A} (m : result E A) : bool :=
  match m with Ok _ => true | Err _ => false end.

#[export] Instance result_eq_dec `{EqDecision E, EqDecision A} : EqDecision (result E A).
Proof. solve_decision. Defined.

(** * The [usize] type *)

(** The crate compiles for 32-bit and for 64-bit targets and for no other
    ([src/src/lib.rs], the [compile_error!] at the top), so everything that
    depends on the width takes it from this class. *)
Class Target := {
  pointer_width : Z;
  pointer_width_ok : pointer_width = 32 \/ pointer_width = 64;
}.
#[export] Instance target64 : Target := {| pointer_width := 64; pointer_width_ok := or_intror eq_refl |}.
Definition target32 : Target := {| pointer_width := 32; pointer_width_ok := or_introl eq_refl |}.

Section usize.
Context {T : Target}.

Definition usize_max : Z := 2 ^ pointer_width - 1.

(** Positions and lengths of slices are [nat]; the checked operations
    fail where the [usize] ones return [None]. *)
Definition checked_add (a b : nat) : option nat :=
  if Z.of_nat a + Z.of_nat b <=? usize_max then Some (a + b)%nat else None.
Definition checked_mul (a b : Z) : option Z :=
  if a * b <=? usize_max then Some (a * b) else None.
Definition saturating_add (a b : Z) : Z := Z.min (a + b) usize_max.

Lemma usize_max_lower : 2 ^ 32 - 1 <= usize_max.
Proof. unfold usize_max. destruct pointer_width_ok as [-> | ->]; lia. Qed.

Lemma checked_add_Some a b c :
  checked_add a b = Some c <-> c = (a + b)%nat /\ Z.of_nat c <= usize_max.
Proof. unfold checked_add. destruct (Z.leb_spec (Z.of_nat a + Z.of_nat b) usize_max); split; intros; simplify_eq; try split; (lia || f_equal; lia || by destruct_and?; simplify_eq; lia). Qed.

Lemma checked_add_fits a b : Z.of_nat (a + b) <= usize_max -> checked_add a b = Some (a + b)%nat.
Proof. intros. unfold checked_add. by rewrite (proj2 (Z.leb_le _ _)) by lia. Qed.

Lemma checked_add_None a b :
  checked_add a b = None <-> usize_max < Z.of_nat (a + b).
Proof. unfold checked_add. destruct (Z.leb_spec (Z.of_nat a + Z.of_nat b) usize_max); split; intros; simplify_eq; try split; (lia || f_equal; lia || by destruct_and?; simplify_eq; lia). Qed.
End usize.

Abbreviation len l := (Z.of_nat (length l)) (only parsing).

(** * Generic lemmas *)

Lemma snoc_app {A} (l : list A) x k : l ++ x :: k = (l ++ [x]) ++ k.
Proof. by rewrite <-app_assoc. Qed.

Lemma length_snoc {A} (l : list A) x : length (l ++ [x]) = S (length l).
Proof. rewrite length_app. simpl. lia. Qed.

Lemma position_Some {A} (p : A -> bool) l i :
  position p l = Some i <->
  exists pre x post, l = pre ++ x :: post /\ length pre = i /\
    Forall (fun y => p y = false) pre /\ p x = true.
Proof.
  revert i. induction l as [|a l IH]; intros i; simpl.
  { split; [done|]. intros (pre & x & post & H & _). by destruct pre. }
  destruct (p a) eqn:Ha.
  - split.
    + intros [= <-]. exists [], a, l. auto.
    + intros ([|b pre] & x & post & [= -> ->] & <- & Hf & Hx); [done|].
      inversion Hf; congruence.
  - rewrite fmap_Some. split.
    + intros (j & (pre & x & post & -> & <- & Hf & Hx)%IH & ->).
      exists (a :: pre), x, post. repeat split; auto.
    + intros ([|b pre] & x & post & [= -> ->] & <- & Hf & Hx); [congruence|].
      apply Forall_cons in Hf as [_ Hf]. exists (length pre). split; [|done].
      apply IH. eauto 10.
Qed.

Lemma position_None {A} (p : A -> bool) l :
  position p l = None <-> Forall (fun y => p y = false) l.
Proof.
  induction l as [|a l IH]; simpl; [split; auto|].
  destruct (p a) eqn:Ha.
  - split; [done|]. intros Hf. inversion Hf; congruence.
  - rewrite fmap_None, IH, Forall_cons. tauto.
Qed.

Lemma position_app_cons {A} (p : A -> bool) pre x post :
  Forall (fun y => p y = false) pre -> p x = true -> position p (pre ++ x :: post) = Some (length pre).
Proof. intros. apply position_Some. eauto 10. Qed.

Lemma position_app_none {A} (p : A -> bool) pre post :
  Forall (fun y => p y = false) pre -> position p (pre ++ post) = Nat.add (length pre) <$> position p post.
Proof.
  intros Hpre. destruct (position p post) as [i|] eqn:Hp; simpl.
  - apply position_Some in Hp as (a & x & b & -> & <- & Ha & Hx). rewrite app_assoc, position_app_cons; [by rewrite length_app| |done].
    by apply Forall_app.
  - apply position_None in Hp. apply position_None. by apply Forall_app.
Qed.

Lemma position_lt {A} (p : A -> bool) l i : position p l = Some i -> (i < length l)%nat.
Proof. intros (pre & x & post & -> & <- & _)%position_Some. rewrite length_app. simpl. lia. Qed.

Lemma bytes_eqb_true a b : bytes_eqb a b = true <-> a = b.
Proof. unfold bytes_eqb. by rewrite bool_decide_eq_true. Qed.
Lemma bytes_eqb_refl a : bytes_eqb a a = true.
Proof. by apply bytes_eqb_true. Qed.

Lemma starts_with_true l p : starts_with l p = true <-> exists r, l = p ++ r.
Proof.
  unfold starts_with. rewrite bytes_eqb_true. split.
  - intros H. exists (drop (length p) l). rewrite <-H at 1. by rewrite take_drop.
  - intros [r ->]. by rewrite take_app_length.
Qed.


Lemma slice_app {A} (lo hi : nat) (l : list A) : (lo <= hi)%nat -> slice lo hi l ++ drop hi l = drop lo l.
Proof.
  intros H. unfold slice. replace (drop hi l) with (drop (hi - lo) (drop lo l)).
  - apply take_drop.
  - rewrite drop_drop. f_equal. lia.
Qed.

Lemma slice_0 {A} hi (l : list A) : slice 0 hi l = take hi l.
Proof. unfold slice. by rewrite Nat.sub_0_r, drop_0. Qed.

Lemma length_slice {A} lo hi (l : list A) : (hi <= length l)%nat -> length (slice lo hi l) = (hi - lo)%nat.
Proof. intros. unfold slice. rewrite length_take, length_drop. lia. Qed.

Lemma result_bind_Ok {E A C} (m : result E A) (f : A -> result E C) c :
  (m ≫= f) = Ok c <-> exists a, m = Ok a /\ f a = Ok c.
Proof. destruct m as [a|e]; simpl; split; [eauto|by intros (? & [= <-] & ?)|done|by intros (? & ? & ?)]. Qed.

Lemma result_fmap_Ok {E A C} (f : A -> C) (m : result E A) c : (f <$> m) = Ok c <-> exists a, m = Ok a /\ c = f a.
Proof. destruct m as [a|e]; cbn; split; [by intros [= <-]; exists a|by intros (? & [= <-] & ->)|done|by intros (? & ? & ?)]. Qed.

Lemma ok_or_Ok {E A} (e : E) (o : option A) a : ok_or e o = Ok a <-> o = Some a.
Proof. destruct o; simpl; split; congruence. Qed.

(** Takes apart successful chains of [result] in the hypotheses. *)
Ltac inv_ok :=
  repeat match goal with
  | H : (_ ≫= _) = Ok _ |- _ => apply result_bind_Ok in H as (? & ? & H)
  | H : ok_or _ _ = Ok _ |- _ => apply ok_or_Ok in H
  | H : mret _ = Ok _ |- _ => injection H as H
  | H : Err _ = Ok _ |- _ => discriminate H
  | H : Ok _ = Ok _ |- _ => injection H as H
  end.
