(* ===== verification/Effects.v ===== *)
(** Computations that keep a state, also when they stop with an error: the
    [&mut] arguments of the evaluators, which hold what an evaluation did
    before it failed. *)
From Stdlib Require Import FunctionalExtensionality.
From S2P Require Import Prelude.

(** An evaluation stops with an error of its own, with an error of the host that
    runs it, or because the fuel of the model has run out. *)
Inductive stop (V D : Type) :=
| Evaluation (e : V)
| Delivery (e : D)
| OutOfFuel.
Arguments Evaluation {V D} _.
Arguments Delivery {V D} _.
Arguments OutOfFuel {V D}.

(** The type is a record of the function, so that its monad is found by type. *)
Record M (St E A : Type) : Type := Comp { run : St -> result E A * St }.
Arguments Comp {St E A} _.
Arguments run {St E A} _ _.

#[export] Instance M_ret {St E} : MRet (M St E) := fun A a => Comp (fun s => (Ok a, s)).
#[export] Instance M_bind {St E} : MBind (M St E) := fun A B f m =>
  Comp (fun s => match run m s with (Ok a, s') => run (f a) s' | (Err e, s') => (Err e, s') end).

Section operations.
Context {St E : Type}.

Definition stop_with {A} (e : E) : M St E A := Comp (fun s => (Err e, s)).
Definition of_result {A} (r : result E A) : M St E A := Comp (fun s => (r, s)).
Definition gets {A} (f : St -> A) : M St E A := Comp (fun s => (Ok (f s), s)).
Definition modify (f : St -> St) : M St E () := Comp (fun s => (Ok tt, f s)).
(** A computation on a part of the state. *)
Definition on {P A} (get : St -> P) (put : P -> St -> St) (m : M P E A) : M St E A :=
  Comp (fun s => let '(r, p) := run m (get s) in (r, put p s)).
(** What follows whether or not the computation failed. *)
Definition always {A} (m : M St E A) (after : St -> St) : M St E A :=
  Comp (fun s => let '(r, s') := run m s in (r, after s')).
(** The outcome of a computation, as a value. *)
Definition attempt {A} (m : M St E A) : M St E (result E A) :=
  Comp (fun s => let '(r, s') := run m s in (Ok r, s')).
End operations.
(** A computation with the error of its caller, and one whose outcome its caller
    looks at. *)
Definition with_error {St E F A} (f : E -> F) (m : M St E A) : M St F A := Comp (fun s => let '(r, s) := run m s in (map_err f r, s)).
Definition outcome_of {St E F A} (m : M St E A) : M St F (result E A) := Comp (fun s => let '(r, s) := run m s in (Ok r, s)).

Section facts.
Context {St E : Type}.

Lemma run_ret {A} (a : A) (s : St) : run (mret a : M St E A) s = (Ok a, s).
Proof. done. Qed.

Lemma run_bind {A C} (m : M St E A) (f : A -> M St E C) s :
  run (m ≫= f) s = match run m s with (Ok a, s') => run (f a) s' | (Err e, s') => (Err e, s') end.
Proof. done. Qed.

Lemma run_bind_Ok {A C} (m : M St E A) (f : A -> M St E C) s c s' :
  run (m ≫= f) s = (Ok c, s') <-> exists a s1, run m s = (Ok a, s1) /\ run (f a) s1 = (Ok c, s').
Proof.
  rewrite run_bind. destruct (run m s) as [[a|e] s1]; split; [eauto|by intros (? & ? & [= <- <-] & ?)|done|by intros (? & ? & ? & _)].
Qed.

Lemma run_bind_Err {A C} (m : M St E A) (f : A -> M St E C) s e s' :
  run (m ≫= f) s = (Err e, s') <->
  run m s = (Err e, s') \/ exists a s1, run m s = (Ok a, s1) /\ run (f a) s1 = (Err e, s').
Proof.
  rewrite run_bind. destruct (run m s) as [[a|e0] s1]; split.
  - eauto.
  - by intros [?|(? & ? & [= <- <-] & ?)].
  - intros [= -> ->]. by left.
  - by intros [[= -> ->]|(? & ? & ? & _)].
Qed.

Lemma run_gets {A} (f : St -> A) s : run (gets (E := E) f) s = (Ok (f s), s).
Proof. done. Qed.
Lemma run_modify (f : St -> St) s : run (modify (E := E) f) s = (Ok tt, f s).
Proof. done. Qed.
Lemma run_of_result {A} (r : result E A) (s : St) : run (of_result r) s = (r, s).
Proof. done. Qed.
Lemma run_stop {A} (e : E) (s : St) : run (stop_with (A := A) e) s = (Err e, s).
Proof. done. Qed.
End facts.

(** Computations with the same runs are the same. *)
Lemma M_ext {St E A} (m n : M St E A) : (forall s, run m s = run n s) -> m = n.
Proof. destruct m as [m], n as [n]. intros H. f_equal. by apply functional_extensionality. Qed.
(** What follows a computation matters for what it may come to. *)
Lemma bind_ext {St E A C} (m : M St E A) (f g : A -> M St E C) :
  (forall s a s', run m s = (Ok a, s') -> run (f a) s' = run (g a) s') -> m ≫= f = m ≫= g.
Proof. intros H. apply M_ext. intros s. rewrite !run_bind. destruct (run m s) as [[a|e] s'] eqn:E1; [by eapply H|done]. Qed.
Lemma bind_result_ext {St E A C} (r : result E A) (f g : A -> M St E C) : (forall a, r = Ok a -> f a = g a) -> of_result r ≫= f = of_result r ≫= g.
Proof. intros H. apply bind_ext. intros s a s'. rewrite run_of_result. intros [= E1 _]. by rewrite (H a E1). Qed.

(** Takes apart successful runs in the hypotheses. *)
Ltac inv_run :=
  repeat match goal with
  | H : run (_ ≫= _) _ = (Ok _, _) |- _ => apply run_bind_Ok in H as (? & ? & ? & H)
  | H : run (mret _) _ = _ |- _ => rewrite run_ret in H
  | H : run (gets _) _ = _ |- _ => rewrite run_gets in H
  | H : run (modify _) _ = _ |- _ => rewrite run_modify in H
  | H : run (of_result _) _ = _ |- _ => rewrite run_of_result in H
  | H : run (stop_with _) _ = _ |- _ => rewrite run_stop in H
  | H : (Ok _, _) = (Ok _, _) |- _ => injection H as H
  | H : (Err _, _) = (Ok _, _) |- _ => discriminate H
  end.

(** * Invariants of the state *)

(** A computation that keeps a property of its state, however it ends. *)
Definition keeps_state {St E A} (P : St -> Prop) (m : M St E A) : Prop := forall s, P s -> P (run m s).2.

Section keeps.
Context {St E : Type} (P : St -> Prop).

Lemma keeps_ret {A} (a : A) : keeps_state (E := E) P (mret a).
Proof. by intros s Hs. Qed.
Lemma keeps_stop {A} (e : E) : keeps_state (A := A) P (stop_with e).
Proof. by intros s Hs. Qed.
Lemma keeps_of_result {A} (r : result E A) : keeps_state P (of_result r).
Proof. by intros s Hs. Qed.
Lemma keeps_gets {A} (f : St -> A) : keeps_state (E := E) P (gets f).
Proof. by intros s Hs. Qed.
Lemma keeps_modify (f : St -> St) : (forall s, P s -> P (f s)) -> keeps_state (E := E) P (modify f).
Proof. intros H s Hs. by apply H. Qed.
Lemma keeps_bind {A C} (m : M St E A) (f : A -> M St E C) :
  keeps_state P m -> (forall a, keeps_state P (f a)) -> keeps_state P (m ≫= f).
Proof.
  intros Hm Hf s Hs. rewrite run_bind. specialize (Hm s Hs). destruct (run m s) as [[a|e] s1]; [|done]. by apply Hf.
Qed.
End keeps.
Create HintDb keeps.
#[export] Hint Resolve keeps_ret keeps_stop keeps_of_result keeps_gets keeps_bind : keeps.

(** A computation that never stops with an error of a set. *)
Definition never {St E A} (bad : E -> Prop) (m : M St E A) : Prop := forall s e s', run m s = (Err e, s') -> ~ bad e.

Section never.
Context {St E : Type} (bad : E -> Prop).

Lemma never_ret {A} (a : A) : never (St := St) bad (mret a).
Proof. by intros s e s' H. Qed.
Lemma never_gets {A} (f : St -> A) : never bad (gets f).
Proof. by intros s e s' H. Qed.
Lemma never_modify (f : St -> St) : never bad (modify f).
Proof. by intros s e s' H. Qed.
Lemma never_stop {A} (e : E) : ~ bad e -> never (St := St) (A := A) bad (stop_with e).
Proof. by intros He s e' s' [= <- _]. Qed.
Lemma never_of_result {A} (r : result E A) : (forall e, r = Err e -> ~ bad e) -> never (St := St) bad (of_result r).
Proof. intros He s e s' [= -> _]. by apply He. Qed.
Lemma never_bind {A C} (m : M St E A) (f : A -> M St E C) :
  never bad m -> (forall a, never bad (f a)) -> never bad (m ≫= f).
Proof. intros Hm Hf s e s' [H|(a & s1 & _ & H)]%run_bind_Err; [by eapply Hm|by eapply Hf]. Qed.
(** With what is known of the value of the first part. *)
Lemma never_bind_of {A C} (m : M St E A) (f : A -> M St E C) :
  never bad m -> (forall a s s', run m s = (Ok a, s') -> never bad (f a)) -> never bad (m ≫= f).
Proof. intros Hm Hf s e s' [H|(a & s1 & H1 & H)]%run_bind_Err; [by eapply Hm|by eapply Hf]. Qed.
End never.
#[export] Hint Resolve never_ret never_gets never_modify never_bind : keeps.

(** * More fuel *)

(** [m'] goes on where [m] ran out: they agree wherever [m] did not. *)
Definition extends {St V D A} (m m' : M St (stop V D) A) : Prop :=
  forall s, (run m s).1 <> Err OutOfFuel -> run m' s = run m s.

Section extends.
Context {St V D : Type}.
Abbreviation Fuelled A := (M St (stop V D) A) (only parsing).

Lemma extends_refl {A} (m : Fuelled A) : extends m m.
Proof. done. Qed.
Lemma extends_fuel {A} (m : Fuelled A) : extends (stop_with OutOfFuel) m.
Proof. by intros s []. Qed.
Lemma extends_bind {A C} (m m' : Fuelled A) (f f' : A -> Fuelled C) :
  extends m m' -> (forall a, extends (f a) (f' a)) -> extends (m ≫= f) (m' ≫= f').
Proof.
  intros Hm Hf s. rewrite !run_bind. intros H. rewrite Hm.
  - destruct (run m s) as [[a|e] s1]; [by apply Hf|done].
  - intros He. destruct (run m s) as [[a|e] s1]; cbn in *; congruence.
Qed.
Lemma extends_always {A} (m m' : Fuelled A) after : extends m m' -> extends (always m after) (always m' after).
Proof.
  intros Hm s. unfold always. cbn. specialize (Hm s). destruct (run m s) as [r s1]. cbn in *. intros Hr. by rewrite Hm.
Qed.
Lemma extends_trans {A} (m1 m2 m3 : Fuelled A) : extends m1 m2 -> extends m2 m3 -> extends m1 m3.
Proof. intros H1 H2 s Hs. rewrite <-(H1 s Hs). apply H2. by rewrite (H1 s Hs). Qed.
End extends.
Create HintDb extends.
#[export] Hint Resolve extends_refl extends_fuel extends_bind extends_always : extends.

(** * Runs with enough fuel *)

(** From [s], the computation does not run out of fuel and ends where [P]. *)
Definition fine_at {St V D A} (P : St -> Prop) (s : St) (m : M St (stop V D) A) : Prop :=
  (run m s).1 <> Err OutOfFuel /\ P (run m s).2.

Section fine.
Context {St V D : Type} (P : St -> Prop).
Abbreviation Fuelled A := (M St (stop V D) A) (only parsing).

Lemma fine_ret {A} s (a : A) : P s -> fine_at P s (mret a : Fuelled A).
Proof. by split. Qed.
Lemma fine_gets {A} s (f : St -> A) : P s -> fine_at P s (gets f : Fuelled A).
Proof. by split. Qed.
Lemma fine_modify s (f : St -> St) : P (f s) -> fine_at P s (modify f : Fuelled ()).
Proof. by split. Qed.
Lemma fine_stop {A} s e : e <> OutOfFuel -> P s -> fine_at P s (stop_with e : Fuelled A).
Proof. intros He Hs. split; [by intros [= ->]|done]. Qed.
Lemma fine_of_result {A} s (r : result (stop V D) A) : r <> Err OutOfFuel -> P s -> fine_at P s (of_result r : Fuelled A).
Proof. by split. Qed.
Lemma fine_evaluated {A} s (r : result V A) : P s -> fine_at P s (of_result (map_err Evaluation r) : Fuelled A).
Proof. intros Hs. split; [by destruct r|done]. Qed.
Lemma fine_bind {A C} s (m : Fuelled A) (f : A -> Fuelled C) :
  fine_at P s m -> (forall a s', P s' -> run m s = (Ok a, s') -> fine_at P s' (f a)) -> fine_at P s (m ≫= f).
Proof.
  intros [Hm HP] Hf. unfold fine_at. rewrite run_bind. destruct (run m s) as [[a|e] s1]; cbn in *.
  - by apply Hf.
  - split; [|done]. by intros [= ->].
Qed.
Lemma fine_weaken {A} (Q : St -> Prop) s (m : Fuelled A) : (forall s', Q s' -> P s') -> fine_at Q s m -> fine_at P s m.
Proof. intros H [Hm HQ]. split; auto. Qed.
Lemma fine_always {A} s (m : Fuelled A) after : (forall s', P s' -> P (after s')) -> fine_at P s m -> fine_at P s (always m after).
Proof. intros H [Hm HP]. unfold fine_at, always. cbn. destruct (run m s) as [r s1]; cbn in *. auto. Qed.
(** Computations on a part of the state that the property does not see. *)
Lemma fine_on {A Part} s (get : St -> Part) put (m : M Part (stop V D) A) :
  (forall p, (run m p).1 <> Err OutOfFuel) -> (forall p, P (put p s)) -> fine_at P s (on get put m).
Proof. intros Hm HP. unfold fine_at, on. cbn. specialize (Hm (get s)). destruct (run m (get s)) as [r p]; cbn in *. auto. Qed.
End fine.
#[export] Hint Resolve fine_ret fine_gets fine_evaluated : keeps.

(** Computations that never ask for fuel. *)
Definition no_fuel_needed {St V D A} (m : M St (stop V D) A) : Prop := forall s, (run m s).1 <> Err OutOfFuel.
Lemma no_fuel_bind {St V D A C} (m : M St (stop V D) A) (f : A -> M St (stop V D) C) :
  no_fuel_needed m -> (forall a, no_fuel_needed (f a)) -> no_fuel_needed (m ≫= f).
Proof.
  intros Hm Hf s. rewrite run_bind. specialize (Hm s). destruct (run m s) as [[a|e] s1]; cbn in *; [apply Hf|].
  by intros [= ->].
Qed.
