(* ===== verification/Numbers.v ===== *)
(** Decimal numerals: [to_string] of an integer and the digits [str::parse]
    reads, and that parsing inverts printing.  These are the standard
    library's functions. *)
From stdpp Require Import pretty.
From S2P Require Import Prelude.
#[local] Open Scope Z_scope.

(** [n.to_string()] *)
Definition decimal (n : nat) : bytes := B (pretty n).
Definition z_decimal (z : Z) : bytes := B (pretty z).

(** The value of a run of decimal digits. *)
Definition decimal_value (digits : bytes) : Z := foldl (fun v d => v * 10 + (d - c_0)) 0 digits.

(** [s.parse::<T>()] for an unsigned integer type with maximum [max]: an
    optional plus sign, then digits. *)
Definition parse_unsigned (max : Z) (s : bytes) : option Z :=
  let digits := match s with b :: (_ :: _) as s' => if b =? c_PLUS then s' else s | _ => s end in
  if bool_decide (digits = []) || negb (forallb is_ascii_digit digits) then None
  else if decimal_value digits <=? max then Some (decimal_value digits) else None.

Definition parse_u64 (s : bytes) : option Z := parse_unsigned (2 ^ 64 - 1) s.
Definition parse_usize {T : Target} (s : bytes) : option Z := parse_unsigned usize_max s.

(** * Facts *)

Lemma decimal_value_app_one ds d : decimal_value (ds ++ [d]) = decimal_value ds * 10 + (d - c_0).
Proof. unfold decimal_value. by rewrite foldl_app. Qed.

Lemma decimal_value_nonneg ds : forallb is_ascii_digit ds = true -> 0 <= decimal_value ds.
Proof.
  induction ds as [|d ds IH] using rev_ind; [done|].
  rewrite forallb_app, decimal_value_app_one. intros [Hds Hd]%andb_true_iff.
  apply IH in Hds. simpl in Hd. unfold is_ascii_digit, between in Hd. lia.
Qed.

Lemma pretty_N_char_digit x :
  (x < 10)%N -> Z.of_N (Ascii.N_of_ascii (pretty_N_char x)) = Z.of_N x + 48.
Proof.
  intros. assert (x = 0 ∨ x = 1 ∨ x = 2 ∨ x = 3 ∨ x = 4 ∨ x = 5 ∨ x = 6 ∨ x = 7 ∨ x = 8 ∨ x = 9)%N as Hx by lia.
  by destruct_or! Hx; subst x.
Qed.

Lemma pretty_N_go_digits x s :
  forallb is_ascii_digit (B s) = true ->
  forallb is_ascii_digit (B (pretty_N_go x s)) = true /\
  foldl (fun v d => v * 10 + (d - c_0)) 0 (B (pretty_N_go x s)) =
    foldl (fun v d => v * 10 + (d - c_0)) (Z.of_N x) (B s) /\
  (B s <> [] \/ x <> 0%N -> B (pretty_N_go x s) <> []).
Proof.
  revert s. induction (N.lt_wf_0 x) as [x _ IH]; intros s Hs.
  assert (x = 0 ∨ 0 < x)%N as [->|Hx] by lia.
  { rewrite pretty_N_go_0. naive_solver. }
  rewrite pretty_N_go_step by done.
  pose proof (N.mod_lt x 10 ltac:(done)) as Hm. pose proof (pretty_N_char_digit _ Hm) as Hd.
  destruct (IH (x `div` 10)%N (N.div_lt x 10 Hx eq_refl) (String (pretty_N_char (x `mod` 10)) s)) as (H1 & H2 & H3).
  { cbn [B forallb]. rewrite Hs, Hd. revert Hm. generalize (x `mod` 10)%N as m. intros m Hm.
    unfold is_ascii_digit, between. lia. }
  split_and!; [done| |intros _; apply H3; by left].
  rewrite H2. cbn [B foldl]. rewrite Hd. f_equal.
  pose proof (N.div_mod x 10 ltac:(done)). lia.
Qed.

Lemma decimal_digits n : forallb is_ascii_digit (decimal n) = true.
Proof.
  unfold decimal, pretty, pretty_nat, pretty, pretty_N. case_decide; [done|]. by apply pretty_N_go_digits.
Qed.

Lemma decimal_value_decimal n : decimal_value (decimal n) = Z.of_nat n.
Proof.
  unfold decimal, decimal_value, pretty, pretty_nat, pretty, pretty_N. case_decide as Hn.
  - assert (n = 0%nat) as -> by lia. done.
  - destruct (pretty_N_go_digits (N.of_nat n) "") as (_ & -> & _); [done|]. cbn [B foldl]. lia.
Qed.

Lemma decimal_nonempty n : decimal n <> [].
Proof.
  unfold decimal, pretty, pretty_nat, pretty, pretty_N. case_decide as Hn; [done|].
  destruct (pretty_N_go_digits (N.of_nat n) "") as (_ & _ & H); [done|]. auto.
Qed.

#[export] Instance decimal_inj : Inj (=) (=) decimal.
Proof. intros a b H. apply (f_equal decimal_value) in H. rewrite !decimal_value_decimal in H. lia. Qed.

(** A string of digits has no sign to strip. *)
Lemma parse_unsigned_digits max s :
  s <> [] -> forallb is_ascii_digit s = true ->
  parse_unsigned max s = if decimal_value s <=? max then Some (decimal_value s) else None.
Proof.
  intros Hs Hd. unfold parse_unsigned.
  set (digits := match s with b :: (_ :: _) as s' => _ | _ => _ end).
  assert (digits = s) as ->.
  { destruct s as [|b [|c s]]; [done..|]. subst digits. simpl in Hd. apply andb_true_iff in Hd as [Hb _].
    unfold is_ascii_digit, between in Hb. destruct (Z.eqb_spec b c_PLUS); [lia|done]. }
  by rewrite bool_decide_eq_false_2, Hd by done.
Qed.

Lemma parse_unsigned_decimal max n : Z.of_nat n <= max -> parse_unsigned max (decimal n) = Some (Z.of_nat n).
Proof.
  intros. rewrite parse_unsigned_digits, decimal_value_decimal by auto using decimal_digits, decimal_nonempty.
  by rewrite (proj2 (Z.leb_le _ _)).
Qed.

Lemma parse_unsigned_nonneg max s n : parse_unsigned max s = Some n -> 0 <= n <= max.
Proof.
  unfold parse_unsigned. set (digits := match s with b :: (_ :: _) as s' => _ | _ => _ end). clearbody digits.
  destruct (_ || _) eqn:Ho; [done|]. apply orb_false_iff in Ho as [_ Hd%negb_false_iff].
  destruct (Z.leb_spec (decimal_value digits) max); [|done]. intros [= <-].
  split; [by apply decimal_value_nonneg|done].
Qed.
