(* ===== verification/Calendar.v ===== *)
(** Dates without a library: the conversion of a day number in
    [src/src/delivery/mbox.rs] and in [src/src/trace.rs], with checked integer
    arithmetic, and that both give the date of the Gregorian calendar. *)
From stdpp Require Import pretty.
From S2P Require Import Prelude Numbers.
#[local] Open Scope Z_scope.

(** [i64::checked_add] and [checked_mul] *)
Definition i64_checked (z : Z) : option Z := if between (- 2 ^ 63) (2 ^ 63 - 1) z then Some z else None.
Definition u32_try (z : Z) : option Z := if between 0 (2 ^ 32 - 1) z then Some z else None.

Lemma between_holds lo hi b : lo <= b <= hi -> between lo hi b = true.
Proof. unfold between. rewrite andb_true_iff, !Z.leb_le. done. Qed.

(** The day in an era of 400 years that begins in March, as a year of the era, a
    month from March and a day. *)
Definition year_of_era (doe : Z) : Z := Z.quot (doe - Z.quot doe 1460 + Z.quot doe 36524 - Z.quot doe 146096) 365.
Definition day_of_year (doe : Z) : Z :=
  let yoe := year_of_era doe in doe - (365 * yoe + Z.quot yoe 4 - Z.quot yoe 100).

(** Source: delivery/mbox.rs `fn civil_from_days` *)
Definition civil_from_days (days_since_epoch : Z) : option (Z * Z * Z) :=
  shifted ← i64_checked (days_since_epoch + 719468);
  let era := Z.quot shifted 146097 in
  let day_of_era := shifted - era * 146097 in
  scaled ← i64_checked (era * 400);
  year ← i64_checked (year_of_era day_of_era + scaled);
  let doy := day_of_year day_of_era in
  let month_prime := Z.quot (5 * doy + 2) 153 in
  let day := doy - Z.quot (153 * month_prime + 2) 5 + 1 in
  let month := month_prime + (if month_prime <? 10 then 3 else -9) in
  let year := year + (if month <=? 2 then 1 else 0) in
  month ← u32_try month;
  day ← u32_try day;
  Some (year, month, day).

(** [as i32] *)
Definition wrap_i32 (z : Z) : Z := (z + 2 ^ 31) mod 2 ^ 32 - 2 ^ 31.
Definition wrap_u32 (z : Z) : Z := z mod 2 ^ 32.
(** Source: trace.rs `fn civil_date_from_days` *)
Definition civil_date_from_days (days : Z) : Z * Z * Z :=
  let shifted := days + 719468 in
  let era := if 0 <=? shifted then Z.quot shifted 146097 else Z.quot (shifted - 146096) 146097 in
  let day_of_era := shifted - era * 146097 in
  let year := year_of_era day_of_era + era * 400 in
  let doy := day_of_year day_of_era in
  let month_part := Z.quot (5 * doy + 2) 153 in
  let day := doy - Z.quot (153 * month_part + 2) 5 + 1 in
  let month := month_part + (if month_part <? 10 then 3 else -9) in
  let year := year + (if month <=? 2 then 1 else 0) in
  (wrap_i32 year, wrap_u32 month, wrap_u32 day).

(** * Texts *)

(** [{n:0width}] and [{n:>width}] *)
Definition padded (fill : byte) (width : nat) (n : Z) : bytes := let text := z_decimal n in replicate (width - length text) fill ++ text.
Definition weekday_names : list bytes := [B "Thu"; B "Fri"; B "Sat"; B "Sun"; B "Mon"; B "Tue"; B "Wed"].
Definition month_names : list bytes :=
  [B "Jan"; B "Feb"; B "Mar"; B "Apr"; B "May"; B "Jun"; B "Jul"; B "Aug"; B "Sep"; B "Oct"; B "Nov"; B "Dec"].

(** The seconds since the epoch, or 0 before it; the indexing of the arrays does
    not fail ([session_date_exact]).
    Source: trace.rs `fn format_session_timestamp` *)
Definition format_session_timestamp (time : option Z) : bytes :=
  let seconds := default 0 time in
  let days := Z.quot seconds 86400 in
  let day_seconds := Z.rem seconds 86400 in
  let '(year, month, day) := civil_date_from_days days in
  default [] (weekday_names !! Z.to_nat (Z.rem days 7)) ++ B " " ++ default [] (month_names !! Z.to_nat (month - 1)) ++ B " " ++
  padded c_SP 2 day ++ B " " ++ padded c_0 2 (Z.quot day_seconds 3600) ++ B ":" ++ padded c_0 2 (Z.rem (Z.quot day_seconds 60) 60) ++ B ":" ++
  padded c_0 2 (Z.rem day_seconds 60) ++ B " " ++ z_decimal year.

(** * The calendar *)

Definition leap_year (y : Z) : bool := (y mod 4 =? 0) && (negb (y mod 100 =? 0) || (y mod 400 =? 0)).
Definition month_days (y m : Z) : Z :=
  if m =? 2 then (if leap_year y then 29 else 28)
  else if (m =? 4) || (m =? 6) || (m =? 9) || (m =? 11) then 30 else 31.
(** The days of the year before a month. *)
Definition days_before_month (y m : Z) : Z := foldl (fun sum k => sum + month_days y (Z.of_nat k)) 0 (seq 1 (Z.to_nat (m - 1))).
(** The days before a year, from the year 1; a leap year every four, but not in
    three of four hundreds. *)
Definition days_before_year (y : Z) : Z := 365 * (y - 1) + (y - 1) / 4 - (y - 1) / 100 + (y - 1) / 400.
(** The number of a date, the epoch being 1970-01-01. *)
Definition day_number (y m d : Z) : Z := days_before_year y + days_before_month y m + (d - 1) - days_before_year 1970.
Definition valid_date (y m d : Z) : Prop := 1 <= m <= 12 /\ 1 <= d <= month_days y m.

(** [days_before_year] is what the lengths of the years add up to. *)
Definition year_days (y : Z) : Z := if leap_year y then 366 else 365.
Lemma days_before_year_step y : days_before_year (y + 1) = days_before_year y + year_days y.
Proof.
  unfold days_before_year, year_days, leap_year. replace (y + 1 - 1) with y by lia.
  destruct (Z.eqb_spec (y mod 4) 0), (Z.eqb_spec (y mod 100) 0), (Z.eqb_spec (y mod 400) 0); cbn [andb orb negb]; Z.to_euclidean_division_equations; lia.
Qed.

Section era.
Context (doe : Z) (Hdoe : 0 <= doe < 146097).
#[local] Abbreviation y := (year_of_era doe).
#[local] Abbreviation doy := (day_of_year doe).

Lemma year_of_era_div : year_of_era doe = (doe - doe / 1460 + doe / 36524 - doe / 146096) / 365.
Proof.
  unfold year_of_era. rewrite !(Z.quot_div_nonneg doe) by lia. apply Z.quot_div_nonneg; Z.to_euclidean_division_equations; lia.
Qed.
Lemma century : doe / 36524 = 0 \/ doe / 36524 = 1 \/ doe / 36524 = 2 \/ doe / 36524 = 3 \/ doe / 36524 = 4.
Proof. Z.to_euclidean_division_equations; lia. Qed.
Lemma year_of_era_range : 0 <= y < 400.
Proof.
  rewrite year_of_era_div. destruct (Z.eq_dec doe 146096) as [->|]; [by vm_compute|].
  assert (doe / 146096 = 0) as -> by (apply Z.div_small; lia).
  split; [apply Z.div_pos|apply Z.div_lt_upper_bound]; Z.to_euclidean_division_equations; lia.
Qed.
Lemma day_of_year_div : doy = doe - (365 * y + y / 4 - y / 100).
Proof. unfold day_of_year. pose proof year_of_era_range. by rewrite !Z.quot_div_nonneg by lia. Qed.
Lemma day_of_year_range : 0 <= doy <= 365 /\ (doy = 365 -> leap_year (y + 1) = true).
Proof.
  rewrite day_of_year_div, year_of_era_div. destruct (Z.eq_dec doe 146096) as [->|]; [vm_compute; repeat split; discriminate|].
  assert (doe / 146096 = 0) as -> by (apply Z.div_small; lia). destruct century as [Hc|[Hc|[Hc|[Hc|Hc]]]]; rewrite Hc.
  all: split; [Z.to_euclidean_division_equations; lia|].
  all: intros H; unfold leap_year; set (y := (_ / 365)) in *; apply andb_true_iff; split; [|apply orb_true_iff; left; apply negb_true_iff];
    [apply Z.eqb_eq|apply Z.eqb_neq]; subst y; Z.to_euclidean_division_equations; lia.
Qed.
End era.

(** The months of a year that begins in March. *)
Definition march_month (doy : Z) : Z := (5 * doy + 2) / 153.
Lemma march_month_range doy : 0 <= doy <= 365 -> 0 <= march_month doy <= 11.
Proof. unfold march_month. Z.to_euclidean_division_equations; lia. Qed.

Lemma leap_step Y : days_before_year Y + (if leap_year Y then 1 else 0) = 365 * (Y - 1) + Y / 4 - Y / 100 + Y / 400.
Proof.
  pose proof (days_before_year_step Y) as H. unfold year_days in H. destruct (leap_year Y); unfold days_before_year in *; replace (Y + 1 - 1) with Y in H by lia; lia.
Qed.

(** A day of the year that begins in the March of [Y], as a date. *)
Definition march_date (Y doy : Z) : Z * Z * Z :=
  let mp := march_month doy in
  let month := mp + (if mp <? 10 then 3 else -9) in
  (Y + (if month <=? 2 then 1 else 0), month, doy - (153 * mp + 2) / 5 + 1).

Definition leap_days (y : Z) : Z := if leap_year y then 1 else 0.
Lemma month_days_leap y m : month_days y m = if m =? 2 then 28 + leap_days y else if (m =? 4) || (m =? 6) || (m =? 9) || (m =? 11) then 30 else 31.
Proof. unfold month_days, leap_days. destruct (m =? 2); [by destruct (leap_year y)|done]. Qed.
Lemma days_before_month_leap y m : 1 <= m <= 12 ->
  days_before_month y m = if m <=? 2 then 31 * (m - 1) else (153 * (m - 3) + 2) / 5 + 59 + leap_days y.
Proof.
  intros Hm. unfold days_before_month, leap_days.
  assert (m = 1 \/ m = 2 \/ m = 3 \/ m = 4 \/ m = 5 \/ m = 6 \/ m = 7 \/ m = 8 \/ m = 9 \/ m = 10 \/ m = 11 \/ m = 12) as Hcases by lia.
  destruct_or! Hcases; subst m; unfold month_days; cbn -[leap_year]; destruct (leap_year y); reflexivity.
Qed.

(** Operations on numerals, by their values. *)
Ltac closed_numeral z := lazymatch z with Z0 => idtac | Zpos _ => idtac | Zneg _ => idtac end.
Ltac fold_closed := repeat match goal with
  | |- context [Z.add ?a ?b] => closed_numeral a; closed_numeral b; let v := eval vm_compute in (Z.add a b) in change (Z.add a b) with v
  | |- context [Z.mul ?a ?b] => closed_numeral a; closed_numeral b; let v := eval vm_compute in (Z.mul a b) in change (Z.mul a b) with v
  | |- context [Z.sub ?a ?b] => closed_numeral a; closed_numeral b; let v := eval vm_compute in (Z.sub a b) in change (Z.sub a b) with v
  | |- context [Z.div ?a ?b] => closed_numeral a; closed_numeral b; let v := eval vm_compute in (Z.div a b) in change (Z.div a b) with v
  | |- context [Z.ltb ?a ?b] => closed_numeral a; closed_numeral b; let v := eval vm_compute in (Z.ltb a b) in change (Z.ltb a b) with v; cbv iota
  | |- context [Z.leb ?a ?b] => closed_numeral a; closed_numeral b; let v := eval vm_compute in (Z.leb a b) in change (Z.leb a b) with v; cbv iota
  | |- context [Z.eqb ?a ?b] => closed_numeral a; closed_numeral b; let v := eval vm_compute in (Z.eqb a b) in change (Z.eqb a b) with v; cbv iota
  end.

Lemma march_date_exact Y doy :
  0 <= doy <= 365 -> (doy = 365 -> leap_year (Y + 1) = true) ->
  let '(year, month, day) := march_date Y doy in
  valid_date year month day /\ day_number year month day = days_before_year Y + leap_days Y + 59 + doy - 719162.
Proof.
  intros Hd Hleap. pose proof (march_month_range doy Hd) as Hm. unfold march_date.
  assert (153 * march_month doy <= 5 * doy + 2 < 153 * march_month doy + 153) as Hq by (unfold march_month; Z.to_euclidean_division_equations; lia).
  pose proof (days_before_year_step Y) as Hstep. unfold year_days in Hstep.
  assert (leap_days (Y + 1) = 1 \/ leap_days (Y + 1) = 0 /\ doy <= 364) as Hfeb.
  { unfold leap_days. destruct (leap_year (Y + 1)); [by left|right; split; [done|]]. destruct (Z.eq_dec doy 365) as [->|]; [by discriminate Hleap|lia]. }
  generalize dependent (march_month doy). intros mp Hm Hq. set (month := mp + _). set (year := Y + _).
  assert (1 <= month <= 12) as Hmonth by (subst month; destruct (Z.ltb_spec mp 10); lia).
  unfold valid_date, day_number. rewrite days_before_month_leap, month_days_leap by done. change (days_before_year 1970) with 719162.
  assert ((if leap_year Y then 366 else 365) = 365 + leap_days Y) as Hl by (unfold leap_days; by destruct (leap_year Y)). rewrite Hl in Hstep.
  subst year month. assert (mp = 0 \/ mp = 1 \/ mp = 2 \/ mp = 3 \/ mp = 4 \/ mp = 5 \/ mp = 6 \/ mp = 7 \/ mp = 8 \/ mp = 9 \/ mp = 10 \/ mp = 11) as Hcases by lia.
  assert (0 <= leap_days Y <= 1) as Hly by (unfold leap_days; destruct (leap_year Y); lia).
  destruct_or! Hcases; subst mp; rewrite ?Z.add_0_r; fold_closed; cbn [orb]; (split; [split; [lia|]|]); fold_closed;
    Z.to_euclidean_division_equations; lia.
Qed.

(** * The two conversions *)

(** The parts of a day number. *)
Lemma day_parts shifted : 0 <= shifted ->
  exists era doe, 0 <= era /\ 0 <= doe < 146097 /\ shifted = 146097 * era + doe /\ Z.quot shifted 146097 = era /\ shifted - era * 146097 = doe.
Proof.
  intros H. rewrite Z.quot_div_nonneg by lia. exists (shifted / 146097), (shifted mod 146097).
  Z.to_euclidean_division_equations; lia.
Qed.
(** The date both conversions come to. *)
Definition era_date (era doe : Z) : Z * Z * Z := march_date (400 * era + year_of_era doe) (day_of_year doe).
Lemma era_date_exact era doe : 0 <= era -> 0 <= doe < 146097 ->
  let '(year, month, day) := era_date era doe in
  valid_date year month day /\ day_number year month day = 146097 * era + doe - 719468.
Proof.
  intros He Hd. unfold era_date. pose proof (year_of_era_range doe Hd) as Hy. pose proof (day_of_year_range doe Hd) as [Hr Hl].
  pose proof (march_date_exact (400 * era + year_of_era doe) (day_of_year doe) Hr) as H.
  destruct (march_date _ _) as [[year month] day]. destruct H as [Hv ->].
  { intros E. rewrite <- (Hl E). unfold leap_year. replace (400 * era + year_of_era doe + 1) with (year_of_era doe + 1 + 400 * era) by lia.
    f_equal; [|f_equal; [f_equal|]]; f_equal; Z.to_euclidean_division_equations; lia. }
  split; [done|]. unfold leap_days. rewrite leap_step, (day_of_year_div doe Hd). Z.to_euclidean_division_equations; lia.
Qed.

Lemma civil_from_days_era era doe days :
  0 <= era -> 0 <= doe < 146097 -> days + 719468 = 146097 * era + doe -> days <= 2 ^ 62 -> civil_from_days days = Some (era_date era doe).
Proof.
  intros He Hd Hs Hb. unfold civil_from_days, i64_checked.
  destruct (day_parts (days + 719468)) as (era' & doe' & He' & Hd' & Heq & Hera & Hdoe); [lia|].
  assert (era' = era /\ doe' = doe) as [-> ->] by lia. rewrite Hs. rewrite Hs in Hera, Hdoe.
  assert (between (- 2 ^ 63) (2 ^ 63 - 1) (146097 * era + doe) = true) as -> by (apply between_holds; lia). cbn [mbind option_bind].
  rewrite Hera, Hdoe. pose proof (year_of_era_range doe Hd) as Hy.
  assert (between (- 2 ^ 63) (2 ^ 63 - 1) (era * 400) = true) as -> by (apply between_holds; lia). cbn [mbind option_bind].
  assert (between (- 2 ^ 63) (2 ^ 63 - 1) (year_of_era doe + era * 400) = true) as -> by (apply between_holds; lia). cbn [mbind option_bind].
  pose proof (era_date_exact era doe He Hd) as Hdate. unfold era_date, march_date, march_month in *.
  destruct (day_of_year_range doe Hd) as [Hr _]. rewrite (Z.quot_div_nonneg (5 * _ + 2)) by lia.
  set (mp := (5 * day_of_year doe + 2) / 153) in *. set (month := mp + _) in *. destruct Hdate as [[Hm Hday] _].
  rewrite Z.quot_div_nonneg by (subst mp; Z.to_euclidean_division_equations; lia).
  unfold u32_try. rewrite (between_holds _ _ month) by lia. cbn [mbind option_bind].
  rewrite between_holds; [cbn [mbind option_bind]; do 3 f_equal; lia|].
  split; [lia|]. assert (month_days (400 * era + year_of_era doe + (if month <=? 2 then 1 else 0)) month <= 31); [|lia].
  unfold month_days. repeat case_match; lia.
Qed.

Lemma civil_date_from_days_era era doe days :
  0 <= era -> 0 <= doe < 146097 -> days + 719468 = 146097 * era + doe -> days <= 2 ^ 39 -> civil_date_from_days days = era_date era doe.
Proof.
  intros He Hd Hs Hb. unfold civil_date_from_days.
  destruct (day_parts (days + 719468)) as (era' & doe' & He' & Hd' & Heq & Hera & Hdoe); [lia|].
  assert (era' = era /\ doe' = doe) as [-> ->] by lia. rewrite (proj2 (Z.leb_le 0 _)) by lia. rewrite Hs in *.
  rewrite Hera, Hdoe. pose proof (year_of_era_range doe Hd) as Hy.
  pose proof (era_date_exact era doe He Hd) as Hdate. unfold era_date, march_date, march_month in *.
  destruct (day_of_year_range doe Hd) as [Hr _]. rewrite (Z.quot_div_nonneg (5 * _ + 2)) by lia.
  set (mp := (5 * day_of_year doe + 2) / 153) in *. set (month := mp + _) in *. destruct Hdate as [[Hm Hday] _].
  rewrite Z.quot_div_nonneg by (subst mp; Z.to_euclidean_division_equations; lia).
  assert (month_days (400 * era + year_of_era doe + (if month <=? 2 then 1 else 0)) month <= 31) as Hlong by (unfold month_days; repeat case_match; lia).
  unfold wrap_i32, wrap_u32. rewrite !Z.mod_small by (destruct (month <=? 2); lia). do 2 f_equal; lia.
Qed.

(** ** One date for a number *)

Lemma days_before_year_mono y y' : y < y' -> days_before_year y + year_days y <= days_before_year y'.
Proof. intros H. rewrite <- days_before_year_step. unfold days_before_year. Z.to_euclidean_division_equations; lia. Qed.
Lemma day_of_the_year y m d : valid_date y m d -> 0 <= days_before_month y m + (d - 1) < year_days y.
Proof.
  intros [Hm Hd]. rewrite days_before_month_leap by done. rewrite month_days_leap in Hd. assert (year_days y = 365 + leap_days y) as -> by (unfold year_days, leap_days; by destruct (leap_year y)).
  assert (0 <= leap_days y <= 1) as Hl by (unfold leap_days; destruct (leap_year y); lia).
  assert (m = 1 \/ m = 2 \/ m = 3 \/ m = 4 \/ m = 5 \/ m = 6 \/ m = 7 \/ m = 8 \/ m = 9 \/ m = 10 \/ m = 11 \/ m = 12) as Hcases by lia.
  destruct_or! Hcases; subst m; cbn [Z.eqb Z.leb orb Z.compare Pos.eqb Pos.compare Pos.compare_cont] in Hd |- *; Z.to_euclidean_division_equations; lia.
Qed.
Lemma days_before_month_mono y m m' : 1 <= m -> m < m' -> m' <= 12 -> days_before_month y m + month_days y m <= days_before_month y m'.
Proof.
  intros H1 H2 H3. rewrite !days_before_month_leap, month_days_leap by lia.
  assert (0 <= leap_days y <= 1) as Hl by (unfold leap_days; destruct (leap_year y); lia).
  assert (m = 1 \/ m = 2 \/ m = 3 \/ m = 4 \/ m = 5 \/ m = 6 \/ m = 7 \/ m = 8 \/ m = 9 \/ m = 10 \/ m = 11) as Hcases by lia.
  destruct_or! Hcases; subst m; fold_closed; cbn [orb]; destruct (m' <=? 2) eqn:E; Z.to_euclidean_division_equations; lia.
Qed.
Lemma day_number_inj y m d y' m' d' :
  valid_date y m d -> valid_date y' m' d' -> day_number y m d = day_number y' m' d' -> (y, m, d) = (y', m', d').
Proof.
  intros H H' E. pose proof (day_of_the_year _ _ _ H). pose proof (day_of_the_year _ _ _ H'). unfold day_number in E.
  assert (y = y') as <-.
  { destruct (Z.lt_trichotomy y y') as [L|[L|L]]; [|done|]; pose proof (days_before_year_mono _ _ L); lia. }
  destruct H as [Hm Hd], H' as [Hm' Hd']. assert (m = m') as <-.
  { destruct (Z.lt_trichotomy m m') as [L|[L|L]]; [pose proof (days_before_month_mono y m m')|done|pose proof (days_before_month_mono y m' m)]; lia. }
  do 2 f_equal. lia.
Qed.

(** The date of a number, as the first conversion gives it. *)
Lemma civil_date_found days : 0 <= days <= 2 ^ 62 ->
  exists y m d, civil_from_days days = Some (y, m, d) /\ valid_date y m d /\ day_number y m d = days /\ 0 <= y < 2 ^ 63.
Proof.
  intros Hdays. destruct (day_parts (days + 719468)) as (era & doe & He & Hd & Heq & _); [lia|].
  pose proof (era_date_exact era doe He Hd) as Hdate. rewrite (civil_from_days_era era doe) by lia.
  assert (0 <= (era_date era doe).1.1 < 2 ^ 63) as Hy.
  { unfold era_date, march_date. cbv zeta. cbn [fst]. pose proof (year_of_era_range doe Hd). destruct (_ <=? 2); lia. }
  destruct (era_date era doe) as [[y m] d]. exists y, m, d. split; [done|]. split; [apply Hdate|split; [lia|done]].
Qed.

(** C39: Both conversions of a day number, with checked and with machine arithmetic,
    are the inverse of the calendar up to day 2^39, more than a thousand million years
    on: the number of a date of the Gregorian calendar from the epoch to that day gives
    that date back, and every number from 0 on is the number of a date, so that up to
    that day nothing else is given.  (Beyond it the year comes to the limit of the 32
    bits that [civil_date_from_days] gives it.)  The calendar is the one whose years are
    divided by the leap years of the rule of four, a hundred and four hundred. *)
Theorem civil_dates_exact :
  (forall y m d, valid_date y m d -> 0 <= day_number y m d <= 2 ^ 39 ->
     civil_from_days (day_number y m d) = Some (y, m, d) /\ civil_date_from_days (day_number y m d) = (y, m, d)) /\
  (forall days, 0 <= days -> exists y m d, valid_date y m d /\ day_number y m d = days).
Proof.
  split.
  - intros y m d Hv Hb. destruct (day_parts (day_number y m d + 719468)) as (era & doe & He & Hd & Heq & _); [lia|].
    pose proof (era_date_exact era doe He Hd) as Hdate.
    rewrite (civil_from_days_era era doe), (civil_date_from_days_era era doe) by lia.
    destruct (era_date era doe) as [[y' m'] d']. destruct Hdate as [Hv' Hn'].
    rewrite (day_number_inj y m d y' m' d' Hv Hv') by lia. done.
  - intros days Hdays. destruct (day_parts (days + 719468)) as (era & doe & He & Hd & Heq & _); [lia|].
    pose proof (era_date_exact era doe He Hd) as Hdate. destruct (era_date era doe) as [[y m] d] eqn:E. exists y, m, d. split; [apply Hdate|lia].
Qed.
Example epoch_day : civil_from_days 0 = Some (1970, 1, 1) /\ civil_from_days 20147 = Some (2025, 2, 28) /\ civil_date_from_days 11016 = (2000, 2, 29).
Proof. by vm_compute. Qed.
Lemma civil_dates_exact_witness : civil_from_days (day_number 2000 2 29) = Some (2000, 2, 29).
Proof. refine (proj1 (proj1 civil_dates_exact 2000 2 29 _ _)); [split; split; vm_compute; discriminate|split; vm_compute; discriminate]. Defined.

(** * What the texts are made of *)

Lemma z_decimal_nonneg z : 0 <= z -> z_decimal z = decimal (Z.to_nat z).
Proof. intros H. unfold z_decimal, decimal. f_equal. destruct z as [|p|p]; [done| |lia]. unfold pretty, pretty_Z, pretty_nat. by rewrite Z_nat_N. Qed.
Lemma length_pretty_N_go x s : (length (B (pretty_N_go x s)) <= length (B s) + N.to_nat (N.size x))%nat.
Proof.
  revert s. induction (N.lt_wf_0 x) as [x _ IH]; intros s.
  assert (x = 0 \/ 0 < x)%N as [->|Hx] by lia; [rewrite pretty_N_go_0; lia|]. rewrite pretty_N_go_step by done.
  etransitivity; [apply IH; by apply N.div_lt|]. cbn [B length].
  assert (N.size (x `div` 10) < N.size x)%N; [|lia]. rewrite (N.size_log2 x) by lia.
  destruct (N.eq_dec (x `div` 10)%N 0%N) as [->|Hne]; [cbn; lia|]. rewrite N.size_log2 by done.
  apply -> N.succ_lt_mono. apply N.log2_lt_pow2; [by apply N.neq_0_lt_0|]. apply (N.mul_lt_mono_pos_l 2); [lia|].
  pose proof (N.div_mod x 10 ltac:(done)) as Hdiv. pose proof (N.log2_spec x Hx) as [_ Hlog]. rewrite N.pow_succ_r' in Hlog.
  revert Hdiv Hlog. generalize (x `div` 10)%N (x `mod` 10)%N (2 ^ N.log2 x)%N. lia.
Qed.
Lemma length_z_decimal z : 0 <= z < 2 ^ 63 -> (length (z_decimal z) <= 64)%nat.
Proof.
  intros H. rewrite z_decimal_nonneg by lia. unfold decimal, pretty, pretty_nat, pretty, pretty_N. case_decide; [cbn; lia|].
  etransitivity; [apply length_pretty_N_go|]. cbn [B length]. rewrite N.size_log2 by done.
  assert (N.log2 (N.of_nat (Z.to_nat z)) < 63)%N; [|lia]. apply N.log2_lt_pow2; lia.
Qed.
