(* ===== verification/Config.v ===== *)
(** The configuration data model: the parsed rc file as [src/src/config/mod.rs]
    and [src/src/config/variables.rs] declare it, with the methods of these
    types.  A compiled regular expression belongs to the [regex] crate and is a
    parameter of the model (class [RegexEngine]). *)
From S2P Require Import Prelude.

(** The part of the [regex] crate the program relies on: a compiled
    expression, the test, and the captures as byte ranges by group number. *)
Class RegexEngine := {
  Regex : Type;
  regex_is_match : Regex -> bytes -> bool;
  regex_captures : Regex -> bytes -> option (list (option (nat * nat)));
}.

(** * Constants *)

Definition MAX_ASSIGNMENT_NAME_LEN : Z := 128.
(** Source: config/mod.rs `pub const MAX_ASSIGNMENT_VALUE_LEN` *)
Definition MAX_ASSIGNMENT_VALUE_LEN : Z := 64 * 1024.
(** Source: config/mod.rs `pub const MAX_SHELL_SETTING_LEN` *)
Definition MAX_SHELL_SETTING_LEN : Z := 4096.
(** Source: config/mod.rs `pub const MAX_EXPANSION_DEPTH` *)
Definition MAX_EXPANSION_DEPTH : nat := 32.
(** Source: config/mod.rs `pub const MAX_PATH_EXPRESSION_LEN` *)
Definition MAX_PATH_EXPRESSION_LEN : Z := 4096.
Definition MAX_MATCH_BYTES : Z := MAX_ASSIGNMENT_VALUE_LEN.

(** * Assignment targets *)

(** Source: config/variables.rs `enum MessageLimitVariable` *)
Inductive MessageLimitVariable :=
| MLV_MessageSize | MLV_HeadersSize | MLV_BodySize | MLV_HeaderLineSize | MLV_HeaderFieldSize.

(** Source: config/variables.rs `enum RcLimitVariable` *)
Inductive RcLimitVariable :=
| RLV_Assignments | RLV_Statements | RLV_Recipes | RLV_Conditions | RLV_Regexes
| RLV_ConditionsPerRecipe | RLV_NestingDepth.

(** Source: config/variables.rs `enum AssignmentTarget` *)
Inductive AssignmentTarget :=
| Maildir | LogFile | Log | LogDetail | LogAbstract | Verbose | Durability
| LockMethod | LockFile | LockExt | LockSleep | LockTimeout | LineBuf
| ProcessTimeout | Umask | Trap | Shell | ShellFlags | Path | ExitCode | Host
| Shift | MessageLimit (v : MessageLimitVariable) | RcLimit (v : RcLimitVariable) | User.

#[export] Instance MessageLimitVariable_eq_dec : EqDecision MessageLimitVariable.
Proof. solve_decision. Defined.
#[export] Instance RcLimitVariable_eq_dec : EqDecision RcLimitVariable.
Proof. solve_decision. Defined.
#[export] Instance AssignmentTarget_eq_dec : EqDecision AssignmentTarget.
Proof. solve_decision. Defined.

(** Source: config/variables.rs `fn value_limit` *)
Definition value_limit (t : AssignmentTarget) : Z :=
  match t with
  | Maildir | LogFile | LockFile | LockExt => MAX_PATH_EXPRESSION_LEN
  | Shell | ShellFlags | Path => MAX_SHELL_SETTING_LEN
  | _ => MAX_ASSIGNMENT_VALUE_LEN
  end.

(** * Source locations *)

(** Source: source_location.rs `pub struct SourceLocation` *)
Record SourceLocation := { loc_line : nat; loc_file : option bytes; loc_truncated : bool }.

(** Source: source_location.rs `pub fn at_line` *)
Definition at_line (l : SourceLocation) (line : nat) : SourceLocation :=
  {| loc_line := line; loc_file := loc_file l; loc_truncated := loc_truncated l |}.

(** * Shell expressions *)

(** Source: config/mod.rs `pub(crate) enum CaseDirection` *)
Inductive CaseDirection := Upper | Lower.

(** Source: config/mod.rs `enum ShellPart`..`enum ParameterOperation` *)
Inductive ShellPart :=
| Literal (text : bytes)
| Variable_ (name : bytes) (operation : ParameterOperation)
| RegexQuotedVariable (name : bytes)
| Command (command : bytes)
| PatternQuote (expression : ShellExpression)
with ParameterOperation :=
| Value
| DefaultIfUnset (word : ShellExpression)
| DefaultIfUnsetOrEmpty (word : ShellExpression)
| AlternateIfSet (word : ShellExpression)
| AlternateIfSetAndNotEmpty (word : ShellExpression)
| AssignIfUnsetOrEmpty (word : ShellExpression)
| ErrorIfUnsetOrEmpty (word : ShellExpression)
| Length_
| RemovePrefix (pattern : ShellExpression) (longest : bool)
| RemoveSuffix (pattern : ShellExpression) (longest : bool)
| ChangeCase (pattern : ShellExpression) (direction : CaseDirection) (all : bool)
with ShellExpression :=
| MkShellExpression (parts_ : list ShellPart).

Definition parts (e : ShellExpression) : list ShellPart :=
  match e with MkShellExpression ps => ps end.

(** Source: config/mod.rs `pub(crate) fn word` *)
Definition word (op : ParameterOperation) : option ShellExpression :=
  match op with
  | Value | Length_ => None
  | DefaultIfUnset w | DefaultIfUnsetOrEmpty w | AlternateIfSet w
  | AlternateIfSetAndNotEmpty w | AssignIfUnsetOrEmpty w => Some w
  | ErrorIfUnsetOrEmpty _ => None
  | RemovePrefix p _ | RemoveSuffix p _ | ChangeCase p _ _ => Some p
  end.

(** Source: config/mod.rs `pub(crate) fn selected_word` *)
Definition selected_word (op : ParameterOperation) (is_set is_empty : bool) : option ShellExpression :=
  match op with
  | DefaultIfUnset w => if negb is_set then Some w else None
  | DefaultIfUnsetOrEmpty w => if negb is_set || is_empty then Some w else None
  | AlternateIfSet w => if is_set then Some w else None
  | AlternateIfSetAndNotEmpty w => if is_set && negb is_empty then Some w else None
  | AssignIfUnsetOrEmpty w => if negb is_set || is_empty then Some w else None
  | _ => None
  end.

(** Source: config/mod.rs `fn uses_value_when` *)
Definition uses_value_when_word_is_not_selected (op : ParameterOperation) : bool :=
  match op with
  | Value | DefaultIfUnset _ | DefaultIfUnsetOrEmpty _ | ErrorIfUnsetOrEmpty _ | Length_
  | RemovePrefix _ _ | RemoveSuffix _ _ | ChangeCase _ _ _ => true
  | AlternateIfSet _ | AlternateIfSetAndNotEmpty _ | AssignIfUnsetOrEmpty _ => false
  end.

(** Source: config/mod.rs `pub(crate) fn has_commands` *)
Fixpoint has_commands (e : ShellExpression) : bool :=
  match e with MkShellExpression ps => existsb part_has_commands ps end
with part_has_commands (p : ShellPart) : bool :=
  match p with
  | Command _ => true
  | PatternQuote e => has_commands e
  | Variable_ _ op => operation_has_commands op
  | Literal _ | RegexQuotedVariable _ => false
  end
with operation_has_commands (op : ParameterOperation) : bool :=
  match op with
  | Value | Length_ | ErrorIfUnsetOrEmpty _ => false
  | DefaultIfUnset w | DefaultIfUnsetOrEmpty w | AlternateIfSet w
  | AlternateIfSetAndNotEmpty w | AssignIfUnsetOrEmpty w => has_commands w
  | RemovePrefix p _ | RemoveSuffix p _ | ChangeCase p _ _ => has_commands p
  end.

(** Source: config/mod.rs `pub(crate) fn has_assignments` *)
Fixpoint has_assignments (e : ShellExpression) : bool :=
  match e with MkShellExpression ps => existsb part_has_assignments ps end
with part_has_assignments (p : ShellPart) : bool :=
  match p with
  | Variable_ _ op => operation_has_assignments op
  | PatternQuote e => has_assignments e
  | Literal _ | RegexQuotedVariable _ | Command _ => false
  end
with operation_has_assignments (op : ParameterOperation) : bool :=
  match op with
  | AssignIfUnsetOrEmpty _ => true
  | Value | Length_ | ErrorIfUnsetOrEmpty _ => false
  | DefaultIfUnset w | DefaultIfUnsetOrEmpty w | AlternateIfSet w
  | AlternateIfSetAndNotEmpty w => has_assignments w
  | RemovePrefix p _ | RemoveSuffix p _ | ChangeCase p _ _ => has_assignments p
  end.

(** * Header actions *)

(** Source: config/mod.rs `pub struct HeaderValue` *)
Record HeaderValue := { hv_source : bytes; hv_expansion : option ShellExpression }.

(** Source: config/mod.rs `enum HeaderStatusMode` *)
Inductive HeaderStatusMode :=
| SM_Add (v : HeaderValue) | SM_Remove (v : HeaderValue) | SM_Set (v : HeaderValue) | SM_Clear.

(** Source: config/mod.rs `enum HeaderPriorityMode` *)
Inductive HeaderPriorityMode := PM_High | PM_Normal | PM_Low | PM_Clear.

(** Source: config/mod.rs `enum HeaderKeywordsMode` *)
Inductive HeaderKeywordsMode :=
| KM_Add (v : HeaderValue) | KM_Remove (v : HeaderValue) | KM_Set (v : HeaderValue) | KM_Clear.

(** Source: config/mod.rs `enum HeaderExtractionMode` *)
Inductive HeaderExtractionMode := EM_Raw | EM_Unfolded | EM_Decoded.

(** Source: config/mod.rs `enum HeaderOperation` *)
Inductive HeaderOperation :=
| HO_Remove (line : nat) (name : bytes)
| HO_Set (line : nat) (name : bytes) (value : HeaderValue)
| HO_Add (line : nat) (name : bytes) (value : HeaderValue)
| HO_Prepend (line : nat) (name : bytes) (value : HeaderValue)
| HO_Rename (line : nat) (from to : bytes)
| HO_Extract (line : nat) (name target : bytes) (mode : HeaderExtractionMode)
| HO_Keywords (line : nat) (mode : HeaderKeywordsMode)
| HO_Priority (line : nat) (mode : HeaderPriorityMode)
| HO_Status (line : nat) (mode : HeaderStatusMode).

(** Source: config/mod.rs `pub struct HeaderAction` *)
Record HeaderAction := { operations : list HeaderOperation }.

(** Source: config/mod.rs `pub struct MessageStatus` *)
Record MessageStatus := { st_read : bool; st_flagged : bool; st_replied : bool }.

#[export] Instance MessageStatus_eq_dec : EqDecision MessageStatus.
Proof. solve_decision. Defined.

(** Source: config/mod.rs `pub const NONE` *)
Definition status_NONE : MessageStatus := {| st_read := false; st_flagged := false; st_replied := false |}.
(** Source: config/mod.rs `pub const fn is_empty` *)
Definition status_is_empty (s : MessageStatus) : bool :=
  negb (st_read s) && negb (st_flagged s) && negb (st_replied s).
(** Source: config/mod.rs `pub fn add(` *)
Definition status_add (s o : MessageStatus) : MessageStatus :=
  {| st_read := st_read s || st_read o; st_flagged := st_flagged s || st_flagged o;
     st_replied := st_replied s || st_replied o |}.
(** Source: config/mod.rs `pub fn remove(` *)
Definition status_remove (s o : MessageStatus) : MessageStatus :=
  {| st_read := if st_read o then false else st_read s;
     st_flagged := if st_flagged o then false else st_flagged s;
     st_replied := if st_replied o then false else st_replied s |}.
(** Source: config/mod.rs `const fn status_header_value` *)
Definition status_header_value (s : MessageStatus) : option bytes :=
  if st_read s then Some (B "RO") else None.
(** Source: config/mod.rs `const fn x_status_header` *)
Definition x_status_header_value (s : MessageStatus) : option bytes :=
  match st_replied s, st_flagged s with
  | true, true => Some (B "AF")
  | true, false => Some (B "A")
  | false, true => Some (B "F")
  | false, false => None
  end.
(** Source: config/mod.rs `const fn maildir_suffix` *)
Definition maildir_suffix (s : MessageStatus) : bytes :=
  match st_flagged s, st_replied s, st_read s with
  | false, false, false => []
  | true, false, false => B ":2,F"
  | false, true, false => B ":2,R"
  | false, false, true => B ":2,S"
  | true, true, false => B ":2,FR"
  | true, false, true => B ":2,FS"
  | false, true, true => B ":2,RS"
  | true, true, true => B ":2,FRS"
  end.

(** Source: config/mod.rs `pub(crate) enum ConfiguredStatusError` *)
Inductive ConfiguredStatusError := CSE_Empty | CSE_InvalidFlag.

(** The loop of [parse_configured_status] over the non-empty tokens. *)
Fixpoint parse_status_tokens (tokens : list bytes) (status : MessageStatus) :
    result ConfiguredStatusError MessageStatus :=
  match tokens with
  | [] => Ok status
  | t :: tokens' =>
      if bytes_eqb t (B "read") then
        parse_status_tokens tokens' {| st_read := true; st_flagged := st_flagged status; st_replied := st_replied status |}
      else if bytes_eqb t (B "flagged") then
        parse_status_tokens tokens' {| st_read := st_read status; st_flagged := true; st_replied := st_replied status |}
      else if bytes_eqb t (B "replied") then
        parse_status_tokens tokens' {| st_read := st_read status; st_flagged := st_flagged status; st_replied := true |}
      else Err CSE_InvalidFlag
  end.

(** Source: config/mod.rs `fn parse_configured_status` *)
Definition parse_configured_status (value : bytes) : result ConfiguredStatusError MessageStatus :=
  let tokens := filter (fun t => t <> []) (split_on (fun b => is_blank b || (b =? c_COMMA)) value) in
  status ← parse_status_tokens tokens status_NONE;
  if bool_decide (tokens = []) then Err CSE_Empty else Ok status.

(** Source: config/mod.rs `pub(crate) fn fields` *)
Definition priority_fields (m : HeaderPriorityMode) : option (list (bytes * bytes)) :=
  match m with
  | PM_High => Some [(B "Importance", B "high"); (B "Priority", B "urgent"); (B "X-Priority", B "1")]
  | PM_Normal => Some [(B "Importance", B "normal"); (B "Priority", B "normal"); (B "X-Priority", B "3")]
  | PM_Low => Some [(B "Importance", B "low"); (B "Priority", B "non-urgent"); (B "X-Priority", B "5")]
  | PM_Clear => None
  end.

(** * Recipes *)

(** Source: config/mod.rs `pub enum ConditionInput` *)
Inductive ConditionInput := CI_Headers | CI_Body | CI_Message.
(** Source: config/mod.rs `pub enum CaseMode` *)
Inductive CaseMode := Insensitive | Sensitive.
(** Source: config/mod.rs `pub enum ControlFlow` *)
Inductive ControlFlow :=
| Independent | AfterChainMatch | AfterPreviousSuccess | Else | AfterPreviousError.
(** Source: config/mod.rs `pub enum ActionInput` *)
Inductive ActionInput := AI_Message | AI_Headers | AI_Body.
(** Source: config/mod.rs `pub enum ActionMode` *)
Inductive ActionMode := Deliver_ | Filter_.
(** Source: config/mod.rs `pub enum ContinuationMode` *)
Inductive ContinuationMode := CM_Stop | CM_Continue | CM_BranchBlock.
(** Source: config/mod.rs `pub enum ChildStatusMode` *)
Inductive ChildStatusMode := CS_Ignore | CS_Wait | CS_WaitQuietly.
(** Source: config/mod.rs `pub enum WriteErrorMode` *)
Inductive WriteErrorMode := WE_Fail | WE_Ignore.
(** Source: config/mod.rs `pub enum OutputEnding` *)
Inductive OutputEnding := Normalize | Preserve.

#[export] Instance WriteErrorMode_eq_dec : EqDecision WriteErrorMode.
Proof. solve_decision. Defined.
#[export] Instance ControlFlow_eq_dec : EqDecision ControlFlow.
Proof. solve_decision. Defined.
#[export] Instance ContinuationMode_eq_dec : EqDecision ContinuationMode.
Proof. solve_decision. Defined.
#[export] Instance ChildStatusMode_eq_dec : EqDecision ChildStatusMode.
Proof. solve_decision. Defined.
#[export] Instance ActionInput_eq_dec : EqDecision ActionInput.
Proof. solve_decision. Defined.
#[export] Instance ActionMode_eq_dec : EqDecision ActionMode.
Proof. solve_decision. Defined.

(** Source: config/mod.rs `pub struct RecipeOptions` *)
Record RecipeOptions := {
  condition_input : ConditionInput; case_mode : CaseMode; control : ControlFlow;
  action_input : ActionInput; action_mode : ActionMode; continuation : ContinuationMode;
  child_status : ChildStatusMode; write_errors : WriteErrorMode; output_ending : OutputEnding;
}.

(** Source: config/mod.rs `pub enum AddressField` *)
Inductive AddressField :=
| AF_From | AF_To | AF_Cc | AF_Sender | AF_ReplyTo | AF_DeliveredTo | AF_XOriginalTo
| AF_EnvelopeTo | AF_ResentFrom | AF_ResentSender | AF_ResentTo | AF_ResentCc.
(** Source: config/mod.rs `pub(crate) fn name(self)@2` *)
Definition AddressField_name (f : AddressField) : bytes :=
  match f with
  | AF_From => B "From" | AF_To => B "To" | AF_Cc => B "Cc" | AF_Sender => B "Sender"
  | AF_ReplyTo => B "Reply-To" | AF_DeliveredTo => B "Delivered-To"
  | AF_XOriginalTo => B "X-Original-To" | AF_EnvelopeTo => B "Envelope-To"
  | AF_ResentFrom => B "Resent-From" | AF_ResentSender => B "Resent-Sender"
  | AF_ResentTo => B "Resent-To" | AF_ResentCc => B "Resent-Cc"
  end.

(** Source: config/mod.rs `pub enum IdentifierField` *)
Inductive IdentifierField := IF_ListId | IF_MessageId | IF_InReplyTo | IF_References.
(** Source: config/mod.rs `pub(crate) fn name(self)@3` *)
Definition IdentifierField_name (f : IdentifierField) : bytes :=
  match f with
  | IF_ListId => B "List-Id" | IF_MessageId => B "Message-Id"
  | IF_InReplyTo => B "In-Reply-To" | IF_References => B "References"
  end.

(** Source: config/mod.rs `pub enum KeywordField` *)
Inductive KeywordField := KF_Keywords | KF_XLabel | KF_XKeywords.
(** Source: config/mod.rs `pub(crate) const ALL` *)
Definition KeywordField_ALL : list KeywordField := [KF_Keywords; KF_XLabel; KF_XKeywords].
(** Source: config/mod.rs `pub(crate) fn name(self)@4` *)
Definition KeywordField_name (f : KeywordField) : bytes :=
  match f with KF_Keywords => B "Keywords" | KF_XLabel => B "X-Label" | KF_XKeywords => B "X-Keywords" end.

(** Source: config/mod.rs `pub enum MultipartField` *)
Inductive MultipartField := MF_MimeType | MF_Disposition | MF_Filename.

(** Source: config/mod.rs `pub struct PathExpression` *)
Record PathExpression := {
  pe_source : bytes; pe_base : option bytes; pe_location : SourceLocation;
  pe_runtime_dependent : bool; pe_runtime_base : bool; pe_typed_destination : bool;
  pe_expansion : option ShellExpression;
}.

(** Source: config/mod.rs `pub enum Destination` *)
Inductive Destination :=
| D_Mbox (e : PathExpression) | D_Maildir (e : PathExpression)
| D_File (e : PathExpression) | D_Discard (e : PathExpression).
(** Source: config/mod.rs `pub enum DestinationKind` *)
Inductive DestinationKind := DK_Maildir | DK_Mbox | DK_File | DK_Discard.
(** Source: config/mod.rs `pub fn kind(&self)` *)
Definition kind (d : Destination) : DestinationKind :=
  match d with D_Maildir _ => DK_Maildir | D_Mbox _ => DK_Mbox | D_File _ => DK_File | D_Discard _ => DK_Discard end.
(** Source: config/mod.rs `pub fn requires_ordered_delivery` *)
Definition requires_ordered_delivery (d : Destination) : bool :=
  match kind d with DK_Mbox | DK_File => true | _ => false end.
(** Source: config/mod.rs `pub fn supports_fanout_delivery` *)
Definition supports_fanout_delivery (d : Destination) : bool :=
  match kind d with DK_Maildir | DK_Discard => true | _ => false end.

(** Source: config/mod.rs `pub struct RcFileExpression` *)
Record RcFileExpression := { rf_location : SourceLocation; rf_value : bytes; rf_expansion : option ShellExpression }.
(** Source: config/mod.rs `pub struct Assignment` *)
Record Assignment := {
  as_line : nat; as_name : bytes; as_value : bytes; as_target : AssignmentTarget;
  as_expansion : option ShellExpression;
}.
(** Source: config/mod.rs `pub struct Unset` *)
Record Unset := { un_line : nat; un_name : bytes; un_target : AssignmentTarget }.
(** Source: config/mod.rs `pub struct CommandAssignment` *)
Record CommandAssignment := {
  ca_line : nat; ca_name : bytes; ca_source : bytes; ca_target : AssignmentTarget;
  ca_expression : ShellExpression;
}.
(** Source: config/mod.rs `pub struct CaptureAction` *)
Record CaptureAction := { cap_line : nat; cap_name : bytes; cap_target : AssignmentTarget; cap_command : bytes }.

(** Source: config/mod.rs `pub struct PipeAction` *)
Record PipeAction := { pipe_command : bytes }.
(** Source: config/mod.rs `pub struct ShellExpandedCondition` *)
Record ShellExpandedCondition := { se_source : bytes; se_expansion : option ShellExpression }.

(** Source: config/mod.rs `pub(crate) struct RcParseCounts` *)
Record RcParseCounts := {
  pc_assignments : Z; pc_statements : Z; pc_recipes : Z; pc_conditions : Z; pc_regexes : Z;
}.

(** Source: config/variables.rs `pub enum VariableSource` *)
Inductive VariableSource := VS_RcFile | VS_CommandLine | VS_Environment | VS_System | VS_Runtime.

Section tree.
  Context {R : RegexEngine}.

(** Source: config/mod.rs `pub struct RegexCondition` *)
Record RegexCondition := {
  rx_pattern : bytes; rx_compiled : Regex; rx_match_captures : list nat; rx_capture_indexes : list nat;
}.
(** Source: config/mod.rs `pub struct MultipartCheck` *)
Record MultipartCheck := { mc_field : MultipartField; mc_regex : RegexCondition }.
(** Source: config/mod.rs `pub enum ConditionKind` *)
Inductive ConditionKind :=
| CK_ShellExpanded (c : ShellExpandedCondition)
| CK_Regex (regex : RegexCondition)
| CK_AreaRegex (area : ConditionInput) (regex : RegexCondition)
| CK_VariableRegex (name : bytes) (regex : RegexCondition)
| CK_AddressRegex (fields : list AddressField) (regex : RegexCondition)
| CK_IdentifierRegex (fields : list IdentifierField) (regex : RegexCondition)
| CK_KeywordRegex (fields : list KeywordField) (regex : RegexCondition)
| CK_Multipart (checks : list MultipartCheck)
| CK_Program (command : bytes)
| CK_SmallerThan (size : Z)
| CK_LargerThan (size : Z).
(** Source: config/mod.rs `pub struct Condition ` *)
Record Condition := { cond_line : nat; cond_negated : bool; cond_kind : ConditionKind }.

(** Source: config/mod.rs `pub enum Statement` *)
Inductive Statement :=
| S_Assignment (a : Assignment)
| S_Unset (u : Unset)
| S_CommandAssignment (a : CommandAssignment)
| S_Include (e : RcFileExpression)
| S_Switch (e : RcFileExpression)
| S_Recipe (r : Recipe)
with Recipe :=
| MkRecipe (line action_line : nat) (options : RecipeOptions) (lock : option PathExpression)
           (conditions : list Condition) (action : RecipeAction)
with RecipeAction :=
| RA_Deliver (d : Destination)
| RA_Pipe (p : PipeAction)
| RA_Capture (c : CaptureAction)
| RA_Block (statements : list Statement)
| RA_Headers (h : HeaderAction).

(** Source: config/mod.rs `pub struct Config` *)
Record Config := {
  statements : list Statement; cfg_source_location : SourceLocation;
  initial_variables : list (bytes * bytes * VariableSource);
  parse_counts : RcParseCounts; initial_linebuf : Z;
}.
End tree.
