(* ===== verification/Limits.v ===== *)
(** Message limits and bounded buffers: [src/src/limits.rs] and
    [src/src/bounded_bytes.rs].  [from_config] folds the assignments of an rc
    file over the default limits; [try_extend] is the accumulator through
    which every bounded value of the program is built. *)
From S2P Require Import Prelude Config Numbers.

(** * [limits.rs] *)

(** Source: limits.rs `const KIB` *)
Definition KIB : Z := 1024.
(** Source: limits.rs `const MIB` *)
Definition MIB : Z := 1024 * KIB.
(** Source: limits.rs `const GIB` *)
Definition GIB : Z := 1024 * MIB.
(** Source: limits.rs `pub const MAX_MESSAGE_SIZE` *)
Definition MAX_MESSAGE_SIZE : Z := 256 * MIB.

(** Source: limits.rs `pub struct MessageLimits` *)
Record MessageLimits := {
  message_size : Z; headers_size : Z; body_size : Z; header_line_size : Z; header_field_size : Z;
}.

#[export] Instance MessageLimits_eq_dec : EqDecision MessageLimits.
Proof. solve_decision. Defined.

(** Source: limits.rs `fn default() -> Self` *)
Definition default_limits : MessageLimits := {|
  message_size := 64 * MIB; headers_size := 256 * KIB; body_size := 64 * MIB;
  header_line_size := 64 * KIB; header_field_size := 256 * KIB;
|}.

(** Source: limits.rs `fn default_limit` *)
Definition default_limit (v : MessageLimitVariable) : Z :=
  match v with
  | MLV_MessageSize => message_size default_limits
  | MLV_HeadersSize => headers_size default_limits
  | MLV_BodySize => body_size default_limits
  | MLV_HeaderLineSize => header_line_size default_limits
  | MLV_HeaderFieldSize => header_field_size default_limits
  end.

(** [limit_target] returns a mutable slot and its ceiling; the model splits
    it into a getter, a setter and the ceiling.
    Source: limits.rs `fn limit_target` *)
Definition limit_ceiling (v : MessageLimitVariable) : Z :=
  match v with
  | MLV_MessageSize => MAX_MESSAGE_SIZE
  | MLV_HeadersSize => 16 * MIB
  | MLV_BodySize => MAX_MESSAGE_SIZE
  | MLV_HeaderLineSize => MIB
  | MLV_HeaderFieldSize => 16 * MIB
  end.
(** Source: limits.rs `fn limit_target` *)
Definition get_limit (v : MessageLimitVariable) (l : MessageLimits) : Z :=
  match v with
  | MLV_MessageSize => message_size l
  | MLV_HeadersSize => headers_size l
  | MLV_BodySize => body_size l
  | MLV_HeaderLineSize => header_line_size l
  | MLV_HeaderFieldSize => header_field_size l
  end.
(** Source: limits.rs `fn limit_target` *)
Definition set_limit (v : MessageLimitVariable) (x : Z) (l : MessageLimits) : MessageLimits :=
  let '(Build_MessageLimits m h b hl hf) := l in
  match v with
  | MLV_MessageSize => Build_MessageLimits x h b hl hf
  | MLV_HeadersSize => Build_MessageLimits m x b hl hf
  | MLV_BodySize => Build_MessageLimits m h x hl hf
  | MLV_HeaderLineSize => Build_MessageLimits m h b x hf
  | MLV_HeaderFieldSize => Build_MessageLimits m h b hl x
  end.

(** The reasons [parse_size] and [from_config] report. *)
Inductive SizeReason := SR_Malformed | SR_UnknownSuffix | SR_NotInteger | SR_Overflow | SR_Ceiling (ceiling : Z).

(** Source: limits.rs `pub struct LimitConfigError` *)
Record LimitConfigError := { lce_line : nat; lce_name : bytes; lce_reason : SizeReason }.

Definition u64_checked_mul (a b : Z) : option Z := if a * b <? 2 ^ 64 then Some (a * b) else None.

Section limits.
  Context {T : Target} {R : RegexEngine}.

(** [usize::try_from(u64)]. *)
Definition usize_try_from (v : Z) : option Z := if v <=? usize_max then Some v else None.

(** Source: limits.rs `fn parse_size` *)
Definition parse_size (input : bytes) : result SizeReason Z :=
  if bool_decide (input = []) || existsb is_ascii_whitespace input then Err SR_Malformed
  else
    let front := take (length input - 1) input in
    '(digits, multiplier) ←
      match last input with
      | Some b =>
          if (b =? 107) || (b =? 75) then Ok (front, KIB)
          else if (b =? 109) || (b =? 77) then Ok (front, MIB)
          else if (b =? 103) || (b =? 71) then Ok (front, GIB)
          else if is_ascii_digit b then Ok (input, 1)
          else Err SR_UnknownSuffix
      | None => Err SR_UnknownSuffix
      end;
    if bool_decide (digits = []) || negb (forallb is_ascii_digit digits) then Err SR_NotInteger
    else
      ok_or SR_Overflow
        (v ← parse_u64 digits; p ← u64_checked_mul v multiplier; usize_try_from p).

(** One iteration of the loop of [from_config].
    Source: limits.rs:46-74 `MessageLimits::from_config (loop body)` *)
Definition limit_statement (limits : MessageLimits) (s : Statement) : result LimitConfigError MessageLimits :=
  match s with
  | S_Assignment a =>
      match as_target a with
      | MessageLimit v =>
          value ← map_err (Build_LimitConfigError (as_line a) (as_name a)) (parse_size (as_value a));
          if limit_ceiling v <? value
          then Err (Build_LimitConfigError (as_line a) (as_name a) (SR_Ceiling (limit_ceiling v)))
          else Ok (set_limit v value limits)
      | _ => Ok limits
      end
  | S_Unset u =>
      match un_target u with
      | MessageLimit v => Ok (set_limit v (default_limit v) limits)
      | _ => Ok limits
      end
  | _ => Ok limits
  end.

Fixpoint limit_statements (limits : MessageLimits) (l : list Statement) : result LimitConfigError MessageLimits :=
  match l with
  | [] => Ok limits
  | s :: l' => limits' ← limit_statement limits s; limit_statements limits' l'
  end.

(** Source: limits.rs `pub fn from_config` *)
Definition from_config (config : Config) : result LimitConfigError MessageLimits :=
  limit_statements default_limits (statements config).
End limits.

(** * [bounded_bytes.rs] *)

(** Source: bounded_bytes.rs `pub(crate) enum BoundedBytesError` *)
Inductive BoundedBytesError := LengthOverflow | BB_LimitExceeded (attempted : nat).

(** Source: bounded_bytes.rs `pub(crate) struct BoundedBytes` *)
Record BoundedBytes := { bb_bytes : bytes; bb_limit : Z }.

Section bounded.
  Context {T : Target}.

(** Source: bounded_bytes.rs `fn try_extend_vec` *)
Definition try_extend_vec (output : bytes) (limit : Z) (value : bytes) : result BoundedBytesError bytes :=
  new_len ← ok_or LengthOverflow (checked_add (length output) (length value));
  if limit <? Z.of_nat new_len then Err (BB_LimitExceeded new_len) else Ok (output ++ value).

(** Source: bounded_bytes.rs `fn with_capacity` *)
Definition with_capacity (limit : Z) : BoundedBytes := {| bb_bytes := []; bb_limit := limit |}.
(** Source: bounded_bytes.rs `pub(crate) fn len(` *)
Definition bb_len (b : BoundedBytes) : nat := length (bb_bytes b).
(** Source: bounded_bytes.rs `fn remaining` *)
Definition bb_remaining (b : BoundedBytes) : result BoundedBytesError Z :=
  if len (bb_bytes b) <=? bb_limit b then Ok (bb_limit b - len (bb_bytes b)) else Err LengthOverflow.
(** Source: bounded_bytes.rs `fn try_extend(` *)
Definition try_extend (b : BoundedBytes) (value : bytes) : result BoundedBytesError BoundedBytes :=
  bs ← try_extend_vec (bb_bytes b) (bb_limit b) value;
  Ok {| bb_bytes := bs; bb_limit := bb_limit b |}.
(** Source: bounded_bytes.rs `fn into_vec` *)
Definition into_vec (b : BoundedBytes) : bytes := bb_bytes b.
End bounded.

(** * Lemmas *)

Section bounded_lemmas.
Context {T : Target}.

(** The invariant of the accumulator: its content never exceeds its limit. *)
Definition bb_ok (b : BoundedBytes) : Prop := len (bb_bytes b) <= bb_limit b.

Lemma try_extend_ok b v b' :
  try_extend b v = Ok b' ->
  bb_bytes b' = bb_bytes b ++ v /\ bb_limit b' = bb_limit b /\ bb_ok b'.
Proof.
  unfold try_extend, try_extend_vec, ok_or, bb_ok.
  destruct (checked_add _ _) as [n|] eqn:Hn; simpl; [|done].
  apply checked_add_Some in Hn as [-> _].
  case_match eqn:Hl; simpl; intros [= <-]; simpl. rewrite length_app. apply Z.ltb_ge in Hl. auto with lia.
Qed.

Lemma try_extend_fits b v :
  len (bb_bytes b ++ v) <= bb_limit b -> bb_limit b <= usize_max ->
  try_extend b v = Ok {| bb_bytes := bb_bytes b ++ v; bb_limit := bb_limit b |}.
Proof.
  rewrite length_app. intros H1 H2. unfold try_extend, try_extend_vec, ok_or.
  destruct (checked_add _ _) as [n|] eqn:Hn.
  - apply checked_add_Some in Hn as [-> _]. simpl.
    rewrite (proj2 (Z.ltb_ge _ _)) by lia. done.
  - apply checked_add_None in Hn. lia.
Qed.

Lemma try_extend_err b v e :
  try_extend b v = Err e ->
  match e with
  | LengthOverflow => usize_max < len (bb_bytes b ++ v)
  | BB_LimitExceeded n => Z.of_nat n = len (bb_bytes b ++ v) /\ bb_limit b < Z.of_nat n
  end.
Proof.
  rewrite length_app. unfold try_extend, try_extend_vec, ok_or.
  destruct (checked_add _ _) as [n|] eqn:Hn; simpl.
  - apply checked_add_Some in Hn as [-> _].
    case_match eqn:Hl; simpl; intros [= <-]. apply Z.ltb_lt in Hl. lia.
  - apply checked_add_None in Hn. intros [= <-]. lia.
Qed.
End bounded_lemmas.

(** * Properties *)

Section limit_lemmas.
Context {T : Target} {R : RegexEngine}.

Lemma get_set_limit v x l : get_limit v (set_limit v x l) = x.
Proof. by destruct v, l. Qed.
Lemma get_set_limit_ne v w x l : v <> w -> get_limit w (set_limit v x l) = get_limit w l.
Proof. by destruct v, w, l. Qed.

(** The multiplier a size suffix stands for; [None] is no suffix. *)
Definition suffix_multiplier (suffix : bytes) : option Z :=
  match suffix with
  | [] => Some 1
  | [b] => if (b =? 107) || (b =? 75) then Some KIB
           else if (b =? 109) || (b =? 77) then Some MIB
           else if (b =? 103) || (b =? 71) then Some GIB else None
  | _ => None
  end.

Lemma suffix_multiplier_nonneg s m : suffix_multiplier s = Some m -> 1 <= m.
Proof.
  destruct s as [|b [|]]; simpl; [intros [= <-]; lia| |done].
  unfold GIB, MIB, KIB. intros Hm. repeat case_match; naive_solver lia.
Qed.

Lemma parse_size_inv input v :
  parse_size input = Ok v ->
  exists digits suffix m,
    input = digits ++ suffix /\ digits <> [] /\ forallb is_ascii_digit digits = true /\
    suffix_multiplier suffix = Some m /\ v = decimal_value digits * m /\ 0 <= v <= usize_max.
Proof.
  unfold parse_size. destruct (_ || _) eqn:Hpre; [done|].
  apply orb_false_iff in Hpre as [Hne%bool_decide_eq_false _].
  destruct input as [|d0 input0 _] using rev_ind; [done|]. clear Hne.
  rewrite last_snoc, length_app, Nat.add_sub, take_app_length.
  set (sel := if (d0 =? 107) || (d0 =? 75) then Ok (input0, KIB) else _).
  intros H.
  assert (exists digits suffix m, input0 ++ [d0] = digits ++ suffix /\
            suffix_multiplier suffix = Some m /\ sel = Ok (digits, m)) as (ds & suf & m & Hin & Hm & Hsel).
  { destruct sel as [[ds m]|] eqn:Hs; [|done]. subst sel. exists ds, (drop (length ds) (input0 ++ [d0])), m.
    repeat case_match; simplify_eq; rewrite ?drop_app_length, ?drop_all, ?app_nil_r; simpl;
      repeat split; try done; by repeat case_match. }
  exists ds, suf, m. rewrite Hsel in H. simpl in H.
  destruct (_ || _) eqn:Hd in H; [done|].
  apply orb_false_iff in Hd as [Hd1%bool_decide_eq_false Hd2%negb_false_iff].
  pose proof (decimal_value_nonneg _ Hd2). apply suffix_multiplier_nonneg in Hm as Hm1.
  unfold ok_or, parse_u64, u64_checked_mul, usize_try_from in H. rewrite parse_unsigned_digits in H by done.
  repeat (case_match; simpl in *; try done); simplify_eq/=.
  repeat split; try done; try nia.
Qed.

Lemma usize_max_upper : usize_max <= 2 ^ 64 - 1.
Proof. unfold usize_max. destruct pointer_width_ok as [-> | ->]; lia. Qed.

Lemma existsb_false {A} (p : A -> bool) l : Forall (fun x => p x = false) l -> existsb p l = false.
Proof. induction 1 as [|x l Hx _ IH]; simpl; by rewrite ?Hx, ?IH. Qed.

Lemma parse_size_complete digits suffix m v :
  digits <> [] -> forallb is_ascii_digit digits = true -> suffix_multiplier suffix = Some m ->
  v = decimal_value digits * m -> v <= usize_max -> parse_size (digits ++ suffix) = Ok v.
Proof.
  intros Hne Hd Hs -> Hmax.
  pose proof (decimal_value_nonneg _ Hd) as Hpos. apply suffix_multiplier_nonneg in Hs as Hm.
  pose proof usize_max_upper as Hu.
  assert (existsb is_ascii_whitespace (digits ++ suffix) = false) as Hw.
  { apply existsb_false, Forall_app. rewrite forallb_forall in Hd. split.
    - apply Forall_forall. intros x Hx%list_elem_of_In. apply Hd in Hx.
      revert Hx. unfold is_ascii_digit, between, is_ascii_whitespace. lia.
    - destruct suffix as [|b [|]]; [constructor| |done]. repeat constructor. simpl in Hs.
      unfold is_ascii_whitespace. destruct (Z.leb_spec b 32); [|lia].
      repeat case_match; first [discriminate | lia]. }
  assert (parse_size (digits ++ suffix) =
    ok_or SR_Overflow (v ← parse_u64 digits; p ← u64_checked_mul v m; usize_try_from p)) as ->.
  { unfold parse_size. rewrite Hw, orb_false_r, bool_decide_false by by destruct digits.
    destruct suffix as [|b [|]]; [| |done]; simpl in Hs.
    - rewrite app_nil_r. destruct digits as [|d ds _] using rev_ind; [done|].
      rewrite last_snoc. rewrite forallb_app in Hd. simpl in Hd. rewrite andb_true_r in Hd.
      apply andb_true_iff in Hd as [Hds Hd]. injection Hs as <-.
      rewrite Hd. unfold is_ascii_digit, between in Hd.
      repeat (rewrite (proj2 (Z.eqb_neq d _)) by lia). simpl.
      rewrite bool_decide_false by by destruct ds.
      rewrite forallb_app. simpl. unfold is_ascii_digit at 2, between. by rewrite Hds, Hd.
    - rewrite last_snoc, length_app, Nat.add_sub, take_app_length.
      repeat case_match; simplify_eq/=;
        by rewrite bool_decide_false, Hd by done. }
  unfold parse_u64, u64_checked_mul, usize_try_from. rewrite parse_unsigned_digits by done.
  rewrite (proj2 (Z.leb_le _ _)) by nia. simpl.
  rewrite (proj2 (Z.ltb_lt _ _)) by nia. simpl.
  by rewrite (proj2 (Z.leb_le _ _)) by nia.
Qed.

(** The setting a statement makes to limit [v]: [None] none, else the value. *)
Definition statement_setting (v : MessageLimitVariable) (s : Statement) : option Z :=
  match s with
  | S_Assignment a =>
      if decide (as_target a = MessageLimit v)
      then match parse_size (as_value a) with Ok x => Some x | Err _ => None end else None
  | S_Unset u => if decide (un_target u = MessageLimit v) then Some (default_limit v) else None
  | _ => None
  end.

Definition setting_of (v : MessageLimitVariable) (init : Z) (l : list Statement) : Z :=
  foldl (fun x s => default x (statement_setting v s)) init l.

Lemma limit_statement_get l s l' v :
  limit_statement l s = Ok l' ->
  get_limit v l' = default (get_limit v l) (statement_setting v s) /\
  (0 <= get_limit v l <= limit_ceiling v -> 0 <= get_limit v l' <= limit_ceiling v).
Proof.
  unfold limit_statement, statement_setting.
  destruct s as [a|u|a|e|e|r]; try (intros [= <-]; done).
  - destruct (as_target a) eqn:Ht; try (intros [= <-]; simplify_option_eq; done).
    destruct (parse_size (as_value a)) as [x|] eqn:Hp; [|done]. simpl.
    case_match eqn:Hc; [done|]. intros [= <-]. apply Z.ltb_ge in Hc.
    apply parse_size_inv in Hp as (_ & _ & _ & _ & _ & _ & _ & _ & Hx).
    destruct (decide (v0 = v)) as [->|Hne]; simplify_option_eq; rewrite ?get_set_limit, ?get_set_limit_ne by done; auto with lia.
  - destruct (un_target u) eqn:Ht; try (intros [= <-]; simplify_option_eq; done).
    intros [= <-]. destruct (decide (v0 = v)) as [->|Hne]; simplify_option_eq;
      rewrite ?get_set_limit, ?get_set_limit_ne by done; split; try done.
    destruct v; unfold default_limit; simpl; intros _; unfold MAX_MESSAGE_SIZE, MIB, KIB; lia.
Qed.

Lemma limit_statements_get ss l l' v :
  limit_statements l ss = Ok l' ->
  get_limit v l' = setting_of v (get_limit v l) ss /\
  (0 <= get_limit v l <= limit_ceiling v -> 0 <= get_limit v l' <= limit_ceiling v).
Proof.
  revert l. induction ss as [|s ss IH]; simpl; intros l; [by intros [= <-]|].
  destruct (limit_statement l s) as [l1|] eqn:H1; [|done]. simpl. intros H2.
  apply (limit_statement_get _ _ _ v) in H1 as [Hg1 Hb1]. apply IH in H2 as [-> Hb2].
  split; [by rewrite Hg1|auto].
Qed.
End limit_lemmas.

(** Whatever an rc file assigns, the limits [from_config] accepts are the
    value of the last assignment or unset of each limit (the default when
    there is none) and lie between 0 and the hard ceiling of that limit. *)
Theorem from_config_bounded {T : Target} {R : RegexEngine} config limits v :
  from_config config = Ok limits ->
  get_limit v limits = setting_of v (default_limit v) (statements config) /\
  0 <= get_limit v limits <= limit_ceiling v.
Proof.
  intros Hc. destruct (limit_statements_get _ _ _ v Hc) as [Hg Hb].
  rewrite Hg at 1. split; [by destruct v|].
  apply Hb. destruct v; simpl; unfold MAX_MESSAGE_SIZE, MIB, KIB; lia.
Qed.

(** [parse_size] accepts exactly a non-empty run of decimal digits with an
    optional K, M or G suffix whose product fits [usize], and returns that
    product; everything else is an error. *)
Theorem parse_size_spec {T : Target} input v :
  parse_size input = Ok v <->
  exists digits suffix m,
    input = digits ++ suffix /\ digits <> [] /\ forallb is_ascii_digit digits = true /\
    suffix_multiplier suffix = Some m /\ v = decimal_value digits * m /\ v <= usize_max.
Proof.
  split.
  - intros H1. apply parse_size_inv in H1 as (ds & suf & m & ?). exists ds, suf, m. intuition lia.
  - intros (ds & suf & m & -> & ? & ? & ? & ? & ?). by eapply parse_size_complete.
Qed.

(** The limits of an rc file that sets one limit twice and unsets another. *)
Lemma from_config_bounded_witness :
  exists config : @Config (Build_RegexEngine unit (fun _ _ => false) (fun _ _ => None)),
  exists limits, from_config config = Ok limits /\ 0 <= get_limit MLV_BodySize limits <= limit_ceiling MLV_BodySize.
Proof.
  pose (E := Build_RegexEngine unit (fun _ _ => false) (fun _ _ => None)).
  pose (a := fun v s => S_Assignment (R := E) {| as_line := 1; as_name := []; as_value := B s;
               as_target := MessageLimit v; as_expansion := None |}).
  pose (c := @Build_Config E [a MLV_BodySize "3k"; a MLV_BodySize "20M"; a MLV_HeadersSize "0"]%string
               {| loc_line := 0; loc_file := None; loc_truncated := false |} []
               (Build_RcParseCounts 0 0 0 0 0) 2048).
  exists c. eexists. split; [vm_compute; reflexivity|].
  eapply (from_config_bounded (R := E) c). vm_compute. reflexivity.
Defined.
