(* ===== verification/Utf8.v ===== *)
(** UTF-8 text.  A Rust [&str] is a list of bytes that [valid_utf8] accepts;
    the crate relies on [str::from_utf8], [chars], [is_char_boundary] and the
    predicates of [char].  These are the standard library's definitions. *)
From S2P Require Import Prelude.

Definition cont_byte (b : byte) : bool := between 128 191 b.

(** The first character of a byte string and the bytes after it; [None] where
    [str::from_utf8] finds an error (or at the end). *)
Definition next_char (l : bytes) : option (Z * bytes) :=
  match l with
  | [] => None
  | b0 :: l0 =>
      if between 0 127 b0 then Some (b0, l0) else
      match l0 with
      | [] => None
      | b1 :: l1 =>
          if between 194 223 b0 then
            if cont_byte b1 then Some ((b0 - 192) * 64 + (b1 - 128), l1) else None
          else
          match l1 with
          | [] => None
          | b2 :: l2 =>
              if between 224 239 b0 then
                if between (if b0 =? 224 then 160 else 128) (if b0 =? 237 then 159 else 191) b1 && cont_byte b2
                then Some (((b0 - 224) * 64 + (b1 - 128)) * 64 + (b2 - 128), l2) else None
              else
              match l2 with
              | [] => None
              | b3 :: l3 =>
                  if between 240 244 b0 &&
                     between (if b0 =? 240 then 144 else 128) (if b0 =? 244 then 143 else 191) b1 &&
                     cont_byte b2 && cont_byte b3
                  then Some ((((b0 - 240) * 64 + (b1 - 128)) * 64 + (b2 - 128)) * 64 + (b3 - 128), l3)
                  else None
              end
          end
      end
  end.

Fixpoint chars_fuel (fuel : nat) (l : bytes) : option (list Z) :=
  match l, fuel with
  | [], _ => Some []
  | _, O => None
  | _, S fuel' => '(c, l') ← next_char l; cons c <$> chars_fuel fuel' l'
  end.

(** [str::from_utf8(l).map(|s| s.chars())]. *)
Definition utf8_chars (l : bytes) : option (list Z) := chars_fuel (length l) l.
Definition valid_utf8 (l : bytes) : bool := bool_decide (is_Some (utf8_chars l)).

(** [s.chars()] of a [&str]. *)
Definition chars (l : bytes) : list Z := default [] (utf8_chars l).

(** [s.is_char_boundary(i)] *)
Definition is_char_boundary (l : bytes) (i : nat) : bool :=
  (i =? 0)%nat || match l !! i with Some b => negb (cont_byte b) | None => (i =? length l)%nat end.

(** [char::is_control]: the category Cc. *)
Definition is_control (c : Z) : bool := between 0 31 c || between 127 159 c.

(** [char::encode_utf8] for the code points below 2048. *)
Definition encode_small (c : Z) : bytes := if c <? 128 then [c] else [192 + c / 64; 128 + c mod 64].

(** [char::is_whitespace]: the property White_Space. *)
Definition is_whitespace (c : Z) : bool :=
  between 9 13 c || existsb (Z.eqb c) [32; 133; 160; 5760; 8232; 8233; 8239; 8287; 12288] || between 8192 8202 c.

Fixpoint trim_start_fuel (fuel : nat) (l : bytes) : bytes :=
  match fuel with
  | O => l
  | S fuel' =>
      match next_char l with
      | Some (c, l') => if is_whitespace c then trim_start_fuel fuel' l' else l
      | None => l
      end
  end.
(** [s.trim_start()] *)
Definition str_trim_start (l : bytes) : bytes := trim_start_fuel (length l) l.

(** The index after the last character that is not white space. *)
Fixpoint text_end_fuel (fuel : nat) (l : bytes) (index end_ : nat) : nat :=
  match fuel with
  | O => end_
  | S fuel' =>
      match next_char l with
      | Some (c, l') =>
          let index' := (index + (length l - length l'))%nat in
          text_end_fuel fuel' l' index' (if is_whitespace c then end_ else index')
      | None => end_
      end
  end.
(** [s.trim_end()] *)
Definition str_trim_end (l : bytes) : bytes := take (text_end_fuel (length l) l 0 0) l.
(** [s.trim()] *)
Definition str_trim (l : bytes) : bytes := str_trim_end (str_trim_start l).

Definition is_byte (b : byte) : Prop := 0 <= b < 256.

(** * Facts *)

Lemma between_true lo hi x : between lo hi x = true <-> lo <= x <= hi.
Proof. unfold between. rewrite andb_true_iff, !Z.leb_le. done. Qed.

(** The bytes of one character, followed by anything. *)
Lemma next_char_split l c r :
  next_char l = Some (c, r) ->
  exists b0 tl, l = (b0 :: tl) ++ r /\ Forall (fun b => cont_byte b = true) tl /\ (length tl <= 3)%nat /\
    cont_byte b0 = false /\ Forall is_byte (b0 :: tl) /\
    (tl = [] -> c = b0 /\ c < 128) /\ (tl <> [] -> 128 <= c) /\
    forall r', next_char ((b0 :: tl) ++ r') = Some (c, r').
Proof.
  destruct l as [|b0 l0]; [done|]. cbn [next_char].
  destruct (between 0 127 b0) eqn:H0.
  { intros [= <- <-]. apply between_true in H0. exists b0, []. split_and!; try done; try (simpl; lia).
    - unfold cont_byte. apply not_true_iff_false. rewrite between_true. lia.
    - repeat constructor; unfold is_byte; lia.
    - intros r'. cbn. by rewrite (proj2 (between_true _ _ _)). }
  destruct l0 as [|b1 l1]; [done|].
  destruct (between 194 223 b0) eqn:H1.
  { destruct (cont_byte b1) eqn:Hc1; [|done]. intros [= <- <-].
    exists b0, [b1]. unfold cont_byte in *. split_and!; try done; try (simpl; lia).
    - by repeat constructor.
    - apply not_true_iff_false. rewrite between_true in *. lia.
    - rewrite between_true in *. repeat constructor; unfold is_byte; lia.
    - intros _. rewrite between_true in *. lia.
    - intros r'. cbn. unfold cont_byte. by rewrite H0, H1, Hc1. }
  destruct l1 as [|b2 l2]; [done|].
  destruct (between 224 239 b0) eqn:H2.
  { destruct (between _ _ b1) eqn:Hb1; [|done]. destruct (cont_byte b2) eqn:Hc2; [|done]. intros [= <- <-].
    assert (between 128 191 b1 = true) as Hc1.
    { rewrite between_true in *. destruct (b0 =? 224), (b0 =? 237); lia. }
    assert (b0 = 224 -> 160 <= b1) as Hlow.
    { intros ->. rewrite between_true in *. simpl in Hb1. lia. }
    exists b0, [b1; b2]. unfold cont_byte in *. split_and!; try done; try (simpl; lia).
    - by repeat constructor.
    - apply not_true_iff_false. rewrite between_true in *. lia.
    - rewrite between_true in *. repeat constructor; unfold is_byte; lia.
    - intros _. rewrite between_true in *. lia.
    - intros r'. cbn. unfold cont_byte. by rewrite H0, H1, H2, Hb1, Hc2. }
  destruct l2 as [|b3 l3]; [done|].
  destruct (between 240 244 b0) eqn:H3; [|done].
  destruct (between _ _ b1) eqn:Hb1; [|done].
  destruct (cont_byte b2) eqn:Hc2; [|done]. destruct (cont_byte b3) eqn:Hc3; [|done]. intros [= <- <-].
  assert (between 128 191 b1 = true) as Hc1.
  { rewrite between_true in *. destruct (b0 =? 240), (b0 =? 244); lia. }
  assert (b0 = 240 -> 144 <= b1) as Hlow.
  { intros ->. rewrite between_true in *. simpl in Hb1. lia. }
  exists b0, [b1; b2; b3]. unfold cont_byte in *. split_and!; try done; try (simpl; lia).
  - by repeat constructor.
  - apply not_true_iff_false. rewrite between_true in *. lia.
  - rewrite between_true in *. repeat constructor; unfold is_byte; lia.
  - intros _. rewrite between_true in *. lia.
  - intros r'. cbn. unfold cont_byte. by rewrite H0, H1, H2, H3, Hb1, Hc2, Hc3.
Qed.

Lemma chars_fuel_enough n l : (length l <= n)%nat -> chars_fuel n l = utf8_chars l.
Proof.
  unfold utf8_chars. generalize (le_n (length l)). generalize (length l) at 2 4. intros m Hm Hn. revert m n Hm Hn.
  induction l as [l IH] using (induction_ltof1 _ (@length Z)). unfold ltof in IH. intros m n Hm Hn.
  destruct l as [|b l]; [by destruct m, n|]. destruct m as [|m]; [simpl in Hm; lia|]. destruct n as [|n]; [simpl in Hn; lia|].
  cbn [chars_fuel]. destruct (next_char (b :: l)) as [[c r]|] eqn:Hc; [|done]. simpl.
  apply next_char_split in Hc as (b0 & tl & Hl & _). apply (f_equal length) in Hl. rewrite length_app in Hl. simpl in *.
  rewrite (IH r ltac:(lia) m n) by lia. done.
Qed.

Lemma utf8_chars_unfold l :
  l <> [] -> utf8_chars l = ('(c, r) ← next_char l; cons c <$> utf8_chars r).
Proof.
  intros Hl. unfold utf8_chars at 1. destruct l as [|b l]; [done|]. cbn [length chars_fuel].
  destruct (next_char (b :: l)) as [[c r]|] eqn:Hc; [|done]. simpl.
  apply next_char_split in Hc as (b0 & tl & Hl' & _). apply (f_equal length) in Hl'. rewrite length_app in Hl'. simpl in Hl'.
  rewrite chars_fuel_enough by lia. done.
Qed.

Lemma utf8_chars_app a b ca :
  utf8_chars a = Some ca -> utf8_chars (a ++ b) = (fun cb => ca ++ cb) <$> utf8_chars b.
Proof.
  revert ca. induction a as [a IH] using (induction_ltof1 _ (@length Z)). unfold ltof in IH. intros ca.
  destruct a as [|x a]; [intros [= <-]; simpl; by destruct (utf8_chars b)|].
  rewrite !utf8_chars_unfold by done.
  intros ([c r] & Hc & (cr & Hr & ->)%fmap_Some)%bind_Some.
  apply next_char_split in Hc as (b0 & tl & Hl & _ & _ & _ & _ & _ & _ & Hn). rewrite Hl, <-app_assoc, Hn.
  simpl. rewrite (IH r) with (ca := cr); [|apply (f_equal length) in Hl; rewrite length_app in Hl; simpl in *; lia|done].
  destruct (utf8_chars b); done.
Qed.

(** An ASCII text is its characters. *)
Lemma utf8_chars_ascii l cs : utf8_chars l = Some cs -> Forall (fun c => c < 128) cs -> l = cs.
Proof.
  revert cs. induction l as [l IH] using (induction_ltof1 _ (@length Z)). unfold ltof in IH. intros cs.
  destruct l as [|x l]; [by intros [= <-]|].
  rewrite utf8_chars_unfold by done. intros ([c r] & Hc & (cr & Hr & ->)%fmap_Some)%bind_Some [H1 H2]%Forall_cons.
  apply next_char_split in Hc as (b0 & tl & Hl & _ & _ & _ & _ & Ht & Ht' & _).
  destruct tl as [|b1 tl]; [|assert (128 <= c) by (by apply Ht'); lia]. destruct (Ht eq_refl) as [-> _]. rewrite Hl. cbn [app].
  f_equal. apply IH; [|done|done]. rewrite Hl. simpl. lia.
Qed.

(** A valid text cut at a character boundary. *)
Lemma utf8_chars_split a b cs :
  utf8_chars (a ++ b) = Some cs -> (forall x, head b = Some x -> cont_byte x = false) ->
  exists ca cb, utf8_chars a = Some ca /\ utf8_chars b = Some cb /\ cs = ca ++ cb.
Proof.
  intros H Hb. revert cs H. induction a as [a IH] using (induction_ltof1 _ (@length Z)). unfold ltof in IH. intros cs.
  destruct a as [|x a]; [intros H; by exists [], cs|].
  rewrite utf8_chars_unfold by done. intros ([c r] & Hc & (cr & Hr & ->)%fmap_Some)%bind_Some.
  apply next_char_split in Hc as (b0 & tl & Hl & Htl & _ & _ & _ & _ & _ & Hn).
  injection Hl as -> Hl. apply app_eq_inv in Hl as [(k & -> & ->)|(k & -> & Hk)].
  - apply IH in Hr as (ca & cb & Hca & Hcb & ->); [|simpl; rewrite length_app; lia].
    exists (c :: ca), cb. split_and!; [|done|done]. rewrite utf8_chars_unfold by done.
    change (b0 :: tl ++ k) with ((b0 :: tl) ++ k). rewrite Hn. simpl. by rewrite Hca.
  - destruct k as [|y k].
    + simpl in Hk. subst r. rewrite app_nil_r in *. exists [c], cr. split_and!; [|done|done].
      rewrite utf8_chars_unfold by done. specialize (Hn []). rewrite app_nil_r in Hn. by rewrite Hn.
    + exfalso. rewrite Forall_app, Forall_cons in Htl. destruct Htl as (_ & Hy & _).
      rewrite (Hb y) in Hy; [done|]. by rewrite Hk.
Qed.

(** Where a character is looked for, the text up to the boundary is the
    whole of it. *)
Lemma utf8_boundary l cs i :
  utf8_chars l = Some cs -> is_char_boundary l i = true -> (i <= length l)%nat ->
  exists ca cb, utf8_chars (take i l) = Some ca /\ utf8_chars (drop i l) = Some cb /\ cs = ca ++ cb.
Proof.
  intros Hl Hb Hi. apply utf8_chars_split; [by rewrite take_drop|].
  intros x Hx. unfold is_char_boundary in Hb. destruct i as [|i].
  - rewrite drop_0 in Hx. destruct l as [|y l]; [done|]. injection Hx as ->.
    rewrite utf8_chars_unfold in Hl by done. apply bind_Some in Hl as ([c r] & Hc & _).
    apply next_char_split in Hc as (b0 & tl & Hl & _ & _ & Hb0 & _). by injection Hl as -> _.
  - simpl in Hb. assert (l !! S i = Some x) as Hlk.
    { rewrite <-(take_drop (S i) l). rewrite lookup_app_r by (rewrite length_take; lia).
      rewrite length_take, Nat.min_l, Nat.sub_diag by done. by destruct (drop (S i) l). }
    rewrite Hlk in Hb. by apply negb_true_iff.
Qed.

Lemma utf8_ascii l : Forall (fun b => 0 <= b < 128) l -> utf8_chars l = Some l.
Proof.
  induction 1 as [|b l Hb _ IH]; [done|]. rewrite utf8_chars_unfold by done. cbn [next_char].
  rewrite (proj2 (between_true 0 127 b)) by lia. cbn [mbind option_bind]. by rewrite IH.
Qed.

Lemma valid_utf8_ascii l : Forall (fun b => 0 <= b < 128) l -> valid_utf8 l = true.
Proof. intros H. unfold valid_utf8. rewrite utf8_ascii by done. done. Qed.
