(* ===== verification/Variables.v ===== *)
(** The registry of variables: [src/src/config/variables.rs], the positional
    arguments of [src/src/config/arguments.rs], and the limits of a parse in
    [src/src/config/mod.rs].  What a name means, who may set it, which values
    it accepts, and how the counted limits move.  Error texts are kept. *)
From S2P Require Import Prelude Numbers Utf8 Config.

(** * Values *)

(** Source: config/arguments.rs `pub const MAX_POSITIONAL_ARGUMENTS` *)
Definition MAX_POSITIONAL_ARGUMENTS : nat := 256.
(** Source: config/arguments.rs `pub const MAX_POSITIONAL_ARGUMENT_LEN` *)
Definition MAX_POSITIONAL_ARGUMENT_LEN : Z := 64 * 1024.
(** Source: config/arguments.rs `pub const MAX_POSITIONAL_ARGUMENT_BYTES` *)
Definition MAX_POSITIONAL_ARGUMENT_BYTES : Z := 256 * 1024.
(** Source: config/variables.rs `pub const MAX_LOCK_SLEEP_SECONDS` *)
Definition MAX_LOCK_SLEEP_SECONDS : Z := 86400.
(** Source: config/variables.rs `pub const MAX_LOCK_TIMEOUT_SECONDS` *)
Definition MAX_LOCK_TIMEOUT_SECONDS : Z := 86400.
(** Source: config/variables.rs `pub const MAX_PROCESS_TIMEOUT_SECONDS` *)
Definition MAX_PROCESS_TIMEOUT_SECONDS : Z := 86400.
(** Source: config/variables.rs `pub const DEFAULT_LOCK_EXT` *)
Definition DEFAULT_LOCK_EXT : bytes := B ".lock".
(** [0o077]. Source: config/variables.rs `pub const DEFAULT_UMASK` *)
Definition DEFAULT_UMASK : Z := 63.
(** Source: trace/schema.rs `pub const MAX_TRACE_VALUE_SIZE` *)
Definition MAX_TRACE_VALUE_SIZE : Z := 256.
(** Source: hostname.rs `pub const MAX_HOSTNAME_LEN` *)
Definition MAX_HOSTNAME_LEN : Z := 255.
(** Source: config/variables.rs `pub const UNSUPPORTED_PROCMAIL_VARIABLES` *)
Definition UNSUPPORTED_PROCMAIL_VARIABLES : list bytes :=
  B <$> ["DEFAULT"; "ORGMAIL"; "COMSAT"; "DELIVERED"; "DROPPRIVS"; "MSGPREFIX"; "NORESRETRY";
         "PROCMAIL_OVERFLOW"; "SHELLMETAS"; "SUSPEND"; "SENDMAIL"; "SENDMAILFLAGS"; "LIMIT_RC_SIZE"]%string.

(** [value.bytes().all(|byte| byte.is_ascii_digit())] on a string that is not
    empty. *)
Definition all_digits (value : bytes) : bool := negb (bool_decide (value = [])) && forallb is_ascii_digit value.

(** [name.strip_prefix(p)] *)
Definition strip_prefix (l p : bytes) : option bytes := if starts_with l p then Some (drop (length p) l) else None.

Section values.
  Context {T : Target}.

Definition saturating_mul (a b : Z) : Z := Z.min (a * b) usize_max.

(** Source: config/variables.rs `pub(crate) fn parse_shift` *)
Definition parse_shift (value : bytes) : result bytes Z :=
  if negb (all_digits value) then Err (B "SHIFT must be a positive decimal integer")
  else
    let amount :=
      foldl (fun amount digit =>
        Z.min (saturating_add (saturating_mul amount 10) (digit - c_0)) (Z.of_nat MAX_POSITIONAL_ARGUMENTS)) 0 value in
    if amount =? 0 then Err (B "SHIFT must be a positive decimal integer") else Ok amount.
End values.

Definition octal_value (digits : bytes) : Z := foldl (fun v d => v * 8 + (d - c_0)) 0 digits.

(** Source: config/variables.rs `pub fn parse_umask` *)
Definition parse_umask (value : bytes) : result bytes Z :=
  let refused := Err (B "UMASK must be an octal integer from 0000 to 0777") in
  if bool_decide (value = []) || (4 <? len value) || negb (forallb (between 48 55) value) then refused
  else
    let mask := octal_value value in
    if 511 <? mask then refused else Ok mask.

(** Source: config/variables.rs `pub fn validate_trap_command` *)
Definition validate_trap_command (value : bytes) : result bytes () :=
  if existsb (Z.eqb 0) value then Err (B "TRAP command must not contain NUL") else Ok ().

(** Source: config/variables.rs `pub fn validate_lock_ext` *)
Definition validate_lock_ext (value : bytes) : result bytes () :=
  if existsb (Z.eqb 0) value then Err (B "LOCKEXT must not contain NUL")
  else if existsb (Z.eqb c_SLASH) value then Err (B "LOCKEXT must not contain '/'")
  else Ok ().

(** Source: config/variables.rs `pub fn validate_log_abstract` *)
Definition validate_log_abstract (value : bytes) : result bytes () :=
  if existsb (bytes_eqb value) [B "no"; B "yes"; B "all"] then Ok ()
  else Err (B "LOGABSTRACT must be 'no', 'yes', or 'all'").

(** Source: config/variables.rs `pub fn validate_lock_method` *)
Definition validate_lock_method (value : bytes) : result bytes () :=
  if bytes_eqb value (B "flock") || bytes_eqb value (B "dotlock") then Ok ()
  else Err (B "LOCKMETHOD must be 'flock' or 'dotlock'").

(** The three parsers of seconds differ in the name and the bound. *)
Definition seconds_error (name : bytes) (max : Z) : bytes :=
  name ++ B " must be an integer from 1 to " ++ z_decimal max.
Definition parse_seconds (name : bytes) (max : Z) (value : bytes) : result bytes Z :=
  seconds ← ok_or (seconds_error name max) (parse_u64 value);
  if negb (between 1 max seconds) then Err (seconds_error name max) else Ok seconds.

(** Source: config/variables.rs `pub fn parse_lock_timeout_seconds` *)
Definition parse_lock_timeout_seconds : bytes -> result bytes Z := parse_seconds (B "LOCKTIMEOUT") MAX_LOCK_TIMEOUT_SECONDS.
(** Source: config/variables.rs `pub fn parse_lock_sleep_seconds` *)
Definition parse_lock_sleep_seconds : bytes -> result bytes Z := parse_seconds (B "LOCKSLEEP") MAX_LOCK_SLEEP_SECONDS.
(** Source: config/variables.rs `pub fn parse_process_timeout_seconds` *)
Definition parse_process_timeout_seconds : bytes -> result bytes Z := parse_seconds (B "TIMEOUT") MAX_PROCESS_TIMEOUT_SECONDS.

(** * What a target accepts *)

(** Source: config/variables.rs `pub(crate) enum AssignmentPath` *)
Inductive AssignmentPath := AP_Maildir | AP_LogFile | AP_LockFile.

(** Source: config/variables.rs `enum AssignmentValueValidator` *)
Inductive AssignmentValueValidator :=
| AV_None | AV_Log | AV_LockMethod | AV_LockSleep | AV_LockTimeout | AV_ProcessTimeout
| AV_Umask | AV_Trap | AV_LockExt | AV_LogAbstract | AV_Shift.

(** [result.map(drop)] *)
Definition dropped {E A} (m : result E A) : result E () := (fun _ => ()) <$> m.

(** Source: config/variables.rs `fn validate(self, value` *)
Definition validate {T : Target} (v : AssignmentValueValidator) (value : bytes) : result bytes () :=
  match v with
  | AV_None => Ok ()
  | AV_Log =>
      if len value <=? MAX_TRACE_VALUE_SIZE then Ok ()
      else Err (B "LOG value exceeds the hard limit of " ++ z_decimal MAX_TRACE_VALUE_SIZE ++ B " bytes")
  | AV_LockMethod => validate_lock_method value
  | AV_LockSleep => dropped (parse_lock_sleep_seconds value)
  | AV_LockTimeout => dropped (parse_lock_timeout_seconds value)
  | AV_ProcessTimeout => dropped (parse_process_timeout_seconds value)
  | AV_Umask => dropped (parse_umask value)
  | AV_Trap => validate_trap_command value
  | AV_LockExt => validate_lock_ext value
  | AV_LogAbstract => validate_log_abstract value
  | AV_Shift => dropped (parse_shift value)
  end.

(** Source: config/variables.rs `fn value_validator` *)
Definition value_validator (t : AssignmentTarget) : AssignmentValueValidator :=
  match t with
  | Log => AV_Log
  | LockMethod => AV_LockMethod
  | LockSleep => AV_LockSleep
  | LockTimeout => AV_LockTimeout
  | ProcessTimeout => AV_ProcessTimeout
  | Umask => AV_Umask
  | Trap => AV_Trap
  | LockExt => AV_LockExt
  | LogAbstract => AV_LogAbstract
  | Shift => AV_Shift
  | Maildir | LogFile | LogDetail | Verbose | Durability | LockFile | LineBuf | Shell | ShellFlags
  | Path | ExitCode | Host | MessageLimit _ | RcLimit _ | User => AV_None
  end.

(** Source: config/variables.rs `pub(crate) fn validate_known_value` *)
Definition validate_known_value {T : Target} (t : AssignmentTarget) (value : bytes) : result bytes () :=
  match value_validator t with
  | AV_LockMethod | AV_LockSleep | AV_LockTimeout => Ok ()
  | validator => validate validator value
  end.

(** Source: config/variables.rs `pub(crate) fn validate_resolved_value` *)
Definition validate_resolved_value {T : Target} (t : AssignmentTarget) (value : bytes) : result bytes () :=
  validate (value_validator t) value.

(** Source: config/variables.rs `pub(crate) fn path(self)` *)
Definition assignment_path (t : AssignmentTarget) : option AssignmentPath :=
  match t with
  | Maildir => Some AP_Maildir
  | LogFile => Some AP_LogFile
  | LockFile => Some AP_LockFile
  | _ => None
  end.

(** Source: config/variables.rs `pub(crate) fn supports_conditional_assignment` *)
Definition supports_conditional_assignment (t : AssignmentTarget) : bool :=
  match t with
  | User | Maildir | Shell | ShellFlags | Path | ExitCode | Host | Shift | LockMethod | LockFile
  | LockExt | LockSleep | LockTimeout | LineBuf | ProcessTimeout | Umask | Trap | Log | LogAbstract => true
  | LogFile | LogDetail | Verbose | Durability | MessageLimit _ | RcLimit _ => false
  end.

(** Source: config/variables.rs `pub(crate) fn controls_rc_parsing` *)
Definition controls_rc_parsing (t : AssignmentTarget) : bool :=
  match t with RcLimit _ | LineBuf => true | _ => false end.

(** Source: config/variables.rs `pub(crate) fn allowed_in_runtime_rc` *)
Definition allowed_in_runtime_rc (t : AssignmentTarget) : bool :=
  match t with
  | User | Maildir | Shell | ShellFlags | Path | Host | LockMethod | LockFile | LockSleep | LockTimeout
  | LineBuf | ProcessTimeout | Umask | Trap | Log | LogAbstract | Shift | RcLimit _ => true
  | LogFile | LogDetail | Verbose | Durability | LockExt | ExitCode | MessageLimit _ => false
  end.

(** Source: config/variables.rs `pub(crate) fn uses_path_error_label` *)
Definition uses_path_error_label (t : AssignmentTarget) : bool :=
  match t with Maildir | LogFile => true | _ => false end.

(** * Who may set a name *)

(** Source: config/variables.rs `pub enum VariablePolicy` *)
Inductive VariablePolicy :=
| RcOnly (t : AssignmentTarget) | RcOrCommandLine (t : AssignmentTarget)
| RuntimeOnly | ReadOnly | Unsupported.

#[export] Instance VariablePolicy_eq_dec : EqDecision VariablePolicy.
Proof. solve_decision. Defined.

(** The names with a row of their own in [variable_policy]. *)
Definition known_targets : list (bytes * AssignmentTarget) :=
  [(B "MAILDIR", Maildir); (B "LOGFILE", LogFile); (B "LOG", Log); (B "LOGDETAIL", LogDetail);
   (B "LOGABSTRACT", LogAbstract); (B "VERBOSE", Verbose); (B "DURABILITY", Durability);
   (B "LOCKMETHOD", LockMethod); (B "LOCKFILE", LockFile); (B "LOCKEXT", LockExt);
   (B "LOCKSLEEP", LockSleep); (B "LOCKTIMEOUT", LockTimeout); (B "LINEBUF", LineBuf);
   (B "TIMEOUT", ProcessTimeout); (B "UMASK", Umask); (B "TRAP", Trap);
   (B "EXITCODE", ExitCode); (B "HOST", Host); (B "SHIFT", Shift);
   (B "LIMIT_MSG_SIZE", MessageLimit MLV_MessageSize); (B "LIMIT_MSG_HEADERS", MessageLimit MLV_HeadersSize);
   (B "LIMIT_MSG_BODY", MessageLimit MLV_BodySize); (B "LIMIT_HEADER_LINE", MessageLimit MLV_HeaderLineSize);
   (B "LIMIT_HEADER_FIELD", MessageLimit MLV_HeaderFieldSize);
   (B "LIMIT_MAX_ASSIGNMENTS", RcLimit RLV_Assignments); (B "LIMIT_RC_STATEMENTS", RcLimit RLV_Statements);
   (B "LIMIT_RC_RECIPES", RcLimit RLV_Recipes); (B "LIMIT_RC_CONDITIONS", RcLimit RLV_Conditions);
   (B "LIMIT_RC_REGEXES", RcLimit RLV_Regexes);
   (B "LIMIT_RECIPE_CONDITIONS", RcLimit RLV_ConditionsPerRecipe);
   (B "LIMIT_RECIPE_NESTING", RcLimit RLV_NestingDepth)].
Definition shell_targets : list (bytes * AssignmentTarget) :=
  [(B "SHELL", Shell); (B "SHELLFLAGS", ShellFlags); (B "PATH", Path)].

Definition table_lookup {A} (table : list (bytes * A)) (name : bytes) : option A :=
  snd <$> List.find (fun '(n, _) => bytes_eqb name n) table.

(** [MATCH] followed by digits. *)
Definition is_numbered_match (name : bytes) : bool :=
  match strip_prefix name (B "MATCH") with Some suffix => all_digits suffix | None => false end.

(** Source: config/variables.rs `pub fn variable_policy` *)
Definition variable_policy (name : bytes) : VariablePolicy :=
  match table_lookup known_targets name with
  | Some t => RcOnly t
  | None =>
      match table_lookup shell_targets name with
      | Some t => RcOrCommandLine t
      | None =>
          if bytes_eqb name (B "PROCMAIL_VERSION") then ReadOnly
          else if existsb (bytes_eqb name) [B "$"; B "?"; B "_"; B "-"; B "LASTFOLDER"; B "MATCH"] then RuntimeOnly
          else if is_numbered_match name then RuntimeOnly
          else if existsb (bytes_eqb name) UNSUPPORTED_PROCMAIL_VARIABLES then Unsupported
          else RcOrCommandLine User
      end
  end.

(** Source: config/variables.rs `pub fn allows` *)
Definition allows (p : VariablePolicy) (source : VariableSource) : bool :=
  match p, source with
  | RcOnly _, VS_RcFile => true
  | RcOrCommandLine _, (VS_RcFile | VS_CommandLine) => true
  | RuntimeOnly, VS_Runtime => true
  | ReadOnly, VS_System => true
  | _, _ => false
  end.

(** Source: config/variables.rs `pub fn assignment_target` *)
Definition assignment_target (p : VariablePolicy) (source : VariableSource) : option AssignmentTarget :=
  match p, source with
  | RcOnly t, VS_RcFile | RcOrCommandLine t, (VS_RcFile | VS_CommandLine) => Some t
  | _, _ => None
  end.

(** Source: config/variables.rs `fn valid_name` *)
Definition valid_name (name : bytes) : bool :=
  match name with
  | [] => false
  | b :: rest =>
      ((b =? c_UNDER) || is_ascii_uppercase b || is_ascii_lowercase b) &&
      forallb (fun b => (b =? c_UNDER) || is_ascii_alphanumeric b) rest
  end.

(** * Supplied variables *)

(** Source: config/variables.rs `pub struct SuppliedVariable` *)
Record SuppliedVariable := { sv_name : bytes; sv_value : bytes; sv_source : VariableSource }.

(** [input.split_once('=')] *)
Definition split_once (sep : byte) (input : bytes) : option (bytes * bytes) :=
  i ← position (Z.eqb sep) input; Some (take i input, drop (S i) input).

Definition hard_limit (what : bytes) (limit : Z) : bytes :=
  what ++ B " exceeds the hard limit of " ++ z_decimal limit ++ B " bytes".

(** The [expect] on the target is the empty answer of the last arm, which
    [supplied_variable_exact] shows is not reached.
    Source: config/variables.rs `pub fn parse(input` *)
Definition supplied_parse (input : bytes) : result bytes SuppliedVariable :=
  '(name, value) ← ok_or (B "--set value must have the form NAME=VALUE") (split_once c_EQ input);
  if MAX_ASSIGNMENT_NAME_LEN <? len name then Err (hard_limit (B "--set name") MAX_ASSIGNMENT_NAME_LEN)
  else if MAX_ASSIGNMENT_VALUE_LEN <? len value then Err (hard_limit (B "--set value") MAX_ASSIGNMENT_VALUE_LEN)
  else if negb (valid_name name) then
    Err (B "--set name must start with an ASCII letter or '_' and contain only ASCII letters, digits, or '_'")
  else
    let policy := variable_policy name in
    if bool_decide (policy = Unsupported) then Err (B "procmail variable " ++ name ++ B " is not supported")
    else if negb (allows policy VS_CommandLine) then Err (B "variable " ++ name ++ B " cannot be supplied with --set")
    else
      match assignment_target policy VS_CommandLine with
      | Some target =>
          let limit := value_limit target in
          if limit <? len value then Err (hard_limit (B "--set " ++ name ++ B " value") limit)
          else Ok {| sv_name := name; sv_value := value; sv_source := VS_CommandLine |}
      | None => Err []
      end.

(** Source: config/variables.rs `pub fn from_environment` *)
Definition from_environment (name value : bytes) : result bytes SuppliedVariable :=
  if negb (existsb (bytes_eqb name) [B "HOME"; B "LOGNAME"]) then
    Err (B "environment variable " ++ name ++ B " is not admitted")
  else if MAX_ASSIGNMENT_VALUE_LEN <? len value then
    Err (hard_limit (B "environment variable " ++ name) MAX_ASSIGNMENT_VALUE_LEN)
  else Ok {| sv_name := name; sv_value := value; sv_source := VS_Environment |}.

(** Source: config/variables.rs `pub fn from_system_hostname` *)
Definition from_system_hostname (value : bytes) : result bytes SuppliedVariable :=
  if bool_decide (value = []) || (MAX_HOSTNAME_LEN <? len value) then
    Err (B "system HOST must contain from 1 through " ++ z_decimal MAX_HOSTNAME_LEN ++ B " bytes")
  else Ok {| sv_name := B "HOST"; sv_value := value; sv_source := VS_System |}.

(** The version is the build's, [env!(CARGO_PKG_VERSION)].
    Source: config/variables.rs `pub fn from_program_version` *)
Definition from_program_version (version : bytes) : result bytes SuppliedVariable :=
  if bool_decide (version = []) || (MAX_ASSIGNMENT_VALUE_LEN <? len version) then
    Err (B "program version must contain from 1 through " ++ z_decimal MAX_ASSIGNMENT_VALUE_LEN ++ B " bytes")
  else Ok {| sv_name := B "PROCMAIL_VERSION"; sv_value := version; sv_source := VS_System |}.

(** Source: hostname.rs `fn hostname_from_bytes` *)
Definition hostname_from_bytes (name : bytes) : result bytes bytes :=
  if bool_decide (name = []) then Err (B "current hostname is empty")
  else if MAX_HOSTNAME_LEN <? len name then Err (hard_limit (B "current hostname") MAX_HOSTNAME_LEN)
  else if valid_utf8 name then Ok name else Err (B "current hostname is not valid UTF-8").

(** * Positional arguments *)

(** Source: config/arguments.rs `pub struct PositionalArguments` *)
Record PositionalArguments := { pa_values : list bytes; pa_bytes : nat }.
Definition no_arguments : PositionalArguments := {| pa_values := []; pa_bytes := 0 |}.

(** Source: config/arguments.rs `pub fn push` *)
Definition push {T : Target} (a : PositionalArguments) (value : bytes) : result bytes PositionalArguments :=
  if (length (pa_values a) =? MAX_POSITIONAL_ARGUMENTS)%nat then
    Err (B "too many -a/--argument values; hard limit is " ++ decimal MAX_POSITIONAL_ARGUMENTS)
  else if MAX_POSITIONAL_ARGUMENT_LEN <? len value then
    Err (hard_limit (B "-a/--argument value") MAX_POSITIONAL_ARGUMENT_LEN)
  else
    total ← ok_or (B "positional argument size overflows") (checked_add (pa_bytes a) (length value));
    if MAX_POSITIONAL_ARGUMENT_BYTES <? Z.of_nat total then
      Err (B "positional arguments exceed the aggregate hard limit of " ++ z_decimal MAX_POSITIONAL_ARGUMENT_BYTES ++ B " bytes")
    else Ok {| pa_values := pa_values a ++ [value]; pa_bytes := total |}.

(** Source: config/arguments.rs `pub(crate) fn is_positional_parameter_name` *)
Definition is_positional_parameter_name {T : Target} (name : bytes) : bool :=
  bytes_eqb name (B "#") ||
  (all_digits name &&
   match parse_usize name with Some index => between 1 (Z.of_nat MAX_POSITIONAL_ARGUMENTS) index | None => false end).

(** * Limits of a parse *)

(** Source: config/mod.rs `pub const DEFAULT_LINEBUF` *)
Definition DEFAULT_LINEBUF : Z := 2048.
(** Source: config/mod.rs `pub const MIN_LINEBUF` *)
Definition MIN_LINEBUF : Z := 128.
(** Source: config/mod.rs `pub const MAX_RC_SIZE` *)
Definition MAX_RC_SIZE : Z := 1024 * 1024.
(** Source: config/mod.rs `pub const MAX_LINEBUF` *)
Definition MAX_LINEBUF : Z := MAX_RC_SIZE.

(** Source: config/mod.rs `pub(crate) struct RcLimits` *)
Record RcLimits := {
  rl_assignments : Z; rl_statements : Z; rl_recipes : Z; rl_conditions : Z; rl_regexes : Z;
  rl_conditions_per_recipe : Z; rl_nesting_depth : Z; rl_linebuf : Z;
}.

(** Source: config/mod.rs:105-118 `impl Default for RcLimits` *)
Definition default_rc_limits : RcLimits := {|
  rl_assignments := 4096; rl_statements := 4096; rl_recipes := 1024; rl_conditions := 4096; rl_regexes := 256;
  rl_conditions_per_recipe := 256; rl_nesting_depth := 64; rl_linebuf := DEFAULT_LINEBUF;
|}.

(** The slot and the ceiling of a kind. *)
Definition rc_limit (kind : RcLimitVariable) (l : RcLimits) : Z :=
  match kind with
  | RLV_Assignments => rl_assignments l
  | RLV_Statements => rl_statements l
  | RLV_Recipes => rl_recipes l
  | RLV_Conditions => rl_conditions l
  | RLV_Regexes => rl_regexes l
  | RLV_ConditionsPerRecipe => rl_conditions_per_recipe l
  | RLV_NestingDepth => rl_nesting_depth l
  end.
Definition with_rc_limit (kind : RcLimitVariable) (x : Z) (l : RcLimits) : RcLimits :=
  let '(Build_RcLimits a s r c x_ p n b) := l in
  match kind with
  | RLV_Assignments => Build_RcLimits x s r c x_ p n b
  | RLV_Statements => Build_RcLimits a x r c x_ p n b
  | RLV_Recipes => Build_RcLimits a s x c x_ p n b
  | RLV_Conditions => Build_RcLimits a s r x x_ p n b
  | RLV_Regexes => Build_RcLimits a s r c x p n b
  | RLV_ConditionsPerRecipe => Build_RcLimits a s r c x_ x n b
  | RLV_NestingDepth => Build_RcLimits a s r c x_ p x b
  end.
(** The constants [HARD_MAX_*]. Source: config/mod.rs:79-85 `HARD_MAX_*` *)
Definition rc_hard_limit (kind : RcLimitVariable) : Z :=
  match kind with
  | RLV_Assignments => 65536
  | RLV_Statements => 65536
  | RLV_Recipes => 16384
  | RLV_Conditions => 65536
  | RLV_Regexes => 1024
  | RLV_ConditionsPerRecipe => 4096
  | RLV_NestingDepth => 256
  end.

(** Source: config/mod.rs `pub(crate) fn set(&mut self, kind` *)
Definition set_rc_limit (l : RcLimits) (kind : RcLimitVariable) (value : Z) : result Z RcLimits :=
  if rc_hard_limit kind <? value then Err (rc_hard_limit kind) else Ok (with_rc_limit kind value l).

(** Source: config/mod.rs `pub(crate) fn reset(&mut self, kind` *)
Definition reset_rc_limit (l : RcLimits) (kind : RcLimitVariable) : RcLimits :=
  with_rc_limit kind (rc_limit kind default_rc_limits) l.

(** Source: config/mod.rs `pub(crate) struct ParseBudget` *)
Record ParseBudget := { pb_counts : RcParseCounts; pb_limits : RcLimits }.

(** Source: config/mod.rs `pub(crate) fn reset(&mut self, counts` *)
Definition reset_budget (b : ParseBudget) (counts : RcParseCounts) : ParseBudget :=
  {| pb_counts := counts; pb_limits := default_rc_limits |}.
(** Source: config/mod.rs `pub(crate) fn replace_limits` *)
Definition replace_limits (b : ParseBudget) (limits : RcLimits) : ParseBudget :=
  {| pb_counts := pb_counts b; pb_limits := limits |}.

(** * Settings read from a whole configuration *)

(** Source: delivery/local_lock.rs `pub enum LockMethod` *)
Inductive LockMethodKind := Flock | Dotlock.

(** The [unreachable!] of the last arm follows [validate_lock_method].
    Source: delivery/local_lock.rs `pub fn parse(value` *)
Definition lock_method_parse (value : bytes) : result bytes LockMethodKind :=
  _ ← validate_lock_method value;
  if bytes_eqb value (B "flock") then Ok Flock else Ok Dotlock.

Section config.
  Context {R : RegexEngine}.

(** The loops of [from_config] in the modules of the settings: the last
    assignment to a target wins, [unset] restores the default. *)
Definition at_config_line {A} (line : nat) : result bytes A -> result bytes A :=
  map_err (fun message => B "line " ++ decimal line ++ B ": " ++ message).

Fixpoint setting_from_statements {A} (target : AssignmentTarget) (parse : bytes -> result bytes A) (default current : A)
    (statements : list Statement) : result bytes A :=
  match statements with
  | [] => Ok current
  | S_Assignment a :: rest =>
      if bool_decide (as_target a = target) then
        v ← at_config_line (as_line a) (parse (as_value a)); setting_from_statements target parse default v rest
      else setting_from_statements target parse default current rest
  | S_Unset u :: rest =>
      setting_from_statements target parse default
        (if bool_decide (un_target u = target) then default else current) rest
  | _ :: rest => setting_from_statements target parse default current rest
  end.

(** Source: config/mod.rs `pub fn umask_from_config` *)
Definition umask_from_config (c : Config) : result bytes Z :=
  setting_from_statements Umask parse_umask DEFAULT_UMASK DEFAULT_UMASK (statements c).

(** Source: delivery/local_lock.rs `pub fn from_config(config` *)
Definition lock_method_from_config (c : Config) : result bytes LockMethodKind :=
  setting_from_statements LockMethod lock_method_parse Flock Flock (statements c).

(** Source: delivery/local_lock.rs `fn duration_from_config` *)
Definition duration_from_config (c : Config) (target : AssignmentTarget) (default : Z) (parse : bytes -> result bytes Z) :
    result bytes Z := setting_from_statements target parse default default (statements c).

(** Source: delivery/local_lock.rs `pub const DEFAULT_LOCK_TIMEOUT` *)
Definition DEFAULT_LOCK_TIMEOUT : Z := 1024.
(** Source: delivery/local_lock.rs `pub const DEFAULT_LOCK_SLEEP` *)
Definition DEFAULT_LOCK_SLEEP : Z := 8.
(** Source: external_process.rs `pub const DEFAULT_PROCESS_TIMEOUT` *)
Definition DEFAULT_PROCESS_TIMEOUT : Z := 960.

(** A [Duration] of whole seconds is the number of them.
    Source: delivery/local_lock.rs `pub fn lock_timeout_from_config` *)
Definition lock_timeout_from_config (c : Config) : result bytes Z :=
  duration_from_config c LockTimeout DEFAULT_LOCK_TIMEOUT parse_lock_timeout_seconds.
(** Source: delivery/local_lock.rs `pub fn lock_sleep_from_config` *)
Definition lock_sleep_from_config (c : Config) : result bytes Z :=
  duration_from_config c LockSleep DEFAULT_LOCK_SLEEP parse_lock_sleep_seconds.
(** Source: external_process.rs `pub fn process_timeout_from_config` *)
Definition process_timeout_from_config (c : Config) : result bytes Z :=
  duration_from_config c ProcessTimeout DEFAULT_PROCESS_TIMEOUT parse_process_timeout_seconds.

(** Source: delivery/maildir.rs `pub enum Durability` *)
Inductive DurabilityPolicy := DP_None | DP_File | DP_Full.

Definition durability_parse (value : bytes) : result bytes DurabilityPolicy :=
  if bytes_eqb value (B "none") then Ok DP_None
  else if bytes_eqb value (B "file") then Ok DP_File
  else if bytes_eqb value (B "full") then Ok DP_Full
  else Err (B "invalid DURABILITY: expected 'none', 'file', or 'full'").

(** Source: delivery/maildir.rs `pub fn from_config(config` *)
Definition durability_from_config (c : Config) : result bytes DurabilityPolicy :=
  setting_from_statements Durability durability_parse DP_None DP_None (statements c).

(** Source: config/mod.rs `pub fn maildir(&self)` *)
Definition config_maildir (c : Config) : option bytes :=
  foldl (fun maildir s =>
    match s with
    | S_Assignment a => if bool_decide (as_target a = Maildir) then Some (as_value a) else maildir
    | S_Unset u => if bool_decide (un_target u = Maildir) then None else maildir
    | _ => maildir
    end) None (statements c).
End config.

(** * Facts *)

Lemma strip_prefix_Some l p r : strip_prefix l p = Some r <-> l = p ++ r.
Proof.
  unfold strip_prefix, starts_with. split.
  - destruct (bytes_eqb _ _) eqn:H; [|done]. apply bytes_eqb_true in H. intros [= <-].
    rewrite <-H at 1. apply symmetry, take_drop.
  - intros ->. by rewrite take_app_length, bytes_eqb_refl, drop_app_length.
Qed.

Lemma all_digits_true l : all_digits l = true <-> l <> [] /\ forallb is_ascii_digit l = true.
Proof. unfold all_digits. by rewrite andb_true_iff, negb_true_iff, bool_decide_eq_false. Qed.

Lemma digit_bounds d : is_ascii_digit d = true -> 0 <= d - c_0 <= 9.
Proof. unfold is_ascii_digit, between. lia. Qed.

(** The saturating steps of [parse_shift] keep the smaller of the value read
    so far and the number of positional arguments. *)
Lemma shift_fold {T : Target} digits :
  forallb is_ascii_digit digits = true ->
  foldl (fun amount digit =>
    Z.min (saturating_add (saturating_mul amount 10) (digit - c_0)) (Z.of_nat MAX_POSITIONAL_ARGUMENTS)) 0 digits =
  Z.min (decimal_value digits) (Z.of_nat MAX_POSITIONAL_ARGUMENTS).
Proof.
  induction digits as [|d ds IH] using rev_ind; [done|].
  rewrite forallb_app. intros [Hds Hd]%andb_true_iff. simpl in Hd. rewrite andb_true_r in Hd.
  rewrite foldl_app. cbn [foldl]. rewrite IH, decimal_value_app_one by done.
  apply decimal_value_nonneg in Hds. apply digit_bounds in Hd. pose proof usize_max_lower.
  unfold saturating_add, saturating_mul. change (Z.of_nat MAX_POSITIONAL_ARGUMENTS) with 256. lia.
Qed.

Lemma split_once_Some sep input a b :
  split_once sep input = Some (a, b) <-> input = a ++ sep :: b /\ Forall (fun x => x <> sep) a.
Proof.
  assert (forall l, Forall (fun y => (sep =? y) = false) l <-> Forall (fun x => x <> sep) l) as Hf.
  { intros l. apply Forall_iff. intros x. rewrite Z.eqb_neq. split; congruence. }
  unfold split_once. split.
  - destruct (position _ _) as [i|] eqn:Hp; [|done]. cbn [mbind option_bind]. intros [= <- <-].
    apply position_Some in Hp as (pre & x & post & -> & <- & Hpre & Hx%Z.eqb_eq). subst x.
    rewrite take_app_length, (snoc_app pre), <-(length_snoc pre sep), drop_app_length, <-app_assoc. split; [done|]. by apply Hf.
  - intros [-> Ha]. rewrite (position_app_cons _ _ _ _ (proj2 (Hf _) Ha) (Z.eqb_refl _)). cbn [mbind option_bind].
    by rewrite take_app_length, (snoc_app a), <-(length_snoc a sep), drop_app_length.
Qed.

Lemma policy_command_line p :
  allows p VS_CommandLine = true <-> exists t, p = RcOrCommandLine t /\ assignment_target p VS_CommandLine = Some t.
Proof. destruct p; simpl; split; intros H; try done; try (by destruct H as (? & ? & ?)); eauto. Qed.

(** * Theorems *)

(** A [SHIFT] value is accepted exactly when it is a run of decimal digits
    of a positive number, whatever its length, and it counts as that number
    capped at the most positional arguments there can be. *)
Theorem parse_shift_spec {T : Target} (value : bytes) :
  parse_shift value =
    if all_digits value && (0 <? decimal_value value)
    then Ok (Z.min (decimal_value value) (Z.of_nat MAX_POSITIONAL_ARGUMENTS))
    else Err (B "SHIFT must be a positive decimal integer").
Proof.
  unfold parse_shift. destruct (all_digits value) eqn:Hv; [|done]. apply all_digits_true in Hv as [_ Hv]. cbn [negb].
  rewrite shift_fold by done. apply decimal_value_nonneg in Hv. change (Z.of_nat MAX_POSITIONAL_ARGUMENTS) with 256.
  destruct (Z.ltb_spec 0 (decimal_value value)), (Z.eqb_spec (Z.min (decimal_value value) 256) 0); first [done | lia].
Qed.

(** A [--set] argument is accepted exactly when it is a name, an equals sign
    and a value, the name is an identifier of at most 128 bytes that the command
    line may set, and the value fits the limit of the name's target; the name
    ends at the first equals sign. *)
Theorem supplied_variable_exact (input : bytes) (v : SuppliedVariable) :
  supplied_parse input = Ok v <->
  exists name value t,
    input = name ++ c_EQ :: value /\ Forall (fun b => b <> c_EQ) name /\
    len name <= MAX_ASSIGNMENT_NAME_LEN /\ valid_name name = true /\
    variable_policy name = RcOrCommandLine t /\ len value <= value_limit t /\
    v = {| sv_name := name; sv_value := value; sv_source := VS_CommandLine |}.
Proof.
  assert (forall t, value_limit t <= MAX_ASSIGNMENT_VALUE_LEN) as Hmax by (intros []; vm_compute; congruence).
  unfold supplied_parse. split.
  - intros H. apply result_bind_Ok in H as ([name value] & Hs%ok_or_Ok%split_once_Some & H). destruct Hs as [-> Hn].
    exists name, value.
    destruct (Z.ltb_spec MAX_ASSIGNMENT_NAME_LEN (len name)); [done|].
    destruct (Z.ltb_spec MAX_ASSIGNMENT_VALUE_LEN (len value)); [done|].
    destruct (valid_name name) eqn:Hv; [|done]. cbn [negb] in H.
    destruct (bool_decide (variable_policy name = Unsupported)); [done|].
    destruct (allows _ _) eqn:Ha; [|done]. apply policy_command_line in Ha as (t & Hp & Ht). cbn [negb] in H.
    rewrite Ht in H. destruct (Z.ltb_spec (value_limit t) (len value)); [done|]. injection H as <-. by exists t.
  - intros (name & value & t & -> & Hn & Hlen & Hv & Hp & Hval & ->). pose proof (Hmax t).
    rewrite (proj2 (split_once_Some _ _ _ _)) by done. cbn [ok_or mbind result_bind].
    repeat (rewrite (proj2 (Z.ltb_ge _ _)) by lia). rewrite Hv, Hp. cbn [negb allows assignment_target].
    rewrite bool_decide_eq_false_2 by done. by rewrite (proj2 (Z.ltb_ge _ _)) by lia.
Qed.

(** Every assignment a configuration was validated with parses. *)
Lemma setting_parses {R : RegexEngine} {A} target (parse : bytes -> result bytes A) default current ss v :
  setting_from_statements target parse default current ss = Ok v ->
  forall a, S_Assignment a ∈ ss -> as_target a = target -> exists x, parse (as_value a) = Ok x.
Proof.
  revert current. induction ss as [|s ss IH]; intros current H a Ha Ht; [by apply not_elem_of_nil in Ha|].
  apply elem_of_cons in Ha as [<-|Ha].
  - cbn [setting_from_statements] in H. rewrite bool_decide_eq_true_2 in H by done.
    apply result_bind_Ok in H as (x & Hx & _). destruct (parse (as_value a)); [by eauto|done].
  - destruct s; cbn [setting_from_statements] in H; [|by eapply IH; eauto..].
    case_bool_decide; [|by eapply IH; eauto]. apply result_bind_Ok in H as (x & _ & H). by eapply IH; eauto.
Qed.
