(* ===== verification/Runtime.v ===== *)
(** Runtime variables: [RuntimeVariables] of [src/src/runtime.rs].  A runtime
    is a map of its own values over a chain of shared, immutable layers; a
    copy block forks it by freezing the current values into a layer both
    branches keep.  Names and text are bytes; trace records are not modelled.

    An [Arc<RuntimeLayer>] is never mutated, so sharing it is sharing a value. *)
From stdpp Require Import gmap.
From S2P Require Import Prelude Numbers Utf8 Config Variables.
#[local] Open Scope Z_scope.

(** Source: runtime.rs `enum RuntimeValue` *)
Inductive RuntimeValue := RV_Text (text : bytes) | RV_Bytes (raw : bytes) | RV_Removed.

#[export] Instance RuntimeValue_eq_dec : EqDecision RuntimeValue.
Proof. solve_decision. Defined.

Abbreviation Values := (gmap (list Z) RuntimeValue) (only parsing).

(** Source: runtime.rs `struct RuntimeLayer` *)
Inductive RuntimeLayer := MkRuntimeLayer (parent : option RuntimeLayer) (values : Values).

(** Source: runtime.rs `pub struct RuntimeVariables` *)
Record RuntimeVariables := {
  rt_parent : option RuntimeLayer; rt_values : Values; system_hostname : option bytes;
  process_id : bytes; last_command_status : bytes; current_rc_file : option bytes;
}.

Definition with_layers (r : RuntimeVariables) (parent : option RuntimeLayer) (values : Values) : RuntimeVariables :=
  {| rt_parent := parent; rt_values := values; system_hostname := system_hostname r; process_id := process_id r;
     last_command_status := last_command_status r; current_rc_file := current_rc_file r |}.
Definition with_values (r : RuntimeVariables) (values : Values) : RuntimeVariables := with_layers r (rt_parent r) values.

(** [process::id] is the operating system's.
    Source: runtime.rs `impl Default for RuntimeVariables` *)
Definition default_runtime (pid : bytes) : RuntimeVariables := {|
  rt_parent := None;
  rt_values :=
    <[B "LINEBUF" := RV_Text (z_decimal DEFAULT_LINEBUF)]>
      (<[B "TIMEOUT" := RV_Text (z_decimal DEFAULT_PROCESS_TIMEOUT)]>
        (<[B "UMASK" := RV_Text (B "077")]> (<[B "LOCKEXT" := RV_Text DEFAULT_LOCK_EXT]> ∅)));
  system_hostname := None; process_id := pid; last_command_status := B "0"; current_rc_file := None;
|}.

(** Source: runtime.rs `pub fn set_system_hostname` *)
Definition set_system_hostname (r : RuntimeVariables) (hostname : bytes) : RuntimeVariables :=
  {| rt_parent := rt_parent r; rt_values := rt_values r; system_hostname := Some hostname; process_id := process_id r;
     last_command_status := last_command_status r; current_rc_file := current_rc_file r |}.

(** The runtime that goes on and the new branch.
    Source: runtime.rs `pub fn fork` *)
Definition fork (r : RuntimeVariables) : RuntimeVariables * RuntimeVariables :=
  let shared := MkRuntimeLayer (rt_parent r) (rt_values r) in
  (with_layers r (Some shared) ∅, with_layers r (Some shared) ∅).

(** The replaced path is returned beside the runtime.
    Source: runtime.rs `pub(crate) fn replace_current_rc_file` *)
Definition replace_current_rc_file (r : RuntimeVariables) (path : option bytes) : RuntimeVariables * option bytes :=
  ({| rt_parent := rt_parent r; rt_values := rt_values r; system_hostname := system_hostname r; process_id := process_id r;
      last_command_status := last_command_status r; current_rc_file := path |}, current_rc_file r).

(** Source: runtime.rs `pub fn set_current_rc_file` *)
Definition set_current_rc_file (r : RuntimeVariables) (path : bytes) : RuntimeVariables :=
  fst (replace_current_rc_file r (Some path)).

(** Source: runtime.rs `pub fn set_last_command_status` *)
Definition set_last_command_status (r : RuntimeVariables) (status : nat) : RuntimeVariables :=
  {| rt_parent := rt_parent r; rt_values := rt_values r; system_hostname := system_hostname r; process_id := process_id r;
     last_command_status := decimal status; current_rc_file := current_rc_file r |}.

(** Source: runtime.rs `pub fn set(&mut self` *)
Definition set (r : RuntimeVariables) (name value : bytes) : RuntimeVariables :=
  with_values r (<[name := RV_Text value]> (rt_values r)).

(** [String::from_utf8(value)] decides the constructor. *)
Definition runtime_value (value : bytes) : RuntimeValue := if valid_utf8 value then RV_Text value else RV_Bytes value.

(** Source: runtime.rs `pub fn set_bytes` *)
Definition set_bytes (r : RuntimeVariables) (name value : bytes) : RuntimeVariables :=
  with_values r (<[name := runtime_value value]> (rt_values r)).

(** The extractions as pairs of target and value, without their trace lines.
    Source: runtime.rs `pub(crate) fn apply_header_extractions` *)
Definition apply_header_extractions (r : RuntimeVariables) (extractions : list (bytes * bytes)) : RuntimeVariables :=
  foldl (fun r '(target, value) => set_bytes r target value) r extractions.

(** The walk from a layer up. *)
Fixpoint find_layer (l : RuntimeLayer) (name : bytes) : option RuntimeValue :=
  match l with
  | MkRuntimeLayer parent values =>
      match values !! name with
      | Some v => Some v
      | None => match parent with Some p => find_layer p name | None => None end
      end
  end.
(** Source: runtime.rs `fn find(&self` *)
Definition find (r : RuntimeVariables) (name : bytes) : option RuntimeValue :=
  match rt_values r !! name with
  | Some v => Some v
  | None => match rt_parent r with Some p => find_layer p name | None => None end
  end.

(** [entry(name).or_insert(value)] keeps the value nearest to the runtime. *)
Fixpoint visible_layer (l : RuntimeLayer) (visible : Values) : Values :=
  match l with
  | MkRuntimeLayer parent values =>
      let visible := visible ∪ values in
      match parent with Some p => visible_layer p visible | None => visible end
  end.
(** Source: runtime.rs `fn visible_values` *)
Definition visible_values (r : RuntimeVariables) : Values :=
  match rt_parent r with Some p => visible_layer p (rt_values r) | None => rt_values r end.

Section runtime.
  Context {T : Target}.

(** What both readers answer when nothing is found. *)
Definition unset_value (name : bytes) : option bytes :=
  if bytes_eqb name (B "#") then Some (B "0")
  else if is_positional_parameter_name name then Some [] else None.

(** [get] and [get_bytes] up to [?]: the names the runtime keeps apart, then
    the value found.  [-] stands for [LASTFOLDER]. *)
Definition read_with (of_value : RuntimeValue -> option bytes) (r : RuntimeVariables) (name : bytes) : option bytes :=
  match find r name with
  | Some value => of_value value
  | None => unset_value name
  end.
Definition special (of_value : RuntimeValue -> option bytes) (r : RuntimeVariables) (name : bytes) : option bytes :=
  if bytes_eqb name (B "$") then Some (process_id r)
  else if bytes_eqb name (B "?") then Some (last_command_status r)
  else if bytes_eqb name (B "_") then current_rc_file r
  else if bytes_eqb name (B "-") then read_with of_value r (B "LASTFOLDER")
  else read_with of_value r name.

Definition text_of (v : RuntimeValue) : option bytes := match v with RV_Text s => Some s | _ => None end.
Definition bytes_of (v : RuntimeValue) : option bytes := match v with RV_Text s | RV_Bytes s => Some s | RV_Removed => None end.

(** Source: runtime.rs `pub fn get(&self` *)
Definition get (r : RuntimeVariables) (name : bytes) : option bytes := special text_of r name.
(** Source: runtime.rs `pub fn get_bytes` *)
Definition get_bytes (r : RuntimeVariables) (name : bytes) : option bytes := special bytes_of r name.
(** Source: runtime.rs `pub fn last_folder(&self) -> Option<&str>` *)
Definition last_folder (r : RuntimeVariables) : option bytes := get r (B "LASTFOLDER").

(** Source: runtime.rs `pub(crate) fn remove(&mut self` *)
Definition remove (r : RuntimeVariables) (name : bytes) : RuntimeVariables :=
  with_values r (<[name := RV_Removed]> (rt_values r)).

(** One index of the second loop of [shift_positionals]. *)
Definition store_shifted (shifted : list bytes) (r : RuntimeVariables) (index : nat) : RuntimeVariables :=
  match shifted !! (index - 1)%nat with
  | Some value => set r (decimal index) value
  | None => remove r (decimal index)
  end.

(** The source window, read before a numeric name is stored. *)
Definition shifted_window (r : RuntimeVariables) (amount remaining : nat) : list bytes :=
  (fun index => default [] (get r (decimal (index + amount)))) <$> seq 1 remaining.

Definition store_window (r : RuntimeVariables) (shifted : list bytes) : RuntimeVariables :=
  foldl (store_shifted shifted) r (seq 1 MAX_POSITIONAL_ARGUMENTS).

Definition positional_count (r : RuntimeVariables) : nat :=
  Z.to_nat (default 0 (value ← get r (B "#"); parse_usize value)).

(** Source: runtime.rs `pub(crate) fn shift_positionals` *)
Definition shift_positionals (r : RuntimeVariables) (requested : nat) : RuntimeVariables :=
  let count := positional_count r in
  let amount := (requested `min` count)%nat in
  let remaining := (count - amount)%nat in
  set (store_window r (shifted_window r amount remaining)) (B "#") (decimal remaining).

(** The iterators, as maps.
    Source: runtime.rs `pub(crate) fn values(` *)
Definition values (r : RuntimeVariables) : gmap (list Z) bytes := omap text_of (visible_values r).
(** Source: runtime.rs `pub(crate) fn byte_values` *)
Definition byte_values (r : RuntimeVariables) : gmap (list Z) bytes := omap bytes_of (visible_values r).

(** Source: runtime.rs `pub(crate) fn clear_numbered_match_values` *)
Definition clear_numbered_match_values (r : RuntimeVariables) : RuntimeVariables :=
  foldl remove r (List.filter is_numbered_match (fst <$> map_to_list (visible_values r))).
(** Source: runtime.rs `pub(crate) fn clear_match_values` *)
Definition clear_match_values (r : RuntimeVariables) : RuntimeVariables :=
  clear_numbered_match_values (remove r (B "MATCH")).
(** Source: runtime.rs `pub(crate) fn set_match_value` *)
Definition set_match_value (r : RuntimeVariables) (name value : bytes) : RuntimeVariables := set r name value.

(** The folder a publication names last, as the bytes of its path; the error text
    leaves the path out.
    Source: runtime.rs `pub fn record_publication` *)
Definition record_publication (r : RuntimeVariables) (last_folder : option bytes) : result bytes RuntimeVariables :=
  match last_folder with
  | None => Ok r
  | Some path =>
      if valid_utf8 path then Ok (set r (B "LASTFOLDER") path)
      else Err (B "published destination cannot be represented as UTF-8")
  end.
End runtime.

(** * The layers as one map *)

(** The runtime with everything visible in its own map and no layer below. *)
Definition flatten (r : RuntimeVariables) : RuntimeVariables := with_layers r None (visible_values r).

Lemma visible_layer_lookup (l : RuntimeLayer) (visible : Values) (name : bytes) :
  visible_layer l visible !! name = match visible !! name with Some v => Some v | None => find_layer l name end.
Proof.
  revert l visible. fix IH 1. intros [parent values] visible. cbn [visible_layer find_layer].
  assert (forall m : Values, (visible ∪ m) !! name = match visible !! name with Some v => Some v | None => m !! name end) as Hu.
  { intros m. rewrite lookup_union. by destruct (visible !! name), (m !! name). }
  destruct parent as [p|].
  - rewrite IH, Hu. by destruct (visible !! name), (values !! name).
  - rewrite Hu. by destruct (visible !! name), (values !! name).
Qed.

Lemma visible_values_lookup r name : visible_values r !! name = find r name.
Proof.
  unfold visible_values, find. destruct (rt_parent r) as [p|]; [|by destruct (rt_values r !! name)].
  apply visible_layer_lookup.
Qed.

Lemma find_flatten r name : find (flatten r) name = find r name.
Proof. unfold find at 1. simpl. rewrite visible_values_lookup. by destruct (find r name). Qed.

(** Two runtimes that find the same values and agree on what is kept apart. *)
Lemma visible_values_ext r s : (forall name, find r name = find s name) -> visible_values r = visible_values s.
Proof. intros H. apply map_eq. intros name. by rewrite !visible_values_lookup. Qed.

Lemma find_with_insert r name v name' :
  find (with_values r (<[name := v]> (rt_values r))) name' = if bool_decide (name = name') then Some v else find r name'.
Proof.
  unfold find. simpl. case_bool_decide as Hn.
  - subst. by rewrite lookup_insert_eq.
  - by rewrite lookup_insert_ne.
Qed.

Lemma visible_with_insert r name v :
  visible_values (with_values r (<[name := v]> (rt_values r))) = <[name := v]> (visible_values r).
Proof.
  apply map_eq. intros n. rewrite visible_values_lookup, find_with_insert. case_bool_decide as Hn.
  - subst. by rewrite lookup_insert_eq.
  - by rewrite lookup_insert_ne, visible_values_lookup.
Qed.

(** Storing a value under the flattened runtime. *)
Lemma flatten_insert r name v :
  flatten (with_values r (<[name := v]> (rt_values r))) =
  with_values (flatten r) (<[name := v]> (rt_values (flatten r))).
Proof. unfold flatten. rewrite visible_with_insert. done. Qed.

Lemma flatten_set r name value : flatten (set r name value) = set (flatten r) name value.
Proof. apply flatten_insert. Qed.
Lemma flatten_set_bytes r name value : flatten (set_bytes r name value) = set_bytes (flatten r) name value.
Proof. apply flatten_insert. Qed.
Lemma flatten_remove r name : flatten (remove r name) = remove (flatten r) name.
Proof. apply flatten_insert. Qed.

Lemma flatten_fold {A} (f : RuntimeVariables -> A -> RuntimeVariables) :
  (forall r a, flatten (f r a) = f (flatten r) a) ->
  forall l r, flatten (foldl f r l) = foldl f (flatten r) l.
Proof. intros Hf l. induction l as [|a l IH]; intros r; [done|]. simpl. by rewrite IH, Hf. Qed.

Lemma flatten_fork r : flatten (fst (fork r)) = flatten r /\ flatten (snd (fork r)) = flatten r.
Proof.
  assert (visible_values (fst (fork r)) = visible_values r) as Hv.
  { apply visible_values_ext. intros name. unfold find at 1, find. simpl. rewrite lookup_empty.
    by destruct (rt_values r !! name). }
  unfold flatten. change (visible_values (snd (fork r))) with (visible_values (fst (fork r))). rewrite Hv. done.
Qed.

Section flat.
  Context {T : Target}.

Lemma special_flatten f r name : special f (flatten r) name = special f r name.
Proof. unfold special, read_with. by rewrite !find_flatten. Qed.

Lemma visible_flatten r : visible_values (flatten r) = visible_values r.
Proof. done. Qed.

Lemma shifted_window_flatten r amount remaining :
  shifted_window (flatten r) amount remaining = shifted_window r amount remaining.
Proof. apply list_fmap_ext. intros _ i _. unfold get. by rewrite special_flatten. Qed.

Lemma flatten_shift r requested : flatten (shift_positionals r requested) = shift_positionals (flatten r) requested.
Proof.
  unfold shift_positionals. assert (positional_count (flatten r) = positional_count r) as ->.
  { unfold positional_count, get. by rewrite special_flatten. }
  rewrite shifted_window_flatten, flatten_set. unfold store_window. rewrite flatten_fold; [done|].
  intros r' i. unfold store_shifted. destruct (_ !! _); [apply flatten_set | apply flatten_remove].
Qed.

Lemma flatten_clear_numbered r : flatten (clear_numbered_match_values r) = clear_numbered_match_values (flatten r).
Proof. unfold clear_numbered_match_values. rewrite visible_flatten. apply flatten_fold, flatten_remove. Qed.

(** * Runs *)

(** What the evaluators do to a runtime.  Of a fork, one branch goes on. *)
Inductive RuntimeOp :=
| Op_Set (name value : bytes) | Op_SetBytes (name value : bytes) | Op_Remove (name : bytes)
| Op_Shift (requested : nat) | Op_ClearMatch | Op_ClearNumberedMatch | Op_SetMatch (name value : bytes)
| Op_Status (status : nat) | Op_RcFile (path : option bytes) | Op_Hostname (name : bytes)
| Op_Extractions (extractions : list (bytes * bytes)) | Op_ForkKeep | Op_ForkBranch.

Definition run_op (r : RuntimeVariables) (op : RuntimeOp) : RuntimeVariables :=
  match op with
  | Op_Set name value => set r name value
  | Op_SetBytes name value => set_bytes r name value
  | Op_Remove name => remove r name
  | Op_Shift requested => shift_positionals r requested
  | Op_ClearMatch => clear_match_values r
  | Op_ClearNumberedMatch => clear_numbered_match_values r
  | Op_SetMatch name value => set_match_value r name value
  | Op_Status status => set_last_command_status r status
  | Op_RcFile path => fst (replace_current_rc_file r path)
  | Op_Hostname name => set_system_hostname r name
  | Op_Extractions extractions => apply_header_extractions r extractions
  | Op_ForkKeep => fst (fork r)
  | Op_ForkBranch => snd (fork r)
  end.

(** The same on a runtime that never forks. *)
Definition is_fork (op : RuntimeOp) : bool := match op with Op_ForkKeep | Op_ForkBranch => true | _ => false end.
Definition run_flat (r : RuntimeVariables) (op : RuntimeOp) : RuntimeVariables := if is_fork op then r else run_op r op.

Lemma flatten_run_op r op : flatten (run_op r op) = run_flat (flatten r) op.
Proof.
  destruct op; unfold run_flat; cbn [is_fork run_op]; try done.
  - apply flatten_set.
  - apply flatten_set_bytes.
  - apply flatten_remove.
  - apply flatten_shift.
  - unfold clear_match_values. by rewrite flatten_clear_numbered, flatten_remove.
  - apply flatten_clear_numbered.
  - apply flatten_set.
  - apply flatten_fold. intros r' [target value]. apply flatten_set_bytes.
  - apply flatten_fork.
  - apply flatten_fork.
Qed.

(** The layers are an implementation of one map.  After any sequence of
    operations, forks included and whichever branch goes on, everything a reader
    sees ([get], [get_bytes], [values], [byte_values]) is what it would see on a
    runtime without layers where a fork does nothing; in particular a branch
    never sees what the other one stores after the fork. *)
Theorem layers_refine_map (r : RuntimeVariables) (ops : list RuntimeOp) (name : bytes) :
  let layered := foldl run_op r ops in
  let flat := foldl run_flat (flatten r) ops in
  get layered name = get flat name /\ get_bytes layered name = get_bytes flat name /\
  values layered = values flat /\ byte_values layered = byte_values flat.
Proof.
  intros layered flat. assert (flatten layered = flat) as <-.
  { subst layered flat. revert r. induction ops as [|op ops IH]; intros r; [done|]. simpl. by rewrite IH, flatten_run_op. }
  unfold get, get_bytes, values, byte_values. by rewrite !special_flatten, visible_flatten.
Qed.
End flat.

(** * Shifting positional parameters *)

Section shift.
  Context {T : Target}.

Lemma decimal_ne i name : forallb is_ascii_digit name = false -> decimal i <> name.
Proof. intros H <-. by rewrite decimal_digits in H. Qed.

Lemma bytes_eqb_false a b : bytes_eqb a b = false <-> a <> b.
Proof. unfold bytes_eqb. by rewrite bool_decide_eq_false. Qed.

(** Reading a name that is none of the special ones. *)
Definition is_special (name : bytes) : bool := existsb (bytes_eqb name) [B "$"; B "?"; B "_"; B "-"].

Lemma special_plain f r name : is_special name = false -> special f r name = read_with f r name.
Proof.
  unfold is_special, special. cbn [existsb]. intros [H1 [H2 [H3 [H4 _]%orb_false_iff]%orb_false_iff]%orb_false_iff]%orb_false_iff.
  by rewrite H1, H2, H3, H4.
Qed.

Lemma decimal_plain i : is_special (decimal i) = false.
Proof. unfold is_special. cbn [existsb]. by rewrite !(proj2 (bytes_eqb_false _ _)) by by apply decimal_ne. Qed.

Definition shifted_value (shifted : list bytes) (i : nat) : RuntimeValue :=
  match shifted !! (i - 1)%nat with Some v => RV_Text v | None => RV_Removed end.

Lemma find_store_shifted shifted r i name :
  find (store_shifted shifted r i) name = if bool_decide (decimal i = name) then Some (shifted_value shifted i) else find r name.
Proof. unfold store_shifted, shifted_value. destruct (_ !! _); apply find_with_insert. Qed.

Lemma find_store_window shifted r n :
  let r' := foldl (store_shifted shifted) r (seq 1 n) in
  (forall i, (1 <= i <= n)%nat -> find r' (decimal i) = Some (shifted_value shifted i)) /\
  (forall name, (forall i, (1 <= i <= n)%nat -> name <> decimal i) -> find r' name = find r name).
Proof.
  induction n as [|n [IH1 IH2]]; [split; [lia|done]|]. rewrite seq_S, foldl_app. cbn [foldl].
  split.
  - intros i Hi. rewrite find_store_shifted. case_bool_decide as Hd.
    + apply (inj decimal) in Hd. by rewrite <-Hd.
    + apply IH1. assert (i <> (1 + n)%nat) by congruence. lia.
  - intros name Hname. rewrite find_store_shifted, bool_decide_eq_false_2 by (intros <-; apply (Hname (1 + n)%nat); [lia|done]).
    apply IH2. intros i Hi. apply Hname. lia.
Qed.

Lemma find_store_window_all shifted r :
  (forall i, (1 <= i <= MAX_POSITIONAL_ARGUMENTS)%nat ->
    find (store_window r shifted) (decimal i) = Some (shifted_value shifted i)) /\
  (forall name, (forall i, (1 <= i <= MAX_POSITIONAL_ARGUMENTS)%nat -> name <> decimal i) ->
    find (store_window r shifted) name = find r name).
Proof. exact (find_store_window shifted r MAX_POSITIONAL_ARGUMENTS). Qed.

(** What is kept apart from the maps. *)
Definition kept_apart (r : RuntimeVariables) := (system_hostname r, process_id r, last_command_status r, current_rc_file r).

Lemma kept_apart_fold {A} (f : RuntimeVariables -> A -> RuntimeVariables) :
  (forall r a, kept_apart (f r a) = kept_apart r) -> forall l r, kept_apart (foldl f r l) = kept_apart r.
Proof. intros Hf l. induction l as [|a l IH]; intros r; [done|]. simpl. by rewrite IH, Hf. Qed.

Lemma kept_apart_store_window r shifted : kept_apart (store_window r shifted) = kept_apart r.
Proof. apply kept_apart_fold. intros r' i. unfold store_shifted. by destruct (_ !! _). Qed.

Lemma kept_apart_set r name value : kept_apart (set r name value) = kept_apart r.
Proof. done. Qed.

Lemma find_set r name value name' :
  find (set r name value) name' = if bool_decide (name = name') then Some (RV_Text value) else find r name'.
Proof. apply find_with_insert. Qed.

Lemma special_ext f r s name :
  kept_apart r = kept_apart s -> find r name = find s name -> find r (B "LASTFOLDER") = find s (B "LASTFOLDER") ->
  special f r name = special f s name.
Proof. intros [= _ H1 H2 H3] Hn Hl. unfold special, read_with. by rewrite H1, H2, H3, Hn, Hl. Qed.

Lemma shifted_window_lookup r amount remaining i :
  (1 <= i)%nat ->
  shifted_value (shifted_window r amount remaining) i =
    if (i <=? remaining)%nat then RV_Text (default [] (get r (decimal (i + amount)))) else RV_Removed.
Proof.
  intros Hi. unfold shifted_value, shifted_window. rewrite list_lookup_fmap.
  destruct (Nat.leb_spec i remaining).
  - rewrite lookup_seq_lt by lia. cbn [fmap option_fmap option_map]. by replace (1 + (i - 1))%nat with i by lia.
  - by rewrite lookup_seq_ge by lia.
Qed.

(** [SHIFT=n] drops the first [min n count] positional parameters: the count
    goes down by that many, each remaining parameter takes the value that was
    that many places further (empty if it had no text), every number above the
    new count is removed, and no other name changes. *)
Theorem shift_positionals_spec (r : RuntimeVariables) (requested : nat) :
  let r' := shift_positionals r requested in
  let amount := (requested `min` positional_count r)%nat in
  let remaining := (positional_count r - amount)%nat in
  get r' (B "#") = Some (decimal remaining) /\
  (forall i, (1 <= i <= MAX_POSITIONAL_ARGUMENTS)%nat ->
    get r' (decimal i) = if (i <=? remaining)%nat then Some (default [] (get r (decimal (i + amount)))) else None) /\
  (forall name, name <> B "#" -> (forall i, (1 <= i <= MAX_POSITIONAL_ARGUMENTS)%nat -> name <> decimal i) ->
    get r' name = get r name /\ get_bytes r' name = get_bytes r name).
Proof.
  intros r' amount remaining.
  assert (kept_apart r' = kept_apart r) as Hkept.
  { unfold r', shift_positionals. cbv zeta. by rewrite kept_apart_set, kept_apart_store_window. }
  assert (forall name, find r' name = if bool_decide (B "#" = name) then Some (RV_Text (decimal remaining))
    else find (store_window r (shifted_window r amount remaining)) name) as Hfind.
  { intros name. unfold r', shift_positionals. cbv zeta. by rewrite find_set. }
  clearbody r'. destruct (find_store_window_all (shifted_window r amount remaining) r) as [Hin Hout]. split_and!.
  - unfold get. rewrite special_plain by done. unfold read_with. by rewrite Hfind, bool_decide_eq_true_2 by done.
  - intros i Hi. unfold get at 1. rewrite special_plain by apply decimal_plain. unfold read_with.
    rewrite Hfind, bool_decide_eq_false_2 by (apply not_eq_sym, decimal_ne; done).
    rewrite Hin, shifted_window_lookup by lia. by destruct (_ <=? _)%nat.
  - intros name Hname Hnot.
    assert (forall n, n <> B "#" -> (forall i, (1 <= i <= MAX_POSITIONAL_ARGUMENTS)%nat -> n <> decimal i) -> find r' n = find r n) as Hsame.
    { intros n Hn Hd. rewrite Hfind, bool_decide_eq_false_2 by congruence. by apply Hout. }
    assert (find r' (B "LASTFOLDER") = find r (B "LASTFOLDER")) as Hlast.
    { apply Hsame; [done|]. intros i _. by apply not_eq_sym, decimal_ne. }
    split; apply special_ext; auto.
Qed.

(** A runtime with two arguments, shifted once. *)
Definition two_arguments : RuntimeVariables :=
  set (set (set (default_runtime (B "7")) (B "#") (B "2")) (B "1") (B "first")) (B "2") (B "second").
End shift.

Lemma shift_positionals_spec_witness :
  let r' := shift_positionals two_arguments 1 in
  get r' (B "1") = Some (B "second") /\ get r' (B "MAILDIR") = None.
Proof.
  destruct (shift_positionals_spec two_arguments 1) as (_ & H1 & H2). split.
  - replace (B "1") with (decimal 1) by by vm_compute. rewrite (H1 1%nat); [by vm_compute | vm_compute; lia].
  - rewrite (proj1 (H2 (B "MAILDIR") ltac:(done) ltac:(intros i _; apply not_eq_sym, decimal_ne; done))). by vm_compute.
Defined.

(** * The two kinds of values *)

(** A [String] holds UTF-8; a value kept as bytes is one that does not. *)
Definition value_typed (v : RuntimeValue) : Prop :=
  match v with RV_Text s => valid_utf8 s = true | RV_Bytes s => valid_utf8 s = false | RV_Removed => True end.
Definition text_typed (s : bytes) : Prop := valid_utf8 s = true.

Record runtime_typed (r : RuntimeVariables) : Prop := {
  typed_values : forall name v, find r name = Some v -> value_typed v;
  typed_process_id : text_typed (process_id r);
  typed_status : text_typed (last_command_status r);
  typed_rc_file : forall path, current_rc_file r = Some path -> text_typed path;
}.

(** The arguments that are [String]s in the source. *)
Definition op_typed (op : RuntimeOp) : Prop :=
  match op with
  | Op_Set _ value | Op_SetMatch _ value => text_typed value
  | Op_RcFile (Some path) => text_typed path
  | _ => True
  end.

Section typing.
  Context {T : Target}.

Lemma decimal_typed n : text_typed (decimal n).
Proof.
  apply valid_utf8_ascii. pose proof (decimal_digits n) as H. rewrite forallb_forall in H.
  apply Forall_forall. intros b Hb%list_elem_of_In%H%digit_bounds. lia.
Qed.

Lemma runtime_value_typed value : value_typed (runtime_value value).
Proof. unfold runtime_value. by destruct (valid_utf8 value) eqn:H. Qed.

Lemma typed_insert r name v :
  runtime_typed r -> value_typed v -> runtime_typed (with_values r (<[name := v]> (rt_values r))).
Proof.
  intros [H1 H2 H3 H4] Hv. split; [|done..]. intros n w. rewrite find_with_insert. case_bool_decide; [congruence|]. apply H1.
Qed.

Lemma typed_fold {A} (f : RuntimeVariables -> A -> RuntimeVariables) l r :
  (forall r a, a ∈ l -> runtime_typed r -> runtime_typed (f r a)) -> runtime_typed r -> runtime_typed (foldl f r l).
Proof.
  revert r. induction l as [|a l IH]; intros r Hf Hr; [done|]. simpl. apply IH.
  - intros r' b Hb. apply Hf. by apply list_elem_of_further.
  - apply Hf; [apply list_elem_of_here | done].
Qed.

Lemma typed_remove r name : runtime_typed r -> runtime_typed (remove r name).
Proof. intros. by apply typed_insert. Qed.

Lemma typed_clear_numbered r : runtime_typed r -> runtime_typed (clear_numbered_match_values r).
Proof. apply typed_fold. intros. by apply typed_remove. Qed.

Lemma unset_value_typed name value : unset_value name = Some value -> text_typed value.
Proof. unfold unset_value. repeat case_match; intros; simplify_eq; done. Qed.

Lemma typed_special_text r name value : runtime_typed r -> get r name = Some value -> text_typed value.
Proof.
  intros [H1 H2 H3 H4]. unfold get, special.
  assert (forall n, read_with text_of r n = Some value -> text_typed value) as Hr.
  { intros n. unfold read_with. destruct (find r n) as [v|] eqn:Hf; [|apply unset_value_typed].
    apply H1 in Hf. destruct v; simpl in *; congruence. }
  repeat case_match; try apply Hr; intros; simplify_eq; auto.
Qed.

Lemma typed_shift r requested : runtime_typed r -> runtime_typed (shift_positionals r requested).
Proof.
  intros Hr. unfold shift_positionals. cbv zeta. apply typed_insert; [|apply decimal_typed]. apply typed_fold; [|done].
  intros r' i _ Hr'. unfold store_shifted. destruct (_ !! _) as [value|] eqn:Hl; [|by apply typed_remove].
  apply typed_insert; [done|]. simpl. apply list_lookup_fmap_Some in Hl as (j & -> & _).
  destruct (get r (decimal _)) eqn:Hg; [|done]. exact (typed_special_text _ _ _ Hr Hg).
Qed.

Lemma typed_fork r : runtime_typed r -> runtime_typed (fst (fork r)).
Proof.
  intros [H1 H2 H3 H4]. split; [|done..]. intros name v Hv. apply (H1 name). rewrite <-Hv.
  unfold find. simpl. rewrite lookup_empty. by destruct (rt_values r !! name).
Qed.

Lemma run_op_typed r op : op_typed op -> runtime_typed r -> runtime_typed (run_op r op).
Proof.
  intros Hop Hr. destruct op; cbn [run_op].
  - by apply typed_insert.
  - apply typed_insert; [done | apply runtime_value_typed].
  - by apply typed_remove.
  - by apply typed_shift.
  - by apply typed_clear_numbered, typed_remove.
  - by apply typed_clear_numbered.
  - by apply typed_insert.
  - destruct Hr. split; try done. apply decimal_typed.
  - destruct Hr, path; split; try done. intros p [= <-]. done.
  - by destruct Hr.
  - apply typed_fold; [|done]. intros r' [target value] _ Hr'. apply typed_insert; [done | apply runtime_value_typed].
  - by apply typed_fork.
  - by apply typed_fork.
Qed.

Lemma read_with_agree r name value :
  (forall v, find r name = Some v -> value_typed v) ->
  read_with text_of r name = Some value <-> read_with bytes_of r name = Some value /\ text_typed value.
Proof.
  unfold read_with, text_typed. intros Hv. destruct (find r name) as [[s|s|]|]; cbn [text_of bytes_of].
  - specialize (Hv _ eq_refl). simpl in Hv. naive_solver.
  - specialize (Hv _ eq_refl). simpl in Hv. split; [done|]. intros [[= ->] H]. congruence.
  - naive_solver.
  - split; [|tauto]. intros H. by apply unset_value_typed in H as ?.
Qed.

(** The two readers agree.  Whatever a runtime goes through, a value is kept
    as text exactly when it is UTF-8: [get] answers what [get_bytes] answers
    when that is text, and nothing when it is not. *)
Theorem readers_agree (r : RuntimeVariables) (ops : list RuntimeOp) (name value : bytes)
    (Hr : runtime_typed r) (Hops : Forall op_typed ops) :
  let r' := foldl run_op r ops in
  get r' name = Some value <-> get_bytes r' name = Some value /\ valid_utf8 value = true.
Proof.
  intros r'. assert (runtime_typed r') as [H1 H2 H3 H4].
  { apply typed_fold; [|done]. intros s op Hop. apply run_op_typed. by eapply Forall_forall in Hops. }
  unfold get, get_bytes, special.
  assert (forall o, (forall s, o = Some s -> text_typed s) -> o = Some value <-> o = Some value /\ valid_utf8 value = true) as Htext.
  { intros o Ho. split; [|tauto]. intros H. split; [done | by apply Ho]. }
  destruct (bytes_eqb name (B "$")); [apply Htext; congruence|].
  destruct (bytes_eqb name (B "?")); [apply Htext; congruence|].
  destruct (bytes_eqb name (B "_")); [by apply Htext|].
  destruct (bytes_eqb name (B "-")); apply read_with_agree; apply H1.
Qed.

Lemma default_runtime_typed pid : text_typed pid -> runtime_typed (default_runtime pid).
Proof.
  intros Hp. split; [|done..]. intros name v. unfold find, default_runtime. cbn [rt_values rt_parent].
  rewrite !lookup_insert, lookup_empty. repeat case_decide; intros; simplify_eq; reflexivity.
Qed.
End typing.

Lemma readers_agree_witness :
  get (foldl run_op (default_runtime (B "7")) [Op_SetBytes (B "X") [200]; Op_ForkBranch; Op_Shift 1]) (B "X") <> Some [200] /\
  get (foldl run_op (default_runtime (B "7")) [Op_SetBytes (B "X") [65]; Op_ForkBranch; Op_Shift 1]) (B "X") = Some [65].
Proof.
  split.
  - intros [_ H]%readers_agree; [done | by apply default_runtime_typed | by repeat constructor].
  - apply readers_agree; [by apply default_runtime_typed | by repeat constructor | by split; vm_compute].
Defined.
