(* ===== verification/Settings.v ===== *)
(** Settings: the typed reading of the runtime's variables
    ([src/src/runtime/settings.rs]), the trace configuration
    ([src/src/trace/config.rs]) and the validation of a whole configuration
    before a message is read ([src/src/configuration.rs]). *)
From stdpp Require Import gmap.
From S2P Require Import Prelude Numbers Utf8 Config Limits Variables Runtime.
#[local] Open Scope Z_scope.

(** Source: runtime/settings.rs `pub struct RuntimeSettingError` *)
Record RuntimeSettingError := { rse_line : option nat; rse_name : bytes; rse_message : bytes }.

(** Source: runtime/settings.rs `pub struct RuntimeSettings` *)
Record RuntimeSettings := { rs_variables : RuntimeVariables; rs_line : option nat }.

Definition new_settings (variables : RuntimeVariables) : RuntimeSettings := {| rs_variables := variables; rs_line := None |}.
(** Source: runtime/settings.rs `pub fn at_line` *)
Definition settings_at_line (variables : RuntimeVariables) (line : nat) : RuntimeSettings :=
  {| rs_variables := variables; rs_line := Some line |}.

Section settings.
  Context {T : Target}.

(** Source: runtime/settings.rs `fn error(self` *)
Definition setting_error (s : RuntimeSettings) (name message : bytes) : RuntimeSettingError :=
  {| rse_line := rs_line s; rse_name := name; rse_message := message |}.

(** The body of the readers: the current value parsed, or the default. *)
Definition read_setting {A} (s : RuntimeSettings) (name : bytes) (parse : bytes -> result bytes A) (default : A) :
    result RuntimeSettingError A :=
  match get (rs_variables s) name with
  | Some value => map_err (setting_error s name) (parse value)
  | None => Ok default
  end.

(** Source: runtime/settings.rs `pub fn process_timeout` *)
Definition process_timeout (s : RuntimeSettings) : result RuntimeSettingError Z :=
  read_setting s (B "TIMEOUT") parse_process_timeout_seconds DEFAULT_PROCESS_TIMEOUT.
(** Source: runtime/settings.rs `pub fn lock_timeout` *)
Definition lock_timeout (s : RuntimeSettings) : result RuntimeSettingError Z :=
  read_setting s (B "LOCKTIMEOUT") parse_lock_timeout_seconds DEFAULT_LOCK_TIMEOUT.
(** Source: runtime/settings.rs `pub fn lock_sleep` *)
Definition lock_sleep (s : RuntimeSettings) : result RuntimeSettingError Z :=
  read_setting s (B "LOCKSLEEP") parse_lock_sleep_seconds DEFAULT_LOCK_SLEEP.
(** Source: runtime/settings.rs `pub fn lock_method` *)
Definition lock_method (s : RuntimeSettings) : result RuntimeSettingError LockMethodKind :=
  read_setting s (B "LOCKMETHOD") lock_method_parse Flock.
(** Source: runtime/settings.rs `pub fn umask` *)
Definition umask (s : RuntimeSettings) : result RuntimeSettingError Z :=
  read_setting s (B "UMASK") parse_umask DEFAULT_UMASK.

Definition linebuf_range_error : bytes :=
  B "LINEBUF must be from " ++ z_decimal MIN_LINEBUF ++ B " through " ++ z_decimal MAX_LINEBUF ++ B " bytes".
Definition parse_linebuf_value (value : bytes) : result bytes Z :=
  value ← ok_or (B "LINEBUF must be an unsigned decimal integer") (parse_usize value);
  if between MIN_LINEBUF MAX_LINEBUF value then Ok value else Err linebuf_range_error.
(** Source: runtime/settings.rs `pub fn linebuf` *)
Definition linebuf (s : RuntimeSettings) : result RuntimeSettingError Z :=
  read_setting s (B "LINEBUF") parse_linebuf_value DEFAULT_LINEBUF.

Definition nonempty_setting (s : RuntimeSettings) (name : bytes) : option bytes :=
  match get (rs_variables s) name with Some (b :: l) => Some (b :: l) | _ => None end.
(** Source: runtime/settings.rs `pub fn logfile` *)
Definition settings_logfile (s : RuntimeSettings) : option bytes := nonempty_setting s (B "LOGFILE").
(** Source: runtime/settings.rs `pub fn maildir` *)
Definition settings_maildir (s : RuntimeSettings) : option bytes := nonempty_setting s (B "MAILDIR").
End settings.

(** * Trace configuration *)

(** Source: trace/schema.rs `pub enum TraceDetail` *)
Inductive TraceDetail := Metadata | Values_.

(** The failure policy has one value and is left out.
    Source: trace/config.rs `pub struct TraceConfig` *)
Record TraceConfig := {
  tc_verbose : bool; tc_logfile : option bytes; tc_detail : TraceDetail; tc_may_log : bool;
}.
(** Source: trace/config.rs `impl Default for TraceConfig` *)
Definition default_trace : TraceConfig :=
  {| tc_verbose := false; tc_logfile := None; tc_detail := Metadata; tc_may_log := false |}.

(** Source: trace/config.rs `pub struct TraceConfigError` *)
Record TraceConfigError := { tce_line : nat; tce_name : bytes; tce_reason : bytes }.

(** Source: trace/config.rs `pub(crate) fn parse_procmail_boolean` *)
Definition parse_procmail_boolean (value : bytes) : option bool :=
  let value := to_ascii_lowercase <$> value in
  if (match value with b :: _ => is_ascii_digit b && negb (b =? c_0) | [] => false end)
     || existsb (starts_with value) [B "on"; B "y"; B "t"; B "e"] then Some true
  else if starts_with value (B "0") || existsb (starts_with value) [B "off"; B "n"; B "f"; B "d"] then Some false
  else None.

Section trace.
  Context {R : RegexEngine}.

(** Source: trace/config.rs `fn statements_may_log` *)
Fixpoint statement_may_log (s : Statement) : bool :=
  match s with
  | S_Assignment a =>
      bool_decide (as_target a = Log) || (bool_decide (as_target a = LogAbstract) && negb (bytes_eqb (as_value a) (B "no")))
  | S_Include _ | S_Switch _ => true
  | S_Recipe (MkRecipe _ _ _ _ _ (RA_Block children)) => existsb statement_may_log children
  | S_Recipe _ | S_Unset _ | S_CommandAssignment _ => false
  end.
Definition statements_may_log : list Statement -> bool := existsb statement_may_log.

Definition with_verbose (b : bool) (c : TraceConfig) : TraceConfig :=
  {| tc_verbose := b; tc_logfile := tc_logfile c; tc_detail := tc_detail c; tc_may_log := tc_may_log c |}.
Definition with_logfile (f : option bytes) (c : TraceConfig) : TraceConfig :=
  {| tc_verbose := tc_verbose c; tc_logfile := f; tc_detail := tc_detail c; tc_may_log := tc_may_log c |}.
Definition with_detail (d : TraceDetail) (c : TraceConfig) : TraceConfig :=
  {| tc_verbose := tc_verbose c; tc_logfile := tc_logfile c; tc_detail := d; tc_may_log := tc_may_log c |}.

(** One iteration of the loop of [from_config].
    Source: trace/config.rs:42-88 `TraceConfig::from_config (loop body)` *)
Definition trace_statement (settings : TraceConfig) (s : Statement) : result TraceConfigError TraceConfig :=
  match s with
  | S_Unset u =>
      Ok match un_target u with
         | Verbose => with_verbose false settings
         | LogFile => with_logfile None settings
         | LogDetail => with_detail Metadata settings
         | _ => settings
         end
  | S_Assignment a =>
      let refused reason := {| tce_line := as_line a; tce_name := as_name a; tce_reason := reason |} in
      match as_target a with
      | Verbose =>
          b ← ok_or (refused (B "expected a procmail boolean value")) (parse_procmail_boolean (as_value a));
          Ok (with_verbose b settings)
      | LogFile => Ok (with_logfile (if bool_decide (as_value a = []) then None else Some (as_value a)) settings)
      | LogDetail =>
          if bytes_eqb (as_value a) (B "metadata") then Ok (with_detail Metadata settings)
          else if bytes_eqb (as_value a) (B "values") then Ok (with_detail Values_ settings)
          else Err (refused (B "expected 'metadata' or 'values'"))
      | _ => Ok settings
      end
  | _ => Ok settings
  end.

Fixpoint trace_statements (settings : TraceConfig) (ss : list Statement) : result TraceConfigError TraceConfig :=
  match ss with [] => Ok settings | s :: ss' => settings ← trace_statement settings s; trace_statements settings ss' end.

(** Source: trace/config.rs `pub fn from_config` *)
Definition trace_from_config (c : Config) : result TraceConfigError TraceConfig :=
  trace_statements {| tc_verbose := false; tc_logfile := None; tc_detail := Metadata;
                      tc_may_log := statements_may_log (statements c) |} (statements c).

(** Source: trace/config.rs `pub fn enabled` *)
Definition trace_enabled (c : TraceConfig) : bool := tc_verbose c || tc_may_log c.
End trace.

(** * Validation before a message is read *)

(** The source turns each error into its text; the model keeps them apart. *)
Inductive ConfigurationError := CE_Limits (e : LimitConfigError) | CE_Text (message : bytes) | CE_Trace (e : TraceConfigError).

(** Source: configuration.rs `pub struct ConfigurationSettings` *)
Record ConfigurationSettings := {
  cs_message_limits : MessageLimits; cs_durability : DurabilityPolicy; cs_trace : TraceConfig;
}.

(** Source: configuration.rs `pub fn validate` *)
Definition validate_configuration {T : Target} {R : RegexEngine} (c : Config) : result ConfigurationError ConfigurationSettings :=
  message_limits ← map_err CE_Limits (from_config c);
  durability ← map_err CE_Text (durability_from_config c);
  _ ← map_err CE_Text (lock_method_from_config c);
  _ ← map_err CE_Text (lock_timeout_from_config c);
  _ ← map_err CE_Text (lock_sleep_from_config c);
  _ ← map_err CE_Text (process_timeout_from_config c);
  _ ← map_err CE_Text (umask_from_config c);
  trace ← map_err CE_Trace (trace_from_config c);
  Ok {| cs_message_limits := message_limits; cs_durability := durability; cs_trace := trace |}.

(** * A validated configuration cannot fail later *)

Section validated.
  Context {T : Target} {R : RegexEngine}.

(** The result of a reader matters here only as whether there is one. *)
Definition readable {A} (m : result RuntimeSettingError A) : Prop := exists v, m = Ok v.

Lemma get_set_plain r name value : is_special name = false -> get (set r name value) name = Some value.
Proof. intros Hs. unfold get. rewrite special_plain by done. unfold read_with. by rewrite find_set, bool_decide_eq_true_2. Qed.

Lemma read_setting_after_set {A} r line name value (parse : bytes -> result bytes A) default x :
  is_special name = false -> parse value = Ok x ->
  read_setting (settings_at_line (set r name value) line) name parse default = Ok x.
Proof. intros Hs Hp. unfold read_setting. cbn [settings_at_line rs_variables]. by rewrite get_set_plain, Hp. Qed.

Lemma map_err_Ok {E F A} (f : E -> F) (m : result E A) a : map_err f m = Ok a <-> m = Ok a.
Proof. destruct m; simpl; split; congruence. Qed.

(** The readers of the settings that are validated, by target. *)
Definition setting_readable (t : AssignmentTarget) (s : RuntimeSettings) : Prop :=
  match t with
  | LockMethod => readable (lock_method s)
  | LockTimeout => readable (lock_timeout s)
  | LockSleep => readable (lock_sleep s)
  | ProcessTimeout => readable (process_timeout s)
  | Umask => readable (umask s)
  | _ => True
  end.

(** A name means a target by its row of the table. *)
Lemma known_target_name name t :
  variable_policy name = RcOnly t -> table_lookup known_targets name = Some t.
Proof.
  unfold variable_policy. destruct (table_lookup known_targets name); [congruence|].
  destruct (table_lookup shell_targets name); [done|]. repeat case_match; congruence.
Qed.

Lemma table_lookup_elem {A} (table : list (bytes * A)) name a : table_lookup table name = Some a -> (name, a) ∈ table.
Proof.
  unfold table_lookup. intros ([n a'] & Hf & ->)%fmap_Some.
  apply List.find_some in Hf as [Hin Hn%bytes_eqb_true]. simpl. subst. by apply list_elem_of_In.
Qed.

(** What passed validation cannot fail later.  When a configuration is
    accepted, the value of each of its assignments to a lock, timeout or mask
    setting is one the runtime setting can be read back from once the
    statement has executed, at any line and over any runtime. *)
Theorem validated_settings_readable (c : Config) (settings : ConfigurationSettings) (a : Assignment)
    (r : RuntimeVariables) (line : nat)
    (Hvalid : validate_configuration c = Ok settings)
    (Ha : S_Assignment a ∈ statements c)
    (Hname : variable_policy (as_name a) = RcOnly (as_target a)) :
  setting_readable (as_target a) (settings_at_line (set r (as_name a) (as_value a)) line).
Proof.
  unfold validate_configuration in Hvalid.
  apply result_bind_Ok in Hvalid as (ml & _ & Hvalid). apply result_bind_Ok in Hvalid as (du & _ & Hvalid).
  apply result_bind_Ok in Hvalid as (lm & Hlm%map_err_Ok & Hvalid).
  apply result_bind_Ok in Hvalid as (lt & Hlt%map_err_Ok & Hvalid).
  apply result_bind_Ok in Hvalid as (ls & Hls%map_err_Ok & Hvalid).
  apply result_bind_Ok in Hvalid as (pt & Hpt%map_err_Ok & Hvalid).
  apply result_bind_Ok in Hvalid as (um & Hum%map_err_Ok & _).
  unfold lock_timeout_from_config, lock_sleep_from_config, process_timeout_from_config, duration_from_config in *.
  apply known_target_name, table_lookup_elem in Hname.
  destruct a as [aline name value t expansion]. cbn [as_name as_target as_value] in *.
  assert (forall A (f : bytes -> result bytes A) d v, setting_from_statements t f d d (statements c) = Ok v -> exists x, f value = Ok x) as Hp
    by (intros A f d v Hs; exact (setting_parses _ _ _ _ _ _ Hs _ Ha eq_refl)).
  destruct t; cbn [setting_readable]; try done.
  all: repeat (apply elem_of_cons in Hname as [Hname|Hname]; [try discriminate Hname; injection Hname as ->|]);
    [|by apply not_elem_of_nil in Hname].
  - destruct (Hp _ _ _ _ Hlm) as [x Hx]. exists x. by apply read_setting_after_set.
  - destruct (Hp _ _ _ _ Hls) as [x Hx]. exists x. by apply read_setting_after_set.
  - destruct (Hp _ _ _ _ Hlt) as [x Hx]. exists x. by apply read_setting_after_set.
  - destruct (Hp _ _ _ _ Hpt) as [x Hx]. exists x. by apply read_setting_after_set.
  - destruct (Hp _ _ _ _ Hum) as [x Hx]. exists x. by apply read_setting_after_set.
Qed.
End validated.

Definition no_regex : RegexEngine := Build_RegexEngine unit (fun _ _ => false) (fun _ _ => None).
Definition timeout_assignment : Assignment :=
  {| as_line := 3; as_name := B "TIMEOUT"; as_value := B "12"; as_target := ProcessTimeout; as_expansion := None |}.
Definition timeout_config : @Config no_regex :=
  @Build_Config no_regex [S_Assignment timeout_assignment] {| loc_line := 0; loc_file := None; loc_truncated := false |} []
    (Build_RcParseCounts 0 0 0 0 0) 2048.

Lemma validated_settings_readable_witness :
  readable (process_timeout (settings_at_line (set (default_runtime (B "1")) (B "TIMEOUT") (B "12")) 3)).
Proof.
  refine (validated_settings_readable (R := no_regex) timeout_config
    {| cs_message_limits := default_limits; cs_durability := DP_None; cs_trace := default_trace |}
    timeout_assignment (default_runtime (B "1")) 3 _ _ _).
  - by vm_compute.
  - apply list_elem_of_here.
  - by vm_compute.
Defined.
