(* ===== verification/HeaderValue.v ===== *)
(** Generated and decoded header values: [src/src/header_value.rs].  A value
    that is plain ASCII is written on one line; any other is cut at character
    boundaries into RFC 2047 base64 encoded-words.  The decoder accepts both
    encodings of RFC 2047 in three charsets. *)
From S2P Require Import Prelude Config Limits Utf8.

Definition RFC5322_HEADER_LINE_LIMIT : Z := 998.
Definition RFC2047_HEADER_LINE_LIMIT : Z := 76.
Definition RFC2047_INPUT_CHUNK : nat := 45.
Definition ENCODED_WORD_PREFIX : bytes := B "=?UTF-8?B?".
Definition ENCODED_WORD_SUFFIX : bytes := B "?=".
(** The constants of the module.
    Source: header_value.rs:6-11 `BASE64` *)
Definition BASE64 : bytes := B "ABCDEFGHIJKLMNOPQRSTUVWXYZabcdefghijklmnopqrstuvwxyz0123456789+/".

(** Source: header_value.rs `pub(crate) enum GeneratedHeaderError` *)
Inductive GeneratedHeaderError := InvalidValue | LineTooLong | GH_SizeOverflow.

(** Source: header_value.rs `pub(crate) enum GeneratedHeaderEncoding` *)
Inductive GeneratedHeaderEncoding := Enc_Ascii | Enc_Rfc2047.

(** Source: header_value.rs `pub enum DecodedHeaderError` *)
Inductive DecodedHeaderError :=
| MalformedWord | UnsupportedCharset | UnsupportedEncoding | InvalidText | TooLong.

#[export] Instance DecodedHeaderError_eq_dec : EqDecision DecodedHeaderError.
Proof. solve_decision. Defined.

(** * Base64 *)

(** [<<] on [u8] drops the bits that leave the byte. *)
Definition u8_shl (x n : Z) : Z := Z.land (Z.shiftl x n) 255.

(** Source: header_value.rs `fn base64_value` *)
Definition base64_value (b : byte) : result DecodedHeaderError Z :=
  if between c_A c_Z b then Ok (b - c_A)
  else if between c_a c_z b then Ok (b - c_a + 26)
  else if between c_0 c_9 b then Ok (b - c_0 + 52)
  else if b =? c_PLUS then Ok 62
  else if b =? c_SLASH then Ok 63
  else Err MalformedWord.

(** The group of four at each step of [chunks_exact(4)]: [rest] is empty at
    the last one. *)
Fixpoint decode_groups (input : bytes) : result DecodedHeaderError bytes :=
  match input with
  | c0 :: c1 :: c2 :: c3 :: rest =>
      let last := bool_decide (rest = []) in
      a ← base64_value c0;
      b ← base64_value c1;
      c ← (if c2 =? c_EQ then if negb last || negb (c3 =? c_EQ) then Err MalformedWord else Ok 0
           else base64_value c2);
      d ← (if c3 =? c_EQ then if negb last then Err MalformedWord else Ok 0 else base64_value c3);
      if (c2 =? c_EQ) && negb (Z.land b 15 =? 0) || (c3 =? c_EQ) && negb (Z.land c 3 =? 0) then Err MalformedWord
      else
        let output := [Z.lor (u8_shl a 2) (Z.shiftr b 4)] ++
          (if negb (c2 =? c_EQ) then [Z.lor (u8_shl b 4) (Z.shiftr c 2)] else []) ++
          (if negb (c3 =? c_EQ) then [Z.lor (u8_shl c 6) d] else []) in
        app output <$> decode_groups rest
  | _ => Ok []
  end.

(** Source: header_value.rs `fn decode_base64` *)
Definition decode_base64 (input : bytes) : result DecodedHeaderError bytes :=
  if negb (length input mod 4 =? 0)%nat then Err MalformedWord else decode_groups input.

Definition base64_at (i : Z) : byte := default 0 (BASE64 !! Z.to_nat i).

(** Source: header_value.rs `fn append_base64` *)
Fixpoint append_base64 (input : bytes) : bytes :=
  match input with
  | [] => []
  | [first] => [base64_at (Z.shiftr first 2); base64_at (Z.shiftl (Z.land first 3) 4); c_EQ; c_EQ]
  | [first; second] =>
      [base64_at (Z.shiftr first 2); base64_at (Z.lor (Z.shiftl (Z.land first 3) 4) (Z.shiftr second 4));
       base64_at (Z.shiftl (Z.land second 15) 2); c_EQ]
  | first :: second :: third :: rest =>
      [base64_at (Z.shiftr first 2); base64_at (Z.lor (Z.shiftl (Z.land first 3) 4) (Z.shiftr second 4));
       base64_at (Z.lor (Z.shiftl (Z.land second 15) 2) (Z.shiftr third 6)); base64_at (Z.land third 63)]
      ++ append_base64 rest
  end.

(** * Q encoding *)

(** Source: header_value.rs `fn hex_value` *)
Definition hex_value (b : byte) : option Z :=
  if between c_0 c_9 b then Some (b - c_0)
  else if between c_a (c_a + 5) b then Some (b - c_a + 10)
  else if between c_A (c_A + 5) b then Some (b - c_A + 10)
  else None.

(** Source: header_value.rs `fn decode_q` *)
Fixpoint decode_q (input : bytes) : result DecodedHeaderError bytes :=
  match input with
  | [] => Ok []
  | x :: rest =>
      if x =? c_UNDER then cons c_SP <$> decode_q rest
      else if x =? c_EQ then
        match rest with
        | h :: rest' =>
            high ← ok_or MalformedWord (hex_value h);
            match rest' with
            | l :: rest'' =>
                low ← ok_or MalformedWord (hex_value l);
                cons (Z.lor (u8_shl high 4) low) <$> decode_q rest''
            | [] => Err MalformedWord
            end
        | [] => Err MalformedWord
        end
      else if between c_BANG c_TILDE x then cons x <$> decode_q rest
      else Err MalformedWord
  end.

(** * Decoding *)

(** Source: header_value.rs `fn transcode` *)
Definition transcode (charset input : bytes) : result DecodedHeaderError bytes :=
  if eq_ignore_ascii_case charset (B "UTF-8") then
    if valid_utf8 input then Ok input else Err InvalidText
  else if eq_ignore_ascii_case charset (B "US-ASCII") then
    if existsb (fun b => 127 <? b) input then Err InvalidText else Ok input
  else if eq_ignore_ascii_case charset (B "ISO-8859-1") then Ok (input ≫= encode_small)
  else Err UnsupportedCharset.

(** The end of the word and its text.
    Source: header_value.rs `fn decode_word` *)
Definition decode_word (input : bytes) : result DecodedHeaderError (nat * bytes) :=
  first ← ok_or MalformedWord ((fun offset => offset + 2)%nat <$> position (fun b => b =? c_QM) (drop 2 input));
  second ← ok_or MalformedWord
    ((fun offset => first + 1 + offset)%nat <$> position (fun b => b =? c_QM) (drop (first + 1) input));
  let encoded_start := (second + 1)%nat in
  end_ ← ok_or MalformedWord
    ((fun offset => encoded_start + offset + 2)%nat <$> find_window (B "?=") (drop encoded_start input));
  if (75 <? end_)%nat then Err MalformedWord
  else
    let charset := slice 2 first input in
    let encoding := slice (first + 1) second input in
    let encoded := slice encoded_start (end_ - 2) input in
    if bool_decide (charset = []) || negb (length encoding =? 1)%nat || bool_decide (encoded = [])
       || existsb (fun b => b =? c_QM) encoded then Err MalformedWord
    else
      let e := to_ascii_uppercase (default 0 (head encoding)) in
      bs ← (if e =? c_B then decode_base64 encoded
            else if e =? c_Q then decode_q encoded
            else Err UnsupportedEncoding);
      text ← transcode charset bs;
      Ok (end_, text).

Section decode.
Context {T : Target}.

(** Source: header_value.rs `fn append_decoded_text` *)
Definition append_decoded_text (output : BoundedBytes) (text : bytes) : result DecodedHeaderError BoundedBytes :=
  cs ← ok_or InvalidText (utf8_chars text);
  if existsb (fun c => negb (c =? c_TAB) && is_control c) cs then Err InvalidText
  else map_err (fun _ => TooLong) (try_extend output text).

(** The loop of [decode_rfc2047] on the bytes from its cursor; every
    iteration consumes at least one. *)
Fixpoint decode_loop (fuel : nat) (rest : bytes) (previous_encoded : bool) (output : BoundedBytes)
    : result DecodedHeaderError BoundedBytes :=
  match fuel, rest with
  | _, [] => Ok output
  | O, _ => Ok output
  | S fuel', _ =>
      if starts_with rest (B "=?") then
        '(end_, decoded) ← decode_word rest;
        output ← append_decoded_text output decoded;
        decode_loop fuel' (drop end_ rest) true output
      else
        let found := find_window (B "=?") rest in
        let next := default (length rest) found in
        let text := take next rest in
        if negb (previous_encoded && bool_decide (is_Some found) && forallb is_blank text) then
          output ← append_decoded_text output text;
          decode_loop fuel' (drop next rest) false output
        else decode_loop fuel' (drop next rest) previous_encoded output
  end.

(** Source: header_value.rs `pub(crate) fn decode_rfc2047`..`fn find_encoded_word` *)
Definition decode_rfc2047 (input : bytes) (limit : Z) : result DecodedHeaderError bytes :=
  into_vec <$> decode_loop (length input) input false (with_capacity limit).

(** * Generation *)

(** The loop over the characters: whether one is not ASCII.
    Source: header_value.rs `pub(crate) fn validate_generated_header_value` *)
Definition validate_generated_header_value (name value : bytes) : result GeneratedHeaderError GeneratedHeaderEncoding :=
  non_ascii ← foldl (fun acc c =>
    non_ascii ← acc;
    if (c =? c_TAB) || is_ascii_graphic c || (c =? c_SP) then Ok non_ascii
    else if is_control c then Err InvalidValue
    else Ok true) (Ok false) (chars value);
  if non_ascii : bool then Ok Enc_Rfc2047
  else
    line_size ← ok_or GH_SizeOverflow (size ← checked_add (length name) 2; checked_add size (length value));
    if RFC5322_HEADER_LINE_LIMIT <? Z.of_nat line_size then Err LineTooLong else Ok Enc_Ascii.

Fixpoint canonical_name_from (beginning : bool) (name : bytes) : bytes :=
  match name with
  | [] => []
  | b :: name' => (if beginning then to_ascii_uppercase b else to_ascii_lowercase b) :: canonical_name_from (b =? c_DASH) name'
  end.

(** What is appended to the output.
    Source: header_value.rs `pub(crate) fn append_canonical_header_name` *)
Definition append_canonical_header_name (name : bytes) : bytes := canonical_name_from true name.

(** Source: header_value.rs `fn serialize_ascii` *)
Definition serialize_ascii (name value line_ending : bytes) : result GeneratedHeaderError bytes :=
  _ ← ok_or GH_SizeOverflow
    (size ← checked_add (length name) 2; size ← checked_add size (length value); checked_add size (length line_ending));
  Ok (append_canonical_header_name name ++ B ": " ++ value ++ line_ending).

(** Source: header_value.rs `fn base64_len` *)
Definition base64_len (input : nat) : result GeneratedHeaderError Z :=
  ok_or GH_SizeOverflow (size ← checked_add input 2; checked_mul (Z.of_nat size / 3) 4).

(** [while !value.is_char_boundary(end) { end -= 1 }] *)
Fixpoint boundary_before (value : bytes) (end_ : nat) : nat :=
  if is_char_boundary value end_ then end_
  else match end_ with O => O | S e => boundary_before value e end.

(** The loop of [serialize_rfc2047]; every chunk has at least one byte. *)
Fixpoint rfc2047_loop (fuel : nat) (value line_ending : bytes) (start : nat) (first : bool) (field : bytes)
    : result GeneratedHeaderError bytes :=
  match fuel with
  | O => Ok field
  | S fuel' =>
      if (length value <=? start)%nat then Ok field
      else
        let end_ := match checked_add start RFC2047_INPUT_CHUNK with
                    | Some e => Nat.min e (length value) | None => length value end in
        let end_ := boundary_before value end_ in
        encoded_len ← base64_len (end_ - start);
        word_len ← ok_or GH_SizeOverflow
          (size ← checked_add (length ENCODED_WORD_PREFIX) (Z.to_nat encoded_len);
           checked_add size (length ENCODED_WORD_SUFFIX));
        let fits_first_line := first &&
          match (size ← checked_add (length field) 1; checked_add size word_len) with
          | Some size => Z.of_nat size <=? RFC2047_HEADER_LINE_LIMIT | None => false end in
        let field := if fits_first_line then field ++ [c_SP] else field ++ line_ending ++ [c_SP] in
        let field := field ++ ENCODED_WORD_PREFIX ++ append_base64 (slice start end_ value) ++ ENCODED_WORD_SUFFIX in
        rfc2047_loop fuel' value line_ending end_ false field
  end.

(** Source: header_value.rs `fn serialize_rfc2047` *)
Definition serialize_rfc2047 (name value line_ending : bytes) : result GeneratedHeaderError bytes :=
  field ← rfc2047_loop (length value) value line_ending 0 true (append_canonical_header_name name ++ [c_COLON]);
  Ok (field ++ line_ending).

(** Source: header_value.rs `pub(crate) fn serialize_generated_header` *)
Definition serialize_generated_header (name value line_ending : bytes) : result GeneratedHeaderError bytes :=
  encoding ← validate_generated_header_value name value;
  match encoding with
  | Enc_Ascii => serialize_ascii name value line_ending
  | Enc_Rfc2047 => serialize_rfc2047 name value line_ending
  end.
End decode.

(** * Base64 is a bijection *)

Lemma lor_add hi lo n : 0 <= n -> 0 <= lo < 2 ^ n -> Z.lor (hi * 2 ^ n) lo = hi * 2 ^ n + lo.
Proof.
  intros Hn Hlo. rewrite <-Z.shiftl_mul_pow2 by done.
  rewrite <-Z.lxor_lor, <-Z.add_nocarry_lxor; try done; apply Z.bits_inj'; intros i Hi;
    rewrite Z.land_spec, Z.bits_0; apply andb_false_iff; rewrite Z.shiftl_spec by done;
    (destruct (Z.ltb_spec i n); [left; apply Z.testbit_neg_r; lia|right]);
    apply (Z.testbit_false lo i Hi); rewrite Z.div_small; [done| |done|]; split; try lia;
    (apply Z.lt_le_trans with (2 ^ n); [lia|apply Z.pow_le_mono_r; lia]).
Qed.

Lemma u8_shl_spec x n : 0 <= n -> u8_shl x n = (x * 2 ^ n) mod 256.
Proof. intros. unfold u8_shl. rewrite Z.shiftl_mul_pow2 by done. by rewrite (Z.land_ones _ 8). Qed.

Definition sextet (v : Z) : Prop := 0 <= v < 64.

(** A character of the alphabet. *)
Definition is_base64 (b : byte) : bool := is_ascii_alphanumeric b || (b =? c_PLUS) || (b =? c_SLASH).

Lemma base64_at_value i : sextet i -> base64_value (base64_at i) = Ok i /\ is_base64 (base64_at i) = true.
Proof.
  intros Hi. assert (forallb (fun k => bool_decide (base64_value (base64_at (Z.of_nat k)) = Ok (Z.of_nat k)) && is_base64 (base64_at (Z.of_nat k)))
    (seq 0 64) = true) as H by (vm_compute; reflexivity).
  rewrite forallb_forall in H. specialize (H (Z.to_nat i)). rewrite Z2Nat.id in H by (unfold sextet in *; lia).
  rewrite in_seq in H. apply andb_true_iff in H as [H1 H2]; [|unfold sextet in *; lia].
  by apply bool_decide_eq_true in H1.
Qed.

Lemma base64_value_at b v : base64_value b = Ok v -> sextet v /\ base64_at v = b /\ b <> c_EQ.
Proof.
  intros H.
  assert (forall lo n off, between lo (lo + Z.of_nat n) b = true ->
    forallb (fun k => bool_decide (base64_at (Z.of_nat k + off) = lo + Z.of_nat k) && bool_decide (lo + Z.of_nat k <> c_EQ)) (seq 0 (S n)) = true ->
    base64_at (b - lo + off) = b /\ b <> c_EQ) as Hrange.
  { intros lo n off [Hlo Hhi]%Utf8.between_true Hall. rewrite forallb_forall in Hall.
    specialize (Hall (Z.to_nat (b - lo))). rewrite in_seq, Z2Nat.id in Hall by lia.
    apply andb_true_iff in Hall as [H1%bool_decide_eq_true H2%bool_decide_eq_true]; [|lia].
    replace (lo + (b - lo)) with b in * by lia. done. }
  unfold base64_value in H.
  destruct (between c_A c_Z b) eqn:H1; [injection H as <-|destruct (between c_a c_z b) eqn:H2; [injection H as <-|
    destruct (between c_0 c_9 b) eqn:H3; [injection H as <-|]]].
  - split; [apply Utf8.between_true in H1; unfold sextet; lia|]. rewrite <-(Z.add_0_r (b - c_A)).
    apply (Hrange 65 25%nat 0 H1). vm_compute. reflexivity.
  - split; [apply Utf8.between_true in H2; unfold sextet; lia|].
    apply (Hrange 97 25%nat 26 H2). vm_compute. reflexivity.
  - split; [apply Utf8.between_true in H3; unfold sextet; lia|].
    apply (Hrange 48 9%nat 52 H3). vm_compute. reflexivity.
  - destruct (Z.eqb_spec b c_PLUS) as [->|]; [injection H as <-; by vm_compute|].
    destruct (Z.eqb_spec b c_SLASH) as [->|]; [injection H as <-; by vm_compute|done].
Qed.

Lemma is_base64_not_eq b : is_base64 b = true -> (b =? c_EQ) = false.
Proof.
  intros H. apply Z.eqb_neq. intros ->. vm_compute in H. done.
Qed.

Section sextets.
#[local] Ltac Zify.zify_post_hook ::= Z.div_mod_to_equations.

(** The sextets of three bytes and the bytes of four sextets. *)
Lemma sextet_hi x : is_byte x -> Z.shiftr x 2 = x / 4 /\ sextet (x / 4).
Proof. unfold is_byte, sextet. intros. rewrite Z.shiftr_div_pow2 by lia. split; [done|lia]. Qed.
Lemma sextet_mid x y : is_byte x -> is_byte y ->
  Z.lor (Z.shiftl (Z.land x 3) 4) (Z.shiftr y 4) = (x mod 4) * 16 + y / 16 /\ sextet ((x mod 4) * 16 + y / 16).
Proof.
  unfold is_byte, sextet. intros. replace (Z.land x 3) with (x mod 4) by (symmetry; apply (Z.land_ones x 2); lia).
  rewrite Z.shiftr_div_pow2, Z.shiftl_mul_pow2 by lia.
  rewrite lor_add by (change (2 ^ 4) with 16; lia). change (2 ^ 4) with 16. change (2 ^ 2) with 4. lia.
Qed.
Lemma sextet_low x y : is_byte x -> is_byte y ->
  Z.lor (Z.shiftl (Z.land x 15) 2) (Z.shiftr y 6) = (x mod 16) * 4 + y / 64 /\ sextet ((x mod 16) * 4 + y / 64).
Proof.
  unfold is_byte, sextet. intros. replace (Z.land x 15) with (x mod 16) by (symmetry; apply (Z.land_ones x 4); lia).
  rewrite Z.shiftr_div_pow2, Z.shiftl_mul_pow2 by lia.
  rewrite lor_add by (change (2 ^ 2) with 4; change (2 ^ 6) with 64; lia). change (2 ^ 4) with 16. change (2 ^ 6) with 64. change (2 ^ 2) with 4. lia.
Qed.
Lemma byte_1 a b : sextet a -> sextet b -> Z.lor (u8_shl a 2) (Z.shiftr b 4) = a * 4 + b / 16.
Proof.
  unfold sextet. intros. rewrite u8_shl_spec, Z.shiftr_div_pow2 by lia. change (2 ^ 2) with 4. change (2 ^ 4) with 16.
  rewrite Z.mod_small by lia. apply (lor_add a _ 2); change (2 ^ 2) with 4; lia.
Qed.
Lemma byte_2 b c : sextet b -> sextet c -> Z.lor (u8_shl b 4) (Z.shiftr c 2) = (b mod 16) * 16 + c / 4.
Proof.
  unfold sextet. intros. rewrite u8_shl_spec, Z.shiftr_div_pow2 by lia. change (2 ^ 2) with 4. change (2 ^ 4) with 16.
  replace ((b * 16) mod 256) with (b mod 16 * 16) by lia. apply (lor_add (b mod 16) _ 4); change (2 ^ 4) with 16; lia.
Qed.
Lemma byte_3 c d : sextet c -> sextet d -> Z.lor (u8_shl c 6) d = (c mod 4) * 64 + d.
Proof.
  unfold sextet. intros. rewrite u8_shl_spec by lia. change (2 ^ 6) with 64.
  replace ((c * 64) mod 256) with (c mod 4 * 64) by lia. apply (lor_add (c mod 4) _ 6); change (2 ^ 6) with 64; lia.
Qed.

Lemma land_15 x : Z.land x 15 = x mod 16.
Proof. apply (Z.land_ones x 4). lia. Qed.
Lemma land_3 x : Z.land x 3 = x mod 4.
Proof. apply (Z.land_ones x 2). lia. Qed.
Lemma land_63 x : Z.land x 63 = x mod 64.
Proof. apply (Z.land_ones x 6). lia. Qed.

Lemma decode_group_full a b c d rest :
  sextet a -> sextet b -> sextet c -> sextet d ->
  decode_groups (base64_at a :: base64_at b :: base64_at c :: base64_at d :: rest) =
  app [a * 4 + b / 16; (b mod 16) * 16 + c / 4; (c mod 4) * 64 + d] <$> decode_groups rest.
Proof.
  intros Ha Hb Hc Hd. cbn [decode_groups].
  destruct (base64_at_value a Ha) as [-> _], (base64_at_value b Hb) as [-> _],
    (base64_at_value c Hc) as [-> H1%is_base64_not_eq], (base64_at_value d Hd) as [-> H2%is_base64_not_eq].
  rewrite H1, H2. cbn [mbind result_bind negb andb orb app]. by rewrite byte_1, byte_2, byte_3.
Qed.

Lemma decode_group_two a b c :
  sextet a -> sextet b -> sextet c -> c mod 4 = 0 ->
  decode_groups [base64_at a; base64_at b; base64_at c; c_EQ] = Ok [a * 4 + b / 16; (b mod 16) * 16 + c / 4].
Proof.
  intros Ha Hb Hc H4. cbn [decode_groups].
  destruct (base64_at_value a Ha) as [-> _], (base64_at_value b Hb) as [-> _],
    (base64_at_value c Hc) as [-> H1%is_base64_not_eq].
  rewrite H1. cbn -[Z.land u8_shl Z.lor Z.shiftr]. rewrite land_3, H4. cbn -[Z.land u8_shl Z.lor Z.shiftr]. by rewrite byte_1, byte_2.
Qed.

Lemma decode_group_one a b :
  sextet a -> sextet b -> b mod 16 = 0 ->
  decode_groups [base64_at a; base64_at b; c_EQ; c_EQ] = Ok [a * 4 + b / 16].
Proof.
  intros Ha Hb H16. cbn [decode_groups].
  destruct (base64_at_value a Ha) as [-> _], (base64_at_value b Hb) as [-> _].
  cbn -[Z.land u8_shl Z.lor Z.shiftr]. rewrite land_15, H16. cbn -[Z.land u8_shl Z.lor Z.shiftr]. by rewrite byte_1.
Qed.

(** Decoding what was encoded. *)
Lemma decode_append input : Forall is_byte input -> decode_groups (append_base64 input) = Ok input.
Proof.
  induction input as [input IH] using (induction_ltof1 _ (@length Z)). unfold ltof in IH. intros Hb.
  assert (is_byte 0) as B0 by (unfold is_byte; lia).
  destruct input as [|x [|y [|z rest]]]; [done| | |]; cbn [append_base64 app]; rewrite !Forall_cons in Hb.
  - destruct Hb as [Bx _]. destruct (sextet_hi x Bx) as [-> S1], (sextet_mid x 0 Bx B0) as [Hm S2].
    change (Z.shiftr 0 4) with 0 in Hm. rewrite Z.lor_0_r in Hm. rewrite Hm.
    rewrite decode_group_one by (done || lia). unfold is_byte in *. do 2 f_equal. lia.
  - destruct Hb as (Bx & By & _). destruct (sextet_hi x Bx) as [-> S1], (sextet_mid x y Bx By) as [-> S2], (sextet_low y 0 By B0) as [Hm S3].
    change (Z.shiftr 0 6) with 0 in Hm. rewrite Z.lor_0_r in Hm. rewrite Hm.
    rewrite decode_group_two by (done || lia). unfold is_byte in *. f_equal. f_equal; [lia|f_equal; lia].
  - destruct Hb as (Bx & By & Bz & Hr).
    destruct (sextet_hi x Bx) as [-> S1], (sextet_mid x y Bx By) as [-> S2], (sextet_low y z By Bz) as [-> S3].
    rewrite land_63, decode_group_full by (done || (unfold sextet; lia)).
    rewrite IH by (done || (simpl; lia)). unfold is_byte in *. cbn -[Z.mul Z.add Z.div Z.modulo].
    f_equal. f_equal; [lia|f_equal; [lia|f_equal; lia]].
Qed.

(** The decoder accepts canonical encodings only. *)
Lemma append_decode input out : decode_groups input = Ok out -> (length input mod 4 = 0)%nat -> append_base64 out = input.
Proof.
  revert out. induction input as [input IH] using (induction_ltof1 _ (@length Z)). unfold ltof in IH. intros out.
  destruct input as [|c0 [|c1 [|c2 [|c3 rest]]]]; try by intros _ [=]. { by intros [= <-]. }
  cbn [decode_groups]. intros Hd Hlen.
  apply result_bind_Ok in Hd as (a & [Ha [<- _]]%base64_value_at & Hd).
  apply result_bind_Ok in Hd as (b & [Hb [<- _]]%base64_value_at & Hd).
  apply result_bind_Ok in Hd as (c & Hc & Hd). apply result_bind_Ok in Hd as (d & Hdv & Hd).
  destruct (_ && _ || _) eqn:Hpad in Hd; [done|]. apply orb_false_iff in Hpad as [Hp2 Hp3].
  destruct (decode_groups rest) as [more|] eqn:Hrest; [|done]. injection Hd as <-.
  rewrite byte_1 by done.
  assert (a * 4 + b / 16 = a * 4 + b / 16 /\ Z.shiftr (a * 4 + b / 16) 2 = a) as [_ Hs1].
  { split; [done|]. rewrite Z.shiftr_div_pow2 by lia. change (2 ^ 2) with 4. unfold sextet in *. lia. }
  destruct (Z.eqb_spec c2 c_EQ) as [->|Hc2].
  - destruct (bool_decide_reflect (rest = [])) as [->|]; [|done].
    destruct (Z.eqb_spec c3 c_EQ) as [->|]; [|done]. injection Hrest as <-. injection Hc as <-. injection Hdv as <-.
    cbn in Hp2. apply negb_false_iff, Z.eqb_eq in Hp2. rewrite land_15 in Hp2.
    cbn [negb app append_base64]. rewrite Hs1, land_3, Z.shiftl_mul_pow2 by lia. change (2 ^ 4) with 16.
    do 2 f_equal. f_equal. unfold sextet in *. lia.
  - apply base64_value_at in Hc as [Hc [<- _]]. cbn [negb].
    rewrite byte_2 by done.
    assert (is_byte (a * 4 + b / 16) /\ is_byte (b mod 16 * 16 + c / 4)) as [Hby1 Hby2] by (unfold is_byte, sextet in *; lia).
    destruct (sextet_mid _ _ Hby1 Hby2) as [Hm _].
    assert ((a * 4 + b / 16) mod 4 * 16 + (b mod 16 * 16 + c / 4) / 16 = b) as Hmid by (unfold sextet in *; lia).
    destruct (Z.eqb_spec c3 c_EQ) as [->|Hc3].
    + destruct (bool_decide_reflect (rest = [])) as [->|]; [|done]. injection Hrest as <-. injection Hdv as <-.
      cbn in Hp3. apply negb_false_iff, Z.eqb_eq in Hp3. rewrite land_3 in Hp3.
      cbn [negb app append_base64]. rewrite Hs1, Hm, Hmid, land_15, Z.shiftl_mul_pow2 by lia. change (2 ^ 2) with 4.
      do 3 f_equal. f_equal. unfold sextet in *. lia.
    + apply base64_value_at in Hdv as [Hdv [<- _]]. cbn [negb app append_base64]. rewrite byte_3 by done.
      assert (is_byte (c mod 4 * 64 + d)) as Hby3 by (unfold is_byte, sextet in *; lia).
      destruct (sextet_low _ _ Hby2 Hby3) as [Hl _]. rewrite Hs1, Hm, Hmid, Hl, land_63.
      replace ((b mod 16 * 16 + c / 4) mod 16 * 4 + (c mod 4 * 64 + d) / 64) with c by (unfold sextet in *; lia).
      replace ((c mod 4 * 64 + d) mod 64) with d by (unfold sextet in *; lia).
      do 4 f_equal. apply IH; [simpl; lia|done|].
      cbn [length] in Hlen. replace (S (S (S (S (length rest))))) with (length rest + 1 * 4)%nat in Hlen by lia.
      by rewrite Nat.Div0.mod_add in Hlen.
Qed.
End sextets.

(** * Encoded words *)

Definition encoded_word (chunk : bytes) : bytes := ENCODED_WORD_PREFIX ++ append_base64 chunk ++ ENCODED_WORD_SUFFIX.

(** What one encoded-word carries: at most forty-five bytes of whole
    characters. *)
Definition chunk_ok (chunk : bytes) : Prop :=
  chunk <> [] /\ (length chunk <= 45)%nat /\ is_Some (utf8_chars chunk).

Lemma utf8_chars_bytes l : is_Some (utf8_chars l) -> Forall is_byte l.
Proof.
  induction l as [l IH] using (induction_ltof1 _ (@length Z)). unfold ltof in IH. intros [cs Hcs].
  destruct l as [|b l]; [done|]. rewrite utf8_chars_unfold in Hcs by done.
  apply bind_Some in Hcs as ([c r] & Hc & (cr & Hr & _)%fmap_Some).
  apply next_char_split in Hc as (b0 & tl & Hl & _ & _ & _ & Hb & _). rewrite Hl.
  apply Forall_app. split; [done|]. apply IH; [|by eexists]. apply (f_equal length) in Hl. rewrite length_app in Hl. simpl in *. lia.
Qed.

Definition is_base64_text (b : byte) : bool := is_base64 b || (b =? c_EQ).

Lemma append_base64_text input : Forall is_byte input -> Forall (fun b => is_base64_text b = true) (append_base64 input).
Proof.
  induction input as [input IH] using (induction_ltof1 _ (@length Z)). unfold ltof in IH. intros Hb.
  assert (forall v, sextet v -> is_base64_text (base64_at v) = true) as Hv.
  { intros v Hv. unfold is_base64_text. by rewrite (proj2 (base64_at_value v Hv)). }
  assert (is_byte 0) as B0 by (unfold is_byte; lia).
  destruct input as [|x [|y [|z rest]]]; [constructor| | |]; cbn [append_base64 app]; rewrite !Forall_cons in Hb.
  - destruct Hb as [Bx _]. destruct (sextet_hi x Bx) as [-> S1], (sextet_mid x 0 Bx B0) as [Hm S2].
    change (Z.shiftr 0 4) with 0 in Hm. rewrite Z.lor_0_r in Hm. rewrite Hm. repeat constructor; auto.
  - destruct Hb as (Bx & By & _). destruct (sextet_hi x Bx) as [-> S1], (sextet_mid x y Bx By) as [-> S2], (sextet_low y 0 By B0) as [Hm S3].
    change (Z.shiftr 0 6) with 0 in Hm. rewrite Z.lor_0_r in Hm. rewrite Hm. repeat constructor; auto.
  - destruct Hb as (Bx & By & Bz & Hr).
    destruct (sextet_hi x Bx) as [-> S1], (sextet_mid x y Bx By) as [-> S2], (sextet_low y z By Bz) as [-> S3].
    rewrite land_63. repeat (constructor; [apply Hv; try done; unfold sextet; apply Z.mod_pos_bound; lia|]).
    apply IH; [simpl; lia|done].
Qed.

Lemma length_append_base64 input :
  (length (append_base64 input) mod 4 = 0)%nat /\ (length (append_base64 input) = (length input + 2) / 3 * 4)%nat.
Proof.
  induction input as [input IH] using (induction_ltof1 _ (@length Z)). unfold ltof in IH.
  destruct input as [|x [|y [|z rest]]]; [done..|]. cbn [append_base64 app length].
  destruct (IH rest) as [H1 H2]; [simpl; lia|]. split.
  - replace (S (S (S (S (length (append_base64 rest)))))) with (length (append_base64 rest) + 1 * 4)%nat by lia.
    by rewrite Nat.Div0.mod_add.
  - rewrite H2. replace (S (S (S (length rest))) + 2)%nat with (length rest + 2 + 1 * 3)%nat by lia.
    rewrite Nat.div_add by done. lia.
Qed.

Lemma append_base64_nonempty input : input <> [] -> append_base64 input <> [].
Proof. destruct input as [|x [|y [|z rest]]]; done. Qed.

Lemma decode_base64_append input : Forall is_byte input -> decode_base64 (append_base64 input) = Ok input.
Proof.
  intros H. unfold decode_base64. rewrite (proj1 (length_append_base64 input)). by apply decode_append.
Qed.

Lemma find_window_question e rest :
  Forall (fun b => is_base64_text b = true) e -> find_window (B "?=") (e ++ B "?=" ++ rest) = Some (length e).
Proof.
  induction 1 as [|b e Hb He IH]; [done|]. cbn [app find_window].
  rewrite IH. unfold starts_with. cbn. destruct (bytes_eqb _ _) eqn:Hx; [|done].
  apply bytes_eqb_true in Hx. injection Hx as -> _. by vm_compute in Hb.
Qed.

(** The header of an encoded-word as the decoder cuts it. *)
Lemma decode_word_cut e rest :
  Forall (fun b => is_base64_text b = true) e -> e <> [] -> (length e <= 63)%nat ->
  decode_word (ENCODED_WORD_PREFIX ++ e ++ ENCODED_WORD_SUFFIX ++ rest) =
  (bs ← decode_base64 e; text ← transcode (B "UTF-8") bs; Ok (length e + 12, text)%nat).
Proof.
  intros Htext Hne Hlen. unfold decode_word.
  set (input := ENCODED_WORD_PREFIX ++ e ++ ENCODED_WORD_SUFFIX ++ rest).
  assert (position (fun b => b =? c_QM) (drop 2 input) = Some 5%nat) as -> by reflexivity.
  cbn [fmap option_fmap option_map ok_or mbind result_bind Nat.add].
  assert (position (fun b => b =? c_QM) (drop 8 input) = Some 1%nat) as -> by reflexivity.
  cbn [fmap option_fmap option_map ok_or mbind result_bind Nat.add].
  assert (drop 10 input = e ++ B "?=" ++ rest) as -> by reflexivity.
  rewrite find_window_question by done.
  cbn [fmap option_fmap option_map ok_or mbind result_bind].
  rewrite (proj2 (Nat.ltb_ge _ _)) by lia.
  assert (slice 2 7 input = B "UTF-8") as -> by reflexivity.
  assert (slice 8 9 input = [c_B]) as -> by reflexivity.
  replace (S (S (S (S (S (S (S (S (S (S (length e + 2)))))))))))%nat with (length e + 12)%nat by lia.
  assert (slice 10 (length e + 12 - 2) input = e) as ->.
  { unfold slice. replace (length e + 12 - 2 - 10)%nat with (length e) by lia.
    change (drop 10 input) with (e ++ B "?=" ++ rest). apply take_app_length. }
  assert (existsb (fun b => b =? c_QM) e = false) as ->.
  { apply not_true_iff_false. intros (x & Hx & ->%Z.eqb_eq)%existsb_exists. rewrite Forall_forall in Htext.
    apply list_elem_of_In in Hx. by apply Htext in Hx. }
  rewrite (bool_decide_false (e = [])) by done. rewrite (bool_decide_false (B "UTF-8" = [])) by done.
  cbn [length Nat.eqb negb orb head default id].
  change (to_ascii_uppercase c_B =? c_B) with true. done.
Qed.

Lemma decode_encoded_word chunk rest :
  chunk_ok chunk -> decode_word (encoded_word chunk ++ rest) = Ok (length (encoded_word chunk), chunk).
Proof.
  intros (Hne & Hlen & Hutf). pose proof (utf8_chars_bytes _ Hutf) as Hb.
  destruct (length_append_base64 chunk) as [_ Hl]. unfold encoded_word. rewrite <-!app_assoc.
  rewrite decode_word_cut.
  - rewrite decode_base64_append by done. cbn [mbind result_bind]. unfold transcode.
    rewrite (proj2 (bytes_eqb_true _ _) eq_refl : eq_ignore_ascii_case (B "UTF-8") (B "UTF-8") = true).
    unfold valid_utf8. rewrite bool_decide_true by done. cbn [mbind result_bind].
    do 2 f_equal. rewrite !length_app. cbn [length ENCODED_WORD_PREFIX ENCODED_WORD_SUFFIX]. change (length ENCODED_WORD_PREFIX) with 10%nat.
    change (length ENCODED_WORD_SUFFIX) with 2%nat. lia.
  - by apply append_base64_text.
  - by apply append_base64_nonempty.
  - rewrite Hl. assert ((length chunk + 2) / 3 < 16)%nat; [apply Nat.Div0.div_lt_upper_bound; lia|lia].
Qed.

Section words.
Context {T : Target}.

(** A text the decoder lets through: no control character but the tab. *)
Definition printable (l : bytes) : Prop :=
  exists cs, utf8_chars l = Some cs /\ Forall (fun c => c = c_TAB \/ is_control c = false) cs.

Lemma append_decoded_text_ok output text :
  printable text -> len (bb_bytes output ++ text) <= bb_limit output -> bb_limit output <= usize_max ->
  append_decoded_text output text = Ok {| bb_bytes := bb_bytes output ++ text; bb_limit := bb_limit output |}.
Proof.
  intros (cs & Hcs & Hc) Hl Hu. unfold append_decoded_text. rewrite Hcs. cbn [ok_or mbind result_bind].
  replace (existsb _ cs) with false.
  - by rewrite try_extend_fits.
  - symmetry. apply not_true_iff_false. intros (c & Hin & Hx)%existsb_exists. apply list_elem_of_In in Hin.
    rewrite Forall_forall in Hc. apply andb_true_iff in Hx as [Hx1%negb_true_iff%Z.eqb_neq Hx2].
    destruct (Hc c Hin); congruence.
Qed.

Definition spaced_words (chunks : list bytes) : bytes := chunks ≫= (fun ch => c_SP :: encoded_word ch).

Lemma starts_with_word chunk rest : starts_with (encoded_word chunk ++ rest) (B "=?") = true.
Proof. done. Qed.

Lemma decode_word_step fuel chunk rest prev output :
  chunk_ok chunk -> printable chunk ->
  len (bb_bytes output ++ chunk) <= bb_limit output -> bb_limit output <= usize_max ->
  decode_loop (S fuel) (encoded_word chunk ++ rest) prev output =
  decode_loop fuel rest true {| bb_bytes := bb_bytes output ++ chunk; bb_limit := bb_limit output |}.
Proof.
  intros Hc Hp Hl Hu.
  assert (encoded_word chunk ++ rest = 61 :: drop 1 (encoded_word chunk ++ rest)) as He by done.
  rewrite He at 1. cbn [decode_loop]. rewrite <-He, starts_with_word, decode_encoded_word by done.
  cbn [mbind result_bind]. rewrite append_decoded_text_ok by done. cbn [mbind result_bind].
  by rewrite drop_app_length.
Qed.

Lemma decode_spaced_words fuel chunks output :
  Forall chunk_ok chunks -> Forall printable chunks -> (length (spaced_words chunks) <= fuel)%nat ->
  len (bb_bytes output ++ concat chunks) <= bb_limit output -> bb_limit output <= usize_max ->
  decode_loop fuel (spaced_words chunks) true output =
  Ok {| bb_bytes := bb_bytes output ++ concat chunks; bb_limit := bb_limit output |}.
Proof.
  intros Hc. revert fuel output. induction Hc as [|chunk chunks Hch Hc IH]; intros fuel output Hp Hf Hl Hu.
  { rewrite app_nil_r. destruct output. by destruct fuel. }
  apply Forall_cons in Hp as [Hpc Hp]. cbn [concat] in *. rewrite !length_app in Hl.
  unfold spaced_words in *. rewrite bind_cons in *. cbn [app] in *. fold (spaced_words chunks) in *.
  assert (2 <= length (encoded_word chunk))%nat by (unfold encoded_word; rewrite length_app; change (length ENCODED_WORD_PREFIX) with 10%nat; lia).
  cbn [length] in Hf. rewrite length_app in Hf.
  destruct fuel as [|[|fuel]]; [lia|lia|]. 
  change (decode_loop (S (S fuel)) (c_SP :: encoded_word chunk ++ spaced_words chunks) true output) with
    (decode_loop (S fuel) (encoded_word chunk ++ spaced_words chunks) true output).
  rewrite decode_word_step; [|done|done|rewrite length_app; lia|done].
  rewrite IH; simpl; rewrite ?length_app; try done; try lia. by rewrite <-app_assoc.
Qed.

(** Before the first word nothing is white space between words. *)
Lemma decode_leading_space fuel chunk rest limit :
  1 <= limit -> limit <= usize_max ->
  decode_loop (S fuel) (c_SP :: encoded_word chunk ++ rest) false (with_capacity limit) =
  decode_loop fuel (encoded_word chunk ++ rest) false {| bb_bytes := [c_SP]; bb_limit := limit |}.
Proof.
  intros Hl Hu. cbn [decode_loop].
  assert (starts_with (c_SP :: encoded_word chunk ++ rest) (B "=?") = false) as -> by done.
  assert (find_window (B "=?") (c_SP :: encoded_word chunk ++ rest) = Some 1%nat) as -> by done.
  cbn [andb negb default id]. rewrite append_decoded_text_ok; [done| |cbn [with_capacity bb_bytes bb_limit app length]; cbn; lia|done].
  exists [c_SP]. split; [done|]. apply Forall_singleton. by right.
Qed.

Lemma length_encoded_word_lower chunk : (10 <= length (encoded_word chunk))%nat.
Proof. unfold encoded_word. rewrite length_app. change (length ENCODED_WORD_PREFIX) with 10%nat. lia. Qed.

Lemma decode_words_after_fold chunks limit :
  Forall chunk_ok chunks -> Forall printable chunks -> chunks <> [] ->
  1 + len (concat chunks) <= limit -> limit <= usize_max ->
  decode_rfc2047 (spaced_words chunks) limit = Ok (c_SP :: concat chunks).
Proof.
  intros Hc Hp Hne Hl Hu. destruct chunks as [|ch chunks]; [done|]. cbn [concat] in *. rewrite length_app in Hl.
  apply Forall_cons in Hc as [Hch Hc]. apply Forall_cons in Hp as [Hpch Hp].
  pose proof (length_encoded_word_lower ch). unfold decode_rfc2047, spaced_words. rewrite bind_cons. fold (spaced_words chunks).
  rewrite <-app_comm_cons. cbn [length]. rewrite decode_leading_space by lia.
  destruct (length (encoded_word ch ++ spaced_words chunks)) as [|n] eqn:Hn; rewrite length_app in Hn; [lia|].
  rewrite decode_word_step; cbn [bb_bytes bb_limit app]; [|done|done|cbn [length]; lia|lia].
  rewrite decode_spaced_words; cbn [bb_bytes bb_limit]; [done|done|done|lia|rewrite length_app; cbn [length]; lia|lia].
Qed.

Lemma decode_words_on_line ch chunks limit :
  Forall chunk_ok (ch :: chunks) -> Forall printable (ch :: chunks) ->
  len (ch ++ concat chunks) <= limit -> limit <= usize_max ->
  decode_rfc2047 (encoded_word ch ++ spaced_words chunks) limit = Ok (ch ++ concat chunks).
Proof.
  intros [Hch Hc]%Forall_cons [Hpch Hp]%Forall_cons Hl Hu. rewrite length_app in Hl.
  pose proof (length_encoded_word_lower ch). unfold decode_rfc2047.
  destruct (length (encoded_word ch ++ spaced_words chunks)) as [|n] eqn:Hn; rewrite length_app in Hn; [lia|].
  rewrite decode_word_step; cbn [with_capacity bb_bytes bb_limit app]; [|done|done|lia|lia].
  rewrite decode_spaced_words; cbn [bb_bytes bb_limit]; [done|done|done|lia|rewrite length_app; lia|lia].
Qed.
End words.

(** * Generation *)

Lemma boundary_before_spec value end_ k :
  is_char_boundary value k = true -> (k <= end_)%nat ->
  is_char_boundary value (boundary_before value end_) = true /\ (k <= boundary_before value end_ <= end_)%nat.
Proof.
  intros Hk. induction end_ as [|e IH]; intros Hle; cbn [boundary_before].
  - replace k with 0%nat in * by lia. by rewrite Hk.
  - destruct (is_char_boundary value (S e)) eqn:Hb; [done|].
    destruct (decide (k = S e)) as [->|]; [congruence|]. destruct IH as [? ?]; [lia|]. split; [done|lia].
Qed.

(** From a boundary inside a valid text, the next character ends at a
    boundary at most four bytes later. *)
Lemma next_boundary value start cs :
  utf8_chars (drop start value) = Some cs -> (start < length value)%nat ->
  exists k, (start < k <= start + 4)%nat /\ (k <= length value)%nat /\ is_char_boundary value k = true.
Proof.
  intros Hcs Hlt. assert (drop start value <> []) as Hne.
  { intros H. apply (f_equal length) in H. rewrite length_drop in H. simpl in H. lia. }
  rewrite utf8_chars_unfold in Hcs by done. apply bind_Some in Hcs as ([c r] & Hc & (cr & Hr & _)%fmap_Some).
  apply next_char_split in Hc as (b0 & tl & Hl & _ & H3 & _).
  assert (length value = start + S (length tl) + length r)%nat as Hlen.
  { apply (f_equal length) in Hl. rewrite length_drop, length_app in Hl. simpl in Hl. lia. }
  exists (start + S (length tl))%nat. split_and!; [lia|lia|lia|].
  unfold is_char_boundary. rewrite (proj2 (Nat.eqb_neq _ 0)) by lia. cbn [orb].
  assert (value !! (start + S (length tl))%nat = r !! 0%nat) as ->.
  { rewrite <-lookup_drop, Hl. rewrite lookup_app_r by done. simpl. by rewrite Nat.sub_diag. }
  destruct r as [|x r]; cbn [lookup list_lookup].
  - apply Nat.eqb_eq. simpl in Hlen. lia.
  - rewrite utf8_chars_unfold in Hr by done. apply bind_Some in Hr as ([c' r'] & Hc' & _).
    apply next_char_split in Hc' as (b1 & tl' & Hl' & _ & _ & Hb1 & _). injection Hl' as <- _. by rewrite Hb1.
Qed.

Section generation.
Context {T : Target}.

Lemma base64_len_ok n : (n <= 45)%nat -> base64_len n = Ok (Z.of_nat ((n + 2) / 3 * 4)).
Proof.
  intros Hn. pose proof usize_max_lower. unfold base64_len, checked_add.
  rewrite (proj2 (Z.leb_le _ _)) by lia. cbn [mbind option_bind].
  assert (Z.of_nat (n + 2) / 3 = Z.of_nat ((n + 2) / 3)) as -> by by rewrite Nat2Z.inj_div.
  assert ((n + 2) / 3 < 16)%nat by (apply Nat.Div0.div_lt_upper_bound; lia).
  unfold checked_mul. rewrite (proj2 (Z.leb_le _ _)) by lia. cbn. f_equal. lia.
Qed.

(** Whether the first word goes on the line of the field name. *)
Definition first_fits (field : bytes) (chunk : bytes) : bool :=
  len field + 1 + len (encoded_word chunk) <=? RFC2047_HEADER_LINE_LIMIT.

(** The text the loop appends for [chunks]. *)
Fixpoint folded_words (line_ending : bytes) (chunks : list bytes) : bytes :=
  match chunks with
  | [] => []
  | ch :: chunks' => line_ending ++ c_SP :: encoded_word ch ++ folded_words line_ending chunks'
  end.

Definition appended (field line_ending : bytes) (first : bool) (chunks : list bytes) : bytes :=
  match chunks with
  | [] => field
  | ch :: chunks' =>
      field ++ (if first && first_fits field ch then [] else line_ending) ++ c_SP :: encoded_word ch ++ folded_words line_ending chunks'
  end.

Lemma length_encoded_word ch : (length ch <= 45)%nat -> length (encoded_word ch) = ((length ch + 2) / 3 * 4 + 12)%nat.
Proof.
  intros _. unfold encoded_word. rewrite !length_app, (proj2 (length_append_base64 ch)).
  change (length ENCODED_WORD_PREFIX) with 10%nat. change (length ENCODED_WORD_SUFFIX) with 2%nat. lia.
Qed.

Lemma appended_false field le ch chunks :
  appended (field ++ le ++ c_SP :: encoded_word ch) le false chunks = field ++ le ++ c_SP :: encoded_word ch ++ folded_words le chunks.
Proof.
  destruct chunks as [|ch' chunks]; cbn [appended folded_words andb].
  - by rewrite app_nil_r.
  - rewrite <-!app_assoc. cbn [app]. by rewrite <-?app_assoc.
Qed.

Lemma rfc2047_loop_spec fuel value le start first field cs :
  utf8_chars (drop start value) = Some cs -> (length value - start <= fuel)%nat -> (start <= length value)%nat ->
  is_char_boundary value start = true -> len value + 45 <= usize_max ->
  exists chunks, concat chunks = drop start value /\ Forall chunk_ok chunks /\
    rfc2047_loop fuel value le start first field = Ok (appended field le first chunks).
Proof.
  revert start first field cs. induction fuel as [|fuel IH]; intros start first field cs Hcs Hf Hst Hb Hu; cbn [rfc2047_loop].
  { exists []. rewrite drop_ge by lia. done. }
  destruct (Nat.leb_spec (length value) start) as [Hge|Hlt].
  { exists []. rewrite drop_ge by lia. done. }
  change RFC2047_INPUT_CHUNK with 45%nat. rewrite (checked_add_fits start 45) by lia.
  destruct (next_boundary value start cs Hcs Hlt) as (k & Hk1 & Hk2 & Hk3).
  destruct (boundary_before_spec value (Nat.min (start + 45) (length value)) k Hk3) as [He1 He2]; [lia|].
  set (e := boundary_before _ _) in *.
  set (ch := slice start e value).
  assert (length ch = e - start)%nat as Hch by (apply length_slice; lia).
  assert (drop start value = ch ++ drop e value) as Hsplit by (symmetry; apply slice_app; lia).
  assert (is_Some (utf8_chars ch) /\ exists cs', utf8_chars (drop e value) = Some cs') as [Hu1 [cs' Hu2]].
  { rewrite Hsplit in Hcs. destruct (utf8_chars_split _ _ _ Hcs) as (ca & cb & Ha & Hbb & _); [|eauto].
    intros x Hx. unfold is_char_boundary in He1. rewrite (proj2 (Nat.eqb_neq e 0)) in He1 by lia.
    assert (value !! e = Some x) as Hlk.
    { rewrite <-(Nat.add_0_r e), <-lookup_drop. by destruct (drop e value). }
    rewrite Hlk in He1. by apply negb_true_iff. }
  assert (chunk_ok ch) as Hok.
  { split; [|split; [lia|done]]. intros H. apply (f_equal length) in H. simpl in H. lia. }
  rewrite base64_len_ok by lia. cbn [mbind result_bind]. rewrite Nat2Z.id.
  pose proof usize_max_lower.
  pose proof (length_encoded_word ch ltac:(lia)) as Hw. rewrite Hch in Hw.
  assert ((e - start + 2) / 3 < 16)%nat by (apply Nat.Div0.div_lt_upper_bound; lia).
  change (length ENCODED_WORD_PREFIX) with 10%nat. change (length ENCODED_WORD_SUFFIX) with 2%nat.
  rewrite (checked_add_fits 10) by lia. cbn [mbind option_bind].
  rewrite (checked_add_fits _ 2) by lia. cbn [ok_or mbind result_bind].
  replace (10 + (e - start + 2) / 3 * 4 + 2)%nat with (length (encoded_word ch)) by lia.
  assert ((first && match (size ← checked_add (length field) 1; checked_add size (length (encoded_word ch))) with
          | Some size => Z.of_nat size <=? RFC2047_HEADER_LINE_LIMIT | None => false end) = first && first_fits field ch) as ->.
  { f_equal. unfold first_fits, checked_add, RFC2047_HEADER_LINE_LIMIT. 
    destruct (Z.leb_spec (len field + Z.of_nat 1) usize_max); cbn [mbind option_bind].
    - destruct (Z.leb_spec (Z.of_nat (length field + 1) + len (encoded_word ch)) usize_max).
      + f_equal. lia.
      + symmetry. apply Z.leb_gt. lia.
    - symmetry. apply Z.leb_gt. lia. }
  set (sep := if first && first_fits field ch then [] else le).
  assert ((if first && first_fits field ch then field ++ [c_SP] else field ++ le ++ [c_SP]) ++
    ENCODED_WORD_PREFIX ++ append_base64 ch ++ ENCODED_WORD_SUFFIX = field ++ sep ++ c_SP :: encoded_word ch) as ->.
  { unfold sep, encoded_word. destruct (first && first_fits field ch); by rewrite <-!app_assoc. }
  destruct (IH e false (field ++ sep ++ c_SP :: encoded_word ch) cs' Hu2) as (chunks & Hcat & Hall & Hloop); [lia|lia|done|done|].
  exists (ch :: chunks). split_and!.
  - cbn [concat]. by rewrite Hcat.
  - by constructor.
  - rewrite Hloop. f_equal. unfold sep. destruct chunks as [|ch' chunks]; cbn [appended folded_words andb].
    + by rewrite app_nil_r.
    + rewrite <-!app_assoc. cbn [app]. by rewrite <-?app_assoc.
Qed.

(** What [serialize_rfc2047] writes: the value cut into chunks of whole
    characters, one encoded-word for each, every word after the first on a
    line of its own. *)
Lemma serialize_rfc2047_spec name value le :
  valid_utf8 value = true -> len value + 45 <= usize_max ->
  exists chunks, concat chunks = value /\ Forall chunk_ok chunks /\
    serialize_rfc2047 name value le =
    Ok (appended (append_canonical_header_name name ++ [c_COLON]) le true chunks ++ le).
Proof.
  intros [cs Hcs]%bool_decide_eq_true Hu.
  destruct (rfc2047_loop_spec (length value) value le 0 true (append_canonical_header_name name ++ [c_COLON]) cs)
    as (chunks & Hcat & Hall & Hloop); try done; try lia.
  exists chunks. split_and!; try done. unfold serialize_rfc2047. by rewrite Hloop.
Qed.
End generation.

(** * Properties *)

Definition plain (c : Z) : bool := (c =? c_TAB) || is_ascii_graphic c || (c =? c_SP).
Definition forbidden (c : Z) : bool := negb (plain c) && is_control c.

Section validation.
Context {T : Target}.

Lemma validate_fold_spec cs b :
  foldl (fun acc c =>
    non_ascii ← acc;
    if (c =? c_TAB) || is_ascii_graphic c || (c =? c_SP) then Ok non_ascii
    else if is_control c then Err InvalidValue
    else Ok true) (Ok b) cs =
  if existsb forbidden cs then Err InvalidValue else Ok (b || negb (forallb plain cs)).
Proof.
  assert (forall cs, foldl (fun acc c =>
    non_ascii ← acc;
    if (c =? c_TAB) || is_ascii_graphic c || (c =? c_SP) then Ok non_ascii
    else if is_control c then Err InvalidValue
    else Ok true) (Err InvalidValue) cs = Err InvalidValue) as Herr by (by intros l; induction l).
  revert b. induction cs as [|c cs IH]; intros b; simpl; [by rewrite orb_false_r|].
  fold (plain c). unfold forbidden at 1. destruct (plain c); cbn [negb andb orb]; [apply IH|].
  destruct (is_control c); [apply Herr|]. rewrite IH. cbn [orb]. by rewrite orb_true_r.
Qed.

Lemma validate_generated_spec name value cs :
  utf8_chars value = Some cs -> len name + len value + 2 <= usize_max ->
  validate_generated_header_value name value =
  if existsb forbidden cs then Err InvalidValue
  else if forallb plain cs then
    if RFC5322_HEADER_LINE_LIMIT <? len name + 2 + len value then Err LineTooLong else Ok Enc_Ascii
  else Ok Enc_Rfc2047.
Proof.
  intros Hcs Hu. unfold validate_generated_header_value, chars. rewrite Hcs.
  change (default [] (Some cs)) with cs. rewrite validate_fold_spec.
  destruct (existsb forbidden cs); [done|]. cbn [orb mbind result_bind]. destruct (forallb plain cs); [|done].
  cbn [negb]. rewrite (checked_add_fits _ 2) by lia. cbn [mbind option_bind]. rewrite checked_add_fits by lia.
  cbn [ok_or mbind result_bind]. replace (Z.of_nat (length name + 2 + length value)) with (len name + 2 + len value) by lia. done.
Qed.

Lemma not_forbidden_printable value cs :
  utf8_chars value = Some cs -> existsb forbidden cs = false -> printable value.
Proof.
  intros Hcs Hf. exists cs. split; [done|]. apply Forall_forall. intros c Hc.
  destruct (is_control c) eqn:Hctl; [left|by right].
  assert (forbidden c = false) as Hfc.
  { apply not_true_iff_false. intros H. apply not_true_iff_false in Hf. apply Hf. apply existsb_exists. exists c.
    split; [by apply list_elem_of_In|done]. }
  unfold forbidden in Hfc. rewrite Hctl, andb_true_r in Hfc. apply negb_false_iff in Hfc.
  unfold plain, is_ascii_graphic, is_control, between in *. lia.
Qed.
End validation.

(** Base64 encoding and strict decoding are inverse bijections: every
    byte string decodes from its encoding, and an input that decodes at all is
    the encoding of what it decodes to (no stray padding bits, no missing or
    misplaced padding). *)
Theorem base64_bijection :
  (forall input, Forall is_byte input -> decode_base64 (append_base64 input) = Ok input) /\
  (forall input out, decode_base64 input = Ok out -> append_base64 out = input).
Proof.
  split; [apply decode_base64_append|]. intros input out. unfold decode_base64.
  destruct (Nat.eqb_spec (length input mod 4) 0) as [H|]; [|done]. cbn [negb]. intros Hd. by apply append_decode.
Qed.

Lemma serialize_generated_facts {T : Target} name value line_ending cs :
  utf8_chars value = Some cs -> len name + len value + len line_ending + 45 <= usize_max ->
  match serialize_generated_header name value line_ending with
  | Ok field =>
      existsb forbidden cs = false /\
      (forallb plain cs = true /\ len name + 2 + len value <= 998 /\
         field = append_canonical_header_name name ++ B ": " ++ value ++ line_ending \/
       forallb plain cs = false /\ exists chunks, concat chunks = value /\ Forall chunk_ok chunks /\
         Forall (fun ch => (length (encoded_word ch) <= 72)%nat) chunks /\
         field = appended (append_canonical_header_name name ++ [c_COLON]) line_ending true chunks ++ line_ending)
  | Err InvalidValue => existsb forbidden cs = true
  | Err LineTooLong => forallb plain cs = true /\ 998 < len name + 2 + len value
  | Err GH_SizeOverflow => False
  end.
Proof.
  intros Hcs Hu. unfold serialize_generated_header. rewrite (validate_generated_spec _ _ _ Hcs) by lia.
  destruct (existsb forbidden cs) eqn:Hf; [done|]. destruct (forallb plain cs) eqn:Hp.
  - destruct (Z.ltb_spec RFC5322_HEADER_LINE_LIMIT (len name + 2 + len value)) as [H|H]; unfold RFC5322_HEADER_LINE_LIMIT in H;
      cbn [mbind result_bind]; [split; [done|lia]|].
    unfold serialize_ascii. rewrite (checked_add_fits _ 2) by lia. cbn [mbind option_bind].
    rewrite checked_add_fits by lia. cbn [mbind option_bind]. rewrite checked_add_fits by lia. cbn [ok_or mbind result_bind].
    split; [done|]. left. split_and!; [done|lia|done].
  - cbn [mbind result_bind].
    destruct (serialize_rfc2047_spec name value line_ending) as (chunks & Hcat & Hall & ->);
      [apply bool_decide_eq_true; by rewrite Hcs|lia|].
    split; [done|]. right. split; [done|]. exists chunks. split_and!; try done.
    eapply Forall_impl; [exact Hall|]. intros ch (_ & Hl & _). rewrite length_encoded_word by done.
    assert ((length ch + 2) / 3 < 16)%nat by (apply Nat.Div0.div_lt_upper_bound; lia). lia.
Qed.

(** [serialize_generated_header] on every branch.  A control character
    is refused; printable ASCII goes on one line of at most 998 bytes, or is
    refused; any other text is cut into chunks of whole characters, each an
    encoded-word of at most 72 bytes, and the words' chunks concatenate to the
    value.  No arithmetic overflow is ever reported. *)
Theorem serialize_generated_header_spec {T : Target} name value line_ending cs :
  utf8_chars value = Some cs -> len name + len value + len line_ending + 45 <= usize_max ->
  match serialize_generated_header name value line_ending with
  | Ok field =>
      existsb forbidden cs = false /\
      (forallb plain cs = true /\ len name + 2 + len value <= 998 /\
         field = append_canonical_header_name name ++ B ": " ++ value ++ line_ending \/
       forallb plain cs = false /\ exists chunks, concat chunks = value /\ Forall chunk_ok chunks /\
         Forall (fun ch => (length (encoded_word ch) <= 72)%nat) chunks /\
         field = appended (append_canonical_header_name name ++ [c_COLON]) line_ending true chunks ++ line_ending)
  | Err InvalidValue => existsb forbidden cs = true
  | Err LineTooLong => forallb plain cs = true /\ 998 < len name + 2 + len value
  | Err GH_SizeOverflow => False
  end.
Proof. apply serialize_generated_facts. Qed.

Lemma serialize_generated_header_spec_witness :
  exists chunks, serialize_generated_header (T := target64) (B "subject") (B "caf" ++ [195; 169]) [10] =
    Ok (appended (append_canonical_header_name (B "subject") ++ [c_COLON]) [10] true chunks ++ [10]) /\
    concat chunks = B "caf" ++ [195; 169].
Proof.
  pose proof (serialize_generated_header_spec (T := target64) (B "subject") (B "caf" ++ [195; 169]) [10] [99; 97; 102; 233] eq_refl) as H.
  destruct (serialize_generated_header _ _ _) as [f|e] eqn:Hs; [|vm_compute in Hs; discriminate].
  destruct H as (_ & [[H _]|(_ & chunks & H1 & _ & _ & ->)]); [vm_compute; discriminate|vm_compute in H; discriminate|].
  exists chunks. split; [reflexivity|exact H1].
Defined.
