(* ===== verification/HeaderFields.v ===== *)
(** Header fields as byte ranges: the parsing half of
    [src/src/header_edit/storage.rs] (fields, separator, line endings) and the
    unfolding of continued lines, which [src/src/message.rs] and
    [storage.rs] both implement. *)
From S2P Require Import Prelude Config Limits.

(** Source: header_edit/storage.rs `pub struct Field<'a>` *)
Record Field := { f_bytes : bytes; f_name : option bytes }.

(** Source: header_edit/storage.rs `pub fn value(&self)` *)
Definition field_value (f : Field) : option bytes :=
  name ← f_name f;
  let start := (length name + 1)%nat in
  if (start <=? length (f_bytes f))%nat then Some (drop start (f_bytes f)) else None.

(** Source: header_edit/storage.rs `pub(super) fn field_from_bytes` *)
Definition field_from_bytes (b : bytes) : Field :=
  let first_line_end := default (length b) (position (fun x => x =? c_LF) b) in
  let name := (fun colon => take colon b) <$> position (fun x => x =? c_COLON) (take first_line_end b) in
  {| f_bytes := b; f_name := name |}.

(** [split_inclusive(|b| b == LF).next()] on a non-empty slice: the first
    line with its newline, and the rest. *)
Definition take_line (l : bytes) : bytes * bytes :=
  match position (fun x => x =? c_LF) l with
  | Some i => (take (S i) l, drop (S i) l)
  | None => (l, [])
  end.

Definition is_blank_line (line : bytes) : bool :=
  bytes_eqb line [c_LF] || bytes_eqb line [c_CR; c_LF].

Definition starts_blank (l : bytes) : bool :=
  match l with b :: _ => is_blank b | [] => false end.

(** The [while] loop that gathers continuation lines.  Offsets into a slice
    cannot overflow, so the checked additions of the source never return. *)
Fixpoint take_continuations (fuel : nat) (l : bytes) : bytes * bytes :=
  match fuel with
  | O => ([], l)
  | S fuel' =>
      if starts_blank l then
        let '(line, rest) := take_line l in
        let '(more, rest') := take_continuations fuel' rest in (line ++ more, rest')
      else ([], l)
  end.

(** One step of the iterator over a raw header, on the bytes from its offset:
    the field and the bytes after it.
    Source: header_edit/storage.rs `fn next(&mut self)` *)
Definition next_field (l : bytes) : option (Field * bytes) :=
  match l with
  | [] => None
  | _ =>
      let '(line, rest) := take_line l in
      if is_blank_line line then None
      else let '(more, rest') := take_continuations (length rest) rest in
           Some (field_from_bytes (line ++ more), rest')
  end.

Fixpoint raw_fields_fuel (fuel : nat) (l : bytes) : list Field :=
  match fuel with
  | O => []
  | S fuel' =>
      match next_field l with
      | None => []
      | Some (f, rest) => f :: raw_fields_fuel fuel' rest
      end
  end.
Definition raw_fields (l : bytes) : list Field := raw_fields_fuel (length l) l.

(** The loop of [header_separator_start], on the bytes from [line_start]. *)
Fixpoint separator_from (fuel : nat) (l : bytes) : option nat :=
  match fuel with
  | O => None
  | S fuel' =>
      match position (fun x => x =? c_LF) l with
      | None => None
      | Some newline =>
          let line_end := S newline in
          if is_blank_line (take line_end l) then Some O
          else Nat.add line_end <$> separator_from fuel' (drop line_end l)
      end
  end.
(** Source: header_edit/storage.rs `fn header_separator_start` *)
Definition header_separator_start (header : bytes) : option nat :=
  separator_from (length header) header.

(** The scan of [preferred_line_ending]; [previous] is the byte before [l]. *)
Fixpoint preferred_from (previous : option byte) (l : bytes) : bytes :=
  match l with
  | [] => [c_LF]
  | b :: l' =>
      if b =? c_LF
      then (if decide (previous = Some c_CR) then [c_CR; c_LF] else [c_LF])
      else preferred_from (Some b) l'
  end.
(** Source: header_edit/storage.rs `fn preferred_line_ending` *)
Definition preferred_line_ending (parts : list bytes) : bytes := preferred_from None (concat parts).

(** Source: header_edit/storage.rs `pub(crate) fn split_fields` *)
Definition split_fields (header : bytes) : list Field * bytes * bytes :=
  let separator_start := default (length header) (header_separator_start header) in
  (raw_fields (take separator_start header), drop separator_start header,
   preferred_line_ending [header]).

(** Source: header_edit/storage.rs `pub fn strip_line_ending` *)
Definition strip_line_ending (value : bytes) : bytes :=
  match strip_suffix value [c_CR; c_LF] with
  | Some v => v
  | None => default value (strip_suffix value [c_LF])
  end.

(** * Unfolding *)

(** The loop shared, line for line, by [normalize_folded_header] and
    [unfold_field_bytes]: [copied] is the first byte not yet copied,
    [scanned] the first not yet searched. *)
Fixpoint unfold_loop (fuel : nat) (raw : bytes) (copied scanned : nat) (normalized : bytes) : bytes :=
  match fuel with
  | O => normalized ++ drop copied raw
  | S fuel' =>
      match position (fun x => x =? c_LF) (drop scanned raw) with
      | None => normalized ++ drop copied raw
      | Some offset =>
          let newline := (scanned + offset)%nat in
          let scanned := S newline in
          if starts_blank (drop scanned raw) then
            let line_ending_start :=
              if (copied <? newline)%nat && bool_decide (raw !! (newline - 1)%nat = Some c_CR)
              then (newline - 1)%nat else newline in
            unfold_loop fuel' raw scanned scanned
              (normalized ++ slice copied line_ending_start raw ++ [c_SP])
          else unfold_loop fuel' raw copied scanned normalized
      end
  end.

(** Whether some LF is followed by a space or a tab. *)
Fixpoint has_fold (l : bytes) : bool :=
  match l with
  | [] => false
  | b :: l' => ((b =? c_LF) && starts_blank l') || has_fold l'
  end.

(** Source: message.rs `pub(crate) fn normalize_folded_header` *)
Definition normalize_folded_header (raw : bytes) : option bytes :=
  if has_fold raw then Some (unfold_loop (S (length raw)) raw 0 0 []) else None.

(** Source: header_edit/storage.rs `pub fn unfold_field_bytes` *)
Definition unfold_field_bytes (raw : bytes) : bytes :=
  if negb (has_fold raw) then raw else unfold_loop (S (length raw)) raw 0 0 [].

(** * Field patterns *)

(** Source: header_edit/storage.rs `pub fn field_matches_pattern` *)
Definition field_matches_pattern (field : Field) (pattern : bytes) : bool :=
  match f_name field with
  | Some name =>
      match strip_suffix pattern [c_COLON] with
      | Some target => eq_ignore_ascii_case name target
      | None => (length pattern <=? length name)%nat && eq_ignore_ascii_case (take (length pattern) name) pattern
      end
  | None =>
      if starts_with (f_bytes field) (B "From ")
      then bytes_eqb pattern (B "From ") || bytes_eqb pattern (B "From") || bytes_eqb pattern (B "From:")
      else false
  end.

(** Source: header_edit/storage.rs `fn rename_field_pattern` *)
Definition rename_field_pattern (field : Field) (from_pattern to_pattern : bytes) : option bytes :=
  name ← f_name field;
  let to_clean := default to_pattern (strip_suffix to_pattern [c_COLON]) in
  renamed_name ←
    match strip_suffix from_pattern [c_COLON] with
    | Some from_clean => if eq_ignore_ascii_case name from_clean then Some to_clean else None
    | None =>
        if (length from_pattern <=? length name)%nat &&
           eq_ignore_ascii_case (take (length from_pattern) name) from_pattern
        then Some (to_clean ++ drop (length from_pattern) name) else None
    end;
  Some (renamed_name ++ drop (length name) (f_bytes field)).

(** * Lines *)

(** No byte of [l] is a line feed. *)
Definition no_lf (l : bytes) : Prop := Forall (fun b => (b =? c_LF) = false) l.

(** A header section without its separator: complete lines, none of them
    empty, and possibly a last line without a newline. *)
Inductive clean : bytes -> Prop :=
| clean_nil : clean []
| clean_last l : l <> [] -> no_lf l -> clean l
| clean_cons pre rest :
    no_lf pre -> is_blank_line (pre ++ [c_LF]) = false -> clean rest -> clean ((pre ++ [c_LF]) ++ rest).

Create HintDb header.
#[export] Hint Constructors clean : header.

Lemma take_line_line pre rest : no_lf pre -> take_line ((pre ++ [c_LF]) ++ rest) = (pre ++ [c_LF], rest).
Proof.
  intros H. unfold take_line. rewrite <-app_assoc. simpl.
  rewrite position_app_cons, snoc_app, <-(length_snoc pre c_LF) by done.
  by rewrite take_app_length, drop_app_length.
Qed.

Lemma take_line_last l : no_lf l -> take_line l = (l, []).
Proof. intros H. unfold take_line. by rewrite (proj2 (position_None _ _)). Qed.

Lemma lf_split l : no_lf l \/ exists pre rest, no_lf pre /\ l = (pre ++ [c_LF]) ++ rest.
Proof.
  destruct (position (fun x => x =? c_LF) l) as [i|] eqn:Hp.
  - right. apply position_Some in Hp as (pre & x & post & -> & _ & Hpre & Hx).
    apply Z.eqb_eq in Hx as ->. exists pre, post. by rewrite <-app_assoc.
  - left. by apply position_None.
Qed.

Lemma take_line_app l line rest : take_line l = (line, rest) -> l = line ++ rest.
Proof.
  destruct (lf_split l) as [H|(pre & post & H & ->)].
  - rewrite take_line_last by done. intros [= <- <-]. by rewrite app_nil_r.
  - rewrite take_line_line by done. by intros [= <- <-].
Qed.

Lemma is_blank_line_app_no_lf pre rest b :
  starts_blank (pre ++ rest) = true -> is_blank_line pre = b -> pre <> [] -> b = false.
Proof.
  destruct pre as [|c pre]; [done|]. simpl. unfold is_blank_line. intros Hb <- _.
  apply orb_false_iff. unfold bytes_eqb, is_blank in *. split; apply bool_decide_eq_false; naive_solver.
Qed.

Lemma take_continuations_app fuel l c r : take_continuations fuel l = (c, r) -> l = c ++ r.
Proof.
  revert l c r. induction fuel as [|fuel IH]; simpl; intros l c r; [by intros [= <- <-]|].
  destruct (starts_blank l); [|by intros [= <- <-]].
  destruct (take_line l) as [line rest] eqn:Hl. apply take_line_app in Hl as ->.
  destruct (take_continuations fuel rest) as [more rest'] eqn:Hc. apply IH in Hc as ->.
  intros [= <- <-]. by rewrite app_assoc.
Qed.

Lemma take_continuations_clean fuel l c r : take_continuations fuel l = (c, r) -> clean l -> clean r.
Proof.
  revert l c r. induction fuel as [|fuel IH]; simpl; intros l c r; [by intros [= <- <-]|].
  destruct (starts_blank l); [|by intros [= <- <-]].
  destruct (take_line l) as [line rest] eqn:Hl.
  destruct (take_continuations fuel rest) as [more rest'] eqn:Hc. intros [= <- <-] Hcl.
  eapply IH; [done|]. destruct Hcl as [|l Hne Hlf|pre rst Hlf Hb Hcl].
  - simpl in Hl. injection Hl as <- <-. constructor.
  - rewrite take_line_last in Hl by done. injection Hl as <- <-. constructor.
  - rewrite take_line_line in Hl by done. by injection Hl as <- <-.
Qed.

Lemma next_field_clean l :
  clean l -> l <> [] ->
  exists f rest, next_field l = Some (f, rest) /\ l = f_bytes f ++ rest /\ f_bytes f <> [] /\ clean rest /\
    f = field_from_bytes (f_bytes f).
Proof.
  intros Hcl Hne.
  assert (exists line rest, take_line l = (line, rest) /\ line <> [] /\ is_blank_line line = false /\ clean rest)
    as (line & rest & Hl & Hln & Hb & Hr).
  { destruct Hcl as [|l Hl Hlf|pre rest Hlf Hb Hcl]; [done| |].
    - exists l, []. rewrite take_line_last by done. repeat split; auto with header.
      unfold is_blank_line, bytes_eqb. apply orb_false_iff.
      unfold no_lf in Hlf. split; apply bool_decide_eq_false; intros ->; repeat (apply Forall_cons in Hlf as [? Hlf]); done.
    - exists (pre ++ [c_LF]), rest. rewrite take_line_line by done. repeat split; auto. by destruct pre. }
  unfold next_field. rewrite Hl, Hb. apply take_line_app in Hl.
  destruct (take_continuations (length rest) rest) as [more rest'] eqn:Hc.
  apply take_continuations_clean in Hc as Hr'; [|done]. apply take_continuations_app in Hc.
  exists (field_from_bytes (line ++ more)), rest'.
  destruct l; [done|]. repeat split; simpl; auto.
  - by rewrite <-app_assoc, <-Hc.
  - by destruct line.
Qed.

Lemma raw_fields_fuel_clean fuel l :
  clean l -> (length l <= fuel)%nat ->
  concat (f_bytes <$> raw_fields_fuel fuel l) = l /\
  Forall (fun f => f_bytes f <> [] /\ f = field_from_bytes (f_bytes f)) (raw_fields_fuel fuel l).
Proof.
  revert l. induction fuel as [|fuel IH]; intros l Hcl Hlen.
  { destruct l; simpl in *; [auto|lia]. }
  destruct (decide (l = [])) as [->|Hne]; [by simpl|].
  destruct (next_field_clean l Hcl Hne) as (f & rest & Hn & Hl & Hf & Hr & Hff).
  simpl. rewrite Hn. destruct (IH rest Hr) as [IH1 IH2].
  { apply (f_equal length) in Hl. rewrite length_app in Hl. destruct (f_bytes f); simpl in *; [done|lia]. }
  split; [|by constructor]. rewrite fmap_cons. cbn [concat]. by rewrite IH1.
Qed.

(** Every field but the last ends its line, and none but the first starts
    with a blank: the boundaries of [l] are field boundaries. *)
Fixpoint delimited (l : list bytes) : Prop :=
  match l with
  | b :: l' => match l' with
               | c :: _ => ends_with b [c_LF] = true /\ starts_blank c = false
               | [] => True
               end /\ delimited l'
  | [] => True
  end.

Lemma ends_with_true l s : ends_with l s = true <-> exists k, l = k ++ s.
Proof.
  unfold ends_with. rewrite andb_true_iff, bytes_eqb_true, Nat.leb_le. split.
  - intros [_ H]. exists (take (length l - length s) l). rewrite <-H at 2. by rewrite take_drop.
  - intros [k ->]. rewrite length_app. split; [lia|].
    by rewrite Nat.add_sub, drop_app_length.
Qed.

Lemma take_line_end l line rest : take_line l = (line, rest) -> rest <> [] -> ends_with line [c_LF] = true.
Proof.
  intros H Hr. destruct (lf_split l) as [Hl|(pre & post & Hl & ->)].
  - rewrite take_line_last in H by done. injection H as <- <-. done.
  - rewrite take_line_line in H by done. injection H as <- <-. apply ends_with_true. eauto.
Qed.

Lemma take_continuations_end fuel l c r :
  (length l <= fuel)%nat -> take_continuations fuel l = (c, r) ->
  starts_blank r = false /\ (r <> [] -> c = [] \/ ends_with c [c_LF] = true).
Proof.
  revert l c r. induction fuel as [|fuel IH]; simpl; intros l c r Hlen.
  { destruct l; [|simpl in *; lia]. by intros [= <- <-]. }
  destruct (starts_blank l) eqn:Hb; [|intros [= <- <-]; auto].
  destruct (take_line l) as [line rest] eqn:Hl.
  destruct (take_continuations fuel rest) as [more rest'] eqn:Hc. intros [= <- <-].
  assert (length rest <= fuel)%nat.
  { destruct l as [|x l]; [done|]. destruct (lf_split (x :: l)) as [Hn|(pre & post & Hn & Hp)].
    - rewrite take_line_last in Hl by done. injection Hl as _ <-. simpl. lia.
    - rewrite Hp, take_line_line in Hl by done. injection Hl as _ <-. rewrite Hp, !length_app in Hlen. simpl in Hlen. lia. }
  destruct (IH _ _ _ H Hc) as [H1 H2]. split; [done|]. intros Hr. right.
  destruct (H2 Hr) as [->|Hm].
  - rewrite app_nil_r. eapply take_line_end; [exact Hl|]. apply take_continuations_app in Hc. by subst.
  - apply ends_with_true in Hm as [k ->]. apply ends_with_true. exists (line ++ k). by rewrite app_assoc.
Qed.

Lemma next_field_delimited l f rest :
  next_field l = Some (f, rest) ->
  starts_blank rest = false /\ (rest <> [] -> ends_with (f_bytes f) [c_LF] = true) /\
  starts_blank (f_bytes f) = starts_blank l.
Proof.
  unfold next_field. destruct l as [|x l]; [done|]. destruct (take_line (x :: l)) as [line rst] eqn:Hl.
  destruct (is_blank_line line); [done|]. destruct (take_continuations _ _) as [more rest'] eqn:Hc.
  intros [= <- <-]. destruct (take_continuations_end _ _ _ _ (le_n _) Hc) as [H1 H2].
  pose proof (take_line_app _ _ _ Hl) as Happ. split; [done|]. split.
  - intros Hr. simpl. destruct (H2 Hr) as [->|Hm].
    + rewrite app_nil_r. eapply take_line_end; [exact Hl|]. apply take_continuations_app in Hc. by subst.
    + apply ends_with_true in Hm as [k ->]. apply ends_with_true. exists (line ++ k). by rewrite app_assoc.
  - simpl. destruct line as [|y line]; [|by injection Happ as ->]. exfalso.
    destruct (lf_split (x :: l)) as [Hn|(pre & post & Hn & Hp)].
    + by rewrite take_line_last in Hl by done.
    + rewrite Hp, take_line_line in Hl by done. by destruct pre.
Qed.

Lemma raw_fields_delimited fuel l : delimited (f_bytes <$> raw_fields_fuel fuel l).
Proof.
  revert l. induction fuel as [|fuel IH]; intros l; [done|]. simpl.
  destruct (next_field l) as [[f rest]|] eqn:Hn; [|done]. csimpl. split; [|apply IH].
  apply next_field_delimited in Hn as (Hb & He & _).
  destruct fuel as [|fuel]; [done|]. simpl.
  destruct (next_field rest) as [[g rest']|] eqn:Hg; csimpl; [|done].
  split; [apply He; by intros ->|]. apply next_field_delimited in Hg as (_ & _ & ->). done.
Qed.

Lemma separator_from_spec fuel l :
  (length l <= fuel)%nat ->
  match separator_from fuel l with
  | None => clean l
  | Some i => clean (take i l) /\ exists sep rest, drop i l = sep ++ rest /\ is_blank_line sep = true
  end.
Proof.
  revert l. induction fuel as [|fuel IH]; intros l Hlen; simpl.
  { destruct l; simpl in *; [constructor|lia]. }
  destruct (position _ l) as [nl|] eqn:Hp.
  - apply position_Some in Hp as (pre & x & post & -> & <- & Hpre & Hx).
    apply Z.eqb_eq in Hx as ->. rewrite snoc_app in *. rewrite <-(length_snoc pre c_LF).
    rewrite take_app_length, drop_app_length.
    destruct (is_blank_line (pre ++ [c_LF])) eqn:Hb.
    + rewrite take_0, drop_0. split; [constructor|]. eauto.
    + specialize (IH post). destruct (separator_from fuel post) as [i|]; simpl.
      * destruct IH as [IH1 (sep & rest & IH2 & IH3)].
        { rewrite !length_app in Hlen. simpl in Hlen. lia. }
        change (S (length pre + i)) with (S (length pre) + i)%nat.
        rewrite take_app_add', drop_app_add' by by rewrite length_snoc.
        split; [by constructor|]. eauto.
      * apply clean_cons; auto. apply IH. rewrite !length_app in Hlen. simpl in Hlen. lia.
  - apply position_None in Hp. destruct l; [constructor|]. by constructor.
Qed.

(** What [split_fields] computes: the fields and the separator are the header
    cut at field boundaries; no byte is lost, added or moved. *)
Lemma split_fields_spec header fields sep le :
  split_fields header = (fields, sep, le) ->
  concat (f_bytes <$> fields) ++ sep = header /\
  clean (concat (f_bytes <$> fields)) /\
  Forall (fun f => f_bytes f <> [] /\ f = field_from_bytes (f_bytes f)) fields.
Proof.
  unfold split_fields. intros [= <- <- <-].
  set (i := default _ _).
  assert (clean (take i header)) as Hcl.
  { pose proof (separator_from_spec (length header) header (le_n _)) as Hs.
    unfold i, header_separator_start. destruct (separator_from _ header); simpl; [by destruct Hs|].
    by rewrite take_ge. }
  destruct (raw_fields_fuel_clean (length (take i header)) _ Hcl (le_n _)) as [H1 H2].
  unfold raw_fields. rewrite H1. repeat split; auto. apply take_drop.
Qed.

Lemma split_fields_delimited header fields sep le :
  split_fields header = (fields, sep, le) -> delimited (f_bytes <$> fields).
Proof. unfold split_fields. intros [= <- _ _]. apply raw_fields_delimited. Qed.

(** * The unfolding loop *)

(** Reference: scanning left to right, a newline (LF or CRLF) in front of a
    space or a tab becomes one space. *)
Fixpoint unfold_ref (l : bytes) : bytes :=
  match l with
  | [] => []
  | b :: l' =>
      if (b =? c_LF) && starts_blank l' then c_SP :: unfold_ref l'
      else match l' with
           | b' :: l'' =>
               if (b =? c_CR) && (b' =? c_LF) && starts_blank l'' then c_SP :: unfold_ref l''
               else b :: unfold_ref l'
           | [] => b :: unfold_ref l'
           end
  end.

(** A byte with no newline at it or right after it is copied. *)
Lemma unfold_ref_cons b l :
  (b =? c_LF) = false -> (forall b' l', l = b' :: l' -> (b' =? c_LF) = false) ->
  unfold_ref (b :: l) = b :: unfold_ref l.
Proof.
  intros Hb Hl. simpl. rewrite Hb. simpl. destruct l as [|b' l']; [done|].
  by rewrite (Hl _ _ eq_refl), andb_false_r.
Qed.

Lemma unfold_ref_no_lf l : no_lf l -> unfold_ref l = l.
Proof.
  induction 1 as [|b l Hb Hl IH]; [done|]. rewrite unfold_ref_cons, IH; [done..|].
  intros b' l' ->. by apply Forall_cons in Hl as [? _].
Qed.

(** The bytes between [copied] and a newline, as the loop copies them. *)
Definition chomp_cr (l : bytes) : bytes :=
  match strip_suffix l [c_CR] with Some l' => l' | None => l end.

Lemma strip_suffix_app l s : strip_suffix (l ++ s) s = Some l.
Proof.
  unfold strip_suffix, ends_with. rewrite length_app, (proj2 (Nat.leb_le _ _)) by lia.
  rewrite Nat.add_sub, drop_app_length, bytes_eqb_refl, take_app_length. done.
Qed.

Lemma strip_suffix_Some l s l' : strip_suffix l s = Some l' <-> l = l' ++ s.
Proof.
  split; [|intros ->; apply strip_suffix_app].
  unfold strip_suffix, ends_with. destruct (_ && _) eqn:He; [|done].
  apply andb_true_iff in He as [_ He%bytes_eqb_true]. intros [= <-].
  rewrite <-(take_drop (length l - length s) l) at 1. by rewrite He.
Qed.

Lemma unfold_ref_fold l rest :
  no_lf l -> starts_blank rest = true ->
  unfold_ref (l ++ c_LF :: rest) = chomp_cr l ++ c_SP :: unfold_ref rest.
Proof.
  intros Hl Hr. unfold chomp_cr. destruct (strip_suffix l [c_CR]) as [l0|] eqn:Hs.
  - apply strip_suffix_Some in Hs as ->. apply Forall_app in Hl as [Hl _].
    rewrite <-app_assoc. cbn [app].
    induction Hl as [|b l Hb Hl IH]; [simpl; by rewrite Hr|].
    rewrite <-app_comm_cons, unfold_ref_cons, IH; [done..|].
    intros b' l' Heq. by destruct Hl; simplify_eq/=.
  - induction Hl as [|b l Hb Hl IH]; [simpl; by rewrite Hr|].
    destruct Hl as [|b' l Hb' Hl].
    + simpl. rewrite Hr, Hb, !andb_true_r. destruct (Z.eqb_spec b c_CR) as [->|]; done.
    + rewrite <-app_comm_cons, unfold_ref_cons, IH; [done| |done|intros ? ? Heq; by simplify_eq/=].
      destruct (strip_suffix (b' :: l) [c_CR]) as [l1|] eqn:H1; [|done].
      apply strip_suffix_Some in H1. rewrite H1, app_comm_cons, strip_suffix_app in Hs. done.
Qed.

Lemma unfold_ref_skip l rest :
  no_lf l -> starts_blank rest = false ->
  unfold_ref (l ++ c_LF :: rest) = l ++ c_LF :: unfold_ref rest.
Proof.
  intros Hl Hr. induction Hl as [|b l Hb Hl IH].
  - simpl. rewrite Hr. by destruct rest.
  - destruct Hl as [|b' l Hb' Hl].
    + simpl. rewrite Hb, Hr, !andb_false_r. by destruct rest.
    + rewrite <-app_comm_cons, unfold_ref_cons, IH; [done..|intros ? ? Heq; by simplify_eq/=].
Qed.

Lemma has_fold_no_lf l rest : no_lf l -> has_fold (l ++ rest) = has_fold rest.
Proof. induction 1 as [|b l Hb _ IH]; simpl; [done|]. by rewrite Hb. Qed.

Lemma unfold_ref_id l : has_fold l = false -> unfold_ref l = l.
Proof.
  remember (length l) as n eqn:Hn. revert l Hn.
  induction n as [n IH] using lt_wf_ind. intros l -> Hf.
  destruct (lf_split l) as [Hl|(pre & rest & Hpre & ->)]; [by apply unfold_ref_no_lf|].
  rewrite <-snoc_app, has_fold_no_lf in Hf by done. simpl in Hf. apply orb_false_iff in Hf as [Hb Hf].
  rewrite <-snoc_app, unfold_ref_skip by done. do 2 f_equal.
  eapply IH; [|done..]. rewrite !length_app. simpl. lia.
Qed.

(** What the loop copies when it meets a fold at [newline]. *)
Lemma fold_slice raw copied newline l rest :
  (copied + length l = newline)%nat -> drop copied raw = l ++ c_LF :: rest ->
  slice copied (if (copied <? newline)%nat && bool_decide (raw !! (newline - 1)%nat = Some c_CR)
                then (newline - 1)%nat else newline) raw = chomp_cr l.
Proof.
  intros <- Hd. unfold slice, chomp_cr. rewrite Hd.
  destruct l as [|b l _] using rev_ind.
  { simpl. rewrite (proj2 (Nat.ltb_ge _ _)) by lia. simpl. by rewrite Nat.add_0_r, Nat.sub_diag. }
  rewrite length_snoc, (proj2 (Nat.ltb_lt _ _)) by lia. simpl.
  replace (copied + S (length l) - 1)%nat with (copied + length l)%nat by lia.
  rewrite <-lookup_drop, Hd, <-(app_assoc l [b]). cbn [app]. rewrite list_lookup_middle by done.
  destruct (decide (b = c_CR)) as [->|Hne].
  - rewrite bool_decide_true, strip_suffix_app by done.
    replace (copied + length l - copied)%nat with (length l) by lia. by rewrite take_app_length.
  - rewrite bool_decide_false by congruence.
    destruct (strip_suffix (l ++ [b]) [c_CR]) as [l0|] eqn:Hs.
    { apply strip_suffix_Some, app_inj_tail in Hs as [_ ?]. done. }
    rewrite snoc_app. apply take_app_length'. rewrite length_snoc. lia.
Qed.

Lemma chomp_cr_app pend l :
  pend = [] \/ (exists p, pend = p ++ [c_LF]) -> chomp_cr (pend ++ l) = pend ++ chomp_cr l.
Proof.
  intros Hp. unfold chomp_cr. destruct l as [|b l _] using rev_ind.
  - rewrite app_nil_r. destruct Hp as [->|[p ->]]; [done|].
    destruct (strip_suffix (p ++ [c_LF]) [c_CR]) as [l0|] eqn:Hs; [|by rewrite app_nil_r].
    by apply strip_suffix_Some, app_inj_tail in Hs as [_ ?].
  - rewrite app_assoc. destruct (decide (b = c_CR)) as [->|Hne]; [by rewrite !strip_suffix_app|].
    destruct (strip_suffix ((pend ++ l) ++ [b]) [c_CR]) as [l0|] eqn:Hs.
    { by apply strip_suffix_Some, app_inj_tail in Hs as [_ ?]. }
    destruct (strip_suffix (l ++ [b]) [c_CR]) as [l0|] eqn:Hs'.
    { by apply strip_suffix_Some, app_inj_tail in Hs' as [_ ?]. }
    by rewrite app_assoc.
Qed.

(** The loop invariant: between [copied] and [scanned] lies a run [pend] of
    complete lines that needs no unfolding. *)
Lemma unfold_loop_ref fuel raw copied pend rest normalized :
  (length rest < fuel)%nat -> drop copied raw = pend ++ rest ->
  pend = [] \/ (exists p, pend = p ++ [c_LF]) ->
  unfold_loop fuel raw copied (copied + length pend) normalized =
  normalized ++ pend ++ unfold_ref rest.
Proof.
  revert copied pend rest normalized.
  induction fuel as [|fuel IH]; intros copied pend rest normalized Hfuel Hd Hp; [lia|]. simpl.
  assert (drop (copied + length pend) raw = rest) as Hr.
  { by rewrite <-drop_drop, Hd, drop_app_length. }
  rewrite Hr. destruct (lf_split rest) as [Hn|(l & rest2 & Hl & Hrest)].
  - rewrite (proj2 (position_None _ _) Hn), Hd, unfold_ref_no_lf by done. done.
  - rewrite <-snoc_app in Hrest. rewrite Hrest, position_app_cons by done.
    assert (drop (S (copied + length pend + length l)) raw = rest2) as Hr2.
    { replace (S (copied + length pend + length l)) with (copied + length pend + S (length l))%nat by lia.
      rewrite <-drop_drop, Hr, Hrest, snoc_app. apply drop_app_length'. by rewrite length_snoc. }
    rewrite Hr2. assert (length rest2 < fuel)%nat.
    { rewrite Hrest, length_app in Hfuel. simpl in Hfuel. lia. }
    destruct (starts_blank rest2) eqn:Hb.
    + rewrite (fold_slice raw copied _ (pend ++ l) rest2).
      * specialize (IH (S (copied + length pend + length l)) [] rest2).
        rewrite Nat.add_0_r in IH. rewrite IH by auto.
        rewrite unfold_ref_fold, chomp_cr_app by done. by rewrite <-!app_assoc.
      * rewrite length_app. lia.
      * by rewrite Hd, Hrest, <-app_assoc.
    + replace (S (copied + length pend + length l)) with (copied + length (pend ++ l ++ [c_LF]))%nat
        by (rewrite !length_app; simpl; lia).
      rewrite (IH copied (pend ++ l ++ [c_LF]) rest2); [| |by rewrite Hd, Hrest, <-!app_assoc|].
      * rewrite unfold_ref_skip by done. by rewrite <-!app_assoc.
      * done.
      * right. exists (pend ++ l). by rewrite app_assoc.
Qed.

Lemma unfold_loop_unfold_ref raw : unfold_loop (S (length raw)) raw 0 0 [] = unfold_ref raw.
Proof. apply (unfold_loop_ref _ raw 0 [] raw []); auto. Qed.

Lemma unfold_ref_length l : (length (unfold_ref l) <= length l)%nat.
Proof.
  remember (length l) as n eqn:Hn. revert l Hn.
  induction n as [n IH] using lt_wf_ind. intros [|b [|b' l]] ->; simpl.
  - lia.
  - case_match; simpl; lia.
  - pose proof (IH (length l)) as H1. pose proof (IH (S (length l))) as H2. simpl in H1, H2.
    specialize (H1 ltac:(lia) l eq_refl). specialize (H2 ltac:(lia) (b' :: l) eq_refl).
    simpl in H2. repeat case_match; simpl in *; lia.
Qed.

Lemma normalize_unfold_ref raw :
  default raw (normalize_folded_header raw) = unfold_ref raw /\ unfold_field_bytes raw = unfold_ref raw.
Proof.
  unfold normalize_folded_header, unfold_field_bytes. rewrite unfold_loop_unfold_ref.
  destruct (has_fold raw) eqn:Hf; simpl; [done|]. by rewrite unfold_ref_id.
Qed.

(** In a header without empty lines unfolding leaves no fold behind. *)
Lemma unfold_ref_starts_blank l : starts_blank (unfold_ref l) = true ->
  starts_blank l = true \/ (exists r, l = c_LF :: r /\ starts_blank r = true) \/
  (exists r, l = c_CR :: c_LF :: r /\ starts_blank r = true).
Proof.
  destruct l as [|b [|b' l]]; simpl; [done| |].
  - rewrite andb_false_r. by auto.
  - destruct (_ && _) eqn:H1; simpl.
    { apply andb_true_iff in H1 as [->%Z.eqb_eq H1]. eauto. }
    destruct (_ && _ && _) eqn:H2; simpl; [|auto].
    apply andb_true_iff in H2 as [[->%Z.eqb_eq ->%Z.eqb_eq]%andb_true_iff H2]. eauto 10.
Qed.

(** No line after the first one is empty. *)
Fixpoint no_empty_line (l : bytes) : bool :=
  match l with
  | [] => true
  | b :: l' => negb ((b =? c_LF) && (starts_with l' [c_LF] || starts_with l' [c_CR; c_LF])) && no_empty_line l'
  end.

Lemma no_empty_line_no_lf l rest : no_lf l -> no_empty_line (l ++ rest) = no_empty_line rest.
Proof. induction 1 as [|b l Hb _ IH]; simpl; [done|]. by rewrite Hb. Qed.

Lemma no_lf_starts_with pre rest p :
  no_lf pre -> is_blank_line (pre ++ [c_LF]) = false ->
  p = [c_LF] \/ p = [c_CR; c_LF] -> starts_with ((pre ++ [c_LF]) ++ rest) p = false.
Proof.
  intros Hpre Hb Hp. apply not_true_is_false. intros [r Hr]%starts_with_true.
  unfold is_blank_line, bytes_eqb in Hb. apply orb_false_iff in Hb as [H1%bool_decide_eq_false H2%bool_decide_eq_false].
  destruct Hpre as [|b pre Hb Hpre]; [done|]. destruct Hp as [-> | ->]; simplify_eq/=.
  destruct Hpre as [|b' pre Hb' Hpre]; simplify_eq/=; done.
Qed.

Lemma clean_starts_with l p : clean l -> p = [c_LF] \/ p = [c_CR; c_LF] -> starts_with l p = false.
Proof.
  intros Hl Hp. destruct Hl as [|l Hne Hl|pre rest Hpre Hb _].
  - by destruct Hp as [-> | ->].
  - apply not_true_is_false. intros [r ->]%starts_with_true. unfold no_lf in Hl.
    destruct Hp as [-> | ->]; simpl in Hl; repeat (apply Forall_cons in Hl as [? Hl]); done.
  - by apply no_lf_starts_with.
Qed.

Lemma clean_no_empty_line l : clean l -> no_empty_line l = true.
Proof.
  induction 1 as [|l Hne Hl|pre rest Hpre Hb Hcl IH]; [done| |].
  - rewrite <-(app_nil_r l). by rewrite no_empty_line_no_lf.
  - rewrite <-snoc_app, no_empty_line_no_lf by done. simpl. rewrite IH, andb_true_r.
    rewrite !clean_starts_with by auto. done.
Qed.

Lemma has_fold_unfold_ref l : no_empty_line l = true -> has_fold (unfold_ref l) = false.
Proof.
  remember (length l) as n eqn:Hn. revert l Hn.
  induction n as [n IH] using lt_wf_ind. intros [|b l] -> Hne; [done|].
  cbn [no_empty_line] in Hne. apply andb_true_iff in Hne as [Hb Hne].
  assert (IHl : has_fold (unfold_ref l) = false) by (eapply IH; [|done..]; simpl; lia).
  cbn [unfold_ref]. destruct ((b =? c_LF) && starts_blank l) eqn:H1; [done|].
  assert (has_fold (b :: unfold_ref l) = false) as Hcons.
  { cbn [has_fold]. rewrite IHl, orb_false_r. destruct (Z.eqb_spec b c_LF) as [->|]; [|done].
    simpl in *. apply not_true_is_false. intros [Hs|[[r [-> _]]|[r [-> _]]]]%unfold_ref_starts_blank.
    - congruence.
    - done.
    - done. }
  destruct l as [|b' l']; [done|].
  destruct ((b =? c_CR) && (b' =? c_LF) && starts_blank l') eqn:H2; [|done].
  simpl. eapply IH; [|done|]; [simpl; lia|].
  cbn [no_empty_line] in Hne. by apply andb_true_iff in Hne as [_ Hne].
Qed.

(** Cutting a header into fields and separator loses nothing: the fields'
    bytes in order followed by the separator are the header, every field is
    non-empty and carries the name its own bytes determine. *)
Theorem split_fields_lossless header fields separator line_ending :
  split_fields header = (fields, separator, line_ending) ->
  concat (f_bytes <$> fields) ++ separator = header /\
  Forall (fun f => f_bytes f <> [] /\ f = field_from_bytes (f_bytes f)) fields.
Proof. intros H. apply split_fields_spec in H as (? & _ & ?). done. Qed.

(** [normalize_folded_header] and [unfold_field_bytes] compute the same
    bytes, the ones of the reference unfolding; they never lengthen a header,
    and in a header section they leave no folded line behind. *)
Theorem unfold_correct raw :
  default raw (normalize_folded_header raw) = unfold_ref raw /\
  unfold_field_bytes raw = unfold_ref raw /\
  (length (unfold_field_bytes raw) <= length raw)%nat /\
  (clean raw -> has_fold (unfold_field_bytes raw) = false).
Proof.
  destruct (normalize_unfold_ref raw) as [H1 H2]. rewrite H2. repeat split; auto using unfold_ref_length.
  intros Hc. by apply has_fold_unfold_ref, clean_no_empty_line.
Qed.

Lemma split_fields_lossless_witness :
  exists fields separator le,
    split_fields (B "A: b" ++ [10] ++ B " c" ++ [10; 10]) = (fields, separator, le) /\ length fields = 1%nat /\
    concat (f_bytes <$> fields) ++ separator = B "A: b" ++ [10] ++ B " c" ++ [10; 10].
Proof.
  eexists _, _, _. split; [vm_compute; reflexivity|]. split; [reflexivity|].
  eapply split_fields_lossless. vm_compute. reflexivity.
Defined.

Lemma unfold_correct_witness :
  clean (B "A: b" ++ [10] ++ B " c") /\ has_fold (unfold_field_bytes (B "A: b" ++ [10] ++ B " c")) = false.
Proof.
  assert (clean (B "A: b" ++ [10] ++ B " c")) as Hc.
  { apply (clean_cons (B "A: b") (B " c")); [repeat constructor|reflexivity|].
    apply clean_last; [done|repeat constructor]. }
  split; [exact Hc|]. by apply unfold_correct.
Defined.
