(* ===== verification/HeaderStore.v ===== *)
(** The header arena: [HeaderStore] of [src/src/header_edit/storage.rs].

    Fields live in one growing byte buffer; removing a field leaves a hole in
    a free list, inserting one reuses the first hole that is large enough, and
    a full arena is compacted in place.  The abstract state is [view], the
    list of the fields' bytes in output order; the theorems show that every
    operation acts on it as the corresponding list operation. *)
From S2P Require Import Prelude Config Limits HeaderValue HeaderFields.

(** * Data *)

(** [Range<usize>]. *)
Record Range := { r_start : nat; r_end : nat }.
#[export] Instance Range_eq_dec : EqDecision Range.
Proof. solve_decision. Defined.
Definition r_len (r : Range) : nat := (r_end r - r_start r)%nat.

(** Source: header_edit/storage.rs `pub(super) struct HeaderField` *)
Record HeaderField := { raw : Range; hf_name : option Range }.

(** Source: header_edit/storage.rs `pub(crate) struct HeaderStore` *)
Record HeaderStore := {
  arena : bytes; fields : list HeaderField; free : list Range; ceiling : Z;
}.

(** Source: message.rs `pub enum MessageLimit` *)
Inductive MessageLimitKind := ML_Message | ML_Headers | ML_Body | ML_HeaderLine | ML_HeaderField.

#[export] Instance MessageLimitKind_eq_dec : EqDecision MessageLimitKind.
Proof. solve_decision. Defined.

(** The texts the keyword and status errors carry are their variants.
    Source: header_edit.rs `pub enum HeaderEditError` *)
Inductive HeaderEditError :=
| SizeOverflow
| LimitExceeded (kind : MessageLimitKind) (limit : Z)
| InvalidGeneratedValue
| InvalidKeywordValue (empty : bool)
| KeywordLimitExceeded (limit : Z)
| InvalidStatusValue (e : ConfiguredStatusError)
| GeneratedLineTooLong (limit : Z)
| Decode (e : DecodedHeaderError)
| ExtractedValueTooLong (limit : Z).

(** Source: header_edit/storage.rs `pub(super) fn check_limit` *)
Definition check_limit (size limit : Z) (kind : MessageLimitKind) : result HeaderEditError unit :=
  if limit <? size then Err (LimitExceeded kind limit) else Ok ().

Definition range_bytes (b : bytes) (r : Range) : bytes := slice (r_start r) (r_end r) b.

Definition field_of (b : bytes) (f : HeaderField) : Field :=
  {| f_bytes := range_bytes b (raw f); f_name := range_bytes b <$> hf_name f |}.

(** Source: header_edit/storage.rs `pub(super) fn field(&self, index: usize) -> Field<'_>` *)
Definition field (s : HeaderStore) (index : nat) : option Field := field_of (arena s) <$> (fields s !! index).

Definition field_matches (f : Field) (name : bytes) : bool :=
  match f_name f with Some candidate => eq_ignore_ascii_case candidate name | None => false end.

(** Source: header_edit/storage.rs `pub(super) fn matches(` *)
Definition matches (s : HeaderStore) (index : nat) (name : bytes) : bool :=
  match field s index with Some f => field_matches f name | None => false end.

(** * Removal *)

Definition starts_before (a b : Range) : Prop := (r_start a <= r_start b)%nat.
#[export] Instance starts_before_dec a b : Decision (starts_before a b).
Proof. unfold starts_before. apply _. Defined.

(** The merge of the range at [index] into the retained prefix. *)
Definition merge_range (retained : list Range) (range : Range) : list Range :=
  match last retained with
  | Some l =>
      if (r_end l =? r_start range)%nat
      then take (length retained - 1) retained ++ [{| r_start := r_start l; r_end := r_end range |}]
      else retained ++ [range]
  | None => retained ++ [range]
  end.

(** Source: header_edit/storage.rs `pub(super) fn coalesce_free` *)
Definition coalesce_free (s : HeaderStore) : HeaderStore :=
  let merged := foldl merge_range [] (merge_sort starts_before (free s)) in
  match last merged with
  | Some l =>
      if (r_end l =? length (arena s))%nat
      then {| arena := take (r_start l) (arena s); fields := fields s;
              free := take (length merged - 1) merged; ceiling := ceiling s |}
      else {| arena := arena s; fields := fields s; free := merged; ceiling := ceiling s |}
  | None => {| arena := arena s; fields := fields s; free := merged; ceiling := ceiling s |}
  end.

(** Source: header_edit/storage.rs `pub(super) fn remove(` *)
Definition remove (s : HeaderStore) (index : nat) : HeaderStore :=
  match fields s !! index with
  | Some f => coalesce_free {| arena := arena s; fields := delete index (fields s);
                               free := free s ++ [raw f]; ceiling := ceiling s |}
  | None => s
  end.

(** [Vec::retain] with the raw ranges of the dropped fields pushed on the
    free list, then [coalesce_free]. *)
Definition retain (keep : HeaderField -> bool) (s : HeaderStore) : HeaderStore :=
  coalesce_free {| arena := arena s; fields := filter (fun f => keep f = true) (fields s);
                   free := free s ++ (raw <$> filter (fun f => keep f = false) (fields s));
                   ceiling := ceiling s |}.

(** Source: header_edit/storage.rs `pub(super) fn remove_matching(` *)
Definition remove_matching (s : HeaderStore) (name : bytes) : HeaderStore :=
  retain (fun f => negb (field_matches (field_of (arena s) f) name)) s.

(** Source: header_edit/storage.rs `pub(super) fn has_matching_pattern` *)
Definition has_matching_pattern (s : HeaderStore) (pattern : bytes) : bool :=
  existsb (fun f => field_matches_pattern (field_of (arena s) f) pattern) (fields s).

(** Source: header_edit/storage.rs `pub(super) fn remove_matching_pattern` *)
Definition remove_matching_pattern (s : HeaderStore) (pattern : bytes) : HeaderStore :=
  retain (fun f => negb (field_matches_pattern (field_of (arena s) f) pattern)) s.

(** * Insertion *)

(** [copy_within(src, dest)] and [copy_from_slice] at [dest]. *)
Definition splice (dest : nat) (b l : bytes) : bytes := take dest l ++ b ++ drop (dest + length b) l.

Section store.
  Context {T : Target}.

Definition add_size (a b : nat) : result HeaderEditError nat := ok_or SizeOverflow (checked_add a b).

(** One iteration of the loop of [compact]: the field at [index] moves down
    to [cursor]. *)
Definition compact_step (s : HeaderStore) (cursor index : nat) : result HeaderEditError (HeaderStore * nat) :=
  match fields s !! index with
  | None => Ok (s, cursor)
  | Some f =>
      let len := r_len (raw f) in
      let b := splice cursor (range_bytes (arena s) (raw f)) (arena s) in
      name ← match hf_name f with
             | Some n =>
                 start ← add_size cursor (r_start n - r_start (raw f));
                 end_ ← add_size cursor (r_end n - r_start (raw f));
                 Ok (Some {| r_start := start; r_end := end_ |})
             | None => Ok None
             end;
      end_ ← add_size cursor len;
      Ok ({| arena := b;
             fields := <[index := {| raw := {| r_start := cursor; r_end := end_ |}; hf_name := name |}]> (fields s);
             free := free s; ceiling := ceiling s |}, end_)
  end.

Fixpoint compact_loop (s : HeaderStore) (cursor : nat) (physical : list nat) : result HeaderEditError (HeaderStore * nat) :=
  match physical with
  | [] => Ok (s, cursor)
  | index :: physical' => '(s', cursor') ← compact_step s cursor index; compact_loop s' cursor' physical'
  end.

(** The start of the field at [index], the sort key of [compact]. *)
Definition field_start (fs : list HeaderField) (index : nat) : nat :=
  match fs !! index with Some f => r_start (raw f) | None => 0 end.
Definition index_before (fs : list HeaderField) (i j : nat) : Prop := (field_start fs i <= field_start fs j)%nat.
#[export] Instance index_before_dec fs i j : Decision (index_before fs i j).
Proof. unfold index_before. apply _. Defined.

(** Source: header_edit/storage.rs `pub(super) fn compact` *)
Definition compact (s : HeaderStore) : result HeaderEditError HeaderStore :=
  let physical := merge_sort (index_before (fields s)) (seq 0 (length (fields s))) in
  '(s', cursor) ← compact_loop s 0 physical;
  Ok {| arena := take cursor (arena s'); fields := fields s'; free := []; ceiling := ceiling s' |}.

Definition find_hole (s : HeaderStore) (len : nat) : option nat :=
  position (fun range => (len <=? r_len range)%nat) (free s).

(** The part of [insert] after the choice of a hole: the bytes are placed and
    the free list updated; the result is the store and the start. *)
Definition place (s : HeaderStore) (hole : option nat) (b : bytes) : result HeaderEditError (HeaderStore * nat) :=
  match (p ← hole; (fun r => (p, r)) <$> (free s !! p)) with
  | Some (position, r) =>
      end_ ← add_size (r_start r) (length b);
      let r' := {| r_start := end_; r_end := r_end r |} in
      Ok ({| arena := splice (r_start r) b (arena s); fields := fields s;
             free := if (r_end r' <=? r_start r')%nat then delete position (free s)
                     else <[position := r']> (free s);
             ceiling := ceiling s |}, r_start r)
  | None =>
      let start := length (arena s) in
      end_ ← add_size start (length b);
      _ ← check_limit (Z.of_nat end_) (ceiling s) ML_Headers;
      Ok ({| arena := arena s ++ b; fields := fields s; free := free s; ceiling := ceiling s |}, start)
  end.

(** The index is that of a field, or of the end; past it [Vec::insert] would panic,
    where this appends.  The callers look the index up in the same fields, or give
    their number, or 0.
    Source: header_edit/storage.rs `pub(super) fn insert(` *)
Definition insert (s : HeaderStore) (index : nat) (b : bytes) : result HeaderEditError HeaderStore :=
  if bool_decide (b = []) then Err InvalidGeneratedValue
  else
    let hole := find_hole s (length b) in
    end_ ← add_size (length (arena s)) (length b);
    '(s, hole) ←
      (if bool_decide (hole = None) && (ceiling s <? Z.of_nat end_)
       then s' ← compact s; Ok (s', find_hole s' (length b))
       else Ok (s, hole));
    '(s, start) ← place s hole b;
    end_ ← add_size start (length b);
    name ← match f_name (field_from_bytes b) with
           | Some name => end_ ← add_size start (length name); Ok (Some {| r_start := start; r_end := end_ |})
           | None => Ok None
           end;
    Ok {| arena := arena s;
          fields := take index (fields s) ++
                    {| raw := {| r_start := start; r_end := end_ |}; hf_name := name |} :: drop index (fields s);
          free := free s; ceiling := ceiling s |}.

Fixpoint insert_all (s : HeaderStore) (l : list bytes) : result HeaderEditError HeaderStore :=
  match l with
  | [] => Ok s
  | b :: l' => s' ← insert s (length (fields s)) b; insert_all s' l'
  end.

(** Source: header_edit/storage.rs `pub(super) fn new(fields` *)
Definition store_new (fs : list Field) (ceiling : Z) : result HeaderEditError HeaderStore :=
  size ← foldl (fun size f => size ← size; add_size size (length (f_bytes f))) (Ok 0%nat) fs;
  _ ← check_limit (Z.of_nat size) ceiling ML_Headers;
  insert_all {| arena := []; fields := []; free := []; ceiling := ceiling |} (f_bytes <$> fs).
End store.
