(* ===== verification/HeaderStoreFacts.v ===== *)
(** The representation invariant of the header arena and the lemmas every
    refinement proof of [HeaderStore.v] and [EditedHeader.v] uses: the live
    ranges and the holes tile the buffer. *)
From S2P Require Import Prelude Config Limits HeaderValue HeaderFields HeaderStore.

(** * Tilings *)

(** The ranges of [l] are non-empty and cover [a, b) without gap or overlap. *)
Fixpoint tiles (a : nat) (l : list Range) (b : nat) : Prop :=
  match l with
  | [] => a = b
  | r :: l' => r_start r = a /\ (r_start r < r_end r)%nat /\ tiles (r_end r) l' b
  end.

Lemma tiles_app a l1 l2 b : tiles a (l1 ++ l2) b <-> exists m, tiles a l1 m /\ tiles m l2 b.
Proof.
  revert a. induction l1 as [|r l1 IH]; intros a; simpl.
  - split; [eauto|]. by intros (m & -> & ?).
  - rewrite IH. naive_solver.
Qed.

Lemma tiles_le a l b : tiles a l b -> (a <= b)%nat.
Proof. revert a. induction l as [|r l IH]; simpl; intros a; [lia|]. intros (<- & ? & ?%IH). lia. Qed.

Lemma tiles_elem a l b r : tiles a l b -> r ∈ l -> (a <= r_start r /\ r_start r < r_end r /\ r_end r <= b)%nat.
Proof.
  intros Ht Hr. apply list_elem_of_split in Hr as (l1 & l2 & ->).
  apply tiles_app in Ht as (m & H1%tiles_le & <- & ? & H2%tiles_le). lia.
Qed.

Lemma tiles_cons_le a r l b r' : tiles a (r :: l) b -> r' ∈ l -> (r_end r <= r_start r')%nat.
Proof. simpl. intros (_ & _ & H) Hr. apply (tiles_elem _ _ _ _ H Hr). Qed.

Lemma tiles_snoc_le a l r b r' : tiles a (l ++ [r]) b -> r' ∈ l -> (r_end r' <= r_start r)%nat.
Proof. intros (m & H & <- & _)%tiles_app Hr. apply (tiles_elem _ _ _ _ H Hr). Qed.

Lemma tiles_nil_eq a l : tiles a l a -> l = [].
Proof. destruct l as [|r l]; [done|]. simpl. intros (<- & ? & ?%tiles_le). lia. Qed.

(** A member of a tiling against the other members. *)
Lemma tiles_perm_split a l r k b :
  tiles a l b -> r :: k ≡ₚ l ->
  exists l1 l2, l = l1 ++ r :: l2 /\ k ≡ₚ l1 ++ l2 /\
    (forall r', r' ∈ l1 -> (r_end r' <= r_start r)%nat) /\
    (forall r', r' ∈ l2 -> (r_end r <= r_start r')%nat).
Proof.
  intros Ht Hp. assert (r ∈ l) as Hr by (rewrite <-Hp; by constructor).
  apply list_elem_of_split in Hr as (l1 & l2 & ->). exists l1, l2.
  split; [done|]. split.
  { apply (Permutation.Permutation_cons_inv (a := r)). by rewrite Hp, Permutation_middle. }
  apply tiles_app in Ht as (m & H1 & H2). split; intros r' Hr'.
  - apply (tiles_elem _ _ _ _ H1) in Hr'. destruct H2 as [<- _]. lia.
  - eapply tiles_cons_le; eauto.
Qed.

Lemma tiles_perm_disjoint a l r r' k b :
  tiles a l b -> r :: r' :: k ≡ₚ l -> (r_end r <= r_start r' \/ r_end r' <= r_start r)%nat.
Proof.
  intros Ht Hp. destruct (tiles_perm_split _ _ _ _ _ Ht Hp) as (l1 & l2 & -> & Hk & H1 & H2).
  assert (r' ∈ l1 ++ l2) as [?|?]%elem_of_app by (rewrite <-Hk; by constructor); auto.
Qed.

(** * Ranges of bytes *)

Lemma range_bytes_eq l r : range_bytes l r = slice (r_start r) (r_end r) l.
Proof. done. Qed.

Lemma slice_app_l {A} lo hi (l k : list A) : (hi <= length l)%nat -> slice lo hi (l ++ k) = slice lo hi l.
Proof.
  intros H. unfold slice. destruct (decide (lo <= length l)%nat) as [Hl|Hl].
  - rewrite drop_app_le by done. apply take_app_le. rewrite length_drop. lia.
  - by replace (hi - lo)%nat with 0%nat by lia.
Qed.

Lemma slice_app_r {A} lo hi (l k : list A) : (length l <= lo)%nat ->
  slice lo hi (l ++ k) = slice (lo - length l) (hi - length l) k.
Proof.
  intros H. unfold slice. rewrite drop_app_ge by done.
  by replace (hi - length l - (lo - length l))%nat with (hi - lo)%nat by lia.
Qed.

Lemma slice_all {A} (l : list A) n : n = length l -> slice 0 n l = l.
Proof. intros ->. rewrite slice_0. by apply take_ge. Qed.

Lemma slice_middle {A} (l1 l2 l3 : list A) lo hi :
  lo = length l1 -> hi = (length l1 + length l2)%nat -> slice lo hi (l1 ++ l2 ++ l3) = l2.
Proof.
  intros -> ->. rewrite slice_app_r, Nat.sub_diag, slice_app_l by lia. apply slice_all. lia.
Qed.

Lemma slice_take {A} lo hi n (l : list A) : (hi <= n)%nat -> slice lo hi (take n l) = slice lo hi l.
Proof.
  intros H. unfold slice. rewrite skipn_firstn_comm, take_take. f_equal. lia.
Qed.

Lemma length_splice d b l : (d + length b <= length l)%nat -> length (splice d b l) = length l.
Proof. intros. unfold splice. rewrite !length_app, length_take, length_drop. lia. Qed.

Lemma slice_splice_same d b l :
  (d <= length l)%nat -> slice d (d + length b) (splice d b l) = b.
Proof. intros. unfold splice. apply slice_middle; rewrite length_take; lia. Qed.

Lemma slice_splice_l lo hi d b l : (hi <= d)%nat -> (d <= length l)%nat ->
  slice lo hi (splice d b l) = slice lo hi l.
Proof. intros. unfold splice. rewrite slice_app_l, slice_take by (rewrite ?length_take; lia). done. Qed.

Lemma slice_splice_r lo hi d b l : (d + length b <= lo)%nat -> (d <= length l)%nat ->
  slice lo hi (splice d b l) = slice lo hi l.
Proof.
  intros H1 H2. unfold splice. rewrite app_assoc, slice_app_r by (rewrite length_app, length_take; lia).
  rewrite length_app, length_take, Nat.min_l by lia. unfold slice. rewrite drop_drop.
  f_equal; [lia|]. f_equal. lia.
Qed.

Lemma range_splice_disjoint r d b l :
  (r_end r <= d \/ d + length b <= r_start r)%nat -> (d <= length l)%nat ->
  range_bytes (splice d b l) r = range_bytes l r.
Proof. intros [?|?] ?; [by apply slice_splice_l|by apply slice_splice_r]. Qed.

(** * The invariant *)

(** The name range of a field: a prefix of its raw range, as long as the
    name its bytes determine. *)
Definition name_range (start : nat) (b : bytes) : option Range :=
  (fun name : bytes => {| r_start := start; r_end := (start + length name)%nat |}) <$> f_name (field_from_bytes b).

Definition name_ok (b : bytes) (f : HeaderField) : Prop :=
  hf_name f = name_range (r_start (raw f)) (range_bytes b (raw f)).

(** The holes between live fields never touch: coalescing has merged them. *)
Definition separated (l : list Range) : Prop := StronglySorted (fun a b => (r_end a < r_start b)%nat) l.

Record store_ok {T : Target} (s : HeaderStore) : Prop := {
  so_tiling : exists t, (raw <$> fields s) ++ free s ≡ₚ t /\ tiles 0 t (length (arena s));
  so_names : Forall (name_ok (arena s)) (fields s);
  so_separated : separated (free s);
  so_size : len (arena s) <= usize_max;
}.

(** The abstract state: the fields' bytes in output order. *)
Definition view (s : HeaderStore) : list bytes := (fun f => range_bytes (arena s) (raw f)) <$> fields s.

(** The bytes that live fields occupy. *)
Definition live_size (s : HeaderStore) : nat := length (concat (view s)).

Fixpoint total_len (l : list Range) : nat :=
  match l with [] => 0 | r :: l' => r_len r + total_len l' end.

Lemma total_len_app l k : total_len (l ++ k) = (total_len l + total_len k)%nat.
Proof. induction l; simpl; lia. Qed.

#[export] Instance total_len_perm : Proper ((≡ₚ) ==> (=)) total_len.
Proof. induction 1; simpl; lia. Qed.

Lemma tiles_sum a l b : tiles a l b -> (a + total_len l)%nat = b.
Proof. revert a. induction l as [|r l IH]; simpl; intros a; [lia|]. intros (<- & ? & <-%IH). unfold r_len. lia. Qed.

Lemma length_field_from_bytes_name b nm : f_name (field_from_bytes b) = Some nm ->
  (length nm < length b)%nat /\ take (length nm) b = nm.
Proof.
  simpl. intros H. apply fmap_Some in H as (i & Hi & ->).
  apply position_lt in Hi. rewrite length_take in *.
  rewrite Nat.min_l by lia. split; [lia|done].
Qed.

(** [field] reads what the view holds: the raw bytes and the name parsed
    from them. *)
Lemma field_of_ok b f :
  name_ok b f -> (r_start (raw f) <= r_end (raw f))%nat -> (r_end (raw f) <= length b)%nat ->
  field_of b f = field_from_bytes (range_bytes b (raw f)).
Proof.
  intros Hn H1 H2. unfold field_of. rewrite Hn. unfold name_range.
  destruct (f_name (field_from_bytes (range_bytes b (raw f)))) as [nm|] eqn:Hnm;
    unfold field_from_bytes in *; simpl in *; rewrite Hnm; simpl; [|done].
  do 2 f_equal. apply (length_field_from_bytes_name (range_bytes b (raw f))) in Hnm as [Hl Ht].
  unfold range_bytes in *. simpl. rewrite length_slice in Hl by done. rewrite <-Ht at 2.
  unfold slice. rewrite take_take. f_equal. lia.
Qed.

Section facts.
Context {T : Target}.

Lemma so_field_bounds s f :
  store_ok s -> f ∈ fields s -> (r_start (raw f) < r_end (raw f) /\ r_end (raw f) <= length (arena s))%nat.
Proof.
  intros [(t & Hp & Ht) _ _ _] Hf.
  assert (raw f ∈ t) as Hr. { rewrite <-Hp. apply elem_of_app. left. by apply list_elem_of_fmap_2. }
  apply (tiles_elem _ _ _ _ Ht) in Hr. lia.
Qed.

Lemma view_lookup s i b : view s !! i = Some b <-> exists f, fields s !! i = Some f /\ b = range_bytes (arena s) (raw f).
Proof. unfold view. rewrite list_lookup_fmap, fmap_Some. done. Qed.

Lemma so_field s f : store_ok s -> f ∈ fields s ->
  field_of (arena s) f = field_from_bytes (range_bytes (arena s) (raw f)).
Proof.
  intros Hs Hf. destruct (so_field_bounds s f Hs Hf). apply field_of_ok; [|lia|lia].
  destruct Hs as [_ Hn _ _]. rewrite Forall_forall in Hn. auto.
Qed.

Lemma field_view s i : store_ok s -> field s i = field_from_bytes <$> view s !! i.
Proof.
  intros Hs. unfold field, view. rewrite list_lookup_fmap.
  destruct (fields s !! i) as [f|] eqn:Hf; simpl; [|done]. f_equal.
  apply so_field; [done|]. by eapply list_elem_of_lookup_2.
Qed.

Lemma view_nonempty s : store_ok s -> Forall (fun b => b <> []) (view s).
Proof.
  intros Hs. apply Forall_fmap, Forall_forall. intros f Hf Hb.
  apply (so_field_bounds s f Hs) in Hf as [H1 H2]. apply (f_equal length) in Hb.
  unfold range_bytes in Hb. rewrite length_slice in Hb by done. simpl in Hb. lia.
Qed.

Lemma live_size_ranges s : store_ok s -> live_size s = total_len (raw <$> fields s).
Proof.
  intros Hs. unfold live_size, view. pose proof (fun f => so_field_bounds s f Hs) as Hb.
  induction (fields s) as [|f fs IH]; [done|]. rewrite !fmap_cons. cbn [concat total_len].
  rewrite length_app, IH by (intros; apply Hb; by constructor).
  f_equal. unfold range_bytes, r_len. apply length_slice. apply Hb. constructor.
Qed.

Lemma live_size_le s : store_ok s -> (live_size s <= length (arena s))%nat.
Proof.
  intros Hs. rewrite live_size_ranges by done. destruct Hs as [(t & Hp & Ht) _ _ _].
  apply tiles_sum in Ht. rewrite <-Ht, <-Hp, total_len_app. lia.
Qed.

(** Two stores with the same fields whose ranges hold the same bytes have the
    same view and keep their names. *)
Lemma view_arena_change s b fs :
  fs = fields s ->
  (forall f, f ∈ fields s -> range_bytes b (raw f) = range_bytes (arena s) (raw f)) ->
  (fun f => range_bytes b (raw f)) <$> fs = view s /\
  (Forall (name_ok (arena s)) (fields s) -> Forall (name_ok b) fs).
Proof.
  intros -> H. split.
  - unfold view. apply list_fmap_ext. intros i f Hf%list_elem_of_lookup_2. auto.
  - rewrite !Forall_forall. intros Hn f Hf. unfold name_ok. rewrite H by done. by apply Hn.
Qed.

(** * Coalescing *)

Lemma separated_snoc l r :
  separated (l ++ [r]) <-> separated l /\ Forall (fun r' => (r_end r' < r_start r)%nat) l.
Proof.
  unfold separated. split.
  - intros H. split; [by eapply StronglySorted_app_1_l|]. apply Forall_forall. intros r' Hr'.
    eapply (StronglySorted_app_1_elem_of _ _ _ _ _ H); [done|by constructor].
  - intros [H1 H2]. apply StronglySorted_app_2; [|done|repeat constructor].
    intros r1 r2 Hr1 Hr2. apply list_elem_of_singleton in Hr2 as ->. rewrite Forall_forall in H2. auto.
Qed.

Lemma separated_snoc_last l r :
  separated l -> Forall (fun r' => (r_start r' < r_end r')%nat) l ->
  (forall r', last l = Some r' -> (r_end r' < r_start r)%nat) -> separated (l ++ [r]).
Proof.
  intros Hl Hne Hlast. apply separated_snoc. split; [done|].
  destruct l as [|r0 l _] using rev_ind; [constructor|]. rewrite last_snoc in Hlast.
  specialize (Hlast _ eq_refl). apply separated_snoc in Hl as [_ Hl].
  rewrite Forall_app, Forall_singleton in *. destruct Hne as [_ Hne]. split; [|done].
  eapply Forall_impl; [done|]. simpl. intros. lia.
Qed.

(** One step of the merge keeps the tiling: the new range replaces two
    adjacent ones, or is kept. *)
Lemma merge_range_tiles raws acc r rest t n :
  raws ++ (acc ++ r :: rest) ≡ₚ t -> tiles 0 t n ->
  exists t', raws ++ (merge_range acc r ++ rest) ≡ₚ t' /\ tiles 0 t' n.
Proof.
  intros Hp Ht. unfold merge_range.
  destruct (last acc) as [l|] eqn:Hl; [|exists t; by rewrite <-app_assoc].
  destruct (r_end l =? r_start r)%nat eqn:He; [|exists t; by rewrite <-app_assoc].
  apply Nat.eqb_eq in He. apply last_Some in Hl as [acc0 ->].
  rewrite length_snoc. replace (S (length acc0) - 1)%nat with (length acc0) by lia.
  rewrite take_app_length.
  assert (l :: (r :: raws ++ acc0 ++ rest) ≡ₚ t) as Hp' by (rewrite <-Hp; solve_Permutation).
  destruct (tiles_perm_split _ _ _ _ _ Ht Hp') as (t1 & t2 & -> & Hk & H1 & H2).
  assert (r ∈ t1 ++ t2) as Hr by (rewrite <-Hk; by constructor).
  apply tiles_app in Ht as (m & Ht1 & Hm & Hlt & Ht2).
  assert (exists t3, t2 = r :: t3) as [t3 ->].
  { apply elem_of_app in Hr as [Hr|Hr].
    { pose proof (tiles_elem _ _ _ _ Ht1 Hr). apply H1 in Hr. lia. }
    destruct t2 as [|r2 t3]; [by apply not_elem_of_nil in Hr|]. exists t3. f_equal.
    apply elem_of_cons in Hr as [->|Hr]; [done|]. exfalso.
    apply (tiles_cons_le _ _ _ _ _ Ht2) in Hr. destruct Ht2 as [? [? _]]. lia. }
  destruct Ht2 as (_ & Hlt2 & Ht3).
  exists (t1 ++ {| r_start := r_start l; r_end := r_end r |} :: t3). split.
  - assert (raws ++ acc0 ++ rest ≡ₚ t1 ++ t3) as Hk'.
    { apply (Permutation.Permutation_cons_inv (a := r)). rewrite Hk. by rewrite Permutation_middle. }
    rewrite <-(Permutation_middle t1 t3), <-Hk'. solve_Permutation.
  - apply tiles_app. exists m. split; [done|]. simpl. repeat split; auto. lia.
Qed.

Lemma merge_range_separated acc r :
  separated acc -> Forall (fun r' => (r_start r' < r_end r')%nat) acc ->
  (forall l, last acc = Some l -> (r_end l <= r_start r)%nat) -> separated (merge_range acc r).
Proof.
  intros Hs Hne Hl. unfold merge_range. destruct (last acc) as [l|] eqn:Hlast.
  - specialize (Hl _ eq_refl). destruct (Nat.eqb_spec (r_end l) (r_start r)) as [He|He].
    + apply last_Some in Hlast as [acc0 ->]. rewrite length_snoc.
      replace (S (length acc0) - 1)%nat with (length acc0) by lia. rewrite take_app_length.
      apply separated_snoc in Hs as [Hs Hf]. by apply separated_snoc.
    + apply separated_snoc_last; [done..|]. intros r' Hr'. rewrite Hlast in Hr'. injection Hr' as <-. lia.
  - apply last_None in Hlast as ->. repeat constructor.
Qed.

Lemma merge_range_last acc r l :
  last (merge_range acc r) = Some l ->
  r_end l = r_end r /\ (r_start l = r_start r \/ exists l0, last acc = Some l0 /\ r_start l = r_start l0).
Proof.
  unfold merge_range. destruct (last acc) as [l0|] eqn:H0; [destruct (_ =? _)%nat|];
    rewrite last_snoc; intros [= <-]; simpl; eauto.
Qed.

Lemma merge_fold raws L acc t n :
  raws ++ (acc ++ L) ≡ₚ t -> tiles 0 t n -> StronglySorted starts_before L -> separated acc ->
  (forall l, last acc = Some l -> Forall (starts_before l) L) ->
  exists t', raws ++ foldl merge_range acc L ≡ₚ t' /\ tiles 0 t' n /\ separated (foldl merge_range acc L).
Proof.
  revert acc t. induction L as [|r L IH]; intros acc t Hp Ht Hsort Hsep Hlast; simpl.
  { rewrite app_nil_r in Hp. eauto. }
  apply StronglySorted_inv in Hsort as [Hsort Hr].
  destruct (merge_range_tiles _ _ _ _ _ _ Hp Ht) as (t' & Hp' & Ht').
  assert (Forall (fun r' => (r_start r' < r_end r')%nat) acc) as Hne.
  { apply Forall_forall. intros r' Hr'. assert (r' ∈ t) as Hin by (rewrite <-Hp; set_solver).
    apply (tiles_elem _ _ _ _ Ht) in Hin. lia. }
  eapply IH; [done..| |].
  - apply merge_range_separated; [done..|]. intros l Hl. specialize (Hlast _ Hl).
    apply Forall_cons in Hlast as [Hs _]. unfold starts_before in Hs.
    apply last_Some in Hl as [acc0 ->].
    destruct (tiles_perm_disjoint 0 t l r (raws ++ acc0 ++ L) n Ht) as [?|?]; [|done|].
    { rewrite <-Hp. solve_Permutation. }
    rewrite Forall_app, Forall_singleton in Hne.
    assert (r ∈ t) as Hin by (rewrite <-Hp; set_solver). apply (tiles_elem _ _ _ _ Ht) in Hin. lia.
  - intros l (He & [Hs|(l0 & Hl0 & Hs)])%merge_range_last; unfold starts_before in *; rewrite Hs.
    + done.
    + specialize (Hlast _ Hl0). by apply Forall_cons in Hlast as [_ ?].
Qed.

#[local] Instance starts_before_trans : Transitive starts_before.
Proof. intros a b c. unfold starts_before. lia. Qed.
#[local] Instance starts_before_total : Total starts_before.
Proof. intros a b. unfold starts_before. lia. Qed.

(** [coalesce_free] on a store whose holes may touch: it restores the
    invariant and does not change the view. *)
Lemma coalesce_free_ok s :
  (exists t, (raw <$> fields s) ++ free s ≡ₚ t /\ tiles 0 t (length (arena s))) ->
  Forall (name_ok (arena s)) (fields s) -> len (arena s) <= usize_max ->
  store_ok (coalesce_free s) /\ view (coalesce_free s) = view s /\
  fields (coalesce_free s) = fields s /\ ceiling (coalesce_free s) = ceiling s.
Proof.
  intros (t & Hp & Ht) Hn Hsz. unfold coalesce_free.
  destruct (merge_fold (raw <$> fields s) (merge_sort starts_before (free s)) [] t (length (arena s)))
    as (t' & Hp' & Ht' & Hsep); [by rewrite merge_sort_Permutation|done| |constructor|done|].
  { apply (StronglySorted_merge_sort starts_before). }
  set (merged := foldl _ _ _) in *.
  destruct (last merged) as [l|] eqn:Hl; [destruct (Nat.eqb_spec (r_end l) (length (arena s))) as [He|He]|].
  2,3: split; [constructor; eauto|done].
  apply last_Some in Hl as [m0 Hm]. rewrite Hm in *. rewrite length_snoc.
  replace (S (length m0) - 1)%nat with (length m0) by lia. rewrite take_app_length.
  assert (l :: (raw <$> fields s) ++ m0 ≡ₚ t') as Hp2 by (rewrite <-Hp'; solve_Permutation).
  destruct (tiles_perm_split _ _ _ _ _ Ht' Hp2) as (t1 & t2 & -> & Hk & H1 & H2).
  apply tiles_app in Ht' as (m & Ht1 & <- & Hlt & Ht2). rewrite He in Ht2.
  apply tiles_nil_eq in Ht2 as ->. rewrite app_nil_r in Hk.
  assert (forall f, f ∈ fields s -> range_bytes (take (r_start l) (arena s)) (raw f) = range_bytes (arena s) (raw f)) as Hr.
  { intros f Hf. apply slice_take. apply H1. rewrite <-Hk. apply elem_of_app. left. by apply list_elem_of_fmap_2. }
  destruct (view_arena_change s _ _ eq_refl Hr) as [Hv Hn'].
  split; [|done]. constructor; simpl; auto.
  - exists t1. split; [done|]. rewrite length_take, Nat.min_l by lia. done.
  - by apply separated_snoc in Hsep as [? _].
  - rewrite length_take. lia.
Qed.

(** * Removal *)

Lemma view_delete s i : view {| arena := arena s; fields := delete i (fields s); free := free s; ceiling := ceiling s |}
  = delete i (view s).
Proof. unfold view. simpl. apply list_fmap_delete. Qed.

Lemma remove_ok s i :
  store_ok s -> store_ok (remove s i) /\ view (remove s i) = delete i (view s) /\ ceiling (remove s i) = ceiling s.
Proof.
  intros [(t & Hp & Ht) Hn Hsep Hsz] . unfold remove.
  destruct (fields s !! i) as [f|] eqn:Hf.
  - edestruct coalesce_free_ok as (H1 & H2 & H3 & H4); [| | |split; [exact H1|split; [|exact H4]]].
    + simpl. exists t. split; [|done]. pose proof (delete_Permutation (fields s) i f Hf) as Hd.
      apply (fmap_Permutation raw) in Hd. rewrite <-Hp, Hd. simpl. solve_Permutation.
    + simpl. by apply Forall_delete.
    + done.
    + rewrite H2. unfold view. simpl. apply list_fmap_delete.
  - split; [|split; [|done]]; [constructor; eauto|].
    apply lookup_ge_None in Hf. unfold view.
    by rewrite delete_take_drop, take_ge, drop_ge, app_nil_r by (rewrite length_fmap; lia).
Qed.

Lemma retain_ok s keep (p : bytes -> bool) :
  store_ok s -> (forall f, f ∈ fields s -> keep f = p (range_bytes (arena s) (raw f))) ->
  store_ok (retain keep s) /\ view (retain keep s) = filter (fun b => p b = true) (view s) /\
  ceiling (retain keep s) = ceiling s.
Proof.
  intros [(t & Hp & Ht) Hn Hsep Hsz] Hkeep. unfold retain.
  edestruct coalesce_free_ok as (H1 & H2 & H3 & H4); [| | |split; [exact H1|split; [|exact H4]]].
  - simpl. exists t. split; [|done]. rewrite <-Hp.
    rewrite <-(filter_app_complement (fun f => keep f = true) (fields s)) at 3.
    rewrite fmap_app. rewrite (list_filter_iff (fun f => keep f = false) (fun f => ~ keep f = true)).
    + solve_Permutation.
    + intros f. destruct (keep f); naive_solver.
  - simpl. rewrite Forall_forall in *. intros f [_ Hf]%list_elem_of_filter. auto.
  - done.
  - rewrite H2. unfold view. simpl. clear -Hkeep.
    induction (fields s) as [|f fs IH]; [done|]. rewrite fmap_cons, !filter_cons.
    rewrite Hkeep by constructor. destruct (decide _); rewrite ?fmap_cons, IH; try done; intros; apply Hkeep; by constructor.
Qed.

Lemma existsb_fields s (p : Field -> bool) (q : bytes -> bool) :
  store_ok s -> (forall b, q b = p (field_from_bytes b)) ->
  existsb (fun f => p (field_of (arena s) f)) (fields s) = existsb q (view s).
Proof.
  intros Hs Hq. pose proof (fun f => so_field s f Hs) as Hf. unfold view.
  induction (fields s) as [|f fs IH]; [done|]. rewrite fmap_cons. simpl.
  rewrite IH, Hf, Hq by (intros; try apply Hf; by constructor). done.
Qed.
End facts.
