(* ===== verification/HeaderStoreRefine.v ===== *)
(** The header arena refines a list of byte strings: compaction, insertion
    and the composed operations of [HeaderStore.v]. *)
From S2P Require Import Prelude Config Limits HeaderValue HeaderFields HeaderStore HeaderStoreFacts.

Section refine.
Context {T : Target}.

(** * Compaction *)

Definition raw_at (s : HeaderStore) (i : nat) : Range :=
  match fields s !! i with Some f => raw f | None => {| r_start := 0; r_end := 0 |} end.

Lemma raw_at_seq s : raw <$> fields s = raw_at s <$> seq 0 (length (fields s)).
Proof.
  apply list_eq. intros i. rewrite !list_lookup_fmap. unfold raw_at.
  destruct (fields s !! i) as [f|] eqn:Hf; simpl.
  - apply lookup_lt_Some in Hf as Hl. rewrite lookup_seq_lt by done. simpl. by rewrite Hf.
  - apply lookup_ge_None in Hf. by rewrite lookup_seq_ge.
Qed.

(** The state of the loop of [compact] on the store [s0]: the fields [qs] have
    been moved below [cursor], the fields [ps] are still where they were. *)
Record compacting (s0 s : HeaderStore) (cursor : nat) (qs ps : list nat) : Prop := {
  cp_nodup : NoDup (qs ++ ps);
  cp_length : length (fields s) = length (fields s0);
  cp_arena : length (arena s) = length (arena s0);
  cp_free : free s = free s0 /\ ceiling s = ceiling s0;
  cp_tiles : tiles 0 (raw_at s <$> qs) cursor;
  cp_cursor : (cursor <= length (arena s0))%nat;
  cp_moved : forall i, i ∈ qs -> exists f f0, fields s !! i = Some f /\ fields s0 !! i = Some f0 /\
    range_bytes (arena s) (raw f) = range_bytes (arena s0) (raw f0) /\ name_ok (arena s) f /\ (r_end (raw f) <= cursor)%nat;
  cp_pending : forall i, i ∈ ps -> exists f, fields s !! i = Some f /\ fields s0 !! i = Some f /\
    range_bytes (arena s) (raw f) = range_bytes (arena s0) (raw f) /\ name_ok (arena s0) f /\
    (cursor <= r_start (raw f))%nat /\ (r_start (raw f) < r_end (raw f))%nat /\ (r_end (raw f) <= length (arena s0))%nat;
  cp_sorted : StronglySorted (fun i j => (r_end (raw_at s0 i) <= r_start (raw_at s0 j))%nat) ps;
}.

Lemma add_size_ok a b n : (a + b)%nat = n -> Z.of_nat n <= usize_max -> add_size a b = Ok n.
Proof. intros <- H. unfold add_size, ok_or, checked_add. by rewrite (proj2 (Z.leb_le _ _)) by lia. Qed.

Lemma add_size_err a b : usize_max < Z.of_nat (a + b) -> add_size a b = Err SizeOverflow.
Proof. intros H. unfold add_size, ok_or, checked_add. by rewrite (proj2 (Z.leb_gt _ _)) by lia. Qed.

Lemma compact_step_ok s0 s cursor qs i ps :
  len (arena s0) <= usize_max -> compacting s0 s cursor qs (i :: ps) ->
  exists s' cursor', compact_step s cursor i = Ok (s', cursor') /\ compacting s0 s' cursor' (qs ++ [i]) ps.
Proof.
  intros Hsz [Hnd Hlen Har Hfr Ht Hc Hm Hpd Hs].
  destruct (Hpd i) as (f & Hf & Hf0 & Hrb & Hn & Hcs & Hne & Hend); [by constructor|].
  set (c' := (cursor + r_len (raw f))%nat). assert (Hc' : (c' <= r_end (raw f))%nat) by (unfold c', r_len; lia).
  set (b := range_bytes (arena s0) (raw f)).
  assert (Hb : length b = r_len (raw f)) by (unfold b, r_len; by apply length_slice).
  set (f' := {| raw := {| r_start := cursor; r_end := c' |}; hf_name := name_range cursor b |}).
  set (s' := {| arena := splice cursor b (arena s); fields := <[i := f']> (fields s);
                free := free s; ceiling := ceiling s |}).
  exists s', c'. split.
  { unfold compact_step. rewrite Hf, Hrb. fold b. rewrite Hn. unfold name_range. fold b.
    destruct (f_name (field_from_bytes b)) as [nm|] eqn:Hnm; simpl;
      rewrite ?Hnm; simpl.
    - pose proof (length_field_from_bytes_name _ _ Hnm) as [Hl _].
      rewrite !(add_size_ok _ _ _ eq_refl) by (unfold r_len in *; lia). simpl.
      unfold s', f', name_range. rewrite Hnm. simpl.
      replace (cursor + (r_start (raw f) - r_start (raw f)))%nat with cursor by lia.
      replace (r_start (raw f) + length nm - r_start (raw f))%nat with (length nm) by lia. done.
    - rewrite (add_size_ok _ _ _ eq_refl) by (unfold r_len in *; lia). simpl.
      unfold s', f', name_range. by rewrite ?Hnm. }
  assert (Hi : (i < length (fields s))%nat) by by eapply lookup_lt_Some.
  assert (Hiq : i ∉ qs).
  { apply NoDup_app in Hnd as (_ & Hd & _). intros Hi'. apply (Hd _ Hi'). constructor. }
  assert (Hip : i ∉ ps) by (apply NoDup_app in Hnd as (_ & _ & Hd); by apply NoDup_cons in Hd as [? _]).
  assert (Hcur : (cursor <= length (arena s))%nat) by lia.
  constructor.
  - by rewrite <-app_assoc.
  - simpl. by rewrite length_insert.
  - simpl. rewrite length_splice; [done|]. unfold r_len in *. lia.
  - done.
  - rewrite fmap_app. apply tiles_app. exists cursor. split.
    + replace (raw_at s' <$> qs) with (raw_at s <$> qs); [done|]. apply list_fmap_ext. intros k j Hj.
      unfold raw_at. simpl. rewrite list_lookup_insert_ne; [done|]. intros ->. apply Hiq.
      by eapply list_elem_of_lookup_2.
    + unfold raw_at. simpl. rewrite list_lookup_insert_eq by done. simpl. unfold c', r_len. lia.
  - lia.
  - intros j [Hj|Hj]%elem_of_app; [|apply list_elem_of_singleton in Hj as ->].
    + destruct (Hm j Hj) as (g & g0 & Hg & Hg0 & Hgb & Hgn & Hge). exists g, g0. simpl.
      rewrite list_lookup_insert_ne by set_solver. unfold name_ok.
      rewrite range_splice_disjoint by (try left; done). repeat split; auto. lia.
    + exists f', f. simpl. rewrite list_lookup_insert_eq by done.
      assert (range_bytes (splice cursor b (arena s)) (raw f') = b) as Hr.
      { unfold range_bytes. simpl. unfold c'. rewrite <-Hb. by apply slice_splice_same. }
      unfold name_ok. rewrite Hr. repeat split; auto.
  - intros j Hj. destruct (Hpd j) as (g & Hg & Hg0 & Hgb & Hgn & Hgc & Hgne & Hgend); [by constructor|].
    apply StronglySorted_inv in Hs as [_ Hs]. rewrite Forall_forall in Hs.
    specialize (Hs j Hj). unfold raw_at in Hs. rewrite Hf0, Hg0 in Hs.
    exists g. simpl. rewrite list_lookup_insert_ne by set_solver.
    rewrite range_splice_disjoint by (try right; unfold r_len in *; lia). repeat split; auto. lia.
  - by apply StronglySorted_inv in Hs as [? _].
Qed.

Lemma compact_loop_ok s0 s cursor qs ps :
  len (arena s0) <= usize_max -> compacting s0 s cursor qs ps ->
  exists s' cursor', compact_loop s cursor ps = Ok (s', cursor') /\ compacting s0 s' cursor' (qs ++ ps) [].
Proof.
  intros Hsz. revert s cursor qs. induction ps as [|i ps IH]; intros s cursor qs Hcp; simpl.
  { rewrite app_nil_r. eauto. }
  destruct (compact_step_ok _ _ _ _ _ _ Hsz Hcp) as (s1 & c1 & -> & Hcp1). simpl.
  destruct (IH _ _ _ Hcp1) as (s2 & c2 & H2 & Hcp2). exists s2, c2.
  by rewrite <-app_assoc in Hcp2.
Qed.

Lemma so_disjoint s i j f g :
  store_ok s -> fields s !! i = Some f -> fields s !! j = Some g -> i <> j ->
  (r_end (raw f) <= r_start (raw g) \/ r_end (raw g) <= r_start (raw f))%nat.
Proof.
  intros [(t & Hp & Ht) _ _ _] Hf Hg Hne.
  assert (exists k, raw f :: raw g :: k ≡ₚ raw <$> fields s) as [k Hk].
  { pose proof (delete_Permutation _ _ _ Hf) as H1.
    assert (g ∈ delete i (fields s)) as [k Hk]%elem_of_Permutation.
    { apply list_elem_of_lookup. destruct (decide (j < i)%nat).
      - exists j. by rewrite list_lookup_delete_lt by done.
      - exists (j - 1)%nat. rewrite list_lookup_delete_ge by lia. by replace (S (j - 1)) with j by lia. }
    exists (raw <$> k). rewrite Hk in H1. apply (fmap_Permutation raw) in H1. by rewrite H1. }
  eapply (tiles_perm_disjoint 0 t _ _ (k ++ free s)); [done|]. rewrite <-Hp, <-Hk. done.
Qed.

Lemma StronglySorted_impl_nodup {A} (R R' : A -> A -> Prop) l :
  StronglySorted R l -> NoDup l -> (forall i j, i ∈ l -> j ∈ l -> i <> j -> R i j -> R' i j) -> StronglySorted R' l.
Proof.
  induction 1 as [|i l Hs IH Hi]; intros Hnd Hr; [constructor|]. apply NoDup_cons in Hnd as [Hni Hnd].
  constructor.
  - apply IH; [done|]. intros. apply Hr; auto; by constructor.
  - rewrite Forall_forall in *. intros j Hj. apply Hr; [by constructor|by constructor|set_solver|auto].
Qed.

#[local] Instance index_before_trans fs : Transitive (index_before fs).
Proof. intros a b c. unfold index_before. lia. Qed.
#[local] Instance index_before_total fs : Total (index_before fs).
Proof. intros a b. unfold index_before. lia. Qed.

(** Compaction always succeeds, keeps the view, and leaves no hole. *)
Lemma compact_ok s :
  store_ok s ->
  exists s', compact s = Ok s' /\ store_ok s' /\ view s' = view s /\ free s' = [] /\
    length (arena s') = live_size s /\ ceiling s' = ceiling s /\ length (fields s') = length (fields s).
Proof.
  intros Hs. pose proof Hs as [(t & Hp & Ht) Hn Hsep Hsz].
  unfold compact. set (ps := merge_sort _ _).
  assert (ps ≡ₚ seq 0 (length (fields s))) as Hps by apply merge_sort_Permutation.
  assert (NoDup ps) as Hnd by (rewrite Hps; apply NoDup_seq).
  assert (forall i, i ∈ ps -> exists f, fields s !! i = Some f) as Hin.
  { intros i Hi. rewrite Hps in Hi. apply elem_of_seq in Hi. apply lookup_lt_is_Some. lia. }
  destruct (compact_loop_ok s s 0 [] ps Hsz) as (s' & c & Hloop & Hcp).
  { constructor; simpl; auto; [lia|by intros i ?%not_elem_of_nil| |].
    - intros i Hi. destruct (Hin i Hi) as [f Hf]. exists f.
      destruct (so_field_bounds s f Hs); [by eapply list_elem_of_lookup_2|].
      rewrite Forall_lookup in Hn. repeat split; eauto. lia.
    - eapply StronglySorted_impl_nodup; [apply (StronglySorted_merge_sort (index_before (fields s)))|done|].
      intros i j Hi Hj Hne. unfold index_before, field_start, raw_at.
      destruct (Hin i Hi) as [f Hf], (Hin j Hj) as [g Hg]. rewrite Hf, Hg.
      destruct (so_disjoint s i j f g Hs Hf Hg Hne); [done|].
      destruct (so_field_bounds s g Hs); [by eapply list_elem_of_lookup_2|]. lia. }
  rewrite Hloop. simpl. destruct Hcp as [_ Hlen Har [_ Hce] Ht' Hc Hm _ _]. rewrite app_nil_l in *.
  eexists. split; [done|].
  assert (view {| arena := take c (arena s'); fields := fields s'; free := []; ceiling := ceiling s' |} = view s /\
    Forall (name_ok (take c (arena s'))) (fields s')) as [Hv Hn'].
  { assert (forall i, is_Some (fields s' !! i) -> i ∈ ps) as Hall.
    { intros i Hi%lookup_lt_is_Some. rewrite Hps. apply elem_of_seq. lia. }
    split.
    - unfold view. simpl. apply list_eq. intros i. rewrite !list_lookup_fmap.
      destruct (fields s' !! i) as [f|] eqn:Hf; simpl.
      + destruct (Hm i) as (g & g0 & Hg & Hg0 & Hb & _ & He); [by apply Hall|].
        rewrite Hf in Hg. injection Hg as <-. rewrite Hg0. simpl. rewrite <-Hb. f_equal. by apply slice_take.
      + apply lookup_ge_None in Hf. rewrite Hlen in Hf. apply lookup_ge_None in Hf. by rewrite Hf.
    - apply Forall_lookup. intros i f Hf. destruct (Hm i) as (g & g0 & Hg & Hg0 & Hb & Hnm & He); [by apply Hall|].
      rewrite Hf in Hg. injection Hg as <-. unfold name_ok, range_bytes in *. by rewrite slice_take. }
  assert (store_ok {| arena := take c (arena s'); fields := fields s'; free := []; ceiling := ceiling s' |}) as Hs'.
  { constructor; simpl; auto; [|constructor|rewrite length_take; lia].
    exists (raw_at s' <$> ps). rewrite app_nil_r, length_take, Nat.min_l by lia. split; [|done].
    by rewrite raw_at_seq, Hlen, Hps. }
  split; [done|]. split; [done|]. split; [done|]. split; [|done].
  pose proof (live_size_ranges _ Hs') as Hl. unfold live_size in *. rewrite <-Hv, Hl. simpl.
  apply tiles_sum in Ht'. rewrite raw_at_seq, Hlen, <-Hps. simpl in *. rewrite length_take. lia.
Qed.

(** * Insertion *)

Lemma find_hole_Some s n p :
  find_hole s n = Some p -> exists r, free s !! p = Some r /\ (n <= r_len r)%nat.
Proof.
  intros (pre & r & post & Hl & <- & _ & Hn%Nat.leb_le)%position_Some. exists r. split; [|done].
  rewrite Hl. by apply list_lookup_middle.
Qed.

(** A hole shrinks at its start or disappears. *)
Definition shrink_hole (l : list Range) (p start end_ : nat) : list Range :=
  if (end_ <=? start)%nat then delete p l else <[p := {| r_start := start; r_end := end_ |}]> l.

Lemma separated_shrink l p r n :
  separated l -> l !! p = Some r -> (n <= r_len r)%nat -> separated (shrink_hole l p (r_start r + n) (r_end r)).
Proof.
  intros Hs Hr Hn. unfold shrink_hole.
  rewrite <-(take_drop_middle _ _ _ Hr) in Hs. unfold separated in *.
  apply StronglySorted_app in Hs as (Hx & Hs1 & Hs2). apply StronglySorted_inv in Hs2 as [Hs2 Hf].
  rewrite Forall_forall in Hf.
  destruct (Nat.leb_spec (r_end r) (r_start r + n)).
  - rewrite delete_take_drop. apply StronglySorted_app_2; auto. intros a c Ha Hc. apply Hx; [done|by constructor].
  - rewrite insert_take_drop by by eapply lookup_lt_Some.
    apply StronglySorted_app_2; auto.
    + intros a c Ha [->|Hc]%elem_of_cons; simpl; [|apply Hx; [done|by constructor]].
      assert (r ∈ r :: drop (S p) l) as Hin by constructor. specialize (Hx a r Ha Hin). lia.
    + constructor; [done|]. apply Forall_forall. intros c Hc. simpl. auto.
Qed.

Lemma tiles_shrink raws l p r n t m :
  raws ++ l ≡ₚ t -> tiles 0 t m -> l !! p = Some r -> (0 < n)%nat -> (n <= r_len r)%nat ->
  exists t', {| r_start := r_start r; r_end := (r_start r + n)%nat |} :: raws ++ shrink_hole l p (r_start r + n) (r_end r) ≡ₚ t'
    /\ tiles 0 t' m.
Proof.
  intros Hp Ht Hr Hn0 Hn. unfold shrink_hole, r_len in *.
  assert (r :: raws ++ delete p l ≡ₚ t) as Hp'.
  { rewrite <-Hp. pose proof (delete_Permutation l p r Hr) as H1.
    etrans; [|symmetry; apply Permutation_app_head, H1]. solve_Permutation. }
  destruct (tiles_perm_split _ _ _ _ _ Ht Hp') as (t1 & t2 & -> & Hk & _ & _).
  apply tiles_app in Ht as (x & H1 & <- & H2 & H3).
  destruct (Nat.leb_spec (r_end r) (r_start r + n)).
  - exists (t1 ++ {| r_start := r_start r; r_end := (r_start r + n)%nat |} :: t2). split.
    + by rewrite Hk, Permutation_middle.
    + apply tiles_app. exists (r_start r). split; [done|]. simpl.
      replace (r_start r + n)%nat with (r_end r) by lia. done.
  - exists (t1 ++ {| r_start := r_start r; r_end := (r_start r + n)%nat |}
      :: {| r_start := (r_start r + n)%nat; r_end := r_end r |} :: t2). split.
    + rewrite <-!Permutation_middle, <-Hk. apply perm_skip.
      rewrite insert_take_drop, delete_take_drop by by eapply lookup_lt_Some. solve_Permutation.
    + apply tiles_app. exists (r_start r). split; [done|]. simpl. repeat split; auto; lia.
Qed.

(** What [place] leaves: room for [b] at [start] that holds [b], the live
    fields untouched. *)
Record placed (s s1 : HeaderStore) (b : bytes) (start : nat) : Prop := {
  pl_fields : fields s1 = fields s /\ ceiling s1 = ceiling s;
  pl_bytes : slice start (start + length b) (arena s1) = b;
  pl_live : forall f, f ∈ fields s -> range_bytes (arena s1) (raw f) = range_bytes (arena s) (raw f);
  pl_tiling : exists t, {| r_start := start; r_end := (start + length b)%nat |} :: (raw <$> fields s) ++ free s1 ≡ₚ t /\
    tiles 0 t (length (arena s1));
  pl_separated : separated (free s1);
  pl_size : len (arena s1) <= usize_max;
  pl_ceiling : len (arena s) <= ceiling s -> len (arena s1) <= ceiling s;
  pl_growth : (length (arena s1) <= length (arena s) + length b)%nat;
}.

Lemma place_hole s p b :
  store_ok s -> b <> [] -> find_hole s (length b) = Some p ->
  exists s1 start, place s (Some p) b = Ok (s1, start) /\ placed s s1 b start.
Proof.
  intros Hs Hb (r & Hr & Hlen)%find_hole_Some.
  pose proof Hs as [(t & Hp & Ht) Hn Hsep Hsz]. unfold place. simpl. rewrite Hr. simpl.
  assert (0 < length b)%nat as Hb0 by (destruct b; simpl; [done|lia]).
  assert (r ∈ t) as Hin. { rewrite <-Hp. apply elem_of_app. right. by eapply list_elem_of_lookup_2. }
  pose proof (tiles_elem _ _ _ _ Ht Hin) as (_ & Hlt & Hend). unfold r_len in Hlen.
  rewrite (add_size_ok _ _ _ eq_refl) by lia. simpl. fold (shrink_hole (free s) p (r_start r + length b) (r_end r)).
  eexists _, _. split; [done|].
  assert (length (splice (r_start r) b (arena s)) = length (arena s)) as Hl by (apply length_splice; lia).
  constructor; simpl; rewrite ?Hl; auto.
  - apply slice_splice_same. lia.
  - intros f Hf. apply range_splice_disjoint; [|lia].
    destruct (so_field_bounds s f Hs Hf). apply list_elem_of_lookup in Hf as [i Hf].
    destruct (tiles_perm_disjoint 0 t (raw f) r ((raw <$> delete i (fields s)) ++ delete p (free s)) _ Ht); [|lia..].
    pose proof (delete_Permutation (free s) p r Hr) as H1.
    pose proof (fmap_Permutation raw _ _ (delete_Permutation (fields s) i f Hf)) as H2. simpl in H2.
    rewrite <-Hp. etrans; [|symmetry; apply Permutation_app; [exact H2|exact H1]]. solve_Permutation.
  - by apply (tiles_shrink _ _ _ _ _ t).
  - apply separated_shrink; [done..|]. unfold r_len. lia.
  - lia.
Qed.

Lemma place_end s b :
  store_ok s -> b <> [] -> len (arena s ++ b) <= usize_max -> len (arena s ++ b) <= ceiling s ->
  exists s1 start, place s None b = Ok (s1, start) /\ placed s s1 b start.
Proof.
  intros Hs Hb Hu Hc. pose proof Hs as [(t & Hp & Ht) Hn Hsep Hsz]. unfold place. simpl.
  rewrite length_app in *. rewrite (add_size_ok _ _ _ eq_refl) by lia. simpl. unfold check_limit.
  rewrite (proj2 (Z.ltb_ge _ _)) by lia. simpl. eexists _, _. split; [done|].
  constructor; simpl; rewrite ?length_app; auto.
  - replace (arena s ++ b) with (arena s ++ b ++ []) by by rewrite app_nil_r. by apply slice_middle.
  - intros f Hf. apply slice_app_l. destruct (so_field_bounds s f Hs Hf). lia.
  - exists (t ++ [{| r_start := length (arena s); r_end := (length (arena s) + length b)%nat |}]). split.
    + rewrite Hp. solve_Permutation.
    + apply tiles_app. exists (length (arena s)). split; [done|]. simpl. repeat split. destruct b; simpl in *; [done|lia].
Qed.

(** The tail of [insert], after [place]. *)
Lemma insert_placed s s1 b start index :
  store_ok s -> placed s s1 b start ->
  exists s', (end_ ← add_size start (length b);
    name ← match f_name (field_from_bytes b) with
           | Some name => end_ ← add_size start (length name); Ok (Some {| r_start := start; r_end := end_ |})
           | None => Ok None
           end;
    Ok {| arena := arena s1;
          fields := take index (fields s1) ++
                    {| raw := {| r_start := start; r_end := end_ |}; hf_name := name |} :: drop index (fields s1);
          free := free s1; ceiling := ceiling s1 |}) = Ok s' /\
  store_ok s' /\ view s' = take index (view s) ++ b :: drop index (view s) /\
  ceiling s' = ceiling s /\ arena s' = arena s1.
Proof.
  intros Hs [[Hf Hc] Hb Hlive (t & Hp & Ht) Hsep Hsz _ _].
  assert (start + length b <= length (arena s1))%nat as Hend.
  { eapply (tiles_elem _ _ _ {| r_start := start; r_end := _ |} Ht). rewrite <-Hp. by constructor. }
  rewrite (add_size_ok _ _ _ eq_refl) by lia. simpl result_bind.
  set (f := {| raw := {| r_start := start; r_end := (start + length b)%nat |}; hf_name := name_range start b |}).
  exists {| arena := arena s1; fields := take index (fields s1) ++ f :: drop index (fields s1);
            free := free s1; ceiling := ceiling s1 |}. split.
  { cbn [mbind result_bind]. unfold f, name_range. destruct (f_name (field_from_bytes b)) as [nm|] eqn:Hnm; [|done].
    pose proof (length_field_from_bytes_name _ _ Hnm) as [Hl _].
    rewrite (add_size_ok _ _ _ eq_refl) by lia. done. }
  destruct (view_arena_change s (arena s1) (fields s1) Hf Hlive) as [Hv Hn].
  specialize (Hn (so_names s Hs)). split; [constructor; simpl; auto|split; [|done]].
  - exists t. split; [|done]. rewrite fmap_app, fmap_cons. rewrite <-Hp, <-Hf. simpl.
    rewrite fmap_take, fmap_drop. generalize (raw <$> fields s1). intros l.
    rewrite <-(take_drop index l) at 3. solve_Permutation.
  - rewrite <-(take_drop index (fields s1)), Forall_app in Hn. destruct Hn.
    apply Forall_app. split; [done|]. constructor; [|done]. unfold name_ok, range_bytes. simpl. by rewrite Hb.
  - unfold view at 1. simpl. rewrite fmap_app, fmap_cons. unfold range_bytes at 2. simpl. rewrite Hb.
    rewrite <-Hv, fmap_take, fmap_drop. done.
Qed.

(** The outcome of an insertion as a list operation. *)
Definition insert_outcome (s : HeaderStore) (index : nat) (b : bytes) (r : result HeaderEditError HeaderStore) : Prop :=
  match r with
  | Ok s' => b <> [] /\ store_ok s' /\ view s' = take index (view s) ++ b :: drop index (view s) /\
             ceiling s' = ceiling s /\ (len (arena s) <= ceiling s -> len (arena s') <= ceiling s') /\
             (length (arena s') <= length (arena s) + length b)%nat
  | Err e => b = [] /\ e = InvalidGeneratedValue \/
             b <> [] /\ e = SizeOverflow /\ usize_max < len (arena s) + len b \/
             b <> [] /\ e = LimitExceeded ML_Headers (ceiling s) /\ ceiling s < Z.of_nat (live_size s) + len b
  end.

Lemma insert_finish s s1 b start index :
  store_ok s -> b <> [] -> placed s s1 b start ->
  insert_outcome s index b
   (end_ ← add_size start (length b);
    name ← match f_name (field_from_bytes b) with
           | Some name => end_ ← add_size start (length name); Ok (Some {| r_start := start; r_end := end_ |})
           | None => Ok None
           end;
    Ok {| arena := arena s1;
          fields := take index (fields s1) ++
                    {| raw := {| r_start := start; r_end := end_ |}; hf_name := name |} :: drop index (fields s1);
          free := free s1; ceiling := ceiling s1 |}).
Proof.
  intros Hs Hb Hpl. destruct (insert_placed s s1 b start index Hs Hpl) as (s' & -> & Hok & Hv & Hc & Ha).
  destruct Hpl as [_ _ _ _ _ _ Hce Hg]. simpl. rewrite Ha, Hc. auto 10.
Qed.

Lemma insert_outcome_compact s s1 index b r :
  store_ok s -> view s1 = view s -> length (arena s1) = live_size s -> ceiling s1 = ceiling s ->
  insert_outcome s1 index b r -> insert_outcome s index b r.
Proof.
  intros Hs Hv Ha Hc. pose proof (live_size_le s Hs). unfold live_size in *.
  destruct r as [s'|e]; simpl; rewrite ?Hv, ?Hc.
  - intros (? & ? & ? & ? & ? & ?). split_and!; auto; lia.
  - unfold live_size. rewrite Hv. intros [?|[(? & ? & ?)|?]]; [by left|right; left|right; by right]. split_and!; auto. lia.
Qed.

Lemma insert_ok s index b : store_ok s -> insert_outcome s index b (insert s index b).
Proof.
  intros Hs. unfold insert. destruct (bool_decide_reflect (b = [])) as [Hb|Hb]; [by left|].
  pose proof (so_size s Hs) as Hu. pose proof (live_size_le s Hs) as Hlive.
  destruct (Z.leb_spec (len (arena s) + len b) usize_max) as [Hsz|Hsz].
  2: { rewrite (add_size_err (length (arena s))) by lia. right; left. done. }
  rewrite (add_size_ok _ _ _ eq_refl) at 1 by lia. simpl.
  destruct (find_hole s (length b)) as [p|] eqn:Hh; simpl.
  { destruct (place_hole s p b Hs Hb Hh) as (s1 & start & -> & Hpl). simpl. by apply insert_finish. }
  destruct (Z.ltb_spec (ceiling s) (Z.of_nat (length (arena s) + length b))) as [Hc|Hc]; simpl.
  - destruct (compact_ok s Hs) as (s1 & -> & Hs1 & Hv & Hf & Hl & Hce & _). simpl.
    unfold find_hole. rewrite Hf. simpl.
    destruct (Z.leb_spec (Z.of_nat (length (arena s1) + length b)) (ceiling s)) as [Hfit|Hfit].
    + destruct (place_end s1 b Hs1 Hb) as (s2 & start & -> & Hpl); [rewrite length_app; lia..|]. simpl.
      apply (insert_outcome_compact s s1); [done..|]. by apply insert_finish.
    + unfold place. simpl. rewrite (add_size_ok _ _ _ eq_refl) by lia. simpl. unfold check_limit.
      rewrite (proj2 (Z.ltb_lt _ _)) by lia. simpl. right; right. rewrite Hce. repeat split; [done|]. lia.
  - destruct (place_end s b Hs Hb) as (s1 & start & -> & Hpl); [rewrite length_app; lia..|]. simpl.
    by apply insert_finish.
Qed.

(** An insertion that fits the ceiling succeeds, however the arena is
    fragmented. *)
Lemma insert_fits s index b :
  store_ok s -> b <> [] -> Z.of_nat (live_size s) + len b <= ceiling s -> len (arena s) + len b <= usize_max ->
  exists s', insert s index b = Ok s' /\ store_ok s' /\ view s' = take index (view s) ++ b :: drop index (view s) /\
    ceiling s' = ceiling s /\ (len (arena s) <= ceiling s -> len (arena s') <= ceiling s') /\
    (length (arena s') <= length (arena s) + length b)%nat.
Proof.
  intros Hs Hb Hl Hu. pose proof (insert_ok s index b Hs) as H.
  destruct (insert s index b) as [s'|e]; [exists s'; by destruct H|].
  exfalso. destruct H as [[? _]|[(_ & _ & ?)|(_ & _ & ?)]]; [done|lia|lia].
Qed.

Lemma insert_all_ok s l :
  store_ok s -> Forall (fun b => b <> []) l ->
  len (arena s) + len (concat l) <= usize_max -> len (arena s) + len (concat l) <= ceiling s ->
  exists s', insert_all s l = Ok s' /\ store_ok s' /\ view s' = view s ++ l /\ ceiling s' = ceiling s /\
    len (arena s') <= ceiling s'.
Proof.
  intros Hs Hl. revert s Hs. induction Hl as [|b l Hb Hl IH]; intros s Hs Hu Hc; simpl in *.
  { exists s. rewrite app_nil_r. split_and!; auto. lia. }
  rewrite length_app in *. pose proof (live_size_le s Hs).
  destruct (insert_fits s (length (fields s)) b Hs Hb) as (s1 & -> & Hs1 & Hv & Hce & Hle & Hg); [lia..|]. simpl.
  destruct (IH s1 Hs1) as (s' & -> & Hs' & Hv' & Hce' & Hle'); [lia..|].
  exists s'. split_and!; auto; [|congruence]. rewrite Hv', Hv.
  rewrite take_ge, drop_ge by (unfold view; rewrite length_fmap; lia). by rewrite <-app_assoc.
Qed.

Lemma sizes_ok (fs : list Field) n :
  Z.of_nat n + len (concat (f_bytes <$> fs)) <= usize_max ->
  foldl (fun size f => size ← size; add_size size (length (f_bytes f))) (Ok n) fs = Ok (n + length (concat (f_bytes <$> fs)))%nat.
Proof.
  revert n. induction fs as [|f fs IH]; intros n; csimpl; [intros; f_equal; lia|].
  rewrite length_app. intros H. rewrite (add_size_ok _ _ _ eq_refl) by lia. rewrite IH by lia. f_equal. lia.
Qed.

Lemma sizes_err (fs : list Field) e :
  foldl (fun size f => size ← size; add_size size (length (f_bytes f))) (Err e) fs = Err e.
Proof. by induction fs. Qed.

Lemma sizes_overflow (fs : list Field) n :
  usize_max < Z.of_nat n + len (concat (f_bytes <$> fs)) -> Z.of_nat n <= usize_max ->
  foldl (fun size f => size ← size; add_size size (length (f_bytes f))) (Ok n) fs = Err SizeOverflow.
Proof.
  revert n. induction fs as [|f fs IH]; intros n; csimpl; [lia|].
  rewrite length_app. intros H Hn. unfold add_size at 2, checked_add.
  destruct (Z.leb_spec (Z.of_nat n + len (f_bytes f)) usize_max); simpl; [apply IH; lia|apply sizes_err].
Qed.

Lemma store_empty_ok c : 0 <= c -> store_ok {| arena := []; fields := []; free := []; ceiling := c |}.
Proof.
  pose proof usize_max_lower. constructor; simpl; [|constructor|constructor|lia].
  exists []. done.
Qed.

(** [HeaderStore::new] keeps the fields' bytes, and fails exactly when they
    exceed the ceiling. *)
Lemma store_new_ok fs c :
  0 <= c -> c <= usize_max -> Forall (fun f => f_bytes f <> []) fs ->
  match store_new fs c with
  | Ok s => store_ok s /\ view s = f_bytes <$> fs /\ ceiling s = c /\ len (arena s) <= ceiling s
  | Err e => c < len (concat (f_bytes <$> fs)) /\ (e = SizeOverflow \/ e = LimitExceeded ML_Headers c)
  end.
Proof.
  intros Hc0 Hc Hne. pose proof usize_max_lower. unfold store_new.
  destruct (Z.leb_spec (len (concat (f_bytes <$> fs))) usize_max) as [Hu|Hu].
  2: { rewrite sizes_overflow by lia. simpl. split; [lia|by left]. }
  rewrite sizes_ok by lia. simpl. unfold check_limit.
  destruct (Z.ltb_spec c (len (concat (f_bytes <$> fs)))) as [Hl|Hl]; simpl; [split; [lia|by right]|].
  destruct (insert_all_ok {| arena := []; fields := []; free := []; ceiling := c |} (f_bytes <$> fs))
    as (s & -> & ?); simpl; try lia; [by apply store_empty_ok|by apply Forall_fmap|done].
Qed.
End refine.

(** C35: [HeaderStore::insert] is list insertion.  On a well-formed arena it
    either leaves a well-formed arena whose field list has the bytes at
    [index] and is otherwise unchanged, or it fails, and then only for a
    stated reason: empty bytes, an arithmetic overflow, or live fields that
    exceed the ceiling with the new one.  Deleted bytes never count against
    the ceiling. *)
Theorem insert_refines {T : Target} s index b :
  store_ok s ->
  match insert s index b with
  | Ok s' => b <> [] /\ store_ok s' /\ view s' = take index (view s) ++ b :: drop index (view s) /\
             ceiling s' = ceiling s /\ (len (arena s) <= ceiling s -> len (arena s') <= ceiling s') /\
             (length (arena s') <= length (arena s) + length b)%nat
  | Err e => b = [] /\ e = InvalidGeneratedValue \/
             b <> [] /\ e = SizeOverflow /\ usize_max < len (arena s) + len b \/
             b <> [] /\ e = LimitExceeded ML_Headers (ceiling s) /\ ceiling s < Z.of_nat (live_size s) + len b
  end.
Proof. exact (insert_ok s index b). Qed.

(** [HeaderStore::compact] never fails, moves no field in the output
    order, changes no field's bytes, and leaves an arena that holds the live
    bytes and nothing else. *)
Theorem compact_refines {T : Target} s :
  store_ok s ->
  exists s', compact s = Ok s' /\ store_ok s' /\ view s' = view s /\ free s' = [] /\
    length (arena s') = live_size s /\ ceiling s' = ceiling s.
Proof. intros (s' & ? & ? & ? & ? & ? & ? & _)%compact_ok. eauto 10. Qed.

(** A fragmented arena of two fields and a hole, for the witnesses. *)
Definition sample_fields : list Field := field_from_bytes <$> [B "A: 1"; B "Bb: 22"; B "C: 3"].

Lemma sample_store_ok :
  exists s, store_new (T := target64) sample_fields 14 = Ok s /\ store_ok (remove s 1) /\
    view (remove s 1) = [B "A: 1"; B "C: 3"] /\ ceiling (remove s 1) = 14.
Proof.
  pose proof (store_new_ok (T := target64) sample_fields 14) as H.
  destruct (store_new (T := target64) sample_fields 14) as [s|e] eqn:Hs; [|by vm_compute in Hs].
  destruct H as (Hok & Hv & Hc & _); [lia|vm_compute; done|repeat constructor; done|].
  exists s. split; [done|]. destruct (remove_ok (T := target64) s 1 Hok) as (H1 & H2 & H3).
  split_and!; [done|by rewrite H2, Hv|by rewrite H3].
Qed.

(** The insertion that follows fits only after a compaction. *)
Lemma insert_refines_witness :
  exists s s', store_ok (T := target64) s /\ insert (T := target64) s 1 (B "Dd: 333") = Err (LimitExceeded ML_Headers 14) /\
    insert (T := target64) s 1 (B "D: 33") = Ok s' /\ view s' = [B "A: 1"; B "D: 33"; B "C: 3"].
Proof.
  destruct sample_store_ok as (s & Hn & Hok & Hv & Hc).
  pose proof (insert_refines (T := target64) (remove s 1) 1 (B "D: 33") Hok) as H. rewrite Hv in H.
  assert (s = match store_new (T := target64) sample_fields 14 with Ok s => s | Err _ => s end) as Hs by by rewrite Hn.
  exists (remove s 1).
  destruct (insert (T := target64) (remove s 1) 1 (B "D: 33")) as [s'|e] eqn:Hi;
    [|exfalso; rewrite Hs in Hi; vm_compute in Hi; discriminate].
  exists s'. split_and!; [done| |done|apply H]. rewrite Hs. vm_compute. reflexivity.
Defined.

Lemma compact_refines_witness :
  exists s s', store_ok (T := target64) s /\ compact (T := target64) s = Ok s' /\ free s <> [] /\ free s' = [] /\
    view s' = [B "A: 1"; B "C: 3"].
Proof.
  destruct sample_store_ok as (s & Hn & Hok & Hv & Hc).
  destruct (compact_refines (T := target64) (remove s 1) Hok) as (s' & H1 & H2 & H3 & H4 & _).
  exists (remove s 1), s'. split_and!; [done|done| |done|by rewrite H3].
  assert (s = match store_new (T := target64) sample_fields 14 with Ok s => s | Err _ => s end) as Hs by by rewrite Hn.
  rewrite Hs. vm_compute. discriminate.
Defined.
