(* ===== verification/HeaderStoreOps.v ===== *)
(** The editing loops of the header arena ([src/src/header_edit/storage.rs]):
    renaming, prefixing, unfolding, whitespace zapping and the removal of
    duplicates.  Each loop is shown to act on the list of fields as a list
    function; the loops that grow the header fail exactly when it would exceed
    its ceiling. *)
From S2P Require Import Prelude Config Limits HeaderValue HeaderFields HeaderStore HeaderStoreFacts HeaderStoreRefine.

(** * Edit loops *)

(** What one iteration of an edit loop does with its field. *)
Inductive edit := Keep | Drop | Replace (replacement : bytes).

(** The iteration of [rename_matching_pattern]. *)
Definition rename_edit (from_pattern to_pattern : bytes) (field : Field) : edit :=
  if field_matches_pattern field from_pattern then
    match rename_field_pattern field from_pattern to_pattern with
    | Some replacement => if bytes_eqb (f_bytes field) replacement then Keep else Replace replacement
    | None => Keep
    end
  else Keep.

(** The iteration of [prepend_prefix_to_matching]. *)
Definition prepend_edit (pattern prefix : bytes) (field : Field) : edit :=
  if field_matches_pattern field pattern && bool_decide (is_Some (f_name field))
  then Replace (prefix ++ f_bytes field) else Keep.

(** The iteration of [concatenate_continued]. *)
Definition concatenate_edit (field : Field) : edit :=
  if starts_with (f_bytes field) (B "From ") then Keep
  else let unfolded := unfold_field_bytes (f_bytes field) in
       if bytes_eqb unfolded (f_bytes field) then Keep else Replace unfolded.

(** The iteration of [zap_whitespace]. *)
Definition zap_edit (field : Field) : edit :=
  match f_name field with
  | None => Keep
  | Some name =>
      let after_colon := drop (length name + 1) (f_bytes field) in
      let trimmed_ending := strip_line_ending after_colon in
      if (length trimmed_ending =? 1)%nat && starts_blank trimmed_ending then Drop
      else
        match after_colon with
        | [] => Keep
        | b :: _ => if is_blank b || (b =? c_CR) || (b =? c_LF) then Keep
                    else Replace (name ++ c_COLON :: c_SP :: after_colon)
        end
  end.

(** * Duplicates *)

(** The [name_key] of a matching field. *)
Definition name_key (f : Field) : bytes :=
  match f_name f with Some name => to_ascii_lowercase <$> name | None => B "from " end.

(** The closure of [make_unique_first], run over the fields in order: whether
    each is kept, given the keys already seen. *)
Fixpoint unique_mask (pattern : bytes) (seen : list bytes) (fs : list Field) : list bool :=
  match fs with
  | [] => []
  | f :: fs' =>
      if field_matches_pattern f pattern then
        if existsb (fun s => bytes_eqb s (name_key f)) seen then false :: unique_mask pattern seen fs'
        else true :: unique_mask pattern (seen ++ [name_key f]) fs'
      else true :: unique_mask pattern seen fs'
  end.

(** The first loop of [make_unique_last], over the enumerated fields in
    reverse: the indices to retain. *)
Fixpoint last_indices (pattern : bytes) (seen : list bytes) (fs : list (nat * Field)) : list nat :=
  match fs with
  | [] => []
  | (idx, f) :: fs' =>
      if field_matches_pattern f pattern then
        if existsb (fun s => bytes_eqb s (name_key f)) seen then last_indices pattern seen fs'
        else idx :: last_indices pattern (seen ++ [name_key f]) fs'
      else idx :: last_indices pattern seen fs'
  end.

(** The elements of [l] that [mask] selects. *)
Fixpoint select {A} (mask : list bool) (l : list A) : list A :=
  match mask, l with
  | keep :: mask', x :: l' => if keep : bool then x :: select mask' l' else select mask' l'
  | _, _ => []
  end.

(** [Vec::retain] whose closure answers [mask] over the fields, the raw range
    of the others pushed on the free list, then [coalesce_free]. *)
Definition retain_mask (mask : list bool) (s : HeaderStore) : HeaderStore :=
  coalesce_free {| arena := arena s; fields := select mask (fields s);
                   free := free s ++ (raw <$> select (negb <$> mask) (fields s)); ceiling := ceiling s |}.

(** Source: header_edit/storage.rs `pub(super) fn make_unique_first` *)
Definition make_unique_first (s : HeaderStore) (pattern : bytes) : HeaderStore :=
  retain_mask (unique_mask pattern [] (field_of (arena s) <$> fields s)) s.

(** The binary search in the sorted [retain_indices] is membership.
    Source: header_edit/storage.rs `pub(super) fn make_unique_last` *)
Definition make_unique_last (s : HeaderStore) (pattern : bytes) : HeaderStore :=
  let retain_indices := last_indices pattern [] (reverse (imap pair (field_of (arena s) <$> fields s))) in
  retain_mask ((fun idx => bool_decide (idx ∈ retain_indices)) <$> seq 0 (length (fields s))) s.

Section ops.
Context {T : Target}.

(** [while i < self.fields.len()]: every iteration advances [i] or removes a
    field, so [n] is the number of fields not yet visited. *)
Fixpoint edit_loop (decide : Field -> edit) (n : nat) (s : HeaderStore) (i : nat) : result HeaderEditError HeaderStore :=
  match n with
  | O => Ok s
  | S n' =>
      match field s i with
      | None => Ok s
      | Some f =>
          match decide f with
          | Keep => edit_loop decide n' s (S i)
          | Drop => edit_loop decide n' (remove s i) i
          | Replace replacement =>
              s' ← insert (remove s i) i replacement;
              edit_loop decide n' s' (S i)
          end
      end
  end.

(** Source: header_edit/storage.rs `pub(super) fn rename_matching_pattern` *)
Definition rename_matching_pattern (s : HeaderStore) (from_pattern to_pattern : bytes) : result HeaderEditError HeaderStore :=
  edit_loop (rename_edit from_pattern to_pattern) (length (fields s)) s 0.

(** Source: header_edit/storage.rs `pub(super) fn prepend_prefix_to_matching` *)
Definition prepend_prefix_to_matching (s : HeaderStore) (pattern prefix : bytes) : result HeaderEditError HeaderStore :=
  edit_loop (prepend_edit pattern prefix) (length (fields s)) s 0.

(** Source: header_edit/storage.rs `pub(super) fn concatenate_continued` *)
Definition concatenate_continued (s : HeaderStore) : result HeaderEditError HeaderStore :=
  edit_loop concatenate_edit (length (fields s)) s 0.

(** Source: header_edit/storage.rs `pub(super) fn zap_whitespace` *)
Definition zap_whitespace (s : HeaderStore) : result HeaderEditError HeaderStore :=
  edit_loop zap_edit (length (fields s)) s 0.

(** ** The abstract loop *)

(** The same loop on the list of the fields' bytes: [done] is what has been
    visited.  A replacement is refused when the header it would leave does not
    fit [limit]. *)
Fixpoint edit_ref (decide : Field -> edit) (limit : Z) (done todo : list bytes) : result HeaderEditError (list bytes) :=
  match todo with
  | [] => Ok done
  | b :: todo' =>
      match decide (field_from_bytes b) with
      | Keep => edit_ref decide limit (done ++ [b]) todo'
      | Drop => edit_ref decide limit done todo'
      | Replace r =>
          if bool_decide (r = []) then Err InvalidGeneratedValue
          else if limit <? len (concat (done ++ r :: todo')) then Err (LimitExceeded ML_Headers limit)
          else edit_ref decide limit (done ++ [r]) todo'
      end
  end.

(** The store [s] implements the field list [l] under the ceiling [c]. *)
Definition implements (s : HeaderStore) (l : list bytes) (c : Z) : Prop :=
  store_ok s /\ view s = l /\ ceiling s = c /\ len (arena s) <= c.

Lemma implements_view s c : store_ok s -> ceiling s = c -> len (arena s) <= c -> implements s (view s) c.
Proof. done. Qed.

Lemma length_fields_view s : length (fields s) = length (view s).
Proof. unfold view. by rewrite length_fmap. Qed.

Lemma coalesce_shrinks s : (length (arena (coalesce_free s)) <= length (arena s))%nat.
Proof. unfold coalesce_free. repeat case_match; simpl; rewrite ?length_take; lia. Qed.

Lemma implements_remove s l c i : implements s l c -> implements (remove s i) (delete i l) c.
Proof.
  intros (Hs & <- & <- & Hl). destruct (remove_ok s i Hs) as (H1 & H2 & H3).
  unfold implements. split_and!; try done. unfold remove.
  destruct (fields s !! i); [|done]. etrans; [apply Nat2Z.inj_le, coalesce_shrinks|exact Hl].
Qed.

(** One replacement: the field at [i] gives way to [r]. *)
Lemma implements_replace s c pre b post r :
  implements s (pre ++ b :: post) c -> c + len r <= usize_max ->
  match insert (remove s (length pre)) (length pre) r with
  | Ok s' => r <> [] /\ len (concat (pre ++ r :: post)) <= c /\ implements s' (pre ++ r :: post) c
  | Err e => r = [] /\ e = InvalidGeneratedValue \/
             r <> [] /\ c < len (concat (pre ++ r :: post)) /\ e = LimitExceeded ML_Headers c
  end.
Proof.
  intros Hi Hu. apply (implements_remove _ _ _ (length pre)) in Hi as (Hs & Hv & Hc & Hl).
  rewrite delete_middle in Hv. set (s0 := remove s (length pre)) in *.
  pose proof (insert_ok s0 (length pre) r Hs) as H. pose proof (live_size_le s0 Hs) as Hlive.
  unfold live_size in *. rewrite Hv in *.
  destruct (insert s0 (length pre) r) as [s'|e]; simpl in H.
  - destruct H as (Hr & Hs' & Hv' & Hc' & Ha & _). rewrite Hv, take_app_length, drop_app_length in Hv'.
    assert (len (arena s') <= c) by (rewrite <-Hc, <-Hc'; apply Ha; lia).
    split_and!; auto; [|unfold implements; split_and!; auto; congruence].
    pose proof (live_size_le s' Hs') as Hl'. unfold live_size in Hl'. rewrite Hv' in Hl'. lia.
  - unfold live_size in H. rewrite Hv, !concat_app in *. simpl. rewrite !length_app in *.
    destruct H as [[? ?]|[(? & ? & ?)|(? & -> & ?)]]; [by left|lia|right; split_and!; auto; [lia|congruence]].
Qed.

Lemma edit_loop_ref decide c s don todo :
  implements s (don ++ todo) c ->
  (forall b r, b ∈ todo -> decide (field_from_bytes b) = Replace r -> c + len r <= usize_max) ->
  match edit_loop decide (length todo) s (length don) with
  | Ok s' => exists l, edit_ref decide c don todo = Ok l /\ implements s' l c
  | Err e => edit_ref decide c don todo = Err e
  end.
Proof.
  revert s don. induction todo as [|b todo IH]; intros s don Hi Hu; simpl.
  { rewrite app_nil_r in Hi. eauto. }
  pose proof Hi as (Hs & Hv & _). rewrite (field_view s _ Hs), Hv, list_lookup_middle by done. simpl.
  destruct (decide (field_from_bytes b)) as [| |r] eqn:Hd.
  - rewrite <-length_snoc with (x := b). apply IH; [by rewrite <-app_assoc|set_solver].
  - apply IH; [|set_solver]. apply (implements_remove _ _ _ (length don)) in Hi. by rewrite delete_middle in Hi.
  - pose proof (implements_replace _ _ _ _ _ _ Hi (Hu b r ltac:(by constructor) Hd)) as Hr.
    destruct (insert _ _ _) as [s'|e]; simpl.
    + destruct Hr as (Hr & Hfit & Hi'). rewrite bool_decide_false by done. rewrite (proj2 (Z.ltb_ge _ _)) by lia.
      rewrite <-length_snoc with (x := r). apply IH; [by rewrite <-app_assoc|set_solver].
    + destruct Hr as [[-> ->]|(? & ? & ->)]; [done|].
      rewrite bool_decide_false by done. by rewrite (proj2 (Z.ltb_lt _ _)) by lia.
Qed.

(** Whether [r], the outcome of an edit loop, is what the abstract loop does
    to the fields [l]. *)
Definition refines_edit (decide : Field -> edit) (l : list bytes) (c : Z) (r : result HeaderEditError HeaderStore) : Prop :=
  match r with
  | Ok s' => exists l', edit_ref decide c [] l = Ok l' /\ implements s' l' c
  | Err e => edit_ref decide c [] l = Err e
  end.

Lemma edit_loop_refines decide s l c :
  implements s l c ->
  (forall b r, b ∈ l -> decide (field_from_bytes b) = Replace r -> c + len r <= usize_max) ->
  refines_edit decide l c (edit_loop decide (length (fields s)) s 0).
Proof.
  intros Hi Hu. pose proof Hi as (_ & Hv & _). rewrite length_fields_view, Hv.
  apply (edit_loop_ref decide c s [] l Hi Hu).
Qed.

(** ** Unfolding *)

Definition concatenated (b : bytes) : bytes := if starts_with b (B "From ") then b else unfold_field_bytes b.

Lemma unfold_field_bytes_ref b : unfold_field_bytes b = unfold_ref b.
Proof.
  unfold unfold_field_bytes. destruct (has_fold b) eqn:Hf; simpl; [apply unfold_loop_unfold_ref|].
  symmetry. by apply unfold_ref_id.
Qed.

Lemma unfold_ref_nil b : unfold_ref b = [] -> b = [].
Proof.
  destruct b as [|x b]; [done|]. cbn [unfold_ref]. repeat case_match; done.
Qed.

Lemma concatenate_edit_ref b :
  match concatenate_edit (field_from_bytes b) with
  | Keep => concatenated b = b
  | Replace r => r = concatenated b /\ (length r <= length b)%nat /\ (r = [] -> b = [])
  | Drop => False
  end.
Proof.
  unfold concatenate_edit, concatenated. cbn [f_bytes field_from_bytes].
  destruct (starts_with b (B "From ")); [done|]. rewrite unfold_field_bytes_ref.
  destruct (bytes_eqb (unfold_ref b) b) eqn:He; [by apply bytes_eqb_true in He|].
  split_and!; [done|apply unfold_ref_length|apply unfold_ref_nil].
Qed.

Lemma edit_ref_concatenate c don todo :
  len (concat (don ++ todo)) <= c -> Forall (fun b => b <> []) todo ->
  edit_ref concatenate_edit c don todo = Ok (don ++ (concatenated <$> todo)).
Proof.
  intros Hl Hne. revert don Hl. induction Hne as [|b todo Hb Hne IH]; intros don Hl; csimpl.
  { by rewrite app_nil_r. }
  pose proof (concatenate_edit_ref b) as He.
  destruct (concatenate_edit (field_from_bytes b)) as [| |r]; [|done|].
  - rewrite He, (snoc_app don b (concatenated <$> todo)). apply IH. by rewrite <-app_assoc.
  - destruct He as (Hr & Hlen & Hnil). rewrite bool_decide_false by naive_solver.
    rewrite <-Hr, (snoc_app don r (concatenated <$> todo)). rewrite !concat_app, !length_app in *. simpl in *. rewrite !length_app in *.
    rewrite (proj2 (Z.ltb_ge _ _)) by lia. apply IH.
    rewrite !concat_app, !length_app. simpl. rewrite app_nil_r. lia.
Qed.

(** ** Whitespace *)

Lemma field_name_parse name rest :
  no_lf name -> Forall (fun b => (b =? c_COLON) = false) name ->
  f_name (field_from_bytes (name ++ c_COLON :: rest)) = Some name.
Proof.
  intros Hlf Hc. simpl. set (n := default _ _).
  assert (length name < n)%nat as Hn.
  { unfold n. destruct (position _ _) as [i|] eqn:Hp; simpl; [|rewrite length_app; simpl; lia].
    apply position_Some in Hp as (pre & x & post & Hl & <- & Hf & Hx).
    apply app_eq_inv in Hl as [(k & -> & Hk)|(k & -> & Hk)].
    - destruct k as [|y k]; injection Hk as -> Hk; [done|]. apply Forall_app in Hlf as [_ Hlf]. inversion Hlf; congruence.
    - destruct k as [|y k]; [injection Hk as <- Hk; done|]. rewrite length_app. simpl. lia. }
  rewrite take_app_ge by lia.
  destruct (n - length name)%nat eqn:Hd; [lia|]. simpl.
  rewrite (position_app_cons _ name c_COLON) by done. simpl. by rewrite take_app_length.
Qed.

Lemma field_name_split b name :
  f_name (field_from_bytes b) = Some name ->
  no_lf name /\ Forall (fun b => (b =? c_COLON) = false) name /\ b = name ++ c_COLON :: drop (length name + 1) b.
Proof.
  simpl. set (n := default _ _). intros (i & Hi & ->)%fmap_Some.
  apply position_Some in Hi as (pre & x & post & Hl & <- & Hf & Hx). apply Z.eqb_eq in Hx as ->.
  assert (b = pre ++ c_COLON :: post ++ drop n b) as Hb.
  { rewrite <-(take_drop n b) at 1. by rewrite Hl, <-app_assoc. }
  assert (take (length pre) b = pre) as Ht by (rewrite Hb; apply take_app_length).
  rewrite Ht. split_and!; [|done|].
  - unfold n in *. destruct (position _ b) as [k|] eqn:Hp; simpl in *.
    + apply position_Some in Hp as (pre' & y & post' & Hb' & <- & Hf' & _).
      rewrite Hb', take_app_length in Hl. subst pre'. by apply Forall_app in Hf' as [? _].
    + apply position_None in Hp. rewrite take_ge in Hl by lia. rewrite Hl in Hp. by apply Forall_app in Hp as [? _].
  - clear Hl Ht. generalize dependent (post ++ drop n b). intros t Hb. rewrite Hb. do 2 f_equal.
    by rewrite snoc_app, drop_app_ge, length_snoc, Nat.add_1_r, Nat.sub_diag, drop_0 by (rewrite length_snoc; lia).
Qed.

(** The normal form of [zap_whitespace]: its loop has nothing to do. *)
Definition zapped (b : bytes) : Prop := zap_edit (field_from_bytes b) = Keep.

Lemma zap_edit_Replace b r :
  zap_edit (field_from_bytes b) = Replace r ->
  exists name x after, f_name (field_from_bytes b) = Some name /\ b = name ++ c_COLON :: x :: after /\
    r = name ++ c_COLON :: c_SP :: x :: after /\ is_blank x || (x =? c_CR) || (x =? c_LF) = false.
Proof.
  unfold zap_edit. destruct (f_name (field_from_bytes b)) as [name|] eqn:Hn; [|done].
  apply field_name_split in Hn as (_ & _ & Hb). cbn [f_bytes field_from_bytes].
  destruct (_ && _); [done|]. destruct (drop _ b) as [|x after]; [done|].
  destruct (is_blank x || _ || _) eqn:Hx; [done|]. intros [= <-]. eauto 10.
Qed.

Lemma strip_line_ending_blank x after :
  is_blank x || (x =? c_CR) || (x =? c_LF) = false ->
  exists y k, strip_line_ending (c_SP :: x :: after) = c_SP :: y :: k.
Proof.
  intros Hx. apply orb_false_iff in Hx as [[_ Hcr]%orb_false_iff Hlf].
  unfold strip_line_ending.
  destruct (strip_suffix _ [c_CR; c_LF]) as [l|] eqn:H1; [apply strip_suffix_Some in H1|
    destruct (strip_suffix _ [c_LF]) as [l|] eqn:H2; [apply strip_suffix_Some in H2|]].
  - destruct l as [|a [|y k]]; [by inversion H1|injection H1 as <- -> _; done|injection H1 as <- <- _; eauto].
  - destruct l as [|a [|y k]]; [by inversion H2|injection H2 as <- -> _; done|injection H2 as <- <- _; eauto].
  - simpl. eauto.
Qed.

Lemma zap_Replace_zapped b r : zap_edit (field_from_bytes b) = Replace r -> zapped r.
Proof.
  intros (name & x & after & Hn & Hb & -> & Hx)%zap_edit_Replace.
  apply field_name_split in Hn as (Hlf & Hc & _). unfold zapped, zap_edit.
  rewrite field_name_parse by done. cbn [f_bytes field_from_bytes].
  replace (drop (length name + 1) (name ++ c_COLON :: c_SP :: x :: after)) with (c_SP :: x :: after).
  - destruct (strip_line_ending_blank x after Hx) as (y & k & ->). done.
  - rewrite (snoc_app name), drop_app_ge by (rewrite length_snoc; lia). by rewrite length_snoc, Nat.add_1_r, Nat.sub_diag.
Qed.

Lemma edit_ref_zapped c don todo l :
  edit_ref zap_edit c don todo = Ok l -> Forall zapped don -> Forall zapped l.
Proof.
  revert don. induction todo as [|b todo IH]; intros don; simpl; [by intros [= <-]|].
  destruct (zap_edit (field_from_bytes b)) as [| |r] eqn:Hz; [|apply IH|].
  - intros H Hd. eapply IH; [exact H|]. apply Forall_app. auto.
  - do 2 (case_match; [done|]). intros Hl Hd. eapply IH; [exact Hl|].
    apply Forall_app. split; [done|]. constructor; [|done]. by eapply zap_Replace_zapped.
Qed.

Lemma edit_loop_keep decide n s i :
  store_ok s -> Forall (fun b => decide (field_from_bytes b) = Keep) (view s) -> edit_loop decide n s i = Ok s.
Proof.
  intros Hs Hk. revert i. induction n as [|n IH]; intros i; [done|]. simpl. rewrite field_view by done.
  destruct (view s !! i) as [b|] eqn:Hb; [|done]. simpl. rewrite Forall_lookup in Hk. by rewrite (Hk _ _ Hb).
Qed.

(** ** Duplicates *)

Lemma select_fmap {A B} (f : A -> B) mask l : f <$> select mask l = select mask (f <$> l).
Proof.
  revert l. induction mask as [|keep mask IH]; intros [|x l]; try done. csimpl. destruct keep; csimpl; by rewrite IH.
Qed.

Lemma select_complement {A} mask (l : list A) :
  length mask = length l -> select mask l ++ select (negb <$> mask) l ≡ₚ l.
Proof.
  revert l. induction mask as [|keep mask IH]; intros [|x l] Hl; try done. injection Hl as Hl.
  csimpl. destruct keep; simpl; rewrite <-(IH l Hl) at 3; [done|]. by rewrite Permutation_middle.
Qed.

Lemma elem_of_select {A} mask (l : list A) x : x ∈ select mask l -> x ∈ l.
Proof.
  revert l. induction mask as [|keep mask IH]; intros [|y l]; simpl; try by intros ?%not_elem_of_nil.
  destruct keep; intros Hx; [|constructor; by apply IH].
  apply elem_of_cons in Hx as [->|Hx]; [constructor|constructor; by apply IH].
Qed.

Lemma retain_mask_ok s mask :
  store_ok s -> length mask = length (fields s) ->
  store_ok (retain_mask mask s) /\ view (retain_mask mask s) = select mask (view s) /\
  ceiling (retain_mask mask s) = ceiling s.
Proof.
  intros [(t & Hp & Ht) Hn Hsep Hsz] Hlen. unfold retain_mask.
  edestruct coalesce_free_ok as (H1 & H2 & H3 & H4); [| | |split; [exact H1|split; [|exact H4]]].
  - simpl. exists t. split; [|done]. rewrite <-Hp.
    rewrite <-(select_complement mask (fields s) Hlen) at 3. rewrite fmap_app. solve_Permutation.
  - simpl. rewrite Forall_forall in *. intros f Hf%elem_of_select. auto.
  - done.
  - rewrite H2. unfold view. simpl. apply select_fmap.
Qed.

Lemma length_unique_mask pattern seen fs : length (unique_mask pattern seen fs) = length fs.
Proof. revert seen. induction fs as [|f fs IH]; intros seen; simpl; [done|]. repeat case_match; simpl; by rewrite IH. Qed.

Lemma fields_view s : store_ok s -> field_of (arena s) <$> fields s = field_from_bytes <$> view s.
Proof.
  intros Hs. apply list_eq. intros i. rewrite list_lookup_fmap. fold (field s i).
  rewrite field_view by done. by rewrite list_lookup_fmap.
Qed.

(** Two fields that [make_unique_first] and [make_unique_last] identify. *)
Definition same_name (pattern : bytes) (f g : Field) : bool :=
  field_matches_pattern f pattern && field_matches_pattern g pattern && bytes_eqb (name_key f) (name_key g).

(** The field at [i] is kept when no field before it has its name. *)
Definition first_of_name (pattern : bytes) (fs : list Field) (i : nat) (f : Field) : bool :=
  negb (existsb (same_name pattern f) (take i fs)).
Definition last_of_name (pattern : bytes) (fs : list Field) (i : nat) (f : Field) : bool :=
  negb (existsb (same_name pattern f) (drop (S i) fs)).

Lemma unique_mask_spec pattern seen pre fs :
  (forall f, field_matches_pattern f pattern = true ->
     existsb (fun k => bytes_eqb k (name_key f)) seen = existsb (same_name pattern f) pre) ->
  unique_mask pattern seen fs = imap (fun i f => negb (existsb (same_name pattern f) (pre ++ take i fs))) fs.
Proof.
  revert seen pre. induction fs as [|f fs IH]; intros seen pre Hseen; [done|].
  simpl. rewrite app_nil_r.
  rewrite (imap_ext _ (fun i g => negb (existsb (same_name pattern g) ((pre ++ [f]) ++ take i fs))))
    by (intros; by rewrite <-app_assoc).
  assert (forall (x : bool) g, existsb (same_name pattern g) (pre ++ [f]) = existsb (same_name pattern g) pre || same_name pattern g f) as Hsn.
  { intros _ g. rewrite existsb_app. simpl. by rewrite orb_false_r. }
  destruct (field_matches_pattern f pattern) eqn:Hf.
  - rewrite Hseen by done. destruct (existsb (same_name pattern f) pre) eqn:Hx; simpl; f_equal; apply IH; intros g Hg; rewrite (Hsn true).
    + rewrite Hseen by done. destruct (same_name pattern g f) eqn:Hgf; [|by rewrite orb_false_r].
      rewrite orb_true_r. apply existsb_exists in Hx as (h & Hh & Hfh). apply existsb_exists. exists h. split; [done|].
      unfold same_name in *. rewrite !andb_true_iff, !bytes_eqb_true in *. naive_solver congruence.
    + rewrite existsb_app, Hseen by done. f_equal. simpl. unfold same_name. rewrite Hg, Hf, orb_false_r. simpl.
      apply bool_decide_ext. done.
  - assert (existsb (same_name pattern f) pre = false) as ->.
    { apply not_true_iff_false. intros (h & _ & Hh)%existsb_exists. unfold same_name in Hh. by rewrite Hf in Hh. }
    simpl. f_equal. apply IH. intros g Hg. rewrite Hseen, (Hsn true) by done.
    unfold same_name at 3. by rewrite Hf, andb_false_r, orb_false_r.
Qed.

Lemma unique_mask_first pattern fs : unique_mask pattern [] fs = imap (first_of_name pattern fs) fs.
Proof. by apply (unique_mask_spec pattern [] []). Qed.

Lemma last_indices_select pattern seen l :
  last_indices pattern seen l = select (unique_mask pattern seen (snd <$> l)) (fst <$> l).
Proof.
  revert seen. induction l as [|[i f] l IH]; intros seen; [done|]. csimpl.
  repeat case_match; simpl; by rewrite IH.
Qed.

Lemma elem_of_select_nodup {A} mask (l : list A) i x :
  NoDup l -> l !! i = Some x -> x ∈ select mask l <-> mask !! i = Some true.
Proof.
  revert mask i. induction l as [|y l IH]; intros mask i Hnd Hx; [done|]. apply NoDup_cons in Hnd as [Hy Hnd].
  destruct mask as [|keep mask]; [split; [by intros ?%not_elem_of_nil|done]|].
  destruct i as [|i]; simpl in *.
  - injection Hx as ->. destruct keep; [split; [done|constructor]|].
    split; [|done]. by intros ?%elem_of_select.
  - rewrite <-(IH mask i Hnd Hx). destruct keep; [|done]. rewrite elem_of_cons. split; [|by right].
    intros [->|?]; [|done]. by apply list_elem_of_lookup_2 in Hx.
Qed.

Lemma last_mask_spec pattern fs :
  (fun idx => bool_decide (idx ∈ last_indices pattern [] (reverse (imap pair fs)))) <$> seq 0 (length fs)
  = imap (last_of_name pattern fs) fs.
Proof.
  apply list_eq. intros i. rewrite list_lookup_fmap, list_lookup_imap.
  destruct (fs !! i) as [f|] eqn:Hf; simpl.
  2: { apply lookup_ge_None in Hf. by rewrite lookup_seq_ge. }
  pose proof (lookup_lt_Some _ _ _ Hf) as Hi. rewrite lookup_seq_lt by done. simpl. f_equal.
  rewrite last_indices_select, unique_mask_first, !fmap_reverse, !fmap_imap.
  assert (imap (fun n : nat => snd ∘ pair n) fs = fs) as ->.
  { apply list_eq. intros j. rewrite list_lookup_imap. by destruct (fs !! j). }
  assert (imap (fun n : nat => fst ∘ pair n) fs = seq 0 (length fs)) as ->.
  { apply list_eq. intros j. rewrite list_lookup_imap. destruct (fs !! j) eqn:Hj; simpl.
    - apply lookup_lt_Some in Hj. by rewrite lookup_seq_lt.
    - apply lookup_ge_None in Hj. by rewrite lookup_seq_ge. }
  set (j := (length fs - 1 - i)%nat).
  assert (reverse (seq 0 (length fs)) !! j = Some i) as Hj.
  { rewrite reverse_lookup by (rewrite length_seq; unfold j; lia). rewrite length_seq, lookup_seq_lt by (unfold j; lia).
    f_equal. unfold j. lia. }
  assert (NoDup (reverse (seq 0 (length fs)))) as Hnd by (rewrite reverse_Permutation; apply NoDup_seq).
  apply eq_true_iff_eq. rewrite bool_decide_eq_true, (elem_of_select_nodup _ _ _ _ Hnd Hj).
  rewrite list_lookup_imap, reverse_lookup by (unfold j; lia).
  replace (length fs - S j)%nat with i by (unfold j; lia). rewrite Hf. simpl.
  unfold first_of_name, last_of_name.
  replace (take j (reverse fs)) with (reverse (drop (S i) fs)).
  - assert (forall l, existsb (same_name pattern f) (reverse l) = existsb (same_name pattern f) l) as ->; [|split; congruence].
    intros l. apply eq_true_iff_eq. rewrite !existsb_exists. setoid_rewrite <-list_elem_of_In.
    by setoid_rewrite elem_of_reverse.
  - rewrite <-(take_drop (S i) fs) at 2. rewrite reverse_app, take_app_le, take_ge; try done;
      rewrite length_reverse, length_drop; unfold j; lia.
Qed.

Lemma rename_length b from to r :
  rename_field_pattern (field_from_bytes b) from to = Some r -> (length r <= length to + length b)%nat.
Proof.
  unfold rename_field_pattern. intros (name & Hn & (nm & Hm & Hr)%bind_Some)%bind_Some.
  injection Hr as <-. apply length_field_from_bytes_name in Hn as [Hn _].
  assert (length (default to (strip_suffix to [c_COLON])) <= length to)%nat as Hd.
  { destruct (strip_suffix to [c_COLON]) as [l|] eqn:Hs; simpl; [|lia].
    apply strip_suffix_Some in Hs as ->. rewrite length_app. lia. }
  assert (length nm <= length to + length name)%nat.
  { repeat case_match; try done; injection Hm as <-; rewrite ?length_app, ?length_drop; lia. }
  rewrite length_app, length_drop. cbn [f_bytes field_from_bytes]. lia.
Qed.
End ops.

(** Renaming, prefixing and zapping walk the fields as the loop on byte
    lists does: each field is kept, dropped or replaced by what its own bytes
    determine, and the loop fails exactly when the header with the replacement
    exceeds the ceiling (or a replacement is empty), with that error. *)
Theorem edit_loops_refine {T : Target} s l c from to pattern prefix :
  implements s l c ->
  (forall b, b ∈ l -> c + len to + len prefix + len b + 2 <= usize_max) ->
  refines_edit (rename_edit from to) l c (rename_matching_pattern s from to) /\
  refines_edit (prepend_edit pattern prefix) l c (prepend_prefix_to_matching s pattern prefix) /\
  refines_edit zap_edit l c (zap_whitespace s).
Proof.
  intros Hi Hu. split_and!; apply edit_loop_refines; try done; intros b r Hb Hr; specialize (Hu b Hb).
  - unfold rename_edit in Hr. destruct (field_matches_pattern _ _); [|done].
    destruct (rename_field_pattern _ _ _) as [r'|] eqn:Hn; [|done]. apply rename_length in Hn.
    destruct (bytes_eqb _ _); [done|]. injection Hr as <-. lia.
  - unfold prepend_edit in Hr. case_match; [|done]. injection Hr as <-. rewrite length_app. cbn [f_bytes field_from_bytes]. lia.
  - apply zap_edit_Replace in Hr as (name & x & after & _ & -> & -> & _). rewrite !length_app in *. simpl in *. lia.
Qed.

(** [concatenate_continued] always succeeds, whatever the free space:
    it unfolds every field but the [From ] line in place. *)
Theorem concatenate_continued_total {T : Target} s l c :
  implements s l c -> c + c <= usize_max ->
  exists s', concatenate_continued s = Ok s' /\ implements s' (concatenated <$> l) c.
Proof.
  intros Hi Hu. pose proof Hi as (Hs & Hv & _ & Ha). pose proof (live_size_le s Hs) as Hl. unfold live_size in Hl. rewrite Hv in Hl.
  assert (refines_edit concatenate_edit l c (concatenate_continued s)) as Hr.
  { apply edit_loop_refines; [done|]. intros b r Hb He. pose proof (concatenate_edit_ref b) as Hc. rewrite He in Hc.
    destruct Hc as (_ & Hc & _). apply list_elem_of_split in Hb as (l1 & l2 & ->).
    rewrite concat_app, length_app in Hl. simpl in Hl. rewrite length_app in Hl. lia. }
  assert (edit_ref concatenate_edit c [] l = Ok (concatenated <$> l)) as He.
  { apply (edit_ref_concatenate c [] l); [simpl; lia|]. rewrite <-Hv. by apply view_nonempty. }
  destruct (concatenate_continued s) as [s'|e]; simpl in Hr; [|congruence].
  destruct Hr as (l' & Hl' & ?). exists s'. split; [done|]. congruence.
Qed.

(** After [zap_whitespace] no field has a value of one blank, and every
    named field's value starts with a blank or is empty: the operation has
    reached its normal form, and running it again changes nothing. *)
Theorem zap_whitespace_normal {T : Target} s l c s' :
  implements s l c -> (forall b, b ∈ l -> c + len b + 2 <= usize_max) ->
  zap_whitespace s = Ok s' ->
  Forall zapped (view s') /\ zap_whitespace s' = Ok s'.
Proof.
  intros Hi Hu Hz.
  assert (refines_edit zap_edit l c (zap_whitespace s)) as Hr.
  { apply edit_loop_refines; [done|]. intros b r Hb Hr. specialize (Hu b Hb).
    apply zap_edit_Replace in Hr as (name & x & after & _ & -> & -> & _). rewrite !length_app in *. simpl in *. lia. }
  rewrite Hz in Hr. destruct Hr as (l' & Hl' & Hs' & Hv & _). rewrite Hv.
  apply edit_ref_zapped in Hl'; [|done]. split; [done|]. apply edit_loop_keep; [done|]. by rewrite Hv.
Qed.

(** [make_unique_first] and [make_unique_last] keep, of the fields
    that match the pattern and have the same name, the first and the last;
    every other field stays, in order. *)
Theorem make_unique_spec {T : Target} s pattern :
  store_ok s ->
  let fs := field_from_bytes <$> view s in
  store_ok (make_unique_first s pattern) /\ store_ok (make_unique_last s pattern) /\
  view (make_unique_first s pattern) = select (imap (first_of_name pattern fs) fs) (view s) /\
  view (make_unique_last s pattern) = select (imap (last_of_name pattern fs) fs) (view s).
Proof.
  intros Hs fs. unfold make_unique_first, make_unique_last. rewrite fields_view by done. fold fs.
  replace (length (fields s)) with (length fs) by (unfold fs, view; by rewrite !length_fmap).
  rewrite unique_mask_first, last_mask_spec.
  destruct (retain_mask_ok s (imap (first_of_name pattern fs) fs) Hs) as (? & ? & _);
    [rewrite length_imap; unfold fs, view; by rewrite !length_fmap|].
  destruct (retain_mask_ok s (imap (last_of_name pattern fs) fs) Hs) as (? & ? & _);
    [rewrite length_imap; unfold fs, view; by rewrite !length_fmap|].
  done.
Qed.

(** Witness stores: the constructor at a concrete list of fields. *)
Definition build_store (l : list bytes) (c : Z) : HeaderStore :=
  match store_new (T := target64) (field_from_bytes <$> l) c with
  | Ok s => s
  | Err _ => {| arena := []; fields := []; free := []; ceiling := c |}
  end.

Lemma build_store_ok l c :
  0 <= c <= 2 ^ 32 -> Forall (fun b => b <> []) l -> is_ok (store_new (T := target64) (field_from_bytes <$> l) c) = true ->
  implements (T := target64) (build_store l c) l c.
Proof.
  intros Hc Hne Hok. unfold build_store.
  pose proof (store_new_ok (T := target64) (field_from_bytes <$> l) c) as H.
  destruct (store_new _ c) as [s|e]; [|done]. destruct H as (? & Hv & ? & ?); [lia|change usize_max with (2 ^ 64 - 1); lia| |].
  { apply Forall_fmap. done. }
  unfold implements. split_and!; auto; [|congruence]. rewrite Hv, <-list_fmap_compose. apply list_fmap_id.
Qed.

Definition folded_fields : list bytes := [B "From x" ++ [10]; B "A:1" ++ [10] ++ B " 2" ++ [10]; B "B: " ++ [10]; B "a: 3" ++ [10]].

Lemma folded_store_ok : implements (T := target64) (build_store folded_fields 60) folded_fields 60.
Proof. apply build_store_ok; [lia|repeat constructor; done|reflexivity]. Qed.

Lemma folded_bound b : b ∈ folded_fields -> len b <= 20.
Proof. revert b. apply Forall_forall. repeat constructor; vm_compute; discriminate. Qed.

Lemma edit_loops_refine_witness :
  exists s', rename_matching_pattern (T := target64) (build_store folded_fields 60) (B "A:") (B "Old-A:") = Ok s' /\
    view s' = [B "From x" ++ [10]; B "Old-A:1" ++ [10] ++ B " 2" ++ [10]; B "B: " ++ [10]; B "Old-A: 3" ++ [10]].
Proof.
  pose proof (edit_loops_refine (T := target64) _ _ _ (B "A:") (B "Old-A:") [] [] folded_store_ok) as [H _].
  { intros b Hb. pose proof (folded_bound b Hb).
    change usize_max with (2 ^ 64 - 1). change (len (B "Old-A:")) with 6. change (len []) with 0. lia. }
  destruct (rename_matching_pattern _ _ _) as [s'|e] eqn:He; [|vm_compute in He; discriminate].
  exists s'. split; [done|]. destruct H as (l' & Hl & _ & -> & _). vm_compute in Hl. injection Hl as <-. reflexivity.
Defined.

Lemma concatenate_continued_total_witness :
  exists s', concatenate_continued (T := target64) (build_store folded_fields 60) = Ok s' /\
    view s' = [B "From x" ++ [10]; B "A:1  2" ++ [10]; B "B: " ++ [10]; B "a: 3" ++ [10]].
Proof.
  destruct (concatenate_continued_total (T := target64) _ _ _ folded_store_ok) as (s' & Hs & _ & Hv & _);
    [vm_compute; discriminate|]. exists s'. split; [exact Hs|]. rewrite Hv. reflexivity.
Defined.

Lemma zap_whitespace_normal_witness :
  exists s', zap_whitespace (T := target64) (build_store folded_fields 60) = Ok s' /\
    view s' = [B "From x" ++ [10]; B "A: 1" ++ [10] ++ B " 2" ++ [10]; B "a: 3" ++ [10]] /\ Forall zapped (view s').
Proof.
  destruct (zap_whitespace (T := target64) (build_store folded_fields 60)) as [s'|e] eqn:Hz; [|vm_compute in Hz; discriminate].
  exists s'. split; [done|]. split.
  - assert (view s' = match zap_whitespace (T := target64) (build_store folded_fields 60) with Ok s => view s | Err _ => [] end)
      as -> by by rewrite Hz. vm_compute. reflexivity.
  - apply (zap_whitespace_normal (T := target64) _ _ _ _ folded_store_ok); [|exact Hz].
    intros b Hb. pose proof (folded_bound b Hb).
    change usize_max with (2 ^ 64 - 1). lia.
Defined.

Lemma make_unique_spec_witness :
  store_ok (T := target64) (build_store folded_fields 60) /\
  view (make_unique_first (build_store folded_fields 60) (B "A:")) =
    [B "From x" ++ [10]; B "A:1" ++ [10] ++ B " 2" ++ [10]; B "B: " ++ [10]] /\
  view (make_unique_last (build_store folded_fields 60) (B "A:")) =
    [B "From x" ++ [10]; B "B: " ++ [10]; B "a: 3" ++ [10]].
Proof.
  pose proof folded_store_ok as (Hs & Hv & _). split; [exact Hs|].
  destruct (make_unique_spec (T := target64) _ (B "A:") Hs) as (_ & _ & H1 & H2).
  rewrite H1, H2, Hv. split; vm_compute; reflexivity.
Defined.
