(* ===== verification/EditedHeader.v ===== *)
(** The editable header: [EditedHeader] of [src/src/header_edit/storage.rs],
    a copy-on-write handle on a header arena with its separator, its
    lazily serialized bytes and the validation of the exact output.

    The handle's [Arc] is modelled by its storage and by [shared], whether
    another handle holds the same storage: [Arc::make_mut] copies (and drops
    the caches) exactly when it does, [Arc::get_mut] answers exactly when it
    does not.  A [OnceLock] is an option; the functions that fill one return
    the handle with it. *)
From S2P Require Import Prelude Config Limits HeaderValue HeaderFields HeaderStore HeaderStoreFacts HeaderStoreRefine HeaderStoreOps.

(** * Data *)

(** Source: header_edit/storage.rs `pub(super) struct HeaderStorage` *)
Record HeaderStorage := {
  store : HeaderStore; separator : bytes; line_ending : bytes; size : nat;
  status : MessageStatus; raw_cache : option bytes; matching_cache : option (option bytes);
}.

(** Source: header_edit/storage.rs `pub struct EditedHeader` *)
Record EditedHeader := { storage : HeaderStorage; shared : bool; limits : MessageLimits }.

(** The [Clone] of the storage: everything but the caches.
    Source: header_edit/storage.rs `fn clone(&self) -> Self` *)
Definition storage_clone (s : HeaderStorage) : HeaderStorage := {|
  store := store s; separator := separator s; line_ending := line_ending s; size := size s;
  status := status s; raw_cache := None; matching_cache := None |}.

Definition with_storage (h : EditedHeader) (s : HeaderStorage) : EditedHeader :=
  {| storage := s; shared := shared h; limits := limits h |}.

(** [Arc::make_mut], after which the handle is the only one. *)
Definition make_mut (h : EditedHeader) : EditedHeader :=
  if shared h then {| storage := storage_clone (storage h); shared := false; limits := limits h |} else h.

(** [if let Some(storage) = Arc::get_mut(..)] with the given update. *)
Definition get_mut (f : HeaderStorage -> HeaderStorage) (h : EditedHeader) : EditedHeader :=
  if shared h then h else with_storage h (f (storage h)).

(** The [clone] of a handle, taken from the handle it is a clone of: both
    share the storage from then on. *)
Definition clone_handle (h : EditedHeader) : EditedHeader :=
  {| storage := storage h; shared := true; limits := limits h |}.

Definition set_store (st : HeaderStore) (s : HeaderStorage) : HeaderStorage := {|
  store := st; separator := separator s; line_ending := line_ending s; size := size s;
  status := status s; raw_cache := raw_cache s; matching_cache := matching_cache s |}.
Definition set_size (n : nat) (s : HeaderStorage) : HeaderStorage := {|
  store := store s; separator := separator s; line_ending := line_ending s; size := n;
  status := status s; raw_cache := raw_cache s; matching_cache := matching_cache s |}.
Definition set_line_ending (e : bytes) (s : HeaderStorage) : HeaderStorage := {|
  store := store s; separator := separator s; line_ending := e; size := size s;
  status := status s; raw_cache := raw_cache s; matching_cache := matching_cache s |}.

(** * Serialization *)

(** Source: header_edit/storage.rs `pub(super) fn joining_line_ending` *)
Definition joining_line_ending (previous preferred : bytes) : bytes :=
  if ends_with previous [c_CR] && bytes_eqb preferred [c_LF] then [c_CR; c_LF] else preferred.

(** The delimiter before a field that follows [previous]. *)
Definition join_before (previous : option bytes) (line_ending : bytes) : bytes :=
  match previous with
  | Some p => if negb (ends_with p [c_LF]) then joining_line_ending p line_ending else []
  | None => []
  end.

Definition stored_bytes (s : HeaderStore) (index : nat) : bytes := default [] (f_bytes <$> field s index).

(** Source: header_edit/storage.rs `pub(super) fn header_parts` *)
Definition header_parts (fs : HeaderStore) (separator line_ending : bytes) : list bytes :=
  (index ← seq 0 (length (fields fs));
   let join := if (0 <? index)%nat && negb (ends_with (stored_bytes fs (index - 1)) [c_LF])
               then joining_line_ending (stored_bytes fs (index - 1)) line_ending else [] in
   [join; stored_bytes fs index]) ++ [separator].

(** Source: header_edit/storage.rs `pub(super) fn parts` *)
Definition parts (h : EditedHeader) : list bytes :=
  header_parts (store (storage h)) (separator (storage h)) (line_ending (storage h)).

(** Source: header_edit/storage.rs `pub fn as_bytes` *)
Definition as_bytes (h : EditedHeader) : bytes * EditedHeader :=
  match raw_cache (storage h) with
  | Some b => (b, h)
  | None =>
      let b := concat (parts h) in
      (b, with_storage h {| store := store (storage h); separator := separator (storage h);
        line_ending := line_ending (storage h); size := size (storage h); status := status (storage h);
        raw_cache := Some b; matching_cache := matching_cache (storage h) |})
  end.

(** Source: header_edit/storage.rs `pub fn normalized` *)
Definition normalized (h : EditedHeader) : option bytes * EditedHeader :=
  match matching_cache (storage h) with
  | Some m => (m, h)
  | None =>
      let '(b, h) := as_bytes h in
      let m := normalize_folded_header b in
      (m, with_storage h {| store := store (storage h); separator := separator (storage h);
        line_ending := line_ending (storage h); size := size (storage h); status := status (storage h);
        raw_cache := raw_cache (storage h); matching_cache := Some m |})
  end.

(** Source: header_edit/storage.rs `pub fn matching_header` *)
Definition matching_header (h : EditedHeader) : bytes * EditedHeader :=
  let '(m, h) := normalized h in
  match m with Some b => (b, h) | None => as_bytes h end.

(** Source: header_edit/storage.rs `pub fn into_streaming_bytes` *)
Definition into_streaming_bytes (h : EditedHeader) : bytes :=
  if shared h then (as_bytes h).1
  else match raw_cache (storage h) with Some b => b | None => concat (parts h) end.

(** * Validation *)

Section validate.
Context {T : Target}.

(** Source: header_edit/storage.rs `pub(super) fn serialized_size` *)
Definition serialized_size (fs : HeaderStore) (separator line_ending : bytes) : result HeaderEditError nat :=
  foldl (fun size part => size ← size; add_size size (length part)) (Ok 0%nat) (header_parts fs separator line_ending).

(** Source: header_edit/storage.rs `pub(super) fn validate_aggregate_size` *)
Definition validate_aggregate_size (fs : HeaderStore) (separator line_ending : bytes) (body_len : nat)
    (limits : MessageLimits) : result HeaderEditError unit :=
  headers ← serialized_size fs separator line_ending;
  _ ← check_limit (Z.of_nat headers) (headers_size limits) ML_Headers;
  message ← add_size headers body_len;
  check_limit (Z.of_nat message) (message_size limits) ML_Message.

Definition is_continuation (first : option byte) : bool :=
  match first with Some b => is_blank b | None => false end.

(** Source: header_edit/storage.rs `pub(super) fn validate_field_line` *)
Definition validate_field_line (first : option byte) (line_size field_size : nat) (limits : MessageLimits)
    : result HeaderEditError nat :=
  field_size ← if is_continuation first then add_size field_size line_size else Ok line_size;
  _ ← check_limit (Z.of_nat field_size) (header_field_size limits) ML_HeaderField;
  Ok field_size.

(** The byte loop of [validate_header_parts] with its three variables. *)
Fixpoint validate_bytes (l : bytes) (line_size : nat) (first : option byte) (field_size : nat) (limits : MessageLimits)
    : result HeaderEditError unit :=
  match l with
  | [] => if (line_size =? 0)%nat then Ok ()
          else _ ← validate_field_line first line_size field_size limits; Ok ()
  | byte :: l' =>
      let first := if (line_size =? 0)%nat then Some byte else first in
      line_size ← add_size line_size 1;
      _ ← check_limit (Z.of_nat line_size) (header_line_size limits) ML_HeaderLine;
      if byte =? c_LF then
        if (line_size =? 1)%nat || ((line_size =? 2)%nat && bool_decide (first = Some c_CR)) then Ok ()
        else field_size ← validate_field_line first line_size field_size limits;
             validate_bytes l' 0 first field_size limits
      else validate_bytes l' line_size first field_size limits
  end.

(** Source: header_edit/storage.rs `pub(super) fn validate_header_parts` *)
Definition validate_header_parts (parts : list bytes) (size body_len : nat) (limits : MessageLimits)
    : result HeaderEditError unit :=
  _ ← check_limit (Z.of_nat size) (headers_size limits) ML_Headers;
  message ← add_size size body_len;
  _ ← check_limit (Z.of_nat message) (message_size limits) ML_Message;
  validate_bytes (concat parts) 0 None 0 limits.

(** Source: header_edit/storage.rs `pub fn validate(&self` *)
Definition validate (h : EditedHeader) (body_len : nat) (limits : MessageLimits) : result HeaderEditError unit :=
  validate_header_parts (parts h) (size (storage h)) body_len limits.

(** * Construction and edits *)

(** [EditedHeader::new] on an indexed header, a handle on the same storage. *)
Definition new_indexed (h : EditedHeader) (l : MessageLimits) : EditedHeader :=
  {| storage := storage h; shared := true; limits := l |}.

(** Source: header_edit/storage.rs `pub fn new<'a>(` *)
Definition new_raw (b : bytes) (l : MessageLimits) : result HeaderEditError EditedHeader :=
  let '(fs, sep, le) := split_fields b in
  st ← store_new fs (Z.max (headers_size l) (len b));
  Ok {| storage := {| store := st; separator := sep; line_ending := le; size := length b;
                      status := status_NONE; raw_cache := None; matching_cache := None |};
        shared := false; limits := l |}.

(** Source: header_edit/storage.rs `pub(super) fn store_mut` *)
Definition store_mut (h : EditedHeader) : EditedHeader :=
  let ceiling := Z.max (Z.of_nat (size (storage h))) (headers_size (limits h)) in
  let h := make_mut h in
  let s := store (storage h) in
  with_storage h (set_store {| arena := arena s; fields := fields s; free := free s; ceiling := ceiling |} (storage h)).

(** An edit of the store that [store_mut] lends. *)
Definition edit_store (f : HeaderStore -> result HeaderEditError HeaderStore) (h : EditedHeader)
    : result HeaderEditError EditedHeader :=
  let h := store_mut h in
  s ← f (store (storage h));
  Ok (with_storage h (set_store s (storage h))).

Definition field_indices (h : EditedHeader) : list nat := seq 0 (length (fields (store (storage h)))).

(** Source: header_edit/storage.rs `pub fn remove_matching(&mut self, name: &str)` *)
Definition header_remove_matching (h : EditedHeader) (name : bytes) : result HeaderEditError EditedHeader :=
  if existsb (fun index => matches (store (storage h)) index name) (field_indices h)
  then edit_store (fun s => Ok (remove_matching s name)) h else Ok h.

(** Source: header_edit/storage.rs `pub fn add_raw_field` *)
Definition add_raw_field (h : EditedHeader) (raw : bytes) : result HeaderEditError EditedHeader :=
  let b := if ends_with raw [c_LF] then raw else raw ++ line_ending (storage h) in
  let pos := length (fields (store (storage h))) in
  edit_store (fun s => insert s pos b) h.

(** The public mutators that pass their arguments to the store:
    Source: header_edit/storage.rs `pub fn remove_matching_pattern`..`pub fn make_unique_last` *)
Inductive header_edit :=
| RemoveMatchingPattern (pattern : bytes)
| RenameMatchingPattern (from_pattern to_pattern : bytes)
| PrependPrefixToMatching (pattern prefix : bytes)
| MakeUniqueFirst (pattern : bytes)
| MakeUniqueLast (pattern : bytes)
| ConcatenateContinued
| ZapWhitespace.

Definition store_edit (e : header_edit) (s : HeaderStore) : result HeaderEditError HeaderStore :=
  match e with
  | RemoveMatchingPattern pattern => Ok (remove_matching_pattern s pattern)
  | RenameMatchingPattern from_pattern to_pattern => rename_matching_pattern s from_pattern to_pattern
  | PrependPrefixToMatching pattern prefix => prepend_prefix_to_matching s pattern prefix
  | MakeUniqueFirst pattern => Ok (make_unique_first s pattern)
  | MakeUniqueLast pattern => Ok (make_unique_last s pattern)
  | ConcatenateContinued => concatenate_continued s
  | ZapWhitespace => zap_whitespace s
  end.

(** Source: header_edit/storage.rs `pub(super) fn set_status` *)
Definition set_status (h : EditedHeader) (st : MessageStatus) : EditedHeader :=
  if bool_decide (status (storage h) = st) then h
  else let h := make_mut h in
       with_storage h {| store := store (storage h); separator := separator (storage h);
         line_ending := line_ending (storage h); size := size (storage h); status := st;
         raw_cache := raw_cache (storage h); matching_cache := matching_cache (storage h) |}.

Definition needs_reindex (s : HeaderStore) : bool :=
  existsb (fun index => starts_blank (stored_bytes s index) || negb (ends_with (stored_bytes s (index - 1)) [c_LF]))
    (seq 1 (length (fields s) - 1)).

(** Source: header_edit/storage.rs `pub fn finish` *)
Definition finish (h : EditedHeader) (body_len : nat) : result HeaderEditError EditedHeader :=
  size ← serialized_size (store (storage h)) (separator (storage h)) (line_ending (storage h));
  let h := get_mut (set_size size) h in
  _ ← validate h body_len (limits h);
  h ← (if needs_reindex (store (storage h)) then
         let st := status (storage h) in
         let '(b, h) := as_bytes h in
         let '(fs, sep, le) := split_fields b in
         s ← store_new fs (headers_size (limits h));
         Ok {| storage := {| store := s; separator := sep; line_ending := le; size := size;
                             status := st; raw_cache := None; matching_cache := None |};
               shared := false; limits := limits h |}
       else Ok h);
  let line_ending := preferred_line_ending (parts h) in
  Ok (get_mut (set_line_ending line_ending) h).
End validate.

(** * Extraction *)

(** Source: header_edit/storage.rs `pub fn extract_fields` *)
Definition extract_fields (h : EditedHeader) (pattern : bytes) (include_name concatenate zap : bool) : list bytes :=
  i ← field_indices h;
  match field (store (storage h)) i with
  | None => []
  | Some f =>
      if field_matches_pattern f pattern then
        let b := if include_name then (if concatenate then unfold_field_bytes (f_bytes f) else f_bytes f)
                 else let val := default [] (field_value f) in
                      if concatenate then unfold_field_bytes val else val in
        [if zap && negb include_name then
           let stripped := strip_line_ending b in
           let start := default (length stripped) (position (fun b => negb (b =? c_SP) && negb (b =? c_TAB)) stripped) in
           let end_ := match rposition (fun b => negb (b =? c_SP) && negb (b =? c_TAB)) stripped with
                       | Some idx => S idx | None => O end in
           if (start <? end_)%nat then slice start end_ stripped ++ [c_LF] else [c_LF]
         else if negb (ends_with b [c_LF]) then b ++ [c_LF] else b]
      else []
  end.

(** * What validation checks *)

(** The lines of a header section, newlines included, up to and including its
    empty line. *)
Fixpoint header_lines (fuel : nat) (l : bytes) : list bytes :=
  match fuel, l with
  | S fuel', _ :: _ =>
      let '(line, rest) := take_line l in
      if is_blank_line line then [line] else line :: header_lines fuel' rest
  | _, _ => []
  end.

(** Grouping lines into fields: a line that starts with a blank belongs to
    the field before it. *)
Definition add_line (groups : list bytes) (line : bytes) : list bytes :=
  match last groups with
  | Some g => if starts_blank line then take (length groups - 1) groups ++ [g ++ line] else groups ++ [line]
  | None => [line]
  end.

Definition field_texts (lines : list bytes) : list bytes :=
  foldl add_line [] (filter (fun line => is_blank_line line = false) lines).

(** The limits on lines and on folded fields, for the bytes of a header. *)
Definition within_limits (limits : MessageLimits) (l : bytes) : Prop :=
  Forall (fun line => len line <= header_line_size limits) (header_lines (length l) l) /\
  Forall (fun text => len text <= header_field_size limits) (field_texts (header_lines (length l) l)).

Section validation.
Context {T : Target} (limits : MessageLimits).
Context (Hline : header_line_size limits <= usize_max) (Hfield : header_field_size limits <= usize_max).

Abbreviation line_fits line := (len line <= header_line_size limits).
Abbreviation text_fits text := (len text <= header_field_size limits).

Lemma is_ok_bind {E A C} (m : result E A) (f : A -> result E C) :
  is_ok (m ≫= f) = true <-> exists a, m = Ok a /\ is_ok (f a) = true.
Proof. destruct m; simpl; split; [eauto|by intros (? & [= <-] & ?)|done|by intros (? & ? & _)]. Qed.

Lemma check_limit_Ok n l k : check_limit n l k = Ok () <-> n <= l.
Proof. unfold check_limit. destruct (Z.ltb_spec l n); split; (done || lia). Qed.

Lemma add_size_Ok a b n : add_size a b = Ok n <-> n = (a + b)%nat /\ Z.of_nat (a + b) <= usize_max.
Proof.
  destruct (Z.leb_spec (Z.of_nat (a + b)) usize_max) as [H|H].
  - rewrite (add_size_ok _ _ _ eq_refl) by done. split; [by intros [= <-]|by intros [-> _]].
  - rewrite add_size_err by done. split; [done|lia].
Qed.

(** Reading the bytes of a line that are not newlines. *)
Lemma validate_bytes_run pre l k first fs :
  no_lf pre -> pre <> [] \/ k <> 0%nat ->
  is_ok (validate_bytes (pre ++ l) k first fs limits) = true <->
  (pre = [] \/ Z.of_nat (k + length pre) <= header_line_size limits) /\
  is_ok (validate_bytes l (k + length pre) (if (k =? 0)%nat then head pre else first) fs limits) = true.
Proof.
  intros Hp. revert k first. induction Hp as [|b pre Hb Hp IH]; intros k first Hne.
  { destruct Hne as [?|Hk]; [done|]. rewrite Nat.add_0_r, (proj2 (Nat.eqb_neq _ _) Hk). naive_solver. }
  cbn [app validate_bytes]. rewrite is_ok_bind. setoid_rewrite is_ok_bind. rewrite Hb.
  cbn [length head].
  transitivity (Z.of_nat (S k) <= header_line_size limits /\
    (pre = [] \/ Z.of_nat (S k + length pre) <= header_line_size limits) /\
    is_ok (validate_bytes l (S k + length pre) (if (k =? 0)%nat then Some b else first) fs limits) = true).
  - split.
    + intros (n & [-> Hn]%add_size_Ok & [] & Hc%check_limit_Ok & H). rewrite Nat.add_1_r in *.
      apply IH in H; [done|by right].
    + intros (H1 & H2). exists (S k). split; [apply add_size_Ok; lia|]. exists (). rewrite check_limit_Ok.
      split; [done|]. apply IH; [by right|done].
  - rewrite <-Nat.add_succ_comm. destruct pre as [|b' pre]; cbn [length]; rewrite ?Nat.add_0_r.
    + naive_solver.
    + split; [intros (_ & [?|?] & ?)|intros ([?|?] & ?)]; try done; split_and!; auto; lia.
Qed.

Definition line_texts (fs n : nat) (first : option byte) : nat := if is_continuation first then fs + n else n.

Lemma validate_field_line_spec first n fs :
  validate_field_line first n fs limits = Ok (line_texts fs n first) /\
    Z.of_nat (line_texts fs n first) <= header_field_size limits \/
  is_ok (validate_field_line first n fs limits) = false /\
    header_field_size limits < Z.of_nat (line_texts fs n first).
Proof.
  unfold validate_field_line, line_texts.
  assert (forall m, (_ ← check_limit (Z.of_nat m) (header_field_size limits) ML_HeaderField; Ok m) = Ok m /\
     Z.of_nat m <= header_field_size limits \/
     is_ok (_ ← check_limit (Z.of_nat m) (header_field_size limits) ML_HeaderField; Ok m) = false /\
     header_field_size limits < Z.of_nat m) as Hm.
  { intros m. unfold check_limit. destruct (Z.ltb_spec (header_field_size limits) (Z.of_nat m)); simpl; auto. }
  destruct (is_continuation first); [|apply Hm].
  destruct (Z.leb_spec (Z.of_nat (fs + n)) usize_max).
  - rewrite (add_size_ok _ _ _ eq_refl) by done. apply Hm.
  - rewrite add_size_err by done. right. split; [done|lia].
Qed.

Lemma validate_field_line_bind first n fs (K : nat -> result HeaderEditError unit) :
  is_ok (fs' ← validate_field_line first n fs limits; K fs') = true <->
  Z.of_nat (line_texts fs n first) <= header_field_size limits /\ is_ok (K (line_texts fs n first)) = true.
Proof.
  destruct (validate_field_line_spec first n fs) as [[-> ?]|[H ?]]; simpl; [naive_solver|].
  destruct (validate_field_line _ _ _ _); [done|]. simpl. split; [done|lia].
Qed.

Lemma foldl_add_line_mono lines groups :
  Forall (fun text => text_fits text) (foldl add_line groups lines) -> Forall (fun text => text_fits text) groups.
Proof.
  revert groups. induction lines as [|line lines IH]; intros groups; [done|]. simpl. intros H%IH.
  unfold add_line in H. destruct (last groups) as [g|] eqn:Hg; [|by apply last_None in Hg as ->].
  destruct (starts_blank line); [|by apply Forall_app in H as [? _]].
  apply last_Some in Hg as [gs ->]. rewrite length_snoc in H.
  replace (S (length gs) - 1)%nat with (length gs) in H by lia. rewrite take_app_length in H.
  rewrite !Forall_app, !Forall_singleton in *. destruct H as [? H]. rewrite length_app in H. split; [done|lia].
Qed.

Definition last_size (groups : list bytes) : nat := match last groups with Some g => length g | None => 0 end.

Lemma add_line_spec groups line :
  last_size (add_line groups line) = line_texts (last_size groups) (length line) (head line) /\
  (Forall (fun text => text_fits text) groups ->
   Forall (fun text => text_fits text) (add_line groups line) <-> Z.of_nat (last_size (add_line groups line)) <= header_field_size limits).
Proof.
  assert (is_continuation (head line) = starts_blank line) as Hc by by destruct line.
  unfold add_line, line_texts, last_size. rewrite Hc. destruct (last groups) as [g|] eqn:Hg.
  - apply last_Some in Hg as [gs ->]. destruct (starts_blank line).
    + rewrite length_snoc. replace (S (length gs) - 1)%nat with (length gs) by lia. rewrite take_app_length, last_snoc, length_app.
      split; [done|]. rewrite !Forall_app, !Forall_singleton, length_app. naive_solver.
    + rewrite last_snoc. split; [done|]. rewrite !Forall_app, !Forall_singleton. naive_solver.
  - simpl. split; [by destruct (starts_blank line)|]. rewrite Forall_singleton. done.
Qed.

Lemma no_lf_not_blank l : no_lf l -> is_blank_line l = false.
Proof.
  intros Hno. apply not_true_iff_false. unfold is_blank_line. rewrite orb_true_iff, !bytes_eqb_true.
  intros [->| ->]; repeat (apply Forall_cons in Hno as [? Hno]); done.
Qed.

Lemma validate_newline rest k f fs :
  is_ok (validate_bytes (c_LF :: rest) k f fs limits) = true <->
  Z.of_nat (S k) <= header_line_size limits /\
  (let f := if (k =? 0)%nat then Some c_LF else f in
   (k =? 0)%nat || ((k =? 1)%nat && bool_decide (f = Some c_CR)) = true \/
   Z.of_nat (line_texts fs (S k) f) <= header_field_size limits /\
   is_ok (validate_bytes rest 0 f (line_texts fs (S k) f) limits) = true).
Proof.
  cbn [validate_bytes]. change (c_LF =? c_LF) with true. cbv iota zeta. rewrite is_ok_bind.
  transitivity (Z.of_nat (S k) <= header_line_size limits /\
    is_ok (if (S k =? 1)%nat || ((S k =? 2)%nat && bool_decide ((if (k =? 0)%nat then Some c_LF else f) = Some c_CR)) then Ok ()
        else field_size ← validate_field_line (if (k =? 0)%nat then Some c_LF else f) (S k) fs limits;
             validate_bytes rest 0 (if (k =? 0)%nat then Some c_LF else f) field_size limits) = true).
  - split.
    + intros (n & [-> _]%add_size_Ok & ([] & ?%check_limit_Ok & H)%is_ok_bind). rewrite Nat.add_1_r in *. auto.
    + intros [? H]. exists (S k). split; [apply add_size_Ok; lia|]. apply is_ok_bind. exists (). by rewrite check_limit_Ok.
  - cbn [Nat.eqb]. destruct (_ || _); [naive_solver|]. rewrite validate_field_line_bind. naive_solver.
Qed.

(** Reading a complete line from its start. *)
Lemma validate_line_end pre rest first fs :
  no_lf pre ->
  is_ok (validate_bytes ((pre ++ [c_LF]) ++ rest) 0 first fs limits) = true <->
  line_fits (pre ++ [c_LF]) /\
  (is_blank_line (pre ++ [c_LF]) = true \/
   Z.of_nat (line_texts fs (length (pre ++ [c_LF])) (head (pre ++ [c_LF]))) <= header_field_size limits /\
   is_ok (validate_bytes rest 0 (head (pre ++ [c_LF])) (line_texts fs (length (pre ++ [c_LF])) (head (pre ++ [c_LF]))) limits) = true).
Proof.
  intros Hpre. rewrite <-app_assoc. cbn [app].
  assert (length (pre ++ [c_LF]) = S (length pre)) as Hlen by apply length_snoc.
  destruct pre as [|b pre].
  { cbn [app]. rewrite validate_newline. cbn. naive_solver lia. }
  rewrite validate_bytes_run by auto. rewrite validate_newline, Hlen. cbn [Nat.eqb Nat.add length head app].
  replace (is_blank_line (b :: pre ++ [c_LF])) with
    ((length pre =? 0)%nat && bool_decide (Some b = Some c_CR)).
  { cbn [length orb]. split; [intros ([?|_] & ? & ?); done|]. intros [? ?]. split_and!; auto. right. lia. }
  unfold is_blank_line, bytes_eqb. destruct pre as [|b' pre]; cbn [length Nat.eqb app andb].
  - symmetry. apply eq_true_iff_eq. rewrite orb_true_iff, !bool_decide_eq_true. naive_solver.
  - symmetry. apply not_true_iff_false. rewrite orb_true_iff, !bool_decide_eq_true.
    intros [?|Hx]; [done|]. injection Hx as _ _ Hx. by destruct pre.
Qed.

Lemma validate_bytes_spec fuel l groups first :
  (length l <= fuel)%nat -> Forall (fun text => text_fits text) groups ->
  is_ok (validate_bytes l 0 first (last_size groups) limits) = true <->
  Forall (fun line => line_fits line) (header_lines fuel l) /\
  Forall (fun text => text_fits text)
    (foldl add_line groups (filter (fun line => is_blank_line line = false) (header_lines fuel l))).
Proof.
  revert l groups first. induction fuel as [|fuel IH]; intros l groups first Hlen Hg.
  { destruct l; simpl in *; [naive_solver|lia]. }
  destruct l as [|b l0] eqn:Hl; [simpl; naive_solver|]. rewrite <-Hl in *.
  replace (header_lines (S fuel) l) with (let '(line, rest) := take_line l in
      if is_blank_line line then [line] else line :: header_lines fuel rest) by by rewrite Hl.
  destruct (lf_split l) as [Hno|(pre & rest & Hpre & Hsplit)].
  - rewrite take_line_last by done. rewrite <-(app_nil_r l) at 1.
    rewrite validate_bytes_run by (auto; left; by rewrite Hl). rewrite no_lf_not_blank by done.
    replace (header_lines fuel []) with (@nil bytes) by by destruct fuel.
    rewrite filter_cons_True, filter_nil by (by apply no_lf_not_blank). cbn [foldl Nat.add Nat.eqb validate_bytes].
    rewrite (proj2 (Nat.eqb_neq (length l) 0)) by (by rewrite Hl).
    rewrite validate_field_line_bind. destruct (add_line_spec groups l) as [Hsz Hiff].
    rewrite (Hiff Hg), Hsz, Forall_singleton. assert (l <> []) by by rewrite Hl. naive_solver.
  - rewrite Hsplit, take_line_line by done. rewrite (validate_line_end pre rest first) by done.
    destruct (is_blank_line (pre ++ [c_LF])) eqn:Hbl.
    { rewrite filter_cons_False, filter_nil, Forall_singleton by congruence. cbn [foldl]. naive_solver. }
    rewrite filter_cons_True, Forall_cons by done. cbn [foldl].
    destruct (add_line_spec groups (pre ++ [c_LF])) as [Hsz Hiff]. specialize (Hiff Hg). rewrite <-Hsz.
    assert (length rest <= fuel)%nat by (rewrite Hsplit, !length_app in Hlen; simpl in Hlen; lia).
    split.
    + intros (H1 & [?|[H2 H3]]); [done|]. apply (IH rest (add_line groups (pre ++ [c_LF])) (head (pre ++ [c_LF]))) in H3; [|done|by apply Hiff].
      naive_solver.
    + intros [[H1 H2] H3]. split; [done|]. right. pose proof (foldl_add_line_mono _ _ H3) as H4.
      split; [by apply Hiff|]. by apply IH.
Qed.
End validation.

(** * Serialization as a function of the fields *)

(** The output of a list of fields: each is separated from the one before it
    when that one does not end its line. *)
Fixpoint joined (previous : option bytes) (line_ending : bytes) (l : list bytes) : bytes :=
  match l with
  | [] => []
  | b :: l' => join_before previous line_ending ++ b ++ joined (Some b) line_ending l'
  end.

Section serialization.
Context {T : Target}.

Lemma stored_bytes_view s i : stored_bytes s i = default [] (view s !! i).
Proof.
  unfold stored_bytes, field, view. rewrite list_lookup_fmap. by destruct (fields s !! i).
Qed.

Lemma concat_header_parts s sep le : concat (header_parts s sep le) = joined None le (view s) ++ sep.
Proof.
  unfold header_parts. rewrite concat_app. cbn [concat]. rewrite app_nil_r. f_equal.
  rewrite length_fields_view.
  assert (forall pre l, view s = pre ++ l ->
    concat (index ← seq (length pre) (length l);
     let join := if (0 <? index)%nat && negb (ends_with (stored_bytes s (index - 1)) [c_LF])
               then joining_line_ending (stored_bytes s (index - 1)) le else [] in
     [join; stored_bytes s index]) = joined (last pre) le l) as H; [|by apply (H [] (view s))].
  intros pre l. revert pre. induction l as [|b l IH]; intros pre Hv; [done|]. cbn [length seq joined].
  rewrite bind_cons, concat_app. cbn [concat]. rewrite !app_nil_r, <-app_assoc.
  rewrite <-length_snoc with (x := b). rewrite IH by by rewrite <-app_assoc.
  rewrite last_snoc, (stored_bytes_view s (length pre)), Hv, list_lookup_middle by done. f_equal.
  destruct pre as [|p pre _] using rev_ind; [done|]. rewrite last_snoc, length_snoc. simpl.
  rewrite Nat.sub_0_r, stored_bytes_view, Hv, <-app_assoc. cbn [app]. by rewrite list_lookup_middle.
Qed.

Lemma joined_delimited previous le l :
  delimited l -> (forall p, previous = Some p -> l <> [] -> ends_with p [c_LF] = true) ->
  joined previous le l = concat l.
Proof.
  revert previous. induction l as [|b l IH]; intros previous Hd Hp; [done|]. cbn [joined concat].
  destruct Hd as [Hb Hd]. rewrite IH by (auto; intros p [= <-] ?; by destruct l as [|c l]; [|destruct Hb]).
  destruct previous as [p|]; [|done]. simpl. by rewrite (Hp p eq_refl).
Qed.

Lemma needs_reindex_delimited s : needs_reindex s = false <-> delimited (view s).
Proof.
  unfold needs_reindex. rewrite length_fields_view.
  assert (forall pre b l, view s = pre ++ b :: l ->
    existsb (fun index => starts_blank (stored_bytes s index) || negb (ends_with (stored_bytes s (index - 1)) [c_LF]))
      (seq (S (length pre)) (length l)) = false <-> delimited (b :: l)) as H.
  2: { destruct (view s) as [|b l] eqn:Hv; [done|]. cbn [length Nat.sub]. rewrite Nat.sub_0_r. by apply (H [] b l). }
  intros pre b l. revert pre b. induction l as [|c l IH]; intros pre b Hv; [done|].
  cbn [length seq existsb]. rewrite orb_false_iff. rewrite <-(length_snoc pre b), (IH (pre ++ [b]) c); [|by rewrite <-app_assoc].
  rewrite length_snoc. cbn [Nat.sub]. rewrite Nat.sub_0_r.
  assert (stored_bytes s (length pre) = b) as -> by by rewrite stored_bytes_view, Hv, list_lookup_middle.
  assert (stored_bytes s (S (length pre)) = c) as ->.
  { rewrite stored_bytes_view. enough (view s !! S (length pre) = Some c) as -> by done. rewrite Hv, (snoc_app pre). apply list_lookup_middle. by rewrite length_snoc. }
  cbn [default delimited]. rewrite orb_false_iff, negb_false_iff. simpl. naive_solver.
Qed.

Lemma sizes_parts (l : list bytes) n :
  Z.of_nat n <= usize_max ->
  foldl (fun size part => size ← size; add_size size (length part)) (Ok n) l =
  if Z.of_nat n + len (concat l) <=? usize_max then Ok (n + length (concat l))%nat else Err SizeOverflow.
Proof.
  assert (forall l' : list bytes, foldl (fun size part => size ← size; add_size size (length part)) (Err SizeOverflow) l' = Err SizeOverflow) as Herr
    by by intros l'; induction l'.
  revert n. induction l as [|b l IH]; intros n Hn; simpl.
  { rewrite Z.add_0_r, Nat.add_0_r. by rewrite (proj2 (Z.leb_le _ _)). }
  rewrite length_app. destruct (Z.leb_spec (Z.of_nat (n + length b)) usize_max).
  - rewrite (add_size_ok _ _ _ eq_refl), IH by done.
    replace (Z.of_nat (n + length b) + len (concat l)) with (Z.of_nat n + Z.of_nat (length b + length (concat l))) by lia.
    by rewrite Nat.add_assoc.
  - rewrite add_size_err, Herr by done. by rewrite (proj2 (Z.leb_gt _ _)) by lia.
Qed.

Lemma serialized_size_spec s sep le :
  serialized_size s sep le =
  if len (joined None le (view s) ++ sep) <=? usize_max then Ok (length (joined None le (view s) ++ sep)) else Err SizeOverflow.
Proof.
  pose proof usize_max_lower. unfold serialized_size. rewrite sizes_parts by lia. by rewrite concat_header_parts.
Qed.
End serialization.

(** * The handle *)

(** The bytes a handle stands for: its fields, delimited, and its separator. *)
Definition header_bytes (h : EditedHeader) : bytes := concat (parts h).

(** A cache holds what it would be filled with. *)
Definition coherent (h : EditedHeader) : Prop :=
  (forall b, raw_cache (storage h) = Some b -> b = header_bytes h) /\
  (forall m, matching_cache (storage h) = Some m -> m = normalize_folded_header (header_bytes h)).

Definition sized (h : EditedHeader) : Prop := size (storage h) = length (header_bytes h).

(** The limits of a handle are machine words. *)
Definition usize_limits {T : Target} (l : MessageLimits) : Prop :=
  0 <= headers_size l <= usize_max /\ message_size l <= usize_max /\
  header_line_size l <= usize_max /\ header_field_size l <= usize_max.

(** The output and the limits a finished header satisfies. *)
Definition fits {T : Target} (limits : MessageLimits) (body_len : nat) (out : bytes) : Prop :=
  len out <= headers_size limits /\ len out + Z.of_nat body_len <= message_size limits /\ within_limits limits out.

Section handle.
Context {T : Target}.

Lemma as_bytes_spec h :
  coherent h -> let '(b, h') := as_bytes h in
  b = header_bytes h /\ coherent h' /\ header_bytes h' = header_bytes h /\ shared h' = shared h /\ limits h' = limits h /\
  store (storage h') = store (storage h) /\ size (storage h') = size (storage h) /\ status (storage h') = status (storage h).
Proof.
  intros [Hr Hm]. unfold as_bytes. destruct (raw_cache (storage h)) as [b|] eqn:Hb.
  { split_and!; try done; [by apply Hr|]. split; [|done]. intros b' Hb'. apply Hr. congruence. }
  split_and!; try done. split; simpl; [by intros b [= <-]|exact Hm].
Qed.

Lemma normalized_spec h :
  coherent h -> let '(m, h') := normalized h in
  m = normalize_folded_header (header_bytes h) /\ coherent h' /\ header_bytes h' = header_bytes h.
Proof.
  intros Hc. unfold normalized. destruct (matching_cache (storage h)) as [m|] eqn:Hm; [split; [by apply (proj2 Hc)|done]|].
  pose proof (as_bytes_spec h Hc) as H. destruct (as_bytes h) as [b h'].
  destruct H as (-> & [Hr _] & Hb & _). split; [done|]. split; [|done]. split; simpl; [exact Hr|].
  intros m [= <-]. by rewrite <-Hb.
Qed.

Lemma validate_header_parts_spec ps body_len l :
  usize_limits l ->
  is_ok (validate_header_parts ps (length (concat ps)) body_len l) = true <-> fits l body_len (concat ps).
Proof.
  intros (_ & Hms & Hl & Hf). unfold validate_header_parts, fits, within_limits, field_texts.
  rewrite <-(validate_bytes_spec l Hl Hf (length (concat ps)) (concat ps) [] None); [|done|done].
  rewrite !is_ok_bind. split.
  - intros ([] & H1%check_limit_Ok & (m & [-> _]%add_size_Ok & ([] & H2%check_limit_Ok & H3)%is_ok_bind)%is_ok_bind).
    split_and!; [done|lia|done].
  - intros (H1 & H2 & H3). exists (). split; [by apply check_limit_Ok|]. apply is_ok_bind.
    eexists. split; [apply add_size_Ok; split; [done|lia]|]. apply is_ok_bind. exists ().
    split; [apply check_limit_Ok; lia|done].
Qed.

Lemma header_bytes_joined h :
  header_bytes h = joined None (line_ending (storage h)) (view (store (storage h))) ++ separator (storage h).
Proof. apply concat_header_parts. Qed.

Lemma header_bytes_delimited h e :
  delimited (view (store (storage h))) ->
  header_bytes (with_storage h (set_line_ending e (storage h))) = header_bytes h.
Proof. intros Hd. rewrite !header_bytes_joined. simpl. by rewrite !joined_delimited. Qed.

Lemma is_ok_Ok {E A} (m : result E A) : is_ok m = true <-> exists a, m = Ok a.
Proof. destruct m; simpl; split; eauto; [done|by intros []]. Qed.

(** The update of the size, on either kind of handle. *)
Lemma get_mut_size_spec h n :
  (shared h = true -> size (storage h) = n) ->
  let h1 := get_mut (set_size n) h in
  header_bytes h1 = header_bytes h /\ size (storage h1) = n /\ store (storage h1) = store (storage h) /\
  (coherent h -> coherent h1) /\ limits h1 = limits h /\ status (storage h1) = status (storage h) /\ parts h1 = parts h.
Proof. intros H. unfold get_mut. destruct (shared h); [rewrite H by done|]; done. Qed.

(** The update of the line ending, which delimited fields never need. *)
Lemma get_mut_line_ending_spec h e :
  delimited (view (store (storage h))) ->
  let h1 := get_mut (set_line_ending e) h in
  header_bytes h1 = header_bytes h /\ size (storage h1) = size (storage h) /\ store (storage h1) = store (storage h) /\
  (coherent h -> coherent h1) /\ limits h1 = limits h /\ status (storage h1) = status (storage h).
Proof.
  intros Hd. unfold get_mut. destruct (shared h); [done|].
  assert (header_bytes (with_storage h (set_line_ending e (storage h))) = header_bytes h) as Hb by by apply header_bytes_delimited.
  split_and!; try done. intros [Hr Hm]. split; intros x Hx; rewrite Hb; auto.
Qed.

(** [finish]: it succeeds exactly when the output fits, changes no byte of
    the output, and leaves fields whose boundaries are the ones a reader of
    the output finds. *)
Lemma finish_spec h body_len :
  (shared h = true -> sized h) -> store_ok (store (storage h)) -> coherent h -> usize_limits (limits h) ->
  match finish h body_len with
  | Ok h' => fits (limits h) body_len (header_bytes h) /\ header_bytes h' = header_bytes h /\ sized h' /\
             delimited (view (store (storage h'))) /\ store_ok (store (storage h')) /\ coherent h' /\
             status (storage h') = status (storage h) /\ limits h' = limits h
  | Err e => ~ fits (limits h) body_len (header_bytes h)
  end.
Proof.
  intros Hsh Hs Hc Hu. unfold finish. rewrite serialized_size_spec, <-header_bytes_joined.
  destruct (Z.leb_spec (len (header_bytes h)) usize_max) as [Hsz|Hsz]; cbn [mbind result_bind].
  2: { intros (? & _). destruct Hu. lia. }
  pose proof (get_mut_size_spec h (length (header_bytes h)) Hsh) as Hg. cbv zeta in Hg.
  set (h1 := get_mut _ h) in *. destruct Hg as (Hb1 & Hs1 & Hst1 & Hc1 & Hl1 & Hstat1 & Hp1). specialize (Hc1 Hc).
  pose proof (validate_header_parts_spec (parts h1) body_len (limits h) Hu) as Hv.
  change (concat (parts h1)) with (header_bytes h1) in Hv. rewrite Hb1, <-Hs1 in Hv.
  change (validate_header_parts _ _ _ _) with (validate h1 body_len (limits h)) in Hv. rewrite Hl1.
  destruct (validate h1 body_len (limits h)) as [[]|e]; cbn [mbind result_bind].
  2: { rewrite <-Hv. done. }
  destruct Hv as [Hfit _]. specialize (Hfit eq_refl).
  destruct (needs_reindex (store (storage h1))) eqn:Hn.
  - pose proof (as_bytes_spec h1 Hc1) as Hab. destruct (as_bytes h1) as [b h2].
    destruct Hab as (-> & _ & _ & _ & Hl2 & _). rewrite Hb1, Hl2, Hl1.
    destruct (split_fields (header_bytes h)) as [[fs sep] le] eqn:Hsplit.
    destruct (split_fields_spec _ _ _ _ Hsplit) as (Hcat & _ & Hne). apply split_fields_delimited in Hsplit.
    pose proof (store_new_ok fs (headers_size (limits h))) as Hnew.
    destruct Hu as (Hu1 & _). destruct Hfit as (Hf1 & Hf2 & Hf3).
    destruct (store_new fs (headers_size (limits h))) as [s|e]; cbn [mbind result_bind].
    2: { destruct Hnew as [Hnew _]; [lia|lia|eapply Forall_impl; [exact Hne|by intros ? []]|].
         rewrite <-Hcat, length_app in Hf1. lia. }
    destruct Hnew as (Hs' & Hvs & _); [lia|lia|eapply Forall_impl; [exact Hne|by intros ? []]|].
    assert (delimited (view s)) as Hds by by rewrite Hvs.
    match goal with |- context [get_mut (set_line_ending _) ?h3] => set (h3' := h3) end.
    match goal with |- context [get_mut (set_line_ending ?e) h3'] => destruct (get_mut_line_ending_spec h3' e Hds) as (Hb4 & Hs4 & Hst4 & Hc4 & Hl4 & Hstat4) end.
    assert (header_bytes h3' = header_bytes h) as Hb3.
    { rewrite header_bytes_joined. simpl. rewrite joined_delimited, Hvs by done. exact Hcat. }
    unfold sized. rewrite Hb4, Hb3, Hs4, Hst4, Hl4, Hstat4. split_and!; try done; by apply Hc4.
  - assert (delimited (view (store (storage h1)))) as Hd by by apply needs_reindex_delimited.
    cbn [mbind result_bind].
    match goal with |- context [get_mut (set_line_ending ?e) h1] => destruct (get_mut_line_ending_spec h1 e Hd) as (Hb4 & Hs4 & Hst4 & Hc4 & Hl4 & Hstat4) end.
    unfold sized. rewrite Hb4, Hb1, Hs4, Hst4, Hl4, Hstat4, Hs1. rewrite Hst1 in *. split_and!; try done. by apply Hc4.
Qed.
End handle.

Section edits.
Context {T : Target}.

Definition store_limit (h : EditedHeader) : Z := Z.max (Z.of_nat (size (storage h))) (headers_size (limits h)).

(** No cache would outlive an edit: the next edit copies the storage, or
    there is none to copy. *)
Definition uncached (h : EditedHeader) : Prop :=
  shared h = true \/ raw_cache (storage h) = None /\ matching_cache (storage h) = None.

Lemma with_ceiling_ok s c :
  store_ok s -> store_ok {| arena := arena s; fields := fields s; free := free s; ceiling := c |}.
Proof. intros []. by constructor. Qed.

Lemma edit_store_spec f h h' :
  store_ok (store (storage h)) -> uncached h -> edit_store f h = Ok h' ->
  shared h' = false /\ coherent h' /\ raw_cache (storage h') = None /\ matching_cache (storage h') = None /\
  limits h' = limits h /\ separator (storage h') = separator (storage h) /\
  line_ending (storage h') = line_ending (storage h) /\ status (storage h') = status (storage h) /\
  size (storage h') = size (storage h) /\
  exists s, store_ok s /\ view s = view (store (storage h)) /\ ceiling s = store_limit h /\
    arena s = arena (store (storage h)) /\ f s = Ok (store (storage h')).
Proof.
  intros Hs Hu. unfold edit_store, store_mut, make_mut, uncached in *. intros (s & Hf & [= <-])%result_bind_Ok.
  destruct (shared h) eqn:Hsh; cbn in *; rewrite ?Hsh.
  - split_and!; try done. eexists. split; [by apply with_ceiling_ok|]. split_and!; [done|done|done|exact Hf].
  - destruct Hu as [?|[Hr Hm]]; [done|]. split_and!; try done; [split; simpl; congruence|].
    eexists. split; [by apply with_ceiling_ok|]. split_and!; [done|done|done|exact Hf].
Qed.

(** The failures of an edit are the store's. *)
Lemma edit_store_err f h e :
  store_ok (store (storage h)) -> edit_store f h = Err e ->
  exists s, store_ok s /\ view s = view (store (storage h)) /\ ceiling s = store_limit h /\
    arena s = arena (store (storage h)) /\ f s = Err e.
Proof.
  intros Hs. unfold edit_store, store_mut, make_mut. destruct (shared h) eqn:Hsh; cbn; rewrite ?Hsh; cbn;
    (match goal with |- (f ?s ≫= _) = _ -> _ => destruct (f s) eqn:Hf; simpl; [done|]; intros [= <-]; exists s end);
    split_and!; try done; by apply with_ceiling_ok.
Qed.
End edits.

(** Validation of an edited header checks the exact output bytes: it
    succeeds precisely when the header, the message, every line up to the
    empty one and every folded field of the concatenated parts are within the
    limits, wherever the parts' boundaries fall. *)
Theorem validate_exact {T : Target} parts body_len limits :
  usize_limits limits ->
  is_ok (validate_header_parts parts (length (concat parts)) body_len limits) = true <->
  fits limits body_len (concat parts).
Proof. apply validate_header_parts_spec. Qed.

(** C36: [EditedHeader::finish] succeeds exactly when the output fits the
    limits; then it changes no byte of the output, records its size, keeps the
    status, and leaves a well-formed index whose field boundaries are those of
    the output.  This is said of a handle whose caches, where they are filled, hold the
    bytes of its fields and their normalized form, which leaves out the only handle of a
    storage that is edited after [as_bytes] has filled them (there the old bytes are
    answered, and finishing may bring them back); and of one whose index is well-formed,
    whose size is recorded if its storage is shared, and whose limits are machine words. *)
Theorem finish_exact {T : Target} h body_len :
  (shared h = true -> sized h) -> store_ok (store (storage h)) -> coherent h -> usize_limits (limits h) ->
  (is_ok (finish h body_len) = true <-> fits (limits h) body_len (header_bytes h)) /\
  forall h', finish h body_len = Ok h' ->
    header_bytes h' = header_bytes h /\ sized h' /\ delimited (view (store (storage h'))) /\
    store_ok (store (storage h')) /\ coherent h' /\ status (storage h') = status (storage h).
Proof.
  intros H1 H2 H3 H4. pose proof (finish_spec h body_len H1 H2 H3 H4) as H.
  destruct (finish h body_len) as [h'|e]; simpl.
  - split; [split; [by intros _; apply H|done]|]. intros h'' [= <-]. naive_solver.
  - split; [split; [done|by intros ?]|done].
Qed.

(** Indexing a raw header and serializing it back is the identity: the
    handle stands for exactly the bytes it was built from, its field list is
    the one [split_fields] finds, and its size is theirs.  Construction never
    fails on a header whose length is a machine word. *)
Theorem new_raw_roundtrip {T : Target} b limits :
  0 <= headers_size limits <= usize_max -> len b <= usize_max ->
  exists h, new_raw b limits = Ok h /\ header_bytes h = b /\ (as_bytes h).1 = b /\ into_streaming_bytes h = b /\
    sized h /\ coherent h /\ store_ok (store (storage h)) /\
    view (store (storage h)) = f_bytes <$> (split_fields b).1.1.
Proof.
  intros Hl Hb. unfold new_raw. destruct (split_fields b) as [[fs sep] le] eqn:Hsplit.
  destruct (split_fields_spec _ _ _ _ Hsplit) as (Hcat & _ & Hne). apply split_fields_delimited in Hsplit.
  assert (len (concat (f_bytes <$> fs)) <= len b) as Hlen by (rewrite <-Hcat, length_app; lia).
  pose proof (store_new_ok fs (Z.max (headers_size limits) (len b))) as Hnew.
  destruct (store_new fs _) as [s|e]; simpl.
  2: { destruct Hnew as [Hnew _]; [lia|lia|eapply Forall_impl; [exact Hne|by intros ? []]|lia]. }
  destruct Hnew as (Hs & Hv & _); [lia|lia|eapply Forall_impl; [exact Hne|by intros ? []]|].
  eexists. split; [done|]. set (h := {| storage := _ |}).
  assert (header_bytes h = b) as Hbytes.
  { rewrite header_bytes_joined. simpl. rewrite joined_delimited; rewrite Hv; done. }
  split_and!; try done. unfold sized. by rewrite Hbytes.
Qed.

(** An edit through a handle whose storage is shared, or whose caches
    were never filled, yields a private handle without stale caches: what it
    serializes to is the edited field list, and limits, separator, line ending
    and status are the source's. *)
Theorem edit_coherent {T : Target} e h h' :
  store_ok (store (storage h)) -> uncached h -> edit_store (store_edit e) h = Ok h' ->
  shared h' = false /\ (as_bytes h').1 = header_bytes h' /\ limits h' = limits h /\
  separator (storage h') = separator (storage h) /\ line_ending (storage h') = line_ending (storage h) /\
  status (storage h') = status (storage h) /\
  exists s, store_ok s /\ view s = view (store (storage h)) /\ store_edit e s = Ok (store (storage h')).
Proof.
  intros Hs Hu He. apply edit_store_spec in He as (? & Hc & Hr & _ & ? & ? & ? & ? & _ & s & ? & ? & _ & _ & ?); [|done..].
  split_and!; try done; [|by exists s]. unfold as_bytes. by rewrite Hr.
Qed.

(** Without that condition the claim is false: after [as_bytes] has filled
    the cache of the only handle, an edit changes the fields and [as_bytes]
    still answers the old bytes. *)
Example edit_after_as_bytes_is_stale :
  exists h h', new_raw (T := target64) (B "A: 1" ++ [10]) default_limits = Ok h /\
    edit_store (store_edit (T := target64) (RemoveMatchingPattern (B "A:"))) (as_bytes h).2 = Ok h' /\
    header_bytes h' = [] /\ (as_bytes h').1 = B "A: 1" ++ [10].
Proof. eexists _, _. split_and!; vm_compute; reflexivity. Qed.

Lemma default_usize_limits : usize_limits (T := target64) default_limits.
Proof. repeat split; vm_compute; discriminate. Qed.

(** Two parts that make one folded field of twelve bytes. *)
Definition narrow_limits : MessageLimits := {|
  message_size := 64; headers_size := 64; body_size := 64; header_line_size := 6; header_field_size := 10 |}.

Lemma validate_exact_witness :
  usize_limits (T := target64) narrow_limits /\
  fits (T := target64) narrow_limits 4 (concat [B "A: "; B "b" ++ [10] ++ B " c"; [10]; [10]]) /\
  ~ fits (T := target64) narrow_limits 4 (concat [B "A: "; B "bc" ++ [10] ++ B " d"; B "e"; [10]; B " f" ++ [10]; [10]]).
Proof.
  assert (usize_limits (T := target64) narrow_limits) as Hu.
  { repeat split; vm_compute; discriminate. }
  split_and!; [exact Hu|apply (validate_exact (T := target64)); [exact Hu|vm_compute; reflexivity]|].
  rewrite <-(validate_exact (T := target64)) by exact Hu. vm_compute. discriminate.
Defined.

Definition sample_header : bytes := B "From x" ++ [10] ++ B "A: 1" ++ [10; 10].

Lemma new_raw_roundtrip_witness :
  exists h, new_raw (T := target64) sample_header default_limits = Ok h /\ header_bytes h = sample_header /\
    view (store (storage h)) = [B "From x" ++ [10]; B "A: 1" ++ [10]].
Proof.
  destruct (new_raw_roundtrip (T := target64) sample_header default_limits) as (h & H1 & H2 & _ & _ & _ & _ & _ & H3);
    [apply default_usize_limits|vm_compute; discriminate|].
  exists h. split_and!; [exact H1|exact H2|]. rewrite H3. vm_compute. reflexivity.
Defined.

(** The handle of [sample_header], for the witnesses. *)
Definition sample_handle : EditedHeader :=
  match new_raw (T := target64) sample_header default_limits with
  | Ok h => h
  | Err _ => {| storage := {| store := build_store [] 0; separator := []; line_ending := []; size := 0;
                              status := status_NONE; raw_cache := None; matching_cache := None |};
                shared := true; limits := default_limits |}
  end.

Lemma sample_handle_ok : store_ok (T := target64) (store (storage sample_handle)) /\ coherent sample_handle.
Proof.
  unfold sample_handle, new_raw.
  destruct (split_fields sample_header) as [[fs sep] le] eqn:Hsplit.
  destruct (split_fields_spec _ _ _ _ Hsplit) as (Hcat & _ & Hne).
  pose proof (store_new_ok (T := target64) fs (Z.max (headers_size default_limits) (len sample_header))) as H.
  destruct (store_new fs _) as [s|e] eqn:Hs; simpl.
  - split; [|split; simpl; congruence].
    apply H; [vm_compute; discriminate|vm_compute; discriminate|eapply Forall_impl; [exact Hne|by intros ? []]].
  - exfalso. vm_compute in Hsplit. injection Hsplit as <- <- <-. vm_compute in Hs. discriminate.
Qed.

Lemma finish_exact_witness :
  exists h', finish (T := target64) sample_handle 5 = Ok h' /\ header_bytes h' = sample_header /\
    delimited (view (store (storage h'))).
Proof.
  destruct sample_handle_ok as [Hs Hc].
  destruct (finish_exact (T := target64) sample_handle 5 (fun H => match Bool.diff_false_true H with end) Hs Hc default_usize_limits) as [_ H].
  destruct (finish (T := target64) sample_handle 5) as [h'|e] eqn:Hf; [|exfalso; vm_compute in Hf; discriminate].
  exists h'. split; [reflexivity|]. destruct (H h' eq_refl) as (H1 & _ & H2 & _).
  split; [rewrite H1; vm_compute; reflexivity|exact H2].
Defined.

Lemma edit_coherent_witness :
  exists h', edit_store (store_edit (T := target64) (RenameMatchingPattern (B "A:") (B "Bcd:")))
      (clone_handle (as_bytes sample_handle).2) = Ok h' /\
    (as_bytes h').1 = B "From x" ++ [10] ++ B "Bcd: 1" ++ [10; 10].
Proof.
  destruct (edit_store (store_edit (T := target64) (RenameMatchingPattern (B "A:") (B "Bcd:")))
      (clone_handle (as_bytes sample_handle).2)) as [h'|e] eqn:He; [|exfalso; vm_compute in He; discriminate].
  exists h'. split; [reflexivity|].
  apply (edit_coherent (T := target64)) in He as Hc.
  - destruct Hc as (_ & -> & _).
    assert (h' = match edit_store (store_edit (T := target64) (RenameMatchingPattern (B "A:") (B "Bcd:")))
      (clone_handle (as_bytes sample_handle).2) with Ok h => h | Err _ => sample_handle end) as -> by by rewrite He.
    vm_compute. reflexivity.
  - exact (proj1 sample_handle_ok).
  - by left.
Defined.
