(* ===== verification/StructuredHeader.v ===== *)
(** Structured header fields: [src/src/structured_header.rs].  Keywords,
    mailbox addresses and identifiers are extracted from untrusted header
    bytes by small scanners; every extraction counts its values against a hard
    limit before it compares or keeps them. *)
From S2P Require Import Prelude Config Limits HeaderValue HeaderFields.

(** Source: structured_header.rs `pub(crate) const MAX_STRUCTURED_HEADER_VALUES` *)
Definition MAX_STRUCTURED_HEADER_VALUES : nat := 4096.

(** Source: structured_header.rs `pub(crate) enum ConfiguredKeywordError` *)
Inductive ConfiguredKeywordError := CK_Empty | CK_InvalidToken | CK_TooMany (limit : nat).

(** The error of [work_limit_error], the only one the module builds.
    Source: structured_header.rs `pub(crate) struct StructuredHeaderError` *)
Inductive StructuredHeaderError := WorkLimit.

(** Source: structured_header.rs `pub(crate) enum StructuredVisitError` *)
Inductive StructuredVisitError (E : Type) := SV_Header (e : StructuredHeaderError) | SV_Visitor (e : E).
Arguments SV_Header {E} _.
Arguments SV_Visitor {E} _.

(** Source: structured_header.rs `pub(crate) fn work_limit_error` *)
Definition work_limit_error : StructuredHeaderError := WorkLimit.

(** * Scanners *)

(** [skip_while] from both ends.
    Source: structured_header.rs `fn trim_ascii` *)
Fixpoint trim_start (l : bytes) : bytes :=
  match l with b :: l' => if is_ascii_whitespace b then trim_start l' else l | [] => [] end.
Definition trim_end (l : bytes) : bytes := reverse (trim_start (reverse l)).
Definition trim_ascii (value : bytes) : bytes := trim_end (trim_start value).

(** Source: structured_header.rs `fn find_unquoted` *)
Fixpoint find_unquoted_from (input : bytes) (wanted : byte) (quoted escaped : bool) : option nat :=
  match input with
  | [] => None
  | b :: input' =>
      if escaped then S <$> find_unquoted_from input' wanted quoted false
      else if quoted && (b =? c_BSLASH) then S <$> find_unquoted_from input' wanted quoted true
      else if b =? c_QUOTE then S <$> find_unquoted_from input' wanted (negb quoted) false
      else if negb quoted && (b =? wanted) then Some O
      else S <$> find_unquoted_from input' wanted quoted false
  end.
Definition find_unquoted (input : bytes) (wanted : byte) : option nat := find_unquoted_from input wanted false false.

(** The variables of the loop of [remove_comments_and_unfold]. *)
Record CommentState := { cs_output : bytes; comment_depth : nat; cs_quoted : bool; cs_escaped : bool; pending_space : bool }.

Definition push (s : CommentState) (b : byte) : bytes := cs_output s ++ [b].
Definition push_pending (s : CommentState) : bytes :=
  if pending_space s && negb (bool_decide (cs_output s = [])) && negb (cs_quoted s) then cs_output s ++ [c_SP] else cs_output s.

Section scanners.
Context {T : Target}.

(** One iteration; [None] is the [?] of the depth's checked addition. *)
Definition comment_step (s : CommentState) (b : byte) : option CommentState :=
  if cs_escaped s then
    Some {| cs_output := if (comment_depth s =? 0)%nat then push s b else cs_output s; comment_depth := comment_depth s;
            cs_quoted := cs_quoted s; cs_escaped := false; pending_space := pending_space s |}
  else if (b =? c_BSLASH) && (cs_quoted s || (0 <? comment_depth s)%nat) then
    Some {| cs_output := if (comment_depth s =? 0)%nat then push s b else cs_output s; comment_depth := comment_depth s;
            cs_quoted := cs_quoted s; cs_escaped := true; pending_space := pending_space s |}
  else if (0 <? comment_depth s)%nat then
    depth ← (if b =? c_LPAREN then checked_add (comment_depth s) 1
             else if b =? c_RPAREN then Some (comment_depth s - 1)%nat else Some (comment_depth s));
    Some {| cs_output := cs_output s; comment_depth := depth; cs_quoted := cs_quoted s;
            cs_escaped := false; pending_space := pending_space s |}
  else if negb (cs_quoted s) && (b =? c_LPAREN) then
    Some {| cs_output := cs_output s; comment_depth := 1; cs_quoted := cs_quoted s;
            cs_escaped := false; pending_space := pending_space s |}
  else if b =? c_QUOTE then
    Some {| cs_output := push_pending s ++ [b]; comment_depth := comment_depth s; cs_quoted := negb (cs_quoted s);
            cs_escaped := false; pending_space := false |}
  else if negb (cs_quoted s) && is_ascii_whitespace b then
    Some {| cs_output := cs_output s; comment_depth := comment_depth s; cs_quoted := cs_quoted s;
            cs_escaped := false; pending_space := true |}
  else
    Some {| cs_output := push_pending s ++ [b]; comment_depth := comment_depth s; cs_quoted := cs_quoted s;
            cs_escaped := false; pending_space := false |}.

Fixpoint comment_loop (s : CommentState) (input : bytes) : option CommentState :=
  match input with [] => Some s | b :: input' => s' ← comment_step s b; comment_loop s' input' end.

(** Source: structured_header.rs `pub(crate) fn remove_comments_and_unfold` *)
Definition remove_comments_and_unfold (input : bytes) : option bytes :=
  s ← comment_loop {| cs_output := []; comment_depth := 0; cs_quoted := false; cs_escaped := false; pending_space := false |} input;
  if (comment_depth s =? 0)%nat && negb (cs_quoted s) && negb (cs_escaped s) then Some (cs_output s) else None.
End scanners.

(** [slice::split] with a closure that has state. *)
Fixpoint split_with {S} (f : S -> byte -> bool * S) (s : S) (l : bytes) : list bytes :=
  match l with
  | [] => [[]]
  | x :: l' =>
      let '(separator, s') := f s x in
      match split_with f s' l' with
      | w :: ws => if separator : bool then [] :: w :: ws else (x :: w) :: ws
      | [] => [[]]
      end
  end.

(** The closure of [mailbox_elements]: [quoted], [angle] and [escaped]. *)
Definition element_separator (s : bool * nat * bool) (b : byte) : bool * (bool * nat * bool) :=
  let '(quoted, angle, escaped) := s in
  if escaped : bool then (false, (quoted, angle, false))
  else if quoted && (b =? c_BSLASH) then (false, (quoted, angle, true))
  else if b =? c_QUOTE then (false, (negb quoted, angle, false))
  else if negb quoted then
    if b =? c_LT then (false, (quoted, S angle, false))
    else if b =? c_GT then (false, (quoted, (angle - 1)%nat, false))
    else if ((b =? c_COMMA) || (b =? c_SEMI)) && (angle =? 0)%nat then (true, (quoted, angle, false))
    else (false, (quoted, angle, false))
  else (false, (quoted, angle, false)).

(** Source: structured_header.rs `fn mailbox_elements` *)
Definition mailbox_elements (input : bytes) : list bytes := split_with element_separator (false, O, false) input.

(** * Addresses *)

Definition is_atext (b : byte) : bool :=
  is_ascii_alphanumeric b || existsb (Z.eqb b) (B "!#$%&'*+-/=?^_`{|}~.").

Fixpoint has_dotdot (l : bytes) : bool :=
  match l with
  | a :: l' => ((a =? c_DOT) && bool_decide (head l' = Some c_DOT)) || has_dotdot l'
  | [] => false
  end.

(** Source: structured_header.rs `fn valid_dot_atom` *)
Definition valid_dot_atom (value : bytes) : bool :=
  negb (bool_decide (value = [])) && negb (bool_decide (head value = Some c_DOT)) &&
  negb (bool_decide (last value = Some c_DOT)) && negb (has_dotdot value) && forallb is_atext value.

(** The [all] over the inside of a quoted string, with its [escaped]; the
    result is the conjunction with [!escaped] at the end. *)
Fixpoint valid_quoted (l : bytes) (escaped : bool) : bool :=
  match l with
  | [] => negb escaped
  | b :: l' =>
      if escaped then is_ascii b && negb ((b =? c_CR) || (b =? c_LF)) && valid_quoted l' false
      else if b =? c_BSLASH then valid_quoted l' true
      else is_ascii b && negb ((b =? c_QUOTE) || (b =? c_CR) || (b =? c_LF) || (b =? 0)) && valid_quoted l' false
  end.

Definition enclosed (l : bytes) (open close : byte) : bool :=
  (2 <=? length l)%nat && bool_decide (head l = Some open) && bool_decide (last l = Some close).
Definition inside (l : bytes) : bytes := slice 1 (length l - 1) l.

(** Source: structured_header.rs `fn valid_local` *)
Definition valid_local (local : bytes) : bool :=
  if enclosed local c_QUOTE c_QUOTE then valid_quoted (inside local) false else valid_dot_atom local.

(** Source: structured_header.rs `fn valid_domain` *)
Definition valid_domain (domain : bytes) : bool :=
  if enclosed domain c_LBRACK c_RBRACK
  then forallb (fun b => is_ascii_graphic b && negb ((b =? c_LBRACK) || (b =? c_RBRACK) || (b =? c_BSLASH))) (inside domain)
  else valid_dot_atom domain.

(** The variables of the loop of [normalize_addr_spec]. *)
Record AddrState := { as_at : option nat; as_quoted : bool; as_bracketed : bool; as_escaped : bool }.

(** One iteration at [index]; [None] is the early return on a second
    structural at-sign. *)
Definition addr_step (s : AddrState) (index : nat) (b : byte) : option AddrState :=
  if as_escaped s then Some {| as_at := as_at s; as_quoted := as_quoted s; as_bracketed := as_bracketed s; as_escaped := false |}
  else if as_quoted s && (b =? c_BSLASH) then
    Some {| as_at := as_at s; as_quoted := as_quoted s; as_bracketed := as_bracketed s; as_escaped := true |}
  else if (b =? c_QUOTE) && negb (as_bracketed s) then
    Some {| as_at := as_at s; as_quoted := negb (as_quoted s); as_bracketed := as_bracketed s; as_escaped := false |}
  else if (b =? c_LBRACK) && negb (as_quoted s) then
    Some {| as_at := as_at s; as_quoted := as_quoted s; as_bracketed := true; as_escaped := false |}
  else if (b =? c_RBRACK) && negb (as_quoted s) then
    Some {| as_at := as_at s; as_quoted := as_quoted s; as_bracketed := false; as_escaped := false |}
  else if (b =? c_AT) && negb (as_quoted s) && negb (as_bracketed s) then
    match as_at s with
    | None => Some {| as_at := Some index; as_quoted := as_quoted s; as_bracketed := as_bracketed s; as_escaped := false |}
    | Some _ => None
    end
  else Some {| as_at := as_at s; as_quoted := as_quoted s; as_bracketed := as_bracketed s; as_escaped := false |}.

Fixpoint addr_loop (s : AddrState) (index : nat) (input : bytes) : option AddrState :=
  match input with [] => Some s | b :: input' => s' ← addr_step s index b; addr_loop s' (S index) input' end.

Definition addr_start : AddrState := {| as_at := None; as_quoted := false; as_bracketed := false; as_escaped := false |}.

(** Source: structured_header.rs `fn normalize_addr_spec` *)
Definition normalize_addr_spec (input : bytes) : option bytes :=
  s ← addr_loop addr_start 0 input;
  if as_quoted s || as_bracketed s || as_escaped s then None
  else
    at_ ← as_at s;
    let local := trim_ascii (take at_ input) in
    let domain := trim_ascii (drop (S at_) input) in
    if negb (valid_local local) || negb (valid_domain domain) then None
    else Some (local ++ c_AT :: (to_ascii_lowercase <$> domain)).

(** Source: structured_header.rs `fn normalize_mailbox` *)
Definition normalize_mailbox (element : bytes) : option bytes :=
  let element := trim_ascii element in
  if bool_decide (element = []) then None
  else
    source ← match find_unquoted element c_LT with
             | Some open =>
                 close ← find_unquoted (drop (S open) element) c_GT;
                 let close := (close + open + 1)%nat in
                 if negb (bool_decide (trim_ascii (drop (S close) element) = [])) then None
                 else Some (slice (S open) close element)
             | None =>
                 let start := match find_unquoted element c_COLON with Some colon => S colon | None => O end in
                 Some (drop start element)
             end;
    normalize_addr_spec (trim_ascii source).

(** Source: structured_header.rs `fn normalize_list_id` *)
Definition normalize_list_id (input : bytes) : option bytes :=
  open ← find_unquoted input c_LT;
  close ← find_unquoted (drop (S open) input) c_GT;
  let close := (close + open + 1)%nat in
  if negb (bool_decide (trim_ascii (drop (S close) input) = [])) then None
  else
    let identifier := trim_ascii (slice (S open) close input) in
    if negb (valid_dot_atom identifier) || negb (existsb (Z.eqb c_DOT) identifier) then None
    else Some (to_ascii_lowercase <$> identifier).

(** The loop of [message_id_tokens], with the tokens in order. *)
Fixpoint message_id_loop (input rest : bytes) (index : nat) (open : option nat) (quoted escaped : bool) : list bytes :=
  match rest with
  | [] => []
  | b :: rest' =>
      if escaped then message_id_loop input rest' (S index) open quoted false
      else if quoted && (b =? c_BSLASH) then message_id_loop input rest' (S index) open quoted true
      else if b =? c_QUOTE then message_id_loop input rest' (S index) open (negb quoted) false
      else if negb quoted then
        if b =? c_LT then message_id_loop input rest' (S index) (Some index) quoted false
        else if b =? c_GT then
          match open with
          | Some start =>
              let token := trim_ascii (slice (S start) index input) in
              (if negb (bool_decide (token = [])) &&
                  negb (existsb (fun b => is_ascii_control b || (b =? c_LT) || (b =? c_GT)) token)
               then [token] else []) ++ message_id_loop input rest' (S index) None quoted false
          | None => message_id_loop input rest' (S index) None quoted false
          end
        else message_id_loop input rest' (S index) open quoted false
      else message_id_loop input rest' (S index) open quoted false
  end.

(** Source: structured_header.rs `fn message_id_tokens` *)
Definition message_id_tokens (input : bytes) : list bytes := message_id_loop input input 0 None false false.

(** * Keywords *)

(** Source: structured_header.rs `fn valid_keyword_str` *)
Definition valid_keyword_str (token : bytes) : option bytes :=
  if bool_decide (token = []) || negb (forallb (fun b => is_ascii_graphic b && negb (b =? c_COMMA)) token)
  then None else Some token.

Definition nonempty (token : bytes) : bool := negb (bool_decide (token = [])).

(** Source: structured_header.rs `fn keyword_tokens` *)
Definition keyword_tokens (input : bytes) : list bytes :=
  filter (fun t => nonempty t = true) (split_on (fun b => is_ascii_whitespace b || (b =? c_COMMA)) input).

Fixpoint configured_loop (tokens : list bytes) (count : nat) (keywords : list bytes)
    : result ConfiguredKeywordError (list bytes) :=
  match tokens with
  | [] => Ok keywords
  | token :: tokens' =>
      match valid_keyword_str token with
      | None => Err CK_InvalidToken
      | Some keyword =>
          if (MAX_STRUCTURED_HEADER_VALUES <? S count)%nat then Err (CK_TooMany MAX_STRUCTURED_HEADER_VALUES)
          else configured_loop tokens' (S count)
                 (if existsb (bytes_eqb keyword) keywords then keywords else keywords ++ [keyword])
      end
  end.

(** The count is bounded by the limit, so its checked addition never fails.
    Source: structured_header.rs `pub(crate) fn parse_configured_keywords` *)
Definition parse_configured_keywords (value : bytes) : result ConfiguredKeywordError (list bytes) :=
  keywords ← configured_loop
    (filter (fun t => nonempty t = true) (split_on (fun b => (b =? c_SP) || (b =? c_TAB) || (b =? c_COMMA)) value)) 0 [];
  if bool_decide (keywords = []) then Err CK_Empty else Ok keywords.

(** * Visits *)

(** A loop over [l] that returns [true] at the first element whose body
    does; the body's variables are its state. *)
Fixpoint visit_list {A S E : Type} (f : A -> S -> result E (bool * S)) (l : list A) (s : S) : result E (bool * S) :=
  match l with
  | [] => Ok (false, s)
  | x :: l' => '(found, s') ← f x s; if found : bool then Ok (true, s') else visit_list f l' s'
  end.

(** Source: structured_header.rs `fn visit_fields` *)
Definition visit_fields {S E : Type} (fields : list Field) (visit : bytes -> bytes -> S -> result E (bool * S)) (s : S)
    : result E (bool * S) :=
  visit_list (fun f s =>
    match f_name f, field_value f with
    | Some name, Some value => visit name value s
    | _, _ => Ok (false, s)
    end) fields s.

(** The counter and the values already seen, beside the visitor's own
    state. *)
Record VisitState (St : Type) := { vs_count : nat; vs_seen : list bytes; vs_visitor : St }.
Arguments vs_count {St} _.
Arguments vs_seen {St} _.
Arguments vs_visitor {St} _.

Section visits.
Context {St E : Type} (matches : bytes -> St -> result E (bool * St)).

(** The step all three visitors share: count the value against the limit,
    skip it when [dedup] and it was seen, hand it to the visitor. *)
Definition count_and_visit (dedup : bool) (value : bytes) (s : VisitState St)
    : result (StructuredVisitError E) (bool * VisitState St) :=
  if (MAX_STRUCTURED_HEADER_VALUES <? S (vs_count s))%nat then Err (SV_Header work_limit_error)
  else if dedup && existsb (bytes_eqb value) (vs_seen s) then
    Ok (false, {| vs_count := S (vs_count s); vs_seen := vs_seen s; vs_visitor := vs_visitor s |})
  else
    '(found, st) ← map_err SV_Visitor (matches value (vs_visitor s));
    Ok (found, {| vs_count := S (vs_count s);
                  vs_seen := if dedup then vs_seen s ++ [value] else vs_seen s; vs_visitor := st |}).

Definition wanted_name {F : Type} (name_of : F -> bytes) (wanted : list F) (name : bytes) : option F :=
  find (fun field => eq_ignore_ascii_case name (name_of field)) wanted.

(** Source: structured_header.rs `pub(crate) fn visit_keywords` *)
Definition visit_keywords (fields : list Field) (wanted : list KeywordField) (st : St)
    : result (StructuredVisitError E) (bool * VisitState St) :=
  visit_fields fields (fun name value s =>
    match wanted_name KeywordField_name wanted name with
    | None => Ok (false, s)
    | Some _ =>
        visit_list (fun token s =>
          match valid_keyword_str token with
          | None => Ok (false, s)
          | Some keyword => count_and_visit true keyword s
          end) (keyword_tokens value) s
    end) {| vs_count := 0; vs_seen := []; vs_visitor := st |}.

(** Source: structured_header.rs `pub(crate) fn any_keyword` *)
Definition any_keyword (fields : list Field) (wanted : list KeywordField) (st : St)
    : result (StructuredVisitError E) bool := fst <$> visit_keywords fields wanted st.

(** The visit behind [any_address], with the state the visitor leaves.
    Source: structured_header.rs `pub(crate) fn any_address` *)
Definition visit_addresses {T : Target} (fields : list Field) (wanted : list AddressField) (st : St)
    : result (StructuredVisitError E) (bool * VisitState St) :=
  visit_fields fields (fun name value s =>
    match wanted_name AddressField_name wanted name with
    | None => Ok (false, s)
    | Some _ =>
        match remove_comments_and_unfold value with
        | None => Ok (false, s)
        | Some value =>
            visit_list (fun element s =>
              match normalize_mailbox element with
              | None => Ok (false, s)
              | Some address => count_and_visit false address s
              end) (mailbox_elements value) s
        end
    end) {| vs_count := 0; vs_seen := []; vs_visitor := st |}.

(** Source: structured_header.rs `pub(crate) fn any_address` *)
Definition any_address {T : Target} (fields : list Field) (wanted : list AddressField) (st : St)
    : result (StructuredVisitError E) bool := fst <$> visit_addresses fields wanted st.

(** The visit behind [any_identifier], with the state the visitor leaves.
    Source: structured_header.rs `pub(crate) fn any_identifier` *)
Definition visit_identifiers {T : Target} (fields : list Field) (wanted : list IdentifierField) (st : St)
    : result (StructuredVisitError E) (bool * VisitState St) :=
  visit_fields fields (fun name value s =>
    match wanted_name IdentifierField_name wanted name with
    | None => Ok (false, s)
    | Some field =>
        match remove_comments_and_unfold value with
        | None => Ok (false, s)
        | Some value =>
            match field with
            | IF_ListId =>
                match normalize_list_id value with
                | None => Ok (false, s)
                | Some identifier => count_and_visit true identifier s
                end
            | _ => visit_list (count_and_visit true) (message_id_tokens value) s
            end
        end
    end) {| vs_count := 0; vs_seen := []; vs_visitor := st |}.

(** Source: structured_header.rs `pub(crate) fn any_identifier` *)
Definition any_identifier {T : Target} (fields : list Field) (wanted : list IdentifierField) (st : St)
    : result (StructuredVisitError E) bool := fst <$> visit_identifiers fields wanted st.
End visits.

(** The visitor pushes every keyword and never stops.
    Source: structured_header.rs `pub(crate) fn collect_keywords` *)
Definition collect_keywords (fields : list Field) (wanted : list KeywordField) : result StructuredHeaderError (list bytes) :=
  match visit_keywords (E := Empty_set) (fun keyword keywords => Ok (false, keywords ++ [keyword])) fields wanted [] with
  | Ok (_, s) => Ok (vs_visitor s)
  | Err (SV_Header e) => Err e
  | Err (SV_Visitor never) => match never with end
  end.

(** * Visits as traversals of a list of values *)

Lemma visit_list_bind {A C S E} (f : C -> S -> result E (bool * S)) (g : A -> list C) l s :
  visit_list (fun x s => visit_list f (g x) s) l s = visit_list f (l ≫= g) s.
Proof.
  revert s. induction l as [|x l IH]; intros s; [done|]. rewrite bind_cons. cbn [visit_list].
  assert (forall k k' s, visit_list f (k ++ k') s = ('(found, s') ← visit_list f k s; if found : bool then Ok (true, s') else visit_list f k' s')) as Happ.
  { clear. intros k k'. induction k as [|c k IH]; intros s; [done|]. cbn [app visit_list].
    destruct (f c s) as [[[|] s']|]; simpl; [done|apply IH|done]. }
  rewrite Happ. destruct (visit_list f (g x) s) as [[[|] s']|]; simpl; [done|apply IH|done].
Qed.

Lemma visit_list_ext {A S E} (f g : A -> S -> result E (bool * S)) l s :
  (forall x s, f x s = g x s) -> visit_list f l s = visit_list g l s.
Proof.
  intros H. revert s. induction l as [|x l IH]; intros s; [done|]. cbn [visit_list]. rewrite H.
  destruct (g x s) as [[[|] s']|]; simpl; auto.
Qed.

Lemma visit_list_omap {A C S E} (f : C -> S -> result E (bool * S)) (g : A -> option C) l s :
  visit_list (fun x s => match g x with None => Ok (false, s) | Some y => f y s end) l s = visit_list f (omap g l) s.
Proof.
  revert s. induction l as [|x l IH]; intros s; [done|]. cbn [visit_list omap list_omap].
  destruct (g x) as [y|]; [|simpl; apply IH]. cbn [visit_list].
  destruct (f y s) as [[[|] s']|]; simpl; [done|apply IH|done].
Qed.

(** The values of the fields with a wanted name. *)
Definition wanted_values {F} (name_of : F -> bytes) (wanted : list F) (fields : list Field) : list (F * bytes) :=
  omap (fun f => name ← f_name f; value ← field_value f; field ← wanted_name name_of wanted name; Some (field, value)) fields.

Lemma visit_fields_wanted {F S E} (name_of : F -> bytes) wanted fields (body : F -> bytes -> S -> result E (bool * S)) s :
  visit_fields fields (fun name value s =>
    match wanted_name name_of wanted name with None => Ok (false, s) | Some field => body field value s end) s =
  visit_list (fun '(field, value) s => body field value s) (wanted_values name_of wanted fields) s.
Proof.
  unfold visit_fields, wanted_values.
  rewrite <-(visit_list_omap (fun '(field, value) s => body field value s)). apply visit_list_ext. intros f s'.
  destruct (f_name f) as [name|]; [|done]. simpl. destruct (field_value f) as [value|]; [|done]. simpl.
  by destruct (wanted_name name_of wanted name).
Qed.

(** The keywords, addresses and identifiers of a header, in order. *)
Definition keywords_of (wanted : list KeywordField) (fields : list Field) : list bytes :=
  wanted_values KeywordField_name wanted fields ≫= (fun '(_, value) => omap valid_keyword_str (keyword_tokens value)).

Definition addresses_of {T : Target} (wanted : list AddressField) (fields : list Field) : list bytes :=
  wanted_values AddressField_name wanted fields ≫= (fun '(_, value) =>
    match remove_comments_and_unfold value with
    | Some value => omap normalize_mailbox (mailbox_elements value)
    | None => []
    end).

Definition identifiers_of {T : Target} (wanted : list IdentifierField) (fields : list Field) : list bytes :=
  wanted_values IdentifierField_name wanted fields ≫= (fun '(field, value) =>
    match remove_comments_and_unfold value with
    | Some value => match field with
                    | IF_ListId => option_list (normalize_list_id value)
                    | _ => message_id_tokens value
                    end
    | None => []
    end).

Section traversal.
Context {St E : Type} (matches : bytes -> St -> result E (bool * St)).

Lemma visit_keywords_list fields wanted st :
  visit_keywords matches fields wanted st =
  visit_list (count_and_visit matches true) (keywords_of wanted fields) {| vs_count := 0; vs_seen := []; vs_visitor := st |}.
Proof.
  unfold visit_keywords, keywords_of. rewrite visit_fields_wanted, <-visit_list_bind.
  apply visit_list_ext. intros [field value] s. apply visit_list_omap.
Qed.

Lemma any_address_list {T : Target} fields wanted st :
  any_address matches fields wanted st =
  fst <$> visit_list (count_and_visit matches false) (addresses_of wanted fields) {| vs_count := 0; vs_seen := []; vs_visitor := st |}.
Proof.
  unfold any_address, visit_addresses, addresses_of. rewrite visit_fields_wanted, <-visit_list_bind. f_equal.
  apply visit_list_ext. intros [field value] s. destruct (remove_comments_and_unfold value); [|done]. apply visit_list_omap.
Qed.

Lemma any_identifier_list {T : Target} fields wanted st :
  any_identifier matches fields wanted st =
  fst <$> visit_list (count_and_visit matches true) (identifiers_of wanted fields) {| vs_count := 0; vs_seen := []; vs_visitor := st |}.
Proof.
  unfold any_identifier, visit_identifiers, identifiers_of. rewrite visit_fields_wanted, <-visit_list_bind. f_equal.
  apply visit_list_ext. intros [field value] s. destruct (remove_comments_and_unfold value) as [v|]; [|done].
  destruct field; try done. destruct (normalize_list_id v) as [i|]; [|done]. change (option_list (Some i)) with [i]. cbn [visit_list].
  destruct (count_and_visit matches true i s) as [[[|] s']|]; done.
Qed.
End traversal.

(** First occurrences only. *)
Definition add_new (acc : list bytes) (k : bytes) : list bytes := if existsb (bytes_eqb k) acc then acc else acc ++ [k].
Definition dedup (l : list bytes) : list bytes := foldl add_new [] l.

Lemma existsb_bytes k l : existsb (bytes_eqb k) l = bool_decide (k ∈ l).
Proof.
  apply eq_true_iff_eq. rewrite existsb_exists, bool_decide_eq_true. split.
  - intros (x & Hx & ->%bytes_eqb_true). by apply list_elem_of_In.
  - intros Hk. exists k. rewrite bytes_eqb_refl. split; [|done]. by apply list_elem_of_In.
Qed.

Lemma dedup_from acc l : NoDup acc -> NoDup (foldl add_new acc l) /\ (forall k, k ∈ foldl add_new acc l <-> k ∈ acc \/ k ∈ l).
Proof.
  revert acc. induction l as [|x l IH]; intros acc Hnd; simpl; [split; [done|set_solver]|].
  unfold add_new at 2 4. rewrite existsb_bytes. case_bool_decide as Hx.
  - destruct (IH acc Hnd) as [H1 H2]. split; [done|]. intros k. rewrite H2. set_solver.
  - destruct (IH (acc ++ [x])) as [H1 H2].
    + apply NoDup_app. split_and!; [done|set_solver|repeat constructor; set_solver].
    + split; [done|]. intros k. rewrite H2. set_solver.
Qed.

Lemma dedup_nodup l : NoDup l -> dedup l = l.
Proof.
  unfold dedup. assert (forall acc, NoDup (acc ++ l) -> foldl add_new acc l = acc ++ l) as H; [|by apply (H [])].
  induction l as [|x l IH]; intros acc Hnd; simpl; [by rewrite app_nil_r|].
  unfold add_new. rewrite existsb_bytes, bool_decide_false.
  - rewrite IH, <-app_assoc by (by rewrite <-app_assoc). done.
  - apply NoDup_app in Hnd as (_ & Hd & _). intros Hx. apply (Hd x Hx). constructor.
Qed.

Lemma count_and_visit_eq {St E} (matches : bytes -> St -> result E (bool * St)) dedup value s :
  count_and_visit matches dedup value s =
  if (MAX_STRUCTURED_HEADER_VALUES <? S (vs_count s))%nat then Err (SV_Header work_limit_error)
  else if dedup && existsb (bytes_eqb value) (vs_seen s) then
    Ok (false, {| vs_count := S (vs_count s); vs_seen := vs_seen s; vs_visitor := vs_visitor s |})
  else
    '(found, st) ← map_err SV_Visitor (matches value (vs_visitor s));
    Ok (found, {| vs_count := S (vs_count s);
                  vs_seen := if dedup then vs_seen s ++ [value] else vs_seen s; vs_visitor := st |}).
Proof. done. Qed.

Lemma add_new_eq acc k : add_new acc k = if existsb (bytes_eqb k) acc then acc else acc ++ [k].
Proof. done. Qed.

(** The collecting visitor. *)
Lemma collect_loop l n acc :
  (n <= MAX_STRUCTURED_HEADER_VALUES)%nat ->
  visit_list (count_and_visit (E := Empty_set) (fun keyword keywords => Ok (false, keywords ++ [keyword])) true) l
    {| vs_count := n; vs_seen := acc; vs_visitor := acc |} =
  if (MAX_STRUCTURED_HEADER_VALUES <? n + length l)%nat then Err (SV_Header work_limit_error)
  else Ok (false, {| vs_count := (n + length l)%nat; vs_seen := foldl add_new acc l; vs_visitor := foldl add_new acc l |}).
Proof.
  revert n acc. induction l as [|k l IH]; intros n acc Hn.
  { simpl. rewrite Nat.add_0_r. by rewrite (proj2 (Nat.ltb_ge _ _)). }
  cbn [visit_list]. rewrite count_and_visit_eq. cbn [vs_count vs_seen vs_visitor length foldl].
  destruct (Nat.ltb_spec MAX_STRUCTURED_HEADER_VALUES (S n)) as [Hlt|Hle].
  - rewrite (proj2 (Nat.ltb_lt _ _)) by lia. done.
  - rewrite <-Nat.add_succ_comm. rewrite add_new_eq. cbn [andb].
    destruct (existsb (bytes_eqb k) acc); cbn; by rewrite IH.
Qed.

(** A pure predicate as visitor: a value already seen did not match. *)
Definition first_match (p : bytes -> bool) (n : nat) (l : list bytes) : option bool :=
  match position p l with
  | Some i => if (n + i <? MAX_STRUCTURED_HEADER_VALUES)%nat then Some true else None
  | None => if (MAX_STRUCTURED_HEADER_VALUES <? n + length l)%nat then None else Some false
  end.

Lemma first_match_cons p n k l :
  first_match p n (k :: l) =
  if p k then (if (n <? MAX_STRUCTURED_HEADER_VALUES)%nat then Some true else None) else first_match p (S n) l.
Proof.
  unfold first_match. cbn [position length]. destruct (p k); [by rewrite Nat.add_0_r|].
  destruct (position p l); cbn [fmap option_fmap option_map]; by rewrite Nat.add_succ_comm.
Qed.

Lemma first_match_full p l : first_match p MAX_STRUCTURED_HEADER_VALUES l = match l with [] => Some false | _ => None end.
Proof.
  unfold first_match. destruct l as [|k l]; [done|]. destruct (position p (k :: l)).
  - by rewrite (proj2 (Nat.ltb_ge _ _)) by lia.
  - cbn [length]. by rewrite (proj2 (Nat.ltb_lt _ _)) by lia.
Qed.

Lemma any_loop {E} (p : bytes -> bool) dedup l n seen :
  (n <= MAX_STRUCTURED_HEADER_VALUES)%nat -> Forall (fun k => p k = false) seen ->
  fst <$> visit_list (count_and_visit (E := E) (fun value (st : unit) => Ok (p value, st)) dedup) l
    {| vs_count := n; vs_seen := seen; vs_visitor := tt |} =
  ok_or (SV_Header work_limit_error) (first_match p n l).
Proof.
  revert n seen. induction l as [|k l IH]; intros n seen Hn Hs.
  { unfold first_match. simpl. rewrite Nat.add_0_r. by rewrite (proj2 (Nat.ltb_ge _ _)). }
  cbn [visit_list]. rewrite count_and_visit_eq. cbn [vs_count vs_seen vs_visitor].
  destruct (Nat.ltb_spec MAX_STRUCTURED_HEADER_VALUES (S n)) as [Hlt|Hle].
  { replace n with MAX_STRUCTURED_HEADER_VALUES by lia. by rewrite first_match_full. }
  rewrite first_match_cons, (proj2 (Nat.ltb_lt _ _)) by lia. cbn [map_err mbind result_bind].
  destruct (dedup && existsb (bytes_eqb k) seen) eqn:Hd.
  - assert (p k = false) as ->; [|by apply IH].
    rewrite existsb_bytes in Hd. apply andb_true_iff in Hd as [_ Hd%bool_decide_eq_true].
    rewrite Forall_forall in Hs. auto.
  - destruct (p k) eqn:Hpk; [done|]. apply IH; [done|]. destruct dedup; [|done].
    apply Forall_app. split; [done|]. by constructor.
Qed.

(** * Tokens *)

Definition words (p : byte -> bool) (l : bytes) : list bytes := filter (fun t => nonempty t = true) (split_on p l).

Lemma split_on_cons {A} (p : A -> bool) l : exists w ws, split_on p l = w :: ws.
Proof.
  induction l as [|x l (w & ws & IH)]; simpl; [eauto|]. rewrite IH. destruct (p x); eauto.
Qed.

Lemma words_sep p x l : p x = true -> words p (x :: l) = words p l.
Proof.
  intros Hx. unfold words. simpl. destruct (split_on_cons p l) as (w & ws & ->). by rewrite Hx, filter_cons_False.
Qed.

Lemma words_seps (p : byte -> bool) s l : Forall (fun x => p x = true) s -> words p (s ++ l) = words p l.
Proof. induction 1; [done|]. cbn [app]. by rewrite words_sep. Qed.

Lemma split_on_word (p : byte -> bool) w l : Forall (fun x => p x = false) w ->
  exists w' ws, split_on p l = w' :: ws /\ split_on p (w ++ l) = (w ++ w') :: ws.
Proof.
  intros Hw. destruct (split_on_cons p l) as (w' & ws & Hl). exists w', ws. split; [done|].
  induction Hw as [|x w Hx Hw IH]; [done|]. simpl. by rewrite IH, Hx.
Qed.

Lemma words_word (p : byte -> bool) w x l : Forall (fun x => p x = false) w -> w <> [] -> p x = true -> words p (w ++ x :: l) = w :: words p l.
Proof.
  intros Hw Hne Hx. destruct (split_on_word p w (x :: l) Hw) as (w' & ws & Hl & Hwl).
  unfold words. rewrite Hwl. simpl in Hl. destruct (split_on_cons p l) as (w2 & ws2 & Hl2). rewrite Hl2, Hx in Hl. injection Hl as <- <-.
  rewrite app_nil_r, filter_cons_True; [by rewrite Hl2|]. unfold nonempty. by rewrite bool_decide_false.
Qed.

Lemma words_last (p : byte -> bool) w : Forall (fun x => p x = false) w -> w <> [] -> words p w = [w].
Proof.
  intros Hw Hne. destruct (split_on_word p w [] Hw) as (w' & ws & Hl & Hwl). rewrite app_nil_r in Hwl.
  unfold words. rewrite Hwl. injection Hl as <- <-. rewrite app_nil_r, filter_cons_True, filter_nil; [done|].
  unfold nonempty. by rewrite bool_decide_false.
Qed.

(** [keywords.join(", ")] *)
Fixpoint join_keywords (l : list bytes) : bytes :=
  match l with [] => [] | w :: l' => match l' with [] => w | _ => w ++ B ", " ++ join_keywords l' end end.

Lemma words_join (p : byte -> bool) l tail :
  p c_COMMA = true -> p c_SP = true -> Forall (fun x => p x = true) tail ->
  Forall (fun w => w <> [] /\ Forall (fun x => p x = false) w) l ->
  words p (join_keywords l ++ tail) = l.
Proof.
  intros Hc Hs Ht. assert (words p tail = []) as Hnil.
  { rewrite <-(app_nil_r tail), words_seps by done. done. }
  induction 1 as [|w l [Hne Hw] Hl IH]; [done|]. cbn [join_keywords]. destruct l as [|w' l].
  - destruct tail as [|x tail]; [rewrite app_nil_r; by apply words_last|].
    apply Forall_cons in Ht as [Hx Ht]. rewrite words_word by done. rewrite <-(app_nil_r tail), words_seps by done. done.
  - rewrite <-!app_assoc. assert (forall r, w ++ B ", " ++ r = w ++ c_COMMA :: c_SP :: r) as -> by done.
    rewrite words_word by done. rewrite words_sep by done. by rewrite IH.
Qed.

Lemma valid_keyword_Some token k :
  valid_keyword_str token = Some k <-> token = k /\ k <> [] /\ Forall (fun b => is_ascii_graphic b = true /\ b <> c_COMMA) k.
Proof.
  unfold valid_keyword_str. case_bool_decide as Hn; [naive_solver|]. cbn [orb].
  destruct (forallb _ token) eqn:Hf; cbn [negb].
  - rewrite forallb_forall in Hf. split; [|by intros (-> & _)]. intros [= <-]. split_and!; [done|done|].
    apply Forall_forall. intros b Hb%list_elem_of_In. apply Hf, andb_true_iff in Hb as [? Hb%negb_true_iff%Z.eqb_neq]. done.
  - split; [done|]. intros (-> & _ & Hk). apply not_true_iff_false in Hf. destruct Hf. apply forallb_forall.
    intros b Hb%list_elem_of_In. rewrite Forall_forall in Hk. destruct (Hk b Hb) as [-> ?]. cbn [andb].
    by apply negb_true_iff, Z.eqb_neq.
Qed.

Definition keyword_ok (k : bytes) : Prop := valid_keyword_str k = Some k.

Lemma keyword_ok_spec k : keyword_ok k <-> k <> [] /\ Forall (fun b => is_ascii_graphic b = true /\ b <> c_COMMA) k.
Proof. unfold keyword_ok. rewrite valid_keyword_Some. naive_solver. Qed.

Lemma keyword_no_sep k (p : byte -> bool) :
  keyword_ok k -> (forall b, is_ascii_graphic b = true -> b <> c_COMMA -> p b = false) ->
  k <> [] /\ Forall (fun x => p x = false) k.
Proof. rewrite keyword_ok_spec. intros [? Hk] Hp. split; [done|]. eapply Forall_impl; [exact Hk|]. naive_solver. Qed.

Lemma omap_valid l : Forall keyword_ok l -> omap valid_keyword_str l = l.
Proof. induction 1 as [|k l Hk Hl IH]; [done|]. cbn [omap list_omap]. rewrite Hk. by f_equal. Qed.

Lemma configured_loop_spec tokens n acc :
  (n <= MAX_STRUCTURED_HEADER_VALUES)%nat ->
  configured_loop tokens n acc =
  match position (fun t => bool_decide (valid_keyword_str t = None)) tokens with
  | Some i => if (n + i <=? MAX_STRUCTURED_HEADER_VALUES)%nat then Err CK_InvalidToken else Err (CK_TooMany MAX_STRUCTURED_HEADER_VALUES)
  | None => if (MAX_STRUCTURED_HEADER_VALUES <? n + length tokens)%nat then Err (CK_TooMany MAX_STRUCTURED_HEADER_VALUES)
            else Ok (foldl add_new acc tokens)
  end.
Proof.
  revert n acc. induction tokens as [|t tokens IH]; intros n acc Hn; cbn [configured_loop position length foldl].
  { rewrite Nat.add_0_r. by rewrite (proj2 (Nat.ltb_ge _ _)). }
  destruct (valid_keyword_str t) as [k|] eqn:Hk.
  2: { rewrite bool_decide_true by done. by rewrite Nat.add_0_r, (proj2 (Nat.leb_le _ _)). }
  rewrite bool_decide_false by done. apply valid_keyword_Some in Hk as (<- & _).
  destruct (Nat.ltb_spec MAX_STRUCTURED_HEADER_VALUES (S n)) as [Hlt|Hle].
  - destruct (position _ tokens); cbn [fmap option_fmap option_map];
      [by rewrite (proj2 (Nat.leb_gt _ _)) by lia|by rewrite (proj2 (Nat.ltb_lt _ _)) by lia].
  - rewrite IH, <-Nat.add_succ_comm by lia. rewrite <-add_new_eq.
    destruct (position _ tokens); cbn [fmap option_fmap option_map]; [by rewrite Nat.add_succ_comm|done].
Qed.

Lemma parse_configured_keywords_ok value keywords :
  parse_configured_keywords value = Ok keywords ->
  keywords <> [] /\ NoDup keywords /\ Forall keyword_ok keywords /\ (length keywords <= MAX_STRUCTURED_HEADER_VALUES)%nat.
Proof.
  unfold parse_configured_keywords. rewrite configured_loop_spec by lia.
  fold (words (fun b => (b =? c_SP) || (b =? c_TAB) || (b =? c_COMMA)) value). set (tokens := words _ _).
  destruct (position _ tokens) eqn:Hp; [case_match; done|].
  destruct (Nat.ltb_spec MAX_STRUCTURED_HEADER_VALUES (0 + length tokens)) as [|Hlen]; [done|].
  cbn [mbind result_bind]. case_bool_decide as Hne; [done|]. intros [= <-].
  destruct (dedup_from [] tokens) as [Hnd Hel]; [constructor|]. fold (dedup tokens) in *.
  split_and!; [done|done| |].
  - apply Forall_forall. intros k Hk. apply Hel in Hk as [Hk|Hk]; [by apply not_elem_of_nil in Hk|].
    apply position_None in Hp. rewrite Forall_forall in Hp. specialize (Hp k Hk). simpl in Hp.
    apply bool_decide_eq_false in Hp. unfold keyword_ok. destruct (valid_keyword_str k) as [k'|] eqn:Hv; [|done].
    apply valid_keyword_Some in Hv as [-> _]. done.
  - etrans; [|exact Hlen]. apply submseteq_length, NoDup_submseteq; [done|].
    intros k Hk. apply Hel in Hk as [Hk|Hk]; [by apply not_elem_of_nil in Hk|done].
Qed.

(** * Addresses *)

Definition lower (l : bytes) : bytes := to_ascii_lowercase <$> l.

Lemma trim_ascii_id l :
  (forall b, head l = Some b -> is_ascii_whitespace b = false) ->
  (forall b, last l = Some b -> is_ascii_whitespace b = false) -> trim_ascii l = l.
Proof.
  intros Hh Hl. unfold trim_ascii, trim_end.
  assert (trim_start l = l) as ->. { destruct l as [|b l]; [done|]. simpl. by rewrite (Hh b). }
  assert (trim_start (reverse l) = reverse l) as ->; [|by rewrite reverse_involutive].
  destruct (reverse l) as [|b k] eqn:Hr; [done|]. simpl. rewrite (Hl b); [done|].
  rewrite <-(reverse_involutive l), Hr, reverse_cons. apply last_snoc.
Qed.

(** A byte that does not move the scanner outside quotes and brackets. *)
Definition neutral (b : byte) : bool :=
  negb ((b =? c_QUOTE) || (b =? c_LBRACK) || (b =? c_RBRACK) || (b =? c_AT) || (b =? c_BSLASH)).

Lemma addr_loop_neutral l at_ i rest :
  forallb neutral l = true ->
  addr_loop {| as_at := at_; as_quoted := false; as_bracketed := false; as_escaped := false |} i (l ++ rest) =
  addr_loop {| as_at := at_; as_quoted := false; as_bracketed := false; as_escaped := false |} (i + length l) rest.
Proof.
  revert i. induction l as [|b l IH]; intros i Hn; [by rewrite Nat.add_0_r|].
  apply andb_true_iff in Hn as [Hb Hn]. unfold neutral in Hb. apply negb_true_iff in Hb.
  rewrite !orb_false_iff in Hb. destruct Hb as [[[[H1 H2] H3] H4] H5].
  cbn [app addr_loop]. unfold addr_step at 1. cbn. rewrite H1, H2, H3, H4. cbn. rewrite IH by done. f_equal. lia.
Qed.

Lemma addr_loop_quoted l at_ i rest e :
  valid_quoted l e = true ->
  addr_loop {| as_at := at_; as_quoted := true; as_bracketed := false; as_escaped := e |} i (l ++ rest) =
  addr_loop {| as_at := at_; as_quoted := true; as_bracketed := false; as_escaped := false |} (i + length l) rest.
Proof.
  revert i e. induction l as [|b l IH]; intros i e Hv; cbn [valid_quoted] in Hv.
  { apply negb_true_iff in Hv as ->. by rewrite Nat.add_0_r. }
  cbn [app addr_loop length]. rewrite <-Nat.add_succ_comm. unfold addr_step at 1. cbn. destruct e.
  - apply andb_true_iff in Hv as [_ Hv]. cbn. by apply IH.
  - destruct (b =? c_BSLASH); [cbn; by apply IH|]. apply andb_true_iff in Hv as [Hb Hv].
    apply andb_true_iff in Hb as [_ Hb%negb_true_iff]. rewrite !orb_false_iff in Hb. destruct Hb as [[[-> _] _] _].
    cbn. rewrite ?andb_false_r. cbn. rewrite ?andb_false_r. by apply IH.
Qed.

Lemma addr_loop_bracketed l at_ i rest :
  forallb (fun b => negb ((b =? c_LBRACK) || (b =? c_RBRACK))) l = true ->
  addr_loop {| as_at := at_; as_quoted := false; as_bracketed := true; as_escaped := false |} i (l ++ rest) =
  addr_loop {| as_at := at_; as_quoted := false; as_bracketed := true; as_escaped := false |} (i + length l) rest.
Proof.
  revert i. induction l as [|b l IH]; intros i Hn; [by rewrite Nat.add_0_r|].
  apply andb_true_iff in Hn as [Hb Hn]. apply negb_true_iff in Hb. rewrite !orb_false_iff in Hb. destruct Hb as [H1 H2].
  cbn [app addr_loop length]. rewrite <-Nat.add_succ_comm. unfold addr_step at 1. cbn. rewrite H1, H2, ?andb_false_r. cbn. rewrite ?andb_false_r. by apply IH.
Qed.

Lemma enclosed_split l open close : enclosed l open close = true -> l = open :: inside l ++ [close].
Proof.
  unfold enclosed. intros [[Hlen%Nat.leb_le Hh%bool_decide_eq_true]%andb_true_iff Hl%bool_decide_eq_true]%andb_true_iff.
  destruct l as [|b l]; [done|]. injection Hh as ->. apply last_Some in Hl as [k Hk].
  destruct k as [|b k]; injection Hk as <- ->; [simpl in Hlen; lia|].
  unfold inside, slice. cbn [length drop]. rewrite length_snoc.
  replace (S (S (length k)) - 1 - 1)%nat with (length k) by lia. by rewrite drop_0, take_app_length.
Qed.

Lemma dot_atom_neutral l : valid_dot_atom l = true -> forallb neutral l = true.
Proof.
  unfold valid_dot_atom. intros [_ H]%andb_true_iff. rewrite forallb_forall in *. intros b Hb. specialize (H b Hb).
  unfold neutral. apply negb_true_iff, not_true_iff_false. rewrite !orb_true_iff, !Z.eqb_eq.
  intros [[[[->| ->]| ->]| ->]| ->]; vm_compute in H; done.
Qed.

Lemma dot_atom_ends l b : valid_dot_atom l = true -> head l = Some b \/ last l = Some b -> is_ascii_whitespace b = false.
Proof.
  unfold valid_dot_atom. intros [_ H]%andb_true_iff Hb. rewrite forallb_forall in H.
  assert (b ∈ l) as Hin.
  { destruct Hb as [Hb|Hb]; [destruct l as [|x l]; [done|injection Hb as ->; constructor]|].
    apply last_Some in Hb as [k ->]. set_solver. }
  apply list_elem_of_In, H in Hin. apply not_true_iff_false. unfold is_ascii_whitespace.
  rewrite !orb_true_iff, !Z.eqb_eq. intros [[[[->| ->]| ->]| ->]| ->]; vm_compute in Hin; done.
Qed.

Lemma enclosed_ends l open close b :
  enclosed l open close = true -> is_ascii_whitespace open = false -> is_ascii_whitespace close = false ->
  head l = Some b \/ last l = Some b -> is_ascii_whitespace b = false.
Proof.
  unfold enclosed. intros [[_ Hh%bool_decide_eq_true]%andb_true_iff Hl%bool_decide_eq_true]%andb_true_iff.
  intros Ho Hc [Hb|Hb]; congruence.
Qed.

Lemma lower_byte_idem b : to_ascii_lowercase (to_ascii_lowercase b) = to_ascii_lowercase b.
Proof.
  unfold to_ascii_lowercase at 2 3. destruct (is_ascii_uppercase b) eqn:H; unfold to_ascii_lowercase; [|by rewrite H].
  assert (is_ascii_uppercase (b + 32) = false) as ->; [|done].
  unfold is_ascii_uppercase, between in *. lia.
Qed.

Lemma lower_idem l : lower (lower l) = lower l.
Proof. unfold lower. rewrite <-list_fmap_compose. apply list_fmap_ext. intros i b _. apply lower_byte_idem. Qed.

Lemma lower_byte_cases b : to_ascii_lowercase b = b \/ (65 <= b <= 90 /\ to_ascii_lowercase b = b + 32).
Proof. unfold to_ascii_lowercase, is_ascii_uppercase, between. destruct (_ && _) eqn:H; [right; lia|by left]. Qed.

Lemma lower_byte_eqb b c : ~ (65 <= c <= 90) -> ~ (97 <= c <= 122) -> (to_ascii_lowercase b =? c) = (b =? c).
Proof. intros. destruct (lower_byte_cases b) as [->|[? ->]]; [done|]. lia. Qed.

Lemma lower_byte_atext b : is_atext b = true -> is_atext (to_ascii_lowercase b) = true.
Proof.
  intros H. destruct (lower_byte_cases b) as [->|[? ->]]; [done|]. unfold is_atext. apply orb_true_iff. left.
  unfold is_ascii_alphanumeric, is_ascii_lowercase, is_ascii_digit, is_ascii_uppercase, between. lia.
Qed.

Lemma head_lower l : head (lower l) = to_ascii_lowercase <$> head l.
Proof. by destruct l. Qed.

Lemma last_lower l : last (lower l) = to_ascii_lowercase <$> last l.
Proof. apply fmap_last. Qed.

Lemma lower_dot o : (to_ascii_lowercase <$> o) = Some c_DOT <-> o = Some c_DOT.
Proof.
  destruct o as [b|]; simpl; [|done]. split; [|by intros [= ->]]. intros [= H]. f_equal.
  apply Z.eqb_eq. apply Z.eqb_eq in H. by rewrite lower_byte_eqb in H by lia.
Qed.

Lemma lower_dot_atom l : valid_dot_atom l = true -> valid_dot_atom (lower l) = true.
Proof.
  unfold valid_dot_atom. rewrite !andb_true_iff, !negb_true_iff, !bool_decide_eq_false.
  intros ((((H1 & H2) & H3) & H4) & H5). split_and!.
  - by destruct l.
  - rewrite head_lower, lower_dot. done.
  - rewrite last_lower, lower_dot. done.
  - clear -H4. induction l as [|a l IH]; [done|]. change (lower (a :: l)) with (to_ascii_lowercase a :: lower l).
    cbn [has_dotdot] in *. apply orb_false_iff in H4 as [Ha Hl]. rewrite IH, orb_false_r by done.
    rewrite lower_byte_eqb by lia. rewrite head_lower. rewrite <-Ha. f_equal. apply bool_decide_ext, lower_dot.
  - rewrite forallb_forall in *. intros b Hb%list_elem_of_In. apply list_elem_of_fmap in Hb as (x & -> & Hx%list_elem_of_In).
    apply lower_byte_atext. auto.
Qed.

Definition literal_byte (b : byte) : bool := is_ascii_graphic b && negb ((b =? c_LBRACK) || (b =? c_RBRACK) || (b =? c_BSLASH)).

Lemma lower_domain d : valid_domain d = true -> valid_domain (lower d) = true.
Proof.
  unfold valid_domain. assert (enclosed (lower d) c_LBRACK c_RBRACK = enclosed d c_LBRACK c_RBRACK) as ->.
  { unfold enclosed, lower. rewrite length_fmap. fold (lower d). rewrite head_lower, last_lower. f_equal; [f_equal|];
      apply bool_decide_ext.
    - destruct (head d) as [b|]; simpl; [|done]. split; [|by intros [= ->]]. intros [= H]. f_equal.
      apply Z.eqb_eq. apply Z.eqb_eq in H. by rewrite lower_byte_eqb in H by lia.
    - destruct (last d) as [b|]; simpl; [|done]. split; [|by intros [= ->]]. intros [= H]. f_equal.
      apply Z.eqb_eq. apply Z.eqb_eq in H. by rewrite lower_byte_eqb in H by lia. }
  destruct (enclosed d c_LBRACK c_RBRACK) eqn:He; [|apply lower_dot_atom].
  intros H. assert (inside (lower d) = lower (inside d)) as ->.
  { unfold inside, slice, lower. by rewrite length_fmap, fmap_take, fmap_drop. }
  rewrite forallb_forall in *. intros b Hb%list_elem_of_In. apply list_elem_of_fmap in Hb as (x & -> & Hx%list_elem_of_In).
  specialize (H x Hx). destruct (lower_byte_cases x) as [->|[? ->]]; [done|].
  unfold is_ascii_graphic, between. rewrite !(proj2 (Z.eqb_neq _ _)) by lia. cbn [orb negb]. lia.
Qed.

(** What an address without display text looks like to the scanner. *)
Lemma addr_loop_address local domain :
  valid_local local = true -> valid_domain domain = true ->
  addr_loop addr_start 0 (local ++ c_AT :: domain) =
  Some {| as_at := Some (length local); as_quoted := false; as_bracketed := false; as_escaped := false |}.
Proof.
  intros Hl Hd. unfold addr_start.
  assert (forall rest, addr_loop {| as_at := None; as_quoted := false; as_bracketed := false; as_escaped := false |} 0 (local ++ rest) =
    addr_loop {| as_at := None; as_quoted := false; as_bracketed := false; as_escaped := false |} (length local) rest) as ->.
  { intros rest. unfold valid_local in Hl. destruct (enclosed local c_QUOTE c_QUOTE) eqn:He.
    - apply enclosed_split in He. rewrite He. cbn [app addr_loop]. cbn [addr_step as_escaped as_quoted as_bracketed as_at andb negb].
      change (c_QUOTE =? c_QUOTE) with true. cbn [andb negb mbind option_bind].
      rewrite <-app_assoc, addr_loop_quoted by done. cbn [app addr_loop].
      change (addr_step ?s ?i c_QUOTE) with (addr_step s i c_QUOTE). cbn [addr_step as_escaped as_quoted as_bracketed as_at andb negb].
      change (c_QUOTE =? c_BSLASH) with false. change (c_QUOTE =? c_QUOTE) with true. cbn [andb negb mbind option_bind].
      cbn [length]. by rewrite length_snoc.
    - apply dot_atom_neutral in Hl. by rewrite addr_loop_neutral. }
  cbn [addr_loop]. change (addr_step _ _ c_AT) with (Some {| as_at := Some (length local); as_quoted := false; as_bracketed := false; as_escaped := false |}).
  cbn [mbind option_bind]. unfold valid_domain in Hd. destruct (enclosed domain c_LBRACK c_RBRACK) eqn:He.
  - apply enclosed_split in He. rewrite He. cbn [app addr_loop].
    change (addr_step _ _ c_LBRACK) with (Some {| as_at := Some (length local); as_quoted := false; as_bracketed := true; as_escaped := false |}).
    cbn [mbind option_bind]. rewrite addr_loop_bracketed; [done|].
    rewrite forallb_forall in *. intros b Hb. specialize (Hd b Hb). apply andb_true_iff in Hd as [_ Hd%negb_true_iff].
    rewrite !orb_false_iff in Hd. destruct Hd as [[-> ->] _]. done.
  - apply dot_atom_neutral in Hd. rewrite <-(app_nil_r domain). by rewrite addr_loop_neutral.
Qed.

Lemma valid_local_ends l b : valid_local l = true -> head l = Some b \/ last l = Some b -> is_ascii_whitespace b = false.
Proof.
  unfold valid_local. destruct (enclosed l c_QUOTE c_QUOTE) eqn:He; intros H Hb; [by eapply enclosed_ends|by eapply dot_atom_ends].
Qed.
Lemma valid_domain_ends l b : valid_domain l = true -> head l = Some b \/ last l = Some b -> is_ascii_whitespace b = false.
Proof.
  unfold valid_domain. destruct (enclosed l c_LBRACK c_RBRACK) eqn:He; intros H Hb; [by eapply enclosed_ends|by eapply dot_atom_ends].
Qed.

(** The canonical form of an address. *)
Lemma normalize_canonical local domain :
  valid_local local = true -> valid_domain domain = true ->
  normalize_addr_spec (local ++ c_AT :: domain) = Some (local ++ c_AT :: lower domain).
Proof.
  intros Hl Hd. unfold normalize_addr_spec. rewrite addr_loop_address by done. cbn [mbind option_bind as_quoted as_bracketed as_escaped orb as_at].
  rewrite take_app_length, (snoc_app local), drop_app_ge by (rewrite length_snoc; lia).
  rewrite length_snoc, Nat.sub_diag, drop_0.
  rewrite (trim_ascii_id local) by (intros b Hb; eapply valid_local_ends; eauto).
  rewrite (trim_ascii_id domain) by (intros b Hb; eapply valid_domain_ends; eauto).
  by rewrite Hl, Hd.
Qed.

(** * Properties *)

(** [collect_keywords] on any header: the distinct keywords of the
    wanted fields, in order of first occurrence, unless more than 4096 tokens
    (duplicates counted) would have to be looked at, which is an error. *)
Theorem collect_keywords_spec fields wanted :
  collect_keywords fields wanted =
  if (MAX_STRUCTURED_HEADER_VALUES <? length (keywords_of wanted fields))%nat then Err work_limit_error
  else Ok (dedup (keywords_of wanted fields)).
Proof.
  unfold collect_keywords. rewrite visit_keywords_list, collect_loop by lia. simpl Nat.add.
  by destruct (_ <? _)%nat.
Qed.

(** A search stops at the first value that matches, and never looks at
    more than 4096 values: it answers [true] when a value among the first 4096
    matches, [false] when there are at most 4096 and none does, and the limit
    error otherwise.  This holds for addresses, identifiers and keywords. *)
Theorem any_value_bounded {T : Target} (p : bytes -> bool) fields addresses identifiers keywords :
  let visitor := fun value (st : unit) => Ok (p value, st) : result Empty_set (bool * unit) in
  any_address visitor fields addresses tt = ok_or (SV_Header work_limit_error) (first_match p 0 (addresses_of addresses fields)) /\
  any_identifier visitor fields identifiers tt = ok_or (SV_Header work_limit_error) (first_match p 0 (identifiers_of identifiers fields)) /\
  any_keyword visitor fields keywords tt = ok_or (SV_Header work_limit_error) (first_match p 0 (keywords_of keywords fields)).
Proof.
  cbv zeta. split_and!.
  - rewrite any_address_list. apply any_loop; [lia|constructor].
  - rewrite any_identifier_list. apply any_loop; [lia|constructor].
  - unfold any_keyword. rewrite visit_keywords_list. apply any_loop; [lia|constructor].
Qed.

(** Configured keywords survive a round trip through a header field.
    What [parse_configured_keywords] accepts is a non-empty duplicate-free
    list of at most 4096 keywords; written as [join(", ")] it parses back to
    itself, and a field that carries it yields exactly that list again. *)
Theorem keywords_roundtrip value keywords name line_ending :
  parse_configured_keywords value = Ok keywords ->
  NoDup keywords /\ (length keywords <= MAX_STRUCTURED_HEADER_VALUES)%nat /\
  parse_configured_keywords (join_keywords keywords) = Ok keywords /\
  (forall field wanted, line_ending = [c_LF] \/ line_ending = [c_CR; c_LF] ->
     f_name field = Some name -> field_value field = Some (c_SP :: join_keywords keywords ++ line_ending) ->
     is_Some (wanted_name KeywordField_name wanted name) -> collect_keywords [field] wanted = Ok keywords).
Proof.
  intros H. destruct (parse_configured_keywords_ok _ _ H) as (Hne & Hnd & Hok & Hlen).
  assert (forall p : byte -> bool, (forall b, is_ascii_graphic b = true -> b <> c_COMMA -> p b = false) ->
    Forall (fun w => w <> [] /\ Forall (fun x => p x = false) w) keywords) as Hsep.
  { intros p Hp. eapply Forall_impl; [exact Hok|]. intros k Hk. by apply keyword_no_sep. }
  split_and!; [done|done| |].
  - unfold parse_configured_keywords. rewrite configured_loop_spec by lia.
    fold (words (fun b => (b =? c_SP) || (b =? c_TAB) || (b =? c_COMMA)) (join_keywords keywords)).
    rewrite <-(app_nil_r (join_keywords keywords)), words_join; [|done|done|constructor|].
    2: { apply Hsep. intros b Hb Hc. unfold is_ascii_graphic, between in Hb. lia. }
    rewrite (proj2 (position_None _ _)).
    2: { eapply Forall_impl; [exact Hok|]. intros k Hk. simpl. unfold keyword_ok in Hk. by rewrite Hk. }
    rewrite (proj2 (Nat.ltb_ge _ _)) by done. fold (dedup keywords). rewrite dedup_nodup by done.
    cbn [mbind result_bind]. by rewrite bool_decide_false.
  - intros field wanted Hle Hn Hv [f Hf]. rewrite collect_keywords_spec.
    assert (keywords_of wanted [field] = keywords) as Hk.
    { unfold keywords_of. assert (wanted_values KeywordField_name wanted [field] = [(f, c_SP :: join_keywords keywords ++ line_ending)]) as ->.
      { unfold wanted_values. cbn [omap list_omap]. rewrite Hn. cbn [mbind option_bind]. rewrite Hv. cbn [option_bind]. by rewrite Hf. }
      rewrite bind_cons, app_nil_r.
      unfold keyword_tokens. fold (words (fun b => is_ascii_whitespace b || (b =? c_COMMA)) (c_SP :: join_keywords keywords ++ line_ending)).
      rewrite words_sep, words_join; [|done|done| | |done].
      - by apply omap_valid.
      - destruct Hle as [-> | ->]; repeat constructor.
      - apply Hsep. intros b Hb Hc. unfold is_ascii_graphic, is_ascii_whitespace, between in *. lia. }
    rewrite Hk, (proj2 (Nat.ltb_ge _ _)) by done. by rewrite dedup_nodup.
Qed.

(** Address normalization yields a canonical form: a valid local part
    kept byte for byte, one at-sign, and a valid domain in lower case; the
    canonical form normalizes to itself, and the letter case of the domain
    never distinguishes two addresses. *)
Theorem normalize_addr_spec_canonical input out :
  normalize_addr_spec input = Some out ->
  normalize_addr_spec out = Some out /\
  exists local domain, out = local ++ c_AT :: domain /\ valid_local local = true /\ valid_domain domain = true /\ lower domain = domain.
Proof.
  unfold normalize_addr_spec at 1. intros (s & _ & H)%bind_Some.
  destruct (_ || _ || _); [done|]. apply bind_Some in H as (at_ & _ & H).
  destruct (negb _ || negb _) eqn:Hv; [done|]. injection H as <-.
  apply orb_false_iff in Hv as [Hl%negb_false_iff Hd%negb_false_iff]. apply lower_domain in Hd as Hd'.
  split; [|by eexists _, _; split_and!; [done|done|exact Hd'|apply lower_idem]].
  fold (lower (trim_ascii (drop (S at_) input))). rewrite normalize_canonical by done. by rewrite lower_idem.
Qed.

Lemma keywords_roundtrip_witness :
  parse_configured_keywords (B "work, urgent work") = Ok [B "work"; B "urgent"] /\
  collect_keywords [field_from_bytes (B "X-Label: work, urgent" ++ [13; 10])] KeywordField_ALL = Ok [B "work"; B "urgent"].
Proof.
  assert (parse_configured_keywords (B "work, urgent work") = Ok [B "work"; B "urgent"]) as H by (vm_compute; reflexivity).
  split; [exact H|].
  apply (keywords_roundtrip _ _ (B "X-Label") [c_CR; c_LF] H); [by right|reflexivity|reflexivity|vm_compute; eauto].
Defined.

Lemma normalize_addr_spec_canonical_witness :
  normalize_addr_spec (B " Some.One @EXAMPLE.org") = Some (B "Some.One@example.org") /\
  normalize_addr_spec (B "Some.One@example.org") = Some (B "Some.One@example.org").
Proof.
  assert (normalize_addr_spec (B " Some.One @EXAMPLE.org") = Some (B "Some.One@example.org")) as H by (vm_compute; reflexivity).
  split; [exact H|]. exact (proj1 (normalize_addr_spec_canonical _ _ H)).
Defined.
