(* ===== verification/Mime.v ===== *)
(** MIME sections: [src/src/mime.rs].  The media type, disposition and file
    name of a part are parsed from its header, and a multipart body is cut at
    its boundary lines, to a bounded depth and a bounded number of parts.  The
    walk is proved to visit exactly the parts a body was assembled from. *)
From S2P Require Import Prelude Config Limits HeaderValue HeaderFields StructuredHeader.

(** Source: mime.rs `pub(crate) const MAX_MIME_DEPTH` *)
Definition MAX_MIME_DEPTH : nat := 8.
(** Source: mime.rs `pub(crate) const MAX_MIME_PARTS` *)
Definition MAX_MIME_PARTS : nat := 256.
(** Source: mime.rs `const MAX_BOUNDARY_LEN` *)
Definition MAX_BOUNDARY_LEN : nat := 128.

(** Source: mime.rs `pub(crate) struct MimePart` *)
Record MimePart := { mp_mimetype : option bytes; mp_disposition : option bytes; mp_filename : option bytes }.
(** Source: mime.rs `pub(crate) struct ParsedContentType` *)
Record ParsedContentType := { ct_mimetype : option bytes; ct_boundary : option bytes; ct_name : option bytes }.
(** Source: mime.rs `pub(crate) struct ParsedContentDisposition` *)
Record ParsedContentDisposition := { cd_disposition : option bytes; cd_filename : option bytes }.

Definition no_content_type : ParsedContentType := {| ct_mimetype := None; ct_boundary := None; ct_name := None |}.
Definition no_disposition : ParsedContentDisposition := {| cd_disposition := None; cd_filename := None |}.

(** * Parameters *)

(** Source: mime.rs `fn trim_ascii` *)
Definition mime_trim (l : bytes) : bytes :=
  let start := default (length l) (position (fun b => negb (is_ascii_whitespace b)) l) in
  let end_ := match rposition (fun b => negb (is_ascii_whitespace b)) l with Some idx => S idx | None => O end in
  if (end_ <=? start)%nat then [] else slice start end_ l.

(** The closure of [split_mime_parameters]: [quoted] and [escaped]. *)
Definition parameter_separator (s : bool * bool) (b : byte) : bool * (bool * bool) :=
  let '(quoted, escaped) := s in
  if escaped : bool then (false, (quoted, false))
  else if quoted && (b =? c_BSLASH) then (false, (quoted, true))
  else if b =? c_QUOTE then (false, (negb quoted, false))
  else (negb quoted && (b =? c_SEMI), (quoted, false)).

(** Source: mime.rs `fn split_mime_parameters` *)
Definition split_mime_parameters (input : bytes) : list bytes := split_with parameter_separator (false, false) input.

(** The scanner of [structured_header.rs] repeated.
    Source: mime.rs `fn find_unquoted_char` *)
Definition find_unquoted_char (input : bytes) (target : byte) : option nat := find_unquoted input target.

Fixpoint unescape (inner : bytes) (escaped : bool) : bytes :=
  match inner with
  | [] => []
  | b :: inner' =>
      if escaped then b :: unescape inner' false
      else if b =? c_BSLASH then unescape inner' true
      else b :: unescape inner' false
  end.
(** Source: mime.rs `fn unquote_mime_value` *)
Definition unquote_mime_value (value : bytes) : bytes :=
  let value := mime_trim value in
  if enclosed value c_QUOTE c_QUOTE then unescape (inside value) false else value.

(** Source: mime.rs `fn from_hex_digit` *)
Definition from_hex_digit (b : byte) : option Z :=
  if between c_0 c_9 b then Some (b - c_0)
  else if between c_a 102 b then Some (b - c_a + 10)
  else if between c_A 70 b then Some (b - c_A + 10)
  else None.

(** Source: mime.rs `fn percent_decode` *)
Fixpoint percent_decode (input : bytes) : bytes :=
  match input with
  | [] => []
  | b :: rest =>
      if b =? c_PERCENT then
        match rest with
        | d1 :: (d2 :: rest') =>
            match from_hex_digit d1, from_hex_digit d2 with
            | Some h1, Some h2 => Z.lor (Z.shiftl h1 4) h2 :: percent_decode rest'
            | _, _ => b :: percent_decode rest
            end
        | _ => b :: percent_decode rest
        end
      else b :: percent_decode rest
  end.

(** Source: mime.rs `fn decode_rfc2231` *)
Definition decode_rfc2231 (value : bytes) : bytes :=
  let payload :=
    match position (Z.eqb c_APOS) value with
    | Some first_quote =>
        match position (Z.eqb c_APOS) (drop (S first_quote) value) with
        | Some second_quote => drop (first_quote + 1 + second_quote + 1)%nat value
        | None => value
        end
    | None => value
    end in
  percent_decode payload.

Section parameters.
Context {T : Target}.

(** Source: mime.rs `fn parse_parameter` *)
Definition parse_parameter (param : bytes) : option (bytes * bytes) :=
  let param := mime_trim param in
  eq ← find_unquoted_char param c_EQ;
  let name := mime_trim (take eq param) in
  let value := mime_trim (drop (S eq) param) in
  if bool_decide (name = []) then None
  else
    let is_extended := ends_with name [c_STAR] in
    let clean_name := to_ascii_lowercase <$> (if is_extended then take (length name - 1) name else name) in
    let unquoted := unquote_mime_value value in
    let final_value :=
      if is_extended then decode_rfc2231 unquoted
      else if bool_decide (is_Some (find_window (B "=?") unquoted)) then
        match decode_rfc2047 unquoted MAX_ASSIGNMENT_VALUE_LEN with Ok decoded => decoded | Err _ => unquoted end
      else unquoted in
    Some (clean_name, final_value).

(** Source: mime.rs `fn is_mime_token` *)
Definition is_mime_token (token : bytes) : bool :=
  negb (bool_decide (token = [])) &&
  forallb (fun b => is_ascii_graphic b &&
                    negb (existsb (Z.eqb b) [c_LPAREN; c_RPAREN; c_LT; c_GT; c_AT; c_COMMA; c_SEMI; c_COLON; c_BSLASH;
                                             c_QUOTE; c_SLASH; c_LBRACK; c_RBRACK; c_QM; c_EQ])) token.

(** Source: mime.rs `fn parse_media_type` *)
Definition parse_media_type (input : bytes) : option bytes :=
  let input := mime_trim input in
  slash ← position (Z.eqb c_SLASH) input;
  let main_type := take slash input in
  let subtype := drop (S slash) input in
  if bool_decide (main_type = []) || bool_decide (subtype = []) then None
  else if negb (is_mime_token main_type) || negb (is_mime_token subtype) then None
  else Some ((to_ascii_lowercase <$> main_type) ++ c_SLASH :: (to_ascii_lowercase <$> subtype)).

(** Source: mime.rs `fn parse_disposition_type` *)
Definition parse_disposition_type (input : bytes) : option bytes :=
  let input := mime_trim input in
  if is_mime_token input then Some (to_ascii_lowercase <$> input) else None.

(** One parameter of the loop of [parse_content_type]. *)
Definition content_type_param (s : option bytes * option bytes) (param : bytes) : option bytes * option bytes :=
  let '(boundary, name) := s in
  match parse_parameter param with
  | None => s
  | Some (param_name, param_value) =>
      if bytes_eqb param_name (B "boundary") && bool_decide (boundary = None) then
        (if negb (bool_decide (param_value = [])) && (length param_value <=? MAX_BOUNDARY_LEN)%nat
         then Some param_value else boundary, name)
      else if bytes_eqb param_name (B "name") && bool_decide (name = None) && negb (bool_decide (param_value = []))
      then (boundary, Some param_value)
      else s
  end.

(** Source: mime.rs `pub(crate) fn parse_content_type` *)
Definition parse_content_type (value : bytes) : ParsedContentType :=
  match remove_comments_and_unfold value with
  | None => no_content_type
  | Some cleaned =>
      match split_mime_parameters cleaned with
      | [] => no_content_type
      | first :: params =>
          let '(boundary, name) := foldl content_type_param (None, None) params in
          {| ct_mimetype := parse_media_type first; ct_boundary := boundary; ct_name := name |}
      end
  end.

Definition disposition_param (filename : option bytes) (param : bytes) : option bytes :=
  match parse_parameter param with
  | None => filename
  | Some (param_name, param_value) =>
      if bytes_eqb param_name (B "filename") && bool_decide (filename = None) && negb (bool_decide (param_value = []))
      then Some param_value else filename
  end.

(** Source: mime.rs `pub(crate) fn parse_content_disposition` *)
Definition parse_content_disposition (value : bytes) : ParsedContentDisposition :=
  match remove_comments_and_unfold value with
  | None => no_disposition
  | Some cleaned =>
      match split_mime_parameters cleaned with
      | [] => no_disposition
      | first :: params =>
          {| cd_disposition := parse_disposition_type first; cd_filename := foldl disposition_param None params |}
      end
  end.

Definition header_field_step (s : option ParsedContentType * option ParsedContentDisposition) (f : Field) :=
  let '(content_type, content_disposition) := s in
  match f_name f, field_value f with
  | Some name, Some value =>
      if eq_ignore_ascii_case name (B "Content-Type") && negb (bool_decide (is_Some content_type))
      then (Some (parse_content_type value), content_disposition)
      else if eq_ignore_ascii_case name (B "Content-Disposition") && negb (bool_decide (is_Some content_disposition))
      then (content_type, Some (parse_content_disposition value))
      else s
  | _, _ => s
  end.

(** Source: mime.rs `pub(crate) fn part_from_headers` *)
Definition part_from_headers (fields : list Field) : MimePart * option bytes :=
  let '(content_type, content_disposition) := foldl header_field_step (None, None) fields in
  let ct := default no_content_type content_type in
  let cd := default no_disposition content_disposition in
  ({| mp_mimetype := ct_mimetype ct; mp_disposition := cd_disposition cd;
      mp_filename := match cd_filename cd with Some f => Some f | None => ct_name ct end |}, ct_boundary ct).
End parameters.

(** * Boundaries *)

Definition at_line_start (body : bytes) (index : nat) : bool :=
  (index =? 0)%nat || bool_decide (body !! (index - 1)%nat = Some c_LF).

Fixpoint find_boundary_from (fuel : nat) (body : bytes) (index : nat) (delimiter : bytes) : option nat :=
  match fuel with
  | O => None
  | S fuel' =>
      if (index + length delimiter <=? length body)%nat then
        if at_line_start body index && starts_with (drop index body) delimiter then Some index
        else find_boundary_from fuel' body (S index) delimiter
      else None
  end.
(** Source: mime.rs `fn find_boundary` *)
Definition find_boundary (body : bytes) (start : nat) (delimiter : bytes) : option nat :=
  if (length body <=? start)%nat || bool_decide (delimiter = []) then None
  else find_boundary_from (S (length body - start)) body start delimiter.

(** Source: mime.rs `fn find_line_end` *)
Definition find_line_end (body : bytes) (offset : nat) : nat :=
  match position (Z.eqb c_LF) (drop offset body) with Some i => (offset + i + 1)%nat | None => length body end.

(** The cut after the empty line, as an index. *)
Fixpoint part_header_end (l : bytes) : option nat :=
  match l with
  | [] => None
  | b :: l' =>
      if b =? c_LF then
        match l' with
        | b1 :: l'' =>
            if b1 =? c_LF then Some 2%nat
            else match l'' with
                 | b2 :: _ => if (b1 =? c_CR) && (b2 =? c_LF) then Some 3%nat else S <$> part_header_end l'
                 | [] => S <$> part_header_end l'
                 end
        | [] => None
        end
      else S <$> part_header_end l'
  end.
(** Source: mime.rs `fn split_part_headers_and_body` *)
Definition split_part_headers_and_body (part_bytes : bytes) : bytes * bytes :=
  match part_header_end part_bytes with
  | Some i => (take i part_bytes, drop i part_bytes)
  | None => (part_bytes, [])
  end.

(** * The walk *)

Section walk.
Context {T : Target} {St E : Type} (visit : MimePart -> St -> result E (bool * St)).

Definition WalkResult := result (StructuredVisitError E) (bool * (nat * St)).

(** The counter is bounded by [MAX_MIME_PARTS], so its checked addition never
    fails. *)
Definition count_part (count : nat) : result (StructuredVisitError E) nat :=
  if (MAX_MIME_PARTS <? S count)%nat then Err (SV_Header work_limit_error) else Ok (S count).

Definition is_multipart (part : MimePart) : bool :=
  match mp_mimetype part with Some m => starts_with m (B "multipart/") | None => false end.

(** What the loop does with one part: count it, visit it, descend. *)
Definition visit_part (descend : bytes -> bytes -> nat * St -> WalkResult) (part_bytes : bytes) (s : nat * St) : WalkResult :=
  let '(part_headers, part_body) := split_part_headers_and_body part_bytes in
  count ← count_part (fst s);
  let '(part, sub_boundary) := part_from_headers (raw_fields part_headers) in
  '(found, st) ← map_err SV_Visitor (visit part (snd s));
  if found : bool then Ok (true, (count, st))
  else
    match is_multipart part, sub_boundary with
    | true, Some inner_boundary => descend part_body inner_boundary (count, st)
    | _, _ => Ok (false, (count, st))
    end.

(** The end of a part: the line break before the next boundary belongs to
    the boundary. *)
Definition part_content_end (body : bytes) (start next : nat) : nat :=
  if (start <? next)%nat && bool_decide (body !! (next - 1)%nat = Some c_LF) then
    if (start <? next - 1)%nat && bool_decide (body !! (next - 2)%nat = Some c_CR) then (next - 2)%nat else (next - 1)%nat
  else next.

Definition followed_by_dashes (body : bytes) (offset : nat) : bool := starts_with (drop offset body) (B "--").

(** The [while] loop; [search_from] always equals [current_part_start]. *)
Fixpoint walk_parts (descend : bytes -> bytes -> nat * St -> WalkResult) (fuel : nat) (body delimiter : bytes)
    (current_part_start : nat) (s : nat * St) : WalkResult :=
  match fuel with
  | O => Ok (false, s)
  | S fuel' =>
      match find_boundary body current_part_start delimiter with
      | None => Ok (false, s)
      | Some next =>
          '(found, s) ← visit_part descend (slice current_part_start (part_content_end body current_part_start next) body) s;
          if found : bool then Ok (true, s)
          else
            let after_delim := (next + length delimiter)%nat in
            if followed_by_dashes body after_delim then Ok (false, s)
            else walk_parts descend fuel' body delimiter (find_line_end body after_delim) s
      end
  end.

(** [levels] is [MAX_MIME_DEPTH + 1 - depth]: none is left where the depth
    exceeds its limit.
    Source: mime.rs `fn walk_multipart` *)
Fixpoint walk_multipart (levels : nat) (body boundary : bytes) (s : nat * St) : WalkResult :=
  match levels with
  | O => Ok (false, s)
  | S levels' =>
      if bool_decide (boundary = []) then Ok (false, s)
      else
        let delimiter := B "--" ++ boundary in
        match find_boundary body 0 delimiter with
        | None => Ok (false, s)
        | Some first =>
            let after_first := (first + length delimiter)%nat in
            if followed_by_dashes body after_first then Ok (false, s)
            else walk_parts (walk_multipart levels') (S (length body)) body delimiter (find_line_end body after_first) s
        end
  end.

(** Source: mime.rs `pub(crate) fn any_mime_part` *)
Definition any_mime_part (root_fields : list Field) (body : bytes) (st : St)
    : result (StructuredVisitError E) (bool * St) :=
  let '(root_part, root_boundary) := part_from_headers root_fields in
  count ← count_part 0;
  '(found, st) ← map_err SV_Visitor (visit root_part st);
  if found : bool then Ok (true, st)
  else
    match is_multipart root_part, root_boundary with
    | true, Some boundary =>
        '(found, s) ← walk_multipart MAX_MIME_DEPTH body boundary (count, st); Ok (found, snd s)
    | _, _ => Ok (false, st)
    end.
End walk.

(** * Assembled bodies *)

Definition delimiter_of (boundary : bytes) : bytes := B "--" ++ boundary.
Definition CRLF : bytes := [c_CR; c_LF].

(** What follows a delimiter: the parts, each on lines of its own, then the
    closing delimiter's dashes. *)
Fixpoint after_delimiter (delimiter : bytes) (parts : list bytes) (epilogue : bytes) : bytes :=
  match parts with
  | [] => B "--" ++ epilogue
  | p :: ps => CRLF ++ p ++ CRLF ++ delimiter ++ after_delimiter delimiter ps epilogue
  end.
Definition assembled (boundary preamble : bytes) (parts : list bytes) (epilogue : bytes) : bytes :=
  preamble ++ delimiter_of boundary ++ after_delimiter (delimiter_of boundary) parts epilogue.

(** No line of [x] begins with the delimiter. *)
Definition clear_of (delimiter x : bytes) : bool :=
  forallb (fun i => negb (at_line_start x i && starts_with (drop i x) delimiter)) (seq 0 (length x)).
(** [x] is empty or a run of whole lines. *)
Definition whole_lines (x : bytes) : bool := bool_decide (x = []) || bool_decide (last x = Some c_LF).

Section assembled.
Context {T : Target} {St E : Type} (visit : MimePart -> St -> result E (bool * St)).

Lemma whole_lines_app a b : whole_lines a = true -> whole_lines b = true -> whole_lines (a ++ b) = true.
Proof.
  unfold whole_lines. rewrite !orb_true_iff, !bool_decide_eq_true. intros Ha [->|Hb]; [by rewrite app_nil_r|].
  right. by rewrite last_app, Hb.
Qed.

Lemma at_line_start_app pre x i :
  whole_lines pre = true -> at_line_start (pre ++ x) (length pre + i) = at_line_start x i.
Proof.
  unfold whole_lines, at_line_start. rewrite orb_true_iff, !bool_decide_eq_true. intros Hpre.
  destruct i as [|i].
  - rewrite Nat.add_0_r, orb_true_l. destruct Hpre as [->|Hpre]; [done|].
    destruct pre as [|y pre _] using rev_ind; [done|]. rewrite last_snoc in Hpre. injection Hpre as ->.
    rewrite length_app. cbn [length]. rewrite lookup_app_l by (rewrite length_app; simpl; lia).
    rewrite bool_decide_eq_true_2; [by rewrite orb_true_r|]. by apply list_lookup_middle; lia.
  - replace (length pre + S i - 1)%nat with (length pre + (S i - 1))%nat by lia.
    rewrite lookup_app_r by lia. replace (length pre + (S i - 1) - length pre)%nat with (S i - 1)%nat by lia.
    by replace (length pre + S i =? 0)%nat with false by by destruct (length pre).
Qed.

Lemma at_line_start_prefix x k i : (i <= length x)%nat -> at_line_start (x ++ k) i = at_line_start x i.
Proof.
  intros Hi. unfold at_line_start. destruct i; [done|].
  by rewrite lookup_app_l by (cbn; lia).
Qed.

(** A delimiter without line breaks does not reach past the line it is on. *)
Lemma starts_with_line x k d :
  whole_lines x = true -> x <> [] -> Forall (fun b => b <> c_LF) d ->
  starts_with (x ++ k) d = true -> starts_with x d = true.
Proof.
  intros Hx Hne Hd [r Hr]%starts_with_true. apply starts_with_true.
  unfold whole_lines in Hx. apply orb_true_iff in Hx as [?%bool_decide_eq_true|Hx%bool_decide_eq_true]; [done|].
  destruct x as [|y x _] using rev_ind; [done|]. rewrite last_snoc in Hx. injection Hx as ->.
  apply app_eq_inv in Hr as [(z & -> & _)|(z & Hz & _)]; [by exists z|].
  rewrite Hz, <-app_assoc in Hd. apply Forall_app in Hd as [_ Hd]. by inversion Hd.
Qed.

Lemma find_boundary_from_spec fuel body index d i :
  (index <= i)%nat -> (i - index < fuel)%nat -> (i + length d <= length body)%nat ->
  at_line_start body i = true -> starts_with (drop i body) d = true ->
  (forall j, (index <= j < i)%nat -> at_line_start body j && starts_with (drop j body) d = false) ->
  find_boundary_from fuel body index d = Some i.
Proof.
  revert index. induction fuel as [|fuel IH]; intros index Hle Hfuel Hlen Hs Hd Hno; [lia|]. cbn [find_boundary_from].
  rewrite (proj2 (Nat.leb_le _ _)) by lia. destruct (decide (index = i)) as [->|Hne].
  - by rewrite Hs, Hd.
  - rewrite Hno by lia. apply IH; try done; try lia. intros j Hj. apply Hno. lia.
Qed.

Lemma find_boundary_spec pre x d post :
  whole_lines pre = true -> whole_lines x = true -> clear_of d x = true -> d <> [] ->
  Forall (fun b => b <> c_LF) d ->
  find_boundary (pre ++ x ++ d ++ post) (length pre) d = Some (length pre + length x)%nat.
Proof.
  intros Hpre Hx Hclear Hne Hd. unfold find_boundary. assert (0 < length d)%nat by (destruct d; simpl; [done|lia]).
  rewrite (proj2 (Nat.leb_gt _ _)) by (rewrite !length_app; lia). rewrite bool_decide_eq_false_2 by done. cbn [orb].
  apply find_boundary_from_spec; try (rewrite ?length_app; lia).
  - rewrite at_line_start_app by done. replace (length x) with (length x + 0)%nat by lia. by apply at_line_start_app.
  - rewrite app_assoc, <-length_app, drop_app_length. apply starts_with_true. by eexists.
  - intros j Hj. replace j with (length pre + (j - length pre))%nat by lia. set (k := (j - length pre)%nat).
    rewrite at_line_start_app, drop_app_add by done. rewrite at_line_start_prefix by lia.
    unfold clear_of in Hclear. rewrite forallb_forall in Hclear.
    specialize (Hclear k ltac:(apply in_seq; lia)). apply negb_true_iff in Hclear.
    destruct (at_line_start x k) eqn:Hk; [|done]. cbn [andb] in *.
    destruct (starts_with (drop k (x ++ d ++ post)) d) eqn:Hs; [|done].
    rewrite drop_app_le in Hs by lia. apply starts_with_line in Hs; [congruence| |
      intros Hz%(f_equal length); rewrite length_drop in Hz; simpl in Hz; lia|done].
    unfold whole_lines in *. apply orb_true_iff in Hx as [Hx%bool_decide_eq_true|Hx%bool_decide_eq_true].
    + subst x. simpl in Hj. lia.
    + apply orb_true_iff. right. apply bool_decide_eq_true. rewrite <-Hx, !last_lookup, length_drop, lookup_drop. f_equal. lia.
Qed.

Lemma find_line_end_crlf a x : find_line_end (a ++ CRLF ++ x) (length a) = (length a + 2)%nat.
Proof. unfold find_line_end. rewrite drop_app_length. simpl. lia. Qed.

Lemma followed_by_dashes_app a x : followed_by_dashes (a ++ x) (length a) = starts_with x (B "--").
Proof. unfold followed_by_dashes. by rewrite drop_app_length. Qed.

Lemma whole_lines_crlf a : whole_lines (a ++ CRLF) = true.
Proof. unfold whole_lines, CRLF. apply orb_true_iff. right. apply bool_decide_eq_true. by rewrite last_app. Qed.

(** The content of a part that ends with the line break of the delimiter. *)
Lemma part_content_slice a p k :
  let next := (length a + length (p ++ CRLF))%nat in
  slice (length a) (part_content_end (a ++ p ++ CRLF ++ k) (length a) next) (a ++ p ++ CRLF ++ k) = p.
Proof.
  intros next. assert (next = length a + length p + 2)%nat as -> by (unfold next; rewrite length_app; simpl; lia).
  unfold part_content_end. rewrite (proj2 (Nat.ltb_lt _ _)) by lia.
  assert ((a ++ p ++ CRLF ++ k) !! (length a + length p + 2 - 1)%nat = Some c_LF) as ->.
  { rewrite !lookup_app_r by lia. by replace (length a + length p + 2 - 1 - length a - length p)%nat with 1%nat by lia. }
  rewrite bool_decide_eq_true_2 by done. cbn [andb]. rewrite (proj2 (Nat.ltb_lt _ _)) by lia.
  assert ((a ++ p ++ CRLF ++ k) !! (length a + length p + 2 - 2)%nat = Some c_CR) as ->.
  { rewrite !lookup_app_r by lia. by replace (length a + length p + 2 - 2 - length a - length p)%nat with 0%nat by lia. }
  rewrite bool_decide_eq_true_2 by done. cbn [andb]. unfold slice. rewrite drop_app_length.
  replace (length a + length p + 2 - 2 - length a)%nat with (length p) by lia. apply take_app_length.
Qed.

(** The loop, from the delimiter before the first part of [ps]. *)
Lemma walk_parts_assembled descend d epilogue ps a fuel s :
  d <> [] -> Forall (fun b => b <> c_LF) d -> Forall (fun p => clear_of d (p ++ CRLF) = true) ps ->
  (length ps < fuel)%nat ->
  let body := a ++ d ++ after_delimiter d ps epilogue in
  let offset := (length a + length d)%nat in
  (if followed_by_dashes body offset then Ok (false, s)
   else walk_parts visit descend fuel body d (find_line_end body offset) s) =
  visit_list (visit_part visit descend) ps s.
Proof.
  intros Hne Hd. revert a fuel s. induction ps as [|p ps IH]; intros a fuel s Hps Hfuel; cbv zeta.
  { cbn [after_delimiter]. by rewrite app_assoc, <-length_app, followed_by_dashes_app. }
  apply Forall_cons in Hps as [Hp Hps]. destruct fuel as [|fuel]; [simpl in Hfuel; lia|].
  set (rest := CRLF ++ d ++ after_delimiter d ps epilogue).
  assert (a ++ d ++ after_delimiter d (p :: ps) epilogue = (a ++ d) ++ CRLF ++ p ++ rest) as Hbody
    by (cbn [after_delimiter]; by rewrite <-!app_assoc).
  rewrite Hbody, <-length_app, followed_by_dashes_app, find_line_end_crlf.
  change (starts_with (CRLF ++ p ++ rest) (B "--")) with false. cbv iota.
  assert ((length (a ++ d) + 2 = length ((a ++ d) ++ CRLF))%nat) as -> by (rewrite (length_app (a ++ d)); simpl; lia).
  assert ((a ++ d) ++ CRLF ++ p ++ rest = ((a ++ d) ++ CRLF) ++ p ++ CRLF ++ d ++ after_delimiter d ps epilogue) as ->
    by (unfold rest; by rewrite <-!app_assoc).
  set (pre := (a ++ d) ++ CRLF). cbn [walk_parts visit_list].
  assert (find_boundary (pre ++ p ++ CRLF ++ d ++ after_delimiter d ps epilogue) (length pre) d =
          Some (length pre + length (p ++ CRLF))%nat) as ->.
  { rewrite (app_assoc p). apply find_boundary_spec; try done; apply whole_lines_crlf. }
  rewrite part_content_slice. destruct (visit_part visit descend p s) as [[found s']|e]; [|done].
  cbn [mbind result_bind]. destruct found; [done|].
  rewrite <-(IH (pre ++ p ++ CRLF) fuel s' Hps) by (simpl in Hfuel; lia).
  assert (pre ++ p ++ CRLF ++ d ++ after_delimiter d ps epilogue =
          (pre ++ p ++ CRLF) ++ d ++ after_delimiter d ps epilogue) as -> by by rewrite <-!app_assoc.
  by rewrite (length_app pre).
Qed.

Lemma length_after_delimiter d ps epilogue : (length ps <= length (after_delimiter d ps epilogue))%nat.
Proof. induction ps as [|p ps IH]; simpl; [lia|]. rewrite !length_app. simpl. rewrite !length_app. lia. Qed.

(** A multipart body is cut into the parts it was assembled from.  Whatever
    the preamble and the epilogue, when no line of the preamble or of a part
    begins with the delimiter, the walk visits exactly the assembled parts, in
    order, each with the line break before the delimiter taken off, and stops at
    the first that the visitor accepts. *)
Theorem walk_multipart_assembled (levels : nat) (boundary preamble epilogue : bytes) (parts : list bytes) (s : nat * St)
    (Hboundary : boundary <> []) (Hline : Forall (fun b => b <> c_LF) boundary)
    (Hpreamble : whole_lines preamble = true) (Hclear : clear_of (delimiter_of boundary) preamble = true)
    (Hparts : Forall (fun p => clear_of (delimiter_of boundary) (p ++ CRLF) = true) parts) :
  walk_multipart visit (S levels) (assembled boundary preamble parts epilogue) boundary s =
    visit_list (visit_part visit (walk_multipart visit levels)) parts s.
Proof.
  cbn [walk_multipart]. rewrite bool_decide_eq_false_2 by done. fold (delimiter_of boundary). unfold assembled.
  set (d := delimiter_of boundary) in *.
  assert (Forall (fun b => b <> c_LF) d) as Hd by (apply Forall_app; split; [by repeat constructor|done]).
  pose proof (find_boundary_spec [] preamble d (after_delimiter d parts epilogue) eq_refl Hpreamble Hclear) as Hfind.
  cbn [app length Nat.add] in Hfind. rewrite Hfind by done.
  apply walk_parts_assembled; [done|done|done|]. rewrite !length_app. pose proof (length_after_delimiter d parts epilogue). lia.
Qed.
End assembled.

(** A body with a text part and a calendar part. *)
Definition calendar_part : bytes := B "Content-Type: text/calendar" ++ CRLF ++ CRLF ++ B "BEGIN:VCALENDAR".
Definition two_part_body : bytes :=
  assembled (B "xx") (B "preamble" ++ CRLF) [B "Content-Type: text/plain" ++ CRLF ++ CRLF ++ B "hello"; calendar_part] (B "bye").
Definition wants_calendar (part : MimePart) (st : nat) : result () (bool * nat) :=
  Ok (bool_decide (mp_mimetype part = Some (B "text/calendar")), S st).

Lemma walk_multipart_assembled_witness :
  walk_multipart wants_calendar 1 two_part_body (B "xx") (1%nat, 0%nat) = Ok (true, (3%nat, 2%nat)).
Proof.
  unfold two_part_body. rewrite walk_multipart_assembled; [vm_compute; reflexivity|done|by repeat constructor|by vm_compute|by vm_compute|].
  repeat constructor; by vm_compute.
Defined.
