(* ===== verification/HeaderEdit.v ===== *)
(** Header actions: [src/src/header_edit.rs].  [apply_header_action] runs the
    operations of a recipe's header block over one editable header, validates
    the aggregate size after each and the exact output at the end, and returns
    the extracted values beside the header. *)
From S2P Require Import Prelude Config Limits Utf8 HeaderValue HeaderFields HeaderStore HeaderStoreFacts.
From S2P Require Import HeaderStoreRefine HeaderStoreOps EditedHeader StructuredHeader.

(** Source: header_edit/storage.rs `pub enum HeaderView` *)
Inductive HeaderView := Raw (b : bytes) | Indexed (h : EditedHeader).

(** Source: header_edit.rs `pub(crate) struct HeaderExtraction` *)
Record HeaderExtraction := { he_line : nat; he_target : bytes; he_value : bytes }.

(** Source: header_edit.rs `pub(crate) struct AppliedHeaderAction` *)
Record AppliedHeaderAction := { ap_header : EditedHeader; ap_extractions : list HeaderExtraction }.

Section edit.
Context {T : Target}.

Definition new_header (source : HeaderView) (l : MessageLimits) : result HeaderEditError EditedHeader :=
  match source with Raw b => new_raw b l | Indexed h => Ok (new_indexed h l) end.

Definition stored_fields (h : EditedHeader) : list Field :=
  let s := store (storage h) in omap (field s) (seq 0 (length (fields s))).

(** * Field values *)

(** Source: header_edit.rs `pub fn make_field` *)
Definition make_field (name value line_ending : bytes) : result HeaderEditError bytes :=
  map_err (fun e => match e with
                    | InvalidValue => InvalidGeneratedValue
                    | LineTooLong => GeneratedLineTooLong RFC5322_HEADER_LINE_LIMIT
                    | GH_SizeOverflow => SizeOverflow
                    end) (serialize_generated_header name value line_ending).

(** Source: header_edit.rs `fn rename_field` *)
Definition rename_field (field : Field) (name : bytes) : result HeaderEditError bytes :=
  let suffix := default [] (old ← f_name field; if (length old <=? length (f_bytes field))%nat
                                                 then Some (drop (length old) (f_bytes field)) else None) in
  _ ← ok_or SizeOverflow (checked_add (length name) (length suffix));
  Ok (append_canonical_header_name name ++ suffix).

(** Source: header_edit.rs `fn extraction_length_error` *)
Definition extraction_length_error : HeaderEditError := ExtractedValueTooLong MAX_ASSIGNMENT_VALUE_LEN.

(** The loop of [unfold_value] on the bytes from its cursor. *)
Fixpoint unfold_value_loop (fuel : nat) (rest : bytes) (first : bool) (output : BoundedBytes) : result HeaderEditError BoundedBytes :=
  match fuel, rest with
  | S fuel', _ :: _ =>
      let end_ := match position (fun b => b =? c_LF) rest with Some offset => S offset | None => length rest end in
      let line := strip_line_ending (take end_ rest) in
      let content := match position (fun b => negb (is_blank b)) line with Some start => drop start line | None => [] end in
      output ← (if first then Ok output else map_err (fun _ => extraction_length_error) (try_extend output [c_SP]));
      output ← map_err (fun _ => extraction_length_error) (try_extend output content);
      unfold_value_loop fuel' (drop end_ rest) false output
  | _, _ => Ok output
  end.

(** Source: header_edit.rs `fn unfold_value` *)
Definition unfold_value (value : bytes) : result HeaderEditError bytes :=
  into_vec <$> unfold_value_loop (length value) value true (with_capacity MAX_ASSIGNMENT_VALUE_LEN).

(** Source: header_edit.rs `fn extract_value` *)
Definition extract_value (field : Field) (mode : HeaderExtractionMode) : result HeaderEditError bytes :=
  let value := default [] (field_value field) in
  match mode with
  | EM_Raw =>
      let value := strip_line_ending value in
      if MAX_ASSIGNMENT_VALUE_LEN <? len value then Err extraction_length_error else Ok value
  | EM_Unfolded => unfold_value value
  | EM_Decoded =>
      unfolded ← unfold_value value;
      map_err Decode (decode_rfc2047 unfolded MAX_ASSIGNMENT_VALUE_LEN)
  end.

(** Source: header_edit.rs `fn parse_status` *)
Definition parse_status (value : bytes) : result HeaderEditError MessageStatus :=
  map_err InvalidStatusValue (parse_configured_status value).

(** Source: header_edit.rs `fn parse_keywords` *)
Definition parse_keywords (value : bytes) : result HeaderEditError (list bytes) :=
  map_err (fun e => match e with
                    | CK_Empty => InvalidKeywordValue true
                    | CK_InvalidToken => InvalidKeywordValue false
                    | CK_TooMany limit => KeywordLimitExceeded (Z.of_nat limit)
                    end) (parse_configured_keywords value).

(** * Operations on the header *)

(** Source: header_edit.rs `fn remove_field` *)
Definition remove_field (h : EditedHeader) (name : bytes) : result HeaderEditError EditedHeader :=
  if existsb (fun index => matches (store (storage h)) index name) (field_indices h)
  then edit_store (fun s => Ok (remove_matching s name)) h else Ok h.

(** The indices of the fields with that name. *)
Definition matching_indices (s : HeaderStore) (name : bytes) : list nat :=
  filter (fun index => matches s index name = true) (seq 0 (length (fields s))).

(** Source: header_edit.rs `fn set_field` *)
Definition set_field (h : EditedHeader) (name value line_ending : bytes) : result HeaderEditError EditedHeader :=
  replacement ← make_field name value line_ending;
  let s := store (storage h) in
  let matching := matching_indices s name in
  let first := head matching in
  let unchanged := match first with
                   | Some index => bytes_eqb (stored_bytes s index) replacement && bool_decide (tail matching = [])
                   | None => false
                   end in
  if negb unchanged then
    edit_store (fun s =>
      let position := default (length (fields s)) first in
      insert (remove_matching s name) position replacement) h
  else Ok h.

(** Source: header_edit.rs `fn apply_keywords` *)
Definition apply_keywords (h : EditedHeader) (mode : HeaderKeywordsMode) (line_ending : bytes) : result HeaderEditError EditedHeader :=
  let limit_error := KeywordLimitExceeded (Z.of_nat MAX_STRUCTURED_HEADER_VALUES) in
  keywords ←
    match mode with
    | KM_Add value =>
        configured ← parse_keywords (hv_source value);
        keywords ← map_err (fun _ => limit_error) (collect_keywords (stored_fields h) KeywordField_ALL);
        let keywords := foldl add_new keywords configured in
        if (MAX_STRUCTURED_HEADER_VALUES <? length keywords)%nat then Err limit_error else Ok keywords
    | KM_Remove value =>
        configured ← parse_keywords (hv_source value);
        keywords ← map_err (fun _ => limit_error) (collect_keywords (stored_fields h) KeywordField_ALL);
        Ok (filter (fun existing => existsb (bytes_eqb existing) configured = false) keywords)
    | KM_Set value => parse_keywords (hv_source value)
    | KM_Clear => Ok []
    end;
  if bool_decide (keywords = []) then
    foldl (fun h field => h ← h; remove_field h (KeywordField_name field)) (Ok h) KeywordField_ALL
  else
    let joined := join_keywords keywords in
    foldl (fun h field => h ← h; set_field h (KeywordField_name field) joined line_ending) (Ok h) KeywordField_ALL.

(** Source: header_edit.rs `fn apply_priority` *)
Definition apply_priority (h : EditedHeader) (mode : HeaderPriorityMode) (line_ending : bytes) : result HeaderEditError EditedHeader :=
  match priority_fields mode with
  | Some fs => foldl (fun h '(name, value) => h ← h; set_field h name value line_ending) (Ok h) fs
  | None => foldl (fun h name => h ← h; remove_field h name) (Ok h) [B "Importance"; B "Priority"; B "X-Priority"]
  end.

Definition set_or_remove (h : EditedHeader) (name : bytes) (value : option bytes) (line_ending : bytes) : result HeaderEditError EditedHeader :=
  match value with Some v => set_field h name v line_ending | None => remove_field h name end.

Definition new_status (old : MessageStatus) (mode : HeaderStatusMode) : result HeaderEditError MessageStatus :=
  match mode with
  | SM_Add value => status_add old <$> parse_status (hv_source value)
  | SM_Remove value => status_remove old <$> parse_status (hv_source value)
  | SM_Set value => parse_status (hv_source value)
  | SM_Clear => Ok status_NONE
  end.

(** Source: header_edit.rs `fn apply_status` *)
Definition apply_status (h : EditedHeader) (mode : HeaderStatusMode) (line_ending : bytes) : result HeaderEditError EditedHeader :=
  st ← new_status (status (storage h)) mode;
  h ← set_or_remove h (B "Status") (status_header_value st) line_ending;
  h ← set_or_remove h (B "X-Status") (x_status_header_value st) line_ending;
  Ok (set_status h st).

(** The body of the loop of [HeaderOperation::Rename] at one index. *)
Definition rename_at (h : EditedHeader) (index : nat) (from to : bytes) : result HeaderEditError EditedHeader :=
  let s := store (storage h) in
  if matches s index from then
    match field s index with
    | Some f =>
        replacement ← rename_field f to;
        if negb (bytes_eqb (f_bytes f) replacement)
        then edit_store (fun s => insert (remove s index) index replacement) h
        else Ok h
    | None => Ok h
    end
  else Ok h.

(** One operation: the header and what it extracts. *)
Definition apply_operation (h : EditedHeader) (op : HeaderOperation) (line_ending : bytes)
    : result HeaderEditError (EditedHeader * list HeaderExtraction) :=
  match op with
  | HO_Remove _ name => h ← header_remove_matching h name; Ok (h, [])
  | HO_Set _ name value => h ← set_field h name (hv_source value) line_ending; Ok (h, [])
  | HO_Add _ name value =>
      field ← make_field name (hv_source value) line_ending;
      h ← edit_store (fun s => insert s (length (fields s)) field) h; Ok (h, [])
  | HO_Prepend _ name value =>
      field ← make_field name (hv_source value) line_ending;
      h ← edit_store (fun s => insert s 0 field) h; Ok (h, [])
  | HO_Rename _ from to =>
      h ← foldl (fun h index => h ← h; rename_at h index from to) (Ok h) (field_indices h); Ok (h, [])
  | HO_Extract line name target mode =>
      let s := store (storage h) in
      value ← match head (matching_indices s name) with
              | None => Ok []
              | Some index => match field s index with Some f => extract_value f mode | None => Ok [] end
              end;
      Ok (h, [{| he_line := line; he_target := target; he_value := value |}])
  | HO_Keywords _ mode => h ← apply_keywords h mode line_ending; Ok (h, [])
  | HO_Priority _ mode => h ← apply_priority h mode line_ending; Ok (h, [])
  | HO_Status _ mode => h ← apply_status h mode line_ending; Ok (h, [])
  end.

Fixpoint apply_operations (h : EditedHeader) (ops : list HeaderOperation) (line_ending : bytes) (body_len : nat)
    (l : MessageLimits) (extractions : list HeaderExtraction) : result HeaderEditError (EditedHeader * list HeaderExtraction) :=
  match ops with
  | [] => Ok (h, extractions)
  | op :: ops' =>
      '(h, e) ← apply_operation h op line_ending;
      _ ← validate_aggregate_size (store (storage h)) (separator (storage h)) line_ending body_len l;
      apply_operations h ops' line_ending body_len l (extractions ++ e)
  end.

(** Source: header_edit.rs `pub(crate) fn apply_header_action` *)
Definition apply_header_action (source : HeaderView) (body_len : nat) (action : HeaderAction) (l : MessageLimits)
    : result HeaderEditError AppliedHeaderAction :=
  h ← new_header source l;
  let le := line_ending (storage h) in
  '(h, extractions) ← apply_operations h (operations action) le body_len l [];
  h ← finish h body_len;
  Ok {| ap_header := h; ap_extractions := extractions |}.
End edit.

(** The identity of the storage is not part of the model; that an indexed
    source was not mutated is that the handle still shares it.
    Source: header_edit.rs `pub(crate) fn changed_from` *)
Definition changed_from (a : AppliedHeaderAction) (source : HeaderView) : bool :=
  match source with
  | Indexed _ => negb (shared (ap_header a))
  | Raw b => negb (status_is_empty (status (storage (ap_header a)))) ||
             negb (bytes_eqb (concat (parts (ap_header a))) b)
  end.

(** * The action on field lists *)

Definition named (name b : bytes) : bool := field_matches (field_from_bytes b) name.

Definition remove_list (name : bytes) (l : list bytes) : list bytes := filter (fun b => negb (named name b) = true) l.

(** [r] takes the place of the first field named [name], or the end; the
    other fields with that name go. *)
Definition set_list (name r : bytes) (l : list bytes) : list bytes :=
  let position := default (length l) (position (named name) l) in
  take position (remove_list name l) ++ r :: drop position (remove_list name l).

(** The indices of the elements that satisfy [p]. *)
Definition indices (p : bytes -> bool) (l : list bytes) : list nat :=
  filter (fun i => match l !! i with Some b => p b | None => false end = true) (seq 0 (length l)).

Lemma indices_cons p b l : indices p (b :: l) = (if p b then [O] else []) ++ (S <$> indices p l).
Proof.
  unfold indices. cbn [length seq]. rewrite <-fmap_S_seq, filter_cons. cbn [lookup list_lookup].
  assert (filter (fun i => match (b :: l) !! i with Some b => p b | None => false end = true) (S <$> seq 0 (length l)) =
    S <$> filter (fun i => match l !! i with Some b => p b | None => false end = true) (seq 0 (length l))) as Hf.
  { generalize (seq 0 (length l)). intros k. induction k as [|i k IH]; [done|]. csimpl.
    destruct (decide (match l !! i with Some b => p b | None => false end = true)).
    - by rewrite !filter_cons_True, IH.
    - by rewrite !filter_cons_False, IH. }
  rewrite Hf. destruct (p b) eqn:Hb; case_decide as Hd; try done; simpl in Hd; congruence.
Qed.

Lemma head_indices p l : head (indices p l) = position p l.
Proof.
  induction l as [|b l IH]; [done|]. rewrite indices_cons. cbn [position]. destruct (p b); [done|]. rewrite <-IH.
  by destruct (indices p l).
Qed.

Lemma indices_nil p l : indices p l = [] <-> Forall (fun b => p b = false) l.
Proof.
  induction l as [|b l IH]; [split; [constructor|done]|]. rewrite indices_cons, Forall_cons, <-IH.
  destruct (p b); [split; [done|by intros [? _]]|]. cbn [app]. destruct (indices p l); naive_solver.
Qed.

Lemma tail_indices p pre b post : Forall (fun b => p b = false) pre -> p b = true ->
  tail (indices p (pre ++ b :: post)) = [] <-> Forall (fun b => p b = false) post.
Proof.
  intros Hpre Hb. induction Hpre as [|a pre Ha Hpre IH]; cbn [app]; rewrite indices_cons.
  - rewrite Hb. cbn [app tail]. rewrite <-indices_nil. by destruct (indices p post).
  - rewrite Ha. cbn [app]. rewrite <-IH. destruct (indices p (pre ++ b :: post)); [done|]. cbn. by destruct l.
Qed.

Lemma remove_list_id name l : Forall (fun b => named name b = false) l -> remove_list name l = l.
Proof.
  induction 1 as [|b l Hb Hl IH]; [done|]. unfold remove_list in *. rewrite filter_cons, Hb, IH. by case_decide.
Qed.

Lemma remove_list_length name l : (length (remove_list name l) <= length l)%nat.
Proof. apply length_filter. Qed.

Lemma remove_list_fixed name l : remove_list name l = l -> Forall (fun b => named name b = false) l.
Proof.
  intros H. rewrite <-H. apply Forall_forall. intros b [Hb _]%list_elem_of_filter. by apply negb_true_iff.
Qed.

Lemma set_list_found name r pre b post :
  Forall (fun b => named name b = false) pre -> named name b = true ->
  set_list name r (pre ++ b :: post) = pre ++ r :: remove_list name post.
Proof.
  intros Hpre Hb. unfold set_list. rewrite (position_app_cons _ pre b post) by done. cbn [default id].
  assert (remove_list name (pre ++ b :: post) = pre ++ remove_list name post) as ->.
  { unfold remove_list. rewrite filter_app, filter_cons_False by (by rewrite Hb). f_equal. by apply remove_list_id. }
  change (default (length (pre ++ b :: post)) (Some (length pre))) with (length pre).
  by rewrite take_app_length, drop_app_length.
Qed.

Lemma set_list_absent name r l : Forall (fun b => named name b = false) l -> set_list name r l = l ++ [r].
Proof.
  intros Hl. unfold set_list. rewrite (proj2 (position_None _ _)), remove_list_id by done.
  change (default (length l) None) with (length l). by rewrite take_ge, drop_ge.
Qed.

Section abstract.
Context {T : Target}.
(** What a transaction does not change: the ceiling of the header, its
    separator, line ending and limits, and the size of the body. *)
Context (c : Z) (sep le : bytes) (body_len : nat) (l0 : MessageLimits).

Definition limited (l : list bytes) : result HeaderEditError (list bytes) :=
  if c <? len (concat l) then Err (LimitExceeded ML_Headers c) else Ok l.

Definition ref_set (name value : bytes) (l : list bytes) : result HeaderEditError (list bytes) :=
  r ← make_field name value le;
  if bool_decide (set_list name r l = l) then Ok l else limited (set_list name r l).

Definition ref_rename_at (from to : bytes) (l : list bytes) (i : nat) : result HeaderEditError (list bytes) :=
  match l !! i with
  | Some b =>
      if named from b then
        r ← rename_field (field_from_bytes b) to;
        if bytes_eqb b r then Ok l else limited (<[i := r]> l)
      else Ok l
  | None => Ok l
  end.

Definition ref_keywords (mode : HeaderKeywordsMode) (l : list bytes) : result HeaderEditError (list bytes) :=
  let limit_error := KeywordLimitExceeded (Z.of_nat MAX_STRUCTURED_HEADER_VALUES) in
  keywords ←
    match mode with
    | KM_Add value =>
        configured ← parse_keywords (hv_source value);
        keywords ← map_err (fun _ => limit_error) (collect_keywords (field_from_bytes <$> l) KeywordField_ALL);
        let keywords := foldl add_new keywords configured in
        if (MAX_STRUCTURED_HEADER_VALUES <? length keywords)%nat then Err limit_error else Ok keywords
    | KM_Remove value =>
        configured ← parse_keywords (hv_source value);
        keywords ← map_err (fun _ => limit_error) (collect_keywords (field_from_bytes <$> l) KeywordField_ALL);
        Ok (filter (fun existing => existsb (bytes_eqb existing) configured = false) keywords)
    | KM_Set value => parse_keywords (hv_source value)
    | KM_Clear => Ok []
    end;
  if bool_decide (keywords = []) then Ok (foldl (fun l field => remove_list (KeywordField_name field) l) l KeywordField_ALL)
  else foldl (fun l field => l ← l; ref_set (KeywordField_name field) (join_keywords keywords) l) (Ok l) KeywordField_ALL.

Definition ref_priority (mode : HeaderPriorityMode) (l : list bytes) : result HeaderEditError (list bytes) :=
  match priority_fields mode with
  | Some fs => foldl (fun l '(name, value) => l ← l; ref_set name value l) (Ok l) fs
  | None => Ok (foldl (fun l name => remove_list name l) l [B "Importance"; B "Priority"; B "X-Priority"])
  end.

Definition ref_set_or_remove (name : bytes) (value : option bytes) (l : list bytes) : result HeaderEditError (list bytes) :=
  match value with Some v => ref_set name v l | None => Ok (remove_list name l) end.

(** The value [Extract] finds. *)
Definition ref_extract (name : bytes) (mode : HeaderExtractionMode) (l : list bytes) : result HeaderEditError bytes :=
  match find (named name) l with
  | Some b => extract_value (field_from_bytes b) mode
  | None => Ok []
  end.

Definition ref_operation (l : list bytes) (st : MessageStatus) (op : HeaderOperation)
    : result HeaderEditError (list bytes * MessageStatus * list HeaderExtraction) :=
  match op with
  | HO_Remove _ name => Ok (remove_list name l, st, [])
  | HO_Set _ name value => l ← ref_set name (hv_source value) l; Ok (l, st, [])
  | HO_Add _ name value => r ← make_field name (hv_source value) le; l ← limited (l ++ [r]); Ok (l, st, [])
  | HO_Prepend _ name value => r ← make_field name (hv_source value) le; l ← limited (r :: l); Ok (l, st, [])
  | HO_Rename _ from to => l ← foldl (fun l i => l ← l; ref_rename_at from to l i) (Ok l) (seq 0 (length l)); Ok (l, st, [])
  | HO_Extract line name target mode =>
      value ← ref_extract name mode l; Ok (l, st, [{| he_line := line; he_target := target; he_value := value |}])
  | HO_Keywords _ mode => l ← ref_keywords mode l; Ok (l, st, [])
  | HO_Priority _ mode => l ← ref_priority mode l; Ok (l, st, [])
  | HO_Status _ mode =>
      st ← new_status st mode;
      l ← ref_set_or_remove (B "Status") (status_header_value st) l;
      l ← ref_set_or_remove (B "X-Status") (x_status_header_value st) l;
      Ok (l, st, [])
  end.

(** The size checks after every operation. *)
Definition ref_aggregate (l : list bytes) : result HeaderEditError unit :=
  let size := len (joined None le l ++ sep) in
  if headers_size l0 <? size then Err (LimitExceeded ML_Headers (headers_size l0))
  else if message_size l0 <? size + Z.of_nat body_len then Err (LimitExceeded ML_Message (message_size l0))
  else Ok ().

Fixpoint ref_operations (l : list bytes) (st : MessageStatus) (ops : list HeaderOperation) (ex : list HeaderExtraction)
    : result HeaderEditError (list bytes * MessageStatus * list HeaderExtraction) :=
  match ops with
  | [] => Ok (l, st, ex)
  | op :: ops' =>
      '(l, st, e) ← ref_operation l st op;
      _ ← ref_aggregate l;
      ref_operations l st ops' (ex ++ e)
  end.

(** ** The refinement relation *)

(** The handle [h] implements the fields [l] with the status [st]. *)
Record handles (h : EditedHeader) (l : list bytes) (st : MessageStatus) : Prop := {
  hd_store : store_ok (store (storage h));
  hd_view : view (store (storage h)) = l;
  hd_limit : store_limit h = c;
  hd_arena : len (arena (store (storage h))) <= c;
  hd_uncached : uncached h;
  hd_coherent : coherent h;
  hd_sep : separator (storage h) = sep;
  hd_le : line_ending (storage h) = le;
  hd_limits : limits h = l0;
  hd_status : status (storage h) = st;
  hd_sized : shared h = true -> sized h;
}.

(** An arithmetic overflow of [usize] aside, the outcome is the abstract one. *)
Definition outcome {A B} (R : A -> B -> Prop) (m : result HeaderEditError A) (a : result HeaderEditError B) : Prop :=
  match m with
  | Ok x => exists y, a = Ok y /\ R x y
  | Err SizeOverflow => True
  | Err e => a = Err e
  end.

Lemma outcome_err {A B} (R : A -> B -> Prop) e : outcome R (Err e) (Err e).
Proof. by destruct e. Qed.

Lemma outcome_bind {A B A' B'} (R : A -> B -> Prop) (R' : A' -> B' -> Prop) m a f g :
  outcome R m a -> (forall x y, R x y -> outcome R' (f x) (g y)) -> outcome R' (m ≫= f) (a ≫= g).
Proof.
  intros H Hf. destruct m as [x|e]; simpl in H |- *.
  - destruct H as (y & -> & Hxy). simpl. auto.
  - destruct e; try (rewrite H; done). done.
Qed.

Lemma outcome_same {A} (m : result HeaderEditError A) : outcome eq m m.
Proof. destruct m as [x|[]]; simpl; eauto. Qed.

Definition handles_in (st : MessageStatus) (h : EditedHeader) (l : list bytes) : Prop := handles h l st.

Definition implements_in (s : HeaderStore) (l : list bytes) : Prop := implements s l c.

(** Lifting an edit of the store. *)
Lemma edit_store_handles f h l st a :
  handles h l st ->
  (forall s, implements s l c -> outcome implements_in (f s) a) ->
  outcome (handles_in st) (edit_store f h) a.
Proof.
  intros Hh Hf. pose proof Hh as [Hs Hv Hl Har Hu Hc Hsep Hle Hlim Hst Hsz].
  destruct (edit_store f h) as [h'|e] eqn:He.
  - apply edit_store_spec in He as (Hsh & Hc' & Hr & Hm & Hlim' & Hsep' & Hle' & Hst' & Hsize & s & Hsok & Hsv & Hsc & Hsa & Hfs); [|done..].
    assert (implements s l c) as Hi by (unfold implements; split_and!; congruence).
    specialize (Hf s Hi). rewrite Hfs in Hf. destruct Hf as (l' & -> & Hok & Hv' & _ & Ha').
    exists l'. split; [done|]. constructor; try done; try congruence.
    + unfold store_limit in *. congruence.
    + by right.
  - apply edit_store_err in He as (s & Hsok & Hsv & Hsc & Hsa & Hfs); [|done].
    assert (implements s l c) as Hi by (unfold implements; split_and!; congruence).
    specialize (Hf s Hi). by rewrite Hfs in Hf.
Qed.

Lemma handles_field h l st i : handles h l st -> field (store (storage h)) i = field_from_bytes <$> l !! i.
Proof. intros []. by rewrite field_view, hd_view0. Qed.

Lemma handles_matches h l st i name : handles h l st ->
  matches (store (storage h)) i name = match l !! i with Some b => named name b | None => false end.
Proof. intros Hh. unfold matches. rewrite (handles_field _ _ _ _ Hh). by destruct (l !! i). Qed.

Lemma handles_length h l st : handles h l st -> length (fields (store (storage h))) = length l.
Proof. intros []. by rewrite length_fields_view, hd_view0. Qed.

Lemma implements_remove_matching s l name : implements s l c -> implements (remove_matching s name) (remove_list name l) c.
Proof.
  intros (Hs & <- & <- & Ha). destruct (retain_ok s (fun f => negb (field_matches (field_of (arena s) f) name)) (fun b => negb (named name b)) Hs) as (H1 & H2 & H3).
  - intros f Hf. unfold named. by rewrite so_field.
  - unfold implements. split_and!; try done. etrans; [apply Nat2Z.inj_le, coalesce_shrinks|exact Ha].
Qed.

(** An insertion, up to overflow. *)
Lemma insert_outcome_list s l index b l' :
  implements s l c -> b <> [] -> take index l ++ b :: drop index l = l' ->
  outcome implements_in (insert s index b) (limited l').
Proof.
  intros (Hs & Hv & Hc & Ha) Hb Hl'. pose proof (insert_ok s index b Hs) as H. unfold limited.
  assert (Z.of_nat (live_size s) + len b = len (concat l')) as Hsize.
  { unfold live_size. rewrite Hv, <-Hl', <-(take_drop index l) at 1. rewrite !concat_app. cbn [concat]. rewrite !length_app. lia. }
  destruct (insert s index b) as [s'|e]; simpl in H.
  - destruct H as (_ & Hs' & Hv' & Hce & Ha' & _). rewrite Hv, Hl' in Hv'. specialize (Ha' ltac:(lia)).
    pose proof (live_size_le s' Hs') as Hlive. unfold live_size in Hlive. rewrite Hv' in Hlive.
    rewrite (proj2 (Z.ltb_ge _ _)) by lia. exists l'. split; [done|]. unfold implements_in, implements. split_and!; try done; lia.
  - destruct H as [[? _]|[(_ & -> & _)|(_ & -> & Hlt)]]; [done|done|]. simpl. rewrite (proj2 (Z.ltb_lt _ _)) by lia. by rewrite Hc.
Qed.

Lemma matching_indices_handles h l st name : handles h l st -> matching_indices (store (storage h)) name = indices (named name) l.
Proof.
  intros Hh. unfold matching_indices, indices. rewrite (handles_length _ _ _ Hh). apply list_filter_iff.
  intros i. by rewrite (handles_matches _ _ _ _ _ Hh).
Qed.

Lemma any_matching_handles h l st name : handles h l st ->
  existsb (fun index => matches (store (storage h)) index name) (field_indices h) = negb (bool_decide (indices (named name) l = [])).
Proof.
  intros Hh. unfold field_indices. rewrite (handles_length _ _ _ Hh).
  apply eq_true_iff_eq. rewrite negb_true_iff, bool_decide_eq_false, existsb_exists. split.
  - intros (i & Hi & Hm) Hnil. assert (i ∈ indices (named name) l) as Hin; [|rewrite Hnil in Hin; by apply not_elem_of_nil in Hin].
    apply list_elem_of_filter. rewrite <-(handles_matches _ _ _ _ _ Hh). split; [done|by apply list_elem_of_In].
  - intros Hne. destruct (indices (named name) l) as [|i k] eqn:Hi; [done|].
    assert (i ∈ indices (named name) l) as Hin by (rewrite Hi; constructor).
    apply list_elem_of_filter in Hin as [H1 H2]. exists i. split; [by apply list_elem_of_In|].
    by rewrite (handles_matches _ _ _ _ _ Hh).
Qed.

Lemma remove_field_refines h l st name : handles h l st -> outcome (handles_in st) (remove_field h name) (Ok (remove_list name l)).
Proof.
  intros Hh. unfold remove_field. rewrite (any_matching_handles _ _ _ _ Hh). case_bool_decide as Hn; cbn [negb].
  - exists l. apply indices_nil in Hn. by rewrite remove_list_id.
  - eapply edit_store_handles; [done|]. intros s Hi. eexists. split; [done|]. by apply implements_remove_matching.
Qed.

Lemma make_field_nonempty name value r : make_field name value le = Ok r -> r <> [].
Proof.
  unfold make_field, serialize_generated_header. intros H.
  assert (exists k, r = append_canonical_header_name name ++ c_COLON :: k) as [k ->]; [|by destruct (append_canonical_header_name name)].
  destruct (validate_generated_header_value name value) as [[]|]; simpl in H; [| |by destruct e].
  - unfold serialize_ascii in H. destruct (ok_or _ _); [|done]. injection H as <-. by exists (c_SP :: value ++ le).
  - unfold serialize_rfc2047 in H.
    destruct (rfc2047_loop _ _ _ _ _ _) as [f|e] eqn:Hf; [|by destruct e]. injection H as <-.
    assert (forall fuel start first field f, rfc2047_loop fuel value le start first field = Ok f -> exists k, f = field ++ k) as Hext.
    { clear. induction fuel as [|fuel IH]; intros start first field f; cbn [rfc2047_loop].
      - intros [= <-]. exists []. by rewrite app_nil_r.
      - destruct (_ <=? _)%nat; [intros [= <-]; exists []; by rewrite app_nil_r|]. intros H. inv_ok.
        apply IH in H as [k ->]. destruct (_ && _); rewrite <-!app_assoc; eauto. }
    apply Hext in Hf as [k ->]. exists (k ++ le). by rewrite <-!app_assoc.
Qed.

Lemma set_field_refines h l st name value :
  handles h l st -> outcome (handles_in st) (set_field h name value le) (ref_set name value l).
Proof.
  intros Hh. unfold set_field, ref_set.
  destruct (make_field name value le) as [r|e] eqn:Hr; [|apply outcome_err]. cbn [mbind result_bind].
  apply make_field_nonempty in Hr as Hne.
  rewrite (matching_indices_handles _ _ _ _ Hh), head_indices.
  assert (match position (named name) l with
          | Some index => bytes_eqb (stored_bytes (store (storage h)) index) r && bool_decide (tail (indices (named name) l) = [])
          | None => false end = bool_decide (set_list name r l = l)) as ->.
  { destruct (position (named name) l) as [i|] eqn:Hp.
    - apply position_Some in Hp as (pre & b & post & -> & <- & Hpre & Hb).
      rewrite set_list_found by done. unfold stored_bytes. rewrite (handles_field _ _ _ _ Hh), list_lookup_middle by done. cbn.
      apply eq_true_iff_eq. rewrite andb_true_iff, bytes_eqb_true, !bool_decide_eq_true, tail_indices by done. split.
      + intros [-> Hpost]. by rewrite remove_list_id.
      + intros [= -> Hpost]%app_inv_head. split; [done|]. by apply remove_list_fixed.
    - apply position_None in Hp. rewrite set_list_absent by done. symmetry. apply bool_decide_eq_false.
      intros H. apply (f_equal length) in H. rewrite length_snoc in H. lia. }
  case_bool_decide as Hsame; cbn [negb]; [by exists l|].
  eapply edit_store_handles; [done|]. intros s Hi.
  assert (default (length (fields s)) (position (named name) l) = default (length l) (position (named name) l)) as ->.
  { destruct Hi as (_ & Hv & _). by rewrite length_fields_view, Hv. }
  eapply insert_outcome_list; [by apply implements_remove_matching|done|done].
Qed.

Lemma rename_at_refines h l st i from to :
  handles h l st -> outcome (handles_in st) (rename_at h i from to) (ref_rename_at from to l i).
Proof.
  intros Hh. unfold rename_at, ref_rename_at. rewrite (handles_matches _ _ _ _ _ Hh), (handles_field _ _ _ _ Hh).
  destruct (l !! i) as [b|] eqn:Hb; cbn [fmap option_fmap option_map]; [|by exists l].
  destruct (named from b) eqn:Hn; [|by exists l]. 
  destruct (rename_field (field_from_bytes b) to) as [r|e] eqn:Hr; [|apply outcome_err]. cbn [mbind result_bind f_bytes field_from_bytes].
  change (f_bytes (field_from_bytes b)) with b.
  destruct (bytes_eqb b r); cbn [negb]; [by exists l|].
  eapply edit_store_handles; [done|]. intros s Hi. eapply insert_outcome_list; [by apply implements_remove| |].
  - unfold rename_field in Hr. unfold named, field_matches in Hn. destruct (f_name (field_from_bytes b)) as [old|] eqn:Hold; [|done].
    apply length_field_from_bytes_name in Hold as [Hlen _]. destruct (ok_or _ _); [|done]. injection Hr as <-.
    cbn [mbind option_bind f_bytes field_from_bytes]. rewrite (proj2 (Nat.leb_le _ _)) by lia. intros H. apply app_nil in H as [_ H].
    apply (f_equal length) in H. change (default [] (Some ?x)) with x in H. rewrite length_drop in H. simpl in H. lia.
  - rewrite insert_take_drop by by eapply lookup_lt_Some. apply lookup_lt_Some in Hb.
    rewrite delete_take_drop, take_app_le, drop_app_ge by (rewrite length_take; lia).
    rewrite take_take, length_take, Nat.min_l by lia. rewrite Nat.min_l, Nat.sub_diag, drop_0 by lia. done.
Qed.

Lemma outcome_ok_fold {A} (f : EditedHeader -> A -> result HeaderEditError EditedHeader)
    (g : list bytes -> A -> result HeaderEditError (list bytes)) xs st :
  (forall h l x, handles h l st -> outcome (handles_in st) (f h x) (g l x)) ->
  forall m a, outcome (handles_in st) m a ->
  outcome (handles_in st) (foldl (fun h x => h ← h; f h x) m xs) (foldl (fun l x => l ← l; g l x) a xs).
Proof.
  intros Hf. induction xs as [|x xs IH]; intros m a Hm; [done|]. simpl. apply IH.
  eapply outcome_bind; [exact Hm|]. intros h l Hh. by apply Hf.
Qed.

Lemma foldl_ok {A} (g : list bytes -> A -> list bytes) xs l :
  foldl (fun l x => l ← l; Ok (g l x)) (Ok l) xs = Ok (foldl g l xs) :> result HeaderEditError _.
Proof. revert l. induction xs as [|x xs IH]; intros l; simpl; [done|apply IH]. Qed.

Lemma stored_fields_handles h l st : handles h l st -> stored_fields h = field_from_bytes <$> l.
Proof.
  intros Hh. unfold stored_fields. rewrite (handles_length _ _ _ Hh).
  assert (forall pre k, l = pre ++ k -> omap (field (store (storage h))) (seq (length pre) (length k)) = field_from_bytes <$> k) as H;
    [|by apply (H [] l)].
  intros pre k. revert pre. induction k as [|b k IH]; intros pre Hl; [done|]. cbn [length seq omap list_omap].
  rewrite (handles_field _ _ _ _ Hh), Hl, list_lookup_middle by done. cbn [fmap option_fmap option_map].
  csimpl. f_equal. rewrite <-(length_snoc pre b). apply IH. by rewrite <-app_assoc.
Qed.

Lemma apply_keywords_refines h l st mode :
  handles h l st -> outcome (handles_in st) (apply_keywords h mode le) (ref_keywords mode l).
Proof.
  intros Hh. unfold apply_keywords, ref_keywords. rewrite (stored_fields_handles _ _ _ Hh).
  eapply (outcome_bind eq); [apply outcome_same|]. intros keywords ? <-. case_bool_decide.
  - rewrite <-foldl_ok. apply outcome_ok_fold; [|by exists l].
    intros h' l' x Hh'. by apply remove_field_refines.
  - apply (outcome_ok_fold (fun h field => set_field h (KeywordField_name field) (join_keywords keywords) le)); [|by exists l].
    intros h' l' x Hh'. by apply set_field_refines.
Qed.

Lemma apply_priority_refines h l st mode :
  handles h l st -> outcome (handles_in st) (apply_priority h mode le) (ref_priority mode l).
Proof.
  intros Hh. unfold apply_priority, ref_priority. destruct (priority_fields mode) as [fs|].
  - assert (forall fs m a, outcome (handles_in st) m a ->
      outcome (handles_in st) (foldl (fun h '(name, value) => h ← h; set_field h name value le) m fs)
        (foldl (fun l '(name, value) => l ← l; ref_set name value l) a fs)) as H; [|apply H; by exists l].
    clear. induction fs as [|[name value] fs IH]; intros m a Hm; [done|]. simpl. apply IH.
    eapply outcome_bind; [exact Hm|]. intros h l Hh. by apply set_field_refines.
  - rewrite <-foldl_ok. apply (outcome_ok_fold remove_field (fun l name => Ok (remove_list name l))); [|by exists l].
    intros h' l' x Hh'. by apply remove_field_refines.
Qed.

Lemma set_or_remove_refines h l st name value :
  handles h l st -> outcome (handles_in st) (set_or_remove h name value le) (ref_set_or_remove name value l).
Proof.
  intros Hh. destruct value; simpl; [by apply set_field_refines|by apply remove_field_refines].
Qed.

Lemma set_status_handles h l st st' : handles h l st -> handles (set_status h st') l st'.
Proof.
  intros [Hs Hv Hl Har Hu Hc Hsep Hle Hlim Hst Hsz]. unfold set_status. case_bool_decide as Heq; [constructor; try done; congruence|].
  unfold make_mut. destruct (shared h) eqn:Hsh; cbn; constructor; cbn; rewrite ?Hsh; try done.
  by right.
Qed.

Lemma apply_status_refines h l st mode :
  handles h l st ->
  outcome (fun h '(l, st) => handles h l st) (apply_status h mode le)
    (st ← new_status st mode;
     l ← ref_set_or_remove (B "Status") (status_header_value st) l;
     l ← ref_set_or_remove (B "X-Status") (x_status_header_value st) l; Ok (l, st)).
Proof.
  intros Hh. unfold apply_status. rewrite (hd_status _ _ _ Hh).
  eapply (outcome_bind eq); [apply outcome_same|]. intros st' ? <-.
  eapply outcome_bind; [by apply set_or_remove_refines|]. intros h1 l1 Hh1. unfold handles_in in Hh1.
  eapply outcome_bind; [by apply set_or_remove_refines|]. intros h2 l2 Hh2. unfold handles_in in Hh2.
  eexists. split; [done|]. by eapply set_status_handles.
Qed.

Lemma ref_extract_handles h l st name mode : handles h l st ->
  match head (matching_indices (store (storage h)) name) with
  | None => Ok []
  | Some index => match field (store (storage h)) index with Some f => extract_value f mode | None => Ok [] end
  end = ref_extract name mode l.
Proof.
  intros Hh. rewrite (matching_indices_handles _ _ _ _ Hh), head_indices. unfold ref_extract.
  destruct (position (named name) l) as [i|] eqn:Hp.
  - apply position_Some in Hp as (pre & b & post & -> & <- & Hpre & Hb).
    rewrite (handles_field _ _ _ _ Hh), list_lookup_middle by done. cbn [fmap option_fmap option_map].
    clear Hh. induction Hpre as [|a pre Ha Hpre IH]; cbn [app find]; [by rewrite Hb|]. by rewrite Ha.
  - apply position_None in Hp. clear Hh. induction Hp as [|a l Ha Hl IH]; [done|]. cbn [find]. by rewrite Ha.
Qed.

Definition op_result (x : EditedHeader * list HeaderExtraction) (y : list bytes * MessageStatus * list HeaderExtraction) : Prop :=
  let '(l, st, ex) := y in handles x.1 l st /\ x.2 = ex.

Lemma outcome_pair m a st :
  outcome (handles_in st) m a -> outcome op_result (h ← m; Ok (h, [])) (l ← a; Ok (l, st, [])).
Proof. intros H. eapply outcome_bind; [exact H|]. intros h l Hh. eexists. done. Qed.

Lemma ref_rename_length from to l i l' : ref_rename_at from to l i = Ok l' -> length l' = length l.
Proof.
  unfold ref_rename_at, limited. destruct (l !! i); [|by intros [= <-]]. destruct (named from _); [|by intros [= <-]].
  intros H. apply result_bind_Ok in H as (r & _ & H). destruct (bytes_eqb _ r); [by injection H as <-|].
  destruct (_ <? _); [done|]. injection H as <-. apply length_insert.
Qed.

Lemma apply_operation_refines h l st op :
  handles h l st -> outcome op_result (apply_operation h op le) (ref_operation l st op).
Proof.
  intros Hh. destruct op as [? name|? name value|? name value|? name value|? from to|line name target mode|? mode|? mode|? mode];
    cbn [apply_operation ref_operation].
  - apply (outcome_pair _ (Ok (remove_list name l))). by apply remove_field_refines.
  - apply outcome_pair. by apply set_field_refines.
  - destruct (make_field name (hv_source value) le) as [r|] eqn:Hr; [|apply outcome_err]. cbn [mbind result_bind].
    apply outcome_pair. eapply edit_store_handles; [done|]. intros s Hi.
    eapply insert_outcome_list; [done|by eapply make_field_nonempty|].
    destruct Hi as (_ & Hv & _). rewrite length_fields_view, Hv. by rewrite take_ge, drop_ge.
  - destruct (make_field name (hv_source value) le) as [r|] eqn:Hr; [|apply outcome_err]. cbn [mbind result_bind].
    apply outcome_pair. eapply edit_store_handles; [done|]. intros s Hi.
    eapply insert_outcome_list; [done|by eapply make_field_nonempty|done].
  - apply outcome_pair. unfold field_indices. rewrite (handles_length _ _ _ Hh).
    apply (outcome_ok_fold (fun h i => rename_at h i from to) (fun l i => ref_rename_at from to l i)); [|by exists l].
    intros h' l' i Hh'. by apply rename_at_refines.
  - rewrite (ref_extract_handles _ _ _ _ _ Hh). eapply (outcome_bind eq); [apply outcome_same|].
    intros v ? <-. eexists. done.
  - apply outcome_pair. by apply apply_keywords_refines.
  - apply outcome_pair. by apply apply_priority_refines.
  - pose proof (apply_status_refines _ _ _ mode Hh) as H.
    destruct (apply_status h mode le) as [h'|e]; cbn [mbind result_bind] in *.
    + destruct H as ([l' st'] & Ha & Hh').
      destruct (new_status st mode) as [st1|]; [|done]. cbn [mbind result_bind] in *.
      destruct (ref_set_or_remove _ _ l) as [l1|]; [|done]. cbn [mbind result_bind] in *.
      destruct (ref_set_or_remove _ _ l1) as [l2|]; [|done]. injection Ha as -> ->.
      eexists. split; [done|]. done.
    + destruct (new_status st mode) as [st1|e']; cbn [mbind result_bind] in *; [|destruct e; naive_solver].
      destruct (ref_set_or_remove _ _ l) as [l1|]; cbn [mbind result_bind] in *; [|destruct e; naive_solver].
      destruct (ref_set_or_remove _ _ l1) as [l2|]; cbn [mbind result_bind] in *; destruct e; naive_solver.
Qed.

Lemma aggregate_refines h l st : handles h l st ->
  outcome eq (validate_aggregate_size (store (storage h)) (separator (storage h)) le body_len l0) (ref_aggregate l).
Proof.
  intros Hh. unfold validate_aggregate_size, ref_aggregate. rewrite serialized_size_spec, (hd_view _ _ _ Hh), (hd_sep _ _ _ Hh).
  set (n := joined None le l ++ sep). destruct (Z.leb_spec (len n) usize_max) as [Hu|Hu]; [|done]. cbn [mbind result_bind].
  unfold check_limit. destruct (headers_size l0 <? len n); [done|]. cbn [mbind result_bind].
  destruct (Z.leb_spec (Z.of_nat (length n + body_len)) usize_max) as [Hu'|Hu'].
  - rewrite (add_size_ok _ _ _ eq_refl) by done. cbn [mbind result_bind]. unfold check_limit.
    replace (Z.of_nat (length n + body_len)) with (len n + Z.of_nat body_len) by lia.
    destruct (message_size l0 <? _); [done|by exists ()].
  - by rewrite add_size_err.
Qed.

Lemma apply_operations_refines h l st ops ex :
  handles h l st -> outcome op_result (apply_operations h ops le body_len l0 ex) (ref_operations l st ops ex).
Proof.
  revert h l st ex. induction ops as [|op ops IH]; intros h l st ex Hh; cbn [apply_operations ref_operations].
  { eexists. done. }
  eapply outcome_bind; [by apply apply_operation_refines|]. intros [h1 e1] [[l1 st1] ex1] [Hh1 <-]. cbn in Hh1 |- *.
  eapply (outcome_bind eq); [by eapply aggregate_refines|]. intros _ _ _. by apply IH.
Qed.

Lemma handles_bytes h l st : handles h l st -> header_bytes h = joined None le l ++ sep.
Proof. intros []. rewrite header_bytes_joined. congruence. Qed.
End abstract.

(** A raw header as the start of a transaction. *)
Lemma new_raw_handles {T : Target} b limits fs sep le :
  split_fields b = (fs, sep, le) -> 0 <= headers_size limits <= usize_max -> len b <= usize_max ->
  exists h, new_raw b limits = Ok h /\
    handles (Z.max (len b) (headers_size limits)) sep le limits h (f_bytes <$> fs) status_NONE.
Proof.
  intros Hsplit Hl Hb. unfold new_raw. rewrite Hsplit.
  destruct (split_fields_spec _ _ _ _ Hsplit) as (Hcat & _ & Hne).
  assert (len (concat (f_bytes <$> fs)) <= len b) as Hlen by (rewrite <-Hcat, length_app; lia).
  pose proof (store_new_ok fs (Z.max (headers_size limits) (len b))) as Hnew.
  destruct (store_new fs _) as [s|e]; simpl.
  2: { destruct Hnew as [Hnew _]; [lia|lia|eapply Forall_impl; [exact Hne|by intros ? []]|lia]. }
  destruct Hnew as (Hs & Hv & Hc & Ha); [lia|lia|eapply Forall_impl; [exact Hne|by intros ? []]|].
  eexists. split; [done|]. constructor; try done; simpl.
  - rewrite Z.max_comm. lia.
  - by right.
Qed.

(** C9: A header action on a raw header does what its operations say on the
    list of fields.  When it succeeds, the new header's bytes are the
    resulting fields and the old separator, within all limits for the given
    body, and the extracted values and the status are those of the list
    operations; when it fails (an overflow of [usize] aside) either a list
    operation fails with the same error, or the operations succeed and their
    result breaks a limit.  Arena, copy-on-write and caches are invisible. *)
Theorem apply_header_action_refines {T : Target} b body_len action limits fs sep le :
  split_fields b = (fs, sep, le) -> usize_limits limits -> len b <= usize_max ->
  let c := Z.max (len b) (headers_size limits) in
  let reference := ref_operations c sep le body_len limits (f_bytes <$> fs) status_NONE (operations action) [] in
  match apply_header_action (Raw b) body_len action limits with
  | Ok a =>
      exists l st, reference = Ok (l, st, ap_extractions a) /\
        header_bytes (ap_header a) = joined None le l ++ sep /\ (as_bytes (ap_header a)).1 = joined None le l ++ sep /\
        status (storage (ap_header a)) = st /\ fits limits body_len (joined None le l ++ sep)
  | Err SizeOverflow => True
  | Err e => reference = Err e \/
             exists l st ex, reference = Ok (l, st, ex) /\ ~ fits limits body_len (joined None le l ++ sep)
  end.
Proof.
  intros Hsplit Hu Hb c reference. pose proof Hu as (Hh & _).
  destruct (new_raw_handles b limits fs sep le Hsplit Hh Hb) as (h & Hnew & Hhd). fold c in Hhd.
  unfold apply_header_action, new_header. rewrite Hnew. cbn [mbind result_bind].
  rewrite (hd_le _ _ _ _ _ _ _ Hhd). cbv zeta.
  pose proof (apply_operations_refines c sep le body_len limits h (f_bytes <$> fs) status_NONE (operations action) [] Hhd) as H.
  destruct (apply_operations h _ _ _ _ _) as [[h' ex]|e]; cbn [mbind result_bind] in *; [|destruct e; auto].
  destruct H as ([[l st] ex'] & Href & Hhd' & <-). cbn in Hhd'. fold reference in Href. rewrite Href.
  pose proof (handles_bytes _ _ _ _ _ _ _ Hhd') as Hbytes. destruct Hhd'.
  pose proof (finish_spec h' body_len hd_sized0 hd_store0 hd_coherent0) as Hf. rewrite hd_limits0 in Hf. specialize (Hf Hu).
  destruct (finish h' body_len) as [h''|e]; cbn [mbind result_bind].
  - destruct Hf as (Hfit & Hb'' & _ & _ & _ & Hc'' & Hst'' & _). rewrite Hbytes in *.
    exists l, st. cbn [ap_header ap_extractions snd]. split_and!; try done; [|congruence].
    pose proof (as_bytes_spec h'' Hc'') as Hab. destruct (as_bytes h'') as [bb hh]. destruct Hab as (-> & _). done.
  - rewrite Hbytes in Hf. destruct e; try done; right; by exists l, st, ex.
Qed.

(** What [set] leaves: exactly one field with the name, the new one, at
    the place of the first old one or at the end; every other field is there,
    in order, unchanged. *)
Theorem set_list_spec name r l :
  named name r = true ->
  filter (fun b => named name b = true) (set_list name r l) = [r] /\
  remove_list name (set_list name r l) = remove_list name l /\
  set_list name r (set_list name r l) = set_list name r l /\
  set_list name r l !! default (length l) (position (named name) l) = Some r.
Proof.
  intros Hr. assert (forall k, Forall (fun b => named name b = false) k -> filter (fun b => named name b = true) k = []) as Hnone.
  { induction 1 as [|b k Hb Hk IH]; [done|]. rewrite filter_cons_False; [done|congruence]. }
  assert (forall k, Forall (fun b => named name b = false) (remove_list name k)) as Hrem.
  { intros k. apply Forall_forall. intros b [Hb _]%list_elem_of_filter. by apply negb_true_iff. }
  destruct (position (named name) l) as [i|] eqn:Hp.
  - apply position_Some in Hp as (pre & b & post & -> & <- & Hpre & Hb).
    rewrite set_list_found by done. split_and!.
    + rewrite filter_app, filter_cons_True, !Hnone by done. done.
    + unfold remove_list at 1 3. rewrite !filter_app, !filter_cons_False by (by rewrite ?Hr, ?Hb).
      f_equal. apply (remove_list_id name (remove_list name post)). done.
    + rewrite set_list_found by done. by rewrite remove_list_id.
    + by apply list_lookup_middle.
  - apply position_None in Hp. rewrite set_list_absent by done. split_and!.
    + rewrite filter_app, filter_cons_True, Hnone by done. done.
    + unfold remove_list. rewrite filter_app, filter_cons_False by (by rewrite Hr). by rewrite app_nil_r.
    + rewrite set_list_found by done. done.
    + by apply list_lookup_middle.
Qed.

(** The spam recipe of the witnesses: a header, and an action that replaces,
    removes, labels and extracts. *)
Definition mail_header : bytes :=
  B "X-Spam: yes" ++ [10] ++ B "Subject: [list] news" ++ [10] ++ B "subject: again" ++ [10; 10].

Definition literal (v : bytes) : HeaderValue := {| hv_source := v; hv_expansion := None |}.

Definition label_action : HeaderAction := {| operations :=
  [HO_Extract 1 (B "subject") (B "S") EM_Unfolded; HO_Set 2 (B "subject") (literal (B "news"));
   HO_Remove 3 (B "x-spam"); HO_Status 4 (SM_Add (literal (B "read")))] |}.

Lemma apply_header_action_refines_witness :
  exists a, apply_header_action (T := target64) (Raw mail_header) 100 label_action default_limits = Ok a /\
    (as_bytes (ap_header a)).1 = B "Subject: news" ++ [10] ++ B "Status: RO" ++ [10; 10] /\
    fits (T := target64) default_limits 100 (B "Subject: news" ++ [10] ++ B "Status: RO" ++ [10; 10]).
Proof.
  pose proof (apply_header_action_refines (T := target64) mail_header 100 label_action default_limits
    (split_fields mail_header).1.1 (split_fields mail_header).1.2 (split_fields mail_header).2) as H.
  destruct (apply_header_action (T := target64) (Raw mail_header) 100 label_action default_limits) as [a|e] eqn:Ha;
    [|exfalso; vm_compute in Ha; discriminate].
  destruct H as (l & st & Href & _ & Hb & _ & Hfit);
    [by destruct (split_fields mail_header) as [[? ?] ?]|apply default_usize_limits|vm_compute; discriminate|].
  exists a. split; [reflexivity|].
  assert (joined None (split_fields mail_header).2 l ++ (split_fields mail_header).1.2 =
    B "Subject: news" ++ [10] ++ B "Status: RO" ++ [10; 10]) as Hout.
  { assert (match ref_operations (T := target64) (Z.max (len mail_header) (headers_size default_limits)) (split_fields mail_header).1.2 (split_fields mail_header).2
      100 default_limits (f_bytes <$> (split_fields mail_header).1.1) status_NONE (operations label_action) [] with
      | Ok (l, _, _) => l | Err _ => [] end = l) as <- by by rewrite Href.
    vm_compute. reflexivity. }
  rewrite <-Hout. exact (conj Hb Hfit).
Defined.

Lemma set_list_spec_witness :
  named (B "a") (B "A: 2") = true /\ set_list (B "a") (B "A: 2") [B "X: 1"; B "a: 1"; B "Y: 1"; B "A: 3"] = [B "X: 1"; B "A: 2"; B "Y: 1"] /\
  filter (fun b => named (B "a") b = true) [B "X: 1"; B "A: 2"; B "Y: 1"] = [B "A: 2"].
Proof.
  assert (named (B "a") (B "A: 2") = true) as H by (vm_compute; reflexivity).
  split; [exact H|]. split; [vm_compute; reflexivity|].
  exact (proj1 (set_list_spec (B "a") (B "A: 2") [B "X: 1"; B "a: 1"; B "Y: 1"; B "A: 3"] H)).
Defined.

(** * Extracting what was generated *)

Section roundtrip.
Context {T : Target}.

Definition is_line_ending (le : bytes) : Prop := le = [c_LF] \/ le = [c_CR; c_LF].

Lemma encoded_word_no_lf ch : chunk_ok ch -> no_lf (c_SP :: encoded_word ch).
Proof.
  intros (_ & _ & Hu). unfold encoded_word, no_lf. constructor; [done|]. rewrite !Forall_app. split_and!; [repeat constructor| |repeat constructor].
  eapply Forall_impl; [apply append_base64_text, utf8_chars_bytes; done|]. intros b Hb. simpl.
  apply Z.eqb_neq. intros ->. by vm_compute in Hb.
Qed.

Lemma strip_line_ending_line l le : is_line_ending le -> (forall k, l <> k ++ [c_CR]) -> strip_line_ending (l ++ le) = l.
Proof.
  intros Hle Hcr. unfold strip_line_ending. destruct Hle as [-> | ->].
  - destruct (strip_suffix (l ++ [c_LF]) [c_CR; c_LF]) as [k|] eqn:Hk; [|by rewrite strip_suffix_app].
    apply strip_suffix_Some in Hk. exfalso. apply (Hcr k). apply (app_inj_tail l (k ++ [c_CR]) c_LF c_LF). by rewrite <-app_assoc.
  - by rewrite strip_suffix_app.
Qed.

(** One line of [unfold_value]: blanks, then [content]. *)
Lemma unfold_value_line fuel blanks content le rest first output :
  is_line_ending le -> no_lf (blanks ++ content) -> (forall k, blanks ++ content <> k ++ [c_CR]) ->
  Forall (fun b => is_blank b = true) blanks -> (forall b, head content = Some b -> is_blank b = false) ->
  unfold_value_loop (S fuel) ((blanks ++ content) ++ le ++ rest) first output =
  (output ← (if first then Ok output else map_err (fun _ => extraction_length_error) (try_extend output [c_SP]));
   output ← map_err (fun _ => extraction_length_error) (try_extend output content);
   unfold_value_loop fuel rest false output).
Proof.
  intros Hle Hlf Hcr Hbl Hc.
  assert (position (fun b => b =? c_LF) ((blanks ++ content) ++ le ++ rest) = Some (length (blanks ++ content) + length le - 1)%nat) as Hpos.
  { destruct Hle as [-> | ->].
    - rewrite (position_app_cons _ (blanks ++ content) c_LF rest) by done. f_equal. simpl. lia.
    - rewrite app_assoc. change (?x ++ [c_CR; c_LF]) with (x ++ [c_CR] ++ [c_LF]).
      rewrite (app_assoc _ [c_CR]), <-(app_assoc _ [c_LF]). rewrite (position_app_cons _ ((blanks ++ content) ++ [c_CR]) c_LF rest).
      + f_equal. rewrite length_app. simpl. lia.
      + apply Forall_app. split; [exact Hlf|repeat constructor].
      + done. }
  destruct ((blanks ++ content) ++ le ++ rest) as [|x xs] eqn:Hin.
  { exfalso. apply app_nil in Hin as [_ Hin]. destruct Hle as [-> | ->]; done. }
  rewrite <-Hin in *. cbn [unfold_value_loop]. 
  assert (length le <> 0)%nat by (destruct Hle as [-> | ->]; done).
  rewrite Hin at 1. cbn iota. rewrite Hpos. cbv zeta.
  replace (S (length (blanks ++ content) + length le - 1)) with (length ((blanks ++ content) ++ le)) by (rewrite (length_app _ le); lia).
  rewrite (app_assoc _ le rest), take_app_length, drop_app_length, strip_line_ending_line by done.
  assert (match position (fun b => negb (is_blank b)) (blanks ++ content) with Some start => drop start (blanks ++ content) | None => [] end = content) as ->; [|done].
  destruct content as [|c content].
  - rewrite app_nil_r, (proj2 (position_None _ _)); [done|]. eapply Forall_impl; [exact Hbl|]. intros b Hb. simpl. by rewrite Hb.
  - rewrite (position_app_cons _ blanks c content); [apply drop_app_length| |by rewrite (Hc c)].
    eapply Forall_impl; [exact Hbl|]. intros b Hb. simpl. by rewrite Hb.
Qed.

Definition word_lines (le : bytes) (chunks : list bytes) : bytes := chunks ≫= (fun ch => (c_SP :: encoded_word ch) ++ le).

Lemma word_line fuel ch le rest first output :
  is_line_ending le -> chunk_ok ch ->
  unfold_value_loop (S fuel) ((c_SP :: encoded_word ch) ++ le ++ rest) first output =
  (output ← (if first then Ok output else map_err (fun _ => extraction_length_error) (try_extend output [c_SP]));
   output ← map_err (fun _ => extraction_length_error) (try_extend output (encoded_word ch));
   unfold_value_loop fuel rest false output).
Proof.
  intros Hle Hch. apply (unfold_value_line fuel [c_SP] (encoded_word ch) le rest first output Hle).
  - by apply encoded_word_no_lf.
  - intros k Hk. unfold encoded_word in Hk. rewrite !app_assoc in Hk. change ENCODED_WORD_SUFFIX with ([c_QM] ++ [c_EQ]) in Hk.
    rewrite app_assoc in Hk. by apply app_inj_tail in Hk as [_ ?].
  - by repeat constructor.
  - by intros b [= <-].
Qed.

Lemma unfold_word_lines fuel le chunks output :
  is_line_ending le -> Forall chunk_ok chunks -> (length (word_lines le chunks) <= fuel)%nat ->
  len (bb_bytes output ++ spaced_words chunks) <= bb_limit output -> bb_limit output <= usize_max ->
  unfold_value_loop fuel (word_lines le chunks) false output =
  Ok {| bb_bytes := bb_bytes output ++ spaced_words chunks; bb_limit := bb_limit output |}.
Proof.
  intros Hle Hc. revert fuel output. induction Hc as [|ch chunks Hch Hc IH]; intros fuel output Hf Hl Hu.
  { rewrite app_nil_r. destruct output. by destruct fuel. }
  unfold word_lines, spaced_words in *. rewrite !bind_cons in *. fold (word_lines le chunks) (spaced_words chunks) in *.
  rewrite <-app_assoc in *. destruct fuel as [|fuel]; [simpl in Hf; lia|].
  rewrite word_line by done. rewrite length_app in Hl. cbn [app length] in Hl. rewrite length_app in Hl.
  rewrite try_extend_fits by (rewrite ?length_app; cbn [app length]; lia). cbn [map_err mbind result_bind].
  rewrite try_extend_fits by (cbn [bb_bytes bb_limit]; rewrite ?length_app; cbn [app length]; lia). cbn [map_err mbind result_bind bb_bytes bb_limit].
  rewrite IH; cbn [bb_bytes bb_limit]; try done.
  - by rewrite <-!app_assoc.
  - cbn [app length] in Hf. rewrite !length_app in Hf. lia.
  - rewrite !length_app. cbn [app length]. lia.
Qed.

Definition trim_blanks (l : bytes) : bytes :=
  match position (fun b => negb (is_blank b)) l with Some start => drop start l | None => [] end.

Lemma trim_blanks_split l : exists blanks, l = blanks ++ trim_blanks l /\
  Forall (fun b => is_blank b = true) blanks /\ (forall b, head (trim_blanks l) = Some b -> is_blank b = false).
Proof.
  unfold trim_blanks. destruct (position _ l) as [i|] eqn:Hp.
  - apply position_Some in Hp as (pre & b & post & -> & <- & Hpre & Hb). exists pre. rewrite drop_app_length. split_and!; [done| |].
    + eapply Forall_impl; [exact Hpre|]. intros x Hx. simpl in Hx. by apply negb_false_iff.
    + intros x [= <-]. by apply negb_true_iff.
  - apply position_None in Hp. exists l. rewrite app_nil_r. split_and!; [done| |done].
    eapply Forall_impl; [exact Hp|]. intros x Hx. simpl in Hx. by apply negb_false_iff.
Qed.

Lemma unfold_value_single line le : is_line_ending le -> no_lf line -> (forall k, line <> k ++ [c_CR]) ->
  len line <= MAX_ASSIGNMENT_VALUE_LEN -> unfold_value (line ++ le) = Ok (trim_blanks line).
Proof.
  intros Hle Hlf Hcr Hl. destruct (trim_blanks_split line) as (blanks & Hs & Hb & Hh).
  assert (exists n, length (line ++ le) = S n) as [n Hn].
  { rewrite length_app. destruct Hle as [-> | ->]; simpl; eexists; by rewrite <-plus_n_Sm. }
  unfold unfold_value. rewrite Hn. rewrite Hs at 1. rewrite <-(app_nil_r (_ ++ le)), <-app_assoc.
  rewrite unfold_value_line by (rewrite <-?Hs; done). cbn [mbind result_bind].
  pose proof usize_max_lower. pose proof (f_equal length Hs) as Hll. rewrite length_app in Hll.
  unfold MAX_ASSIGNMENT_VALUE_LEN in *. rewrite try_extend_fits; cbn [bb_bytes bb_limit with_capacity app]; [|lia|lia].
  by destruct n.
Qed.

(** Canonical capitalisation introduces no byte outside the letters. *)
Lemma canonical_avoids c name : c < 65 -> Forall (fun b => (b =? c) = false) name ->
  Forall (fun b => (b =? c) = false) (append_canonical_header_name name).
Proof.
  intros Hc. unfold append_canonical_header_name. generalize true.
  induction name as [|b l IH]; intros beg; [done|]. intros [Hb Hl]%Forall_cons. cbn [canonical_name_from].
  constructor; [|by apply IH]. apply Z.eqb_neq in Hb. apply Z.eqb_neq. unfold to_ascii_uppercase, to_ascii_lowercase, is_ascii_lowercase, is_ascii_uppercase, between.
  destruct beg; case_match; lia.
Qed.

Lemma canonical_length name : length (append_canonical_header_name name) = length name.
Proof. unfold append_canonical_header_name. generalize true. induction name; intros beg; simpl; auto. Qed.

Lemma field_value_after_name name rest : no_lf name -> Forall (fun b => (b =? c_COLON) = false) name ->
  field_value (field_from_bytes (append_canonical_header_name name ++ c_COLON :: rest)) = Some rest.
Proof.
  intros Hn Hcol. apply (canonical_avoids c_COLON) in Hcol; [|done]. apply (canonical_avoids c_LF) in Hn; [|done].
  set (nm := append_canonical_header_name name) in *.
  assert (f_name (field_from_bytes (nm ++ c_COLON :: rest)) = Some nm) as Hname.
  { cbn [f_name field_from_bytes].
    assert (exists k, take (default (length (nm ++ c_COLON :: rest)) (position (fun x => x =? c_LF) (nm ++ c_COLON :: rest))) (nm ++ c_COLON :: rest) = nm ++ c_COLON :: k) as [k ->].
    { rewrite position_app_none by done. simpl. destruct (position _ rest) as [i|]; simpl; [|rewrite take_ge by lia; eauto].
      exists (take i rest). rewrite take_app_ge by lia. f_equal. by replace (length nm + S i - length nm)%nat with (S i) by lia. }
    rewrite position_app_cons by done. simpl. by rewrite take_app_length. }
  unfold field_value. rewrite Hname. cbn [mbind option_bind f_bytes field_from_bytes].
  rewrite (proj2 (Nat.leb_le _ _)) by (rewrite length_app; simpl; lia).
  f_equal. rewrite drop_app_ge by lia. by replace (length nm + 1 - length nm)%nat with 1%nat by lia.
Qed.

Lemma folded_words_lines le ch chunks : (c_SP :: encoded_word ch) ++ folded_words le chunks ++ le = word_lines le (ch :: chunks).
Proof.
  revert ch. induction chunks as [|ch' chunks IH]; intros ch.
  - unfold word_lines. rewrite bind_cons. by rewrite app_nil_r.
  - transitivity (((c_SP :: encoded_word ch) ++ le) ++ word_lines le (ch' :: chunks)); [|unfold word_lines; by rewrite bind_cons].
    rewrite <-IH. cbn [folded_words]. rewrite <-!app_assoc. cbn [app]. by rewrite <-!app_assoc.
Qed.

Lemma spaced_length chunks le : (length (spaced_words chunks) <= length (word_lines le chunks))%nat.
Proof.
  induction chunks as [|ch chunks IH]; [done|]. unfold spaced_words, word_lines in *. rewrite !bind_cons, !length_app. lia.
Qed.

Lemma spaced_concat chunks : Forall chunk_ok chunks -> (length (concat chunks) <= length (spaced_words chunks))%nat.
Proof.
  induction 1 as [|ch chunks (_ & Hl & _) _ IH]; [done|]. unfold spaced_words in *. rewrite bind_cons, length_app. cbn [concat length].
  rewrite length_app, length_encoded_word by done. 
  pose proof (Nat.div_mod_eq (length ch + 2) 3). pose proof (Nat.mod_upper_bound (length ch + 2) 3). lia.
Qed.

Lemma spaced_words_cons ch chunks : spaced_words (ch :: chunks) = c_SP :: encoded_word ch ++ spaced_words chunks.
Proof. unfold spaced_words. by rewrite bind_cons. Qed.

Lemma word_lines_cons le ch chunks : word_lines le (ch :: chunks) = (c_SP :: encoded_word ch) ++ le ++ word_lines le chunks.
Proof. unfold word_lines. rewrite bind_cons. by rewrite <-app_assoc. Qed.

(** The words on the line of the name. *)
Lemma unfold_on_line le ch chunks : is_line_ending le -> Forall chunk_ok (ch :: chunks) ->
  len (word_lines le (ch :: chunks)) <= MAX_ASSIGNMENT_VALUE_LEN ->
  unfold_value (word_lines le (ch :: chunks)) = Ok (encoded_word ch ++ spaced_words chunks).
Proof.
  intros Hle [Hch Hc]%Forall_cons. pose proof usize_max_lower. pose proof (spaced_length chunks le).
  rewrite word_lines_cons. intros Hl. unfold unfold_value, MAX_ASSIGNMENT_VALUE_LEN in *.
  assert (exists n, length ((c_SP :: encoded_word ch) ++ le ++ word_lines le chunks) = S n) as [n Hn] by (eexists; reflexivity).
  rewrite Hn, word_line by done. cbn [mbind result_bind]. rewrite !length_app in Hn, Hl. cbn [length] in Hn, Hl.
  rewrite try_extend_fits; cbn [map_err mbind result_bind bb_bytes bb_limit with_capacity app]; [|lia|lia].
  assert (0 < length le)%nat by (destruct Hle as [-> | ->]; simpl; lia).
  rewrite unfold_word_lines; cbn [bb_bytes bb_limit]; [done|done|done|lia|rewrite length_app; lia|lia].
Qed.

(** All of them after an empty first line. *)
Lemma unfold_after_fold le chunks : is_line_ending le -> Forall chunk_ok chunks ->
  len (le ++ word_lines le chunks) <= MAX_ASSIGNMENT_VALUE_LEN ->
  unfold_value (le ++ word_lines le chunks) = Ok (spaced_words chunks).
Proof.
  intros Hle Hc Hl. pose proof usize_max_lower. pose proof (spaced_length chunks le). unfold unfold_value, MAX_ASSIGNMENT_VALUE_LEN in *.
  rewrite length_app in Hl.
  assert (0 < length le)%nat by (destruct Hle as [-> | ->]; simpl; lia).
  destruct (length (le ++ word_lines le chunks)) as [|n] eqn:Hn; rewrite length_app in Hn; [lia|].
  change (le ++ word_lines le chunks) with (([] ++ []) ++ le ++ word_lines le chunks).
  rewrite unfold_value_line; [|done|by constructor|intros k Hk; by destruct k|by constructor|done]. cbn [mbind result_bind].
  rewrite try_extend_fits; cbn [map_err mbind result_bind bb_bytes bb_limit with_capacity app length]; [|lia|lia].
  rewrite unfold_word_lines; cbn [bb_bytes bb_limit app]; [done|done|done|lia|lia|lia].
Qed.

Lemma decode_words (fits : bool) le chunks : is_line_ending le -> Forall chunk_ok chunks -> Forall printable chunks -> chunks <> [] ->
  len ((if fits then [] else le) ++ word_lines le chunks) <= MAX_ASSIGNMENT_VALUE_LEN ->
  (unfolded ← unfold_value ((if fits then [] else le) ++ word_lines le chunks);
   map_err Decode (decode_rfc2047 unfolded MAX_ASSIGNMENT_VALUE_LEN)) =
  Ok ((if fits then [] else [c_SP]) ++ concat chunks).
Proof.
  intros Hle Hc Hp Hne Hl. pose proof usize_max_lower. pose proof (spaced_length chunks le). pose proof (spaced_concat _ Hc).
  assert (0 < length le)%nat by (destruct Hle as [-> | ->]; simpl; lia).
  pose proof Hl as Hl'. rewrite length_app in Hl'. assert (MAX_ASSIGNMENT_VALUE_LEN <= usize_max) by (unfold MAX_ASSIGNMENT_VALUE_LEN; lia).
  destruct fits.
  - destruct chunks as [|ch chunks]; [done|]. rewrite app_nil_l, unfold_on_line by (done || lia). cbn [mbind result_bind].
    rewrite decode_words_on_line; [done|done|done| |done]. cbn [concat] in *. lia.
  - rewrite unfold_after_fold by done. cbn [mbind result_bind]. rewrite decode_words_after_fold by (done || lia). done.
Qed.

(** Pieces of a printable text that are texts themselves are printable. *)
Lemma printable_concat chunks : Forall chunk_ok chunks -> printable (concat chunks) -> Forall printable chunks.
Proof.
  induction 1 as [|ch chunks (_ & _ & [ca Hca]) _ IH]; [done|]. cbn [concat]. intros (cs & Hcs & Hf).
  rewrite (utf8_chars_app _ _ _ Hca) in Hcs. apply fmap_Some in Hcs as (cb & Hcb & ->). apply Forall_app in Hf as [Ha Hb].
  constructor; [by exists ca|]. apply IH. by exists cb.
Qed.
End roundtrip.

(** C38: Extracting a field that [set] generates gives back the value, where the whole
    field is within the 64 KiB that extraction reads; this is a condition of its own,
    for a value within that bound may be generated as a longer field.  For a name
    without a colon and a value that is text: on one line of printable ASCII, [unfolded] extraction
    returns the value less its leading blanks; a value encoded in words is what
    [decoded] extraction returns, after one space when the first word did not fit on
    the line of the name. *)
Theorem generated_field_roundtrip {T : Target} name value le cs field :
  utf8_chars value = Some cs -> no_lf name -> Forall (fun b => (b =? c_COLON) = false) name -> is_line_ending le ->
  len name + len value + len le + 45 <= usize_max ->
  serialize_generated_header name value le = Ok field -> len field <= MAX_ASSIGNMENT_VALUE_LEN ->
  if forallb plain cs then extract_value (field_from_bytes field) EM_Unfolded = Ok (trim_blanks value)
  else extract_value (field_from_bytes field) EM_Decoded =
       Ok ((if starts_blank (drop (S (length name)) field) then [] else [c_SP]) ++ value).
Proof.
  intros Hcs Hlf Hcol Hle Hu Hser Hlen.
  pose proof (serialize_generated_facts name value le cs Hcs Hu) as Hs. rewrite Hser in Hs.
  destruct Hs as [Hf [(Hpl & _ & ->)|(Hpl & chunks & Hcat & Hok & _ & ->)]].
  - rewrite Hpl. rewrite forallb_forall in Hpl. assert (value = cs) as <-.
    { apply utf8_chars_ascii; [done|]. apply Forall_forall. intros c Hc%list_elem_of_In%Hpl.
      unfold plain, is_ascii_graphic, between in Hc. change c_TAB with 9 in Hc. change c_SP with 32 in Hc. lia. }
    assert (Forall (fun b => b <> c_LF /\ b <> c_CR) (c_SP :: value)) as Hb.
    { constructor; [done|]. apply Forall_forall. intros c Hc%list_elem_of_In%Hpl.
      unfold plain, is_ascii_graphic, between in Hc. change c_TAB with 9 in Hc. change c_SP with 32 in Hc.
      change c_LF with 10. change c_CR with 13. lia. }
    unfold extract_value. change (B ": " ++ value ++ le) with (c_COLON :: (c_SP :: value) ++ le). rewrite field_value_after_name by done.
    cbn [default id]. rewrite unfold_value_single; [|done| | |].
    + unfold trim_blanks. cbn [position]. change (negb (is_blank c_SP)) with false. cbn iota. by destruct (position _ value).
    + eapply Forall_impl; [exact Hb|]. intros b [H _]. by apply Z.eqb_neq.
    + intros k Hk. rewrite Hk in Hb. apply Forall_app in Hb as [_ Hb]. apply Forall_cons in Hb as [[_ Hb] _]. by apply Hb.
    + rewrite !length_app in Hlen. cbn [length] in Hlen |- *. change (length (B ": ")) with 2%nat in Hlen. lia.
  - rewrite Hpl. destruct chunks as [|ch chunks].
    { destruct value; [|done]. by injection Hcs as <-. }
    set (fits := first_fits (append_canonical_header_name name ++ [c_COLON]) ch).
    assert (appended (append_canonical_header_name name ++ [c_COLON]) le true (ch :: chunks) ++ le =
      append_canonical_header_name name ++ c_COLON :: (if fits then [] else le) ++ word_lines le (ch :: chunks)) as Hfield.
    { cbn [appended andb]. fold fits. rewrite <-folded_words_lines, <-!app_assoc. cbn [app]. by rewrite <-!app_assoc. }
    rewrite Hfield in *. unfold extract_value. rewrite field_value_after_name by done. cbn [default id].
    assert (printable (concat (ch :: chunks))) as Hprint by (rewrite Hcat; by eapply not_forbidden_printable).
    rewrite decode_words; [|done|done|by apply printable_concat|done|].
    + rewrite Hcat. do 2 f_equal. rewrite drop_app_ge by (rewrite canonical_length; lia). rewrite canonical_length.
      replace (S (length name) - length name)%nat with 1%nat by lia. cbn [drop].
      rewrite word_lines_cons. destruct fits; [done|]. by destruct Hle as [-> | ->].
    + rewrite length_app in Hlen. cbn [length] in Hlen. lia.
Qed.

Lemma generated_field_roundtrip_witness :
  exists field, serialize_generated_header (T := target64) (B "subject") (B "caf" ++ [195; 169]) [10] = Ok field /\
    extract_value (T := target64) (field_from_bytes field) EM_Decoded = Ok (B "caf" ++ [195; 169]).
Proof.
  eexists. split; [vm_compute; reflexivity|].
  refine (generated_field_roundtrip (T := target64) (B "subject") (B "caf" ++ [195; 169]) [10] [99; 97; 102; 233] _ _ _ _ _ _ _ _).
  - reflexivity.
  - by repeat constructor.
  - by repeat constructor.
  - by left.
  - vm_compute; discriminate.
  - vm_compute; reflexivity.
  - vm_compute; discriminate.
Defined.

(** A longer value starts with a fold, and its decoded extraction with the
    space the fold stands for. *)
Example decoded_extraction_adds_space :
  let value := B "un caf" ++ [195; 169] ++ B " en terrasse, et puis l'addition" in
  (field ← serialize_generated_header (T := target64) (B "Subject") value [10];
   Ok (extract_value (T := target64) (field_from_bytes field) EM_Decoded)) = Ok (Ok (c_SP :: value)).
Proof. vm_compute. reflexivity. Qed.
