(* ===== verification/Message.v ===== *)
(** Bounded ingestion: [src/src/message.rs].  A message is read through a
    buffered reader, first the header section line by line, then the body
    buffer by buffer, and every limit is checked before a byte is retained.
    The reader is modelled by the buffers it fills; what is proved does not
    depend on where they are cut. *)
From S2P Require Import Prelude Config Limits HeaderValue HeaderFields HeaderStore HeaderStoreFacts.
From S2P Require Import HeaderStoreRefine HeaderStoreOps EditedHeader HeaderEdit.

(** * Borrowed pieces *)

(** Source: message.rs `pub struct MessageBytes` *)
Record MessageBytes := { first_part : bytes; second_part : bytes }.

(** Source: message.rs `pub fn parts(self)` *)
Definition message_bytes_parts (m : MessageBytes) : list bytes := [first_part m; second_part m].

(** The comparison of two iterators, the first cut to the suffix's length.
    Source: message.rs `pub fn ends_with` *)
Definition message_bytes_ends_with (m : MessageBytes) (suffix : bytes) : bool :=
  bool_decide (take (length suffix) (reverse (message_bytes_parts m) ≫= (fun part => reverse part)) = reverse suffix).

(** Source: message.rs `pub fn is_empty(self)` *)
Definition message_bytes_is_empty (m : MessageBytes) : bool :=
  forallb (fun part => bool_decide (part = [])) (message_bytes_parts m).

(** * Data *)

(** Source: message.rs `pub struct Message {` *)
Record Message := {
  message_raw : bytes; header_range : Range; body_range : Range; message_matching : option bytes;
}.

(** Source: message.rs `enum HeaderBacking` *)
Inductive HeaderBacking := HB_Input (raw : bytes) | HB_Indexed (header : EditedHeader).

(** Source: message.rs `pub struct MessageHead` *)
Record MessageHead := { backing : HeaderBacking; head_matching : option bytes; head_limits : MessageLimits }.

(** Source: message.rs `pub struct StreamedMessage` *)
Record StreamedMessage := { sm_header : bytes; sm_matching : option bytes; sm_len : nat }.

Definition message_range (m : Message) (r : Range) : bytes := slice (r_start r) (r_end r) (message_raw m).

(** Source: message.rs `pub fn header(&self) -> &[u8]` *)
Definition message_header (m : Message) : bytes := message_range m (header_range m).
(** Source: message.rs `pub fn body(&self)` *)
Definition message_body (m : Message) : bytes := message_range m (body_range m).
(** Source: message.rs `pub fn matching_header(&self) -> &[u8]` *)
Definition message_matching_header (m : Message) : bytes := default (message_header m) (message_matching m).
(** Source: message.rs `pub fn matching_message` *)
Definition matching_message (m : Message) : option bytes :=
  (fun header => header ++ message_body m) <$> message_matching m.

(** * Heads *)

(** Source: message.rs `pub fn as_bytes(&self) -> &[u8]@2` *)
Definition head_as_bytes (h : MessageHead) : bytes :=
  match backing h with HB_Input raw => raw | HB_Indexed header => (as_bytes header).1 end.

(** Source: message.rs `pub(crate) fn header_view` *)
Definition header_view (h : MessageHead) : HeaderView :=
  match backing h with HB_Input raw => Raw raw | HB_Indexed header => Indexed header end.

(** Source: message.rs `pub fn matching_header(&self) -> &[u8]@2` *)
Definition head_matching_header (h : MessageHead) : bytes :=
  match backing h with
  | HB_Input raw => default raw (head_matching h)
  | HB_Indexed header => (matching_header header).1
  end.

(** Source: message.rs `pub fn take_matching_header` *)
Definition take_matching_header (h : MessageHead) : option bytes * MessageHead :=
  match backing h with
  | HB_Input _ => (head_matching h, {| backing := backing h; head_matching := None; head_limits := head_limits h |})
  | HB_Indexed header =>
      let '(m, header) := normalized header in
      (m, {| backing := HB_Indexed header; head_matching := head_matching h; head_limits := head_limits h |})
  end.

(** Source: message.rs `pub fn len(&self) -> usize@2` *)
Definition head_len (h : MessageHead) : nat :=
  match backing h with HB_Input raw => length raw | HB_Indexed header => size (storage header) end.

(** Source: message.rs `pub fn status(&self)` *)
Definition head_status (h : MessageHead) : MessageStatus :=
  match backing h with HB_Input _ => status_NONE | HB_Indexed header => status (storage header) end.

(** Source: message.rs `pub(crate) fn replace_edited_header` *)
Definition replace_edited_header (h : MessageHead) (edited : EditedHeader) : MessageHead :=
  {| backing := HB_Indexed edited; head_matching := None; head_limits := head_limits h |}.

(** Source: message.rs `fn into_serialized_parts` *)
Definition into_serialized_parts (h : MessageHead) : bytes * option bytes * MessageLimits :=
  match backing h with
  | HB_Input raw => (raw, head_matching h, head_limits h)
  | HB_Indexed header =>
      let '(m, header) := normalized header in
      (into_streaming_bytes header, m, head_limits h)
  end.

(** * The reader and the writer *)

Section io.
Context {T : Target} {IoError : Type}.

(** What a [BufRead] does: the bytes it still lends, and the results of the
    reads to come.  A read that gives no byte is the end of the input. *)
Record Reader := { buffer : bytes; incoming : list (result IoError bytes) }.

Definition fill_buf (r : Reader) : result IoError (bytes * Reader) :=
  match buffer r with
  | _ :: _ => Ok (buffer r, r)
  | [] =>
      match incoming r with
      | [] => Ok ([], r)
      | Ok b :: rest => Ok (b, {| buffer := b; incoming := rest |})
      | Err e :: _ => Err e
      end
  end.

Definition consume (r : Reader) (n : nat) : Reader := {| buffer := drop n (buffer r); incoming := incoming r |}.

(** Enough iterations for the loops: each one takes a byte or a buffer. *)
Definition pending (r : Reader) : nat :=
  length (buffer r) + length (incoming r) + list_sum (map (fun b => match b with Ok b => length b | Err _ => O end) (incoming r)).

(** A [Write]: what it has taken, and whether it takes more. *)
Record Writer := { written : bytes; takes : bytes -> bytes -> result IoError unit }.
Definition write_all (w : Writer) (part : bytes) : result IoError Writer :=
  _ ← takes w (written w) part; Ok {| written := written w ++ part; takes := takes w |}.
Definition sink : Writer := {| written := []; takes := fun _ _ => Ok () |}.

(** Source: message.rs `pub enum MessageReadError` *)
Inductive MessageReadError := Io (e : IoError) | LimitExceeded (kind : MessageLimitKind) (limit : Z).

(** * Ingestion *)

(** Source: message.rs `fn check_size` *)
Definition check_size (size limit : Z) (kind : MessageLimitKind) : result MessageReadError unit :=
  if limit <? size then Err (LimitExceeded kind limit) else Ok ().

(** The addition of two [usize] values without a check. *)
Definition usize_add (a b : nat) : Z := (Z.of_nat a + Z.of_nat b) mod (usize_max + 1).

(** The loop of [read_header_line] with the line so far.
    Source: message.rs `fn read_header_line` *)
Fixpoint read_header_line_loop (fuel : nat) (r : Reader) (limits : MessageLimits) (headers_read : nat) (line : bytes)
    : result MessageReadError (option bytes * Reader) :=
  match fuel with
  | O => Ok (None, r)
  | S fuel' =>
      '(available, r) ← map_err Io (fill_buf r);
      match available with
      | [] => Ok (if bool_decide (line = []) then None else Some line, r)
      | _ :: _ =>
          let take_ := match position (fun b => b =? c_LF) available with Some index => S index | None => length available end in
          new_line_size ← ok_or (LimitExceeded ML_HeaderLine (header_line_size limits)) (checked_add (length line) take_);
          _ ← check_size (Z.of_nat new_line_size) (header_line_size limits) ML_HeaderLine;
          _ ← check_size (usize_add headers_read new_line_size) (headers_size limits) ML_Headers;
          _ ← check_size (usize_add headers_read new_line_size) (message_size limits) ML_Message;
          let line := line ++ take take_ available in
          let r := consume r take_ in
          if bool_decide (last line = Some c_LF) then Ok (Some line, r)
          else read_header_line_loop fuel' r limits headers_read line
      end
  end.

Definition read_header_line (r : Reader) (limits : MessageLimits) (headers_read : nat) : result MessageReadError (option bytes * Reader) :=
  read_header_line_loop (S (pending r)) r limits headers_read [].

(** The loop of [read_headers] with its two variables.
    Source: message.rs `pub fn read_headers` *)
Fixpoint read_headers_loop (fuel : nat) (r : Reader) (limits : MessageLimits) (raw : bytes) (field_size : nat)
    : result MessageReadError (bytes * Reader) :=
  match fuel with
  | O => Ok (raw, r)
  | S fuel' =>
      '(line, r) ← read_header_line r limits (length raw);
      match line with
      | None => Ok (raw, r)
      | Some line =>
          let is_separator := is_blank_line line in
          field_size ←
            (if negb is_separator then
               field_size ← (if starts_blank line
                             then ok_or (LimitExceeded ML_HeaderField (header_field_size limits)) (checked_add field_size (length line))
                             else Ok (length line));
               _ ← check_size (Z.of_nat field_size) (header_field_size limits) ML_HeaderField;
               Ok field_size
             else Ok field_size);
          let raw := raw ++ line in
          if is_separator then Ok (raw, r) else read_headers_loop fuel' r limits raw field_size
      end
  end.

(** Source: message.rs:196-234 `pub fn read_headers (the head it returns)` *)
Definition read_headers (r : Reader) (limits : MessageLimits) : result MessageReadError (MessageHead * Reader) :=
  '(raw, r) ← read_headers_loop (S (pending r)) r limits [] 0;
  Ok ({| backing := HB_Input raw; head_matching := normalize_folded_header raw; head_limits := limits |}, r).

(** The loop of [read_body]; [stream] is the total and what was written.
    Source: message.rs `fn read_body(` *)
Fixpoint read_body_loop (fuel : nat) (r : Reader) (limits : MessageLimits) (raw : bytes) (retain : bool)
    (stream : option (nat * Writer)) (body_size_ : nat) : result MessageReadError (bytes * option (nat * Writer) * Reader) :=
  match fuel with
  | O => Ok (raw, stream, r)
  | S fuel' =>
      '(available, r) ← map_err Io (fill_buf r);
      match available with
      | [] => Ok (raw, stream, r)
      | _ :: _ =>
          let total_size := match stream with Some (total, _) => total | None => length raw end in
          next_body_size ← ok_or (LimitExceeded ML_Body (body_size limits)) (checked_add body_size_ (length available));
          next_total_size ← ok_or (LimitExceeded ML_Message (message_size limits)) (checked_add total_size (length available));
          _ ← check_size (Z.of_nat next_body_size) (body_size limits) ML_Body;
          _ ← check_size (Z.of_nat next_total_size) (message_size limits) ML_Message;
          let raw := if retain then raw ++ available else raw in
          stream ← match stream with
                   | Some (_, writer) => writer ← map_err Io (write_all writer available); Ok (Some (next_total_size, writer))
                   | None => Ok None
                   end;
          read_body_loop fuel' (consume r (length available)) limits raw retain stream next_body_size
      end
  end.

Definition read_body_all (r : Reader) := read_body_loop (S (pending r)) r.

Definition whole_message (raw : bytes) (body_start : nat) (matching : option bytes) : Message :=
  {| message_raw := raw; header_range := {| r_start := 0; r_end := body_start |};
     body_range := {| r_start := body_start; r_end := length raw |}; message_matching := matching |}.

(** Source: message.rs `pub fn read_body(self` *)
Definition read_body (h : MessageHead) (r : Reader) : result MessageReadError (Message * Reader) :=
  let '(raw, matching, limits) := into_serialized_parts h in
  '(out, _, r) ← read_body_all r limits raw true None 0;
  Ok (whole_message out (length raw) matching, r).

(** Source: message.rs `pub fn read_body_to` *)
Definition read_body_to (h : MessageHead) (r : Reader) (writer : Writer) : result MessageReadError (Message * Writer * Reader) :=
  let '(raw, matching, limits) := into_serialized_parts h in
  writer ← map_err Io (write_all writer raw);
  '(out, stream, r) ← read_body_all r limits raw true (Some (length raw, writer)) 0;
  Ok (whole_message out (length raw) matching, match stream with Some (_, writer) => writer | None => writer end, r).

(** Source: message.rs `pub fn stream_to` *)
Definition stream_to (h : MessageHead) (r : Reader) (writer : Writer) : result MessageReadError (StreamedMessage * Writer * Reader) :=
  let '(raw, matching, limits) := into_serialized_parts h in
  writer ← map_err Io (write_all writer raw);
  '(_, stream, r) ← read_body_all r limits [] false (Some (length raw, writer)) 0;
  let '(total, writer) := match stream with Some s => s | None => (length raw, writer) end in
  Ok ({| sm_header := raw; sm_matching := matching; sm_len := total |}, writer, r).

(** Source: message.rs `pub fn read_from` *)
Definition read_from (r : Reader) (limits : MessageLimits) : result MessageReadError (Message * Reader) :=
  '(h, r) ← read_headers r limits; read_body h r.

(** A [Cursor] lends all it has left. *)
Definition cursor (l : bytes) : Reader := {| buffer := l; incoming := [] |}.

(** A [BufReader] reads pieces of at most its capacity, and a [Chain] reads
    its first part to the end before its second. *)
Definition BUF_SIZE : nat := Z.to_nat 8192.
Fixpoint pieces (fuel : nat) (l : bytes) : list bytes :=
  match fuel, l with
  | S fuel', _ :: _ => take BUF_SIZE l :: pieces fuel' (drop BUF_SIZE l)
  | _, _ => []
  end.
Definition buf_reader (parts : list bytes) : Reader :=
  {| buffer := []; incoming := Ok <$> (parts ≫= (fun part => pieces (length part) part)) |}.

(** [lost_separator] is the error [other] makes.
    Source: message.rs `pub fn from_filter_output` *)
Definition from_filter_output (lost_separator : IoError) (header body : bytes) (output : Message) (area : ActionInput)
    (limits : MessageLimits) : result MessageReadError Message :=
  match area with
  | AI_Message =>
      '(h, r) ← read_headers (cursor (message_raw output)) limits;
      _ ← stream_to h r sink;
      Ok output
  | AI_Body =>
      match message_raw output with
      | [] => Err (Io lost_separator)
      | _ :: output => fst <$> read_from (buf_reader [header; output]) limits
      end
  | AI_Headers => fst <$> read_from (buf_reader [message_raw output; body]) limits
  end.

(** Source: message.rs `pub(crate) fn from_edited_header` *)
Definition from_edited_header (edited : EditedHeader) (body_len : nat) (limits : MessageLimits) : result HeaderEditError MessageHead :=
  _ ← validate edited body_len limits;
  Ok {| backing := HB_Indexed edited; head_matching := None; head_limits := limits |}.
End io.
Arguments Reader : clear implicits.
Arguments Writer : clear implicits.
Arguments MessageReadError : clear implicits.

(** * What a reader accepts *)

(** The header section of a message: its lines up to and including the first
    empty one. *)
Definition header_of (l : bytes) : bytes := concat (header_lines (length l) l).
Definition body_of (l : bytes) : bytes := drop (length (header_of l)) l.

(** The whole input is within every limit.  [fits] is what the editing of a
    header is held to as well. *)
Definition accepted {T : Target} (limits : MessageLimits) (l : bytes) : Prop :=
  fits limits (length (body_of l)) (header_of l) /\ len (body_of l) <= body_size limits.

(** The limits of a reader are machine words, and the one addition it does
    not check cannot wrap. *)
Definition reader_limits {T : Target} (l : MessageLimits) : Prop :=
  usize_limits l /\ 0 <= message_size l /\ 0 <= header_line_size l /\ 0 <= body_size l <= usize_max /\ headers_size l + header_line_size l <= usize_max.

Lemma header_lines_cons fuel l : l <> [] ->
  header_lines (S fuel) l = (take_line l).1 :: if is_blank_line (take_line l).1 then [] else header_lines fuel (take_line l).2.
Proof. destruct l as [|b l]; [done|]. intros _. cbn [header_lines]. destruct (take_line (b :: l)) as [line rest]. cbn. by destruct (is_blank_line line). Qed.

Lemma header_lines_nil fuel : header_lines fuel [] = [].
Proof. by destruct fuel. Qed.

(** A line of a non-empty input, and the cut after it. *)
Lemma take_line_cut l : l <> [] ->
  l = (take_line l).1 ++ (take_line l).2 /\ (take_line l).1 <> [] /\
  forall k, k = [] \/ (take_line l).2 <> [] -> take_line ((take_line l).1 ++ k) = ((take_line l).1, k).
Proof.
  intros Hne. destruct (lf_split l) as [H|(pre & rest & H & ->)].
  - rewrite take_line_last by done. cbn [fst snd]. rewrite app_nil_r. split_and!; [done|done|].
    intros k [->|?]; [|done]. by rewrite app_nil_r, take_line_last.
  - rewrite take_line_line by done. cbn [fst snd]. split_and!; [done|by destruct pre|]. intros k _. by rewrite take_line_line.
Qed.

Lemma header_lines_fuel fuel l : (length l <= fuel)%nat -> header_lines fuel l = header_lines (length l) l.
Proof.
  revert fuel. induction l as [l IH] using (induction_ltof1 _ (@length Z)). unfold ltof in IH. intros fuel Hf.
  destruct l as [|b l0] eqn:Hl; [by rewrite !header_lines_nil|]. rewrite <-Hl in *.
  assert (l <> []) as Hne by (by subst). destruct (take_line_cut l Hne) as (Hcut & Hln & _).
  apply (f_equal length) in Hcut. rewrite length_app in Hcut. destruct (take_line l) as [line rest] eqn:Htl. cbn [fst snd] in *.
  assert (0 < length line)%nat by (destruct line; [done|simpl; lia]).
  destruct fuel as [|fuel]; [lia|]. destruct (length l) as [|n] eqn:Hn; [lia|].
  rewrite !header_lines_cons, Htl by done. cbn [fst snd]. destruct (is_blank_line line); [done|].
  f_equal. rewrite (IH rest) by lia. symmetry. apply IH; lia.
Qed.

Lemma header_lines_prefix fuel l : concat (header_lines fuel l) ++ drop (length (concat (header_lines fuel l))) l = l.
Proof.
  revert l. induction fuel as [|fuel IH]; intros l; [done|]. destruct l as [|b l0] eqn:Hl; [done|]. rewrite <-Hl in *.
  assert (l <> []) as Hne by (by subst). destruct (take_line_cut l Hne) as (Hcut & _ & _).
  rewrite header_lines_cons by done. destruct (take_line l) as [line rest]. cbn [fst snd concat] in *. rewrite Hcut.
  destruct (is_blank_line line); cbn [concat]; [by rewrite app_nil_r, drop_app_length|].
  rewrite length_app, drop_app_add, <-app_assoc. f_equal. apply IH.
Qed.

(** The lines of a header section are its own. *)
Lemma header_lines_concat fuel m l :
  (length (concat (header_lines fuel l)) <= m)%nat -> header_lines m (concat (header_lines fuel l)) = header_lines fuel l.
Proof.
  revert m l. induction fuel as [|fuel IH]; intros m l Hm; [apply header_lines_nil|].
  destruct l as [|b l0] eqn:Hl; [apply header_lines_nil|]. rewrite <-Hl in *.
  assert (l <> []) as Hne by (by subst). destruct (take_line_cut l Hne) as (Hcut & Hln & Htk).
  rewrite header_lines_cons in * by done. destruct (take_line l) as [line rest]. cbn [fst snd concat] in *.
  set (more := if is_blank_line line then [] else header_lines fuel rest) in *. rewrite length_app in Hm.
  assert (take_line (line ++ concat more) = (line, concat more)) as Htl.
  { apply Htk. unfold more. destruct rest; [|by right]. left. rewrite header_lines_nil. by destruct (is_blank_line line). }
  destruct m as [|m]; [destruct line; [done|simpl in Hm; lia]|].
  rewrite header_lines_cons, Htl by (by destruct line). cbn [fst snd].
  f_equal. unfold more in *. destruct (is_blank_line line); [done|].
  apply IH. enough (0 < length line)%nat by lia. destruct line; [done|simpl; lia].
Qed.

Lemma header_body l : header_of l ++ body_of l = l.
Proof. apply header_lines_prefix. Qed.

Section reading.
Context {T : Target} {IoError : Type}.
Implicit Types (r : Reader IoError).

(** A reader whose reads succeed and lend, in all, [l]. *)
Definition contents r (l : bytes) : Prop :=
  exists chunks, incoming r = Ok <$> chunks /\ Forall (fun c => c <> []) chunks /\ l = buffer r ++ concat chunks.

Lemma pending_contents r l : contents r l -> (length l <= pending r)%nat.
Proof.
  intros (chunks & Hi & _ & ->). unfold pending. rewrite Hi, length_app. 
  assert (length (concat chunks) <= list_sum (map (fun b : result IoError bytes => match b with Ok b => length b | Err _ => O end) (Ok <$> chunks)))%nat; [|lia].
  clear. induction chunks as [|c chunks IH]; [done|]. rewrite fmap_cons. cbn [concat map]. rewrite length_app.
  change (list_sum (?x :: ?y)) with (x + list_sum y)%nat. lia.
Qed.

(** The weight that bounds the iterations on one line. *)
Definition buffers r : nat := length (incoming r) + (match buffer r with [] => 0 | _ => 1 end).

Lemma buffers_pending r : (buffers r <= pending r)%nat.
Proof. unfold buffers, pending. destruct (buffer r); simpl; lia. Qed.

Lemma fill_buf_spec r l :
  contents r l -> exists available r', fill_buf r = Ok (available, r') /\ buffer r' = available /\ contents r' l /\
    (available = [] <-> l = []) /\ (buffers r' <= buffers r)%nat.
Proof.
  intros (chunks & Hi & Hc & ->). unfold fill_buf. destruct (buffer r) as [|b bs] eqn:Hb.
  - rewrite Hi. destruct chunks as [|c chunks].
    + exists [], r. split_and!; try done. exists []. by rewrite Hb.
    + apply Forall_cons in Hc as [Hne Hc]. cbn. exists c, {| buffer := c; incoming := Ok <$> chunks |}. split_and!; try done.
      * by exists chunks.
      * split; [done|]. by intros [? _]%app_eq_nil.
      * unfold buffers. rewrite Hb, Hi, fmap_cons. cbn [incoming buffer length]. destruct c; [done|lia].
  - exists (b :: bs), r. split_and!; try done. exists chunks. by rewrite Hb.
Qed.

Lemma consume_contents r n k : contents r (take n (buffer r) ++ k) -> (n <= length (buffer r))%nat -> contents (consume r n) k.
Proof.
  intros (chunks & Hi & Hc & Hk) Hn. exists chunks. split_and!; try done. cbn [consume buffer].
  apply (app_inv_head (take n (buffer r))). by rewrite app_assoc, take_drop.
Qed.

Definition line_fits (limits : MessageLimits) (headers_read : nat) (line : bytes) : Prop :=
  len line <= header_line_size limits /\ Z.of_nat headers_read + len line <= headers_size limits /\
  Z.of_nat headers_read + len line <= message_size limits.

Lemma check_size_Ok size limit kind : check_size (IoError := IoError) size limit kind = Ok () <-> size <= limit.
Proof. unfold check_size. destruct (Z.ltb_spec limit size); split; (done || lia). Qed.

(** The checks of one step of [read_header_line]: they pass exactly when the
    line so far is within the limits, and report a limit otherwise. *)
Lemma line_checks {A} limits n line more k (m K : result (MessageReadError IoError) A) :
  reader_limits limits -> Z.of_nat n <= headers_size limits -> length more = k ->
  m = (new_line_size ← ok_or (LimitExceeded ML_HeaderLine (header_line_size limits)) (checked_add (length line) k);
    _ ← check_size (Z.of_nat new_line_size) (header_line_size limits) ML_HeaderLine;
    _ ← check_size (usize_add n new_line_size) (headers_size limits) ML_Headers;
    _ ← check_size (usize_add n new_line_size) (message_size limits) ML_Message; K) ->
  line_fits limits n (line ++ more) /\ m = K \/
  ~ line_fits limits n (line ++ more) /\ exists k z, m = Err (LimitExceeded k z).
Proof.
  intros (Hu & _ & _ & _ & Hw) Hn <- ->. destruct Hu as (Hu1 & Hu2 & Hu3 & _). unfold line_fits. rewrite length_app.
  destruct (checked_add (length line) (length more)) as [s|] eqn:Hs; cbn [ok_or mbind result_bind].
  2: { apply checked_add_None in Hs. right. split; [lia|eauto]. }
  apply checked_add_Some in Hs as [-> _]. unfold check_size.
  destruct (Z.ltb_spec (header_line_size limits) (Z.of_nat (length line + length more))); cbn [mbind result_bind]; [right; split; [lia|eauto]|].
  unfold usize_add. rewrite Z.mod_small by lia.
  destruct (Z.ltb_spec (headers_size limits) (Z.of_nat n + Z.of_nat (length line + length more))); cbn [mbind result_bind]; [right; split; [lia|eauto]|].
  destruct (Z.ltb_spec (message_size limits) (Z.of_nat n + Z.of_nat (length line + length more))); cbn [mbind result_bind]; [right; split; [lia|eauto]|].
  left. split; [lia|done].
Qed.

Lemma line_fits_prefix limits n a b : line_fits limits n (a ++ b) -> line_fits limits n a.
Proof. unfold line_fits. rewrite length_app. lia. Qed.

Lemma take_line_no_lf a b : no_lf a -> take_line (a ++ b) = (a ++ (take_line b).1, (take_line b).2).
Proof.
  intros Ha. destruct (lf_split b) as [Hb|(pre & rest & Hb & ->)].
  - rewrite !take_line_last by (done || by apply Forall_app). done.
  - rewrite take_line_line by done. rewrite !app_assoc, take_line_line by (by apply Forall_app).
    cbn [fst snd]. by rewrite app_assoc.
Qed.

Lemma last_no_lf l : no_lf l -> last l <> Some c_LF.
Proof. intros Hl (k & ->)%last_Some. apply Forall_app in Hl as [_ Hl]. by apply Forall_cons in Hl as [? _]. Qed.

(** The bytes up to a newline or the end of the buffer, and the line that
    starts there. *)
Lemma taken_line available l :
  let k := match position (fun b => b =? c_LF) available with Some index => S index | None => length available end in
  (exists pre, take k available = pre ++ [c_LF] /\ no_lf pre /\ take_line (available ++ l) = (pre ++ [c_LF], drop k available ++ l)) \/
  (take k available = available /\ no_lf available /\
   take_line (available ++ l) = (available ++ (take_line l).1, (take_line l).2)).
Proof.
  intros k. unfold k. destruct (position _ available) as [i|] eqn:Hp.
  - left. apply position_Some in Hp as (pre & x & post & -> & <- & Hpre & ->%Z.eqb_eq). exists pre.
    rewrite (snoc_app pre c_LF post), <-(length_snoc pre c_LF), take_app_length, drop_app_length, <-app_assoc, take_line_line by done. done.
  - right. apply position_None in Hp. rewrite take_ge by done. split_and!; [done|done|]. by apply take_line_no_lf.
Qed.

(** Decide the checks of a step on [more], the bytes of the buffer to take. *)
Ltac line_check limits n line more k :=
  match goal with |- match ?m with Ok _ => _ | Err _ => _ end =>
    edestruct (line_checks limits n line more k m) as [[Hfit Hm]|[Hno' (kind & z & Hm)]];
      [eassumption|assumption|congruence|reflexivity| |]; rewrite Hm; clear Hm; [|try exact Hno']
  end.

Lemma read_header_line_loop_spec fuel r l limits n line :
  contents r l -> no_lf line -> (buffers r < fuel)%nat -> reader_limits limits -> Z.of_nat n <= headers_size limits ->
  (line = [] \/ line_fits limits n line) ->
  match read_header_line_loop fuel r limits n line with
  | Ok (None, r') => l = [] /\ line = [] /\ contents r' []
  | Ok (Some line', r') => line' = line ++ (take_line l).1 /\ line' <> [] /\ contents r' (take_line l).2 /\ line_fits limits n line'
  | Err (LimitExceeded _ _) => ~ line_fits limits n (line ++ (take_line l).1)
  | Err (Io _) => False
  end.
Proof.
  intros Hc Hlf Hfuel Hlim Hn. revert r l line Hc Hlf Hfuel. induction fuel as [|fuel IH]; intros r l line Hc Hlf Hfuel Hline; [lia|].
  cbn [read_header_line_loop]. destruct (fill_buf_spec r l Hc) as (available & r' & -> & Hbuf & Hc' & Hnil & Hle). cbn [map_err mbind result_bind].
  destruct available as [|b bs] eqn:Hav.
  { assert (l = []) as -> by (by apply Hnil). change (take_line []) with (@nil byte, @nil byte). cbn [fst snd].
    destruct line as [|x line]; [done|]. rewrite app_nil_r. destruct Hline as [?|?]; done. }
  rewrite <-Hav in *. clear Hnil.
  set (k := match position _ available with Some index => S index | None => length available end).
  assert (k <= length available)%nat as Hk.
  { unfold k. destruct (position _ available) as [i|] eqn:Hp; [|lia]. by apply position_lt in Hp. }
  assert (length (take k available) = k) as Hlen by (rewrite length_take; lia). 
  assert (exists l2, l = available ++ l2) as [l2 ->].
  { destruct Hc' as (chunks & _ & _ & ->). rewrite Hbuf. by eexists. }
  assert (contents (consume r' k) (drop k available ++ l2)) as Hc2.
  { apply consume_contents; rewrite Hbuf; [|done]. by rewrite app_assoc, take_drop. }
  destruct (taken_line available l2) as [(pre & Htake & Hpre & Htl)|(Htake & Hno & Htl)]; fold k in Htake, Htl; rewrite Htl; cbn [fst snd].
  - clear IH Htl. rewrite Htake in *. line_check limits n line (pre ++ [c_LF]) k.
    rewrite app_assoc, last_snoc, bool_decide_true, <-app_assoc by done. split_and!; [done| |done|done]. by destruct line, pre.
  - line_check limits n line available k.
    2: { intros H'. apply Hno'. rewrite app_assoc in H'. by eapply line_fits_prefix. }
    rewrite Htake, bool_decide_false by (apply last_no_lf; by apply Forall_app).
    assert (k = length available) as Hkl by (rewrite Htake in Hlen; lia).
    rewrite drop_ge, app_nil_l in Hc2 by lia.
    specialize (IH (consume r' k) l2 (line ++ available) Hc2). rewrite <-app_assoc in IH.
    assert (buffers (consume r' k) < fuel)%nat as Hb.
    { enough (buffers (consume r' k) < buffers r')%nat by lia. unfold buffers, consume. cbn [buffer incoming].
      rewrite Hbuf, Hkl, drop_all, Hav. lia. }
    specialize (IH ltac:(by apply Forall_app) Hb (or_intror Hfit)).
    destruct (read_header_line_loop fuel _ _ _ _) as [[[x|] r2]|[e|kind z]]; try done.
    destruct IH as (_ & [_ ->]%app_eq_nil & _). done.
Qed.

Lemma read_header_line_spec r l limits n :
  contents r l -> reader_limits limits -> Z.of_nat n <= headers_size limits ->
  match read_header_line r limits n with
  | Ok (None, r') => l = [] /\ contents r' []
  | Ok (Some line, r') => line = (take_line l).1 /\ line <> [] /\ contents r' (take_line l).2 /\ line_fits limits n line
  | Err (LimitExceeded _ _) => ~ line_fits limits n (take_line l).1
  | Err (Io _) => False
  end.
Proof.
  intros Hc Hl Hn. unfold read_header_line.
  pose proof (read_header_line_loop_spec (S (pending r)) r l limits n [] Hc) as H.
  specialize (H (Forall_nil_2 _) ltac:(pose proof (buffers_pending r); lia) Hl Hn (or_introl eq_refl)).
  destruct (read_header_line_loop _ _ _ _ _) as [[[x|] r2]|[e|kind z]]; try done. naive_solver.
Qed.

(** The header section still to be read, after [raw] and the fields in
    [groups], keeps every limit. *)
Definition rest_fits (limits : MessageLimits) (raw : bytes) (groups lines : list bytes) : Prop :=
  Forall (fun line => len line <= header_line_size limits) lines /\
  Forall (fun text => len text <= header_field_size limits)
    (foldl add_line groups (filter (fun line => is_blank_line line = false) lines)) /\
  len (raw ++ concat lines) <= headers_size limits /\ len (raw ++ concat lines) <= message_size limits.

(** The check of one line's field. *)
Lemma field_check limits groups line (K : nat -> result (MessageReadError IoError) (bytes * Reader IoError)) m :
  header_field_size limits <= usize_max -> Forall (fun text => len text <= header_field_size limits) groups ->
  m = (field_size ← (field_size ← (if starts_blank line
                       then ok_or (LimitExceeded ML_HeaderField (header_field_size limits)) (checked_add (last_size groups) (length line))
                       else Ok (length line));
                     _ ← check_size (Z.of_nat field_size) (header_field_size limits) ML_HeaderField;
                     Ok field_size); K field_size) ->
  Forall (fun text => len text <= header_field_size limits) (add_line groups line) /\ m = K (last_size (add_line groups line)) \/
  ~ Forall (fun text => len text <= header_field_size limits) (add_line groups line) /\ exists k z, m = Err (LimitExceeded k z).
Proof.
  intros Hu Hg ->. destruct (add_line_spec limits groups line) as [Hsz Hiff]. rewrite (Hiff Hg), Hsz. unfold line_texts.
  assert (is_continuation (head line) = starts_blank line) as -> by by destruct line.
  assert (forall n, (_ ← check_size (IoError := IoError) (Z.of_nat n) (header_field_size limits) ML_HeaderField; Ok n) =
    if header_field_size limits <? Z.of_nat n then Err (LimitExceeded ML_HeaderField (header_field_size limits)) else Ok n) as Hcheck.
  { intros n. unfold check_size. by destruct (_ <? _). }
  destruct (starts_blank line).
  - destruct (checked_add (last_size groups) (length line)) as [n|] eqn:Hn; cbn [ok_or mbind result_bind].
    + apply checked_add_Some in Hn as [-> _]. rewrite Hcheck.
      destruct (Z.ltb_spec (header_field_size limits) (Z.of_nat (last_size groups + length line))); [right; split; [lia|eauto]|by left].
    + apply checked_add_None in Hn. right. split; [lia|eauto].
  - cbn [mbind result_bind]. rewrite Hcheck.
    destruct (Z.ltb_spec (header_field_size limits) (len line)); [right; split; [lia|eauto]|by left].
Qed.

Lemma rest_fits_line limits raw groups line lines : rest_fits limits raw groups (line :: lines) -> line_fits limits (length raw) line.
Proof.
  intros (H1 & _ & H3 & H4). apply Forall_cons in H1 as [H1 _]. cbn [concat] in *. rewrite !length_app in *. unfold line_fits. lia.
Qed.

Lemma read_headers_loop_spec fuel r l limits raw groups :
  contents r l -> (length l < fuel)%nat -> reader_limits limits ->
  Forall (fun text => len text <= header_field_size limits) groups ->
  len raw <= headers_size limits -> len raw <= message_size limits ->
  match read_headers_loop fuel r limits raw (last_size groups) with
  | Ok (raw', r') =>
      raw' = raw ++ concat (header_lines fuel l) /\ contents r' (drop (length (concat (header_lines fuel l))) l) /\
      rest_fits limits raw groups (header_lines fuel l)
  | Err (LimitExceeded _ _) => ~ rest_fits limits raw groups (header_lines fuel l)
  | Err (Io _) => False
  end.
Proof.
  intros Hc Hf Hlim. revert r l raw groups Hc Hf. induction fuel as [|fuel IH]; intros r l raw groups Hc Hf Hg Hh Hm; [lia|].
  cbn [read_headers_loop]. pose proof (read_header_line_spec r l limits (length raw) Hc Hlim Hh) as Hline.
  destruct (read_header_line r limits (length raw)) as [[[line|] r']|[e|k z]]; cbn [mbind result_bind]; [| |done|].
  2: { destruct Hline as [-> Hc']. cbn. rewrite app_nil_r. split_and!; [done|done|]. split_and!; [done|done| |]; by rewrite app_nil_r. }
  2: { destruct l as [|b l]; [|rewrite header_lines_cons by done; by intros ?%rest_fits_line].
       destruct Hline. change (take_line []) with (@nil byte, @nil byte). destruct Hlim as (_ & ? & ? & _). unfold line_fits. cbn. lia. }
  destruct Hline as (Hl & Hne & Hc' & Hfit).
  assert (l <> []) as Hlne by (by intros ->).
  assert (l = line ++ (take_line l).2) as Hsplit.
  { destruct (take_line l) as [x y] eqn:Htl. apply take_line_app in Htl. by subst. }
  assert (length line + length (take_line l).2 = length l)%nat as Hlen by (rewrite <-length_app; by f_equal).
  assert (0 < length line)%nat by (destruct line; [done|simpl; lia]).
  assert (forall k, drop (length line + k) l = drop k (take_line l).2) as Hdrop.
  { intros k. rewrite Hsplit at 1. by rewrite drop_app_add. }
  rewrite header_lines_cons by done. rewrite <-Hl.
  destruct Hfit as (Hf1 & Hf2 & Hf3).
  destruct (is_blank_line line) eqn:Hb; cbn [negb mbind result_bind].
  { split_and!.
    - cbn [concat]. by rewrite app_nil_r.
    - cbn [concat]. rewrite app_nil_r, <-(Nat.add_0_r (length line)), Hdrop. by rewrite drop_0.
    - split_and!; [by repeat constructor| | |]; cbn [concat]; rewrite ?app_nil_r, ?length_app; try lia.
      rewrite filter_cons_False, filter_nil by congruence. done. }
  destruct Hlim as (Hu & Hlim').
  match goal with |- match ?m with Ok _ => _ | Err _ => _ end =>
    edestruct (field_check limits groups line _ m ltac:(apply Hu) Hg eq_refl) as [[Hadd Hm']|[Hno (kind & z & Hm')]] end; rewrite Hm'; clear Hm'.
  2: { intros (_ & H2 & _). apply Hno. rewrite filter_cons_True in H2 by done. cbn [foldl] in H2. by eapply foldl_add_line_mono. }
  specialize (IH r' (take_line l).2 (raw ++ line) (add_line groups line) Hc' ltac:(lia) Hadd).
  rewrite length_app in IH. specialize (IH ltac:(lia) ltac:(lia)).
  assert (rest_fits limits (raw ++ line) (add_line groups line) (header_lines fuel (take_line l).2) <->
    rest_fits limits raw groups (line :: header_lines fuel (take_line l).2)) as Hiff.
  { unfold rest_fits. rewrite filter_cons_True, Forall_cons by done. cbn [foldl concat]. rewrite <-app_assoc. naive_solver. }
  destruct (read_headers_loop fuel _ _ _ _) as [[raw' r2]|[e|k z]]; [|done|by rewrite <-Hiff].
  rewrite <-Hiff. cbn [concat]. rewrite length_app, Hdrop, app_assoc. done.
Qed.

(** A writer that takes whatever it is given. *)
Definition willing (w : Writer IoError) : Prop := forall a b, takes w a b = Ok ().
Definition wrote (w : Writer IoError) (l : bytes) : Writer IoError := {| written := written w ++ l; takes := takes w |}.

Lemma write_all_willing w l : willing w -> write_all w l = Ok (wrote w l).
Proof. intros H. unfold write_all. by rewrite H. Qed.

Definition total_of (raw : bytes) (stream : option (nat * Writer IoError)) : nat :=
  match stream with Some (total, _) => total | None => length raw end.

Lemma read_body_loop_spec fuel r l limits raw (retain : bool) stream bs :
  contents r l -> (buffers r < fuel)%nat -> body_size limits <= usize_max -> message_size limits <= usize_max ->
  (stream = None -> retain = true) -> (forall n w, stream = Some (n, w) -> willing w) ->
  Z.of_nat bs <= body_size limits -> Z.of_nat (total_of raw stream) <= message_size limits ->
  match read_body_loop fuel r limits raw retain stream bs with
  | Ok (raw', stream', r') =>
      raw' = (if retain then raw ++ l else raw) /\ stream' = (fun '(n, w) => (n + length l, wrote w l)%nat) <$> stream /\
      contents r' [] /\ Z.of_nat bs + len l <= body_size limits /\ Z.of_nat (total_of raw stream) + len l <= message_size limits
  | Err (LimitExceeded _ _) => ~ (Z.of_nat bs + len l <= body_size limits /\ Z.of_nat (total_of raw stream) + len l <= message_size limits)
  | Err (Io _) => False
  end.
Proof.
  intros Hc Hf Hu1 Hu2. revert r l raw stream bs Hc Hf. induction fuel as [|fuel IH]; intros r l raw stream bs Hc Hf Hret Hw Hb Hm; [lia|].
  cbn [read_body_loop]. destruct (fill_buf_spec r l Hc) as (available & r' & -> & Hbuf & Hc' & Hnil & Hle). cbn [map_err mbind result_bind].
  destruct available as [|a av] eqn:Hav.
  { assert (l = []) as -> by (by apply Hnil). cbn [length]. rewrite app_nil_r. split_and!; try done; try lia.
    - by destruct retain.
    - destruct stream as [[n w]|]; [|done]. destruct w. unfold wrote. cbn. by rewrite Nat.add_0_r, app_nil_r. }
  rewrite <-Hav in *. clear Hnil.
  assert (exists l2, l = available ++ l2) as [l2 ->] by (destruct Hc' as (chunks & _ & _ & ->); rewrite Hbuf; by eexists).
  assert (contents (consume r' (length available)) l2) as Hc2.
  { apply consume_contents; rewrite Hbuf; [by rewrite take_ge|done]. }
  rewrite length_app. fold (total_of raw stream).
  destruct (checked_add bs (length available)) as [nb|] eqn:Hnb; cbn [ok_or mbind result_bind]; [|apply checked_add_None in Hnb; lia].
  apply checked_add_Some in Hnb as [-> _].
  destruct (checked_add (total_of raw stream) (length available)) as [nt|] eqn:Hnt; cbn [ok_or mbind result_bind]; [|apply checked_add_None in Hnt; lia].
  apply checked_add_Some in Hnt as [-> _]. unfold check_size.
  destruct (Z.ltb_spec (body_size limits) (Z.of_nat (bs + length available))); cbn [mbind result_bind]; [lia|].
  destruct (Z.ltb_spec (message_size limits) (Z.of_nat (total_of raw stream + length available))); cbn [mbind result_bind]; [lia|].
  set (stream2 := (fun '(n, w) => (n + length available, wrote w available)%nat) <$> stream).
  match goal with |- match ?m with Ok _ => _ | Err _ => _ end =>
    assert (m = read_body_loop fuel (consume r' (length available)) limits (if retain then raw ++ available else raw) retain stream2 (bs + length available)) as -> end.
  { unfold stream2. destruct stream as [[n w]|]; [|done]. cbn [total_of]. rewrite write_all_willing by (by eapply Hw). done. }
  assert (total_of (if retain then raw ++ available else raw) stream2 = total_of raw stream + length available)%nat as Htot.
  { unfold stream2. destruct stream as [[n w]|]; [done|]. rewrite Hret by done. cbn. by rewrite length_app. }
  specialize (IH (consume r' (length available)) l2 (if retain then raw ++ available else raw) stream2 (bs + length available)%nat Hc2).
  rewrite Htot in IH.
  assert (buffers (consume r' (length available)) < buffers r')%nat as Hbb.
  { unfold buffers, consume. cbn [buffer incoming]. rewrite Hbuf, drop_all, Hav. lia. }
  assert (stream2 = None -> retain = true) as Hret2.
  { intros H'. apply Hret. unfold stream2 in H'. by destruct stream as [[? ?]|]. }
  assert (forall n w, stream2 = Some (n, w) -> willing w) as Hw2.
  { intros n w. unfold stream2. destruct stream as [[n0 w0]|]; [|done]. intros [= <- <-]. apply (Hw _ _ eq_refl). }
  specialize (IH ltac:(lia) Hret2 Hw2 ltac:(lia) ltac:(lia)).
  destruct (read_body_loop fuel _ _ _ _ _ _) as [[[raw' stream'] r2]|[e|k z]].
  - destruct IH as (-> & -> & Hc3 & H1 & H2). split_and!; [by destruct retain; rewrite ?app_assoc| |done|lia|lia].
    unfold stream2. destruct stream as [[n w]|]; [|done]. cbn. unfold wrote. cbn. by rewrite Nat.add_assoc, app_assoc.
  - done.
  - intros H'. apply IH. lia.
Qed.

Lemma rest_fits_header limits l fuel : (length l <= fuel)%nat ->
  rest_fits limits [] [] (header_lines fuel l) <-> fits limits 0 (header_of l).
Proof.
  intros Hf. rewrite header_lines_fuel by done. unfold rest_fits, fits, within_limits, field_texts, header_of.
  rewrite header_lines_concat by done. cbn [app]. rewrite Z.add_0_r. naive_solver.
Qed.

(** [read_headers] stops after the header section, which is within the limits. *)
Lemma read_headers_spec r l limits :
  contents r l -> reader_limits limits ->
  match read_headers r limits with
  | Ok (h, r') =>
      h = {| backing := HB_Input (header_of l); head_matching := normalize_folded_header (header_of l); head_limits := limits |} /\
      contents r' (body_of l) /\ fits limits 0 (header_of l)
  | Err (LimitExceeded _ _) => ~ fits limits 0 (header_of l)
  | Err (Io _) => False
  end.
Proof.
  intros Hc Hl. unfold read_headers. pose proof (pending_contents r l Hc) as Hp.
  pose proof (read_headers_loop_spec (S (pending r)) r l limits [] [] Hc ltac:(lia) Hl (Forall_nil_2 _)) as H.
  cbn [length last_size last] in H. specialize (H ltac:(apply Hl) ltac:(apply Hl)).
  pose proof (rest_fits_header limits l (S (pending r)) ltac:(lia)) as Hiff.
  assert (concat (header_lines (S (pending r)) l) = header_of l) as Hh by (unfold header_of; by rewrite header_lines_fuel by lia).
  rewrite Hh in H. change (last_size []) with 0%nat in H.
  destruct (read_headers_loop _ _ _ _ _) as [[raw r']|[e|k z]]; [|done|by rewrite Hiff in H].
  destruct H as (-> & Hc' & Hfit). cbn [mbind result_bind app]. split_and!; [done|done|by apply Hiff].
Qed.

Definition within_body (limits : MessageLimits) (raw l : bytes) : Prop :=
  len l <= body_size limits /\ len raw + len l <= message_size limits.

Lemma slice_header raw l : message_header (whole_message (raw ++ l) (length raw) (normalize_folded_header raw)) = raw.
Proof. unfold message_header, message_range. cbn [header_range whole_message r_start r_end message_raw]. rewrite slice_0. apply take_app_length. Qed.
Lemma slice_body raw l m : message_body (whole_message (raw ++ l) (length raw) m) = l.
Proof. unfold message_body, message_range. cbn [body_range whole_message r_start r_end message_raw]. unfold slice. rewrite drop_app_length, take_ge; [done|]. rewrite length_app. lia. Qed.

(** The three ways to read a body, on the bytes a head serializes to. *)
Lemma bodies_spec h r l w :
  contents r l -> willing w ->
  let '(raw, matching, limits) := into_serialized_parts h in
  reader_limits limits -> len raw <= message_size limits ->
  (exists r', within_body limits raw l /\ contents r' [] /\
     read_body h r = Ok (whole_message (raw ++ l) (length raw) matching, r') /\
     (exists r', read_body_to h r w = Ok (whole_message (raw ++ l) (length raw) matching, wrote w (raw ++ l), r')) /\
     (exists r', stream_to h r w = Ok ({| sm_header := raw; sm_matching := matching; sm_len := length (raw ++ l) |}, wrote w (raw ++ l), r'))) \/
  ~ within_body limits raw l /\ exists k z, read_body h r = Err (LimitExceeded k z) /\
     (exists k z, read_body_to h r w = Err (LimitExceeded k z)) /\ (exists k z, stream_to h r w = Err (LimitExceeded k z)).
Proof.
  intros Hc Hw. unfold read_body, read_body_to, stream_to. destruct (into_serialized_parts h) as [[raw matching] limits].
  intros (Hu & _ & _ & [Hb0 Hb] & _) Hraw. rewrite write_all_willing by done. cbn [map_err mbind result_bind]. unfold read_body_all.
  assert (buffers r < S (pending r))%nat as Hf by (pose proof (buffers_pending r); lia).
  assert (willing (wrote w raw)) as Hw' by done.
  assert (wrote (wrote w raw) l = wrote w (raw ++ l)) as Hww by (unfold wrote; cbn; by rewrite app_assoc).
  destruct Hu as (_ & Hms & _).
  pose proof (read_body_loop_spec _ r l limits raw true None 0 Hc Hf Hb Hms ltac:(done) ltac:(done) Hb0 Hraw) as H1.
  pose proof (read_body_loop_spec _ r l limits raw true (Some (length raw, wrote w raw)) 0 Hc Hf Hb Hms ltac:(done) ltac:(by intros ? ? [= <- <-]) Hb0 Hraw) as H2.
  pose proof (read_body_loop_spec _ r l limits [] false (Some (length raw, wrote w raw)) 0 Hc Hf Hb Hms ltac:(done) ltac:(by intros ? ? [= <- <-]) Hb0 Hraw) as H3.
  cbn [total_of] in *. rewrite !Z.add_0_l in *. unfold within_body.
  destruct (read_body_loop _ _ _ _ true None 0) as [[[x1 s1] r1]|[e|k z]]; [|done|].
  - destruct H1 as (-> & -> & Hc1 & Hl1 & Hl2).
    destruct (read_body_loop _ _ _ _ true (Some _) 0) as [[[x2 s2] r2]|[e|k z]]; [|done|exfalso; apply H2; lia].
    destruct (read_body_loop _ _ _ _ false (Some _) 0) as [[[x3 s3] r3]|[e|k z]]; [|done|exfalso; apply H3; lia].
    destruct H2 as (-> & -> & _). destruct H3 as (_ & -> & _). cbn. rewrite Hww, length_app.
    left. exists r1. split_and!; try done; eauto.
  - destruct (read_body_loop _ _ _ _ true (Some _) 0) as [[[x2 s2] r2]|[e|k2 z2]]; [exfalso; apply H1; naive_solver|done|].
    destruct (read_body_loop _ _ _ _ false (Some _) 0) as [[[x3 s3] r3]|[e|k3 z3]]; [exfalso; apply H1; naive_solver|done|].
    right. split; [done|]. cbn. eauto 10.
Qed.

Lemma sink_willing : willing (sink (IoError := IoError)).
Proof. done. Qed.

Lemma accepted_split limits l :
  accepted limits l <-> fits limits 0 (header_of l) /\ within_body limits (header_of l) (body_of l).
Proof.
  unfold accepted, fits, within_body. pose proof (Zle_0_nat (length (body_of l))). split.
  - intros ((H1 & H2 & H3) & H4). split_and!; try done; lia.
  - intros ((H1 & H2 & H3) & H4 & H5). split_and!; try done; lia.
Qed.

(** Reading a whole input. *)
Lemma read_from_spec r l limits :
  contents r l -> reader_limits limits ->
  match read_from r limits with
  | Ok (m, r') => accepted limits l /\ m = whole_message l (length (header_of l)) (normalize_folded_header (header_of l)) /\ contents r' []
  | Err (LimitExceeded _ _) => ~ accepted limits l
  | Err (Io _) => False
  end.
Proof.
  intros Hc Hl. unfold read_from. pose proof (read_headers_spec r l limits Hc Hl) as H. pose proof (accepted_split limits l) as Ha.
  destruct (read_headers r limits) as [[h r1]|[e|k z]]; [|done|intros [? _]%Ha; done]. destruct H as (-> & Hc1 & Hfit). cbn [mbind result_bind].
  pose proof (bodies_spec {| backing := HB_Input (header_of l); head_matching := normalize_folded_header (header_of l); head_limits := limits |}
    r1 (body_of l) sink Hc1 sink_willing) as Hb. cbn [into_serialized_parts backing head_matching head_limits] in Hb.
  destruct (Hb Hl) as [(r' & Hw & Hc' & -> & _)|(Hn & k & z & -> & _)].
  - destruct Hfit as (_ & H & _). lia.
  - split_and!; [by apply Ha|by rewrite header_body|done].
  - intros [_ ?]%Ha. done.
Qed.

Lemma pieces_concat fuel l : (length l <= fuel)%nat -> concat (pieces fuel l) = l /\ Forall (fun c => c <> []) (pieces fuel l).
Proof.
  revert l. induction fuel as [|fuel IH]; intros l Hf; [by destruct l; [|simpl in Hf; lia]|].
  destruct l as [|b l]; [done|]. cbn [pieces]. assert (BUF_SIZE <> 0)%nat by (unfold BUF_SIZE; lia).
  destruct (IH (drop BUF_SIZE (b :: l))) as [H1 H2].
  { rewrite length_drop. cbn [length] in *. lia. }
  split; [cbn [concat]; by rewrite H1, take_drop|]. constructor; [|done]. by destruct BUF_SIZE.
Qed.

Lemma contents_cursor l : contents (cursor (IoError := IoError) l) l.
Proof. exists []. split_and!; [done|done|]. by rewrite app_nil_r. Qed.

Lemma contents_buf_reader parts : contents (buf_reader (IoError := IoError) parts) (concat parts).
Proof.
  exists (parts ≫= (fun part => pieces (length part) part)). cbn [buf_reader incoming buffer app]. split_and!; [done| |].
  - induction parts as [|p parts IH]; [done|]. rewrite bind_cons. apply Forall_app. split; [by apply pieces_concat|done].
  - induction parts as [|p parts IH]; [done|]. rewrite bind_cons. cbn [concat]. rewrite IH. rewrite concat_app. f_equal. symmetry. by apply pieces_concat.
Qed.
End reading.

(** * Properties *)

(** C25: Bounded ingestion.  However the input is cut into buffers, reading a
    message succeeds exactly when its header section and body are within every
    limit (the ones an edited header is held to, and the body's), and then the
    message is the input, byte for byte, its header the lines up to the first
    empty one, its body the rest and its matching header the unfolded header;
    otherwise a limit is reported, and never an input error. *)
Theorem read_from_exact {T : Target} {IoError} (r : Reader IoError) l limits :
  contents r l -> reader_limits limits ->
  match read_from r limits with
  | Ok (m, r') => accepted limits l /\ message_raw m = l /\ message_header m = header_of l /\ message_body m = body_of l /\
                  message_matching m = normalize_folded_header (header_of l) /\ contents r' []
  | Err (LimitExceeded _ _) => ~ accepted limits l
  | Err (Io _) => False
  end.
Proof.
  intros Hc Hl. pose proof (read_from_spec r l limits Hc Hl) as H. destruct (read_from r limits) as [[m r']|[e|k z]]; [|done|done].
  destruct H as (Ha & -> & Hc'). split_and!; try done.
  - rewrite <-(header_body l) at 1. apply slice_header.
  - rewrite <-(header_body l) at 1. apply slice_body.
Qed.

(** The three ways to take a body agree: collecting it, collecting while
    copying and copying alone fail together and only on a limit, and otherwise
    hold the same message; what was copied is that message and nothing else. *)
Theorem bodies_agree {T : Target} {IoError} h (r : Reader IoError) l w :
  contents r l -> willing w -> reader_limits (head_limits h) -> len (into_serialized_parts h).1.1 <= message_size (head_limits h) ->
  match read_body h r, read_body_to h r w, stream_to h r w with
  | Ok (m, _), Ok (m', w', _), Ok (s, w'', _) =>
      m' = m /\ message_raw m = (into_serialized_parts h).1.1 ++ l /\ message_body m = l /\
      written w' = written w ++ message_raw m /\ written w'' = written w' /\ sm_len s = length (message_raw m)
  | Err (LimitExceeded _ _), Err (LimitExceeded _ _), Err (LimitExceeded _ _) =>
      ~ within_body (head_limits h) (into_serialized_parts h).1.1 l
  | _, _, _ => False
  end.
Proof.
  intros Hc Hw Hl Hlen. pose proof (bodies_spec h r l w Hc Hw) as H.
  assert ((into_serialized_parts h).2 = head_limits h) as Hlim by (unfold into_serialized_parts; destruct (backing h) as [|e]; [done|]; by destruct (normalized e)).
  destruct (into_serialized_parts h) as [[raw matching] limits]. cbn [fst snd] in *. subst limits.
  destruct (H Hl Hlen) as [(r' & Hb & _ & -> & (r2 & ->) & (r3 & ->))|(Hn & k & z & -> & (k2 & z2 & ->) & (k3 & z3 & ->))]; [|done].
  split_and!; try done. apply slice_body.
Qed.

(** The reader and the editor hold a header to the same limits: an input
    that is a header section alone can be read exactly when
    [validate_header_parts] accepts it with an empty body. *)
Theorem reader_validates {T : Target} {IoError} (r : Reader IoError) header limits :
  contents r header -> header_of header = header -> reader_limits limits ->
  is_ok (read_from r limits) = is_ok (validate_header_parts [header] (length header) 0 limits).
Proof.
  intros Hc Hh Hl. pose proof (read_from_spec r header limits Hc Hl) as H.
  assert (body_of header = []) as Hb by (unfold body_of; by rewrite Hh, drop_all).
  pose proof (validate_header_parts_spec [header] 0 limits ltac:(apply Hl)) as Hv.
  cbn [concat] in Hv. rewrite app_nil_r in Hv. unfold accepted in H. rewrite Hb, Hh in H. cbn [length] in H.
  assert (0 <= body_size limits) by apply Hl.
  apply eq_true_iff_eq. rewrite Hv. destruct (read_from r limits) as [[m r']|[e|k z]]; simpl; [naive_solver|done|].
  split; [done|]. intros Hf. by destruct H.
Qed.

Definition filter_joined (header body : bytes) (output : Message) (area : ActionInput) : bytes :=
  match area with
  | AI_Message => message_raw output
  | AI_Headers => message_raw output ++ body
  | AI_Body => header ++ drop 1 (message_raw output)
  end.

(** A filter's output is retained only within the limits: the message that
    a filter leaves, its output joined with the part it was not given, is the
    one returned, and it is refused exactly when ingesting it would be, or when
    the output of a body filter lost the separator byte. *)
Theorem from_filter_output_exact {T : Target} {IoError} (lost : IoError) header body output area limits :
  reader_limits limits ->
  match from_filter_output lost header body output area limits with
  | Ok m => accepted limits (filter_joined header body output area) /\ message_raw m = filter_joined header body output area
  | Err (LimitExceeded _ _) => ~ accepted limits (filter_joined header body output area)
  | Err (Io e) => area = AI_Body /\ message_raw output = [] /\ e = lost
  end.
Proof.
  intros Hl. assert (forall parts, match fst <$> read_from (IoError := IoError) (buf_reader parts) limits with
    | Ok m => accepted limits (concat parts) /\ message_raw m = concat parts
    | Err (LimitExceeded _ _) => ~ accepted limits (concat parts)
    | Err (Io e) => False end) as Hjoin.
  { intros parts. pose proof (read_from_spec (buf_reader (IoError := IoError) parts) _ limits (contents_buf_reader parts) Hl) as H.
    destruct (read_from _ limits) as [[m r']|[e|k z]]; [|done|done]. destruct H as (? & -> & _). done. }
  destruct area; unfold from_filter_output, filter_joined.
  - pose proof (contents_cursor (IoError := IoError) (message_raw output)) as Hc.
    pose proof (read_headers_spec _ _ limits Hc Hl) as H. pose proof (accepted_split limits (message_raw output)) as Ha.
    destruct (read_headers _ limits) as [[h r1]|[e|k z]]; [|done|intros [? _]%Ha; done]. destruct H as (-> & Hc1 & Hfit). cbn [mbind result_bind].
    match goal with |- context [stream_to ?h _ _] => pose proof (bodies_spec h r1 _ sink Hc1 sink_willing) as Hb end. cbn [into_serialized_parts backing head_matching head_limits] in Hb.
    destruct (Hb Hl) as [(r' & Hw & _ & _ & _ & (r2 & ->))|(Hn & _ & _ & _ & _ & (k2 & z2 & ->))].
    + destruct Hfit as (_ & H & _). lia.
    + split; [by apply Ha|done].
    + intros [_ ?]%Ha. done.
  - specialize (Hjoin [message_raw output; body]). cbn [concat] in Hjoin. rewrite app_nil_r in Hjoin.
    destruct (fst <$> _) as [m|[e|k z]]; done.
  - destruct (message_raw output) as [|b out]; [done|]. specialize (Hjoin [header; out]). cbn [concat] in Hjoin. rewrite app_nil_r in Hjoin.
    cbn [drop]. rewrite drop_0. destruct (fst <$> _) as [m|[e|k z]]; done.
Qed.

(** The suffix test on borrowed pieces is the one on the joined bytes. *)
Theorem message_bytes_ends_with_spec m suffix :
  message_bytes_ends_with m suffix = ends_with (first_part m ++ second_part m) suffix /\
  (message_bytes_is_empty m = true <-> first_part m ++ second_part m = []).
Proof.
  unfold message_bytes_ends_with, message_bytes_is_empty, message_bytes_parts, ends_with, bytes_eqb. destruct m as [a b]. cbn [first_part second_part].
  split.
  - change (reverse [a; b]) with [b; a]. rewrite !bind_cons. cbn [mbind list_bind]. rewrite app_nil_r, <-reverse_app.
    set (l := a ++ b). apply eq_true_iff_eq. rewrite andb_true_iff, !bool_decide_eq_true, Nat.leb_le.
    rewrite take_reverse. split.
    + intros H%(inj reverse). split; [|done]. rewrite <-H, length_drop. lia.
    + by intros [_ ->].
  - cbn [forallb]. rewrite andb_true_r, andb_true_iff, !bool_decide_eq_true. split; [by intros [-> ->]|by intros [-> ->]%app_eq_nil].
Qed.

(** A reader that gives a short message in pieces. *)
Definition sample_message : bytes := B "Subject: a" ++ [10] ++ B " b" ++ [10; 10] ++ B "body" ++ [10].
Definition sample_reader : Reader unit :=
  {| buffer := B "Sub"; incoming := [Ok (B "ject: a" ++ [10] ++ B " "); Ok (B "b" ++ [10; 10] ++ B "bo"); Ok (B "dy" ++ [10])] |}.

Lemma sample_contents : contents sample_reader sample_message.
Proof.
  exists [B "ject: a" ++ [10] ++ B " "; B "b" ++ [10; 10] ++ B "bo"; B "dy" ++ [10]].
  split_and!; [reflexivity|by repeat constructor|reflexivity].
Defined.

Lemma default_reader_limits : reader_limits (T := target64) default_limits.
Proof. repeat split; vm_compute; discriminate. Defined.

Lemma read_from_exact_witness :
  exists m r', read_from (T := target64) sample_reader default_limits = Ok (m, r') /\
    message_raw m = sample_message /\ message_body m = B "body" ++ [10].
Proof.
  pose proof (read_from_exact (T := target64) sample_reader sample_message default_limits sample_contents default_reader_limits) as H.
  destruct (read_from sample_reader default_limits) as [[m r']|e] eqn:Hr; [|vm_compute in Hr; discriminate].
  exists m, r'. split; [reflexivity|]. destruct H as (_ & H1 & _ & H2 & _). split; [exact H1|]. rewrite H2. vm_compute. reflexivity.
Defined.

Definition sample_head : MessageHead :=
  {| backing := HB_Input (B "A: b" ++ [10; 10]); head_matching := None; head_limits := default_limits |}.

Lemma bodies_agree_witness :
  exists m r1 m' (w' : Writer unit) r2, read_body (T := target64) sample_head (cursor (IoError := unit) (B "text")) = Ok (m, r1) /\
    read_body_to (T := target64) sample_head (cursor (B "text")) sink = Ok (m', w', r2) /\ m' = m /\ written w' = message_raw m.
Proof.
  pose proof (bodies_agree (T := target64) sample_head (cursor (IoError := unit) (B "text")) (B "text") sink
    (contents_cursor _) sink_willing default_reader_limits ltac:(vm_compute; discriminate)) as H.
  destruct (read_body sample_head _) as [[m r1]|e] eqn:H1; [|vm_compute in H1; discriminate].
  destruct (read_body_to sample_head _ _) as [[[m' w'] r2]|e] eqn:H2; [|vm_compute in H2; discriminate].
  destruct (stream_to sample_head _ _) as [[[s w''] r3]|e] eqn:H3; [|vm_compute in H3; discriminate].
  exists m, r1, m', w', r2. destruct H as (Hm & _ & _ & Hw & _). split_and!; [reflexivity|reflexivity|exact Hm|exact Hw].
Defined.

Lemma reader_validates_witness :
  is_ok (read_from (T := target64) (cursor (IoError := unit) (B "A: b" ++ [10; 10])) default_limits) = true /\
  is_ok (validate_header_parts (T := target64) [B "A: b" ++ [10; 10]] 6 0 default_limits) = true.
Proof.
  assert (is_ok (validate_header_parts (T := target64) [B "A: b" ++ [10; 10]] 6 0 default_limits) = true) as H by (vm_compute; reflexivity).
  split; [|exact H]. rewrite <-H.
  apply (reader_validates (T := target64) (cursor (IoError := unit) (B "A: b" ++ [10; 10])) (B "A: b" ++ [10; 10]) default_limits
    (contents_cursor _) eq_refl default_reader_limits).
Defined.

Lemma from_filter_output_exact_witness :
  exists m, from_filter_output (T := target64) tt (B "A: b" ++ [10; 10]) [] (whole_message (10 :: B "new") 1 None) AI_Body default_limits = Ok m /\
    message_raw m = B "A: b" ++ [10; 10] ++ B "new".
Proof.
  pose proof (from_filter_output_exact (T := target64) tt (B "A: b" ++ [10; 10]) [] (whole_message (10 :: B "new") 1 None) AI_Body
    default_limits default_reader_limits) as H.
  destruct (from_filter_output _ _ _ _ _ _) as [m|e] eqn:Hf; [|vm_compute in Hf; discriminate].
  exists m. split; [reflexivity|]. exact (proj2 H).
Defined.
