(* ===== verification/EvalMessage.v ===== *)
(** The message an evaluation sees: [src/src/eval/message.rs].  A complete
    message is the mapped original or the version a recipe replaced it with; a
    version keeps the edited header beside the body it was edited over.  The
    matching views of a mapped message are checked before they are used.

    Versions are shared by [Arc] and never mutated, and the [OnceLock] of a
    version caches a pure value, so both are plain values here. *)
From S2P Require Import Prelude Config Limits Utf8 HeaderValue HeaderFields HeaderStore HeaderStoreFacts.
From S2P Require Import HeaderStoreRefine HeaderStoreOps EditedHeader HeaderEdit Message.

(** Source: header_edit/storage.rs:80-87 `HeaderView::fields` *)
Definition view_fields (v : HeaderView) : list Field :=
  match v with Raw b => raw_fields b | Indexed h => stored_fields h end.

(** Source: eval/message.rs `pub struct MatchingMessage` *)
Record MatchingMessage := { mm_header : bytes; mm_full : option bytes }.

(** Source: eval/message.rs `pub struct PreparedMatchingMessage` *)
Record PreparedMatchingMessage := { pm_full : option bytes }.
(** Source: eval/message.rs `pub fn new(message: &Message, needs_full` *)
Definition prepare_matching (m : Message) (needs_full : bool) : PreparedMatchingMessage :=
  {| pm_full := if needs_full then matching_message m else None |}.
(** Source: eval/message.rs `pub fn views<'a>` *)
Definition prepared_views (p : PreparedMatchingMessage) (m : Message) : MatchingMessage :=
  {| mm_header := message_matching_header m; mm_full := pm_full p |}.

(** Source: eval/message.rs `pub struct MappedMessageInput` *)
Record MappedMessageInput := { mi_raw : bytes; mi_header_len : nat; mi_matching : option MatchingMessage }.

(** Source: eval/message.rs `enum BodyBacking` *)
Inductive BodyBacking := BB_Original (raw : bytes) | BB_Filter (message : Message).
(** Source: eval/message.rs `fn bytes(&self) -> &[u8]` *)
Definition backing_bytes (b : BodyBacking) : bytes :=
  match b with BB_Original raw => raw | BB_Filter message => message_body message end.

(** Source: eval/message.rs `enum MessageVersion` *)
Inductive MessageVersion :=
| MV_Whole (message : Message)
| MV_Headers (head : MessageHead) (body : BodyBacking) (len_ : nat).

(** Source: eval/message.rs `pub(super) enum CompleteMessage` *)
Inductive CompleteMessage :=
| Owned (version : MessageVersion)
| Mapped (raw : bytes) (header_len : nat) (matching_header matching_raw : option bytes).

(** * Versions *)

(** Source: eval/message.rs `fn header_view(&self)` *)
Definition version_header_view (v : MessageVersion) : HeaderView :=
  match v with MV_Whole m => Raw (message_header m) | MV_Headers head _ _ => header_view head end.
(** Source: eval/message.rs `fn header(&self) -> &[u8]` *)
Definition version_header (v : MessageVersion) : bytes :=
  match v with MV_Whole m => message_header m | MV_Headers head _ _ => head_as_bytes head end.
(** Source: eval/message.rs `fn matching_header(&self) -> &[u8]` *)
Definition version_matching_header (v : MessageVersion) : bytes :=
  match v with MV_Whole m => message_matching_header m | MV_Headers head _ _ => head_matching_header head end.
(** Source: eval/message.rs `fn body(&self) -> &[u8]` *)
Definition version_body (v : MessageVersion) : bytes :=
  match v with MV_Whole m => message_body m | MV_Headers _ body _ => backing_bytes body end.
(** Source: eval/message.rs `fn len(&self) -> usize` *)
Definition version_len (v : MessageVersion) : nat :=
  match v with MV_Whole m => length (message_raw m) | MV_Headers _ _ n => n end.
(** Source: eval/message.rs `fn status(&self) -> MessageStatus` *)
Definition version_status (v : MessageVersion) : MessageStatus :=
  match v with MV_Whole _ => status_NONE | MV_Headers head _ _ => head_status head end.
(** Source: eval/message.rs `fn full(&self) -> &[u8]` *)
Definition version_full (v : MessageVersion) : bytes :=
  match v with
  | MV_Whole m =>
      if bytes_eqb (message_header m) (message_matching_header m) then message_raw m
      else version_matching_header v ++ version_body v
  | MV_Headers _ _ _ => version_matching_header v ++ version_body v
  end.

(** * Complete messages *)

Section complete.
Context {T : Target}.

(** The length of the body is the difference of two checked lengths.
    Source: eval/message.rs `fn matching_views_are_valid` *)
Definition matching_views_are_valid (raw_len header_len : nat) (matching_header matching_raw : option bytes)
    (needs_matching_raw : bool) : bool :=
  match matching_header, matching_raw with
  | None, None => true
  | Some _, None => negb needs_matching_raw
  | Some header, Some full =>
      match checked_add (length header) (raw_len - header_len) with
      | Some expected => (expected =? length full)%nat
      | None => false
      end
  | None, Some _ => false
  end.

(** Source: eval/message.rs `pub(super) fn complete_message` *)
Definition complete_message (i : MappedMessageInput) (needs_matching_raw : bool) : option CompleteMessage :=
  if (length (mi_raw i) <? mi_header_len i)%nat then None
  else
    let matching_header := mm_header <$> mi_matching i in
    let matching_raw := mi_matching i ≫= mm_full in
    if negb (matching_views_are_valid (length (mi_raw i)) (mi_header_len i) matching_header matching_raw needs_matching_raw)
    then None
    else Some (Mapped (mi_raw i) (mi_header_len i) matching_header matching_raw).
End complete.

(** Source: eval/message.rs `pub(super) fn raw_header` *)
Definition raw_header (m : CompleteMessage) : bytes :=
  match m with Owned v => version_header v | Mapped raw header_len _ _ => take header_len raw end.
(** Source: eval/message.rs `pub(super) fn header_view(self)` *)
Definition complete_header_view (m : CompleteMessage) : HeaderView :=
  match m with Owned v => version_header_view v | Mapped _ _ _ _ => Raw (raw_header m) end.
(** Source: eval/message.rs `pub(super) fn header_bytes` *)
Definition complete_header_bytes (m : CompleteMessage) : bytes :=
  match m with
  | Owned v => version_matching_header v
  | Mapped raw header_len matching_header _ => default (take header_len raw) matching_header
  end.
(** Source: eval/message.rs `pub(super) fn body(self)` *)
Definition complete_body (m : CompleteMessage) : bytes :=
  match m with Owned v => version_body v | Mapped raw header_len _ _ => drop header_len raw end.
(** Source: eval/message.rs `pub(super) fn full(self)` *)
Definition complete_full (m : CompleteMessage) : bytes :=
  match m with Owned v => version_full v | Mapped raw _ _ matching_raw => default raw matching_raw end.
(** Source: eval/message.rs `pub(super) fn len(self)` *)
Definition complete_len (m : CompleteMessage) : nat :=
  match m with Owned v => version_len v | Mapped raw _ _ _ => length raw end.
(** Source: eval/message.rs `pub(super) fn status(self)` *)
Definition complete_status (m : CompleteMessage) : MessageStatus :=
  match m with Owned v => version_status v | Mapped _ _ _ _ => status_NONE end.

(** The bytes of a message as it is delivered.
    Source: eval/message.rs `pub fn bytes(self)` *)
Definition final_bytes (m : CompleteMessage) : MessageBytes :=
  match m with
  | Owned v => {| first_part := version_header v; second_part := version_body v |}
  | Mapped raw _ _ _ => {| first_part := raw; second_part := [] |}
  end.

(** What is delivered of a message: its bytes, and its status.
    Source: eval/message.rs `pub struct FinalMessage` *)
Record FinalMessage := { fm_bytes : MessageBytes; fm_status : MessageStatus }.
Definition final_message (m : CompleteMessage) : FinalMessage := {| fm_bytes := final_bytes m; fm_status := complete_status m |}.

Definition one_part (b : bytes) : MessageBytes := {| first_part := b; second_part := [] |}.

(** Without the streamed view of the tests every area is available.
    Source: eval/message.rs `pub(super) fn action_input` *)
Definition action_input_bytes (m : CompleteMessage) (input : ActionInput) : MessageBytes :=
  match input with
  | AI_Message => final_bytes m
  | AI_Headers => one_part (raw_header m)
  | AI_Body => one_part (complete_body m)
  end.
(** Source: eval/message.rs `pub(super) fn program_input` *)
Definition program_input (m : CompleteMessage) (input : ConditionInput) : MessageBytes :=
  match input with
  | CI_Headers => one_part (raw_header m)
  | CI_Body => one_part (complete_body m)
  | CI_Message => final_bytes m
  end.
(** Source: eval/message.rs `pub(super) fn matching_input` *)
Definition matching_input (m : CompleteMessage) (input : ConditionInput) : bytes :=
  match input with CI_Headers => complete_header_bytes m | CI_Body => complete_body m | CI_Message => complete_full m end.

(** Source: eval/message.rs `pub struct ExternalActionInput` *)
Record ExternalActionInput := { ea_selected : MessageBytes; ea_header : bytes; ea_body : bytes }.

(** * The current message *)

(** Source: eval/message.rs `pub(super) struct CurrentMessage` *)
Record CurrentMessage := { replacement : option MessageVersion }.
Definition no_replacement : CurrentMessage := {| replacement := None |}.

(** Source: eval/message.rs `pub(super) fn replace(` *)
Definition replace (c : CurrentMessage) (message : Message) (area : ActionInput) : CurrentMessage :=
  {| replacement := Some
       match area, replacement c with
       | AI_Body, Some (MV_Headers head _ _) => MV_Headers head (BB_Filter message) (length (message_raw message))
       | _, _ => MV_Whole message
       end |}.

(** Source: eval/message.rs `pub(super) fn replace_header` *)
Definition replace_header {T : Target} (c : CurrentMessage) (edited : EditedHeader) (original_body : bytes) (limits : MessageLimits)
    : result HeaderEditError CurrentMessage :=
  let body := match replacement c with
              | Some (MV_Whole message) => BB_Filter message
              | Some (MV_Headers _ body _) => body
              | None => BB_Original original_body
              end in
  head ← from_edited_header edited (length (backing_bytes body)) limits;
  n ← ok_or SizeOverflow (checked_add (head_len head) (length (backing_bytes body)));
  Ok {| replacement := Some (MV_Headers head body n) |}.

(** Source: eval/message.rs `pub(super) fn view<'a>` *)
Definition view_message (c : CurrentMessage) (original : CompleteMessage) : CompleteMessage :=
  match replacement c with Some version => Owned version | None => original end.

(** * Facts *)

Section facts.
Context {T : Target}.

Lemma complete_message_inv i needs m :
  complete_message i needs = Some m ->
  (mi_header_len i <= length (mi_raw i))%nat /\
  m = Mapped (mi_raw i) (mi_header_len i) (mm_header <$> mi_matching i) (mi_matching i ≫= mm_full) /\
  matching_views_are_valid (length (mi_raw i)) (mi_header_len i) (mm_header <$> mi_matching i) (mi_matching i ≫= mm_full) needs = true.
Proof.
  unfold complete_message. destruct (Nat.ltb_spec (length (mi_raw i)) (mi_header_len i)); [done|]. cbv zeta.
  destruct (matching_views_are_valid _ _ _ _ _) eqn:Hv; [|done]. cbn [negb]. intros [= <-]. done.
Qed.

(** The views of a mapped message agree.  An accepted message is its header
    and body end to end; without a matching header every view is the message's
    own bytes; and where a plan needs the full matching view, that view is there
    and has the length of the matching header and the body. *)
Theorem mapped_views_agree (i : MappedMessageInput) (needs_matching_raw : bool) (m : CompleteMessage)
    (Hcomplete : complete_message i needs_matching_raw = Some m) :
  raw_header m ++ complete_body m = mi_raw i /\ length (raw_header m) = mi_header_len i /\
  complete_len m = length (mi_raw i) /\
  match mi_matching i with
  | None => complete_header_bytes m = raw_header m /\ complete_full m = complete_header_bytes m ++ complete_body m
  | Some matching =>
      complete_header_bytes m = mm_header matching /\
      (needs_matching_raw = true ->
       mm_full matching = Some (complete_full m) /\
       length (complete_full m) = (length (complete_header_bytes m) + length (complete_body m))%nat)
  end.
Proof.
  apply complete_message_inv in Hcomplete as (Hlen & -> & Hvalid).
  unfold raw_header, complete_body, complete_len, complete_header_bytes, complete_full.
  split_and!; [by rewrite take_drop|by rewrite length_take; lia|done|].
  destruct (mi_matching i) as [[header [full|]]|]; cbn in *.
  - split; [done|]. intros _. split; [done|]. destruct (checked_add _ _) as [n|] eqn:Hn; [|done].
    apply checked_add_Some in Hn as [-> _]. apply Nat.eqb_eq in Hvalid. rewrite length_drop. lia.
  - split; [done|]. intros ->. done.
  - by rewrite take_drop.
Qed.

Lemma head_as_bytes_indexed edited m limits :
  coherent edited -> head_as_bytes {| backing := HB_Indexed edited; head_matching := m; head_limits := limits |} = header_bytes edited.
Proof. intros Hc. unfold head_as_bytes. cbn [backing]. pose proof (as_bytes_spec edited Hc) as H. destruct (as_bytes edited). by destruct H as [-> _]. Qed.

(** Editing the header of the current message leaves its body alone.  When
    the edit is accepted, the message that follows has the edited header, the
    body it had before (the original's, a filter's output, or the one an earlier
    edit kept), the length of the two, and lies within the limits. *)
Theorem replace_header_keeps_body (c c' : CurrentMessage) (original : CompleteMessage) (edited : EditedHeader) (limits : MessageLimits)
    (Hsized : sized edited) (Hcoherent : coherent edited) (Hlimits : usize_limits limits)
    (Hreplace : replace_header c edited (complete_body original) limits = Ok c') :
  let before := view_message c original in
  let after := view_message c' original in
  raw_header after = header_bytes edited /\ complete_body after = complete_body before /\
  complete_len after = (length (raw_header after) + length (complete_body after))%nat /\
  concat (message_bytes_parts (final_bytes after)) = header_bytes edited ++ complete_body before /\
  complete_full after = complete_header_bytes after ++ complete_body after /\
  fits limits (length (complete_body before)) (header_bytes edited).
Proof.
  unfold replace_header in Hreplace.
  set (body := match replacement c with Some (MV_Whole m) => BB_Filter m | Some (MV_Headers _ b _) => b | None => _ end) in Hreplace.
  assert (backing_bytes body = complete_body (view_message c original)) as Hbody.
  { subst body. unfold view_message. destruct c as [[[m|h b n]|]]; done. }
  apply result_bind_Ok in Hreplace as (head & Hhead & H). apply result_bind_Ok in H as (n & Hn%ok_or_Ok & [= <-]).
  unfold from_edited_header in Hhead. apply result_bind_Ok in Hhead as ([] & Hval & [= <-]).
  apply checked_add_Some in Hn as [-> _]. intros before after. fold before in Hbody. clearbody before.
  set (head := {| backing := HB_Indexed edited; head_matching := None; head_limits := limits |}) in *.
  assert (after = Owned (MV_Headers head body (head_len head + length (backing_bytes body)))) as -> by done.
  cbn [raw_header complete_body complete_len final_bytes complete_full complete_header_bytes
    version_header version_body version_len version_full version_matching_header].
  unfold head. rewrite head_as_bytes_indexed, Hbody by done. unfold head_len. cbn [backing]. rewrite Hsized.
  unfold message_bytes_parts. cbn [first_part second_part concat]. rewrite app_nil_r. split_and!; try done.
  rewrite Hbody in Hval. apply validate_exact; [done|]. unfold validate in Hval. fold (header_bytes edited). by rewrite <-Hsized, Hval.
Qed.
End facts.

(** A mapped message whose header was unfolded, with its full view. *)
Definition unfolded_input : MappedMessageInput :=
  {| mi_raw := B "A: b" ++ [10] ++ B " c" ++ [10; 10] ++ B "body"; mi_header_len := 9;
     mi_matching := Some {| mm_header := B "A: b c" ++ [10; 10]; mm_full := Some (B "A: b c" ++ [10; 10] ++ B "body") |} |}.

Lemma mapped_views_agree_witness :
  exists m, complete_message (T := target64) unfolded_input true = Some m /\ raw_header m ++ complete_body m = mi_raw unfolded_input.
Proof. eexists. split; [reflexivity|]. apply (mapped_views_agree (T := target64) unfolded_input true). reflexivity. Defined.

Lemma replace_header_keeps_body_witness :
  exists c', replace_header (T := target64) no_replacement sample_handle (B "text") default_limits = Ok c' /\
    complete_body (view_message c' (Mapped (B "text") 0 None None)) = B "text".
Proof.
  destruct sample_handle_ok as [_ Hc].
  pose proof (replace_header_keeps_body (T := target64) no_replacement) as H.
  destruct (replace_header no_replacement sample_handle (B "text") default_limits) as [c'|e] eqn:Hr; [|exfalso; vm_compute in Hr; discriminate].
  exists c'. split; [reflexivity|].
  destruct (H c' (Mapped (B "text") 0 None None) sample_handle default_limits) as (_ & Hb & _);
    [vm_compute; reflexivity|exact Hc|exact default_usize_limits|exact Hr|exact Hb].
Defined.
