(* ===== verification/ShellPattern.v ===== *)
(** Shell patterns: [src/src/config/shell_pattern.rs].  A pattern is cut into
    tokens once and matched by one row of states, a state per token, under a
    ceiling on the number of steps.  The row is proved to compute the relation
    [matches] between token lists and byte strings. *)
From S2P Require Import Prelude Config Limits.

(** Source: config/shell_pattern.rs `pub(crate) const MAX_PATTERN_STEPS` *)
Definition MAX_PATTERN_STEPS : Z := 16 * 1024 * 1024.

(** Source: config/shell_pattern.rs `pub(crate) enum Edge` *)
Inductive Edge := Prefix | Suffix.
(** Source: config/shell_pattern.rs `pub(crate) enum Selection` *)
Inductive Selection := Shortest | Longest.
(** Source: config/shell_pattern.rs `pub(crate) enum PatternError` *)
Inductive PatternError := TooComplex (attempted : Z).

(** Source: config/shell_pattern.rs `struct ByteClass` *)
Record ByteClass := { negated : bool; ranges : list (byte * byte) }.

(** Source: config/shell_pattern.rs `enum Token` *)
Inductive Token := T_Literal (b : byte) | AnyByte | AnyBytes | T_Class (class : ByteClass).

#[export] Instance Selection_eq_dec : EqDecision Selection.
Proof. solve_decision. Defined.
#[export] Instance ByteClass_eq_dec : EqDecision ByteClass.
Proof. solve_decision. Defined.
#[export] Instance Token_eq_dec : EqDecision Token.
Proof. solve_decision. Defined.

(** Source: config/shell_pattern.rs `fn matches(&self, byte: u8)` *)
Definition class_matches (class : ByteClass) (byte_ : byte) : bool :=
  let included := existsb (fun '(start, end_) => (start <=? byte_) && (byte_ <=? end_)) (ranges class) in
  negb (Bool.eqb included (negated class)).

(** * Tokens *)

(** The first loop of [parse_class]: the bytes of the class with their
    quoting, and the index of the closing bracket or of the end. *)
Fixpoint class_bytes (fuel : nat) (pattern : bytes) (index : nat) (items : list (byte * bool)) : list (byte * bool) * nat :=
  match fuel with
  | O => (items, index)
  | S fuel' =>
      match pattern !! index with
      | None => (items, index)
      | Some b =>
          if b =? 93 then (items, index)
          else
            match (if b =? 92 then pattern !! S index else None) with
            | Some quoted => class_bytes fuel' pattern (index + 2) (items ++ [(quoted, true)])
            | None => class_bytes fuel' pattern (index + 1) (items ++ [(b, false)])
            end
      end
  end.

(** The second loop: pairs around an unquoted dash. *)
Fixpoint class_ranges (items : list (byte * bool)) : list (byte * byte) :=
  match items with
  | [] => []
  | (a, _) :: rest =>
      match rest with
      | (dash, false) :: (c, _) :: rest' => if dash =? c_DASH then (a, c) :: class_ranges rest' else (a, a) :: class_ranges rest
      | _ => (a, a) :: class_ranges rest
      end
  end.

(** Source: config/shell_pattern.rs `fn parse_class` *)
Definition parse_class (pattern : bytes) (index : nat) : option (ByteClass * nat) :=
  let negated := match pattern !! index with Some b => (b =? c_BANG) || (b =? 94) | None => false end in
  let index := if negated then S index else index in
  let first := bool_decide (pattern !! index = Some 93) in
  let items := if first then [(93, false)] else [] in
  let index := if first then S index else index in
  let '(items, index) := class_bytes (length pattern) pattern index items in
  if (index =? length pattern)%nat || bool_decide (items = []) then None
  else Some ({| negated := negated; ranges := class_ranges items |}, S index).

(** Source: config/shell_pattern.rs `fn tokenize` *)
Fixpoint tokenize_loop (fuel : nat) (pattern : bytes) (index : nat) (tokens : list Token) : list Token :=
  match fuel with
  | O => tokens
  | S fuel' =>
      match pattern !! index with
      | None => tokens
      | Some b =>
          if b =? 92 then
            match pattern !! S index with
            | Some quoted => tokenize_loop fuel' pattern (index + 2) (tokens ++ [T_Literal quoted])
            | None => tokenize_loop fuel' pattern (index + 1) (tokens ++ [T_Literal 92])
            end
          else if b =? c_STAR then
            tokenize_loop fuel' pattern (index + 1)
              (if bool_decide (last tokens = Some AnyBytes) then tokens else tokens ++ [AnyBytes])
          else if b =? c_QM then tokenize_loop fuel' pattern (index + 1) (tokens ++ [AnyByte])
          else if b =? 91 then
            match parse_class pattern (index + 1) with
            | Some (class, next) => tokenize_loop fuel' pattern next (tokens ++ [T_Class class])
            | None => tokenize_loop fuel' pattern (index + 1) (tokens ++ [T_Literal 91])
            end
          else tokenize_loop fuel' pattern (index + 1) (tokens ++ [T_Literal b])
      end
  end.
Definition tokenize (pattern : bytes) : list Token := tokenize_loop (length pattern) pattern 0 [].

(** * Matching *)

(** Source: config/shell_pattern.rs `fn close_stars` *)
Fixpoint close_stars (states : list bool) (index : nat) (tokens : list Token) : list bool :=
  match tokens with
  | [] => states
  | token :: tokens' =>
      close_stars (if bool_decide (states !! index = Some true) && bool_decide (token = AnyBytes)
                   then <[S index := true]> states else states) (S index) tokens'
  end.

(** The row of [next] states for one byte. *)
Fixpoint next_states (states next : list bool) (index : nat) (tokens : list Token) (byte_ : byte) : list bool :=
  match tokens with
  | [] => next
  | token :: tokens' =>
      next_states states
        (if negb (bool_decide (states !! index = Some true)) then next
         else match token with
              | AnyBytes => <[index := true]> next
              | AnyByte => <[S index := true]> next
              | T_Literal expected => if expected =? byte_ then <[S index := true]> next else next
              | T_Class class => if class_matches class byte_ then <[S index := true]> next else next
              end) (S index) tokens' byte_
  end.

Definition final_state (states : list bool) (tokens : list Token) : bool := bool_decide (states !! length tokens = Some true).

(** The loop over the bytes. *)
Fixpoint endpoint_loop (input : bytes) (offset : nat) (tokens : list Token) (selection : Selection) (states : list bool)
    (matched : option nat) : option nat :=
  match input with
  | [] => matched
  | b :: input' =>
      let next := close_stars (next_states states (replicate (S (length tokens)) false) 0 tokens b) 0 tokens in
      if final_state next tokens then
        if bool_decide (selection = Shortest) then Some (S offset)
        else endpoint_loop input' (S offset) tokens selection next (Some (S offset))
      else endpoint_loop input' (S offset) tokens selection next matched
  end.

(** Source: config/shell_pattern.rs `fn matching_endpoint_unchecked` *)
Definition matching_endpoint_unchecked (input : bytes) (tokens : list Token) (selection : Selection) : option nat :=
  let states := close_stars (<[0%nat := true]> (replicate (S (length tokens)) false)) 0 tokens in
  let matched := if final_state states tokens then Some 0%nat else None in
  if bool_decide (is_Some matched) && bool_decide (selection = Shortest) then matched
  else endpoint_loop input 0 tokens selection states matched.

Section steps.
Context {T : Target}.

(** Source: config/shell_pattern.rs `fn check_steps` *)
Definition check_steps (candidates input_len : nat) (tokens : list Token) : result PatternError unit :=
  let transition_cost := foldl (fun total token =>
    saturating_add total (match token with T_Class class => Z.max (len (ranges class)) 1 | _ => 1 end)) 0 tokens in
  let attempted := total ← checked_mul (Z.of_nat candidates) (saturating_add (Z.of_nat input_len) 1);
                   checked_mul total (Z.max transition_cost 1) in
  match attempted with
  | Some steps => if MAX_PATTERN_STEPS <? steps then Err (TooComplex steps) else Ok ()
  | None => Err (TooComplex usize_max)
  end.

(** Source: config/shell_pattern.rs `fn matching_endpoint(` *)
Definition matching_endpoint (input : bytes) (input_len : nat) (tokens : list Token) (selection : Selection)
    : result PatternError (option nat) :=
  _ ← check_steps 1 input_len tokens;
  Ok (matching_endpoint_unchecked input tokens selection).

(** Source: config/shell_pattern.rs `pub(crate) fn remove` *)
Definition remove (value pattern : bytes) (edge : Edge) (selection : Selection) : result PatternError bytes :=
  let tokens := tokenize pattern in
  let reversed := match edge with Suffix => true | Prefix => false end in
  let tokens := if reversed then reverse tokens else tokens in
  let input := if reversed then reverse value else value in
  removed ← matching_endpoint input (length value) tokens selection;
  Ok (match edge, removed with
      | _, None => value
      | Prefix, Some length_ => drop length_ value
      | Suffix, Some length_ => take (length value - length_) value
      end).

(** Source: config/shell_pattern.rs `pub(crate) fn transform_matching_bytes` *)
Definition transform_matching_bytes (value pattern : bytes) (all : bool) (transform : byte -> byte) : result PatternError bytes :=
  let tokens := tokenize (if bool_decide (pattern = []) then B "?" else pattern) in
  let candidates := if all then length value else if bool_decide (value = []) then O else 1%nat in
  _ ← check_steps candidates 1 tokens;
  let step := fun b => match matching_endpoint_unchecked [b] tokens Longest with Some 1%nat => transform b | _ => b end in
  Ok (if all then step <$> value else match value with b :: rest => step b :: rest | [] => [] end).
End steps.

(** * What a pattern matches *)

(** A token that takes exactly one byte, and the bytes it takes. *)
Definition takes_byte (t : Token) (b : byte) : Prop :=
  match t with
  | T_Literal expected => b = expected
  | AnyByte => True
  | T_Class class => class_matches class b = true
  | AnyBytes => False
  end.

Inductive matches : list Token -> bytes -> Prop :=
| m_nil : matches [] []
| m_byte t ts b l : takes_byte t b -> matches ts l -> matches (t :: ts) (b :: l)
| m_bytes ts l1 l2 : matches ts l2 -> matches (AnyBytes :: ts) (l1 ++ l2).

Lemma matches_nil l : matches [] l <-> l = [].
Proof. split; [by inversion 1|intros ->; constructor]. Qed.

Lemma matches_app ts1 ts2 l :
  matches (ts1 ++ ts2) l <-> exists l1 l2, l = l1 ++ l2 /\ matches ts1 l1 /\ matches ts2 l2.
Proof.
  revert l. induction ts1 as [|t ts1 IH]; intros l; cbn [app].
  { split; [intros H; exists [], l; split_and!; [done|constructor|done]|]. by intros (l1 & l2 & -> & ->%matches_nil & H). }
  split.
  - intros H. inversion H as [|t' ts b l' Hb H' Ht Hl|ts l1 l2 H' Ht Hl]; subst; apply IH in H' as (k1 & k2 & -> & H1 & H2).
    + exists (b :: k1), k2. split_and!; [done|by constructor|done].
    + exists (l1 ++ k1), k2. split_and!; [by rewrite app_assoc|by constructor|done].
  - intros (l1 & l2 & -> & H1 & H2). inversion H1 as [|t' ts b l' Hb H' Ht Hl|ts k1 k2 H' Ht Hl]; subst.
    + constructor; [done|]. apply IH. eauto.
    + rewrite <-app_assoc. constructor. apply IH. eauto.
Qed.

Lemma matches_star l : matches [AnyBytes] l.
Proof. rewrite <-(app_nil_r l). constructor. constructor. Qed.

Lemma matches_byte t l : t <> AnyBytes -> matches [t] l <-> exists b, l = [b] /\ takes_byte t b.
Proof.
  intros Ht. split.
  - inversion 1 as [|t' ts b l' Hb H'|]; subst; [|done]. apply matches_nil in H' as ->. eauto.
  - intros (b & -> & Hb). constructor; [done|constructor].
Qed.

(** Reading a token list backwards matches the text backwards. *)
Lemma matches_reverse ts l : matches (reverse ts) (reverse l) <-> matches ts l.
Proof.
  assert (forall ts l, matches ts l -> matches (reverse ts) (reverse l)) as H.
  { clear. induction 1 as [|t ts b l Hb H IH|ts l1 l2 H IH]; [constructor| |].
    - rewrite !reverse_cons. apply matches_app. exists (reverse l), [b]. split_and!; [done|done|]. constructor; [done|constructor].
    - rewrite reverse_cons, reverse_app. apply matches_app. exists (reverse l2), (reverse l1). split_and!; [done|done|apply matches_star]. }
  split; [|apply H]. intros Hr%H. by rewrite !reverse_involutive in Hr.
Qed.

(** What the first [i] tokens match. *)
Definition upto (tokens : list Token) (i : nat) (l : bytes) : Prop := matches (take i tokens) l.

Lemma upto_0 tokens l : upto tokens 0 l <-> l = [].
Proof. unfold upto. rewrite take_0. apply matches_nil. Qed.

Lemma upto_star_nil tokens i : tokens !! i = Some AnyBytes -> upto tokens (S i) [] <-> upto tokens i [].
Proof.
  intros Hi. unfold upto. rewrite (take_S_r _ _ _ Hi), matches_app. split.
  - intros (l1 & l2 & H & H1 & _). symmetry in H. apply app_eq_nil in H as [-> _]. done.
  - intros H. exists [], []. split_and!; [done|done|apply matches_star].
Qed.

Lemma upto_star tokens i l b : tokens !! i = Some AnyBytes ->
  upto tokens (S i) (l ++ [b]) <-> upto tokens i (l ++ [b]) \/ upto tokens (S i) l.
Proof.
  intros Hi. unfold upto. rewrite (take_S_r _ _ _ Hi), !matches_app. split.
  - intros (l1 & l2 & H & H1 & _). destruct l2 as [|x l2 _] using rev_ind; [rewrite app_nil_r in H; left; by rewrite H|].
    rewrite app_assoc in H. apply app_inj_tail in H as [-> _]. right. exists l1, l2. split_and!; [done|done|apply matches_star].
  - intros [H|(l1 & l2 & -> & H & _)].
    + exists (l ++ [b]), []. rewrite app_nil_r. split_and!; [done|done|apply matches_star].
    + exists l1, (l2 ++ [b]). split_and!; [by rewrite app_assoc|done|apply matches_star].
Qed.

Lemma upto_byte tokens i t l b : tokens !! i = Some t -> t <> AnyBytes ->
  upto tokens (S i) (l ++ [b]) <-> upto tokens i l /\ takes_byte t b.
Proof.
  intros Hi Ht. unfold upto. rewrite (take_S_r _ _ _ Hi), matches_app. split.
  - intros (l1 & l2 & H & H1 & (x & -> & Hx)%matches_byte); [|done]. by apply app_inj_tail in H as [-> ->].
  - intros [H Hb]. exists l, [b]. split_and!; [done|done|]. apply matches_byte; eauto.
Qed.

Lemma upto_byte_nil tokens i t : tokens !! i = Some t -> t <> AnyBytes -> ~ upto tokens (S i) [].
Proof.
  intros Hi Ht. unfold upto. rewrite (take_S_r _ _ _ Hi), matches_app.
  intros (l1 & l2 & H & _ & (x & -> & _)%matches_byte); [|done]. by destruct l1.
Qed.

(** * The row of states *)

Definition on (states : list bool) (i : nat) : Prop := states !! i = Some true.

Lemma on_insert states i j : (j < length states)%nat -> on (<[j := true]> states) i <-> i = j \/ on states i.
Proof.
  intros Hj. unfold on. destruct (decide (i = j)) as [->|Hne].
  - rewrite list_lookup_insert_eq by done. naive_solver.
  - rewrite list_lookup_insert_ne by done. naive_solver.
Qed.

Lemma length_close_stars states k ts : length (close_stars states k ts) = length states.
Proof. revert states k. induction ts as [|t ts IH]; intros states k; [done|]. cbn [close_stars]. rewrite IH. case_match; [apply length_insert|done]. Qed.

Lemma close_stars_on states k ts i : (k + length ts < length states)%nat ->
  on (close_stars states k ts) i <->
  on states i \/ exists m, i = S m /\ (k <= m)%nat /\ ts !! (m - k)%nat = Some AnyBytes /\ on (close_stars states k ts) m.
Proof.
  revert states k i. induction ts as [|t ts IH]; intros states k i Hlen; cbn [close_stars length] in *.
  { split; [auto|]. intros [?|(m & _ & _ & Hm & _)]; [done|]. by rewrite lookup_nil in Hm. }
  set (states' := if _ && _ then _ else states).
  assert (length states' = length states) as Hl by (unfold states'; case_match; [apply length_insert|done]).
  assert (forall j, on states' j <-> on states j \/ j = S k /\ on states k /\ t = AnyBytes) as Hs'.
  { intros j. unfold states'. destruct (bool_decide_reflect (states !! k = Some true)), (bool_decide_reflect (t = AnyBytes));
      cbn [andb]; rewrite ?on_insert by lia; unfold on; naive_solver. }
  assert (on (close_stars states' (S k) ts) k <-> on states k) as Hk.
  { rewrite IH by lia. rewrite Hs'. split; [|auto]. intros [[?|[? _]]|(m & ? & ? & _)]; [done|lia|lia]. }
  rewrite IH, Hs' by lia. split.
  - intros [[?|(-> & Hon & ->)]|(m & -> & Hm & Hlk & Hon)]; [by left| |].
    + right. exists k. rewrite Nat.sub_diag. split_and!; [done|done|done|by apply Hk].
    + right. exists m. split_and!; [done|lia| |done]. by replace (m - k)%nat with (S (m - S k)) by lia.
  - intros [?|(m & -> & Hm & Hlk & Hon)]; [by left; left|].
    destruct (decide (m = k)) as [->|Hne].
    + rewrite Nat.sub_diag in Hlk. injection Hlk as ->. left. right. split_and!; [done|by apply Hk|done].
    + right. exists m. split_and!; [done|lia| |done]. by replace (m - k)%nat with (S (m - S k)) in Hlk by lia.
Qed.

Lemma length_next_states states next k ts b : length (next_states states next k ts b) = length next.
Proof.
  revert next k. induction ts as [|t ts IH]; intros next k; [done|]. cbn [next_states]. rewrite IH.
  destruct t; repeat case_match; rewrite ?length_insert; done.
Qed.

Lemma next_states_on states next k ts b i : (k + length ts < length next)%nat ->
  on (next_states states next k ts b) i <->
  on next i \/ exists m t, (k <= m)%nat /\ ts !! (m - k)%nat = Some t /\ on states m /\
    (i = m /\ t = AnyBytes \/ i = S m /\ takes_byte t b).
Proof.
  revert next k. induction ts as [|t ts IH]; intros next k Hlen; cbn [next_states length] in *.
  { split; [auto|]. intros [?|(m & t & _ & Hm & _)]; [done|]. by rewrite lookup_nil in Hm. }
  set (next' := if negb _ then next else _).
  assert (length next' = length next) as Hl.
  { unfold next'. case_match; [done|]. destruct t; repeat case_match; by rewrite ?length_insert. }
  assert (forall j, on next' j <-> on next j \/ on states k /\ (j = k /\ t = AnyBytes \/ j = S k /\ takes_byte t b)) as Hn.
  { intros j. unfold next'. destruct (bool_decide_reflect (states !! k = Some true)) as [Hon|Hoff]; cbn [negb].
    2: { unfold on in *. naive_solver. }
    destruct t as [e| | |c]; cbn [takes_byte].
    - destruct (Z.eqb_spec e b); rewrite ?on_insert by lia; unfold on; naive_solver.
    - rewrite on_insert by lia. unfold on. naive_solver.
    - rewrite on_insert by lia. unfold on. naive_solver.
    - destruct (class_matches c b); rewrite ?on_insert by lia; unfold on; naive_solver. }
  rewrite IH, Hn by lia. split.
  - intros [[?|[Hon Ht]]|(m & t' & Hm & Hlk & Hr)]; [by left| |].
    + right. exists k, t. rewrite Nat.sub_diag. split_and!; done.
    + right. exists m, t'. split_and!; [lia| |apply Hr|apply Hr]. by replace (m - k)%nat with (S (m - S k)) by lia.
  - intros [?|(m & t' & Hm & Hlk & Hr)]; [by left; left|].
    destruct (decide (m = k)) as [->|Hne].
    + rewrite Nat.sub_diag in Hlk. injection Hlk as ->. by left; right.
    + right. exists m, t'. split_and!; [lia| |apply Hr|apply Hr]. by replace (m - k)%nat with (S (m - S k)) in Hlk by lia.
Qed.

(** State [i] is on when the first [i] tokens match what was read, a star
    waiting at [i] counted in. *)
Definition reach (tokens : list Token) (i : nat) (l : bytes) : Prop :=
  match tokens !! i with Some AnyBytes => upto tokens (S i) l | _ => upto tokens i l end.

Definition row (tokens : list Token) (states : list bool) (l : bytes) : Prop :=
  length states = S (length tokens) /\ forall i, (i <= length tokens)%nat -> on states i <-> reach tokens i l.

Lemma off_replicate n i : ~ on (replicate n false) i.
Proof. unfold on. intros [H _]%lookup_replicate. done. Qed.

Lemma reach_nil tokens i : reach tokens i [] <-> upto tokens i [].
Proof. unfold reach. destruct (tokens !! i) as [[]|] eqn:Hi; try done. by apply upto_star_nil. Qed.

Lemma upto_S_nil tokens i : (i < length tokens)%nat ->
  upto tokens (S i) [] <-> tokens !! i = Some AnyBytes /\ upto tokens i [].
Proof.
  intros [t Hi]%lookup_lt_is_Some. rewrite Hi. destruct (decide (t = AnyBytes)) as [->|Ht].
  - rewrite upto_star_nil by done. naive_solver.
  - pose proof (upto_byte_nil _ _ _ Hi Ht). naive_solver.
Qed.

Lemma row_initial tokens : row tokens (close_stars (<[0%nat := true]> (replicate (S (length tokens)) false)) 0 tokens) [].
Proof.
  split; [by rewrite length_close_stars, length_insert, length_replicate|].
  induction i as [|i IH]; intros Hi; rewrite close_stars_on, on_insert by (rewrite ?length_insert, length_replicate; lia); rewrite reach_nil.
  - rewrite upto_0. naive_solver.
  - rewrite upto_S_nil by lia. specialize (IH ltac:(lia)). rewrite reach_nil in IH.
    assert (~ on (replicate (S (length tokens)) false) (S i)) by apply off_replicate. split.
    + intros [[?|?]|(m & [= <-] & _ & Hlk & Hon)]; [done|done|]. rewrite Nat.sub_0_r in Hlk. split; [done|by apply IH].
    + intros [Hlk Hup]. right. exists i. rewrite Nat.sub_0_r. split_and!; [done|lia|done|by apply IH].
Qed.

(** One byte: a state is on when it waits at a star, when the token before
    it takes the byte, or when a star before it is passed over. *)
Lemma reach_step tokens i l b : (i <= length tokens)%nat ->
  reach tokens i (l ++ [b]) <->
  (tokens !! i = Some AnyBytes /\ reach tokens i l) \/
  exists m t, i = S m /\ tokens !! m = Some t /\ (takes_byte t b /\ reach tokens m l \/ t = AnyBytes /\ reach tokens m (l ++ [b])).
Proof.
  intros Hi.
  assert (upto tokens i (l ++ [b]) <-> exists m t, i = S m /\ tokens !! m = Some t /\
    (takes_byte t b /\ reach tokens m l \/ t = AnyBytes /\ reach tokens m (l ++ [b]))) as Hup.
  { destruct i as [|m].
    - rewrite upto_0. split; [by destruct l|by intros (? & ? & ? & _)].
    - destruct (lookup_lt_is_Some_2 tokens m Hi) as [t Hm]. unfold reach. destruct (decide (t = AnyBytes)) as [->|Ht].
      + split; [|intros (? & ? & [= <-] & ? & H); simplify_eq/=; by rewrite Hm in H; naive_solver].
        intros H. exists m, AnyBytes. rewrite Hm. naive_solver.
      + rewrite upto_byte by done. split.
        * intros [H1 H2]. exists m, t. rewrite Hm. split_and!; [done|done|]. left. split; [done|]. by destruct t.
        * intros (? & ? & [= <-] & ? & H). simplify_eq. rewrite Hm in H. destruct H as [[H1 H2]|[? _]]; [|done]. split; [by destruct t|done]. }
  rewrite <-Hup. unfold reach at 1 2. destruct (tokens !! i) as [[]|] eqn:Hlk; try naive_solver.
  rewrite upto_star by done. naive_solver.
Qed.

Lemma row_step tokens states l b : row tokens states l ->
  row tokens (close_stars (next_states states (replicate (S (length tokens)) false) 0 tokens b) 0 tokens) (l ++ [b]).
Proof.
  intros [Hl Hrow]. assert (0 + length tokens < length (replicate (S (length tokens)) false))%nat by (rewrite length_replicate; lia).
  split; [by rewrite length_close_stars, length_next_states, length_replicate|].
  induction i as [|i IH]; intros Hi; rewrite close_stars_on, next_states_on by (rewrite ?length_next_states; done); rewrite reach_step by done.
  - assert (~ on (replicate (S (length tokens)) false) 0) by apply off_replicate. split.
    + intros [[?|(m & t & _ & Hlk & Hon & [[<- ->]|[? _]])]|(m & ? & _)]; [done| |lia|lia].
      rewrite Nat.sub_0_r in Hlk. left. split; [done|]. apply Hrow; [lia|done].
    + intros [[Hlk Hr]|(m & t & ? & _)]; [|lia]. left. right. exists 0%nat, AnyBytes. split_and!; [lia|done|apply Hrow; [lia|done]|by left].
  - assert (~ on (replicate (S (length tokens)) false) (S i)) by apply off_replicate. specialize (IH ltac:(lia)). split.
    + intros [[?|(m & t & _ & Hlk & Hon & [[<- ->]|[[= <-] Hb]])]|(m & [= <-] & _ & Hlk & Hon)]; [done| | |]; rewrite Nat.sub_0_r in Hlk.
      * left. split; [done|]. apply Hrow; [lia|done].
      * right. exists i, t. split_and!; [done|done|]. left. split; [done|]. apply Hrow; [lia|done].
      * right. exists i, AnyBytes. split_and!; [done|done|]. right. split; [done|]. by apply IH.
    + intros [[Hlk Hr]|(m & t & [= <-] & Hlk & [[Hb Hr]|[-> Hr]])].
      * left. right. exists (S i), AnyBytes. rewrite Nat.sub_0_r. split_and!; [lia|done|apply Hrow; [lia|done]|by left].
      * left. right. exists i, t. rewrite Nat.sub_0_r. split_and!; [lia|done|apply Hrow; [lia|done]|by right].
      * right. exists i. rewrite Nat.sub_0_r. split_and!; [done|lia|done|by apply IH].
Qed.

Lemma row_final tokens states l : row tokens states l -> final_state states tokens = true <-> matches tokens l.
Proof.
  intros [_ H]. unfold final_state. rewrite bool_decide_eq_true. fold (on states (length tokens)). rewrite H by done.
  unfold reach, upto. by rewrite lookup_ge_None_2, take_ge by lia.
Qed.

(** [n] is the end of a match that starts the input. *)
Definition ends (tokens : list Token) (l : bytes) (n : nat) : Prop := (n <= length l)%nat /\ matches tokens (take n l).

Definition endpoint_ok (selection : Selection) (tokens : list Token) (l : bytes) (r : option nat) : Prop :=
  match r with
  | Some n => ends tokens l n /\ forall k, ends tokens l k -> match selection with Shortest => (n <= k)%nat | Longest => (k <= n)%nat end
  | None => forall k, ~ ends tokens l k
  end.

Lemma ends_snoc tokens l b k : ends tokens (l ++ [b]) k <-> ends tokens l k \/ k = S (length l) /\ matches tokens (l ++ [b]).
Proof.
  unfold ends. rewrite length_app. cbn [length]. destruct (decide (k = S (length l))) as [->|Hk].
  - rewrite take_ge by (rewrite length_app; simpl; lia). naive_solver lia.
  - split.
    + intros [H1 H2]. rewrite take_app_le in H2 by lia. left. split; [lia|done].
    + intros [[H1 H2]|[? _]]; [|done]. rewrite take_app_le by lia. split; [lia|done].
Qed.

Lemma ends_app tokens l k rest : ends tokens l k -> ends tokens (l ++ rest) k.
Proof. intros [H1 H2]. split; [rewrite length_app; lia|]. by rewrite take_app_le. Qed.

Lemma endpoint_loop_spec rest l tokens selection states matched :
  row tokens states l -> endpoint_ok selection tokens l matched -> (selection = Shortest -> matched = None) ->
  endpoint_ok selection tokens (l ++ rest) (endpoint_loop rest (length l) tokens selection states matched).
Proof.
  revert l states matched. induction rest as [|b rest IH]; intros l states matched Hrow Hok Hsh; [by rewrite app_nil_r|].
  cbn [endpoint_loop]. apply (row_step _ _ _ b) in Hrow. set (next := close_stars _ _ _) in *.
  pose proof (row_final _ _ _ Hrow) as Hfin. rewrite (snoc_app l b rest).
  assert (S (length l) = length (l ++ [b])) as Hlen by (rewrite length_app; simpl; lia). rewrite Hlen.
  destruct (final_state next tokens).
  - assert (ends tokens (l ++ [b]) (length (l ++ [b]))) as He by (split; [done|rewrite take_ge by done; by apply Hfin]).
    destruct (bool_decide_reflect (selection = Shortest)) as [->|Hsel].
    + split; [by apply ends_app|]. rewrite Hsh in Hok by done. intros k [Hk1 Hk2].
      destruct (decide (length (l ++ [b]) <= k)%nat) as [?|Hlt]; [done|]. exfalso. apply (Hok k). split; [lia|].
      rewrite <-app_assoc, take_app_le in Hk2 by lia. done.
    + apply IH; [done| |done]. split; [done|]. intros k Hk. destruct selection; [done|]. apply Hk.
  - apply IH; [done| |done].
    assert (forall k, ends tokens (l ++ [b]) k <-> ends tokens l k) as He by (intros k; rewrite ends_snoc; naive_solver).
    destruct matched as [n|]; cbn [endpoint_ok] in *; setoid_rewrite He; done.
Qed.

Lemma endpoint_unchecked_spec input tokens selection :
  endpoint_ok selection tokens input (matching_endpoint_unchecked input tokens selection).
Proof.
  unfold matching_endpoint_unchecked. pose proof (row_initial tokens) as Hrow. set (states := close_stars _ _ _) in *.
  pose proof (row_final _ _ _ Hrow) as Hfin.
  assert (forall k, ends tokens [] k -> k = 0%nat /\ matches tokens []) as Hnil.
  { intros k [Hk H]. simpl in Hk. replace k with 0%nat in * by lia. by rewrite take_0 in H. }
  destruct (final_state states tokens).
  - assert (ends tokens [] 0) as He by (split; [done|by apply Hfin]).
    rewrite (bool_decide_true (is_Some _)) by done. cbn [andb]. destruct (bool_decide_reflect (selection = Shortest)) as [->|Hsel].
    + split; [apply (ends_app _ []); done|lia].
    + apply (endpoint_loop_spec input [] tokens selection states (Some 0%nat) Hrow); [|by intros ->].
      split; [done|]. intros k [-> _]%Hnil. by destruct selection.
  - rewrite (bool_decide_false (is_Some _)) by (by intros [? ?]). cbn [andb].
    apply (endpoint_loop_spec input [] tokens selection states None Hrow); [|done]. intros k [_ H]%Hnil. naive_solver.
Qed.

(** * Steps *)

Definition token_cost (token : Token) : Z := match token with T_Class class => Z.max (len (ranges class)) 1 | _ => 1 end.
Definition pattern_cost (tokens : list Token) : Z := foldr (fun token total => token_cost token + total) 0 tokens.

(** The steps a scan may take: for every start and every byte, one transition
    per token and per range of a class. *)
Definition scan_steps (candidates input_len : nat) (tokens : list Token) : Z :=
  Z.of_nat candidates * (Z.of_nat input_len + 1) * Z.max (pattern_cost tokens) 1.

Section bounds.
Context {T : Target}.

Lemma saturating_fold tokens a : 0 <= a ->
  foldl (fun total token => saturating_add total (token_cost token)) (Z.min a usize_max) tokens = Z.min (a + pattern_cost tokens) usize_max.
Proof.
  revert a. induction tokens as [|t ts IH]; intros a Ha; cbn [foldl pattern_cost foldr]; [f_equal; lia|].
  assert (0 < token_cost t) by (unfold token_cost; destruct t; lia).
  replace (saturating_add (Z.min a usize_max) (token_cost t)) with (Z.min (a + token_cost t) usize_max) by (unfold saturating_add; lia).
  rewrite IH by lia. unfold pattern_cost. f_equal. lia.
Qed.

Lemma check_steps_spec candidates input_len tokens :
  match check_steps candidates input_len tokens with
  | Ok _ => scan_steps candidates input_len tokens <= MAX_PATTERN_STEPS
  | Err (TooComplex attempted) => MAX_PATTERN_STEPS < attempted <= scan_steps candidates input_len tokens
  end.
Proof.
  unfold check_steps. pose proof usize_max_lower as HU.
  change (fun total token => saturating_add total (match token with T_Class class => Z.max (len (ranges class)) 1 | _ => 1 end))
    with (fun total token => saturating_add total (token_cost token)).
  pose proof (saturating_fold tokens 0 ltac:(lia)) as Hf. rewrite Z.min_l, Z.add_0_l in Hf by lia. rewrite Hf. clear Hf.
  assert (0 <= pattern_cost tokens) as Hp.
  { unfold pattern_cost. induction tokens as [|t ts IH]; simpl; [lia|]. unfold token_cost at 1. destruct t; lia. }
  unfold scan_steps, saturating_add, checked_mul, MAX_PATTERN_STEPS. set (cost := pattern_cost tokens) in *.
  set (c := Z.of_nat candidates). assert (0 <= c) by (unfold c; lia). set (n := Z.of_nat input_len). assert (0 <= n) by (unfold n; lia).
  set (k := Z.max (Z.min cost usize_max) 1). set (n1 := Z.min (n + 1) usize_max).
  assert (1 <= k <= Z.max cost 1 /\ (k = Z.max cost 1 \/ k = usize_max)) as [Hk1 Hk2] by lia.
  assert (1 <= n1 <= n + 1 /\ (n1 = n + 1 \/ n1 = usize_max)) as [Hn1 Hn2] by lia. clearbody k n1 cost c n.
  assert (c * n1 <= c * (n + 1)) by nia. assert (c * n1 * k <= c * (n + 1) * Z.max cost 1) by nia.
  destruct (Z.leb_spec (c * n1) usize_max); cbn [mbind option_bind].
  - destruct (Z.leb_spec (c * n1 * k) usize_max).
    + destruct (Z.ltb_spec (16 * 1024 * 1024) (c * n1 * k)); [lia|].
      destruct (decide (c = 0)) as [->|]; [lia|]. assert (n1 <= c * n1) by nia. assert (c * n1 <= c * n1 * k) by nia. assert (k <= c * n1 * k) by nia.
      destruct Hk2 as [->|?]; [|lia]. destruct Hn2 as [->|?]; [|lia]. lia.
    + lia.
  - assert (c * n1 <= c * n1 * k) by nia. lia.
Qed.
End bounds.

(** * Properties *)

(** C37: The row of states finds what the pattern says: with [Shortest] the
    least and with [Longest] the greatest length of a prefix of the input that
    the tokens match, and nothing when no prefix matches. *)
Theorem matching_endpoint_exact input tokens selection :
  endpoint_ok selection tokens input (matching_endpoint_unchecked input tokens selection).
Proof. apply endpoint_unchecked_spec. Qed.

(** [n] bytes at the edge are a match. *)
Definition removable (edge : Edge) (pattern value : bytes) (n : nat) : Prop :=
  (n <= length value)%nat /\
  matches (tokenize pattern) (match edge with Prefix => take n value | Suffix => drop (length value - n) value end).

Definition kept (edge : Edge) (value : bytes) (n : nat) : bytes :=
  match edge with Prefix => drop n value | Suffix => take (length value - n) value end.

Lemma removable_ends edge pattern value n :
  removable edge pattern value n <->
  ends (match edge with Suffix => reverse (tokenize pattern) | Prefix => tokenize pattern end)
       (match edge with Suffix => reverse value | Prefix => value end) n.
Proof.
  unfold removable, ends. destruct edge; [done|]. rewrite length_reverse.
  assert (n <= length value -> take n (reverse value) = reverse (drop (length value - n) value))%nat as H.
  { intros _. by rewrite take_reverse. }
  split; intros [Hn Hm]; (split; [done|]).
  - rewrite H by done. by apply matches_reverse.
  - rewrite H in Hm by done. by apply matches_reverse.
Qed.

(** Removing a pattern from an edge of a value.  What is left is the value
    less the shortest or the longest piece at that edge that the pattern
    matches, the value itself when there is none; and the removal is refused
    exactly when it may take more than [MAX_PATTERN_STEPS] steps. *)
Theorem remove_exact {T : Target} value pattern edge selection :
  match remove value pattern edge selection with
  | Ok out =>
      scan_steps 1 (length value) (tokenize pattern) <= MAX_PATTERN_STEPS /\
      ((exists n, out = kept edge value n /\ removable edge pattern value n /\
          forall k, removable edge pattern value k -> match selection with Shortest => (n <= k)%nat | Longest => (k <= n)%nat end) \/
       out = value /\ forall k, ~ removable edge pattern value k)
  | Err (TooComplex attempted) => MAX_PATTERN_STEPS < attempted <= scan_steps 1 (length value) (tokenize pattern)
  end.
Proof.
  unfold remove, matching_endpoint. set (tokens := match edge with Suffix => reverse (tokenize pattern) | Prefix => tokenize pattern end).
  set (input := match edge with Suffix => reverse value | Prefix => value end).
  replace (if match edge with Suffix => true | Prefix => false end then reverse (tokenize pattern) else tokenize pattern) with tokens by by destruct edge.
  replace (if match edge with Suffix => true | Prefix => false end then reverse value else value) with input by by destruct edge.
  assert (pattern_cost tokens = pattern_cost (tokenize pattern)) as Hcost.
  { unfold tokens. destruct edge; [done|]. unfold pattern_cost. generalize (tokenize pattern). intros l.
    induction l as [|t l IH]; [done|]. rewrite reverse_cons, foldr_snoc. cbn [foldr]. rewrite <-IH.
    clear IH. generalize (reverse l). intros k. rewrite Z.add_0_r. generalize (token_cost t) as z. intros z.
    induction k as [|x k IHk]; cbn [foldr]; [lia|]. rewrite IHk. lia. }
  pose proof (check_steps_spec 1 (length value) tokens) as Hs. unfold scan_steps in *. rewrite Hcost in Hs.
  destruct (check_steps 1 (length value) tokens) as [[]|[attempted]]; cbn [mbind result_bind]; [|done].
  split; [done|]. pose proof (endpoint_unchecked_spec input tokens selection) as Hok. unfold endpoint_ok in Hok.
  setoid_rewrite removable_ends. fold tokens input.
  destruct (matching_endpoint_unchecked input tokens selection) as [n|].
  - left. exists n. split; [by destruct edge|done].
  - right. split; [by destruct edge|done].
Qed.

(** Changing the case of matching bytes, of all of them or of the first.
    Each byte in question is transformed exactly when the pattern, or [?] for
    an empty one, matches it on its own; every other byte stays. *)
Theorem transform_exact {T : Target} value pattern all transform out :
  transform_matching_bytes value pattern all transform = Ok out ->
  length out = length value /\
  forall i b, value !! i = Some b ->
    let hit := (all = true \/ i = 0%nat) /\ matches (tokenize (if bool_decide (pattern = []) then B "?" else pattern)) [b] in
    (hit -> out !! i = Some (transform b)) /\ (~ hit -> out !! i = Some b).
Proof.
  unfold transform_matching_bytes. set (tokens := tokenize _). destruct (check_steps _ _ _) as [[]|e]; [|done]. cbn [mbind result_bind].
  set (step := fun b => _). intros [= <-].
  assert (forall b, (matches tokens [b] -> step b = transform b) /\ (~ matches tokens [b] -> step b = b)) as Hstep.
  { intros b. unfold step. pose proof (endpoint_unchecked_spec [b] tokens Longest) as Hok.
    destruct (matching_endpoint_unchecked [b] tokens Longest) as [n|]; cbn [endpoint_ok] in Hok.
    - destruct Hok as [[Hn Hm] Hmax]. simpl in Hn. destruct n as [|[|n]]; [| |lia].
      + split; [|done]. intros H. assert (ends tokens [b] 1) as H1%Hmax by done. lia.
      + split; [done|]. by intros [].
    - split; [|done]. intros H. destruct (Hok 1%nat). done. }
  destruct all.
  - split; [apply length_fmap|]. intros i b Hb. rewrite list_lookup_fmap, Hb. cbn [fmap option_fmap option_map]. specialize (Hstep b). split.
    + intros [_ H]. f_equal. by apply Hstep.
    + intros H. f_equal. apply Hstep. intros Hm. apply H. auto.
  - destruct value as [|x value]; [done|]. split; [done|]. intros [|i] b Hb; cbn [lookup list_lookup] in *.
    + injection Hb as ->. specialize (Hstep b). split.
      * intros [_ H]. f_equal. by apply Hstep.
      * intros H. f_equal. apply Hstep. intros Hm. apply H. auto.
    + split; [by intros [[?|?] _]|done].
Qed.

Lemma transform_exact_witness :
  exists out, transform_matching_bytes (T := target64) (B "box") (B "[ab]") true to_ascii_uppercase = Ok out /\ out !! 0%nat = Some c_B.
Proof.
  destruct (transform_matching_bytes (T := target64) (B "box") (B "[ab]") true to_ascii_uppercase) as [out|e] eqn:H; [|vm_compute in H; discriminate].
  exists out. split; [reflexivity|].
  apply (proj2 (transform_exact (T := target64) (B "box") (B "[ab]") true to_ascii_uppercase out H) 0%nat 98 eq_refl).
  split; [right; reflexivity|]. vm_compute. constructor; [reflexivity|constructor].
Defined.
