(* ===== verification/ShellEval.v ===== *)
(** Shell expressions: [src/src/config/shell_eval.rs].  One evaluator serves
    every context of the program; what a context may do is its interface.  The
    evaluator threads the context and the assignments staged by the expression,
    and is proved to compute a reference semantics over plain environments. *)
From S2P Require Import Prelude Config Numbers Limits ShellPattern.
From stdpp Require Import pretty gmap.
#[local] Open Scope Z_scope.

(** Source: config/shell_eval.rs `pub(crate) enum EvaluationDepth` *)
Inductive EvaluationDepth := ED_None | ExpansionChain | SyntaxNesting.
(** Source: config/shell_eval.rs `pub(crate) enum UnsupportedPart` *)
Inductive UnsupportedPart := UP_Command | UP_RegexQuotedVariable.
(** Source: config/shell_eval.rs `pub(crate) struct VariableValue` *)
Record VariableValue := { vv_bytes : bytes; vv_depth : nat }.
(** Source: config/shell_eval.rs `pub(crate) struct EvaluationResult` *)
Record EvaluationResult := { er_bytes : bytes; er_depth : nat; er_assignments : list (bytes * bytes) }.

#[export] Instance EvaluationDepth_eq_dec : EqDecision EvaluationDepth.
Proof. solve_decision. Defined.

(** What a context offers: its state [C] and its errors [E].
    Source: config/shell_eval.rs `pub(crate) trait EvaluationContext` *)
Class EvaluationContext (C E : Type) := {
  depth_mode : C -> EvaluationDepth;
  variable : C -> bytes -> result E (option VariableValue) * C;
  command : C -> bytes -> Z -> result E bytes * C;
  regex_quoted : C -> bytes -> Z -> result E bytes * C;
  missing_variable : C -> bytes -> E;
  required_parameter : C -> bytes -> E;
  pattern_error : C -> PatternError -> E;
  unsupported_part : C -> UnsupportedPart -> E;
  depth_exceeded : C -> E;
  depth_overflow : C -> E;
  length_error : C -> BoundedBytesError -> nat -> Z -> E;
}.

(** Source: config/shell_eval.rs `fn removal_operation` *)
Definition removal_operation (operation : ParameterOperation) : option (ShellExpression * Edge * Selection) :=
  match operation with
  | RemovePrefix pattern longest => Some (pattern, Prefix, if longest then Longest else Shortest)
  | RemoveSuffix pattern longest => Some (pattern, Suffix, if longest then Longest else Shortest)
  | _ => None
  end.

Definition find_assignment (assignments : list (bytes * bytes)) (name : bytes) : option bytes :=
  snd <$> List.find (fun '(assigned, _) => bytes_eqb assigned name) assignments.

(** The update of the first entry with the name, or a new entry. *)
Fixpoint stage (assignments : list (bytes * bytes)) (name value : bytes) : list (bytes * bytes) :=
  match assignments with
  | [] => [(name, value)]
  | (assigned, old) :: rest =>
      if bytes_eqb assigned name then (assigned, value) :: rest else (assigned, old) :: stage rest name value
  end.

(** * The evaluator *)

Section evaluator.
Context {T : Target} {C E : Type} `{EvaluationContext C E}.

(** Computations over the context and the staged assignments. *)
Definition Eval (A : Type) : Type := C * list (bytes * bytes) -> result E A * (C * list (bytes * bytes)).
#[local] Instance eval_ret : MRet Eval := fun A a s => (Ok a, s).
#[local] Instance eval_bind : MBind Eval := fun A B f m s =>
  let '(r, s') := m s in match r with Ok a => f a s' | Err e => (Err e, s') end.

Definition fail {A} (f : C -> E) : Eval A := fun s => (Err (f s.1), s).
Definition lift {A} (r : result E A) : Eval A := fun s => (r, s).
Definition from_context {A} (f : C -> result E A * C) : Eval A := fun s => let '(r, c) := f s.1 in (r, (c, s.2)).
Definition pure {A} (a : A) : Eval A := mret a.

(** Source: config/shell_eval.rs `fn append<C` *)
Definition append_bytes (output : BoundedBytes) (value : bytes) (limit : Z) : Eval BoundedBytes := fun s =>
  (map_err (fun error => length_error s.1 error (bb_len output) limit) (try_extend output value), s).

(** Source: config/shell_eval.rs `fn remaining<C` *)
Definition remaining (output : BoundedBytes) (limit : Z) : Eval Z := fun s =>
  (map_err (fun error => length_error s.1 error (bb_len output) limit) (bb_remaining output), s).

(** The loop of [quote_pattern_bytes] with its accumulator.
    Source: config/shell_eval.rs `fn quote_pattern_bytes` *)
Fixpoint quote_loop (l : bytes) (quoted : BoundedBytes) (limit : Z) : Eval BoundedBytes :=
  match l with
  | [] => mret quoted
  | byte_ :: l' =>
      quoted ← (if (byte_ =? c_STAR) || (byte_ =? c_QM) || (byte_ =? 91) || (byte_ =? 92)
                then append_bytes quoted [92] limit else mret quoted);
      quoted ← append_bytes quoted [byte_] limit;
      quote_loop l' quoted limit
  end.

(** Source: config/shell_eval.rs `fn quote_pattern_bytes` *)
Definition quote_pattern_bytes (l : bytes) (limit : Z) : Eval bytes :=
  quoted ← quote_loop l (with_capacity limit) limit; mret (into_vec quoted).

(** Source: config/shell_eval.rs `fn change_case` *)
Definition change_case (value pattern : bytes) (direction : CaseDirection) (all : bool) : Eval bytes := fun s =>
  (map_err (fun error => pattern_error s.1 error)
     (transform_matching_bytes value pattern all
        (match direction with Upper => to_ascii_uppercase | Lower => to_ascii_lowercase end)), s).

(** Source: config/shell_eval.rs `fn selected_depth` *)
Definition selected_depth (mode : EvaluationDepth) (value_depth nesting : nat) (used_word empty_value : bool) : Eval nat := fun s =>
  (depth ← match mode with
           | ED_None => Ok 0%nat
           | ExpansionChain => ok_or (depth_overflow s.1) (checked_add value_depth 1)
           | SyntaxNesting =>
               if used_word then Ok value_depth
               else if empty_value then Ok nesting
               else ok_or (depth_overflow s.1) (checked_add nesting 1)
           end;
   if (MAX_EXPANSION_DEPTH <? depth)%nat then Err (depth_exceeded s.1) else Ok depth, s).

Section body.
(** The recursive call on a nested expression. *)
Context (evaluate_nested : ShellExpression -> Z -> nat -> Eval EvaluationResult).

(** Source: config/shell_eval.rs `fn evaluate_word` *)
Definition evaluate_word (word : ShellExpression) (output : BoundedBytes) (limit : Z) (nesting : nat) : Eval VariableValue :=
  rest ← remaining output limit;
  nested ← (fun s => (ok_or (depth_overflow s.1) (checked_add nesting 1), s));
  value ← evaluate_nested word rest nested;
  mret {| vv_bytes := er_bytes value; vv_depth := er_depth value |}.

(** The value of a variable, with what the expression assigned to it last. *)
Definition lookup_variable (name : bytes) : Eval (option VariableValue) := fun s =>
  match find_assignment (reverse s.2) name with
  | Some b => (Ok (Some {| vv_bytes := b; vv_depth := 0 |}), s)
  | None => from_context (fun c => variable c name) s
  end.

Definition require_value (found : option VariableValue) (name : bytes) : Eval VariableValue :=
  match found with Some value => mret value | None => fail (fun c => missing_variable c name) end.

Definition is_assignment (operation : ParameterOperation) : bool :=
  match operation with AssignIfUnsetOrEmpty _ => true | _ => false end.
Definition is_required (operation : ParameterOperation) : bool :=
  match operation with ErrorIfUnsetOrEmpty _ => true | _ => false end.

(** The arm of a variable, with the output so far and the depth so far.
    Source: config/shell_eval.rs:87-190 `evaluate_at (ShellPart::Variable arm)` *)
Definition evaluate_variable (name : bytes) (operation : ParameterOperation) (output : BoundedBytes) (result_depth : nat)
    (limit : Z) (nesting : nat) : Eval (BoundedBytes * nat) :=
  found ← lookup_variable name;
  let is_set := bool_decide (is_Some found) in
  let is_empty := match found with Some value => bool_decide (vv_bytes value = []) | None => false end in
  match operation with
  | Length_ =>
      value ← require_value found name;
      output ← append_bytes output (decimal (length (vv_bytes value))) limit;
      mret (output, Nat.max result_depth (vv_depth value))
  | ChangeCase pattern direction all =>
      value ← require_value found name;
      pattern ← evaluate_word pattern output limit nesting;
      transformed ← change_case (vv_bytes value) (vv_bytes pattern) direction all;
      output ← append_bytes output transformed limit;
      mret (output, Nat.max (Nat.max result_depth (vv_depth value)) (vv_depth pattern))
  | _ =>
      match removal_operation operation with
      | Some (pattern, edge, selection) =>
          value ← require_value found name;
          pattern ← evaluate_word pattern output limit nesting;
          selected ← (fun s => (map_err (fun error => pattern_error s.1 error)
                                  (ShellPattern.remove (vv_bytes value) (vv_bytes pattern) edge selection), s));
          output ← append_bytes output selected limit;
          mret (output, Nat.max (Nat.max result_depth (vv_depth value)) (vv_depth pattern))
      | None =>
          if is_required operation && (negb is_set || is_empty) then fail (fun c => required_parameter c name)
          else
            '(selected, used_word, empty_value) ←
              match selected_word operation is_set is_empty with
              | Some word => value ← evaluate_word word output limit nesting; mret (value, true, false)
              | None =>
                  if uses_value_when_word_is_not_selected operation then
                    value ← require_value found name;
                    mret (value, false, bool_decide (vv_bytes value = []))
                  else mret ({| vv_bytes := []; vv_depth := 0 |}, false, true)
              end;
            _ ← (if is_assignment operation && (negb is_set || is_empty)
                 then (fun s => (Ok tt, (s.1, stage s.2 name (vv_bytes selected)))) else mret tt : Eval unit);
            depth ← (fun s => selected_depth (depth_mode s.1) (vv_depth selected) nesting used_word empty_value s);
            output ← append_bytes output (vv_bytes selected) limit;
            mret (output, Nat.max result_depth depth)
      end
  end.

Definition evaluate_part (part : ShellPart) (output : BoundedBytes) (result_depth : nat) (limit : Z) (nesting : nat)
    : Eval (BoundedBytes * nat) :=
  match part with
  | Literal text => output ← append_bytes output text limit; mret (output, result_depth)
  | Variable_ name operation => evaluate_variable name operation output result_depth limit nesting
  | Command cmd =>
      rest ← remaining output limit;
      value ← from_context (fun c => command c cmd rest);
      output ← append_bytes output value limit; mret (output, result_depth)
  | RegexQuotedVariable name =>
      rest ← remaining output limit;
      value ← from_context (fun c => regex_quoted c name rest);
      output ← append_bytes output value limit; mret (output, result_depth)
  | PatternQuote expression =>
      rest ← remaining output limit;
      value ← evaluate_nested expression rest nesting;
      quoted ← quote_pattern_bytes (er_bytes value) rest;
      output ← append_bytes output quoted limit; mret (output, Nat.max result_depth (er_depth value))
  end.

Fixpoint evaluate_parts (parts : list ShellPart) (output : BoundedBytes) (result_depth : nat) (limit : Z) (nesting : nat)
    : Eval (BoundedBytes * nat) :=
  match parts with
  | [] => mret (output, result_depth)
  | part :: parts' =>
      '(output, result_depth) ← evaluate_part part output result_depth limit nesting;
      evaluate_parts parts' output result_depth limit nesting
  end.
End body.

(** The recursion goes to the words and quoted parts of an expression; the
    fuel is its depth.
    Source: config/shell_eval.rs `fn evaluate_at` *)
Fixpoint evaluate_at (fuel : nat) (expression : ShellExpression) (limit : Z) (nesting : nat) : Eval EvaluationResult :=
  match fuel with
  | O => fail (fun c => depth_exceeded c)
  | S fuel' =>
      if (MAX_EXPANSION_DEPTH <? nesting)%nat then fail (fun c => depth_exceeded c)
      else
        mode ← (fun s => (Ok (depth_mode s.1), s) : result E EvaluationDepth * _);
        '(output, depth) ← evaluate_parts (evaluate_at fuel') (parts expression) (with_capacity limit)
                             (match mode with SyntaxNesting => nesting | ED_None | ExpansionChain => 0%nat end) limit nesting;
        mret {| er_bytes := into_vec output; er_depth := depth; er_assignments := [] |}
  end.
End evaluator.

Fixpoint expression_depth (e : ShellExpression) : nat :=
  match e with MkShellExpression ps => S ((fix go (ps : list ShellPart) : nat :=
    match ps with [] => O | p :: ps' => Nat.max (part_depth p) (go ps') end) ps) end
with part_depth (p : ShellPart) : nat :=
  match p with
  | Literal _ | RegexQuotedVariable _ | Command _ => O
  | PatternQuote e => expression_depth e
  | Variable_ _ op => operation_depth op
  end
with operation_depth (op : ParameterOperation) : nat :=
  match op with
  | Value | Length_ => O
  | DefaultIfUnset w | DefaultIfUnsetOrEmpty w | AlternateIfSet w | AlternateIfSetAndNotEmpty w
  | AssignIfUnsetOrEmpty w | ErrorIfUnsetOrEmpty w => expression_depth w
  | RemovePrefix p _ | RemoveSuffix p _ | ChangeCase p _ _ => expression_depth p
  end.

(** Source: config/shell_eval.rs `pub(crate) fn evaluate<C` *)
Definition evaluate {T : Target} {C E} `{EvaluationContext C E} (expression : ShellExpression) (limit : Z) (context : C)
    : result E EvaluationResult * C :=
  let '(r, (context, assignments)) := evaluate_at (expression_depth expression) expression limit 0 (context, []) in
  ((fun r => {| er_bytes := er_bytes r; er_depth := er_depth r; er_assignments := assignments |}) <$> r, context).

(** * Contexts that only read *)

(** Source: config/expand.rs `pub struct ExpansionError` *)
Record ExpansionError := { ex_line : nat; ex_message : bytes }.


(** Source: config/expand.rs `fn expansion_depth_error` *)
Definition expansion_depth_error (line : nat) : ExpansionError :=
  {| ex_line := line; ex_message := B "variable expansion exceeds the hard depth limit of " ++ decimal MAX_EXPANSION_DEPTH |}.

(** Source: config/expand.rs `fn expansion_length_error` *)
Definition expansion_length_error (line : nat) (error : BoundedBytesError) (limit : Z) : ExpansionError :=
  match error with
  | LengthOverflow => {| ex_line := line; ex_message := B "expanded value length overflows" |}
  | BB_LimitExceeded _ => {| ex_line := line; ex_message := B "expanded value exceeds the hard limit of " ++ z_decimal limit ++ B " bytes" |}
  end.

(** Source: config/shell_pattern.rs `fn fmt(&self, formatter` *)
Definition pattern_error_text (error : PatternError) : bytes :=
  match error with
  | TooComplex attempted => B "shell pattern requires " ++ z_decimal attempted ++ B " steps, exceeding the hard limit of " ++ z_decimal MAX_PATTERN_STEPS
  end.

(** Source: config/expand.rs `struct RuntimeBytesEvaluation` *)
Record RuntimeBytesEvaluation := { rb_line : nat; rb_lookup : bytes -> option bytes }.

(** Source: config/expand.rs `impl<L> EvaluationContext for RuntimeBytesEvaluation` *)
#[export] Instance runtime_bytes_context : EvaluationContext RuntimeBytesEvaluation ExpansionError := {|
  depth_mode _ := ED_None;
  variable c name := (Ok ((fun b => {| vv_bytes := b; vv_depth := 0 |}) <$> rb_lookup c name), c);
  command c _ _ := (Err {| ex_line := rb_line c; ex_message := B "expression is not valid in this context" |}, c);
  regex_quoted c _ _ := (Err {| ex_line := rb_line c; ex_message := B "expression is not valid in this context" |}, c);
  missing_variable c name := {| ex_line := rb_line c; ex_message := B "variable " ++ name ++ B " is not defined" |};
  required_parameter c name := {| ex_line := rb_line c; ex_message := B "parameter " ++ name ++ B " is unset or empty" |};
  pattern_error c error := {| ex_line := rb_line c; ex_message := pattern_error_text error |};
  unsupported_part c _ := {| ex_line := rb_line c; ex_message := B "expression is not valid in this context" |};
  depth_exceeded c := expansion_depth_error (rb_line c);
  depth_overflow c := {| ex_line := rb_line c; ex_message := B "variable expansion depth overflows" |};
  length_error c error _ limit := expansion_length_error (rb_line c) error limit;
|}.

(** * Laws of the evaluator's computations *)

Section laws.
Context {T : Target} {C E : Type} `{EvaluationContext C E}.
#[local] Existing Instance eval_ret.
#[local] Existing Instance eval_bind.
Abbreviation Ev := (@Eval C E) (only parsing).
Abbreviation State := (C * list (bytes * bytes))%type (only parsing).

Lemma bind_Ok {A A'} (m : Ev A) (f : A -> Ev A') (s : State) b s2 :
  (m ≫= f) s = (Ok b, s2) <-> exists a s1, m s = (Ok a, s1) /\ f a s1 = (Ok b, s2).
Proof.
  unfold mbind, eval_bind. destruct (m s) as [[a|e] s1]; split; [eauto|by intros (? & ? & [= <- <-] & ?)|done|by intros (? & ? & ? & _)].
Qed.

Lemma bind_same {A A'} (m m' : Ev A) (f f' : A -> Ev A') (s : State) :
  m s = m' s -> (forall a s, f a s = f' a s) -> (m ≫= f) s = (m' ≫= f') s.
Proof. intros Hm Hf. unfold mbind, eval_bind. rewrite Hm. by destruct (m' s) as [[a|e] s1]. Qed.

Lemma append_Ok output value limit (s : State) output' s' :
  append_bytes output value limit s = (Ok output', s') ->
  s' = s /\ bb_bytes output' = bb_bytes output ++ value /\ bb_limit output' = bb_limit output /\ bb_ok output'.
Proof.
  unfold append_bytes. destruct (try_extend output value) as [o|e] eqn:Ht; cbn [map_err]; intros [= <- <-].
  apply try_extend_ok in Ht. naive_solver.
Qed.

Lemma remaining_Ok output limit (s : State) n s' :
  remaining output limit s = (Ok n, s') -> s' = s /\ n = bb_limit output - len (bb_bytes output) /\ 0 <= n.
Proof.
  unfold remaining, bb_remaining. destruct (Z.leb_spec (len (bb_bytes output)) (bb_limit output)); cbn [map_err]; intros [= <- <-].
  split_and!; [done|done|lia].
Qed.

(** Two recursive calls that agree on the nested expressions give the same
    evaluation. *)
Definition agree (k : nat) (rec1 rec2 : ShellExpression -> Z -> nat -> Ev EvaluationResult) : Prop :=
  forall e limit nesting s, (expression_depth e <= k)%nat -> rec1 e limit nesting s = rec2 e limit nesting s.

Lemma evaluate_word_agree k rec1 rec2 word output limit nesting s :
  agree k rec1 rec2 -> (expression_depth word <= k)%nat ->
  evaluate_word rec1 word output limit nesting s = evaluate_word rec2 word output limit nesting s.
Proof.
  intros Hr Hw. unfold evaluate_word. apply bind_same; [done|]. intros rest s1. apply bind_same; [done|]. intros nested s2.
  apply bind_same; [by apply Hr|done].
Qed.

Lemma evaluate_variable_agree k rec1 rec2 name op output depth limit nesting s :
  agree k rec1 rec2 -> (operation_depth op <= k)%nat ->
  evaluate_variable rec1 name op output depth limit nesting s = evaluate_variable rec2 name op output depth limit nesting s.
Proof.
  intros Hr Hop. unfold evaluate_variable. apply bind_same; [done|]. intros found s1. cbv zeta.
  set (is_set := bool_decide _). set (is_empty := match found with Some _ => _ | None => _ end).
  assert (forall word s, (expression_depth word <= k)%nat ->
    evaluate_word rec1 word output limit nesting s = evaluate_word rec2 word output limit nesting s) as Hword by (intros; by eapply evaluate_word_agree).
  assert (forall o s, (forall w, selected_word o is_set is_empty = Some w -> expression_depth w <= k)%nat ->
    match selected_word o is_set is_empty with
    | Some word => value ← evaluate_word rec1 word output limit nesting; mret (value, true, false)
    | None => if uses_value_when_word_is_not_selected o then value ← require_value found name; mret (value, false, bool_decide (vv_bytes value = []))
              else mret ({| vv_bytes := []; vv_depth := 0 |}, false, true)
    end s =
    match selected_word o is_set is_empty with
    | Some word => value ← evaluate_word rec2 word output limit nesting; mret (value, true, false)
    | None => if uses_value_when_word_is_not_selected o then value ← require_value found name; mret (value, false, bool_decide (vv_bytes value = []))
              else mret ({| vv_bytes := []; vv_depth := 0 |}, false, true)
    end s) as Hsel.
  { intros o s0 Ho. destruct (selected_word o is_set is_empty) as [w|]; [|done]. apply bind_same; [by apply Hword, Ho|done]. }
  assert (forall w, selected_word op is_set is_empty = Some w -> expression_depth w <= k)%nat as Hsw.
  { intros w. destruct op; cbn [selected_word operation_depth] in *; repeat case_match; intros [= <-]; lia. }
  destruct op; cbn [removal_operation is_required is_assignment andb operation_depth] in *;
    try done; try (apply bind_same; [by apply Hsel|done]);
    try (apply bind_same; [done|]; intros value s2; apply bind_same; [by apply Hword|done]).
Qed.

Fixpoint parts_depth (ps : list ShellPart) : nat :=
  match ps with [] => O | p :: ps' => Nat.max (part_depth p) (parts_depth ps') end.

Lemma expression_depth_parts e : expression_depth e = S (parts_depth (parts e)).
Proof. by destruct e. Qed.

Lemma evaluate_part_agree k rec1 rec2 part output depth limit nesting s :
  agree k rec1 rec2 -> (part_depth part <= k)%nat ->
  evaluate_part rec1 part output depth limit nesting s = evaluate_part rec2 part output depth limit nesting s.
Proof.
  intros Hr Hp. destruct part as [text|name op|name|cmd|e]; cbn [evaluate_part part_depth] in *; try done.
  - by eapply evaluate_variable_agree.
  - apply bind_same; [done|]. intros rest s1. apply bind_same; [by apply Hr|done].
Qed.

Lemma evaluate_parts_agree k rec1 rec2 ps output depth limit nesting s :
  agree k rec1 rec2 -> (parts_depth ps <= k)%nat ->
  evaluate_parts rec1 ps output depth limit nesting s = evaluate_parts rec2 ps output depth limit nesting s.
Proof.
  intros Hr. revert output depth s. induction ps as [|p ps IH]; intros output depth s Hps; [done|]. cbn [evaluate_parts parts_depth] in *.
  apply bind_same; [eapply evaluate_part_agree; [done|lia]|]. intros [o d] s1. apply IH. lia.
Qed.

(** The depth of an expression is fuel enough for it. *)
Lemma evaluate_at_fuel fuel e limit nesting (s : State) :
  (expression_depth e <= fuel)%nat -> evaluate_at fuel e limit nesting s = evaluate_at (expression_depth e) e limit nesting s.
Proof.
  revert e limit nesting s.
  assert (forall f1 f2 e limit nesting (s : State), (expression_depth e <= f1)%nat -> (expression_depth e <= f2)%nat ->
    evaluate_at f1 e limit nesting s = evaluate_at f2 e limit nesting s) as Hgen; [|intros; by apply Hgen].
  induction f1 as [|f1 IH]; intros f2 e limit nesting s H1 H2; rewrite expression_depth_parts in *; [lia|].
  destruct f2 as [|f2]; [lia|]. cbn [evaluate_at]. destruct (MAX_EXPANSION_DEPTH <? nesting)%nat; [done|].
  apply bind_same; [done|]. intros mode s1. apply bind_same; [|done].
  apply (evaluate_parts_agree (parts_depth (parts e))); [|done]. intros e' limit' nesting' s' He. apply IH; lia.
Qed.

(** How a variable's arm ends without an error: the value appended, its
    depth and the state it leaves. *)
Definition set_ (found : option VariableValue) : bool := bool_decide (is_Some found).
Definition empty_ (found : option VariableValue) : bool :=
  match found with Some value => bool_decide (vv_bytes value = []) | None => false end.

Inductive var_step (rec : ShellExpression -> Z -> nat -> Ev EvaluationResult) (name : bytes) (op : ParameterOperation)
    (output : BoundedBytes) (limit : Z) (nesting : nat) (found : option VariableValue) (s1 : State) : bytes -> nat -> State -> Prop :=
| vs_length x : op = Length_ -> found = Some x ->
    var_step rec name op output limit nesting found s1 (decimal (length (vv_bytes x))) (vv_depth x) s1
| vs_remove p edge sel x pat v s2 : removal_operation op = Some (p, edge, sel) -> found = Some x ->
    evaluate_word rec p output limit nesting s1 = (Ok pat, s2) -> ShellPattern.remove (vv_bytes x) (vv_bytes pat) edge sel = Ok v ->
    var_step rec name op output limit nesting found s1 v (Nat.max (vv_depth x) (vv_depth pat)) s2
| vs_case p dir all x pat v s2 : op = ChangeCase p dir all -> found = Some x ->
    evaluate_word rec p output limit nesting s1 = (Ok pat, s2) ->
    transform_matching_bytes (vv_bytes x) (vv_bytes pat) all (match dir with Upper => to_ascii_uppercase | Lower => to_ascii_lowercase end) = Ok v ->
    var_step rec name op output limit nesting found s1 v (Nat.max (vv_depth x) (vv_depth pat)) s2
| vs_word w value s2 d : selected_word op (set_ found) (empty_ found) = Some w ->
    evaluate_word rec w output limit nesting s1 = (Ok value, s2) -> (d <= MAX_EXPANSION_DEPTH)%nat ->
    var_step rec name op output limit nesting found s1 (vv_bytes value) d
      (if is_assignment op then (s2.1, stage s2.2 name (vv_bytes value)) else s2)
| vs_value x d : selected_word op (set_ found) (empty_ found) = None -> uses_value_when_word_is_not_selected op = true ->
    (op = Value \/ (exists w, op = DefaultIfUnset w \/ op = DefaultIfUnsetOrEmpty w) \/ (exists w, op = ErrorIfUnsetOrEmpty w) /\ vv_bytes x <> []) ->
    found = Some x -> (d <= MAX_EXPANSION_DEPTH)%nat ->
    var_step rec name op output limit nesting found s1 (vv_bytes x) d s1
| vs_empty d : selected_word op (set_ found) (empty_ found) = None -> uses_value_when_word_is_not_selected op = false ->
    (d <= MAX_EXPANSION_DEPTH)%nat -> var_step rec name op output limit nesting found s1 [] d s1.

Lemma require_value_Ok found name (s : State) x s' : require_value (E := E) found name s = (Ok x, s') -> found = Some x /\ s' = s.
Proof. destruct found as [v|]; cbn; [by intros [= -> ->]|done]. Qed.

Lemma selected_depth_Ok mode vd nesting u e (s : State) d s' :
  selected_depth mode vd nesting u e s = (Ok d, s') -> s' = s /\ (d <= MAX_EXPANSION_DEPTH)%nat.
Proof.
  unfold selected_depth. intros [= Hd <-]. split; [done|]. apply result_bind_Ok in Hd as (d' & _ & Hd).
  destruct (Nat.ltb_spec MAX_EXPANSION_DEPTH d'); [done|]. injection Hd as <-. done.
Qed.

(** The arms that select a word, the value or nothing. *)
Lemma select_Ok rec name op output limit nesting found (s1 : State) depth output' depth' s' :
  removal_operation op = None -> (forall p d a, op <> ChangeCase p d a) -> op <> Length_ ->
  (if is_required op && (negb (set_ found) || empty_ found) then fail (fun c => required_parameter c name)
   else
     '(selected, used_word, empty_value) ←
       match selected_word op (set_ found) (empty_ found) with
       | Some word => value ← evaluate_word rec word output limit nesting; mret (value, true, false)
       | None =>
           if uses_value_when_word_is_not_selected op then
             value ← require_value found name;
             mret (value, false, bool_decide (vv_bytes value = []))
           else mret ({| vv_bytes := []; vv_depth := 0 |}, false, true)
       end;
     _ ← (if is_assignment op && (negb (set_ found) || empty_ found)
          then (fun s => (Ok tt, (s.1, stage s.2 name (vv_bytes selected)))) else mret tt : Ev unit);
     d ← (fun s => selected_depth (depth_mode s.1) (vv_depth selected) nesting used_word empty_value s);
     output ← append_bytes output (vv_bytes selected) limit;
     mret (output, Nat.max depth d)) s1 = (Ok (output', depth'), s') ->
  exists v d, var_step rec name op output limit nesting found s1 v d s' /\ append_bytes output v limit s' = (Ok output', s') /\ depth' = Nat.max depth d.
Proof.
  intros Hrem Hcase Hlen. destruct (is_required op && _) eqn:Hreq; [done|].
  intros ([[sel u] e] & s2 & Hsel & ([] & s3 & Has & (d & s4 & Hd & (o & s5 & Happ & [= <- <- <-])%bind_Ok)%bind_Ok)%bind_Ok)%bind_Ok.
  apply selected_depth_Ok in Hd as [-> Hd]. pose proof Happ as Happ'. apply append_Ok in Happ' as [-> _].
  exists (vv_bytes sel), d. split_and!; [|done|done].
  destruct (selected_word op (set_ found) (empty_ found)) as [w|] eqn:Hw.
  - apply bind_Ok in Hsel as (value & s2' & Hword & [= <- <- <- <-]).
    assert (is_assignment op && (negb (set_ found) || empty_ found) = is_assignment op) as Heq.
    { destruct op; try done. cbn [selected_word is_assignment andb] in *. by destruct (negb (set_ found) || empty_ found). }
    rewrite Heq in Has. assert (s3 = if is_assignment op then (s2'.1, stage s2'.2 name (vv_bytes value)) else s2') as ->.
    { destruct (is_assignment op); by injection Has as <-. }
    eapply vs_word; done.
  - assert (is_assignment op && (negb (set_ found) || empty_ found) = false) as Heq.
    { destruct op; try done. cbn [selected_word is_assignment andb] in *. by destruct (negb (set_ found) || empty_ found). }
    rewrite Heq in Has. injection Has as <-.
    destruct (uses_value_when_word_is_not_selected op) eqn:Huse.
    + apply bind_Ok in Hsel as (value & s2' & [-> ->]%require_value_Ok & [= <- <- <- <-]). eapply vs_value; try done.
      destruct op; try done; [by left|right; left; eauto|right; left; eauto|right; right|by destruct (Hcase pattern direction all)].
      split; [eauto|]. cbn in Hreq. by apply bool_decide_eq_false in Hreq.
    + injection Hsel as <- <- <- <-. by apply vs_empty.
Qed.

Lemma evaluate_variable_Ok rec name op output depth limit nesting (s : State) output' depth' s' :
  evaluate_variable rec name op output depth limit nesting s = (Ok (output', depth'), s') ->
  exists found s1 v d, lookup_variable name s = (Ok found, s1) /\ var_step rec name op output limit nesting found s1 v d s' /\
    append_bytes output v limit s' = (Ok output', s') /\ depth' = Nat.max depth d.
Proof.
  unfold evaluate_variable. intros (found & s1 & Hfound & Hrun)%bind_Ok. cbv zeta in Hrun. fold (set_ found) (empty_ found) in Hrun.
  assert (forall p edge sel, removal_operation op = Some (p, edge, sel) ->
    (value ← require_value found name; pattern ← evaluate_word rec p output limit nesting;
     selected ← (fun s => (map_err (fun error => pattern_error s.1 error) (ShellPattern.remove (vv_bytes value) (vv_bytes pattern) edge sel), s));
     output ← append_bytes output selected limit;
     mret (output, Nat.max (Nat.max depth (vv_depth value)) (vv_depth pattern))) s1 = (Ok (output', depth'), s') ->
    exists v d, var_step rec name op output limit nesting found s1 v d s' /\ append_bytes output v limit s' = (Ok output', s') /\ depth' = Nat.max depth d) as Hremove.
  { intros p edge sel Hop (x & s2 & [-> ->]%require_value_Ok & (pat & s3 & Hpat & (v & s4 & Hv & (o & s5 & Happ & [= <- <- <-])%bind_Ok)%bind_Ok)%bind_Ok)%bind_Ok.
    destruct (ShellPattern.remove _ _ _ _) as [v'|err] eqn:Hr; cbn [map_err] in Hv; [|done]. injection Hv as -> ->.
    pose proof Happ as Happ'. apply append_Ok in Happ' as [-> _].
    exists v, (Nat.max (vv_depth x) (vv_depth pat)). split_and!; [by eapply vs_remove|done|lia]. }
  assert (exists v d, var_step rec name op output limit nesting found s1 v d s' /\ append_bytes output v limit s' = (Ok output', s') /\ depth' = Nat.max depth d)
    as (v & d & H1 & H2 & H3); [|exists found, s1, v, d; done].
  destruct op; cbn [removal_operation] in Hrun; try (eapply select_Ok; [done|done|done|exact Hrun]); try (by eapply Hremove).
  - apply bind_Ok in Hrun as (x & s2 & [-> ->]%require_value_Ok & (o & s5 & Happ & [= <- <- <-])%bind_Ok).
    pose proof Happ as Happ'. apply append_Ok in Happ' as [-> _]. eexists _, _. split_and!; [by apply vs_length|done|done].
  - apply bind_Ok in Hrun as (x & s2 & [-> ->]%require_value_Ok & (pat & s3 & Hpat & (v & s4 & Hv & (o & s5 & Happ & [= <- <- <-])%bind_Ok)%bind_Ok)%bind_Ok).
    unfold change_case in Hv. destruct (transform_matching_bytes _ _ _ _) as [v'|err] eqn:Hr; cbn [map_err] in Hv; [|done]. injection Hv as -> ->.
    pose proof Happ as Happ'. apply append_Ok in Happ' as [-> _].
    exists v, (Nat.max (vv_depth x) (vv_depth pat)). split_and!; [by eapply vs_case|done|lia].
Qed.

(** * Bounds *)

(** The values a context offers are not deeper than the bound. *)
Definition shallow : Prop :=
  forall (c c' : C) name v, variable (E := E) c name = (Ok (Some v), c') -> (vv_depth v <= MAX_EXPANSION_DEPTH)%nat.

Definition within (rec : ShellExpression -> Z -> nat -> Ev EvaluationResult) : Prop :=
  forall e l nesting s r s', rec e l nesting s = (Ok r, s') -> 0 <= l ->
    len (er_bytes r) <= l /\ (er_depth r <= MAX_EXPANSION_DEPTH)%nat.

Lemma evaluate_word_Ok rec w output limit nesting (s : State) v s' :
  evaluate_word rec w output limit nesting s = (Ok v, s') ->
  exists r n, bb_ok output /\ rec w (bb_limit output - len (bb_bytes output)) n s = (Ok r, s') /\ vv_bytes v = er_bytes r /\ vv_depth v = er_depth r.
Proof.
  unfold evaluate_word. intros (rest & s1 & (-> & -> & Hr)%remaining_Ok & (n & s2 & Hn & (r & s3 & Hrec & [= <- <-])%bind_Ok)%bind_Ok)%bind_Ok.
  injection Hn as _ <-. exists r, n. split_and!; [unfold bb_ok; lia|done|done|done].
Qed.

Lemma lookup_variable_depth name (s : State) x s' : shallow ->
  lookup_variable name s = (Ok (Some x), s') -> (vv_depth x <= MAX_EXPANSION_DEPTH)%nat.
Proof.
  intros Hs. unfold lookup_variable, from_context. destruct (find_assignment _ _); [intros [= <- <-]; cbn; unfold MAX_EXPANSION_DEPTH; lia|].
  destruct (variable s.1 name) as [r c] eqn:Hv. intros [= -> <-]. by eapply Hs.
Qed.

Lemma evaluate_part_within rec part output depth limit nesting (s : State) output' depth' s' :
  shallow -> within rec -> bb_ok output -> (depth <= MAX_EXPANSION_DEPTH)%nat ->
  evaluate_part rec part output depth limit nesting s = (Ok (output', depth'), s') ->
  bb_ok output' /\ bb_limit output' = bb_limit output /\ (depth' <= MAX_EXPANSION_DEPTH)%nat.
Proof.
  intros Hs Hrec Ho Hd. destruct part as [text|name op|name|cmd|e]; cbn [evaluate_part].
  - intros (o & s1 & (_ & _ & Hl & Hok)%append_Ok & [= <- <- <-])%bind_Ok. done.
  - intros (found & s1 & v & d & Hf & Hstep & (_ & _ & Hl & Hok)%append_Ok & ->)%evaluate_variable_Ok.
    split_and!; [done|done|]. enough (d <= MAX_EXPANSION_DEPTH)%nat by lia.
    assert (forall w pat s2, evaluate_word rec w output limit nesting s1 = (Ok pat, s2) -> (vv_depth pat <= MAX_EXPANSION_DEPTH)%nat) as Hw.
    { intros w pat s2 (r & n & _ & Hr & _ & ->)%evaluate_word_Ok. apply (Hrec _ _ _ _ _ _ Hr). unfold bb_ok in Ho. lia. }
    destruct Hstep as [x _ ->|p edge sel x pat v s2 _ -> Hp _|p dir all x pat v s2 _ -> Hp _| | |]; try done.
    + by eapply lookup_variable_depth.
    + apply Nat.max_lub; [by eapply lookup_variable_depth|by eapply Hw].
    + apply Nat.max_lub; [by eapply lookup_variable_depth|by eapply Hw].
  - intros (rest & s1 & _ & (v & s2 & _ & (o & s3 & (_ & _ & Hl & Hok)%append_Ok & [= <- <- <-])%bind_Ok)%bind_Ok)%bind_Ok. done.
  - intros (rest & s1 & _ & (v & s2 & _ & (o & s3 & (_ & _ & Hl & Hok)%append_Ok & [= <- <- <-])%bind_Ok)%bind_Ok)%bind_Ok. done.
  - intros (rest & s1 & (-> & -> & Hr0)%remaining_Ok & (r & s2 & Hr & (q & s3 & _ & (o & s4 & (_ & _ & Hl & Hok)%append_Ok & [= <- <- <-])%bind_Ok)%bind_Ok)%bind_Ok)%bind_Ok.
    destruct (Hrec _ _ _ _ _ _ Hr Hr0) as [_ Hr2]. split_and!; [done|done|lia].
Qed.

Lemma evaluate_at_within fuel : shallow -> within (evaluate_at fuel).
Proof.
  intros Hs. induction fuel as [|fuel IH]; intros e l nesting s r s' Hr Hl; [done|]. cbn [evaluate_at] in Hr.
  destruct (Nat.ltb_spec MAX_EXPANSION_DEPTH nesting) as [|Hn]; [done|].
  apply bind_Ok in Hr as (mode & s1 & Hm & ([o d] & s2 & Hps & [= <- <-])%bind_Ok). cbn [er_bytes er_depth into_vec].
  assert (forall ps o0 d0 s0 o1 d1 s1, bb_ok o0 -> (d0 <= MAX_EXPANSION_DEPTH)%nat ->
    evaluate_parts (evaluate_at fuel) ps o0 d0 l nesting s0 = (Ok (o1, d1), s1) ->
    bb_ok o1 /\ bb_limit o1 = bb_limit o0 /\ (d1 <= MAX_EXPANSION_DEPTH)%nat) as Hgen.
  { clear Hps. induction ps as [|p ps IHps]; intros o0 d0 s0 o1 d1 s3 Ho Hd Hrun; cbn [evaluate_parts] in Hrun; [by injection Hrun as <- <- <-|].
    apply bind_Ok in Hrun as ([o2 d2] & s4 & Hp & Hrun). apply evaluate_part_within in Hp as (Ho2 & Hl2 & Hd2); try done.
    rewrite <-Hl2. by eapply IHps. }
  apply Hgen in Hps as (Ho & Hlim & Hd); [|unfold bb_ok; cbn; lia|destruct mode; unfold MAX_EXPANSION_DEPTH in *; lia].
  unfold bb_ok in Ho. rewrite Hlim in Ho. done.
Qed.
End laws.

(** * The reference semantics *)

Section reference.
Context {T : Target}.
(** What [:=] is worth for a variable that has a value; the variables around the
    expression, and the quoted form of one. *)
Context (kept : bytes -> option bytes) (vars quoted_vars : bytes -> option bytes).

(** The assignments made so far shadow the variables around. *)
Abbreviation Env := (gmap bytes bytes) (only parsing).
Definition env_lookup (env : Env) (name : bytes) : option bytes :=
  match env !! name with Some v => Some v | None => vars name end.

(** Each byte that a pattern treats specially, quoted. *)
Definition quote_pattern (l : bytes) : bytes :=
  l ≫= (fun b => if (b =? c_STAR) || (b =? c_QM) || (b =? 91) || (b =? 92) then [92; b] else [b]).

Definition ok_value {E A} (r : result E A) : option A := match r with Ok a => Some a | Err _ => None end.

(** What an expression is worth, without limits, depths or a context, by the table of
    forms of the manual (Documentation/man/procmail-rs.rc.5.md).  The one entry of
    the table that the code does not follow, [:=] for a variable that has a value, is
    the argument [kept]. *)
Fixpoint ref_expression (e : ShellExpression) (env : Env) : option (bytes * Env) :=
  match e with MkShellExpression ps =>
    (fix go (ps : list ShellPart) (env : Env) : option (bytes * Env) :=
       match ps with
       | [] => Some ([], env)
       | p :: ps' => '(v, env) ← ref_part p env; '(rest, env) ← go ps' env; Some (v ++ rest, env)
       end) ps env
  end
with ref_part (p : ShellPart) (env : Env) : option (bytes * Env) :=
  match p with
  | Literal text => Some (text, env)
  | Variable_ name op => ref_operation name op env
  | RegexQuotedVariable name => v ← quoted_vars name; Some (v, env)
  | Command _ => None
  | PatternQuote e => '(v, env) ← ref_expression e env; Some (quote_pattern v, env)
  end
with ref_operation (name : bytes) (op : ParameterOperation) (env : Env) : option (bytes * Env) :=
  match op with
  | Value => v ← env_lookup env name; Some (v, env)
  | DefaultIfUnset w => match env_lookup env name with Some v => Some (v, env) | None => ref_expression w env end
  | DefaultIfUnsetOrEmpty w =>
      match env_lookup env name with Some (b :: v) => Some (b :: v, env) | _ => ref_expression w env end
  | AlternateIfSet w => match env_lookup env name with Some _ => ref_expression w env | None => Some ([], env) end
  | AlternateIfSetAndNotEmpty w =>
      match env_lookup env name with Some (_ :: _) => ref_expression w env | _ => Some ([], env) end
  | AssignIfUnsetOrEmpty w =>
      match env_lookup env name with
      | Some (b :: v) => v ← kept (b :: v); Some (v, env)
      | _ => '(v, env) ← ref_expression w env; Some (v, <[name := v]> env)
      end
  | ErrorIfUnsetOrEmpty _ => match env_lookup env name with Some (b :: v) => Some (b :: v, env) | _ => None end
  | Length_ => v ← env_lookup env name; Some (decimal (length v), env)
  | RemovePrefix p longest =>
      v ← env_lookup env name; '(pat, env) ← ref_expression p env;
      out ← ok_value (ShellPattern.remove v pat Prefix (if longest then Longest else Shortest)); Some (out, env)
  | RemoveSuffix p longest =>
      v ← env_lookup env name; '(pat, env) ← ref_expression p env;
      out ← ok_value (ShellPattern.remove v pat Suffix (if longest then Longest else Shortest)); Some (out, env)
  | ChangeCase p direction all =>
      v ← env_lookup env name; '(pat, env) ← ref_expression p env;
      out ← ok_value (transform_matching_bytes v pat all
                        (match direction with Upper => to_ascii_uppercase | Lower => to_ascii_lowercase end)); Some (out, env)
  end.

Fixpoint ref_parts (ps : list ShellPart) (env : Env) : option (bytes * Env) :=
  match ps with
  | [] => Some ([], env)
  | p :: ps' => '(v, env) ← ref_part p env; '(rest, env) ← ref_parts ps' env; Some (v ++ rest, env)
  end.

(** The arms of [ref_operation]. *)
Lemma ref_operation_eq name op env : ref_operation name op env =
  match op with
  | Value => v ← env_lookup env name; Some (v, env)
  | DefaultIfUnset w => match env_lookup env name with Some v => Some (v, env) | None => ref_expression w env end
  | DefaultIfUnsetOrEmpty w =>
      match env_lookup env name with Some (b :: v) => Some (b :: v, env) | _ => ref_expression w env end
  | AlternateIfSet w => match env_lookup env name with Some _ => ref_expression w env | None => Some ([], env) end
  | AlternateIfSetAndNotEmpty w =>
      match env_lookup env name with Some (_ :: _) => ref_expression w env | _ => Some ([], env) end
  | AssignIfUnsetOrEmpty w =>
      match env_lookup env name with
      | Some (b :: v) => v ← kept (b :: v); Some (v, env)
      | _ => '(v, env) ← ref_expression w env; Some (v, <[name := v]> env)
      end
  | ErrorIfUnsetOrEmpty _ => match env_lookup env name with Some (b :: v) => Some (b :: v, env) | _ => None end
  | Length_ => v ← env_lookup env name; Some (decimal (length v), env)
  | RemovePrefix p longest =>
      v ← env_lookup env name; '(pat, env) ← ref_expression p env;
      out ← ok_value (ShellPattern.remove v pat Prefix (if longest then Longest else Shortest)); Some (out, env)
  | RemoveSuffix p longest =>
      v ← env_lookup env name; '(pat, env) ← ref_expression p env;
      out ← ok_value (ShellPattern.remove v pat Suffix (if longest then Longest else Shortest)); Some (out, env)
  | ChangeCase p direction all =>
      v ← env_lookup env name; '(pat, env) ← ref_expression p env;
      out ← ok_value (transform_matching_bytes v pat all
                        (match direction with Upper => to_ascii_uppercase | Lower => to_ascii_lowercase end)); Some (out, env)
  end.
Proof. by destruct op. Qed.

Lemma ref_part_eq p env : ref_part p env =
  match p with
  | Literal text => Some (text, env)
  | Variable_ name op => ref_operation name op env
  | RegexQuotedVariable name => v ← quoted_vars name; Some (v, env)
  | Command _ => None
  | PatternQuote e => '(v, env) ← ref_expression e env; Some (quote_pattern v, env)
  end.
Proof. by destruct p. Qed.

Lemma ref_expression_parts e env : ref_expression e env = ref_parts (parts e) env.
Proof. by destruct e. Qed.
End reference.

(** The expression inside a part. *)
Definition part_word (p : ShellPart) : option ShellExpression :=
  match p with
  | Variable_ _ (ErrorIfUnsetOrEmpty w) => Some w
  | Variable_ _ op => word op
  | PatternQuote e => Some e
  | _ => None
  end.

Lemma part_word_depth p w ps : p ∈ ps -> part_word p = Some w -> (expression_depth w <= parts_depth ps)%nat.
Proof.
  intros Hp Hw. induction Hp as [p ps|p q ps _ IH]; cbn [parts_depth]; [|specialize (IH Hw); lia].
  assert (expression_depth w <= part_depth p)%nat; [|lia].
  destruct p as [t|name op|n|c|e]; try done; [|by injection Hw as ->].
  by destruct op; cbn [part_word Config.word] in Hw; try done; injection Hw as ->.
Qed.

(** Induction on the expressions inside an expression. *)
Lemma expression_induction (P : ShellExpression -> Prop) :
  (forall e, (forall p w, p ∈ parts e -> part_word p = Some w -> P w) -> P e) -> forall e, P e.
Proof.
  intros Hstep. assert (forall n e, (expression_depth e <= n)%nat -> P e) as H; [|intros e; by apply (H (expression_depth e))].
  induction n as [|n IH]; intros e Hn; rewrite expression_depth_parts in Hn; [lia|].
  apply Hstep. intros p w Hp Hw. apply IH. apply (part_word_depth _ _ _ Hp) in Hw. lia.
Qed.

(** The value, as the manual says; nothing, as the code does (the form is missing from
    [uses_value_when_word_is_not_selected] of [src/src/config/mod.rs]); and no answer,
    which tells the expressions that never come to the case. *)
Definition manual_keeps (v : bytes) : option bytes := Some v.
Definition code_keeps (v : bytes) : option bytes := Some [].
Definition not_decided (v : bytes) : option bytes := None.

Section keeping.
Context {T : Target} (vars quoted_vars : bytes -> option bytes) (kept : bytes -> option bytes).
(** An expression that never comes to the case is worth the same whatever it is. *)
Lemma ref_decided : forall e env r, ref_expression not_decided vars quoted_vars e env = Some r -> ref_expression kept vars quoted_vars e env = Some r.
Proof.
  induction e as [e IH] using expression_induction. intros env r. rewrite !ref_expression_parts.
  assert (forall p env r, p ∈ parts e -> ref_part not_decided vars quoted_vars p env = Some r -> ref_part kept vars quoted_vars p env = Some r) as Hpart.
  { intros p env' r' Hp. rewrite !ref_part_eq. destruct p as [t|name op|n|c|e']; try done.
    - assert (forall w env2 x, part_word (Variable_ name op) = Some w -> ref_expression not_decided vars quoted_vars w env2 = Some x ->
        ref_expression kept vars quoted_vars w env2 = Some x) as Hword by (intros w env2 x Hpw; by apply (IH _ w Hp Hpw)).
      rewrite !ref_operation_eq. destruct op as [|w|w|w|w|w|w| |w longest|w longest|w d all]; try done; cbn [part_word Config.word] in Hword.
      all: try (destruct (env_lookup vars env' name) as [[|b v]|]; try done; by apply Hword).
      + destruct (env_lookup vars env' name) as [[|b v]|]; [|done|];
          (intros (x & Hx & E)%bind_Some; rewrite (Hword w _ _ eq_refl Hx); exact E).
      + intros (x & Hx & (y & Hy & E)%bind_Some)%bind_Some. rewrite Hx. cbn [mbind option_bind]. rewrite (Hword w _ _ eq_refl Hy). exact E.
      + intros (x & Hx & (y & Hy & E)%bind_Some)%bind_Some. rewrite Hx. cbn [mbind option_bind]. rewrite (Hword w _ _ eq_refl Hy). exact E.
      + intros (x & Hx & (y & Hy & E)%bind_Some)%bind_Some. rewrite Hx. cbn [mbind option_bind]. rewrite (Hword w _ _ eq_refl Hy). exact E.
    - intros (x & Hx & E)%bind_Some. rewrite (IH _ e' Hp eq_refl _ _ Hx). exact E. }
  revert env r Hpart. generalize (parts e). intros ps. induction ps as [|p ps IHps]; intros env r Hpart; cbn [ref_parts]; [done|].
  intros H. destruct (ref_part not_decided vars quoted_vars p env) as [[v env1]|] eqn:Hp; [|done]. rewrite (Hpart p env _ (list_elem_of_here _ _) Hp).
  cbn [mbind option_bind] in H |- *. destruct (ref_parts not_decided vars quoted_vars ps env1) as [x|] eqn:Hps; [|done].
  rewrite (IHps _ _ (fun p env r Hin => Hpart p env r (list_elem_of_further _ _ _ Hin)) Hps). exact H.
Qed.
End keeping.

Section refinement.
Context {T : Target} {C E : Type} `{EvaluationContext C E}.
#[local] Existing Instance eval_ret.
#[local] Existing Instance eval_bind.
Abbreviation Ev := (@Eval C E) (only parsing).
Abbreviation State := (C * list (bytes * bytes))%type (only parsing).
Context (vars quoted_vars : bytes -> option bytes).

(** A context that only reads: its variables are [vars], it runs no command,
    and what it quotes is [quoted_vars]. *)
Definition reads_only (c : C) : Prop :=
  (forall name found c', variable (E := E) c name = (Ok found, c') -> c' = c /\ vv_bytes <$> found = vars name) /\
  (forall cmd n v c', command (E := E) c cmd n <> (Ok v, c')) /\
  (forall name n v c', regex_quoted (E := E) c name n = (Ok v, c') -> c' = c /\ quoted_vars name = Some v).

Definition env_of (assignments : list (bytes * bytes)) : gmap bytes bytes := list_to_map assignments.

Lemma stage_keys a name v : fst <$> stage a name v = if bool_decide (name ∈ fst <$> a) then fst <$> a else (fst <$> a) ++ [name].
Proof.
  induction a as [|[k w] a IH]; [done|]. cbn [stage]. rewrite fmap_cons. cbn [fst].
  destruct (bytes_eqb k name) eqn:Hk.
  - apply bytes_eqb_true in Hk as ->. rewrite bool_decide_true by (by left). done.
  - rewrite fmap_cons. cbn [fst]. rewrite IH. assert (k <> name) by (intros ->; by rewrite bytes_eqb_refl in Hk).
    case_bool_decide as H1; case_bool_decide as H2; try done; [exfalso; apply H2; by right|exfalso; apply elem_of_cons in H2; naive_solver].
Qed.

Lemma stage_env a name v : env_of (stage a name v) = <[name := v]> (env_of a).
Proof.
  unfold env_of. induction a as [|[k w] a IH]; [done|]. cbn [stage]. destruct (bytes_eqb k name) eqn:Hk.
  - apply bytes_eqb_true in Hk as ->. cbn [list_to_map foldr]. cbn. by rewrite insert_insert_eq.
  - assert (k <> name) by (intros ->; by rewrite bytes_eqb_refl in Hk). cbn in *. rewrite IH. by apply insert_insert_ne.
Qed.

Lemma find_assignment_env a name : NoDup (fst <$> a) -> find_assignment (reverse a) name = env_of a !! name.
Proof.
  intros Hnd. assert (env_of a = env_of (reverse a)) as ->.
  { unfold env_of. apply list_to_map_proper; [done|]. by rewrite reverse_Permutation. }
  generalize (reverse a). intros l. unfold find_assignment, env_of. induction l as [|[k w] l IH]; [symmetry; apply lookup_empty|].
  cbn [List.find list_to_map foldr]. destruct (bytes_eqb k name) eqn:Hk; cbn.
  - apply bytes_eqb_true in Hk as ->. by rewrite lookup_insert_eq.
  - rewrite lookup_insert_ne by (intros ->; by rewrite bytes_eqb_refl in Hk). exact IH.
Qed.

(** A nested evaluation that computes the reference. *)
Definition computes (rec : ShellExpression -> Z -> nat -> Ev EvaluationResult) : Prop :=
  forall e l nesting s r s', rec e l nesting s = (Ok r, s') -> reads_only s.1 -> NoDup (fst <$> s.2) ->
    s'.1 = s.1 /\ NoDup (fst <$> s'.2) /\ ref_expression code_keeps vars quoted_vars e (env_of s.2) = Some (er_bytes r, env_of s'.2).

Lemma lookup_variable_env name (s : State) found s' : reads_only s.1 -> NoDup (fst <$> s.2) ->
  lookup_variable name s = (Ok found, s') -> s' = s /\ vv_bytes <$> found = env_lookup vars (env_of s.2) name.
Proof.
  intros (Hv & _ & _) Hnd. unfold lookup_variable, env_lookup. rewrite find_assignment_env by done.
  destruct (env_of s.2 !! name) as [b|]; [by intros [= <- <-]|]. unfold from_context.
  destruct (variable s.1 name) as [r c] eqn:Hr. intros [= -> <-]. apply Hv in Hr as [-> ->]. by destruct s.
Qed.

Lemma stage_nodup a name v : NoDup (fst <$> a) -> NoDup (fst <$> stage a name v).
Proof.
  intros H'. rewrite stage_keys. case_bool_decide as Hin; [done|]. apply NoDup_app. split_and!; [done| |apply NoDup_singleton].
  intros x Hx ->%list_elem_of_singleton. done.
Qed.

Lemma var_step_ref rec name op output limit nesting (s : State) found v d s' :
  computes rec -> reads_only s.1 -> NoDup (fst <$> s.2) -> vv_bytes <$> found = env_lookup vars (env_of s.2) name ->
  var_step rec name op output limit nesting found s v d s' ->
  s'.1 = s.1 /\ NoDup (fst <$> s'.2) /\ ref_operation code_keeps vars quoted_vars name op (env_of s.2) = Some (v, env_of s'.2).
Proof.
  intros Hrec Hc Hnd Hfound Hstep.
  assert (forall w pat s2, evaluate_word rec w output limit nesting s = (Ok pat, s2) ->
    s2.1 = s.1 /\ NoDup (fst <$> s2.2) /\ ref_expression code_keeps vars quoted_vars w (env_of s.2) = Some (vv_bytes pat, env_of s2.2)) as Hw.
  { intros w pat s2 (r & n & _ & Hr & -> & _)%evaluate_word_Ok. by apply (Hrec _ _ _ _ _ _ Hr). }
  destruct Hstep as [x -> ->|p edge sel x pat v s2 Hop -> Hp Hv|p dir all x pat v s2 -> -> Hp Hv|w value s2 d Hsel Hp _|x d Hsel Huse Hop -> _|d Hsel Huse _].
  - cbn [fmap option_fmap option_map] in Hfound. rewrite ref_operation_eq; cbn iota. by rewrite <-Hfound.
  - apply Hw in Hp as (H1 & H2 & H3). split_and!; [done|done|]. cbn [fmap option_fmap option_map] in Hfound.
    destruct op; cbn [removal_operation] in Hop; try done; injection Hop as <- <- <-; rewrite ref_operation_eq; cbn iota; rewrite <-Hfound; cbn [mbind option_bind];
      rewrite H3; cbn [mbind option_bind]; by rewrite Hv.
  - apply Hw in Hp as (H1 & H2 & H3). split_and!; [done|done|]. cbn [fmap option_fmap option_map] in Hfound.
    rewrite ref_operation_eq; cbn iota. rewrite <-Hfound. cbn [mbind option_bind]. rewrite H3. cbn [mbind option_bind]. by rewrite Hv.
  - apply Hw in Hp as (H1 & H2 & H3).
    destruct op; cbn [selected_word is_assignment] in *; try done; rewrite ref_operation_eq; cbn iota; rewrite <-Hfound; unfold set_, empty_ in Hsel;
      (destruct found as [[fb fd]|]; cbn [fmap option_fmap option_map vv_bytes] in *;
       [rewrite bool_decide_true in Hsel by eauto; destruct fb as [|b0 fb]|rewrite bool_decide_false in Hsel by (by intros [? ?])]);
      cbn in Hsel; try done; injection Hsel as ->; try done.
    + rewrite H3. cbn [mbind option_bind fst snd]. rewrite stage_env. split_and!; [done|by apply stage_nodup|done].
    + rewrite H3. cbn [mbind option_bind fst snd]. rewrite stage_env. split_and!; [done|by apply stage_nodup|done].
  - cbn [fmap option_fmap option_map] in Hfound. split_and!; [done|done|].
    destruct Hop as [->|[(w & [-> | ->])|[(w & ->) Hne]]]; rewrite ref_operation_eq; cbn iota; rewrite <-Hfound; try done.
    + cbn in Hsel. unfold empty_ in Hsel. by destruct (vv_bytes x).
    + by destruct (vv_bytes x).
  - split_and!; [done|done|].
    destruct op; cbn in Huse; try done; rewrite ref_operation_eq; cbn [selected_word] in *; rewrite <-Hfound; unfold set_, empty_ in Hsel;
      (destruct found as [[fb fd]|]; cbn [fmap option_fmap option_map vv_bytes] in *;
       [rewrite bool_decide_true in Hsel by eauto; destruct fb as [|b0 fb]|rewrite bool_decide_false in Hsel by (by intros [? ?])]);
      cbn in Hsel; done.
Qed.

Lemma quote_loop_Ok l quoted limit (s : State) out s' :
  quote_loop l quoted limit s = (Ok out, s') -> s' = s /\ bb_bytes out = bb_bytes quoted ++ quote_pattern l.
Proof.
  revert quoted s. induction l as [|b l IH]; intros quoted s; cbn [quote_loop].
  { intros [= <- <-]. by rewrite app_nil_r. }
  intros (q1 & s1 & H1 & (q2 & s2 & (-> & Hq2 & _)%append_Ok & Hrun)%bind_Ok)%bind_Ok. apply IH in Hrun as [-> Hout].
  unfold quote_pattern in *. rewrite bind_cons. destruct (_ || _).
  - apply append_Ok in H1 as (-> & Hq1 & _). split; [done|]. rewrite Hout, Hq2, Hq1, <-!app_assoc. done.
  - injection H1 as <- <-. split; [done|]. rewrite Hout, Hq2, <-!app_assoc. done.
Qed.

Lemma evaluate_part_ref rec part output depth limit nesting (s : State) output' depth' s' :
  computes rec -> reads_only s.1 -> NoDup (fst <$> s.2) ->
  evaluate_part rec part output depth limit nesting s = (Ok (output', depth'), s') ->
  s'.1 = s.1 /\ NoDup (fst <$> s'.2) /\
  exists v, bb_bytes output' = bb_bytes output ++ v /\ ref_part code_keeps vars quoted_vars part (env_of s.2) = Some (v, env_of s'.2).
Proof.
  intros Hrec Hc Hnd. rewrite ref_part_eq. destruct part as [text|name op|name|cmd|e]; cbn [evaluate_part].
  - intros (o & s1 & (-> & Ho & _)%append_Ok & [= <- <- <-])%bind_Ok. split_and!; [done|done|]. by exists text.
  - intros (found & s1 & v & d & Hf & Hstep & (_ & Ho & _)%append_Ok & _)%evaluate_variable_Ok.
    apply lookup_variable_env in Hf as [-> Hf]; [|done|done].
    eapply var_step_ref in Hstep as (H1 & H2 & H3); try done. split_and!; [done|done|]. by exists v.
  - intros (rest & s1 & (-> & _)%remaining_Ok & (v & s2 & Hv & (o & s3 & (-> & Ho & _)%append_Ok & [= <- <- <-])%bind_Ok)%bind_Ok)%bind_Ok.
    unfold from_context in Hv. destruct (regex_quoted s.1 name rest) as [q c] eqn:Hq. injection Hv as -> <-.
    destruct Hc as (_ & _ & Hquoted). apply Hquoted in Hq as [-> Hq]. split_and!; [done|done|]. exists v. by rewrite Hq.
  - intros (rest & s1 & (-> & _)%remaining_Ok & (v & s2 & Hv & _)%bind_Ok)%bind_Ok.
    unfold from_context in Hv. destruct (command s.1 cmd rest) as [q c] eqn:Hq. injection Hv as -> <-.
    destruct Hc as (_ & Hcmd & _). by apply Hcmd in Hq.
  - intros (rest & s1 & (-> & _)%remaining_Ok & (r & s2 & Hr & (q & s3 & Hquote & (o & s4 & (-> & Ho & _)%append_Ok & [= <- <- <-])%bind_Ok)%bind_Ok)%bind_Ok)%bind_Ok.
    apply bind_Ok in Hquote as (qq & s5 & (-> & Hqq)%quote_loop_Ok & [= <- <-]). destruct (Hrec _ _ _ _ _ _ Hr Hc Hnd) as (H1 & H2 & H3).
    split_and!; [done|done|]. exists (quote_pattern (er_bytes r)). rewrite H3. split; [by rewrite Ho; unfold into_vec; rewrite Hqq|done].
Qed.

Lemma evaluate_parts_ref rec ps output depth limit nesting (s : State) output' depth' s' :
  computes rec -> reads_only s.1 -> NoDup (fst <$> s.2) ->
  evaluate_parts rec ps output depth limit nesting s = (Ok (output', depth'), s') ->
  s'.1 = s.1 /\ NoDup (fst <$> s'.2) /\
  exists v, bb_bytes output' = bb_bytes output ++ v /\ ref_parts code_keeps vars quoted_vars ps (env_of s.2) = Some (v, env_of s'.2).
Proof.
  intros Hrec. revert output depth s. induction ps as [|p ps IH]; intros output depth s Hc Hnd; cbn [evaluate_parts ref_parts].
  { intros [= <- <- <-]. split_and!; [done|done|]. exists []. by rewrite app_nil_r. }
  intros ([o d] & s1 & Hp & Hrun)%bind_Ok. apply evaluate_part_ref in Hp as (H1 & H2 & v & Hv & Href); try done.
  apply IH in Hrun as (H3 & H4 & w & Hw & Hrest); [|by rewrite H1|done]. rewrite Href. cbn [mbind option_bind]. rewrite Hrest.
  split_and!; [congruence|done|]. exists (v ++ w). by rewrite Hw, Hv, <-app_assoc.
Qed.

Lemma evaluate_at_ref fuel : computes (evaluate_at fuel).
Proof.
  induction fuel as [|fuel IH]; intros e l nesting s r s' Hr Hc Hnd; [done|]. cbn [evaluate_at] in Hr.
  destruct (Nat.ltb_spec MAX_EXPANSION_DEPTH nesting) as [|Hn]; [done|].
  apply bind_Ok in Hr as (mode & s1 & [= <- <-] & ([o d] & s2 & Hps & [= <- <-])%bind_Ok).
  apply evaluate_parts_ref in Hps as (H1 & H2 & v & Hv & Href); try done.
  split_and!; [done|done|]. rewrite ref_expression_parts, Href. cbn [er_bytes]. unfold into_vec. by rewrite Hv.
Qed.
End refinement.

(** Cutting quoted text into tokens gives back its bytes as literals. *)
Lemma tokenize_quoted_loop fuel l pre tokens :
  (length (quote_pattern l) <= fuel)%nat ->
  tokenize_loop fuel (pre ++ quote_pattern l) (length pre) tokens = tokens ++ (T_Literal <$> l).
Proof.
  revert fuel pre tokens. induction l as [|b l IH]; intros fuel pre tokens Hf.
  { change (quote_pattern []) with (@nil byte). rewrite !app_nil_r. destruct fuel; [done|]. cbn [tokenize_loop]. by rewrite lookup_ge_None_2. }
  unfold quote_pattern in *. rewrite bind_cons in *. fold (quote_pattern l) in *. rewrite fmap_cons.
  destruct ((b =? c_STAR) || (b =? c_QM) || (b =? 91) || (b =? 92)) eqn:Hb.
  - destruct fuel as [|fuel]; [simpl in Hf; lia|]. cbn [tokenize_loop app].
    rewrite list_lookup_middle by done. change (92 =? 92) with true. cbn iota.
    assert ((pre ++ 92 :: b :: quote_pattern l) !! S (length pre) = Some b) as ->.
    { rewrite lookup_app_r by lia. by replace (S (length pre) - length pre)%nat with 1%nat by lia. }
    specialize (IH fuel (pre ++ [92; b]) (tokens ++ [T_Literal b])).
    rewrite length_app, <-!app_assoc in IH. apply IH. simpl in Hf. lia.
  - destruct fuel as [|fuel]; [simpl in Hf; lia|]. cbn [tokenize_loop app].
    rewrite list_lookup_middle by done. apply orb_false_iff in Hb as [Hb H4]. apply orb_false_iff in Hb as [Hb H3]. apply orb_false_iff in Hb as [H1 H2].
    rewrite H1, H2, H3, H4. specialize (IH fuel (pre ++ [b]) (tokens ++ [T_Literal b])).
    rewrite length_app, <-!app_assoc in IH. apply IH. simpl in Hf. lia.
Qed.

Lemma matches_literals l x : matches (T_Literal <$> l) x <-> x = l.
Proof.
  split.
  - revert x. induction l as [|b l IH]; intros x; rewrite ?fmap_cons; inversion 1; subst; [done|]. f_equal; [done|by apply IH].
  - intros ->. induction l as [|b l IH]; [constructor|]. rewrite fmap_cons. by constructor.
Qed.

(** * Properties *)

Section properties.
Context {T : Target} {C E : Type} `{EvaluationContext C E}.
#[local] Existing Instance eval_ret.
#[local] Existing Instance eval_bind.

Lemma evaluate_Ok e limit (c c' : C) r :
  evaluate e limit c = (Ok r, c') -> exists r', evaluate_at (expression_depth e) e limit 0 (c, []) = (Ok r', (c', er_assignments r)) /\
    er_bytes r = er_bytes r' /\ er_depth r = er_depth r'.
Proof.
  unfold evaluate. destruct (evaluate_at _ _ _ _ _) as [[r'|err] [c2 a]]; [|done]. intros [= <- <-]. eauto.
Qed.
End properties.

(** What an evaluation that only reads comes to, with the entry of [:=] as the code has
    it. *)
Lemma evaluate_agrees {T : Target} {C E} `{EvaluationContext C E} vars quoted_vars e limit (c c' : C) r :
  reads_only (E := E) vars quoted_vars c -> evaluate e limit c = (Ok r, c') ->
  c' = c /\ ref_expression code_keeps vars quoted_vars e ∅ = Some (er_bytes r, list_to_map (er_assignments r)) /\ NoDup (fst <$> er_assignments r).
Proof.
  intros Hc (r' & Hr & -> & _)%evaluate_Ok.
  destruct (evaluate_at_ref vars quoted_vars _ _ _ _ _ _ _ Hr Hc (NoDup_nil_2)) as (H1 & H2 & H3). done.
Qed.

(** C26: Refinement.  In a context that only reads, an expression that evaluates is
    worth exactly what the manual's table of forms says: the same bytes, and the same
    assignments on top of the context's variables, which are left alone.  One entry of
    the table is not followed, and is excluded: [:=] for a variable that has a value is
    worth the value by the manual, and nothing by the code (a finding).  So the claim is made of
    every expression that does not come to that case on its way; and with that entry
    read as the code has it, it is made of all of them. *)
Theorem evaluate_refines {T : Target} {C E} `{EvaluationContext C E} vars quoted_vars e limit (c c' : C) r :
  reads_only (E := E) vars quoted_vars c -> evaluate e limit c = (Ok r, c') ->
  let worth kept := ref_expression kept vars quoted_vars e ∅ in
  let answer := (er_bytes r, list_to_map (er_assignments r)) in
  c' = c /\ NoDup (fst <$> er_assignments r) /\
  (is_Some (worth not_decided) -> worth manual_keeps = Some answer) /\ worth code_keeps = Some answer.
Proof.
  intros Hc He worth answer. destruct (evaluate_agrees _ _ _ _ _ _ _ Hc He) as (-> & Href & Hnd). split_and!; [done|done| |done].
  intros [x Hx]. subst worth. cbn beta in *. rewrite (ref_decided _ _ manual_keeps _ _ _ Hx). by rewrite (ref_decided _ _ code_keeps _ _ _ Hx) in Href.
Qed.

(** C27: Bounds, in any context, one that runs commands included: a result is
    never longer than the limit, and when the context's values are within the
    expansion depth so is the result. *)
Theorem evaluate_bounded {T : Target} {C E} `{EvaluationContext C E} e limit (c c' : C) r :
  0 <= limit -> shallow (C := C) (E := E) -> evaluate e limit c = (Ok r, c') ->
  len (er_bytes r) <= limit /\ (er_depth r <= MAX_EXPANSION_DEPTH)%nat.
Proof.
  intros Hl Hs (r' & Hr & -> & ->)%evaluate_Ok. by apply (evaluate_at_within _ Hs _ _ _ _ _ _ Hr).
Qed.

(** Termination.  The depth of an expression is fuel enough: with any more
    the evaluation, the context it leaves and the assignments it stages are the
    same, so the recursion the fuel stands for ends. *)
Theorem evaluate_total {T : Target} {C E} `{EvaluationContext C E} fuel e limit nesting (s : C * list (bytes * bytes)) :
  (expression_depth e <= fuel)%nat ->
  evaluate_at (E := E) fuel e limit nesting s = evaluate_at (expression_depth e) e limit nesting s.
Proof. apply evaluate_at_fuel. Qed.

(** A quoted expression stands for its bytes: cut into tokens, what
    [quote_pattern_bytes] produces is the literal bytes it was given and so
    matches them and nothing else; and it fits its limit. *)
Theorem quote_pattern_literal {T : Target} {C E} `{EvaluationContext C E} l limit (s s' : C * list (bytes * bytes)) out :
  quote_pattern_bytes (E := E) l limit s = (Ok out, s') ->
  s' = s /\ tokenize out = T_Literal <$> l /\ forall x, matches (tokenize out) x <-> x = l.
Proof.
  intros (q & s1 & (-> & Hq)%quote_loop_Ok & [= <- <-])%(bind_Ok (quote_loop l (with_capacity limit) limit)). cbn in Hq.
  assert (tokenize (into_vec q) = T_Literal <$> l) as Ht.
  { unfold into_vec, tokenize. rewrite Hq. by apply (tokenize_quoted_loop (length (quote_pattern l)) l [] []). }
  split_and!; [done|done|]. intros x. rewrite Ht. apply matches_literals.
Qed.

(** * Witnesses *)

(** [${BOX:=inbox}/$BOX], and the same with [BOX] set. *)
Definition assign_twice : ShellExpression :=
  MkShellExpression [Variable_ (B "BOX") (AssignIfUnsetOrEmpty (MkShellExpression [Literal (B "inbox")])); Literal (B "/"); Variable_ (B "BOX") Value].

Definition no_variables : RuntimeBytesEvaluation := {| rb_line := 1; rb_lookup := fun _ => None |}.
Definition box_set : RuntimeBytesEvaluation := {| rb_line := 1; rb_lookup := fun name => if bytes_eqb name (B "BOX") then Some (B "mine") else None |}.

Lemma runtime_bytes_reads_only c : reads_only (E := ExpansionError) (rb_lookup c) (fun _ => None) c.
Proof.
  split_and!.
  - intros name found c' [= <- <-]. split; [done|]. by destruct (rb_lookup c name).
  - intros cmd n v c'. discriminate.
  - intros name n v c'. discriminate.
Defined.

Lemma runtime_bytes_shallow : shallow (C := RuntimeBytesEvaluation) (E := ExpansionError).
Proof. intros c c' name v. cbn. destruct (rb_lookup c name) as [b|]; cbn; [|discriminate]. intros [= <- <-]. cbn. apply Nat.le_0_l. Defined.

Lemma evaluate_refines_witness :
  exists r, evaluate (T := target64) assign_twice 64 no_variables = (Ok r, no_variables) /\
    ref_expression (T := target64) manual_keeps (rb_lookup no_variables) (fun _ => None) assign_twice ∅ = Some (er_bytes r, list_to_map (er_assignments r)).
Proof.
  destruct (evaluate (T := target64) assign_twice 64 no_variables) as [[r|e] c'] eqn:He; [|vm_compute in He; discriminate].
  destruct (evaluate_refines (T := target64) (rb_lookup no_variables) (fun _ => None) assign_twice 64 no_variables c' r
    (runtime_bytes_reads_only no_variables) He) as (-> & _ & H & _).
  exists r. split; [reflexivity|]. apply H. vm_compute. eexists. reflexivity.
Defined.

Lemma evaluate_bounded_witness :
  exists r c', evaluate (T := target64) assign_twice 64 no_variables = (Ok r, c') /\ len (er_bytes r) <= 64.
Proof.
  destruct (evaluate (T := target64) assign_twice 64 no_variables) as [[r|e] c'] eqn:He; [|vm_compute in He; discriminate].
  exists r, c'. split; [reflexivity|].
  apply (evaluate_bounded (T := target64) assign_twice 64 no_variables c' r ltac:(lia) runtime_bytes_shallow He).
Defined.

Lemma evaluate_total_witness :
  expression_depth assign_twice = 2%nat /\
  evaluate_at (T := target64) 40 assign_twice 64 0 (no_variables, []) = evaluate_at (T := target64) 2 assign_twice 64 0 (no_variables, []).
Proof.
  split; [reflexivity|]. apply (evaluate_total (T := target64) 40 assign_twice 64 0 (no_variables, [])). cbn. lia.
Defined.

Lemma quote_pattern_literal_witness :
  exists out, quote_pattern_bytes (T := target64) (B "a*[b]") 64 (no_variables, []) = (Ok out, (no_variables, [])) /\
    tokenize out = T_Literal <$> B "a*[b]".
Proof.
  destruct (quote_pattern_bytes (T := target64) (B "a*[b]") 64 (no_variables, [])) as [[out|e] s'] eqn:Hq; [|vm_compute in Hq; discriminate].
  destruct (quote_pattern_literal (T := target64) (B "a*[b]") 64 (no_variables, []) s' out Hq) as (-> & H & _).
  exists out. split; [reflexivity|exact H].
Defined.

(** [:=] for a variable with a value: the manual says the value, the evaluator
    appends nothing. *)
Example assign_set_yields_empty :
  (fst (evaluate (T := target64) assign_twice 64 box_set)) = Ok {| er_bytes := B "/mine"; er_depth := 0; er_assignments := [] |} /\
  fst <$> ref_expression (T := target64) manual_keeps (rb_lookup box_set) (fun _ => None) assign_twice ∅ = Some (B "mine/mine").
Proof. split; vm_compute; reflexivity. Qed.
