(* ===== verification/ShellEvalKeeps.v ===== *)
(** What an evaluation keeps ([ShellEval]): a property that every operation of a
    context keeps holds after the evaluation of any expression, and an error of
    an evaluation is one the context makes. *)
From stdpp Require Import gmap pretty.
From S2P Require Import Prelude Config Numbers Limits ShellPattern ShellEval.
#[local] Open Scope Z_scope.
#[local] Existing Instance eval_ret.
#[local] Existing Instance eval_bind.

Section keeps.
Context {T : Target} {C E : Type} {context : EvaluationContext C E}.
(** What holds of the context, and what the errors are. *)
Context (Q : C -> Prop) (known : E -> Prop).

Definition answers {A} (p : result E A * C) : Prop := Q p.2 /\ forall e, p.1 = Err e -> known e.

(** The operations of a context that do so. *)
Record keeping := {
  k_variable : forall c name, Q c -> answers (variable c name);
  k_command : forall c text limit, Q c -> answers (command c text limit);
  k_regex_quoted : forall c name limit, Q c -> answers (regex_quoted c name limit);
  k_missing : forall c name, Q c -> known (missing_variable c name);
  k_required : forall c name, Q c -> known (required_parameter c name);
  k_pattern : forall c e, Q c -> known (pattern_error c e);
  k_depth : forall c, Q c -> known (depth_exceeded c);
  k_overflow : forall c, Q c -> known (depth_overflow c);
  k_length : forall c e current limit, Q c -> known (length_error c e current limit);
}.
Context (Hk : keeping).

Abbreviation Ev := (@Eval C E) (only parsing).
Definition keeps {A} (m : Ev A) : Prop := forall s, Q s.1 -> Q (m s).2.1 /\ forall e, (m s).1 = Err e -> known e.

Lemma keeps_pure {A} (a : A) : keeps (mret a : Ev A).
Proof. by intros s Hs. Qed.
Lemma keeps_then {A A'} (m : Ev A) (f : A -> Ev A') : keeps m -> (forall a, keeps (f a)) -> keeps (m ≫= f).
Proof.
  intros Hm Hf s Hs. unfold mbind, eval_bind. destruct (Hm s Hs) as [HQ He]. destruct (m s) as [[a|e] s1]; cbn in *.
  - by apply Hf.
  - split; [done|]. intros e' [= <-]. by apply He.
Qed.
Lemma keeps_fail {A} (f : C -> E) : (forall c, Q c -> known (f c)) -> keeps (fail f : Ev A).
Proof. intros Hf s Hs. split; [done|]. intros e [= <-]. by apply Hf. Qed.
Lemma keeps_reading {A} (f : C -> result E A) : (forall c e, Q c -> f c = Err e -> known e) -> keeps (fun s => (f s.1, s)).
Proof. intros Hf s Hs. split; [done|]. intros e He. by eapply Hf. Qed.
Lemma keeps_from {A} (f : C -> result E A * C) : (forall c, Q c -> answers (f c)) -> keeps (from_context f).
Proof. intros Hf s Hs. unfold from_context. specialize (Hf s.1 Hs). by destruct (f s.1) as [r c]. Qed.

Lemma keeps_append output value limit : keeps (append_bytes output value limit).
Proof.
  apply (keeps_reading (fun c => map_err (fun error => length_error c error (bb_len output) limit) (try_extend output value))).
  intros c e Hc. destruct (try_extend output value); [done|]. intros [= <-]. by apply (k_length Hk).
Qed.
Lemma keeps_remaining output limit : keeps (remaining output limit).
Proof.
  apply (keeps_reading (fun c => map_err (fun error => length_error c error (bb_len output) limit) (bb_remaining output))).
  intros c e Hc. destruct (bb_remaining output); [done|]. intros [= <-]. by apply (k_length Hk).
Qed.
Lemma keeps_quote_loop l quoted limit : keeps (quote_loop l quoted limit).
Proof.
  revert quoted. induction l as [|b l IH]; intros quoted; cbn [quote_loop]; [apply keeps_pure|].
  apply keeps_then; [destruct (_ || _); [apply keeps_append|apply keeps_pure]|]. intros q. apply keeps_then; [apply keeps_append|]. apply IH.
Qed.
Lemma keeps_quote l limit : keeps (quote_pattern_bytes l limit).
Proof. apply keeps_then; [apply keeps_quote_loop|]. intros; apply keeps_pure. Qed.
Lemma keeps_pattern {A} (r : result PatternError A) : keeps (fun s => (map_err (fun error => pattern_error s.1 error) r, s)).
Proof.
  apply (keeps_reading (fun c => map_err (fun error => pattern_error c error) r)). intros c e Hc. destruct r; [done|].
  intros [= <-]. by apply (k_pattern Hk).
Qed.
Lemma keeps_checked n : keeps (fun s => (ok_or (depth_overflow s.1) (checked_add n 1), s)).
Proof.
  apply (keeps_reading (fun c => ok_or (depth_overflow c) (checked_add n 1))). intros c e Hc. destruct (checked_add n 1); [done|].
  intros [= <-]. by apply (k_overflow Hk).
Qed.
Lemma keeps_selected_depth vd nesting u e : keeps (fun s => selected_depth (depth_mode s.1) vd nesting u e s).
Proof.
  intros s Hs. unfold selected_depth. split; [done|]. intros err. cbn.
  assert (forall n : option nat, ok_or (depth_overflow s.1) n = Err err -> known err) as Hover.
  { intros [n|]; [done|]. intros [= <-]. by apply (k_overflow Hk). }
  assert (forall n, (if (MAX_EXPANSION_DEPTH <? n)%nat then Err (depth_exceeded s.1) else Ok n) = Err err -> known err) as Hdeep.
  { intros n. destruct (_ <? n)%nat; [|done]. intros [= <-]. by apply (k_depth Hk). }
  destruct (depth_mode s.1); cbn; [done| |].
  - destruct (checked_add vd 1); cbn; [by apply Hdeep|by apply (Hover None)].
  - destruct u; [by apply Hdeep|]. destruct e; [by apply Hdeep|]. destruct (checked_add nesting 1); cbn; [by apply Hdeep|by apply (Hover None)].
Qed.
Lemma keeps_require found name : keeps (require_value found name).
Proof. destruct found; [apply keeps_pure|]. apply keeps_fail. intros. by apply (k_missing Hk). Qed.
Lemma keeps_lookup name : keeps (lookup_variable name).
Proof.
  intros s Hs. unfold lookup_variable. destruct (find_assignment _ _); [done|].
  by apply (keeps_from (fun c => variable c name)); [intros; apply (k_variable Hk)|].
Qed.

Create HintDb evk.
Section body.
Context (rec : ShellExpression -> Z -> nat -> Ev EvaluationResult) (Hrec : forall e limit nesting, keeps (rec e limit nesting)).
#[local] Hint Resolve keeps_pure keeps_then keeps_append keeps_remaining keeps_quote keeps_pattern keeps_checked keeps_selected_depth keeps_require
  keeps_lookup : evk.

Lemma keeps_word word output limit nesting : keeps (evaluate_word rec word output limit nesting).
Proof. unfold evaluate_word. apply keeps_then; [apply keeps_remaining|]. intros rest. apply keeps_then; [apply keeps_checked|]. auto with evk. Qed.
#[local] Hint Resolve keeps_word : evk.

Lemma keeps_variable_part name op output depth limit nesting : keeps (evaluate_variable rec name op output depth limit nesting).
Proof.
  unfold evaluate_variable. apply keeps_then; [apply keeps_lookup|]. intros found. cbv zeta.
  assert (keeps (x ← require_value found name; o ← append_bytes output (decimal (length (vv_bytes x))) limit; mret (o, Nat.max depth (vv_depth x)))) as Hlen
    by eauto 10 with evk.
  set (general := if is_required op && _ then _ else _ : Ev (BoundedBytes * nat)).
  assert (keeps general) as Hgeneral.
  { subst general. destruct (is_required op && _); [apply keeps_fail; intros; by apply (k_required Hk)|].
    apply keeps_then.
    - destruct (selected_word _ _ _); [eauto 10 with evk|]. destruct (uses_value_when_word_is_not_selected op); eauto 10 with evk.
    - intros [[selected used] empty]. apply keeps_then.
      + destruct (is_assignment op && _); [by intros s Hs|apply keeps_pure].
      + intros _. apply keeps_then; [apply keeps_selected_depth|]. eauto 10 with evk. }
  destruct op; cbn [removal_operation]; try exact Hgeneral; try exact Hlen;
    (apply keeps_then; [apply keeps_require|]; intros x; apply keeps_then; [apply keeps_word|]; intros w; apply keeps_then; [apply keeps_pattern|]; eauto 10 with evk).
Qed.
Lemma keeps_part part output depth limit nesting : keeps (evaluate_part rec part output depth limit nesting).
Proof.
  destruct part as [text|name op|name|cmd|e]; cbn [evaluate_part]; [eauto 10 with evk|apply keeps_variable_part|..];
    (apply keeps_then; [apply keeps_remaining|]; intros rest).
  - apply keeps_then; [apply keeps_from; intros; by apply (k_regex_quoted Hk)|eauto 10 with evk].
  - apply keeps_then; [apply keeps_from; intros; by apply (k_command Hk)|eauto 10 with evk].
  - eauto 10 with evk.
Qed.
Lemma keeps_parts ps output depth limit nesting : keeps (evaluate_parts rec ps output depth limit nesting).
Proof.
  revert output depth. induction ps as [|p ps IH]; intros output depth; cbn [evaluate_parts]; [apply keeps_pure|].
  apply keeps_then; [apply keeps_part|]. intros [o d]. apply IH.
Qed.
End body.

Lemma keeps_at fuel e limit nesting : keeps (evaluate_at fuel e limit nesting).
Proof.
  revert e limit nesting. induction fuel as [|fuel IH]; intros e limit nesting; cbn [evaluate_at].
  { apply keeps_fail. intros. by apply (k_depth Hk). }
  destruct (_ <? nesting)%nat; [apply keeps_fail; intros; by apply (k_depth Hk)|].
  apply keeps_then; [by intros s Hs|]. intros mode. apply keeps_then; [by apply keeps_parts|]. intros [o d]. apply keeps_pure.
Qed.

Lemma evaluate_keeps e limit c : Q c -> answers (evaluate e limit c).
Proof.
  intros Hc. unfold evaluate, answers. destruct (keeps_at (expression_depth e) e limit 0 (c, []) Hc) as [HQ He].
  destruct (evaluate_at _ _ _ _ _) as [r [c' a]]. cbn in *. split; [done|]. destruct r; [done|]. intros e' [= <-]. by apply He.
Qed.
End keeps.
