(* ===== verification/ExprParser.v ===== *)
(** The parser of shell expressions: the second half of
    [src/src/config/expand.rs].  The source keeps the text and an index; here
    the state is the text that is left.  A nested word is parsed by the same
    scanner one level deeper, and the depth is checked before it is entered. *)
From stdpp Require Import gmap pretty.
From S2P Require Import Prelude Numbers Config Limits Utf8 Variables ShellPattern ShellEval.
#[local] Open Scope Z_scope.

Abbreviation c_DOLLAR := 36 (only parsing).
Abbreviation c_LBRACE := 123 (only parsing).
Abbreviation c_RBRACE := 125 (only parsing).
Abbreviation c_BACKQUOTE := 96 (only parsing).

(** Source: config/expand.rs `enum ExpressionSyntax` *)
Inductive ExpressionSyntax := Ordinary (allow_commands : bool) | ShellCondition.
(** Source: config/expand.rs `enum QuoteMode` *)
Inductive QuoteMode := Unquoted | Single | Double.
#[export] Instance QuoteMode_eq_dec : EqDecision QuoteMode.
Proof. solve_decision. Defined.

(** Source: config/expand.rs `fn allows_commands` *)
Definition allows_commands (syntax : ExpressionSyntax) : bool :=
  match syntax with Ordinary allow_commands => allow_commands | ShellCondition => true end.
Definition is_ordinary (syntax : ExpressionSyntax) : bool :=
  match syntax with Ordinary _ => true | ShellCondition => false end.

(** Source: config/expand.rs `fn escapes(self` *)
Definition escapes (syntax : ExpressionSyntax) (quote : QuoteMode) (b : byte) : bool :=
  match syntax, quote with
  | Ordinary _, Unquoted => true
  | Ordinary _, Double => existsb (Z.eqb b) [c_DOLLAR; c_BACKQUOTE; c_QUOTE; c_BSLASH; c_LF]
  | Ordinary _, Single => false
  | ShellCondition, _ => existsb (Z.eqb b) [c_DOLLAR; c_BACKQUOTE; c_QUOTE; c_BSLASH]
  end.

(** Source: config/expand.rs `fn invalid_utf8_message` *)
Definition invalid_utf8_message (syntax : ExpressionSyntax) : bytes :=
  match syntax with
  | Ordinary _ => B "expression contains invalid UTF-8"
  | ShellCondition => B "shell-expanded condition contains invalid UTF-8"
  end.
(** Source: config/expand.rs `fn unterminated_command_message` *)
Definition unterminated_command_message (syntax : ExpressionSyntax) : bytes :=
  match syntax with
  | Ordinary _ => B "unterminated backquoted command in expression"
  | ShellCondition => B "unterminated backquoted command in shell-expanded condition"
  end.

(** Source: config/expand.rs `fn new(line: usize, message` *)
Definition expansion_error (line : nat) (message : bytes) : ExpansionError := {| ex_line := line; ex_message := message |}.

(** Source: config/expand.rs `fn push_literal_part` *)
Definition push_literal_part (parts : list ShellPart) (text : bytes) : list ShellPart :=
  if bool_decide (text = []) then parts
  else
    match last parts with
    | Some (Literal previous) => removelast parts ++ [Literal (previous ++ text)]
    | _ => parts ++ [Literal text]
    end.

(** Source: config/expand.rs `fn push_expression_character` *)
Definition push_expression_character (literal character : bytes) (pattern_quoted : bool) : bytes :=
  literal ++ (if pattern_quoted && existsb (bytes_eqb character) [[c_STAR]; [c_QM]; [c_LBRACK]; [c_BSLASH]] then [c_BSLASH] else [])
          ++ character.

(** Source: config/expand.rs `fn check_expansion_depth` *)
Definition check_expansion_depth (depth line : nat) : result ExpansionError () :=
  if (MAX_EXPANSION_DEPTH <? depth)%nat then Err (expansion_depth_error line) else Ok ().

(** Source: config/expand.rs `fn is_name_start` *)
Definition is_name_start (b : byte) : bool := (b =? c_UNDER) || (is_ascii_uppercase b || is_ascii_lowercase b).
(** Source: config/expand.rs `fn is_name_continue` *)
Definition is_name_continue (b : byte) : bool := (b =? c_UNDER) || is_ascii_alphanumeric b.

(** Source: config/expand.rs `fn validate_reference_name` *)
Definition validate_reference_name (name : bytes) (line : nat) : result ExpansionError () :=
  match name with
  | first :: rest => if is_name_start first && forallb is_name_continue rest then Ok ()
                     else Err (expansion_error line (B "variable reference contains an invalid name"))
  | [] => Err (expansion_error line (B "variable reference contains an invalid name"))
  end.

(** [text.chars().next()] with its bytes, and the rest. *)
Definition split_char (l : bytes) : option (bytes * bytes) :=
  match next_char l with Some (_, rest) => Some (take (length l - length rest) l, rest) | None => None end.

(** The longest prefix whose bytes satisfy [p], and the rest. *)
Fixpoint span (p : byte -> bool) (l : bytes) : bytes * bytes :=
  match l with
  | [] => ([], [])
  | b :: l' => if p b then let '(x, y) := span p l' in (b :: x, y) else ([], l)
  end.

(** * The parser *)

Section parser.
Context {T : Target} (line : nat) (syntax : ExpressionSyntax).

(** The bytes up to the backquote that closes the command. *)
Fixpoint command_text (l : bytes) (escaped : bool) : option (bytes * bytes) :=
  match l with
  | [] => None
  | b :: l' =>
      if negb escaped && (b =? c_BACKQUOTE) then Some ([], l')
      else '(text, rest) ← command_text l' (negb escaped && (b =? c_BSLASH)); Some (b :: text, rest)
  end.

(** The text starts after the opening backquote.
    Source: config/expand.rs `fn parse_command(&mut self)` *)
Definition parse_command (l : bytes) : result ExpansionError (ShellPart * bytes) :=
  '(text, rest) ← ok_or (expansion_error line (unterminated_command_message syntax)) (command_text l false);
  Ok (Command text, rest).

(** Source: config/expand.rs `fn parse_name(&mut self)` *)
Definition parse_name (l : bytes) : bytes * bytes :=
  match l with
  | b :: l' => if is_name_start b then let '(x, rest) := span is_name_continue l' in (b :: x, rest) else ([], l)
  | [] => ([], [])
  end.

(** Source: config/expand.rs `fn parse_positional_parameter` *)
Definition parse_positional_parameter (l : bytes) : result ExpansionError (bytes * bytes) :=
  let '(name, rest) := span is_ascii_digit l in
  index ← ok_or (expansion_error line (B "positional parameter index is too large")) (parse_usize name);
  if negb ((1 <=? index) && (index <=? Z.of_nat MAX_POSITIONAL_ARGUMENTS)) then
    Err (expansion_error line (B "positional parameter index must be from 1 through " ++ decimal MAX_POSITIONAL_ARGUMENTS))
  else Ok (name, rest).

(** Where the scanner stands: the parts, the literal being collected, the
    quotes, whether a word has begun, and the text that is left. *)
Record ScanState := {
  ss_parts : list ShellPart; ss_literal : bytes; ss_quote : QuoteMode; ss_started : bool; ss_rest : bytes;
}.

Section level.
(** [parse_until] one level deeper, with [stop_at_brace]. *)
Context (parse_nested : QuoteMode -> bool -> bytes -> result ExpansionError (ShellExpression * bytes)).

(** Source: config/expand.rs `fn parse_parameter_word` *)
Definition parse_parameter_word (quote : QuoteMode) (operator_width : nat) (pattern_word : bool) (l : bytes)
    : result ExpansionError (ShellExpression * bytes) :=
  '(word, rest) ← parse_nested quote pattern_word (drop operator_width l);
  match rest with
  | b :: rest' => if b =? c_RBRACE then Ok (word, rest') else Err (expansion_error line (B "variable reference is missing '}'"))
  | [] => Err (expansion_error line (B "variable reference is missing '}'"))
  end.

(** The operators, by their spelling: how to build the operation, and whether
    its word is a pattern whatever surrounds it. *)
Definition operators (pattern_word : bool) : list (bytes * (ShellExpression -> ParameterOperation) * bool) := [
  (B ":-", DefaultIfUnsetOrEmpty, pattern_word); (B ":+", AlternateIfSetAndNotEmpty, pattern_word);
  (B ":=", AssignIfUnsetOrEmpty, pattern_word); (B ":?", ErrorIfUnsetOrEmpty, pattern_word);
  (B "##", fun w => RemovePrefix w true, true); (B "%%", fun w => RemoveSuffix w true, true);
  (B "^^", fun w => ChangeCase w Upper true, true); (B ",,", fun w => ChangeCase w Lower true, true);
  (B "#", fun w => RemovePrefix w false, true); (B "%", fun w => RemoveSuffix w false, true);
  (B "^", fun w => ChangeCase w Upper false, true); (B ",", fun w => ChangeCase w Lower false, true);
  (B "-", DefaultIfUnset, pattern_word); (B "+", AlternateIfSet, pattern_word)].

(** The text starts after the brace.
    Source: config/expand.rs `fn parse_braced_variable` *)
Definition parse_braced_variable (quote : QuoteMode) (pattern_word : bool) (l : bytes)
    : result ExpansionError (bytes * ParameterOperation * bytes) :=
  if starts_with l (B "#}") then Ok ([c_HASH], Value, drop 2 l)
  else if starts_with l [c_HASH] then
    let '(name, rest) := parse_name (drop 1 l) in
    _ ← validate_reference_name name line;
    if starts_with rest [c_RBRACE] then Ok (name, Length_, drop 1 rest)
    else Err (expansion_error line (B "${#NAME} does not accept a trailing expression"))
  else if match l with b :: _ => is_ascii_digit b | [] => false end then
    '(name, rest) ← parse_positional_parameter l;
    if starts_with rest [c_RBRACE] then Ok (name, Value, drop 1 rest)
    else Err (expansion_error line (B "positional parameter does not accept an operator"))
  else
    let '(name, rest) := parse_name l in
    _ ← validate_reference_name name line;
    match List.find (fun '(spelling, _, _) => starts_with rest spelling) (operators pattern_word) with
    | Some (spelling, operation, pattern) =>
        if bytes_eqb spelling (B ":=") && negb (bool_decide (variable_policy name = RcOrCommandLine User)) then
          Err (expansion_error line (B "parameter assignment cannot modify protected variable " ++ name))
        else
          '(word, rest) ← parse_parameter_word quote (length spelling) pattern rest;
          Ok (name, operation word, rest)
    | None =>
        if starts_with rest [c_RBRACE] then Ok (name, Value, drop 1 rest)
        else Err (expansion_error line (B "unsupported parameter expansion operator"))
    end.

(** The name and the operation after the dollar; [None] where the dollar is
    only a dollar. *)
Definition parse_reference (quote : QuoteMode) (pattern_word regex_escape : bool) (first : byte) (l : bytes)
    : result ExpansionError (option (bytes * ParameterOperation) * bytes) :=
  let refuse message := Err (expansion_error line message) in
  if first =? c_LBRACE then
    if regex_escape then refuse (B "regex-escaped condition variables use $\NAME syntax")
    else '(name, operation, rest) ← parse_braced_variable quote pattern_word (drop 1 l); Ok (Some (name, operation), rest)
  else if is_ascii_digit first then
    if regex_escape then refuse (B "regex-escaped positional parameters are not supported")
    else '(name, rest) ← parse_positional_parameter l; Ok (Some (name, Value), rest)
  else if first =? c_HASH then
    if regex_escape then refuse (B "regex-escaped argument count is not supported")
    else Ok (Some ([c_HASH], Value), drop 1 l)
  else if existsb (Z.eqb first) [c_DOLLAR; c_QM; c_UNDER; c_DASH] then
    if regex_escape then refuse (B "regex-escaped special parameters are not supported")
    else Ok (Some ([first], Value), drop 1 l)
  else if negb (is_name_start first) then
    match syntax with
    | ShellCondition =>
        if existsb (Z.eqb first) [c_EQ; c_AT; c_STAR] then refuse (B "unsupported special parameter in shell-expanded condition")
        else Ok (None, l)
    | Ordinary _ => refuse (B "unsupported special parameter in expression")
    end
  else let '(name, rest) := parse_name l in Ok (Some (name, Value), rest).

(** The text starts after the dollar.
    Source: config/expand.rs `fn parse_variable(` *)
Definition parse_variable (quote : QuoteMode) (literal : bytes) (pattern_word : bool) (l : bytes)
    : result ExpansionError (option ShellPart * bytes * bytes) :=
  let regex_escape := negb (is_ordinary syntax) && starts_with l [c_BSLASH] in
  let l := if regex_escape then drop 1 l else l in
  match l with
  | [] =>
      if regex_escape then Err (expansion_error line (B "regex-escaped condition variable is missing its name"))
      else if is_ordinary syntax then Err (expansion_error line (B "'$' must be followed by NAME or {NAME}"))
      else Ok (None, literal ++ [c_DOLLAR], l)
  | first :: _ =>
      '(found, rest) ← parse_reference quote pattern_word regex_escape first l;
      match found with
      | None => Ok (None, literal ++ [c_DOLLAR], rest)
      | Some (name, operation) =>
          if negb (is_positional_parameter_name name) && bool_decide (variable_policy name = Unsupported) then
            Err (expansion_error line (B "procmail variable " ++ name ++ B " is not supported"))
          else if regex_escape then Ok (Some (RegexQuotedVariable name), literal, rest)
          else Ok (Some (Variable_ name operation), literal, rest)
      end
  end.

Section scan.
Context (stop_at_brace stop_at_word : bool) (initial_quote : QuoteMode) (pattern_word : bool).

Definition quoted (s : ScanState) : bool := pattern_word && negb (bool_decide (ss_quote s = initial_quote)).
Definition add_text (s : ScanState) (character : bytes) (pattern_quoted : bool) (rest : bytes) : ScanState :=
  {| ss_parts := ss_parts s; ss_literal := push_expression_character (ss_literal s) character pattern_quoted;
     ss_quote := ss_quote s; ss_started := true; ss_rest := rest |}.
Definition turn_quote (s : ScanState) (quote : QuoteMode) (started : bool) (rest : bytes) : ScanState :=
  {| ss_parts := ss_parts s; ss_literal := ss_literal s; ss_quote := quote; ss_started := started; ss_rest := rest |}.
Definition add_part (s : ScanState) (part : ShellPart) (literal rest : bytes) : ScanState :=
  {| ss_parts := push_literal_part (ss_parts s) (ss_literal s) ++ [if quoted s then PatternQuote (MkShellExpression [part]) else part];
     ss_literal := literal; ss_quote := ss_quote s; ss_started := true; ss_rest := rest |}.

(** The change of quotes by an unescaped quote. *)
Definition turned (s : ScanState) (b : byte) (rest : bytes) : option ScanState :=
  if negb (is_ordinary syntax) then None
  else
    match ss_quote s with
    | Unquoted =>
        if b =? c_APOS then Some (turn_quote s Single true rest)
        else if b =? c_QUOTE then Some (turn_quote s Double true rest) else None
    | Single => if b =? c_APOS then Some (turn_quote s Unquoted (ss_started s) rest) else None
    | Double => if b =? c_QUOTE then Some (turn_quote s Unquoted (ss_started s) rest) else None
    end.

Definition scan_character (s : ScanState) (l : bytes) (pattern_quoted : bool) : result ExpansionError (option ScanState) :=
  '(character, rest) ← ok_or (expansion_error line (invalid_utf8_message syntax)) (split_char l);
  Ok (Some (add_text s character pattern_quoted rest)).

(** One turn of the [while] loop; [None] where it ends.
    Source: config/expand.rs:2415-2531 `parse_until (while loop)` *)
Definition scan_step (s : ScanState) : result ExpansionError (option ScanState) :=
  match ss_rest s with
  | [] => Ok None
  | b :: rest =>
      if stop_at_brace && bool_decide (ss_quote s = initial_quote) && (b =? c_RBRACE) then Ok None
      else if stop_at_word && bool_decide (ss_quote s = Unquoted) && (is_blank b || ((b =? c_HASH) && negb (ss_started s))) then Ok None
      else
        match turned s b rest with
        | Some s' => Ok (Some s')
        | None =>
            if bool_decide (ss_quote s = Single) then scan_character s (b :: rest) (quoted s)
            else if b =? c_BSLASH then
              match rest with
              | [] => Ok (Some (add_text s [c_BSLASH] (quoted s) rest))
              | next :: _ =>
                  if negb (escapes syntax (ss_quote s) next) then Ok (Some (add_text s [c_BSLASH] (quoted s) rest))
                  else scan_character s rest pattern_word
              end
            else if allows_commands syntax && (b =? c_BACKQUOTE) then
              '(part, rest) ← parse_command rest; Ok (Some (add_part s part [] rest))
            else if negb (b =? c_DOLLAR) then scan_character s (b :: rest) (quoted s)
            else
              '(part, literal, rest) ← parse_variable (ss_quote s) [] pattern_word rest;
              Ok (Some
                match part with
                | Some part => add_part s part literal rest
                | None => {| ss_parts := push_literal_part (ss_parts s) (ss_literal s); ss_literal := literal;
                             ss_quote := ss_quote s; ss_started := true; ss_rest := rest |}
                end)
        end
  end.

(** Every turn takes at least a byte, so the length of the text is fuel enough. *)
Fixpoint scan_loop (fuel : nat) (s : ScanState) : result ExpansionError ScanState :=
  match fuel with
  | O => Ok s
  | S fuel' => next ← scan_step s; match next with Some s' => scan_loop fuel' s' | None => Ok s end
  end.

(** Source: config/expand.rs `fn parse_until(` *)
Definition parse_level (l : bytes) : result ExpansionError (ShellExpression * bytes) :=
  s ← scan_loop (S (length l)) {| ss_parts := []; ss_literal := []; ss_quote := initial_quote; ss_started := false; ss_rest := l |};
  let parts := push_literal_part (ss_parts s) (ss_literal s) in
  if negb (bool_decide (ss_quote s = initial_quote)) then
    Err (expansion_error line (B "unterminated " ++ (if bool_decide (ss_quote s = Single) then B "single" else B "double") ++ B "-quoted expression"))
  else if stop_at_brace && bool_decide (ss_rest s = []) then Err (expansion_error line (B "variable reference is missing '}'"))
  else Ok (MkShellExpression parts, ss_rest s).
End scan.
End level.

(** [levels] is the number of levels left: with none the depth is exceeded. *)
Fixpoint parse_word (levels nesting : nat) (quote : QuoteMode) (pattern_word : bool) (l : bytes)
    : result ExpansionError (ShellExpression * bytes) :=
  match levels with
  | O => Err (expansion_depth_error line)
  | S levels' =>
      _ ← check_expansion_depth nesting line;
      parse_level (parse_word levels' (S nesting)) true false quote pattern_word l
  end.

Definition parse_top (stop_at_word : bool) (l : bytes) : result ExpansionError (ShellExpression * bytes) :=
  parse_level (parse_word MAX_EXPANSION_DEPTH 1) false stop_at_word Unquoted false l.

(** Source: config/expand.rs `fn parse(mut self)` *)
Definition parse (input : bytes) : result ExpansionError ShellExpression := fst <$> parse_top false input.
End parser.

(** Source: config/expand.rs `pub(crate) fn parse_shell_condition_expression` *)
Definition parse_shell_condition_expression {T : Target} (input : bytes) (line : nat) : result ExpansionError ShellExpression :=
  parse line ShellCondition input.

(** Source: config/expand.rs `pub(crate) struct ParsedAssignmentWord` *)
Record ParsedAssignmentWord := { pw_source : bytes; pw_expression : ShellExpression }.

Definition assignment_messages : list (bytes * bytes) := [
  (B "unterminated single-quoted expression", B "unterminated single-quoted assignment value");
  (B "unterminated double-quoted expression", B "unterminated double-quoted assignment value");
  (B "unterminated backquoted command in expression", B "unterminated backquoted command in assignment value")].

(** Source: config/expand.rs `fn parse_assignment_word(mut self)` *)
Definition parse_assignment_word {T : Target} (input : bytes) (line : nat) : result ExpansionError ParsedAssignmentWord :=
  '(expression, rest) ← map_err (fun error => {| ex_line := ex_line error;
                            ex_message := default (ex_message error) (table_lookup assignment_messages (ex_message error)) |})
                          (parse_top line (Ordinary true) true input);
  let trailing := str_trim_start rest in
  if negb (bool_decide (trailing = [])) && negb (starts_with trailing [c_HASH]) then
    Err (expansion_error line (B "assignment value contains more than one shell word"))
  else Ok {| pw_source := take (length input - length rest) input; pw_expression := expression |}.

(** Source: config/expand.rs `fn parse_assignment_expression(` *)
Definition parse_assignment_expression {T : Target} (input : bytes) (line : nat) : result ExpansionError ShellExpression :=
  parse line (Ordinary false) input.
(** Source: config/expand.rs `fn parse_expression(` *)
Definition parse_expression {T : Target} (input : bytes) (line : nat) : result ExpansionError ShellExpression :=
  parse_assignment_expression input line.
(** Source: config/mod.rs `pub(crate) fn requires_ordered_evaluation` *)
Definition requires_ordered_evaluation (e : ShellExpression) : bool := has_commands e || has_assignments e.
(** Source: config/expand.rs `pub(crate) fn parse_command_expression` *)
Definition parse_command_expression {T : Target} (input : bytes) (line : nat) : result ExpansionError (option ShellExpression) :=
  expression ← parse line (Ordinary true) input;
  Ok (if requires_ordered_evaluation expression then Some expression else None).

Example parse_default : parse_expression (B "a${X:-b$Y}'$c'") 1 =
  Ok (MkShellExpression [Literal (B "a"); Variable_ (B "X") (DefaultIfUnsetOrEmpty (MkShellExpression [Literal (B "b"); Variable_ (B "Y") Value])); Literal (B "$c")]).
Proof. vm_compute. reflexivity. Qed.

(** * Well-formed expressions *)

Section well_formed.
Context {T : Target} (syntax : ExpressionSyntax).

Definition is_literal (p : ShellPart) : bool := match p with Literal _ => true | _ => false end.

(** Literals are not empty and do not touch. *)
Fixpoint normalized (ps : list ShellPart) : bool :=
  match ps with
  | Literal text :: (p :: _) as rest => negb (bool_decide (text = [])) && negb (is_literal p) && normalized rest
  | Literal text :: rest => negb (bool_decide (text = [])) && normalized rest
  | _ :: rest => normalized rest
  | [] => true
  end.

(** A name of a positional or special parameter, which takes no operator. *)
Definition special_name (name : bytes) : bool :=
  existsb (bytes_eqb name) [[c_HASH]; [c_DOLLAR]; [c_QM]; [c_UNDER]; [c_DASH]] || is_positional_parameter_name name.
Definition plain_name (name : bytes) : bool :=
  match name with first :: rest => is_name_start first && forallb is_name_continue rest | [] => false end.
Definition is_value (op : ParameterOperation) : bool := match op with Value => true | _ => false end.

(** What may be referred to: no variable the program refuses, an operator on a
    name only, and an assignment to a variable of the user only. *)
Definition reference_allowed (name : bytes) (op : ParameterOperation) : bool :=
  (plain_name name || is_value op && special_name name) &&
  (is_positional_parameter_name name || negb (bool_decide (variable_policy name = Unsupported))) &&
  (negb (is_assignment op) || bool_decide (variable_policy name = RcOrCommandLine User)).

Definition is_one_part (e : ShellExpression) : bool :=
  match e with MkShellExpression [Variable_ _ _] | MkShellExpression [Command _] | MkShellExpression [RegexQuotedVariable _] => true | _ => false end.

(** An expression whose words nest at most [levels] deep. *)
Fixpoint wf_expression (levels : nat) (e : ShellExpression) {struct e} : bool :=
  match e with MkShellExpression ps => normalized ps && forallb (wf_part levels) ps end
with wf_part (levels : nat) (p : ShellPart) {struct p} : bool :=
  match p with
  | Literal _ => true
  | Variable_ name op => reference_allowed name op && wf_operation levels op
  | RegexQuotedVariable name => negb (is_ordinary syntax) && reference_allowed name Value
  | Command _ => allows_commands syntax
  | PatternQuote e => is_one_part e && wf_expression levels e
  end
with wf_operation (levels : nat) (op : ParameterOperation) {struct op} : bool :=
  match op with
  | Value | Length_ => true
  | DefaultIfUnset w | DefaultIfUnsetOrEmpty w | AlternateIfSet w | AlternateIfSetAndNotEmpty w
  | AssignIfUnsetOrEmpty w | ErrorIfUnsetOrEmpty w => match levels with O => false | S l => wf_expression l w end
  | RemovePrefix p _ | RemoveSuffix p _ | ChangeCase p _ _ => match levels with O => false | S l => wf_expression l p end
  end.
End well_formed.

(** * What the parser gives *)

Section facts.
Context {T : Target} (line : nat) (syntax : ExpressionSyntax).

Lemma wf_variable levels name op :
  wf_part syntax levels (Variable_ name op) = reference_allowed name op && wf_operation syntax levels op.
Proof. done. Qed.
Lemma wf_quote levels e : wf_part syntax levels (PatternQuote e) = is_one_part e && wf_expression syntax levels e.
Proof. done. Qed.
Lemma wf_parts levels ps : wf_expression syntax levels (MkShellExpression ps) = normalized ps && forallb (wf_part syntax levels) ps.
Proof. done. Qed.

Lemma normalized_snoc ps p :
  normalized (ps ++ [p]) =
  normalized ps && match p with
                   | Literal text => negb (bool_decide (text = [])) && negb match last ps with Some q => is_literal q | None => false end
                   | _ => true
                   end.
Proof.
  induction ps as [|q ps IH]; [by destruct p; cbn; rewrite ?andb_true_r|].
  destruct ps as [|q' ps].
  - destruct q as [t|n o|n|c|e], p as [t'|n' o'|n'|c'|e']; cbn; rewrite ?andb_true_r, ?andb_false_r; try done;
      by destruct (bool_decide (t = [])).
  - change (last (q :: q' :: ps)) with (last (q' :: ps)).
    change ((q :: q' :: ps) ++ [p]) with (q :: (q' :: ps) ++ [p]).
    destruct q as [t|n o|n|c|e]; cbn [normalized app] in *; rewrite IH; try done. by rewrite <-!andb_assoc.
Qed.

Lemma push_literal_wf f ps text :
  (forall t, f (Literal t) = true) ->
  normalized ps = true -> forallb f ps = true ->
  normalized (push_literal_part ps text) = true /\ forallb f (push_literal_part ps text) = true.
Proof.
  intros Hf Hn Ha. unfold push_literal_part. case_bool_decide as Ht; [done|].
  assert (match last ps with Some q => is_literal q | None => false end = false ->
    normalized (ps ++ [Literal text]) = true /\ forallb f (ps ++ [Literal text]) = true) as Hsnoc.
  { intros Hl. rewrite normalized_snoc, forallb_app, Hn, Ha, Hl. cbn. by rewrite Hf, bool_decide_eq_false_2. }
  destruct (last ps) as [[previous| | | |]|] eqn:Hl; try by apply Hsnoc.
  apply last_Some in Hl as [ps' ->]. rewrite removelast_last. rewrite normalized_snoc in *. rewrite forallb_app in *.
  apply andb_true_iff in Hn as [-> Hn]. apply andb_true_iff in Ha as [-> _]. apply andb_true_iff in Hn as [_ ->].
  cbn. rewrite Hf, bool_decide_eq_false_2; [done|]. intros [_ ?]%app_eq_nil. done.
Qed.

Lemma push_part_wf f ps p :
  is_literal p = false -> f p = true -> normalized ps = true -> forallb f ps = true ->
  normalized (ps ++ [p]) = true /\ forallb f (ps ++ [p]) = true.
Proof. intros Hl Hp Hn Ha. rewrite normalized_snoc, forallb_app, Hn, Ha. cbn. rewrite Hp. by destruct p. Qed.

Lemma span_spec p l x y :
  span p l = (x, y) -> l = x ++ y /\ forallb p x = true /\ match y with b :: _ => p b = false | [] => True end.
Proof.
  revert x y. induction l as [|b l IH]; intros x y; cbn [span]; [by intros [= <- <-]|].
  destruct (p b) eqn:Hb; [|by intros [= <- <-]]. destruct (span p l) as [x' y'] eqn:Hs. intros [= <- <-].
  destruct (IH _ _ eq_refl) as (-> & Hx & Hy). cbn. by rewrite Hb.
Qed.

Lemma parse_name_spec l x y :
  parse_name l = (x, y) -> l = x ++ y /\ (x = [] \/ plain_name x = true).
Proof.
  destruct l as [|b l]; cbn [parse_name]; [intros [= <- <-]; auto|].
  destruct (is_name_start b) eqn:Hb; [|intros [= <- <-]; auto].
  destruct (span is_name_continue l) as [x' y'] eqn:Hs. intros [= <- <-].
  apply span_spec in Hs as (-> & Hx & _). split; [done|]. right. cbn. by rewrite Hb, Hx.
Qed.

Lemma validate_reference_name_Ok name u : validate_reference_name name line = Ok u <-> plain_name name = true.
Proof. destruct u, name as [|b name]; cbn; [by split|]. by destruct (is_name_start b && forallb is_name_continue name). Qed.

Lemma parse_usize_nonempty s n : parse_usize s = Some n -> s <> [].
Proof. by intros H ->. Qed.

Lemma parse_positional_spec l name rest :
  parse_positional_parameter line l = Ok (name, rest) ->
  l = name ++ rest /\ is_positional_parameter_name name = true /\ forallb is_ascii_digit name = true.
Proof.
  unfold parse_positional_parameter. destruct (span is_ascii_digit l) as [x y] eqn:Hs.
  apply span_spec in Hs as (-> & Hx & _). intros (index & Hi%ok_or_Ok & H)%result_bind_Ok.
  destruct (negb _) eqn:Hr; [done|]. injection H as <- <-. split_and!; [done| |done].
  unfold is_positional_parameter_name. apply orb_true_iff. right. rewrite Hi.
  apply negb_false_iff in Hr. unfold between. rewrite Hr, andb_true_r. apply all_digits_true. split; [by eapply parse_usize_nonempty|done].
Qed.

Lemma command_text_length l e text rest : command_text l e = Some (text, rest) -> (length rest < length l)%nat.
Proof.
  revert e text rest. induction l as [|b l IH]; intros e text rest; cbn [command_text]; [done|].
  destruct (negb e && (b =? c_BACKQUOTE)); [intros [= <- <-]; cbn; lia|].
  intros ([t r] & Hc & [= <- <-])%bind_Some. apply IH in Hc. cbn. lia.
Qed.

Lemma split_char_spec l c rest : split_char l = Some (c, rest) -> l = c ++ rest /\ c <> [].
Proof.
  unfold split_char. destruct (next_char l) as [[x r]|] eqn:Hn; [|done]. intros [= <- <-].
  apply next_char_split in Hn as (b0 & tl & -> & _).
  rewrite length_app. replace (length (b0 :: tl) + length r - length r)%nat with (length (b0 :: tl)) by lia.
  by rewrite take_app_length.
Qed.

Section level.
Context (levels : nat) (parse_nested : QuoteMode -> bool -> bytes -> result ExpansionError (ShellExpression * bytes)).

Definition wf_word (e : ShellExpression) : bool := match levels with O => false | S l => wf_expression syntax l e end.
Definition nested_ok : Prop := forall quote pattern l e rest,
  parse_nested quote pattern l = Ok (e, rest) -> wf_word e = true /\ (length rest <= length l)%nat.
Context (Hnested : nested_ok).

Lemma operators_wf pattern_word :
  Forall (fun '(spelling, operation, _) => (spelling <> []) /\ forall w, wf_operation syntax levels (operation w) = wf_word w /\
    (is_assignment (operation w) = true -> spelling = B ":=")) (operators pattern_word).
Proof. repeat apply Forall_cons_2; try apply Forall_nil_2; (split; [done|]); intros w; split; done. Qed.

Lemma parse_parameter_word_Ok quote width pattern l w rest :
  parse_parameter_word line parse_nested quote width pattern l = Ok (w, rest) -> wf_word w = true /\ (length rest <= length l)%nat.
Proof.
  unfold parse_parameter_word. intros ([e r] & [Hw Hr]%Hnested & H)%result_bind_Ok.
  destruct r as [|b r]; [done|]. destruct (b =? c_RBRACE); [|done]. injection H as <- <-.
  split; [done|]. rewrite length_drop in Hr. cbn in Hr. lia.
Qed.

Lemma starts_with_length (l p : bytes) : starts_with l p = true -> (length p <= length l)%nat.
Proof. intros [r ->]%starts_with_true. rewrite length_app. lia. Qed.

Lemma parse_braced_variable_Ok quote pattern l name op rest :
  parse_braced_variable line parse_nested quote pattern l = Ok (name, op, rest) ->
  (plain_name name || is_value op && special_name name) = true /\
  (negb (is_assignment op) || bool_decide (variable_policy name = RcOrCommandLine User)) = true /\
  wf_operation syntax levels op = true /\ (length rest <= length l)%nat.
Proof.
  unfold parse_braced_variable. destruct (starts_with l (B "#}")).
  { intros [= <- <- <-]. split_and!; [done|done|done|]. rewrite length_drop. lia. }
  destruct (starts_with l [c_HASH]).
  { destruct (parse_name (drop 1 l)) as [x y] eqn:Hn. intros (u & Hv%validate_reference_name_Ok & H)%result_bind_Ok.
    destruct (starts_with y [c_RBRACE]); [|done]. injection H as <- <- <-.
    apply parse_name_spec in Hn as [Hl _]. apply (f_equal length) in Hl. rewrite length_drop, length_app in Hl.
    rewrite Hv. split_and!; [done|done|done|]. rewrite length_drop. lia. }
  destruct (match l with b :: _ => is_ascii_digit b | [] => false end).
  { intros ([x y] & (-> & Hp & _)%parse_positional_spec & H)%result_bind_Ok.
    destruct (starts_with y [c_RBRACE]); [|done]. injection H as <- <- <-.
    unfold special_name. rewrite Hp, orb_true_r. split_and!; [by rewrite orb_true_r|done|done|].
    rewrite length_drop, length_app. lia. }
  destruct (parse_name l) as [x y] eqn:Hn. intros (u & Hv%validate_reference_name_Ok & H)%result_bind_Ok.
  apply parse_name_spec in Hn as [-> _].
  destruct (List.find _ (operators pattern)) as [[[spelling operation] p]|] eqn:Hf.
  - apply find_some in Hf as [Hin _]. pose proof (proj1 (List.Forall_forall _ _) (operators_wf pattern) _ Hin) as [_ Hop].
    destruct (bytes_eqb spelling (B ":=") && _) eqn:Ha; [done|].
    apply result_bind_Ok in H as ([w r] & (Hw & Hr)%parse_parameter_word_Ok & [= <- <- <-]).
    destruct (Hop w) as [-> Has]. rewrite Hv. split_and!; [done| |done|rewrite length_app; lia].
    destruct (is_assignment (operation w)); [|done]. rewrite Has in Ha by done. rewrite bytes_eqb_refl in Ha.
    by apply negb_false_iff in Ha.
  - destruct (starts_with y [c_RBRACE]); [|done]. injection H as <- <- <-. rewrite Hv.
    split_and!; [done|done|done|]. rewrite length_drop, length_app. lia.
Qed.

Lemma parse_reference_Ok quote pattern escape first l0 found rest :
  let l := first :: l0 in
  parse_reference line syntax parse_nested quote pattern escape first l = Ok (found, rest) ->
  (length rest <= length l)%nat /\
  match found with
  | Some (name, op) =>
      (plain_name name || is_value op && special_name name) = true /\
      (negb (is_assignment op) || bool_decide (variable_policy name = RcOrCommandLine User)) = true /\
      wf_operation syntax levels op = true /\ (escape = true -> op = Value)
  | None => True
  end.
Proof.
  intros l. assert (l = first :: l0) as Hl by done. clearbody l. unfold parse_reference. destruct (first =? c_LBRACE).
  { destruct escape; [done|]. intros ([[n o] r] & (H1 & H2 & H3 & H4)%parse_braced_variable_Ok & [= <- <-])%result_bind_Ok.
    rewrite length_drop in H4. split; [lia|done]. }
  destruct (is_ascii_digit first).
  { destruct escape; [done|]. intros ([n r] & (-> & Hp & _)%parse_positional_spec & [= <- <-])%result_bind_Ok.
    unfold special_name. rewrite Hp, !orb_true_r. split; [rewrite length_app; lia|done]. }
  destruct (first =? c_HASH).
  { destruct escape; [done|]. intros [= <- <-]. split; [rewrite length_drop; lia|done]. }
  destruct (existsb (Z.eqb first) [c_DOLLAR; c_QM; c_UNDER; c_DASH]) eqn:He.
  { destruct escape; [done|]. intros [= <- <-]. split; [rewrite length_drop; lia|].
    split_and!; [|done|done|done]. apply existsb_exists in He as (x & Hx & ->%Z.eqb_eq).
    repeat destruct Hx as [<-|Hx]; done. }
  destruct (negb (is_name_start first)) eqn:Hs.
  { clear He. destruct syntax; [done|]. destruct (existsb _ _); [done|]. by intros [= <- <-]. }
  destruct (parse_name l) as [x y] eqn:Hn. intros Hok. injection Hok as <- <-.
  assert (x <> []) as Hx.
  { rewrite Hl in Hn. cbn [parse_name] in Hn. apply negb_false_iff in Hs. rewrite Hs in Hn. destruct (span _ l0). by injection Hn as <- <-. }
  apply parse_name_spec in Hn as [-> Hp]. destruct Hp as [->|Hp]; [done|]. rewrite length_app. split; [lia|]. by rewrite Hp.
Qed.

Lemma parse_variable_Ok quote literal pattern l found literal' rest :
  parse_variable line syntax parse_nested quote literal pattern l = Ok (found, literal', rest) ->
  (length rest <= length l)%nat /\ match found with Some p => wf_part syntax levels p = true /\ is_one_part (MkShellExpression [p]) = true /\ literal' = literal | None => True end.
Proof.
  unfold parse_variable. set (escape := negb (is_ordinary syntax) && starts_with l [c_BSLASH]).
  set (l' := if escape then drop 1 l else l).
  assert (length l' <= length l)%nat as Hle by (unfold l'; destruct escape; rewrite ?length_drop; lia).
  destruct l' as [|first l0].
  { destruct escape; [done|]. destruct (is_ordinary syntax); [done|]. intros [= <- <- <-]. cbn. split; [lia|done]. }
  intros ([found' r] & [Hr Hf]%parse_reference_Ok & H)%result_bind_Ok.
  destruct found' as [[name op]|]; [|injection H as <- <- <-; split; [lia|done]].
  destruct (negb (is_positional_parameter_name name) && _) eqn:Hu; [done|].
  destruct Hf as (H1 & H2 & H3 & H4).
  assert (reference_allowed name op = true) as Hra.
  { unfold reference_allowed. rewrite H1, H2, andb_true_r. cbn [andb]. apply andb_false_iff in Hu as [Hu%negb_false_iff|Hu]; [by rewrite Hu|].
    rewrite Hu. cbn. by rewrite orb_true_r. }
  destruct escape eqn:He; injection H as <- <- <-; (split; [lia|]); (split; [|done]).
  - rewrite H4 in Hra by done. apply andb_true_iff in He as [He _]. cbn [wf_part]. by rewrite Hra, He.
  - rewrite wf_variable. by rewrite Hra, H3.
Qed.

Section scan.
Context (stop_at_brace stop_at_word : bool) (initial_quote : QuoteMode) (pattern_word : bool).

Definition state_ok (s : ScanState) : Prop := normalized (ss_parts s) = true /\ forallb (wf_part syntax levels) (ss_parts s) = true.

Lemma add_part_ok s part literal rest :
  state_ok s -> wf_part syntax levels part = true -> is_one_part (MkShellExpression [part]) = true ->
  state_ok (add_part initial_quote pattern_word s part literal rest).
Proof.
  intros [Hn Ha] Hp Ho. apply (push_literal_wf (wf_part syntax levels) _ (ss_literal s)) in Hn as [Hn' Ha']; [|done|done].
  unfold state_ok, add_part. cbn [ss_parts]. apply push_part_wf; [| |done|done].
  - destruct (quoted _ _ _), part; done.
  - destruct (quoted _ _ _); [|done]. rewrite wf_quote, Ho, wf_parts. cbn [forallb]. rewrite Hp. by destruct part.
Qed.

(** Every turn keeps the parts well formed and takes a byte. *)
Lemma scan_step_Ok s s' :
  state_ok s -> scan_step line syntax parse_nested stop_at_brace stop_at_word initial_quote pattern_word s = Ok (Some s') ->
  state_ok s' /\ (length (ss_rest s') < length (ss_rest s))%nat.
Proof.
  intros Hs. unfold scan_step. destruct (ss_rest s) as [|b rest] eqn:Hr; [done|].
  assert (forall l q, (length l <= S (length rest))%nat -> scan_character line syntax s l q = Ok (Some s') ->
    state_ok s' /\ (length (ss_rest s') < S (length rest))%nat) as Hchar.
  { intros l q Hl ([c r] & Hc%ok_or_Ok & [= <-])%result_bind_Ok. apply split_char_spec in Hc as [-> Hc].
    rewrite length_app in Hl. cbn [ss_rest add_text]. destruct c; [done|]. cbn in Hl. split; [done|lia]. }
  destruct (stop_at_brace && _ && _); [done|]. destruct (stop_at_word && _ && _); [done|].
  destruct (turned syntax s b rest) as [s1|] eqn:Ht.
  { intros [= <-]. unfold turned in Ht. repeat case_match; simplify_eq; (split; [done|cbn; lia]). }
  case_bool_decide; [by apply Hchar|]. destruct (b =? c_BSLASH).
  { destruct rest as [|next rest]; [intros [= <-]; split; [done|cbn; lia]|].
    destruct (negb (escapes _ _ _)); [intros [= <-]; split; [done|cbn; lia]|]. apply Hchar. cbn; lia. }
  destruct (allows_commands syntax && (b =? c_BACKQUOTE)) eqn:Hc.
  { intros ([p r] & Hcmd & [= <-])%result_bind_Ok. unfold parse_command in Hcmd. apply result_bind_Ok in Hcmd as ([t r'] & Hc'%ok_or_Ok & [= <- <-]).
    apply command_text_length in Hc'. split; [|cbn; lia]. apply add_part_ok; [done| |done]. by apply andb_true_iff in Hc as [? _]. }
  destruct (negb (b =? c_DOLLAR)); [by apply Hchar|].
  intros ([[p lit] r] & [Hlen Hp]%parse_variable_Ok & [= <-])%result_bind_Ok. destruct p as [p|]; cbn [ss_rest add_part].
  - split; [|cbn; lia]. apply add_part_ok; tauto.
  - split; [|cbn; lia]. destruct Hs as [Hn Ha]. unfold state_ok. cbn [ss_parts]. by apply push_literal_wf.
Qed.

(** The fuel of the scan is enough, and where it stops the loop ends. *)
Lemma scan_loop_Ok fuel s s' :
  state_ok s -> (length (ss_rest s) < fuel)%nat ->
  scan_loop line syntax parse_nested stop_at_brace stop_at_word initial_quote pattern_word fuel s = Ok s' ->
  state_ok s' /\ (length (ss_rest s') <= length (ss_rest s))%nat /\ scan_step line syntax parse_nested stop_at_brace stop_at_word initial_quote pattern_word s' = Ok None.
Proof.
  revert s. induction fuel as [|fuel IH]; intros s Hs Hf; [lia|]. cbn [scan_loop].
  intros ([s1|] & H1 & H)%result_bind_Ok; [|by injection H as <-].
  apply scan_step_Ok in H1 as [Hs1 Hl]; [|done]. apply IH in H as (H1 & H2 & H3); [|done|lia]. split_and!; [done|lia|done].
Qed.

Lemma scan_loop_fuel fuel fuel' s :
  state_ok s -> (length (ss_rest s) < fuel)%nat -> (length (ss_rest s) < fuel')%nat ->
  scan_loop line syntax parse_nested stop_at_brace stop_at_word initial_quote pattern_word fuel s =
  scan_loop line syntax parse_nested stop_at_brace stop_at_word initial_quote pattern_word fuel' s.
Proof.
  revert fuel' s. induction fuel as [|fuel IH]; intros [|fuel'] s Hs Hf Hf'; try lia. cbn [scan_loop].
  destruct (scan_step _ _ _ _ _ _ _ s) as [[s1|]|e] eqn:H1; [|done|done]. cbn [mbind result_bind].
  apply scan_step_Ok in H1 as [Hs1 Hl]; [|done]. apply IH; [done|lia|lia].
Qed.

Lemma parse_level_Ok l e rest :
  parse_level line syntax parse_nested stop_at_brace stop_at_word initial_quote pattern_word l = Ok (e, rest) ->
  wf_expression syntax levels e = true /\ (length rest <= length l)%nat.
Proof.
  unfold parse_level. intros (s & (Hs & Hl & _)%scan_loop_Ok & H)%result_bind_Ok; [|done|cbn; lia].
  destruct (negb _); [done|]. destruct (_ && _); [done|]. injection H as <- <-. split; [|done].
  destruct Hs as [Hn Ha]. apply (push_literal_wf (wf_part syntax levels) _ (ss_literal s)) in Hn as [Hn' Ha']; [|done|done].
  by rewrite wf_parts, Hn', Ha'.
Qed.
End scan.
End level.
End facts.

Section well_formed_theorem.
Context {T : Target} (line : nat) (syntax : ExpressionSyntax).

Lemma parse_word_ok levels nesting : nested_ok syntax levels (parse_word line syntax levels nesting).
Proof.
  revert nesting. induction levels as [|levels IH]; intros nesting quote pattern l e rest; cbn [parse_word]; [done|].
  intros ([] & _ & H)%result_bind_Ok. eapply parse_level_Ok; [|exact H]. apply IH.
Qed.

Lemma parse_top_Ok stop_at_word l e rest :
  parse_top line syntax stop_at_word l = Ok (e, rest) ->
  wf_expression syntax MAX_EXPANSION_DEPTH e = true /\ (length rest <= length l)%nat.
Proof. intros H. eapply parse_level_Ok; [|exact H]. apply parse_word_ok. Qed.
End well_formed_theorem.

(** C28: What the parser accepts is well formed: literals are not empty and do not
    touch, commands and quoted variables appear only where the syntax has them,
    every name is one the program knows how to refer to (an operator only on a
    plain name, an assignment only to a variable of the user), and words nest no
    deeper than the evaluators go. *)
Theorem parse_well_formed {T : Target} (line : nat) (syntax : ExpressionSyntax) (input : bytes) (e : ShellExpression)
    (Hparse : parse line syntax input = Ok e) :
  wf_expression syntax MAX_EXPANSION_DEPTH e = true.
Proof.
  unfold parse in Hparse. destruct (parse_top line syntax false input) as [[e' rest]|] eqn:H; [|done].
  injection Hparse as <-. by apply parse_top_Ok in H as [H _].
Qed.

Lemma parse_well_formed_witness :
  wf_expression (Ordinary false) MAX_EXPANSION_DEPTH
    (MkShellExpression [Literal (B "a"); Variable_ (B "X") (RemovePrefix (MkShellExpression [Literal (B "*/")]) true)]) = true.
Proof. refine (parse_well_formed 1 (Ordinary false) (B "a${X##*/}") _ _). vm_compute. reflexivity. Defined.
