(* ===== verification/ExprPrint.v ===== *)
(** A printer for shell expressions, and the proof that the parser of
    [src/src/config/expand.rs] reads back what it prints: the syntax can say
    every expression that has no quoted part, and says it unambiguously. *)
From stdpp Require Import gmap pretty.
From S2P Require Import Prelude Numbers Config Limits Utf8 Variables ShellPattern ShellEval ExprParser.
#[local] Open Scope Z_scope.

(** * Printing *)

(** A text as the scanner reads it back.  Outside a pattern every character is
    escaped; in a pattern the escapes are part of the text. *)
Definition is_wild (b : byte) : bool := (b =? c_STAR) || (b =? c_QM) || (b =? c_LBRACK).
Definition escape_byte (b : byte) : bytes := if cont_byte b then [b] else [c_BSLASH; b].
Fixpoint print_text (pattern : bool) (t : bytes) : bytes :=
  match t with
  | [] => []
  | b :: t' =>
      if pattern && (b =? c_BSLASH) then
        match t' with x :: t'' => c_BSLASH :: x :: print_text pattern t'' | [] => [] end
      else (if pattern && is_wild b then [b] else escape_byte b) ++ print_text pattern t'
  end.

(** In a pattern a backslash stands before a character it protects. *)
Fixpoint pattern_text (t : bytes) : bool :=
  match t with
  | [] => true
  | b :: t' =>
      if b =? c_BSLASH then match t' with x :: t'' => (is_wild x || (x =? c_BSLASH)) && pattern_text t'' | [] => false end
      else pattern_text t'
  end.

(** A command as it stands between backquotes. *)
Definition command_ok (c : bytes) : bool := match command_text (c ++ [c_BACKQUOTE]) false with Some (_, []) => true | _ => false end.

(** Does the word of the operation stand for a pattern? *)
Definition pattern_operation (op : ParameterOperation) (pattern : bool) : bool :=
  match op with RemovePrefix _ _ | RemoveSuffix _ _ | ChangeCase _ _ _ => true | _ => pattern end.
Definition spelling (op : ParameterOperation) : bytes :=
  match op with
  | Value | Length_ => []
  | DefaultIfUnset _ => B "-" | DefaultIfUnsetOrEmpty _ => B ":-" | AlternateIfSet _ => B "+"
  | AlternateIfSetAndNotEmpty _ => B ":+" | AssignIfUnsetOrEmpty _ => B ":=" | ErrorIfUnsetOrEmpty _ => B ":?"
  | RemovePrefix _ longest => if longest then B "##" else B "#"
  | RemoveSuffix _ longest => if longest then B "%%" else B "%"
  | ChangeCase _ Upper all => if all then B "^^" else B "^"
  | ChangeCase _ Lower all => if all then B ",," else B ","
  end.

(** The reference with the word already printed. *)
Definition print_reference (name : bytes) (op : ParameterOperation) (word : bytes) : bytes :=
  match op with
  | Value => if existsb (bytes_eqb name) [[c_DOLLAR]; [c_QM]; [c_DASH]] then c_DOLLAR :: name
             else c_DOLLAR :: c_LBRACE :: name ++ [c_RBRACE]
  | Length_ => c_DOLLAR :: c_LBRACE :: c_HASH :: name ++ [c_RBRACE]
  | _ => c_DOLLAR :: c_LBRACE :: name ++ spelling op ++ word ++ [c_RBRACE]
  end.

(** An expression in the ordinary syntax, without quotes. *)
Fixpoint print_expression (pattern : bool) (e : ShellExpression) {struct e} : bytes :=
  match e with MkShellExpression ps => flat_map (print_part pattern) ps end
with print_part (pattern : bool) (p : ShellPart) {struct p} : bytes :=
  match p with
  | Literal t => print_text pattern t
  | Variable_ name op => print_reference name op (print_operation pattern op)
  | Command c => c_BACKQUOTE :: c ++ [c_BACKQUOTE]
  | RegexQuotedVariable _ | PatternQuote _ => []
  end
with print_operation (pattern : bool) (op : ParameterOperation) {struct op} : bytes :=
  match op with
  | Value | Length_ => []
  | DefaultIfUnset w | DefaultIfUnsetOrEmpty w | AlternateIfSet w | AlternateIfSetAndNotEmpty w
  | AssignIfUnsetOrEmpty w | ErrorIfUnsetOrEmpty w => print_expression pattern w
  | RemovePrefix p _ | RemoveSuffix p _ | ChangeCase p _ _ => print_expression true p
  end.

(** What that syntax can say: text that is UTF-8, patterns and commands with
    their escapes, and no quoted parts. *)
Fixpoint printable (pattern : bool) (e : ShellExpression) {struct e} : bool :=
  match e with MkShellExpression ps => forallb (printable_part pattern) ps end
with printable_part (pattern : bool) (p : ShellPart) {struct p} : bool :=
  match p with
  | Literal t => valid_utf8 t && (negb pattern || pattern_text t)
  | Variable_ _ op => printable_operation pattern op
  | Command c => command_ok c
  | RegexQuotedVariable _ | PatternQuote _ => false
  end
with printable_operation (pattern : bool) (op : ParameterOperation) {struct op} : bool :=
  match op with
  | Value | Length_ => true
  | DefaultIfUnset w | DefaultIfUnsetOrEmpty w | AlternateIfSet w | AlternateIfSetAndNotEmpty w
  | AssignIfUnsetOrEmpty w | ErrorIfUnsetOrEmpty w => printable pattern w
  | RemovePrefix p _ | RemoveSuffix p _ | ChangeCase p _ _ => printable true p
  end.

Example print_sample :
  let e := MkShellExpression [Literal (B "a }"); Variable_ (B "X") (RemovePrefix (MkShellExpression [Literal (B "*\*b"); Variable_ (B "12") Value]) true); Command (B "date \`x")] in
  printable false e = true /\ parse_top 1 (Ordinary true) false (print_expression false e) = Ok (e, []).
Proof. vm_compute. done. Qed.

(** * Reading back *)

Section reading.
Context {T : Target} (line : nat) (allow_commands : bool).
#[local] Abbreviation syntax := (Ordinary allow_commands).

Lemma wild_special x : is_wild x || (x =? c_BSLASH) = existsb (bytes_eqb [x]) [[c_STAR]; [c_QM]; [c_LBRACK]; [c_BSLASH]].
Proof.
  unfold is_wild. cbn [existsb]. unfold bytes_eqb. rewrite orb_false_r, <-!orb_assoc.
  repeat (f_equal; [apply eq_true_iff_eq; rewrite Z.eqb_eq, bool_decide_eq_true; split; congruence|]).
  apply eq_true_iff_eq; rewrite Z.eqb_eq, bool_decide_eq_true; split; congruence.
Qed.

Lemma valid_utf8_cons l : l <> [] -> valid_utf8 l = true -> exists c r, next_char l = Some (c, r) /\ valid_utf8 r = true.
Proof.
  unfold valid_utf8. rewrite !bool_decide_eq_true. intros Hl [cs Hcs]. rewrite utf8_chars_unfold in Hcs by done.
  apply bind_Some in Hcs as ([c r] & Hc & (cr & Hr & _)%fmap_Some). exists c, r. split; [done|]. rewrite bool_decide_eq_true. by exists cr.
Qed.

Lemma print_text_cont pattern tl r :
  Forall (fun b => cont_byte b = true) tl -> print_text pattern (tl ++ r) = tl ++ print_text pattern r.
Proof.
  induction 1 as [|b tl Hb _ IH]; [done|]. cbn [print_text app].
  assert ((b =? c_BSLASH) = false /\ is_wild b = false) as [-> ->].
  { unfold cont_byte in Hb. apply between_true in Hb. unfold is_wild. split; lia. }
  rewrite !andb_false_r. unfold escape_byte. by rewrite Hb, IH.
Qed.
Lemma pattern_text_cont tl r : Forall (fun b => cont_byte b = true) tl -> pattern_text (tl ++ r) = pattern_text r.
Proof.
  induction 1 as [|b tl Hb _ IH]; [done|]. cbn [pattern_text app].
  assert ((b =? c_BSLASH) = false) as ->; [|done]. unfold cont_byte in Hb. apply between_true in Hb. lia.
Qed.

Lemma split_char_app b0 tl r :
  (forall r', exists c, next_char ((b0 :: tl) ++ r') = Some (c, r')) -> split_char ((b0 :: tl) ++ r) = Some (b0 :: tl, r).
Proof.
  intros H. unfold split_char. destruct (H r) as [c ->]. rewrite length_app.
  replace (length (b0 :: tl) + length r - length r)%nat with (length (b0 :: tl)) by lia. by rewrite take_app_length.
Qed.

Section scan.
Context (stop_at_brace pattern : bool) (levels : nat).
Context (parse_nested : QuoteMode -> bool -> bytes -> result ExpansionError (ShellExpression * bytes)).
#[local] Abbreviation scan := (scan_step line syntax parse_nested stop_at_brace false Unquoted pattern).

(** Unquoted states, and the turns of the scanner between them. *)
Definition st (parts : list ShellPart) (literal : bytes) (started : bool) (rest : bytes) : ScanState :=
  {| ss_parts := parts; ss_literal := literal; ss_quote := Unquoted; ss_started := started; ss_rest := rest |}.
Definition turn (s s' : ScanState) : Prop := scan s = Ok (Some s').

Lemma quoted_st parts literal started rest : quoted Unquoted pattern (st parts literal started rest) = false.
Proof. unfold quoted. cbn. by rewrite andb_false_r. Qed.

(** A byte that is none of the scanner's own starts a character. *)
Lemma turn_char parts literal started b0 tl tail :
  existsb (Z.eqb b0) [c_RBRACE; c_APOS; c_QUOTE; c_BSLASH; c_BACKQUOTE; c_DOLLAR] = false ->
  split_char ((b0 :: tl) ++ tail) = Some (b0 :: tl, tail) ->
  turn (st parts literal started ((b0 :: tl) ++ tail)) (st parts (literal ++ b0 :: tl) true tail).
Proof.
  cbn [existsb]. rewrite !orb_false_iff. intros (H1 & H2 & H3 & H4 & H5 & H6 & _) Hs.
  unfold turn, scan_step. cbn [st ss_rest ss_quote app]. rewrite quoted_st, H1, H4, H5, H6, !andb_false_r. unfold turned.
  cbn [st is_ordinary negb ss_quote]. rewrite H2, H3. cbn [negb].
  unfold scan_character. cbn [app] in Hs. rewrite (bool_decide_eq_false_2 (Unquoted = Single)), Hs by done. cbn [ok_or mbind result_bind].
  unfold add_text, push_expression_character. cbn [ss_literal andb app]. done.
Qed.

(** An escaped character. *)
Lemma turn_escaped parts literal started b0 tl tail :
  split_char ((b0 :: tl) ++ tail) = Some (b0 :: tl, tail) ->
  turn (st parts literal started (c_BSLASH :: (b0 :: tl) ++ tail))
       (st parts (push_expression_character literal (b0 :: tl) pattern) true tail).
Proof.
  intros Hs. unfold turn, scan_step. cbn [st ss_rest ss_quote app]. unfold turned. cbn [st is_ordinary negb ss_quote].
  change (c_BSLASH =? c_RBRACE) with false. change (c_BSLASH =? c_APOS) with false. change (c_BSLASH =? c_QUOTE) with false.
  rewrite !andb_false_r. rewrite (bool_decide_eq_false_2 (Unquoted = Single)) by done. cbn [escapes negb Z.eqb Pos.eqb].
  unfold scan_character. cbn [app] in Hs. by rewrite Hs.
Qed.

Lemma text_turns t parts literal started tail :
  valid_utf8 t = true -> negb pattern || pattern_text t = true ->
  exists started', rtc turn (st parts literal started (print_text pattern t ++ tail)) (st parts (literal ++ t) started' tail).
Proof.
  revert literal started. induction t as [t IH] using (induction_ltof1 _ (@length Z)). unfold ltof in IH. intros literal started Hv Hp.
  destruct t as [|b t]; [exists started; rewrite app_nil_r; apply rtc_refl|].
  destruct (valid_utf8_cons (b :: t) ltac:(done) Hv) as (c & r & Hc & Hr).
  apply next_char_split in Hc as (b0 & tl & Heq & Htl & _ & Hb0 & _ & _ & _ & Hn). injection Heq as -> ->.
  assert (forall r', split_char ((b0 :: tl) ++ r') = Some (b0 :: tl, r')) as Hsplit.
  { intros r'. apply split_char_app. intros r''. exists c. apply Hn. }
  destruct (pattern && (b0 =? c_BSLASH)) eqn:Hbs.
  - (* an escape of the pattern *)
    apply andb_true_iff in Hbs as [Hpat ->%Z.eqb_eq]. rewrite Hpat in Hp, IH |- *. cbn [negb orb pattern_text] in Hp.
    assert (tl = []) as ->.
    { specialize (Hn []). destruct tl as [|b1 tl]; [done|]. by cbn in Hn. }
    cbn [app] in *. destruct r as [|x r]; [done|]. apply andb_true_iff in Hp as [Hx Hp].
    assert (between 0 127 x = true) as Hx127.
    { apply between_true. unfold is_wild in Hx. lia. }
    assert (split_char ([x] ++ (print_text true r ++ tail)) = Some ([x], print_text true r ++ tail)) as Hsx.
    { apply split_char_app. intros r'. exists x. cbn. by rewrite Hx127. }
    assert (valid_utf8 r = true) as Hvr.
    { destruct (valid_utf8_cons (x :: r) ltac:(done) Hr) as (c' & r'' & Hc' & Hr''). cbn [next_char] in Hc'. rewrite Hx127 in Hc'. by injection Hc' as _ ->. }
    destruct (IH r ltac:(cbn; lia) (literal ++ [c_BSLASH; x]) true Hvr) as [s' Hs']; [done|].
    exists s'. cbn [print_text andb]. change (c_BSLASH =? c_BSLASH) with true. cbn [app].
    eapply rtc_l; [apply (turn_escaped _ _ _ x []); exact Hsx|].
    unfold push_expression_character. rewrite <-wild_special, Hx, Hpat. cbn [andb app].
    by rewrite <-app_assoc in Hs'.
  - destruct (IH r) with (literal := literal ++ b0 :: tl) (started := true) as [s' Hs'].
    { cbn. rewrite length_app. lia. }
    { done. }
    { destruct pattern; [|done]. cbn [andb negb orb] in *. cbn [pattern_text] in Hp. rewrite Hbs in Hp. by rewrite pattern_text_cont in Hp. }
    exists s'. rewrite <-app_assoc in Hs'. cbn [app] in Hs'. cbn [print_text app]. rewrite Hbs, print_text_cont, <-!app_assoc by done.
    eapply rtc_l; [|exact Hs'].
    destruct (pattern && is_wild b0) eqn:Hw; cbn [app].
    + apply turn_char; [|apply Hsplit]. apply andb_true_iff in Hw as [_ Hw]. unfold is_wild in Hw.
      rewrite !orb_true_iff, !Z.eqb_eq in Hw. by destruct Hw as [[-> | ->] | ->].
    + unfold escape_byte. rewrite Hb0. cbn [app].
      assert (literal ++ b0 :: tl = push_expression_character literal (b0 :: tl) pattern) as ->; [|apply turn_escaped, Hsplit].
      unfold push_expression_character.
      assert (pattern && existsb (bytes_eqb (b0 :: tl)) [[c_STAR]; [c_QM]; [c_LBRACK]; [c_BSLASH]] = false) as ->; [|done].
      destruct pattern; [|done]. cbn [andb] in *. apply not_true_iff_false. intros H%existsb_exists.
      destruct H as (y & Hy & <-%bytes_eqb_true). cbn [In] in Hy. unfold is_wild in Hw.
      repeat (destruct Hy as [Hy|Hy]; [injection Hy as <- <-; discriminate Hw || discriminate Hbs|]). done.
Qed.
End scan.

(** * References *)

Lemma starts_with_cons x l y q : starts_with (x :: l) (y :: q) = (x =? y) && starts_with l q.
Proof.
  apply eq_true_iff_eq. rewrite andb_true_iff, !starts_with_true, Z.eqb_eq. split.
  - intros (r & [= -> ->]). eauto.
  - intros (-> & r & ->). by exists r.
Qed.
Lemma starts_with_nil l : starts_with l [] = true.
Proof. apply starts_with_true. by exists l. Qed.

Lemma span_app p x b rest : forallb p x = true -> p b = false -> span p (x ++ b :: rest) = (x, b :: rest).
Proof.
  intros Hx Hb. induction x as [|a x IH]; cbn [span app]; [by rewrite Hb|].
  cbn [forallb] in Hx. apply andb_true_iff in Hx as [-> Hx]. by rewrite IH.
Qed.

Lemma parse_name_app name b rest :
  plain_name name = true -> is_name_continue b = false -> parse_name (name ++ b :: rest) = (name, b :: rest).
Proof.
  destruct name as [|a name]; [done|]. cbn [plain_name parse_name app]. intros [-> Hn]%andb_true_iff Hb.
  by rewrite span_app.
Qed.

Lemma command_text_app c escaped text tail :
  command_text (c ++ [c_BACKQUOTE]) escaped = Some (text, []) -> command_text (c ++ c_BACKQUOTE :: tail) escaped = Some (c, tail).
Proof.
  revert escaped text. induction c as [|b c IH]; intros escaped text; cbn [command_text app].
  - destruct escaped; cbn; [done|]. by intros [= <-].
  - destruct (negb escaped && (b =? c_BACKQUOTE)); [intros H; injection H as _ H; by destruct c|].
    intros ([t r] & Hc & [= <- ->])%bind_Some. by rewrite (IH _ _ Hc).
Qed.

(** What an operator must not be followed by. *)
Definition operator_byte (b : byte) : bool := existsb (Z.eqb b) [c_HASH; c_PERCENT; c_CARET; c_COMMA].
Definition head_ok (l : bytes) : Prop := match l with b :: _ => operator_byte b = false | [] => True end.

Lemma print_text_head pattern t tail : head_ok tail -> head_ok (print_text pattern t ++ tail).
Proof.
  intros Ht. destruct t as [|b t]; [done|]. cbn [print_text].
  destruct (pattern && (b =? c_BSLASH)); [by destruct t|].
  destruct (pattern && is_wild b) eqn:Hw; cbn [app].
  - apply andb_true_iff in Hw as [_ Hw]. unfold is_wild in Hw. rewrite !orb_true_iff, !Z.eqb_eq in Hw. by destruct Hw as [[-> | ->] | ->].
  - unfold escape_byte. destruct (cont_byte b) eqn:Hb; [|done]. cbn.
    unfold cont_byte in Hb. apply between_true in Hb. unfold operator_byte. cbn.
    rewrite !orb_false_iff. split_and!; lia.
Qed.

Lemma print_expression_head pattern e tail : head_ok tail -> head_ok (print_expression pattern e ++ tail).
Proof.
  intros Ht. destruct e as [ps]. cbn [print_expression]. induction ps as [|p ps IH]; [done|]. cbn [flat_map]. rewrite <-app_assoc.
  destruct p as [t|name op|n|c|e]; cbn [print_part]; try done.
  - by apply print_text_head.
  - by destruct op; cbn [print_reference]; try case_match.
Qed.

(** The characters of string literals, evaluated. *)
Ltac ascii_bytes :=
  repeat match goal with
  | |- context [Z.of_N (Ascii.N_of_ascii ?a)] =>
      let v := eval vm_compute in (Z.of_N (Ascii.N_of_ascii a)) in change (Z.of_N (Ascii.N_of_ascii a)) with v
  end.

Lemma find_operator pattern op l :
  spelling op <> [] -> head_ok l ->
  exists f, List.find (fun '(sp, _, _) => starts_with (spelling op ++ l) sp) (operators pattern) =
    Some (spelling op, f, pattern_operation op pattern) /\ (forall w, word op = Some w \/ op = ErrorIfUnsetOrEmpty w -> f w = op).
Proof.
  intros Hop Hl.
  assert (starts_with l [c_HASH] = false /\ starts_with l [c_PERCENT] = false /\ starts_with l [c_CARET] = false /\ starts_with l [c_COMMA] = false)
    as (H1 & H2 & H3 & H4).
  { destruct l as [|b l]; [done|]. rewrite !starts_with_cons. unfold head_ok, operator_byte in Hl. cbn [existsb] in Hl.
    rewrite !orb_false_iff in Hl. destruct Hl as (-> & -> & -> & -> & _). done. }
  destruct op as [|w|w|w|w|w|w| |w longest|w longest|w d all]; try done;
    try (destruct longest); try (destruct d, all); unfold operators; cbn [List.find spelling B app];
    ascii_bytes;
    repeat (rewrite ?starts_with_cons, ?starts_with_nil, ?H1, ?H2, ?H3, ?H4; cbn [andb Z.eqb Pos.eqb]);
    eexists; (split; [reflexivity|]); intros w' [[= ->]|[= ->]]; done.
Qed.

Section reference.
Context (pattern : bool) (levels : nat).
Context (parse_nested : QuoteMode -> bool -> bytes -> result ExpansionError (ShellExpression * bytes)).
Definition reads_words : Prop := forall pattern w tail,
  wf_word syntax levels w = true -> printable pattern w = true ->
  parse_nested Unquoted pattern (print_expression pattern w ++ c_RBRACE :: tail) = Ok (w, c_RBRACE :: tail).
Context (Hwords : reads_words).

(** An operation with its name, after the brace. *)
Lemma braced_operation name op w tail :
  plain_name name = true -> (negb (is_assignment op) || bool_decide (variable_policy name = RcOrCommandLine User)) = true ->
  spelling op <> [] -> (word op = Some w \/ op = ErrorIfUnsetOrEmpty w) ->
  wf_word syntax levels w = true -> printable (pattern_operation op pattern) w = true ->
  parse_braced_variable line parse_nested Unquoted pattern
    (name ++ spelling op ++ print_expression (pattern_operation op pattern) w ++ c_RBRACE :: tail) = Ok (name, op, tail).
Proof.
  intros Hname Hassign Hsp Hw Hwf Hpr. unfold parse_braced_variable.
  destruct name as [|b name]; [done|]. cbn [app].
  assert (is_name_start b = true) as Hb by (by apply andb_true_iff in Hname as [? _]).
  assert ((b =? c_HASH) = false /\ is_ascii_digit b = false) as [Hh Hd].
  { unfold is_name_start, is_ascii_uppercase, is_ascii_lowercase, is_ascii_digit, between in *. split; lia. }
  change (B "#}") with [c_HASH; c_RBRACE]. rewrite !starts_with_cons, Hh, Hd. cbn [andb].
  destruct (find_operator pattern op (print_expression (pattern_operation op pattern) w ++ c_RBRACE :: tail) Hsp
    (print_expression_head _ _ (c_RBRACE :: tail) eq_refl)) as (f & Hf & Hfw).
  destruct (spelling op) as [|s0 sp] eqn:Hspell; [done|].
  assert (is_name_continue s0 = false) as Hs0.
  { destruct op as [|?|?|?|?|?|?| |? []|? []|? [] []]; cbn in Hspell; simplify_eq; done. }
  change (b :: name ++ (s0 :: sp) ++ ?k) with ((b :: name) ++ s0 :: sp ++ k).
  rewrite parse_name_app by done. cbn [app] in Hf.
  assert (validate_reference_name (b :: name) line = Ok ()) as -> by (by apply validate_reference_name_Ok).
  cbn [mbind result_bind]. rewrite Hf.
  assert (bytes_eqb (s0 :: sp) (B ":=") && negb (bool_decide (variable_policy (b :: name) = RcOrCommandLine User)) = false) as ->.
  { destruct (bytes_eqb (s0 :: sp) (B ":=")) eqn:Heq; [|done]. apply bytes_eqb_true in Heq. cbn [andb]. apply negb_false_iff.
    destruct op as [|?|?|?|?|?|?| |? []|? []|? [] []]; cbn in Hspell; simplify_eq/=; done. }
  unfold parse_parameter_word. change (s0 :: sp ++ ?k) with ((s0 :: sp) ++ k). rewrite drop_app_length, Hwords by done.
  cbn [mbind result_bind]. change (c_RBRACE =? c_RBRACE) with true. cbn [mbind result_bind]. by rewrite Hfw.
Qed.

Lemma plain_name_head name rest :
  plain_name name = true -> starts_with (name ++ rest) [c_HASH] = false /\ starts_with (name ++ rest) [c_HASH; c_RBRACE] = false /\
    match name ++ rest with b :: _ => is_ascii_digit b | [] => false end = false.
Proof.
  destruct name as [|b name]; [done|]. cbn [plain_name app]. intros [Hb _]%andb_true_iff. rewrite !starts_with_cons.
  assert ((b =? c_HASH) = false /\ is_ascii_digit b = false) as [-> ->]; [|done].
  unfold is_name_start, is_ascii_uppercase, is_ascii_lowercase, is_ascii_digit, between in *. split; lia.
Qed.

(** No operator begins where the braces end. *)
Lemma find_no_operator tail :
  List.find (fun '(sp, _, _) => starts_with (c_RBRACE :: tail) sp) (operators pattern) = None.
Proof.
  unfold operators. cbn [List.find B]. ascii_bytes. repeat (rewrite starts_with_cons; cbn [andb Z.eqb Pos.eqb]). done.
Qed.

Lemma braced_value name tail :
  (plain_name name || special_name name) = true -> existsb (bytes_eqb name) [[c_DOLLAR]; [c_QM]; [c_DASH]] = false ->
  parse_braced_variable line parse_nested Unquoted pattern (name ++ [c_RBRACE] ++ tail) = Ok (name, Value, tail).
Proof.
  intros Hname Hsp. unfold parse_braced_variable. change (B "#}") with [c_HASH; c_RBRACE].
  destruct (plain_name name) eqn:Hp.
  - destruct (plain_name_head name ([c_RBRACE] ++ tail) Hp) as (-> & -> & ->). cbn [app].
    rewrite parse_name_app by done.
    assert (validate_reference_name name line = Ok ()) as -> by (by apply validate_reference_name_Ok).
    cbn [mbind result_bind]. rewrite find_no_operator, starts_with_cons, starts_with_nil. done.
  - cbn [orb] in Hname. unfold special_name in Hname. apply orb_true_iff in Hname as [Hname|Hname].
    + apply existsb_exists in Hname as (x & Hx & ->%bytes_eqb_true).
      repeat (destruct Hx as [<-|Hx]; [discriminate Hsp || discriminate Hp || done|]). done.
    + unfold is_positional_parameter_name in Hname. apply orb_true_iff in Hname as [->%bytes_eqb_true|Hname].
      { change (B "#") with [c_HASH]. cbn [app]. by rewrite !starts_with_cons, starts_with_nil. }
      apply andb_true_iff in Hname as [[Hne Hd]%all_digits_true Hr].
      destruct name as [|b name]; [done|]. cbn [app].
      assert (is_ascii_digit b = true) as Hb by (by apply andb_true_iff in Hd as [? _]).
      assert ((b =? c_HASH) = false) as Hh by (unfold is_ascii_digit, between in Hb; lia).
      rewrite !starts_with_cons, Hh. cbn [andb]. rewrite Hb. unfold parse_positional_parameter.
      change (b :: name ++ ?k) with ((b :: name) ++ k). rewrite span_app by done.
      destruct (parse_usize (b :: name)) as [index|]; [|done]. unfold between in Hr. cbn [ok_or mbind result_bind]. rewrite Hr.
      cbn [negb mbind result_bind]. by rewrite starts_with_cons, starts_with_nil.
Qed.

Lemma braced_length name tail :
  plain_name name = true ->
  parse_braced_variable line parse_nested Unquoted pattern (c_HASH :: name ++ [c_RBRACE] ++ tail) = Ok (name, Length_, tail).
Proof.
  intros Hp. unfold parse_braced_variable. change (B "#}") with [c_HASH; c_RBRACE]. rewrite !starts_with_cons, starts_with_nil.
  assert (starts_with (name ++ [c_RBRACE] ++ tail) [c_RBRACE] = false) as ->.
  { destruct name as [|b name]; [done|]. cbn [app]. rewrite starts_with_cons. cbn [plain_name] in Hp. apply andb_true_iff in Hp as [Hb _].
    assert ((b =? c_RBRACE) = false) as ->; [|done]. unfold is_name_start, is_ascii_uppercase, is_ascii_lowercase, between in *. lia. }
  cbn [andb drop app]. change (drop 0 ?k) with k. rewrite parse_name_app by done.
  assert (validate_reference_name name line = Ok ()) as -> by (by apply validate_reference_name_Ok).
  cbn [mbind result_bind]. by rewrite starts_with_cons, starts_with_nil.
Qed.

Lemma reference_read name op tail :
  reference_allowed name op = true -> wf_operation syntax levels op = true -> printable_operation pattern op = true ->
  exists l, print_reference name op (print_operation pattern op) ++ tail = c_DOLLAR :: l /\
    parse_variable line syntax parse_nested Unquoted [] pattern l = Ok (Some (Variable_ name op), [], tail).
Proof.
  intros Hra Hwf Hpr.
  assert (forall l first l0, l = first :: l0 ->
    parse_reference line syntax parse_nested Unquoted pattern false first l = Ok (Some (name, op), tail) ->
    parse_variable line syntax parse_nested Unquoted [] pattern l = Ok (Some (Variable_ name op), [], tail)) as Hread.
  { intros l first l0 -> Hp. unfold parse_variable. cbn [is_ordinary negb andb]. rewrite Hp. cbn [mbind result_bind].
    unfold reference_allowed in Hra. rewrite !andb_true_iff in Hra. destruct Hra as [[_ Hu] _].
    destruct (is_positional_parameter_name name); [done|]. cbn [orb negb andb] in *. apply negb_true_iff in Hu. by rewrite Hu. }
  assert (forall l, parse_braced_variable line parse_nested Unquoted pattern l = Ok (name, op, tail) ->
    parse_variable line syntax parse_nested Unquoted [] pattern (c_LBRACE :: l) = Ok (Some (Variable_ name op), [], tail)) as Hbraced.
  { intros l Hl. eapply Hread; [done|]. unfold parse_reference. change (c_LBRACE =? c_LBRACE) with true. cbn [drop].
    change (drop 0 l) with l. by rewrite Hl. }
  unfold reference_allowed in Hra. rewrite !andb_true_iff in Hra. destruct Hra as [[Hname _] Hassign].
  assert (forall w, spelling op <> [] -> (word op = Some w \/ op = ErrorIfUnsetOrEmpty w) ->
    wf_word syntax levels w = true -> printable (pattern_operation op pattern) w = true ->
    print_reference name op (print_operation pattern op) = c_DOLLAR :: c_LBRACE :: name ++ spelling op ++ print_expression (pattern_operation op pattern) w ++ [c_RBRACE] ->
    exists l, print_reference name op (print_operation pattern op) ++ tail = c_DOLLAR :: l /\
      parse_variable line syntax parse_nested Unquoted [] pattern l = Ok (Some (Variable_ name op), [], tail)) as Hop.
  { intros w Hsp Hw Hwfw Hprw ->.
    exists (c_LBRACE :: (name ++ spelling op ++ print_expression (pattern_operation op pattern) w ++ [c_RBRACE]) ++ tail).
    split; [done|]. apply Hbraced.
    rewrite <-!app_assoc. apply braced_operation; try done. destruct op; cbn in Hname; rewrite ?orb_false_r in Hname; done. }
  destruct op as [|w|w|w|w|w|w| |w longest|w longest|w d all].
  2-7: apply (Hop w); try done; auto.
  3-5: apply (Hop w); [by destruct longest || destruct d, all|by left|done|done|done].
  all: clear Hop; cbn [print_reference].
  - destruct (existsb _ _) eqn:Hs.
    + apply existsb_exists in Hs as (x & Hx & ->%bytes_eqb_true). eexists. split; [done|].
      repeat (destruct Hx as [<-|Hx]; [by eapply Hread|]). done.
    + exists (c_LBRACE :: (name ++ [c_RBRACE]) ++ tail). split; [done|]. apply Hbraced. rewrite <-app_assoc. by apply braced_value.
  - cbn [is_value andb] in Hname. rewrite orb_false_r in Hname.
    exists (c_LBRACE :: c_HASH :: (name ++ [c_RBRACE]) ++ tail). split; [done|]. apply Hbraced.
    rewrite <-app_assoc. by apply braced_length.
Qed.
End reference.

(** * Parts and words *)

Section parts.
Context (stop_at_brace pattern : bool) (levels : nat).
Context (parse_nested : QuoteMode -> bool -> bytes -> result ExpansionError (ShellExpression * bytes)).
Context (Hwords : reads_words levels parse_nested).
#[local] Abbreviation turn_ := (turn stop_at_brace pattern parse_nested).

Lemma part_turn p parts literal started tail :
  is_literal p = false -> wf_part syntax levels p = true -> printable_part pattern p = true ->
  turn_ (st parts literal started (print_part pattern p ++ tail)) (st (push_literal_part parts literal ++ [p]) [] true tail).
Proof.
  intros Hl Hwf Hpr. destruct p as [t|name op|n|c|e]; try done.
  - rewrite wf_variable in Hwf. apply andb_true_iff in Hwf as [Hra Hwf].
    destruct (reference_read pattern levels parse_nested Hwords name op tail Hra Hwf Hpr) as (l & Hl' & Hread).
    change (print_part pattern (Variable_ name op)) with (print_reference name op (print_operation pattern op)). rewrite Hl'.
    unfold turn, scan_step. cbn [st ss_rest ss_quote]. unfold turned. cbn [st is_ordinary negb ss_quote].
    rewrite !andb_false_r. rewrite (bool_decide_eq_false_2 (Unquoted = Single)) by done. cbn [Z.eqb Pos.eqb negb].
    rewrite ?andb_false_r, Hread. cbn [mbind result_bind]. unfold add_part. by rewrite quoted_st.
  - change (print_part pattern (Command c)) with (c_BACKQUOTE :: c ++ [c_BACKQUOTE]). cbn [app]. rewrite <-app_assoc. cbn [app].
    cbn [printable_part] in Hpr. unfold command_ok in Hpr. cbn [wf_part allows_commands] in Hwf.
    destruct (command_text (c ++ [c_BACKQUOTE]) false) as [[text [|]]|] eqn:Hc; try done. apply (command_text_app _ _ _ tail) in Hc.
    unfold turn, scan_step. cbn [st ss_rest ss_quote]. unfold turned. cbn [st is_ordinary negb ss_quote].
    rewrite !andb_false_r. rewrite (bool_decide_eq_false_2 (Unquoted = Single)) by done. cbn [Z.eqb Pos.eqb allows_commands].
    rewrite Hwf. cbn [andb]. unfold parse_command. rewrite Hc. cbn [ok_or mbind result_bind]. unfold add_part. by rewrite quoted_st.
Qed.

(** The parts that were printed come out after those read before. *)
Lemma parts_turns ps parts literal started tail :
  normalized ps = true -> forallb (wf_part syntax levels) ps = true -> forallb (printable_part pattern) ps = true ->
  match ps with Literal _ :: _ => literal = [] /\ match last parts with Some q => is_literal q | None => false end = false | _ => True end ->
  exists parts' literal' started',
    rtc turn_ (st parts literal started (flat_map (print_part pattern) ps ++ tail)) (st parts' literal' started' tail) /\
    push_literal_part parts' literal' = push_literal_part parts literal ++ ps.
Proof.
  revert parts literal started. induction ps as [|p ps IH]; intros parts literal started Hn Hwf Hpr Hfirst.
  { exists parts, literal, started. rewrite app_nil_r. split; [apply rtc_refl|done]. }
  cbn [forallb flat_map] in *. apply andb_true_iff in Hwf as [Hp Hwf]. apply andb_true_iff in Hpr as [Hpp Hpr]. rewrite <-app_assoc.
  destruct (is_literal p) eqn:Hl.
  - destruct p as [t|?|?|?|?]; try done. destruct Hfirst as [-> Hlast].
    assert (t <> [] /\ normalized ps = true /\ match ps with p' :: _ => is_literal p' = false | [] => True end) as (Ht & Hn' & Hnext).
    { cbn [normalized] in Hn. destruct ps as [|p' ps]; rewrite ?andb_true_iff, ?negb_true_iff, ?bool_decide_eq_false in Hn; tauto. }
    cbn [printable_part] in Hpp. apply andb_true_iff in Hpp as [Hv Hpt].
    destruct (text_turns stop_at_brace pattern parse_nested t parts [] started (flat_map (print_part pattern) ps ++ tail) Hv Hpt) as [b1 H1].
    destruct (IH parts t b1 Hn' Hwf Hpr) as (parts' & literal' & b' & H2 & Hpush).
    { by destruct ps as [|[] ps]. }
    exists parts', literal', b'. split; [by etrans; [exact H1|]|]. rewrite Hpush.
    assert (push_literal_part parts t = parts ++ [Literal t]) as ->; [|by rewrite <-app_assoc].
    unfold push_literal_part. rewrite bool_decide_eq_false_2 by done. by destruct (last parts) as [[]|].
  - destruct (IH (push_literal_part parts literal ++ [p]) [] true) as (parts' & literal' & b' & H2 & Hpush); try done.
    { by destruct p. }
    { destruct ps as [|[] ps]; try done. by rewrite last_snoc. }
    exists parts', literal', b'. split.
    + eapply rtc_l; [|exact H2]. by apply part_turn.
    + rewrite Hpush. change (push_literal_part (push_literal_part parts literal ++ [p]) []) with (push_literal_part parts literal ++ [p]).
      by rewrite <-app_assoc.
Qed.

(** The scanner goes through its turns, to the state where it stops. *)
Lemma scan_loop_turns fuel s s' :
  nested_ok syntax levels parse_nested -> state_ok syntax levels s ->
  rtc turn_ s s' -> scan_step line syntax parse_nested stop_at_brace false Unquoted pattern s' = Ok None ->
  (length (ss_rest s) < fuel)%nat ->
  scan_loop line syntax parse_nested stop_at_brace false Unquoted pattern fuel s = Ok s'.
Proof.
  intros Hnested Hs Hr Hstop. revert fuel Hs. induction Hr as [s|s s1 s2 H1 Hr IH]; intros [|fuel] Hs Hf; try lia; cbn [scan_loop].
  - by rewrite Hstop.
  - unfold turn in H1. rewrite H1. cbn [mbind result_bind].
    destruct (scan_step_Ok line syntax levels parse_nested Hnested _ _ _ _ _ _ Hs H1) as [Hs1 Hlen].
    apply IH; [done|done|lia].
Qed.

Lemma level_reads ps tail :
  nested_ok syntax levels parse_nested ->
  wf_expression syntax levels (MkShellExpression ps) = true -> printable pattern (MkShellExpression ps) = true ->
  match tail with b :: _ => stop_at_brace = true /\ b = c_RBRACE | [] => stop_at_brace = false end ->
  parse_level line syntax parse_nested stop_at_brace false Unquoted pattern (print_expression pattern (MkShellExpression ps) ++ tail)
    = Ok (MkShellExpression ps, tail).
Proof.
  intros Hnested Hwf Hpr Htail. rewrite wf_parts in Hwf. apply andb_true_iff in Hwf as [Hn Hwf].
  destruct (parts_turns ps [] [] false tail Hn Hwf Hpr) as (parts' & literal' & b & Hr & Hpush); [by destruct ps as [|[] ps]|].
  unfold parse_level. change (print_expression pattern (MkShellExpression ps)) with (flat_map (print_part pattern) ps).
  erewrite scan_loop_turns; [|done|done|exact Hr| |cbn; lia].
  - cbn [mbind result_bind st ss_quote ss_rest ss_parts ss_literal]. rewrite bool_decide_eq_true_2 by done. cbn [negb].
    rewrite Hpush. destruct tail as [|x tail]; [by rewrite Htail|]. destruct Htail as [-> ->].
    rewrite bool_decide_eq_false_2 by done. done.
  - unfold scan_step. cbn [st ss_rest ss_quote]. destruct tail as [|x tail]; [done|]. destruct Htail as [-> ->]. done.
Qed.
End parts.

Lemma word_reads levels nesting : (levels + nesting = S MAX_EXPANSION_DEPTH)%nat -> reads_words levels (parse_word line syntax levels nesting).
Proof.
  revert nesting. induction levels as [|levels IH]; intros nesting Hle pattern [ps] tail; [done|].
  unfold wf_word. intros Hwf Hpr. cbn [parse_word]. unfold check_expansion_depth.
  rewrite (proj2 (Nat.ltb_ge _ _)) by lia. cbn [mbind result_bind].
  apply (level_reads true pattern levels); try done; [apply IH; lia|apply parse_word_ok].
Qed.
End reading.

(** C30: Round trip.  The parser reads back every expression it can be given
    without quotes: a well-formed expression whose text is UTF-8 and whose
    patterns and commands carry their escapes is parsed, from its printed form,
    to itself, with no command unless the caller allows them. *)
Theorem parse_print {T : Target} (line : nat) (allow_commands : bool) (e : ShellExpression)
    (Hwf : wf_expression (Ordinary allow_commands) MAX_EXPANSION_DEPTH e = true) (Hprintable : printable false e = true) :
  parse line (Ordinary allow_commands) (print_expression false e) = Ok e.
Proof.
  unfold parse, parse_top. destruct e as [ps]. rewrite <-(app_nil_r (print_expression false (MkShellExpression ps))).
  rewrite (level_reads line allow_commands false false MAX_EXPANSION_DEPTH); [done| | |done|done|done].
  - apply word_reads. lia.
  - apply parse_word_ok.
Qed.

Lemma parse_print_witness :
  let e := MkShellExpression [Literal (B "a }"); Variable_ (B "X") (RemovePrefix (MkShellExpression [Literal (B "*\*b")]) true); Command (B "date")] in
  print_expression false e = B "\a\ \}${X##*\*\b}`date`" /\ parse 1 (Ordinary true) (print_expression false e) = Ok e.
Proof. split; [vm_compute; reflexivity|]. apply (parse_print 1 true); vm_compute; reflexivity. Defined.
