(* ===== verification/Expand.v ===== *)
(** Expansion: the first half of [src/src/config/expand.rs].  A parsed
    expression is evaluated in one of four contexts, and paths, destinations,
    header values and assignments are resolved through it.  A path is checked
    after it is joined to its base; a relative one never leaves its base. *)
From stdpp Require Import gmap pretty.
From S2P Require Import Prelude Numbers Config Limits Utf8 HeaderValue StructuredHeader Variables Runtime Settings ShellPattern ShellEval ExprParser.
#[local] Open Scope Z_scope.

(** Source: config/expand.rs `struct ExpandedValue` *)
Record ExpandedValue := { ev_text : bytes; ev_depth : nat }.

(** Source: config/expand.rs `enum PathPurpose` *)
Inductive PathPurpose := PP_Maildir | PP_Mbox | PP_File | PP_Discard | PP_Lockfile | PP_Logfile | PP_RcFile.
#[export] Instance PathPurpose_eq_dec : EqDecision PathPurpose.
Proof. solve_decision. Defined.

(** Source: config/expand.rs `struct PathResolver` *)
Record PathResolver := {
  pr_purpose : PathPurpose; pr_description : bytes; pr_line : nat; pr_base : option bytes; pr_typed_destination : bool;
}.

(** * Contexts *)

Definition read_only_value (value : option bytes) : option VariableValue := (fun b => {| vv_bytes := b; vv_depth := 0 |}) <$> value.
Definition not_defined (line : nat) (name : bytes) : ExpansionError := expansion_error line (B "variable " ++ name ++ B " is not defined").
Definition unset_or_empty (line : nat) (name : bytes) : ExpansionError := expansion_error line (B "parameter " ++ name ++ B " is unset or empty").

(** Source: config/expand.rs `struct RuntimeStringEvaluation` *)
Record RuntimeStringEvaluation := { rs_at : nat; rs_lookup : bytes -> option bytes }.
(** Source: config/expand.rs `impl<L> EvaluationContext for RuntimeStringEvaluation` *)
#[export] Instance runtime_string_context : EvaluationContext RuntimeStringEvaluation ExpansionError := {|
  depth_mode _ := SyntaxNesting;
  variable c name := (Ok (read_only_value (rs_lookup c name)), c);
  command c _ _ := (Err (expansion_error (rs_at c) (B "expression cannot be evaluated here")), c);
  regex_quoted c _ _ := (Err (expansion_error (rs_at c) (B "expression cannot be evaluated here")), c);
  missing_variable c name := expansion_error (rs_at c) (B "runtime variable " ++ name ++ B " is not set");
  required_parameter c name := unset_or_empty (rs_at c) name;
  pattern_error c error := expansion_error (rs_at c) (pattern_error_text error);
  unsupported_part c _ := expansion_error (rs_at c) (B "expression cannot be evaluated here");
  depth_exceeded c := expansion_depth_error (rs_at c);
  depth_overflow c := expansion_error (rs_at c) (B "variable expansion depth overflows");
  length_error c error _ limit := expansion_length_error (rs_at c) error limit;
|}.

Abbreviation KnownValues := (gmap (list Z) ExpandedValue).

(** Source: config/expand.rs `struct ConfigEvaluation` *)
Record ConfigEvaluation := { cv_line : nat; cv_variables : KnownValues }.
(** Source: config/expand.rs `impl EvaluationContext for ConfigEvaluation` *)
#[export] Instance config_context : EvaluationContext ConfigEvaluation ExpansionError := {|
  depth_mode _ := ExpansionChain;
  variable c name := (Ok ((fun v => {| vv_bytes := ev_text v; vv_depth := ev_depth v |}) <$> cv_variables c !! name), c);
  command c _ _ := (Err (expansion_error (cv_line c) (B "expression is not valid in this context")), c);
  regex_quoted c _ _ := (Err (expansion_error (cv_line c) (B "expression is not valid in this context")), c);
  missing_variable c name :=
    if bool_decide (variable_policy name = RuntimeOnly) then
      expansion_error (cv_line c) (B "runtime variable " ++ name ++ B " is not available in this context")
    else not_defined (cv_line c) name;
  required_parameter c name := unset_or_empty (cv_line c) name;
  pattern_error c error := expansion_error (cv_line c) (pattern_error_text error);
  unsupported_part c _ := expansion_error (cv_line c) (B "expression is not valid in this context");
  depth_exceeded c := expansion_depth_error (cv_line c);
  depth_overflow c := expansion_error (cv_line c) (B "variable expansion depth overflows");
  length_error c error _ limit := expansion_length_error (cv_line c) error limit;
|}.

Section expand.
Context {T : Target}.

(** Source: config/expand.rs `fn push_bounded(` *)
Definition push_bounded (output value : bytes) (limit : Z) (line : nat) : result ExpansionError bytes :=
  bb_bytes <$> map_err (fun error => expansion_length_error line error limit)
    (try_extend {| bb_bytes := output; bb_limit := limit |} value).

(** The pieces pushed one after another. *)
Fixpoint push_all (output : bytes) (pieces : list bytes) (limit : Z) (line : nat) : result ExpansionError bytes :=
  match pieces with
  | [] => Ok output
  | piece :: rest => output ← push_bounded output piece limit line; push_all output rest limit line
  end.

(** The characters of a text, each with its bytes. *)
Fixpoint text_chars (fuel : nat) (l : bytes) : list bytes :=
  match fuel with
  | O => []
  | S fuel' => match split_char l with Some (c, rest) => c :: text_chars fuel' rest | None => [] end
  end.
Definition hex_digit (n : Z) : byte := if n <? 10 then c_0 + n else c_a + (n - 10).
Definition regex_special : list byte := [92; 46; 43; 42; 63; 40; 41; 124; 91; 93; 123; 125; 94; 36].

(** Source: config/expand.rs `pub(crate) fn push_regex_escaped` *)
Definition push_regex_escaped (output value : bytes) (limit : Z) (line : nat) : result ExpansionError bytes :=
  output ← push_bounded output (B "(?:)") limit line;
  if valid_utf8 value then
    push_all output (flat_map (fun character => (if existsb (fun b => bytes_eqb character [b]) regex_special then [[c_BSLASH]] else []) ++ [character])
                              (text_chars (length value) value)) limit line
  else
    push_all output ([B "(?-u:"] ++ ((fun b => [c_BSLASH; 120; hex_digit (b / 16); hex_digit (b mod 16)]) <$> value) ++ [[c_RPAREN]]) limit line.

(** Source: config/expand.rs `struct ShellConditionEvaluation` *)
Record ShellConditionEvaluation := { sc_line : nat; sc_runtime : RuntimeVariables }.
(** Source: config/expand.rs `impl EvaluationContext for ShellConditionEvaluation` *)
#[export] Instance shell_condition_context : EvaluationContext ShellConditionEvaluation ExpansionError := {|
  depth_mode _ := ED_None;
  variable c name := (Ok (read_only_value (get_bytes (sc_runtime c) name)), c);
  command c _ _ := (Err (expansion_error (sc_line c) (B "command substitution requires ordered evaluation")), c);
  regex_quoted c name limit :=
    (value ← ok_or (not_defined (sc_line c) name) (get_bytes (sc_runtime c) name); push_regex_escaped [] value limit (sc_line c), c);
  missing_variable c name := not_defined (sc_line c) name;
  required_parameter c name := unset_or_empty (sc_line c) name;
  pattern_error c error := expansion_error (sc_line c) (pattern_error_text error);
  unsupported_part c part := expansion_error (sc_line c)
    match part with
    | UP_Command => B "command substitution requires ordered evaluation"
    | UP_RegexQuotedVariable => B "regex-quoted variable is not valid in this context"
    end;
  depth_exceeded c := expansion_depth_error (sc_line c);
  depth_overflow c := expansion_error (sc_line c) (B "variable expansion depth overflows");
  length_error c error _ limit := expansion_length_error (sc_line c) error limit;
|}.

(** * Evaluation *)

(** Source: config/expand.rs `fn active_linebuf` *)
Definition active_linebuf (lookup : bytes -> option bytes) : Z :=
  default DEFAULT_LINEBUF (lookup (B "LINEBUF") ≫= parse_usize).

(** Source: config/expand.rs `fn relabel_linebuf_error` *)
Definition relabel_linebuf_error (error : ExpansionError) (linebuf hard_limit : Z) : ExpansionError :=
  if (linebuf <? hard_limit) && bytes_eqb (ex_message error) (B "expanded value exceeds the hard limit of " ++ z_decimal linebuf ++ B " bytes")
  then {| ex_line := ex_line error; ex_message := B "expanded value exceeds the active LINEBUF limit of " ++ z_decimal linebuf ++ B " bytes" |}
  else error.

(** The bytes of an evaluation whose context may not assign. *)
Definition without_assignments (line : nat) (message : bytes) (r : EvaluationResult) : result ExpansionError EvaluationResult :=
  if bool_decide (er_assignments r = []) then Ok r else Err (expansion_error line message).
Definition as_text (line : nat) (message : bytes) (b : bytes) : result ExpansionError bytes :=
  if valid_utf8 b then Ok b else Err (expansion_error line message).

(** Source: config/expand.rs `fn evaluate_expression(` *)
Definition evaluate_expression (expression : ShellExpression) (line : nat) (limit : Z) (lookup : bytes -> option bytes)
    : result ExpansionError ExpandedValue :=
  evaluated ← (evaluate expression limit {| rs_at := line; rs_lookup := lookup |}).1;
  evaluated ← without_assignments line (B "parameter assignment requires ordered evaluation") evaluated;
  text ← as_text line (B "expanded value is not valid UTF-8") (er_bytes evaluated);
  Ok {| ev_text := text; ev_depth := er_depth evaluated |}.

(** Source: config/expand.rs `fn evaluate_with_linebuf(` *)
Definition evaluate_with_linebuf (expression : ShellExpression) (line : nat) (hard_limit : Z) (lookup : bytes -> option bytes)
    : result ExpansionError ExpandedValue :=
  let linebuf := active_linebuf lookup in
  map_err (fun error => relabel_linebuf_error error linebuf hard_limit)
    (evaluate_expression expression line (Z.min linebuf hard_limit) lookup).

(** Source: config/expand.rs `pub(crate) fn expand_runtime_bytes` *)
Definition expand_runtime_bytes (input : bytes) (line : nat) (limit : Z) (lookup : bytes -> option bytes) : result ExpansionError bytes :=
  expression ← parse_expression input line;
  evaluated ← (evaluate expression limit {| rb_line := line; rb_lookup := lookup |}).1;
  er_bytes <$> without_assignments line (B "parameter assignment is not valid in this expression context") evaluated.

(** Source: config/expand.rs `fn evaluate_config_expression` *)
Definition evaluate_config_expression (expression : ShellExpression) (line : nat) (limit : Z) (variables : KnownValues)
    : result ExpansionError ExpandedValue :=
  evaluated ← (evaluate expression limit {| cv_line := line; cv_variables := variables |}).1;
  evaluated ← without_assignments line (B "parameter assignment is not valid in this expression context") evaluated;
  text ← as_text line (B "expanded value is not valid UTF-8") (er_bytes evaluated);
  Ok {| ev_text := text; ev_depth := er_depth evaluated |}.

(** Source: config/expand.rs `fn expand_text(` *)
Definition expand_text (input : bytes) (line : nat) (limit : Z) (variables : KnownValues) : result ExpansionError ExpandedValue :=
  expression ← parse_expression input line;
  evaluate_config_expression expression line limit variables.

(** The compiled expression where there is one, or the text parsed. *)
Definition compiled_or_parsed (parser : bytes -> nat -> result ExpansionError ShellExpression) (expansion : option ShellExpression)
    (source : bytes) (line : nat) : result ExpansionError ShellExpression :=
  match expansion with Some expression => Ok expression | None => parser source line end.

(** Source: config/expand.rs `pub(crate) fn expand_shell_condition` *)
Definition expand_shell_condition (condition : ShellExpandedCondition) (line : nat) (runtime : RuntimeVariables) : result ExpansionError bytes :=
  expression ← compiled_or_parsed parse_shell_condition_expression (se_expansion condition) (se_source condition) line;
  limit ← map_err (fun error => expansion_error line (rse_message error)) (linebuf (settings_at_line runtime line));
  evaluated ← map_err (fun error => relabel_linebuf_error error limit usize_max)
                (evaluate expression limit {| sc_line := line; sc_runtime := runtime |}).1;
  evaluated ← without_assignments line (B "parameter assignment requires ordered evaluation") evaluated;
  as_text line (B "shell-expanded condition contains non-UTF-8 variable data") (er_bytes evaluated).

(** * Paths *)

(** Source: config/expand.rs `fn validate_filesystem_path` *)
Definition validate_filesystem_path (path : bytes) (line : nat) (description : bytes) (allows_trailing_slash : bool)
    : result ExpansionError () :=
  let refuse message := Err (expansion_error line (description ++ B " path " ++ message)) in
  if bool_decide (path = []) then refuse (B "is empty")
  else if existsb (Z.eqb 0) path then refuse (B "contains NUL")
  else if ends_with path [c_SLASH] && negb allows_trailing_slash then refuse (B "must not end with '/'")
  else
    let components := default path (strip_prefix path [c_SLASH]) in
    let components := if allows_trailing_slash then default components (strip_suffix components [c_SLASH]) else components in
    if bool_decide (components = []) then refuse (B "does not name a filesystem entry")
    else
      match List.find (fun component => existsb (bytes_eqb component) [[]; [c_DOT]; [c_DOT; c_DOT]]) (split_on (Z.eqb c_SLASH) components) with
      | None => Ok ()
      | Some [] => refuse (B "contains an empty component")
      | Some [_] => refuse (B "must not contain '.'")
      | Some _ => refuse (B "must not contain '..'")
      end.

(** Source: config/expand.rs `fn resolve_relative_path` *)
Definition resolve_relative_path (path : bytes) (base : option bytes) (line : nat) : result ExpansionError bytes :=
  match base with
  | None | Some [] => Ok path
  | Some base =>
      if bool_decide (path = []) || starts_with path [c_SLASH] then Ok path
      else
        output ← push_all [] ([base] ++ (if ends_with base [c_SLASH] then [] else [[c_SLASH]]) ++ [path]) MAX_PATH_EXPRESSION_LEN line;
        as_text line (B "resolved path is not valid UTF-8") output
  end.

(** Source: config/expand.rs `fn allows_empty` *)
Definition allows_empty (r : PathResolver) : bool :=
  match pr_purpose r with PP_Lockfile | PP_Logfile | PP_RcFile => true | _ => false end.
(** Source: config/expand.rs `fn is_destination` *)
Definition is_destination (r : PathResolver) : bool :=
  match pr_purpose r with PP_Maildir | PP_Mbox | PP_File | PP_Discard => true | _ => false end.

(** Source: config/expand.rs `fn resolve(self, source` *)
Definition resolve_path (r : PathResolver) (source : bytes) : result ExpansionError bytes :=
  if bool_decide (source = []) && allows_empty r then Ok []
  else if is_destination r && negb (pr_typed_destination r) && existsb is_ascii_whitespace source then
    Err (expansion_error (pr_line r) (B "multiple unmarked mailbox destinations are not supported"))
  else
    path ← resolve_relative_path source (pr_base r) (pr_line r);
    _ ← validate_filesystem_path path (pr_line r) (pr_description r) (bool_decide (pr_purpose r = PP_Maildir));
    if bool_decide (pr_purpose r = PP_Discard) && negb (bytes_eqb path (B "/dev/null")) then
      Err (expansion_error (pr_line r) (B "discard destination must resolve exactly to /dev/null"))
    else Ok path.

(** Source: config/expand.rs `fn evaluate(` *)
Definition evaluate_path (r : PathResolver) (expression : ShellExpression) (lookup : bytes -> option bytes) : result ExpansionError bytes :=
  source ← evaluate_with_linebuf expression (pr_line r) MAX_PATH_EXPRESSION_LEN lookup;
  resolve_path r (ev_text source).

(** Source: config/expand.rs `fn destination(` *)
Definition destination_resolver (purpose : PathPurpose) (line : nat) (base : option bytes) (typed_destination : bool) : PathResolver :=
  {| pr_purpose := purpose;
     pr_description := match purpose with
                       | PP_Maildir => B "Maildir destination" | PP_Mbox => B "mbox destination" | PP_File => B "file destination"
                       | PP_Discard => B "discard destination" | _ => B "destination"
                       end;
     pr_line := line; pr_base := base; pr_typed_destination := typed_destination |}.
Definition path_resolver (purpose : PathPurpose) (description : bytes) (line : nat) (base : option bytes) : PathResolver :=
  {| pr_purpose := purpose; pr_description := description; pr_line := line; pr_base := base; pr_typed_destination := true |}.

(** * Assignments, rc files, locks *)

(** Source: config/expand.rs `fn assignment_path(` *)
Definition assignment_path_purpose (path : AssignmentPath) : PathPurpose * bytes :=
  match path with
  | AP_Maildir => (PP_Maildir, B "MAILDIR") | AP_LogFile => (PP_Logfile, B "LOGFILE") | AP_LockFile => (PP_Lockfile, B "LOCKFILE")
  end.

(** Source: config/expand.rs `pub(crate) fn resolve_with(@1` *)
Definition resolve_assignment (a : Assignment) (lookup : bytes -> option bytes) : result ExpansionError bytes :=
  value ← match as_expansion a with
          | Some expression => ev_text <$> evaluate_with_linebuf expression (as_line a) (value_limit (as_target a)) lookup
          | None => Ok (as_value a)
          end;
  _ ← map_err (expansion_error (as_line a)) (validate_resolved_value (as_target a) value);
  match assignment_path (as_target a) with
  | None => Ok value
  | Some path =>
      let '(purpose, description) := assignment_path_purpose path in
      resolve_path (path_resolver purpose description (as_line a) (lookup (B "MAILDIR"))) value
  end.

(** Source: config/expand.rs `pub(crate) fn resolve_with(@2` *)
Definition resolve_rc_file (e : RcFileExpression) (lookup : bytes -> option bytes) : result ExpansionError bytes :=
  expression ← compiled_or_parsed parse_expression (rf_expansion e) (rf_value e) (loc_line (rf_location e));
  evaluate_path (path_resolver PP_RcFile (B "rc file") (loc_line (rf_location e)) (lookup (B "MAILDIR"))) expression lookup.

(** The base of a path: [MAILDIR] as it is now where the path asks for it, or
    else the base it was prepared with. *)
Definition path_base (e : PathExpression) (lookup : bytes -> option bytes) : option bytes :=
  match (if pe_runtime_base e then lookup (B "MAILDIR") else None) with Some base => Some base | None => pe_base e end.

(** Source: config/expand.rs `pub(crate) fn resolve_with(@4` *)
Definition resolve_lock_path (e : PathExpression) (lookup : bytes -> option bytes) : result ExpansionError bytes :=
  compiled ← compiled_or_parsed parse_expression (pe_expansion e) (pe_source e) (loc_line (pe_location e));
  evaluate_path (path_resolver PP_Lockfile (B "lockfile") (loc_line (pe_location e)) (path_base e lookup)) compiled lookup.

(** * Header values *)

(** Source: config/expand.rs `enum HeaderValueCheck` *)
Inductive HeaderValueCheck := HVC_Field (name : bytes) | HVC_Keywords (checks_line_limit : bool) | HVC_Status.

(** Source: config/mod.rs `pub(crate) fn checks_line_limit` *)
Definition checks_line_limit (m : HeaderKeywordsMode) : bool := match m with KM_Add _ | KM_Set _ => true | _ => false end.

(** The value of an operation with its check, and the operation with another
    value in its place.
    Source: config/expand.rs `fn header_operation_value` *)
Definition header_operation_value (op : HeaderOperation)
    : option (nat * HeaderValueCheck * HeaderValue * (HeaderValue -> HeaderOperation)) :=
  match op with
  | HO_Remove _ _ | HO_Rename _ _ _ | HO_Extract _ _ _ _ | HO_Priority _ _ => None
  | HO_Set line name value => Some (line, HVC_Field name, value, HO_Set line name)
  | HO_Add line name value => Some (line, HVC_Field name, value, HO_Add line name)
  | HO_Prepend line name value => Some (line, HVC_Field name, value, HO_Prepend line name)
  | HO_Keywords line mode =>
      let check := HVC_Keywords (checks_line_limit mode) in
      match mode with
      | KM_Add value => Some (line, check, value, fun v => HO_Keywords line (KM_Add v))
      | KM_Remove value => Some (line, check, value, fun v => HO_Keywords line (KM_Remove v))
      | KM_Set value => Some (line, check, value, fun v => HO_Keywords line (KM_Set v))
      | KM_Clear => None
      end
  | HO_Status line mode =>
      match mode with
      | SM_Add value => Some (line, HVC_Status, value, fun v => HO_Status line (SM_Add v))
      | SM_Remove value => Some (line, HVC_Status, value, fun v => HO_Status line (SM_Remove v))
      | SM_Set value => Some (line, HVC_Status, value, fun v => HO_Status line (SM_Set v))
      | SM_Clear => None
      end
  end.

(** Source: header_value.rs `pub(crate) fn reason` *)
Definition generated_header_reason (e : GeneratedHeaderError) : bytes :=
  match e with
  | InvalidValue => B "contains a control character that cannot be represented in a header field"
  | LineTooLong => B "would exceed the RFC 5322 limit of 998 bytes per line"
  | GH_SizeOverflow => B "length overflows the supported range"
  end.
(** Source: structured_header.rs `pub(crate) fn reason` *)
Definition keyword_reason (e : ConfiguredKeywordError) : bytes :=
  match e with
  | CK_Empty => B "must contain at least one keyword"
  | CK_InvalidToken => B "must contain only printable ASCII keywords separated by spaces or commas"
  | CK_TooMany _ => B "exceeds the hard limit of 4096 keywords"
  end.
(** Source: config/mod.rs `pub(crate) const fn reason` *)
Definition status_reason (e : ConfiguredStatusError) : bytes :=
  match e with
  | CSE_Empty => B "must contain at least one status flag"
  | CSE_InvalidFlag => B "must contain only 'read', 'flagged', or 'replied'"
  end.

Definition join_with (separator : bytes) (words : list bytes) : bytes :=
  match words with [] => [] | w :: ws => w ++ concat ((fun x => separator ++ x) <$> ws) end.

(** Source: config/expand.rs `fn validate_header_value(` *)
Definition validate_header_value (check : HeaderValueCheck) (value : bytes) (line : nat) : result ExpansionError () :=
  match check with
  | HVC_Field name =>
      dropped (map_err (fun reason => expansion_error line (B "expanded header value " ++ generated_header_reason reason))
                 (validate_generated_header_value name value))
  | HVC_Keywords checks =>
      keywords ← map_err (fun reason => expansion_error line (B "expanded keywords value " ++ keyword_reason reason))
                   (parse_configured_keywords value);
      if checks then
        dropped (map_err (fun reason => expansion_error line (B "expanded keywords value " ++ generated_header_reason reason))
                   (validate_generated_header_value (KeywordField_name KF_XKeywords) (join_with (B ", ") keywords)))
      else Ok ()
  | HVC_Status =>
      dropped (map_err (fun reason => expansion_error line (B "expanded status value " ++ status_reason reason)) (parse_configured_status value))
  end.

(** Source: config/expand.rs `fn resolve_with(@3` *)
Definition resolve_header_value (v : HeaderValue) (line : nat) (check : HeaderValueCheck) (lookup : bytes -> option bytes)
    : result ExpansionError bytes :=
  expression ← compiled_or_parsed parse_expression (hv_expansion v) (hv_source v) line;
  value ← evaluate_with_linebuf expression line MAX_ASSIGNMENT_VALUE_LEN lookup;
  _ ← validate_header_value check (ev_text value) line;
  Ok (ev_text value).

Definition resolve_header_operation (op : HeaderOperation) (lookup : bytes -> option bytes) : result ExpansionError HeaderOperation :=
  match header_operation_value op with
  | None => Ok op
  | Some (line, check, value, rebuild) =>
      source ← resolve_header_value value line check lookup;
      Ok (rebuild {| hv_source := source; hv_expansion := None |})
  end.
Fixpoint resolve_header_operations (ops : list HeaderOperation) (lookup : bytes -> option bytes) : result ExpansionError (list HeaderOperation) :=
  match ops with
  | [] => Ok []
  | op :: rest => op ← resolve_header_operation op lookup; rest ← resolve_header_operations rest lookup; Ok (op :: rest)
  end.

(** Source: config/expand.rs `pub(crate) fn resolve_with(@3` *)
Definition resolve_header_action (action : HeaderAction) (lookup : bytes -> option bytes) : result ExpansionError HeaderAction :=
  ops ← resolve_header_operations (operations action) lookup; Ok {| operations := ops |}.
End expand.

(** * Paths that name an entry *)

(** A component of a path: not empty, no separator, and neither alias. *)
Definition plain_component (c : bytes) : Prop := c <> [] /\ c <> [c_DOT] /\ c <> [c_DOT; c_DOT] /\ c_SLASH ∉ c.

(** The spelling of a path: rooted or not, its components, and with a separator
    at the end or not. *)
Definition spell (rooted : bool) (components : list bytes) (trailing : bool) : bytes :=
  (if rooted then [c_SLASH] else []) ++ join_with [c_SLASH] components ++ (if trailing then [c_SLASH] else []).

(** A path that names an entry of the file system under one spelling. *)
Definition entry_path (allows_trailing_slash : bool) (path : bytes) : Prop :=
  (0 ∉ path) /\ exists rooted components trailing, path = spell rooted components trailing /\
    components <> [] /\ Forall plain_component components /\ (trailing = true -> allows_trailing_slash = true).

Section paths.
Context {T : Target}.

Lemma split_on_join sep (cs : list bytes) :
  cs <> [] -> Forall (fun c => sep ∉ c) cs -> split_on (Z.eqb sep) (join_with [sep] cs) = cs.
Proof.
  assert (forall c rest, sep ∉ c -> split_on (Z.eqb sep) (c ++ rest) =
    match split_on (Z.eqb sep) rest with w :: ws => (c ++ w) :: ws | [] => [[]] end) as Hsplit.
  { intros c rest Hc. induction c as [|b c IH]; cbn [split_on app]; [by destruct rest; cbn; repeat case_match|].
    rewrite not_elem_of_cons in Hc. destruct Hc as [Hb Hc]. rewrite IH by done.
    destruct (split_on (Z.eqb sep) rest) as [|w ws] eqn:E; [|by rewrite (proj2 (Z.eqb_neq _ _))].
    destruct rest; cbn in E; repeat case_match; done. }
  intros Hne Hcs. destruct cs as [|c cs]; [done|]. apply Forall_cons in Hcs as [Hc Hcs]. clear Hne. cbn [join_with].
  revert c Hc. induction Hcs as [|c' cs Hc' _ IH]; intros c Hc; cbn [fmap list_fmap concat].
  - rewrite Hsplit by done. cbn [split_on]. by rewrite app_nil_r.
  - rewrite <-app_assoc. cbn [app]. rewrite Hsplit by done. cbn [split_on]. rewrite IH by done. by rewrite Z.eqb_refl, app_nil_r.
Qed.

Lemma join_split_on sep l : join_with [sep] (split_on (Z.eqb sep) l) = l /\ Forall (fun c => sep ∉ c) (split_on (Z.eqb sep) l) /\ split_on (Z.eqb sep) l <> [].
Proof.
  induction l as [|b l (IH & Hall & Hne)]; cbn [split_on].
  { split_and!; [done| |done]. apply Forall_singleton. apply not_elem_of_nil. }
  destruct (split_on (Z.eqb sep) l) as [|w ws]; [done|]. apply Forall_cons in Hall as [Hw Hws].
  destruct (Z.eqb_spec sep b) as [<-|Hb].
  - split_and!; [|by repeat constructor; try apply not_elem_of_nil|done]. cbn [join_with fmap list_fmap concat app]. by rewrite <-IH.
  - split_and!; [|constructor; [by apply not_elem_of_cons|done]|done]. cbn [join_with app]. by rewrite <-IH.
Qed.

Lemma strip_suffix_spec l p r : strip_suffix l p = Some r <-> l = r ++ p.
Proof.
  unfold strip_suffix, ends_with. split.
  - destruct (_ && _) eqn:H; [|done]. intros [= <-]. apply andb_true_iff in H as [Hl H%bytes_eqb_true].
    rewrite <-H at 2. by rewrite take_drop.
  - intros ->. rewrite length_app, (proj2 (Nat.leb_le _ _)) by lia.
    replace (length r + length p - length p)%nat with (length r) by lia.
    by rewrite drop_app_length, bytes_eqb_refl, take_app_length.
Qed.

Definition bad_component (c : bytes) : bool := existsb (bytes_eqb c) [[]; [c_DOT]; [c_DOT; c_DOT]].
Lemma bad_component_false c : c_SLASH ∉ c -> (bad_component c = false <-> plain_component c).
Proof.
  intros Hc. unfold bad_component, plain_component. cbn [existsb]. unfold bytes_eqb.
  rewrite !orb_false_iff, !bool_decide_eq_false. tauto.
Qed.

Lemma find_none_forall {A} (f : A -> bool) l : List.find f l = None <-> Forall (fun x => f x = false) l.
Proof.
  split.
  - intros H. apply List.Forall_forall. by apply List.find_none.
  - induction 1 as [|x l Hx _ IH]; cbn; [done|]. by rewrite Hx.
Qed.

Lemma join_ends cs :
  cs <> [] -> Forall plain_component cs ->
  (exists b rest, join_with [c_SLASH] cs = b :: rest /\ b <> c_SLASH) /\
  (exists rest b, join_with [c_SLASH] cs = rest ++ [b] /\ b <> c_SLASH).
Proof.
  intros Hne Hcs. split.
  - destruct Hcs as [|c cs (Hc & _ & _ & Hs) _]; [done|]. destruct c as [|b c]; [done|]. cbn [join_with app].
    exists b, (c ++ concat ((fun x => [c_SLASH] ++ x) <$> cs)). split; [done|]. intros ->. apply Hs, list_elem_of_here.
  - destruct Hcs as [|c cs Hc Hcs]; [done|]. clear Hne. cbn [join_with]. revert c Hc. induction Hcs as [|c' cs Hc' _ IH]; intros c Hc.
    + destruct Hc as (Hc & _ & _ & Hs). destruct (exists_last Hc) as (rest & b & ->). exists rest, b.
      cbn [fmap list_fmap concat]. rewrite app_nil_r. split; [done|]. intros ->. apply Hs, elem_of_app. right. apply list_elem_of_here.
    + destruct (IH c' Hc') as (rest & b & Heq & Hb). exists (c ++ [c_SLASH] ++ rest), b. split; [|done].
      cbn [fmap list_fmap concat]. rewrite <-!app_assoc. f_equal. cbn [app]. f_equal. exact Heq.
Qed.

Lemma existsb_eqb_elem x (l : bytes) : existsb (Z.eqb x) l = true <-> x ∈ l.
Proof.
  rewrite existsb_exists, list_elem_of_In. split; [by intros (y & Hy & <-%Z.eqb_eq)|]. intros H. exists x. by rewrite Z.eqb_refl.
Qed.

Lemma snoc_ends_with (rest : bytes) b x : ends_with (rest ++ [b]) [x] = (b =? x).
Proof.
  apply eq_true_iff_eq. unfold ends_with. rewrite andb_true_iff, Z.eqb_eq, bytes_eqb_true, length_app. cbn [length].
  rewrite Nat.add_sub, drop_app_length. split; [by intros (_ & [= ->])|]. intros ->. split; [|done]. apply Nat.leb_le. lia.
Qed.

Lemma spell_ends rooted cs trailing :
  cs <> [] -> Forall plain_component cs ->
  spell rooted cs trailing <> [] /\
  default (spell rooted cs trailing) (strip_prefix (spell rooted cs trailing) [c_SLASH]) = spell false cs trailing /\
  ends_with (spell rooted cs trailing) [c_SLASH] = trailing /\
  strip_suffix (spell false cs trailing) [c_SLASH] = (if trailing then Some (join_with [c_SLASH] cs) else None).
Proof.
  intros Hne Hcs. destruct (join_ends cs Hne Hcs) as [(b & rest & Hb & Hbs) (rest' & b' & Hb' & Hbs')]. unfold spell.
  split_and!.
  - rewrite Hb. by destruct rooted.
  - destruct rooted; cbn [app].
    + assert (strip_prefix (c_SLASH :: join_with [c_SLASH] cs ++ (if trailing then [c_SLASH] else [])) [c_SLASH] =
        Some (join_with [c_SLASH] cs ++ (if trailing then [c_SLASH] else []))) as ->; [|done].
      by apply strip_prefix_Some.
    + rewrite Hb. cbn [app]. destruct (strip_prefix _ _) as [r|] eqn:E; [|done]. apply strip_prefix_Some in E. by injection E as -> _.
  - destruct trailing.
    + rewrite app_assoc, snoc_ends_with. by rewrite Z.eqb_refl.
    + rewrite app_nil_r, Hb', app_assoc, snoc_ends_with. by apply Z.eqb_neq.
  - cbn [app]. destruct trailing; [by apply strip_suffix_spec|]. rewrite app_nil_r.
    destruct (strip_suffix _ _) as [r|] eqn:E; [|done]. apply strip_suffix_spec in E. rewrite Hb' in E.
    apply app_inj_2 in E as [_ E]; [|done]. by injection E as ->.
Qed.

Lemma validate_path_exact path line description allows :
  is_ok (validate_filesystem_path path line description allows) = true <-> entry_path allows path.
Proof.
  unfold validate_filesystem_path. split.
  - case_bool_decide as Hne; [done|]. destruct (existsb (Z.eqb 0) path) eqn:H0; [done|].
    assert (0 ∉ path) as Hnul by (rewrite <-existsb_eqb_elem; by rewrite H0).
    destruct (ends_with path [c_SLASH] && negb allows) eqn:He; [done|].
    set (comps0 := default path (strip_prefix path [c_SLASH])).
    set (comps := if allows then default comps0 (strip_suffix comps0 [c_SLASH]) else comps0).
    case_bool_decide as Hc; [done|]. change (existsb (bytes_eqb ?c) [[]; [c_DOT]; [c_DOT; c_DOT]]) with (bad_component c).
    destruct (List.find _ _) as [[|? [|? ?]]|] eqn:Hf; try done. intros _. apply find_none_forall in Hf.
    split; [done|]. destruct (join_split_on c_SLASH comps) as (Hj & Hns & Hsp).
    assert (exists rooted, path = (if rooted : bool then [c_SLASH] else []) ++ comps0) as [rooted Hroot].
    { unfold comps0. destruct (strip_prefix path [c_SLASH]) as [r|] eqn:E; [|by exists false].
      exists true. by apply strip_prefix_Some in E. }
    assert (exists trailing, comps0 = comps ++ (if trailing : bool then [c_SLASH] else []) /\ (trailing = true -> allows = true)) as (trailing & Htr & Hal).
    { unfold comps. destruct allows; [|exists false; by rewrite app_nil_r].
      destruct (strip_suffix comps0 [c_SLASH]) as [r|] eqn:E; [|exists false; by rewrite app_nil_r].
      apply strip_suffix_spec in E. by exists true. }
    exists rooted, (split_on (Z.eqb c_SLASH) comps), trailing. unfold spell. rewrite Hj, <-Htr. split_and!; [done|done| |done].
    rewrite Forall_forall in Hf, Hns |- *. intros c Hin. apply bad_component_false; [by apply Hns|by apply Hf].
  - intros (Hnul & rooted & cs & trailing & Hpath & Hne & Hcs & Htr).
    destruct (spell_ends rooted cs trailing Hne Hcs) as (H1 & H2 & H3 & H4). rewrite <-Hpath in H1, H2, H3.
    rewrite bool_decide_eq_false_2 by done.
    assert (existsb (Z.eqb 0) path = false) as -> by (apply not_true_iff_false; by rewrite existsb_eqb_elem).
    assert (trailing && negb allows = false) as Ht by (destruct trailing; [by rewrite Htr|done]). rewrite H3, Ht, H2.
    assert ((if allows then default (spell false cs trailing) (strip_suffix (spell false cs trailing) [c_SLASH]) else spell false cs trailing)
      = join_with [c_SLASH] cs) as ->.
    { rewrite H4. destruct trailing; [by rewrite Htr|]. unfold spell. cbn [app]. rewrite app_nil_r. by destruct allows. }
    destruct (join_ends cs Hne Hcs) as [(b & rest & Hb & _) _].
    rewrite bool_decide_eq_false_2 by (rewrite Hb; done).
    rewrite split_on_join; [|done|by eapply Forall_impl; [exact Hcs|]; intros c (_ & _ & _ & ?)].
    change (existsb (bytes_eqb ?c) [[]; [c_DOT]; [c_DOT; c_DOT]]) with (bad_component c).
    assert (List.find (fun c => bad_component c) cs = None) as ->; [|done].
    apply find_none_forall. eapply Forall_impl; [exact Hcs|]. intros c Hc. apply bad_component_false; [|done]. by destruct Hc as (_ & _ & _ & ?).
Qed.

(** * Resolution *)

Lemma push_bounded_Ok output value limit line r :
  push_bounded output value limit line = Ok r -> r = output ++ value /\ len r <= limit.
Proof.
  unfold push_bounded. destruct (try_extend _ _) as [b|e] eqn:H; [|done]. cbn. intros [= <-].
  apply try_extend_ok in H as (Hb & Hl & Hok). unfold bb_ok in Hok. rewrite Hl, Hb in Hok. rewrite Hb. by split.
Qed.

Lemma push_all_Ok output pieces limit line r :
  push_all output pieces limit line = Ok r -> r = output ++ concat pieces /\ (pieces <> [] -> len r <= limit).
Proof.
  revert output. induction pieces as [|piece pieces IH]; intros output; cbn [push_all concat].
  - intros [= <-]. by rewrite app_nil_r.
  - intros (o & (-> & Ho)%push_bounded_Ok & H)%result_bind_Ok. apply IH in H as [-> Hr]. rewrite app_assoc. split; [done|].
    intros _. destruct pieces as [|p ps]; [by rewrite app_nil_r|]. by apply Hr.
Qed.

(** The source under the base, where it is relative to one. *)
Definition joined (base : option bytes) (source : bytes) : bytes :=
  match base with
  | Some (b :: base) => if bool_decide (source = []) || starts_with source [c_SLASH] then source
                        else (b :: base) ++ (if ends_with (b :: base) [c_SLASH] then [] else [c_SLASH]) ++ source
  | _ => source
  end.

Lemma resolve_relative_Ok source base line path :
  resolve_relative_path source base line = Ok path ->
  path = joined base source /\ (path = source \/ len path <= MAX_PATH_EXPRESSION_LEN).
Proof.
  unfold resolve_relative_path, joined. destruct base as [[|b base]|]; try by intros [= <-]; auto.
  destruct (bool_decide (source = []) || starts_with source [c_SLASH]); [intros [= <-]; auto|].
  intros (o & Ho & H)%result_bind_Ok. unfold as_text in H. destruct (valid_utf8 o); [|done]. injection H as <-.
  apply push_all_Ok in Ho as [-> Hl]. split; [|right; by apply Hl].
  destruct (ends_with (b :: base) [c_SLASH]); cbn [concat app]; by rewrite ?app_nil_r.
Qed.

Lemma resolve_path_Ok r source path :
  resolve_path r source = Ok path ->
  (source = [] /\ path = [] /\ allows_empty r = true) \/
  (entry_path (bool_decide (pr_purpose r = PP_Maildir)) path /\ path = joined (pr_base r) source /\
   (pr_purpose r = PP_Discard -> path = B "/dev/null") /\
   (is_destination r = true -> pr_typed_destination r = false -> existsb is_ascii_whitespace source = false) /\
   (path = source \/ len path <= MAX_PATH_EXPRESSION_LEN)).
Proof.
  unfold resolve_path. destruct (bool_decide (source = []) && allows_empty r) eqn:Hem.
  { intros [= <-]. apply andb_true_iff in Hem as [->%bool_decide_eq_true ?]. by left. }
  destruct (is_destination r && negb (pr_typed_destination r) && existsb is_ascii_whitespace source) eqn:Hws; [done|].
  intros (p & [Hp Hlen]%resolve_relative_Ok & H)%result_bind_Ok. apply result_bind_Ok in H as (u & Hv & H).
  destruct (bool_decide (pr_purpose r = PP_Discard) && _) eqn:Hd; [done|]. injection H as <-. right. split_and!; [|done| | |done].
  - apply (validate_path_exact p (pr_line r) (pr_description r)). by rewrite Hv.
  - intros Hdis. rewrite bool_decide_eq_true_2 in Hd by done. cbn in Hd. apply negb_false_iff in Hd. by apply bytes_eqb_true.
  - intros Hdest Hty. rewrite Hdest, Hty in Hws. done.
Qed.

Lemma runtime_string_shallow : shallow (C := RuntimeStringEvaluation) (E := ExpansionError).
Proof. intros c c' name v. cbn. unfold read_only_value. destruct (rs_lookup c name) as [b|]; cbn; [|discriminate]. intros [= <- <-]. cbn. apply Nat.le_0_l. Qed.

Lemma active_linebuf_nonneg lookup : 0 <= active_linebuf lookup.
Proof.
  unfold active_linebuf. destruct (lookup (B "LINEBUF")) as [v|]; cbn; [|done]. destruct (parse_usize v) as [n|] eqn:H; [|done].
  apply parse_unsigned_nonneg in H as [H _]. exact H.
Qed.

Lemma map_err_Ok_inv {A E F} (f : E -> F) (m : result E A) a : map_err f m = Ok a -> m = Ok a.
Proof. by destruct m; intros [= ->]. Qed.

Lemma evaluate_expression_Ok e line limit lookup v :
  evaluate_expression e line limit lookup = Ok v ->
  exists r, evaluate e limit {| rs_at := line; rs_lookup := lookup |} = (Ok r, {| rs_at := line; rs_lookup := lookup |}) /\
    er_assignments r = [] /\ er_bytes r = ev_text v /\ er_depth r = ev_depth v /\ valid_utf8 (ev_text v) = true.
Proof.
  unfold evaluate_expression. destruct (evaluate _ _ _) as [[r|e'] c'] eqn:He; [|done]. cbn [mbind result_bind fst].
  unfold without_assignments, as_text. case_bool_decide as Ha; [|done]. cbn [mbind result_bind].
  destruct (valid_utf8 (er_bytes r)) eqn:Hu; [|done]. intros [= <-]. exists r. split_and!; try done.
  assert (c' = {| rs_at := line; rs_lookup := lookup |}) as ->; [|done].
  refine (proj1 (evaluate_agrees lookup (fun _ => None) e limit _ c' r _ He)). split_and!.
  - intros name found c1 [= <- <-]. split; [done|]. unfold read_only_value. cbn. by destruct (lookup name).
  - done.
  - done.
Qed.

Lemma evaluate_with_linebuf_Ok e line hard lookup v :
  0 <= hard -> evaluate_with_linebuf e line hard lookup = Ok v ->
  evaluate_expression e line (Z.min (active_linebuf lookup) hard) lookup = Ok v /\
  len (ev_text v) <= active_linebuf lookup /\ len (ev_text v) <= hard /\ valid_utf8 (ev_text v) = true.
Proof.
  intros Hh H%map_err_Ok_inv. split; [done|]. apply evaluate_expression_Ok in H as (r & He & _ & <- & _ & Hu).
  pose proof (active_linebuf_nonneg lookup).
  apply evaluate_bounded in He as [Hb _]; [|lia|exact runtime_string_shallow]. split_and!; [lia|lia|done].
Qed.
End paths.

(** ** Below a directory *)

(** The components of a path, as the system walks them. *)
Definition walked (path : bytes) : list bytes := List.filter (fun c => negb (bool_decide (c = []))) (split_on (Z.eqb c_SLASH) path).
(** The path is walked by first walking the base, and then at least one component more,
    none of which leads up. *)
Definition below (base path : bytes) : Prop :=
  starts_with path [c_SLASH] = starts_with base [c_SLASH] /\
  exists cs, walked path = walked base ++ cs /\ cs <> [] /\ Forall plain_component cs.

Lemma split_on_app sep (a b : bytes) : split_on (Z.eqb sep) (a ++ sep :: b) = split_on (Z.eqb sep) a ++ split_on (Z.eqb sep) b.
Proof.
  induction a as [|x a IH]; cbn [app split_on].
  - destruct (join_split_on sep b) as (_ & _ & Hne). rewrite Z.eqb_refl. by destruct (split_on (Z.eqb sep) b).
  - rewrite IH. destruct (join_split_on sep a) as (_ & _ & Hne). destruct (split_on (Z.eqb sep) a); [done|]. cbn [app]. by destruct (sep =? x).
Qed.
Lemma walked_app a b : walked (a ++ c_SLASH :: b) = walked a ++ walked b.
Proof. unfold walked. by rewrite split_on_app, List.filter_app. Qed.
Lemma walked_slash base : ends_with base [c_SLASH] = true -> forall rest, walked (base ++ rest) = walked base ++ walked rest.
Proof.
  intros He rest. destruct (strip_suffix base [c_SLASH]) as [a|] eqn:E; [|unfold strip_suffix in E; by rewrite He in E].
  apply strip_suffix_spec in E as ->. rewrite <-app_assoc. cbn [app]. rewrite !walked_app. change (walked []) with (@nil bytes). by rewrite app_nil_r.
Qed.
Lemma walked_plain cs : cs <> [] -> Forall plain_component cs -> walked (join_with [c_SLASH] cs) = cs.
Proof.
  intros Hne Hcs. unfold walked. rewrite split_on_join; [|done|by eapply Forall_impl; [exact Hcs|]; intros c (_ & _ & _ & ?)].
  clear Hne. induction Hcs as [|c cs (Hc & _) _ IH]; [done|]. cbn [List.filter]. rewrite bool_decide_eq_false_2 by done. cbn [negb]. by rewrite IH.
Qed.
Lemma entry_walked allows path : entry_path allows path -> Forall plain_component (walked path).
Proof.
  intros (_ & rooted & cs & trailing & -> & Hne & Hcs & _). assert (walked (spell rooted cs trailing) = cs) as ->; [|done].
  assert (walked (join_with [c_SLASH] cs ++ (if trailing then [c_SLASH] else [])) = cs) as H.
  { destruct trailing; [|rewrite app_nil_r; by apply walked_plain]. rewrite walked_app, walked_plain by done. by rewrite app_nil_r. }
  unfold spell. destruct rooted; [|done]. cbn [app]. change (c_SLASH :: ?l) with ([] ++ c_SLASH :: l). by rewrite walked_app, H.
Qed.
Lemma walked_relative source : source <> [] -> starts_with source [c_SLASH] = false -> walked source <> [].
Proof.
  destruct source as [|b source]; [done|]. intros _ Hs. unfold walked. cbn [split_on].
  destruct (join_split_on c_SLASH source) as (_ & _ & Hne). destruct (split_on (Z.eqb c_SLASH) source) as [|w ws]; [done|].
  destruct (Z.eqb_spec c_SLASH b) as [<-|_]; [by vm_compute in Hs|]. cbn [List.filter].
  by rewrite bool_decide_eq_false_2.
Qed.
Lemma joined_below allows b base source :
  source <> [] -> starts_with source [c_SLASH] = false -> entry_path allows (joined (Some (b :: base)) source) ->
  below (b :: base) (joined (Some (b :: base)) source).
Proof.
  intros Hne Hs He. apply entry_walked in He. revert He. unfold joined. rewrite bool_decide_eq_false_2, Hs by done. cbn [orb].
  intros He. split; [unfold starts_with; cbn; done|]. exists (walked source).
  assert (walked ((b :: base) ++ (if ends_with (b :: base) [c_SLASH] then [] else [c_SLASH]) ++ source) = walked (b :: base) ++ walked source) as Hw
    by (destruct (ends_with (b :: base) [c_SLASH]) eqn:E; [by apply walked_slash|by apply walked_app]).
  split; [exact Hw|]. split; [by apply walked_relative|]. rewrite Hw in He. by apply Forall_app in He as [_ He].
Qed.

(** C29: Where a path expression leads.  What a resolver gives is either the empty
    path, where the statement allows one, or the spelling of an entry: at least
    one component, none of them empty, [.] or [..], no NUL, and a separator at
    the end for a Maildir only; and no path is longer than its limit.  Where there is
    a base and the value of the expression is relative, the path lies below the base: it is
    walked through the base and then through at least one component, and never
    up.  Otherwise - the value is absolute, or empty, or there is no base - it is the
    value itself, wherever that leads: an absolute value is not confined to the base.
    A discard goes to [/dev/null] and nowhere else. *)
Theorem evaluated_path_safe {T : Target} (r : PathResolver) (e : ShellExpression) (lookup : bytes -> option bytes) (path : bytes)
    (Hpath : evaluate_path r e lookup = Ok path) :
  exists source, ev_text <$> evaluate_with_linebuf e (pr_line r) MAX_PATH_EXPRESSION_LEN lookup = Ok source /\
    len path <= MAX_PATH_EXPRESSION_LEN /\ path = joined (pr_base r) source /\
    (path = [] /\ allows_empty r = true \/ entry_path (bool_decide (pr_purpose r = PP_Maildir)) path) /\
    match pr_base r with
    | Some (b :: base) => if bool_decide (source = []) || starts_with source [c_SLASH] then path = source else below (b :: base) path
    | _ => path = source
    end /\
    (pr_purpose r = PP_Discard -> path = B "/dev/null").
Proof.
  unfold evaluate_path in Hpath. apply result_bind_Ok in Hpath as (v & Hv & Hp). exists (ev_text v). rewrite Hv. split; [done|].
  apply evaluate_with_linebuf_Ok in Hv as (_ & _ & Hlen & _); [|done].
  apply resolve_path_Ok in Hp as [(Hs & -> & Ha)|(He & Hj & Hd & _ & Hl)].
  - rewrite Hs. assert ([] = joined (pr_base r) []) as Hj by (unfold joined; by destruct (pr_base r) as [[|b base]|]).
    split_and!; [done|done|by left|by destruct (pr_base r) as [[|b base]|]|]. intros Hpu. unfold allows_empty in Ha. by rewrite Hpu in Ha.
  - split_and!; [destruct Hl as [->|Hl]; done|done|by right| |done].
    rewrite Hj in He |- *. destruct (pr_base r) as [[|b base]|]; [done| |done].
    destruct (bool_decide_reflect (ev_text v = [])) as [Hn|Hn]; [by rewrite Hn|]. cbn [orb].
    destruct (starts_with (ev_text v) [c_SLASH]) eqn:Hs; [unfold joined; by rewrite Hs, orb_true_r|]. by eapply joined_below.
Qed.

(** * Escaping for a regular expression *)

(** What an escaped text stands for: a character after a backslash is itself,
    and a special character without one is not text. *)
Fixpoint unescape (fuel : nat) (l : bytes) : option bytes :=
  match fuel with
  | O => None
  | S fuel' =>
      match l with
      | [] => Some []
      | b :: l' =>
          if b =? c_BSLASH then
            match l' with x :: l'' => if existsb (Z.eqb x) regex_special then cons x <$> unescape fuel' l'' else None | [] => None end
          else if existsb (Z.eqb b) regex_special then None
          else cons b <$> unescape fuel' l'
      end
  end.

Definition escaped_char (c : bytes) : list bytes :=
  (if existsb (fun b => bytes_eqb c [b]) regex_special then [[c_BSLASH]] else []) ++ [c].

(** The bytes of one character. *)
Definition is_char (c : bytes) : Prop :=
  exists b0 tl, c = b0 :: tl /\ Forall (fun b => cont_byte b = true) tl /\ (tl <> [] -> between 0 127 b0 = false).

Lemma text_chars_valid fuel l :
  (length l <= fuel)%nat -> valid_utf8 l = true ->
  concat (text_chars fuel l) = l /\
  Forall (fun c => is_char c) (text_chars fuel l).
Proof.
  revert l. induction fuel as [|fuel IH]; intros l Hf Hv; [destruct l; [done|simpl in Hf; lia]|]. cbn [text_chars].
  destruct l as [|b l]; [done|]. unfold valid_utf8 in Hv. apply bool_decide_eq_true in Hv as [cs Hcs].
  rewrite utf8_chars_unfold in Hcs by done. apply bind_Some in Hcs as ([c r] & Hc & (cr & Hr & _)%fmap_Some).
  destruct (split_char (b :: l)) as [[ch rest]|] eqn:Hs; [|by unfold split_char in Hs; rewrite Hc in Hs].
  apply split_char_spec in Hs as Hl. unfold split_char in Hs. rewrite Hc in Hs. injection Hs as Hch <-.
  apply next_char_split in Hc as (b0 & tl & Heq & Htl & _ & _ & _ & _ & _ & Hn). destruct Hl as [Hl Hne].
  assert (ch = b0 :: tl) as Hch'. { rewrite Heq in Hl. by apply app_inv_tail in Hl. }
  destruct (IH r) as [IH1 IH2].
  - rewrite Heq in Hf. simpl in Hf. rewrite length_app in Hf. lia.
  - unfold valid_utf8. apply bool_decide_eq_true. by exists cr.
  - split; [cbn [concat]; by rewrite IH1, Hl|]. constructor; [|done]. exists b0, tl. split_and!; [done|done|].
    intros Htl'. apply not_true_iff_false. intros Hb. specialize (Hn []). cbn [next_char app] in Hn. rewrite Hb, app_nil_r in Hn.
    by injection Hn as _ ->.
Qed.

Lemma special_not_cont b : cont_byte b = true -> existsb (Z.eqb b) regex_special = false /\ (b =? c_BSLASH) = false.
Proof.
  unfold cont_byte. intros H%between_true. split; [|lia]. apply not_true_iff_false. rewrite existsb_eqb_elem.
  unfold regex_special. rewrite !elem_of_cons. intros H'. repeat destruct H' as [->|H']; try lia. by apply not_elem_of_nil in H'.
Qed.

Lemma unescape_cont fuel tl l :
  Forall (fun b => cont_byte b = true) tl -> unescape (length tl + fuel) (tl ++ l) = (fun r => tl ++ r) <$> unescape fuel l.
Proof.
  induction 1 as [|b tl Hb _ IH]; [cbn; by destruct (unescape fuel l)|]. cbn [length app Nat.add unescape].
  destruct (special_not_cont b Hb) as [-> ->]. rewrite IH. by destruct (unescape fuel l).
Qed.

Lemma unescape_chars cs fuel :
  Forall (fun c => is_char c) cs ->
  (length (concat (flat_map escaped_char cs)) < fuel)%nat ->
  unescape fuel (concat (flat_map escaped_char cs)) = Some (concat cs).
Proof.
  intros Hcs. revert fuel. induction Hcs as [|c cs (b0 & tl & -> & Htl & Hlead) _ IH]; intros fuel Hf.
  { destruct fuel; [simpl in Hf; lia|done]. }
  cbn [flat_map]. cbn [flat_map] in Hf. rewrite concat_app in Hf |- *. cbn [concat].
  assert (existsb (fun b => bytes_eqb (b0 :: tl) [b]) regex_special = true -> tl = [] /\ existsb (Z.eqb b0) regex_special = true) as Hsp.
  { intros (x & Hx & Heq%bytes_eqb_true)%existsb_exists. injection Heq as -> ->. split; [done|]. apply existsb_exists. exists x. by rewrite Z.eqb_refl. }
  assert (existsb (fun b => bytes_eqb (b0 :: tl) [b]) regex_special = false -> tl = [] -> existsb (Z.eqb b0) regex_special = false) as Hns.
  { intros Hn ->. apply not_true_iff_false. intros (x & Hx & ->%Z.eqb_eq)%existsb_exists.
    apply not_true_iff_false in Hn. apply Hn. apply existsb_exists. exists x. by rewrite bytes_eqb_refl. }
  unfold escaped_char in *. destruct (existsb _ _) eqn:He.
  - destruct Hsp as [-> Hsp]; [done|]. cbn [app concat] in *. destruct fuel as [|fuel]; [simpl in Hf; lia|].
    cbn [unescape]. change (c_BSLASH =? c_BSLASH) with true. rewrite Hsp. cbn iota.
    cbn [length] in Hf. rewrite IH by lia. done.
  - cbn [app concat] in *. rewrite app_nil_r in *.
    assert (existsb (Z.eqb b0) regex_special = false /\ (b0 =? c_BSLASH) = false) as [Hs Hb].
    { destruct tl as [|b1 tl].
      - split; [by apply Hns|]. specialize (Hns eq_refl eq_refl). apply not_true_iff_false. intros ->%Z.eqb_eq. done.
      - assert (between 0 127 b0 = false) as Hb0 by (by apply Hlead). split.
        + apply not_true_iff_false. intros (x & Hx & ->%Z.eqb_eq)%existsb_exists. repeat (destruct Hx as [<-|Hx]; [done|]). done.
        + apply not_true_iff_false. intros ->%Z.eqb_eq. done. }
    cbn [app]. destruct fuel as [|fuel]; [simpl in Hf; lia|]. cbn [unescape]. rewrite Hs, Hb.
    cbn [length app] in Hf. rewrite length_app in Hf. replace fuel with (length tl + (fuel - length tl))%nat by lia.
    rewrite unescape_cont, IH by (done || lia). done.
Qed.

(** A variable quoted for a regular expression stands for its own text: what
    is pushed is a group that matches nothing and then the text with every
    special character escaped, so that read as a pattern it is the literal
    value; and it fits the limit or is refused. *)
Theorem regex_escape_literal {T : Target} (value : bytes) (limit : Z) (line : nat) (out : bytes)
    (Hutf8 : valid_utf8 value = true) (Hout : push_regex_escaped [] value limit line = Ok out) :
  exists escaped, out = B "(?:)" ++ escaped /\ unescape (S (length escaped)) escaped = Some value /\ len out <= limit.
Proof.
  unfold push_regex_escaped in Hout. apply result_bind_Ok in Hout as (o & (-> & Hgroup)%push_bounded_Ok & H).
  rewrite Hutf8 in H. apply push_all_Ok in H as [-> Hlen]. cbn [app] in *.
  destruct (text_chars_valid (length value) value ltac:(lia) Hutf8) as [Hcat Hall].
  exists (concat (flat_map escaped_char (text_chars (length value) value))). split; [done|]. split.
  - rewrite unescape_chars by (done || lia). by rewrite Hcat.
  - destruct (text_chars (length value) value) as [|c cs] eqn:Hcs.
    + exact Hgroup.
    + apply Hlen. cbn [flat_map]. by destruct (existsb _ _).
Qed.

Lemma evaluated_path_safe_witness :
  exists path, evaluate_path (destination_resolver PP_Maildir 3 (Some (B "/home/me/Mail")) true)
      (MkShellExpression [Literal (B "lists/"); Variable_ (B "L") Value; Literal (B "/")]) (fun name => if bytes_eqb name (B "L") then Some (B "rocq") else None)
      = Ok path /\ path = B "/home/me/Mail/lists/rocq/" /\ below (B "/home/me/Mail") path.
Proof.
  eexists. split; [vm_compute; reflexivity|]. split; [vm_compute; reflexivity|].
  pose proof (evaluated_path_safe (destination_resolver PP_Maildir 3 (Some (B "/home/me/Mail")) true)
    (MkShellExpression [Literal (B "lists/"); Variable_ (B "L") Value; Literal (B "/")]) (fun name => if bytes_eqb name (B "L") then Some (B "rocq") else None)
    (B "/home/me/Mail/lists/rocq/")) as H.
  destruct H as (source & Hs & _ & _ & _ & Hb & _); [vm_compute; reflexivity|]. vm_compute in Hs. injection Hs as <-. exact Hb.
Defined.

Lemma regex_escape_literal_witness :
  exists out, push_regex_escaped [] (B "a.b[c]") 64 1 = Ok out /\ out = B "(?:)a\.b\[c\]" /\
    unescape (S (length (B "a\.b\[c\]"))) (B "a\.b\[c\]") = Some (B "a.b[c]").
Proof.
  eexists. split; [vm_compute; reflexivity|]. split; [vm_compute; reflexivity|].
  destruct (regex_escape_literal (B "a.b[c]") 64 1 (B "(?:)a\.b\[c\]")) as (escaped & Ho & Hu & _);
    [vm_compute; reflexivity|vm_compute; reflexivity|].
  assert (escaped = B "a\.b\[c\]") as <-; [|exact Hu]. vm_compute in Ho. injection Ho as <-. reflexivity.
Defined.
