(* ===== verification/Binding.v ===== *)
(** Destinations and their expressions: [src/src/config/expand.rs].  The
    analysis of an expression says which variables it needs and when; binding
    fixes what is known now and leaves what a later delivery provides; and a
    destination is resolved to a path through the resolver of [Expand]. *)
From stdpp Require Import gmap pretty.
From S2P Require Import Prelude Numbers Config Limits Utf8 HeaderValue StructuredHeader Variables Runtime Settings ShellPattern ShellEval ExprParser Expand.
#[local] Open Scope Z_scope.

(** * Operations *)

(** Source: config/mod.rs `pub(crate) fn requires_value` *)
Definition requires_value (op : ParameterOperation) : bool :=
  match op with Value | Length_ | RemovePrefix _ _ | RemoveSuffix _ _ | ChangeCase _ _ _ => true | _ => false end.
(** Source: config/mod.rs `pub(crate) fn is_value_transform` *)
Definition is_value_transform (op : ParameterOperation) : bool :=
  match op with Length_ | RemovePrefix _ _ | RemoveSuffix _ _ | ChangeCase _ _ _ => true | _ => false end.
(** Source: config/mod.rs `pub(crate) fn evaluates_word` *)
Definition evaluates_word (op : ParameterOperation) (is_set is_empty : bool) : bool :=
  match op with
  | RemovePrefix _ _ | RemoveSuffix _ _ | ChangeCase _ _ _ => is_set
  | _ => bool_decide (is_Some (selected_word op is_set is_empty))
  end.

(** * Analysis *)

(** Source: config/expand.rs `struct ExpressionAnalysis` *)
Record ExpressionAnalysis := {
  missing_runtime : option bytes; missing_shell_condition : option bytes; missing_path : option bytes;
  needs_runtime : bool; references_dynamic : bool; has_runtime_variable : bool; has_command : bool; has_assignment : bool;
  has_regex_quoted_variable : bool; shell_condition_static : bool;
}.
Definition empty_analysis : ExpressionAnalysis := {|
  missing_runtime := None; missing_shell_condition := None; missing_path := None; needs_runtime := false;
  references_dynamic := false; has_runtime_variable := false; has_command := false; has_assignment := false;
  has_regex_quoted_variable := false; shell_condition_static := true |}.

(** Source: config/expand.rs `fn merge_first_missing` *)
Definition merge_first_missing (target nested current : option bytes) : option bytes :=
  match target with
  | Some _ => target
  | None => match nested with Some _ => nested | None => current end
  end.

Section analysis.
Context (known : KnownValues) (dynamic : gset (list Z)).

Definition is_dynamic (name : bytes) : bool := bool_decide (name ∈ dynamic).
Definition is_known (name : bytes) : bool := bool_decide (is_Some (known !! name)).
Definition is_runtime_only (name : bytes) : bool := bool_decide (variable_policy name = RuntimeOnly).
Definition when (b : bool) (name : bytes) : option bytes := if b then Some name else None.

(** The arm of a variable, with the analysis of its word. *)
Definition analyze_variable (a : ExpressionAnalysis) (name : bytes) (op : ParameterOperation) (child : option ExpressionAnalysis)
    : ExpressionAnalysis :=
  let of_child (f : ExpressionAnalysis -> bool) := match child with Some c => f c | None => false end in
  let missing_child (f : ExpressionAnalysis -> option bytes) := child ≫= f in
  let known_value := known !! name in
  let known_empty := match known_value with Some value => bool_decide (ev_text value = []) | None => false end in
  let available_at_runtime := is_known name || is_dynamic name || is_runtime_only name in
  let word_may_run :=
    match known_value with
    | Some _ => evaluates_word op true known_empty
    | None => if available_at_runtime then bool_decide (is_Some (word op)) else evaluates_word op false false
    end in
  let missing := when (negb available_at_runtime && requires_value op) name in
  let merged target f := let target := merge_first_missing target None missing in
                         if word_may_run then merge_first_missing target (missing_child f) None else target in
  {| missing_runtime := merged (missing_runtime a) missing_runtime;
     missing_shell_condition := merged (missing_shell_condition a) missing_shell_condition;
     missing_path :=
       if is_runtime_only name then missing_path a
       else merge_first_missing (missing_path a) (if word_may_run then missing_child missing_path else None)
              (when (negb (is_known name) && requires_value op) name);
     needs_runtime := needs_runtime a || (if is_runtime_only name then true else word_may_run && of_child needs_runtime);
     references_dynamic := references_dynamic a || (is_runtime_only name || is_dynamic name || word_may_run && of_child references_dynamic);
     has_runtime_variable := has_runtime_variable a || (is_runtime_only name || word_may_run && of_child has_runtime_variable);
     has_command := has_command a || word_may_run && of_child has_command;
     has_assignment := has_assignment a || (is_assignment op || word_may_run && of_child has_assignment);
     has_regex_quoted_variable := has_regex_quoted_variable a || word_may_run && of_child has_regex_quoted_variable;
     shell_condition_static := shell_condition_static a &&
       (if is_dynamic name || is_runtime_only name then false
        else if word_may_run then match child with Some c => shell_condition_static c | None => true end
        else available_at_runtime || negb (requires_value op)) |}.

Definition analyze_regex_quoted (a : ExpressionAnalysis) (name : bytes) : ExpressionAnalysis :=
  let available_at_runtime := is_known name || is_dynamic name || is_runtime_only name in
  {| missing_runtime := missing_runtime a;
     missing_shell_condition := merge_first_missing (missing_shell_condition a) (when (negb available_at_runtime) name) None;
     missing_path := missing_path a; needs_runtime := true; references_dynamic := references_dynamic a || is_dynamic name;
     has_runtime_variable := has_runtime_variable a; has_command := has_command a; has_assignment := has_assignment a;
     has_regex_quoted_variable := true;
     shell_condition_static := shell_condition_static a && (is_known name && negb (is_dynamic name) && negb (is_runtime_only name)) |}.

Definition analyze_command (a : ExpressionAnalysis) : ExpressionAnalysis :=
  {| missing_runtime := missing_runtime a; missing_shell_condition := missing_shell_condition a; missing_path := missing_path a;
     needs_runtime := true; references_dynamic := references_dynamic a; has_runtime_variable := has_runtime_variable a;
     has_command := true; has_assignment := has_assignment a; has_regex_quoted_variable := has_regex_quoted_variable a;
     shell_condition_static := false |}.

Definition merge_analysis (a child : ExpressionAnalysis) : ExpressionAnalysis :=
  {| missing_runtime := merge_first_missing (missing_runtime a) (missing_runtime child) None;
     missing_shell_condition := merge_first_missing (missing_shell_condition a) (missing_shell_condition child) None;
     missing_path := merge_first_missing (missing_path a) (missing_path child) None;
     needs_runtime := needs_runtime a || needs_runtime child; references_dynamic := references_dynamic a || references_dynamic child;
     has_runtime_variable := has_runtime_variable a || has_runtime_variable child; has_command := has_command a || has_command child;
     has_assignment := has_assignment a || has_assignment child;
     has_regex_quoted_variable := has_regex_quoted_variable a || has_regex_quoted_variable child;
     shell_condition_static := shell_condition_static a && shell_condition_static child |}.

(** Source: config/expand.rs:1808-1948 `ExpressionAnalysis::new` *)
Fixpoint analyze (e : ShellExpression) : ExpressionAnalysis :=
  match e with MkShellExpression ps =>
    (fix go (ps : list ShellPart) (a : ExpressionAnalysis) : ExpressionAnalysis :=
       match ps with [] => a | p :: ps' => go ps' (analyze_part a p) end) ps empty_analysis
  end
with analyze_part (a : ExpressionAnalysis) (p : ShellPart) : ExpressionAnalysis :=
  match p with
  | Literal _ => a
  | Variable_ name op => analyze_variable a name op (analyze_word op)
  | RegexQuotedVariable name => analyze_regex_quoted a name
  | Command _ => analyze_command a
  | PatternQuote e => merge_analysis a (analyze e)
  end
with analyze_word (op : ParameterOperation) : option ExpressionAnalysis :=
  match op with
  | Value | Length_ | ErrorIfUnsetOrEmpty _ => None
  | DefaultIfUnset w | DefaultIfUnsetOrEmpty w | AlternateIfSet w | AlternateIfSetAndNotEmpty w | AssignIfUnsetOrEmpty w => Some (analyze w)
  | RemovePrefix p _ | RemoveSuffix p _ | ChangeCase p _ _ => Some (analyze p)
  end.

(** Source: config/expand.rs `fn validate_missing` *)
Definition validate_missing (missing : option bytes) (line : nat) : result ExpansionError () :=
  match missing with Some name => Err (not_defined line name) | None => Ok () end.
Definition validate_runtime_references (a : ExpressionAnalysis) (line : nat) := validate_missing (missing_runtime a) line.
Definition validate_shell_condition_references (a : ExpressionAnalysis) (line : nat) := validate_missing (missing_shell_condition a) line.
Definition validate_path_references (a : ExpressionAnalysis) (line : nat) := validate_missing (missing_path a) line.

(** Source: config/expand.rs `fn has_runtime_part` *)
Definition has_runtime_part (a : ExpressionAnalysis) : bool :=
  has_runtime_variable a || has_command a || has_assignment a || has_regex_quoted_variable a.
End analysis.

(** Source: config/expand.rs `fn expression_has_runtime` *)
Definition expression_has_runtime (e : ShellExpression) : bool := has_runtime_part (analyze ∅ ∅ e).

(** * Binding *)

Section binding.
Context {T : Target} (line : nat) (lookup : bytes -> option bytes).

Section level.
(** Binding one level deeper. *)
Context (bind_nested : ShellExpression -> result ExpansionError ShellExpression).

(** Source: config/expand.rs `fn bind_parameter_operation` *)
Definition bind_parameter_operation (op : ParameterOperation) : result ExpansionError ParameterOperation :=
  match op with
  | Value | Length_ | ErrorIfUnsetOrEmpty _ => Ok op
  | DefaultIfUnset w => DefaultIfUnset <$> bind_nested w
  | DefaultIfUnsetOrEmpty w => DefaultIfUnsetOrEmpty <$> bind_nested w
  | AlternateIfSet w => AlternateIfSet <$> bind_nested w
  | AlternateIfSetAndNotEmpty w => AlternateIfSetAndNotEmpty <$> bind_nested w
  | AssignIfUnsetOrEmpty w => AssignIfUnsetOrEmpty <$> bind_nested w
  | RemovePrefix p longest => (fun p => RemovePrefix p longest) <$> bind_nested p
  | RemoveSuffix p longest => (fun p => RemoveSuffix p longest) <$> bind_nested p
  | ChangeCase p direction all => (fun p => ChangeCase p direction all) <$> bind_nested p
  end.

Definition push_bound (parts : list ShellPart) (part : ShellPart) : list ShellPart :=
  match part with Literal text => push_literal_part parts text | other => parts ++ [other] end.

(** One turn of the loop of [bind_static_expression]. *)
Definition bind_part (parts : list ShellPart) (part : ShellPart) : result ExpansionError (list ShellPart) :=
  match part with
  | Literal text => Ok (push_literal_part parts text)
  | Variable_ name op =>
      if is_value_transform op then
        value ← evaluate_with_linebuf (MkShellExpression [Variable_ name op]) line MAX_ASSIGNMENT_VALUE_LEN lookup;
        Ok (push_literal_part parts (ev_text value))
      else if is_runtime_only name then
        op ← bind_parameter_operation op; Ok (parts ++ [Variable_ name op])
      else
        let value := lookup name in
        let is_empty := match value with Some v => bool_decide (v = []) | None => false end in
        match selected_word op (bool_decide (is_Some value)) is_empty with
        | Some word => bound ← bind_nested word; Ok (foldl push_bound parts (Config.parts bound))
        | None =>
            if uses_value_when_word_is_not_selected op then
              match value with
              | Some value => Ok (push_literal_part parts value)
              | None => Err match op with
                            | ErrorIfUnsetOrEmpty _ => unset_or_empty line name
                            | _ => expansion_error line (B "variable " ++ name ++ B " is not set")
                            end
              end
            else Ok parts
        end
  | RegexQuotedVariable _ | Command _ => Err (expansion_error line (B "expression cannot be statically bound"))
  | PatternQuote e => bound ← bind_nested e; Ok (parts ++ [PatternQuote bound])
  end.

Fixpoint bind_parts (parts : list ShellPart) (ps : list ShellPart) : result ExpansionError (list ShellPart) :=
  match ps with [] => Ok parts | p :: ps' => parts ← bind_part parts p; bind_parts parts ps' end.
End level.

(** [levels] is the number of levels left, as in the parser.
    Source: config/expand.rs `fn bind_static_expression` *)
Fixpoint bind_static_expression (levels nesting : nat) (e : ShellExpression) : result ExpansionError ShellExpression :=
  match levels with
  | O => Err (expansion_depth_error line)
  | S levels' =>
      _ ← check_expansion_depth nesting line;
      MkShellExpression <$> bind_parts (bind_static_expression levels' (S nesting)) [] (parts e)
  end.
End binding.

(** * Destinations *)

Section destination.
Context {T : Target}.

(** Source: config/mod.rs `fn expression(&self) -> &PathExpression` *)
Definition destination_expression (d : Destination) : PathExpression :=
  match d with D_Mbox e | D_Maildir e | D_File e | D_Discard e => e end.

(** Source: config/expand.rs `fn purpose(&self)` *)
Definition destination_purpose (d : Destination) : PathPurpose :=
  match kind d with DK_Maildir => PP_Maildir | DK_Mbox => PP_Mbox | DK_File => PP_File | DK_Discard => PP_Discard end.

(** Source: config/expand.rs `fn rebuild(&self` *)
Definition rebuild (d : Destination) (e : PathExpression) (classify_file : bool) : Destination :=
  match d with
  | D_Maildir _ => D_Maildir e
  | D_Mbox _ => D_Mbox e
  | D_File _ => if classify_file then if bytes_eqb (pe_source e) (B "/dev/null") then D_Discard e else D_Mbox e else D_File e
  | D_Discard _ => D_Discard e
  end.

(** Source: config/expand.rs `fn resolved_expression` *)
Definition resolved_expression (d : Destination) (source : bytes) : PathExpression :=
  let e := destination_expression d in
  {| pe_source := source; pe_base := None; pe_location := pe_location e; pe_runtime_dependent := false; pe_runtime_base := false;
     pe_typed_destination := pe_typed_destination e; pe_expansion := None |}.

(** Source: config/expand.rs `fn adopt_static_discard_classification` *)
Definition adopt_static_discard_classification (d resolved : Destination) : Destination :=
  match kind d, kind resolved with DK_File, DK_Discard => D_Discard (destination_expression d) | _, _ => d end.

(** Source: config/expand.rs `fn resolver<'a>` *)
Definition resolver (d : Destination) (base : option bytes) : PathResolver :=
  let e := destination_expression d in
  destination_resolver (destination_purpose d) (loc_line (pe_location e)) base (pe_typed_destination e).

(** Source: config/expand.rs `pub(crate) fn command_expression` *)
Definition command_expression (d : Destination) : option ShellExpression :=
  match pe_expansion (destination_expression d) with
  | Some e => if requires_ordered_evaluation e then Some e else None
  | None => None
  end.

Definition destination_line (d : Destination) : nat := loc_line (pe_location (destination_expression d)).

(** Source: config/expand.rs `pub(crate) fn resolve_ordered_output` *)
Definition resolve_ordered_output (d : Destination) (source : bytes) (runtime_maildir : option bytes) : result ExpansionError Destination :=
  let e := destination_expression d in
  match command_expression d with
  | None => Err (expansion_error (destination_line d) (B "destination has no ordered expression"))
  | Some _ =>
      let base := if pe_runtime_base e then runtime_maildir else pe_base e in
      path ← resolve_path (resolver d base) source;
      Ok (rebuild d (resolved_expression d path) true)
  end.

(** Source: config/expand.rs `pub fn bind_with` *)
Definition bind_with (d : Destination) (lookup : bytes -> option bytes) : result ExpansionError Destination :=
  let e := destination_expression d in
  match command_expression d with
  | Some _ => Err (expansion_error (destination_line d) (B "destination ordered expression has not executed"))
  | None =>
      compiled ← compiled_or_parsed parse_expression (pe_expansion e) (pe_source e) (destination_line d);
      expansion ← bind_static_expression (destination_line d) lookup (S MAX_EXPANSION_DEPTH) 0 compiled;
      Ok (rebuild d {| pe_source := pe_source e; pe_base := pe_base e; pe_location := pe_location e;
                       pe_runtime_dependent := expression_has_runtime expansion; pe_runtime_base := pe_runtime_base e;
                       pe_typed_destination := pe_typed_destination e; pe_expansion := Some expansion |} false)
  end.

(** Source: config/expand.rs `pub fn resolve_with` *)
Definition resolve_destination (d : Destination) (lookup : bytes -> option bytes) : result ExpansionError Destination :=
  let e := destination_expression d in
  if match pe_expansion e with Some x => has_commands x | None => false end then
    Err (expansion_error (destination_line d) (B "destination command substitution has not executed"))
  else
    compiled ← compiled_or_parsed parse_expression (pe_expansion e) (pe_source e) (destination_line d);
    path ← evaluate_path (resolver d (path_base e lookup)) compiled lookup;
    Ok (rebuild d (resolved_expression d path) true).

(** Source: config/expand.rs `pub fn path(&self)` *)
Definition destination_path (d : Destination) : bytes := pe_source (destination_expression d).
(** Source: config/expand.rs `pub fn needs_runtime_variables` *)
Definition needs_runtime_variables (d : Destination) : bool :=
  let e := destination_expression d in pe_runtime_dependent e || pe_runtime_base e.
End destination.

(** * Binding keeps the value *)

Section binding_facts.
Context {T : Target}.

(** The variables of an expression once it is bound: what only a run provides
    is looked up later, everything else was looked up when it was bound. *)
Definition late_lookup (early late : bytes -> option bytes) (name : bytes) : option bytes :=
  if is_runtime_only name then late name else early name.

(** No name of the expression is left for later. *)
Fixpoint early_names (e : ShellExpression) {struct e} : bool :=
  match e with MkShellExpression ps => forallb early_part ps end
with early_part (p : ShellPart) {struct p} : bool :=
  match p with
  | Variable_ name op => negb (is_runtime_only name) && early_word op
  | PatternQuote e => early_names e
  | _ => true
  end
with early_word (op : ParameterOperation) {struct op} : bool :=
  match op with
  | Value | Length_ | ErrorIfUnsetOrEmpty _ => true
  | DefaultIfUnset w | DefaultIfUnsetOrEmpty w | AlternateIfSet w | AlternateIfSetAndNotEmpty w | AssignIfUnsetOrEmpty w => early_names w
  | RemovePrefix p _ | RemoveSuffix p _ | ChangeCase p _ _ => early_names p
  end.

(** What binding treats as evaluation does: no transformation of a value that
    comes later, and no [:?] of a variable that is set and empty. *)
Fixpoint bindable (early : bytes -> option bytes) (e : ShellExpression) {struct e} : bool :=
  match e with MkShellExpression ps => forallb (bindable_part early) ps end
with bindable_part (early : bytes -> option bytes) (p : ShellPart) {struct p} : bool :=
  match p with
  | Variable_ name op =>
      (negb (is_value_transform op) || negb (is_runtime_only name) && early_word op) &&
      negb (is_assignment op) && (is_runtime_only name || negb (is_required op && bool_decide (early name = Some []))) &&
      bindable_word early op
  | PatternQuote e => bindable early e
  | _ => true
  end
with bindable_word (early : bytes -> option bytes) (op : ParameterOperation) {struct op} : bool :=
  match op with
  | Value | Length_ | ErrorIfUnsetOrEmpty _ => true
  | DefaultIfUnset w | DefaultIfUnsetOrEmpty w | AlternateIfSet w | AlternateIfSetAndNotEmpty w | AssignIfUnsetOrEmpty w => bindable early w
  | RemovePrefix p _ | RemoveSuffix p _ | ChangeCase p _ _ => bindable early p
  end.

(** The value of an expression that assigns nothing. *)
Definition value_of (lookup : bytes -> option bytes) (e : ShellExpression) : option (bytes * gmap (list Z) (list Z)) :=
  ref_expression code_keeps lookup (fun _ => None) e ∅.
Definition values_of (lookup : bytes -> option bytes) (ps : list ShellPart) : option (bytes * gmap (list Z) (list Z)) :=
  ref_parts code_keeps lookup (fun _ => None) ps ∅.

(** A sequence of parts read one after the other, when nothing is assigned. *)
Definition appended (a b : option (bytes * gmap (list Z) (list Z))) : option (bytes * gmap (list Z) (list Z)) :=
  '(v, _) ← a; '(rest, env) ← b; Some (v ++ rest, env).
Definition unassigned (a : option (bytes * gmap (list Z) (list Z))) : Prop := forall v env, a = Some (v, env) -> env = ∅.

Lemma ref_parts_app lookup q ps ps' env :
  ref_parts code_keeps lookup q (ps ++ ps') env =
  ('(v, env) ← ref_parts code_keeps lookup q ps env; '(rest, env) ← ref_parts code_keeps lookup q ps' env; Some (v ++ rest, env)).
Proof.
  revert env. induction ps as [|p ps IH]; intros env; cbn [ref_parts app].
  - cbn [mbind option_bind]. by destruct (ref_parts code_keeps lookup q ps' env) as [[v e]|].
  - destruct (ref_part code_keeps lookup q p env) as [[v e]|]; [|done]. cbn [mbind option_bind]. rewrite IH.
    destruct (ref_parts code_keeps lookup q ps e) as [[v1 e1]|]; [|done]. cbn [mbind option_bind].
    destruct (ref_parts code_keeps lookup q ps' e1) as [[v2 e2]|]; [|done]. cbn [mbind option_bind]. by rewrite app_assoc.
Qed.

Lemma values_of_app lookup ps ps' :
  unassigned (values_of lookup ps) -> values_of lookup (ps ++ ps') = appended (values_of lookup ps) (values_of lookup ps').
Proof.
  intros Hu. unfold values_of, appended. rewrite ref_parts_app. destruct (ref_parts code_keeps lookup _ ps ∅) as [[v env]|] eqn:E; [|done].
  cbn [mbind option_bind]. by rewrite (Hu v env) by done.
Qed.

Lemma values_of_push lookup ps text :
  values_of lookup (push_literal_part ps text) = values_of lookup (ps ++ [Literal text]).
Proof.
  unfold push_literal_part, values_of. case_bool_decide as Ht.
  - subst text. rewrite ref_parts_app. destruct (ref_parts code_keeps lookup _ ps ∅) as [[v e]|]; [|done]. cbn. by rewrite !app_nil_r.
  - destruct (last ps) as [[previous| | | |]|] eqn:Hl; try done. apply last_Some in Hl as [ps' ->]. rewrite removelast_last.
    rewrite !ref_parts_app. destruct (ref_parts code_keeps lookup _ ps' ∅) as [[v e]|]; [|done]. cbn. by rewrite !app_nil_r, app_assoc.
Qed.

Lemma forallb_elem {A} (f : A -> bool) l x : forallb f l = true -> x ∈ l -> f x = true.
Proof. intros H Hx. rewrite List.forallb_forall in H. apply H. by apply list_elem_of_In. Qed.

Lemma ref_parts_agree l1 l2 q ps :
  (forall p env, p ∈ ps -> ref_part code_keeps l1 q p env = ref_part code_keeps l2 q p env) ->
  forall env, ref_parts code_keeps l1 q ps env = ref_parts code_keeps l2 q ps env.
Proof.
  induction ps as [|p ps IH]; intros Hp env; [done|]. cbn [ref_parts]. rewrite Hp by apply list_elem_of_here.
  destruct (ref_part code_keeps l2 q p env) as [[v e]|]; [|done]. cbn [mbind option_bind].
  rewrite IH; [done|]. intros p' env' Hin. apply Hp. by apply list_elem_of_further.
Qed.

(** An expression is worth the same under lookups that agree on its names. *)
Lemma ref_early l1 l2 q : (forall name, is_runtime_only name = false -> l1 name = l2 name) ->
  forall e env, early_names e = true -> ref_expression code_keeps l1 q e env = ref_expression code_keeps l2 q e env.
Proof.
  intros Hl. induction e as [e IH] using expression_induction. intros env He. rewrite !ref_expression_parts. apply ref_parts_agree.
  intros p env' Hp. destruct e as [ps]. cbn [early_names parts] in *. pose proof (forallb_elem _ _ _ He Hp) as Hep.
  rewrite !ref_part_eq. destruct p as [t|name op|n|c|e]; try done.
  - cbn [early_part] in Hep. apply andb_true_iff in Hep as [Hn Hw]. apply negb_true_iff in Hn.
    assert (env_lookup l1 env' name = env_lookup l2 env' name) as Hlk by (unfold env_lookup; by rewrite Hl).
    assert (forall w, part_word (Variable_ name op) = Some w -> early_word op = early_names w \/ is_required op = true) as Hwe.
    { intros w. destruct op; cbn [part_word Config.word]; intros [= ->] || done; auto. }
    rewrite !ref_operation_eq, Hlk.
    destruct op as [|w|w|w|w|w|w| |w longest|w longest|w d all]; try done;
      assert (forall env2, ref_expression code_keeps l1 q w env2 = ref_expression code_keeps l2 q w env2) as Hw' by
        (intros env2; apply (IH _ w Hp); done || exact Hw);
      destruct (env_lookup l2 env' name) as [[|b v]|]; cbn [mbind option_bind]; by rewrite ?Hw'.
  - rewrite (IH (PatternQuote e) e); done.
Qed.

(** An expression without assignments leaves the environment as it is. *)
Lemma ref_unassigned early l q : forall e env v env', bindable early e = true -> ref_expression code_keeps l q e env = Some (v, env') -> env' = env.
Proof.
  induction e as [e IH] using expression_induction. intros env v env' He. rewrite ref_expression_parts.
  destruct e as [ps]. cbn [bindable parts] in *. clear -IH He. revert env v env'.
  assert (forall p env v env', p ∈ ps -> ref_part code_keeps l q p env = Some (v, env') -> env' = env) as Hpart.
  { intros p env v env' Hp. pose proof (forallb_elem _ _ _ He Hp) as Hb. rewrite ref_part_eq.
    destruct p as [t|name op|n|c|e].
    - by intros [= _ ->].
    - cbn [bindable_part] in Hb. rewrite !andb_true_iff in Hb. destruct Hb as [[[_ Ha] _] Hw]. rewrite ref_operation_eq.
      assert (forall w v env', part_word (Variable_ name op) = Some w -> bindable early w = true ->
        ref_expression code_keeps l q w env = Some (v, env') -> env' = env) as Hword by (intros w v' env2 Hpw; by apply (IH _ _ Hp Hpw)).
      destruct op as [|w|w|w|w|w|w| |w longest|w longest|w d all]; try done; cbn [part_word Config.word bindable_word] in *;
        repeat case_match; try (by intros [= _ ->]); try (by apply (Hword w)).
      all: try (intros (x & _ & [= _ ->])%bind_Some; done).
      all: intros (x & _ & ([pat env1] & H1 & (out & _ & [= _ ->])%bind_Some)%bind_Some)%bind_Some; by apply (Hword w) in H1.
    - by intros (x & _ & [= _ ->])%bind_Some.
    - done.
    - cbn [bindable_part] in Hb. intros ([x env1] & H1 & [= _ ->])%bind_Some. by apply (IH _ e Hp) in H1. }
  clear IH He. induction ps as [|p ps IHps]; intros env v env'; cbn [ref_parts]; [by intros [= _ ->]|].
  intros ([v1 env1] & H1%Hpart & ([v2 env2] & H2 & [= _ ->])%bind_Some)%bind_Some; [|apply list_elem_of_here]. subst env1.
  apply IHps in H2; [done|]. intros p' env0 v0 env0' Hin. apply Hpart. by apply list_elem_of_further.
Qed.

Section late.
Context (line : nat) (early late : bytes -> option bytes).
#[local] Abbreviation both := (late_lookup early late).

Lemma unassigned_value e lookup : bindable early e = true -> unassigned (value_of lookup e).
Proof. intros He v env. by apply (ref_unassigned early). Qed.

Lemma unassigned_appended a b : unassigned b -> unassigned (appended a b).
Proof.
  intros Hb v env. unfold appended. destruct a as [[va ea]|]; [|done]. destruct b as [[vb eb]|]; [|done]. cbn. intros [= _ <-]. by eapply Hb.
Qed.

Lemma appended_assoc a b c : appended (appended a b) c = appended a (appended b c).
Proof.
  unfold appended. destruct a as [[va ea]|]; [|done]. destruct b as [[vb eb]|]; [|done]. destruct c as [[vc ec]|]; [|done]. cbn. by rewrite app_assoc.
Qed.

Lemma values_of_fold lookup bound parts : values_of lookup (foldl push_bound parts bound) = values_of lookup (parts ++ bound).
Proof.
  revert parts. induction bound as [|p bound IH]; intros parts; cbn [foldl]; [by rewrite app_nil_r|].
  rewrite IH, (snoc_app parts p). unfold values_of. rewrite (ref_parts_app _ _ (push_bound parts p)), (ref_parts_app _ _ (parts ++ [p])).
  assert (ref_parts code_keeps lookup (fun _ => None) (push_bound parts p) ∅ = ref_parts code_keeps lookup (fun _ => None) (parts ++ [p]) ∅) as ->; [|done].
  destruct p; cbn [push_bound]; try done. apply values_of_push.
Qed.

Lemma values_of_one lookup p : values_of lookup [p] = ('(v, env) ← ref_part code_keeps lookup (fun _ => None) p ∅; Some (v, env)).
Proof. unfold values_of. cbn [ref_parts]. destruct (ref_part code_keeps _ _ p ∅) as [[v env]|]; [|done]. cbn. by rewrite app_nil_r. Qed.

(** What one level of binding does, the level below being right. *)
Definition keeps (bind : ShellExpression -> result ExpansionError ShellExpression) : Prop :=
  forall e e', bind e = Ok e' -> bindable early e = true -> value_of late e' = value_of both e.

Lemma bind_operation_keeps bind name op op' :
  keeps bind -> is_runtime_only name = true -> is_value_transform op = false -> is_assignment op = false ->
  bindable_word early op = true -> bind_parameter_operation bind op = Ok op' ->
  ref_operation code_keeps late (fun _ => None) name op' ∅ = ref_operation code_keeps both (fun _ => None) name op ∅.
Proof.
  intros Hk Hr Ht Ha Hb Hbind. assert (env_lookup late ∅ name = env_lookup both ∅ name) as Hl.
  { unfold env_lookup, late_lookup. by rewrite !lookup_empty, Hr. }
  assert (forall w w', bind w = Ok w' -> bindable early w = true -> ref_expression code_keeps late (fun _ => None) w' ∅ = ref_expression code_keeps both (fun _ => None) w ∅) as Hw by apply Hk.
  destruct op as [|w|w|w|w|w|w| |w longest|w longest|w d all]; try done; cbn [bind_parameter_operation bindable_word] in *;
    try (destruct (bind w) as [w'|] eqn:Hbw; [|discriminate Hbind]); injection Hbind as <-; rewrite !ref_operation_eq, Hl; try done;
    by rewrite (Hw w w').
Qed.

(** A text that was evaluated is the value of its expression. *)
Lemma evaluated_value e at_line_ hard lookup v :
  0 <= hard -> evaluate_with_linebuf e at_line_ hard lookup = Ok v -> value_of lookup e = Some (ev_text v, ∅).
Proof.
  intros Hh Hv. apply evaluate_with_linebuf_Ok in Hv as (Hv & _); [|done].
  apply evaluate_expression_Ok in Hv as (r & He & Hass & <- & _).
  assert (reads_only (E := ExpansionError) lookup (fun _ => None) {| rs_at := at_line_; rs_lookup := lookup |}) as Hro.
  { split_and!; [|done|done]. intros n found c1 [= <- <-]. split; [done|]. unfold read_only_value. cbn. by destruct (lookup n). }
  destruct (evaluate_agrees _ _ _ _ _ _ _ Hro He) as (_ & Href & _). by rewrite Hass in Href.
Qed.

Lemma transform_value name op v :
  bindable_part early (Variable_ name op) = true -> is_value_transform op = true ->
  evaluate_with_linebuf (MkShellExpression [Variable_ name op]) line MAX_ASSIGNMENT_VALUE_LEN early = Ok v ->
  values_of both [Variable_ name op] = Some (ev_text v, ∅).
Proof.
  intros Hb Ht Href%evaluated_value; [|done]. unfold value_of in Href.
  unfold values_of. change [Variable_ name op] with (parts (MkShellExpression [Variable_ name op])).
  rewrite <-ref_expression_parts, (ref_early both early); [exact Href| |].
  - intros n Hn. unfold late_lookup. by rewrite Hn.
  - cbn [bindable_part] in Hb. rewrite Ht in Hb. cbn [negb orb] in Hb. rewrite !andb_true_iff in Hb. destruct Hb as [[[[Hn He'] _] _] _].
    change (negb (is_runtime_only name) && early_word op && true = true). by rewrite Hn, He'.
Qed.

#[local] Arguments push_literal_part : simpl never.
Lemma bind_part_keeps bind parts p parts' :
  keeps bind -> unassigned (values_of late parts) -> bindable_part early p = true ->
  bind_part line early bind parts p = Ok parts' ->
  values_of late parts' = appended (values_of late parts) (values_of both [p]).
Proof.
  intros Hk Hu Hb. destruct p as [t|name op|n|c|e]; cbn [bind_part]; try done.
  - intros [= <-]. by rewrite values_of_push, values_of_app.
  - destruct (is_value_transform op) eqn:Ht.
    { intros (v & Hv & [= <-])%result_bind_Ok. rewrite values_of_push, values_of_app by done. f_equal.
      rewrite (transform_value name op v) by done. unfold values_of. cbn. by rewrite app_nil_r. }
    cbn [bindable_part] in Hb. rewrite !andb_true_iff in Hb. destruct Hb as [[[_ Ha%negb_true_iff] Hreq] Hw].
    destruct (is_runtime_only name) eqn:Hro.
    { intros (op' & Hop & [= <-])%result_bind_Ok. rewrite values_of_app by done. f_equal. rewrite !values_of_one, !ref_part_eq.
      by rewrite (bind_operation_keeps bind name op op'). }
    assert (env_lookup both ∅ name = early name) as Hl by (unfold env_lookup, late_lookup; by rewrite lookup_empty, Hro).
    assert (forall w e', bindable early w = true -> bind w = Ok e' ->
      values_of late (foldl push_bound parts (Config.parts e')) = appended (values_of late parts) (value_of both w)) as Hword.
    { intros w e' Hbw He'. rewrite values_of_fold, values_of_app by done. f_equal. rewrite <-(Hk w e') by done.
      unfold value_of, values_of. by rewrite ref_expression_parts. }
    assert (forall v, values_of late (push_literal_part parts v) = appended (values_of late parts) (Some (v, ∅))) as Hvalue.
    { intros v. rewrite values_of_push, values_of_app by done. f_equal. unfold values_of. cbn. by rewrite app_nil_r. }
    assert (values_of late parts = appended (values_of late parts) (Some ([], ∅))) as Hnone.
    { unfold appended. destruct (values_of late parts) as [[v env]|] eqn:E; [|done]. cbn. rewrite app_nil_r. by rewrite (Hu v env). }
    assert (values_of both [Variable_ name op] = ref_operation code_keeps both (fun _ => None) name op ∅) as ->.
    { rewrite values_of_one, ref_part_eq. by destruct (ref_operation code_keeps _ _ name op ∅) as [[v env]|]. }
    rewrite ref_operation_eq, Hl. unfold value_of in Hword.
    destruct op as [|w|w|w|w|w|w| |w longest|w longest|w d all]; try done;
      destruct (early name) as [[|b v]|]; cbn in Hreq, Hw |- *; try done;
      try (intros (e' & He' & [= <-])%result_bind_Ok; by apply Hword); intros [= <-]; try apply Hvalue; apply Hnone.
  - intros (e' & He' & [= <-])%result_bind_Ok. rewrite values_of_app by done. f_equal. rewrite !values_of_one, !ref_part_eq.
    cbn [bindable_part] in Hb. specialize (Hk e e' He' Hb). unfold value_of in Hk. by rewrite Hk.
Qed.

Lemma bind_parts_keeps bind ps parts parts' :
  keeps bind -> unassigned (values_of late parts) -> forallb (bindable_part early) ps = true ->
  bind_parts line early bind parts ps = Ok parts' ->
  values_of late parts' = appended (values_of late parts) (values_of both ps).
Proof.
  intros Hk. revert parts. induction ps as [|p ps IH]; intros parts Hu Hb; cbn [bind_parts].
  - intros [= <-]. unfold appended. destruct (values_of late parts) as [[v env]|] eqn:E; [|done]. cbn. rewrite app_nil_r. by rewrite (Hu v env).
  - cbn [forallb] in Hb. apply andb_true_iff in Hb as [Hp Hps].
    intros (parts1 & H1 & H2)%result_bind_Ok. apply bind_part_keeps in H1; [|done|done|done].
    assert (unassigned (values_of both [p])) as Hup.
    { unfold values_of. change [p] with (Config.parts (MkShellExpression [p])). rewrite <-ref_expression_parts. apply (unassigned_value (MkShellExpression [p]) both). cbn [bindable forallb].
      change (bindable_part early p && true = true). by rewrite Hp. }
    apply IH in H2; [|rewrite H1; by apply unassigned_appended|done].
    rewrite H2, H1, appended_assoc. f_equal. change (p :: ps) with ([p] ++ ps). by rewrite values_of_app.
Qed.

Lemma bind_static_keeps levels nesting : keeps (bind_static_expression line early levels nesting).
Proof.
  revert nesting. induction levels as [|levels IH]; intros nesting e e'; cbn [bind_static_expression]; [done|].
  intros (u & _ & H)%result_bind_Ok Hb. destruct (bind_parts _ _ _ [] (parts e)) as [ps|] eqn:Hps; [|discriminate H]. injection H as <-.
  apply bind_parts_keeps in Hps; [|apply IH|by intros v env [= _ <-]|by destruct e].
  unfold value_of. rewrite !ref_expression_parts. cbn [Config.parts]. unfold values_of in Hps. rewrite Hps. unfold appended. cbn [ref_parts mbind option_bind].
  by destruct (ref_parts code_keeps both _ (parts e) ∅) as [[v env]|].
Qed.
End late.
End binding_facts.


(** The path of a bound destination.  When a destination is bound and the
    bound one is resolved later, it is the destination that resolving the
    original under both sets of variables gives, as far as both are within the
    limits of a line. *)
Theorem bound_destination_resolves {T : Target} (d d' d1 d2 : Destination) (early late : bytes -> option bytes)
    (compiled : ShellExpression)
    (Hcompiled : compiled_or_parsed parse_expression (pe_expansion (destination_expression d)) (pe_source (destination_expression d)) (destination_line d) = Ok compiled)
    (Hbindable : bindable early compiled = true)
    (Hbase : pe_runtime_base (destination_expression d) = true -> late (B "MAILDIR") = early (B "MAILDIR"))
    (Hbound : bind_with d early = Ok d')
    (Hlate : resolve_destination d' late = Ok d1)
    (Hboth : resolve_destination d (late_lookup early late) = Ok d2) :
  d1 = d2.
Proof.
  unfold bind_with in Hbound. destruct (command_expression d) as [x|]; [done|]. rewrite Hcompiled in Hbound.
  cbn [mbind result_bind] in Hbound. apply result_bind_Ok in Hbound as (e' & He' & Hd'). injection Hd' as Hd'.
  set (pe' := Build_PathExpression _ _ _ _ _ _ _) in Hd'.
  assert (destination_expression d' = pe' /\ kind d' = kind d) as [He Hkind] by (rewrite <-Hd'; by destruct d).
  unfold resolve_destination in Hlate, Hboth. rewrite He in Hlate. rewrite Hcompiled in Hboth.
  destruct (match pe_expansion pe' with Some x => _ | None => _ end); [done|].
  destruct (match pe_expansion (destination_expression d) with Some x => _ | None => _ end); [done|].
  assert (resolver d' (path_base pe' late) = resolver d (path_base (destination_expression d) (late_lookup early late))) as Hres.
  { unfold resolver, destination_purpose. rewrite He, Hkind. unfold pe'. cbn [pe_location pe_typed_destination]. f_equal.
    unfold path_base. cbn [pe_runtime_base pe_base]. destruct (pe_runtime_base _); [|done].
    assert (late_lookup early late (B "MAILDIR") = early (B "MAILDIR")) as -> by done. by rewrite Hbase. }
  rewrite Hres in Hlate. change (pe_expansion pe') with (Some e') in Hlate. cbn [compiled_or_parsed mbind result_bind] in Hlate, Hboth.
  apply result_bind_Ok in Hlate as (p1 & Hp1 & [= <-]). apply result_bind_Ok in Hboth as (p2 & Hp2 & [= <-]).
  assert (p1 = p2) as <-.
  { unfold evaluate_path in Hp1, Hp2. apply result_bind_Ok in Hp1 as (v1 & Hv1 & Hp1). apply result_bind_Ok in Hp2 as (v2 & Hv2 & Hp2).
    apply evaluated_value in Hv1, Hv2; [|done|done].
    pose proof (bind_static_keeps (destination_line d) early late _ _ compiled e' He' Hbindable) as Hval.
    rewrite Hval, Hv2 in Hv1. injection Hv1 as Hv1. rewrite Hv1 in Hp2. rewrite Hp1 in Hp2. by injection Hp2. }
  assert (resolved_expression d' p1 = resolved_expression d p1) as -> by (unfold resolved_expression; by rewrite He).
  by rewrite <-Hd'; destruct d.
Qed.

(** * Witnesses and an instance of a difference *)

Definition no_location : SourceLocation := {| loc_line := 7; loc_file := None; loc_truncated := false |}.
Definition list_destination : Destination := D_Maildir {| pe_source := B "$X/$MATCH/"; pe_base := Some (B "/home/me/Mail");
  pe_location := no_location; pe_runtime_dependent := true; pe_runtime_base := false; pe_typed_destination := true; pe_expansion := None |}.
Definition one_variable (name value asked : bytes) : option bytes := if bytes_eqb asked name then Some value else None.


Lemma bound_destination_resolves_witness :
  exists d' d1, bind_with list_destination (one_variable (B "X") (B "lists")) = Ok d' /\
    resolve_destination d' (one_variable (B "MATCH") (B "rocq")) = Ok d1 /\
    destination_path d1 = B "/home/me/Mail/lists/rocq/" /\
    forall d2, resolve_destination list_destination
      (late_lookup (one_variable (B "X") (B "lists")) (one_variable (B "MATCH") (B "rocq"))) = Ok d2 -> d1 = d2.
Proof.
  eexists. eexists. split; [vm_compute; reflexivity|]. split; [vm_compute; reflexivity|]. split; [vm_compute; reflexivity|].
  intros d2 H2.
  eapply (bound_destination_resolves list_destination _ _ d2 (one_variable (B "X") (B "lists")) (one_variable (B "MATCH") (B "rocq")));
    [vm_compute; reflexivity|vm_compute; reflexivity|discriminate|vm_compute; reflexivity|vm_compute; reflexivity|exact H2].
Defined.

(** What [bindable] leaves out: with [X] set and empty, binding [${X:?unset}]
    drops the word that an evaluation of the same expression stops at. *)
Example binding_an_empty_required_value :
  let e := MkShellExpression [Variable_ (B "X") (ErrorIfUnsetOrEmpty (MkShellExpression [Literal (B "unset")]))] in
  bind_static_expression 7 (one_variable (B "X") []) (S MAX_EXPANSION_DEPTH) 0 e = Ok (MkShellExpression []) /\
  value_of (one_variable (B "X") []) e = None.
Proof. split; vm_compute; reflexivity. Qed.
