(* ===== verification/Syntax.v ===== *)
(** The small pieces of the rc parser: [src/src/config/syntax_cursor.rs], the
    errors of [src/src/config/mod.rs] and the functions of [str] the parser uses.
    The cursor keeps the text and an offset; here it is the text that is left. *)
From stdpp Require Import pretty.
From S2P Require Import Prelude Numbers Config Utf8 Variables.
#[local] Open Scope Z_scope.

(** Source: config/mod.rs `pub struct ParseError` *)
Record ParseError := { perr_line : nat; perr_message : bytes; perr_resource_limit : bool }.
(** Source: config/mod.rs `fn new(line: usize, message: impl Into<String>)` *)
Definition parse_error (line : nat) (message : bytes) : ParseError :=
  {| perr_line := line; perr_message := message; perr_resource_limit := false |}.
(** Source: config/mod.rs `fn limit(line: usize, message: impl Into<String>)` *)
Definition parse_limit (line : nat) (message : bytes) : ParseError :=
  {| perr_line := line; perr_message := message; perr_resource_limit := true |}.
Definition refuse {A} (line : nat) (message : bytes) : result ParseError A := Err (parse_error line message).

(** The budget a parse starts with. *)
Definition empty_counts : RcParseCounts := {| pc_assignments := 0; pc_statements := 0; pc_recipes := 0; pc_conditions := 0; pc_regexes := 0 |}.
Definition empty_budget : ParseBudget := {| pb_counts := empty_counts; pb_limits := default_rc_limits |}.

(** * Text *)

(** [s.split_once(pat)] for a [pat] that is not empty. *)
Definition split_once_at (pat l : bytes) : option (bytes * bytes) :=
  i ← find_window pat l; Some (take i l, drop (i + length pat) l).

Definition strip_cr (l : bytes) : bytes := default l (strip_suffix l [c_CR]).
(** [s.lines()]: an end of line after the last line starts no other. *)
Definition str_lines (l : bytes) : list bytes :=
  let lines := split_on (Z.eqb c_LF) l in
  strip_cr <$> (if bool_decide (last lines = Some []) then removelast lines else lines).

Fixpoint find_space_fuel (fuel : nat) (l : bytes) : option nat :=
  match fuel with
  | O => None
  | S fuel' =>
      match next_char l with
      | Some (c, l') => if is_whitespace c then Some 0%nat else Nat.add (length l - length l') <$> find_space_fuel fuel' l'
      | None => None
      end
  end.
(** [s.find(char::is_whitespace)] *)
Definition find_space (l : bytes) : option nat := find_space_fuel (length l) l.
(** [s.starts_with(char::is_whitespace)] *)
Definition starts_with_space (l : bytes) : bool := match next_char l with Some (c, _) => is_whitespace c | None => false end.

Definition ends_with_backslash (l : bytes) : bool := ends_with l [c_BSLASH].

(** * The cursor *)

Fixpoint skip_whitespace (l : bytes) : bytes :=
  match l with b :: l' => if is_ascii_whitespace b then skip_whitespace l' else l | [] => [] end.
Fixpoint span_word (l : bytes) : bytes * bytes :=
  match l with
  | b :: l' => if is_ascii_whitespace b then ([], l) else let '(w, rest) := span_word l' in (b :: w, rest)
  | [] => ([], [])
  end.
(** Source: config/syntax_cursor.rs `pub(super) fn word` *)
Definition cursor_word (l : bytes) : option bytes * bytes :=
  let '(w, rest) := span_word (skip_whitespace l) in ((if bool_decide (w = []) then None else Some w), rest).
(** Source: config/syntax_cursor.rs `pub(super) fn keyword` *)
Definition cursor_keyword (expected l : bytes) : bool * bytes :=
  let '(w, rest) := cursor_word l in if bool_decide (w = Some expected) then (true, rest) else (false, l).
(** Source: config/syntax_cursor.rs `pub(super) fn remainder` *)
Definition cursor_remainder (l : bytes) : bytes := skip_whitespace l.
(** Source: config/syntax_cursor.rs `pub(super) fn is_end` *)
Definition cursor_is_end (l : bytes) : bool := bool_decide (skip_whitespace l = []).

(** * Facts *)

Definition no_space (w : bytes) : Prop := Forall (fun b => is_ascii_whitespace b = false) w.
Definition starts_solid (l : bytes) : Prop := match l with b :: _ => is_ascii_whitespace b = false | [] => True end.

Lemma skip_solid l : starts_solid l -> skip_whitespace l = l.
Proof. destruct l as [|b l]; [done|]. cbn. by intros ->. Qed.
Lemma skip_whitespace_solid l : starts_solid (skip_whitespace l).
Proof. induction l as [|b l IH]; [done|]. cbn. destruct (is_ascii_whitespace b) eqn:Hb; [done|by cbn]. Qed.
Lemma span_word_split w rest : no_space w -> match rest with b :: _ => is_ascii_whitespace b = true | [] => True end -> span_word (w ++ rest) = (w, rest).
Proof.
  induction w as [|b w IH]; intros Hw Hr; cbn.
  - destruct rest as [|b rest]; [done|]. cbn. by rewrite Hr.
  - apply Forall_cons in Hw as [Hb Hw]. by rewrite Hb, IH.
Qed.
Lemma no_space_solid w rest : no_space w -> w <> [] -> starts_solid (w ++ rest).
Proof. destruct w as [|b w]; [done|]. by intros [Hb _]%Forall_cons _. Qed.

(** A word and what separates it from the rest. *)
Lemma cursor_word_space w rest : no_space w -> w <> [] -> cursor_word (w ++ c_SP :: rest) = (Some w, c_SP :: rest).
Proof.
  intros Hw Hn. unfold cursor_word. rewrite skip_solid by (by apply no_space_solid). rewrite span_word_split by done.
  by rewrite bool_decide_eq_false_2.
Qed.
Lemma cursor_word_end w : no_space w -> w <> [] -> cursor_word w = (Some w, []).
Proof.
  intros Hw Hn. rewrite <-(app_nil_r w) at 1. unfold cursor_word. rewrite skip_solid by (by apply no_space_solid).
  rewrite span_word_split by done. by rewrite bool_decide_eq_false_2.
Qed.
Lemma cursor_word_skip l : cursor_word (c_SP :: l) = cursor_word l.
Proof. done. Qed.
Lemma cursor_remainder_space l : starts_solid l -> cursor_remainder (c_SP :: l) = l.
Proof. intros Hl. unfold cursor_remainder. cbn. by apply skip_solid. Qed.
Lemma cursor_is_end_solid b l : is_ascii_whitespace b = false -> cursor_is_end (c_SP :: b :: l) = false.
Proof. intros Hb. unfold cursor_is_end. cbn. by rewrite Hb. Qed.
