(* ===== verification/HeaderSyntax.v ===== *)
(** The syntax of header actions: the [headers] block of
    [src/src/config/parser.rs].  Each line is one operation; a value is kept as
    text and expanded when the recipe runs. *)
From stdpp Require Import pretty.
From S2P Require Import Prelude Numbers Config Utf8 Variables Syntax.
#[local] Open Scope Z_scope.

(** Source: config/mod.rs `pub const MAX_HEADER_OPERATIONS_PER_ACTION` *)
Definition MAX_HEADER_OPERATIONS_PER_ACTION : nat := 256.
(** Source: config/mod.rs `pub(crate) fn name(self)@1` *)
Definition priority_name (m : HeaderPriorityMode) : bytes :=
  match m with PM_High => B "high" | PM_Normal => B "normal" | PM_Low => B "low" | PM_Clear => B "clear" end.

(** Source: config/parser.rs `fn check_linebuf` *)
Definition check_linebuf (line : bytes) (line_number : nat) (limit : Z) : result ParseError () :=
  if limit <? len line then Err (parse_limit line_number (B "rc line exceeds the active LINEBUF limit of " ++ z_decimal limit ++ B " bytes"))
  else Ok tt.

Definition header_name_byte (b : byte) : bool := between 33 57 b || between 59 126 b.
(** Source: config/parser.rs `fn validate_header_name` *)
Definition validate_header_name (name : bytes) (line : nat) : result ParseError () :=
  if bool_decide (name = []) || negb (forallb header_name_byte name)
  then refuse line (B "header name must contain only printable ASCII except ':'") else Ok tt.

Definition name_too_long (line : nat) : ParseError :=
  parse_error line (B "assignment name exceeds the hard limit of " ++ z_decimal MAX_ASSIGNMENT_NAME_LEN ++ B " bytes").
Definition not_supported (line : nat) (name : bytes) : ParseError := parse_error line (B "procmail variable " ++ name ++ B " is not supported").

(** Source: config/parser.rs `fn validate_header_extraction_target` *)
Definition validate_header_extraction_target (name : bytes) (line : nat) : result ParseError () :=
  if MAX_ASSIGNMENT_NAME_LEN <? len name then Err (name_too_long line)
  else if negb (valid_name name) then refuse line (B "header extraction target must be a variable name")
  else
    match variable_policy name with
    | RcOrCommandLine User => Ok tt
    | Unsupported => Err (not_supported line name)
    | _ => refuse line (B "header extraction cannot modify protected variable " ++ name)
    end.

(** Source: config/parser.rs `fn parse_header_value_source` *)
Definition parse_header_value_source (value : bytes) (line : nat) : result ParseError HeaderValue :=
  if ends_with_backslash value then refuse line (B "folded header values are not supported")
  else if existsb (fun b => (b =? c_CR) || (b =? c_LF) || (b =? 0)) value then refuse line (B "header value contains a forbidden byte")
  else Ok {| hv_source := value; hv_expansion := None |}.

(** Source: config/parser.rs:945-960 `parse_header_operation (remove)` *)
Definition parse_remove (rest : bytes) (line : nat) : result ParseError HeaderOperation :=
  let requires := B "header operation 'remove' requires NAME" in
  let '(name, rest) := cursor_word rest in
  name ← ok_or (parse_error line requires) name;
  if negb (cursor_is_end rest) then refuse line requires
  else _ ← validate_header_name name line; Ok (HO_Remove line name).

(** Source: config/parser.rs:962-979 `parse_header_operation (rename)` *)
Definition parse_rename (rest : bytes) (line : nat) : result ParseError HeaderOperation :=
  let '(from, rest) := cursor_word rest in
  let '(separator, rest) := cursor_keyword (B "to") rest in
  let '(to, rest) := cursor_word rest in
  match from, separator, to, cursor_is_end rest with
  | Some from, true, Some to, true =>
      _ ← validate_header_name from line; _ ← validate_header_name to line; Ok (HO_Rename line from to)
  | _, _, _, _ => refuse line (B "header operation 'rename' requires OLD-NAME to NEW-NAME")
  end.

(** Source: config/parser.rs:981-1013 `parse_header_operation (extract)` *)
Definition parse_extract (rest : bytes) (line : nat) : result ParseError HeaderOperation :=
  let '(mode, rest) := cursor_word rest in
  let '(name, rest) := cursor_word rest in
  let '(separator, rest) := cursor_keyword (B "into") rest in
  let '(target, rest) := cursor_word rest in
  match mode, name, separator, target, cursor_is_end rest with
  | Some mode, Some name, true, Some target, true =>
      mode ← (if bytes_eqb mode (B "raw") then Ok EM_Raw
              else if bytes_eqb mode (B "unfolded") then Ok EM_Unfolded
              else if bytes_eqb mode (B "decoded") then Ok EM_Decoded
              else refuse line (B "header extraction mode must be 'raw', 'unfolded', or 'decoded'"));
      _ ← validate_header_name name line;
      _ ← validate_header_extraction_target target line;
      Ok (HO_Extract line name target mode)
  | _, _, _, _, _ => refuse line (B "header operation 'extract' requires raw|unfolded|decoded NAME into VARIABLE")
  end.

(** The modes that [keywords] and [status] share: the word and its value. *)
Inductive ListMode := LM_Clear | LM_Value (mode : bytes) (value : HeaderValue).
Definition parse_list_mode (operation arguments : bytes) (rest : bytes) (line : nat) : result ParseError ListMode :=
  let named := B "header operation '" ++ operation in
  let '(mode, rest) := cursor_word rest in
  mode ← ok_or (parse_error line (named ++ B "' requires add|remove|set|clear")) mode;
  if bytes_eqb mode (B "clear") then
    if cursor_is_end rest then Ok LM_Clear else refuse line (named ++ B " clear' takes no arguments")
  else if negb (existsb (bytes_eqb mode) [B "add"; B "remove"; B "set"]) then
    refuse line (B "header " ++ operation ++ B " mode must be 'add', 'remove', 'set', or 'clear'")
  else if cursor_is_end rest then refuse line (named ++ B " " ++ mode ++ B "' requires " ++ arguments)
  else value ← parse_header_value_source (cursor_remainder rest) line; Ok (LM_Value mode value).

(** Source: config/parser.rs:1015-1059 `parse_header_operation (keywords)` *)
Definition parse_keywords_operation (rest : bytes) (line : nat) : result ParseError HeaderOperation :=
  mode ← parse_list_mode (B "keywords") (B "KEYWORDS") rest line;
  Ok (HO_Keywords line match mode with
                       | LM_Clear => KM_Clear
                       | LM_Value mode value =>
                           if bytes_eqb mode (B "add") then KM_Add value else if bytes_eqb mode (B "remove") then KM_Remove value else KM_Set value
                       end).
(** Source: config/parser.rs:1092-1136 `parse_header_operation (status)` *)
Definition parse_status_operation (rest : bytes) (line : nat) : result ParseError HeaderOperation :=
  mode ← parse_list_mode (B "status") (B "FLAGS") rest line;
  Ok (HO_Status line match mode with
                     | LM_Clear => SM_Clear
                     | LM_Value mode value =>
                         if bytes_eqb mode (B "add") then SM_Add value else if bytes_eqb mode (B "remove") then SM_Remove value else SM_Set value
                     end).

(** Source: config/parser.rs:1061-1090 `parse_header_operation (priority)` *)
Definition parse_priority_operation (rest : bytes) (line : nat) : result ParseError HeaderOperation :=
  let '(mode, rest) := cursor_word rest in
  mode ← ok_or (parse_error line (B "header operation 'priority' requires high|normal|low|clear")) mode;
  mode ← (if bytes_eqb mode (B "high") then Ok PM_High
          else if bytes_eqb mode (B "normal") then Ok PM_Normal
          else if bytes_eqb mode (B "low") then Ok PM_Low
          else if bytes_eqb mode (B "clear") then Ok PM_Clear
          else refuse line (B "header priority mode must be 'high', 'normal', 'low', or 'clear'"));
  if cursor_is_end rest then Ok (HO_Priority line mode)
  else refuse line (B "header operation 'priority " ++ priority_name mode ++ B "' takes no arguments").

(** Source: config/parser.rs:1138-1178 `parse_header_operation (set, add, prepend)` *)
Definition parse_valued_operation (operation rest : bytes) (line : nat) : result ParseError HeaderOperation :=
  if negb (existsb (bytes_eqb operation) [B "set"; B "add"; B "prepend"]) then
    refuse line (B "unknown headers operation '" ++ operation ++ B "'")
  else
    let '(name, rest) := cursor_word rest in
    name ← ok_or (parse_error line (B "header operation '" ++ operation ++ B "' requires NAME [VALUE]")) name;
    value ← parse_header_value_source (cursor_remainder rest) line;
    _ ← validate_header_name name line;
    Ok (if bytes_eqb operation (B "set") then HO_Set line name value
        else if bytes_eqb operation (B "add") then HO_Add line name value else HO_Prepend line name value).

(** Source: config/parser.rs:933-943 `parse_header_operation` *)
Definition parse_header_operation (text : bytes) (line : nat) : result ParseError HeaderOperation :=
  let '(operation, rest) := cursor_word text in
  operation ← ok_or (parse_error line (B "empty headers operation")) operation;
  if cursor_is_end rest then refuse line (B "header operation '" ++ text ++ B "' has no arguments")
  else if bytes_eqb operation (B "remove") then parse_remove rest line
  else if bytes_eqb operation (B "rename") then parse_rename rest line
  else if bytes_eqb operation (B "extract") then parse_extract rest line
  else if bytes_eqb operation (B "keywords") then parse_keywords_operation rest line
  else if bytes_eqb operation (B "priority") then parse_priority_operation rest line
  else if bytes_eqb operation (B "status") then parse_status_operation rest line
  else parse_valued_operation operation rest line.

(** A line that says nothing. *)
Definition is_blank_line (text : bytes) : bool := bool_decide (text = []) || starts_with text [c_HASH].

(** The loop of [parse_header_action] over the lines that are left; the answer
    has the index after the closing brace.
    Source: config/parser.rs `fn parse_header_action` *)
Fixpoint parse_header_lines (lines : list bytes) (index opening : nat) (linebuf : Z) (operations : list HeaderOperation)
    : result ParseError (HeaderAction * nat) :=
  match lines with
  | [] => refuse (S opening) (B "headers action has no closing '}'")
  | raw :: rest =>
      _ ← check_linebuf raw (S index) linebuf;
      let text := str_trim raw in
      if is_blank_line text then parse_header_lines rest (S index) opening linebuf operations
      else if bytes_eqb text (B "}") then Ok ({| operations := operations |}, S index)
      else if (length operations =? MAX_HEADER_OPERATIONS_PER_ACTION)%nat then
        Err (parse_limit (S index) (B "header operation count exceeds the hard limit of " ++ decimal MAX_HEADER_OPERATIONS_PER_ACTION))
      else
        operation ← parse_header_operation text (S index);
        parse_header_lines rest (S index) opening linebuf (operations ++ [operation])
  end.
Definition parse_header_action (lines : list bytes) (opening : nat) (linebuf : Z) : result ParseError (HeaderAction * nat) :=
  parse_header_lines (drop (S opening) lines) (S opening) opening linebuf [].

(** Source: config/parser.rs `fn validate_header_action_recipe` *)
Definition validate_header_action_recipe (flags : bytes) (lock : option bytes) (line : nat) : result ParseError () :=
  if bool_decide (is_Some lock) then refuse line (B "headers actions do not support local lockfiles")
  else
    match List.find (fun flag => existsb (Z.eqb flag) (B "hbfwWir")) flags with
    | Some flag => refuse line (B "recipe flag '" ++ [flag] ++ B "' is not supported for headers actions")
    | None => Ok tt
    end.

(** * Printing *)

Definition spaced (w rest : bytes) : bytes := w ++ c_SP :: rest.
Definition print_value (v : HeaderValue) : bytes := hv_source v.
Definition print_mode_name (mode : HeaderExtractionMode) : bytes :=
  match mode with EM_Raw => B "raw" | EM_Unfolded => B "unfolded" | EM_Decoded => B "decoded" end.
Definition print_valued (operation name : bytes) (v : HeaderValue) : bytes := spaced operation (spaced name (print_value v)).
Definition print_keywords (m : HeaderKeywordsMode) : bytes :=
  match m with
  | KM_Add v => spaced (B "add") (print_value v) | KM_Remove v => spaced (B "remove") (print_value v)
  | KM_Set v => spaced (B "set") (print_value v) | KM_Clear => B "clear"
  end.
Definition print_status (m : HeaderStatusMode) : bytes :=
  match m with
  | SM_Add v => spaced (B "add") (print_value v) | SM_Remove v => spaced (B "remove") (print_value v)
  | SM_Set v => spaced (B "set") (print_value v) | SM_Clear => B "clear"
  end.
(** An operation as a line of a [headers] block. *)
Definition print_operation (op : HeaderOperation) : bytes :=
  match op with
  | HO_Remove _ name => spaced (B "remove") name
  | HO_Set _ name v => print_valued (B "set") name v
  | HO_Add _ name v => print_valued (B "add") name v
  | HO_Prepend _ name v => print_valued (B "prepend") name v
  | HO_Rename _ from to => spaced (B "rename") (spaced from (spaced (B "to") to))
  | HO_Extract _ name target mode => spaced (B "extract") (spaced (print_mode_name mode) (spaced name (spaced (B "into") target)))
  | HO_Keywords _ mode => spaced (B "keywords") (print_keywords mode)
  | HO_Priority _ mode => spaced (B "priority") (priority_name mode)
  | HO_Status _ mode => spaced (B "status") (print_status mode)
  end.
Definition operation_line (op : HeaderOperation) : nat :=
  match op with
  | HO_Remove l _ | HO_Set l _ _ | HO_Add l _ _ | HO_Prepend l _ _ | HO_Rename l _ _ | HO_Extract l _ _ _
  | HO_Keywords l _ | HO_Priority l _ | HO_Status l _ => l
  end.

(** A value as the rc file can hold it: on one line, without space before it. *)
Record writable_value (v : HeaderValue) : Prop := {
  wv_text : hv_expansion v = None;
  wv_solid : starts_solid (hv_source v);
  wv_unfolded : ends_with_backslash (hv_source v) = false;
  wv_bytes : existsb (fun b => (b =? c_CR) || (b =? c_LF) || (b =? 0)) (hv_source v) = false;
}.
Definition writable_name (name : bytes) : Prop := name <> [] /\ forallb header_name_byte name = true.
Definition writable_target (target : bytes) : Prop :=
  len target <= MAX_ASSIGNMENT_NAME_LEN /\ valid_name target = true /\ variable_policy target = RcOrCommandLine User.
Definition writable_argument (v : HeaderValue) : Prop := writable_value v /\ hv_source v <> [].
(** An operation that a line can say. *)
Definition writable (op : HeaderOperation) : Prop :=
  match op with
  | HO_Remove _ name => writable_name name
  | HO_Set _ name v | HO_Add _ name v | HO_Prepend _ name v => writable_name name /\ writable_value v
  | HO_Rename _ from to => writable_name from /\ writable_name to
  | HO_Extract _ name target _ => writable_name name /\ writable_target target
  | HO_Keywords _ (KM_Add v | KM_Remove v | KM_Set v) | HO_Status _ (SM_Add v | SM_Remove v | SM_Set v) => writable_argument v
  | HO_Keywords _ KM_Clear | HO_Status _ SM_Clear | HO_Priority _ _ => True
  end.

(** * Facts *)

Lemma writable_no_space name : writable_name name -> no_space name.
Proof.
  intros [_ Hn]. apply Forall_forall. intros b Hb. rewrite forallb_forall in Hn. apply list_elem_of_In in Hb. specialize (Hn b Hb).
  unfold header_name_byte, between in Hn. unfold is_ascii_whitespace. repeat case_match; lia.
Qed.
Lemma validate_writable name line : writable_name name -> validate_header_name name line = Ok tt.
Proof. intros [Hn Hb]. unfold validate_header_name. rewrite bool_decide_eq_false_2 by done. by rewrite Hb. Qed.
Lemma valid_name_no_space name : valid_name name = true -> no_space name /\ name <> [].
Proof.
  destruct name as [|b name]; [done|]. cbn. intros [Hb Hn]%andb_true_iff. split; [|done].
  assert (forall x, (x =? c_UNDER) || is_ascii_alphanumeric x = true -> is_ascii_whitespace x = false) as Hx.
  { intros x. unfold is_ascii_alphanumeric, is_ascii_digit, is_ascii_uppercase, is_ascii_lowercase, is_ascii_whitespace, between. lia. }
  apply Forall_cons. split.
  - apply Hx. unfold is_ascii_alphanumeric. destruct (b =? c_UNDER), (is_ascii_digit b), (is_ascii_uppercase b), (is_ascii_lowercase b); done.
  - apply Forall_forall. intros x Hin. apply Hx. rewrite forallb_forall in Hn. by apply Hn, list_elem_of_In.
Qed.
Lemma parse_writable v line : writable_value v -> parse_header_value_source (print_value v) line = Ok v.
Proof. intros [Ht Hs Hf Hb]. unfold parse_header_value_source, print_value. rewrite Hf, Hb. destruct v; cbn in *. by subst. Qed.

(** The cursor over a printed word. *)
Lemma word_spaced w rest : no_space w -> w <> [] -> cursor_word (c_SP :: spaced w rest) = (Some w, c_SP :: rest).
Proof. intros. rewrite cursor_word_skip. by apply cursor_word_space. Qed.
Lemma word_last w : no_space w -> w <> [] -> cursor_word (c_SP :: w) = (Some w, []).
Proof. intros. rewrite cursor_word_skip. by apply cursor_word_end. Qed.
Lemma first_word w rest : no_space w -> w <> [] -> cursor_word (spaced w rest) = (Some w, c_SP :: rest).
Proof. apply cursor_word_space. Qed.
Lemma more_after w rest : no_space w -> w <> [] -> cursor_is_end (c_SP :: w ++ rest) = false.
Proof. destruct w as [|b w]; [done|]. intros [Hb _]%Forall_cons _. by apply cursor_is_end_solid. Qed.
Lemma remainder_value v : writable_value v -> cursor_remainder (c_SP :: print_value v) = print_value v.
Proof. intros Hv. apply cursor_remainder_space, (wv_solid _ Hv). Qed.

(** What follows the first word of an operation. *)
Lemma operation_head w rest line : no_space w -> w <> [] -> cursor_is_end (c_SP :: rest) = false ->
  parse_header_operation (spaced w rest) line =
    (if bytes_eqb w (B "remove") then parse_remove (c_SP :: rest) line
     else if bytes_eqb w (B "rename") then parse_rename (c_SP :: rest) line
     else if bytes_eqb w (B "extract") then parse_extract (c_SP :: rest) line
     else if bytes_eqb w (B "keywords") then parse_keywords_operation (c_SP :: rest) line
     else if bytes_eqb w (B "priority") then parse_priority_operation (c_SP :: rest) line
     else if bytes_eqb w (B "status") then parse_status_operation (c_SP :: rest) line
     else parse_valued_operation w (c_SP :: rest) line).
Proof. intros Hw Hn Hend. unfold parse_header_operation. rewrite first_word by done. cbn [ok_or mbind result_bind]. by rewrite Hend. Qed.

Ltac eval_names :=
  repeat match goal with |- context [bytes_eqb (B ?a) (B ?b)] =>
    let r := eval vm_compute in (bytes_eqb (B a) (B b)) in change (bytes_eqb (B a) (B b)) with r end; cbv iota.
Ltac solid := first [done|vm_compute; by repeat constructor].

Lemma parse_printed_valued operation name v line :
  existsb (bytes_eqb operation) [B "set"; B "add"; B "prepend"] = true -> no_space operation -> operation <> [] -> writable_name name -> writable_value v ->
  parse_valued_operation operation (c_SP :: spaced name (print_value v)) line =
    Ok (if bytes_eqb operation (B "set") then HO_Set line name v else if bytes_eqb operation (B "add") then HO_Add line name v else HO_Prepend line name v).
Proof.
  intros Ho Hs Hne Hn Hv. unfold parse_valued_operation. rewrite Ho. cbn [negb]. rewrite word_spaced by first [by apply writable_no_space|by apply Hn].
  cbn [ok_or mbind result_bind]. rewrite remainder_value, parse_writable by done. cbn [mbind result_bind]. by rewrite validate_writable.
Qed.
Lemma parse_printed_mode operation arguments mode v line :
  existsb (bytes_eqb mode) [B "add"; B "remove"; B "set"] = true -> no_space mode -> mode <> [] -> bytes_eqb mode (B "clear") = false -> writable_argument v ->
  parse_list_mode operation arguments (c_SP :: spaced mode (print_value v)) line = Ok (LM_Value mode v).
Proof.
  intros Hm Hs Hne Hc [Hv Hn]. unfold parse_list_mode. rewrite word_spaced by done. cbn [ok_or mbind result_bind]. rewrite Hc, Hm. cbn [negb].
  assert (cursor_is_end (c_SP :: print_value v) = false) as ->.
  { unfold print_value in *. pose proof (wv_solid v Hv) as Hsolid. destruct (hv_source v); [done|]. by apply cursor_is_end_solid. }
  by rewrite remainder_value, parse_writable.
Qed.

Lemma more_name name rest : writable_name name -> cursor_is_end (c_SP :: spaced name rest) = false.
Proof. intros Hn. apply more_after; [by apply writable_no_space|apply Hn]. Qed.
Lemma more_last name : writable_name name -> cursor_is_end (c_SP :: name) = false.
Proof. intros Hn. rewrite <-(app_nil_r name). apply more_after; [by apply writable_no_space|apply Hn]. Qed.
Lemma keyword_spaced w rest : no_space w -> w <> [] -> cursor_keyword w (c_SP :: spaced w rest) = (true, c_SP :: rest).
Proof. intros Hw Hn. unfold cursor_keyword. rewrite word_spaced by done. by rewrite bool_decide_eq_true_2. Qed.

Lemma parse_printed_rename from to line : writable_name from -> writable_name to ->
  parse_rename (c_SP :: spaced from (spaced (B "to") to)) line = Ok (HO_Rename line from to).
Proof.
  intros Hf Ht. unfold parse_rename. rewrite word_spaced by first [by apply writable_no_space|by apply Hf].
  rewrite keyword_spaced by solid. rewrite word_last by first [by apply writable_no_space|by apply Ht].
  change (cursor_is_end []) with true. cbv iota beta. rewrite (validate_writable from) by done. cbn [mbind result_bind]. by rewrite validate_writable.
Qed.
Lemma parse_printed_extract name target mode line : writable_name name -> writable_target target ->
  parse_extract (c_SP :: spaced (print_mode_name mode) (spaced name (spaced (B "into") target))) line = Ok (HO_Extract line name target mode).
Proof.
  intros Hn (Hlen & Hvalid & Hpolicy). destruct (valid_name_no_space target Hvalid) as [Hts Htn].
  unfold parse_extract. rewrite word_spaced by (destruct mode; solid). rewrite word_spaced by first [by apply writable_no_space|by apply Hn].
  rewrite keyword_spaced by solid. rewrite word_last by done. change (cursor_is_end []) with true. cbv iota beta.
  assert (validate_header_extraction_target target line = Ok tt) as Hv.
  { unfold validate_header_extraction_target. rewrite (proj2 (Z.ltb_ge _ _) Hlen), Hvalid. cbn [negb]. by rewrite Hpolicy. }
  destruct mode; cbn [print_mode_name]; cbv zeta.
  all: eval_names.
  all: cbn [mbind result_bind]; rewrite validate_writable by done; cbn [mbind result_bind]; by rewrite Hv.
Qed.
Lemma parse_printed_keywords mode line : writable (HO_Keywords line mode) -> parse_keywords_operation (c_SP :: print_keywords mode) line = Ok (HO_Keywords line mode).
Proof.
  intros Hw. unfold parse_keywords_operation. destruct mode as [v|v|v|]; cbn [print_keywords];
    [rewrite parse_printed_mode by (done || solid); reflexivity..|reflexivity].
Qed.
Lemma parse_printed_status mode line : writable (HO_Status line mode) -> parse_status_operation (c_SP :: print_status mode) line = Ok (HO_Status line mode).
Proof.
  intros Hw. unfold parse_status_operation. destruct mode as [v|v|v|]; cbn [print_status];
    [rewrite parse_printed_mode by (done || solid); reflexivity..|reflexivity].
Qed.

(** Printing and parsing a header operation.  Every operation that a line of
    a [headers] block can say is read back as it was, with its line: names of
    fields and variables, modes, and values byte by byte. *)
Theorem header_operation_roundtrip (op : HeaderOperation) (Hw : writable op) :
  parse_header_operation (print_operation op) (operation_line op) = Ok op.
Proof.
  destruct op as [l name|l name v|l name v|l name v|l from to|l name target mode|l mode|l mode|l mode]; cbn [print_operation operation_line].
  - rewrite operation_head by (solid || done || by apply more_last). eval_names.
    unfold parse_remove. rewrite word_last by first [by apply writable_no_space|by apply Hw]. cbn [ok_or mbind result_bind negb cursor_is_end].
    change (cursor_is_end []) with true. cbn [negb]. by rewrite validate_writable.
  - unfold print_valued. rewrite operation_head by (solid || done || by apply more_name, Hw). eval_names. apply (parse_printed_valued (B "set")); [solid..|apply Hw|apply Hw].
  - unfold print_valued. rewrite operation_head by (solid || done || by apply more_name, Hw). eval_names. apply (parse_printed_valued (B "add")); [solid..|apply Hw|apply Hw].
  - unfold print_valued. rewrite operation_head by (solid || done || by apply more_name, Hw). eval_names. apply (parse_printed_valued (B "prepend")); [solid..|apply Hw|apply Hw].
  - rewrite operation_head by (solid || done || by apply more_name, Hw). eval_names. apply parse_printed_rename; apply Hw.
  - rewrite operation_head by (solid || done || by destruct mode). eval_names. apply parse_printed_extract; apply Hw.
  - rewrite operation_head by (solid || done || by destruct mode). eval_names. by apply parse_printed_keywords.
  - rewrite operation_head by (solid || done || by destruct mode). eval_names. by destruct mode.
  - rewrite operation_head by (solid || done || by destruct mode). eval_names. by apply parse_printed_status.
Qed.

Lemma header_operation_roundtrip_witness :
  parse_header_operation (B "extract decoded Subject into TITLE") 7 = Ok (HO_Extract 7 (B "Subject") (B "TITLE") EM_Decoded) /\
  parse_header_operation (B "set X-Note two  words") 8 = Ok (HO_Set 8 (B "X-Note") {| hv_source := B "two  words"; hv_expansion := None |}).
Proof.
  split.
  - apply (header_operation_roundtrip (HO_Extract 7 (B "Subject") (B "TITLE") EM_Decoded)). split; [by split|]. by split; [vm_compute|].
  - apply (header_operation_roundtrip (HO_Set 8 (B "X-Note") {| hv_source := B "two  words"; hv_expansion := None |})).
    split; [by split|]. by split.
Defined.
