(* ===== verification/RegexSyntax.v ===== *)
(** Conditions of the rc file: the second half of [src/src/config/parser.rs].  A
    regular expression is parsed to its syntax tree, the notations of procmail in
    it ([^^], [$], [^TO_], the mark of MATCH) are rewritten at the places the tree
    gives, and the result is compiled.

    The syntax tree and the compiler belong to the crates [regex_syntax] and
    [regex] and are an interface here; of the tree the code looks at assertions
    and literals, in the order of a visit. *)
From stdpp Require Import pretty.
From S2P Require Import Prelude Numbers Config Limits Utf8 Variables Syntax.
#[local] Open Scope Z_scope.

(** Source: config/mod.rs:59-66 `MAX_PIPE_COMMAND_LEN, MAX_REGEX_*` *)
Definition MAX_PIPE_COMMAND_LEN : Z := 64 * 1024.
Definition MAX_REGEX_PATTERN_LEN : Z := 64 * 1024.
Definition MAX_REGEX_CAPTURES : nat := 64.
Definition MAX_REGEX_MATCH_MARKERS : nat := 64.

(** [regex_syntax::ast::AssertionKind], as far as it is told apart. *)
Inductive AssertionKind := StartLine | EndLine | WordBoundaryStartAngle | WordBoundaryEndAngle | OtherAssertion.
(** The nodes of the tree that are looked at, with their byte offsets. *)
Inductive AstLeaf :=
| Leaf_Assertion (kind : AssertionKind) (start end_ : nat)
| Leaf_Literal (superfluous : bool) (c : Z) (start end_ : nat).

(** The regular expressions of the crates: the leaves of the tree of a pattern,
    in the order of [ast::visit]; the compiler with the options of the program,
    given the pattern and whether case matters; and the names of the groups. *)
Class RegexCompiler {R : RegexEngine} := {
  regex_ast : bytes -> result bytes (list AstLeaf);
  build_regex : bytes -> bool -> result bytes Regex;
  regex_capture_names : Regex -> list (option bytes);
}.

(** * The budget of a parse *)

Section budget.
Context {T : Target}.

(** [checked_add] of two counts. *)
Definition count_add (a b : Z) : option Z := if a + b <=? usize_max then Some (a + b) else None.

(** Source: config/parser.rs `fn check_count_limit` *)
Definition check_count_limit (count limit : Z) (line : nat) (name : bytes) : result ParseError () :=
  if limit <=? count then Err (parse_limit line (B "rc " ++ name ++ B " count exceeds the active limit of " ++ z_decimal limit)) else Ok tt.

Definition overflows (line : nat) (name : bytes) : ParseError := parse_error line (B "rc " ++ name ++ B " count overflows").

(** Source: config/parser.rs `fn check_statement` *)
Definition check_statement (b : ParseBudget) (line : nat) : result ParseError () :=
  check_count_limit (pc_statements (pb_counts b)) (rl_statements (pb_limits b)) line (B "statement").

Definition with_counts (b : ParseBudget) (c : RcParseCounts) : ParseBudget := {| pb_counts := c; pb_limits := pb_limits b |}.
(** Source: config/parser.rs `fn charge_recipe` *)
Definition charge_recipe (b : ParseBudget) (line : nat) : result ParseError ParseBudget :=
  let c := pb_counts b in
  _ ← check_count_limit (pc_recipes c) (rl_recipes (pb_limits b)) line (B "recipe");
  recipes ← ok_or (overflows line (B "recipe")) (count_add (pc_recipes c) 1);
  statements ← ok_or (overflows line (B "statement")) (count_add (pc_statements c) 1);
  Ok (with_counts b {| pc_assignments := pc_assignments c; pc_statements := statements; pc_recipes := recipes;
                       pc_conditions := pc_conditions c; pc_regexes := pc_regexes c |}).

(** Source: config/parser.rs `enum AssignmentUse` *)
Inductive AssignmentUse := AU_Statement | AU_CaptureAction.
(** Source: config/parser.rs `fn charge_assignment` *)
Definition charge_assignment (b : ParseBudget) (line : nat) (usage : AssignmentUse) : result ParseError ParseBudget :=
  let c := pb_counts b in
  _ ← check_count_limit (pc_assignments c) (rl_assignments (pb_limits b)) line (B "assignment");
  assignments ← ok_or (overflows line (B "assignment")) (count_add (pc_assignments c) 1);
  statements ← match usage with
               | AU_Statement => ok_or (overflows line (B "statement")) (count_add (pc_statements c) 1)
               | AU_CaptureAction => Ok (pc_statements c)
               end;
  Ok (with_counts b {| pc_assignments := assignments; pc_statements := statements; pc_recipes := pc_recipes c;
                       pc_conditions := pc_conditions c; pc_regexes := pc_regexes c |}).

(** Source: config/parser.rs `fn check_condition` *)
Definition check_condition (b : ParseBudget) (recipe_count : nat) (line : nat) : result ParseError () :=
  let limit := rl_conditions_per_recipe (pb_limits b) in
  if limit <=? Z.of_nat recipe_count then
    Err (parse_limit line (B "recipe condition count exceeds the active limit of " ++ z_decimal limit))
  else
    total ← ok_or (overflows line (B "condition")) (count_add (pc_conditions (pb_counts b)) (Z.of_nat recipe_count));
    check_count_limit total (rl_conditions (pb_limits b)) line (B "condition").

(** Source: config/parser.rs `fn check_regex` *)
Definition check_regex (b : ParseBudget) (recipe_count : nat) (line : nat) : result ParseError () :=
  total ← ok_or (overflows line (B "regex")) (count_add (pc_regexes (pb_counts b)) (Z.of_nat recipe_count));
  check_count_limit total (rl_regexes (pb_limits b)) line (B "regex").

(** Source: config/parser.rs `fn record_recipe_contents` *)
Definition record_recipe_contents (b : ParseBudget) (conditions regexes : nat) (line : nat) : result ParseError ParseBudget :=
  let c := pb_counts b in
  conditions ← ok_or (overflows line (B "condition")) (count_add (pc_conditions c) (Z.of_nat conditions));
  regexes ← ok_or (overflows line (B "regex")) (count_add (pc_regexes c) (Z.of_nat regexes));
  Ok (with_counts b {| pc_assignments := pc_assignments c; pc_statements := pc_statements c; pc_recipes := pc_recipes c;
                       pc_conditions := conditions; pc_regexes := regexes |}).

(** Source: config/parser.rs `fn check_nesting` *)
Definition check_nesting (b : ParseBudget) (depth line : nat) : result ParseError nat :=
  next ← ok_or (parse_error line (B "recipe nesting depth overflows")) (checked_add depth 1);
  let limit := rl_nesting_depth (pb_limits b) in
  if limit <? Z.of_nat next then
    Err (parse_limit line (B "recipe nesting depth " ++ decimal next ++ B " exceeds the active limit of " ++ z_decimal limit))
  else Ok next.

(** Source: config/parser.rs `fn subtract` *)
Definition subtract_counts (c earlier : RcParseCounts) : result ParseError RcParseCounts :=
  let minus (field : RcParseCounts -> Z) (name : bytes) : result ParseError Z :=
    if field c <? field earlier then refuse 1 (B "rc " ++ name ++ B " count moved backwards") else Ok (field c - field earlier) in
  assignments ← minus pc_assignments (B "assignment");
  statements ← minus pc_statements (B "statement");
  recipes ← minus pc_recipes (B "recipe");
  conditions ← minus pc_conditions (B "condition");
  regexes ← minus pc_regexes (B "regex");
  Ok {| pc_assignments := assignments; pc_statements := statements; pc_recipes := recipes; pc_conditions := conditions; pc_regexes := regexes |}.
End budget.

(** * Rewriting a regular expression *)

Section regex.
Context {T : Target} {R : RegexEngine} {RC : RegexCompiler}.

(** Source: config/parser.rs:1697-1700 `prepare_condition_regex (macros)` *)
Definition TO_ADDRESS : bytes := B "(?:^(?:(?:Original-)?(?:Resent-)?(?:To|Cc|Bcc)|(?:X-Envelope|Apparently(?:-Resent)?)-To):(?:.*[^-a-zA-Z0-9_.])?)".
Definition TO_WORD : bytes := B "(?:^(?:(?:Original-)?(?:Resent-)?(?:To|Cc|Bcc)|(?:X-Envelope|Apparently(?:-Resent)?)-To):(?:.*[^a-zA-Z])?)".
Definition FROM_DAEMON : bytes := B "(?:^(?:Mailing-List:|Precedence:.*(?:junk|bulk|list)|To: Multiple recipients of |(?:(?:(?:Resent-)?(?:From|Sender)|X-Envelope-From):|>?From )(?:[^>]*[^(.%@a-z0-9])?(?:Post(?:ma?(?:st(?:e?r)?|n)|office)|(?:send)?Mail(?:er)?|daemon|m(?:mdf|ajordomo)|n?uucp|LIST(?:SERV|proc)|NETSERV|o(?:wner|ps)|r(?:e(?:quest|sponse)|oot)|b(?:ounce|bs\.smtp)|echo|mirror|s(?:erv(?:ices?|er)|mtp(?:error)?|ystem)|A(?:dmin(?:istrator)?|MMGR|utoanswer))(?:(?:[^).!:a-z0-9][-_a-z0-9]*)?[%@>	 ][^<)]*(?:\(.*\).*)?)?$(?:[^>]|$)))".
Definition FROM_MAILER : bytes := B "(?:^(?:(?:(?:Resent-)?(?:From|Sender)|X-Envelope-From):|>?From )(?:[^>]*[^(.%@a-z0-9])?(?:Post(?:ma(?:st(?:er)?|n)|office)|(?:send)?Mail(?:er)?|daemon|mmdf|n?uucp|ops|r(?:esponse|oot)|(?:bbs\.)?smtp(?:error)?|s(?:erv(?:ices?|er)|ystem)|A(?:dmin(?:istrator)?|MMGR))(?:(?:[^).!:a-z0-9][-_a-z0-9]*)?[%@>	 ][^<)]*(?:\(.*\).*)?)?$(?:[^>]|$))".

(** Source: config/parser.rs `fn match_marker_name` *)
Definition match_marker_name (index : nat) : bytes := B "__procmail_rs_match_" ++ decimal index.

(** Source: config/parser.rs `enum RegexReplacement` *)
Inductive RegexReplacement := Static (text : bytes) | MatchMarker (index : nat).
(** Source: config/parser.rs `struct RegexEdit ` *)
Record RegexEdit := { ed_start : nat; ed_end : nat; ed_replacement : RegexReplacement }.
(** Source: config/parser.rs `struct RegexEdits ` *)
Record RegexEdits := { ed_edits : list RegexEdit; match_marker_count : nat; force_case_insensitive : bool }.
Definition no_edits : RegexEdits := {| ed_edits := []; match_marker_count := 0; force_case_insensitive := false |}.

Definition replacement_text (r : RegexReplacement) : bytes :=
  match r with Static text => text | MatchMarker index => B "(?P<" ++ match_marker_name index ++ B ">)" end.

(** [pattern.get(lo..hi)] *)
Definition str_get (lo hi : nat) (l : bytes) : option bytes :=
  if (lo <=? hi)%nat && (hi <=? length l)%nat && is_char_boundary l lo && is_char_boundary l hi then Some (slice lo hi l) else None.

(** Source: config/parser.rs `fn push_regex_bytes` *)
Definition push_regex_bytes (output value : bytes) (line : nat) : result ParseError bytes :=
  map_err (fun error => match error with
    | LengthOverflow => parse_error line (B "expanded regular expression length overflows")
    | BB_LimitExceeded _ =>
        parse_error line (B "expanded regular expression exceeds the hard limit of " ++ z_decimal MAX_REGEX_PATTERN_LEN ++ B " bytes")
    end) (try_extend_vec output MAX_REGEX_PATTERN_LEN value).

Definition splits_text (line : nat) : ParseError := parse_error line (B "internal regular expression edit splits UTF-8 text").
(** The loop of [render]. *)
Fixpoint render_edits (pattern : bytes) (line : nat) (edits : list RegexEdit) (cursor : nat) (output : bytes) : result ParseError bytes :=
  match edits with
  | [] =>
      source ← ok_or (splits_text line) (str_get cursor (length pattern) pattern);
      push_regex_bytes output source line
  | e :: rest =>
      if (ed_start e <? cursor)%nat || (ed_end e <? ed_start e)%nat || (length pattern <? ed_end e)%nat then
        refuse line (B "internal regular expression edit ranges overlap")
      else
        source ← ok_or (splits_text line) (str_get cursor (ed_start e) pattern);
        output ← push_regex_bytes output source line;
        output ← push_regex_bytes output (replacement_text (ed_replacement e)) line;
        render_edits pattern line rest (ed_end e) output
  end.
(** Source: config/parser.rs `fn render` *)
Definition render (edits : RegexEdits) (pattern : bytes) (line : nat) : result ParseError bytes :=
  output ← render_edits pattern line (ed_edits edits) 0 [];
  if valid_utf8 output then Ok output else refuse line (B "translated regular expression is not valid UTF-8").

(** ** Collecting the edits *)

Section collector.
Context (pattern : bytes) (line : nat).

(** Source: config/parser.rs `fn covered` *)
Definition covered (s : RegexEdits) (offset : nat) : bool :=
  match last (ed_edits s) with Some e => (offset <? ed_end e)%nat | None => false end.
(** Source: config/parser.rs `fn push(@1` *)
Definition push_edit (s : RegexEdits) (start end_ : nat) (replacement : RegexReplacement) : result ParseError RegexEdits :=
  if Z.of_nat (length (ed_edits s)) =? MAX_REGEX_PATTERN_LEN then
    refuse line (B "regular expression edits exceed the hard limit of " ++ z_decimal MAX_REGEX_PATTERN_LEN)
  else Ok {| ed_edits := ed_edits s ++ [{| ed_start := start; ed_end := end_; ed_replacement := replacement |}];
             match_marker_count := match_marker_count s; force_case_insensitive := force_case_insensitive s |}.
Definition with_case_ignored (s : RegexEdits) : RegexEdits :=
  {| ed_edits := ed_edits s; match_marker_count := match_marker_count s; force_case_insensitive := true |}.

(** Source: config/parser.rs `fn visit_assertion` *)
Definition visit_assertion (s : RegexEdits) (kind : AssertionKind) (start end_ : nat) : result ParseError RegexEdits :=
  if covered s start then Ok s
  else
    match kind with
    | StartLine =>
        tail ← ok_or (parse_error line (B "internal regular expression span is invalid"))
                 (if (start <=? length pattern)%nat then Some (drop start pattern) else None);
        if starts_with tail (B "^^") then
          let end_ := (start + 2)%nat in
          if (start =? 0)%nat then push_edit s start end_ (Static (B "\A"))
          else if (end_ =? length pattern)%nat then push_edit s start end_ (Static (B "\z"))
          else refuse line (B "'^^' is supported only at the start or end of a regular expression")
        else if starts_with tail (B "^FROM_DAEMON") then with_case_ignored <$> push_edit s start (start + 12) (Static FROM_DAEMON)
        else if starts_with tail (B "^FROM_MAILER") then push_edit s start (start + 12) (Static FROM_MAILER)
        else if starts_with tail (B "^TO_") then push_edit s start (start + 4) (Static TO_ADDRESS)
        else if starts_with tail (B "^TO") then push_edit s start (start + 3) (Static TO_WORD)
        else push_edit s start end_ (Static (B "(?:\A|\n)"))
    | EndLine => push_edit s start end_ (Static (B "(?:\n|\z)"))
    | WordBoundaryStartAngle | WordBoundaryEndAngle => push_edit s start end_ (Static (B "[^a-zA-Z0-9_]"))
    | OtherAssertion => Ok s
    end.

(** Source: config/parser.rs `fn visit_literal` *)
Definition visit_literal (s : RegexEdits) (superfluous : bool) (c : Z) (start end_ : nat) : result ParseError RegexEdits :=
  if negb superfluous || negb (c =? c_SLASH) || negb (bool_decide (str_get start end_ pattern = Some (B "\/"))) then Ok s
  else if (match_marker_count s =? MAX_REGEX_MATCH_MARKERS)%nat then
    refuse line (B "regular expression MATCH marker count exceeds the hard limit of " ++ decimal MAX_REGEX_MATCH_MARKERS)
  else
    push_edit {| ed_edits := ed_edits s; match_marker_count := S (match_marker_count s); force_case_insensitive := force_case_insensitive s |}
      start end_ (MatchMarker (match_marker_count s)).

(** Source: config/parser.rs `fn visit_pre` *)
Definition visit_leaf (s : RegexEdits) (leaf : AstLeaf) : result ParseError RegexEdits :=
  match leaf with
  | Leaf_Assertion kind start end_ => visit_assertion s kind start end_
  | Leaf_Literal superfluous c start end_ => visit_literal s superfluous c start end_
  end.
Fixpoint visit_leaves (s : RegexEdits) (leaves : list AstLeaf) : result ParseError RegexEdits :=
  match leaves with [] => Ok s | leaf :: rest => s ← visit_leaf s leaf; visit_leaves s rest end.

Fixpoint insert_edit (e : RegexEdit) (l : list RegexEdit) : list RegexEdit :=
  match l with [] => [e] | x :: l' => if (ed_start e <? ed_start x)%nat then e :: l else x :: insert_edit e l' end.
(** [sort_by_key], which keeps the order of equal keys. *)
Definition sort_edits (l : list RegexEdit) : list RegexEdit := foldl (fun sorted e => insert_edit e sorted) [] l.
(** Source: config/parser.rs `fn finish(self)` *)
Definition finish_edits (s : RegexEdits) : RegexEdits :=
  {| ed_edits := sort_edits (ed_edits s); match_marker_count := match_marker_count s; force_case_insensitive := force_case_insensitive s |}.
End collector.

(** Source: config/parser.rs `fn parse_regex_ast` *)
Definition parse_regex_ast (pattern : bytes) (line : nat) : result ParseError (list AstLeaf) :=
  map_err (fun error => parse_error line (B "invalid regular expression: " ++ error)) (regex_ast pattern).

(** Source: config/parser.rs:1693-1714 `prepare_condition_regex` *)
Definition prepare_condition_regex (pattern : bytes) (line : nat) : result ParseError (bytes * nat * bool) :=
  leaves ← parse_regex_ast pattern line;
  collected ← visit_leaves pattern line no_edits leaves;
  let edits := finish_edits collected in
  output ← render edits pattern line;
  _ ← parse_regex_ast output line;
  Ok (output, match_marker_count edits, force_case_insensitive edits).

(** The group of a name, counted from 0. *)
Definition group_named (name : bytes) (names : list (option bytes)) : option nat :=
  position (fun n => bool_decide (n = Some name)) names.
Fixpoint marker_groups (markers : list nat) (names : list (option bytes)) (line : nat) : result ParseError (list nat) :=
  match markers with
  | [] => Ok []
  | marker :: rest =>
      index ← ok_or (parse_error line (B "internal MATCH marker capture is missing")) (group_named (match_marker_name marker) names);
      indexes ← marker_groups rest names line; Ok (index :: indexes)
  end.

(** Source: config/parser.rs `fn compile_condition_regex` *)
Definition compile_condition_regex (pattern : bytes) (line : nat) (case_sensitive : bool) : result ParseError RegexCondition :=
  if MAX_REGEX_PATTERN_LEN <? len pattern then
    refuse line (B "regular expression exceeds the hard limit of " ++ z_decimal MAX_REGEX_PATTERN_LEN ++ B " bytes")
  else
    '(compiled_pattern, markers, insensitive) ← prepare_condition_regex pattern line;
    compiled ← map_err (fun error => parse_error line (B "invalid regular expression: " ++ error))
                 (build_regex compiled_pattern (case_sensitive && negb insensitive));
    let names := regex_capture_names compiled in
    match_captures ← marker_groups (seq 0 markers) names line;
    if existsb (fun '(index, name) => bool_decide (is_Some name) && negb (existsb (Nat.eqb index) match_captures)) (zip (seq 0 (length names)) names) then
      refuse line (B "named regular expression groups are not supported")
    else
      let capture_indexes := List.filter (fun index => negb (existsb (Nat.eqb index) match_captures)) (seq 1 (length names - 1)) in
      if (MAX_REGEX_CAPTURES <? length capture_indexes)%nat then
        refuse line (B "regular expression capture count exceeds the hard limit of " ++ decimal MAX_REGEX_CAPTURES)
      else Ok {| rx_pattern := pattern; rx_compiled := compiled; rx_match_captures := match_captures; rx_capture_indexes := capture_indexes |}.
End regex.
