(* ===== verification/ConditionSyntax.v ===== *)
(** The conditions of a recipe: [parse_condition] of [src/src/config/parser.rs]
    with its forms, which are tried in order: a block of [multipart] selectors, an
    expression ([$]), sizes ([<] and [>]), a program ([?]), and a regular
    expression over a list of fields, an area, a variable or the default area. *)
From S2P Require Import Prelude Numbers Config Limits Utf8 Variables ExprParser Syntax HeaderSyntax RegexSyntax.
#[local] Open Scope Z_scope.

#[export] Instance AddressField_eq_dec : EqDecision AddressField.
Proof. solve_decision. Defined.
#[export] Instance IdentifierField_eq_dec : EqDecision IdentifierField.
Proof. solve_decision. Defined.
#[export] Instance KeywordField_eq_dec : EqDecision KeywordField.
Proof. solve_decision. Defined.
#[export] Instance MultipartField_eq_dec : EqDecision MultipartField.
Proof. solve_decision. Defined.

(** * Lists of fields *)

(** Source: config/mod.rs:737-760 `AddressField::RECIPIENT, DELIVERED, SENDER` *)
Definition AddressField_RECIPIENT : list AddressField :=
  [AF_To; AF_Cc; AF_ResentTo; AF_ResentCc; AF_DeliveredTo; AF_XOriginalTo; AF_EnvelopeTo].
Definition AddressField_DELIVERED : list AddressField := [AF_DeliveredTo; AF_XOriginalTo; AF_EnvelopeTo].
Definition AddressField_SENDER : list AddressField := [AF_From; AF_Sender; AF_ReplyTo; AF_ResentFrom; AF_ResentSender].
(** Source: config/mod.rs `pub(crate) const THREAD` *)
Definition IdentifierField_THREAD : list IdentifierField := [IF_MessageId; IF_InReplyTo; IF_References].
(** Source: config/mod.rs `pub(crate) fn name(self)@5` *)
Definition MultipartField_name (f : MultipartField) : bytes :=
  match f with MF_MimeType => B "%mimetype" | MF_Disposition => B "%disposition" | MF_Filename => B "%filename" end.

Section field_list.
Context {F : Type} `{!EqDecision F} (condition : bytes) (field_name : F -> bytes) (line : nat).

Definition repeats (name : bytes) : ParseError := parse_error line (condition ++ B " condition repeats field '" ++ name ++ B "'").
Definition push_field (fields : list F) (field : F) (name : bytes) : result ParseError (list F) :=
  if bool_decide (field ∈ fields) then Err (repeats name) else Ok (fields ++ [field]).
(** The fields a group stands for. *)
Fixpoint push_group (fields group : list F) : result ParseError (list F) :=
  match group with [] => Ok fields | field :: rest => fields ← push_field fields field (field_name field); push_group fields rest end.

Context (groups : list (bytes * list F)) (names : list (bytes * F)) (refuses_empty : bool).

(** The loop over the items of a list.
    Source: config/parser.rs:2011-2088 `structured_condition_target (address fields)` *)
Fixpoint add_fields (items : list bytes) (fields : list F) : result ParseError (list F) :=
  match items with
  | [] => Ok fields
  | item :: rest =>
      let name := str_trim item in
      let lower := to_ascii_lowercase <$> name in
      if refuses_empty && bool_decide (name = []) then refuse line (condition ++ B " condition field list contains an empty item")
      else
        fields ←
          match table_lookup groups lower with
          | Some group => push_group fields group
          | None =>
              match table_lookup names lower with
              | Some field => push_field fields field name
              | None => refuse line (condition ++ B " condition does not support field '" ++ name ++ B "'")
              end
          end;
        add_fields rest fields
  end.
End field_list.

Definition address_groups : list (bytes * list AddressField) :=
  [(B "%recipient", AddressField_RECIPIENT); (B "%delivered", AddressField_DELIVERED); (B "%sender", AddressField_SENDER)].
(** Source: config/parser.rs:2063-2076 `structured_condition_target (address names)` *)
Definition address_names : list (bytes * AddressField) := [
  (B "from", AF_From); (B "to", AF_To); (B "cc", AF_Cc); (B "sender", AF_Sender); (B "reply-to", AF_ReplyTo);
  (B "delivered-to", AF_DeliveredTo); (B "x-original-to", AF_XOriginalTo); (B "envelope-to", AF_EnvelopeTo);
  (B "resent-from", AF_ResentFrom); (B "resent-sender", AF_ResentSender); (B "resent-to", AF_ResentTo); (B "resent-cc", AF_ResentCc)].
(** Source: config/parser.rs:2115-2150 `structured_condition_target (identifier fields)` *)
Definition identifier_names : list (bytes * IdentifierField) :=
  [(B "list-id", IF_ListId); (B "message-id", IF_MessageId); (B "in-reply-to", IF_InReplyTo); (B "references", IF_References)].
(** Source: config/parser.rs:2172-2192 `structured_condition_target (keyword fields)` *)
Definition keyword_names : list (bytes * KeywordField) :=
  [(B "keywords", KF_Keywords); (B "x-label", KF_XLabel); (B "x-keywords", KF_XKeywords)].

(** Source: config/parser.rs `enum ConditionRegexTarget` *)
Inductive ConditionRegexTarget :=
| RT_Variable (name : bytes)
| RT_Area (area : ConditionInput)
| RT_Address (fields : list AddressField)
| RT_Identifier (fields : list IdentifierField)
| RT_Keyword (fields : list KeywordField).

(** What follows the keyword of a list of fields. *)
Definition after_keyword (keyword input : bytes) : option bytes :=
  rest ← strip_prefix input keyword;
  match rest with b :: _ => if is_ascii_whitespace b then Some (str_trim_start rest) else None | [] => None end.

(** One of the three forms: the list of fields, and the pattern after it. *)
Definition field_list_form (condition lists rest : bytes) (line : nat) (target : bytes -> result ParseError ConditionRegexTarget)
    : result ParseError (option (ConditionRegexTarget * bytes)) :=
  '(field_text, pattern) ← ok_or (parse_error line (condition ++ B " condition requires " ++ lists ++ B " ?? REGEX")) (split_once_at (B "??") rest);
  let field_text := str_trim field_text in
  if bool_decide (field_text = []) then Ok None
  else t ← target field_text; Ok (Some (t, str_trim_start pattern)).

(** Source: config/parser.rs `fn structured_condition_target` *)
Definition structured_condition_target (input : bytes) (line : nat) : result ParseError (option (ConditionRegexTarget * bytes)) :=
  let items text := split_on (Z.eqb c_COMMA) text in
  match after_keyword (B "address") input with
  | Some rest =>
      field_list_form (B "address") (B "FIELD-LIST") rest line (fun text =>
        RT_Address <$> add_fields (B "address") AddressField_name line address_groups address_names true (items text) [])
  | None =>
      match after_keyword (B "identifier") input with
      | Some rest =>
          field_list_form (B "identifier") (B "FIELD-LIST") rest line (fun text =>
            RT_Identifier <$> add_fields (B "identifier") IdentifierField_name line [(B "%thread", IdentifierField_THREAD)] identifier_names true (items text) [])
      | None =>
          match after_keyword (B "keyword") input with
          | Some rest =>
              field_list_form (B "keyword") (B "all|FIELD-LIST") rest line (fun text =>
                if eq_ignore_ascii_case text (B "all") then Ok (RT_Keyword KeywordField_ALL)
                else RT_Keyword <$> add_fields (B "keyword") KeywordField_name line [] keyword_names false (items text) [])
          | None => Ok None
          end
      end
  end.

(** Source: config/parser.rs `fn condition_regex_target` *)
Definition condition_regex_target (input : bytes) (line : nat) : result ParseError (option ConditionRegexTarget * bytes) :=
  let name := fst (span is_name_continue input) in
  match strip_prefix (str_trim_start (drop (length name) input)) (B "??") with
  | None => Ok (None, input)
  | Some pattern =>
      if negb (match name with b :: _ => (b =? c_UNDER) || is_ascii_uppercase b || is_ascii_lowercase b | [] => false end) then
        refuse line (B "variable condition has an invalid name")
      else if MAX_ASSIGNMENT_NAME_LEN <? len name then
        refuse line (B "variable name exceeds the hard limit of " ++ z_decimal MAX_ASSIGNMENT_NAME_LEN ++ B " bytes")
      else
        let target :=
          if bytes_eqb name (B "H") then RT_Area CI_Headers
          else if bytes_eqb name (B "B") then RT_Area CI_Body
          else if bytes_eqb name (B "HB") || bytes_eqb name (B "BH") then RT_Area CI_Message
          else RT_Variable name in
        Ok (Some target, str_trim_start pattern)
  end.

(** * Scores, sizes and programs *)

(** The loop of [is_scoring_number]. *)
Fixpoint scoring_digits (l : bytes) (has_digit has_point : bool) : bool :=
  match l with
  | [] => has_digit
  | b :: rest =>
      if is_ascii_digit b then scoring_digits rest true has_point
      else if (b =? c_DOT) && negb has_point then scoring_digits rest has_digit true else false
  end.
(** Source: config/parser.rs `fn is_scoring_number` *)
Definition is_scoring_number (input : bytes) : bool :=
  let unsigned := match strip_prefix input (B "+") with
                  | Some rest => rest
                  | None => default input (strip_prefix input (B "-"))
                  end in
  scoring_digits unsigned false false.
(** Source: config/parser.rs `fn has_scoring_prefix` *)
Definition has_scoring_prefix (input : bytes) : bool :=
  match split_once c_CARET input with
  | None => false
  | Some (weight, rest) => is_scoring_number (str_trim_end weight) && is_scoring_number (default [] (fst (cursor_word rest)))
  end.

(** The negations before a condition: whether they are odd in number, and the
    rest.  Every one takes a byte, so [length input] rounds are enough. *)
Fixpoint strip_bangs (fuel : nat) (negated : bool) (input : bytes) : bool * bytes :=
  match fuel with
  | O => (negated, input)
  | S fuel' =>
      match strip_prefix input (B "!") with
      | Some rest => strip_bangs fuel' (negb negated) (str_trim_start rest)
      | None => (negated, input)
      end
  end.
Definition negation (input : bytes) : bool * bytes := strip_bangs (length input) false input.
(** Source: config/parser.rs `fn condition_is_shell_expanded` *)
Definition condition_is_shell_expanded (input : bytes) : bool := starts_with (snd (negation (str_trim_start input))) (B "$").

Section conditions.
Context {T : Target} {R : RegexEngine} {RC : RegexCompiler}.

(** Source: config/parser.rs `fn parse_size` *)
Definition parse_condition_size (input : bytes) (line : nat) : result ParseError Z :=
  ok_or (parse_error line (B "size condition requires a non-negative integer")) (parse_usize (str_trim input)).

(** Source: config/parser.rs `fn validate_program_condition` *)
Definition validate_program_condition (command : bytes) (line : nat) : result ParseError () :=
  if bool_decide (command = []) then refuse line (B "program condition command is empty")
  else if MAX_PIPE_COMMAND_LEN <? len command then
    Err (parse_limit line (B "program condition command exceeds the hard limit of " ++ z_decimal MAX_PIPE_COMMAND_LEN ++ B " bytes"))
  else if existsb (Z.eqb 0) command then refuse line (B "program condition command contains NUL")
  else Ok tt.

(** * Multipart conditions *)

(** Source: config/parser.rs:2350-2359 `parse_multipart_check (selectors)` *)
Definition multipart_selectors : list (bytes * MultipartField) := [
  (B "%mimetype", MF_MimeType); (B "mimetype", MF_MimeType); (B "%mime-type", MF_MimeType); (B "mime-type", MF_MimeType);
  (B "%content-type", MF_MimeType); (B "content-type", MF_MimeType);
  (B "%disposition", MF_Disposition); (B "disposition", MF_Disposition);
  (B "%content-disposition", MF_Disposition); (B "content-disposition", MF_Disposition);
  (B "%filename", MF_Filename); (B "filename", MF_Filename); (B "%name", MF_Filename); (B "name", MF_Filename)].

(** Source: config/parser.rs `fn parse_multipart_check` *)
Definition parse_multipart_check (input : bytes) (line : nat) (case_sensitive : bool) (budget : ParseBudget) (recipe_regexes : nat)
    : result ParseError MultipartCheck :=
  '(field_text, pattern) ← ok_or (parse_error line (B "multipart condition requires <selector> ?? <regex>")) (split_once_at (B "??") input);
  let field_text := str_trim field_text in
  let field_text := match strip_prefix field_text (B "multipart") with
                    | Some rest => if starts_with_space rest then str_trim_start rest else field_text
                    | None => field_text
                    end in
  field ← ok_or (parse_error line (B "multipart condition does not support selector '" ++ field_text ++ B "'"))
            (table_lookup multipart_selectors (to_ascii_lowercase <$> field_text));
  _ ← check_regex budget recipe_regexes line;
  regex ← compile_condition_regex (str_trim_start pattern) line case_sensitive;
  Ok {| mc_field := field; mc_regex := regex |}.

(** The keyword, which a space or a brace ends. *)
Definition after_multipart (input : bytes) : option bytes :=
  rest ← strip_prefix input (B "multipart");
  if starts_with_space rest || starts_with rest (B "{") then Some (str_trim_start rest) else None.

(** Source: config/parser.rs `fn is_multipart_block_start` *)
Definition is_multipart_block_start (input : bytes) : option bool :=
  rest ← strip_prefix (str_trim_start input) (B "*");
  let '(negated, rest) := negation (str_trim_start rest) in
  after_kw ← after_multipart (str_trim rest);
  after_brace ← strip_prefix after_kw (B "{");
  let after_brace := str_trim after_brace in
  if bool_decide (after_brace = []) || starts_with after_brace [c_HASH] then Some negated else None.

Definition regexes_overflow (line : nat) : ParseError := parse_error line (B "recipe regex count overflows").
(** The loop of [parse_multipart_block] over the lines that are left. *)
Fixpoint parse_multipart_lines (lines : list bytes) (index opening : nat) (negated case_sensitive : bool) (recipe_regexes : nat)
    (state : ParseBudget) (checks : list MultipartCheck) : result ParseError (Condition * nat * nat) :=
  match lines with
  | [] => refuse (S opening) (B "multipart condition block has no closing '}'")
  | raw :: rest =>
      _ ← check_linebuf raw (S index) (rl_linebuf (pb_limits state));
      let text := str_trim raw in
      if is_blank_line text then parse_multipart_lines rest (S index) opening negated case_sensitive recipe_regexes state checks
      else if bytes_eqb text (B "}") then
        if bool_decide (length checks = 0%nat) then refuse (S opening) (B "multipart condition block cannot be empty")
        else Ok ({| cond_line := S opening; cond_negated := negated; cond_kind := CK_Multipart checks |}, recipe_regexes, S index)
      else
        check ← parse_multipart_check text (S index) case_sensitive state recipe_regexes;
        if existsb (fun c => bool_decide (mc_field c = mc_field check)) checks then
          refuse (S index) (B "multipart condition repeats selector '" ++ MultipartField_name (mc_field check) ++ B "'")
        else
          regexes ← ok_or (regexes_overflow (S index)) (checked_add recipe_regexes 1);
          parse_multipart_lines rest (S index) opening negated case_sensitive regexes state (checks ++ [check])
  end.
(** Source: config/parser.rs `fn parse_multipart_block` *)
Definition parse_multipart_block (lines : list bytes) (opening : nat) (negated case_sensitive : bool) (recipe_regexes : nat) (state : ParseBudget)
    : result ParseError (Condition * nat * nat) :=
  parse_multipart_lines (drop (S opening) lines) (S opening) opening negated case_sensitive recipe_regexes state [].

(** Source: config/parser.rs `fn parse_single_line_multipart` *)
Definition parse_single_line_multipart (input : bytes) (line : nat) (case_sensitive : bool) (recipe_regexes : nat) (budget : ParseBudget)
    : result ParseError (option (ConditionKind * bool)) :=
  let one text :=
    check ← parse_multipart_check text line case_sensitive budget recipe_regexes;
    Ok (Some (CK_Multipart [check], true)) in
  match after_multipart input with
  | None => Ok None
  | Some rest =>
      if bool_decide (rest = []) || starts_with rest (B "??") then Ok None
      else
        match strip_prefix rest (B "{") with
        | Some after_brace =>
            inner ← ok_or (parse_error line (B "multipart condition block has no closing '}'")) (strip_suffix (str_trim after_brace) (B "}"));
            let inner := str_trim inner in
            if bool_decide (inner = []) then refuse line (B "multipart condition block cannot be empty") else one inner
        | None => one rest
        end
  end.

(** * A condition *)

Definition targeted (target : option ConditionRegexTarget) (regex : RegexCondition) : ConditionKind :=
  match target with
  | Some (RT_Variable name) => CK_VariableRegex name regex
  | Some (RT_Area area) => CK_AreaRegex area regex
  | Some (RT_Address fields) => CK_AddressRegex fields regex
  | Some (RT_Identifier fields) => CK_IdentifierRegex fields regex
  | Some (RT_Keyword fields) => CK_KeywordRegex fields regex
  | None => CK_Regex regex
  end.

(** The last form of a condition.
    Source: config/parser.rs:1541-1569 `parse_condition (regular expression)` *)
Definition parse_regex_condition (input : bytes) (line : nat) (case_sensitive : bool) (recipe_regexes : nat) (budget : ParseBudget)
    : result ParseError (ConditionKind * bool) :=
  _ ← check_regex budget recipe_regexes line;
  structured ← structured_condition_target input line;
  '(target, pattern) ← match structured with
                       | Some (target, pattern) => Ok (Some target, pattern)
                       | None => condition_regex_target input line
                       end;
  regex ← compile_condition_regex pattern line case_sensitive;
  Ok (targeted target regex, true).

(** The forms a character starts.
    Source: config/parser.rs:1525-1540 `parse_condition (marked forms)` *)
Definition parse_marked_condition (input : bytes) (line : nat) : option (result ParseError (ConditionKind * bool)) :=
  match input with
  | b :: value =>
      if b =? c_DOLLAR then Some (Ok (CK_ShellExpanded {| se_source := value; se_expansion := None |}, true))
      else if b =? c_LT then Some (size ← parse_condition_size value line; Ok (CK_SmallerThan size, false))
      else if b =? c_GT then Some (size ← parse_condition_size value line; Ok (CK_LargerThan size, false))
      else if b =? c_QM then
        let command := str_trim_start value in
        Some (_ ← validate_program_condition command line; Ok (CK_Program command, false))
      else None
  | [] => None
  end.

(** Source: config/parser.rs `fn parse_condition` *)
Definition parse_condition (input : bytes) (line : nat) (case_sensitive : bool) (recipe_regexes : nat) (budget : ParseBudget)
    : result ParseError (Condition * bool) :=
  let '(negated, input) := negation (str_trim input) in
  if bool_decide (input = []) then refuse line (B "condition is empty")
  else if has_scoring_prefix input then refuse line (B "weighted recipe conditions are not supported")
  else
    multipart ← parse_single_line_multipart input line case_sensitive recipe_regexes budget;
    '(kind, is_regex) ←
      match multipart with
      | Some parsed => Ok parsed
      | None => default (parse_regex_condition input line case_sensitive recipe_regexes budget) (parse_marked_condition input line)
      end;
    Ok ({| cond_line := line; cond_negated := negated; cond_kind := kind |}, is_regex).

(** Source: config/parser.rs `fn parse_reparsed_condition` *)
Definition parse_reparsed_condition (input : bytes) (line : nat) (case_sensitive : bool) : result ParseError Condition :=
  fst <$> parse_condition input line case_sensitive 0 empty_budget.
End conditions.
