(* ===== verification/RcParser.v ===== *)
(** The rc parser: [parse] of [src/src/config/parser.rs] with the statements,
    recipes and actions of an rc file.  The lines are given, and a position is an
    index of a line; every statement goes through the budget of the parse.

    The loop of the code moves an index over the lines; here it is a recursion
    over the lines that are left, which steps over those before [resume]
    ([RcParserFacts.parse_statements_resume]: that is a loop from [resume]). *)
From S2P Require Import Prelude Numbers Config Limits Utf8 Variables ShellEval ExprParser Syntax HeaderSyntax RegexSyntax ConditionSyntax.
#[local] Open Scope Z_scope.

(** * Assignments *)

(** The text of an expression that is literal.
    Source: config/mod.rs `pub(crate) fn literal_text` *)
Fixpoint literal_parts (ps : list ShellPart) : option bytes :=
  match ps with
  | [] => Some []
  | Literal text :: rest => value ← literal_parts rest; Some (text ++ value)
  | _ :: _ => None
  end.
Definition literal_text (e : ShellExpression) : option bytes := literal_parts (parts e).

Section settings.
Context {T : Target} {R : RegexEngine}.

(** Source: config/parser.rs `fn apply_rc_limit` *)
Definition apply_rc_limit (a : Assignment) (limits : RcLimits) : result ParseError RcLimits :=
  match as_target a with
  | RcLimit kind =>
      value ← ok_or (parse_error (as_line a) (as_name a ++ B " must be an unsigned decimal integer")) (parse_usize (as_value a));
      map_err (fun hard => parse_limit (as_line a) (as_name a ++ B " exceeds the hard limit of " ++ z_decimal hard)) (set_rc_limit limits kind value)
  | _ => Ok limits
  end.

Definition with_linebuf (value : Z) (l : RcLimits) : RcLimits :=
  {| rl_assignments := rl_assignments l; rl_statements := rl_statements l; rl_recipes := rl_recipes l; rl_conditions := rl_conditions l;
     rl_regexes := rl_regexes l; rl_conditions_per_recipe := rl_conditions_per_recipe l; rl_nesting_depth := rl_nesting_depth l; rl_linebuf := value |}.
(** Source: config/parser.rs `fn apply_linebuf` *)
Definition apply_linebuf (a : Assignment) (limits : RcLimits) : result ParseError RcLimits :=
  if negb (bool_decide (as_target a = LineBuf)) then Ok limits
  else
    value ← ok_or (parse_error (as_line a) (B "LINEBUF must be an unsigned decimal integer")) (parse_usize (as_value a));
    if negb (between MIN_LINEBUF MAX_LINEBUF value) then
      Err (parse_limit (as_line a) (B "LINEBUF must be from " ++ z_decimal MIN_LINEBUF ++ B " through " ++ z_decimal MAX_LINEBUF ++ B " bytes"))
    else Ok (with_linebuf value limits).

(** Source: config/parser.rs `fn apply_assignment` *)
Definition apply_assignment (b : ParseBudget) (a : Assignment) : result ParseError ParseBudget :=
  limits ← apply_rc_limit a (pb_limits b); replace_limits b <$> apply_linebuf a limits.
(** Source: config/parser.rs `fn apply_unset` *)
Definition apply_unset (b : ParseBudget) (u : Unset) : ParseBudget :=
  match un_target u with
  | RcLimit kind => replace_limits b (reset_rc_limit (pb_limits b) kind)
  | LineBuf => replace_limits b (with_linebuf DEFAULT_LINEBUF (pb_limits b))
  | _ => b
  end.

(** The target an rc file gives a name. *)
Definition rc_target (name : bytes) (line : nat) (what : bytes) : result ParseError AssignmentTarget :=
  match variable_policy name with
  | Unsupported => Err (not_supported line name)
  | policy => ok_or (parse_error line (B "variable " ++ name ++ B " cannot be " ++ what)) (assignment_target policy VS_RcFile)
  end.

Definition of_expansion {A} : result ExpansionError A -> result ParseError A :=
  map_err (fun error => parse_error (ex_line error) (ex_message error)).

(** What follows the name of an assignment.
    Source: config/parser.rs:454-500 `parse_assignment (value and target)` *)
Definition assign_value (name value : bytes) (line : nat) : result ParseError Assignment :=
  parsed ← of_expansion (parse_assignment_word (str_trim_start value) line);
  if MAX_ASSIGNMENT_VALUE_LEN <? len (pw_source parsed) then
    refuse line (B "assignment value exceeds the hard limit of " ++ z_decimal MAX_ASSIGNMENT_VALUE_LEN ++ B " bytes")
  else
    target ← rc_target name line (B "assigned in an rc file");
    let value := if controls_rc_parsing target then default (pw_source parsed) (literal_text (pw_expression parsed)) else pw_source parsed in
    let limit := value_limit target in
    if limit <? len value then
      refuse line (name ++ B " " ++ (if uses_path_error_label target then B "path" else B "value") ++ B " exceeds the hard limit of " ++ z_decimal limit ++ B " bytes")
    else Ok {| as_line := line; as_name := name; as_value := value; as_target := target; as_expansion := Some (pw_expression parsed) |}.

(** Source: config/parser.rs:432-453 `parse_assignment` *)
Definition parse_assignment (text : bytes) (line : nat) : result ParseError (option Assignment) :=
  match (match split_once c_EQ text with
         | Some parts => Some parts
         | None => if bytes_eqb text (B "HOST") then Some (B "HOST", []) else None
         end) with
  | None => Ok None
  | Some (name, value) =>
      let name := str_trim name in
      if MAX_ASSIGNMENT_NAME_LEN <? len name then Err (name_too_long line)
      else if negb (valid_name name) then Ok None
      else Some <$> assign_value name value line
  end.

(** Source: config/parser.rs `fn parse_unset` *)
Definition parse_unset (text : bytes) (line : nat) : result ParseError (option Unset) :=
  if bytes_eqb text (B "HOST") || existsb (Z.eqb c_EQ) text then Ok None
  else
    let '(name, remainder) := match find_space text with
                              | Some offset => (take offset text, str_trim_start (drop offset text))
                              | None => (text, [])
                              end in
    if negb (bool_decide (remainder = [])) && negb (starts_with remainder [c_HASH]) then Ok None
    else if MAX_ASSIGNMENT_NAME_LEN <? len name then Err (name_too_long line)
    else if negb (valid_name name) then Ok None
    else
      target ← rc_target name line (B "unset in an rc file");
      Ok (Some {| un_line := line; un_name := name; un_target := target |}).

Definition unknown_location (line : nat) : SourceLocation := {| loc_line := line; loc_file := None; loc_truncated := false |}.
Definition rc_file_expression (a : Assignment) : RcFileExpression :=
  {| rf_location := unknown_location (as_line a); rf_value := as_value a; rf_expansion := as_expansion a |}.

(** The statement an assignment makes.
    Source: config/parser.rs:286-324 `parse_statements (assignment)` *)
Definition assignment_statement (a : Assignment) : result ParseError Statement :=
  if bytes_eqb (as_name a) (B "INCLUDERC") then Ok (S_Include (rc_file_expression a))
  else if bytes_eqb (as_name a) (B "SWITCHRC") then Ok (S_Switch (rc_file_expression a))
  else
    match as_expansion a with
    | Some expression =>
        if requires_ordered_evaluation expression then
          if controls_rc_parsing (as_target a) then
            refuse (as_line a) (B "variable " ++ as_name a ++ B " cannot be set from command output because it controls rc parsing")
          else
            Ok (S_CommandAssignment {| ca_line := as_line a; ca_name := as_name a; ca_source := as_value a; ca_target := as_target a; ca_expression := expression |})
        else Ok (S_Assignment a)
    | None => Ok (S_Assignment a)
    end.

(** A line that is no recipe: the statement, and the budget after it.
    Source: config/parser.rs:275-350 `parse_statements (assignment, unset)` *)
Definition parse_setting (raw : bytes) (line : nat) (depth : nat) (state : ParseBudget) : result ParseError (Statement * ParseBudget) :=
  let inside (target : AssignmentTarget) := negb (depth =? 0)%nat && controls_rc_parsing target in
  assigned ← parse_assignment (str_trim_start raw) line;
  match assigned with
  | Some a =>
      state ← charge_assignment state line AU_Statement;
      if inside (as_target a) then refuse line (B "variable " ++ as_name a ++ B " cannot be assigned inside a recipe block")
      else
        statement ← assignment_statement a;
        state ← match statement with S_Assignment a => apply_assignment state a | _ => Ok state end;
        Ok (statement, state)
  | None =>
      unset ← parse_unset (str_trim raw) line;
      match unset with
      | Some u =>
          state ← charge_assignment state line AU_Statement;
          if inside (un_target u) then refuse line (B "variable " ++ un_name u ++ B " cannot be unset inside a recipe block")
          else Ok (S_Unset u, apply_unset state u)
      | None => refuse line (B "expected an assignment or a recipe beginning with ':0'")
      end
  end.
End settings.

(** * The header of a recipe *)

(** Source: config/parser.rs `fn strip_comment` *)
Definition strip_comment (value : bytes) : bytes := match split_once c_HASH value with Some (before, _) => before | None => value end.
(** Source: config/parser.rs `fn check_path_length` *)
Definition check_path_length (path : bytes) (line : nat) (description : bytes) : result ParseError () :=
  if MAX_PATH_EXPRESSION_LEN <? len path then
    refuse line (description ++ B " exceeds the hard limit of " ++ z_decimal MAX_PATH_EXPRESSION_LEN ++ B " bytes")
  else Ok tt.
(** Source: config/parser.rs `fn required_path` *)
Definition required_path (path : bytes) (line : nat) (description : bytes) : result ParseError bytes :=
  let path := str_trim path in
  if bool_decide (path = []) then refuse line (B "destination path is empty")
  else _ ← check_path_length path line description; Ok path.

(** [flags.contains(flag)], with the flag as text. *)
Definition has_flag (flags flag : bytes) : bool := bool_decide (is_Some (find_window flag flags)).

(** The options a set of flags stands for.
    Source: config/parser.rs:1429-1486 `parse_recipe_header (options)` *)
Definition recipe_options (flags : bytes) : RecipeOptions :=
  let has flag := has_flag flags (B flag) in
  {| condition_input := match has "H", has "B" with false, true => CI_Body | true, true => CI_Message | _, _ => CI_Headers end;
     case_mode := if has "D" then Sensitive else Insensitive;
     control := if has "A" then AfterChainMatch else if has "a" then AfterPreviousSuccess
                else if has "E" then Else else if has "e" then AfterPreviousError else Independent;
     action_input := match has "h", has "b" with true, false => AI_Headers | false, true => AI_Body | _, _ => AI_Message end;
     action_mode := if has "f" then Filter_ else Deliver_;
     continuation := if has "c" then CM_Continue else CM_Stop;
     child_status := if has "w" then CS_Wait else if has "W" then CS_WaitQuietly else CS_Ignore;
     write_errors := if has "i" then WE_Ignore else WE_Fail;
     output_ending := if has "r" then Preserve else Normalize |}.

Definition is_ascii_alphabetic (b : byte) : bool := is_ascii_uppercase b || is_ascii_lowercase b.
(** The checks of the flags.
    Source: config/parser.rs:1393-1428 `parse_recipe_header (flags)` *)
Definition check_flags (flags : bytes) (line : nat) : result ParseError () :=
  if negb (forallb is_ascii_alphabetic flags) then refuse line (B "invalid recipe flags")
  else
    match List.find (fun flag => negb (existsb (Z.eqb flag) (B "HBDcAaEehbfwWir"))) flags with
    | Some flag => refuse line (B "recipe flag '" ++ [flag] ++ B "' is not supported yet")
    | None =>
        match List.filter (fun flag => existsb (Z.eqb flag) flags) (B "AaEe") with
        | first :: second :: _ => refuse line (B "recipe control flags '" ++ [first] ++ B "' and '" ++ [second] ++ B "' cannot be combined")
        | _ =>
            if has_flag flags (B "w") && has_flag flags (B "W") then refuse line (B "recipe flags 'w' and 'W' cannot be combined")
            else Ok tt
        end
    end.

(** Source: config/parser.rs `fn parse_recipe_header` *)
Definition parse_recipe_header (rest : bytes) (line : nat) : result ParseError (RecipeOptions * option bytes * bytes) :=
  let rest := str_trim (strip_comment rest) in
  '(flags, lock) ← match split_once c_COLON rest with
                   | Some (flags, lock) =>
                       let lock := str_trim lock in
                       _ ← check_path_length lock line (B "lockfile path"); Ok (str_trim flags, Some lock)
                   | None => Ok (rest, None)
                   end;
  _ ← check_flags flags line;
  Ok (recipe_options flags, lock, flags).

(** * Continued lines *)

Section lines.
Context {T : Target} {R : RegexEngine} {RC : RegexCompiler}.

Section continued.
Context (start : nat) (linebuf : Z).

Section command.
Context (description : bytes).
(** The loop of [parse_command_continuation]: the line that was read, what of it
    belongs to the command, and the lines after it. *)
Fixpoint continue_command (rest : list bytes) (index : nat) (raw physical command : bytes) : result ParseError (bytes * nat) :=
  let overflow := parse_error (S start) (description ++ B " size overflows") in
  _ ← check_linebuf raw (S index) linebuf;
  added ← ok_or overflow (checked_add (length physical) (if ends_with_backslash physical then 1 else 0));
  new_len ← ok_or overflow (checked_add (length command) added);
  if linebuf <? Z.of_nat new_len then
    Err (parse_limit (S start) (B "expanded rc line exceeds the active LINEBUF limit of " ++ z_decimal linebuf ++ B " bytes"))
  else if MAX_PIPE_COMMAND_LEN <? Z.of_nat new_len then
    Err (parse_limit (S start) (description ++ B " exceeds the hard limit of " ++ z_decimal MAX_PIPE_COMMAND_LEN ++ B " bytes"))
  else
    let command := command ++ physical in
    if negb (ends_with_backslash physical) then
      if bool_decide (command = []) then refuse (S start) (description ++ B " is empty")
      else if existsb (Z.eqb 0) command then refuse (S start) (B "pipe command contains NUL")
      else Ok (command, S index)
    else
      next ← ok_or (parse_error (S start) (B "rc line index overflows")) (checked_add index 1);
      match rest with
      | [] => refuse (S start) (description ++ B " continuation is incomplete")
      | raw :: rest => continue_command rest next raw raw (command ++ [c_LF])
      end.
End command.

(** The loop of [parse_condition_continuation]. *)
Fixpoint continue_condition (keeps_indentation : bool) (rest : list bytes) (index : nat) (raw physical condition : bytes) : result ParseError (bytes * nat) :=
  _ ← check_linebuf raw (S index) linebuf;
  let fragment := default physical (strip_suffix physical [c_BSLASH]) in
  new_len ← ok_or (parse_error (S start) (B "recipe condition size overflows")) (checked_add (length condition) (length fragment));
  if linebuf <? Z.of_nat new_len then
    Err (parse_limit (S start) (B "continued recipe condition exceeds the active LINEBUF limit of " ++ z_decimal linebuf ++ B " bytes"))
  else
    let condition := condition ++ fragment in
    if negb (ends_with_backslash physical) then Ok (condition, S index)
    else
      next ← ok_or (parse_error (S start) (B "rc line index overflows")) (checked_add index 1);
      match rest with
      | [] => refuse (S start) (B "recipe condition continuation is incomplete")
      | raw :: rest => continue_condition keeps_indentation rest next raw (if keeps_indentation then raw else str_trim_start raw) condition
      end.
End continued.

Context (lines : list bytes).
Definition line_at (index : nat) : bytes := default [] (lines !! index).

(** Source: config/parser.rs `fn parse_command_continuation` *)
Definition parse_command_continuation (start : nat) (first : bytes) (linebuf : Z) (description : bytes) : result ParseError (bytes * nat) :=
  continue_command start linebuf description (drop (S start) lines) start (line_at start) first [].
(** Source: config/parser.rs `fn parse_pipe_command` *)
Definition parse_pipe_command (start : nat) (linebuf : Z) : result ParseError (bytes * nat) :=
  let physical := str_trim_start (drop 1 (str_trim_start (line_at start))) in
  if bool_decide (physical = []) then Ok ([], S start)
  else parse_command_continuation start physical linebuf (B "pipe command").
(** Source: config/parser.rs `fn parse_condition_continuation` *)
Definition parse_condition_continuation (start : nat) (linebuf : Z) : result ParseError (bytes * nat) :=
  first ← ok_or (parse_error (S start) (B "recipe condition does not begin with '*'")) (strip_prefix (str_trim_start (line_at start)) (B "*"));
  continue_condition start linebuf (condition_is_shell_expanded first) (drop (S start) lines) start (line_at start) first [].

(** * Destinations and captures *)

(** The loop of [destination_has_literal_whitespace]. *)
Fixpoint literal_whitespace (l : bytes) (in_command escaped : bool) : bool :=
  match l with
  | [] => false
  | b :: rest =>
      if escaped then literal_whitespace rest in_command false
      else if b =? c_BSLASH then literal_whitespace rest in_command true
      else if b =? c_BACKQUOTE then literal_whitespace rest (negb in_command) escaped
      else if negb in_command && is_ascii_whitespace b then true
      else literal_whitespace rest in_command escaped
  end.
(** Source: config/parser.rs `fn destination_has_literal_whitespace` *)
Definition destination_has_literal_whitespace (action : bytes) : bool := literal_whitespace action false false.
(** Source: config/parser.rs `fn validate_destination_syntax` *)
Definition validate_destination_syntax (action : bytes) (line : nat) : result ParseError () :=
  if negb (starts_with action (B "mbox:")) && negb (starts_with action (B "maildir:")) && destination_has_literal_whitespace action then
    refuse line (B "multiple unmarked mailbox destinations are not supported")
  else Ok tt.

(** Source: config/parser.rs `fn destination_path_expression` *)
Definition destination_path_expression (source : bytes) (line : nat) (typed_destination : bool) : result ParseError PathExpression :=
  expansion ← of_expansion (parse_command_expression source line);
  Ok {| pe_source := source; pe_base := None; pe_location := unknown_location line; pe_runtime_dependent := bool_decide (is_Some expansion);
        pe_runtime_base := false; pe_typed_destination := typed_destination; pe_expansion := expansion |}.

(** Source: config/mod.rs `impl From<String> for PathExpression` *)
Definition literal_path (source : bytes) : PathExpression :=
  {| pe_source := source; pe_base := None; pe_location := {| loc_line := 0; loc_file := None; loc_truncated := false |};
     pe_runtime_dependent := false; pe_runtime_base := false; pe_typed_destination := false; pe_expansion := None |}.

(** Source: config/parser.rs `fn parse_capture_action_prefix` *)
Definition parse_capture_action_prefix (action : bytes) (line : nat) : result ParseError (option (bytes * AssignmentTarget)) :=
  match split_once_at (B "=|") action with
  | None => Ok None
  | Some (name, _) =>
      let name := str_trim name in
      if negb (valid_name name) then Ok None
      else if MAX_ASSIGNMENT_NAME_LEN <? len name then Err (name_too_long line)
      else target ← rc_target name line (B "assigned"); Ok (Some (name, target))
  end.

(** The destination a path stands for, by its mark or its last character.
    Source: config/parser.rs:733-771 `parse_recipe (destination)` *)
Definition parse_destination (action : bytes) (line : nat) : result ParseError Destination :=
  let path_of source typed := path ← required_path source line (B "destination path"); destination_path_expression path line typed in
  match strip_prefix action (B "mbox:") with
  | Some path => D_Mbox <$> path_of path true
  | None =>
      match strip_prefix action (B "maildir:") with
      | Some path => D_Maildir <$> path_of path true
      | None => if ends_with action (B "/") then D_Maildir <$> path_of action false else D_File <$> path_of action false
      end
  end.
End lines.

(** * Recipes *)

Section recipes.
Context {T : Target} {R : RegexEngine} {RC : RegexCompiler} (lines : list bytes).

(** The loop of [parse_recipe] over its conditions: the conditions, how many are
    regular expressions, and the index of the line that is no condition.
    Source: config/parser.rs:560-611 `parse_recipe (conditions)` *)
Fixpoint parse_conditions (rest : list bytes) (index resume : nat) (case_sensitive : bool) (state : ParseBudget)
    (conditions : list Condition) (regex_count : nat) {struct rest} : result ParseError (list Condition * nat * nat) :=
  match rest with
  | [] => Ok (conditions, regex_count, index)
  | raw :: rest =>
      if (index <? resume)%nat then parse_conditions rest (S index) resume case_sensitive state conditions regex_count
      else
        _ ← check_linebuf raw (S index) (rl_linebuf (pb_limits state));
        let line := str_trim raw in
        if is_blank_line line then parse_conditions rest (S index) resume case_sensitive state conditions regex_count
        else if starts_with line (B "*") then
          _ ← check_condition state (length conditions) (S index);
          match is_multipart_block_start line with
          | Some negated =>
              '(condition, regexes, next) ← parse_multipart_block lines index negated case_sensitive regex_count state;
              parse_conditions rest (S index) next case_sensitive state (conditions ++ [condition]) regexes
          | None =>
              '(source, next) ← parse_condition_continuation lines index (rl_linebuf (pb_limits state));
              '(condition, is_regex) ← parse_condition source (S index) case_sensitive regex_count state;
              regexes ← ok_or (regexes_overflow (S index)) (checked_add regex_count (if (is_regex : bool) then 1 else 0));
              parse_conditions rest (S index) next case_sensitive state (conditions ++ [condition]) regexes
          end
        else Ok (conditions, regex_count, index)
  end.

Definition is_command_condition (c : Condition) : bool :=
  match cond_kind c with CK_Program _ | CK_ShellExpanded _ => true | _ => false end.

(** What an action line is, by its first characters. *)
Inductive ActionForm := Form_Capture (name : bytes) (target : AssignmentTarget) | Form_Pipe | Form_Headers | Form_Block | Form_Deliver.
Definition action_form (action : bytes) (capture : option (bytes * AssignmentTarget)) : ActionForm :=
  match capture with
  | Some (name, target) => Form_Capture name target
  | None =>
      if starts_with action (B "|") then Form_Pipe
      else if bytes_eqb action (B "headers {") then Form_Headers
      else if bytes_eqb action (B "{") then Form_Block else Form_Deliver
  end.

(** The line of an action.
    Source: config/parser.rs:624-646 `parse_recipe (action line)` *)
Definition check_action_line (action : bytes) (start index : nat) : result ParseError () :=
  if starts_with action (B "!") then refuse (S index) (B "forward actions are not supported")
  else if bytes_eqb action (B "}") then refuse (S index) (B "closing recipe block has no matching opening block")
  else if starts_with action (B ":") then refuse (S start) (B "recipe has no action")
  else if bool_decide (action = []) then refuse (S index) (B "recipe action is empty")
  else Ok tt.

(** The options an action can have; those a headers action gets.
    Source: config/parser.rs:648-697 `parse_recipe (options)` *)
Definition check_action_options (action : bytes) (is_pipe is_capture is_headers : bool) (conditions : list Condition) (options : RecipeOptions)
    (flags : bytes) (lock : option bytes) (start index : nat) : result ParseError RecipeOptions :=
  let is_command := is_pipe || is_capture in
  let is_block := bytes_eqb action (B "{") in
  _ ← (if negb is_command && negb is_headers && negb is_block then validate_destination_syntax action (S index) else Ok tt);
  options ← (if (is_headers : bool) then
               _ ← validate_header_action_recipe flags lock (S start);
               Ok {| condition_input := condition_input options; case_mode := case_mode options; control := control options;
                     action_input := action_input options; action_mode := action_mode options; continuation := CM_Continue;
                     child_status := child_status options; write_errors := write_errors options; output_ending := output_ending options |}
             else Ok options);
  if negb is_command && negb is_headers && negb is_block && match write_errors options with WE_Ignore => true | WE_Fail => false end then
    refuse (S start) (B "recipe flag 'i' is not supported for filesystem delivery because it may publish an incomplete message")
  else if negb is_command && negb is_headers &&
          (negb (bool_decide (action_input options = AI_Message)) || negb (bool_decide (action_mode options = Deliver_)) ||
           (negb (existsb is_command_condition conditions) && negb is_block &&
            (negb (bool_decide (child_status options = CS_Ignore)) || match write_errors options with WE_Fail => false | WE_Ignore => true end))) then
    refuse (S start) (B "flags h, b, and f require a pipe action; flags w and W require a pipe action or program condition")
  else Ok options.

(** An action that is parsed, or the depth of the block that it opens. *)
Inductive ParsedAction := PA_Action (action : RecipeAction) (next : nat) | PA_Block (depth : nat).

(** Source: config/parser.rs:699-771 `parse_recipe (action)` *)
Definition parse_action (action : bytes) (capture : option (bytes * AssignmentTarget)) (options : RecipeOptions) (lock : option bytes)
    (start index depth : nat) (state : ParseBudget) : result ParseError (ParsedAction * ParseBudget) :=
  let linebuf := rl_linebuf (pb_limits state) in
  match action_form action capture with
  | Form_Capture name target =>
      state ← charge_assignment state (S index) AU_CaptureAction;
      '(_, command) ← ok_or (parse_error (S index) (B "capture action is malformed")) (split_once_at (B "=|") action);
      '(command, next) ← parse_command_continuation lines index (str_trim_start command) linebuf (B "capture action command");
      Ok (PA_Action (RA_Capture {| cap_line := S index; cap_name := name; cap_target := target; cap_command := command |}) next, state)
  | Form_Pipe =>
      '(command, next) ← parse_pipe_command lines index linebuf;
      if bool_decide (command = []) && bool_decide (action_mode options = Filter_) then
        refuse (S index) (B "recipe flag 'f' requires a pipe command")
      else Ok (PA_Action (RA_Pipe {| pipe_command := command |}) next, state)
  | Form_Headers =>
      '(headers, next) ← parse_header_action lines index linebuf;
      Ok (PA_Action (RA_Headers headers) next, state)
  | Form_Block =>
      next_depth ← check_nesting state depth (S index);
      if bool_decide (lock = Some []) then refuse (S start) (B "an implicit local lockfile cannot be derived for a recipe block")
      else Ok (PA_Block next_depth, state)
  | Form_Deliver =>
      if starts_with action (B "{") then refuse (S index) (B "opening recipe block must be a standalone '{' action")
      else destination ← parse_destination action (S index); Ok (PA_Action (RA_Deliver destination) (S index), state)
  end.

(** A recipe up to its action: what the action makes of it, the action, and the
    index of its line. *)
Record RecipeHead := { rh_action_line : nat; rh_options : RecipeOptions; rh_lock : option bytes; rh_conditions : list Condition; rh_action : ParsedAction }.
Definition recipe_of (start : nat) (h : RecipeHead) (action : RecipeAction) : Recipe :=
  MkRecipe (S start) (S (rh_action_line h)) (rh_options h) (literal_path <$> rh_lock h) (rh_conditions h) action.

(** Source: config/parser.rs `fn parse_recipe(` *)
Definition parse_recipe_head (start depth : nat) (state : ParseBudget) : result ParseError (RecipeHead * ParseBudget) :=
  rest ← ok_or (parse_error (S start) (B "only ':0' recipes are supported")) (strip_prefix (str_trim (line_at lines start)) (B ":0"));
  '(options, lock, flags) ← parse_recipe_header rest (S start);
  let case_sensitive := match case_mode options with Sensitive => true | Insensitive => false end in
  '(conditions, regex_count, index) ← parse_conditions (drop (S start) lines) (S start) (S start) case_sensitive state [] 0;
  raw ← ok_or (parse_error (S start) (B "recipe has no action")) (lines !! index);
  _ ← check_linebuf raw (S index) (rl_linebuf (pb_limits state));
  let action := str_trim raw in
  state ← record_recipe_contents state (length conditions) regex_count (S start);
  _ ← check_action_line action start index;
  capture ← parse_capture_action_prefix action (S index);
  options ← check_action_options action (starts_with action (B "|")) (bool_decide (is_Some capture)) (bytes_eqb action (B "headers {"))
              conditions options flags lock start index;
  '(parsed, state) ← parse_action action capture options lock start index depth state;
  Ok ({| rh_action_line := index; rh_options := options; rh_lock := lock; rh_conditions := conditions; rh_action := parsed |}, state).

(** Source: config/parser.rs `fn parse_statements` *)
Fixpoint parse_statements (rest : list bytes) (index resume depth : nat) (state : ParseBudget) (statements : list Statement) {struct rest}
    : result ParseError (list Statement * nat * ParseBudget) :=
  match rest with
  | [] => if (0 <? depth)%nat then refuse (Nat.max (length lines) 1) (B "recipe block has no closing brace") else Ok (statements, index, state)
  | raw :: rest =>
      if (index <? resume)%nat then parse_statements rest (S index) resume depth state statements
      else
        _ ← check_linebuf raw (S index) (rl_linebuf (pb_limits state));
        let line := str_trim raw in
        if is_blank_line line then parse_statements rest (S index) resume depth state statements
        else if bytes_eqb line (B "}") then
          if (depth =? 0)%nat then refuse (S index) (B "closing recipe block has no matching opening block")
          else Ok (statements, S index, state)
        else
          _ ← check_statement state (S index);
          if starts_with line (B ":") then
            state ← charge_recipe state (S index);
            '(head, state) ← parse_recipe_head index depth state;
            match rh_action head with
            | PA_Action action next => parse_statements rest (S index) next depth state (statements ++ [S_Recipe (recipe_of index head action)])
            | PA_Block next_depth =>
                '(block, next, state) ← parse_statements rest (S index) (S (rh_action_line head)) next_depth state [];
                parse_statements rest (S index) next depth state (statements ++ [S_Recipe (recipe_of index head (RA_Block block))])
            end
          else
            '(statement, state) ← parse_setting raw (S index) depth state;
            parse_statements rest (S index) resume depth state (statements ++ [statement])
  end.
End recipes.

Section parse.
Context {T : Target} {R : RegexEngine} {RC : RegexCompiler}.

(** Source: config/parser.rs `pub(crate) fn parse_with_state` *)
Definition parse_with_state (input : bytes) (state : ParseBudget) : result ParseError (Config * ParseBudget) :=
  if MAX_RC_SIZE <? len input then Err (parse_limit 1 (B "rc file exceeds the hard limit of " ++ z_decimal MAX_RC_SIZE ++ B " bytes"))
  else
    let lines := str_lines input in
    '(statements, _, after) ← parse_statements lines lines 0 0 0 state [];
    counts ← subtract_counts (pb_counts after) (pb_counts state);
    Ok ({| statements := statements; cfg_source_location := {| loc_line := 0; loc_file := None; loc_truncated := false |};
           initial_variables := []; parse_counts := counts; initial_linebuf := rl_linebuf (pb_limits state) |}, after).
(** Source: config/parser.rs `pub fn parse(input` *)
Definition parse (input : bytes) : result ParseError Config := fst <$> parse_with_state input empty_budget.
End parse.
