(* ===== verification/RcParserFacts.v ===== *)
(** What the rc parser builds ([RcParser]): a relation between the statements
    and the budget before and after them, without lines and indexes; the counts
    of a parse, which are those of the tree; and the limits it keeps. *)
From S2P Require Import Prelude Numbers Config Limits Utf8 Variables ShellEval ExprParser Syntax HeaderSyntax RegexSyntax ConditionSyntax RcParser.
#[local] Open Scope Z_scope.

(** * The relation of a parse *)

Section parsed.
Context {T : Target} {R : RegexEngine} {RC : RegexCompiler} (lines : list bytes).

(** Statements at a depth, with the budget they start and end with. *)
Inductive Parsed : nat -> ParseBudget -> list Statement -> ParseBudget -> Prop :=
| Parsed_nil depth s : Parsed depth s [] s
| Parsed_setting depth s raw line statement s1 rest s2 :
    check_statement s line = Ok tt -> parse_setting raw line depth s = Ok (statement, s1) ->
    Parsed depth s1 rest s2 -> Parsed depth s (statement :: rest) s2
| Parsed_action depth s start s1 head s2 action next rest s3 :
    check_statement s (S start) = Ok tt -> charge_recipe s (S start) = Ok s1 -> parse_recipe_head lines start depth s1 = Ok (head, s2) ->
    rh_action head = PA_Action action next -> Parsed depth s2 rest s3 ->
    Parsed depth s (S_Recipe (recipe_of start head action) :: rest) s3
| Parsed_block depth s start s1 head s2 next_depth block s3 rest s4 :
    check_statement s (S start) = Ok tt -> charge_recipe s (S start) = Ok s1 -> parse_recipe_head lines start depth s1 = Ok (head, s2) ->
    rh_action head = PA_Block next_depth -> Parsed next_depth s2 block s3 -> Parsed depth s3 rest s4 ->
    Parsed depth s (S_Recipe (recipe_of start head (RA_Block block)) :: rest) s4.

Definition builds (depth : nat) (s : ParseBudget) (before : list Statement) (parsed : list Statement * nat * ParseBudget) : Prop :=
  exists built, parsed.1.1 = before ++ built /\ Parsed depth s built parsed.2.
Lemma builds_cons depth s before statement parsed :
  (exists rest, parsed.1.1 = (before ++ [statement]) ++ rest /\ Parsed depth s (statement :: rest) parsed.2) -> builds depth s before parsed.
Proof. intros (rest & H & Hp). exists (statement :: rest). by rewrite H, <-app_assoc. Qed.

Lemma parse_statements_parsed rest : forall index resume depth s before parsed,
  parse_statements lines rest index resume depth s before = Ok parsed -> builds depth s before parsed.
Proof.
  induction rest as [|raw rest IH]; intros index resume depth s before parsed H; cbn [parse_statements] in H.
  { destruct (0 <? depth)%nat; [done|]. injection H as <-. exists []. rewrite app_nil_r. by repeat constructor. }
  destruct (index <? resume)%nat; [by eapply IH|].
  apply result_bind_Ok in H as (_ & _ & H). destruct (is_blank_line (str_trim raw)); [by eapply IH|].
  destruct (bytes_eqb (str_trim raw) (B "}")).
  { destruct (depth =? 0)%nat; [done|]. injection H as <-. exists []. rewrite app_nil_r. by repeat constructor. }
  apply result_bind_Ok in H as ([] & Hcheck & H). destruct (starts_with (str_trim raw) (B ":")).
  - apply result_bind_Ok in H as (s1 & Hcharge & H). apply result_bind_Ok in H as ([head s2] & Hhead & H).
    destruct (rh_action head) as [action next|next_depth] eqn:Ha.
    + apply IH in H as (built & ? & ?). eapply builds_cons. exists built. split; [done|]. by eapply Parsed_action.
    + apply result_bind_Ok in H as ([[block next] s3] & Hblock & H). apply IH in Hblock as (b & Hb & Hp). cbn in Hb, Hp. subst block.
      apply IH in H as (built & ? & ?). eapply builds_cons. exists built. split; [done|]. by eapply Parsed_block.
  - apply result_bind_Ok in H as ([statement s1] & Hset & H). apply IH in H as (built & ? & ?).
    eapply builds_cons. exists built. split; [done|]. by eapply Parsed_setting.
Qed.
End parsed.

(** * The counts of a tree *)

Section recount.
Context {R : RegexEngine}.

Definition counts_plus (a b : RcParseCounts) : RcParseCounts :=
  {| pc_assignments := pc_assignments a + pc_assignments b; pc_statements := pc_statements a + pc_statements b;
     pc_recipes := pc_recipes a + pc_recipes b; pc_conditions := pc_conditions a + pc_conditions b; pc_regexes := pc_regexes a + pc_regexes b |}.
Definition a_setting : RcParseCounts := {| pc_assignments := 1; pc_statements := 1; pc_recipes := 0; pc_conditions := 0; pc_regexes := 0 |}.
Definition a_capture : RcParseCounts := {| pc_assignments := 1; pc_statements := 0; pc_recipes := 0; pc_conditions := 0; pc_regexes := 0 |}.
Definition a_recipe : RcParseCounts := {| pc_assignments := 0; pc_statements := 1; pc_recipes := 1; pc_conditions := 0; pc_regexes := 0 |}.

(** How many regular expressions a condition is or may become. *)
Definition condition_regexes (c : Condition) : nat :=
  match cond_kind c with
  | CK_Multipart checks => length checks
  | CK_Program _ | CK_SmallerThan _ | CK_LargerThan _ => 0%nat
  | _ => 1%nat
  end.
Definition regex_total (l : list Condition) : nat := foldr (fun c n => (condition_regexes c + n)%nat) 0%nat l.
Definition conditions_counts (l : list Condition) : RcParseCounts :=
  {| pc_assignments := 0; pc_statements := 0; pc_recipes := 0; pc_conditions := len l; pc_regexes := Z.of_nat (regex_total l) |}.

Fixpoint statement_counts (s : Statement) : RcParseCounts :=
  match s with S_Recipe r => recipe_counts r | _ => a_setting end
with recipe_counts (r : Recipe) : RcParseCounts :=
  match r with MkRecipe _ _ _ _ conditions action => counts_plus a_recipe (counts_plus (conditions_counts conditions) (action_counts action)) end
with action_counts (a : RecipeAction) : RcParseCounts :=
  match a with
  | RA_Capture _ => a_capture
  | RA_Block statements => foldr (fun s c => counts_plus (statement_counts s) c) empty_counts statements
  | _ => empty_counts
  end.
Definition recount (l : list Statement) : RcParseCounts := foldr (fun s c => counts_plus (statement_counts s) c) empty_counts l.

Lemma regex_total_snoc l c : regex_total (l ++ [c]) = (regex_total l + condition_regexes c)%nat.
Proof. unfold regex_total. rewrite foldr_app. cbn. induction l as [|x l IH]; cbn; lia. Qed.
End recount.

(** The empty budget has no counts; the counts are added field by field. *)
Ltac counts_eq := repeat match goal with c : RcParseCounts |- _ => destruct c end; cbn in *; simplify_eq; cbn; f_equal; lia.

Section charges.
Context {T : Target} {R : RegexEngine} {RC : RegexCompiler}.

Lemma count_add_Some a b c : count_add a b = Some c <-> c = a + b /\ c <= usize_max.
Proof. unfold count_add. destruct (Z.leb_spec (a + b) usize_max); split; [by intros [= <-]|by intros [-> _]|done|intros [-> ?]; lia]. Qed.
Lemma check_count_limit_Ok count limit line name u : check_count_limit count limit line name = Ok u -> count < limit.
Proof. unfold check_count_limit. destruct (Z.leb_spec limit count); [done|lia]. Qed.

(** What a charge adds, and the limits it was checked against. *)
Definition charged (b : ParseBudget) (c : RcParseCounts) (b' : ParseBudget) : Prop :=
  pb_limits b' = pb_limits b /\ pb_counts b' = counts_plus (pb_counts b) c.

Lemma charge_recipe_Ok b line b' : charge_recipe b line = Ok b' -> charged b a_recipe b' /\ pc_recipes (pb_counts b) < rl_recipes (pb_limits b).
Proof.
  unfold charge_recipe. intros H. inv_ok. apply check_count_limit_Ok in H0.
  repeat match goal with H : count_add _ _ = Some _ |- _ => apply count_add_Some in H as [-> _] end. subst b'.
  split; [|done]. split; [done|]. destruct b as [[] l]. cbn. unfold counts_plus. cbn. f_equal; lia.
Qed.
Lemma charge_assignment_Ok b line usage b' : charge_assignment b line usage = Ok b' ->
  charged b match usage with AU_Statement => a_setting | AU_CaptureAction => a_capture end b' /\ pc_assignments (pb_counts b) < rl_assignments (pb_limits b).
Proof.
  unfold charge_assignment. intros H. inv_ok. apply check_count_limit_Ok in H0. destruct usage; inv_ok;
  repeat match goal with H : count_add _ _ = Some _ |- _ => apply count_add_Some in H as [-> _] end; subst;
  (split; [|done]; split; [done|]; destruct b as [[] l]; cbn; unfold counts_plus; cbn; f_equal; lia).
Qed.
Lemma record_recipe_contents_Ok b l line b' : record_recipe_contents b (length l) (regex_total l) line = Ok b' -> charged b (conditions_counts l) b'.
Proof.
  unfold record_recipe_contents. intros H. inv_ok.
  repeat match goal with H : count_add _ _ = Some _ |- _ => apply count_add_Some in H as [-> _] end. subst b'.
  split; [done|]. destruct b as [[] ?]. cbn. unfold counts_plus. cbn. f_equal; lia.
Qed.
Lemma charged_trans b c b1 c1 b2 : charged b c b1 -> charged b1 c1 b2 -> charged b (counts_plus c c1) b2.
Proof. intros [H1 H2] [H3 H4]. split; [congruence|]. rewrite H4, H2. unfold counts_plus. cbn. f_equal; lia. Qed.

Lemma apply_assignment_counts b a b' : apply_assignment b a = Ok b' -> pb_counts b' = pb_counts b.
Proof. unfold apply_assignment. intros H. apply result_bind_Ok in H as (l & _ & H). destruct (apply_linebuf a l); [|done]. by injection H as <-. Qed.
Lemma apply_unset_counts b u : pb_counts (apply_unset b u) = pb_counts b.
Proof. unfold apply_unset. by destruct (un_target u). Qed.

Definition is_setting (st : Statement) : Prop := match st with S_Recipe _ => False | _ => True end.
Lemma setting_counts st : is_setting st -> statement_counts st = a_setting.
Proof. by destruct st. Qed.
Lemma assignment_statement_setting a st : assignment_statement a = Ok st -> is_setting st.
Proof. unfold assignment_statement. intros H. repeat case_match; inv_ok; by subst. Qed.

(** A setting adds one assignment and one statement. *)
Lemma parse_setting_counts raw line depth s st s' : parse_setting raw line depth s = Ok (st, s') ->
  is_setting st /\ pb_counts s' = counts_plus (pb_counts s) a_setting /\ pc_assignments (pb_counts s) < rl_assignments (pb_limits s).
Proof.
  unfold parse_setting. intros H. apply result_bind_Ok in H as ([a|] & _ & H).
  - apply result_bind_Ok in H as (s1 & [[_ Hc] Hlt]%charge_assignment_Ok & H). case_match; [done|].
    apply result_bind_Ok in H as (st' & Hst & H). apply result_bind_Ok in H as (s2 & Hs2 & H). injection H as <- <-.
    split; [by eapply assignment_statement_setting|]. split; [|done]. rewrite <-Hc.
    destruct st'; try (injection Hs2 as <-; done). by eapply apply_assignment_counts.
  - apply result_bind_Ok in H as ([u|] & _ & H); [|done].
    apply result_bind_Ok in H as (s1 & [[_ Hc] Hlt]%charge_assignment_Ok & H). case_match; [done|]. injection H as <- <-.
    by rewrite apply_unset_counts.
Qed.

(** ** Conditions *)

(** A regular expression that was checked against the limit when it was parsed;
    one that is expanded at run time is not. *)
Definition checked_regexes (c : Condition) : nat := match cond_kind c with CK_ShellExpanded _ => 0%nat | _ => condition_regexes c end.
Definition checked_total (l : list Condition) : nat := foldr (fun c n => (checked_regexes c + n)%nat) 0%nat l.
Lemma checked_total_snoc l c : checked_total (l ++ [c]) = (checked_total l + checked_regexes c)%nat.
Proof. unfold checked_total. rewrite foldr_app. cbn. induction l as [|x l IH]; cbn; lia. Qed.
Lemma checked_total_le l : (checked_total l <= regex_total l)%nat.
Proof.
  induction l as [|c l IH]; cbn; [done|]. assert (checked_regexes c <= condition_regexes c)%nat; [|unfold checked_total, regex_total in *; lia].
  unfold checked_regexes. destruct (cond_kind c); cbn; lia.
Qed.

Lemma check_regex_Ok b n line u : check_regex b n line = Ok u -> pc_regexes (pb_counts b) + Z.of_nat n < rl_regexes (pb_limits b).
Proof. unfold check_regex. intros H. apply result_bind_Ok in H as (total & Ht & H). apply ok_or_Ok, count_add_Some in Ht as [-> _]. by eapply check_count_limit_Ok. Qed.
Lemma check_condition_Ok b n line u : check_condition b n line = Ok u ->
  Z.of_nat n < rl_conditions_per_recipe (pb_limits b) /\ pc_conditions (pb_counts b) + Z.of_nat n < rl_conditions (pb_limits b).
Proof.
  unfold check_condition. case_match eqn:Hl; [done|]. intros H. apply result_bind_Ok in H as (total & Ht & H).
  apply ok_or_Ok, count_add_Some in Ht as [-> _]. apply check_count_limit_Ok in H. lia.
Qed.

Lemma parse_multipart_check_Ok input line cs b n check : parse_multipart_check input line cs b n = Ok check ->
  pc_regexes (pb_counts b) + Z.of_nat n < rl_regexes (pb_limits b).
Proof.
  unfold parse_multipart_check. intros H. apply result_bind_Ok in H as ([? ?] & _ & H). apply result_bind_Ok in H as (? & _ & H).
  apply result_bind_Ok in H as ([] & Hc & _). by eapply check_regex_Ok.
Qed.
Lemma parse_single_line_multipart_Ok input line cs n b kind is_regex : parse_single_line_multipart input line cs n b = Ok (Some (kind, is_regex)) ->
  (exists check, kind = CK_Multipart [check]) /\ is_regex = true /\ pc_regexes (pb_counts b) + Z.of_nat n < rl_regexes (pb_limits b).
Proof.
  unfold parse_single_line_multipart. destruct (after_multipart input) as [rest|]; [|done]. destruct (_ || _); [done|]. intros H.
  assert (exists text, (check ← parse_multipart_check text line cs b n; Ok (Some (CK_Multipart [check], true))) = Ok (Some (kind, is_regex))) as [text Ht].
  { destruct (strip_prefix rest (B "{")); [|by exists rest]. apply result_bind_Ok in H as (inner & _ & H). destruct (bool_decide _) in H; [done|]. by eexists. }
  apply result_bind_Ok in Ht as (check & Hc & Ht). injection Ht as <- <-. apply parse_multipart_check_Ok in Hc. eauto.
Qed.

(** The flag says how many regular expressions a condition has. *)
Lemma parse_condition_Ok input line cs n b c is_regex : parse_condition input line cs n b = Ok (c, is_regex) ->
  condition_regexes c = (if is_regex then 1 else 0)%nat /\
  ((0 < checked_regexes c)%nat -> pc_regexes (pb_counts b) + Z.of_nat n < rl_regexes (pb_limits b)).
Proof.
  unfold parse_condition. destruct (negation (str_trim input)) as [negated text]. destruct (bool_decide _); [done|]. destruct (has_scoring_prefix _); [done|]. intros H.
  apply result_bind_Ok in H as (m & Hm & H). apply result_bind_Ok in H as ([kind flag] & Hk & H). injection H as <- <-.
  unfold checked_regexes, condition_regexes. cbn [cond_kind]. destruct m as [[kind' flag']|].
  - injection Hk as -> ->. apply parse_single_line_multipart_Ok in Hm as ([check ->] & -> & Hm). done.
  - destruct (parse_marked_condition text line) as [r|] eqn:Hmark; cbn [default] in Hk.
    + change (r = Ok (kind, flag)) in Hk. rewrite Hk in Hmark. destruct text as [|x value]; [done|]. cbn [parse_marked_condition] in Hmark.
      repeat match type of Hmark with (if ?b then _ else _) = _ => destruct b end; try done; apply (inj Some) in Hmark.
      * injection Hmark as <- <-. split; [done|lia].
      * apply result_bind_Ok in Hmark as (? & _ & Hmark). injection Hmark as <- <-. split; [done|lia].
      * apply result_bind_Ok in Hmark as (? & _ & Hmark). injection Hmark as <- <-. split; [done|lia].
      * apply result_bind_Ok in Hmark as (? & _ & Hmark). injection Hmark as <- <-. split; [done|lia].
    + unfold parse_regex_condition in Hk. apply result_bind_Ok in Hk as ([] & Hc & Hk). apply check_regex_Ok in Hc.
      apply result_bind_Ok in Hk as (? & _ & Hk). apply result_bind_Ok in Hk as ([target ?] & _ & Hk). apply result_bind_Ok in Hk as (regex & _ & Hk).
      injection Hk as <- <-. by destruct target as [[]|].
Qed.

Lemma parse_multipart_lines_Ok b opening negated cs rest : forall index n checks c n' next,
  (checks = [] \/ pc_regexes (pb_counts b) + Z.of_nat n <= rl_regexes (pb_limits b)) ->
  parse_multipart_lines rest index opening negated cs n b checks = Ok (c, n', next) ->
  exists more, cond_kind c = CK_Multipart (checks ++ more) /\ n' = (n + length more)%nat /\
    pc_regexes (pb_counts b) + Z.of_nat n' <= rl_regexes (pb_limits b).
Proof.
  induction rest as [|raw rest IH]; intros index n checks c n' next Hn H; cbn [parse_multipart_lines] in H; [done|].
  apply result_bind_Ok in H as ([] & _ & H). destruct (is_blank_line _); [by eapply IH|]. destruct (bytes_eqb _ _).
  - destruct (bool_decide_reflect (length checks = 0%nat)) as [|Hne]; [done|]. injection H as <- <- <-. exists []. rewrite app_nil_r, Nat.add_0_r.
    split_and!; [done|done|]. destruct Hn as [->|]; [by destruct Hne|done].
  - apply result_bind_Ok in H as (check & Hc & H). apply parse_multipart_check_Ok in Hc. destruct (existsb _ checks); [done|].
    apply result_bind_Ok in H as (m & Hm & H). apply ok_or_Ok, checked_add_Some in Hm as [-> _].
    apply IH in H as (more & H1 & -> & H3); [|right; lia]. exists (check :: more). rewrite H1, <-app_assoc. cbn [length]. split_and!; [done|lia|done].
Qed.

(** Conditions within the limits of the budget their recipe starts with. *)
Record conditions_fit (b : ParseBudget) (l : list Condition) : Prop := {
  fit_conditions : l = [] \/ (len l <= rl_conditions_per_recipe (pb_limits b) /\ pc_conditions (pb_counts b) + len l <= rl_conditions (pb_limits b));
  fit_regexes : checked_total l = 0%nat \/ pc_regexes (pb_counts b) + Z.of_nat (checked_total l) <= rl_regexes (pb_limits b);
}.
Lemma conditions_fit_snoc b l c line u :
  conditions_fit b l -> check_condition b (length l) line = Ok u ->
  ((0 < checked_regexes c)%nat -> pc_regexes (pb_counts b) + Z.of_nat (regex_total l + checked_regexes c) <= rl_regexes (pb_limits b)) ->
  conditions_fit b (l ++ [c]).
Proof.
  intros [_ H2] H3%check_condition_Ok Hr. pose proof (checked_total_le l). split.
  - right. rewrite length_app. cbn. lia.
  - rewrite checked_total_snoc. destruct (Nat.eq_0_gt_0_cases (checked_regexes c)) as [->|Hp]; [by rewrite Nat.add_0_r|].
    right. specialize (Hr Hp). lia.
Qed.

Context (lines : list bytes).

Lemma parse_conditions_Ok b cs rest : forall index resume acc n l n' next,
  n = regex_total acc -> conditions_fit b acc ->
  parse_conditions lines rest index resume cs b acc n = Ok (l, n', next) -> n' = regex_total l /\ conditions_fit b l.
Proof.
  induction rest as [|raw rest IH]; intros index resume acc n l n' next Hn Hfit H; cbn [parse_conditions] in H.
  { injection H as <- <- <-. done. }
  destruct (index <? resume)%nat; [by eapply IH|]. apply result_bind_Ok in H as ([] & _ & H).
  destruct (is_blank_line _); [by eapply IH|]. destruct (starts_with _ _); [|injection H as <- <- <-; done].
  apply result_bind_Ok in H as (u & Hc & H). destruct (is_multipart_block_start _) as [negated|].
  - apply result_bind_Ok in H as ([[c m] after] & Hm & H).
    apply (parse_multipart_lines_Ok b) in Hm as (more & Hk & -> & Hle); [|by left].
    assert (condition_regexes c = length more) as Hcr by (unfold condition_regexes; by rewrite Hk).
    assert (checked_regexes c = length more) as Hch by (unfold checked_regexes; by rewrite Hk).
    eapply IH in H; [done| |].
    + by rewrite regex_total_snoc, Hcr, Hn.
    + eapply conditions_fit_snoc; [done|done|]. rewrite Hch, <-Hn. lia.
  - apply result_bind_Ok in H as ([source after] & _ & H). apply result_bind_Ok in H as ([c is_regex] & Hp & H).
    apply result_bind_Ok in H as (m & Hm & H). apply ok_or_Ok, checked_add_Some in Hm as [-> _].
    apply parse_condition_Ok in Hp as [Hcr Hch]. assert (checked_regexes c <= 1)%nat.
    { unfold checked_regexes. destruct (cond_kind c); rewrite ?Hcr; destruct is_regex; lia. }
    eapply IH in H; [done| |].
    + by rewrite regex_total_snoc, Hcr, Hn.
    + eapply conditions_fit_snoc; [done|done|]. intros Hp. specialize (Hch Hp). rewrite <-Hn. lia.
Qed.

(** ** Recipes *)

(** What an action adds; a block has added nothing yet. *)
Definition parsed_counts (p : ParsedAction) : RcParseCounts := match p with PA_Action action _ => action_counts action | PA_Block _ => empty_counts end.

Lemma charged_empty b : charged b empty_counts b.
Proof. split; [done|]. destruct b as [[] ?]. cbn. unfold counts_plus. cbn. f_equal; lia. Qed.

Lemma parse_action_Ok action capture options lock start index depth s parsed s' :
  parse_action lines action capture options lock start index depth s = Ok (parsed, s') ->
  charged s (parsed_counts parsed) s' /\
  match parsed with
  | PA_Action (RA_Capture _) _ => pc_assignments (pb_counts s) < rl_assignments (pb_limits s)
  | PA_Action (RA_Block _) _ => False
  | PA_Block d => d = S depth /\ Z.of_nat d <= rl_nesting_depth (pb_limits s)
  | _ => True
  end.
Proof.
  unfold parse_action. intros H. destruct (action_form action capture).
  - apply result_bind_Ok in H as (s1 & [Hc Hlt]%charge_assignment_Ok & H). apply result_bind_Ok in H as ([? ?] & _ & H).
    apply result_bind_Ok in H as ([? ?] & _ & H). by injection H as <- <-.
  - apply result_bind_Ok in H as ([? ?] & _ & H). destruct (_ && _) in H; [done|]. injection H as <- <-. split; [apply charged_empty|done].
  - apply result_bind_Ok in H as ([? ?] & _ & H). injection H as <- <-. split; [apply charged_empty|done].
  - apply result_bind_Ok in H as (d & Hd & H). case_bool_decide; [done|]. injection H as <- <-. split; [apply charged_empty|].
    unfold check_nesting in Hd. apply result_bind_Ok in Hd as (m & Hm & Hd). apply ok_or_Ok, checked_add_Some in Hm as [-> _].
    destruct (Z.ltb_spec (rl_nesting_depth (pb_limits s)) (Z.of_nat (depth + 1))); [done|]. injection Hd as <-. lia.
  - destruct (starts_with _ _); [done|]. apply result_bind_Ok in H as (d & _ & H). injection H as <- <-. split; [apply charged_empty|done].
Qed.

(** The options of a recipe: [recipe_options] with a headers action going on. *)
Definition goes_on (o : RecipeOptions) : Prop := continuation o <> CM_BranchBlock.
Lemma recipe_options_go_on flags : goes_on (recipe_options flags).
Proof. unfold goes_on. cbn. by destruct (has_flag _ _). Qed.
Lemma check_action_options_Ok action p c h conditions options flags lock start index o :
  check_action_options action p c h conditions options flags lock start index = Ok o ->
  goes_on options -> goes_on o /\ (h = true -> continuation o = CM_Continue).
Proof.
  unfold check_action_options. intros H. apply result_bind_Ok in H as ([] & _ & H). apply result_bind_Ok in H as (o' & Ho & H).
  destruct (_ && _) in H; [done|]. destruct (_ && _) in H; [done|]. injection H as <-. destruct h.
  - apply result_bind_Ok in Ho as ([] & _ & Ho). injection Ho as <-. unfold goes_on. by cbn.
  - injection Ho as <-. done.
Qed.

Record head_ok (depth : nat) (s : ParseBudget) (head : RecipeHead) (s' : ParseBudget) : Prop := {
  head_conditions : conditions_fit s (rh_conditions head);
  head_charged : charged s (counts_plus (conditions_counts (rh_conditions head)) (parsed_counts (rh_action head))) s';
  head_continuation : goes_on (rh_options head);
  head_action : match rh_action head with
                | PA_Action (RA_Capture _) _ => pc_assignments (pb_counts s) < rl_assignments (pb_limits s)
                | PA_Action (RA_Block _) _ => False
                | PA_Block d => d = S depth /\ Z.of_nat d <= rl_nesting_depth (pb_limits s)
                | _ => True
                end;
}.

Lemma parse_recipe_head_Ok start depth s head s' : parse_recipe_head lines start depth s = Ok (head, s') -> head_ok depth s head s'.
Proof.
  unfold parse_recipe_head. intros H. apply result_bind_Ok in H as (text & _ & H). apply result_bind_Ok in H as ([[options lock] flags] & Ho & H).
  assert (goes_on options) as Hgo.
  { unfold parse_recipe_header in Ho. apply result_bind_Ok in Ho as ([? ?] & _ & Ho). apply result_bind_Ok in Ho as ([] & _ & Ho).
    injection Ho as <- _ _. apply recipe_options_go_on. }
  apply result_bind_Ok in H as ([[conditions n] index] & Hc & H). apply parse_conditions_Ok in Hc as [-> Hfit]; [|done|split; by left].
  apply result_bind_Ok in H as (raw & _ & H). apply result_bind_Ok in H as ([] & _ & H).
  apply result_bind_Ok in H as (s1 & Hs1%record_recipe_contents_Ok & H). apply result_bind_Ok in H as ([] & _ & H).
  apply result_bind_Ok in H as (capture & _ & H). apply result_bind_Ok in H as (o & Hopt & H).
  apply check_action_options_Ok in Hopt as [Hgo' _]; [|done].
  apply result_bind_Ok in H as ([parsed s2] & [Hp Hm]%parse_action_Ok & H). injection H as <- <-.
  pose proof Hs1 as [Hl Hcounts]. split; [done|by eapply charged_trans|done|]. cbn [rh_action].
  destruct s1 as [c1 l1]. cbn in Hl, Hcounts, Hm. subst c1 l1. cbn in Hm. rewrite Z.add_0_r in Hm. done.
Qed.

(** * The counts of a parse *)

Lemma Parsed_counts depth s l s' : Parsed lines depth s l s' -> pb_counts s' = counts_plus (pb_counts s) (recount l).
Proof.
  assert (forall a b c, counts_plus (counts_plus a b) c = counts_plus a (counts_plus b c)) as Hassoc
    by (intros; unfold counts_plus; cbn; f_equal; lia).
  induction 1 as [depth s|depth s raw line st s1 rest s2 _ Hset _ IH|depth s start s1 head s2 action next rest s3 _ Hr Hh Ha _ IH
                 |depth s start s1 head s2 d block s3 rest s4 _ Hr Hh Ha _ IHb _ IH].
  - apply (charged_empty s).
  - apply parse_setting_counts in Hset as (Hst & Hs1 & _). rewrite IH, Hs1, Hassoc. cbn. by rewrite setting_counts.
  - apply charge_recipe_Ok in Hr as [[_ Hr] _]. apply parse_recipe_head_Ok, head_charged in Hh as [_ Hh]. rewrite Ha in Hh.
    rewrite IH, Hh, Hr, !Hassoc.
    change (recount (_ :: rest)) with (counts_plus (counts_plus a_recipe (counts_plus (conditions_counts (rh_conditions head)) (action_counts action))) (recount rest)).
    by rewrite !Hassoc.
  - apply charge_recipe_Ok in Hr as [[_ Hr] _]. apply parse_recipe_head_Ok, head_charged in Hh as [_ Hh]. rewrite Ha in Hh. cbn [parsed_counts] in Hh.
    rewrite IH, IHb, Hh, Hr, !Hassoc.
    change (recount (_ :: rest)) with (counts_plus (counts_plus a_recipe (counts_plus (conditions_counts (rh_conditions head)) (recount block))) (recount rest)).
    rewrite !Hassoc. done.
Qed.
End charges.

(** * Limits *)

Section limits.
Context {T : Target} {R : RegexEngine} {RC : RegexCompiler} (lines : list bytes).

(** No limit is above its ceiling, and no count. *)
Record limits_ok (l : RcLimits) : Prop := {
  ok_kinds : forall kind, rc_limit kind l <= rc_hard_limit kind;
  ok_linebuf : MIN_LINEBUF <= rl_linebuf l <= MAX_LINEBUF;
}.
Record budget_ok (b : ParseBudget) : Prop := {
  ok_limits : limits_ok (pb_limits b);
  ok_assignments : pc_assignments (pb_counts b) <= rc_hard_limit RLV_Assignments;
  ok_statements : pc_statements (pb_counts b) <= rc_hard_limit RLV_Statements;
  ok_recipes : pc_recipes (pb_counts b) <= rc_hard_limit RLV_Recipes;
  ok_conditions : pc_conditions (pb_counts b) <= rc_hard_limit RLV_Conditions;
}.
Lemma limit_ok b kind x : limits_ok (pb_limits b) -> x <= rc_limit kind (pb_limits b) -> x <= rc_hard_limit kind.
Proof. intros [H _] Hx. specialize (H kind). lia. Qed.

Lemma with_rc_limit_ok kind x l : limits_ok l -> x <= rc_hard_limit kind -> limits_ok (with_rc_limit kind x l).
Proof.
  intros [Hk Hl] Hx. destruct l. split; [|by destruct kind]. intros k. specialize (Hk k). by destruct kind, k.
Qed.
Lemma default_limits_ok : limits_ok default_rc_limits.
Proof. split; [by intros []|done]. Qed.
Lemma with_linebuf_ok x l : limits_ok l -> MIN_LINEBUF <= x <= MAX_LINEBUF -> limits_ok (with_linebuf x l).
Proof. intros [Hk _] Hx. destruct l. split; [|done]. intros k. by specialize (Hk k); destruct k. Qed.

Lemma apply_assignment_ok b a b' : apply_assignment b a = Ok b' -> limits_ok (pb_limits b) -> limits_ok (pb_limits b').
Proof.
  unfold apply_assignment. intros H Hb. apply result_bind_Ok in H as (l & Hl & H).
  assert (limits_ok l) as Hok.
  { unfold apply_rc_limit in Hl. destruct (as_target a); try (injection Hl as <-; done).
    apply result_bind_Ok in Hl as (value & _ & Hl). unfold set_rc_limit in Hl.
    destruct (Z.ltb_spec (rc_hard_limit v) value); [done|]. injection Hl as <-. by apply with_rc_limit_ok. }
  unfold apply_linebuf in H. case_bool_decide; cbn [negb] in H; [|by injection H as <-].
  destruct (ok_or _ (parse_usize (as_value a))) as [value|]; [|done]. cbn in H.
  destruct (between MIN_LINEBUF MAX_LINEBUF value) eqn:Hv; [|done]. injection H as <-. apply between_true in Hv. by apply with_linebuf_ok.
Qed.
Lemma apply_unset_ok b u : limits_ok (pb_limits b) -> limits_ok (pb_limits (apply_unset b u)).
Proof.
  intros Hb. unfold apply_unset. destruct (un_target u); try done; cbn [replace_limits pb_limits].
  - by apply with_linebuf_ok.
  - apply with_rc_limit_ok; [done|]. apply default_limits_ok.
Qed.
Lemma parse_setting_limits raw line depth s st s' : parse_setting raw line depth s = Ok (st, s') -> limits_ok (pb_limits s) -> limits_ok (pb_limits s').
Proof.
  unfold parse_setting. intros H Hs. apply result_bind_Ok in H as ([a|] & _ & H).
  - apply result_bind_Ok in H as (s1 & [[Hl _] _]%charge_assignment_Ok & H). rewrite <-Hl in Hs. case_match; [done|].
    apply result_bind_Ok in H as (st' & _ & H). apply result_bind_Ok in H as (s2 & Hs2 & H). injection H as <- <-.
    destruct st'; try (injection Hs2 as <-; done). by eapply apply_assignment_ok.
  - apply result_bind_Ok in H as ([u|] & _ & H); [|done].
    apply result_bind_Ok in H as (s1 & [[Hl _] _]%charge_assignment_Ok & H). rewrite <-Hl in Hs. case_match; [done|]. injection H as <- <-.
    by apply apply_unset_ok.
Qed.

(** Counts that grow within the limits. *)
Lemma charged_ok b c b' : charged b c b' -> budget_ok b ->
  (pc_assignments (pb_counts b) + pc_assignments c <= rc_hard_limit RLV_Assignments) ->
  (pc_statements (pb_counts b) + pc_statements c <= rc_hard_limit RLV_Statements) ->
  (pc_recipes (pb_counts b) + pc_recipes c <= rc_hard_limit RLV_Recipes) ->
  (pc_conditions (pb_counts b) + pc_conditions c <= rc_hard_limit RLV_Conditions) -> budget_ok b'.
Proof. intros [Hl Hc] [Hb _ _ _ _] H1 H2 H3 H4. split; rewrite ?Hl, ?Hc; done. Qed.

Lemma setting_ok raw line depth s st s' : check_statement s line = Ok tt -> parse_setting raw line depth s = Ok (st, s') -> budget_ok s -> budget_ok s'.
Proof.
  intros Hs%check_count_limit_Ok Hp Hok. apply parse_setting_limits in Hp as Hl; [|apply Hok]. apply parse_setting_counts in Hp as (_ & Hc & Ha).
  destruct Hok as [Hlim ? ? ? ?]. pose proof (limit_ok s RLV_Assignments _ Hlim (Z.le_refl _)). pose proof (limit_ok s RLV_Statements _ Hlim (Z.le_refl _)).
  cbn in *. split; [done|rewrite Hc; cbn..]; lia.
Qed.

Lemma recipe_start_ok s line s1 : check_statement s line = Ok tt -> charge_recipe s line = Ok s1 -> budget_ok s -> budget_ok s1.
Proof.
  intros Hs%check_count_limit_Ok [Hc Hr]%charge_recipe_Ok Hok.
  pose proof (limit_ok s RLV_Recipes _ (ok_limits _ Hok) (Z.le_refl _)). pose proof (limit_ok s RLV_Statements _ (ok_limits _ Hok) (Z.le_refl _)).
  destruct (Hok). cbn in *. eapply charged_ok; [done|done|cbn; lia..].
Qed.

Lemma head_action_counts depth s head s' : head_ok depth s head s' ->
  exists a, parsed_counts (rh_action head) = {| pc_assignments := a; pc_statements := 0; pc_recipes := 0; pc_conditions := 0; pc_regexes := 0 |} /\
    (a = 0 \/ a = 1 /\ pc_assignments (pb_counts s) < rl_assignments (pb_limits s)).
Proof. intros [_ _ _ Ha]. destruct (rh_action head) as [[]|]; try done; eexists; (split; [reflexivity|]); auto. Qed.

Lemma recipe_head_budget depth s head s' : head_ok depth s head s' -> budget_ok s -> budget_ok s'.
Proof.
  intros Hh Hok. destruct (head_action_counts _ _ _ _ Hh) as (a & Ha & Hlt). destruct Hh as [[Hc _] Hch _ _], (Hok) as [Hl Has Hst Hre Hco].
  pose proof (limit_ok s RLV_Assignments _ Hl (Z.le_refl _)). pose proof (limit_ok s RLV_Conditions _ Hl (Z.le_refl _)).
  eapply charged_ok; [done|done|rewrite Ha; cbn in *..]; try lia. destruct Hc as [->|]; cbn; lia.
Qed.

(** ** The tree *)

(** How deep blocks are in blocks. *)
Fixpoint statement_depth (s : Statement) : nat := match s with S_Recipe r => recipe_depth r | _ => 0%nat end
with recipe_depth (r : Recipe) : nat :=
  match r with MkRecipe _ _ _ _ _ action => action_depth action end
with action_depth (a : RecipeAction) : nat :=
  match a with RA_Block l => S (foldr (fun s d => Nat.max (statement_depth s) d) 0%nat l) | _ => 0%nat end.
Definition blocks_depth (l : list Statement) : nat := foldr (fun s d => Nat.max (statement_depth s) d) 0%nat l.

Definition recipe_conditions (r : Recipe) : list Condition := match r with MkRecipe _ _ _ _ conditions _ => conditions end.
Definition recipe_mode (r : Recipe) : RecipeOptions := match r with MkRecipe _ _ options _ _ _ => options end.
(** The recipes of a list, at any depth. *)
Inductive recipe_in (r : Recipe) : list Statement -> Prop :=
| recipe_here l : S_Recipe r ∈ l -> recipe_in r l
| recipe_below l line action_line options lock conditions block :
    S_Recipe (MkRecipe line action_line options lock conditions (RA_Block block)) ∈ l -> recipe_in r block -> recipe_in r l.
Lemma recipe_in_cons r s l : recipe_in r (s :: l) -> recipe_in r [s] \/ recipe_in r l.
Proof.
  inversion 1 as [? Hin|? ? ? ? ? ? ? Hin Hb]; subst.
  - apply elem_of_cons in Hin as [<-|]; [left; constructor; by left|right; by constructor].
  - apply elem_of_cons in Hin as [<-|]; [left|right]; eapply recipe_below; [by left|done|done|done].
Qed.
Lemma recipe_in_one r s : recipe_in r [s] ->
  match s with
  | S_Recipe (MkRecipe line action_line options lock conditions action) =>
      r = MkRecipe line action_line options lock conditions action \/ exists block, action = RA_Block block /\ recipe_in r block
  | _ => False
  end.
Proof.
  inversion 1 as [? Hin|? ? ? ? ? ? ? Hin Hb]; subst; apply list_elem_of_singleton in Hin; subst.
  - destruct r. by left.
  - right. eauto.
Qed.

(** Every recipe of a parse comes from a head, which started within the limits. *)
Definition has_head (r : Recipe) : Prop := exists depth b head b',
  budget_ok b /\ head_ok depth b head b' /\ recipe_conditions r = rh_conditions head /\ recipe_mode r = rh_options head.
Definition tree_ok (depth : nat) (s : ParseBudget) (l : list Statement) (s' : ParseBudget) : Prop :=
  budget_ok s' /\ (forall r, recipe_in r l -> has_head r) /\
  (Z.of_nat depth <= rc_hard_limit RLV_NestingDepth -> Z.of_nat (depth + blocks_depth l) <= rc_hard_limit RLV_NestingDepth).

Lemma Parsed_tree depth s l s' : Parsed lines depth s l s' -> budget_ok s -> tree_ok depth s l s'.
Proof.
  induction 1 as [depth s|depth s raw line st s1 rest s2 Hck Hset _ IH|depth s start s1 head s2 action next rest s3 Hck Hr Hh Ha _ IH
                 |depth s start s1 head s2 d block s3 rest s4 Hck Hr Hh Ha _ IHb _ IH]; intros Hok.
  - split_and!; [done| |cbn; lia]. intros r Hr. inversion Hr as [? Hin|? ? ? ? ? ? ? Hin]; by apply not_elem_of_nil in Hin.
  - pose proof (setting_ok _ _ _ _ _ _ Hck Hset Hok) as Hok1. apply parse_setting_counts in Hset as (Hst & _).
    destruct (IH Hok1) as (H1 & H2 & H3). split_and!; [done| |].
    + intros r [Hin%recipe_in_one|]%recipe_in_cons; [|by apply H2]. by destruct st.
    + cbn. by destruct st.
  - pose proof (recipe_start_ok _ _ _ Hck Hr Hok) as Hok1. apply parse_recipe_head_Ok in Hh. destruct (IH (recipe_head_budget _ _ _ _ Hh Hok1)) as (H1 & H2 & H3).
    pose proof (head_action _ _ _ _ Hh) as Hact. rewrite Ha in Hact. split_and!; [done| |].
    + intros r [[->|(block & -> & _)]%recipe_in_one|]%recipe_in_cons; [|done|by apply H2]. exists depth, s1, head, s2. done.
    + cbn. by destruct action.
  - pose proof (recipe_start_ok _ _ _ Hck Hr Hok) as Hok1. apply parse_recipe_head_Ok in Hh.
    destruct (IHb (recipe_head_budget _ _ _ _ Hh Hok1)) as (Hb1 & Hb2 & Hb3). destruct (IH Hb1) as (H1 & H2 & H3).
    pose proof (head_action _ _ _ _ Hh) as Hact. rewrite Ha in Hact. destruct Hact as [-> Hd]. split_and!; [done| |].
    + intros r [[->|(b & [= <-] & Hin)]%recipe_in_one|]%recipe_in_cons; [|by apply Hb2|by apply H2]. exists depth, s1, head, s2. done.
    + intros Hdepth. specialize (H3 Hdepth). specialize (Hb3 (limit_ok s1 RLV_NestingDepth _ (ok_limits _ Hok1) Hd)).
      change (blocks_depth (_ :: rest)) with (Nat.max (S (blocks_depth block)) (blocks_depth rest)). lia.
Qed.

(** The regular expressions of a tree that were checked when they were parsed. *)
Fixpoint statement_checked (s : Statement) : nat := match s with S_Recipe r => recipe_checked r | _ => 0%nat end
with recipe_checked (r : Recipe) : nat :=
  match r with MkRecipe _ _ _ _ conditions action => (checked_total conditions + action_checked action)%nat end
with action_checked (a : RecipeAction) : nat :=
  match a with RA_Block l => foldr (fun s n => (statement_checked s + n)%nat) 0%nat l | _ => 0%nat end.
Definition tree_checked (l : list Statement) : nat := foldr (fun s n => (statement_checked s + n)%nat) 0%nat l.

Lemma Parsed_checked depth s l s' : Parsed lines depth s l s' -> budget_ok s -> forall k,
  Z.of_nat k <= pc_regexes (pb_counts s) -> Z.of_nat k <= rc_hard_limit RLV_Regexes ->
  Z.of_nat (k + tree_checked l) <= pc_regexes (pb_counts s') /\ Z.of_nat (k + tree_checked l) <= rc_hard_limit RLV_Regexes.
Proof.
  assert (forall depth s head s', budget_ok s -> head_ok depth s head s' -> forall k, Z.of_nat k <= pc_regexes (pb_counts s) -> Z.of_nat k <= rc_hard_limit RLV_Regexes ->
    Z.of_nat (k + checked_total (rh_conditions head)) <= pc_regexes (pb_counts s') /\ Z.of_nat (k + checked_total (rh_conditions head)) <= rc_hard_limit RLV_Regexes) as Hhead.
  { intros ? b head b' Hok Hh k Hk Hk'. destruct (head_action_counts _ _ _ _ Hh) as (a & Ha & _). destruct Hh as [[_ Hf] [_ Hc] _ _].
    pose proof (checked_total_le (rh_conditions head)). pose proof (limit_ok b RLV_Regexes _ (ok_limits _ Hok) (Z.le_refl _)) as Hl.
    rewrite Hc, Ha. cbn in *. split; [|destruct Hf as [->|]]; lia. }
  induction 1 as [depth s|depth s raw line st s1 rest s2 Hck Hset _ IH|depth s start s1 head s2 action next rest s3 Hck Hr Hh Ha _ IH
                 |depth s start s1 head s2 d block s3 rest s4 Hck Hr Hh Ha Hb IHb _ IH]; intros Hok k Hk Hk'.
  - cbn. rewrite Nat.add_0_r. done.
  - pose proof (setting_ok _ _ _ _ _ _ Hck Hset Hok) as Hok1. apply parse_setting_counts in Hset as (Hst & Hc & _).
    assert (statement_checked st = 0%nat) as Hz by by destruct st. unfold tree_checked. cbn [foldr]. rewrite Hz. apply IH; [done| |done]. rewrite Hc. cbn. lia.
  - pose proof (recipe_start_ok _ _ _ Hck Hr Hok) as Hok1. apply parse_recipe_head_Ok in Hh.
    apply charge_recipe_Ok in Hr as [[_ Hr] _]. destruct (Hhead _ _ _ _ Hok1 Hh k) as [H1 H2]; [rewrite Hr; cbn; lia|done|].
    specialize (IH (recipe_head_budget _ _ _ _ Hh Hok1) _ H1 H2). pose proof (head_action _ _ _ _ Hh) as Hact. rewrite Ha in Hact.
    assert (action_checked action = 0%nat) as Hz by by destruct action.
    unfold tree_checked in *. cbn [foldr statement_checked recipe_of recipe_checked]. rewrite Hz, Nat.add_0_r, Nat.add_assoc. done.
  - pose proof (recipe_start_ok _ _ _ Hck Hr Hok) as Hok1. apply parse_recipe_head_Ok in Hh.
    apply charge_recipe_Ok in Hr as [[_ Hr] _]. destruct (Hhead _ _ _ _ Hok1 Hh k) as [H1 H2]; [rewrite Hr; cbn; lia|done|].
    pose proof (recipe_head_budget _ _ _ _ Hh Hok1) as Hok2. destruct (IHb Hok2 _ H1 H2) as [H3 H4].
    specialize (IH (proj1 (Parsed_tree _ _ _ _ Hb Hok2)) _ H3 H4).
    change (tree_checked (_ :: rest)) with ((checked_total (rh_conditions head) + tree_checked block) + tree_checked rest)%nat.
    rewrite !Nat.add_assoc. done.
Qed.
End limits.

(** * What a parse keeps *)

Section theorems.
Context {T : Target} {R : RegexEngine} {RC : RegexCompiler}.

Lemma parse_with_state_Ok input s c s' : parse_with_state input s = Ok (c, s') ->
  Parsed (str_lines input) 0 s (statements c) s' /\ len input <= MAX_RC_SIZE /\ subtract_counts (pb_counts s') (pb_counts s) = Ok (parse_counts c).
Proof.
  unfold parse_with_state. destruct (Z.ltb_spec MAX_RC_SIZE (len input)); [done|]. intros H'.
  apply result_bind_Ok in H' as ([[l idx] after] & Hp & H'). apply result_bind_Ok in H' as (counts & Hc & H'). injection H' as <- <-.
  apply parse_statements_parsed in Hp as (built & Hb & Hp). cbn in *. subst built. split_and!; [done|lia|done].
Qed.

(** C23: The counts of a parse are those of what was parsed.  When a file parses,
    the budget has grown by exactly the assignments, statements, recipes,
    conditions and regular expressions of the tree, at any depth of the blocks,
    and [parse_counts] of the configuration says the same. *)
Theorem parse_counts_recount (input : bytes) (s s' : ParseBudget) (c : Config) (Hp : parse_with_state input s = Ok (c, s')) :
  pb_counts s' = counts_plus (pb_counts s) (recount (statements c)) /\ parse_counts c = recount (statements c).
Proof.
  apply parse_with_state_Ok in Hp as (Hp%Parsed_counts & _ & Hc). split; [done|]. rewrite Hp in Hc.
  unfold subtract_counts in Hc. cbn [counts_plus pc_assignments pc_statements pc_recipes pc_conditions pc_regexes] in Hc.
  repeat match type of Hc with context [if ?b then _ else _] => destruct b; [done|] end. cbn in Hc. injection Hc as <-.
  generalize (recount (statements c)). intros []. cbn. f_equal; lia.
Qed.

(** C22: A parse stays within the limits.  From a budget within the ceilings, the
    text and, added to what was read before, its assignments, statements, recipes
    and conditions are within the ceilings, and so are the conditions of each
    recipe, the nesting of blocks, the regular expressions that were compiled and
    the limits the file sets itself; a recipe stops or continues. *)
Theorem parse_within_limits (input : bytes) (s s' : ParseBudget) (c : Config)
    (Hs : budget_ok s) (Hn : 0 <= pc_regexes (pb_counts s)) (Hp : parse_with_state input s = Ok (c, s')) :
  len input <= MAX_RC_SIZE /\ budget_ok s' /\
  Z.of_nat (blocks_depth (statements c)) <= rc_hard_limit RLV_NestingDepth /\
  Z.of_nat (tree_checked (statements c)) <= rc_hard_limit RLV_Regexes /\
  forall r, recipe_in r (statements c) -> len (recipe_conditions r) <= rc_hard_limit RLV_ConditionsPerRecipe /\ goes_on (recipe_mode r).
Proof.
  apply parse_with_state_Ok in Hp as (Hp & Hl & _). pose proof (Parsed_tree _ _ _ _ _ Hp Hs) as (H1 & H2 & H3).
  destruct (Parsed_checked _ _ _ _ _ Hp Hs 0) as [_ H4]; [done|done|]. split_and!; [done|done|by apply H3|done|].
  intros r (d & b & head & b' & Hb & [[Hc _] _ Hgo _] & -> & ->)%H2. split; [|done].
  destruct Hc as [->|[Hc _]]; [done|]. exact (limit_ok b RLV_ConditionsPerRecipe _ (ok_limits _ Hb) Hc).
Qed.
End theorems.

(** * Samples *)

(** A compiler of plain text: no pattern has notations. *)
Definition plain_engine : RegexEngine := {|
  Regex := bytes; regex_is_match := fun r l => bool_decide (is_Some (find_window r l)); regex_captures := fun _ _ => None |}.
Definition plain_compiler : RegexCompiler (R := plain_engine) :=
  Build_RegexCompiler plain_engine (fun _ => Ok []) (fun p _ => Ok p) (fun _ => [None]).
Definition rc_text (lines : list bytes) : bytes := foldr (fun line text => line ++ c_LF :: text) [] lines.
Definition sample_rc : bytes := rc_text
  [B "LIMIT_RC_REGEXES=1"; B ":0 c"; B "* ^Subject: foo"; B "* ! < 10"; B "{"; B " X=`ls`"; B " :0:"; B " mbox:in"; B "}"; B ":0"; B "| a \"; B "b"].
Definition sample_counts : RcParseCounts := {| pc_assignments := 2; pc_statements := 5; pc_recipes := 3; pc_conditions := 2; pc_regexes := 1 |}.
Definition parsed_sample : result ParseError Config := parse (R := plain_engine) (RC := plain_compiler) sample_rc.

Lemma empty_budget_ok : budget_ok empty_budget.
Proof. split; [apply default_limits_ok|done..]. Qed.

Lemma parse_counts_recount_witness :
  exists c s', parse_with_state (R := plain_engine) (RC := plain_compiler) sample_rc empty_budget = Ok (c, s') /\
    pb_counts s' = sample_counts /\ parse_counts c = recount (statements c).
Proof.
  destruct (parse_with_state (R := plain_engine) (RC := plain_compiler) sample_rc empty_budget) as [[c s']|] eqn:Hp; [|vm_compute in Hp; discriminate Hp].
  pose proof (parse_counts_recount sample_rc empty_budget s' c Hp) as [H1 H2].
  exists c, s'. split; [reflexivity|]. split; [|exact H2].
  assert ((fun r => match r with Ok (_, s) => pb_counts s | Err _ => empty_counts end)
    (parse_with_state (R := plain_engine) (RC := plain_compiler) sample_rc empty_budget) = sample_counts) as Hc by (vm_compute; reflexivity).
  by rewrite Hp in Hc.
Defined.

Lemma parse_within_limits_witness :
  exists c s', parse_with_state (R := plain_engine) (RC := plain_compiler) sample_rc empty_budget = Ok (c, s') /\
    Z.of_nat (blocks_depth (statements c)) <= 256.
Proof.
  destruct (parse_with_state (R := plain_engine) (RC := plain_compiler) sample_rc empty_budget) as [[c s']|] eqn:Hp; [|vm_compute in Hp; discriminate Hp].
  exists c, s'. split; [reflexivity|].
  exact (proj1 (proj2 (proj2 (parse_within_limits sample_rc empty_budget s' c empty_budget_ok (Z.le_refl 0) Hp)))).
Defined.

(** A condition that is expanded at run time is counted, but the limit does not
    refuse it: with a limit of no regular expressions the file parses, and its
    count is above the limit. *)
Fact shell_conditions_exceed_limit {R : RegexEngine} {RC : RegexCompiler} :
  exists c s', parse_with_state (rc_text [B "LIMIT_RC_REGEXES=0"; B ":0"; B "* $ ${X}"; B "inbox/"]) empty_budget = Ok (c, s') /\
    rl_regexes (pb_limits s') = 0 /\ pc_regexes (parse_counts c) = 1.
Proof. eexists _, _. vm_compute. split; [reflexivity|split; reflexivity]. Qed.
