(* ===== verification/RcParserLoop.v ===== *)
(** The loop of the rc parser: [RcParser.parse_statements], which recurs over the
    lines that are left, is the loop over an index that the code has.  What a
    statement consumes ends after it and within the file. *)
From S2P Require Import Prelude Numbers Config Limits Utf8 Variables ShellEval ExprParser Syntax HeaderSyntax RegexSyntax ConditionSyntax RcParser RcParserFacts.
#[local] Open Scope Z_scope.

Section loop.
Context {T : Target} {R : RegexEngine} {RC : RegexCompiler}.

(** ** Progress *)

Lemma continue_command_next start linebuf description rest : forall index raw physical command text next,
  continue_command start linebuf description rest index raw physical command = Ok (text, next) -> (index < next <= S index + length rest)%nat.
Proof.
  induction rest as [|line rest IH]; intros index raw physical command text next H; cbn [continue_command] in H;
    apply result_bind_Ok in H as ([] & _ & H); apply result_bind_Ok in H as (? & _ & H); apply result_bind_Ok in H as (? & _ & H);
    (destruct (linebuf <? _); [done|]); (destruct (MAX_PIPE_COMMAND_LEN <? _); [done|]);
    (destruct (negb _); [destruct (bool_decide _); [done|]; destruct (existsb _ _); [done|]; injection H as <- <-; cbn; lia|]);
    apply result_bind_Ok in H as (m & Hm & H); [done|].
  apply ok_or_Ok, checked_add_Some in Hm as [-> _]. apply IH in H. cbn. lia.
Qed.
Lemma continue_condition_next start linebuf keeps rest : forall index raw physical condition text next,
  continue_condition start linebuf keeps rest index raw physical condition = Ok (text, next) -> (index < next <= S index + length rest)%nat.
Proof.
  induction rest as [|line rest IH]; intros index raw physical condition text next H; cbn [continue_condition] in H;
    apply result_bind_Ok in H as ([] & _ & H); apply result_bind_Ok in H as (? & _ & H);
    (destruct (linebuf <? _); [done|]); (destruct (negb _); [injection H as <- <-; cbn; lia|]);
    apply result_bind_Ok in H as (m & Hm & H); [done|].
  apply ok_or_Ok, checked_add_Some in Hm as [-> _]. apply IH in H. cbn. lia.
Qed.
Lemma parse_header_lines_next opening linebuf rest : forall index operations h next,
  parse_header_lines rest index opening linebuf operations = Ok (h, next) -> (index < next <= index + length rest)%nat.
Proof.
  induction rest as [|raw rest IH]; intros index operations h next H; cbn [parse_header_lines] in H; [done|].
  apply result_bind_Ok in H as ([] & _ & H). destruct (is_blank_line _); [apply IH in H; cbn; lia|].
  destruct (bytes_eqb _ _); [injection H as <- <-; cbn; lia|]. destruct (_ =? _)%nat; [done|].
  apply result_bind_Ok in H as (? & _ & H). apply IH in H. cbn. lia.
Qed.
Lemma parse_multipart_lines_next b opening negated cs rest : forall index n checks c n' next,
  parse_multipart_lines rest index opening negated cs n b checks = Ok (c, n', next) -> (index < next <= index + length rest)%nat.
Proof.
  induction rest as [|raw rest IH]; intros index n checks c n' next H; cbn [parse_multipart_lines] in H; [done|].
  apply result_bind_Ok in H as ([] & _ & H). destruct (is_blank_line _); [apply IH in H; cbn; lia|].
  destruct (bytes_eqb _ _); [destruct (bool_decide _); [done|]; injection H as <- <- <-; cbn; lia|].
  apply result_bind_Ok in H as (? & _ & H). destruct (existsb _ _); [done|]. apply result_bind_Ok in H as (? & _ & H). apply IH in H. cbn. lia.
Qed.

Context (lines : list bytes).

Lemma parse_conditions_next b cs rest : forall index resume acc n l n' next,
  parse_conditions lines rest index resume cs b acc n = Ok (l, n', next) -> (index <= next <= index + length rest)%nat.
Proof.
  induction rest as [|raw rest IH]; intros index resume acc n l n' next H; cbn [parse_conditions] in H.
  { injection H as _ _ <-. cbn. lia. }
  assert (forall resume acc n, parse_conditions lines rest (S index) resume cs b acc n = Ok (l, n', next) -> (index <= next <= index + length (raw :: rest))%nat) as Hrest
    by (intros ? ? ? Hp; apply IH in Hp; cbn; lia).
  destruct (index <? resume)%nat; [by eapply Hrest|]. apply result_bind_Ok in H as ([] & _ & H).
  destruct (is_blank_line _); [by eapply Hrest|]. destruct (starts_with _ _); [|injection H as _ _ <-; cbn; lia].
  apply result_bind_Ok in H as (u & _ & H). destruct (is_multipart_block_start _) as [negated|].
  - apply result_bind_Ok in H as ([[c m] after] & _ & H). by eapply Hrest.
  - apply result_bind_Ok in H as ([source after] & _ & H). apply result_bind_Ok in H as ([c is_regex] & _ & H).
    apply result_bind_Ok in H as (m & _ & H). by eapply Hrest.
Qed.

Lemma length_rest start : (start < length lines)%nat -> (S start + length (drop (S start) lines) = length lines)%nat.
Proof. rewrite length_drop. lia. Qed.

Lemma parse_action_next action capture options lock start index depth s a next s' :
  (index < length lines)%nat -> parse_action lines action capture options lock start index depth s = Ok (PA_Action a next, s') ->
  (index < next <= length lines)%nat.
Proof.
  unfold parse_action. intros Hi H. pose proof (length_rest _ Hi) as Hlen.
  assert (forall start first linebuf description text next', parse_command_continuation lines index first linebuf description = Ok (text, next') ->
    start = index -> (index < next' <= length lines)%nat) as Hcmd.
  { intros ? first linebuf description text next' Hc _. apply continue_command_next in Hc. lia. }
  destruct (action_form action capture).
  - apply result_bind_Ok in H as (? & _ & H). apply result_bind_Ok in H as ([? ?] & _ & H). apply result_bind_Ok in H as ([? ?] & Hc & H).
    injection H as _ <- _. by eapply Hcmd.
  - apply result_bind_Ok in H as ([? ?] & Hc & H). destruct (_ && _) in H; [done|]. injection H as _ <- _.
    unfold parse_pipe_command in Hc. case_bool_decide; [injection Hc as _ <-; lia|]. by eapply Hcmd.
  - apply result_bind_Ok in H as ([? ?] & Hc & H). injection H as _ <- _. apply parse_header_lines_next in Hc. lia.
  - apply result_bind_Ok in H as (? & _ & H). case_bool_decide; [done|]. by injection H.
  - destruct (starts_with _ _); [done|]. apply result_bind_Ok in H as (? & _ & H). injection H as _ <- _. lia.
Qed.

(** The action of a recipe follows its header, and what follows the action its line. *)
Lemma parse_recipe_head_next start depth s head s' : parse_recipe_head lines start depth s = Ok (head, s') ->
  (start < rh_action_line head < length lines)%nat /\ forall a next, rh_action head = PA_Action a next -> (rh_action_line head < next <= length lines)%nat.
Proof.
  unfold parse_recipe_head. intros H. apply result_bind_Ok in H as (? & _ & H). apply result_bind_Ok in H as ([[options lock] flags] & _ & H).
  apply result_bind_Ok in H as ([[conditions n] index] & Hc & H). apply parse_conditions_next in Hc.
  apply result_bind_Ok in H as (raw & Hraw & H). apply ok_or_Ok, lookup_lt_Some in Hraw.
  do 5 apply result_bind_Ok in H as (? & _ & H). apply result_bind_Ok in H as ([parsed s2] & Hp & H). injection H as <- _. cbn.
  split; [lia|]. intros a next ->. by eapply parse_action_next.
Qed.

Lemma parse_statements_next rest : forall index resume depth s acc l next s',
  parse_statements lines rest index resume depth s acc = Ok (l, next, s') -> (index <= next <= index + length rest)%nat.
Proof.
  induction rest as [|raw rest IH]; intros index resume depth s acc l next s' H; cbn [parse_statements] in H.
  { destruct (0 <? depth)%nat; [done|]. injection H as _ <- _. cbn. lia. }
  assert (forall resume s acc, parse_statements lines rest (S index) resume depth s acc = Ok (l, next, s') -> (index <= next <= index + length (raw :: rest))%nat) as Hrest
    by (intros ? ? ? Hp; apply IH in Hp; cbn; lia).
  destruct (index <? resume)%nat; [by eapply Hrest|]. apply result_bind_Ok in H as ([] & _ & H).
  destruct (is_blank_line _); [by eapply Hrest|].
  destruct (bytes_eqb _ _); [destruct (depth =? 0)%nat; [done|]; injection H as _ <- _; cbn; lia|].
  apply result_bind_Ok in H as ([] & _ & H). destruct (starts_with _ _).
  - apply result_bind_Ok in H as (? & _ & H). apply result_bind_Ok in H as ([head s2] & _ & H).
    destruct (rh_action head); [by eapply Hrest|]. apply result_bind_Ok in H as ([[? ?] ?] & _ & H). by eapply Hrest.
  - apply result_bind_Ok in H as ([? ?] & _ & H). by eapply Hrest.
Qed.

(** ** The loop *)

(** Lines before [resume] are stepped over. *)
Lemma parse_statements_from rest : forall index resume depth s acc, (resume <= index)%nat ->
  parse_statements lines rest index resume depth s acc = parse_statements lines rest index index depth s acc.
Proof.
  induction rest as [|raw rest IH]; intros index resume depth s acc Hr; [done|]. cbn [parse_statements].
  rewrite (proj2 (Nat.ltb_ge _ _) Hr), Nat.ltb_irrefl.
  assert (forall s acc, parse_statements lines rest (S index) resume depth s acc = parse_statements lines rest (S index) index depth s acc) as Hrest.
  { intros. rewrite (IH (S index) resume), (IH (S index) index) by lia. done. }
  destruct (check_linebuf _ _ _) as [[]|]; [|done]. cbn [mbind result_bind]. rewrite Hrest. destruct (is_blank_line _); [done|].
  destruct (bytes_eqb _ _); [done|]. destruct (check_statement _ _) as [[]|]; [|done]. cbn [mbind result_bind]. destruct (starts_with _ _); [done|].
  destruct (parse_setting _ _ _ _) as [[st s1]|]; [|done]. cbn [mbind result_bind]. apply Hrest.
Qed.
Lemma parse_statements_resume rest : forall index resume depth s acc, (index <= resume <= index + length rest)%nat ->
  parse_statements lines rest index resume depth s acc = parse_statements lines (drop (resume - index) rest) resume resume depth s acc.
Proof.
  induction rest as [|raw rest IH]; intros index resume depth s acc Hr.
  { cbn in Hr. assert (resume = index) as -> by lia. by rewrite drop_nil. }
  destruct (decide (resume = index)) as [->|Hne]; [by rewrite Nat.sub_diag|].
  cbn [parse_statements]. rewrite (proj2 (Nat.ltb_lt _ _)) by lia. rewrite IH by (cbn in Hr; lia).
  replace (resume - index)%nat with (S (resume - S index)) by lia. done.
Qed.

(** The loop from an index. *)
Definition statements_from (index depth : nat) (s : ParseBudget) (acc : list Statement) : result ParseError (list Statement * nat * ParseBudget) :=
  parse_statements lines (drop index lines) index index depth s acc.
Lemma resumed index next depth s acc : (index < next <= length lines)%nat ->
  parse_statements lines (drop (S index) lines) (S index) next depth s acc = statements_from next depth s acc.
Proof.
  intros Hn. unfold statements_from. rewrite parse_statements_resume by (rewrite length_drop; lia). rewrite drop_drop. by replace (S index + (next - S index))%nat with next by lia.
Qed.

(** The parser is the loop of the code: at an index within the file it checks
    the length of the line, passes what is blank, ends a block at a closing brace,
    and goes on after a statement: the next line for a setting, the line after
    the action for a recipe, and for a block the line after the statements that
    are parsed in the same way from the line after its brace. *)
Theorem statements_loop (index depth : nat) (s : ParseBudget) (acc : list Statement) :
  statements_from index depth s acc =
    match lines !! index with
    | None => if (0 <? depth)%nat then refuse (Nat.max (length lines) 1) (B "recipe block has no closing brace") else Ok (acc, index, s)
    | Some raw =>
        _ ← check_linebuf raw (S index) (rl_linebuf (pb_limits s));
        let line := str_trim raw in
        if is_blank_line line then statements_from (S index) depth s acc
        else if bytes_eqb line (B "}") then
          if (depth =? 0)%nat then refuse (S index) (B "closing recipe block has no matching opening block") else Ok (acc, S index, s)
        else
          _ ← check_statement s (S index);
          if starts_with line (B ":") then
            s ← charge_recipe s (S index);
            '(head, s) ← parse_recipe_head lines index depth s;
            match rh_action head with
            | PA_Action action next => statements_from next depth s (acc ++ [S_Recipe (recipe_of index head action)])
            | PA_Block next_depth =>
                '(block, next, s) ← statements_from (S (rh_action_line head)) next_depth s [];
                statements_from next depth s (acc ++ [S_Recipe (recipe_of index head (RA_Block block))])
            end
          else
            '(statement, s) ← parse_setting raw (S index) depth s;
            statements_from (S index) depth s (acc ++ [statement])
    end.
Proof.
  unfold statements_from at 1. destruct (lines !! index) as [raw|] eqn:Hraw.
  2: { apply lookup_ge_None in Hraw. rewrite drop_ge by done. done. }
  pose proof (lookup_lt_Some _ _ _ Hraw) as Hi. rewrite (drop_S _ _ _ Hraw). cbn [parse_statements]. rewrite Nat.ltb_irrefl.
  assert (forall s acc, parse_statements lines (drop (S index) lines) (S index) index depth s acc = statements_from (S index) depth s acc) as Hnext
    by (intros; apply parse_statements_from; lia).
  destruct (check_linebuf _ _ _) as [[]|]; [|done]. cbn [mbind result_bind]. rewrite Hnext. destruct (is_blank_line _); [done|].
  destruct (bytes_eqb _ _); [done|]. destruct (check_statement _ _) as [[]|]; [|done]. cbn [mbind result_bind]. destruct (starts_with _ _).
  - destruct (charge_recipe _ _) as [s1|]; [|done]. cbn [mbind result_bind].
    destruct (parse_recipe_head _ _ _ _) as [[head s2]|] eqn:Hh; [|done]. cbn [mbind result_bind].
    apply parse_recipe_head_next in Hh as [Ha Hn]. destruct (rh_action head) as [action next|d].
    + apply resumed. specialize (Hn _ _ eq_refl). lia.
    + rewrite resumed by lia. destruct (statements_from _ d s2 []) as [[[block next] s3]|] eqn:Hb; [|done]. cbn [mbind result_bind].
      unfold statements_from in Hb. apply parse_statements_next in Hb. rewrite length_drop in Hb. apply resumed. lia.
  - destruct (parse_setting _ _ _ _) as [[st s1]|]; [|done]. cbn [mbind result_bind]. apply Hnext.
Qed.
End loop.

(** The header of a recipe, printed and parsed ([RcParser.parse_recipe_header]):
    every set of options has a spelling, which gives the options back. *)

(** * Text without spaces *)

Definition graphic (l : bytes) : Prop := Forall (fun b => 33 <= b <= 126) l.
Lemma next_char_graphic b l : 33 <= b <= 126 -> next_char (b :: l) = Some (b, l) /\ is_whitespace b = false.
Proof.
  intros Hb. cbn [next_char]. rewrite (proj2 (between_true 0 127 b)) by lia. split; [done|].
  unfold is_whitespace, between. cbn [existsb]. lia.
Qed.
Lemma str_trim_start_graphic l : graphic l -> str_trim_start l = l.
Proof.
  destruct l as [|b l]; [done|]. intros [Hb _]%Forall_cons. unfold str_trim_start. cbn [length trim_start_fuel].
  destruct (next_char_graphic b l Hb) as [-> ->]. done.
Qed.
Lemma text_end_graphic l : forall fuel index end_, graphic l -> (length l <= fuel)%nat -> (l = [] -> end_ = index) ->
  text_end_fuel fuel l index end_ = (index + length l)%nat.
Proof.
  induction l as [|b l IH]; intros fuel index end_ Hl Hf He.
  - destruct fuel; cbn; rewrite He by done; lia.
  - apply Forall_cons in Hl as [Hb Hl]. destruct fuel as [|fuel]; [cbn in Hf; lia|]. cbn [text_end_fuel].
    destruct (next_char_graphic b l Hb) as [-> ->]. cbn [length] in *. rewrite IH; [lia|done|lia|]. intros ->. cbn. lia.
Qed.
Lemma str_trim_graphic l : graphic l -> str_trim l = l.
Proof.
  intros Hl. unfold str_trim. rewrite str_trim_start_graphic by done. unfold str_trim_end.
  rewrite text_end_graphic by done. apply take_ge. cbn. lia.
Qed.

(** * The spelling of the options *)

Definition when (b : bool) (flag : bytes) : bytes := if b then flag else [].
(** The flags of a set of options, each once. *)
Definition print_flags (o : RecipeOptions) : bytes :=
  match condition_input o with CI_Headers => [] | CI_Body => B "B" | CI_Message => B "HB" end ++
  match case_mode o with Sensitive => B "D" | Insensitive => [] end ++
  match control o with Independent => [] | AfterChainMatch => B "A" | AfterPreviousSuccess => B "a" | Else => B "E" | AfterPreviousError => B "e" end ++
  match action_input o with AI_Message => [] | AI_Headers => B "h" | AI_Body => B "b" end ++
  match action_mode o with Filter_ => B "f" | Deliver_ => [] end ++
  match continuation o with CM_Continue => B "c" | _ => [] end ++
  match child_status o with CS_Ignore => [] | CS_Wait => B "w" | CS_WaitQuietly => B "W" end ++
  match write_errors o with WE_Ignore => B "i" | WE_Fail => [] end ++
  match output_ending o with Preserve => B "r" | Normalize => [] end.
(** The text after [:0]. *)
Definition print_header (o : RecipeOptions) (lock : option bytes) : bytes :=
  print_flags o ++ match lock with Some path => c_COLON :: path | None => [] end.

#[export] Instance ConditionInput_eq_dec : EqDecision ConditionInput.
Proof. solve_decision. Defined.
#[export] Instance CaseMode_eq_dec : EqDecision CaseMode.
Proof. solve_decision. Defined.
#[export] Instance OutputEnding_eq_dec : EqDecision OutputEnding.
Proof. solve_decision. Defined.
#[export] Instance RecipeOptions_eq_dec : EqDecision RecipeOptions.
Proof. solve_decision. Defined.

(** All options that a recipe can have. *)
Definition spelled_options : list RecipeOptions :=
  ci ← [CI_Headers; CI_Body; CI_Message]; cm ← [Insensitive; Sensitive];
  ct ← [Independent; AfterChainMatch; AfterPreviousSuccess; Else; AfterPreviousError];
  ai ← [AI_Message; AI_Headers; AI_Body]; am ← [Deliver_; Filter_]; co ← [CM_Stop; CM_Continue];
  cs ← [CS_Ignore; CS_Wait; CS_WaitQuietly]; we ← [WE_Fail; WE_Ignore]; oe ← [Normalize; Preserve];
  [ {| condition_input := ci; case_mode := cm; control := ct; action_input := ai; action_mode := am; continuation := co;
       child_status := cs; write_errors := we; output_ending := oe |} ].
Lemma elem_bind {A C} (f : A -> list C) (l : list A) (y : A) (x : C) : y ∈ l -> x ∈ f y -> x ∈ l ≫= f.
Proof. intros. apply list_elem_of_bind. eauto. Qed.
Lemma spelled o : continuation o <> CM_BranchBlock -> o ∈ spelled_options.
Proof.
  destruct o as [ci cm ct ai am co cs we oe]. cbn [continuation]. intros Hco. unfold spelled_options.
  apply (elem_bind _ _ ci); [destruct ci; set_solver|]. apply (elem_bind _ _ cm); [destruct cm; set_solver|].
  apply (elem_bind _ _ ct); [destruct ct; set_solver|]. apply (elem_bind _ _ ai); [destruct ai; set_solver|].
  apply (elem_bind _ _ am); [destruct am; set_solver|]. apply (elem_bind _ _ co); [destruct co; set_solver|].
  apply (elem_bind _ _ cs); [destruct cs; set_solver|]. apply (elem_bind _ _ we); [destruct we; set_solver|].
  apply (elem_bind _ _ oe); [destruct oe; set_solver|]. by apply list_elem_of_singleton.
Qed.

Definition spelling_ok (o : RecipeOptions) : bool :=
  bool_decide (recipe_options (print_flags o) = o) && is_ok (check_flags (print_flags o) 0) && forallb is_ascii_alphabetic (print_flags o).
Lemma spellings_ok : forallb spelling_ok spelled_options = true.
Proof. vm_compute. reflexivity. Qed.

(** * The round trip *)

Lemma check_flags_any flags line : is_ok (check_flags flags 0) = true -> check_flags flags line = Ok tt.
Proof. unfold check_flags. repeat case_match; done. Qed.

Lemma alphabetic_facts b : is_ascii_alphabetic b = true -> 33 <= b <= 126 /\ b <> c_COLON /\ b <> c_HASH.
Proof. unfold is_ascii_alphabetic, is_ascii_uppercase, is_ascii_lowercase, between. lia. Qed.
Lemma flags_facts o : continuation o <> CM_BranchBlock ->
  graphic (print_flags o) /\ Forall (fun b => b <> c_COLON) (print_flags o) /\ Forall (fun b => b <> c_HASH) (print_flags o) /\
  recipe_options (print_flags o) = o /\ forall line, check_flags (print_flags o) line = Ok tt.
Proof.
  intros Ho%spelled. pose proof spellings_ok as Hs. rewrite forallb_forall in Hs. apply list_elem_of_In, Hs in Ho.
  apply andb_true_iff in Ho as [[H1%bool_decide_eq_true H2]%andb_true_iff H3]. rewrite forallb_forall in H3.
  assert (forall b, b ∈ print_flags o -> 33 <= b <= 126 /\ b <> c_COLON /\ b <> c_HASH) as Hb
    by (intros b Hb%list_elem_of_In; by apply alphabetic_facts, H3).
  unfold graphic. rewrite !Forall_forall. split_and!; try (intros b Hb'%Hb; by destruct_and?); [done|].
  intros line. by apply check_flags_any.
Qed.

(** A path that a header can spell without spaces. *)
Definition writable_lock (path : bytes) : Prop := graphic path /\ Forall (fun b => b <> c_HASH) path /\ len path <= MAX_PATH_EXPRESSION_LEN.

Lemma strip_comment_none l : Forall (fun b => b <> c_HASH) l -> strip_comment l = l.
Proof.
  intros Hl. unfold strip_comment. destruct (split_once c_HASH l) as [[a b]|] eqn:Hs; [|done].
  apply split_once_Some in Hs as [-> _]. apply Forall_app in Hl as [_ [Hl _]%Forall_cons]. done.
Qed.

(** A recipe header is parsed as it is printed.  Every combination of options
    that a recipe can have is spelled by its flags, with a lock file or without
    one, and the parser answers the options, the lock file and the flags. *)
Theorem recipe_header_roundtrip (o : RecipeOptions) (lock : option bytes) (line : nat)
    (Ho : continuation o <> CM_BranchBlock) (Hlock : forall path, lock = Some path -> writable_lock path) :
  parse_recipe_header (print_header o lock) line = Ok (o, lock, print_flags o).
Proof.
  apply flags_facts in Ho as (Hg & Hc & Hh & Hr & Hck). unfold parse_recipe_header, print_header.
  destruct lock as [path|].
  - destruct (Hlock path eq_refl) as (Hp & Hph & Hpl).
    rewrite strip_comment_none by (apply Forall_app; split; [done|constructor; done]).
    rewrite str_trim_graphic by (apply Forall_app; split; [done|constructor; [lia|done]]).
    rewrite (proj2 (split_once_Some c_COLON _ (print_flags o) path)) by done.
    unfold check_path_length. rewrite (str_trim_graphic path) by done. rewrite (proj2 (Z.ltb_ge _ _)) by done.
    cbn [mbind result_bind]. rewrite str_trim_graphic by done. rewrite Hck. cbn [mbind result_bind]. by rewrite Hr.
  - rewrite app_nil_r, strip_comment_none, str_trim_graphic by done.
    destruct (split_once c_COLON (print_flags o)) as [[a b]|] eqn:Hs.
    { apply split_once_Some in Hs as [Heq _]. rewrite Heq in Hc. apply Forall_app in Hc as [_ [Hc _]%Forall_cons]. done. }
    cbn [mbind result_bind]. rewrite Hck. cbn [mbind result_bind]. by rewrite Hr.
Qed.

Lemma recipe_header_roundtrip_witness :
  parse_recipe_header (B "HBDAbfcWr:x.lock") 7 =
    Ok ({| condition_input := CI_Message; case_mode := Sensitive; control := AfterChainMatch; action_input := AI_Body; action_mode := Filter_;
           continuation := CM_Continue; child_status := CS_WaitQuietly; write_errors := WE_Fail; output_ending := Preserve |}, Some (B "x.lock"), B "HBDAbfcWr").
Proof.
  apply (recipe_header_roundtrip
    {| condition_input := CI_Message; case_mode := Sensitive; control := AfterChainMatch; action_input := AI_Body; action_mode := Filter_;
       continuation := CM_Continue; child_status := CS_WaitQuietly; write_errors := WE_Fail; output_ending := Preserve |} (Some (B "x.lock")) 7); [done|].
  intros path [= <-]. split; [|split].
  - cbn. repeat constructor; lia.
  - cbn. repeat constructor; lia.
  - vm_compute; discriminate.
Defined.
