(* ===== verification/SyntaxErrors.v ===== *)
(** The errors of the rc parser: each names a line of the file. *)
From S2P Require Import Prelude Numbers Config Limits Utf8 Variables ShellEval ExprParser Syntax HeaderSyntax RegexSyntax ConditionSyntax RcParser RcParserFacts RcParserLoop.
#[local] Open Scope Z_scope.

(** A result whose error, if it is one, satisfies [P]. *)
Definition fails_in {E A} (P : E -> Prop) (m : result E A) : Prop := match m with Ok _ => True | Err e => P e end.

Lemma fails_bind {E A C} (P : E -> Prop) (m : result E A) (f : A -> result E C) :
  fails_in P m -> (forall a, m = Ok a -> fails_in P (f a)) -> fails_in P (m ≫= f).
Proof. destruct m; cbn; auto. Qed.
Lemma fails_fmap {E A C} (P : E -> Prop) (m : result E A) (f : A -> C) : fails_in P m -> fails_in P (f <$> m).
Proof. by destruct m. Qed.
Lemma fails_ok_or {E A} (P : E -> Prop) e (o : option A) : P e -> fails_in P (ok_or e o).
Proof. by destruct o. Qed.
Lemma fails_map_err {E F A} (P : F -> Prop) (f : E -> F) (m : result E A) : fails_in (fun e => P (f e)) m -> fails_in P (map_err f m).
Proof. by destruct m. Qed.
Lemma fails_weaken {E A} (P Q : E -> Prop) (m : result E A) : (forall e, P e -> Q e) -> fails_in P m -> fails_in Q m.
Proof. destruct m; cbn; auto. Qed.

Lemma fails_err {E A} (P : E -> Prop) e : P e -> fails_in P (A := A) (Err e).
Proof. done. Qed.

Create HintDb fails.
(** Walks through a computation to the errors it can end with. *)
Ltac fails_step :=
  match goal with
  | |- fails_in _ (_ ≫= _) => apply fails_bind; [|intros ? ?]
  | |- fails_in _ (_ <$> _) => apply fails_fmap
  | |- fails_in _ (ok_or _ _) => apply fails_ok_or
  | |- fails_in _ (map_err _ _) => apply fails_map_err
  | |- fails_in _ (Ok _) => exact I
  | |- fails_in _ (Err _) => apply fails_err
  | |- fails_in _ (let '(_, _) := ?x in _) => destruct x
  | |- fails_in _ (match ?x with _ => _ end) => destruct x
  | |- fails_in _ (let _ := _ in _) => cbv zeta
  end.
Ltac fails := repeat first [solve [eauto with fails]|fails_step].

(** * Expressions *)

Section expressions.
Context {T : Target} (line : nat) (syntax : ExpressionSyntax).

Definition names_line (e : ExpansionError) : Prop := ex_line e = line.
Lemma names_error message : names_line (expansion_error line message).
Proof. done. Qed.
Lemma names_depth_error : names_line (expansion_depth_error line).
Proof. done. Qed.
#[local] Hint Resolve names_error names_depth_error : fails.

Lemma check_expansion_depth_line depth : fails_in names_line (check_expansion_depth depth line).
Proof. unfold check_expansion_depth. fails. Qed.
Lemma validate_reference_name_line name : fails_in names_line (validate_reference_name name line).
Proof. unfold validate_reference_name. fails. Qed.
Lemma parse_positional_parameter_line l : fails_in names_line (parse_positional_parameter line l).
Proof. unfold parse_positional_parameter. fails. Qed.
Lemma parse_command_line l : fails_in names_line (parse_command line syntax l).
Proof. unfold parse_command. fails. Qed.
#[local] Hint Resolve check_expansion_depth_line validate_reference_name_line parse_positional_parameter_line parse_command_line : fails.

Section level.
Context (nested : QuoteMode -> bool -> bytes -> result ExpansionError (ShellExpression * bytes)).
Context (Hnested : forall quote pattern l, fails_in names_line (nested quote pattern l)).
#[local] Hint Resolve Hnested : fails.

Lemma parse_parameter_word_line quote width pattern l : fails_in names_line (parse_parameter_word line nested quote width pattern l).
Proof. unfold parse_parameter_word. fails. Qed.
#[local] Hint Resolve parse_parameter_word_line : fails.
Lemma parse_braced_variable_line quote pattern l : fails_in names_line (parse_braced_variable line nested quote pattern l).
Proof. unfold parse_braced_variable. fails. Qed.
#[local] Hint Resolve parse_braced_variable_line : fails.
Lemma parse_reference_line quote pattern escape first l : fails_in names_line (parse_reference line syntax nested quote pattern escape first l).
Proof. unfold parse_reference. fails. Qed.
#[local] Hint Resolve parse_reference_line : fails.
Lemma parse_variable_line quote literal pattern l : fails_in names_line (parse_variable line syntax nested quote literal pattern l).
Proof. unfold parse_variable. fails. Qed.
#[local] Hint Resolve parse_variable_line : fails.
Lemma scan_character_line s l quoted : fails_in names_line (scan_character line syntax s l quoted).
Proof. unfold scan_character. fails. Qed.
#[local] Hint Resolve scan_character_line : fails.
Lemma scan_step_line brace word initial pattern s : fails_in names_line (scan_step line syntax nested brace word initial pattern s).
Proof. unfold scan_step. fails. Qed.
#[local] Hint Resolve scan_step_line : fails.
Lemma scan_loop_line brace word initial pattern fuel : forall s, fails_in names_line (scan_loop line syntax nested brace word initial pattern fuel s).
Proof. induction fuel as [|fuel IH]; intros s; cbn [scan_loop]; fails. Qed.
#[local] Hint Resolve scan_loop_line : fails.
Lemma parse_level_line brace word initial pattern l : fails_in names_line (parse_level line syntax nested brace word initial pattern l).
Proof. unfold parse_level. fails. Qed.
End level.
#[local] Hint Resolve parse_level_line : fails.

Lemma parse_word_line levels : forall nesting quote pattern l, fails_in names_line (parse_word line syntax levels nesting quote pattern l).
Proof. induction levels as [|levels IH]; intros; cbn [parse_word]; fails. Qed.
#[local] Hint Resolve parse_word_line : fails.
Lemma parse_expression_line input : fails_in names_line (ExprParser.parse line syntax input).
Proof. unfold ExprParser.parse, parse_top. fails. Qed.
Lemma parse_top_line word input : fails_in names_line (parse_top line syntax word input).
Proof. unfold parse_top. fails. Qed.
End expressions.
#[export] Hint Resolve names_error names_depth_error parse_expression_line parse_top_line : fails.

Lemma parse_assignment_word_line {T : Target} input line : fails_in (names_line line) (parse_assignment_word input line).
Proof.
  unfold parse_assignment_word. apply fails_bind; [|intros ? _; fails]. apply fails_map_err. eapply fails_weaken; [|apply parse_top_line].
  intros e He. exact He.
Qed.
Lemma parse_command_expression_line {T : Target} input line : fails_in (names_line line) (parse_command_expression input line).
Proof. unfold parse_command_expression. fails. Qed.
#[export] Hint Resolve parse_assignment_word_line parse_command_expression_line : fails.

(** * Lines *)

Section lines.
Context {T : Target} {R : RegexEngine} {RC : RegexCompiler} (first last : nat).

Definition within (e : ParseError) : Prop := (first <= perr_line e <= last)%nat.

Lemma of_expansion_line {A} (m : result ExpansionError A) line : (first <= line <= last)%nat -> fails_in (names_line line) m -> fails_in within (of_expansion m).
Proof. intros Hl Hm. apply fails_map_err. eapply fails_weaken; [|exact Hm]. intros e He. unfold within. cbn. by rewrite He. Qed.
#[local] Hint Extern 2 (fails_in within (of_expansion (parse_assignment_word _ _))) => eapply of_expansion_line; [|apply parse_assignment_word_line]; lia : fails.
#[local] Hint Extern 2 (fails_in within (of_expansion (parse_command_expression _ _))) => eapply of_expansion_line; [|apply parse_command_expression_line]; lia : fails.
Lemma within_error line message : (first <= line <= last)%nat -> within (parse_error line message).
Proof. done. Qed.
Lemma within_limit line message : (first <= line <= last)%nat -> within (parse_limit line message).
Proof. done. Qed.
Lemma within_refuse {A} line message : (first <= line <= last)%nat -> fails_in within (refuse (A := A) line message).
Proof. done. Qed.
#[local] Hint Resolve within_error within_limit within_refuse : fails.
#[local] Hint Extern 3 (_ <= _ <= _)%nat => lia : fails.

Section one_line.
Context (line : nat) (Hline : (first <= line <= last)%nat).

Lemma check_linebuf_line text limit : fails_in within (check_linebuf text line limit).
Proof. unfold check_linebuf. fails. Qed.
Lemma check_count_limit_line count limit name : fails_in within (check_count_limit count limit line name).
Proof. unfold check_count_limit. fails. Qed.
Lemma overflows_line name : within (overflows line name).
Proof. unfold overflows. fails. Qed.
#[local] Hint Resolve check_linebuf_line check_count_limit_line overflows_line : fails.
Lemma check_statement_line b : fails_in within (check_statement b line).
Proof. unfold check_statement. fails. Qed.
Lemma charge_recipe_line b : fails_in within (charge_recipe b line).
Proof. unfold charge_recipe. fails. Qed.
Lemma charge_assignment_line b usage : fails_in within (charge_assignment b line usage).
Proof. unfold charge_assignment. fails. Qed.
Lemma check_condition_line b n : fails_in within (check_condition b n line).
Proof. unfold check_condition. fails. Qed.
Lemma check_regex_line b n : fails_in within (check_regex b n line).
Proof. unfold check_regex. fails. Qed.
Lemma record_recipe_contents_line b n m : fails_in within (record_recipe_contents b n m line).
Proof. unfold record_recipe_contents. fails. Qed.
Lemma check_nesting_line b depth : fails_in within (check_nesting b depth line).
Proof. unfold check_nesting. fails. Qed.

Lemma push_regex_bytes_line output value : fails_in within (push_regex_bytes output value line).
Proof. unfold push_regex_bytes. apply fails_map_err. destruct (try_extend_vec _ _ _) as [|[]]; fails. Qed.
#[local] Hint Resolve push_regex_bytes_line check_regex_line : fails.
Lemma render_line edits pattern : fails_in within (render edits pattern line).
Proof.
  unfold render. apply fails_bind; [|intros; fails]. generalize (@nil Z), 0%nat. induction (ed_edits edits) as [|e rest IH]; intros output cursor; cbn [render_edits]; fails.
Qed.
Lemma push_edit_line s start end_ r : fails_in within (push_edit line s start end_ r).
Proof. unfold push_edit. fails. Qed.
#[local] Hint Resolve push_edit_line render_line : fails.
Lemma visit_leaf_line pattern s leaf : fails_in within (visit_leaf pattern line s leaf).
Proof. unfold visit_leaf, visit_assertion, visit_literal. fails. Qed.
#[local] Hint Resolve visit_leaf_line : fails.
Lemma visit_leaves_line pattern leaves : forall s, fails_in within (visit_leaves pattern line s leaves).
Proof. induction leaves as [|leaf rest IH]; intros s; cbn [visit_leaves]; fails. Qed.
Lemma parse_regex_ast_line pattern : fails_in within (parse_regex_ast pattern line).
Proof. unfold parse_regex_ast. destruct (regex_ast pattern); fails. Qed.
#[local] Hint Resolve visit_leaves_line parse_regex_ast_line : fails.
Lemma prepare_condition_regex_line pattern : fails_in within (prepare_condition_regex pattern line).
Proof. unfold prepare_condition_regex. fails. Qed.
Lemma marker_groups_line names markers : fails_in within (marker_groups markers names line).
Proof. induction markers; cbn [marker_groups]; fails. Qed.
#[local] Hint Resolve prepare_condition_regex_line marker_groups_line : fails.
Lemma compile_condition_regex_line pattern cs : fails_in within (compile_condition_regex pattern line cs).
Proof.
  unfold compile_condition_regex. destruct (_ <? _); [fails|]. apply fails_bind; [fails|intros [[? ?] ?] _].
  apply fails_bind; [destruct (build_regex _ _); fails|intros ? _]. cbv zeta. fails.
Qed.
#[local] Hint Resolve compile_condition_regex_line : fails.

(** ** Conditions *)

Section fields.
Context {F : Type} `{!EqDecision F} (condition : bytes) (field_name : F -> bytes).
Lemma push_field_line (fields : list F) (field : F) name : fails_in within (push_field condition line fields field name).
Proof. unfold push_field, repeats. fails. Qed.
#[local] Hint Resolve push_field_line : fails.
Lemma push_group_line (group : list F) : forall fields, fails_in within (push_group condition field_name line fields group).
Proof. induction group; intros fields; cbn [push_group]; fails. Qed.
#[local] Hint Resolve push_group_line : fails.
Lemma add_fields_line groups names refuses items : forall fields : list F, fails_in within (add_fields condition field_name line groups names refuses items fields).
Proof. induction items; intros fields; cbn [add_fields]; cbv zeta; fails. Qed.
End fields.
#[local] Hint Resolve add_fields_line : fails.

Lemma structured_condition_target_line input : fails_in within (structured_condition_target input line).
Proof.
  assert (forall condition lists rest target, (forall text, fails_in within (target text)) -> fails_in within (field_list_form condition lists rest line target)) as Hform.
  { intros condition lists rest target Ht. unfold field_list_form. fails. }
  unfold structured_condition_target. repeat destruct (after_keyword _ _); [apply Hform; intros; fails..|fails].
Qed.
Lemma condition_regex_target_line input : fails_in within (condition_regex_target input line).
Proof. unfold condition_regex_target. fails. Qed.
Lemma parse_condition_size_line input : fails_in within (parse_condition_size input line).
Proof. unfold parse_condition_size. fails. Qed.
Lemma validate_program_condition_line command : fails_in within (validate_program_condition command line).
Proof. unfold validate_program_condition. fails. Qed.
Lemma parse_multipart_check_line input cs b n : fails_in within (parse_multipart_check input line cs b n).
Proof. unfold parse_multipart_check. fails. Qed.
#[local] Hint Resolve structured_condition_target_line condition_regex_target_line parse_condition_size_line validate_program_condition_line
  parse_multipart_check_line : fails.
Lemma parse_single_line_multipart_line input cs n b : fails_in within (parse_single_line_multipart input line cs n b).
Proof. unfold parse_single_line_multipart. fails. Qed.
Lemma parse_regex_condition_line input cs n b : fails_in within (parse_regex_condition input line cs n b).
Proof. unfold parse_regex_condition. fails. Qed.
#[local] Hint Resolve parse_single_line_multipart_line parse_regex_condition_line : fails.
Lemma parse_condition_line input cs n b : fails_in within (parse_condition input line cs n b).
Proof.
  assert (forall text r, parse_marked_condition text line = Some r -> fails_in within r) as Hmarked.
  { intros text r. unfold parse_marked_condition. destruct text as [|x value]; [done|].
    repeat destruct (_ =? _); intros H; simplify_eq; cbv zeta; fails. }
  unfold parse_condition. destruct (negation _). destruct (bool_decide _); [fails|]. destruct (has_scoring_prefix _); [fails|].
  apply fails_bind; [fails|intros multipart _]. apply fails_bind; [|intros; fails]. destruct multipart; [fails|].
  destruct (parse_marked_condition _ _) eqn:Hm; [by eapply Hmarked|fails].
Qed.

(** ** Headers and settings *)

Lemma validate_header_name_line name : fails_in within (validate_header_name name line).
Proof. unfold validate_header_name. fails. Qed.
Lemma name_too_long_line : within (name_too_long line).
Proof. unfold name_too_long. fails. Qed.
Lemma not_supported_line name : within (not_supported line name).
Proof. unfold not_supported. fails. Qed.
Lemma parse_header_value_source_line value : fails_in within (parse_header_value_source value line).
Proof. unfold parse_header_value_source. fails. Qed.
#[local] Hint Resolve validate_header_name_line name_too_long_line not_supported_line parse_header_value_source_line : fails.
Lemma validate_header_extraction_target_line name : fails_in within (validate_header_extraction_target name line).
Proof. unfold validate_header_extraction_target. fails. Qed.
Lemma parse_list_mode_line operation arguments rest : fails_in within (parse_list_mode operation arguments rest line).
Proof. unfold parse_list_mode. cbv zeta. fails. Qed.
#[local] Hint Resolve validate_header_extraction_target_line parse_list_mode_line : fails.
Lemma parse_header_operation_line text : fails_in within (parse_header_operation text line).
Proof.
  unfold parse_header_operation, parse_remove, parse_rename, parse_extract, parse_keywords_operation, parse_priority_operation,
    parse_status_operation, parse_valued_operation. cbv zeta. fails.
Qed.
Lemma validate_header_action_recipe_line flags lock : fails_in within (validate_header_action_recipe flags lock line).
Proof. unfold validate_header_action_recipe. fails. Qed.

Lemma rc_target_line name what : fails_in within (rc_target name line what).
Proof. unfold rc_target. fails. Qed.
#[local] Hint Resolve rc_target_line : fails.
Lemma parse_assignment_line text : fails_in within (parse_assignment text line).
Proof.
  assert (forall name value, fails_in within (assign_value name value line)) as Ha by (intros; unfold assign_value; cbv zeta; fails).
  unfold parse_assignment. destruct (match split_once _ _ with Some _ => _ | None => _ end) as [[name value]|]; cbv zeta; fails.
Qed.
Lemma assign_value_names name value a : assign_value name value line = Ok a -> as_line a = line.
Proof.
  unfold assign_value. intros H. apply result_bind_Ok in H as (? & _ & H). destruct (_ <? _) in H; [done|].
  apply result_bind_Ok in H as (? & _ & H). cbv zeta in H. destruct (_ <? _) in H; [done|]. by injection H as <-.
Qed.
Lemma parse_assignment_names text a : parse_assignment text line = Ok (Some a) -> as_line a = line.
Proof.
  unfold parse_assignment. destruct (match split_once _ _ with Some _ => _ | None => _ end) as [[name value]|]; [|done]. cbv zeta.
  destruct (_ <? _); [done|]. destruct (negb _); [done|]. destruct (assign_value _ _ _) eqn:Ha; [|done]. intros [= <-]. by eapply assign_value_names.
Qed.
Lemma parse_unset_line text : fails_in within (parse_unset text line).
Proof. unfold parse_unset. fails. Qed.
End one_line.
#[local] Hint Resolve check_linebuf_line check_statement_line charge_recipe_line charge_assignment_line check_condition_line
  record_recipe_contents_line check_nesting_line parse_multipart_check_line parse_condition_line parse_header_operation_line
  validate_header_action_recipe_line name_too_long_line not_supported_line rc_target_line parse_assignment_line parse_unset_line : fails.

Lemma parse_setting_line raw line depth s : (first <= line <= last)%nat -> fails_in within (parse_setting raw line depth s).
Proof.
  intros Hl. assert (forall a, as_line a = line -> fails_in within (assignment_statement a)) as Hst
    by (intros a Ha; unfold assignment_statement; rewrite Ha; fails).
  assert (forall b a, as_line a = line -> fails_in within (apply_assignment b a)) as Happly.
  { intros b a Ha. unfold apply_assignment, apply_rc_limit, apply_linebuf. rewrite Ha. apply fails_bind; [|intros; fails].
    destruct (as_target a); try solve [fails]. apply fails_bind; [fails|intros value _]. destruct (set_rc_limit _ _ _); fails. }
  assert (forall a st, assignment_statement a = Ok st -> forall a', st = S_Assignment a' -> a' = a) as Hsame.
  { unfold assignment_statement. intros a st H a' ->. repeat case_match; inv_ok; by simplify_eq. }
  unfold parse_setting. cbv zeta. apply fails_bind; [fails|]. intros [a|] Ha; [|fails].
  apply parse_assignment_names in Ha. apply fails_bind; [fails|intros ? _]. destruct (_ && _); [fails|].
  apply fails_bind; [by apply Hst|]. intros st Hs. apply fails_bind; [|intros; fails].
  destruct st; try exact I. rewrite (Hsame _ _ Hs _ eq_refl). by apply Happly.
Qed.
#[local] Hint Resolve parse_setting_line : fails.

(** ** Many lines *)

Lemma continue_command_line start linebuf description rest : (first <= S start <= last)%nat ->
  forall index raw physical command, (first <= S index)%nat -> (S index + length rest <= last)%nat ->
  fails_in within (continue_command start linebuf description rest index raw physical command).
Proof.
  intros Hs. induction rest as [|line rest IH]; intros index raw physical command Hi Hr; cbn [continue_command length] in *; cbv zeta; [fails|].
  repeat (apply fails_bind; [fails|intros ? _]). destruct (_ <? _); [fails|]. destruct (_ <? _); [fails|]. destruct (negb _); [fails|].
  apply fails_bind; [fails|]. intros m [-> _]%ok_or_Ok%checked_add_Some. apply IH; lia.
Qed.
Lemma continue_condition_line start linebuf keeps rest : (first <= S start <= last)%nat ->
  forall index raw physical condition, (first <= S index)%nat -> (S index + length rest <= last)%nat ->
  fails_in within (continue_condition start linebuf keeps rest index raw physical condition).
Proof.
  intros Hs. induction rest as [|line rest IH]; intros index raw physical condition Hi Hr; cbn [continue_condition length] in *; cbv zeta; [fails|].
  repeat (apply fails_bind; [fails|intros ? _]). destruct (_ <? _); [fails|]. destruct (negb _); [fails|].
  apply fails_bind; [fails|]. intros m [-> _]%ok_or_Ok%checked_add_Some. apply IH; lia.
Qed.
Lemma parse_header_lines_line opening linebuf rest : (first <= S opening <= last)%nat ->
  forall index operations, (first <= S index)%nat -> (index + length rest <= last)%nat ->
  fails_in within (parse_header_lines rest index opening linebuf operations).
Proof.
  intros Hs. induction rest as [|raw rest IH]; intros index operations Hi Hr; cbn [parse_header_lines length] in *; cbv zeta; [fails|].
  apply fails_bind; [fails|intros ? _]. destruct (is_blank_line _); [apply IH; lia|]. destruct (bytes_eqb _ _); [fails|].
  destruct (_ =? _)%nat; [fails|]. apply fails_bind; [fails|intros ? _]. apply IH; lia.
Qed.
Lemma parse_multipart_lines_line b opening negated cs rest : (first <= S opening <= last)%nat ->
  forall index n checks, (first <= S index)%nat -> (index + length rest <= last)%nat ->
  fails_in within (parse_multipart_lines rest index opening negated cs n b checks).
Proof.
  intros Hs. induction rest as [|raw rest IH]; intros index n checks Hi Hr; cbn [parse_multipart_lines length] in *; cbv zeta; [fails|].
  apply fails_bind; [fails|intros ? _]. destruct (is_blank_line _); [apply IH; lia|].
  destruct (bytes_eqb _ _); [fails|]. apply fails_bind; [fails|intros ? _]. destruct (existsb _ _); [fails|].
  apply fails_bind; [unfold regexes_overflow; fails|intros ? _]. apply IH; lia.
Qed.

Context (lines : list bytes) (Hfirst : (first <= 1)%nat) (Hlast : (Nat.max (length lines) 1 <= last)%nat).

Lemma parse_command_continuation_line start text linebuf description : (start < length lines)%nat ->
  fails_in within (parse_command_continuation lines start text linebuf description).
Proof. intros Hs. unfold parse_command_continuation. apply continue_command_line; rewrite ?length_drop; lia. Qed.
Lemma parse_conditions_line b cs rest : forall index resume acc n, (index + length rest = length lines)%nat ->
  fails_in within (parse_conditions lines rest index resume cs b acc n).
Proof.
  induction rest as [|raw rest IH]; intros index resume acc n Hr; cbn [parse_conditions length] in *; cbv zeta; [fails|].
  destruct (_ <? _)%nat; [apply IH; lia|]. apply fails_bind; [fails|intros ? _]. destruct (is_blank_line _); [apply IH; lia|].
  destruct (starts_with _ _); [|fails]. apply fails_bind; [fails|intros ? _]. destruct (is_multipart_block_start _).
  - apply fails_bind; [apply parse_multipart_lines_line; rewrite ?length_drop; lia|]. intros [[? ?] ?] _. apply IH. lia.
  - apply fails_bind; [|intros [source next] _].
    { unfold parse_condition_continuation. apply fails_bind; [fails|intros ? _]. apply continue_condition_line; rewrite ?length_drop; lia. }
    apply fails_bind; [fails|intros [? ?] _]. apply fails_bind; [unfold regexes_overflow; fails|intros ? _]. apply IH. lia.
Qed.

Lemma parse_action_line action capture options lock start index depth s : (start < length lines)%nat -> (index < length lines)%nat ->
  fails_in within (parse_action lines action capture options lock start index depth s).
Proof.
  intros Hs Hi. unfold parse_action. cbv zeta. destruct (action_form action capture).
  - apply fails_bind; [fails|intros ? _]. apply fails_bind; [fails|intros [? ?] _].
    apply fails_bind; [by apply parse_command_continuation_line|]. intros [? ?] _. fails.
  - apply fails_bind; [|intros [? ?] _; fails]. unfold parse_pipe_command. cbv zeta. destruct (bool_decide _); [fails|]. by apply parse_command_continuation_line.
  - apply fails_bind; [|intros [? ?] _; fails]. apply parse_header_lines_line; rewrite ?length_drop; lia.
  - fails.
  - destruct (starts_with _ _); [fails|]. apply fails_bind; [|intros; fails].
    assert (forall source typed, fails_in within (path ← required_path source (S index) (B "destination path"); destination_path_expression path (S index) typed)) as Hpath
      by (intros; unfold required_path, check_path_length, destination_path_expression; cbv zeta; fails).
    unfold parse_destination. cbv zeta. repeat case_match; apply fails_fmap, Hpath.
Qed.

Lemma parse_recipe_head_line start depth s : (start < length lines)%nat -> fails_in within (parse_recipe_head lines start depth s).
Proof.
  intros Hs. unfold parse_recipe_head. apply fails_bind; [fails|intros rest _].
  apply fails_bind; [unfold parse_recipe_header, check_path_length, check_flags; cbv zeta; fails|intros [[options lock] flags] _]. cbv zeta.
  apply fails_bind; [apply parse_conditions_line; rewrite length_drop; lia|intros [[conditions n] index] _].
  apply fails_bind; [fails|intros raw Hraw%ok_or_Ok%lookup_lt_Some]. apply fails_bind; [fails|intros ? _]. apply fails_bind; [fails|intros ? _].
  apply fails_bind; [unfold check_action_line; fails|intros ? _].
  apply fails_bind; [unfold parse_capture_action_prefix; cbv zeta; fails|intros capture _].
  apply fails_bind; [unfold check_action_options, validate_destination_syntax; cbv zeta; fails|intros o _].
  apply fails_bind; [by apply parse_action_line|intros; fails].
Qed.

Lemma parse_statements_line rest : forall index resume depth s acc, (index + length rest = length lines)%nat ->
  fails_in within (parse_statements lines rest index resume depth s acc).
Proof.
  induction rest as [|raw rest IH]; intros index resume depth s acc Hr; cbn [parse_statements length] in *; cbv zeta; [fails|].
  destruct (_ <? _)%nat; [apply IH; lia|]. apply fails_bind; [fails|intros ? _]. destruct (is_blank_line _); [apply IH; lia|].
  destruct (bytes_eqb _ _); [fails|]. apply fails_bind; [fails|intros ? _]. destruct (starts_with _ _).
  - apply fails_bind; [fails|intros ? _]. apply fails_bind; [apply parse_recipe_head_line; lia|intros [head s2] _].
    destruct (rh_action head); [apply IH; lia|]. apply fails_bind; [apply IH; lia|intros [[block next] s3] _]. apply IH. lia.
  - apply fails_bind; [fails|intros [st s1] _]. apply IH. lia.
Qed.
End lines.

(** C24: Every error of the parser names a line of the file: from 1 to the number of
    its lines, and line 1 where there is none. *)
Theorem parse_error_names_line `{Target} {R : RegexEngine} {RC : RegexCompiler} (input : bytes) (s : ParseBudget) (e : ParseError)
    (Hp : parse_with_state input s = Err e) : (1 <= perr_line e <= Nat.max (length (str_lines input)) 1)%nat.
Proof.
  assert (fails_in (within 1 (Nat.max (length (str_lines input)) 1)) (parse_with_state input s)) as Hw.
  { unfold parse_with_state. destruct (_ <? _); [by apply within_limit; lia|]. cbv zeta.
    apply fails_bind; [apply parse_statements_line; lia|intros [[l n] after] _]. apply fails_bind; [|intros; exact I].
    assert (forall m, fails_in (within 1 (Nat.max (length (str_lines input)) 1)) (refuse (A := Z) 1 m)) as Hone by (intros; apply within_refuse; lia).
    unfold subtract_counts. cbv zeta. repeat (apply fails_bind; [destruct (_ <? _); [apply Hone|exact I]|intros ? _]). exact I. }
  by rewrite Hp in Hw.
Qed.

Lemma parse_error_names_line_witness :
  exists e, parse_with_state (R := plain_engine) (RC := plain_compiler) (rc_text [B "A=b"; B ":0"; B "* ! < ten"; B "inbox/"]) empty_budget = Err e /\
    perr_line e = 3%nat /\ (1 <= perr_line e <= 4)%nat.
Proof.
  destruct (parse_with_state (R := plain_engine) (RC := plain_compiler) (rc_text [B "A=b"; B ":0"; B "* ! < ten"; B "inbox/"]) empty_budget) as [[c s']|e] eqn:Hp;
    [vm_compute in Hp; discriminate Hp|].
  exists e. split; [reflexivity|].
  pose proof (parse_error_names_line _ _ _ Hp) as Hl. vm_compute in Hp. injection Hp as <-. split; [reflexivity|exact Hl].
Defined.
