(* ===== verification/Prepare.v ===== *)
(** Preparation: the statements half of [src/src/config/expand.rs].  Before a
    message is read, every statement of a parsed file is prepared: what only
    depends on known values is evaluated and checked, what a run provides is
    checked for names that cannot be there and left as an expression. *)
From stdpp Require Import gmap pretty.
From S2P Require Import Prelude Numbers Config Limits Utf8 HeaderValue StructuredHeader Variables Runtime Settings ShellPattern ShellEval ExprParser Expand Binding Syntax RegexSyntax ConditionSyntax.
#[local] Open Scope Z_scope.

(** The targets of the assignments in an expression, in the order of the text.
    Source: config/mod.rs `pub(crate) fn for_each_assignment` *)
Fixpoint assignment_targets (e : ShellExpression) : list bytes :=
  match e with MkShellExpression ps => flat_map part_targets ps end
with part_targets (p : ShellPart) : list bytes :=
  match p with
  | Variable_ name op => (match op with AssignIfUnsetOrEmpty _ => [name] | _ => [] end) ++ operation_targets op
  | PatternQuote e => assignment_targets e
  | Literal _ | RegexQuotedVariable _ | Command _ => []
  end
with operation_targets (op : ParameterOperation) : list bytes :=
  match op with
  | Value | Length_ | ErrorIfUnsetOrEmpty _ => []
  | DefaultIfUnset w | DefaultIfUnsetOrEmpty w | AlternateIfSet w | AlternateIfSetAndNotEmpty w | AssignIfUnsetOrEmpty w => assignment_targets w
  | RemovePrefix p _ | RemoveSuffix p _ | ChangeCase p _ _ => assignment_targets p
  end.

(** Source: config/expand.rs `enum PreparationPhase` *)
Inductive PreparationPhase := Eager | Deferred.
#[export] Instance PreparationPhase_eq_dec : EqDecision PreparationPhase.
Proof. solve_decision. Defined.

Abbreviation Names := (gset (list Z)).
Definition fixed_value (text : bytes) : ExpandedValue := {| ev_text := text; ev_depth := 0 |}.
Definition known_text (known : KnownValues) (name : bytes) : option bytes := ev_text <$> known !! name.
Definition positional_names : list bytes := decimal <$> seq 1 MAX_POSITIONAL_ARGUMENTS.
Definition add_names (names : list bytes) (dynamic : Names) : Names := list_to_set names ∪ dynamic.

(** Source: config/expand.rs `fn mark_positional_dynamic` *)
Definition mark_positional_dynamic (dynamic : Names) : Names := add_names (B "#" :: positional_names) dynamic.
(** [variables.entry(name).or_insert(value)] *)
Definition or_insert (name : bytes) (value : ExpandedValue) (known : KnownValues) : KnownValues :=
  match known !! name with Some _ => known | None => <[name := value]> known end.
(** Source: config/expand.rs `fn populate_missing_positionals` *)
Definition populate_missing_positionals (known : KnownValues) : KnownValues :=
  or_insert (B "#") (fixed_value (B "0")) (foldl (fun known name => or_insert name (fixed_value []) known) known positional_names).

(** Source: config/expand.rs `fn reject_parameter_assignments` *)
Definition reject_parameter_assignments (e : ShellExpression) (line : nat) (context : bytes) : result ExpansionError () :=
  if has_assignments e then Err (expansion_error line (B "parameter assignment is not supported in " ++ context)) else Ok tt.
(** Source: config/expand.rs `fn validate_runtime_references(@1` *)
Definition check_runtime_references (e : ShellExpression) (line : nat) (known : KnownValues) (dynamic : Names) : result ExpansionError () :=
  validate_runtime_references (analyze known dynamic e) line.

Section prepare.
Context {T : Target}.

(** Source: config/expand.rs `fn shift_known_positionals` *)
Definition shift_known_positionals (known : KnownValues) (value : bytes) (line : nat) : result ExpansionError KnownValues :=
  requested ← map_err (expansion_error line) (parse_shift value);
  let count := default 0 (known_text known (B "#") ≫= parse_usize) in
  let amount := Z.min requested count in
  let remaining := count - amount in
  let shifted index := if Z.of_nat index <=? remaining then default (fixed_value []) (known !! z_decimal (Z.of_nat index + amount)) else fixed_value [] in
  let moved := foldl (fun new index => <[decimal index := shifted index]> new) known (seq 1 MAX_POSITIONAL_ARGUMENTS) in
  Ok (<[B "#" := fixed_value (z_decimal remaining)]> moved).

(** Source: config/expand.rs `fn parse_linebuf(` *)
Definition parse_linebuf (value : bytes) (line : nat) : result ExpansionError Z :=
  parsed ← ok_or (expansion_error line (B "LINEBUF must be an unsigned decimal integer")) (parse_usize value);
  if between MIN_LINEBUF MAX_LINEBUF parsed then Ok parsed
  else Err (expansion_error line (B "LINEBUF must be from " ++ z_decimal MIN_LINEBUF ++ B " through " ++ z_decimal MAX_LINEBUF ++ B " bytes")).

(** * Header actions and locks *)

Section known.
Context (known : KnownValues) (dynamic : Names).

Definition depends_on_run (a : ExpressionAnalysis) : bool := needs_runtime a || references_dynamic a.

Definition prepare_header_operation (op : HeaderOperation) : result ExpansionError HeaderOperation :=
  match header_operation_value op with
  | None => Ok op
  | Some (line, check, value, rebuilt) =>
      expression ← parse_expression (hv_source value) line;
      _ ← reject_parameter_assignments expression line (B "native header value");
      let analysis := analyze known dynamic expression in
      _ ← validate_runtime_references analysis line;
      _ ← (if depends_on_run analysis then Ok tt
           else expanded ← evaluate_with_linebuf expression line MAX_ASSIGNMENT_VALUE_LEN (known_text known);
                validate_header_value check (ev_text expanded) line);
      Ok (rebuilt {| hv_source := hv_source value; hv_expansion := Some expression |})
  end.
Fixpoint prepare_header_operations (ops : list HeaderOperation) : result ExpansionError (list HeaderOperation) :=
  match ops with [] => Ok [] | op :: rest => op ← prepare_header_operation op; rest ← prepare_header_operations rest; Ok (op :: rest) end.
(** Source: config/expand.rs `fn prepare_header_action` *)
Definition prepare_header_action (action : HeaderAction) : result ExpansionError HeaderAction :=
  ops ← prepare_header_operations (operations action); Ok {| operations := ops |}.

(** A path expression with what preparation sets. *)
Definition prepared_path (e : PathExpression) (base : option bytes) (line : nat) (dependent runtime_base : bool) (expansion : option ShellExpression) : PathExpression :=
  {| pe_source := pe_source e; pe_base := base; pe_location := at_line (pe_location e) line; pe_runtime_dependent := dependent;
     pe_runtime_base := runtime_base; pe_typed_destination := pe_typed_destination e; pe_expansion := expansion |}.

(** Source: config/expand.rs `fn prepare_lock_expression` *)
Definition prepare_lock_expression (e : PathExpression) (line : nat) (maildir : option bytes) : result ExpansionError PathExpression :=
  parsed ← parse_expression (pe_source e) line;
  _ ← reject_parameter_assignments parsed line (B "lockfile path");
  let analysis := analyze known dynamic parsed in
  _ ← validate_runtime_references analysis line;
  let dependent := depends_on_run analysis in
  let prepared := prepared_path e maildir line dependent dependent (Some parsed) in
  _ ← (if negb dependent && negb (bool_decide (pe_source e = [])) then dropped (resolve_lock_path prepared (known_text known)) else Ok tt);
  Ok prepared.
End known.

(** * Conditions *)

Section conditions.
Context {R : RegexEngine} {RC : RegexCompiler}.
(** [std::process::id], which the variable [$] of a fresh runtime has. *)
Context (pid : bytes).

(** The variables of a fresh runtime with the known values. *)
Definition known_runtime (known : KnownValues) : RuntimeVariables :=
  foldl (fun runtime '(name, value) => set runtime name (ev_text value)) (default_runtime pid) (map_to_list known).

Definition of_parse {A} : result ParseError A -> result ExpansionError A :=
  map_err (fun error => expansion_error (perr_line error) (perr_message error)).
Definition with_kind (c : Condition) (negated : bool) (kind : ConditionKind) : Condition :=
  {| cond_line := cond_line c; cond_negated := negated; cond_kind := kind |}.

(** The passes over one condition; after this one, [passes] are left.
    Source: config/expand.rs:1441-1480 `prepare_shell_conditions (passes)` *)
Fixpoint prepare_shell_condition (known : KnownValues) (dynamic : Names) (case_sensitive : bool) (passes : nat) (c : Condition) : result ExpansionError Condition :=
  match cond_kind c with
  | CK_ShellExpanded shell =>
      expression ← parse_shell_condition_expression (se_source shell) (cond_line c);
      _ ← reject_parameter_assignments expression (cond_line c) (B "shell-expanded condition");
      let analysis := analyze known dynamic expression in
      _ ← validate_shell_condition_references analysis (cond_line c);
      let prepared := {| se_source := se_source shell; se_expansion := Some expression |} in
      if negb (shell_condition_static analysis) then Ok (with_kind c (cond_negated c) (CK_ShellExpanded prepared))
      else
        match passes with
        | O => Err (expansion_error (cond_line c) (B "condition expansion exceeds the hard depth limit of " ++ decimal MAX_EXPANSION_DEPTH))
        | S passes =>
            expanded ← expand_shell_condition prepared (cond_line c) (known_runtime known);
            parsed ← of_parse (parse_reparsed_condition (str_trim_start expanded) (cond_line c) case_sensitive);
            prepare_shell_condition known dynamic case_sensitive passes (with_kind c (xorb (cond_negated c) (cond_negated parsed)) (cond_kind parsed))
        end
  | _ => Ok c
  end.
Fixpoint prepare_conditions (known : KnownValues) (dynamic : Names) (case_sensitive : bool) (cs : list Condition) : result ExpansionError (list Condition) :=
  match cs with
  | [] => Ok []
  | c :: rest =>
      c ← prepare_shell_condition known dynamic case_sensitive MAX_EXPANSION_DEPTH c;
      rest ← prepare_conditions known dynamic case_sensitive rest; Ok (c :: rest)
  end.
(** Source: config/expand.rs `fn prepare_shell_conditions` *)
Definition prepare_shell_conditions (known : KnownValues) (dynamic : Names) (options : RecipeOptions) (cs : list Condition) : result ExpansionError (list Condition) :=
  prepare_conditions known dynamic (match case_mode options with Sensitive => true | Insensitive => false end) cs.

(** * The preparer *)

(** Source: config/expand.rs `struct ConfigPreparer` *)
Record ConfigPreparer := {
  pr_known : KnownValues; pr_dynamic : Names; pr_maildir : option bytes; pr_linebuf : Z; pr_phase : PreparationPhase;
}.
Definition with_known (known : KnownValues) (p : ConfigPreparer) : ConfigPreparer :=
  {| pr_known := known; pr_dynamic := pr_dynamic p; pr_maildir := pr_maildir p; pr_linebuf := pr_linebuf p; pr_phase := pr_phase p |}.
Definition with_dynamic (dynamic : Names) (p : ConfigPreparer) : ConfigPreparer :=
  {| pr_known := pr_known p; pr_dynamic := dynamic; pr_maildir := pr_maildir p; pr_linebuf := pr_linebuf p; pr_phase := pr_phase p |}.
Definition with_maildir (maildir : option bytes) (p : ConfigPreparer) : ConfigPreparer :=
  {| pr_known := pr_known p; pr_dynamic := pr_dynamic p; pr_maildir := maildir; pr_linebuf := pr_linebuf p; pr_phase := pr_phase p |}.
Definition with_active_linebuf (linebuf : Z) (p : ConfigPreparer) : ConfigPreparer :=
  {| pr_known := pr_known p; pr_dynamic := pr_dynamic p; pr_maildir := pr_maildir p; pr_linebuf := linebuf; pr_phase := pr_phase p |}.
Definition preparer_analysis (p : ConfigPreparer) (e : ShellExpression) : ExpressionAnalysis := analyze (pr_known p) (pr_dynamic p) e.

(** ** Assignments *)

Definition with_expansion (a : Assignment) (value : bytes) (expansion : option ShellExpression) : Assignment :=
  {| as_line := as_line a; as_name := as_name a; as_value := value; as_target := as_target a; as_expansion := expansion |}.
(** The names a target makes unknown until the run. *)
Definition assigned_dynamic (target : AssignmentTarget) (name : bytes) (dynamic : Names) : Names :=
  if bool_decide (target = Shift) then mark_positional_dynamic dynamic else {[name]} ∪ dynamic.

(** Source: config/expand.rs `fn validate_static_assignment` *)
Definition validate_static_assignment (p : ConfigPreparer) (a : Assignment) : result ExpansionError ConfigPreparer :=
  _ ← map_err (expansion_error (as_line a)) (validate_known_value (as_target a) (as_value a));
  if bool_decide (as_target a = LineBuf) then (fun value => with_active_linebuf value p) <$> parse_linebuf (as_value a) (as_line a)
  else Ok p.
(** Source: config/expand.rs `fn resolve_static_assignment_path` *)
Definition resolve_static_assignment_path (p : ConfigPreparer) (a : Assignment) : result ExpansionError (Assignment * ConfigPreparer) :=
  match assignment_path (as_target a) with
  | None => Ok (a, p)
  | Some path =>
      let '(purpose, description) := assignment_path_purpose path in
      value ← resolve_path (path_resolver purpose description (as_line a) (pr_maildir p)) (as_value a);
      Ok (with_expansion a value (as_expansion a), if bool_decide (as_target a = Maildir) then with_maildir (Some value) p else p)
  end.
(** Source: config/expand.rs `fn validate_known_deferred_assignment` *)
Definition validate_known_deferred_assignment (p : ConfigPreparer) (a : Assignment) (e : ShellExpression) (analysis : ExpressionAnalysis)
    : result ExpansionError () :=
  if depends_on_run analysis then Ok tt
  else
    value ← evaluate_config_expression e (as_line a) (value_limit (as_target a)) (pr_known p);
    map_err (expansion_error (as_line a)) (validate_known_value (as_target a) (ev_text value)).

(** Source: config/expand.rs `fn prepare_deferred_assignment` *)
Definition prepare_deferred_assignment (p : ConfigPreparer) (a : Assignment) : result ExpansionError (Assignment * ConfigPreparer) :=
  if negb (supports_conditional_assignment (as_target a)) then
    Err (expansion_error (as_line a) (B "variable " ++ as_name a ++ B " cannot be assigned conditionally yet"))
  else
    e ← compiled_or_parsed parse_assignment_expression (as_expansion a) (as_value a) (as_line a);
    let analysis := preparer_analysis p e in
    _ ← validate_runtime_references analysis (as_line a);
    _ ← validate_known_deferred_assignment p a e analysis;
    Ok (with_expansion a (as_value a) (Some e), with_dynamic (assigned_dynamic (as_target a) (as_name a) (pr_dynamic p)) p).

(** Source: config/expand.rs `fn prepare_assignment(` *)
Definition prepare_assignment (p : ConfigPreparer) (a : Assignment) : result ExpansionError (Assignment * ConfigPreparer) :=
  if bool_decide (pr_phase p = Deferred) then prepare_deferred_assignment p a
  else
    parsed ← compiled_or_parsed parse_assignment_expression (as_expansion a) (as_value a) (as_line a);
    let analysis := preparer_analysis p parsed in
    if references_dynamic analysis then
      _ ← validate_runtime_references analysis (as_line a);
      Ok (with_expansion a (as_value a) (Some parsed), with_dynamic ({[as_name a]} ∪ pr_dynamic p) p)
    else
      let hard_limit := value_limit (as_target a) in
      expanded ← map_err (fun error => relabel_linebuf_error error (pr_linebuf p) hard_limit)
                   (evaluate_config_expression parsed (as_line a) (Z.min hard_limit (pr_linebuf p)) (pr_known p));
      let a := with_expansion a (ev_text expanded) None in
      p ← validate_static_assignment p a;
      if bool_decide (as_target a = Shift) then
        known ← shift_known_positionals (pr_known p) (as_value a) (as_line a); Ok (a, with_known known p)
      else
        '(a, p) ← resolve_static_assignment_path p a;
        Ok (a, with_known (<[as_name a := {| ev_text := as_value a; ev_depth := ev_depth expanded |}]> (pr_known p)) p).

(** Source: config/expand.rs:836-886 `prepare_statement (CommandAssignment)` *)
Definition prepare_command_assignment (p : ConfigPreparer) (a : CommandAssignment) : result ExpansionError (Statement * ConfigPreparer) :=
  let targets := assignment_targets (ca_expression a) in
  let analysis := analyze (pr_known p) (add_names targets (pr_dynamic p)) (ca_expression a) in
  _ ← validate_runtime_references analysis (ca_line a);
  if bool_decide (pr_phase p = Eager) && negb (has_runtime_part analysis) && negb (references_dynamic analysis) then
    expansion ← bind_static_expression (ca_line a) (known_text (pr_known p)) (S MAX_EXPANSION_DEPTH) 0 (ca_expression a);
    '(assignment, p) ← prepare_assignment p {| as_line := ca_line a; as_name := ca_name a; as_value := ca_source a; as_target := ca_target a;
                                              as_expansion := Some expansion |};
    Ok (S_Assignment assignment, p)
  else Ok (S_CommandAssignment a, with_dynamic (assigned_dynamic (ca_target a) (ca_name a) (add_names targets (pr_dynamic p))) p).

(** Source: config/expand.rs:817-835 `prepare_statement (Unset)` *)
Definition prepare_unset (p : ConfigPreparer) (u : Unset) : result ExpansionError ConfigPreparer :=
  if bool_decide (pr_phase p = Deferred) && negb (supports_conditional_assignment (un_target u)) then
    Err (expansion_error (un_line u) (B "variable " ++ un_name u ++ B " cannot be unset conditionally yet"))
  else
    let p := with_dynamic (pr_dynamic p ∖ {[un_name u]}) (with_known (delete (un_name u) (pr_known p)) p) in
    let p := if bool_decide (un_target u = Maildir) then with_maildir None p else p in
    Ok (if bool_decide (un_target u = LineBuf) then with_active_linebuf DEFAULT_LINEBUF p else p).

(** Source: config/expand.rs:897-919 `prepare_statement (Include, Switch)` *)
Definition prepare_rc_file (p : ConfigPreparer) (e : RcFileExpression) : result ExpansionError (RcFileExpression * ConfigPreparer) :=
  let line := loc_line (rf_location e) in
  parsed ← parse_expression (rf_value e) line;
  _ ← reject_parameter_assignments parsed line (B "runtime rc path");
  if has_commands parsed then Err (expansion_error line (B "command substitution is not supported in runtime rc path"))
  else
    _ ← check_runtime_references parsed line (pr_known p) (pr_dynamic p);
    Ok ({| rf_location := rf_location e; rf_value := rf_value e; rf_expansion := Some parsed |},
        with_dynamic (mark_positional_dynamic (pr_dynamic p)) p).

(** ** Recipes *)

Definition with_expression (d : Destination) (e : PathExpression) : Destination :=
  match d with D_Mbox _ => D_Mbox e | D_Maildir _ => D_Maildir e | D_File _ => D_File e | D_Discard _ => D_Discard e end.

(** Source: config/expand.rs `fn prepare_destination` *)
Definition prepare_destination (p : ConfigPreparer) (d : Destination) (line : nat) (phase : PreparationPhase) : result ExpansionError Destination :=
  let e := destination_expression d in
  let runtime_base := bool_decide (B "MAILDIR" ∈ pr_dynamic p) in
  match command_expression d with
  | Some command =>
      _ ← check_runtime_references command line (pr_known p) (add_names (assignment_targets command) (pr_dynamic p));
      Ok (with_expression d (prepared_path e (pr_maildir p) line true runtime_base (pe_expansion e)))
  | None =>
      parsed ← parse_expression (pe_source e) line;
      let analysis := preparer_analysis p parsed in
      _ ← (if bool_decide (phase = Eager) then validate_path_references analysis line else validate_runtime_references analysis line);
      let has_runtime_reference := references_dynamic analysis || needs_runtime analysis in
      let prepared := with_expression d (prepared_path e (pr_maildir p) line has_runtime_reference runtime_base (Some parsed)) in
      if bool_decide (phase = Eager) && negb has_runtime_reference then
        resolved ← resolve_destination prepared (known_text (pr_known p));
        Ok (adopt_static_discard_classification prepared resolved)
      else Ok prepared
  end.

(** The names a recipe can set, once it is prepared.
    Source: config/expand.rs `fn record_recipe_dynamic_names` *)
Fixpoint recipe_dynamic_names (r : Recipe) (dynamic : Names) {struct r} : Names :=
  match r with MkRecipe _ _ _ _ _ action => action_dynamic_names action dynamic end
with action_dynamic_names (a : RecipeAction) (dynamic : Names) {struct a} : Names :=
  match a with
  | RA_Capture c => {[cap_name c]} ∪ dynamic
  | RA_Block statements => foldl (fun dynamic s => statement_dynamic_names s dynamic) dynamic statements
  | RA_Deliver d => match command_expression d with Some e => add_names (assignment_targets e) dynamic | None => dynamic end
  | RA_Headers h => foldl (fun dynamic op => match op with HO_Extract _ _ target _ => {[target]} ∪ dynamic | _ => dynamic end) dynamic (operations h)
  | RA_Pipe _ => dynamic
  end
with statement_dynamic_names (s : Statement) (dynamic : Names) {struct s} : Names :=
  match s with
  | S_Assignment a => assigned_dynamic (as_target a) (as_name a) dynamic
  | S_CommandAssignment a => assigned_dynamic (ca_target a) (ca_name a) dynamic
  | S_Unset u => {[un_name u]} ∪ dynamic
  | S_Recipe r => recipe_dynamic_names r dynamic
  | S_Include _ | S_Switch _ => dynamic
  end.

(** The lock of a recipe.
    Source: config/expand.rs:1060-1074 `prepare_recipe (lock)` *)
Definition prepare_recipe_lock (p : ConfigPreparer) (line : nat) (lock : option PathExpression) (action : RecipeAction) : result ExpansionError (option PathExpression) :=
  match lock with
  | None => Ok None
  | Some e =>
      e ← prepare_lock_expression (pr_known p) (pr_dynamic p) e line (pr_maildir p);
      if bool_decide (pe_source e = []) && match action with RA_Pipe _ => true | _ => false end then
        Err (expansion_error line (B "an implicit local lockfile requires a filesystem destination"))
      else Ok (Some e)
  end.

(** The preparer of the statements of a block. *)
Definition block_preparer (p : ConfigPreparer) (phase : PreparationPhase) : ConfigPreparer :=
  {| pr_known := pr_known p; pr_dynamic := if bool_decide (phase = Eager) then ∅ else pr_dynamic p; pr_maildir := pr_maildir p;
     pr_linebuf := pr_linebuf p; pr_phase := Deferred |}.
Definition recipe_phase (p : ConfigPreparer) : PreparationPhase :=
  if bool_decide (pr_phase p = Eager) && bool_decide (pr_dynamic p = ∅) then Eager else Deferred.

Section list.
Context (one : ConfigPreparer -> Statement -> result ExpansionError (Statement * ConfigPreparer)).
Definition prepare_list : ConfigPreparer -> list Statement -> result ExpansionError (list Statement * ConfigPreparer) :=
  fix go p statements :=
    match statements with
    | [] => Ok ([], p)
    | s :: rest => '(s, p) ← one p s; '(rest, p) ← go p rest; Ok (s :: rest, p)
    end.
End list.

(** Source: config/expand.rs `fn prepare_recipe(` *)
Fixpoint prepare_recipe (p : ConfigPreparer) (phase : PreparationPhase) (r : Recipe) {struct r} : result ExpansionError Recipe :=
  match r with
  | MkRecipe line action_line options lock conditions action =>
      conditions ← prepare_shell_conditions (pr_known p) (pr_dynamic p) options conditions;
      lock ← prepare_recipe_lock p line lock action;
      action ←
        match action with
        | RA_Deliver d => RA_Deliver <$> prepare_destination p d action_line phase
        | RA_Headers h => RA_Headers <$> prepare_header_action (pr_known p) (pr_dynamic p) h
        | RA_Block statements => '(statements, _) ← prepare_list prepare_statement (block_preparer p phase) statements; Ok (RA_Block statements)
        | RA_Pipe _ | RA_Capture _ => Ok action
        end;
      Ok (MkRecipe line action_line options lock conditions action)
  end
with prepare_statement (p : ConfigPreparer) (s : Statement) {struct s} : result ExpansionError (Statement * ConfigPreparer) :=
  match s with
  | S_Assignment a => '(a, p) ← prepare_assignment p a; Ok (S_Assignment a, p)
  | S_Unset u => p ← prepare_unset p u; Ok (S_Unset u, p)
  | S_CommandAssignment a => prepare_command_assignment p a
  | S_Recipe r =>
      r ← prepare_recipe p (recipe_phase p) r;
      Ok (S_Recipe r, with_dynamic (recipe_dynamic_names r (pr_dynamic p)) p)
  | S_Include e => '(e, p) ← prepare_rc_file p e; Ok (S_Include e, p)
  | S_Switch e => '(e, p) ← prepare_rc_file p e; Ok (S_Switch e, p)
  end.
(** Source: config/expand.rs `fn prepare_statements(` *)
Definition prepare_statements : ConfigPreparer -> list Statement -> result ExpansionError (list Statement * ConfigPreparer) := prepare_list prepare_statement.

(** * Configurations *)

Definition with_statements (c : Config) (statements : list Statement) (variables : list (bytes * bytes * VariableSource)) : Config :=
  {| statements := statements; cfg_source_location := cfg_source_location c; initial_variables := variables; parse_counts := parse_counts c;
     initial_linebuf := initial_linebuf c |}.
Definition new_preparer (known : KnownValues) (maildir : option bytes) (linebuf : Z) (phase : PreparationPhase) : ConfigPreparer :=
  {| pr_known := known; pr_dynamic := ∅; pr_maildir := maildir; pr_linebuf := linebuf; pr_phase := phase |}.

(** Source: config/expand.rs `fn expand_config(` *)
Definition expand_config (c : Config) (variables : KnownValues) (initial : list (bytes * bytes * VariableSource)) (maildir : option bytes)
    : result ExpansionError Config :=
  let variables := or_insert (B "LOCKEXT") (fixed_value DEFAULT_LOCK_EXT)
                     (or_insert (B "LINEBUF") (fixed_value (z_decimal (initial_linebuf c))) variables) in
  '(statements, _) ← prepare_statements (new_preparer variables maildir (initial_linebuf c) Eager) (statements c);
  Ok (with_statements c statements initial).

(** The variables of a command line, one after another.
    Source: config/expand.rs:512-529 `expand_with_arguments (supplied)` *)
Fixpoint expand_supplied (supplied : list SuppliedVariable) (variables : KnownValues) (initial : list (bytes * bytes * VariableSource))
    : result ExpansionError (KnownValues * list (bytes * bytes * VariableSource)) :=
  match supplied with
  | [] => Ok (variables, initial)
  | v :: rest =>
      value ← match sv_source v with
              | VS_Environment | VS_System => Ok (fixed_value (sv_value v))
              | _ => expand_text (sv_value v) 0 MAX_ASSIGNMENT_VALUE_LEN variables
              end;
      expand_supplied rest (<[sv_name v := value]> variables) (initial ++ [(sv_name v, ev_text value, sv_source v)])
  end.

(** The positional arguments: every name is known, and those that were given
    are variables of the run.
    Source: config/expand.rs:536-561 `expand_with_arguments (arguments)` *)
Definition expand_arguments (arguments : list bytes) (variables : KnownValues) (initial : list (bytes * bytes * VariableSource))
    : KnownValues * list (bytes * bytes * VariableSource) :=
  let '(variables, initial) :=
    foldl (fun '(variables, initial) index =>
      let supplied := arguments !! (index - 1)%nat in
      (<[decimal index := fixed_value (default [] supplied)]> variables,
       match supplied with Some value => initial ++ [(decimal index, value, VS_CommandLine)] | None => initial end))
      (variables, initial) (seq 1 MAX_POSITIONAL_ARGUMENTS) in
  let count := decimal (length arguments) in
  (<[B "#" := fixed_value count]> variables, if bool_decide (arguments = []) then initial else initial ++ [(B "#", count, VS_CommandLine)]).

(** Source: config/expand.rs `pub(super) fn expand_with_arguments` *)
Definition expand_with_arguments (c : Config) (supplied : list SuppliedVariable) (arguments : PositionalArguments) : result ExpansionError Config :=
  '(variables, initial) ← expand_supplied supplied ∅ [];
  let '(variables, initial) := expand_arguments (pa_values arguments) variables initial in
  expand_config c variables initial None.
(** Source: config/expand.rs `pub(super) fn expand(` *)
Definition expand (c : Config) (supplied : list SuppliedVariable) : result ExpansionError Config := expand_with_arguments c supplied no_arguments.

Definition known_values (values : gmap (list Z) bytes) : KnownValues := populate_missing_positionals (fixed_value <$> values).
(** Source: config/expand.rs `pub(super) fn expand_with_runtime_values` *)
Definition expand_with_runtime_values (c : Config) (values : gmap (list Z) bytes) : result ExpansionError Config :=
  expand_config c (known_values values) [] (values !! B "MAILDIR").
(** Source: config/expand.rs `pub(super) fn prepare_for_check` *)
Definition prepare_for_check (c : Config) (values : gmap (list Z) bytes) : result ExpansionError Config :=
  '(statements, _) ← prepare_statements (new_preparer (known_values values) (values !! B "MAILDIR") (initial_linebuf c) Deferred) (statements c);
  Ok (with_statements c statements (initial_variables c)).
End conditions.
End prepare.
