(* ===== verification/Conditions.v ===== *)
(** Conditions: [src/src/eval/condition.rs].  A condition is compiled once and
    evaluated either against the header alone, where the answer may be put off,
    or against the complete message.  A match with captures stores them in the
    runtime.  Trace records are left out, and so are the variables an
    evaluation that fails leaves behind.

    The reparsing of an expanded condition and the expansion of its text belong
    to other components and are an interface here. *)
From stdpp Require Import gmap.
From S2P Require Import Prelude Numbers Config Limits Utf8 HeaderValue HeaderFields HeaderStore EditedHeader HeaderEdit Effects.
From S2P Require Import StructuredHeader Message EvalMessage Mime Variables Runtime ShellPattern ShellEval.
#[local] Open Scope Z_scope.

(** The errors a host reports are its own; [E_Delivery] and the texts of the
    other errors are not kept.
    Source: eval/result.rs `pub enum EvalError` *)
Inductive EvalError :=
| E_BodyWasNotBuffered
| E_VariableValueTooLarge (name : bytes) (size : Z)
| E_MatchValueIsNotUtf8
| E_DestinationCommandOutputIsNotUtf8 (line : nat)
| E_RuntimeCondition (line : nat) (message : bytes)
| E_StructuredHeader (line : nat) (error : StructuredHeaderError)
| E_MatchValuesTooLarge (size : Z)
| E_Expansion (e : ExpansionError)
| E_RuntimeRcLoaderUnavailable (line : nat) (statement : bytes)
| E_RuntimeSettingUnavailable (line : nat) (name : bytes)
| E_LocalLockExecutorUnavailable (line : nat)
| E_BackgroundCopyUnavailable (line : nat) (reason : bytes)
| E_RuntimeRc (message : bytes)
| E_ExternalActionUnsupported (line : nat)
| E_HeaderActionUnsupported (line : nat)
| E_HeaderEdit (line : nat) (error : HeaderEditError)
| E_MessageLimits (error : LimitConfigError)
| E_ExternalConditionUnsupported (line : nat)
| E_InvalidExternalActionResult (line : nat) (reason : bytes).

(** * Requirements *)

(** Source: eval.rs `pub struct InputRequirements` *)
Record InputRequirements := { needs_headers : bool; needs_body_contents : bool; needs_end_of_message : bool }.
Definition no_requirements : InputRequirements :=
  {| needs_headers := false; needs_body_contents := false; needs_end_of_message := false |}.
Definition all_requirements : InputRequirements :=
  {| needs_headers := true; needs_body_contents := true; needs_end_of_message := true |}.
Definition header_requirement : InputRequirements :=
  {| needs_headers := true; needs_body_contents := false; needs_end_of_message := false |}.
Definition end_requirement : InputRequirements :=
  {| needs_headers := false; needs_body_contents := false; needs_end_of_message := true |}.

(** Source: eval.rs `pub(super) fn union(self` *)
Definition requirements_union (a b : InputRequirements) : InputRequirements :=
  {| needs_headers := needs_headers a || needs_headers b;
     needs_body_contents := needs_body_contents a || needs_body_contents b;
     needs_end_of_message := needs_end_of_message a || needs_end_of_message b |}.

(** Source: eval.rs `struct PlanProperties` *)
Record PlanProperties := {
  requirements : InputRequirements; pp_ordered : bool; pp_preemptive : bool; pp_full_matching : bool; pp_external : bool;
}.
Definition no_properties : PlanProperties :=
  {| requirements := no_requirements; pp_ordered := false; pp_preemptive := false; pp_full_matching := false; pp_external := false |}.
(** Source: eval.rs `fn union(self, other: Self) -> Self@2` *)
Definition properties_union (a b : PlanProperties) : PlanProperties :=
  {| requirements := requirements_union (requirements a) (requirements b); pp_ordered := pp_ordered a || pp_ordered b;
     pp_preemptive := pp_preemptive a || pp_preemptive b; pp_full_matching := pp_full_matching a || pp_full_matching b;
     pp_external := pp_external a || pp_external b |}.

Section conditions.
Context {T : Target} {R : RegexEngine}.

(** * Compilation *)

(** Source: eval/condition.rs `pub(super) struct CompiledMultipartCheck` *)
Record CompiledMultipartCheck := {
  cm_field : MultipartField; cm_regex : Regex; cm_match_captures : list nat; cm_capture_indexes : list nat;
}.

(** Source: eval/condition.rs `enum CompiledConditionKind` *)
Inductive CompiledConditionKind :=
| CC_ShellExpanded (condition : ShellExpandedCondition) (area : ConditionInput) (case_sensitive : bool)
| CC_HeaderRegex (regex : Regex)
| CC_BodyRegex (regex : Regex)
| CC_MessageRegex (regex : Regex)
| CC_VariableRegex (name : bytes) (regex : Regex)
| CC_AddressRegex (fields : list AddressField) (regex : Regex)
| CC_IdentifierRegex (fields : list IdentifierField) (regex : Regex)
| CC_KeywordRegex (fields : list KeywordField) (regex : Regex)
| CC_Multipart (checks : list CompiledMultipartCheck)
| CC_Program (command : bytes) (input : ConditionInput)
| CC_SmallerThan (size : Z)
| CC_LargerThan (size : Z).

(** The text kept for traces is left out.
    Source: eval/condition.rs `pub(super) struct CompiledCondition` *)
Record CompiledCondition := {
  cc_location : SourceLocation; cc_negated : bool; cc_kind : CompiledConditionKind;
  match_captures : list nat; capture_indexes : list nat;
}.

(** [RegexArea] and [ConditionInput] have the same three values and are one
    type here. *)
Definition area_regex (area : ConditionInput) (regex : Regex) : CompiledConditionKind :=
  match area with
  | CI_Headers => CC_HeaderRegex regex
  | CI_Body => CC_BodyRegex regex
  | CI_Message => CC_MessageRegex regex
  end.

Definition regex_condition (k : ConditionKind) : option RegexCondition :=
  match k with
  | CK_Regex r | CK_AreaRegex _ r | CK_VariableRegex _ r | CK_AddressRegex _ r | CK_IdentifierRegex _ r | CK_KeywordRegex _ r => Some r
  | CK_ShellExpanded _ | CK_Multipart _ | CK_Program _ | CK_SmallerThan _ | CK_LargerThan _ => None
  end.

Definition compile_check (c : MultipartCheck) : CompiledMultipartCheck :=
  {| cm_field := mc_field c; cm_regex := rx_compiled (mc_regex c);
     cm_match_captures := rx_match_captures (mc_regex c); cm_capture_indexes := rx_capture_indexes (mc_regex c) |}.

(** Source: eval/condition.rs `fn compile_condition(` *)
Definition compile_condition (condition : Condition) (area : ConditionInput) (case_sensitive : bool) (source : SourceLocation)
    : CompiledCondition :=
  {| cc_location := at_line source (cond_line condition);
     cc_negated := cond_negated condition;
     cc_kind :=
       match cond_kind condition with
       | CK_ShellExpanded c => CC_ShellExpanded c area case_sensitive
       | CK_SmallerThan size => CC_SmallerThan size
       | CK_LargerThan size => CC_LargerThan size
       | CK_Regex r => area_regex area (rx_compiled r)
       | CK_AreaRegex a r => area_regex a (rx_compiled r)
       | CK_VariableRegex name r => CC_VariableRegex name (rx_compiled r)
       | CK_AddressRegex fields r => CC_AddressRegex fields (rx_compiled r)
       | CK_IdentifierRegex fields r => CC_IdentifierRegex fields (rx_compiled r)
       | CK_KeywordRegex fields r => CC_KeywordRegex fields (rx_compiled r)
       | CK_Multipart checks => CC_Multipart (compile_check <$> checks)
       | CK_Program command => CC_Program command area
       end;
     match_captures := match regex_condition (cond_kind condition) with Some r => rx_match_captures r | None => [] end;
     capture_indexes := match regex_condition (cond_kind condition) with Some r => rx_capture_indexes r | None => [] end |}.

(** Source: eval/condition.rs `pub(super) fn compile_conditions` *)
Definition compile_conditions (conditions : list Condition) (options : RecipeOptions) (source : SourceLocation)
    : list CompiledCondition :=
  (fun c => compile_condition c (condition_input options)
              match case_mode options with Sensitive => true | Insensitive => false end source) <$> conditions.

(** Source: eval/condition.rs `pub(super) fn properties` *)
Definition condition_properties (c : CompiledCondition) : PlanProperties :=
  let '(reqs, ordered, message_contents, external) :=
    match cc_kind c with
    | CC_ShellExpanded _ _ _ => (all_requirements, true, true, true)
    | CC_HeaderRegex _ | CC_AddressRegex _ _ | CC_IdentifierRegex _ _ | CC_KeywordRegex _ _ => (header_requirement, false, false, false)
    | CC_BodyRegex _ => (all_requirements, false, false, false)
    | CC_Multipart _ => (all_requirements, false, false, false)
    | CC_MessageRegex _ => (all_requirements, false, true, false)
    | CC_VariableRegex _ _ => (no_requirements, false, false, false)
    | CC_Program _ input =>
        (match input with
         | CI_Headers => {| needs_headers := true; needs_body_contents := false; needs_end_of_message := true |}
         | CI_Body | CI_Message => all_requirements
         end, true, false, true)
    | CC_SmallerThan _ | CC_LargerThan _ => (end_requirement, false, false, false)
    end in
  {| requirements := reqs; pp_ordered := ordered; pp_preemptive := ordered; pp_full_matching := message_contents;
     pp_external := external |}.

(** Source: eval/condition.rs `pub(super) fn program(` *)
Definition program (c : CompiledCondition) : option (bytes * ConditionInput) :=
  match cc_kind c with CC_Program command input => Some (command, input) | _ => None end.

(** Source: eval/condition.rs `pub(super) fn apply_negation` *)
Definition apply_negation (c : CompiledCondition) (matched : bool) : bool := xorb matched (cc_negated c).

(** Source: eval/condition.rs `pub(super) enum PartialMatch` *)
Inductive PartialMatch := PM_True | PM_False | PM_Deferred.
(** Source: eval/condition.rs `pub(super) fn from_bool` *)
Definition from_bool (b : bool) : PartialMatch := if b then PM_True else PM_False.
End conditions.

#[export] Instance PartialMatch_eq_dec : EqDecision PartialMatch.
Proof. solve_decision. Defined.

(** What the conditions need of the expander and of the condition parser. *)
Class ConditionExpander {R : RegexEngine} := {
  expand_shell_condition : ShellExpandedCondition -> nat -> RuntimeVariables -> result ExpansionError bytes;
  parse_reparsed_condition : bytes -> nat -> bool -> result (nat * bytes) Condition;
}.

Section evaluation.
Context {T : Target} {R : RegexEngine}.

(** * Captures *)

(** [captures.get(index)] *)
Definition group (captures : list (option (nat * nat))) (index : nat) : option (nat * nat) := mjoin (captures !! index).

(** [input.get(start..end)] *)
Definition get_range (input : bytes) (start end_ : nat) : option bytes :=
  if (start <=? end_)%nat && (end_ <=? length input)%nat then Some (slice start end_ input) else None.

(** Source: eval/condition.rs `fn match_value` *)
Definition match_value (b : bytes) : result EvalError bytes := if valid_utf8 b then Ok b else Err E_MatchValueIsNotUtf8.

(** The range of a group lies in the input, so taking its bytes cannot fail.
    Source: eval/condition.rs `fn capture_value` *)
Definition capture_value (captures : list (option (nat * nat))) (input : bytes) (index : nat) : result EvalError bytes :=
  match_value match group captures index with Some (s, e) => slice s e input | None => [] end.

(** The maximum of the pairs of end and order has the greatest end.
    Source: eval/condition.rs `fn selected_match_start` *)
Definition selected_match_start (captures : list (option (nat * nat))) (indexes : list nat) : option nat :=
  foldl (fun best index =>
    match group captures index with
    | Some (_, e) => Some match best with Some b => Nat.max b e | None => e end
    | None => best
    end) None indexes.

Definition captured_name (number : nat) : bytes := B "MATCH" ++ decimal number.

(** The sum of the lengths, checked, and the limit on it. *)
Definition check_match_size (values : list (bytes * bytes)) : result EvalError () :=
  match foldl (fun total '(_, value) => total ← total; checked_add total (length value)) (Some 0%nat) values with
  | None => Err (E_MatchValuesTooLarge usize_max)
  | Some size => if MAX_MATCH_BYTES <? Z.of_nat size then Err (E_MatchValuesTooLarge (Z.of_nat size)) else Ok ()
  end.

Definition set_match_values (r : RuntimeVariables) (values : list (bytes * bytes)) : RuntimeVariables :=
  foldl (fun r '(name, value) => set_match_value r name value) r values.

(** The loop that collects [MATCHn], numbered from [number]. *)
Fixpoint numbered_values (captures : list (option (nat * nat))) (input : bytes) (indexes : list nat) (number : nat)
    : result EvalError (list (bytes * bytes)) :=
  match indexes with
  | [] => Ok []
  | index :: rest =>
      value ← capture_value captures input index;
      values ← numbered_values captures input rest (S number);
      Ok ((captured_name number, value) :: values)
  end.

(** The value of [MATCH], when the match went through a marker. *)
Definition marked_value (line : nat) (captures : list (option (nat * nat))) (input : bytes) (indexes : list nat)
    : result EvalError (list (bytes * bytes)) :=
  match selected_match_start captures indexes with
  | None => Ok []
  | Some start =>
      '(_, end_) ← ok_or (E_RuntimeCondition line (B "compiled regular expression omitted its complete match")) (group captures 0);
      bytes ← ok_or (E_RuntimeCondition line (B "compiled regular expression returned an invalid MATCH range")) (get_range input start end_);
      value ← match_value bytes;
      Ok [(B "MATCH", value)]
  end.

Section condition.
Context (c : CompiledCondition).

Definition captures_nothing : bool := bool_decide (match_captures c = []) && bool_decide (capture_indexes c = []).
Definition condition_line : nat := loc_line (cc_location c).

(** Source: eval/condition.rs `fn regex_matches(` *)
Definition regex_matches (regex : Regex) (input : bytes) (r : RuntimeVariables) : result EvalError (bool * RuntimeVariables) :=
  if captures_nothing then Ok (regex_is_match regex input, r)
  else
    match regex_captures regex input with
    | None => Ok (false, clear_match_values r)
    | Some captures =>
        if cc_negated c then Ok (true, clear_match_values r)
        else
          let r := clear_numbered_match_values r in
          marked ← marked_value condition_line captures input (match_captures c);
          numbered ← numbered_values captures input (capture_indexes c) 1;
          let values := marked ++ numbered in
          _ ← check_match_size values;
          Ok (true, set_match_values r values)
    end.

(** Source: eval/condition.rs `fn structured_header_error` *)
Definition structured_header_error (e : StructuredVisitError EvalError) : EvalError :=
  match e with SV_Header e => E_StructuredHeader condition_line e | SV_Visitor e => e end.

(** The three structured matchers after their visit: a condition that
    captures clears the old captures when nothing matched. *)
Definition after_visit (visit : result (StructuredVisitError EvalError) (bool * VisitState RuntimeVariables))
    : result EvalError (bool * RuntimeVariables) :=
  '(matched, s) ← map_err structured_header_error visit;
  Ok (matched, if negb matched && negb captures_nothing then clear_match_values (vs_visitor s) else vs_visitor s).

(** Source: eval/condition.rs `fn matches_addresses` *)
Definition matches_addresses (header : HeaderView) (fields : list AddressField) (regex : Regex) (r : RuntimeVariables) :=
  after_visit (visit_addresses (regex_matches regex) (view_fields header) fields r).
(** Source: eval/condition.rs `fn matches_identifier` *)
Definition matches_identifier (header : HeaderView) (fields : list IdentifierField) (regex : Regex) (r : RuntimeVariables) :=
  after_visit (visit_identifiers (regex_matches regex) (view_fields header) fields r).
(** Source: eval/condition.rs `fn matches_keywords` *)
Definition matches_keywords (header : HeaderView) (fields : list KeywordField) (regex : Regex) (r : RuntimeVariables) :=
  after_visit (visit_keywords (regex_matches regex) (view_fields header) fields r).

(** * Multipart conditions *)

Definition check_input (part : MimePart) (check : CompiledMultipartCheck) : option bytes :=
  match cm_field check with
  | MF_MimeType => mp_mimetype part
  | MF_Disposition => mp_disposition part
  | MF_Filename => mp_filename part
  end.

Definition check_captures_nothing (check : CompiledMultipartCheck) : bool :=
  bool_decide (cm_match_captures check = []) && bool_decide (cm_capture_indexes check = []).

(** A check without captures adds nothing.  The range of [MATCH] is taken
    silently here: a missing group or a bad range gives no value. *)
Definition check_marked (check : CompiledMultipartCheck) (captures : list (option (nat * nat))) (input : bytes)
    : result EvalError (list (bytes * bytes)) :=
  match selected_match_start captures (cm_match_captures check), group captures 0 with
  | Some start, Some (_, end_) =>
      match get_range input start end_ with
      | Some bytes => value ← match_value bytes; Ok [(B "MATCH", value)]
      | None => Ok []
      end
  | _, _ => Ok []
  end.

Fixpoint check_values (part : MimePart) (checks : list CompiledMultipartCheck) (capture_num : nat)
    : result EvalError (list (bytes * bytes)) :=
  match checks with
  | [] => Ok []
  | check :: rest =>
      if check_captures_nothing check then check_values part rest capture_num
      else
        let input := default [] (check_input part check) in
        match regex_captures (cm_regex check) input with
        | None => check_values part rest capture_num
        | Some captures =>
            marked ← check_marked check captures input;
            numbered ← numbered_values captures input (cm_capture_indexes check) capture_num;
            values ← check_values part rest (capture_num + length (cm_capture_indexes check))%nat;
            Ok (marked ++ numbered ++ values)
        end
  end.

(** The closure given to [any_mime_part]; its state is [matched_captures]. *)
Definition visit_checks (checks : list CompiledMultipartCheck) (has_captures : bool) (part : MimePart)
    (matched_captures : option (list (bytes * bytes))) : result EvalError (bool * option (list (bytes * bytes))) :=
  if forallb (fun check => match check_input part check with
                           | Some input => regex_is_match (cm_regex check) input
                           | None => false
                           end) checks
  then
    if has_captures then values ← check_values part checks 1; Ok (true, Some values)
    else Ok (true, matched_captures)
  else Ok (false, matched_captures).

(** Source: eval/condition.rs `fn matches_multipart` *)
Definition matches_multipart (checks : list CompiledMultipartCheck) (header : HeaderView) (body : bytes) (r : RuntimeVariables)
    : result EvalError (bool * RuntimeVariables) :=
  let has_captures := negb (cc_negated c) && existsb (fun check => negb (check_captures_nothing check)) checks in
  '(matched, matched_captures) ←
    map_err structured_header_error (any_mime_part (visit_checks checks has_captures) (view_fields header) body None);
  if matched : bool then
    if cc_negated c then Ok (true, clear_match_values r)
    else
      match matched_captures with
      | Some values =>
          _ ← check_match_size values;
          Ok (true, set_match_values (clear_numbered_match_values r) values)
      | None => Ok (true, r)
      end
  else Ok (false, clear_match_values r).

(** * The two evaluations *)

(** The text a variable condition is matched against. *)
Definition variable_input (name : bytes) (r : RuntimeVariables) : result EvalError bytes :=
  let value := default [] (get r name) in
  if MAX_ASSIGNMENT_VALUE_LEN <? len value then Err (E_VariableValueTooLarge name (len value)) else Ok value.

Definition decided (m : result EvalError (bool * RuntimeVariables)) : result EvalError (PartialMatch * RuntimeVariables) :=
  '(matched, r) ← m; Ok (from_bool (apply_negation c matched), r).

(** Source: eval/condition.rs `pub(super) fn matches_headers` *)
Definition matches_headers (head : MessageHead) (r : RuntimeVariables) : result EvalError (PartialMatch * RuntimeVariables) :=
  match cc_kind c with
  | CC_ShellExpanded _ _ _ => Ok (PM_Deferred, r)
  | CC_HeaderRegex regex => decided (regex_matches regex (head_matching_header head) r)
  | CC_AddressRegex fields regex => decided (matches_addresses (header_view head) fields regex r)
  | CC_IdentifierRegex fields regex => decided (matches_identifier (header_view head) fields regex r)
  | CC_KeywordRegex fields regex => decided (matches_keywords (header_view head) fields regex r)
  | CC_BodyRegex _ | CC_MessageRegex _ | CC_Multipart _ => Ok (PM_Deferred, r)
  | CC_Program _ _ => Ok (PM_Deferred, r)
  | CC_VariableRegex name regex => decided (value ← variable_input name r; regex_matches regex value r)
  | CC_SmallerThan size => if size <=? Z.of_nat (head_len head) then decided (Ok (false, r)) else Ok (PM_Deferred, r)
  | CC_LargerThan size => if size <? Z.of_nat (head_len head) then decided (Ok (true, r)) else Ok (PM_Deferred, r)
  end.

(** The arms of [matches_complete] below the expansion of its first one. *)
Definition matches_plain (message : CompleteMessage) (r : RuntimeVariables) : result EvalError (bool * RuntimeVariables) :=
  match cc_kind c with
  | CC_ShellExpanded _ _ _ => Err (E_RuntimeCondition condition_line (B "expanded condition did not resolve"))
  | CC_HeaderRegex regex => regex_matches regex (matching_input message CI_Headers) r
  | CC_AddressRegex fields regex => matches_addresses (complete_header_view message) fields regex r
  | CC_IdentifierRegex fields regex => matches_identifier (complete_header_view message) fields regex r
  | CC_KeywordRegex fields regex => matches_keywords (complete_header_view message) fields regex r
  | CC_BodyRegex regex => regex_matches regex (matching_input message CI_Body) r
  | CC_MessageRegex regex => regex_matches regex (matching_input message CI_Message) r
  | CC_VariableRegex name regex => value ← variable_input name r; regex_matches regex value r
  | CC_Multipart checks => matches_multipart checks (complete_header_view message) (matching_input message CI_Body) r
  | CC_Program _ _ => Err (E_ExternalConditionUnsupported condition_line)
  | CC_SmallerThan size => Ok (Z.of_nat (complete_len message) <? size, r)
  | CC_LargerThan size => Ok (size <? Z.of_nat (complete_len message), r)
  end.
Definition negated_result (m : result EvalError (bool * RuntimeVariables)) : result EvalError (bool * RuntimeVariables) :=
  '(matched, r) ← m; Ok (apply_negation c matched, r).
End condition.

(** * Expansion *)

Section expansion.
Context {X St : Type} (parse : bytes -> nat -> bool -> result (nat * bytes) Condition)
        (expand : ShellExpandedCondition -> nat -> M St X bytes) (map_error : EvalError -> X).

(** The [for] loop; the expander has a state, which it keeps when it fails. *)
Fixpoint expansion_loop (fuel : nat) (c : CompiledCondition) (condition : ShellExpandedCondition) (area : ConditionInput)
    (case_sensitive negated : bool) : M St X (option CompiledCondition) :=
  match fuel with
  | O => stop_with (map_error (E_RuntimeCondition (condition_line c)
           (B "condition expansion exceeds the hard depth limit of " ++ decimal MAX_EXPANSION_DEPTH)))
  | S fuel' =>
      expanded ← expand condition (condition_line c);
      parsed ← of_result (map_err (fun '(line, message) => map_error (E_RuntimeCondition line message))
                 (parse (str_trim_start expanded) (condition_line c) case_sensitive));
      let negated := xorb negated (cond_negated parsed) in
      match cond_kind parsed with
      | CK_ShellExpanded next => expansion_loop fuel' c next area case_sensitive negated
      | _ =>
          let compiled := compile_condition parsed area case_sensitive (cc_location c) in
          mret (Some {| cc_location := cc_location compiled; cc_negated := negated; cc_kind := cc_kind compiled;
                        match_captures := match_captures compiled; capture_indexes := capture_indexes compiled |})
      end
  end.

(** Source: eval/condition.rs `pub(super) fn resolve_shell_expansion_with` *)
Definition resolve_shell_expansion_with (c : CompiledCondition) : M St X (option CompiledCondition) :=
  match cc_kind c with
  | CC_ShellExpanded condition area case_sensitive =>
      expansion_loop (S MAX_EXPANSION_DEPTH) c condition area case_sensitive (cc_negated c)
  | _ => mret None
  end.
End expansion.

Context {X : ConditionExpander}.

(** Source: eval/condition.rs `pub(super) fn resolve_shell_expansion(` *)
Definition resolve_shell_expansion (c : CompiledCondition) (r : RuntimeVariables) : result EvalError (option CompiledCondition) :=
  (run (resolve_shell_expansion_with (St := unit) parse_reparsed_condition
          (fun condition line => of_result (map_err E_Expansion (expand_shell_condition condition line r))) (fun e => e) c) tt).1.

(** The recursive call is on a condition that is no longer expanded, so one
    level is enough ([resolved_is_plain]).
    Source: eval/condition.rs `pub(super) fn matches_complete` *)
Definition matches_complete (c : CompiledCondition) (message : CompleteMessage) (r : RuntimeVariables)
    : result EvalError (bool * RuntimeVariables) :=
  match cc_kind c with
  | CC_ShellExpanded _ _ _ =>
      resolved ← resolve_shell_expansion c r;
      resolved ← ok_or (E_RuntimeCondition (condition_line c) (B "expanded condition did not resolve")) resolved;
      negated_result resolved (matches_plain resolved message r)
  | _ => negated_result c (matches_plain c message r)
  end.
End evaluation.

(** * The header decides for the message *)

(** A complete message that continues a head: the same fields and the same
    matching header, and at least its length. *)
Record completes {T : Target} (head : MessageHead) (m : CompleteMessage) : Prop := {
  completes_fields : view_fields (complete_header_view m) = view_fields (header_view head);
  completes_matching : complete_header_bytes m = head_matching_header head;
  completes_len : (head_len head <= complete_len m)%nat;
}.

(** Two messages a plan without body contents cannot tell apart. *)
Record same_header {T : Target} (m m' : CompleteMessage) : Prop := {
  same_fields : view_fields (complete_header_view m) = view_fields (complete_header_view m');
  same_matching : complete_header_bytes m = complete_header_bytes m';
  same_len : complete_len m = complete_len m';
}.

Section agreement.
Context {T : Target} {R : RegexEngine} {X : ConditionExpander}.

Lemma decided_Ok c m p r :
  decided c m = Ok (p, r) <-> exists b, m = Ok (b, r) /\ p = from_bool (apply_negation c b).
Proof.
  unfold decided. destruct m as [[b r0]|e]; cbn [mbind result_bind]; split.
  - intros [= <- <-]. by exists b.
  - intros (b' & [= <- <-] & ->). done.
  - done.
  - by intros (b' & ? & _).
Qed.

Lemma decided_Err c m e : decided c m = Err e <-> m = Err e.
Proof. unfold decided. destruct m as [[b r0]|e']; cbn [mbind result_bind]; split; congruence. Qed.

Lemma from_bool_not_deferred b : from_bool b <> PM_Deferred.
Proof. by destruct b. Qed.

(** The answer of the header, said of the complete message. *)
Definition confirms (c : CompiledCondition) (m : CompleteMessage) (r : RuntimeVariables)
    (answer : result EvalError (PartialMatch * RuntimeVariables)) : Prop :=
  match answer with
  | Ok (PM_True, r') => matches_complete c m r = Ok (true, r')
  | Ok (PM_False, r') => matches_complete c m r = Ok (false, r')
  | Ok (PM_Deferred, r') => r' = r
  | Err e => matches_complete c m r = Err e
  end.

Lemma confirms_decided c m r x :
  (match cc_kind c with CC_ShellExpanded _ _ _ => False | _ => True end) ->
  matches_plain c m r = x -> confirms c m r (decided c x).
Proof.
  intros Hk Hp. assert (matches_complete c m r = negated_result c x) as Hm.
  { unfold matches_complete. rewrite <-Hp. by destruct (cc_kind c). }
  unfold confirms, decided. destruct x as [[b r']|e]; cbn [mbind result_bind]; [|by rewrite Hm].
  destruct (apply_negation c b) eqn:Hb; cbn [from_bool]; by rewrite Hm; cbn; rewrite Hb.
Qed.

Lemma matches_addresses_fields c v v' fields regex r :
  view_fields v = view_fields v' -> matches_addresses c v fields regex r = matches_addresses c v' fields regex r.
Proof. unfold matches_addresses. by intros ->. Qed.
Lemma matches_identifier_fields c v v' fields regex r :
  view_fields v = view_fields v' -> matches_identifier c v fields regex r = matches_identifier c v' fields regex r.
Proof. unfold matches_identifier. by intros ->. Qed.
Lemma matches_keywords_fields c v v' fields regex r :
  view_fields v = view_fields v' -> matches_keywords c v fields regex r = matches_keywords c v' fields regex r.
Proof. unfold matches_keywords. by intros ->. Qed.

Lemma header_answer_confirms c head m r : completes head m -> confirms c m r (matches_headers c head r).
Proof.
  intros [Hf Hh Hl]. unfold matches_headers.
  destruct (cc_kind c) eqn:Hk; try done.
  - apply confirms_decided; rewrite ?Hk; [done|]. unfold matches_plain. rewrite Hk. cbn [matching_input]. by rewrite Hh.
  - apply confirms_decided; rewrite ?Hk; [done|]. unfold matches_plain. by rewrite Hk.
  - apply confirms_decided; rewrite ?Hk; [done|]. unfold matches_plain. rewrite Hk. by apply matches_addresses_fields.
  - apply confirms_decided; rewrite ?Hk; [done|]. unfold matches_plain. rewrite Hk. by apply matches_identifier_fields.
  - apply confirms_decided; rewrite ?Hk; [done|]. unfold matches_plain. rewrite Hk. by apply matches_keywords_fields.
  - destruct (Z.leb_spec size (Z.of_nat (head_len head))); [|done].
    apply confirms_decided; rewrite ?Hk; [done|]. unfold matches_plain. rewrite Hk. do 2 f_equal. lia.
  - destruct (Z.ltb_spec size (Z.of_nat (head_len head))); [|done].
    apply confirms_decided; rewrite ?Hk; [done|]. unfold matches_plain. rewrite Hk. do 2 f_equal. lia.
Qed.

(** What the header decides stands.  A condition answered from the header
    alone gives the same answer, with the same variables or the same error, on
    every complete message that continues the header; and putting the answer off
    changes no variable. *)
Theorem header_answer_stands (c : CompiledCondition) (head : MessageHead) (m : CompleteMessage) (r : RuntimeVariables)
    (Hm : completes head m) :
  confirms c m r (matches_headers c head r).
Proof. by apply header_answer_confirms. Qed.

Lemma decided_not_deferred c x r : decided c x <> Ok (PM_Deferred, r).
Proof. intros (b & _ & Hb)%decided_Ok. by destruct (from_bool_not_deferred (apply_negation c b)). Qed.

(** The requirements of a condition are enough.  A condition that does not
    ask for the end of the message is never put off at the header, and one that
    does not ask for the body's contents cannot tell two messages apart that
    have the same header and length. *)
Theorem condition_requirements_sound (c : CompiledCondition) :
  let q := requirements (condition_properties c) in
  (needs_end_of_message q = false -> forall head r r', matches_headers c head r <> Ok (PM_Deferred, r')) /\
  (needs_body_contents q = false -> forall m m' r, same_header m m' -> matches_complete c m r = matches_complete c m' r).
Proof.
  intros q. unfold q, condition_properties. split.
  - unfold matches_headers. destruct (cc_kind c) eqn:Hk; try discriminate; intros Hq head r r'; try apply decided_not_deferred.
    by destruct input.
  - intros Hq m m' r [Hf Hh Hl]. unfold matches_complete, matches_plain.
    destruct (cc_kind c) eqn:Hk; try discriminate; cbn [matching_input]; rewrite ?Hh, ?Hl; try done.
    + by rewrite (matches_addresses_fields _ _ _ _ _ _ Hf).
    + by rewrite (matches_identifier_fields _ _ _ _ _ _ Hf).
    + by rewrite (matches_keywords_fields _ _ _ _ _ _ Hf).
Qed.
End agreement.

(** * Resolution *)

Section resolution.
Context {T : Target} {R : RegexEngine} {X : ConditionExpander}.

Definition is_plain (c : CompiledCondition) : Prop :=
  match cc_kind c with CC_ShellExpanded _ _ _ => False | _ => True end.

(** What an expansion ends with is a condition that needs no expansion. *)
Lemma expansion_loop_plain {E St : Type} (parse : bytes -> nat -> bool -> result (nat * bytes) Condition)
    (expand : ShellExpandedCondition -> nat -> M St E bytes) (map_error : EvalError -> E)
    fuel c condition area case_sensitive negated s found s' :
  run (expansion_loop parse expand map_error fuel c condition area case_sensitive negated) s = (Ok found, s') ->
  exists c', found = Some c' /\ is_plain c'.
Proof.
  revert condition negated s. induction fuel as [|fuel IH]; intros condition negated s; cbn [expansion_loop]; [done|].
  intros (expanded & s1 & _ & H)%run_bind_Ok. apply run_bind_Ok in H as (parsed & s2 & _ & H).
  destruct (cond_kind parsed) eqn:Hk; try by apply IH in H.
  all: rewrite run_ret in H; injection H as <- <-; eexists; split; [done|]; unfold is_plain, compile_condition; cbn [cc_kind]; rewrite Hk; cbn; try done.
  all: unfold area_regex; by repeat case_match.
Qed.

Lemma resolve_with_plain {E St : Type} (parse : bytes -> nat -> bool -> result (nat * bytes) Condition)
    (expand : ShellExpandedCondition -> nat -> M St E bytes) (map_error : EvalError -> E) c s found s' :
  run (resolve_shell_expansion_with parse expand map_error c) s = (Ok found, s') ->
  match found with Some c' => is_plain c' | None => is_plain c end.
Proof.
  unfold resolve_shell_expansion_with, is_plain at 2. generalize (S MAX_EXPANSION_DEPTH). intros fuel.
  destruct (cc_kind c); [by intros (c' & -> & Hp)%expansion_loop_plain|..]; by intros [= <- <-].
Qed.

Lemma resolved_is_plain c r found :
  resolve_shell_expansion c r = Ok found -> match found with Some c' => is_plain c' | None => is_plain c end.
Proof.
  unfold resolve_shell_expansion. intros H. destruct (run (resolve_shell_expansion_with _ _ _ c) tt) as [f s] eqn:He.
  cbn in H. subst f. by apply resolve_with_plain in He.
Qed.
End resolution.

(** * Sample conditions *)

(** An engine that matches a text with [x] at its front, captured as group 0. *)
Definition front_engine : RegexEngine :=
  Build_RegexEngine Z (fun x l => match l with y :: _ => x =? y | [] => false end)
    (fun x l => match l with y :: _ => if x =? y then Some [Some (0%nat, 1%nat)] else None | [] => None end).
#[local] Existing Instance front_engine.
Definition no_location : SourceLocation := {| loc_line := 0; loc_file := None; loc_truncated := false |}.
Definition front_condition : CompiledCondition :=
  {| cc_location := no_location; cc_negated := true; cc_kind := CC_HeaderRegex 65; match_captures := [0%nat]; capture_indexes := [] |}.
Definition no_expander : ConditionExpander :=
  Build_ConditionExpander _ (fun _ _ _ => Ok []) (fun _ _ _ => Err (0%nat, [])).

(** The complete message of a head that was read. *)
Lemma input_completes {T : Target} head_bytes body limits :
  completes {| backing := HB_Input head_bytes; head_matching := None; head_limits := limits |}
            (Mapped (head_bytes ++ body) (length head_bytes) None None).
Proof.
  split; cbn.
  - unfold head_len. unfold header_view. cbn. by rewrite take_app_length.
  - by rewrite take_app_length.
  - rewrite length_app. lia.
Qed.

Definition front_head : MessageHead :=
  {| backing := HB_Input (B "A: b" ++ [10; 10]); head_matching := None; head_limits := default_limits |}.
Definition front_message : CompleteMessage := Mapped (B "A: b" ++ [10; 10] ++ B "text") 6 None None.

Lemma header_answer_stands_witness :
  matches_headers (T := target64) front_condition front_head (default_runtime (B "1")) = Ok (PM_False, clear_match_values (default_runtime (B "1"))) /\
  matches_complete (T := target64) (X := no_expander) front_condition front_message (default_runtime (B "1")) = Ok (false, clear_match_values (default_runtime (B "1"))).
Proof.
  pose proof (header_answer_stands (T := target64) (X := no_expander) front_condition front_head front_message (default_runtime (B "1"))
    (input_completes (T := target64) (B "A: b" ++ [10; 10]) (B "text") default_limits)) as H.
  assert (matches_headers (T := target64) front_condition front_head (default_runtime (B "1")) = Ok (PM_False, clear_match_values (default_runtime (B "1")))) as Hh
    by (vm_compute; reflexivity).
  rewrite Hh in H. split; [exact Hh|exact H].
Defined.

Lemma condition_requirements_sound_witness :
  matches_complete (T := target64) (X := no_expander) front_condition front_message (default_runtime (B "1")) =
  matches_complete (T := target64) (X := no_expander) front_condition (Mapped (B "A: b" ++ [10; 10] ++ B "else") 6 None None) (default_runtime (B "1")).
Proof.
  refine (proj2 (condition_requirements_sound (T := target64) (X := no_expander) front_condition) eq_refl _ _ _ _).
  constructor; vm_compute; reflexivity.
Defined.
