(* ===== verification/Plan.v ===== *)
(** The execution plan: [src/src/eval/tree.rs] and [src/src/eval.rs].  The
    statements of a parsed rc file are compiled to sequences of nodes, each with
    the statements before it; a sequence carries what it needs of the message
    and of the way it is delivered.  The flags [A a E e] of a recipe are decided
    from the outcome of the recipes before it.

    Trace records are left out, and with them the source of a variable and the
    switches of the log ([VERBOSE], [LOGABSTRACT]); their values are still
    checked. *)
From stdpp Require Import gmap.
From S2P Require Import Prelude Numbers Config Limits Utf8 HeaderValue HeaderFields HeaderStore EditedHeader HeaderEdit Effects.
From S2P Require Import StructuredHeader Message EvalMessage Mime Variables Runtime Settings ShellPattern ShellEval ExprParser Expand Binding Conditions.
#[local] Open Scope Z_scope.

(** * The compiled tree *)

Section tree.
Context {R : RegexEngine}.

(** Source: eval/tree.rs `pub(super) struct CompiledAssignment` *)
Record CompiledAssignment := { cas_assignment : Assignment; cas_location : option SourceLocation }.
(** Source: eval/tree.rs `pub(super) struct CompiledUnset` *)
Record CompiledUnset := { cun_unset : Unset; cun_location : option SourceLocation }.
(** Source: eval/tree.rs `pub(super) struct CompiledCommandAssignment` *)
Record CompiledCommandAssignment := { cca_assignment : CommandAssignment; cca_location : SourceLocation }.

(** The files a statement has loaded are kept with the run ([RuntimeRc]), not
    in the tree.
    Source: eval/tree.rs `pub(super) enum CompiledStatement` *)
Inductive CompiledStatement :=
| CSt_Assignment (a : CompiledAssignment)
| CSt_Unset (u : CompiledUnset)
| CSt_CommandAssignment (a : CompiledCommandAssignment)
| CSt_Host (a : CompiledAssignment)
| CSt_Include (e : RcFileExpression)
| CSt_Switch (e : RcFileExpression).

(** Source: eval/tree.rs:18-59 `CompiledSequence, CompiledNode, CompiledAction` *)
Inductive CompiledSequence :=
| MkSequence (recipes : list CompiledNode) (trailing_statements : list CompiledStatement) (properties : PlanProperties)
with CompiledNode :=
| MkNode (location : SourceLocation) (preceding_statements : list CompiledStatement) (lock : option PathExpression)
         (control : ControlFlow) (continuation : ContinuationMode) (child_status : ChildStatusMode)
         (conditions : list CompiledCondition) (action : CompiledAction) (properties : PlanProperties)
with CompiledAction :=
| CA_Deliver (destination : Destination) (continuation : ContinuationMode) (output_ending : OutputEnding)
| CA_Pipe (action : PipeAction) (options : RecipeOptions)
| CA_Capture (action : CaptureAction) (options : RecipeOptions)
| CA_Block (children : CompiledSequence)
| CA_Headers (action : HeaderAction).

Definition recipes (s : CompiledSequence) : list CompiledNode := let 'MkSequence r _ _ := s in r.
Definition trailing_statements (s : CompiledSequence) : list CompiledStatement := let 'MkSequence _ t _ := s in t.
(** Source: eval/tree.rs `pub(super) fn properties(&self)` *)
Definition sequence_properties (s : CompiledSequence) : PlanProperties := let 'MkSequence _ _ p := s in p.
Definition node_location (n : CompiledNode) : SourceLocation := let 'MkNode l _ _ _ _ _ _ _ _ := n in l.
Definition preceding_statements (n : CompiledNode) : list CompiledStatement := let 'MkNode _ p _ _ _ _ _ _ _ := n in p.
Definition node_lock (n : CompiledNode) : option PathExpression := let 'MkNode _ _ l _ _ _ _ _ _ := n in l.
Definition node_control (n : CompiledNode) : ControlFlow := let 'MkNode _ _ _ c _ _ _ _ _ := n in c.
Definition node_continuation (n : CompiledNode) : ContinuationMode := let 'MkNode _ _ _ _ c _ _ _ _ := n in c.
Definition node_child_status (n : CompiledNode) : ChildStatusMode := let 'MkNode _ _ _ _ _ s _ _ _ := n in s.
Definition node_conditions (n : CompiledNode) : list CompiledCondition := let 'MkNode _ _ _ _ _ _ c _ _ := n in c.
Definition node_action (n : CompiledNode) : CompiledAction := let 'MkNode _ _ _ _ _ _ _ a _ := n in a.
Definition node_properties (n : CompiledNode) : PlanProperties := let 'MkNode _ _ _ _ _ _ _ _ p := n in p.
Definition node_line (n : CompiledNode) : nat := loc_line (node_location n).

(** * Requirements of the tree *)

Definition ordered_properties (requirements : InputRequirements) (ordered preemptive external : bool) : PlanProperties :=
  {| Conditions.requirements := requirements; pp_ordered := ordered; pp_preemptive := preemptive;
     pp_full_matching := false; pp_external := external |}.

(** Source: eval/tree.rs `fn statement_properties` *)
Definition statement_properties (s : CompiledStatement) : PlanProperties :=
  match s with
  | CSt_CommandAssignment _ => ordered_properties all_requirements true true true
  | CSt_Assignment a =>
      let target := as_target (cas_assignment a) in
      let ordered := bool_decide (target = LockFile) || (bool_decide (target = Trap) && negb (bool_decide (as_value (cas_assignment a) = []))) in
      ordered_properties no_requirements ordered ordered (bool_decide (target = Trap))
  | CSt_Unset u =>
      let ordered := bool_decide (un_target (cun_unset u) = LockFile) in ordered_properties no_requirements ordered ordered false
  | CSt_Include _ | CSt_Switch _ =>
      {| Conditions.requirements := no_requirements; pp_ordered := false; pp_preemptive := false; pp_full_matching := true; pp_external := false |}
  | CSt_Host _ => no_properties
  end.

(** Source: eval/tree.rs `fn statements_properties` *)
Definition statements_properties (ss : list CompiledStatement) : PlanProperties :=
  foldl (fun p s => properties_union p (statement_properties s)) no_properties ss.

(** Source: eval/tree.rs `fn action_properties` *)
Definition action_properties (a : CompiledAction) : PlanProperties :=
  match a with
  | CA_Pipe action _ => ordered_properties all_requirements true true (negb (bool_decide (pipe_command action = [])))
  | CA_Capture _ options =>
      match action_input options with
      | AI_Headers => ordered_properties header_requirement true false true
      | AI_Body | AI_Message => ordered_properties all_requirements true true true
      end
  | CA_Deliver destination _ _ =>
      let command := bool_decide (is_Some (command_expression destination)) in
      let ordered := needs_runtime_variables destination || requires_ordered_delivery destination in
      ordered_properties (if command then all_requirements else no_requirements) ordered ordered command
  | CA_Block sequence => sequence_properties sequence
  | CA_Headers _ => ordered_properties header_requirement true false false
  end.

Definition after_previous (c : ControlFlow) : bool :=
  match c with AfterPreviousSuccess | AfterPreviousError => true | _ => false end.

(** Source: eval/tree.rs `fn header_action_result_is_known` *)
Definition header_action_result_is_known (n : CompiledNode) : bool :=
  match node_action n with
  | CA_Capture _ options => bool_decide (action_input options = AI_Headers)
  | CA_Headers _ => true
  | _ => false
  end.

(** [requires_ordered_delivery |= ...] *)
Definition or_ordered (b : bool) (p : PlanProperties) : PlanProperties :=
  {| Conditions.requirements := Conditions.requirements p; pp_ordered := pp_ordered p || b; pp_preemptive := pp_preemptive p;
     pp_full_matching := pp_full_matching p; pp_external := pp_external p |}.
Definition or_preemptive (b : bool) (p : PlanProperties) : PlanProperties :=
  {| Conditions.requirements := Conditions.requirements p; pp_ordered := pp_ordered p; pp_preemptive := pp_preemptive p || b;
     pp_full_matching := pp_full_matching p; pp_external := pp_external p |}.

Definition recipes_properties (rs : list CompiledNode) : PlanProperties :=
  foldl (fun p r => properties_union p (node_properties r)) no_properties rs.

(** The part of [compile] after its loop.
    Source: eval/tree.rs:203-247 `compile (tail)` *)
Definition finish_sequence (rs : list CompiledNode) (trailing : list CompiledStatement) : CompiledSequence :=
  let properties := properties_union (recipes_properties rs) (statements_properties trailing) in
  let properties := or_ordered (existsb (fun r => after_previous (node_control r)) (tail rs)) properties in
  let properties := or_preemptive
    (existsb (fun '(first, second) => after_previous (node_control second) && negb (header_action_result_is_known first))
             (zip rs (tail rs))) properties in
  MkSequence rs trailing properties.

(** The statements of the loop other than a recipe.
    Source: eval/tree.rs:153-201 `compile (loop body)` *)
Definition compile_statement (s : Statement) (source : SourceLocation) : option CompiledStatement :=
  match s with
  | S_Assignment a =>
      let compiled := {| cas_assignment := a; cas_location := Some (at_line source (as_line a)) |} in
      Some (if bool_decide (as_target a = Host) then CSt_Host compiled else CSt_Assignment compiled)
  | S_Unset u => Some (CSt_Unset {| cun_unset := u; cun_location := Some (at_line source (un_line u)) |})
  | S_CommandAssignment a => Some (CSt_CommandAssignment {| cca_assignment := a; cca_location := at_line source (ca_line a) |})
  | S_Include e => Some (CSt_Include e)
  | S_Switch e => Some (CSt_Switch e)
  | S_Recipe _ => None
  end.

Definition compile_step (node : Recipe -> list CompiledStatement -> CompiledNode) (source : SourceLocation)
    (state : list CompiledNode * list CompiledStatement) (s : Statement) : list CompiledNode * list CompiledStatement :=
  match s with
  | S_Recipe r => (state.1 ++ [node r state.2], [])
  | s => (state.1, state.2 ++ option_list (compile_statement s source))
  end.

(** The properties of a node from those of its action.
    Source: eval/tree.rs:380-403 `CompiledNode::compile (properties)` *)
Definition compiled_properties (action : CompiledAction) (continuation : ContinuationMode) (conditions : list CompiledCondition)
    (preceding : list CompiledStatement) (lock : option PathExpression) : PlanProperties :=
  let properties := action_properties action in
  let copy_block := match action with CA_Block _ => bool_decide (continuation = CM_Continue) | _ => false end in
  let properties := or_preemptive copy_block (or_ordered copy_block properties) in
  let properties := foldl (fun p c => properties_union p (condition_properties c)) properties conditions in
  let properties := properties_union properties (statements_properties preceding) in
  let locked := bool_decide (is_Some lock) in
  or_preemptive locked (or_ordered locked properties).

(** Source: eval/tree.rs `fn compile(@2` *)
Fixpoint compile_node (source : SourceLocation) (r : Recipe) (preceding : list CompiledStatement) {struct r} : CompiledNode :=
  match r with
  | MkRecipe line _ options lock conditions action =>
      let conditions := compile_conditions conditions options source in
      let action :=
        match action with
        | RA_Pipe action => CA_Pipe action options
        | RA_Capture action => CA_Capture action options
        | RA_Deliver destination => CA_Deliver destination (continuation options) (output_ending options)
        | RA_Block statements =>
            let '(rs, trailing) := foldl (compile_step (compile_node source) source) ([], []) statements in
            CA_Block (finish_sequence rs trailing)
        | RA_Headers action => CA_Headers action
        end in
      MkNode (at_line source line) preceding lock (control options) (continuation options) (child_status options) conditions action
             (compiled_properties action (continuation options) conditions preceding lock)
  end.

(** Source: eval/tree.rs `pub(super) fn compile(` *)
Definition compile (statements : list Statement) (preceding : list CompiledStatement) (source : SourceLocation) : CompiledSequence :=
  let '(rs, trailing) := foldl (compile_step (compile_node source) source) ([], preceding) statements in
  finish_sequence rs trailing.

(** Source: eval/tree.rs `pub(super) fn requirements_from` *)
Definition requirements_from (s : CompiledSequence) (start : nat) : InputRequirements :=
  let rs := drop start (recipes s) in
  let q := foldl (fun q r => requirements_union q (Conditions.requirements (node_properties r))) no_requirements rs in
  let q := requirements_union q (Conditions.requirements (statements_properties (trailing_statements s))) in
  if existsb (fun r => pp_ordered (node_properties r)) rs then requirements_union q end_requirement else q.

(** Source: eval/tree.rs `pub(super) fn has_error_handler` *)
Definition has_error_handler (s : CompiledSequence) (index : nat) : bool :=
  match recipes s !! S index with Some next => bool_decide (node_control next = AfterPreviousError) | None => false end.
End tree.

(** * The outcome of the recipes so far *)

(** Source: eval/tree.rs `pub(super) enum ActionExecution` *)
Inductive ActionExecution := NotAttempted | Succeeded | Failed.
#[export] Instance ActionExecution_eq_dec : EqDecision ActionExecution.
Proof. solve_decision. Defined.
(** Source: eval/tree.rs `pub(super) struct RecipeExecution` *)
Record RecipeExecution := { conditions_matched : bool; re_else_handled : bool; re_action : ActionExecution }.
(** Source: eval/tree.rs `pub(super) struct SequenceState` *)
Record SequenceState := { previous : option RecipeExecution; chain_base_matched : option bool }.
Definition initial_state : SequenceState := {| previous := None; chain_base_matched := None |}.

(** Source: eval/tree.rs `pub(super) fn record` *)
Definition record (s : SequenceState) (control : ControlFlow) (matched : bool) (action : ActionExecution) (else_handled : bool)
    : SequenceState :=
  {| previous := Some {| conditions_matched := matched; re_else_handled := else_handled; re_action := action |};
     chain_base_matched :=
       match control with AfterChainMatch | AfterPreviousSuccess => chain_base_matched s | _ => Some matched end |}.

Definition after_success (s : SequenceState) : bool :=
  match previous s with Some r => conditions_matched r && bool_decide (re_action r = Succeeded) | None => false end.
Definition not_handled (s : SequenceState) : bool :=
  match previous s with Some r => negb (re_else_handled r) | None => true end.

(** Source: eval.rs `fn execution_gate` *)
Definition execution_gate (control : ControlFlow) (s : SequenceState) : bool :=
  match control with
  | Independent => true
  | AfterChainMatch => default false (chain_base_matched s)
  | AfterPreviousSuccess => after_success s
  | Else => not_handled s
  | AfterPreviousError => match previous s with Some r => bool_decide (re_action r = Failed) | None => false end
  end.

(** Source: eval/header.rs `fn planning_gate` *)
Definition planning_gate (control : ControlFlow) (s : SequenceState) : bool :=
  match control with
  | Independent => true
  | AfterChainMatch => default false (chain_base_matched s)
  | AfterPreviousSuccess => after_success s
  | AfterPreviousError =>
      match previous s with Some r => conditions_matched r && bool_decide (re_action r = Failed) | None => false end
  | Else => not_handled s
  end.

(** Source: eval.rs `fn else_handled` *)
Definition else_handled (control : ControlFlow) (s : SequenceState) (matched : bool) : bool :=
  if bool_decide (control = Else) then match previous s with Some r => re_else_handled r | None => false end || matched
  else matched.

(** * Values of commands *)

(** Source: eval.rs `enum CapturedNewlineRule` *)
Inductive CapturedNewlineRule := StripOne | StripAll.

(** [while output.last() == Some(&b'\n') { output.pop(); }] *)
Fixpoint strip_newlines (fuel : nat) (output : bytes) : bytes :=
  match fuel with
  | O => output
  | S fuel' => if bool_decide (last output = Some c_LF) then strip_newlines fuel' (removelast output) else output
  end.

(** Source: eval.rs `fn validate_captured_value` *)
Definition validate_captured_value (output : bytes) (limit : Z) (variable : bytes) (rule : CapturedNewlineRule) : result EvalError bytes :=
  if limit <? len output then Err (E_VariableValueTooLarge variable (len output))
  else Ok match rule with
          | StripOne => if bool_decide (last output = Some c_LF) then removelast output else output
          | StripAll => strip_newlines (length output) output
          end.

(** * Statements *)

Section statements.
Context {T : Target} {R : RegexEngine}.

(** Source: eval.rs `struct ResolvedAssignment` *)
Record ResolvedAssignment := { ra_name : bytes; ra_target : AssignmentTarget; ra_value : bytes; ra_line : nat }.

Definition log_abstract_mode (value : bytes) : bool := existsb (bytes_eqb value) [B "no"; B "yes"; B "all"].

(** Source: eval.rs `fn apply(` *)
Definition apply_assignment (a : ResolvedAssignment) (runtime : RuntimeVariables) : result EvalError RuntimeVariables :=
  let refused message := E_RuntimeCondition (ra_line a) message in
  let text message := if valid_utf8 (ra_value a) then Ok (ra_value a) else Err (refused message) in
  match ra_target a with
  | Log => Ok (set_bytes runtime (ra_name a) (ra_value a))
  | Verbose =>
      value ← text (B "VERBOSE must be a procmail boolean value");
      _ ← ok_or (refused (B "VERBOSE must be a procmail boolean value")) (parse_procmail_boolean value);
      Ok (set_bytes runtime (ra_name a) (ra_value a))
  | LogAbstract =>
      value ← text (B "LOGABSTRACT must be 'no', 'yes', or 'all'");
      if log_abstract_mode value then Ok (set_bytes runtime (ra_name a) (ra_value a))
      else Err (refused (B "LOGABSTRACT must be 'no', 'yes', or 'all'"))
  | Shift =>
      value ← text (B "SHIFT must be a positive decimal integer");
      amount ← map_err refused (parse_shift value);
      Ok (shift_positionals (Runtime.remove (set_bytes runtime (ra_name a) (ra_value a)) (B "SHIFT")) (Z.to_nat amount))
  | _ => Ok (set_bytes runtime (ra_name a) (ra_value a))
  end.

(** Source: eval.rs `fn execute_unset` *)
Definition execute_unset (u : CompiledUnset) (runtime : RuntimeVariables) : RuntimeVariables := Runtime.remove runtime (un_name (cun_unset u)).

(** Source: eval.rs `fn execute_assignment` *)
Definition execute_assignment (a : CompiledAssignment) (runtime : RuntimeVariables) : result EvalError RuntimeVariables :=
  let a := cas_assignment a in
  value ← map_err E_Expansion (resolve_assignment a (get runtime));
  apply_assignment {| ra_name := as_name a; ra_target := as_target a; ra_value := value; ra_line := as_line a |} runtime.

Definition matches_host (runtime : RuntimeVariables) (line : nat) : result EvalError bool :=
  current ← ok_or (E_RuntimeSettingUnavailable line (B "HOST")) (system_hostname runtime);
  Ok (bytes_eqb (default [] (get runtime (B "HOST"))) current).

(** An assignment that fails leaves the variables as they are; a host that is
    not known leaves the assignment made. *)
Definition run_assignment {D} (a : CompiledAssignment) : M RuntimeVariables (stop EvalError D) () :=
  Comp (fun runtime => match execute_assignment a runtime with Ok runtime' => (Ok tt, runtime') | Err e => (Err (Evaluation e), runtime) end).
(** Source: eval.rs `fn execute_host_assignment` *)
Definition execute_host_assignment {D} (a : CompiledAssignment) : M RuntimeVariables (stop EvalError D) bool :=
  _ ← run_assignment a;
  Comp (fun runtime => (map_err Evaluation (matches_host runtime (as_line (cas_assignment a))), runtime)).

(** Source: eval.rs `enum SequenceControl` *)
Inductive SequenceControl := SC_Continue | SC_Stop | SC_EndRcFile | SC_SequenceComplete.

Definition include_name : bytes := B "INCLUDERC".
Definition switch_name : bytes := B "SWITCHRC".

(** Source: eval.rs:232-247 `execute_statements (loop body)` *)
Definition execute_statement {D} (s : CompiledStatement) : M RuntimeVariables (stop EvalError D) SequenceControl :=
  match s with
  | CSt_CommandAssignment a => stop_with (Evaluation (E_ExternalActionUnsupported (loc_line (cca_location a))))
  | CSt_Assignment a => _ ← run_assignment a; mret SC_Continue
  | CSt_Unset u => _ ← modify (execute_unset u); mret SC_Continue
  | CSt_Host a => here ← execute_host_assignment a; mret (if here : bool then SC_Continue else SC_EndRcFile)
  | CSt_Include e => stop_with (Evaluation (E_RuntimeRcLoaderUnavailable (loc_line (rf_location e)) include_name))
  | CSt_Switch e => stop_with (Evaluation (E_RuntimeRcLoaderUnavailable (loc_line (rf_location e)) switch_name))
  end.

(** Source: eval.rs `fn execute_statements` *)
Fixpoint execute_statements {D} (ss : list CompiledStatement) : M RuntimeVariables (stop EvalError D) SequenceControl :=
  match ss with
  | [] => mret SC_Continue
  | s :: rest =>
      control ← execute_statement s;
      match control with SC_Continue => execute_statements rest | other => mret other end
  end.

(** Source: eval.rs `fn resolve_lock` *)
Definition resolve_lock (n : CompiledNode) (runtime : RuntimeVariables) : result ExpansionError (option bytes) :=
  match node_lock n with
  | None => Ok None
  | Some expression => Some <$> resolve_lock_path expression (get runtime)
  end.

Context {X : ConditionExpander}.

(** The loop of [matches_complete].  A condition that fails leaves the variables
    it was given, where the code may have set some of its captures. *)
Fixpoint conditions_match_complete {D} (cs : list CompiledCondition) (message : CompleteMessage)
    : M RuntimeVariables (stop EvalError D) bool :=
  match cs with
  | [] => mret true
  | c :: rest =>
      matched ← Comp (fun runtime =>
        match matches_complete c message runtime with Ok (b, runtime') => (Ok b, runtime') | Err e => (Err (Evaluation e), runtime) end);
      if matched : bool then conditions_match_complete rest message else mret false
  end.
(** Source: eval.rs `fn matches_complete(` *)
Definition node_matches_complete {D} (n : CompiledNode) (message : CompleteMessage) : M RuntimeVariables (stop EvalError D) bool :=
  conditions_match_complete (node_conditions n) message.
End statements.

#[export] Instance SequenceControl_eq_dec : EqDecision SequenceControl.
Proof. solve_decision. Defined.
