(* ===== verification/PlanFacts.v ===== *)
(** Facts about plans ([Plan]): the gates of the recipe flags against a reading
    of the whole history of a sequence, and the properties of a compiled tree
    against those of its parts. *)
From stdpp Require Import gmap.
From S2P Require Import Prelude Config Runtime Settings EvalMessage Conditions Effects Binding Plan.
#[local] Open Scope Z_scope.

(** * The gates *)

(** What became of one recipe; a history holds the newest first. *)
Record Outcome := { oc_control : ControlFlow; oc_matched : bool; oc_action : ActionExecution }.

(** The state the code keeps after a history. *)
Definition after_history (h : list Outcome) : SequenceState :=
  foldr (fun o s => record s (oc_control o) (oc_matched o) (oc_action o) (else_handled (oc_control o) s (oc_matched o))) initial_state h.

(** The recipe a chain of [A] and [a] recipes hangs on: the latest that is
    neither. *)
Fixpoint chain_base (h : list Outcome) : option Outcome :=
  match h with
  | [] => None
  | o :: older => match oc_control o with AfterChainMatch | AfterPreviousSuccess => chain_base older | _ => Some o end
  end.
(** The recipes of the [E] chain that the next [E] recipe continues. *)
Fixpoint else_chain (h : list Outcome) : list Outcome :=
  match h with
  | [] => []
  | o :: older => o :: match oc_control o with Else => else_chain older | _ => [] end
  end.

(** The flags as the manual reads them. *)
Definition history_gate (control : ControlFlow) (h : list Outcome) : bool :=
  match control with
  | Independent => true
  | AfterChainMatch => match chain_base h with Some o => oc_matched o | None => false end
  | AfterPreviousSuccess => match h with o :: _ => oc_matched o && bool_decide (oc_action o = Succeeded) | [] => false end
  | Else => negb (existsb oc_matched (else_chain h))
  | AfterPreviousError => match h with o :: _ => bool_decide (oc_action o = Failed) | [] => false end
  end.

(** Only a recipe that was selected runs its action. *)
Definition attempted_if_matched (o : Outcome) : Prop := oc_action o <> NotAttempted -> oc_matched o = true.

Lemma after_history_base h : chain_base_matched (after_history h) = oc_matched <$> chain_base h.
Proof. induction h as [|o h IH]; [done|]. cbn [after_history foldr chain_base_matched record chain_base]. by destruct (oc_control o). Qed.

Lemma after_history_handled h :
  match previous (after_history h) with Some r => re_else_handled r | None => false end = existsb oc_matched (else_chain h).
Proof.
  induction h as [|o h IH]; [done|]. cbn [after_history foldr record previous re_else_handled else_chain existsb].
  change (foldr _ initial_state h) with (after_history h). unfold else_handled.
  destruct (oc_control o); cbn [bool_decide]; try (case_bool_decide; [done|cbn; by rewrite orb_false_r]).
  case_bool_decide; [|done]. by rewrite IH, orb_comm.
Qed.

(** C10: The flags of a recipe.  The bounded state a sequence keeps decides each of
    [A a E e] as the whole history of outcomes does; and the two gates of the
    program, at the header and in order, agree on every history in which only
    selected recipes ran. *)
Theorem gates_refine_history (control : ControlFlow) (h : list Outcome) :
  execution_gate control (after_history h) = history_gate control h /\
  (Forall attempted_if_matched h -> planning_gate control (after_history h) = history_gate control h).
Proof.
  assert (planning_gate control (after_history h) = execution_gate control (after_history h) \/ control = AfterPreviousError) as Hp.
  { destruct control; auto. }
  assert (execution_gate control (after_history h) = history_gate control h) as He.
  { destruct control; cbn [execution_gate history_gate].
    - done.
    - rewrite after_history_base. by destruct (chain_base h).
    - by destruct h.
    - unfold not_handled. rewrite <-after_history_handled. by destruct (previous _).
    - by destruct h. }
  split; [done|]. intros Hh. destruct Hp as [->| ->]; [done|].
  destruct h as [|o h]; [done|]. cbn. apply Forall_cons in Hh as [Ho _].
  case_bool_decide as Hf; [|by rewrite andb_false_r]. rewrite andb_true_r. apply Ho. by rewrite Hf.
Qed.

(** Every recipe that matched had its gate open. *)
Inductive gated : list Outcome -> Prop :=
| gated_nil : gated []
| gated_cons o h : gated h -> (oc_matched o = true -> execution_gate (oc_control o) (after_history h) = true) -> gated (o :: h).

Definition matched_count (h : list Outcome) : nat := length (List.filter oc_matched h).

Lemma matched_count_existsb h : matched_count h = 0%nat <-> existsb oc_matched h = false.
Proof. unfold matched_count. induction h as [|o h IH]; [done|]. cbn. destruct (oc_matched o); cbn; [done|apply IH]. Qed.

(** An [E] chain.  Of the recipes of an [E] chain, the one it starts with
    included, at most one is selected. *)
Theorem else_chain_exclusive (h : list Outcome) (Hg : gated h) : (matched_count (else_chain h) <= 1)%nat.
Proof.
  induction Hg as [|o h Hg IH Ho]; [cbn; lia|]. cbn [else_chain]. unfold matched_count in *. cbn [List.filter].
  destruct (oc_control o) eqn:Hc; try (destruct (oc_matched o); cbn; lia).
  destruct (oc_matched o) eqn:Hm; [|done]. cbn [length].
  specialize (Ho eq_refl). destruct (gates_refine_history Else h) as [He _]. rewrite He in Ho. cbn in Ho.
  apply negb_true_iff, matched_count_existsb in Ho. unfold matched_count in Ho. lia.
Qed.

(** * Properties of the parts *)

Definition leb (a b : bool) : Prop := a = true -> b = true.
Record requirements_below (p q : InputRequirements) : Prop := {
  below_headers : leb (needs_headers p) (needs_headers q);
  below_body : leb (needs_body_contents p) (needs_body_contents q);
  below_end : leb (needs_end_of_message p) (needs_end_of_message q);
}.
Record properties_below (p q : PlanProperties) : Prop := {
  below_requirements : requirements_below (Conditions.requirements p) (Conditions.requirements q);
  below_ordered : leb (pp_ordered p) (pp_ordered q);
  below_preemptive : leb (pp_preemptive p) (pp_preemptive q);
  below_full : leb (pp_full_matching p) (pp_full_matching q);
  below_external : leb (pp_external p) (pp_external q);
}.

#[export] Instance properties_below_preorder : PreOrder properties_below.
Proof.
  split; [intros p|intros p q r [[] ? ? ? ?] [[] ? ? ? ?]]; repeat constructor; unfold leb in *; auto.
Qed.
#[export] Instance requirements_below_preorder : PreOrder requirements_below.
Proof. split; [intros p|intros p q r [] []]; constructor; unfold leb in *; auto. Qed.

Ltac below := repeat constructor; unfold leb; cbn; rewrite ?orb_true_iff; auto.
Lemma below_union_l p q : properties_below p (properties_union p q).
Proof. below. Qed.
Lemma below_union_r p q : properties_below q (properties_union p q).
Proof. below. Qed.
Lemma below_or_ordered b p : properties_below p (or_ordered b p).
Proof. below. Qed.
Lemma below_or_preemptive b p : properties_below p (or_preemptive b p).
Proof. below. Qed.
Create HintDb below.
#[export] Hint Resolve below_union_l below_union_r below_or_ordered below_or_preemptive : below.

(** A fold of unions is above its start and above every element. *)
Lemma fold_union_start {A} (f : A -> PlanProperties) l p : properties_below p (foldl (fun p x => properties_union p (f x)) p l).
Proof. revert p. induction l as [|x l IH]; intros p; cbn [foldl]; [done|]. etransitivity; [apply below_union_l|apply IH]. Qed.
Lemma fold_union_element {A} (f : A -> PlanProperties) l p x :
  x ∈ l -> properties_below (f x) (foldl (fun p x => properties_union p (f x)) p l).
Proof.
  revert p. induction l as [|y l IH]; intros p Hx; [by apply elem_of_nil in Hx|]. cbn [foldl].
  apply elem_of_cons in Hx as [->|Hx]; [|by apply IH]. etransitivity; [apply below_union_r|]. apply (fold_union_start f).
Qed.

Section tree.
Context {R : RegexEngine}.

(** The parts of a tree that ask something of the message or the delivery. *)
Inductive plan_part := PP_Statement (s : CompiledStatement) | PP_Condition (c : CompiledCondition) | PP_Action (a : CompiledAction).
Definition part_properties (p : plan_part) : PlanProperties :=
  match p with
  | PP_Statement s => statement_properties s
  | PP_Condition c => condition_properties c
  | PP_Action a => action_properties a
  end.

(** A part of a sequence, at any depth of its blocks. *)
Inductive within : CompiledSequence -> plan_part -> Prop :=
| within_trailing s st : st ∈ trailing_statements s -> within s (PP_Statement st)
| within_preceding s n st : n ∈ recipes s -> st ∈ preceding_statements n -> within s (PP_Statement st)
| within_condition s n c : n ∈ recipes s -> c ∈ node_conditions n -> within s (PP_Condition c)
| within_action s n : n ∈ recipes s -> within s (PP_Action (node_action n))
| within_block s n children p : n ∈ recipes s -> node_action n = CA_Block children -> within children p -> within s p.

(** A sequence whose properties were computed from its parts. *)
Inductive coherent : CompiledSequence -> Prop :=
| coherent_sequence s :
    sequence_properties s = sequence_properties (finish_sequence (recipes s) (trailing_statements s)) ->
    Forall coherent_node (recipes s) -> coherent s
with coherent_node : CompiledNode -> Prop :=
| coherent_of n :
    node_properties n = compiled_properties (node_action n) (node_continuation n) (node_conditions n) (preceding_statements n) (node_lock n) ->
    (forall children, node_action n = CA_Block children -> coherent children) -> coherent_node n.

Lemma below_finish rs trailing p :
  properties_below p (properties_union (recipes_properties rs) (statements_properties trailing)) ->
  properties_below p (sequence_properties (finish_sequence rs trailing)).
Proof. intros Hp. unfold finish_sequence, sequence_properties. etransitivity; [exact Hp|]. etransitivity; [apply below_or_ordered|apply below_or_preemptive]. Qed.

Lemma recipe_below s n : coherent s -> n ∈ recipes s -> properties_below (node_properties n) (sequence_properties s).
Proof.
  intros [s' -> _] Hn. apply below_finish. etransitivity; [|apply below_union_l]. unfold recipes_properties.
  apply (fold_union_element node_properties). done.
Qed.
Lemma trailing_below s st : coherent s -> st ∈ trailing_statements s -> properties_below (statement_properties st) (sequence_properties s).
Proof.
  intros [s' -> _] Hn. apply below_finish. etransitivity; [|apply below_union_r]. by apply (fold_union_element statement_properties).
Qed.
Lemma coherent_recipe s n : coherent s -> n ∈ recipes s -> coherent_node n.
Proof. intros [s' _ H] Hn. by eapply Forall_forall in H. Qed.
Lemma node_action_below n : coherent_node n -> properties_below (action_properties (node_action n)) (node_properties n).
Proof.
  intros [n' -> _]. unfold compiled_properties. etransitivity; [|etransitivity; [apply below_or_ordered|apply below_or_preemptive]].
  etransitivity; [|apply below_union_l]. etransitivity; [|apply (fold_union_start condition_properties)].
  etransitivity; [apply below_or_ordered|apply below_or_preemptive].
Qed.
Lemma node_condition_below n c : coherent_node n -> c ∈ node_conditions n -> properties_below (condition_properties c) (node_properties n).
Proof.
  intros [n' -> _] Hc. unfold compiled_properties. etransitivity; [|etransitivity; [apply below_or_ordered|apply below_or_preemptive]].
  etransitivity; [|apply below_union_l]. by apply (fold_union_element condition_properties).
Qed.
Lemma node_statement_below n st : coherent_node n -> st ∈ preceding_statements n -> properties_below (statement_properties st) (node_properties n).
Proof.
  intros [n' -> _] Hc. unfold compiled_properties. etransitivity; [|etransitivity; [apply below_or_ordered|apply below_or_preemptive]].
  etransitivity; [|apply below_union_r]. by apply (fold_union_element statement_properties).
Qed.

Lemma coherent_covers s p : coherent s -> within s p -> properties_below (part_properties p) (sequence_properties s).
Proof.
  intros Hs Hp. induction Hp as [s st Hst|s n st Hn Hst|s n c Hn Hc|s n Hn|s n children p Hn Ha Hp IH]; cbn [part_properties].
  - by apply trailing_below.
  - transitivity (node_properties n); [|by apply recipe_below]. apply node_statement_below; [by eapply coherent_recipe|done].
  - transitivity (node_properties n); [|by apply recipe_below]. apply node_condition_below; [by eapply coherent_recipe|done].
  - transitivity (node_properties n); [|by apply recipe_below]. apply node_action_below. by eapply coherent_recipe.
  - assert (coherent_node n) as Hcn by (by eapply coherent_recipe). transitivity (node_properties n); [|by apply recipe_below].
    etransitivity; [|by apply node_action_below]. rewrite Ha. cbn [action_properties]. apply IH. destruct Hcn as [n' _ H]. by apply H.
Qed.

Lemma finish_coherent rs trailing : Forall coherent_node rs -> coherent (finish_sequence rs trailing).
Proof. intros H. by constructor. Qed.

(** The loop of [compile] over nodes that are coherent one by one. *)
Lemma compile_steps_coherent node source statements state :
  Forall (fun s => match s with S_Recipe r => forall preceding, coherent_node (node r preceding) | _ => True end) statements ->
  Forall coherent_node state.1 -> Forall coherent_node (foldl (compile_step node source) state statements).1.
Proof.
  revert state. induction statements as [|s statements IH]; intros state Hs Hst; cbn [foldl]; [done|].
  apply Forall_cons in Hs as [Hs Hrest]. apply IH; [done|]. destruct s; try done. cbn. apply Forall_app. auto.
Qed.

Lemma compile_node_coherent source : forall r preceding, coherent_node (compile_node source r preceding).
Proof.
  fix IH 1. intros [line action_line options lock conditions action] preceding. cbn [compile_node].
  constructor; cbn; [done|]. intros children Hc. destruct action as [d|a|a|statements|a]; try discriminate Hc.
  destruct (foldl _ ([], []) statements) as [rs trailing] eqn:Hf. injection Hc as <-. apply finish_coherent.
  pose proof (compile_steps_coherent (compile_node source) source statements ([], [])) as H. rewrite Hf in H. apply H; [|done].
  clear H Hf rs trailing. induction statements as [|s statements IHs]; constructor; [|exact IHs].
  destruct s; try exact I. apply IH.
Qed.

Lemma compile_coherent statements preceding source : coherent (compile statements preceding source).
Proof.
  unfold compile. destruct (foldl _ ([], preceding) statements) as [rs trailing] eqn:Hf. apply finish_coherent.
  pose proof (compile_steps_coherent (compile_node source) source statements ([], preceding)) as H. rewrite Hf in H. apply H; [|done].
  clear. induction statements as [|s statements IHs]; constructor; [|done]. destruct s; try exact I. intros. apply compile_node_coherent.
Qed.

(** The properties of a compiled tree cover its parts.  Whatever a statement,
    a condition or an action asks for, at any depth of the blocks, the plan of
    the whole file asks for: sections of the message, ordered delivery with or
    without reading the header first, the unfolded view, the external commands. *)
Theorem properties_cover_parts (statements : list Statement) (preceding : list CompiledStatement) (source : SourceLocation)
    (p : plan_part) (Hp : within (compile statements preceding source) p) :
  properties_below (part_properties p) (sequence_properties (compile statements preceding source)).
Proof. apply coherent_covers; [apply compile_coherent|done]. Qed.
End tree.

(** * Samples *)

Definition sample_location : SourceLocation := {| loc_line := 0; loc_file := None; loc_truncated := false |}.
Definition sample_options (control : ControlFlow) : RecipeOptions := {|
  condition_input := CI_Headers; case_mode := Insensitive; control := control; action_input := AI_Message; action_mode := Deliver_;
  continuation := CM_Stop; child_status := CS_Ignore; write_errors := WE_Fail; output_ending := Normalize |}.
Definition sample_maildir (path : bytes) : Destination := D_Maildir {|
  pe_source := path; pe_base := None; pe_location := sample_location; pe_runtime_dependent := false; pe_runtime_base := false;
  pe_typed_destination := true; pe_expansion := None |}.

(** A first recipe that matched and failed, then an [E] that was not tried, then
    an [e] that ran. *)
Definition sample_history : list Outcome :=
  [{| oc_control := Else; oc_matched := false; oc_action := NotAttempted |};
   {| oc_control := Independent; oc_matched := true; oc_action := Failed |}].

Lemma gates_refine_history_witness :
  planning_gate AfterPreviousError (after_history (tail sample_history)) = true /\
  execution_gate Else (after_history sample_history) = false.
Proof.
  split.
  - rewrite (proj2 (gates_refine_history AfterPreviousError (tail sample_history))); [reflexivity|]. repeat constructor.
  - rewrite (proj1 (gates_refine_history Else sample_history)). reflexivity.
Defined.

Lemma else_chain_exclusive_witness : gated sample_history /\ (matched_count (else_chain sample_history) <= 1)%nat.
Proof.
  assert (gated sample_history) as H by (repeat constructor; discriminate || reflexivity).
  split; [exact H|exact (else_chain_exclusive sample_history H)].
Defined.

Definition piped_recipe {R : RegexEngine} : Statement :=
  S_Recipe (MkRecipe 4 5 (sample_options Independent) None [] (RA_Block
    [S_Recipe (MkRecipe 6 7 (sample_options Independent) None [] (RA_Pipe {| pipe_command := B "spam" |}))])).

Lemma properties_cover_parts_witness :
  exists p, within (compile (R := Settings.no_regex) [piped_recipe] [] sample_location) p /\
    pp_external (sequence_properties (compile (R := Settings.no_regex) [piped_recipe] [] sample_location)) = true.
Proof.
  exists (PP_Action (CA_Pipe {| pipe_command := B "spam" |} (sample_options Independent))).
  assert (within (compile (R := Settings.no_regex) [piped_recipe] [] sample_location)
    (PP_Action (CA_Pipe {| pipe_command := B "spam" |} (sample_options Independent)))) as H.
  { eapply within_block; [simpl; left|reflexivity|]. eapply (within_action (R := Settings.no_regex) _ (MkNode _ _ _ _ _ _ _ (CA_Pipe _ _) _)). simpl. left. }
  split; [exact H|]. exact (below_external _ _ (properties_cover_parts (R := Settings.no_regex) [piped_recipe] [] sample_location _ H) eq_refl).
Defined.
