(* ===== verification/RcFile.v ===== *)
(** Rc files: [src/src/rc_file.rs], with the part of [src/src/config/mod.rs] that
    tells a configuration its file.  The loader opens a file, checks the
    descriptor, reads a bounded source and prepares the configuration; its state
    is what it has read so far, kept also when a load fails.

    Files are the operating system's, and the parser and the expander of a
    configuration are other components: they are an interface here. *)
From stdpp Require Import gmap pretty.
From S2P Require Import Prelude Numbers Config Limits Utf8 HeaderValue Variables Syntax Runtime Settings ShellPattern ShellEval ExprParser Expand Effects.
#[local] Open Scope Z_scope.

(** Source: rc_file.rs:22-26 `MAX_RC_FILE_COUNT, MAX_RC_AGGREGATE_SIZE, MAX_RC_INCLUDE_DEPTH, MAX_RC_TRANSITIONS, MAX_RC_CHECK_WARNINGS` *)
Definition MAX_RC_FILE_COUNT : nat := 32.
Definition MAX_RC_AGGREGATE_SIZE : Z := 4 * 1024 * 1024.
Definition MAX_RC_INCLUDE_DEPTH : nat := 16.
Definition MAX_RC_TRANSITIONS : nat := 256.
Definition MAX_RC_CHECK_WARNINGS : nat := 128.

(** Source: rc_file.rs `pub struct RcFileError` *)
Record RcFileError := {
  rfe_path : bytes; rfe_message : bytes; rfe_location : option SourceLocation; resource_limit : bool; not_found : bool;
}.
(** Source: rc_file.rs `fn new(path: &Path` *)
Definition rc_error (path message : bytes) : RcFileError :=
  {| rfe_path := path; rfe_message := message; rfe_location := None; resource_limit := false; not_found := false |}.
(** Source: rc_file.rs `fn limit(path: &Path` *)
Definition rc_limit_error (path message : bytes) : RcFileError :=
  {| rfe_path := path; rfe_message := message; rfe_location := None; resource_limit := true; not_found := false |}.

(** An error of the operating system. *)
Record OsError := { os_message : bytes; os_not_found : bool }.
(** Source: rc_file.rs `fn io(path: &Path` *)
Definition rc_io_error (path : bytes) (e : OsError) : RcFileError :=
  {| rfe_path := path; rfe_message := os_message e; rfe_location := None; resource_limit := false; not_found := os_not_found e |}.
(** Source: rc_file.rs `pub fn safe_message` *)
Definition safe_message (e : RcFileError) : bytes :=
  match rfe_location e with
  | Some location => B "invalid rc syntax: line " ++ decimal (loc_line location) ++ B ": " ++ rfe_message e
  | None => rfe_message e
  end.

(** Source: source_location.rs `pub fn for_file` *)
Definition for_file (path : bytes) (line : nat) : result bytes SourceLocation :=
  if bool_decide (path = []) || (MAX_PATH_EXPRESSION_LEN <? len path) || existsb (Z.eqb 0) path
  then Err (B "rc path is empty, contains NUL, or exceeds the path limit")
  else Ok {| loc_line := line; loc_file := Some path; loc_truncated := false |}.

(** Source: rc_file.rs `fn parse_file_error` *)
Definition parse_file_error (path : bytes) (e : ParseError) : RcFileError :=
  match for_file path (perr_line e) with
  | Err message => rc_error path message
  | Ok location =>
      {| rfe_path := path; rfe_message := perr_message e; rfe_location := Some location;
         resource_limit := perr_resource_limit e; not_found := false |}
  end.

(** An open file: what [fstat] says of it, and what reading it gives. *)
Record OpenFile := { of_regular : bool; of_uid : Z; of_mode : Z; of_read : result OsError bytes }.

Section rc_file.
Context {T : Target} {R : RegexEngine}.

(** ** The file of a configuration *)

Definition in_file (source : SourceLocation) (l : SourceLocation) : SourceLocation := at_line source (loc_line l).
Definition path_in_file (source : SourceLocation) (e : PathExpression) : PathExpression :=
  {| pe_source := pe_source e; pe_base := pe_base e; pe_location := in_file source (pe_location e);
     pe_runtime_dependent := pe_runtime_dependent e; pe_runtime_base := pe_runtime_base e;
     pe_typed_destination := pe_typed_destination e; pe_expansion := pe_expansion e |}.
Definition rc_in_file (source : SourceLocation) (e : RcFileExpression) : RcFileExpression :=
  {| rf_location := in_file source (rf_location e); rf_value := rf_value e; rf_expansion := rf_expansion e |}.
Definition destination_in_file (source : SourceLocation) (d : Destination) : Destination :=
  match d with
  | D_Mbox e => D_Mbox (path_in_file source e) | D_Maildir e => D_Maildir (path_in_file source e)
  | D_File e => D_File (path_in_file source e) | D_Discard e => D_Discard (path_in_file source e)
  end.
(** Source: config/mod.rs:1197-1218 `bind` *)
Fixpoint bind_source (source : SourceLocation) (s : Statement) {struct s} : Statement :=
  match s with
  | S_Include e => S_Include (rc_in_file source e)
  | S_Switch e => S_Switch (rc_in_file source e)
  | S_Recipe (MkRecipe line action_line options lock conditions action) =>
      S_Recipe (MkRecipe line action_line options (path_in_file source <$> lock) conditions
        match action with
        | RA_Deliver d => RA_Deliver (destination_in_file source d)
        | RA_Block statements => RA_Block (List.map (bind_source source) statements)
        | other => other
        end)
  | other => other
  end.
(** Source: config/mod.rs `pub(crate) fn set_source_file` *)
Definition set_source_file (c : Config) (path : bytes) : result bytes Config :=
  source ← for_file path 0;
  Ok {| statements := List.map (bind_source source) (statements c); cfg_source_location := source;
        initial_variables := initial_variables c; parse_counts := parse_counts c; initial_linebuf := initial_linebuf c |}.

(** Source: config/mod.rs `pub fn for_each_compatibility_warning` *)
Fixpoint compatibility_warnings (s : Statement) {struct s} : list (nat * byte) :=
  match s with
  | S_Recipe (MkRecipe line _ options _ _ (RA_Block children)) =>
      match write_errors options with WE_Ignore => [(line, 105)] | WE_Fail => [] end ++
      match output_ending options with Preserve => [(line, 114)] | Normalize => [] end ++
      flat_map compatibility_warnings children
  | _ => []
  end.
Definition config_warnings (c : Config) : list (nat * byte) := flat_map compatibility_warnings (statements c).

(** Source: rc_file.rs `fn validate_runtime_settings` *)
Fixpoint validate_runtime_setting (s : Statement) {struct s} : result (nat * bytes) () :=
  match s with
  | S_Assignment a => if allowed_in_runtime_rc (as_target a) then Ok tt else Err (as_line a, as_name a)
  | S_Unset u => if allowed_in_runtime_rc (un_target u) then Ok tt else Err (un_line u, un_name u)
  | S_Recipe (MkRecipe _ _ _ _ _ (RA_Block children)) =>
      foldr (fun child rest => match validate_runtime_setting child with Ok _ => rest | Err e => Err e end) (Ok tt) children
  | _ => Ok tt
  end.
Definition validate_runtime_settings (ss : list Statement) : result (nat * bytes) () :=
  foldr (fun child rest => match validate_runtime_setting child with Ok _ => rest | Err e => Err e end) (Ok tt) ss.

(** ** The loader *)

(** What the loader needs of the operating system, of the parser and of the
    expander: [open_root] follows a symbolic link and [open_rc] refuses one.  A file
    is what its descriptor gives, which the code checks and reads after it was
    opened: what changes under its name in between has no effect on either.  What
    a name opens is fixed for a run; a file that is replaced between two loads is not
    modelled. *)
Class RcSource := {
  open_root : bytes -> result OsError OpenFile;
  open_rc : bytes -> result OsError OpenFile;
  parse_with_state : bytes -> ParseBudget -> result ParseError (Config * ParseBudget);
  expand_with_runtime_values : Config -> gmap (list Z) bytes -> result ExpansionError Config;
  prepare_for_check : Config -> gmap (list Z) bytes -> result ExpansionError Config;
}.
Context {F : RcSource}.

(** Source: rc_file.rs `pub struct RcFileLoader` *)
Record RcFileLoader := { trusted_uid : Z; files_read : nat; bytes_read : Z; parse_state : ParseBudget }.
(** Source: rc_file.rs `pub struct LoadedRcFile` *)
Record LoadedRcFile := { lf_path : bytes; lf_source : bytes }.
(** Source: rc_file.rs `pub struct LoadedRcConfig` *)
Record LoadedRcConfig := { lc_path : bytes; lc_config : Config }.

Definition counted_file (l : RcFileLoader) : RcFileLoader :=
  {| trusted_uid := trusted_uid l; files_read := S (files_read l); bytes_read := bytes_read l; parse_state := parse_state l |}.
Definition counted_bytes (n : Z) (l : RcFileLoader) : RcFileLoader :=
  {| trusted_uid := trusted_uid l; files_read := files_read l; bytes_read := bytes_read l + n; parse_state := parse_state l |}.
Definition with_parse_state (b : ParseBudget) (l : RcFileLoader) : RcFileLoader :=
  {| trusted_uid := trusted_uid l; files_read := files_read l; bytes_read := bytes_read l; parse_state := b |}.

(** Reading takes one byte more than the smaller limit, to see that there is
    one.
    Source: rc_file.rs `fn read_bounded` *)
Definition read_bounded (path : bytes) (file : OpenFile) (file_limit aggregate_remaining : Z) : result RcFileError bytes :=
  let limit := Z.min file_limit aggregate_remaining in
  content ← map_err (rc_io_error path) (of_read file);
  let source := take (Z.to_nat (limit + 1)) content in
  if file_limit <? len source then
    Err (rc_limit_error path (B "rc file exceeds the hard limit of " ++ z_decimal file_limit ++ B " bytes"))
  else if aggregate_remaining <? len source then
    Err (rc_limit_error path (B "aggregate rc size exceeds the hard limit of " ++ z_decimal MAX_RC_AGGREGATE_SIZE ++ B " bytes"))
  else Ok source.

Definition as_source (path source : bytes) : result RcFileError bytes :=
  if valid_utf8 source then Ok source else Err (rc_error path (B "rc file is not valid UTF-8")).

(** Source: rc_file.rs `pub fn for_root` *)
Definition for_root (path : bytes) : result RcFileError (RcFileLoader * LoadedRcFile) :=
  file ← map_err (rc_io_error path) (open_root path);
  if negb (of_regular file) then Err (rc_error path (B "rc path is not a regular file"))
  else
    source ← read_bounded path file MAX_RC_SIZE MAX_RC_AGGREGATE_SIZE;
    text ← as_source path source;
    Ok ({| trusted_uid := of_uid file; files_read := 1; bytes_read := len source; parse_state := empty_budget |},
        {| lf_path := path; lf_source := text |}).

Abbreviation Loading := (M RcFileLoader RcFileError) (only parsing).

(** The checks of [load] on the open descriptor.
    Source: rc_file.rs:149-167 `load (the descriptor)` *)
Definition check_descriptor (path : bytes) (uid : Z) (file : OpenFile) : result RcFileError () :=
  if negb (of_regular file) then Err (rc_error path (B "rc path is not a regular file"))
  else if negb (of_uid file =? uid) then
    Err (rc_error path (B "rc file owner " ++ z_decimal (of_uid file) ++ B " differs from trusted owner " ++ z_decimal uid))
  else if negb (Z.land (of_mode file) 18 =? 0) then Err (rc_error path (B "rc file is writable by group or other users"))
  else Ok tt.

(** The sum of bytes is within the aggregate limit when it is made, so that
    addition does not overflow; the subtraction before it fails when it would be
    negative.
    Source: rc_file.rs `pub fn load(&mut self` *)
Definition load (path : bytes) (depth : nat) : Loading LoadedRcFile :=
  if (MAX_RC_INCLUDE_DEPTH <? depth)%nat then
    stop_with (rc_limit_error path (B "rc nesting exceeds the hard limit of " ++ decimal MAX_RC_INCLUDE_DEPTH))
  else
    l ← gets id;
    if (MAX_RC_FILE_COUNT <=? files_read l)%nat then
      stop_with (rc_limit_error path (B "rc file count exceeds the hard limit of " ++ decimal MAX_RC_FILE_COUNT))
    else if MAX_RC_AGGREGATE_SIZE <? bytes_read l then stop_with (rc_limit_error path (B "aggregate rc byte count overflows"))
    else
      let remaining := MAX_RC_AGGREGATE_SIZE - bytes_read l in
      _ ← modify counted_file;
      file ← of_result (map_err (rc_io_error path) (open_rc path));
      _ ← of_result (check_descriptor path (trusted_uid l) file);
      source ← of_result (read_bounded path file MAX_RC_SIZE remaining);
      _ ← modify (counted_bytes (len source));
      text ← of_result (as_source path source);
      mret {| lf_path := path; lf_source := text |}.

(** Source: rc_file.rs:247-258 `LIMITS` *)
Definition runtime_limits : list (bytes * RcLimitVariable) :=
  [(B "LIMIT_MAX_ASSIGNMENTS", RLV_Assignments); (B "LIMIT_RC_STATEMENTS", RLV_Statements); (B "LIMIT_RC_RECIPES", RLV_Recipes);
   (B "LIMIT_RC_CONDITIONS", RLV_Conditions); (B "LIMIT_RC_REGEXES", RLV_Regexes);
   (B "LIMIT_RECIPE_CONDITIONS", RLV_ConditionsPerRecipe); (B "LIMIT_RECIPE_NESTING", RLV_NestingDepth)].

Definition activate_limit (runtime : RuntimeVariables) (path name : bytes) (kind : RcLimitVariable) (limits : RcLimits)
    : result RcFileError RcLimits :=
  match get runtime name with
  | None => Ok limits
  | Some value =>
      value ← ok_or (rc_error path (B "runtime " ++ name ++ B " is not an unsigned decimal integer")) (parse_usize value);
      map_err (fun hard_limit => rc_limit_error path (B "runtime " ++ name ++ B " exceeds the hard limit of " ++ z_decimal hard_limit))
        (set_rc_limit limits kind value)
  end.
Fixpoint activate_limits (runtime : RuntimeVariables) (path : bytes) (kinds : list (bytes * RcLimitVariable)) (limits : RcLimits)
    : result RcFileError RcLimits :=
  match kinds with
  | [] => Ok limits
  | (name, kind) :: rest => limits ← activate_limit runtime path name kind limits; activate_limits runtime path rest limits
  end.
(** Source: rc_file.rs `fn activate_runtime_limits` *)
Definition activate_runtime_limits (runtime : RuntimeVariables) (path : bytes) : Loading () :=
  limits ← of_result (activate_limits runtime path runtime_limits default_rc_limits);
  modify (fun l => with_parse_state (replace_limits (parse_state l) limits) l).

(** Source: rc_file.rs `enum RuntimeRcPreparation` *)
Inductive RuntimeRcPreparation := Prepare_Expand | Prepare_Check.

(** Source: config/expand.rs:189-197 `impl fmt::Display for ExpansionError` *)
Definition expansion_error_text (e : ExpansionError) : bytes :=
  if (ex_line e =? 0)%nat then B "command line: " ++ ex_message e else B "line " ++ decimal (ex_line e) ++ B ": " ++ ex_message e.
(** Source: rc_file.rs `fn prepare(self` *)
Definition prepare (p : RuntimeRcPreparation) (c : Config) (runtime : RuntimeVariables) : result bytes Config :=
  match p with
  | Prepare_Expand => map_err (fun e => B "cannot expand rc file: " ++ expansion_error_text e) (expand_with_runtime_values c (values runtime))
  | Prepare_Check => map_err (fun e => B "cannot validate rc file: " ++ expansion_error_text e) (prepare_for_check c (values runtime))
  end.

(** Source: rc_file.rs `fn load_prepared_config` *)
Definition load_prepared_config (e : RcFileExpression) (runtime : RuntimeVariables) (depth : nat) (preparation : RuntimeRcPreparation)
    : Loading (option LoadedRcConfig) :=
  path ← of_result (map_err (fun e => rc_error (B "<runtime rc path>") (expansion_error_text e)) (resolve_rc_file e (get runtime)));
  if bool_decide (path = []) then mret None
  else
    loaded ← load path depth;
    _ ← activate_runtime_limits runtime (lf_path loaded);
    l ← gets id;
    '(config, next_parse_state) ← of_result (map_err (parse_file_error (lf_path loaded)) (parse_with_state (lf_source loaded) (parse_state l)));
    config ← of_result (map_err (rc_error (lf_path loaded)) (set_source_file config (lf_path loaded)));
    _ ← modify (with_parse_state next_parse_state);
    _ ← of_result (map_err (fun '(line, name) => rc_error (lf_path loaded)
          (B "line " ++ decimal line ++ B ": " ++ name ++ B " must be set before message processing begins"))
          (validate_runtime_settings (statements config)));
    config ← of_result (map_err (rc_error (lf_path loaded)) (prepare preparation config runtime));
    mret (Some {| lc_path := lf_path loaded; lc_config := config |}).
(** Source: rc_file.rs `pub fn load_config` *)
Definition load_config (e : RcFileExpression) (runtime : RuntimeVariables) (depth : nat) := load_prepared_config e runtime depth Prepare_Expand.
(** Source: rc_file.rs `fn load_check_config` *)
Definition load_check_config (e : RcFileExpression) (runtime : RuntimeVariables) (depth : nat) := load_prepared_config e runtime depth Prepare_Check.
(** Source: rc_file.rs `pub fn account_root_config` *)
Definition account_root_config (l : RcFileLoader) (c : Config) : RcFileLoader :=
  with_parse_state (reset_budget (parse_state l) (parse_counts c)) l.

(** ** Checking the files that are known *)

(** Source: rc_file.rs `struct RcCheckWarnings` *)
Record RcCheckWarnings := { cw_messages : list bytes; cw_omitted : nat }.
Definition no_warnings : RcCheckWarnings := {| cw_messages := []; cw_omitted := 0 |}.

(** Source: rc_file.rs `fn push(&mut self, message` *)
Definition push_warning (w : RcCheckWarnings) (message : bytes) : result RcFileError RcCheckWarnings :=
  if (length (cw_messages w) <? MAX_RC_CHECK_WARNINGS)%nat then Ok {| cw_messages := cw_messages w ++ [message]; cw_omitted := cw_omitted w |}
  else
    omitted ← ok_or (rc_limit_error (B "<check>") (B "rc check warning count overflows")) (checked_add (cw_omitted w) 1);
    Ok {| cw_messages := cw_messages w; cw_omitted := omitted |}.
(** Source: rc_file.rs `fn dynamic_path` *)
Definition dynamic_path_warning (w : RcCheckWarnings) (depth line : nat) (statement : bytes) : result RcFileError RcCheckWarnings :=
  push_warning w (B "rc depth " ++ decimal depth ++ B ", line " ++ decimal line ++ B ": dynamic " ++ statement ++ B " path was not validated").
(** Source: rc_file.rs `fn compatibility_flag` *)
Definition compatibility_flag (w : RcCheckWarnings) (path : bytes) (line : nat) (flag : byte) : result RcFileError RcCheckWarnings :=
  push_warning w (path ++ B ":" ++ decimal line ++ B ": recipe flag '" ++ [flag] ++ B "' has no effect on a block").
(** Source: rc_file.rs `fn finish(mut self)` *)
Definition finish_warnings (w : RcCheckWarnings) : list bytes :=
  cw_messages w ++ if (cw_omitted w =? 0)%nat then [] else [decimal (cw_omitted w) ++ B " additional rc warnings were omitted"].
Fixpoint compatibility_flags (w : RcCheckWarnings) (path : bytes) (flags : list (nat * byte)) : result RcFileError RcCheckWarnings :=
  match flags with
  | [] => Ok w
  | (line, flag) :: rest => w ← compatibility_flag w path line flag; compatibility_flags w path rest
  end.

(** A check of statements carries the variables and the warnings, and says
    whether it ended the list; [OutOfFuel] is the model's own. *)
Definition CheckError := stop RcFileError Empty_set.
Abbreviation Checking A := (M RcFileLoader CheckError A) (only parsing).
Definition checked {A} (r : result RcFileError A) : Checking A := of_result (map_err Evaluation r).
Definition Checked : Type := RuntimeVariables * RcCheckWarnings.
Definition loading {A} (m : Loading A) : Checking A := Comp (fun l => let '(r, l') := run m l in (map_err Evaluation r, l')).

Section statements.
(** The check of the statements of a loaded file, one level deeper. *)
Context (check_file : nat -> list Statement -> Checked -> Checking Checked).

Definition check_switch_name (is_include : bool) : bytes := if is_include then B "INCLUDERC" else B "SWITCHRC".

(** Source: rc_file.rs:314-376 `check_statements (Include, Switch)` *)
Definition check_rc_statement (is_include : bool) (e : RcFileExpression) (depth : nat) (state : Checked) : Checking (Checked * bool) :=
  let '(runtime, warnings) := state in
  match resolve_rc_file e (get runtime) with
  | Err _ =>
      warnings ← checked (dynamic_path_warning warnings depth (loc_line (rf_location e)) (check_switch_name is_include));
      mret (runtime, warnings, false)
  | Ok resolved =>
      if negb is_include && bytes_eqb resolved (B "/dev/null") then mret (runtime, warnings, true)
      else
        child_depth ← checked (ok_or (rc_limit_error (B "<check>") (B "rc check nesting depth overflows")) (checked_add depth 1));
        loaded ← loading (load_check_config e runtime child_depth);
        match loaded with
        | None => mret (runtime, warnings, false)
        | Some loaded =>
            warnings ← checked (compatibility_flags warnings (lc_path loaded) (config_warnings (lc_config loaded)));
            if is_include then
              after ← check_file child_depth (statements (lc_config loaded)) (runtime, warnings);
              mret (after, false)
            else
              after ← check_file child_depth (statements (lc_config loaded)) (runtime, warnings);
              mret (runtime, after.2, true)
        end
  end.

(** The [for] loop, over a check of one statement. *)
Fixpoint check_each (check : Statement -> Checked -> Checking (Checked * bool)) (ss : list Statement) (state : Checked)
    : Checking Checked :=
  match ss with
  | [] => mret state
  | s :: rest =>
      '(state, ended) ← check s state;
      if ended : bool then mret state else check_each check rest state
  end.

Fixpoint check_statement (depth : nat) (s : Statement) (state : Checked) {struct s} : Checking (Checked * bool) :=
  let '(runtime, warnings) := state in
  match s with
  | S_CommandAssignment a => mret (Runtime.remove runtime (ca_name a), warnings, false)
  | S_Assignment a =>
      mret (match resolve_assignment a (get runtime) with
            | Ok value => set runtime (as_name a) value
            | Err _ => Runtime.remove runtime (as_name a)
            end, warnings, false)
  | S_Unset u => mret (Runtime.remove runtime (un_name u), warnings, false)
  | S_Include e => check_rc_statement true e depth state
  | S_Switch e => check_rc_statement false e depth state
  | S_Recipe (MkRecipe _ _ _ _ _ (RA_Block children)) =>
      after ← check_each (check_statement depth) children (runtime, warnings);
      mret (runtime, after.2, false)
  | S_Recipe _ => mret (runtime, warnings, false)
  end.
End statements.

(** [levels] is the number of files that may still be entered; [load] refuses a
    depth above [MAX_RC_INCLUDE_DEPTH] before it runs out ([check_has_fuel]).
    Source: rc_file.rs `fn check_statements` *)
Fixpoint check_statements (levels : nat) (depth : nat) (ss : list Statement) (state : Checked) : Checking Checked :=
  match levels with
  | O => stop_with OutOfFuel
  | S levels' => check_each (check_statement (check_statements levels') depth) ss state
  end.

(** Source: rc_file.rs `pub fn check_resolvable_files` *)
Definition check_resolvable_files (pid : bytes) (c : Config) : Checking (list bytes) :=
  let runtime := foldl (fun runtime '(name, value, _) => set runtime name value) (default_runtime pid) (initial_variables c) in
  after ← check_statements (S (S MAX_RC_INCLUDE_DEPTH)) 0 (statements c) (runtime, no_warnings);
  mret (finish_warnings after.2).
End rc_file.
