(* ===== verification/RcFileFacts.v ===== *)
(** Facts about the loader of rc files ([RcFile]): what it has read stays within
    its limits, it accepts only files of the trusted owner, and the check of the
    files that are known ends. *)
From stdpp Require Import gmap.
From S2P Require Import Prelude Numbers Config Limits Utf8 Variables Syntax Runtime Settings ShellPattern ShellEval Expand Effects RcFile.
#[local] Open Scope Z_scope.

Section facts.
Context {T : Target} {R : RegexEngine} {F : RcSource}.

Definition within_limits (l : RcFileLoader) : Prop :=
  (files_read l <= MAX_RC_FILE_COUNT)%nat /\ 0 <= bytes_read l <= MAX_RC_AGGREGATE_SIZE.

Lemma read_bounded_fits path file limit remaining source :
  read_bounded path file limit remaining = Ok source -> len source <= limit /\ len source <= remaining.
Proof.
  unfold read_bounded. intros (content & _ & H)%result_bind_Ok.
  repeat (match type of H with context [if ?b then _ else _] => destruct b eqn:? end; [discriminate H|]). injection H as <-.
  rewrite !Z.ltb_ge in *. done.
Qed.

(** ** What was loaded *)

(** A load that comes to the same whatever files there are has opened none. *)
Definition opens_nothing (path : bytes) (depth : nat) (l : RcFileLoader) : Prop :=
  forall F' : RcSource, run (load (F := F') path depth) l = run (load (F := F) path depth) l.
(** What a loader did: a place in the list for each load that looked at a file, with
    what it loaded if it did, whatever was refused or parsed in between. *)
Inductive loads (l0 : RcFileLoader) : list (option LoadedRcFile) -> RcFileLoader -> Prop :=
| loads_none : loads l0 [] l0
| loads_refused tr l path depth : loads l0 tr l -> opens_nothing path depth l -> loads l0 tr (run (load path depth) l).2
| loads_opened tr l path depth :
    loads l0 tr l -> ~ opens_nothing path depth l ->
    loads l0 (tr ++ [match (run (load path depth) l).1 with Ok loaded => Some loaded | Err _ => None end]) (run (load path depth) l).2
| loads_parsed tr l b : loads l0 tr l -> loads l0 tr (with_parse_state b l).
(** All the text that was loaded. *)
Definition loaded_text (tr : list (option LoadedRcFile)) : bytes := concat (lf_source <$> omap id tr).

(** Where the nesting and the counts leave room, the file decides. *)
Definition room_for (depth : nat) (l : RcFileLoader) : bool :=
  (depth <=? MAX_RC_INCLUDE_DEPTH)%nat && (files_read l <? MAX_RC_FILE_COUNT)%nat && (bytes_read l <=? MAX_RC_AGGREGATE_SIZE).
Lemma no_room path depth l : room_for depth l = false -> opens_nothing path depth l /\ (run (load path depth) l).2 = l.
Proof.
  unfold room_for, opens_nothing, load. rewrite Nat.leb_antisym. destruct (MAX_RC_INCLUDE_DEPTH <? depth)%nat; [done|]. cbn [negb andb].
  rewrite Nat.ltb_antisym, Z.leb_antisym. intros H. split; [intros F'|]; rewrite ?run_bind, ?run_gets; cbn [id];
    (destruct (MAX_RC_FILE_COUNT <=? files_read l)%nat; [done|]); (destruct (MAX_RC_AGGREGATE_SIZE <? bytes_read l); [done|discriminate H]).
Qed.
Lemma load_in_room (F' : RcSource) path depth l : room_for depth l = true ->
  run (load (F := F') path depth) l =
    match file ← map_err (rc_io_error path) (open_rc (RcSource := F') path);
          _ ← check_descriptor path (trusted_uid l) file;
          read_bounded path file MAX_RC_SIZE (MAX_RC_AGGREGATE_SIZE - bytes_read l) with
    | Ok source => ((fun text => {| lf_path := path; lf_source := text |}) <$> as_source path source, counted_bytes (len source) (counted_file l))
    | Err e => (Err e, counted_file l)
    end.
Proof.
  unfold room_for, load. rewrite Nat.leb_antisym. destruct (MAX_RC_INCLUDE_DEPTH <? depth)%nat; [done|]. cbn [negb andb].
  rewrite Nat.ltb_antisym, Z.leb_antisym. rewrite run_bind, run_gets. cbn [id].
  destruct (MAX_RC_FILE_COUNT <=? files_read l)%nat; [done|]. destruct (MAX_RC_AGGREGATE_SIZE <? bytes_read l); [done|]. intros _.
  rewrite run_bind, run_modify, run_bind, run_of_result. destruct (map_err _ (open_rc (RcSource := F') path)) as [file|]; [|done].
  rewrite run_bind, run_of_result. cbn [mbind result_bind]. destruct (check_descriptor _ _ _); [|done]. rewrite run_bind, run_of_result. cbn [mbind result_bind].
  destruct (read_bounded _ _ _ _) as [source|]; [|done]. rewrite run_bind, run_modify, run_bind, run_of_result. by destruct (as_source _ _).
Qed.
Lemma room_opens path depth l : bytes_read l <= MAX_RC_AGGREGATE_SIZE -> room_for depth l = true -> ~ opens_nothing path depth l.
Proof.
  intros Hb Hr H.
  set (with_files := fun answer => {| open_root := open_root; open_rc _ := answer; parse_with_state := parse_with_state;
                                      expand_with_runtime_values := expand_with_runtime_values; prepare_for_check := prepare_for_check |} : RcSource).
  pose proof (H (with_files (Err {| os_message := []; os_not_found := true |}))) as H1.
  pose proof (H (with_files (Ok {| of_regular := true; of_uid := trusted_uid l; of_mode := 0; of_read := Ok [] |}))) as H2.
  rewrite <-H2 in H1. rewrite !load_in_room in H1 by done. cbn [open_rc with_files map_err mbind result_bind check_descriptor of_regular of_uid of_mode negb] in H1.
  rewrite Z.eqb_refl in H1. unfold check_descriptor, read_bounded in H1. cbn [of_regular of_uid of_mode of_read negb map_err mbind result_bind] in H1. rewrite Z.eqb_refl in H1.
  change (Z.land 0 18 =? 0) with true in H1. cbn [negb] in H1. rewrite take_nil in H1. change (len []) with 0 in H1.
  rewrite (proj2 (Z.ltb_ge _ 0)) in H1 by done. rewrite (proj2 (Z.ltb_ge (MAX_RC_AGGREGATE_SIZE - bytes_read l) 0)) in H1 by lia. done.
Qed.

Lemma checked_keeps {A} P (r : result RcFileError A) : keeps_state P (checked r).
Proof. apply keeps_of_result. Qed.
#[local] Hint Resolve checked_keeps : keeps.

(** ** Invariants of the loader *)

(** Loading changes the counts by [load] alone, and the budget of the parser. *)
Section kept.
Context (P : RcFileLoader -> Prop) (load_keeps : forall path depth, keeps_state P (load path depth)).
Context (parsed_keeps : forall b l, P l -> P (with_parse_state b l)).

Lemma load_prepared_keeps e runtime depth preparation : keeps_state P (load_prepared_config e runtime depth preparation).
Proof.
  unfold load_prepared_config. apply keeps_bind; [auto with keeps|]. intros path. case_bool_decide; [auto with keeps|].
  apply keeps_bind; [apply load_keeps|]. intros loaded. apply keeps_bind.
  { apply keeps_bind; [auto with keeps|]. intros limits. apply keeps_modify. auto. }
  intros _. apply keeps_bind; [auto with keeps|]. intros l. apply keeps_bind; [auto with keeps|]. intros [config next].
  apply keeps_bind; [auto with keeps|]. intros config'. apply keeps_bind; [apply keeps_modify; auto|]. intros _. auto with keeps.
Qed.

Lemma loading_keeps {A} (m : M RcFileLoader RcFileError A) : keeps_state P m -> keeps_state P (loading m).
Proof. intros Hm l Hl. specialize (Hm l Hl). unfold loading. cbn. by destruct (run m l). Qed.

Lemma check_each_keeps check ss state :
  Forall (fun s => forall state, keeps_state P (check s state)) ss -> keeps_state P (check_each check ss state).
Proof.
  intros Hs. revert state. induction Hs as [|s ss Hs _ IH]; intros state; cbn [check_each]; [auto with keeps|].
  apply keeps_bind; [done|]. intros [st ended]. destruct ended; [auto with keeps|apply IH].
Qed.

Lemma check_statement_keeps check_file depth :
  (forall depth ss state, keeps_state P (check_file depth ss state)) ->
  forall s state, keeps_state P (check_statement check_file depth s state).
Proof.
  intros Hfile.
  assert (forall b e state, keeps_state P (check_rc_statement check_file b e depth state)) as Hrc.
  { intros b e [runtime warnings]. unfold check_rc_statement. destruct (resolve_rc_file _ _) as [resolved|]; [|auto with keeps].
    destruct (negb b && _); [auto with keeps|]. apply keeps_bind; [auto with keeps|]. intros child.
    apply keeps_bind; [apply loading_keeps, load_prepared_keeps|]. intros [loaded|]; [|auto with keeps].
    apply keeps_bind; [auto with keeps|]. intros w. destruct b; (apply keeps_bind; [apply Hfile|auto with keeps]). }
  fix IH 1. intros [a|u|a|e|e|r] [runtime warnings]; cbn [check_statement]; try (by auto with keeps); try apply Hrc.
  destruct r as [line al options lock conditions action]. destruct action as [d|a|a|children|a]; try (by auto with keeps).
  apply keeps_bind; [|auto with keeps]. apply check_each_keeps.
  induction children as [|s children IHs]; constructor; [apply IH|exact IHs].
Qed.

Lemma check_statements_keeps levels depth ss state : keeps_state P (check_statements levels depth ss state).
Proof.
  revert depth ss state. induction levels as [|levels IH]; intros depth ss state; cbn [check_statements]; [apply keeps_stop|].
  apply check_each_keeps, Forall_forall. intros s _ st. by apply check_statement_keeps.
Qed.

Lemma check_resolvable_keeps pid c : keeps_state P (check_resolvable_files pid c).
Proof. unfold check_resolvable_files. apply keeps_bind; [apply check_statements_keeps|auto with keeps]. Qed.
End kept.

Lemma loads_keeps l0 path depth : within_limits l0 -> keeps_state (fun l => within_limits l /\ exists tr, loads l0 tr l) (load path depth).
Proof.
  intros Hl0 l [[Hf Hb] [tr Htr]]. destruct (room_for depth l) eqn:Hr.
  - split; [|eexists; by apply loads_opened, room_opens; [..|lia|]]. rewrite load_in_room by done. unfold room_for in Hr.
    rewrite !andb_true_iff, Nat.ltb_lt in Hr. destruct (_ ≫= _) as [source|] eqn:E; [|split; cbn in *; [lia|done]].
    apply result_bind_Ok in E as (file & _ & E). apply result_bind_Ok in E as (u & _ & E). apply read_bounded_fits in E as [_ E]. split; cbn in *; lia.
  - destruct (no_room path depth l Hr) as [Hn Hs]. rewrite Hs. split; [by split|]. by exists tr.
Qed.

(** Every file that was opened, and every byte that was loaded, is counted. *)
Lemma loads_counted l0 tr l : within_limits l0 -> loads l0 tr l ->
  within_limits l /\ (files_read l = files_read l0 + length tr)%nat /\ bytes_read l0 + len (loaded_text tr) <= bytes_read l.
Proof.
  intros Hl0. induction 1 as [|tr l path depth _ (Hw & IHf & IHb) Hn|tr l path depth _ (Hw & IHf & IHb) Hn|tr l b _ IH]; [|..|done].
  - split; [done|]. cbn. lia.
  - destruct (room_for depth l) eqn:Hr; [by destruct (room_opens path depth l (proj2 (proj2 Hw)) Hr)|].
    by destruct (no_room path depth l Hr) as [_ ->].
  - destruct (room_for depth l) eqn:Hr; [|by destruct Hn; apply no_room].
    unfold loaded_text. rewrite omap_app, fmap_app, concat_app, !length_app. fold (loaded_text tr).
    destruct Hw as [Hf Hb]. pose proof Hr as Hroom. unfold room_for in Hroom. rewrite !andb_true_iff, Nat.ltb_lt in Hroom.
    rewrite load_in_room by done. destruct (_ ≫= _) as [source|] eqn:E; [|cbn in *; split; [by split; cbn; lia|lia]].
    apply result_bind_Ok in E as (file & _ & E). apply result_bind_Ok in E as (u & _ & E). apply read_bounded_fits in E as [_ E].
    split; [split; cbn in *; lia|]. unfold as_source. destruct (valid_utf8 source); cbn in *; rewrite ?app_nil_r; lia.
Qed.


(** What a loaded file is known to be. *)
Record trusted_file (l : RcFileLoader) (path source : bytes) (file : OpenFile) : Prop := {
  tf_regular : of_regular file = true;
  tf_owner : of_uid file = trusted_uid l;
  tf_not_shared : Z.land (of_mode file) 18 = 0;
  tf_source : of_read file = Ok source;
  tf_text : valid_utf8 source = true;
  tf_size : len source <= MAX_RC_SIZE;
  tf_total : bytes_read l + len source <= MAX_RC_AGGREGATE_SIZE;
}.

(** C33: Only trusted files are loaded.  A load succeeds exactly when the nesting
    and the counts leave room and the file, opened without following a link, is a
    regular file of the trusted owner that only the owner may write, whose whole
    content is text within both size limits; the text is then the content, and
    the counts go up by one file and by its bytes. *)
Theorem load_exact (l l' : RcFileLoader) (path : bytes) (depth : nat) (loaded : LoadedRcFile) (Hl : within_limits l) :
  run (load path depth) l = (Ok loaded, l') <->
  exists file, (depth <= MAX_RC_INCLUDE_DEPTH)%nat /\ (files_read l < MAX_RC_FILE_COUNT)%nat /\
    open_rc path = Ok file /\ trusted_file l path (lf_source loaded) file /\ lf_path loaded = path /\
    l' = counted_bytes (len (lf_source loaded)) (counted_file l).
Proof.
  destruct Hl as [Hf Hb]. unfold load. split.
  - destruct (Nat.ltb_spec MAX_RC_INCLUDE_DEPTH depth); [discriminate|]. rewrite run_bind, run_gets. cbn [id].
    destruct (Nat.leb_spec MAX_RC_FILE_COUNT (files_read l)); [discriminate|].
    destruct (Z.ltb_spec MAX_RC_AGGREGATE_SIZE (bytes_read l)); [discriminate|].
    rewrite run_bind, run_modify, run_bind, run_of_result. destruct (open_rc path) as [file|]; [|discriminate]. cbn [map_err].
    rewrite run_bind, run_of_result. unfold check_descriptor.
    destruct (of_regular file) eqn:Hreg; [|discriminate]. destruct (Z.eqb_spec (of_uid file) (trusted_uid l)); [|discriminate].
    destruct (Z.eqb_spec (Z.land (of_mode file) 18) 0); [|discriminate]. cbn [negb].
    rewrite run_bind, run_of_result. unfold read_bounded. destruct (of_read file) as [content|] eqn:Hc; [|discriminate].
    cbn [map_err mbind result_bind].
    set (limit := Z.min MAX_RC_SIZE (MAX_RC_AGGREGATE_SIZE - bytes_read l)). set (source := take (Z.to_nat (limit + 1)) content).
    destruct (Z.ltb_spec MAX_RC_SIZE (len source)); [discriminate|].
    destruct (Z.ltb_spec (MAX_RC_AGGREGATE_SIZE - bytes_read l) (len source)); [discriminate|].
    rewrite run_bind, run_modify, run_bind, run_of_result. unfold as_source. destruct (valid_utf8 source) eqn:Hv; [|discriminate].
    rewrite run_ret. intros [= <- <-]. exists file.
    assert (source = content) as Hs.
    { unfold source. apply take_ge. unfold source in *. rewrite length_take in *. lia. }
    split; [done|]. split; [done|]. split; [done|]. split; [|done]. cbn [lf_source]. rewrite <-Hs in Hc. split; try done. lia.
  - intros (file & Hd & Hn & Ho & [Hreg Hown Hmode Hread Htext Hsize Htotal] & <- & ->).
    rewrite (proj2 (Nat.ltb_ge _ _)) by lia. rewrite run_bind, run_gets. cbn [id].
    rewrite (proj2 (Nat.leb_gt _ _)) by lia. rewrite (proj2 (Z.ltb_ge _ _)) by lia.
    rewrite run_bind, run_modify, run_bind, run_of_result, Ho. cbn [map_err]. rewrite run_bind, run_of_result.
    unfold check_descriptor. rewrite Hreg, Hown, Hmode, Z.eqb_refl. cbn [negb]. rewrite Z.eqb_refl. cbn [negb].
    rewrite run_bind, run_of_result. unfold read_bounded. rewrite Hread. cbn [map_err mbind result_bind].
    rewrite take_ge by lia. rewrite (proj2 (Z.ltb_ge _ _)) by lia. rewrite (proj2 (Z.ltb_ge _ _)) by lia.
    rewrite run_bind, run_modify, run_bind, run_of_result. unfold as_source. rewrite Htext. rewrite run_ret.
    by destruct loaded.
Qed.

(** * The check ends *)

Definition no_fuel (e : CheckError) : Prop := e = OutOfFuel.

Lemma never_checked {A} (r : result RcFileError A) : never no_fuel (checked r).
Proof. apply never_of_result. intros e H. destruct r; [discriminate H|]. by injection H as <-. Qed.
Lemma never_loading {A} (m : M RcFileLoader RcFileError A) : never no_fuel (loading m).
Proof. intros l e l'. unfold loading. cbn. destruct (run m l) as [[a|e0] s]; [done|]. by intros [= <- _]. Qed.
#[local] Hint Resolve never_checked never_loading : keeps.

Lemma load_depth path depth l loaded l' : run (load path depth) l = (Ok loaded, l') -> (depth <= MAX_RC_INCLUDE_DEPTH)%nat.
Proof. unfold load. by destruct (Nat.ltb_spec MAX_RC_INCLUDE_DEPTH depth). Qed.

Lemma load_prepared_depth e runtime depth preparation l loaded l' :
  run (load_prepared_config e runtime depth preparation) l = (Ok (Some loaded), l') -> (depth <= MAX_RC_INCLUDE_DEPTH)%nat.
Proof.
  unfold load_prepared_config. intros (path & l1 & _ & H)%run_bind_Ok. case_bool_decide; [by rewrite run_ret in H|].
  apply run_bind_Ok in H as (file & l2 & H & _). by apply load_depth in H.
Qed.

Lemma loading_Ok {A} (m : M RcFileLoader RcFileError A) l a l' : run (loading m) l = (Ok a, l') -> run m l = (Ok a, l').
Proof. unfold loading. cbn. destruct (run m l) as [[x|x] s]; [|done]. by intros [= -> ->]. Qed.

Lemma check_each_never check ss state :
  Forall (fun s => forall state, never no_fuel (check s state)) ss -> never no_fuel (check_each check ss state).
Proof.
  intros Hs. revert state. induction Hs as [|s ss Hs _ IH]; intros state; cbn [check_each]; [auto with keeps|].
  apply never_bind; [done|]. intros [st ended]. destruct ended; [auto with keeps|apply IH].
Qed.

Lemma check_statement_never check_file depth :
  (forall child ss state, child = S depth -> (child <= MAX_RC_INCLUDE_DEPTH)%nat -> never no_fuel (check_file child ss state)) ->
  forall s state, never no_fuel (check_statement check_file depth s state).
Proof.
  intros Hfile.
  assert (forall b e state, never no_fuel (check_rc_statement check_file b e depth state)) as Hrc.
  { intros b e [runtime warnings]. unfold check_rc_statement.
    destruct (resolve_rc_file _ _) as [resolved|]; [|auto with keeps].
    destruct (negb b && _); [auto with keeps|]. apply never_bind_of; [auto with keeps|]. intros child l l' Hc.
    apply never_bind_of; [auto with keeps|]. intros [loaded|] l1 l2 Hl; [|auto with keeps].
    apply loading_Ok, load_prepared_depth in Hl.
    unfold checked in Hc. rewrite run_of_result in Hc. destruct (checked_add depth 1) as [c|] eqn:Ha; [|discriminate Hc].
    cbn in Hc. injection Hc as <- <-. apply checked_add_Some in Ha as [-> _].
    apply never_bind; [auto with keeps|]. intros w. destruct b; (apply never_bind; [apply Hfile; lia|auto with keeps]). }
  fix IH 1. intros [a|u|a|e|e|r] [runtime warnings]; cbn [check_statement]; try (by auto with keeps); try apply Hrc.
  destruct r as [line al options lock conditions action]. destruct action as [d|a|a|children|a]; try (by auto with keeps).
  apply never_bind; [|auto with keeps]. apply check_each_never.
  induction children as [|s children IHs]; constructor; [apply IH|exact IHs].
Qed.

Lemma check_has_fuel levels depth ss state :
  (S MAX_RC_INCLUDE_DEPTH <= levels + depth)%nat -> (depth <= MAX_RC_INCLUDE_DEPTH)%nat -> never no_fuel (check_statements levels depth ss state).
Proof.
  revert depth ss state. induction levels as [|levels IH]; intros depth ss state Hl Hd; [lia|]. cbn [check_statements].
  apply check_each_never, Forall_forall. intros s _ st. apply check_statement_never. intros child ss' st' -> Hc. apply IH; lia.
Qed.

(** The check of the known files ends.  Whatever the files include, the check
    of a configuration never needs more nesting than the loader allows: it answers
    with the warnings or with an error of the loader. *)
Theorem check_terminates (pid : bytes) (c : Config) (l : RcFileLoader) :
  exists r l', run (check_resolvable_files pid c) l = (r, l') /\ r <> Err OutOfFuel.
Proof.
  destruct (run (check_resolvable_files pid c) l) as [r l'] eqn:Hr. exists r, l'. split; [done|]. intros ->.
  unfold check_resolvable_files in Hr. revert Hr. generalize (foldl (fun runtime '(name, value, _) => set runtime name value) (default_runtime pid) (initial_variables c)).
  intros runtime Hr. assert (never no_fuel (check_statements (S (S MAX_RC_INCLUDE_DEPTH)) 0 (statements c) (runtime, no_warnings))) as H by (apply check_has_fuel; unfold MAX_RC_INCLUDE_DEPTH; lia).
  apply run_bind_Err in Hr as [Hr|(a & l1 & _ & Hr)]; [|by rewrite run_ret in Hr]. by destruct (H _ _ _ Hr).
Qed.

End facts.

(** * A sample source *)

Definition one_rc_file : OpenFile := {| of_regular := true; of_uid := 1000; of_mode := 420; of_read := Ok (B "X=1" ++ [10]) |}.
Definition one_file_source : @RcSource Settings.no_regex := {|
  open_root _ := Err {| os_message := []; os_not_found := true |};
  open_rc path := if bytes_eqb path (B "/home/me/.rc") then Ok one_rc_file else Err {| os_message := B "none"; os_not_found := true |};
  parse_with_state _ b := Err {| perr_line := 0; perr_message := []; perr_resource_limit := false |};
  expand_with_runtime_values c _ := Ok c;
  prepare_for_check c _ := Ok c |}.
Definition sample_loader : RcFileLoader := {| trusted_uid := 1000; files_read := 1; bytes_read := 20; parse_state := empty_budget |}.

Lemma sample_within : within_limits sample_loader.
Proof. repeat split; vm_compute; first [discriminate | lia]. Qed.

Lemma load_exact_witness :
  exists loaded l', run (load (F := one_file_source) (B "/home/me/.rc") 1) sample_loader = (Ok loaded, l') /\ bytes_read l' = 24 /\
    valid_utf8 (lf_source loaded) = true.
Proof.
  eexists. eexists. split; [vm_compute; reflexivity|]. split; [vm_compute; reflexivity|].
  destruct (proj1 (load_exact (F := one_file_source) sample_loader _ (B "/home/me/.rc") 1 {| lf_path := B "/home/me/.rc"; lf_source := B "X=1" ++ [10] |} sample_within) eq_refl)
    as (file & _ & _ & _ & H & _). exact (tf_text _ _ _ _ H).
Defined.

