(* ===== verification/RuntimeRc.v ===== *)
(** Runtime rc files: [src/src/eval/runtime_rc.rs].  An [INCLUDERC] or [SWITCHRC]
    statement resolves its path, loads the file once for each path and enters the
    compiled sequence one level deeper.  The number of transitions of a run is
    bounded.

    The code keeps the files a statement has loaded with the statement; here they
    are kept with the state of the run, under the sequence the statement belongs
    to (numbered as it is loaded), its kind and its line. *)
From stdpp Require Import gmap pretty.
From S2P Require Import Prelude Numbers Config Limits Utf8 HeaderValue Variables Runtime Settings ShellPattern ShellEval ExprParser Expand Effects.
From S2P Require Import HeaderFields HeaderStore EditedHeader HeaderEdit StructuredHeader Message EvalMessage Mime Binding Conditions Plan RcFile.
#[local] Open Scope Z_scope.

(** Source: eval/runtime_rc.rs `const MAX_RC_DIAGNOSTIC_LEN` *)
Definition MAX_RC_DIAGNOSTIC_LEN : nat := Z.to_nat 1024.
(** Source: eval/runtime_rc.rs `pub const MAX_RUNTIME_RC_WARNINGS` *)
Definition MAX_RUNTIME_RC_WARNINGS : nat := 128.

(** [while !is_char_boundary(end) { end -= 1 }]: 0 is a boundary. *)
Fixpoint char_boundary (value : bytes) (index : nat) : nat :=
  match index with
  | O => O
  | S index' => if is_char_boundary value index then index else char_boundary value index'
  end.
(** Source: eval/runtime_rc.rs `fn truncate_utf8` *)
Definition truncate_utf8 (value : bytes) (limit : nat) : bytes :=
  if (length value <=? limit)%nat then value else take (char_boundary value limit) value.

(** Source: trace/schema.rs `pub enum RcFileStatement` *)
Inductive RcStatementKind := RK_Include | RK_Switch.
#[export] Instance RcStatementKind_eq_dec : EqDecision RcStatementKind.
Proof. solve_decision. Defined.
Definition is_switch (k : RcStatementKind) : bool := match k with RK_Switch => true | RK_Include => false end.
Definition statement_name (k : RcStatementKind) : bytes := match k with RK_Include => include_name | RK_Switch => switch_name end.

(** Source: eval/runtime_rc.rs `pub(super) struct RcExecutionContext` *)
Record RcExecutionContext := { rc_depth : nat; rc_instance : nat }.

Section runtime_rc.
Context {T : Target} {R : RegexEngine}.

(** Source: rc_file.rs `pub(crate) trait RuntimeRcLoader` *)
Class RuntimeRcLoader (L : Type) := {
  load_runtime_config : RcFileExpression -> RuntimeVariables -> nat -> M L RcFileError (option LoadedRcConfig);
}.

(** Source: eval/runtime_rc.rs `pub(super) enum LoadedRuntimeRc` *)
Inductive LoadedRuntimeRc := LR_Empty | LR_Failed | LR_Sequence (path : bytes) (sequence : CompiledSequence) (instance : nat).

Context {L : Type} {loader_impl : RuntimeRcLoader L}.

(** Source: eval/runtime_rc.rs `pub(super) struct RuntimeRcState` *)
Record RuntimeRcState := {
  loader : option L; transitions : nat;
  dynamic_ordered_delivery : bool; dynamic_body_contents : bool; dynamic_full_matching : bool;
  diagnostics : list bytes; warning_count : nat; warnings_omitted : bool;
  loaded_files : gmap (nat * bool * nat) (gmap (list Z) LoadedRuntimeRc); next_instance : nat;
}.

(** Source: eval/runtime_rc.rs `pub(super) fn new(loader` *)
Definition new_rc_state (l : option L) : RuntimeRcState := {|
  loader := l; transitions := 0; dynamic_ordered_delivery := false; dynamic_body_contents := false; dynamic_full_matching := false;
  diagnostics := []; warning_count := 0; warnings_omitted := false; loaded_files := ∅; next_instance := 1 |}.
(** Source: eval/runtime_rc.rs `pub(super) fn context(&self)` *)
Definition root_context : RcExecutionContext := {| rc_depth := 0; rc_instance := 0 |}.

Definition with_loader (l : option L) (s : RuntimeRcState) : RuntimeRcState := {|
  loader := l; transitions := transitions s; dynamic_ordered_delivery := dynamic_ordered_delivery s;
  dynamic_body_contents := dynamic_body_contents s; dynamic_full_matching := dynamic_full_matching s; diagnostics := diagnostics s;
  warning_count := warning_count s; warnings_omitted := warnings_omitted s; loaded_files := loaded_files s; next_instance := next_instance s |}.
Definition with_transitions (n : nat) (s : RuntimeRcState) : RuntimeRcState := {|
  loader := loader s; transitions := n; dynamic_ordered_delivery := dynamic_ordered_delivery s;
  dynamic_body_contents := dynamic_body_contents s; dynamic_full_matching := dynamic_full_matching s; diagnostics := diagnostics s;
  warning_count := warning_count s; warnings_omitted := warnings_omitted s; loaded_files := loaded_files s; next_instance := next_instance s |}.
Definition with_dynamic (ordered body full : bool) (s : RuntimeRcState) : RuntimeRcState := {|
  loader := loader s; transitions := transitions s; dynamic_ordered_delivery := dynamic_ordered_delivery s || ordered;
  dynamic_body_contents := dynamic_body_contents s || body; dynamic_full_matching := dynamic_full_matching s || full; diagnostics := diagnostics s;
  warning_count := warning_count s; warnings_omitted := warnings_omitted s; loaded_files := loaded_files s; next_instance := next_instance s |}.
Definition with_diagnostics (d : list bytes) (count : nat) (omitted : bool) (s : RuntimeRcState) : RuntimeRcState := {|
  loader := loader s; transitions := transitions s; dynamic_ordered_delivery := dynamic_ordered_delivery s;
  dynamic_body_contents := dynamic_body_contents s; dynamic_full_matching := dynamic_full_matching s; diagnostics := d;
  warning_count := count; warnings_omitted := omitted; loaded_files := loaded_files s; next_instance := next_instance s |}.
Definition with_loaded_files (m : gmap (nat * bool * nat) (gmap (list Z) LoadedRuntimeRc)) (next : nat) (s : RuntimeRcState) : RuntimeRcState := {|
  loader := loader s; transitions := transitions s; dynamic_ordered_delivery := dynamic_ordered_delivery s;
  dynamic_body_contents := dynamic_body_contents s; dynamic_full_matching := dynamic_full_matching s; diagnostics := diagnostics s;
  warning_count := warning_count s; warnings_omitted := warnings_omitted s; loaded_files := m; next_instance := next |}.

(** Source: eval/runtime_rc.rs `pub(super) fn take_diagnostics` *)
Definition take_diagnostics (s : RuntimeRcState) : list bytes * RuntimeRcState :=
  (diagnostics s ++ (if warnings_omitted s then [B "warning: additional runtime rc warnings were omitted"] else []),
   with_diagnostics [] 0 false s).
(** Source: eval/runtime_rc.rs `pub(super) fn reset_transitions` *)
Definition reset_transitions (s : RuntimeRcState) : RuntimeRcState := with_transitions 0 s.
(** Source: eval/runtime_rc.rs `fn push_warning` *)
Definition push_rc_warning (diagnostic : bytes) (s : RuntimeRcState) : RuntimeRcState :=
  if (warning_count s <? MAX_RUNTIME_RC_WARNINGS)%nat
  then with_diagnostics (diagnostics s ++ [diagnostic]) (S (warning_count s)) (warnings_omitted s) s
  else with_diagnostics (diagnostics s) (warning_count s) true s.
Definition push_diagnostic (diagnostic : bytes) (s : RuntimeRcState) : RuntimeRcState :=
  with_diagnostics (diagnostics s ++ [diagnostic]) (warning_count s) (warnings_omitted s) s.

Abbreviation Entering := (M RuntimeRcState EvalError) (only parsing).

(** Source: eval/runtime_rc.rs `pub(super) fn descend` *)
Definition descend (depth : nat) : result EvalError nat := ok_or (E_RuntimeRc (B "rc include depth overflows")) (checked_add depth 1).
(** Source: eval/runtime_rc.rs `fn record_transition` *)
Definition record_transition : Entering () :=
  Comp (fun s =>
    if (S (transitions s) <=? MAX_RC_TRANSITIONS)%nat then (Ok tt, with_transitions (S (transitions s)) s)
    else (Err (E_RuntimeRc (B "rc transitions exceed the hard limit of " ++ decimal MAX_RC_TRANSITIONS)), s)).

Section statement.
Context (kind : RcStatementKind) (expression : RcFileExpression) (context : RcExecutionContext).

Definition rc_line : nat := loc_line (rf_location expression).
Definition statement_key : nat * bool * nat := (rc_instance context, is_switch kind, rc_line).
Definition loaded_states (s : RuntimeRcState) : gmap (list Z) LoadedRuntimeRc := default ∅ (loaded_files s !! statement_key).
Definition keep_loaded (path : bytes) (loaded : LoadedRuntimeRc) (s : RuntimeRcState) : RuntimeRcState :=
  with_loaded_files (<[statement_key := <[path := loaded]> (loaded_states s)]> (loaded_files s)) (next_instance s) s.

(** Source: eval/runtime_rc.rs:273-284 `load_runtime_rc (the loader)` *)
Definition call_loader (runtime : RuntimeVariables) (depth : nat) : Entering (result RcFileError (option LoadedRcConfig)) :=
  Comp (fun s =>
    match loader s with
    | None => (Err (E_RuntimeRcLoaderUnavailable rc_line (statement_name kind)), s)
    | Some l => let '(r, l') := run (load_runtime_config expression runtime depth) l in (Ok r, with_loader (Some l') s)
    end).

Definition warning_text (path : bytes) (warning : nat * byte) : bytes :=
  truncate_utf8 (B "warning: " ++ path ++ B ":" ++ decimal warning.1 ++ B ": recipe flag '" ++ [warning.2] ++ B "' has no effect on a block")
    MAX_RC_DIAGNOSTIC_LEN.

(** A loaded configuration, compiled and kept.
    Source: eval/runtime_rc.rs:314-359 `load_runtime_rc (a loaded file)` *)
Definition keep_config (c : LoadedRcConfig) : Entering LoadedRuntimeRc :=
  Comp (fun s =>
    let s := foldl (fun s warning => push_rc_warning (warning_text (lc_path c) warning) s) s (config_warnings (lc_config c)) in
    let sequence := compile (statements (lc_config c)) [] (cfg_source_location (lc_config c)) in
    let p := sequence_properties sequence in
    let s := with_dynamic (pp_ordered p) (needs_body_contents (requirements p)) (pp_full_matching p) s in
    let loaded := LR_Sequence (lc_path c) sequence (next_instance s) in
    (Ok loaded, keep_loaded (lc_path c) loaded (with_loaded_files (loaded_files s) (S (next_instance s)) s))).

(** The path of a loaded file is the text it was opened by, so that it is UTF-8.
    Source: eval/runtime_rc.rs `fn load_runtime_rc` *)
Definition load_runtime_rc (runtime : RuntimeVariables) : Entering LoadedRuntimeRc :=
  _ ← record_transition;
  path ← of_result (map_err E_Expansion (resolve_rc_file expression (get runtime)));
  states ← gets loaded_states;
  match states !! path with
  | Some loaded => mret loaded
  | None =>
      if is_switch kind && bytes_eqb path (B "/dev/null") then _ ← modify (keep_loaded path LR_Empty); mret LR_Empty
      else
        child_depth ← of_result (descend (rc_depth context));
        loaded ← call_loader runtime child_depth;
        match loaded with
        | Ok (Some c) => keep_config c
        | Ok None => _ ← modify (keep_loaded path LR_Empty); mret LR_Empty
        | Err error =>
            if resource_limit error then
              stop_with (E_RuntimeRc (B "line " ++ decimal rc_line ++ B ": " ++ statement_name kind ++ B " resource limit: " ++ safe_message error))
            else
              _ ← modify (push_diagnostic (truncate_utf8
                    (B "line " ++ decimal rc_line ++ B ": " ++ statement_name kind ++ B " failed: " ++ safe_message error) MAX_RC_DIAGNOSTIC_LEN));
              _ ← modify (keep_loaded path LR_Failed);
              mret LR_Failed
        end
  end.

(** Source: eval/runtime_rc.rs `pub(super) struct EnteredRuntimeRc` *)
Record EnteredRuntimeRc := { entered : LoadedRuntimeRc; child_context : option RcExecutionContext }.

(** Source: eval/runtime_rc.rs `fn enter_runtime_rc` *)
Definition enter_runtime_rc (runtime : RuntimeVariables) : Entering EnteredRuntimeRc :=
  loaded ← load_runtime_rc runtime;
  child ← of_result match loaded with
                    | LR_Sequence _ _ instance => depth ← descend (rc_depth context); Ok (Some {| rc_depth := depth; rc_instance := instance |})
                    | _ => Ok None
                    end;
  mret {| entered := loaded; child_context := child |}.
End statement.

(** Source: eval/runtime_rc.rs `pub(super) fn is_empty` *)
Definition entered_is_empty (e : EnteredRuntimeRc) : bool := match entered e with LR_Empty => true | _ => false end.
(** Source: eval/runtime_rc.rs `pub(super) fn sequence(` *)
Definition entered_sequence (e : EnteredRuntimeRc) : result EvalError (option (CompiledSequence * bytes * RcExecutionContext)) :=
  match entered e, child_context e with
  | LR_Sequence path sequence _, Some context => Ok (Some (sequence, path, context))
  | LR_Sequence _ _ _, None => Err (E_RuntimeRc (B "loaded runtime rc sequence has no child context"))
  | _, _ => Ok None
  end.

(** * The plan of a run *)

(** Source: eval.rs `pub struct ExecutionPlan` *)
Record ExecutionPlan := { root : CompiledSequence; message_limits : result LimitConfigError MessageLimits }.

(** The variables a run starts with, as assignments before the first recipe.
    Source: eval.rs:415-442 `compile_with_loader (initial statements)` *)
Definition initial_statements (c : Config) : list CompiledStatement :=
  (fun '(name, value, _) =>
     CSt_Assignment {| cas_assignment := {| as_line := 0; as_name := name; as_value := value; as_target := User; as_expansion := None |};
                       cas_location := None |}) <$> initial_variables c.
(** Source: eval.rs `fn compile_with_loader` *)
Definition compile_plan (c : Config) : ExecutionPlan :=
  {| root := compile (statements c) (initial_statements c) (cfg_source_location c); message_limits := from_config c |}.

(** Source: eval.rs `pub fn requirements(&self)` *)
Definition plan_requirements (p : ExecutionPlan) (s : RuntimeRcState) : InputRequirements :=
  let q := requirements (sequence_properties (root p)) in
  let q := if dynamic_body_contents s
           then {| needs_headers := needs_headers q; needs_body_contents := true; needs_end_of_message := true |} else q in
  if pp_preemptive (sequence_properties (root p)) then requirements_union q end_requirement else q.
(** Source: eval.rs `pub fn requires_ordered_delivery` *)
Definition plan_requires_ordered (p : ExecutionPlan) (s : RuntimeRcState) : bool :=
  pp_ordered (sequence_properties (root p)) || dynamic_ordered_delivery s.
(** Source: eval.rs `pub fn needs_full_matching` *)
Definition plan_needs_full_matching (p : ExecutionPlan) (s : RuntimeRcState) : bool :=
  pp_full_matching (sequence_properties (root p)) || dynamic_full_matching s.
(** Source: eval.rs `pub fn has_external_commands` *)
Definition plan_has_external (p : ExecutionPlan) : bool := pp_external (sequence_properties (root p)).
End runtime_rc.

(** The loader of [RcFile] behind the interface.
    Source: rc_file.rs:440-449 `impl RuntimeRcLoader for RcFileLoader` *)
#[export] Instance rc_file_loader `{Target} {R : RegexEngine} {F : RcSource} : RuntimeRcLoader RcFileLoader :=
  {| load_runtime_config := load_config |}.
