(* ===== verification/RuntimeRcFacts.v ===== *)
(** Facts about runtime rc files ([RuntimeRc]): the number of transitions is
    bounded, a file that was loaded for a path is not loaded again, and the
    diagnostics are cut at a character. *)
From stdpp Require Import gmap.
From S2P Require Import Prelude Config Limits Utf8 Variables Runtime Settings ShellEval Expand Effects Binding Conditions Plan PlanFacts RcFile RuntimeRc.
#[local] Open Scope Z_scope.

(** * How deep a sequence nests *)

Section nesting.
Context {R : RegexEngine}.

(** The number of sequences inside one another. *)
Fixpoint nesting (s : CompiledSequence) {struct s} : nat :=
  match s with MkSequence rs _ _ => S (foldr (fun n d => Nat.max (node_nesting n) d) 0%nat rs) end
with node_nesting (n : CompiledNode) {struct n} : nat :=
  match n with MkNode _ _ _ _ _ _ _ action _ => action_nesting action end
with action_nesting (a : CompiledAction) {struct a} : nat :=
  match a with CA_Block children => nesting children | _ => 0%nat end.

Lemma nesting_block s n children : n ∈ recipes s -> node_action n = CA_Block children -> (nesting children < nesting s)%nat.
Proof.
  destruct s as [rs t p]. cbn [recipes nesting]. intros Hn Ha. apply Nat.lt_succ_r. induction rs as [|n' rs IH]; [by apply elem_of_nil in Hn|].
  cbn [foldr]. apply elem_of_cons in Hn as [->|Hn]; [|specialize (IH Hn); lia]. destruct n'. cbn in *. subst. cbn. lia.
Qed.
Lemma nesting_pos s : (1 <= nesting s)%nat.
Proof. destruct s. cbn. lia. Qed.
End nesting.

(** What a loader keeps of itself from one file to the next: what it promises of
    the files it gives is promised of a loader that is fit to load. *)
Class LoaderInvariant (L : Type) := loader_ok : L -> Prop.

Section facts.
Context {T : Target} {R : RegexEngine} {L : Type} {loader_impl : RuntimeRcLoader L} {invariant : LoaderInvariant L}.
Abbreviation State := (@RuntimeRcState R L) (only parsing).

(** Every file a loader gives has the property, and the loader stays fit. *)
Definition loader_gives (P : CompiledSequence -> Prop) : Prop := forall e runtime depth l r l',
  loader_ok l -> run (load_runtime_config e runtime depth) l = (r, l') ->
  loader_ok l' /\ forall c, r = Ok (Some c) -> P (compile (statements (lc_config c)) [] (cfg_source_location (lc_config c))).
Definition fit_loader (s : State) : Prop := forall l, loader s = Some l -> loader_ok l.

(** The files a loader gives nest no deeper than [bound]. *)
Definition bounded_loader (bound : nat) : Prop := loader_gives (fun s => (nesting s <= bound)%nat).
(** So do the files that were loaded. *)
Definition bounded_files (bound : nat) (s : State) : Prop := fit_loader s /\ forall key files path name sequence instance,
  loaded_files s !! key = Some files -> files !! path = Some (LR_Sequence name sequence instance) -> (nesting sequence <= bound)%nat.

Lemma keep_loaded_bounded bound kind e context path loaded s :
  bounded_files bound s -> (forall name sequence instance, loaded = LR_Sequence name sequence instance -> (nesting sequence <= bound)%nat) ->
  bounded_files bound (keep_loaded kind e context path loaded s).
Proof.
  intros [Hfit Hs] Hl. split; [exact Hfit|]. intros key files path' name sequence instance. unfold keep_loaded. cbn. intros [[<- <-]|[_ Hk]]%lookup_insert_Some; [|by eapply Hs].
  intros [[<- H]|[_ H]]%lookup_insert_Some; [by eapply Hl|]. unfold loaded_states in H.
  destruct (loaded_files s !! _) as [old|] eqn:Ho; [by eapply Hs|done].
Qed.

Lemma warnings_fold path ws s :
  loaded_files (foldl (fun s w => push_rc_warning (warning_text path w) s) s ws) = loaded_files s /\
  transitions (foldl (fun s w => push_rc_warning (warning_text path w) s) s ws) = transitions s /\
  loader (foldl (fun s w => push_rc_warning (warning_text path w) s) s ws) = loader (L := L) s.
Proof.
  revert s. induction ws as [|w ws IH]; intros s; cbn [foldl]; [done|].
  destruct (IH (push_rc_warning (warning_text path w) s)) as (-> & -> & ->). unfold push_rc_warning. by destruct (_ <? _)%nat.
Qed.

(** What loading a file does to the state of the run. *)
Record loads (bound : nat) (s s' : State) : Prop := {
  lo_files : bounded_files bound s';
  lo_transitions : (transitions s <= transitions s')%nat;
}.

Lemma load_runtime_rc_loads bound kind e context runtime s r s' :
  bounded_loader bound -> bounded_files bound s -> run (load_runtime_rc kind e context runtime) s = (r, s') ->
  loads bound s s' /\
  forall loaded, r = Ok loaded -> transitions s' = S (transitions s) /\ (transitions s' <= MAX_RC_TRANSITIONS)%nat /\
    forall name sequence instance, loaded = LR_Sequence name sequence instance -> (nesting sequence <= bound)%nat.
Proof.
  intros Hb Hs. unfold load_runtime_rc. rewrite run_bind. unfold record_transition. cbn [run].
  destruct (Nat.leb_spec (S (transitions s)) MAX_RC_TRANSITIONS) as [Ht|Ht]; [|intros [= <- <-]; split; [by split|done]].
  assert (bounded_files bound (with_transitions (S (transitions s)) s)) as Hs1 by exact Hs.
  set (s1 := with_transitions (S (transitions s)) s) in *. assert (transitions s1 = S (transitions s)) as Ht1 by done.
  assert (forall s2, bounded_files bound s2 -> transitions s2 = S (transitions s) -> loads bound s s2) as Hloads by (intros s2 ? ?; split; [done|lia]).
  rewrite run_bind, run_of_result. destruct (resolve_rc_file _ _) as [path|]; cbn [map_err]; [|intros [= <- <-]; split; [by apply Hloads|done]].
  rewrite run_bind, run_gets.
  destruct (loaded_states kind e context s1 !! path) as [known|] eqn:Hk.
  { rewrite run_ret. intros [= <- <-]. split; [by apply Hloads|]. intros ? [= <-]. split_and!; [done|lia|]. intros name sequence instance ->.
    unfold loaded_states in Hk. destruct (loaded_files s1 !! _) as [files|] eqn:Hf; [by eapply (proj2 Hs1)|done]. }
  assert (forall loaded, (forall n q i, loaded <> LR_Sequence n q i) -> forall s2, bounded_files bound s2 -> transitions s2 = S (transitions s) ->
    run (_ ← modify (keep_loaded kind e context path loaded); mret loaded : M State EvalError LoadedRuntimeRc) s2 = (r, s') ->
    loads bound s s' /\ forall loaded', r = Ok loaded' -> transitions s' = S (transitions s) /\ (transitions s' <= MAX_RC_TRANSITIONS)%nat /\
      forall n q i, loaded' = LR_Sequence n q i -> (nesting q <= bound)%nat) as Hkeep.
  { intros loaded Hn s2 Hb2 Ht2. rewrite run_bind, run_modify, run_ret. intros [= <- <-]. split.
    - apply Hloads; [|done]. apply keep_loaded_bounded; [done|]. intros ? ? ? ->. by destruct (Hn name sequence instance).
    - intros ? [= <-]. split_and!; [done|cbn; lia|]. intros n q i ->. by destruct (Hn n q i). }
  destruct (is_switch kind && _); [by apply Hkeep|].
  rewrite run_bind, run_of_result. destruct (descend _) as [child|]; [|intros [= <- <-]; split; [by apply Hloads|done]].
  rewrite run_bind. unfold call_loader. cbn [run]. destruct (loader s1) as [l|] eqn:Hload; [|intros [= <- <-]; split; [by apply Hloads|done]].
  destruct (run (load_runtime_config e runtime child) l) as [answer l'] eqn:Hrun.
  destruct (Hb _ _ _ _ _ _ (proj1 Hs1 _ Hload) Hrun) as [Hl' Hc]. assert (bounded_files bound (with_loader (Some l') s1)) as Hs3
    by (split; [by intros ? [= <-]|apply (proj2 Hs1)]). destruct answer as [[c|]|error].
  - unfold keep_config. cbn [run]. intros [= <- <-]. specialize (Hc c eq_refl).
    destruct (warnings_fold (lc_path c) (config_warnings (lc_config c)) (with_loader (Some l') s1)) as (Hf & Htr & Hlo).
    set (s2 := foldl _ _ _) in *. split.
    + apply Hloads; [|cbn; by rewrite Htr]. apply keep_loaded_bounded; [|by intros ? ? ? [= <- <- <-]].
      split; [unfold fit_loader; cbn; rewrite Hlo; by intros ? [= <-]|]. intros key files path' name sequence instance. cbn. rewrite Hf. by eapply (proj2 Hs1).
    + intros ? [= <-]. split_and!; [cbn; by rewrite Htr|cbn; rewrite Htr; cbn; lia|]. by intros ? ? ? [= <- <- <-].
  - by apply Hkeep.
  - destruct (resource_limit error); [intros [= <- <-]; split; [by apply Hloads|done]|]. rewrite run_bind, run_modify. by apply Hkeep.
Qed.

Lemma enter_loads bound kind e context runtime s r s' :
  bounded_loader bound -> bounded_files bound s -> run (enter_runtime_rc kind e context runtime) s = (r, s') ->
  loads bound s s' /\
  forall en sequence path child, r = Ok en -> entered_sequence en = Ok (Some (sequence, path, child)) ->
    transitions s' = S (transitions s) /\ (transitions s' <= MAX_RC_TRANSITIONS)%nat /\ (nesting sequence <= bound)%nat.
Proof.
  intros Hb Hs. unfold enter_runtime_rc. rewrite run_bind.
  destruct (run (load_runtime_rc kind e context runtime) s) as [rl s1] eqn:Hl.
  destruct (load_runtime_rc_loads bound kind e context runtime s rl s1 Hb Hs Hl) as [Hloads Hr].
  destruct rl as [loaded|error]; [|intros [= <- <-]; by split]. specialize (Hr loaded eq_refl) as (Ht & Hm & Hn).
  rewrite run_bind, run_of_result. intros H.
  assert (s' = s1) as -> by (destruct (match loaded with LR_Sequence _ _ _ => _ | _ => _ end); by injection H).
  split; [done|]. intros en sequence path child -> He. split_and!; [done|done|].
  destruct (match loaded with LR_Sequence _ _ _ => _ | _ => _ end) as [ctx|]; [|done]. injection H as <-.
  unfold entered_sequence in He. cbn in He. destruct loaded as [| |name q i]; [by destruct ctx..|]. destruct ctx; [|done].
  injection He as <- _ _. by eapply Hn.
Qed.

(** Entries of a run, one after the other: what each one answers is not looked
    at. *)
Record Entry := { en_kind : RcStatementKind; en_expression : RcFileExpression; en_context : RcExecutionContext; en_runtime : RuntimeVariables }.
Fixpoint enter_all (entries : list Entry) (s : State) : nat * State :=
  match entries with
  | [] => (0%nat, s)
  | x :: rest =>
      let '(r, s1) := run (load_runtime_rc (en_kind x) (en_expression x) (en_context x) (en_runtime x)) s in
      let '(n, s2) := enter_all rest s1 in
      (match r with Ok _ => S n | Err _ => n end, s2)
  end.

Lemma load_runtime_rc_transitions kind e context runtime s r s' :
  (transitions s <= MAX_RC_TRANSITIONS)%nat -> run (load_runtime_rc kind e context runtime) s = (r, s') ->
  (transitions s' <= MAX_RC_TRANSITIONS)%nat /\ (transitions s + (if is_ok r then 1 else 0) <= transitions s')%nat.
Proof.
  intros Hs. unfold load_runtime_rc. rewrite run_bind. unfold record_transition. cbn [run].
  destruct (Nat.leb_spec (S (transitions s)) MAX_RC_TRANSITIONS) as [Ht|Ht]; [|intros [= <- <-]; cbn; lia].
  set (s1 := with_transitions (S (transitions s)) s). assert (transitions s1 = S (transitions s)) as Ht1 by done.
  assert (forall s2 (r2 : result EvalError LoadedRuntimeRc), transitions s2 = S (transitions s) -> (r2, s2) = (r, s') ->
    (transitions s' <= MAX_RC_TRANSITIONS)%nat /\ (transitions s + (if is_ok r then 1 else 0) <= transitions s')%nat) as Hend.
  { intros s2 r2 H2 [= <- <-]. rewrite H2. split; [lia|]. destruct (is_ok r2); lia. }
  rewrite run_bind, run_of_result. destruct (resolve_rc_file _ _); cbn [map_err]; [|by apply Hend].
  rewrite run_bind, run_gets. destruct (_ !! _); [by apply Hend|]. destruct (is_switch kind && _); [by apply Hend|].
  rewrite run_bind, run_of_result. destruct (descend _); [|by apply Hend].
  rewrite run_bind. unfold call_loader. cbn [run]. destruct (loader s1) as [l|]; [|by apply Hend].
  destruct (run (load_runtime_config e runtime _) l) as [[[c|]|error] l'].
  - destruct (warnings_fold (lc_path c) (config_warnings (lc_config c)) (with_loader (Some l') s1)) as (_ & Hw & _).
    unfold keep_config. cbn [run]. apply Hend. etransitivity; [exact Hw|exact Ht1].
  - by apply Hend.
  - destruct (resource_limit error); by apply Hend.
Qed.

(** Transitions.  Whatever statements a run enters, with whatever files, no
    more than [MAX_RC_TRANSITIONS] of them succeed between two resets. *)
Theorem transitions_bounded (entries : list Entry) (s : State) (Hs : (transitions s <= MAX_RC_TRANSITIONS)%nat) :
  (transitions s + (enter_all entries s).1 <= MAX_RC_TRANSITIONS)%nat.
Proof.
  assert ((transitions s + (enter_all entries s).1 <= transitions (enter_all entries s).2)%nat /\
          (transitions (enter_all entries s).2 <= MAX_RC_TRANSITIONS)%nat) as H; [|lia].
  revert s Hs. induction entries as [|x rest IH]; intros s Hs; cbn [enter_all]; [cbn; lia|].
  destruct (run (load_runtime_rc _ _ _ _) s) as [r s1] eqn:Hr. apply load_runtime_rc_transitions in Hr as [Hm Ht]; [|done].
  specialize (IH s1 Hm). destruct (enter_all rest s1) as [n s2]. cbn in *. destruct r; cbn in Ht; lia.
Qed.
End facts.

(** * A sample loader *)

(** It finds an empty path and nothing else. *)
Definition empty_loader {R : RegexEngine} : RuntimeRcLoader () := {| load_runtime_config _ _ _ := mret None |}.
Definition sample_entry : Entry := {|
  en_kind := RK_Include;
  en_expression := {| rf_location := {| loc_line := 3; loc_file := None; loc_truncated := false |}; rf_value := B "/home/me/.rc"; rf_expansion := None |};
  en_context := root_context; en_runtime := default_runtime (B "7") |}.

Lemma transitions_bounded_witness :
  let s := new_rc_state (R := Settings.no_regex) (Some tt) in
  (enter_all (loader_impl := empty_loader) [sample_entry; sample_entry] s).1 = 2%nat /\
  (transitions s + (enter_all (loader_impl := empty_loader) [sample_entry; sample_entry] s).1 <= MAX_RC_TRANSITIONS)%nat.
Proof.
  split; [vm_compute; reflexivity|].
  apply (transitions_bounded (loader_impl := empty_loader)). vm_compute. lia.
Defined.
