(* ===== verification/PrepareFacts.v ===== *)
(** What preparation keeps ([Prepare]): a prepared file has the statements of the
    parsed file, in their order and at their depth, with the same lines, names,
    targets, options and actions; only the texts and the expressions that are kept
    with them change. *)
From stdpp Require Import gmap.
From S2P Require Import Prelude Numbers Config Limits Utf8 HeaderValue StructuredHeader Variables Runtime Settings ShellPattern ShellEval ExprParser Expand Effects Binding Syntax RegexSyntax ConditionSyntax RcParser RcParserFacts Prepare.
From S2P Require Import Conditions Plan PlanFacts RcFile RuntimeRc RuntimeRcFacts.
#[local] Open Scope Z_scope.

(** * The outline of a file *)

Section outline.
Context {R : RegexEngine}.

Definition outline_set (line : nat) (name : bytes) (target : AssignmentTarget) : Statement :=
  S_Assignment {| as_line := line; as_name := name; as_value := []; as_target := target; as_expansion := None |}.
Definition line_only (l : SourceLocation) : SourceLocation := {| loc_line := loc_line l; loc_file := None; loc_truncated := false |}.
Definition outline_path (e : PathExpression) : PathExpression := {|
  pe_source := pe_source e; pe_base := None; pe_location := {| loc_line := 0; loc_file := None; loc_truncated := false |};
  pe_runtime_dependent := false; pe_runtime_base := false; pe_typed_destination := pe_typed_destination e; pe_expansion := None |}.
Definition outline_rc (e : RcFileExpression) : RcFileExpression := {|
  rf_location := line_only (rf_location e); rf_value := rf_value e; rf_expansion := None |}.
(** A file turns out to be the discarding one when its path is known. *)
Definition outline_destination (d : Destination) : Destination :=
  match d with
  | D_Mbox e => D_Mbox (outline_path e) | D_Maildir e => D_Maildir (outline_path e)
  | D_File e | D_Discard e => D_File (outline_path e)
  end.
Definition outline_operation (op : HeaderOperation) : HeaderOperation :=
  match header_operation_value op with
  | Some (_, _, value, rebuilt) => rebuilt {| hv_source := hv_source value; hv_expansion := None |}
  | None => op
  end.
(** What a condition asks is only known once it is expanded. *)
Definition outline_condition (c : Condition) : Condition :=
  {| cond_line := cond_line c; cond_negated := false; cond_kind := CK_Program [] |}.

(** A statement without what preparation fills in. *)
Fixpoint outline (s : Statement) {struct s} : Statement :=
  match s with
  | S_Assignment a => outline_set (as_line a) (as_name a) (as_target a)
  | S_CommandAssignment a => outline_set (ca_line a) (ca_name a) (ca_target a)
  | S_Unset u => S_Unset u
  | S_Include e => S_Include (outline_rc e)
  | S_Switch e => S_Switch (outline_rc e)
  | S_Recipe r => S_Recipe (outline_recipe r)
  end
with outline_recipe (r : Recipe) {struct r} : Recipe :=
  match r with
  | MkRecipe line action_line options lock conditions action =>
      MkRecipe line action_line options (outline_path <$> lock) (outline_condition <$> conditions)
        match action with
        | RA_Deliver d => RA_Deliver (outline_destination d)
        | RA_Headers h => RA_Headers {| operations := outline_operation <$> operations h |}
        | RA_Block l => RA_Block (List.map outline l)
        | other => other
        end
  end.

(** ** What the outline decides *)

Lemma outline_depth : forall s, statement_depth (outline s) = statement_depth s.
Proof.
  fix IH 1. intros [a|u|a|e|e|[line al options lock conditions action]]; try reflexivity. cbn.
  destruct action as [d|p|c|l|h]; try reflexivity. cbn. f_equal. induction l as [|s l IHl]; cbn; [reflexivity|]. by rewrite IH, IHl.
Qed.
Lemma blocks_outline (l l' : list Statement) : outline <$> l = outline <$> l' -> blocks_depth l = blocks_depth l'.
Proof.
  revert l'. induction l as [|s l IH]; intros [|s' l'] H; try done. cbn [fmap list_fmap] in H. injection H as Hs Hl.
  unfold blocks_depth in *. cbn [foldr]. by rewrite (IH l' Hl), <-(outline_depth s), Hs, outline_depth.
Qed.

Lemma outline_elem s (l : list Statement) : s ∈ outline <$> l <-> exists s0, s = outline s0 /\ s0 ∈ l.
Proof. by rewrite list_elem_of_fmap. Qed.
Lemma outline_is_recipe r s : S_Recipe r = outline s -> exists r0, s = S_Recipe r0 /\ r = outline_recipe r0.
Proof. destruct s as [a|u|a|e|e|r0]; try done. intros [= ->]. by exists r0. Qed.
Lemma recipe_in_outline r (l : list Statement) : recipe_in r l -> recipe_in (outline_recipe r) (outline <$> l).
Proof.
  induction 1 as [l Hin|l line al options lock conditions block Hin _ IH].
  - constructor. apply outline_elem. by exists (S_Recipe r).
  - refine (RcParserFacts.recipe_below _ _ line al options (outline_path <$> lock) (outline_condition <$> conditions) _ _ IH).
    apply outline_elem. eexists. split; [|exact Hin]. reflexivity.
Qed.
Lemma recipe_in_of_outline r l' : recipe_in r l' -> forall l : list Statement, l' = outline <$> l -> exists r0, r = outline_recipe r0 /\ recipe_in r0 l.
Proof.
  induction 1 as [l' Hin|l' line al options lock conditions block Hin _ IH]; intros l ->.
  - apply outline_elem in Hin as (s & Hs & Hin). apply outline_is_recipe in Hs as (r0 & -> & ->). exists r0. split; [done|by constructor].
  - apply outline_elem in Hin as (s & Hs & Hin). apply outline_is_recipe in Hs as ([? ? ? ? ? action] & -> & [= -> -> -> -> -> Ha]).
    destruct action as [| | |block0|]; try discriminate Ha. injection Ha as ->. destruct (IH block0 eq_refl) as (r0 & -> & H0).
    exists r0. split; [done|]. by eapply RcParserFacts.recipe_below.
Qed.
(** Files with one outline have the same recipes, up to the outline. *)
Lemma recipe_in_outlines (l l' : list Statement) r : outline <$> l' = outline <$> l -> recipe_in r l' -> exists r0, recipe_in r0 l /\ recipe_mode r0 = recipe_mode r.
Proof.
  intros H Hr%recipe_in_outline. rewrite H in Hr. destruct (recipe_in_of_outline _ _ Hr l eq_refl) as (r0 & Ho & H0).
  exists r0. split; [done|]. destruct r, r0. by injection Ho.
Qed.

(** ** The name of the file *)

Lemma outline_path_in_file source e : outline_path (path_in_file source e) = outline_path e.
Proof. done. Qed.
Lemma outline_bind_source source : forall s, outline (bind_source source s) = outline s.
Proof.
  fix IH 1. intros [a|u|a|e|e|[line al options lock conditions action]]; try reflexivity. cbn. f_equal. f_equal.
  - by destruct lock.
  - destruct action as [d|p|c|l|h]; try reflexivity; [by destruct d|]. f_equal. induction l as [|s l IHl]; cbn; [reflexivity|]. by rewrite IH, IHl.
Qed.
Lemma outline_set_source_file c path c' : set_source_file c path = Ok c' -> outline <$> statements c' = outline <$> statements c.
Proof.
  unfold set_source_file. intros (source & _ & [= <-])%result_bind_Ok. cbn [statements].
  induction (statements c) as [|s l IH]; cbn; [done|]. by rewrite outline_bind_source, IH.
Qed.
End outline.

(** * Preparation keeps the outline *)

Section keeps.
Context {T : Target} {R : RegexEngine} {RC : RegexCompiler} (pid : bytes).

(** The first step of a successful preparation. *)
Ltac step H := let x := fresh "x" in let Hx := fresh "Hx" in apply result_bind_Ok in H as (x & Hx & H).
Ltac steps H := repeat step H.

Lemma prepare_header_operation_outline known dynamic op op' :
  prepare_header_operation known dynamic op = Ok op' -> outline_operation op' = outline_operation op.
Proof.
  unfold prepare_header_operation, outline_operation.
  destruct (header_operation_value op) as [[[[line check] value] rebuilt]|] eqn:Hv; [|intros [= <-]; by rewrite Hv].
  intros H. apply result_bind_Ok in H as (e & _ & H). step H. step H. step H. injection H as <-.
  assert (forall v, header_operation_value (rebuilt v) = Some (line, check, v, rebuilt)) as Hr.
  { intros v. destruct op; try match goal with m : HeaderKeywordsMode |- _ => destruct m | m : HeaderStatusMode |- _ => destruct m end;
      try discriminate Hv; injection Hv as <- <- <- <-; reflexivity. }
  by rewrite Hr.
Qed.
Lemma prepare_header_operations_outline known dynamic ops ops' :
  prepare_header_operations known dynamic ops = Ok ops' -> outline_operation <$> ops' = outline_operation <$> ops.
Proof.
  revert ops'. induction ops as [|op ops IH]; intros ops' H; cbn [prepare_header_operations] in H; [by injection H as <-|].
  apply result_bind_Ok in H as (op' & Hop & H). apply result_bind_Ok in H as (rest & Hrest & H). injection H as <-. cbn.
  by rewrite (prepare_header_operation_outline _ _ _ _ Hop), (IH _ Hrest).
Qed.

Lemma prepare_shell_condition_outline known dynamic sensitive passes c c' :
  prepare_shell_condition pid known dynamic sensitive passes c = Ok c' -> outline_condition c' = outline_condition c.
Proof.
  revert c c'. induction passes as [|passes IH]; intros c c'; destruct (cond_kind c) eqn:Hk; cbn [prepare_shell_condition]; rewrite Hk; try (by intros [= <-]).
  all: intros H; step H; step H; step H; destruct (negb _); [by injection H as <-|].
  - discriminate H.
  - steps H. by apply IH in H.
Qed.
Lemma prepare_conditions_outline known dynamic sensitive cs cs' :
  prepare_conditions pid known dynamic sensitive cs = Ok cs' -> outline_condition <$> cs' = outline_condition <$> cs.
Proof.
  revert cs'. induction cs as [|c cs IH]; intros cs'; cbn [prepare_conditions]; [by intros [= <-]|].
  generalize MAX_EXPANSION_DEPTH. intros passes H.
  apply result_bind_Ok in H as (c' & Hc%prepare_shell_condition_outline & H). apply result_bind_Ok in H as (rest & Hrest & H). injection H as <-.
  rewrite !fmap_cons. by rewrite Hc, (IH _ Hrest).
Qed.

Lemma prepare_lock_outline p line lock action lock' :
  prepare_recipe_lock p line lock action = Ok lock' -> outline_path <$> lock' = outline_path <$> lock.
Proof.
  unfold prepare_recipe_lock. destruct lock as [e|]; [|by intros [= <-]]. intros H. apply result_bind_Ok in H as (e' & He & H).
  destruct (_ && _); [done|]. injection H as <-. unfold prepare_lock_expression in He. steps He. by injection He as <-.
Qed.
Lemma prepare_destination_outline p d line phase d' :
  prepare_destination p d line phase = Ok d' -> outline_destination d' = outline_destination d.
Proof.
  unfold prepare_destination. destruct (command_expression d).
  - intros H. step H. injection H as <-. by destruct d.
  - intros H. step H. step H. destruct (_ && _); [|injection H as <-; by destruct d]. step H. injection H as <-.
    unfold adopt_static_discard_classification. destruct d; cbn [with_expression kind]; try done. by destruct (kind _).
Qed.

Lemma prepare_deferred_outline p a a' p' : prepare_deferred_assignment p a = Ok (a', p') -> outline (S_Assignment a') = outline (S_Assignment a).
Proof. unfold prepare_deferred_assignment. destruct (negb _); [done|]. intros H. steps H. by injection H as <- <-. Qed.
Lemma resolve_static_outline p a a' p' : resolve_static_assignment_path p a = Ok (a', p') -> outline (S_Assignment a') = outline (S_Assignment a).
Proof.
  unfold resolve_static_assignment_path. destruct (assignment_path _) as [path|]; [|by intros [= <- <-]].
  destruct (assignment_path_purpose path). intros H. step H. by injection H as <- <-.
Qed.
Lemma prepare_assignment_outline p a a' p' : prepare_assignment p a = Ok (a', p') -> outline (S_Assignment a') = outline (S_Assignment a).
Proof.
  unfold prepare_assignment. case_bool_decide; [apply prepare_deferred_outline|]. intros H'. step H'.
  destruct (references_dynamic _); [step H'; by injection H' as <- <-|]. step H'. step H'. case_bool_decide.
  - step H'. by injection H' as <- <-.
  - apply result_bind_Ok in H' as ([a1 p1] & Ha & H'). injection H' as <- <-. by apply resolve_static_outline in Ha as ->.
Qed.
Lemma prepare_command_outline p a s p' : prepare_command_assignment p a = Ok (s, p') -> outline s = outline (S_CommandAssignment a).
Proof.
  unfold prepare_command_assignment. intros H. step H. destruct (_ && _ && _); [|by injection H as <- <-]. step H.
  apply result_bind_Ok in H as ([a1 p1] & Ha & H). injection H as <- <-. by apply prepare_assignment_outline in Ha as ->.
Qed.
Lemma prepare_rc_outline p e e' p' : prepare_rc_file p e = Ok (e', p') -> outline_rc e' = outline_rc e.
Proof. unfold prepare_rc_file. intros H. step H. step H. destruct (has_commands _); [done|]. step H. by injection H as <- <-. Qed.

Lemma prepare_list_outline one p l l' p' :
  Forall (fun s => forall p s' p', one p s = Ok (s', p') -> outline s' = outline s) l ->
  prepare_list one p l = Ok (l', p') -> List.map outline l' = List.map outline l.
Proof.
  intros Hone. revert p l'. induction Hone as [|s l Hs _ IH]; intros p l' H; cbn [prepare_list] in H; [by injection H as <- <-|].
  apply result_bind_Ok in H as ([s' p1] & H1 & H). apply result_bind_Ok in H as ([rest p2] & H2 & H). injection H as <- <-. cbn.
  by rewrite (Hs _ _ _ H1), (IH _ _ H2).
Qed.

Lemma prepare_recipe_outline : forall r p phase r', prepare_recipe pid p phase r = Ok r' -> outline_recipe r' = outline_recipe r.
Proof.
  fix IH 1. intros [line al options lock conditions action] p phase r' H. cbn [prepare_recipe] in H.
  apply result_bind_Ok in H as (conditions' & Hc%prepare_conditions_outline & H).
  apply result_bind_Ok in H as (lock' & Hl%prepare_lock_outline & H). apply result_bind_Ok in H as (action' & Ha & H). injection H as <-.
  cbn [outline_recipe]. rewrite Hc, Hl. f_equal. destruct action as [d|a|a|l|h].
  - apply result_fmap_Ok in Ha as (d' & Hd & ->). by rewrite (prepare_destination_outline _ _ _ _ _ Hd).
  - by injection Ha as <-.
  - by injection Ha as <-.
  - apply result_bind_Ok in Ha as ([l' p'] & Hl' & Ha). injection Ha as <-. f_equal. revert Hl'. apply prepare_list_outline.
    induction l as [|s l IHl]; constructor; [|exact IHl]. intros p1 s1 p2 H1. destruct s as [a|u|a|e|e|r]; cbn [prepare_statement] in H1.
    + apply result_bind_Ok in H1 as ([a1 p3] & Ha & H1). injection H1 as <- <-. by apply prepare_assignment_outline in Ha.
    + step H1. by injection H1 as <- <-.
    + by apply prepare_command_outline in H1.
    + apply result_bind_Ok in H1 as ([e1 p3] & He & H1). injection H1 as <- <-. cbn [outline]. by rewrite (prepare_rc_outline _ _ _ _ He).
    + apply result_bind_Ok in H1 as ([e1 p3] & He & H1). injection H1 as <- <-. cbn [outline]. by rewrite (prepare_rc_outline _ _ _ _ He).
    + apply result_bind_Ok in H1 as (r1 & Hr & H1). injection H1 as <- <-. cbn [outline]. by rewrite (IH _ _ _ _ Hr).
  - apply result_fmap_Ok in Ha as (h' & Hh & ->). unfold prepare_header_action in Hh. apply result_bind_Ok in Hh as (ops & Ho & Hh).
    injection Hh as <-. cbn. by rewrite (prepare_header_operations_outline _ _ _ _ Ho).
Qed.
Lemma prepare_statement_outline p s s' p' : prepare_statement pid p s = Ok (s', p') -> outline s' = outline s.
Proof.
  destruct s as [a|u|a|e|e|r]; cbn [prepare_statement]; intros H.
  - apply result_bind_Ok in H as ([a1 p3] & Ha & H). injection H as <- <-. by apply prepare_assignment_outline in Ha.
  - step H. by injection H as <- <-.
  - by apply prepare_command_outline in H.
  - apply result_bind_Ok in H as ([e1 p3] & He & H). injection H as <- <-. cbn [outline]. by rewrite (prepare_rc_outline _ _ _ _ He).
  - apply result_bind_Ok in H as ([e1 p3] & He & H). injection H as <- <-. cbn [outline]. by rewrite (prepare_rc_outline _ _ _ _ He).
  - apply result_bind_Ok in H as (r1 & Hr & H). injection H as <- <-. cbn [outline]. by rewrite (prepare_recipe_outline _ _ _ _ Hr).
Qed.
Lemma prepare_statements_outline p l l' p' : prepare_statements pid p l = Ok (l', p') -> outline <$> l' = outline <$> l.
Proof. apply prepare_list_outline, Forall_forall. intros s _ p1 s' p2. apply prepare_statement_outline. Qed.

Lemma expand_config_outline c variables initial maildir c' :
  expand_config pid c variables initial maildir = Ok c' -> outline <$> statements c' = outline <$> statements c.
Proof.
  unfold expand_config. intros H. apply result_bind_Ok in H as ([l p] & Hl & H). injection H as <-. by apply prepare_statements_outline in Hl.
Qed.
Lemma runtime_values_outline c values c' :
  Prepare.expand_with_runtime_values pid c values = Ok c' -> outline <$> statements c' = outline <$> statements c.
Proof. apply expand_config_outline. Qed.
Lemma prepare_check_outline c values c' : Prepare.prepare_for_check pid c values = Ok c' -> outline <$> statements c' = outline <$> statements c.
Proof.
  unfold Prepare.prepare_for_check. intros H. apply result_bind_Ok in H as ([l p] & Hl & H). injection H as <-. by apply prepare_statements_outline in Hl.
Qed.
Lemma expand_arguments_outline c supplied arguments c' :
  expand_with_arguments pid c supplied arguments = Ok c' -> outline <$> statements c' = outline <$> statements c.
Proof.
  unfold expand_with_arguments. intros H. apply result_bind_Ok in H as ([variables initial] & _ & H).
  destruct (expand_arguments _ _ _). by apply expand_config_outline in H.
Qed.

(** Preparation keeps what was written.  Whether a file is prepared for a run
    or for a check: the prepared file has the statements of the parsed one, in their
    order and at their depth, with the same lines, names, targets, recipe options,
    number and lines of conditions, locks, destinations and actions. *)
Theorem preparation_keeps_outline (c c' : Config) :
  (forall supplied arguments, expand_with_arguments pid c supplied arguments = Ok c' -> outline <$> statements c' = outline <$> statements c) /\
  (forall values, Prepare.expand_with_runtime_values pid c values = Ok c' -> outline <$> statements c' = outline <$> statements c) /\
  (forall values, Prepare.prepare_for_check pid c values = Ok c' -> outline <$> statements c' = outline <$> statements c).
Proof.
  split_and!; intros; [by eapply expand_arguments_outline|by eapply runtime_values_outline|by eapply prepare_check_outline].
Qed.
End keeps.

(** * Compiled trees *)

Section compiled.
Context {R : RegexEngine}.

Lemma compile_steps_nesting node source l state :
  Forall (fun s => match s with S_Recipe r => forall preceding, node_nesting (node r preceding) = recipe_depth r | _ => True end) l ->
  foldr (fun n d => Nat.max (node_nesting n) d) 0%nat (foldl (compile_step node source) state l).1 =
  Nat.max (foldr (fun n d => Nat.max (node_nesting n) d) 0%nat state.1) (blocks_depth l).
Proof.
  revert state. induction l as [|s l IH]; intros state Hl; cbn [foldl]; [cbn; lia|]. apply Forall_cons in Hl as [Hs Hl].
  rewrite IH; [|done]. assert (forall rs n, foldr (fun n d => Nat.max (node_nesting n) d) 0%nat (rs ++ [n]) =
    Nat.max (foldr (fun n d => Nat.max (node_nesting n) d) 0%nat rs) (node_nesting n)) as Happ.
  { intros rs n. induction rs as [|n' rs IHrs]; cbn; [lia|]. rewrite IHrs. lia. }
  unfold blocks_depth. destruct s; try done. cbn. rewrite Happ, Hs. lia.
Qed.
Lemma compile_node_nesting source : forall r preceding, node_nesting (compile_node source r preceding) = recipe_depth r.
Proof.
  fix IH 1. intros [line al options lock conditions action] preceding. cbn. destruct action as [d|a|a|l|h]; try reflexivity.
  pose proof (compile_steps_nesting (compile_node source) source l ([], [])) as H.
  destruct (foldl _ ([], []) l) as [rs trailing] eqn:Hf. unfold finish_sequence. cbn. f_equal. apply H.
  clear H Hf. induction l as [|s l IHl]; constructor; [|exact IHl]. destruct s; try exact I. apply IH.
Qed.
(** A compiled sequence nests as its statements do. *)
Lemma compile_nesting l preceding source : nesting (compile l preceding source) = S (blocks_depth l).
Proof.
  unfold compile. pose proof (compile_steps_nesting (compile_node source) source l ([], preceding)) as H.
  destruct (foldl _ ([], preceding) l) as [rs trailing]. unfold finish_sequence. cbn in *. f_equal. apply H.
  apply Forall_forall. intros s _. destruct s; try exact I. apply compile_node_nesting.
Qed.

(** The nodes of a compiled sequence are its recipes. *)
Lemma compile_recipe l preceding source n : n ∈ recipes (compile l preceding source) ->
  exists r before, S_Recipe r ∈ l /\ n = compile_node source r before.
Proof.
  assert (forall l state, n ∈ (foldl (compile_step (compile_node source) source) state l).1 ->
    n ∈ state.1 \/ exists r before, S_Recipe r ∈ l /\ n = compile_node source r before) as H.
  { clear. induction l as [|s l IH]; intros state H; cbn [foldl] in H; [by left|].
    apply IH in H as [H|(r & before & Hr & ->)]; [|right; exists r, before; split; [by right|done]].
    destruct s; cbn in H; try by left. apply elem_of_app in H as [H|H]; [by left|]. apply list_elem_of_singleton in H as ->.
    right. eexists _, _. split; [by left|done]. }
  unfold compile. destruct (foldl _ ([], preceding) l) as [rs trailing] eqn:Hf. unfold finish_sequence. cbn [recipes]. intros Hn.
  destruct (H l ([], preceding)) as [Hin|Hr]; [by rewrite Hf|by apply elem_of_nil in Hin|done].
Qed.
Lemma compile_node_block source r before children : node_action (compile_node source r before) = CA_Block children ->
  exists line al options lock conditions l, r = MkRecipe line al options lock conditions (RA_Block l) /\ children = compile l [] source.
Proof.
  destruct r as [line al options lock conditions action]. cbn. destruct action as [d|a|a|l|h]; try discriminate.
  intros Hc. exists line, al, options, lock, conditions, l. split; [done|]. unfold compile.
  destruct (foldl _ ([], []) l) as [rs trailing]. by injection Hc.
Qed.
(** A delivery of a compiled tree is that of a recipe. *)
Lemma compile_delivery s d mode ending : within s (PP_Action (CA_Deliver d mode ending)) ->
  forall l preceding source, s = compile l preceding source -> exists r, recipe_in r l /\ continuation (recipe_mode r) = mode.
Proof.
  remember (PP_Action (CA_Deliver d mode ending)) as p eqn:Hp. induction 1 as [| | |s n Hn|s n children p Hn Ha Hw IH]; try discriminate Hp.
  - intros l preceding source ->. apply compile_recipe in Hn as (r & before & Hr & ->). exists r. split; [by constructor|].
    injection Hp as Hp. destruct r as [line al options lock conditions action]. cbn in Hp. destruct action as [| | |block|]; try discriminate Hp; [by injection Hp|].
    by destruct (foldl _ ([], []) block).
  - intros l preceding source ->. apply compile_recipe in Hn as (r & before & Hr & ->).
    apply compile_node_block in Ha as (line & al & options & lock & conditions & block & -> & ->).
    destruct (IH Hp block [] source eq_refl) as (r & Hr' & Hm). exists r. split; [by eapply RcParserFacts.recipe_below|done].
Qed.
End compiled.

(** * A sample *)

(** An assignment that is known, one that is not, and a recipe. *)
Definition prepared_rc : bytes := rc_text [B "DIR=/mail"; B "X=$DIR/in"; B ":0"; B "{"; B " :0 :"; B " $X/"; B "}"].
Definition parsed_prepared : result ParseError Config := RcParser.parse (R := plain_engine) (RC := plain_compiler) prepared_rc.
Lemma preparation_keeps_outline_witness :
  exists c c', parsed_prepared = Ok c /\ expand_with_arguments (R := plain_engine) (RC := plain_compiler) (B "7") c [] no_arguments = Ok c' /\
    outline <$> statements c' = outline <$> statements c /\ statements c' <> statements c.
Proof.
  destruct parsed_prepared as [c|] eqn:Hc; [|vm_compute in Hc; discriminate Hc]. exists c.
  destruct (expand_with_arguments (R := plain_engine) (RC := plain_compiler) (B "7") c [] no_arguments) as [c'|] eqn:He.
  - exists c'. split; [reflexivity|]. split; [reflexivity|].
    split; [exact (proj1 (preparation_keeps_outline (RC := plain_compiler) (B "7") c c') [] no_arguments He)|].
    vm_compute in Hc. injection Hc as <-. vm_compute in He. injection He as <-. discriminate.
  - vm_compute in Hc. injection Hc as <-. vm_compute in He. discriminate He.
Defined.
