(* ===== verification/Delivery.v ===== *)
(** Deliveries that are written before they are published:
    [src/src/delivery.rs] and [src/src/delivery/discard.rs], with the errors of
    [src/src/delivery_runtime.rs].  A sink keeps its bytes private until it is
    committed; a fanout writes the same bytes to all of its sinks and then commits
    them in order.  What a sink does to the outside is an interface. *)
From S2P Require Import Prelude Effects Numbers Config Utf8.
#[local] Open Scope Z_scope.

(** * Errors of the operating system *)

(** The kinds the source names; any other is known by what it shows.
    Source: delivery.rs:125-148 `from_io_kind (kinds)` *)
Inductive ErrorKind :=
| EK_AlreadyExists | EK_BrokenPipe | EK_Interrupted | EK_OutOfMemory | EK_ResourceBusy | EK_StorageFull | EK_TimedOut | EK_WouldBlock | EK_WriteZero
| EK_InvalidData | EK_InvalidInput | EK_IsADirectory | EK_NotADirectory | EK_NotFound | EK_PermissionDenied | EK_ReadOnlyFilesystem | EK_Unsupported
| EK_UnexpectedEof | EK_Other (description : bytes).
(** [std::io::Error]: its kind, the number of the system where it has one, and
    what it shows. *)
Record IoError := { ie_kind : ErrorKind; ie_raw : option Z; ie_text : bytes }.
(** [io::Error::new(kind, message)] *)
Definition io_error (kind : ErrorKind) (text : bytes) : IoError := {| ie_kind := kind; ie_raw := None; ie_text := text |}.
(** [io::Error::other(message)] *)
Definition io_other : bytes -> IoError := io_error (EK_Other (B "other error")).

(** [Display] of a kind. *)
Definition error_kind_text (kind : ErrorKind) : bytes :=
  match kind with
  | EK_AlreadyExists => B "entity already exists" | EK_BrokenPipe => B "broken pipe" | EK_Interrupted => B "operation interrupted"
  | EK_OutOfMemory => B "out of memory" | EK_ResourceBusy => B "resource busy" | EK_StorageFull => B "no storage space"
  | EK_TimedOut => B "timed out" | EK_WouldBlock => B "operation would block" | EK_WriteZero => B "write zero"
  | EK_InvalidData => B "invalid data" | EK_InvalidInput => B "invalid input parameter" | EK_IsADirectory => B "is a directory"
  | EK_NotADirectory => B "not a directory" | EK_NotFound => B "entity not found" | EK_PermissionDenied => B "permission denied"
  | EK_ReadOnlyFilesystem => B "read-only filesystem or storage medium" | EK_Unsupported => B "unsupported"
  | EK_UnexpectedEof => B "unexpected end of file" | EK_Other description => description
  end.

(** The numbers of the target system, with the kind and the text the standard
    library gives them. *)
Class Platform := {
  errno_MFILE : Z; errno_EXIST : Z; errno_INTR : Z; errno_AGAIN : Z; errno_NOENT : Z;
  errno_kind : Z -> ErrorKind; errno_text : Z -> bytes;
  (** [target_os = "linux"], which has descriptors of paths *)
  on_linux : bool;
}.
(** [io::Error::from_raw_os_error]
    Source: delivery/maildir.rs `fn io_error` *)
Definition io_of_errno {P : Platform} (n : Z) : IoError := {| ie_kind := errno_kind n; ie_raw := Some n; ie_text := errno_text n |}.

(** Source: delivery.rs `pub enum DeliveryFailureClass` *)
Inductive DeliveryFailureClass := Retryable | Permanent | Internal.
#[export] Instance DeliveryFailureClass_eq_dec : EqDecision DeliveryFailureClass.
Proof. solve_decision. Defined.
(** Source: delivery.rs `pub enum DeliveryOperation` *)
Inductive DeliveryOperation := DO_Open | DO_Lock | DO_Write | DO_Publish | DO_SyncFile | DO_SyncDirectory | DO_Unlock.
#[export] Instance DeliveryOperation_eq_dec : EqDecision DeliveryOperation.
Proof. solve_decision. Defined.
(** Source: delivery.rs `pub fn description(self)` *)
Definition operation_description (o : DeliveryOperation) : bytes :=
  match o with
  | DO_Open => B "opening destination" | DO_Lock => B "acquiring lock" | DO_Write => B "writing message" | DO_Publish => B "publishing message"
  | DO_SyncFile => B "syncing file" | DO_SyncDirectory => B "syncing directory" | DO_Unlock => B "releasing lock"
  end.
(** Source: delivery.rs `pub fn name(self)` *)
Definition operation_name (o : DeliveryOperation) : bytes :=
  match o with
  | DO_Open => B "open" | DO_Lock => B "lock" | DO_Write => B "write" | DO_Publish => B "publish"
  | DO_SyncFile => B "sync-file" | DO_SyncDirectory => B "sync-directory" | DO_Unlock => B "unlock"
  end.
(** Source: delivery.rs `pub struct DeliveryFailure ` *)
Record DeliveryFailure := { df_class : DeliveryFailureClass; df_operation : DeliveryOperation; df_kind : ErrorKind; df_published : bool }.

(** Source: delivery.rs `pub fn from_io_kind` *)
Definition class_from_io_kind (kind : ErrorKind) : DeliveryFailureClass :=
  match kind with
  | EK_AlreadyExists | EK_BrokenPipe | EK_Interrupted | EK_OutOfMemory | EK_ResourceBusy | EK_StorageFull | EK_TimedOut | EK_WouldBlock | EK_WriteZero => Retryable
  | EK_InvalidData | EK_InvalidInput | EK_IsADirectory | EK_NotADirectory | EK_NotFound | EK_PermissionDenied | EK_ReadOnlyFilesystem | EK_Unsupported => Permanent
  | EK_UnexpectedEof | EK_Other _ => Internal
  end.

Section delivery.
Context {P : Platform}.

(** Source: delivery.rs `pub fn from_io_error` *)
Definition class_from_io_error (e : IoError) : DeliveryFailureClass :=
  if bool_decide (ie_raw e = Some errno_MFILE) then Retryable else class_from_io_kind (ie_kind e).
(** Source: delivery.rs `pub fn from_io(` *)
Definition failure_from_io (operation : DeliveryOperation) (e : IoError) (published : bool) : DeliveryFailure :=
  {| df_class := class_from_io_error e; df_operation := operation; df_kind := ie_kind e; df_published := published |}.

(** The [PathBuf] of the destination that can be seen.
    Source: delivery.rs `pub struct PublishedDelivery` *)
Record PublishedDelivery := { pub_last_folder : bytes }.
(** Source: delivery.rs `pub struct SinkCommitError` *)
Record SinkCommitError := { sce_source : IoError; sce_published : option PublishedDelivery; sce_operation : DeliveryOperation }.
(** Source: delivery.rs `pub fn before_publication(source` *)
Definition before_publication (source : IoError) : SinkCommitError := {| sce_source := source; sce_published := None; sce_operation := DO_Publish |}.
(** Source: delivery.rs `pub fn after_publication(source` *)
Definition after_publication (source : IoError) (published : PublishedDelivery) : SinkCommitError :=
  {| sce_source := source; sce_published := Some published; sce_operation := DO_Publish |}.
(** Source: delivery.rs `pub fn with_operation` *)
Definition with_operation (operation : DeliveryOperation) (e : SinkCommitError) : SinkCommitError :=
  {| sce_source := sce_source e; sce_published := sce_published e; sce_operation := operation |}.
(** Source: delivery.rs `pub fn failure(&self)@1` *)
Definition commit_failure (e : SinkCommitError) : DeliveryFailure :=
  failure_from_io (sce_operation e) (sce_source e) (bool_decide (is_Some (sce_published e))).
(** Source: delivery.rs `pub fn class(&self)@1` *)
Definition commit_class (e : SinkCommitError) : DeliveryFailureClass := df_class (commit_failure e).

(** * Sinks *)

(** A sink [S] of an outside [W]: what writing leaves of it, and what committing
    or aborting it, which consume it, do.
    Source: delivery.rs `pub trait PendingSink` *)
Class PendingSink (W S : Type) := {
  sink_write : S -> bytes -> W -> result IoError S * W;
  sink_flush : S -> W -> result IoError S * W;
  sink_commit : S -> M W SinkCommitError PublishedDelivery;
  sink_abort : S -> M W IoError ();
}.
Context {W S : Type} {sink_impl : PendingSink W S}.

(** Source: delivery.rs `pub const MAX_PENDING_SINKS` *)
Definition MAX_PENDING_SINKS : nat := 256.

(** A fanout that was dropped has no sinks. [written] is what [write_failure] of
    the code is.
    Source: delivery.rs `pub struct PendingFanout` *)
Record PendingFanout := { pf_sinks : list S; pf_failure : option (nat * DeliveryFailure) }.
(** Source: delivery.rs `pub struct ValidatedFanout` *)
Record ValidatedFanout := { vf_sinks : list S }.
(** Source: delivery.rs `pub enum FanoutLimitError` *)
Record FanoutLimitError := { fle_count : nat; fle_limit : nat }.
(** Source: delivery.rs `pub fn new(sinks` *)
Definition new_fanout (sinks : list S) : result FanoutLimitError PendingFanout :=
  if (MAX_PENDING_SINKS <? length sinks)%nat then Err {| fle_count := length sinks; fle_limit := MAX_PENDING_SINKS |}
  else Ok {| pf_sinks := sinks; pf_failure := None |}.

(** The loop of a write: the sinks one after the other; the sink that fails keeps
    its place and those after it are not reached. *)
Fixpoint each_sink (step : S -> W -> result IoError S * W) (index : nat) (sinks : list S) (w : W) : result (nat * IoError) (list S) * list S * W :=
  match sinks with
  | [] => (Ok [], [], w)
  | s :: rest =>
      match step s w with
      | (Err e, w) => (Err (index, e), s :: rest, w)
      | (Ok s, w) => let '(r, kept, w) := each_sink step (index + 1) rest w in (cons s <$> r, s :: kept, w)
      end
  end.
(** Source: delivery.rs `impl Write for PendingFanout` *)
Definition fanout_each (step : S -> W -> result IoError S * W) (f : PendingFanout) (w : W) : result IoError () * PendingFanout * W :=
  let '(r, sinks, w) := each_sink step 0 (pf_sinks f) w in
  match r with
  | Ok _ => (Ok tt, {| pf_sinks := sinks; pf_failure := pf_failure f |}, w)
  | Err (index, e) => (Err e, {| pf_sinks := sinks; pf_failure := Some (index, failure_from_io DO_Write e false) |}, w)
  end.
Definition fanout_write (f : PendingFanout) (l : bytes) : W -> result IoError () * PendingFanout * W := fanout_each (fun s => sink_write s l) f.
Definition fanout_flush (f : PendingFanout) : W -> result IoError () * PendingFanout * W := fanout_each sink_flush f.

(** The sinks from the last to the first; the number of those that could not be
    aborted.
    Source: delivery.rs `fn abort_all(&mut self)@1` *)
Fixpoint abort_sinks (reversed : list S) (failures : nat) (w : W) : nat * W :=
  match reversed with
  | [] => (failures, w)
  | s :: rest =>
      let '(r, w) := run (sink_abort s) w in
      abort_sinks rest (match r with Err _ => Datatypes.S failures | Ok _ => failures end) w
  end.
Definition abort_all (sinks : list S) (w : W) : nat * W := abort_sinks (rev sinks) 0 w.

(** Source: delivery.rs `pub struct CommitError` *)
Record CommitError := { ce_source : SinkCommitError; ce_published : list PublishedDelivery; ce_abort_failures : nat; ce_failed_index : nat }.

(** The sinks after one that failed, from the first to the last.
    Source: delivery.rs:470-472 `commit (remaining)` *)
Fixpoint abort_remaining (sinks : list S) (failures : nat) (w : W) : nat * W :=
  match sinks with
  | [] => (failures, w)
  | s :: rest =>
      let '(r, w) := run (sink_abort s) w in
      abort_remaining rest (match r with Err _ => Datatypes.S failures | Ok _ => failures end) w
  end.
(** Source: delivery.rs:455-486 `commit (loop)` *)
Fixpoint commit_sinks (published : list PublishedDelivery) (sinks : list S) (w : W) : result CommitError (list PublishedDelivery) * W :=
  match sinks with
  | [] => (Ok published, w)
  | s :: rest =>
      match run (sink_commit s) w with
      | (Ok delivery, w) => commit_sinks (published ++ [delivery]) rest w
      | (Err source, w) =>
          let '(failures, w) := abort_remaining rest 0 w in
          (Err {| ce_source := source; ce_published := published ++ option_list (sce_published source); ce_abort_failures := failures;
                  ce_failed_index := length published |}, w)
      end
  end.
(** Source: delivery.rs `pub fn commit(mut self)` *)
Definition commit_fanout (v : ValidatedFanout) (w : W) : result CommitError (list PublishedDelivery) * W := commit_sinks [] (vf_sinks v) w.

(** Source: delivery.rs `pub fn last_folder(&self)@2` *)
Definition report_last_folder (published : list PublishedDelivery) : option bytes := pub_last_folder <$> last published.

(** Source: delivery.rs `pub struct AppendError` *)
Record AppendError := { ae_source : IoError; ae_abort_failures : nat; ae_delivery_failure : option (nat * DeliveryFailure) }.
Definition fanout_limit_text (e : FanoutLimitError) : bytes :=
  B "delivery fan-out has " ++ decimal (fle_count e) ++ B " sinks, limit is " ++ decimal (fle_limit e).
(** [write_all] is one call of [write], which takes every byte.
    Source: delivery.rs `pub fn append_bytes` *)
Definition append_bytes (v : ValidatedFanout) (pending : PendingFanout) (message : bytes) (w : W) : result AppendError ValidatedFanout * W :=
  let count := (length (vf_sinks v) + length (pf_sinks pending))%nat in
  if (MAX_PENDING_SINKS <? count)%nat then
    let '(a, w) := abort_all (pf_sinks pending) w in
    let '(b, w) := abort_all (vf_sinks v) w in
    (Err {| ae_source := io_error EK_InvalidInput (fanout_limit_text {| fle_count := count; fle_limit := MAX_PENDING_SINKS |});
            ae_abort_failures := a + b; ae_delivery_failure := None |}, w)
  else
    let '(r, pending, w) := if bool_decide (message = []) then (Ok tt, pending, w) else fanout_write pending message w in
    match r with
    | Err source =>
        let '(a, w) := abort_all (pf_sinks pending) w in
        let '(b, w) := abort_all (vf_sinks v) w in
        (Err {| ae_source := source; ae_abort_failures := a + b; ae_delivery_failure := pf_failure pending |}, w)
    | Ok _ => (Ok {| vf_sinks := vf_sinks v ++ pf_sinks pending |}, w)
    end.
End delivery.

(** What a fanout publishes: nothing before it is committed, and then exactly what
    its report says, in the order of its sinks, also when one of them fails. *)

(** What the sinks of an outside promise a fanout.  [shows w l w'] says that between
    two states exactly [l] became visible, in that order. *)
Class SinkLaws (W S : Type) (sinks : PendingSink W S) := {
  sink_ok : S -> Prop;
  shows : W -> list PublishedDelivery -> W -> Prop;
  shows_nil : forall w, shows w [] w;
  shows_app : forall w1 w2 w3 l k, shows w1 l w2 -> shows w2 k w3 -> shows w1 (l ++ k) w3;
  write_shows : forall s l w, sink_ok s -> shows w [] (sink_write s l w).2 /\ (forall s', (sink_write s l w).1 = Ok s' -> sink_ok s');
  flush_shows : forall s w, sink_ok s -> shows w [] (sink_flush s w).2 /\ (forall s', (sink_flush s w).1 = Ok s' -> sink_ok s');
  abort_shows : forall s w, sink_ok s -> shows w [] (run (sink_abort s) w).2;
  commit_shows : forall s w, sink_ok s ->
    shows w (match (run (sink_commit s) w).1 with Ok d => [d] | Err e => option_list (sce_published e) end) (run (sink_commit s) w).2;
}.

Section fanout.
Context {P : Platform} {W S : Type} {sinks : PendingSink W S} {laws : SinkLaws W S sinks}.

Lemma shows_quiet w1 w2 w3 l : shows w1 l w2 -> shows w2 [] w3 -> shows w1 l w3.
Proof. intros H1 H2. rewrite <- (app_nil_r l). by eapply shows_app. Qed.
Lemma abort_remaining_shows ss n w : Forall sink_ok ss -> shows w [] (abort_remaining ss n w).2.
Proof.
  intros H. revert n w. induction H as [|s ss Hs H IH]; intros n w; [apply shows_nil|]. cbn [abort_remaining].
  pose proof (abort_shows s w Hs) as Ha. destruct (run (sink_abort s) w) as [r w1]. eapply shows_quiet; [exact Ha|apply IH].
Qed.
Lemma abort_sinks_remaining ss n w : abort_sinks ss n w = abort_remaining ss n w.
Proof. revert n w. induction ss as [|s ss IH]; intros n w; [done|]. cbn. by destruct (run (sink_abort s) w). Qed.
Lemma abort_all_shows ss w : Forall sink_ok ss -> shows w [] (abort_all ss w).2.
Proof. intros H. unfold abort_all. rewrite abort_sinks_remaining. apply abort_remaining_shows. by apply Forall_rev. Qed.

(** ** Writing *)

Lemma each_sink_shows (step : S -> W -> result IoError S * W) index ss w :
  (forall s w, sink_ok s -> shows w [] (step s w).2 /\ forall s', (step s w).1 = Ok s' -> sink_ok s') ->
  Forall sink_ok ss ->
  let '(r, kept, w') := each_sink step index ss w in
  shows w [] w' /\ Forall sink_ok kept /\ length kept = length ss /\
  match r with Ok _ => True | Err (i, _) => (index <= i < index + length ss)%nat end.
Proof.
  intros Hstep H. revert index w. induction H as [|s ss Hs H IH]; intros index w; cbn [each_sink].
  { split; [apply shows_nil|]. by repeat constructor. }
  destruct (Hstep s w Hs) as [Hw Hok]. destruct (step s w) as [[s'|e] w1]; cbn [fst snd] in *.
  - specialize (IH (index + 1)%nat w1). destruct (each_sink step (index + 1) ss w1) as [[r kept] w2]. destruct IH as (H1 & H2 & H3 & H4).
    split; [by eapply (shows_quiet _ w1)|]. split; [constructor; [by apply Hok|done]|]. split; [cbn; lia|]. destruct r as [|[i e]]; cbn in *; [done|lia].
  - split; [done|]. split; [by constructor|]. split; [done|]. cbn. lia.
Qed.
Lemma fanout_each_shows step f w :
  (forall s w, sink_ok s -> shows w [] (step s w).2 /\ forall s', (step s w).1 = Ok s' -> sink_ok s') ->
  Forall sink_ok (pf_sinks f) ->
  let '(r, f', w') := fanout_each step f w in
  shows w [] w' /\ Forall sink_ok (pf_sinks f') /\ length (pf_sinks f') = length (pf_sinks f) /\
  match r with
  | Ok _ => pf_failure f' = pf_failure f
  | Err _ => exists index failure, pf_failure f' = Some (index, failure) /\ (index < length (pf_sinks f))%nat /\ df_published failure = false
  end.
Proof.
  intros Hstep H. unfold fanout_each. pose proof (each_sink_shows step 0 (pf_sinks f) w Hstep H) as Hs.
  destruct (each_sink step 0 (pf_sinks f) w) as [[[l|[i e]] kept] w']; destruct Hs as (H1 & H2 & H3 & H4); cbn [pf_sinks pf_failure]; [done|].
  repeat split; try done. eexists i, _. split; [done|]. split; [lia|done].
Qed.
Lemma append_bytes_shows v pending message w :
  Forall sink_ok (vf_sinks v) -> Forall sink_ok (pf_sinks pending) ->
  let '(r, w') := append_bytes v pending message w in
  shows w [] w' /\ match r with Ok v' => length (vf_sinks v') = (length (vf_sinks v) + length (pf_sinks pending))%nat /\ Forall sink_ok (vf_sinks v') | Err _ => True end.
Proof.
  intros Hv Hp. unfold append_bytes.
  assert (forall pending w1, shows w [] w1 -> Forall sink_ok (pf_sinks pending) ->
    shows w [] (abort_all (vf_sinks v) (abort_all (pf_sinks pending) w1).2).2) as Habort.
  { intros p w1 Hw1 H. eapply shows_quiet; [eapply shows_quiet; [exact Hw1|by apply abort_all_shows]|by apply abort_all_shows]. }
  destruct (_ <? _)%nat.
  - specialize (Habort pending w (shows_nil w) Hp). destruct (abort_all (pf_sinks pending) w) as [a w1]. cbn [snd] in Habort.
    destruct (abort_all (vf_sinks v) w1) as [b w2]. done.
  - pose proof (fanout_each_shows (fun s => sink_write s message) pending w (fun s w => write_shows s message w) Hp) as Hf.
    fold (fanout_write pending message) in Hf. destruct (bool_decide (message = [])).
    + split; [apply shows_nil|]. cbn [vf_sinks]. rewrite length_app. split; [done|]. by apply Forall_app.
    + unfold fanout_write in *. destruct (fanout_each _ _ _) as [[r p] w1]. destruct Hf as (H1 & H2 & H3 & H4). destruct r as [[]|e].
      * split; [done|]. cbn [vf_sinks]. rewrite length_app. split; [lia|]. by apply Forall_app.
      * specialize (Habort p w1 H1 H2). destruct (abort_all (pf_sinks p) w1) as [a w2]. cbn [snd] in Habort. by destruct (abort_all (vf_sinks v) w2).
Qed.

(** ** Publishing *)

Lemma commit_sinks_shows ss published w0 w :
  Forall sink_ok ss -> shows w0 published w ->
  match commit_sinks published ss w with
  | (Ok report, w') => shows w0 report w' /\ length report = (length published + length ss)%nat
  | (Err e, w') => shows w0 (ce_published e) w' /\ (length published <= ce_failed_index e < length published + length ss)%nat /\
      length (ce_published e) = (ce_failed_index e + length (option_list (sce_published (ce_source e))))%nat
  end.
Proof.
  intros H. revert published w. induction H as [|s ss Hs H IH]; intros published w Hw; cbn [commit_sinks]; [by split; [|cbn; lia]|].
  pose proof (commit_shows s w Hs) as Hc. destruct (run (sink_commit s) w) as [[d|e] w1]; cbn [fst snd] in Hc.
  - specialize (IH (published ++ [d]) w1 (shows_app _ _ _ _ _ Hw Hc)). rewrite length_app in IH. cbn [length] in *.
    destruct (commit_sinks _ ss w1) as [[report|e] w2]; [split; [apply IH|lia]|]. destruct IH as (H1 & H2 & H3). repeat split; (done || lia).
  - pose proof (abort_remaining_shows ss 0 w1 H) as Ha. destruct (abort_remaining ss 0 w1) as [n w2]. cbn [ce_published ce_failed_index ce_source].
    split; [eapply shows_quiet; [by eapply shows_app|done]|]. split; [cbn [length]; lia|by rewrite length_app].
Qed.

(** C13: The report of a fanout is what became visible.  Nothing of a fanout is seen
    before it is committed, whatever was written to it.  A commit that succeeds has
    made one delivery of every sink visible, in their order; one that fails has made
    exactly the deliveries visible that its error lists: those of the sinks before
    the one that failed, and that one's own if it says so. *)
Theorem fanout_report_exact pending message before w :
  Forall sink_ok (vf_sinks before) -> Forall sink_ok (pf_sinks pending) ->
  let '(r, w1) := append_bytes before pending message w in
  shows w [] w1 /\
  match r with
  | Err _ => True
  | Ok v =>
      length (vf_sinks v) = (length (vf_sinks before) + length (pf_sinks pending))%nat /\
      match commit_fanout v w1 with
      | (Ok report, w2) => shows w report w2 /\ length report = length (vf_sinks v)
      | (Err e, w2) => shows w (ce_published e) w2 /\ (ce_failed_index e < length (vf_sinks v))%nat /\
          length (ce_published e) = (ce_failed_index e + length (option_list (sce_published (ce_source e))))%nat
      end
  end.
Proof.
  intros Hb Hp. pose proof (append_bytes_shows before pending message w Hb Hp) as Ha. destruct (append_bytes _ _ _ _) as [[v|e] w1]; [|done].
  destruct Ha as (H1 & H2 & H3). split; [done|]. split; [done|]. unfold commit_fanout.
  pose proof (commit_sinks_shows (vf_sinks v) [] w w1 H3 H1) as Hc. destruct (commit_sinks [] (vf_sinks v) w1) as [[report|e] w2]; [done|].
  destruct Hc as (Hc1 & Hc2 & Hc3). cbn [length] in Hc2. split; [done|]. split; [lia|done].
Qed.
End fanout.

(** Sinks that add their path to a list, some of which fail before or after. *)
Inductive sample_sink := Works (path : bytes) | Fails (path : bytes) (published : bool).
Definition sample_error : SinkCommitError := before_publication (io_error EK_StorageFull []).
#[local] Instance sample_sinks : PendingSink (list PublishedDelivery) sample_sink := {|
  sink_write s l w := (Ok s, w);
  sink_flush s w := (Ok s, w);
  sink_commit s := Comp (fun w => match s with
    | Works path => (Ok {| pub_last_folder := path |}, w ++ [{| pub_last_folder := path |}])
    | Fails path true => (Err (after_publication (io_error EK_StorageFull []) {| pub_last_folder := path |}), w ++ [{| pub_last_folder := path |}])
    | Fails path false => (Err sample_error, w)
    end);
  sink_abort s := mret tt;
|}.
#[local] Instance sample_laws : SinkLaws (list PublishedDelivery) sample_sink sample_sinks.
Proof.
  refine {| sink_ok := fun _ => True; shows w l w' := w' = w ++ l |}.
  - intros w. by rewrite app_nil_r.
  - intros w1 w2 w3 l k -> ->. by rewrite app_assoc.
  - intros s l w _. cbn. by rewrite app_nil_r.
  - intros s w _. cbn. by rewrite app_nil_r.
  - intros s w _. cbn. by rewrite app_nil_r.
  - intros [path|path []] w _; cbn; by rewrite ?app_nil_r.
Defined.
Definition sample_fanout (last_works : bool) : PendingFanout :=
  {| pf_sinks := [Works (B "a"); Fails (B "b") last_works; Works (B "c")]; pf_failure := None |}.
#[local] Instance no_numbers : Platform :=
  {| errno_MFILE := 24; errno_EXIST := 17; errno_INTR := 4; errno_AGAIN := 11; errno_NOENT := 2; errno_kind := fun _ => EK_Other []; errno_text := fun _ => []; on_linux := false |}.
Lemma fanout_report_exact_witness :
  let '(r, w1) := append_bytes {| vf_sinks := [] |} (sample_fanout true) (B "text") [] in
  w1 = [] /\ match r with
  | Err _ => True
  | Ok v => match commit_fanout v w1 with (Ok report, w2) => w2 = report | (Err e, w2) => w2 = ce_published e end
  end.
Proof.
  pose proof (fanout_report_exact (sample_fanout true) (B "text") {| vf_sinks := [] |} [] (List.Forall_nil _)) as H.
  assert (Forall sink_ok (pf_sinks (sample_fanout true))) as Hok by (repeat constructor). specialize (H Hok).
  destruct (append_bytes _ _ _ _) as [[v|e] w1]; [|exact H]. destruct H as (H1 & _ & H2). split; [exact H1|].
  destruct (commit_fanout v w1) as [[report|e] w2]; exact (proj1 H2).
Defined.
