(* ===== verification/Identity.v ===== *)
(** Who runs the program and where: [src/src/user_identity.rs] and
    [src/src/hostname.rs].  What the C library answers is an interface; a pointer is
    an offset from the buffer it should point into. *)
From S2P Require Import Prelude Effects Numbers Utf8 Config Delivery.
#[local] Open Scope Z_scope.

(** * Hostnames *)

(** Source: hostname.rs `pub const MAX_HOSTNAME_LEN` *)
Definition MAX_HOSTNAME_LEN : nat := 255.
(** The error is its text.
    Source: hostname.rs `fn hostname_from_bytes` *)
Definition hostname_from_bytes (name : bytes) : result bytes bytes :=
  if bool_decide (name = []) then Err (B "current hostname is empty")
  else if (MAX_HOSTNAME_LEN <? length name)%nat then
    Err (B "current hostname exceeds the hard limit of " ++ decimal MAX_HOSTNAME_LEN ++ B " bytes")
  else if valid_utf8 name then Ok name else Err (B "current hostname is not valid UTF-8").
(** [nodename] is the name that [uname] gives.
    Source: hostname.rs `pub fn current_hostname` *)
Definition current_hostname (nodename : bytes) : result bytes bytes := hostname_from_bytes nodename.

(** * The user *)

(** Source: user_identity.rs:7-9 `INITIAL_PASSWD_BUFFER_SIZE, MAX_PASSWD_BUFFER_SIZE, MAX_IDENTITY_FIELD_SIZE` *)
Definition INITIAL_PASSWD_BUFFER_SIZE : Z := 1024.
Definition MAX_PASSWD_BUFFER_SIZE : Z := 64 * 1024.
Definition MAX_IDENTITY_FIELD_SIZE : nat := Z.to_nat 4096.
(** Source: user_identity.rs `pub struct UserIdentity` *)
Record UserIdentity := { id_uid : Z; id_logname : bytes; id_home : bytes }.
(** What [getpwuid_r] answers: a status, and for the status 0 no record, another
    record than the one it was given, or the buffer with the pointers to the name and
    to the directory. *)
Inductive PasswdAnswer := PW_Status (status : Z) | PW_None | PW_Elsewhere | PW_Record (buffer : bytes) (name dir : Z).

Section identity.
Context {T : Target} {P : Platform} (errno_RANGE : Z) (getuid : Z) (getpwuid : Z -> Z -> PasswdAnswer).

(** Source: user_identity.rs `fn copy_field` *)
Definition copy_field (buffer : bytes) (pointer : Z) (name : bytes) : result bytes bytes :=
  if negb (0 <=? pointer) || negb (pointer <? len buffer) then Err (B "passwd " ++ name ++ B " pointer is out of bounds")
  else
    let text := drop (Z.to_nat pointer) buffer in
    match position (fun b => b =? 0) text with
    | None => Err (B "passwd " ++ name ++ B " is not terminated")
    | Some length =>
        if (length =? 0)%nat then Err (B "passwd " ++ name ++ B " is empty")
        else if (MAX_IDENTITY_FIELD_SIZE <? length)%nat then
          Err (B "passwd " ++ name ++ B " exceeds the hard limit of " ++ decimal MAX_IDENTITY_FIELD_SIZE ++ B " bytes")
        else if valid_utf8 (take length text) then Ok (take length text) else Err (B "passwd " ++ name ++ B " is not valid UTF-8")
    end.
(** Rounds with a larger buffer each; [None] if they do not suffice.
    Source: user_identity.rs:28-80 `current (loop)` *)
Fixpoint identity_rounds (rounds : nat) (buffer_size : Z) : option (result bytes UserIdentity) :=
  match rounds with
  | O => None
  | S rounds =>
      match getpwuid getuid buffer_size with
      | PW_Status status =>
          if status =? errno_RANGE then
            let buffer_size := buffer_size * 2 in
            if usize_max <? buffer_size then Some (Err (B "passwd lookup buffer size overflows"))
            else if MAX_PASSWD_BUFFER_SIZE <? buffer_size then
              Some (Err (B "passwd lookup requires more than " ++ z_decimal MAX_PASSWD_BUFFER_SIZE ++ B " bytes"))
            else identity_rounds rounds buffer_size
          else Some (Err (B "cannot look up uid " ++ z_decimal getuid ++ B ": " ++ errno_text status))
      | PW_None => Some (Err (B "no passwd entry exists for uid " ++ z_decimal getuid))
      | PW_Elsewhere => Some (Err (B "passwd lookup returned an unexpected record pointer"))
      | PW_Record buffer name dir =>
          Some (logname ← copy_field buffer name (B "LOGNAME");
                home ← copy_field buffer dir (B "HOME");
                Ok {| id_uid := getuid; id_logname := logname; id_home := home |})
      end
  end.
(** The buffer grows from 1 to 64 KiB.
    Source: user_identity.rs `pub fn current()` *)
Definition current_identity : option (result bytes UserIdentity) := identity_rounds 7 INITIAL_PASSWD_BUFFER_SIZE.

(** What a field of an identity is. *)
Definition identity_field (l : bytes) : Prop := l <> [] /\ (length l <= MAX_IDENTITY_FIELD_SIZE)%nat /\ valid_utf8 l = true /\ 0 ∉ l.
Lemma copy_field_ok buffer pointer name l : copy_field buffer pointer name = Ok l -> identity_field l.
Proof.
  unfold copy_field. destruct (_ || _); [done|]. generalize (drop (Z.to_nat pointer) buffer). intros text. destruct (position _ _) as [n|] eqn:E; [|done].
  destruct (Nat.eqb_spec n 0); [done|]. destruct (Nat.ltb_spec MAX_IDENTITY_FIELD_SIZE n); [done|]. destruct (valid_utf8 _) eqn:Hu; [|done].
  intros [= <-]. apply position_Some in E as (pre & x & post & -> & <- & Hpre & _). rewrite take_app_length in *. split; [by intros ->|]. split; [lia|]. split; [exact Hu|].
  intros H0. eapply Forall_forall in Hpre; [|exact H0]. discriminate.
Qed.
Lemma identity_rounds_end rounds size :
  0 < size -> MAX_PASSWD_BUFFER_SIZE < size * 2 ^ Z.of_nat rounds -> (0 < rounds)%nat -> is_Some (identity_rounds rounds size).
Proof.
  revert size. induction rounds as [|rounds IH]; intros size Hs Hm Hr; [lia|]. cbn [identity_rounds].
  destruct (getpwuid getuid size); [|by eexists..]. destruct (_ =? _); [|by eexists]. destruct (_ <? _); [by eexists|].
  destruct (Z.ltb_spec MAX_PASSWD_BUFFER_SIZE (size * 2)); [by eexists|]. destruct rounds; [cbn in Hm; lia|].
  apply IH; [lia| |lia]. rewrite Nat2Z.inj_succ, Z.pow_succ_r in Hm by lia. lia.
Qed.

(** Whatever the C library answers, the lookup ends, and an identity it gives has a
    name and a directory that are text, not empty, within the limit and without a
    zero byte, also when the pointers it was given lead outside the buffer. *)
Theorem identity_sound :
  exists r, current_identity = Some r /\ forall identity, r = Ok identity -> identity_field (id_logname identity) /\ identity_field (id_home identity).
Proof.
  destruct (identity_rounds_end 7 INITIAL_PASSWD_BUFFER_SIZE) as [r E]; [done|done|lia|]. exists r. split; [exact E|]. revert E. unfold current_identity.
  generalize INITIAL_PASSWD_BUFFER_SIZE, 7%nat. intros size rounds. revert size. induction rounds as [|rounds IH]; intros size; cbn [identity_rounds]; [done|].
  destruct (getpwuid getuid size) as [status| | |buffer name dir]; [|by intros [= <-]..|].
  - destruct (_ =? _); [|by intros [= <-]]. destruct (_ <? _); [by intros [= <-]|]. destruct (_ <? _); [by intros [= <-]|]. apply IH.
  - intros [= <-] identity (logname & H1%copy_field_ok & (home & H2%copy_field_ok & [= <-])%result_bind_Ok)%result_bind_Ok. done.
Qed.
End identity.
