(* ===== verification/Trace.v ===== *)
(** Tracing: [src/src/trace.rs], [src/src/trace/schema.rs],
    [src/src/trace/render.rs] with its text and JSON renderers, and
    [src/src/trace/writer.rs].  An event is one bounded record; the writer renders
    it whole before the output sees any of it, and stops for good at the first
    limit or error. *)
From S2P Require Import Prelude Effects Numbers Config Utf8 Variables Runtime Settings Conditions Plan RcFile RuntimeRc Delivery.
#[local] Open Scope Z_scope.

(** A text in which an apostrophe stands for a double quote. *)
Definition J (s : Strings.String.string) : bytes := List.map (fun b => if b =? c_APOS then c_QUOTE else b) (B s).

(** * Events *)

(** Source: trace/schema.rs `pub const MAX_TRACE_EVENT_SIZE` *)
Definition MAX_TRACE_EVENT_SIZE : Z := 1024.
(** Source: trace/schema.rs `pub const MAX_TRACE_EVENTS` *)
Definition MAX_TRACE_EVENTS : Z := 16 * 1024.
(** Source: trace/schema.rs `pub const MAX_TRACE_BYTES` *)
Definition MAX_TRACE_BYTES : Z := 1024 * 1024.
(** Source: trace/schema.rs `pub const MAX_TRACE_VALUE_SIZE` *)
Definition MAX_TRACE_VALUE_SIZE : nat := Z.to_nat 256.

(** Source: trace/schema.rs `pub enum RcFileStage` *)
Inductive RcFileStage := RS_Loaded | RS_Empty | RS_Failed.
(** Source: trace/schema.rs `pub(super) fn name(self)` *)
Definition rc_stage_name (s : RcFileStage) : bytes := match s with RS_Loaded => B "loaded" | RS_Empty => B "empty" | RS_Failed => B "failed" end.
(** Source: trace/schema.rs `pub enum LogAbstractMode` *)
Inductive LogAbstractMode := LA_No | LA_Yes | LA_All.
#[export] Instance LogAbstractMode_eq_dec : EqDecision LogAbstractMode.
Proof. solve_decision. Defined.
(** Source: trace/schema.rs `pub fn parse(value: &str) -> Option<Self>` *)
Definition parse_log_abstract (value : bytes) : option LogAbstractMode :=
  if bytes_eqb value (B "no") then Some LA_No else if bytes_eqb value (B "yes") then Some LA_Yes
  else if bytes_eqb value (B "all") then Some LA_All else None.
(** Source: trace/schema.rs `pub fn includes_variable_values` *)
Definition includes_variable_values (d : TraceDetail) : bool := match d with Values_ => true | Metadata => false end.
(** Source: trace/schema.rs `pub enum TraceFormat` *)
Inductive TraceFormat := TF_Text | TF_Json.
#[export] Instance TraceFormat_eq_dec : EqDecision TraceFormat.
Proof. solve_decision. Defined.

(** Source: trace/schema.rs `pub struct TraceValue` *)
Record TraceValue := { tv_bytes : bytes; tv_truncated : bool }.
(** Source: trace/schema.rs `pub fn new(value: &[u8])` *)
Definition trace_value (value : bytes) : TraceValue :=
  let length_ := Nat.min (length value) MAX_TRACE_VALUE_SIZE in
  {| tv_bytes := take length_ value; tv_truncated := (length_ <? length value)%nat |}.
(** Source: trace/schema.rs `pub fn new(name: &str)` *)
Definition trace_name (name : bytes) : option bytes :=
  if (MAX_ASSIGNMENT_NAME_LEN <? len name) || negb (valid_name name) then None else Some name.

(** Source: trace/schema.rs `pub enum HeaderOperationKind` *)
Inductive HeaderOperationKind := HK_Remove | HK_Set | HK_Add | HK_Prepend | HK_Rename | HK_Extract | HK_Keywords | HK_Priority | HK_Status.
(** Source: trace/schema.rs `pub enum ConditionKind` *)
Inductive ConditionKind :=
| TK_ShellExpanded | TK_HeaderRegex | TK_BodyRegex | TK_MessageRegex | TK_VariableRegex | TK_Address | TK_Identifier | TK_Keyword
| TK_Multipart | TK_Program | TK_SmallerThan | TK_LargerThan.
(** Source: trace/schema.rs `pub enum RecipeDecision` *)
Inductive RecipeDecision := RD_Selected | RD_Deferred | RD_Skipped.
(** Source: trace/schema.rs `pub enum FailureClass` *)
Inductive FailureClass := FC_InputLimit | FC_Transient | FC_Permanent | FC_Internal.
(** Source: trace/schema.rs `pub enum DeliveryStage` *)
Inductive DeliveryStage := DS_Preparing | DS_DryRun | DS_Published | DS_Failed (class : FailureClass) | DS_Failure (failure : DeliveryFailure).
(** Source: trace/schema.rs `pub enum ExternalCommandStage` *)
Inductive ExternalCommandStage := EC_Starting | EC_Succeeded | EC_Failed (class : FailureClass).

(** The kind of a destination is that of the configuration.
    Source: trace/schema.rs `pub enum TraceEvent` *)
Inductive TraceEvent :=
| TE_RcFile (line : nat) (statement : RcStatementKind) (stage : RcFileStage) (target : option TraceValue)
| TE_SessionStarted (pid : Z) (timestamp : bytes)
| TE_VariableAssigned (line : option nat) (name : bytes) (source : VariableSource) (value : option TraceValue)
| TE_VariableUnset (line : option nat) (name : bytes) (source : VariableSource)
| TE_LastFolderUpdated
| TE_ConditionEvaluated (recipe_line condition_line condition_index : nat) (kind : ConditionKind) (negated matched : bool) (expression : option TraceValue)
| TE_RecipeEvaluated (line : nat) (decision : RecipeDecision)
| TE_Delivery (recipe_line : nat) (destination : DestinationKind) (stage : DeliveryStage) (path : option TraceValue)
| TE_ExternalCommand (recipe_line : nat) (stage : ExternalCommandStage)
| TE_ExternalCommandExecuting (line : nat) (command : option TraceValue)
| TE_ExternalFilterReplaced (recipe_line size : nat)
| TE_HeaderOperation (line : nat) (kind : HeaderOperationKind) (name : bytes) (argument : option bytes) (mode : option HeaderExtractionMode)
| TE_Log (line : nat) (value : TraceValue)
| TE_DeliveryAbstract (recipe_line : nat) (destination : DestinationKind) (path : option TraceValue).

(** Source: trace/schema.rs `fn source_line` *)
Definition source_line (e : TraceEvent) : option nat :=
  match e with
  | TE_VariableAssigned line _ _ _ | TE_VariableUnset line _ _ => line
  | TE_ConditionEvaluated _ condition_line _ _ _ _ _ => Some condition_line
  | TE_RecipeEvaluated line _ | TE_ExternalCommandExecuting line _ | TE_HeaderOperation line _ _ _ _ | TE_Log line _ | TE_RcFile line _ _ _ => Some line
  | TE_Delivery line _ _ _ | TE_ExternalCommand line _ | TE_ExternalFilterReplaced line _ | TE_DeliveryAbstract line _ _ => Some line
  | TE_SessionStarted _ _ | TE_LastFolderUpdated => None
  end.
(** Source: trace/schema.rs `pub struct TraceRecord` *)
Record TraceRecord := { tr_event : TraceEvent; tr_location : SourceLocation }.
Definition unknown_location (line : nat) : SourceLocation := {| loc_line := line; loc_file := None; loc_truncated := false |}.
(** Source: trace/schema.rs `impl From<TraceEvent> for TraceRecord` *)
Definition of_event (e : TraceEvent) : TraceRecord := {| tr_event := e; tr_location := unknown_location (default 0%nat (source_line e)) |}.
(** Source: source_location.rs `pub(crate) fn for_trace` *)
Definition for_trace (values : bool) (l : SourceLocation) : SourceLocation :=
  match loc_file l with
  | Some file =>
      if negb values then unknown_location (loc_line l)
      else if (length file <=? MAX_TRACE_VALUE_SIZE)%nat then l
      else
        let length_ := char_boundary file (Nat.min (length file) MAX_TRACE_VALUE_SIZE) in
        {| loc_line := loc_line l; loc_file := Some (take length_ file); loc_truncated := loc_truncated l || (length_ <? length file)%nat |}
  | None => unknown_location (loc_line l)
  end.
(** Source: trace/schema.rs `pub fn at(self` *)
Definition event_at (e : TraceEvent) (l : SourceLocation) (detail : TraceDetail) : TraceRecord :=
  {| tr_event := e; tr_location := for_trace (includes_variable_values detail) (at_line l (default (loc_line l) (source_line e))) |}.

(** The events of a header action: values are never among them.
    Source: trace.rs `pub fn record_header_action` *)
Definition header_operation_event (op : HeaderOperation) : TraceEvent :=
  match op with
  | HO_Remove line name => TE_HeaderOperation line HK_Remove name None None
  | HO_Set line name _ => TE_HeaderOperation line HK_Set name None None
  | HO_Add line name _ => TE_HeaderOperation line HK_Add name None None
  | HO_Prepend line name _ => TE_HeaderOperation line HK_Prepend name None None
  | HO_Rename line from to => TE_HeaderOperation line HK_Rename from (Some to) None
  | HO_Extract line name target mode => TE_HeaderOperation line HK_Extract name (Some target) (Some mode)
  | HO_Keywords line mode =>
      TE_HeaderOperation line HK_Keywords (B "Keywords,X-Label,X-Keywords")
        (Some match mode with KM_Add _ => B "add" | KM_Remove _ => B "remove" | KM_Set _ => B "set" | KM_Clear => B "clear" end) None
  | HO_Priority line mode =>
      TE_HeaderOperation line HK_Priority (B "Importance,Priority,X-Priority")
        (Some match mode with PM_High => B "high" | PM_Normal => B "normal" | PM_Low => B "low" | PM_Clear => B "clear" end) None
  | HO_Status line mode =>
      TE_HeaderOperation line HK_Status (B "Status,X-Status")
        (Some match mode with SM_Add _ => B "add" | SM_Remove _ => B "remove" | SM_Set _ => B "set" | SM_Clear => B "clear" end) None
  end.

(** * Rendering *)

(** [{byte:02x}] *)
Definition hex_digit (n : Z) : byte := if n <? 10 then 48 + n else 87 + n.
Definition hex2 (b : byte) : bytes := [hex_digit (b / 16); hex_digit (b mod 16)].
Definition is_printable (b : byte) : bool := between 32 126 b.

Definition escaped_byte (b : byte) : bytes :=
  if b =? c_LF then [c_BSLASH; 110] else if b =? c_CR then [c_BSLASH; 114] else if b =? c_TAB then [c_BSLASH; 116]
  else if (b =? c_BSLASH) || (b =? c_APOS) || (b =? c_QUOTE) then [c_BSLASH; b]
  else if is_printable b then [b] else [c_BSLASH; 120] ++ hex2 b.
(** Source: trace/render.rs `impl fmt::Display for EscapedBytes` *)
Definition escaped_bytes (l : bytes) : bytes := flat_map escaped_byte l.
Definition json_byte (b : byte) : bytes :=
  if (b =? c_QUOTE) || (b =? c_BSLASH) then [c_BSLASH; b]
  else if b =? c_LF then [c_BSLASH; 110] else if b =? c_CR then [c_BSLASH; 114] else if b =? c_TAB then [c_BSLASH; 116]
  else if is_printable b then [b] else [c_BSLASH; 117; 48; 48] ++ hex2 b.
(** Source: trace/render/json.rs `pub(super) fn render_json_string` *)
Definition json_string (l : bytes) : bytes := [c_QUOTE] ++ flat_map json_byte l ++ [c_QUOTE].

(** Source: trace/render.rs `fn header_extraction_mode_name` *)
Definition header_extraction_mode_name (m : HeaderExtractionMode) : bytes :=
  match m with EM_Raw => B "raw" | EM_Unfolded => B "unfolded" | EM_Decoded => B "decoded" end.
(** Source: trace/render.rs `fn failure_class_name` *)
Definition failure_class_name (c : FailureClass) : bytes :=
  match c with FC_InputLimit => B "input-limit" | FC_Transient => B "transient" | FC_Permanent => B "permanent" | FC_Internal => B "internal" end.
(** Source: trace/render.rs `fn delivery_failure_class_name` *)
Definition delivery_failure_class_name (c : DeliveryFailureClass) : bytes :=
  match c with Retryable => B "transient" | Permanent => B "permanent" | Internal => B "internal" end.

(** ** JSON *)

(** Source: trace/render/json.rs `fn header_operation_kind_name` *)
Definition header_operation_kind_name (k : HeaderOperationKind) : bytes :=
  match k with
  | HK_Remove => B "remove" | HK_Set => B "set" | HK_Add => B "add" | HK_Prepend => B "prepend" | HK_Rename => B "rename" | HK_Extract => B "extract"
  | HK_Keywords => B "keywords" | HK_Priority => B "priority" | HK_Status => B "status"
  end.
(** Source: trace/render/json.rs `fn condition_kind_name` *)
Definition condition_kind_name (k : ConditionKind) : bytes :=
  match k with
  | TK_ShellExpanded => B "shell-expanded" | TK_HeaderRegex => B "header-regex" | TK_BodyRegex => B "body-regex" | TK_MessageRegex => B "message-regex"
  | TK_VariableRegex => B "variable-regex" | TK_Address => B "address" | TK_Identifier => B "identifier" | TK_Keyword => B "keyword"
  | TK_Multipart => B "multipart" | TK_Program => B "program" | TK_SmallerThan => B "smaller-than" | TK_LargerThan => B "larger-than"
  end.
(** Source: trace/render/json.rs `fn variable_source_name` *)
Definition variable_source_name (s : VariableSource) : bytes :=
  match s with
  | VS_RcFile => B "rc-file" | VS_CommandLine => B "command-line" | VS_Environment => B "environment" | VS_System => B "system" | VS_Runtime => B "runtime"
  end.
(** Source: trace/render/json.rs `fn recipe_decision_name` *)
Definition recipe_decision_name (d : RecipeDecision) : bytes := match d with RD_Selected => B "selected" | RD_Deferred => B "deferred" | RD_Skipped => B "skipped" end.
(** Source: trace/render/json.rs `fn destination_kind_name` *)
Definition destination_kind_name (k : DestinationKind) : bytes :=
  match k with DK_Maildir => B "maildir" | DK_Mbox => B "mbox" | DK_File => B "file" | DK_Discard => B "discard" end.
Definition json_bool (b : bool) : bytes := if b then B "true" else B "false".
(** Source: trace/render/json.rs `fn render_delivery_stage` *)
Definition render_delivery_stage (s : DeliveryStage) : bytes :=
  match s with
  | DS_Preparing => B "preparing" | DS_DryRun => B "dry-run" | DS_Published => B "published"
  | DS_Failure f =>
      B "failed failure_class=" ++ delivery_failure_class_name (df_class f) ++ B " reason=" ++ error_kind_text (df_kind f) ++
      B " operation=" ++ operation_name (df_operation f) ++ B " published=" ++ json_bool (df_published f)
  | DS_Failed class => B "failed failure_class=" ++ failure_class_name class
  end.
(** Source: trace/render/json.rs `fn render_external_stage` *)
Definition render_external_stage (s : ExternalCommandStage) : bytes :=
  match s with EC_Starting => B "starting" | EC_Succeeded => B "succeeded" | EC_Failed class => B "failed failure_class=" ++ failure_class_name class end.
Definition json_value (key : Strings.String.string) (truncated : Strings.String.string) (v : option TraceValue) : bytes :=
  match v with Some v => J key ++ json_string (tv_bytes v) ++ J truncated ++ json_bool (tv_truncated v) | None => [] end.

(** The text of an event is the pieces the code writes, one after the other.
    Source: trace/render/json.rs `pub(super) fn render_json_event` *)
Definition render_json_event (e : TraceEvent) : bytes :=
  match e with
  | TE_RcFile line statement stage target =>
      J "{'event':'rc-file','line':" ++ decimal line ++ J ",'statement':'" ++ statement_name statement ++ J "','stage':'" ++ rc_stage_name stage ++ J "'" ++
      json_value ",'target':" ",'target_truncated':" target ++ J "}"
  | TE_SessionStarted pid timestamp =>
      J "{'event':'session-start','pid':" ++ z_decimal pid ++ J ",'timestamp':" ++ json_string timestamp ++ J "}"
  | TE_VariableAssigned line name source value =>
      J "{'event':'variable-assigned','line':" ++ decimal (default 0%nat line) ++ J ",'name':" ++ json_string name ++
      J ",'source':'" ++ variable_source_name source ++ J "'" ++ json_value ",'value':" ",'value_truncated':" value ++ J "}"
  | TE_VariableUnset line name source =>
      J "{'event':'variable-unset','line':" ++ decimal (default 0%nat line) ++ J ",'name':" ++ json_string name ++
      J ",'source':'" ++ variable_source_name source ++ J "'}"
  | TE_LastFolderUpdated => J "{'event':'last-folder-updated'}"
  | TE_ConditionEvaluated recipe_line condition_line condition_index kind negated matched expression =>
      J "{'event':'condition','recipe_line':" ++ decimal recipe_line ++ J ",'condition_line':" ++ decimal condition_line ++
      J ",'condition_index':" ++ decimal condition_index ++ J ",'kind':'" ++ condition_kind_name kind ++ J "','negated':" ++ json_bool negated ++
      J ",'matched':" ++ json_bool matched ++ json_value ",'expression':" ",'expression_truncated':" expression ++ J "}"
  | TE_RecipeEvaluated line decision =>
      J "{'event':'recipe','line':" ++ decimal line ++ J ",'decision':'" ++ recipe_decision_name decision ++ J "'}"
  | TE_Delivery recipe_line destination stage path =>
      J "{'event':'delivery','recipe_line':" ++ decimal recipe_line ++ J ",'destination':'" ++ destination_kind_name destination ++ J "','stage':'" ++
      match stage with
      | DS_Failure f =>
          J "failed','failure_class':'" ++ delivery_failure_class_name (df_class f) ++ J "','reason':'" ++ error_kind_text (df_kind f) ++
          J "','operation':'" ++ operation_name (df_operation f) ++ J "','published':" ++ json_bool (df_published f)
      | stage => render_delivery_stage stage ++ J "'"
      end ++ json_value ",'path':" ",'path_truncated':" path ++ J "}"
  | TE_ExternalCommand recipe_line stage =>
      J "{'event':'external-command','recipe_line':" ++ decimal recipe_line ++ J ",'stage':'" ++ render_external_stage stage ++ J "'}"
  | TE_ExternalCommandExecuting line command =>
      J "{'event':'external-command-executing','line':" ++ decimal line ++ json_value ",'command':" ",'command_truncated':" command ++ J "}"
  | TE_ExternalFilterReplaced recipe_line size =>
      J "{'event':'external-filter-replaced','recipe_line':" ++ decimal recipe_line ++ J ",'bytes':" ++ decimal size ++ J "}"
  | TE_HeaderOperation line kind name argument mode =>
      J "{'event':'header-operation','line':" ++ decimal line ++ J ",'operation':'" ++ header_operation_kind_name kind ++ J "','name':" ++ json_string name ++
      match argument with Some a => J ",'argument':" ++ json_string a | None => [] end ++
      match mode with Some m => J ",'extraction_mode':'" ++ header_extraction_mode_name m ++ J "'" | None => [] end ++ J "}"
  | TE_Log line value => J "{'event':'log','line':" ++ decimal line ++ json_value ",'value':" ",'value_truncated':" (Some value) ++ J "}"
  | TE_DeliveryAbstract recipe_line destination path =>
      J "{'event':'delivery-abstract','recipe_line':" ++ decimal recipe_line ++ J ",'destination':'" ++ destination_kind_name destination ++ J "'" ++
      json_value ",'path':" ",'path_truncated':" path ++ J "}"
  end.

(** ** Text *)

(** Source: trace/render/text.rs `fn human_header_operation` *)
Definition human_header_operation (k : HeaderOperationKind) : bytes :=
  match k with
  | HK_Remove => B "Removing" | HK_Set => B "Setting" | HK_Add => B "Adding" | HK_Prepend => B "Prepending" | HK_Rename => B "Renaming"
  | HK_Extract => B "Extracting" | HK_Keywords => B "Updating keywords" | HK_Priority => B "Updating priority" | HK_Status => B "Updating status"
  end.
(** Source: trace/render/text.rs `fn human_condition_kind` *)
Definition human_condition_kind (k : ConditionKind) : bytes :=
  match k with
  | TK_ShellExpanded => B "expanded condition" | TK_HeaderRegex => B "header regular expression" | TK_BodyRegex => B "body regular expression"
  | TK_MessageRegex => B "message regular expression" | TK_VariableRegex => B "variable regular expression"
  | TK_Address => B "address regular expression" | TK_Identifier => B "identifier regular expression" | TK_Keyword => B "keyword regular expression"
  | TK_Multipart => B "multipart part regular expression" | TK_Program => B "external program"
  | TK_SmallerThan => B "message size is smaller than" | TK_LargerThan => B "message size is larger than"
  end.
(** Source: trace/render/text.rs `fn human_destination_kind` *)
Definition human_destination_kind (k : DestinationKind) : bytes :=
  match k with DK_Maildir => B "Maildir" | DK_Mbox => B "mbox" | DK_File => B "file" | DK_Discard => B "/dev/null" end.

Definition quoted_value (v : TraceValue) : bytes := J "'" ++ escaped_bytes (tv_bytes v) ++ J "'".
Definition quoted_path (before : Strings.String.string) (v : option TraceValue) : bytes := match v with Some v => B before ++ quoted_value v | None => [] end.
Definition at_recipe (line : nat) : bytes := B " (recipe at line " ++ decimal line ++ B ")".
Definition recipe_at (line : nat) : bytes := B "procmail-rs: Recipe at line " ++ decimal line.

(** Source: trace/render/text.rs:113-173 `render_human_event (Delivery)` *)
Definition human_delivery (line : nat) (destination : DestinationKind) (stage : DeliveryStage) (path : option TraceValue) : bytes :=
  match stage with
  | DS_DryRun => B "procmail-rs: Would deliver to " ++ human_destination_kind destination ++ quoted_path " " path ++ at_recipe line
  | DS_Preparing => recipe_at line ++ B ": preparing " ++ human_destination_kind destination ++ B " delivery"
  | DS_Published => B "procmail-rs: Delivered to " ++ human_destination_kind destination ++ quoted_path " " path ++ at_recipe line
  | DS_Failure f =>
      recipe_at line ++ B ": " ++ human_destination_kind destination ++ B " delivery failed while " ++ operation_description (df_operation f) ++
      quoted_path " for " path ++ B ": " ++ error_kind_text (df_kind f) ++ B " (" ++ delivery_failure_class_name (df_class f) ++
      (if df_published f then B "; message already published" else []) ++ B ")"
  | DS_Failed class => recipe_at line ++ B ": " ++ human_destination_kind destination ++ B " delivery failed (" ++ failure_class_name class ++ B ")"
  end.
(** Source: trace/render/text.rs:196-225 `render_human_event (HeaderOperation)` *)
Definition human_operation (line : nat) (kind : HeaderOperationKind) (name : bytes) (argument : option bytes) (mode : option HeaderExtractionMode) : bytes :=
  B "procmail-rs: " ++ human_header_operation kind ++ B " header " ++ J "'" ++ name ++ J "'" ++
  match argument with
  | Some argument =>
      match kind with
      | HK_Rename => B " to " ++ J "'" ++ argument ++ J "'"
      | HK_Extract => B " into " ++ J "'" ++ argument ++ J "'"
      | HK_Keywords | HK_Priority | HK_Status => B " (" ++ argument ++ B ")"
      | _ => []
      end
  | None => []
  end ++
  match mode with Some m => B " (" ++ header_extraction_mode_name m ++ B ")" | None => [] end ++ B " at line " ++ decimal line.

(** A log record is the text itself, when it is one.
    Source: trace/render/text.rs `pub(super) fn render_human_event` *)
Definition render_human_event (e : TraceEvent) : option bytes :=
  match e with
  | TE_RcFile line statement stage target =>
      Some (B "procmail-rs: " ++ statement_name statement ++ B " at line " ++ decimal line ++ B ": " ++ rc_stage_name stage ++
        match target with Some v => B " " ++ quoted_value v ++ (if tv_truncated v then B " [truncated]" else []) | None => [] end)
  | TE_SessionStarted pid timestamp => Some (B "procmail-rs: [" ++ z_decimal pid ++ B "] " ++ timestamp)
  | TE_VariableAssigned line name _ value =>
      Some (match line with
            | Some line => B "procmail-rs: Assigning at line " ++ decimal line ++ B " " ++ J "'" ++ name
            | None => B "procmail-rs: Assigning " ++ J "'" ++ name
            end ++
            match value with
            | Some v => B "=" ++ escaped_bytes (tv_bytes v) ++ J "'" ++ (if tv_truncated v then B " (truncated)" else [])
            | None => J "' (value hidden)"
            end)
  | TE_VariableUnset line name _ =>
      Some match line with
           | Some line => B "procmail-rs: Unsetting at line " ++ decimal line ++ B " " ++ J "'" ++ name ++ J "'"
           | None => B "procmail-rs: Unsetting " ++ J "'" ++ name ++ J "'"
           end
  | TE_LastFolderUpdated => Some (B "procmail-rs: Updated LASTFOLDER")
  | TE_ConditionEvaluated recipe_line condition_line condition_index kind negated matched expression =>
      Some (B "procmail-rs: " ++ (if matched then B "Match" else B "No match") ++ B " on line " ++ decimal condition_line ++
        match expression with
        | Some v => B " on " ++ quoted_value v
        | None => B " (condition " ++ decimal (condition_index + 1) ++ B " of recipe at line " ++ decimal recipe_line ++ B ": " ++ human_condition_kind kind ++
                  (if negated then B ", negated" else []) ++ B ")"
        end)
  | TE_RecipeEvaluated line decision =>
      Some (recipe_at line ++ B ": " ++ match decision with RD_Selected => B "selected" | RD_Deferred => B "waiting for more message data" | RD_Skipped => B "skipped" end)
  | TE_Delivery recipe_line destination stage path => Some (human_delivery recipe_line destination stage path)
  | TE_ExternalCommand recipe_line stage =>
      Some (recipe_at recipe_line ++ B ": external command " ++ match stage with EC_Starting => B "started" | EC_Succeeded => B "succeeded" | EC_Failed _ => B "failed" end)
  | TE_ExternalCommandExecuting line command =>
      Some (B "procmail-rs: Executing at line " ++ decimal line ++ match command with Some v => B " " ++ quoted_value v | None => B " external command" end)
  | TE_ExternalFilterReplaced recipe_line size =>
      Some (B "procmail-rs: Filter at line " ++ decimal recipe_line ++ B " replaced message: " ++ decimal size ++ B " bytes")
  | TE_HeaderOperation line kind name argument mode => Some (human_operation line kind name argument mode)
  | TE_Log _ value => if valid_utf8 (tv_bytes value) then Some (tv_bytes value ++ if tv_truncated value then B "...[truncated]" else []) else None
  | TE_DeliveryAbstract recipe_line destination path =>
      Some (B "procmail-rs: Abstract: delivered to " ++ human_destination_kind destination ++ quoted_path " " path ++ at_recipe recipe_line)
  end.

(** ** Records *)

Definition is_log (e : TraceEvent) : bool := match e with TE_Log _ _ => true | _ => false end.
(** [write_str] of a bounded text: what does not fit is an error.
    Source: trace/render.rs `impl fmt::Write for BoundedText` *)
Definition bounded_write (limit : Z) (output value : bytes) : option bytes :=
  if limit <? len (output ++ value) then None else Some (output ++ value).
(** Where the text ends with a brace, it is taken off and the file goes before
    it.
    Source: trace/render.rs `fn render_source_location` *)
Definition render_source_location (limit : Z) (output : bytes) (format : TraceFormat) (l : SourceLocation) (e : TraceEvent) : option bytes :=
  match loc_file l with
  | None => Some output
  | Some file =>
      match format with
      | TF_Json =>
          if bool_decide (last output = Some 125) then
            bounded_write limit (removelast output)
              (J ",'rc_file':" ++ json_string file ++ (if loc_truncated l then J ",'rc_file_truncated':true" else []) ++ J "}")
          else None
      | TF_Text =>
          if is_log e then Some output
          else bounded_write limit output
                 (J " [rc '" ++ escaped_bytes file ++ J "'" ++ (if loc_truncated l then B " [truncated]" else []) ++ B ":" ++ decimal (loc_line l) ++ B "]")
      end
  end.
(** Source: trace/render.rs `pub(super) fn includes` *)
Definition format_includes (format : TraceFormat) (e : TraceEvent) : bool :=
  match format, e with TF_Text, TE_RecipeEvaluated _ _ | TF_Text, TE_LastFolderUpdated => false | _, _ => true end.
(** Source: trace/render.rs `pub(super) fn render_record` *)
Definition render_record (r : TraceRecord) (format : TraceFormat) : option bytes :=
  let e := tr_event r in
  text ← match format with TF_Json => Some (render_json_event e) | TF_Text => render_human_event e end;
  output ← bounded_write MAX_TRACE_EVENT_SIZE [] text;
  output ← render_source_location MAX_TRACE_EVENT_SIZE output format (tr_location r) e;
  if bool_decide (format = TF_Json) || negb (is_log e) then bounded_write MAX_TRACE_EVENT_SIZE output [c_LF] else Some output.

(** * The writer *)

(** Source: trace/writer.rs `pub enum TraceStopReason` *)
Inductive TraceStopReason := TS_EventSizeLimit | TS_EventLimit | TS_ByteLimit | TS_Io (kind : ErrorKind).

Section writer.
(** The output: what a record does to it. *)
Context {W : Type} (output_write : bytes -> W -> option ErrorKind * W).

(** Source: trace/writer.rs `pub struct BoundedTraceWriter` *)
Record BoundedTraceWriter := {
  tw_writer : W; tw_events : Z; tw_bytes : Z; tw_stopped : option TraceStopReason; tw_detail : TraceDetail; tw_format : TraceFormat;
  tw_verbose : bool; tw_abstract : LogAbstractMode; tw_last : option TraceRecord;
}.
(** Source: trace/writer.rs `pub fn runtime_formatted` *)
Definition runtime_formatted (w : W) (detail : TraceDetail) (format : TraceFormat) (verbose : bool) (mode : LogAbstractMode) : BoundedTraceWriter := {|
  tw_writer := w; tw_events := 0; tw_bytes := 0; tw_stopped := None; tw_detail := detail; tw_format := format; tw_verbose := verbose;
  tw_abstract := mode; tw_last := None |}.

Definition tw_stop (reason : TraceStopReason) (w : W) (t : BoundedTraceWriter) : BoundedTraceWriter := {|
  tw_writer := w; tw_events := tw_events t; tw_bytes := tw_bytes t; tw_stopped := Some reason; tw_detail := tw_detail t; tw_format := tw_format t;
  tw_verbose := tw_verbose t; tw_abstract := tw_abstract t; tw_last := tw_last t |}.
Definition tw_wrote (w : W) (total : Z) (t : BoundedTraceWriter) : BoundedTraceWriter := {|
  tw_writer := w; tw_events := tw_events t + 1; tw_bytes := total; tw_stopped := tw_stopped t; tw_detail := tw_detail t; tw_format := tw_format t;
  tw_verbose := tw_verbose t; tw_abstract := tw_abstract t; tw_last := tw_last t |}.
Definition tw_modes (verbose : bool) (mode : LogAbstractMode) (last : option TraceRecord) (t : BoundedTraceWriter) : BoundedTraceWriter := {|
  tw_writer := tw_writer t; tw_events := tw_events t; tw_bytes := tw_bytes t; tw_stopped := tw_stopped t; tw_detail := tw_detail t;
  tw_format := tw_format t; tw_verbose := verbose; tw_abstract := mode; tw_last := last |}.

(** Source: trace/writer.rs `fn write_event` *)
Definition write_event (r : TraceRecord) (t : BoundedTraceWriter) : BoundedTraceWriter :=
  match tw_stopped t with
  | Some _ => t
  | None =>
      if negb (format_includes (tw_format t) (tr_event r)) then t
      else if MAX_TRACE_EVENTS <=? tw_events t then tw_stop TS_EventLimit (tw_writer t) t
      else
        match render_record r (tw_format t) with
        | None => tw_stop TS_EventSizeLimit (tw_writer t) t
        | Some rendered =>
            let total := tw_bytes t + len rendered in
            if MAX_TRACE_BYTES <? total then tw_stop TS_ByteLimit (tw_writer t) t
            else
              match output_write rendered (tw_writer t) with
              | (Some kind, w) => tw_stop (TS_Io kind) w t
              | (None, w) => tw_wrote w total t
              end
        end
  end.
(** Source: trace/writer.rs `fn record(&mut self` *)
Definition trace_record (r : TraceRecord) (t : BoundedTraceWriter) : BoundedTraceWriter :=
  let r := {| tr_event := tr_event r; tr_location := for_trace (includes_variable_values (tw_detail t)) (tr_location r) |} in
  let t :=
    match tr_event r with
    | TE_Delivery recipe_line destination DS_Published path =>
        let abstract := {| tr_event := TE_DeliveryAbstract recipe_line destination path; tr_location := tr_location r |} in
        match tw_abstract t with
        | LA_No => t
        | LA_Yes => tw_modes (tw_verbose t) (tw_abstract t) (Some abstract) t
        | LA_All => write_event abstract t
        end
    | _ => t
    end in
  if negb (tw_verbose t) && negb (is_log (tr_event r)) then t else write_event r t.
(** Source: trace/writer.rs `fn set_verbose` *)
Definition set_verbose (enabled : bool) (t : BoundedTraceWriter) : BoundedTraceWriter := tw_modes enabled (tw_abstract t) (tw_last t) t.
(** Source: trace/writer.rs `fn set_log_abstract` *)
Definition set_log_abstract (mode : LogAbstractMode) (t : BoundedTraceWriter) : BoundedTraceWriter := tw_modes (tw_verbose t) mode None t.
(** Source: trace/writer.rs `fn finish(&mut self)` *)
Definition trace_finish (t : BoundedTraceWriter) : BoundedTraceWriter :=
  if negb (bool_decide (tw_abstract t = LA_Yes)) then t
  else match tw_last t with Some r => write_event r (tw_modes (tw_verbose t) (tw_abstract t) None t) | None => t end.
(** Source: trace.rs `fn record_at` *)
Definition record_at (l : SourceLocation) (e : TraceEvent) (t : BoundedTraceWriter) : BoundedTraceWriter := trace_record (event_at e l (tw_detail t)) t.
End writer.
