(* ===== verification/TraceFacts.v ===== *)
(** Facts about tracing ([Trace]): a record is one line of printable characters
    within its limit, an escaped value can be read back and cannot end the string
    it is in, and the output as a whole stays within its budget. *)
From S2P Require Import Prelude Effects Numbers Config Utf8 Variables Runtime Settings Conditions Plan RcFile RuntimeRc Delivery Trace.
#[local] Open Scope Z_scope.

(** * Printable text *)

Abbreviation printable l := (forallb is_printable l = true) (only parsing).

Lemma printable_app a b : printable (a ++ b) <-> printable a /\ printable b.
Proof. rewrite forallb_app. by rewrite andb_true_iff. Qed.
Lemma printable_digits l : forallb is_ascii_digit l = true -> printable l.
Proof. rewrite !forallb_forall. intros H b Hb. specialize (H b Hb). unfold is_ascii_digit, is_printable, between in *. lia. Qed.
Lemma printable_decimal n : printable (decimal n).
Proof. apply printable_digits, decimal_digits. Qed.

(** Bytes are what a byte can be. *)
Definition are_bytes (l : bytes) : Prop := Forall (fun b => 0 <= b < 256) l.
Lemma hex_printable n : 0 <= n < 16 -> is_printable (hex_digit n) = true.
Proof. unfold hex_digit, is_printable, between. intros. destruct (Z.ltb_spec n 10); lia. Qed.
Lemma hex2_printable b : 0 <= b < 256 -> printable (hex2 b).
Proof.
  intros. cbn [hex2 forallb]. rewrite !hex_printable; [done|pose proof (Z.mod_pos_bound b 16); lia|].
  split; [apply Z.div_pos; lia|apply Z.div_lt_upper_bound; lia].
Qed.

Ltac eqb_cases := repeat match goal with |- context [if ?b =? ?k then _ else _] => destruct (Z.eqb_spec b k) as [->|]; [done|] end.
Lemma escaped_byte_printable b : 0 <= b < 256 -> printable (escaped_byte b).
Proof.
  intros. unfold escaped_byte. eqb_cases. destruct (_ || _) eqn:Hq.
  - rewrite !orb_true_iff, !Z.eqb_eq in Hq. by destruct Hq as [[->| ->]| ->].
  - destruct (is_printable b) eqn:Hb; [cbn; by rewrite Hb|]. apply printable_app. split; [done|by apply hex2_printable].
Qed.
Lemma json_byte_printable b : 0 <= b < 256 -> printable (json_byte b).
Proof.
  intros. unfold json_byte. destruct (_ || _) eqn:Hq; [rewrite orb_true_iff, !Z.eqb_eq in Hq; by destruct Hq as [->| ->]|].
  eqb_cases. destruct (is_printable b) eqn:Hb; [cbn; by rewrite Hb|]. apply printable_app. split; [done|by apply hex2_printable].
Qed.
Lemma printable_flat_map f l : (forall b, 0 <= b < 256 -> printable (f b)) -> are_bytes l -> printable (flat_map f l).
Proof. intros Hf. induction 1 as [|b l Hb _ IH]; cbn; [done|]. apply printable_app. auto. Qed.
Lemma printable_escaped l : are_bytes l -> printable (escaped_bytes l).
Proof. apply printable_flat_map, escaped_byte_printable. Qed.
Lemma printable_json l : are_bytes l -> printable (json_string l).
Proof. intros. unfold json_string. rewrite !printable_app. repeat split; try done. apply printable_flat_map; [apply json_byte_printable|done]. Qed.

(** ** The texts of an event *)

Definition value_ok (v : option TraceValue) : Prop := match v with Some v => are_bytes (tv_bytes v) | None => True end.
Definition stage_ok (s : DeliveryStage) : Prop := match s with DS_Failure f => printable (error_kind_text (df_kind f)) | _ => True end.
(** What the code knows of the texts of an event: a name was parsed, the time and
    the process are printed, a value is bytes. *)
Definition event_ok (e : TraceEvent) : Prop :=
  match e with
  | TE_RcFile _ _ _ target => value_ok target
  | TE_SessionStarted pid timestamp => 0 <= pid /\ printable timestamp
  | TE_VariableAssigned _ name _ value => printable name /\ value_ok value
  | TE_VariableUnset _ name _ => printable name
  | TE_ConditionEvaluated _ _ _ _ _ _ expression => value_ok expression
  | TE_Delivery _ _ stage path => stage_ok stage /\ value_ok path
  | TE_ExternalCommandExecuting _ command => value_ok command
  | TE_HeaderOperation _ _ name argument _ => printable name /\ match argument with Some a => printable a | None => True end
  | TE_Log _ value => are_bytes (tv_bytes value)
  | TE_DeliveryAbstract _ _ path => value_ok path
  | _ => True
  end.
Lemma printable_are_bytes l : printable l -> are_bytes l.
Proof. rewrite forallb_forall. intros H. apply Forall_forall. intros b Hb%list_elem_of_In%H. unfold is_printable, between in Hb. lia. Qed.

Lemma z_decimal_of_nat n : z_decimal (Z.of_nat n) = decimal n.
Proof. by destruct n. Qed.
Lemma printable_z_decimal z : 0 <= z -> printable (z_decimal z).
Proof. intros Hz. replace z with (Z.of_nat (Z.to_nat z)) by lia. apply printable_digits. rewrite z_decimal_of_nat. apply decimal_digits. Qed.
Lemma printable_value key truncated v :
  printable (J key) -> printable (J truncated) -> value_ok v -> printable (json_value key truncated v).
Proof.
  intros Hk Ht Hv. destruct v as [v|]; [|done]. cbn [json_value]. rewrite !printable_app. repeat split; [done|by apply printable_json|done|].
  by destruct (tv_truncated v).
Qed.
Lemma printable_quoted v : are_bytes (tv_bytes v) -> printable (quoted_value v).
Proof. intros. unfold quoted_value. rewrite !printable_app. repeat split; try done. by apply printable_escaped. Qed.
Lemma printable_quoted_path before v : printable (B before) -> value_ok v -> printable (quoted_path before v).
Proof. intros. destruct v; [|done]. cbn. rewrite printable_app. split; [done|by apply printable_quoted]. Qed.

Create HintDb printable.
#[local] Hint Resolve printable_decimal printable_json printable_escaped printable_quoted printable_are_bytes : printable.
(** ** The names the renderers have *)

Lemma printable_delivery_failure_class_name x : printable (delivery_failure_class_name x).
Proof. by destruct x. Qed.
Lemma printable_failure_class_name x : printable (failure_class_name x).
Proof. by destruct x. Qed.
Lemma printable_operation_name x : printable (operation_name x).
Proof. by destruct x. Qed.
Lemma printable_operation_description x : printable (operation_description x).
Proof. by destruct x. Qed.
Lemma printable_destination_kind_name x : printable (destination_kind_name x).
Proof. by destruct x. Qed.
Lemma printable_human_destination_kind x : printable (human_destination_kind x).
Proof. by destruct x. Qed.
Lemma printable_human_condition_kind x : printable (human_condition_kind x).
Proof. by destruct x. Qed.
Lemma printable_human_header_operation x : printable (human_header_operation x).
Proof. by destruct x. Qed.
Lemma printable_condition_kind_name x : printable (condition_kind_name x).
Proof. by destruct x. Qed.
Lemma printable_header_operation_kind_name x : printable (header_operation_kind_name x).
Proof. by destruct x. Qed.
Lemma printable_variable_source_name x : printable (variable_source_name x).
Proof. by destruct x. Qed.
Lemma printable_recipe_decision_name x : printable (recipe_decision_name x).
Proof. by destruct x. Qed.
Lemma printable_header_extraction_mode_name x : printable (header_extraction_mode_name x).
Proof. by destruct x. Qed.
Lemma printable_rc_stage_name x : printable (rc_stage_name x).
Proof. by destruct x. Qed.
Lemma printable_statement_name x : printable (statement_name x).
Proof. by destruct x. Qed.
Lemma printable_json_bool x : printable (json_bool x).
Proof. by destruct x. Qed.
#[local] Hint Resolve printable_delivery_failure_class_name printable_failure_class_name printable_operation_name printable_operation_description printable_destination_kind_name printable_human_destination_kind printable_human_condition_kind printable_human_header_operation printable_condition_kind_name printable_header_operation_kind_name printable_variable_source_name printable_recipe_decision_name printable_header_extraction_mode_name printable_rc_stage_name printable_statement_name printable_json_bool : printable.

(** Splits a text into its pieces and settles the fixed ones. *)
Ltac pieces :=
  repeat match goal with
  | |- _ /\ _ => split
  | |- printable (_ ++ _) => apply printable_app
  | |- printable (match ?x with _ => _ end) => destruct x; cbn [value_ok] in *
  end;
  try solve [reflexivity | eauto with printable | apply printable_value; [reflexivity|reflexivity|by auto] | apply printable_quoted_path; [reflexivity|by auto]].

Lemma render_json_printable e : event_ok e -> printable (render_json_event e).
Proof.
  destruct e as [line st stage target|pid timestamp|line name source value|line name source| |rl cl ci kind negated matched expression|line decision
                |rl d stage path|rl stage|line command|rl size|line kind name argument mode|line value|rl d path]; cbn [event_ok render_json_event]; intros H.
  - pieces.
  - destruct H. pieces. by apply printable_z_decimal.
  - destruct H. pieces.
  - pieces.
  - reflexivity.
  - pieces.
  - pieces.
  - destruct H as [Hs Hp]. destruct stage as [| | |class|f]; cbn [stage_ok render_delivery_stage] in *; pieces.
  - destruct stage; cbn [render_external_stage]; pieces.
  - pieces.
  - pieces.
  - destruct H. pieces.
  - pieces.
  - pieces.
Qed.
Lemma render_human_printable e text : event_ok e -> is_log e = false -> render_human_event e = Some text -> printable text.
Proof.
  destruct e as [line st stage target|pid timestamp|line name source value|line name source| |rl cl ci kind negated matched expression|line decision
                |rl d stage path|rl stage|line command|rl size|line kind name argument mode|line value|rl d path]; cbn [event_ok is_log render_human_event]; intros H Hl Ht; try discriminate Hl; apply (inj Some) in Ht as <-.
  - pieces.
  - destruct H. pieces. by apply printable_z_decimal.
  - destruct H. pieces.
  - pieces.
  - reflexivity.
  - pieces.
  - unfold recipe_at. pieces.
  - destruct H as [Hs Hp]. unfold human_delivery, recipe_at, at_recipe. destruct stage as [| | |class|f]; cbn [stage_ok] in *; pieces.
  - unfold recipe_at. pieces.
  - pieces.
  - pieces.
  - destruct H. unfold human_operation. pieces.
  - unfold at_recipe. pieces.
Qed.

(** * Records *)

Lemma bounded_write_Some limit output value r : bounded_write limit output value = Some r <-> r = output ++ value /\ len (output ++ value) <= limit.
Proof.
  unfold bounded_write. destruct (Z.ltb_spec limit (len (output ++ value))); split; try done.
  - intros [_ ?]. lia.
  - by intros [= <-].
  - by intros [-> _].
Qed.
Lemma printable_removelast l : printable l -> printable (removelast l).
Proof.
  destruct (decide (l = [])) as [->|H]; [done|]. rewrite (app_removelast_last 0 H) at 1. by intros [? _]%printable_app.
Qed.

(** A trace record is a line.  What is rendered of an event whose names were
    parsed, and of the file it is about, is a line of printable ASCII with one line
    feed at its end, and no longer than the limit of a record; only a log record in
    the text format is not, which is the text of the configuration itself. *)
Theorem record_is_line (r : TraceRecord) (format : TraceFormat) (out : bytes)
    (He : event_ok (tr_event r)) (Hf : match loc_file (tr_location r) with Some file => are_bytes file | None => True end)
    (Hlog : format = TF_Json \/ is_log (tr_event r) = false) (Hr : render_record r format = Some out) :
  len out <= MAX_TRACE_EVENT_SIZE /\ exists line, out = line ++ [c_LF] /\ printable line.
Proof.
  unfold render_record in Hr. apply bind_Some in Hr as (text & Ht & Hr).
  assert (printable text) as Hp.
  { destruct format; [|injection Ht as <-; by apply render_json_printable]. destruct Hlog as [|Hlog]; [done|]. by eapply render_human_printable. }
  apply bind_Some in Hr as (o & Ho & Hr). apply bounded_write_Some in Ho as [-> _]. rewrite app_nil_l in Hr.
  apply bind_Some in Hr as (o & Ho & Hr).
  assert (printable o) as Hpo.
  { unfold render_source_location in Ho. destruct (loc_file (tr_location r)) as [file|]; [|by injection Ho as <-]. destruct format.
    - destruct (is_log _); [by injection Ho as <-|]. apply bounded_write_Some in Ho as [-> _]. pieces.
    - destruct (bool_decide (last text = _)); [|done]. apply bounded_write_Some in Ho as [-> _]. rewrite printable_app. split; [by apply printable_removelast|]. pieces. }
  assert ((bool_decide (format = TF_Json) || negb (is_log (tr_event r))) = true) as Hend by (destruct Hlog as [->| ->]; [done|by rewrite orb_true_r]).
  rewrite Hend in Hr. apply bounded_write_Some in Hr as [-> Hl]. split; [done|]. by exists o.
Qed.

(** ** Reading an escaped text back *)

Definition hex_value (b : byte) : option Z :=
  if between 48 57 b then Some (b - 48) else if between 97 102 b then Some (b - 87) else None.
(** A JSON string that [json_string] may have written, up to the quote that ends
    it. *)
Fixpoint read_json (fuel : nat) (l : bytes) : option (bytes * bytes) :=
  match fuel with
  | O => None
  | S fuel =>
      match l with
      | [] => None
      | b :: rest =>
          if b =? c_QUOTE then Some ([], rest)
          else
            '(c, rest) ←
              (if b =? c_BSLASH then
                 match rest with
                 | 110 :: rest => Some (c_LF, rest) | 114 :: rest => Some (c_CR, rest) | 116 :: rest => Some (c_TAB, rest)
                 | 117 :: 48 :: 48 :: x :: y :: rest => x ← hex_value x; y ← hex_value y; Some (16 * x + y, rest)
                 | c :: rest => Some (c, rest)
                 | [] => None
                 end
               else Some (b, rest));
            '(l, rest) ← read_json fuel rest; Some (c :: l, rest)
      end
  end.

Lemma hex_value_digit n : 0 <= n < 16 -> hex_value (hex_digit n) = Some n.
Proof.
  intros. unfold hex_value, hex_digit, between. destruct (Z.ltb_spec n 10).
  - assert ((48 <=? 48 + n) && (48 + n <=? 57) = true) as -> by lia. f_equal. lia.
  - assert ((48 <=? 87 + n) && (87 + n <=? 57) = false) as -> by lia. assert ((97 <=? 87 + n) && (87 + n <=? 102) = true) as -> by lia. f_equal. lia.
Qed.

Lemma read_json_plain fuel b rest : b <> c_QUOTE -> b <> c_BSLASH ->
  read_json (S fuel) (b :: rest) = ('(l, r) ← read_json fuel rest; Some (b :: l, r)).
Proof. intros Hq Hb. cbn [read_json]. apply Z.eqb_neq in Hq as ->. by apply Z.eqb_neq in Hb as ->. Qed.
Lemma read_json_byte fuel b rest : 0 <= b < 256 ->
  read_json (S fuel) (json_byte b ++ rest) = ('(l, r) ← read_json fuel rest; Some (b :: l, r)).
Proof.
  intros Hb. unfold json_byte. destruct (_ || _) eqn:Hq; [rewrite orb_true_iff, !Z.eqb_eq in Hq; by destruct Hq as [->| ->]|].
  apply orb_false_iff in Hq as [Hq Hs]. eqb_cases. destruct (is_printable b) eqn:Hp.
  - apply read_json_plain; by apply Z.eqb_neq.
  - change ([c_BSLASH; 117; 48; 48] ++ hex2 b) with (c_BSLASH :: 117 :: 48 :: 48 :: hex_digit (b / 16) :: hex_digit (b mod 16) :: []).
    cbn [app]. cbn [read_json]. rewrite !hex_value_digit by (Z.to_euclidean_division_equations; lia).
    change (c_BSLASH =? c_QUOTE) with false. change (c_BSLASH =? c_BSLASH) with true. cbv iota. cbn [mbind option_bind].
    by rewrite <-(Z.div_mod b 16).
Qed.

(** A value cannot end its string.  Whatever the bytes of a value, the JSON
    string written for it is read back as exactly these bytes, and what follows the
    string is what followed it. *)
Theorem json_string_roundtrip (l rest : bytes) (Hl : are_bytes l) :
  exists body, json_string l ++ rest = c_QUOTE :: body /\ read_json (S (length l)) body = Some (l, rest).
Proof.
  exists (flat_map json_byte l ++ [c_QUOTE] ++ rest). split; [unfold json_string; by rewrite <-!app_assoc|].
  induction Hl as [|b l Hb _ IH]; [done|]. cbn [flat_map length]. rewrite <-app_assoc, read_json_byte by done. by rewrite IH.
Qed.

(** * The budget of the output *)

Section budget.
Context {W : Type} (output_write : bytes -> W -> option ErrorKind * W).
Abbreviation Tracer := (@BoundedTraceWriter W).

(** What can be done with a writer. *)
Inductive trace_step := Tr_Record (r : TraceRecord) | Tr_Verbose (enabled : bool) | Tr_Abstract (mode : LogAbstractMode) | Tr_Finish.
Definition do_step (t : Tracer) (x : trace_step) : Tracer :=
  match x with
  | Tr_Record r => trace_record output_write r t
  | Tr_Verbose enabled => set_verbose enabled t
  | Tr_Abstract mode => set_log_abstract mode t
  | Tr_Finish => trace_finish output_write t
  end.

(** The output knows how much it took, of which a record that fails may be a part. *)
Context (taken : W -> Z) (attempts : W -> Z).
Context (Hok : forall l w w', output_write l w = (None, w') -> taken w' = taken w + len l /\ attempts w' = attempts w + 1).
Context (Hfail : forall l w k w', output_write l w = (Some k, w') -> taken w <= taken w' <= taken w + len l /\ attempts w' = attempts w + 1).

Definition counted (t : Tracer) : Prop :=
  0 <= tw_events t <= MAX_TRACE_EVENTS /\ 0 <= tw_bytes t <= MAX_TRACE_BYTES /\
  match tw_stopped t with
  | None => taken (tw_writer t) = tw_bytes t /\ attempts (tw_writer t) = tw_events t
  | Some _ => taken (tw_writer t) <= MAX_TRACE_BYTES /\ attempts (tw_writer t) <= MAX_TRACE_EVENTS
  end.
Lemma write_event_counted r t : counted t -> counted (write_event output_write r t).
Proof.
  intros (He & Hb & Hw). unfold write_event. destruct (tw_stopped t) as [reason|] eqn:Hs; [unfold counted; by rewrite Hs|].
  destruct (negb _); [unfold counted; by rewrite Hs|]. destruct Hw as [Hw Ha].
  destruct (Z.leb_spec MAX_TRACE_EVENTS (tw_events t)); [split_and!; cbn; lia|].
  destruct (render_record r (tw_format t)) as [rendered|]; [|split_and!; cbn; lia].
  destruct (Z.ltb_spec MAX_TRACE_BYTES (tw_bytes t + len rendered)); [split_and!; cbn; lia|].
  destruct (output_write rendered (tw_writer t)) as [[kind|] w] eqn:Ho.
  - apply Hfail in Ho as [Ho1 Ho2]. split_and!; cbn; lia.
  - apply Hok in Ho as [Ho1 Ho2]. unfold counted, tw_wrote. cbn. rewrite Hs. split_and!; lia.
Qed.
Lemma counted_modes verbose mode last t : counted t -> counted (tw_modes verbose mode last t).
Proof. by intros (? & ? & ?). Qed.

(** C40: The trace stays within its budget.  Whatever is recorded, in whatever
    order the modes are set, and whether or not writing fails: the output is handed
    no more than the limit of records and takes no more than the limit of bytes;
    while the writer has not stopped, its counts are exactly what the output took. *)
Theorem trace_within_budget (steps : list trace_step) (t : Tracer) (Ht : counted t) :
  let t' := foldl do_step t steps in
  taken (tw_writer t') <= MAX_TRACE_BYTES /\ attempts (tw_writer t') <= MAX_TRACE_EVENTS /\
  (tw_stopped t' = None -> taken (tw_writer t') = tw_bytes t' /\ attempts (tw_writer t') = tw_events t').
Proof.
  cbv zeta. assert (counted (foldl do_step t steps)) as (He & Hb & Hw).
  { revert t Ht. induction steps as [|x steps IH]; intros t Ht; [done|]. apply IH. destruct x as [r|enabled|mode|]; cbn [do_step].
    - unfold trace_record. set (r' := Build_TraceRecord _ _).
      match goal with |- counted (if ?b then ?u else _) => assert (counted u) as Hu; [|destruct b; [done|by apply write_event_counted]] end.
      destruct (tr_event r') as [| | | | | | |? ? stage ?| | | | | |]; try done. destruct stage; try done.
      destruct (tw_abstract t); [done|by apply counted_modes|by apply write_event_counted].
    - by apply counted_modes.
    - by apply counted_modes.
    - unfold trace_finish. destruct (negb _); [done|]. destruct (tw_last t); [|done]. by apply write_event_counted, counted_modes. }
  destruct (tw_stopped _); [split_and!; [lia|lia|done]|]. split_and!; [lia|lia|done].
Qed.
End budget.

(** * Samples *)

Definition sample_record : TraceRecord := {|
  tr_event := TE_VariableAssigned (Some 3%nat) (B "SUBJECT") VS_RcFile (Some (trace_value (B "a" ++ [c_LF; c_QUOTE; 0])));
  tr_location := {| loc_line := 3; loc_file := Some (B "/home/me/.rc"); loc_truncated := false |} |}.
Lemma record_is_line_witness : exists out line, render_record sample_record TF_Json = Some out /\ out = line ++ [c_LF] /\ printable line.
Proof.
  destruct (render_record sample_record TF_Json) as [out|] eqn:Hr; [|vm_compute in Hr; discriminate Hr].
  destruct (record_is_line sample_record TF_Json out) as (_ & line & H1 & H2).
  - split; [reflexivity|]. cbn. repeat constructor; done.
  - cbn. repeat constructor; done.
  - by left.
  - exact Hr.
  - exists out, line. split; [reflexivity|split; assumption].
Defined.
Lemma json_string_roundtrip_witness :
  exists body, json_string [c_QUOTE; 200] ++ [125] = c_QUOTE :: body /\ read_json 3 body = Some ([c_QUOTE; 200], [125]).
Proof. apply (json_string_roundtrip [c_QUOTE; 200] [125]). repeat constructor; done. Defined.

(** An output that takes every record. *)
Definition keep_record (l : bytes) (w : list bytes) : option ErrorKind * list bytes := (None, w ++ [l]).
Definition sum_len (w : list bytes) : Z := len (concat w).
Lemma trace_within_budget_witness :
  let t := foldl (do_step keep_record) (runtime_formatted [] Values_ TF_Json true LA_No) [Tr_Record sample_record; Tr_Finish] in
  sum_len (tw_writer t) <= MAX_TRACE_BYTES /\ len (tw_writer t) = 1.
Proof.
  assert (forall l w w', keep_record l w = (None, w') -> sum_len w' = sum_len w + len l /\ len w' = len w + 1) as Hok.
  { intros l w w' [= <-]. unfold sum_len. rewrite concat_app, !length_app. cbn. rewrite app_nil_r. lia. }
  assert (forall l w k w', keep_record l w = (Some k, w') -> sum_len w <= sum_len w' <= sum_len w + len l /\ len w' = len w + 1) as Hfail by done.
  pose proof (trace_within_budget keep_record sum_len (fun w => len w) Hok Hfail [Tr_Record sample_record; Tr_Finish]
    (runtime_formatted [] Values_ TF_Json true LA_No) ltac:(repeat split; vm_compute; discriminate)) as (H & _ & _).
  split; [exact H|vm_compute; reflexivity].
Defined.
