(* ===== verification/Explanation.v ===== *)
(** The explanation of a plan, and its two printers: [src/src/eval/explanation.rs],
    [collect_explanations] of [src/src/eval/tree.rs] and the printers of
    [src/src/bin/procmail-rs.rs].  What is printed is a function of the shape of the
    plan alone. *)
From S2P Require Import Prelude Effects Numbers Config Limits Utf8 HeaderValue HeaderFields HeaderStore EditedHeader HeaderEdit StructuredHeader Message EvalMessage Mime Variables Runtime Settings ShellPattern ShellEval ExprParser Expand Binding Conditions Plan PlanFacts RcFile RuntimeRc Delivery Trace.
#[local] Open Scope Z_scope.

(** Source: eval/explanation.rs `pub enum ConditionKindExplanation` *)
Inductive ConditionKindExplanation :=
  XC_ShellExpanded | XC_HeaderRegex | XC_BodyRegex | XC_MessageRegex | XC_VariableRegex | XC_Address | XC_Identifier | XC_Keyword | XC_Multipart | XC_Program
| XC_SmallerThan | XC_LargerThan.
(** Source: eval/explanation.rs `pub struct ConditionExplanation`..`impl ConditionExplanation` *)
Record ConditionExplanation := { xc_negated : bool; xc_kind : ConditionKindExplanation }.
(** Source: eval/explanation.rs `pub enum ActionKindExplanation` *)
Inductive ActionKindExplanation := XA_Maildir | XA_Mbox | XA_File | XA_Discard | XA_ExternalProgram | XA_Headers.
(** Source: eval/explanation.rs `pub struct HeaderOperationExplanation`..`impl HeaderOperationExplanation` *)
Record HeaderOperationExplanation := {
  xo_remove : nat; xo_set : nat; xo_add : nat; xo_prepend : nat; xo_rename : nat; xo_extract : nat; xo_keywords : nat; xo_priority : nat; xo_status : nat;
}.
(** Source: eval/explanation.rs `pub struct RecipeExplanation`..`impl RecipeExplanation` *)
Record RecipeExplanation := {
  xr_line : nat; xr_assignment_count : nat; xr_conditions : list ConditionExplanation; xr_action : ActionKindExplanation;
  xr_header_operations : option HeaderOperationExplanation; xr_copy : bool; xr_defers_destination : bool;
}.
(** Source: eval/explanation.rs `pub struct PlanExplanation`..`impl PlanExplanation` *)
Record PlanExplanation := { xp_requirements : InputRequirements; xp_ordered : bool; xp_recipes : list RecipeExplanation }.

Section explain.
Context {R : RegexEngine}.

(** Source: eval/condition.rs `pub(super) fn explain(&self)` *)
Definition explain_condition (c : CompiledCondition) : ConditionExplanation :=
  {| xc_negated := cc_negated c;
     xc_kind := match cc_kind c with
       | CC_ShellExpanded _ _ _ => XC_ShellExpanded | CC_HeaderRegex _ => XC_HeaderRegex | CC_BodyRegex _ => XC_BodyRegex
       | CC_MessageRegex _ => XC_MessageRegex | CC_VariableRegex _ _ => XC_VariableRegex | CC_AddressRegex _ _ => XC_Address
       | CC_IdentifierRegex _ _ => XC_Identifier | CC_KeywordRegex _ _ => XC_Keyword | CC_Multipart _ => XC_Multipart
       | CC_Program _ _ => XC_Program | CC_SmallerThan _ => XC_SmallerThan | CC_LargerThan _ => XC_LargerThan
       end |}.
Definition counted (f : HeaderOperation -> bool) (l : list HeaderOperation) : nat := length (List.filter f l).
(** Source: eval/tree.rs:332-359 `collect_explanations (header operations)` *)
Definition explain_operations (a : HeaderAction) : HeaderOperationExplanation :=
  let count f := counted f (operations a) in {|
  xo_remove := count (fun o => match o with HO_Remove _ _ => true | _ => false end);
  xo_set := count (fun o => match o with HO_Set _ _ _ => true | _ => false end);
  xo_add := count (fun o => match o with HO_Add _ _ _ => true | _ => false end);
  xo_prepend := count (fun o => match o with HO_Prepend _ _ _ => true | _ => false end);
  xo_rename := count (fun o => match o with HO_Rename _ _ _ => true | _ => false end);
  xo_extract := count (fun o => match o with HO_Extract _ _ _ _ => true | _ => false end);
  xo_keywords := count (fun o => match o with HO_Keywords _ _ => true | _ => false end);
  xo_priority := count (fun o => match o with HO_Priority _ _ => true | _ => false end);
  xo_status := count (fun o => match o with HO_Status _ _ => true | _ => false end);
|}.
Definition destination_explanation (d : Destination) : ActionKindExplanation :=
  match kind d with DK_Maildir => XA_Maildir | DK_Mbox => XA_Mbox | DK_File => XA_File | DK_Discard => XA_Discard end.
(** Source: eval/tree.rs `pub(super) fn collect_explanations` *)
Fixpoint collect_explanations (s : CompiledSequence) (inherited : list ConditionExplanation) (assignments : nat) {struct s} : list RecipeExplanation :=
  match s with
  | MkSequence rs _ _ =>
      (fix each (rs : list CompiledNode) : list RecipeExplanation :=
         match rs with
         | [] => []
         | MkNode location preceding _ _ _ _ conditions action _ :: rest =>
             let conditions := inherited ++ (explain_condition <$> conditions) in
             let assignment_count := (assignments + length preceding)%nat in
             let explained action operations copy defers :=
               {| xr_line := loc_line location; xr_assignment_count := assignment_count; xr_conditions := conditions; xr_action := action;
                  xr_header_operations := operations; xr_copy := copy; xr_defers_destination := defers |} in
             match action with
             | CA_Pipe _ _ | CA_Capture _ _ => [explained XA_ExternalProgram None false true]
             | CA_Deliver destination continuation _ =>
                 [explained (destination_explanation destination) None (bool_decide (continuation = CM_Continue)) (needs_runtime_variables destination)]
             | CA_Block children => collect_explanations children conditions assignment_count
             | CA_Headers action => [explained XA_Headers (Some (explain_operations action)) false false]
             end ++ each rest
         end) rs
  end.
(** Source: eval.rs `pub fn explain(&self)` *)
Definition explain {L} (p : ExecutionPlan) (rc : RuntimeRcState (L := L)) : PlanExplanation :=
  {| xp_requirements := plan_requirements p rc; xp_ordered := pp_ordered (sequence_properties (root p)); xp_recipes := collect_explanations (root p) [] 0 |}.
End explain.

(** * Printing *)

(** Source: bin/procmail-rs.rs `fn explanation_action_name` *)
Definition explanation_action_name (a : ActionKindExplanation) : bytes :=
  match a with
  | XA_Maildir => B "maildir" | XA_Mbox => B "mbox" | XA_File => B "file" | XA_Discard => B "discard" | XA_ExternalProgram => B "external-program"
  | XA_Headers => B "headers"
  end.
(** Source: bin/procmail-rs.rs `fn explanation_condition_name` *)
Definition explanation_condition_name (c : ConditionKindExplanation) : bytes :=
  match c with
  | XC_ShellExpanded => B "shell-expanded" | XC_HeaderRegex => B "header-regex" | XC_BodyRegex => B "body-regex" | XC_MessageRegex => B "message-regex"
  | XC_VariableRegex => B "variable-regex" | XC_Address => B "address" | XC_Identifier => B "identifier" | XC_Keyword => B "keyword"
  | XC_Multipart => B "multipart" | XC_Program => B "program" | XC_SmallerThan => B "smaller-than" | XC_LargerThan => B "larger-than"
  end.
(** Source: bin/procmail-rs.rs `fn yes_no` *)
Definition yes_no (b : bool) : bytes := if b then B "yes" else B "no".
(** What the printers write, piece after piece, as one text.
    Source: bin/procmail-rs.rs `fn write_text_plan_explanation` *)
Definition text_plan_explanation (x : PlanExplanation) : bytes :=
  let q := xp_requirements x in
  B "input headers=" ++ yes_no (needs_headers q) ++ B " body=" ++ yes_no (needs_body_contents q) ++ B " end=" ++ yes_no (needs_end_of_message q) ++ [c_LF] ++
  B "ordered-delivery=" ++ yes_no (xp_ordered x) ++ [c_LF] ++
  (xp_recipes x ≫= fun r =>
     B "recipe line=" ++ decimal (xr_line r) ++ B " copy=" ++ yes_no (xr_copy r) ++ B " assignments=" ++ decimal (xr_assignment_count r) ++
     B " action=" ++ explanation_action_name (xr_action r) ++ B " deferred=" ++ yes_no (xr_defers_destination r) ++ [c_LF] ++
     match xr_header_operations r with
     | Some o =>
         B "  header-operations remove=" ++ decimal (xo_remove o) ++ B " set=" ++ decimal (xo_set o) ++ B " add=" ++ decimal (xo_add o) ++
         B " prepend=" ++ decimal (xo_prepend o) ++ B " rename=" ++ decimal (xo_rename o) ++ B " extract=" ++ decimal (xo_extract o) ++
         B " keywords=" ++ decimal (xo_keywords o) ++ B " priority=" ++ decimal (xo_priority o) ++ B " status=" ++ decimal (xo_status o) ++ [c_LF]
     | None => []
     end ++
     (xr_conditions r ≫= fun c =>
        B "  condition kind=" ++ explanation_condition_name (xc_kind c) ++ B " negated=" ++ yes_no (xc_negated c) ++ [c_LF])).
Fixpoint comma_separated {A} (print : A -> bytes) (l : list A) : bytes :=
  match l with [] => [] | [x] => print x | x :: rest => print x ++ B "," ++ comma_separated print rest end.
(** Source: bin/procmail-rs.rs `fn write_json_plan_explanation` *)
Definition json_plan_explanation (x : PlanExplanation) : bytes :=
  let q := xp_requirements x in
  J "{'input':{'headers':" ++ json_bool (needs_headers q) ++ J ",'body':" ++ json_bool (needs_body_contents q) ++ J ",'end':" ++ json_bool (needs_end_of_message q) ++
  J "},'ordered_delivery':" ++ json_bool (xp_ordered x) ++ J ",'recipes':[" ++
  comma_separated (fun r =>
    J "{'line':" ++ decimal (xr_line r) ++ J ",'copy':" ++ json_bool (xr_copy r) ++ J ",'assignments':" ++ decimal (xr_assignment_count r) ++
    J ",'action':'" ++ explanation_action_name (xr_action r) ++ J "','deferred':" ++ json_bool (xr_defers_destination r) ++
    match xr_header_operations r with
    | Some o =>
        J ",'header_operations':{'remove':" ++ decimal (xo_remove o) ++ J ",'set':" ++ decimal (xo_set o) ++ J ",'add':" ++ decimal (xo_add o) ++
        J ",'prepend':" ++ decimal (xo_prepend o) ++ J ",'rename':" ++ decimal (xo_rename o) ++ J ",'extract':" ++ decimal (xo_extract o) ++
        J ",'keywords':" ++ decimal (xo_keywords o) ++ J ",'priority':" ++ decimal (xo_priority o) ++ J ",'status':" ++ decimal (xo_status o) ++ J "}"
    | None => []
    end ++
    J ",'conditions':[" ++
    comma_separated (fun c => J "{'kind':'" ++ explanation_condition_name (xc_kind c) ++ J "','negated':" ++ json_bool (xc_negated c) ++ J "}") (xr_conditions r) ++
    J "]}") (xp_recipes x) ++ J "]}" ++ [c_LF].
(** Source: bin/procmail-rs.rs `fn write_plan_explanation` *)
Definition plan_explanation (format : TraceFormat) (x : PlanExplanation) : bytes :=
  match format with TF_Text => text_plan_explanation x | TF_Json => json_plan_explanation x end.

(** * Privacy *)

Section privacy.
Context {R : RegexEngine} (blank : Regex).

(** A plan without the values of its configuration: every pattern, path, command,
    name, list of header fields, size, header value and limit is the same one, no
    place names a file, and the only line that is left is the one of each recipe. *)
Definition erase_location (l : SourceLocation) : SourceLocation := {| loc_line := loc_line l; loc_file := None; loc_truncated := false |}.
Definition no_location : SourceLocation := {| loc_line := 0; loc_file := None; loc_truncated := false |}.
Definition erase_condition (c : CompiledCondition) : CompiledCondition :=
  {| cc_location := no_location; cc_negated := cc_negated c; match_captures := []; capture_indexes := [];
     cc_kind := match cc_kind c with
       | CC_ShellExpanded _ area case => CC_ShellExpanded {| se_source := []; se_expansion := None |} area case
       | CC_HeaderRegex _ => CC_HeaderRegex blank | CC_BodyRegex _ => CC_BodyRegex blank | CC_MessageRegex _ => CC_MessageRegex blank
       | CC_VariableRegex _ _ => CC_VariableRegex [] blank | CC_AddressRegex _ _ => CC_AddressRegex [] blank
       | CC_IdentifierRegex _ _ => CC_IdentifierRegex [] blank | CC_KeywordRegex _ _ => CC_KeywordRegex [] blank
       | CC_Multipart _ => CC_Multipart [] | CC_Program _ input => CC_Program [] input
       | CC_SmallerThan _ => CC_SmallerThan 0 | CC_LargerThan _ => CC_LargerThan 0
       end |}.
(** What is left of a destination is its kind and whether it is known before the
    message is. *)
Definition erase_path (e : PathExpression) : PathExpression :=
  {| pe_source := []; pe_base := None; pe_location := no_location; pe_runtime_dependent := pe_runtime_dependent e; pe_runtime_base := pe_runtime_base e;
     pe_typed_destination := false; pe_expansion := None |}.
Definition erase_destination (d : Destination) : Destination :=
  match d with
  | D_Mbox e => D_Mbox (erase_path e) | D_Maildir e => D_Maildir (erase_path e) | D_File e => D_File (erase_path e) | D_Discard e => D_Discard (erase_path e)
  end.
(** Statements are only counted. *)
Definition erase_statement (s : CompiledStatement) : CompiledStatement :=
  CSt_Unset {| cun_unset := {| un_line := 0; un_name := []; un_target := User |}; cun_location := None |}.
Definition erase_operation (o : HeaderOperation) : HeaderOperation :=
  let none := {| hv_source := []; hv_expansion := None |} in
  match o with
  | HO_Remove _ _ => HO_Remove 0 [] | HO_Set _ _ _ => HO_Set 0 [] none | HO_Add _ _ _ => HO_Add 0 [] none
  | HO_Prepend _ _ _ => HO_Prepend 0 [] none | HO_Rename _ _ _ => HO_Rename 0 [] [] | HO_Extract _ _ _ _ => HO_Extract 0 [] [] EM_Raw
  | HO_Keywords _ _ => HO_Keywords 0 KM_Clear | HO_Priority _ _ => HO_Priority 0 PM_Clear | HO_Status _ _ => HO_Status 0 SM_Clear
  end.
Fixpoint erase_sequence (s : CompiledSequence) : CompiledSequence :=
  match s with
  | MkSequence rs trailing properties =>
      MkSequence
        ((fix each (rs : list CompiledNode) : list CompiledNode :=
            match rs with
            | [] => []
            | MkNode location preceding lock control continuation child_status conditions action properties :: rest =>
                MkNode (erase_location location) (erase_statement <$> preceding) (erase_path <$> lock) control continuation child_status (erase_condition <$> conditions)
                  match action with
                  | CA_Deliver d continuation ending => CA_Deliver (erase_destination d) continuation ending
                  | CA_Pipe _ options => CA_Pipe {| pipe_command := [] |} options
                  | CA_Capture _ options => CA_Capture {| cap_line := 0; cap_name := []; cap_target := User; cap_command := [] |} options
                  | CA_Block children => CA_Block (erase_sequence children)
                  | CA_Headers a => CA_Headers {| operations := erase_operation <$> operations a |}
                  end properties :: each rest
            end) rs)
        (erase_statement <$> trailing) properties
  end.
Definition erase_plan (p : ExecutionPlan) : ExecutionPlan := {| root := erase_sequence (root p); message_limits := Ok default_limits |}.

Lemma erase_explained c : explain_condition (erase_condition c) = explain_condition c.
Proof. unfold explain_condition, erase_condition. cbn. by destruct (cc_kind c). Qed.
Lemma erase_conditions inherited cs : inherited ++ (explain_condition <$> (erase_condition <$> cs)) = inherited ++ (explain_condition <$> cs).
Proof. f_equal. rewrite <- list_fmap_compose. apply list_fmap_ext. intros i c _. apply erase_explained. Qed.
Lemma counted_erased f l : (forall o, f (erase_operation o) = f o) -> counted f (erase_operation <$> l) = counted f l.
Proof. intros H. unfold counted. induction l as [|o l IH]; [done|]. cbn. rewrite H. destruct (f o); cbn; by rewrite IH. Qed.
Lemma erase_operations a : explain_operations {| operations := erase_operation <$> operations a |} = explain_operations a.
Proof. unfold explain_operations. cbn [operations]. by f_equal; apply counted_erased; intros []. Qed.
Lemma erase_kind d : destination_explanation (erase_destination d) = destination_explanation d /\ needs_runtime_variables (erase_destination d) = needs_runtime_variables d.
Proof. by destruct d. Qed.
Lemma erase_collected s : forall inherited assignments, collect_explanations (erase_sequence s) inherited assignments = collect_explanations s inherited assignments.
Proof.
  revert s. fix IH 1. intros [rs trailing properties] inherited assignments. cbn [erase_sequence collect_explanations].
  induction rs as [|[location preceding lock control continuation child_status conditions action node_properties] rs IHrs]; [done|].
  rewrite IHrs. f_equal. rewrite !length_fmap, !erase_conditions. destruct action as [d c ending|a o|a o|children|a]; [| | |apply IH|].
  - by destruct (erase_kind d) as [-> ->].
  - done.
  - done.
  - by rewrite erase_operations.
Qed.

(** C21: The explanation of a plan reveals its shape and no more.  Take any two plans that
    differ only in the values of the configuration - patterns, sizes and limits, names of
    variables and of header fields, the header fields a condition looks at, header
    values, commands, destinations, lock files, assigned values, paths of rc files, the
    files the recipes stand in and the lines of all but the recipes - however these were
    written: both printers print the same text for them. *)
Theorem explanation_is_value_free {L} (p p' : ExecutionPlan) (rc : RuntimeRcState (L := L)) format :
  erase_plan p' = erase_plan p -> plan_explanation format (explain p' rc) = plan_explanation format (explain p rc).
Proof.
  intros E. f_equal. apply (f_equal root) in E. cbn in E. assert (collect_explanations (root p') [] 0 = collect_explanations (root p) [] 0) as Hc
    by (by rewrite <- (erase_collected (root p')), E, erase_collected).
  assert (sequence_properties (root p') = sequence_properties (root p)) as Hp.
  { apply (f_equal sequence_properties) in E. by destruct (root p'), (root p). }
  unfold explain, plan_requirements. by rewrite Hc, Hp.
Qed.
End privacy.

(** An engine whose expressions are their text, and two plans with the same shape. *)
Definition text_engine : RegexEngine := {| Regex := bytes; regex_is_match := fun r l => bytes_eqb r l; regex_captures := fun _ _ => None |}.
Definition sample_shape (path pattern : bytes) : ExecutionPlan (R := text_engine) :=
  {| root := MkSequence (R := text_engine)
       [MkNode (R := text_engine) sample_location [] None Independent CM_Stop CS_Ignore
          [{| cc_location := sample_location; cc_negated := true; cc_kind := CC_HeaderRegex (R := text_engine) pattern; match_captures := []; capture_indexes := [] |}]
          (CA_Deliver (sample_maildir path) CM_Stop Normalize) no_properties] [] no_properties;
     message_limits := Ok default_limits |}.
Lemma explanation_is_value_free_witness :
  let rc := new_rc_state (R := text_engine) (L := unit) None in
  plan_explanation TF_Text (explain (sample_shape (B "/home/me/secret") (B "^From: boss")) rc) = plan_explanation TF_Text (explain (sample_shape (B "/mail") (B "x")) rc) /\
  plan_explanation TF_Text (explain (sample_shape (B "/mail") (B "x")) rc) =
    B "input headers=no body=no end=no" ++ [c_LF] ++ B "ordered-delivery=no" ++ [c_LF] ++
    B "recipe line=0 copy=no assignments=0 action=maildir deferred=no" ++ [c_LF] ++ B "  condition kind=header-regex negated=yes" ++ [c_LF].
Proof. split; [by apply (explanation_is_value_free (R := text_engine) [])|by vm_compute]. Defined.
