(* ===== verification/Startup.v ===== *)
(** Starting the program: [src/src/bin/procmail-rs.rs].  The command line is read
    before any file, then the root configuration is found, parsed, prepared and
    checked before a byte of the message is read. *)
From stdpp Require Import gmap.
From S2P Require Import Prelude Effects Numbers Config Limits Utf8 Variables Runtime Settings Expand Binding Syntax RegexSyntax RcParser Prepare Conditions Plan RcFile RuntimeRc Delivery Trace.
#[local] Open Scope Z_scope.

(** * Errors and statuses *)

(** Source: delivery_runtime.rs `pub enum ExitStatus` *)
Inductive ExitStatus := ES_Success | ES_Input | ES_PermanentDestination | ES_TemporaryDelivery | ES_Configuration | ES_Undelivered | ES_Internal.
Definition status_code (s : ExitStatus) : Z :=
  match s with
  | ES_Success => 0 | ES_Input => 65 | ES_PermanentDestination => 73 | ES_TemporaryDelivery => 75 | ES_Configuration => 78
  | ES_Undelivered => 79 | ES_Internal => 70
  end.
(** The signals with a name; [RS_Other] is any other number.
    Source: signal_state.rs `pub struct ReceivedSignal` *)
Record ReceivedSignal := { rs_number : Z }.
(** [i32::saturating_add] and the conversion to [u8].
    Source: signal_state.rs `pub fn exit_code` *)
Definition signal_exit_code (s : ReceivedSignal) : Z :=
  let sum := Z.max (-2147483648) (Z.min 2147483647 (128 + rs_number s)) in
  if between 0 255 sum then sum else 255.

(** Source: delivery_runtime.rs `pub enum OperationalError` *)
Inductive OperationalError :=
| OE_Delivery (failure : DeliveryFailure) (message : bytes)
| OE_Configuration (message : bytes) | OE_Input (message : bytes) | OE_TemporaryDelivery (message : bytes)
| OE_PermanentDestination (message : bytes) | OE_Undelivered (message : bytes) | OE_Internal (message : bytes)
| OE_Signaled (signal : ReceivedSignal).
(** Source: delivery_runtime.rs `pub fn delivery(` *)
Definition operational_delivery (class : DeliveryFailureClass) (message : bytes) : OperationalError :=
  match class with Retryable => OE_TemporaryDelivery message | Permanent => OE_PermanentDestination message | Internal => OE_Internal message end.
(** Source: delivery_runtime.rs `pub fn exit_code` *)
Definition exit_code (e : OperationalError) : Z :=
  match e with
  | OE_Delivery failure _ =>
      status_code match df_class failure with Retryable => ES_TemporaryDelivery | Permanent => ES_PermanentDestination | Internal => ES_Internal end
  | OE_Configuration _ => status_code ES_Configuration
  | OE_Input _ => status_code ES_Input
  | OE_TemporaryDelivery _ => status_code ES_TemporaryDelivery
  | OE_PermanentDestination _ => status_code ES_PermanentDestination
  | OE_Undelivered _ => status_code ES_Undelivered
  | OE_Internal _ => status_code ES_Internal
  | OE_Signaled signal => signal_exit_code signal
  end.

(** Source: bin/procmail-rs.rs `fn parse_requested_exit_code` *)
Definition parse_requested_exit_code {T : Target} (runtime : RuntimeVariables) : result OperationalError (option Z) :=
  let invalid := OE_PermanentDestination (B "EXITCODE must be an unsigned decimal value from 0 through 255") in
  match get runtime (B "EXITCODE") with
  | None => Ok None
  | Some value =>
      if bool_decide (value = []) then Ok None
      else if negb (forallb is_ascii_digit value) then Err invalid
      else match parse_unsigned 255 value with Some code => Ok (Some code) | None => Err invalid end
  end.

(** * The command line *)

(** Source: bin/procmail-rs.rs `enum Action` *)
Inductive Action := A_Check | A_Filter.
#[export] Instance Action_eq_dec : EqDecision Action.
Proof. solve_decision. Defined.
(** Source: bin/procmail-rs.rs `struct Command` *)
Record Command := {
  cl_action : Action; cl_explain : bool; cl_dry_run : bool; cl_trace_format : TraceFormat; cl_trace_detail : option TraceDetail;
  cl_config : option bytes; cl_supplied : list SuppliedVariable; cl_arguments : PositionalArguments;
}.
(** Source: bin/procmail-rs.rs `enum Invocation` *)
Inductive Invocation := IV_Run (c : Command) | IV_Help | IV_Version.

(** Source: config/variables.rs `pub const MAX_COMMAND_LINE_VARIABLES` *)
Definition MAX_COMMAND_LINE_VARIABLES : nat := 256.

(** Source: bin/procmail-rs.rs `fn usage` *)
Definition usage : bytes := B "Usage: procmail-rs check [OPTION]..." ++ [c_LF] ++ B "  or:  procmail-rs filter [OPTION]...".
(** Source: bin/procmail-rs.rs `fn parse_trace_format` *)
Definition parse_trace_format (value : bytes) : result bytes TraceFormat :=
  if bytes_eqb value (B "text") then Ok TF_Text
  else if bytes_eqb value (B "json") then Ok TF_Json
  else Err (B "--format expects 'text' or 'json'").
(** Source: bin/procmail-rs.rs `fn parse_trace_detail` *)
Definition parse_trace_detail (value : bytes) : result bytes TraceDetail :=
  if bytes_eqb value (B "metadata") then Ok Metadata
  else if bytes_eqb value (B "values") then Ok Values_
  else Err (B "--detail expects 'metadata' or 'values'").

(** What the loop over the options keeps; [pa_format] says that a format was
    given. *)
Record ParsedOptions := {
  po_config : option bytes; po_supplied : list SuppliedVariable; po_arguments : PositionalArguments; po_dry_run : bool; po_explain : bool;
  po_format : option TraceFormat; po_detail : option TraceDetail;
}.
Definition no_options : ParsedOptions := {|
  po_config := None; po_supplied := []; po_arguments := no_arguments; po_dry_run := false; po_explain := false; po_format := None; po_detail := None |}.
Definition with_config (c : bytes) (o : ParsedOptions) : ParsedOptions := {|
  po_config := Some c; po_supplied := po_supplied o; po_arguments := po_arguments o; po_dry_run := po_dry_run o; po_explain := po_explain o;
  po_format := po_format o; po_detail := po_detail o |}.
Definition with_supplied (v : SuppliedVariable) (o : ParsedOptions) : ParsedOptions := {|
  po_config := po_config o; po_supplied := po_supplied o ++ [v]; po_arguments := po_arguments o; po_dry_run := po_dry_run o;
  po_explain := po_explain o; po_format := po_format o; po_detail := po_detail o |}.
Definition with_arguments (a : PositionalArguments) (o : ParsedOptions) : ParsedOptions := {|
  po_config := po_config o; po_supplied := po_supplied o; po_arguments := a; po_dry_run := po_dry_run o; po_explain := po_explain o;
  po_format := po_format o; po_detail := po_detail o |}.
Definition with_flags (dry explain : bool) (o : ParsedOptions) : ParsedOptions := {|
  po_config := po_config o; po_supplied := po_supplied o; po_arguments := po_arguments o; po_dry_run := dry; po_explain := explain;
  po_format := po_format o; po_detail := po_detail o |}.
Definition with_format (f : TraceFormat) (o : ParsedOptions) : ParsedOptions := {|
  po_config := po_config o; po_supplied := po_supplied o; po_arguments := po_arguments o; po_dry_run := po_dry_run o; po_explain := po_explain o;
  po_format := Some f; po_detail := po_detail o |}.
Definition with_trace_detail (d : TraceDetail) (o : ParsedOptions) : ParsedOptions := {|
  po_config := po_config o; po_supplied := po_supplied o; po_arguments := po_arguments o; po_dry_run := po_dry_run o; po_explain := po_explain o;
  po_format := po_format o; po_detail := Some d |}.

Section command_line.
Context {T : Target}.

(** [OsString::into_string]: the value that follows an option, as text. *)
Definition text_value (what : bytes) (value : option bytes) : result bytes bytes :=
  value ← ok_or usage value;
  if valid_utf8 value then Ok value else Err (what ++ B " is not valid UTF-8").
Definition only_with (wanted action : Action) (message : bytes) : result bytes () := if bool_decide (action = wanted) then Ok tt else Err message.

(** An option, with the arguments that follow it; [inl] is what the program does
    at once.
    Source: bin/procmail-rs.rs:639-726 `parse_args (an option)` *)
Definition parse_option (action : Action) (option : bytes) (args : list bytes) (o : ParsedOptions) : result bytes (Invocation + ParsedOptions * list bytes) :=
  let named name := bytes_eqb option name in
  let filter_only := only_with A_Filter action in
  let value := head args in
  let rest := tail args in
  if negb (valid_utf8 option) then Err usage
  else if named (B "-h") || named (B "--help") then Ok (inl IV_Help)
  else if named (B "-V") || named (B "--version") then Ok (inl IV_Version)
  else if named (B "--config") then
    match po_config o with
    | Some _ => Err (B "--config may only be specified once")
    | None => path ← ok_or usage value; Ok (inr (with_config path o, rest))
    end
  else if named (B "--dry-run") then
    _ ← filter_only (B "--dry-run may only be used with filter");
    if po_dry_run o then Err (B "--dry-run may only be specified once") else Ok (inr (with_flags true (po_explain o) o, args))
  else if named (B "--explain") then
    _ ← only_with A_Check action (B "--explain may only be used with check");
    if po_explain o then Err (B "--explain may only be specified once") else Ok (inr (with_flags (po_dry_run o) true o, args))
  else if named (B "--format") then
    value ← ok_or usage value; format ← parse_trace_format value; Ok (inr (with_format format o, rest))
  else if named (B "--detail") then
    _ ← filter_only (B "--detail may only be used with filter");
    value ← ok_or usage value; detail ← parse_trace_detail value; Ok (inr (with_trace_detail detail o, rest))
  else if starts_with option (B "--format=") then
    format ← parse_trace_format (drop (length (B "--format=")) option); Ok (inr (with_format format o, args))
  else if starts_with option (B "--detail=") then
    _ ← filter_only (B "--detail may only be used with filter");
    detail ← parse_trace_detail (drop (length (B "--detail=")) option); Ok (inr (with_trace_detail detail o, args))
  else if named (B "--set") then
    if (length (po_supplied o) =? MAX_COMMAND_LINE_VARIABLES)%nat then Err (B "too many --set values; hard limit is " ++ decimal MAX_COMMAND_LINE_VARIABLES)
    else value ← text_value (B "--set value") value; v ← supplied_parse value; Ok (inr (with_supplied v o, rest))
  else if named (B "-a") || named (B "--argument") then
    value ← text_value (B "-a/--argument value") value; a ← push (po_arguments o) value; Ok (inr (with_arguments a o, rest))
  else Err usage.

(** Every option takes an argument off the list.
    Source: bin/procmail-rs.rs:636-638 `parse_args (loop)` *)
Fixpoint parse_options (fuel : nat) (action : Action) (args : list bytes) (o : ParsedOptions) : result bytes (Invocation + ParsedOptions) :=
  match fuel, args with
  | _, [] => Ok (inr o)
  | O, _ => Ok (inr o)
  | Datatypes.S fuel', option :: args =>
      next ← parse_option action option args o;
      match next with inl invocation => Ok (inl invocation) | inr (o, args) => parse_options fuel' action args o end
  end.

(** The arguments after the name of the program.
    Source: bin/procmail-rs.rs `fn parse_args` *)
Definition parse_args (args : list bytes) : result bytes Invocation :=
  match args with
  | [] => Err usage
  | action :: args =>
      let named name := bytes_eqb action name in
      let alone invocation := match args with [] => Ok invocation | _ => Err usage end in
      if named (B "-h") || named (B "--help") then alone IV_Help
      else if named (B "-V") || named (B "--version") then alone IV_Version
      else
        action ← (if named (B "check") then Ok A_Check else if named (B "filter") then Ok A_Filter else Err usage);
        parsed ← parse_options (length args) action args no_options;
        match parsed with
        | inl invocation => Ok invocation
        | inr o =>
            if bool_decide (action = A_Check) && bool_decide (is_Some (po_format o)) && negb (po_explain o) then
              Err (B "--format with check requires --explain")
            else
              Ok (IV_Run {| cl_action := action; cl_explain := po_explain o; cl_dry_run := po_dry_run o; cl_trace_format := default TF_Text (po_format o);
                            cl_trace_detail := po_detail o; cl_config := po_config o; cl_supplied := po_supplied o; cl_arguments := po_arguments o |})
        end
  end.
End command_line.

(** * The root configuration *)

(** [Path::join] *)
Definition path_join (base path : bytes) : bytes :=
  if starts_with path [c_SLASH] then path
  else if bool_decide (base = []) || ends_with base [c_SLASH] then base ++ path
  else base ++ [c_SLASH] ++ path.
(** [path.components()] has a [..]. *)
Definition has_parent_component (path : bytes) : bool := existsb (bytes_eqb (B "..")) (split_on (Z.eqb c_SLASH) path).
(** Source: delivery_runtime.rs `pub fn validate_maildir_path` *)
Definition validate_maildir_path (path : bytes) : result bytes () :=
  if bool_decide (path = []) then Err (B "path is empty")
  else if has_parent_component path then Err (B "path must not contain '..'")
  else Ok tt.

(** Source: source_location.rs `impl fmt::Display for SourceLocation` *)
Definition location_text (l : SourceLocation) : bytes :=
  match loc_file l with Some file => escaped_bytes file ++ B ":" | None => [] end ++ B "line " ++ decimal (loc_line l).
(** [display] of a path leaves valid text as it is.
    Source: rc_file.rs `impl fmt::Display for RcFileError` *)
Definition rc_file_error_text (e : RcFileError) : bytes :=
  match rfe_location e with
  | Some location => location_text location ++ B ": " ++ rfe_message e
  | None => B "cannot read " ++ rfe_path e ++ B ": " ++ rfe_message e
  end.

Section root.
Context {T : Target} {R : RegexEngine} {RC : RegexCompiler} (pid : bytes) {F : RcSource}.

Definition configuration_error {A} (r : result RcFileError A) : result OperationalError A :=
  map_err (fun e => OE_Configuration (rc_file_error_text e)) r.

(** The first file that is there.
    Source: bin/procmail-rs.rs:763-769 `load_root_config (candidates)` *)
Fixpoint first_candidate (candidates : list bytes) : option (result OperationalError (bytes * RcFileLoader * LoadedRcFile)) :=
  match candidates with
  | [] => None
  | path :: rest =>
      match for_root path with
      | Ok (loader, root) => Some (Ok (path, loader, root))
      | Err e => if not_found e then first_candidate rest else Some (Err (OE_Configuration (rc_file_error_text e)))
      end
  end.
Definition root_candidates (home : bytes) : list bytes := [path_join home (B ".config/procmail-rs/config"); path_join home (B ".procmailrc")].
(** Source: bin/procmail-rs.rs `fn load_root_config` *)
Definition load_root_config (explicit : option bytes) (home : bytes) : result OperationalError (bytes * RcFileLoader * LoadedRcFile) :=
  match explicit with
  | Some path => '(loader, root) ← configuration_error (for_root path); Ok (path, loader, root)
  | None =>
      default (Err (OE_Configuration (B "no rc file found; tried " ++ path_join home (B ".config/procmail-rs/config") ++ B " and " ++
                 path_join home (B ".procmailrc") ++ B " (use --config PATH to select one)")))
        (first_candidate (root_candidates home))
  end.

(** Source: rc_file.rs `pub fn parse(&self)` *)
Definition parse_loaded (root : LoadedRcFile) : result RcFileError Config :=
  config ← map_err (parse_file_error (lf_path root)) (RcParser.parse (lf_source root));
  map_err (rc_error (lf_path root)) (set_source_file config (lf_path root)).

(** The directory messages are staged in, before a run sets another.
    Source: config/mod.rs `pub fn maildir(&self)` *)
Definition config_maildir (c : Config) : option bytes :=
  foldl (fun maildir s =>
    match s with
    | S_Assignment a => if bool_decide (as_target a = Maildir) then Some (as_value a) else maildir
    | S_Unset u => if bool_decide (un_target u = Maildir) then None else maildir
    | _ => maildir
    end) None (statements c).

(** Source: bin/procmail-rs.rs:154-164 `run (supplied variables)` *)
Definition supplied_variables (home logname hostname version : bytes) (command_line : list SuppliedVariable) : result OperationalError (list SuppliedVariable) :=
  map_err OE_Configuration (
    home ← from_environment (B "HOME") home;
    logname ← from_environment (B "LOGNAME") logname;
    hostname ← from_system_hostname hostname;
    version ← from_program_version version;
    Ok ([home; logname; hostname; version] ++ command_line)).

(** The configuration of a run, with the loader of the files it may load.
    Source: bin/procmail-rs.rs:165-174 `run (root configuration)` *)
Definition root_configuration (explicit : option bytes) (home : bytes) (supplied : list SuppliedVariable) (arguments : PositionalArguments)
    : result OperationalError (bytes * RcFileLoader * Config) :=
  '(path, loader, root) ← load_root_config explicit home;
  config ← configuration_error (parse_loaded root);
  config ← map_err (fun e => OE_Configuration (path ++ B ":" ++ expansion_error_text e)) (Prepare.expand_with_arguments pid config supplied arguments);
  Ok (path, account_root_config loader config, config).

(** The directory, where it may be used.
    Source: bin/procmail-rs.rs:175-180 `run (staging directory)` *)
Definition check_staging (path : bytes) (c : Config) : result OperationalError (option bytes) :=
  match config_maildir c with
  | None => Ok None
  | Some maildir =>
      _ ← map_err (fun e => OE_Configuration (path ++ B ": invalid MAILDIR: " ++ e)) (validate_maildir_path maildir); Ok (Some maildir)
  end.
End root.
