(* ===== verification/Files.v ===== *)
(** The file system and the clock as the deliveries use them: the calls of the
    system are an interface, and what is built from them - the modes of new files
    in [src/src/delivery.rs], the opening of a directory component by component in
    [src/src/delivery/maildir.rs], the check for signals of
    [src/src/signal_state.rs] - is written out.  A descriptor that is dropped is
    closed by the system. *)
From S2P Require Import Prelude Effects Numbers Delivery Startup.
#[local] Open Scope Z_scope.

(** * Calls of the system *)

(** [fstat] and [statat] *)
Record Stat := { st_dev : Z; st_ino : Z; st_mode : Z; st_nlink : Z; st_uid : Z; st_size : Z; st_mtime : Z }.
Inductive OFlag := RDONLY | WRONLY | RDWR | CREATE | EXCL | TMPFILE | APPEND | DIRECTORY | O_PATH | CLOEXEC | NOFOLLOW.
Inductive FlockOperation := Unlock | NonBlockingLockExclusive.
Inductive FileType := RegularFile | Directory | CharacterDevice | OtherFile.
#[export] Instance FileType_eq_dec : EqDecision FileType.
Proof. solve_decision. Defined.
(** [FileType::from_raw_mode] *)
Definition file_type (mode : Z) : FileType :=
  let kind := Z.land mode 61440 in
  if kind =? 32768 then RegularFile else if kind =? 16384 then Directory else if kind =? 8192 then CharacterDevice else OtherFile.

(** What the crate [rustix] and the standard library do with the world [W];
    [Fd] is a descriptor.  Errors are numbers of the system.  A write that is
    interrupted is repeated here, as [write_all] does. *)
Inductive Base (Fd : Type) := CWD | At (fd : Fd).
Arguments CWD {Fd}.
Arguments At {Fd} fd.
Class Os (W Fd : Type) := {
  os_openat : Base Fd -> bytes -> list OFlag -> Z -> M W Z Fd;
  os_fstat : Fd -> M W Z Stat;
  os_statat : Fd -> bytes -> M W Z Stat;
  os_mkdirat : Fd -> bytes -> Z -> M W Z ();
  os_link_fd : Fd -> Fd -> bytes -> M W Z ();                       (* [linkat(file, "", .., EMPTY_PATH)] *)
  os_linkat : Fd -> bytes -> Fd -> bytes -> M W Z ();
  os_unlinkat : Fd -> bytes -> M W Z ();
  os_dupfd : Fd -> M W Z Fd;
  os_flock : Fd -> FlockOperation -> M W Z ();
  os_fsync : Fd -> M W Z ();
  os_ftruncate : Fd -> Z -> M W Z ();
  os_seek_end : Fd -> M W Z Z;
  os_write : Fd -> bytes -> M W Z nat;
  os_read : Fd -> nat -> M W Z bytes;
  os_getrandom : nat -> M W Z bytes;
  os_mapped : Fd -> nat -> M W Z bytes;
  os_getuid : W -> Z;
  os_pid : W -> Z;
  (** nanoseconds since the epoch, which may be before it *)
  os_system_time : W -> Z * W;
  (** nanoseconds of the clock that is never set back *)
  os_instant : W -> Z * W;
  os_sleep : Z -> W -> W;
  (** the signal that was received, or 0 *)
  os_signal : W -> Z;
}.

Lemma run_outcome {St E F A} (m : M St E A) w : run (outcome_of (F := F) m) w = (Ok (run m w).1, (run m w).2).
Proof. unfold outcome_of. cbn [run]. by destruct (run m w). Qed.
Lemma run_with_error {St E F A} (f : E -> F) (m : M St E A) w : run (with_error f m) w = (map_err f (run m w).1, (run m w).2).
Proof. unfold with_error. cbn [run]. by destruct (run m w). Qed.

Section files.
Context {P : Platform} {W Fd : Type} {OS : Os W Fd}.

(** [.map_err(io_error)] *)
Definition sys {A} (m : M W Z A) : M W IoError A := Comp (fun w => let '(r, w) := run m w in (map_err io_of_errno r, w)).
Lemma run_sys {A} (m : M W Z A) w : run (sys m) w = (map_err io_of_errno (run m w).1, (run m w).2).
Proof. unfold sys. cbn [run]. by destruct (run m w). Qed.
Definition system_time {E} : M W E Z := Comp (fun w => let '(t, w) := os_system_time w in (Ok t, w)).
Definition instant {E} : M W E Z := Comp (fun w => let '(t, w) := os_instant w in (Ok t, w)).
Definition refuse {A} (kind : ErrorKind) (text : bytes) : M W IoError A := stop_with (io_error kind text).

(** Source: delivery.rs `pub(crate) fn creation_mode` *)
Definition creation_mode (requested mask : Z) : Z :=
  let allowed := Z.land requested (Z.land (Z.lnot mask) (2 ^ 32 - 1)) in
  foldl (fun mode bit => if negb (Z.land allowed bit =? 0) then Z.lor mode bit else mode) 0 [256; 128; 64; 32; 16; 8; 4; 2; 1].

(** ** Signals *)

(** Source: signal_state.rs `pub fn received` *)
Definition received (w : W) : option ReceivedSignal := if os_signal w =? 0 then None else Some {| rs_number := os_signal w |}.
(** Source: signal_state.rs `pub fn name(self)` *)
Definition signal_name (s : ReceivedSignal) : bytes :=
  if rs_number s =? 1 then B "SIGHUP" else if rs_number s =? 2 then B "SIGINT" else if rs_number s =? 3 then B "SIGQUIT"
  else if rs_number s =? 15 then B "SIGTERM" else B "signal".
(** Source: signal_state.rs `pub fn check_io` *)
Definition check_io : M W IoError () := Comp (fun w =>
  match received w with
  | Some signal => (Err (io_error EK_Interrupted (B "interrupted by " ++ signal_name signal)), w)
  | None => (Ok tt, w)
  end).

(** ** Writing *)

(** [write_all] of the standard library over a descriptor; a write of some bytes
    leaves fewer, so the bytes bound the loop. *)
Fixpoint write_all_loop (fuel : nat) (fd : Fd) (l : bytes) : M W IoError () :=
  match fuel, l with
  | _, [] => mret tt
  | O, _ => refuse EK_WriteZero (B "failed to write whole buffer")
  | S fuel, _ =>
      n ← sys (os_write fd l);
      if bool_decide (n = O) then refuse EK_WriteZero (B "failed to write whole buffer") else write_all_loop fuel fd (drop n l)
  end.
(** Source: delivery/mbox.rs `impl Write for FdWriter` *)
Definition fd_write_all (fd : Fd) (l : bytes) : M W IoError () := write_all_loop (length l) fd l.

(** ** Paths *)

(** [Path::components] of the standard library. *)
Inductive Component := RootDir | CurDir | ParentDir | Normal (name : bytes).
Definition is_parent_component (c : Component) : bool := match c with ParentDir => true | _ => false end.
Definition is_normal_component (c : Component) : bool := match c with Normal _ => true | _ => false end.
Definition path_components (path : bytes) : list Component :=
  let names := split_on (Z.eqb c_SLASH) path in
  (if starts_with path [c_SLASH] then [RootDir] else if bool_decide (head names = Some [c_DOT]) then [CurDir] else []) ++
  ((fun name => if bytes_eqb name [c_DOT; c_DOT] then ParentDir else Normal name) <$>
   List.filter (fun name => negb (bytes_eqb name []) && negb (bytes_eqb name [c_DOT])) names).
(** [Path::file_name] and [Path::parent] *)
Definition path_file_name (path : list Component) : option bytes :=
  match last path with Some (Normal name) => Some name | _ => None end.
Definition path_parent (path : list Component) : option (list Component) :=
  match last path with None | Some RootDir => None | Some _ => Some (removelast path) end.
(** [path.parent().unwrap_or_else(|| Path::new("."))] *)
Definition parent_or_dot (path : list Component) : list Component := default [CurDir] (path_parent path).
Definition path_is_absolute (path : list Component) : bool := match path with RootDir :: _ => true | _ => false end.

(** Source: delivery/maildir.rs `pub(crate) fn open_directory_at` *)
Definition open_directory_at (base : Base Fd) (name : bytes) : M W IoError Fd :=
  sys (os_openat base name [RDONLY; DIRECTORY; CLOEXEC; NOFOLLOW] 0).
(** The item of Linux, and that of the other systems.
    Source: delivery/maildir.rs `fn open_path_directory_at` *)
Definition open_path_directory_at (base : Base Fd) (name : bytes) : M W IoError Fd :=
  if on_linux then sys (os_openat base name [O_PATH; DIRECTORY; CLOEXEC; NOFOLLOW] 0) else open_directory_at base name.
(** Source: delivery/maildir.rs:272-284 `open_directory_path (components)` *)
Fixpoint open_components (directory : Fd) (path : list Component) : M W IoError Fd :=
  match path with
  | [] => mret directory
  | (RootDir | CurDir) :: rest => open_components directory rest
  | Normal name :: rest => directory ← open_path_directory_at (At directory) name; open_components directory rest
  | ParentDir :: _ => refuse EK_InvalidInput (B "Maildir path changed during validation")
  end.
(** Source: delivery/maildir.rs `pub(crate) fn open_directory_path` *)
Definition open_directory_path (path : list Component) : M W IoError Fd :=
  if bool_decide (path = []) then refuse EK_InvalidInput (B "Maildir path is empty")
  else if existsb is_parent_component path then refuse EK_InvalidInput (B "Maildir path must not contain '..'")
  else if negb (path_is_absolute path) && negb (existsb is_normal_component path) then
    refuse EK_InvalidInput (B "Maildir path does not name a directory")
  else
    directory ← open_path_directory_at CWD (if path_is_absolute path then [c_SLASH] else [c_DOT]);
    open_components directory path.
End files.

(** The numbers of a Linux system, for the examples. *)
Definition linux_numbers : Platform :=
  {| errno_MFILE := 24; errno_EXIST := 17; errno_INTR := 4; errno_AGAIN := 11; errno_NOENT := 2;
     errno_kind := fun n => if n =? 17 then EK_AlreadyExists else if n =? 2 then EK_NotFound else EK_Other (B "uncategorized error");
     errno_text := fun n => B "os error " ++ z_decimal n; on_linux := true |}.
(** A system with a clock that answers no call but one on a file. *)
Definition clock_only {W : Type} (time : W -> Z) (sleep : Z -> W -> W) (create : M W Z ()) (stat : M W Z Stat) (lock : M W Z ()) : Os W () := {|
  os_openat := fun _ _ _ _ => create; os_fstat := fun _ => stat; os_statat := fun _ _ => stat; os_mkdirat := fun _ _ _ => stop_with 38;
  os_link_fd := fun _ _ _ => stop_with 38; os_linkat := fun _ _ _ _ => stop_with 38; os_unlinkat := fun _ _ => stop_with 38; os_dupfd := fun _ => stop_with 38;
  os_flock := fun _ _ => lock; os_fsync := fun _ => mret tt; os_ftruncate := fun _ _ => stop_with 38; os_seek_end := fun _ => stop_with 38;
  os_write := fun _ _ => stop_with 38; os_read := fun _ _ => stop_with 38; os_getrandom := fun _ => stop_with 38; os_mapped := fun _ _ => stop_with 38;
  os_getuid := fun _ => 1000; os_pid := fun _ => 1; os_system_time := fun w => (time w, w); os_instant := fun w => (time w, w);
  os_sleep := sleep; os_signal := fun _ => 0;
|}.
