(* ===== verification/LocalLock.v ===== *)
(** Local locks: [src/src/delivery/local_lock.rs].  A lock is taken with [flock] on
    a file that only its owner may use, or by creating a file that must not be
    there; both try again until a deadline, and look for a signal before every
    step.  The loops of the code have no bound of their own; those of the model
    follow [patience], which has no effect from a bound on
    ([LocalLock.acquire_lock_same], and [SessionFacts.program_ends] for a run).  Times
    are in nanoseconds. *)
From S2P Require Import Prelude Effects Numbers Variables Delivery Startup Files.
#[local] Open Scope Z_scope.

(** Source: delivery/local_lock.rs `const LOCK_FILE_MODE` *)
Definition LOCK_FILE_MODE : Z := 384.
(** Source: delivery/local_lock.rs `const DOTLOCK_FILE_MODE` *)
Definition DOTLOCK_FILE_MODE : Z := 292.
(** Source: delivery/local_lock.rs `const MAX_STALE_DOTLOCK_SIZE` *)
Definition MAX_STALE_DOTLOCK_SIZE : Z := 1024.
(** Source: delivery/local_lock.rs `const SIGNAL_POLL_INTERVAL` *)
Definition SIGNAL_POLL_INTERVAL : Z := 10000000.
Definition SECOND : Z := 1000000000.
(** The last [Instant] the system represents. *)
Definition INSTANT_MAX : Z := 2 ^ 63 * SECOND.
(** [Instant::checked_add] *)
Definition instant_add (instant delay : Z) : option Z := if instant + delay <? INSTANT_MAX then Some (instant + delay) else None.
(** The steps the model follows of a wait, and what it answers in place of those after. *)
Record Patience := { followed : nat; gives_up : IoError }.
(** An answer that the code does not give. *)
Definition out_of_patience : IoError := io_other (B "the model does not follow more steps").
Definition patient (steps : nat) : Patience := {| followed := steps; gives_up := out_of_patience |}.
Coercion patient : nat >-> Patience.
Bind Scope nat_scope with Patience.

(** Source: delivery/local_lock.rs `enum LockState` *)
Inductive LockState (Fd : Type) := LS_Flock (file : Fd) | LS_Dotlock (parent : Fd) (name : bytes).
Arguments LS_Flock {Fd}.
Arguments LS_Dotlock {Fd}.
(** Source: delivery/local_lock.rs `pub struct LocalLock` *)
Record LocalLock (Fd : Type) := { lock_state : LockState Fd }.
Arguments Build_LocalLock {Fd}.
Arguments lock_state {Fd}.

Section lock.
Context {P : Platform} {W Fd : Type} {OS : Os W Fd} (patience : Patience).

Definition sleep {E} (d : Z) : M W E () := Comp (fun w => (Ok tt, os_sleep d w)).
(** Source: delivery/local_lock.rs:320-327 `wait_for_retry (sleep)` *)
Fixpoint sleep_until (steps : nat) (retry_at : Z) : M W IoError () :=
  match steps with
  | O => stop_with (gives_up patience)
  | S steps =>
      _ ← check_io;
      now ← instant;
      if retry_at <? now then mret tt
      else _ ← sleep (Z.min SIGNAL_POLL_INTERVAL (retry_at - now)); sleep_until steps retry_at
  end.
(** Source: delivery/local_lock.rs `fn wait_for_retry` *)
Definition wait_for_retry (started timeout retry : Z) (timeout_message : bytes) : M W IoError () :=
  now ← instant;
  let elapsed := Z.max 0 (now - started) in
  if timeout <? elapsed then refuse EK_TimedOut timeout_message
  else
    let remaining := timeout - elapsed in
    if remaining =? 0 then refuse EK_TimedOut timeout_message
    else
      let delay := Z.min retry remaining in
      now ← instant;
      retry_at ← of_result (ok_or (io_other (B "lock retry deadline overflows")) (instant_add now delay));
      sleep_until (followed patience) retry_at.

(** Source: delivery/local_lock.rs:225-239 `acquire_flock_fd_with (loop)` *)
Fixpoint flock_loop (steps : nat) (try_lock : M W Z ()) (started timeout retry : Z) (timeout_message : bytes) : M W IoError () :=
  match steps with
  | O => stop_with (gives_up patience)
  | S steps =>
      _ ← check_io;
      attempt ← outcome_of try_lock;
      match attempt with
      | Ok _ => mret tt
      | Err error =>
          if error =? errno_INTR then flock_loop steps try_lock started timeout retry timeout_message
          else if error =? errno_AGAIN then
            _ ← wait_for_retry started timeout retry timeout_message;
            flock_loop steps try_lock started timeout retry timeout_message
          else stop_with (io_of_errno error)
      end
  end.
(** Source: delivery/local_lock.rs `fn acquire_flock_fd_with` *)
Definition acquire_flock_fd_with (try_lock : M W Z ()) (timeout retry : Z) (timeout_message : bytes) : M W IoError () :=
  started ← instant;
  flock_loop (followed patience) try_lock started timeout retry timeout_message.
(** Source: delivery/local_lock.rs `pub(super) fn acquire_flock_fd(` *)
Definition acquire_flock_fd (file : Fd) (timeout retry : Z) (timeout_message : bytes) : M W IoError () :=
  acquire_flock_fd_with (os_flock file NonBlockingLockExclusive) timeout retry timeout_message.
Definition lock_timed_out : bytes := B "timed out waiting for local lockfile".
(** Source: delivery/local_lock.rs `fn acquire_flock(` *)
Definition acquire_flock (parent : Fd) (name : bytes) (expected_uid timeout retry mask : Z) : M W IoError (LocalLock Fd) :=
  file ← sys (os_openat (At parent) name [RDWR; CREATE; CLOEXEC; NOFOLLOW] (creation_mode LOCK_FILE_MODE mask));
  stat ← sys (os_fstat file);
  if negb (bool_decide (file_type (st_mode stat) = RegularFile)) then refuse EK_InvalidInput (B "flock lockfile is not a regular file")
  else if negb (st_uid stat =? expected_uid) || negb (st_nlink stat =? 1) || negb (Z.land (st_mode stat) 63 =? 0) then
    refuse EK_PermissionDenied (B "flock lockfile has unsafe ownership, links, or permissions")
  else
    _ ← acquire_flock_fd file timeout retry lock_timed_out;
    mret {| lock_state := LS_Flock file |}.

(** A file whose size is negative, or does not fit, is not stale.
    Source: delivery/local_lock.rs `fn stale_dotlock` *)
Definition stale_dotlock (parent : Fd) (name : bytes) (timeout : Z) : M W IoError bool :=
  if timeout =? 0 then mret false
  else
    stat ← sys (os_statat parent name);
    if bool_decide (file_type (st_mode stat) = Directory) || (st_size stat <? 0) || (MAX_STALE_DOTLOCK_SIZE <? st_size stat) then mret false
    else
      time ← system_time;
      if time <? 0 then stop_with (io_other (B "system time precedes the Unix epoch"))
      else
        let modified := if st_mtime stat <? 0 then 0 else st_mtime stat in
        mret (timeout / SECOND <? Z.max 0 (time / SECOND - modified)).
(** Source: delivery/local_lock.rs:250-286 `acquire_dotlock (loop)` *)
Fixpoint dotlock_loop (steps : nat) (parent : Fd) (name : bytes) (started timeout retry mask : Z) : M W IoError (LocalLock Fd) :=
  match steps with
  | O => stop_with (gives_up patience)
  | S steps =>
      _ ← check_io;
      attempt ← outcome_of (os_openat (At parent) name [WRONLY; CREATE; EXCL; CLOEXEC; NOFOLLOW] (creation_mode DOTLOCK_FILE_MODE mask));
      match attempt with
      | Ok _ => mret {| lock_state := LS_Dotlock parent name |}
      | Err error =>
          if error =? errno_EXIST then
            stale ← stale_dotlock parent name timeout;
            if (stale : bool) then
              _ ← sys (os_unlinkat parent name);
              dotlock_loop steps parent name started timeout retry mask
            else
              _ ← wait_for_retry started timeout retry lock_timed_out;
              dotlock_loop steps parent name started timeout retry mask
          else stop_with (io_of_errno error)
      end
  end.
(** Source: delivery/local_lock.rs `fn acquire_dotlock` *)
Definition acquire_dotlock (parent : Fd) (name : bytes) (timeout retry mask : Z) : M W IoError (LocalLock Fd) :=
  started ← instant;
  dotlock_loop (followed patience) parent name started timeout retry mask.

(** [acquire] calls this with the same arguments.
    Source: delivery/local_lock.rs `fn acquire_with_policy_and_mask` *)
Definition acquire_lock (path : bytes) (method : LockMethodKind) (expected_uid timeout retry mask : Z) : M W IoError (LocalLock Fd) :=
  name ← of_result (ok_or (io_error EK_InvalidInput (B "lockfile path has no file name")) (path_file_name (path_components path)));
  parent ← open_directory_path (parent_or_dot (path_components path));
  match method with
  | Flock => acquire_flock parent name expected_uid timeout retry mask
  | Dotlock => acquire_dotlock parent name timeout retry mask
  end.
(** Source: delivery/local_lock.rs `impl Drop for LocalLock` *)
Definition drop_lock (lock : LocalLock Fd) (w : W) : W :=
  match lock_state lock with
  | LS_Flock file => (run (os_flock file Unlock) w).2
  | LS_Dotlock parent name => (run (os_unlinkat parent name) w).2
  end.
End lock.

(** Waiting for a lock: it ends, it is not given up before its time, and a lock file
    that is in use and not stale is left to its owner. *)

Section wait.
Context {P : Platform} {W Fd : Type} {OS : Os W Fd} (clock : W -> Z) (interruptions : W -> nat).

(** What the system documents of its clock: it is never set back, and a sleep
    advances it by what was asked, and by something. *)
Record ClockLaws : Prop := {
  law_instant : forall w, (os_instant w).1 = clock (os_instant w).2 /\ clock w <= clock (os_instant w).2 /\
    (interruptions (os_instant w).2 <= interruptions w)%nat;
  law_sleep : forall d w, 0 <= d -> clock w + Z.max 1 d <= clock (os_sleep d w) /\ (interruptions (os_sleep d w) <= interruptions w)%nat;
}.
(** A call that is interrupted [interruptions] times at most. *)
Definition interruptible (try_lock : M W Z ()) : Prop := forall w,
  clock w <= clock (run try_lock w).2 /\
  ((run try_lock w).1 = Err errno_INTR -> (interruptions (run try_lock w).2 < interruptions w)%nat) /\
  (interruptions (run try_lock w).2 <= interruptions w)%nat.
Context (laws : ClockLaws) (patience : nat).

Lemma check_io_run w : run check_io w = (Ok tt, w) \/ exists text, run check_io w = (Err (io_error EK_Interrupted text), w).
Proof. unfold check_io. cbn [run]. destruct (received w); [right; by eexists|by left]. Qed.
Lemma run_instant {E} w : run (instant (E := E)) w = (Ok (os_instant w).1, (os_instant w).2).
Proof. unfold instant. cbn [run]. by destruct (os_instant w). Qed.

Lemma sleep_until_ends steps retry_at w :
  Z.max 0 (retry_at - clock w + 1) < Z.of_nat steps ->
  let '(r, w') := run (sleep_until patience steps retry_at) w in
  (interruptions w' <= interruptions w)%nat /\ clock w <= clock w' /\
  match r with Ok _ => retry_at < clock w' | Err e => exists text, e = io_error EK_Interrupted text end.
Proof.
  revert w. induction steps as [|steps IH]; intros w Hw; [lia|]. cbn [sleep_until]. rewrite run_bind.
  destruct (check_io_run w) as [->|[text ->]]; [|split; [done|split; [lia|by exists text]]].
  rewrite run_bind, run_instant. destruct (law_instant laws w) as (Ht & Hc & Hi). rewrite Ht. set (w1 := (os_instant w).2) in *.
  destruct (Z.ltb_spec retry_at (clock w1)) as [H|H]; [by repeat split|].
  rewrite run_bind. cbn [run sleep]. destruct (law_sleep laws (Z.min SIGNAL_POLL_INTERVAL (retry_at - clock w1)) w1) as [Hs Hsi]; [unfold SIGNAL_POLL_INTERVAL; lia|].
  set (w2 := os_sleep _ w1) in *. specialize (IH w2). destruct (run (sleep_until patience steps retry_at) w2) as [r w'].
  destruct IH as (H1 & H2 & H3); [lia|]. split; [lia|split; [lia|done]].
Qed.

Lemma wait_ends started timeout retry message w :
  0 <= timeout -> 0 <= retry -> timeout + 1 < Z.of_nat patience -> started <= clock w ->
  let '(r, w') := run (wait_for_retry patience started timeout retry message) w in
  (interruptions w' <= interruptions w)%nat /\
  match r with
  | Ok _ => clock w < clock w' /\ exists now, clock w <= now < started + timeout /\ now < clock w'
  | Err e => e <> out_of_patience /\ clock w <= clock w' /\ (ie_kind e = EK_TimedOut -> started + timeout <= clock w')
  end.
Proof.
  intros Ht Hr Hp Hst. unfold wait_for_retry. change (followed patience) with patience. rewrite run_bind, run_instant. destruct (law_instant laws w) as (E1 & Hc1 & Hi1). rewrite E1.
  set (w1 := (os_instant w).2) in *. destruct (Z.ltb_spec timeout (Z.max 0 (clock w1 - started))) as [H|H];
    [cbn [run refuse stop_with]; split; [lia|split; [done|split; [lia|intros _; lia]]]|].
  destruct (Z.eqb_spec (timeout - Z.max 0 (clock w1 - started)) 0) as [H0|H0]; [cbn [run refuse stop_with]; split; [lia|split; [done|split; [lia|intros _; lia]]]|].
  rewrite run_bind, run_instant. destruct (law_instant laws w1) as (E2 & Hc2 & Hi2). rewrite E2. set (w2 := (os_instant w1).2) in *.
  rewrite run_bind, run_of_result. destruct (instant_add _ _) as [retry_at|] eqn:Ea; cbn [ok_or]; [|split; [lia|split; [done|split; [lia|done]]]].
  unfold instant_add in Ea. case_match; [|done]. injection Ea as <-.
  pose proof (sleep_until_ends patience (clock w2 + Z.min retry (timeout - Z.max 0 (clock w1 - started))) w2) as Hs.
  destruct (run (sleep_until _ _ _) w2) as [r w']. destruct Hs as (Hs1 & Hs2 & Hs3); [lia|]. split; [lia|]. destruct r as [[]|e].
  - split; [lia|]. exists (clock w1). lia.
  - destruct Hs3 as [text ->]. split; [done|split; [lia|done]].
Qed.

(** C14: Waiting for a kernel lock ends, and rightly.  With a clock that is never set
    back and calls that are not interrupted without end, the loop comes to an answer
    in as many steps as its time and the interruptions allow: the lock was taken by
    the last call, or a signal or an error of the system stopped the wait, or the
    time is over - and that is said only when it is. *)
Theorem flock_wait_ends try_lock timeout retry message w :
  interruptible try_lock -> errno_INTR <> errno_AGAIN -> 0 <= timeout -> 0 <= retry ->
  timeout + Z.of_nat (interruptions w) + 1 < Z.of_nat patience ->
  let '(r, w') := run (acquire_flock_fd_with patience try_lock timeout retry message) w in
  match r with
  | Ok _ => exists w1, run try_lock w1 = (Ok tt, w')
  | Err e => e <> out_of_patience /\ (ie_raw e = None -> ie_kind e = EK_TimedOut -> clock w + timeout <= clock w')
  end.
Proof.
  intros Htry Hne Ht Hr Hp. unfold acquire_flock_fd_with. change (followed patience) with patience. rewrite run_bind, run_instant. destruct (law_instant laws w) as (E1 & Hc1 & Hi1). rewrite E1.
  set (w1 := (os_instant w).2) in *. set (started := clock w1) in *.
  assert (timeout + 1 < Z.of_nat patience) as Hpw by lia.
  assert (Z.of_nat (interruptions w1) + Z.max 0 (started + timeout - clock w1 + 1) < Z.of_nat patience) as Hm by lia.
  assert (started <= clock w1) as Hst by (subst started; lia). clearbody started w1.
  clear Hp Hi1 E1. revert Hm. set (steps := patience) at 1 3. clearbody steps. revert w1 Hst.
  induction steps as [|steps IH]; intros wn Hst Hm; [lia|]. cbn [flock_loop]. rewrite run_bind.
  destruct (check_io_run wn) as [->|[text ->]]; [|by split].
  rewrite run_bind. unfold outcome_of at 1. cbn [run]. destruct (Htry wn) as (Hc & Hi & Hi').
  destruct (run try_lock wn) as [[[]|e] w2] eqn:Et; cbn [fst snd] in *; [by exists wn|].
  destruct (Z.eqb_spec e errno_INTR) as [->|Hint]; [apply IH; [lia|]; specialize (Hi eq_refl); lia|].
  destruct (Z.eqb_spec e errno_AGAIN) as [->|Hagain]; [|by split].
  rewrite run_bind. pose proof (wait_ends started timeout retry message w2 Ht Hr Hpw ltac:(lia)) as Hw.
  destruct (run (wait_for_retry _ _ _ _ _) w2) as [[[]|e] w3].
  - destruct Hw as (Hwi & Hwc & now & Hnow & Hnow'). apply IH; lia.
  - destruct Hw as (Hwi & Hne' & Hcc & Htime). split; [done|]. intros _ Hk. specialize (Htime Hk). lia.
Qed.
End wait.

(** ** Enough patience *)

(** The waits of the code are bounded by time alone, those of the model by the steps it
    follows, too.  From a number of steps on, that is no bound: the waits are the
    same however many more are followed. *)
Section patience.
Context {P : Platform} {W Fd : Type} {OS : Os W Fd} (clock : W -> Z) (disturbances : W -> nat) (few : nat).
(** A call that takes no time back and disturbs nothing. *)
Definition undisturbed {E A} (m : M W E A) : Prop := forall w, clock w <= clock (run m w).2 /\ (disturbances (run m w).2 <= disturbances w)%nat.
(** What the system documents of its calls, and what a wait relies on of the others
    that use it: a call is not interrupted, and stale lock files do not come up to be removed,
    more than [few] times while it lasts. *)
Record WaitLaws : Prop := {
  wl_clock : ClockLaws clock disturbances;
  wl_few : forall w, (disturbances w <= few)%nat;
  wl_flock : forall file, interruptible clock disturbances (os_flock file NonBlockingLockExclusive);
  wl_create : forall base name flags mode, undisturbed (os_openat base name flags mode);
  wl_stat : forall dir name, undisturbed (os_statat dir name);
  wl_time : forall w, clock w <= clock (os_system_time w).2 /\ (disturbances (os_system_time w).2 <= disturbances w)%nat;
  wl_remove : forall dir name, undisturbed (os_unlinkat dir name);
  wl_removed : forall dir name w w', run (os_unlinkat dir name) w = (Ok tt, w') -> (disturbances w' < disturbances w)%nat;
}.
Context (laws : WaitLaws).
Definition long_enough (timeout : Z) (patience : Patience) : Prop := timeout + Z.of_nat few + 3 <= Z.of_nat (followed patience).

Lemma sleep_until_same (p q : Patience) a b retry_at w :
  Z.max 0 (retry_at - clock w + 1) < Z.of_nat a -> Z.max 0 (retry_at - clock w + 1) < Z.of_nat b ->
  run (sleep_until p a retry_at) w = run (sleep_until q b retry_at) w.
Proof.
  revert b w. induction a as [|a IH]; intros [|b] w Ha Hb; [lia..|]. cbn [sleep_until]. rewrite !run_bind.
  destruct (check_io_run w) as [->|[text ->]]; [|done]. rewrite !run_bind, run_instant. destruct (law_instant _ _ (wl_clock laws) w) as (Ht & Hc & _). rewrite Ht.
  set (w1 := (os_instant w).2) in *. destruct (Z.ltb_spec retry_at (clock w1)); [done|]. rewrite !run_bind. cbn [run sleep].
  destruct (law_sleep _ _ (wl_clock laws) (Z.min SIGNAL_POLL_INTERVAL (retry_at - clock w1)) w1) as [Hs _]; [unfold SIGNAL_POLL_INTERVAL; lia|]. apply IH; lia.
Qed.
Lemma wait_same (p q : Patience) started timeout retry message w :
  0 <= timeout -> 0 <= retry -> timeout + 1 < Z.of_nat (followed p) -> timeout + 1 < Z.of_nat (followed q) -> started <= clock w ->
  run (wait_for_retry p started timeout retry message) w = run (wait_for_retry q started timeout retry message) w.
Proof.
  intros Ht Hr Hp Hq Hst. unfold wait_for_retry. rewrite !run_bind, run_instant. destruct (law_instant _ _ (wl_clock laws) w) as (E1 & Hc1 & _). rewrite E1.
  set (w1 := (os_instant w).2) in *. destruct (timeout <? _); [done|]. destruct (_ =? 0); [done|]. rewrite !run_bind, run_instant.
  destruct (law_instant _ _ (wl_clock laws) w1) as (E2 & Hc2 & _). rewrite E2. set (w2 := (os_instant w1).2) in *. rewrite !run_bind, run_of_result.
  destruct (instant_add _ _) as [retry_at|] eqn:Ea; cbn [ok_or]; [|done]. unfold instant_add in Ea. case_match; [|done]. injection Ea as <-.
  apply sleep_until_same; lia.
Qed.

(** The loops: what is left of the time and of the disturbances decides. *)
Context (p q : Patience) (timeout retry : Z) (Htimeout : 0 <= timeout) (Hretry : 0 <= retry) (Hp : long_enough timeout p) (Hq : long_enough timeout q).
Definition left_over (started : Z) (w : W) : Z := Z.of_nat (disturbances w) + Z.max 0 (started + timeout - clock w + 1).
Lemma left_over_fits started w : started <= clock w -> left_over started w < Z.of_nat (followed p) /\ left_over started w < Z.of_nat (followed q).
Proof. intros H. unfold left_over, long_enough in *. pose proof (wl_few laws w). lia. Qed.
Lemma waited_less started message w w' :
  started <= clock w -> run (wait_for_retry p started timeout retry message) w = (Ok tt, w') -> left_over started w' < left_over started w /\ clock w <= clock w'.
Proof.
  unfold long_enough in Hp. intros Hst. rewrite (wait_same p (patient (followed p))) by (cbn; lia). intros E.
  pose proof (wait_ends clock disturbances (wl_clock laws) (followed p) started timeout retry message w Htimeout Hretry) as H. rewrite E in H. destruct H as (Hi & Hc & now & Hnow & Hnow'); [lia|done|]. unfold left_over. lia.
Qed.
Lemma flock_same message started file a b w :
  started <= clock w -> left_over started w < Z.of_nat a -> left_over started w < Z.of_nat b ->
  run (flock_loop p a (os_flock file NonBlockingLockExclusive) started timeout retry message) w =
  run (flock_loop q b (os_flock file NonBlockingLockExclusive) started timeout retry message) w.
Proof.
  revert b w. induction a as [|a IH]; intros [|b] w Hst Ha Hb; [unfold left_over in *; lia..|]. cbn [flock_loop]. rewrite !run_bind.
  destruct (check_io_run w) as [->|[text ->]]; [|done]. rewrite !run_bind, run_outcome. destruct (wl_flock laws file w) as (Hc & Hi & Hi').
  destruct (run (os_flock file _) w) as [[[]|e] w1]; cbn [fst snd] in *; [done|].
  destruct (Z.eqb_spec e errno_INTR) as [->|_]; [specialize (Hi eq_refl); apply IH; unfold left_over in *; lia|].
  destruct (e =? errno_AGAIN); [|done]. assert (left_over started w1 <= left_over started w) as Hle by (unfold left_over; lia).
  rewrite !run_bind. unfold long_enough in *. rewrite <-(wait_same p q) by lia.
  destruct (run (wait_for_retry p _ _ _ _) w1) as [[[]|e'] w2] eqn:Ew; [|done]. apply waited_less in Ew as [H1 H2]; [|lia]. apply IH; lia.
Qed.
Lemma acquire_flock_fd_same file message : acquire_flock_fd p file timeout retry message = acquire_flock_fd q file timeout retry message.
Proof.
  unfold acquire_flock_fd, acquire_flock_fd_with. apply bind_ext. intros w started w'. rewrite run_instant. destruct (law_instant _ _ (wl_clock laws) w) as (-> & _ & _).
  intros [= <- <-]. destruct (left_over_fits (clock (os_instant w).2) (os_instant w).2); [lia|]. by apply flock_same.
Qed.

Lemma undisturbed_bind {E A C} (m : M W E A) (f : A -> M W E C) : undisturbed m -> (forall a, undisturbed (f a)) -> undisturbed (m ≫= f).
Proof.
  intros Hm Hf w. rewrite run_bind. specialize (Hm w). destruct (run m w) as [[a|e] w1]; cbn [snd] in *; [|done]. specialize (Hf a w1). lia.
Qed.
Lemma undisturbed_ret {E A} (a : A) : undisturbed (E := E) (mret a).
Proof. by intros w. Qed.
Lemma undisturbed_stop {E A} (e : E) : undisturbed (A := A) (stop_with e).
Proof. by intros w. Qed.
Lemma undisturbed_sys {A} (m : M W Z A) : undisturbed m -> undisturbed (sys m).
Proof. intros H w. rewrite run_sys. apply H. Qed.
Lemma stale_undisturbed parent name : undisturbed (stale_dotlock parent name timeout).
Proof.
  unfold stale_dotlock. case_match; [apply undisturbed_ret|]. apply undisturbed_bind; [apply undisturbed_sys, (wl_stat laws)|]. intros stat.
  case_match; [apply undisturbed_ret|]. apply undisturbed_bind; [|intros time; case_match; [apply undisturbed_stop|apply undisturbed_ret]].
  intros w. unfold system_time. cbn [run]. pose proof (wl_time laws w). by destruct (os_system_time w).
Qed.
Lemma dotlock_same parent name mask started a b w :
  started <= clock w -> left_over started w < Z.of_nat a -> left_over started w < Z.of_nat b ->
  run (dotlock_loop p a parent name started timeout retry mask) w = run (dotlock_loop q b parent name started timeout retry mask) w.
Proof.
  revert b w. induction a as [|a IH]; intros [|b] w Hst Ha Hb; [unfold left_over in *; lia..|]. cbn [dotlock_loop]. rewrite !run_bind.
  destruct (check_io_run w) as [->|[text ->]]; [|done]. rewrite !run_bind, run_outcome.
  match goal with |- context [run (os_openat ?d ?n ?f ?m) w] => pose proof (wl_create laws d n f m w) as [Hc Hi]; destruct (run (os_openat d n f m) w) as [[fd|e] w1] end;
    cbn [fst snd] in *; [done|].
  destruct (e =? errno_EXIST); [|done]. rewrite !run_bind. pose proof (stale_undisturbed parent name w1) as [Hc1 Hi1].
  destruct (run (stale_dotlock parent name timeout) w1) as [[[]|e'] w2]; cbn [fst snd] in *; [| |done]; rewrite !run_bind.
  - rewrite run_sys. pose proof (wl_remove laws parent name w2) as [Hc2 Hi2]. pose proof (wl_removed laws parent name w2) as Hr.
    destruct (run (os_unlinkat parent name) w2) as [[[]|e'] w3]; cbn [map_err fst snd] in *; [|done]. specialize (Hr w3 eq_refl). apply IH; unfold left_over in *; lia.
  - assert (left_over started w2 <= left_over started w) as Hle by (unfold left_over; lia). unfold long_enough in *. rewrite <-(wait_same p q) by lia.
    destruct (run (wait_for_retry p _ _ _ _) w2) as [[[]|e'] w3] eqn:Ew; [|done]. apply waited_less in Ew as [H1 H2]; [|lia]. apply IH; lia.
Qed.
(** A lock is waited for in the same way whatever the model follows. *)
Lemma acquire_lock_same path method uid mask : acquire_lock p path method uid timeout retry mask = acquire_lock q path method uid timeout retry mask.
Proof.
  unfold acquire_lock. apply bind_ext. intros _ name w _. f_equal. apply bind_ext. intros _ parent w1 _. f_equal. destruct method.
  - unfold acquire_flock. apply bind_ext. intros ? file ? _. f_equal. apply bind_ext. intros ? stat ? _. f_equal. by rewrite acquire_flock_fd_same.
  - unfold acquire_dotlock. apply bind_ext. intros w2 started w'. rewrite run_instant. destruct (law_instant _ _ (wl_clock laws) w2) as (-> & _ & _).
    intros [= <- <-]. destruct (left_over_fits (clock (os_instant w2).2) (os_instant w2).2); [lia|]. by apply dotlock_same.
Qed.
End patience.

Section dotlock.
Context {P : Platform} {W Fd : Type} {OS : Os W Fd} (patience : Patience) (parent : Fd) (name : bytes) (timeout retry mask : Z).
#[local] Abbreviation create_lock := (os_openat (At parent) name [WRONLY; CREATE; EXCL; CLOEXEC; NOFOLLOW] (creation_mode DOTLOCK_FILE_MODE mask)).

(** A lock file that is there and in use, as long as [held]: it cannot be created
    again, and what it shows is not stale; time passes. *)
Context (held : W -> Prop).
Definition in_use (stat : Stat) (time : Z) : Prop :=
  file_type (st_mode stat) = Directory \/ st_size stat < 0 \/ MAX_STALE_DOTLOCK_SIZE < st_size stat \/
  time / SECOND - Z.max 0 (st_mtime stat) <= timeout / SECOND.
Record OwnerLaws : Prop := {
  owner_create : forall w, held w -> (run create_lock w).1 = Err errno_EXIST /\ held (run create_lock w).2;
  owner_stat : forall w, held w -> held (run (os_statat parent name) w).2 /\
    match run (os_statat parent name) w with (Ok stat, w') => in_use stat (os_system_time w').1 | (Err _, _) => True end;
  owner_time : forall w, held w -> held (os_system_time w).2;
  owner_instant : forall w, held w -> held (os_instant w).2;
  owner_sleep : forall d w, held w -> held (os_sleep d w);
}.
Context (laws : OwnerLaws) (Htimeout : 0 <= timeout).

Lemma held_instant {E} : keeps_state held (instant (E := E)).
Proof. intros w Hw. rewrite run_instant. by apply (owner_instant laws). Qed.
Lemma held_check : keeps_state held check_io.
Proof. intros w Hw. by destruct (check_io_run w) as [->|[text ->]]. Qed.
Lemma held_sleep steps retry_at : keeps_state held (sleep_until patience steps retry_at).
Proof.
  induction steps as [|steps IH]; [apply keeps_stop|]. cbn [sleep_until]. apply keeps_bind; [apply held_check|intros _].
  apply keeps_bind; [apply held_instant|intros now]. case_match; [apply keeps_ret|]. apply keeps_bind; [|by intros _].
  intros w Hw. by apply (owner_sleep laws).
Qed.
Lemma held_wait started message : keeps_state held (wait_for_retry patience started timeout retry message).
Proof.
  unfold wait_for_retry. apply keeps_bind; [apply held_instant|intros now]. case_match; [apply keeps_stop|]. case_match; [apply keeps_stop|].
  apply keeps_bind; [apply held_instant|intros now']. apply keeps_bind; [apply keeps_of_result|intros retry_at]. apply held_sleep.
Qed.
Lemma not_stale w : held w ->
  held (run (stale_dotlock parent name timeout) w).2 /\ (run (stale_dotlock parent name timeout) w).1 <> Ok true.
Proof.
  intros Hw. unfold stale_dotlock. case_match; [done|]. rewrite run_bind. unfold sys. cbn [run].
  destruct (owner_stat laws w Hw) as [Hs Hu]. destruct (run (os_statat parent name) w) as [[stat|e] w1]; cbn [map_err]; [|done].
  destruct (bool_decide _ || _ || _) eqn:Eb; [done|]. rewrite !orb_false_iff, bool_decide_eq_false in Eb. destruct Eb as [[Hd Hsize] Hmax].
  unfold system_time. rewrite run_bind. cbn [run]. pose proof (owner_time laws w1 Hs) as Ht. destruct (os_system_time w1) as [time w2]. cbn [fst snd] in *.
  destruct (time <? 0); [done|]. split; [done|]. cbn [run mret M_ret fst]. intros [= E%Z.ltb_lt]. destruct Hu as [Hu|[Hu|[Hu|Hu]]]; [done|lia|lia|].
  assert (0 <= timeout / SECOND) by (apply Z.div_pos; unfold SECOND; lia). destruct (st_mtime stat <? 0) eqn:Em; lia.
Qed.

(** C15: A lock file that is in use is left to its owner.  While the file is there and
    not stale - it is a directory, or larger than a lock file is, or its time is not
    older than LOCKTIMEOUT - whoever asks for the lock neither gets it nor removes
    the file, however long they try. *)
Theorem dotlock_left_to_owner w :
  held w ->
  let '(r, w') := run (acquire_dotlock patience parent name timeout retry mask) w in held w' /\ is_ok r = false.
Proof.
  intros Hw. unfold acquire_dotlock. rewrite run_bind, run_instant. pose proof (owner_instant laws w Hw) as H1.
  set (w1 := (os_instant w).2) in *. clearbody w1. set (steps := followed patience). clearbody steps. clear Hw. revert w1 H1.
  induction steps as [|steps IH]; intros w1 H1; [done|]. cbn [dotlock_loop]. rewrite run_bind.
  destruct (check_io_run w1) as [->|[text ->]]; [|done]. rewrite run_bind. unfold outcome_of at 1. cbn [run].
  destruct (owner_create laws w1 H1) as [He H2]. destruct (run create_lock w1) as [r w2]. cbn [fst snd] in *. subst r. rewrite Z.eqb_refl, run_bind.
  destruct (not_stale w2 H2) as [H3 Hstale]. destruct (run (stale_dotlock _ _ _) w2) as [[[]|e] w3]; cbn [fst snd] in *; [done| |done].
  rewrite run_bind. pose proof (held_wait (os_instant w).1 lock_timed_out w3 H3) as H4. destruct (run (wait_for_retry _ _ _ _ _) w3) as [[[]|e] w4]; [by apply IH|done].
Qed.
(** A lock that was taken was created by the last call. *)
Lemma dotlock_created w lock w' :
  run (acquire_dotlock patience parent name timeout retry mask) w = (Ok lock, w') ->
  lock = {| lock_state := LS_Dotlock parent name |} /\ exists w1 fd, run create_lock w1 = (Ok fd, w').
Proof.
  unfold acquire_dotlock. intros (started & w1 & _ & H)%run_bind_Ok. revert w1 H. set (steps := followed patience). clearbody steps.
  induction steps as [|steps IH]; intros w1; cbn [dotlock_loop]; [done|]. rewrite run_bind.
  destruct (check_io_run w1) as [->|[text ->]]; [|done]. rewrite run_bind. unfold outcome_of at 1. cbn [run].
  destruct (run create_lock w1) as [[fd|e] w2] eqn:E; [intros [= <- <-]; eauto|].
  case_match; [|done]. intros (stale & w3 & _ & Hr)%run_bind_Ok. destruct stale; apply run_bind_Ok in Hr as ([] & w4 & _ & Hr); by apply IH in Hr.
Qed.
End dotlock.

(** A lock that is busy until a time, where the call is interrupted at first; its
    lock file is touched all the time. *)
Record busy := { busy_now : Z; busy_until : Z; busy_interruptions : nat }.
Definition busy_sleep (d : Z) (w : busy) : busy :=
  {| busy_now := busy_now w + Z.max 1 d; busy_until := busy_until w; busy_interruptions := busy_interruptions w |}.
Definition busy_try : M busy Z () := Comp (fun w =>
  match busy_interruptions w with
  | S n => (Err 4, {| busy_now := busy_now w; busy_until := busy_until w; busy_interruptions := n |})
  | O => if busy_now w <? busy_until w then (Err 11, w) else (Ok tt, w)
  end).
Definition busy_os : Os busy () := clock_only busy_now busy_sleep (stop_with 17)
  (gets (fun w => {| st_dev := 0; st_ino := 0; st_mode := 33060; st_nlink := 1; st_uid := 0; st_size := 1; st_mtime := busy_now w / SECOND |})) busy_try.
#[local] Existing Instance linux_numbers.
#[local] Existing Instance busy_os.
Definition sample_busy : busy := {| busy_now := 0; busy_until := 7; busy_interruptions := 2 |}.
Lemma busy_laws : ClockLaws busy_now busy_interruptions.
Proof. split; [by intros w|]. intros d w H. cbn. lia. Qed.
Lemma busy_interruptible : interruptible busy_now busy_interruptions busy_try.
Proof. intros [n u [|i]]; cbn; [case_match; cbn; repeat split; (done || lia)|repeat split; (done || lia)]. Qed.
Lemma flock_wait_ends_witness :
  is_ok (run (acquire_flock_fd_with 20 busy_try 10 3 lock_timed_out) sample_busy).1 = true /\
  let '(r, w') := run (acquire_flock_fd_with 20 busy_try 5 3 lock_timed_out) sample_busy in
  match r with
  | Ok _ => exists w1, run busy_try w1 = (Ok tt, w')
  | Err e => e <> out_of_patience /\ (ie_raw e = None -> ie_kind e = EK_TimedOut -> 0 + 5 <= busy_now w')
  end.
Proof.
  split; [by vm_compute|].
  exact (flock_wait_ends busy_now busy_interruptions busy_laws 20 busy_try 5 3 lock_timed_out sample_busy busy_interruptible ltac:(done) ltac:(done) ltac:(done) ltac:(done)).
Defined.
Lemma busy_owner : OwnerLaws tt (B "inbox.lock") (2 * SECOND) 0 (fun w => 0 <= busy_now w).
Proof.
  split; try done.
  - intros w Hw. split; [done|]. cbn. right. right. right. cbn [st_mtime]. assert (0 <= busy_now w / SECOND) by (by apply Z.div_pos).
    change (2 * SECOND / SECOND) with 2. lia.
  - intros d w Hw. cbn. lia.
Qed.
Lemma dotlock_left_to_owner_witness :
  let '(r, w') := run (acquire_dotlock 20 tt (B "inbox.lock") (2 * SECOND) SECOND 0) sample_busy in 0 <= busy_now w' /\ is_ok r = false.
Proof. exact (dotlock_left_to_owner 20 tt (B "inbox.lock") (2 * SECOND) SECOND 0 _ busy_owner ltac:(done) sample_busy ltac:(done)). Defined.
