(* ===== verification/Mbox.v ===== *)
(** Records of a mailbox file: [src/src/delivery/mbox.rs].  The postmark of a
    record, the record with the lines of the message that look like a postmark
    quoted, and the append to a locked file, which is undone when it fails. *)
From S2P Require Import Prelude Effects Numbers Calendar Config Variables HeaderFields Message Delivery Startup Files LocalLock.
#[local] Open Scope Z_scope.

(** * Postmarks *)

(** Source: delivery/mbox.rs `pub const MAX_POSTMARK_LEN` *)
Definition MAX_POSTMARK_LEN : nat := 512.
(** Source: delivery/mbox.rs `pub struct Postmark` *)
Record Postmark := { postmark_bytes : bytes }.
(** Source: delivery/mbox.rs `pub enum PostmarkError` *)
Inductive PostmarkError := TooLong | InvalidShape | NonAscii | TimeBeforeEpoch | TimeOutOfRange.
Definition FROM : bytes := B "From ".
(** Source: delivery/mbox.rs `pub fn new(bytes` *)
Definition new_postmark (l : bytes) : result PostmarkError Postmark :=
  let line := take (length l - 1) l in
  if (MAX_POSTMARK_LEN <? length l)%nat then Err TooLong
  else if negb (starts_with l FROM) || negb (ends_with l [c_LF]) || existsb (fun b => b =? c_LF) line then Err InvalidShape
  else if negb (forallb (fun b => is_ascii_graphic b || (b =? c_SP)) line) then Err NonAscii
  else Ok {| postmark_bytes := l |}.

(** The time is in nanoseconds since the epoch.
    Source: delivery/mbox.rs `pub fn generated` *)
Definition generated_postmark (time : Z) : result PostmarkError Postmark :=
  if time <? 0 then Err TimeBeforeEpoch
  else
    let seconds := time / 1000000000 in
    days ← ok_or TimeOutOfRange (i64_checked (seconds / 86400));
    let seconds_in_day := seconds mod 86400 in
    let hour := seconds_in_day / 3600 in
    let minute := seconds_in_day mod 3600 / 60 in
    let second := seconds_in_day mod 60 in
    date ← ok_or TimeOutOfRange (civil_from_days days);
    let '(year, month, day) := date in
    weekday ← ok_or TimeOutOfRange (weekday_names !! Z.to_nat (days mod 7));
    month ← ok_or TimeOutOfRange (if month =? 0 then None else month_names !! Z.to_nat (month - 1));
    new_postmark (B "From MAILER-DAEMON " ++ weekday ++ B " " ++ month ++ B " " ++ padded c_SP 2 day ++ B " " ++
                  padded c_0 2 hour ++ B ":" ++ padded c_0 2 minute ++ B ":" ++ padded c_0 2 second ++ B " " ++ padded c_0 4 year ++ [c_LF]).
(** Source: delivery/mbox.rs `impl fmt::Display for PostmarkError` *)
Definition postmark_error_text (e : PostmarkError) : bytes :=
  match e with
  | TooLong => B "mbox postmark exceeds its hard limit"
  | InvalidShape => B "mbox postmark must be one LF-terminated 'From ' line"
  | NonAscii => B "mbox postmark must contain only printable ASCII"
  | TimeBeforeEpoch => B "cannot generate mbox postmark before the Unix epoch"
  | TimeOutOfRange => B "cannot represent timestamp in mbox postmark"
  end.

(** * A record *)

(** [take_while(|b| b == '>').count()] *)
Fixpoint quote_depth (l : bytes) : nat :=
  match l with b :: rest => if b =? c_GT then S (quote_depth rest) else O | [] => O end.
(** Source: delivery/mbox.rs:370-381 `write_record (looks like a postmark)` *)
Definition looks_like_postmark (line : bytes) : bool := bytes_eqb (take 5 (drop (quote_depth line) line)) FROM.

Section record.
Context {W E : Type} (put : bytes -> M W E ()).

(** The loop over the lines of a message in two parts, where a line can span
    both.
    Source: delivery/mbox.rs:340-386 `write_record (lines)` *)
Fixpoint write_lines (fuel : nat) (first second : bytes) : M W E () :=
  match fuel with
  | O => mret tt
  | S fuel =>
      if bool_decide (first = []) && bool_decide (second = []) then mret tt
      else
        let '(first, second) := if bool_decide (first = []) then (second, []) else (first, second) in
        let '(line_first, line_second, first, second) :=
          match position (fun b => b =? c_LF) first with
          | Some index => (take (S index) first, [], drop (S index) first, second)
          | None =>
              let end_ := match position (fun b => b =? c_LF) second with Some index => S index | None => length second end in
              (first, take end_ second, [], drop end_ second)
          end in
        (if looks_like_postmark (line_first ++ line_second) then put [c_GT] else mret tt) ≫= fun _ =>
        put line_first ≫= fun _ =>
        put line_second ≫= fun _ =>
        write_lines fuel first second
  end.
(** Source: delivery/mbox.rs `pub fn write_record` *)
Definition write_record (postmark : Postmark) (message : MessageBytes) (ending : OutputEnding) : M W E () :=
  put (postmark_bytes postmark) ≫= fun _ =>
  write_lines (length (first_part message) + length (second_part message)) (first_part message) (second_part message) ≫= fun _ =>
  match ending with
  | Normalize =>
      if message_bytes_ends_with message [c_LF; c_LF] then mret tt
      else (if negb (message_bytes_ends_with message [c_LF]) then put [c_LF] else mret tt) ≫= fun _ => put [c_LF]
  | Preserve =>
      if negb (message_bytes_is_empty message) && negb (message_bytes_ends_with message [c_LF]) then put [c_LF] else mret tt
  end.
End record.

(** * The file *)

(** Source: delivery/mbox.rs `pub struct MboxAppendError` *)
Record MboxAppendError := { mae_source : IoError; mae_rollback : option IoError; mae_published : bool; mae_operation : DeliveryOperation }.
(** Source: delivery/mbox.rs `fn before_publication` *)
Definition append_before_publication (source : IoError) (rollback : option IoError) (operation : DeliveryOperation) : MboxAppendError :=
  {| mae_source := source; mae_rollback := rollback; mae_published := false; mae_operation := operation |}.
(** Source: delivery/mbox.rs `fn after_publication` *)
Definition append_after_publication (source : IoError) : MboxAppendError :=
  {| mae_source := source; mae_rollback := None; mae_published := true; mae_operation := DO_Unlock |}.
(** Source: delivery/mbox.rs `impl fmt::Display for MboxAppendError` *)
Definition append_error_text (e : MboxAppendError) : bytes :=
  B "cannot append mbox record: " ++ ie_text (mae_source e) ++
  match mae_rollback e with Some error => B "; cannot complete mailbox rollback: " ++ ie_text error | None => [] end.

Section mbox.
Context {P : Platform} {W Fd : Type} {OS : Os W Fd}.

(** Source: delivery/mbox.rs `pub fn class(&self)` *)
Definition append_class (e : MboxAppendError) : DeliveryFailureClass :=
  match mae_rollback e with Some _ => Internal | None => class_from_io_error (mae_source e) end.
(** Source: delivery/mbox.rs `pub fn failure(&self)` *)
Definition append_failure (e : MboxAppendError) : DeliveryFailure :=
  let failure := failure_from_io (mae_operation e) (mae_source e) (mae_published e) in
  {| df_class := append_class e; df_operation := df_operation failure; df_kind := df_kind failure; df_published := df_published failure |}.
(** Source: delivery/mbox.rs `pub fn rollback_failed` *)
Definition rollback_failed (e : MboxAppendError) : bool := bool_decide (is_Some (mae_rollback e)).

(** Source: delivery/mbox.rs `const MBOX_FILE_MODE` *)
Definition MBOX_FILE_MODE : Z := 384.
(** A file that is open, before and after it is locked.
    Source: delivery/mbox.rs `pub struct MboxFile` *)
Record MboxFile := { mb_file : Fd; mb_parent : Fd; mb_path : bytes }.
(** Source: delivery/mbox.rs `pub struct LockedMbox` *)
Record LockedMbox := { lm_file : Fd; lm_parent : Fd; lm_path : bytes }.

(** Source: delivery/mbox.rs `pub fn open(path` *)
Definition open_mbox (path : bytes) (mask : Z) : M W IoError MboxFile :=
  name ← of_result (ok_or (io_error EK_InvalidInput (B "mbox path has no file name")) (path_file_name (path_components path)));
  parent ← open_directory_path (parent_or_dot (path_components path));
  fd ← sys (os_openat (At parent) name [RDWR; CREATE; CLOEXEC; NOFOLLOW] (creation_mode MBOX_FILE_MODE mask));
  stat ← sys (os_fstat fd);
  if negb (bool_decide (file_type (st_mode stat) = RegularFile)) then refuse EK_InvalidInput (B "mbox destination is not a regular file")
  else if negb (st_nlink stat =? 1) then refuse EK_InvalidInput (B "mbox destination must have exactly one hard link")
  else mret {| mb_file := fd; mb_parent := parent; mb_path := path |}.

(** Source: delivery/mbox.rs `fn rollback_with` *)
Definition rollback_with (file : Fd) (original_len : Z) (durability : DurabilityPolicy)
    (truncate : Fd -> Z -> M W IoError ()) (sync : Fd -> M W IoError ()) : M W IoError () :=
  _ ← truncate file original_len;
  _ ← sys (os_seek_end file);
  match durability with DP_None => mret tt | _ => sync file end.
(** A failure before the record counts: the file is put back and unlocked. *)
Definition undo_append (locked : LockedMbox) (original_len : Z) (durability : DurabilityPolicy)
    (sync : Fd -> M W IoError ()) (truncate : Fd -> Z -> M W IoError ()) (source : IoError) (operation : DeliveryOperation)
    : M W MboxAppendError PublishedDelivery :=
  rollback ← outcome_of (rollback_with (lm_file locked) original_len durability truncate sync);
  _ ← outcome_of (os_flock (lm_file locked) Unlock);
  stop_with (append_before_publication source (match rollback with Err e => Some e | Ok _ => None end) operation).
(** Source: delivery/mbox.rs `fn append_with_operations` *)
Definition append_with_operations (locked : LockedMbox) (durability : DurabilityPolicy) (write : Fd -> M W IoError ())
    (sync : Fd -> M W IoError ()) (truncate : Fd -> Z -> M W IoError ()) : M W MboxAppendError PublishedDelivery :=
  original_len ← with_error (fun e => append_before_publication e None DO_Write) (sys (os_seek_end (lm_file locked)));
  operation ← outcome_of (_ ← with_error (fun e => (e, DO_Write)) (write (lm_file locked));
                       match durability with DP_None => mret tt | _ => with_error (fun e => (e, DO_SyncFile)) (sync (lm_file locked)) end);
  match operation with
  | Err (source, operation) => undo_append locked original_len durability sync truncate source operation
  | Ok _ =>
      directory ← outcome_of (match durability with DP_Full => sync (lm_parent locked) | _ => mret tt end);
      match directory with
      | Err source => undo_append locked original_len durability sync truncate source DO_SyncDirectory
      | Ok _ =>
          _ ← with_error append_after_publication (sys (os_flock (lm_file locked) Unlock));
          mret {| pub_last_folder := lm_path locked |}
      end
  end.
(** [append_with] and [append_with_sync] only pass these operations on.
    Source: delivery/mbox.rs `pub fn append<` *)
Definition append (locked : LockedMbox) (message : MessageBytes) (ending : OutputEnding) (durability : DurabilityPolicy)
    : M W MboxAppendError PublishedDelivery :=
  append_with_operations locked durability
    (fun file =>
       time ← system_time;
       postmark ← of_result (map_err (fun e => io_other (postmark_error_text e)) (generated_postmark time));
       write_record (fd_write_all file) postmark message ending)
    (fun file => sys (os_fsync file)) (fun file length => sys (os_ftruncate file length)).
(** Source: delivery/mbox.rs `pub fn lock(self` *)
Definition lock_mbox (patience : Patience) (mbox : MboxFile) (timeout retry : Z) : M W IoError LockedMbox :=
  _ ← acquire_flock_fd patience (mb_file mbox) timeout retry (B "timed out waiting for mbox lock");
  mret {| lm_file := mb_file mbox; lm_parent := mb_parent mbox; lm_path := mb_path mbox |}.
(** Source: delivery/mbox.rs `pub fn unlock(self)` *)
Definition unlock_mbox (locked : LockedMbox) : M W IoError () := sys (os_flock (lm_file locked) Unlock).
End mbox.
Arguments MboxFile : clear implicits.
Arguments LockedMbox : clear implicits.
