(* ===== verification/MboxFacts.v ===== *)
(** What a reader of a mailbox finds: a record is the postmark, the lines of the
    message with one [>] more before those that look like a postmark, and what ends
    it, so the records of a file are told apart and give the messages back; and an
    append that fails leaves the file as it was. *)
From S2P Require Import Prelude Effects Numbers Calendar Config Variables HeaderFields Message Delivery Startup Files LocalLock Mbox.
#[local] Open Scope Z_scope.

(** Computations that only add to what is seen of their state: the writers of
    messages, whatever they write to. *)

Section writer.
Context {W E : Type} {good : W -> Prop} {view : W -> bytes}.

(** A computation that adds to what is seen: all of [text] when it succeeds. *)
Definition adds {A} (m : M W E A) (text : bytes) : Prop :=
  forall w, good w -> good (run m w).2 /\ exists k, view (run m w).2 = view w ++ k /\ (is_ok (run m w).1 = true -> k = text).
Lemma adds_ret {A} (a : A) : adds (mret a) [].
Proof. intros w Hw. split; [done|]. exists []. by rewrite app_nil_r. Qed.
Lemma adds_bind {A C} (m : M W E A) (f : A -> M W E C) s t : adds m s -> (forall a, adds (f a) t) -> adds (m ≫= f) (s ++ t).
Proof.
  intros Hm Hf w Hw. destruct (Hm w Hw) as (Hg & k & Hk & Hok). rewrite run_bind. destruct (run m w) as [[a|e] w']; cbn in *.
  - destruct (Hf a w' Hg) as (Hg' & k' & Hk' & Hok'). split; [done|]. exists (k ++ k'). rewrite Hk', Hk, <- app_assoc.
    split; [done|]. intros H. by rewrite Hok, Hok' by done.
  - split; [done|]. by exists k.
Qed.
Lemma adds_stop {A} (e : E) s : adds (A := A) (stop_with e) s.
Proof. intros w Hw. split; [done|]. exists []. by rewrite app_nil_r. Qed.
Lemma adds_eq {A} (m : M W E A) s t : adds m s -> s = t -> adds m t.
Proof. by intros ? <-. Qed.
Lemma adds_if {A} (c : bool) (m n : M W E A) s t : adds m s -> adds n t -> adds (if c then m else n) (if c then s else t).
Proof. by destruct c. Qed.
End writer.
Arguments adds {W E} good view {A} m text.

(** * Records of a mailbox *)

(** * Lines *)

(** The lines of a text with their newlines; the last may have none. *)
Fixpoint lines (l : bytes) : list bytes :=
  match l with
  | [] => []
  | b :: rest =>
      if b =? c_LF then [b] :: lines rest
      else match lines rest with [] => [[b]] | line :: more => (b :: line) :: more end
  end.
Definition no_newline (l : bytes) : Prop := Forall (fun b => (b =? c_LF) = false) l.
(** A line with its newline. *)
Definition ended (l : bytes) : Prop := exists k, l = k ++ [c_LF].
Definition is_line (l : bytes) : Prop := exists k, no_newline k /\ l = k ++ [c_LF].

Lemma concat_lines l : concat (lines l) = l.
Proof.
  induction l as [|b l IH]; [done|]. cbn [lines]. case_match; cbn [concat app]; [by rewrite IH|].
  destruct (lines l) as [|w ws]; cbn [concat app] in *; by rewrite <- IH.
Qed.
Lemma lines_nil l : lines l = [] -> l = [].
Proof. destruct l; [done|]. cbn [lines]. case_match; [done|]. by destruct (lines l). Qed.
Lemma lines_line k rest : no_newline k -> lines (k ++ c_LF :: rest) = (k ++ [c_LF]) :: lines rest.
Proof. induction 1 as [|b k Hb Hk IH]; cbn [app lines]; [done|]. by rewrite Hb, IH. Qed.
Lemma lines_open k : no_newline k -> k <> [] -> lines k = [k].
Proof.
  induction 1 as [|b k Hb Hk IH]; [done|]. intros _. cbn [lines]. rewrite Hb. destruct k as [|b' k]; [done|]. by rewrite IH.
Qed.
Lemma lines_app l rest : ended l -> lines (l ++ rest) = lines l ++ lines rest.
Proof.
  intros [k ->]. rewrite <- app_assoc. cbn [app]. induction k as [|b k IH]; [done|]. cbn [app lines]. rewrite IH. case_match; [done|].
  destruct (lines (k ++ [c_LF])) as [|w ws] eqn:E; [|done]. apply lines_nil in E. by destruct k.
Qed.
Lemma lines_are_lines l : ended l -> Forall is_line (lines l).
Proof.
  intros [k ->]. induction k as [|b k IH]; [cbn; constructor; [exists []; split; [constructor|done]|constructor]|]. cbn [app lines].
  destruct (b =? c_LF) eqn:Hb; [constructor; [|done]; exists []; split; [constructor|by apply Z.eqb_eq in Hb as ->]|].
  destruct (lines (k ++ [c_LF])) as [|w ws] eqn:E; [apply lines_nil in E; by destruct k|].
  apply Forall_cons in IH as [(k' & Hk & ->) IH]. constructor; [|done]. exists (b :: k'). split; [by constructor|done].
Qed.
Lemma ended_concat ls : Forall is_line ls -> ls <> [] -> ended (concat ls).
Proof.
  intros H. induction H as [|l ls (k & _ & ->) H IH]; [done|]. intros _. destruct ls as [|l' ls]; [exists k; by rewrite concat_cons, app_nil_r|].
  destruct IH as [k' E]; [done|]. exists ((k ++ [c_LF]) ++ k'). cbn [concat]. cbn [concat] in E. rewrite E. by rewrite !app_assoc.
Qed.
(** The first line of a text, as the loop takes it. *)
Lemma lines_take_line l : l <> [] -> lines l = (take_line l).1 :: lines (take_line l).2.
Proof.
  intros Hl. unfold take_line. destruct (position _ l) as [i|] eqn:E.
  - apply position_Some in E as (pre & x & post & -> & <- & Hpre & Hx). apply Z.eqb_eq in Hx as ->.
    rewrite lines_line by done. rewrite (snoc_app pre c_LF post), <- (length_snoc pre c_LF), take_app_length, drop_app_length. done.
  - apply position_None in E. by rewrite lines_open.
Qed.

(** * Quoted lines *)

(** One [>] more before a line that looks like a postmark, and one less. *)
Definition quote_line (line : bytes) : bytes := if looks_like_postmark line then c_GT :: line else line.
Definition unquote_line (line : bytes) : bytes :=
  match line with b :: rest => if (b =? c_GT) && looks_like_postmark rest then rest else line | [] => [] end.
Definition is_postmark_line (line : bytes) : bool := starts_with line FROM.

Lemma looks_quoted line : looks_like_postmark (c_GT :: line) = looks_like_postmark line.
Proof. done. Qed.
Lemma unquote_quote line : unquote_line (quote_line line) = line.
Proof.
  unfold quote_line, unquote_line. destruct (looks_like_postmark line) eqn:E.
  - by rewrite Z.eqb_refl, E.
  - destruct line as [|b line]; [done|]. destruct (Z.eqb_spec b c_GT) as [->|]; [|done]. rewrite looks_quoted in E. by rewrite E.
Qed.
Lemma postmark_line_looks line : is_postmark_line line = true -> looks_like_postmark line = true.
Proof. intros [r ->]%starts_with_true. unfold looks_like_postmark. cbn. done. Qed.
Lemma quoted_is_no_postmark line : is_postmark_line (quote_line line) = false.
Proof.
  unfold quote_line. destruct (looks_like_postmark line) eqn:E; [done|]. destruct (is_postmark_line line) eqn:E'; [|done].
  apply postmark_line_looks in E'. congruence.
Qed.
Lemma quote_is_line line : is_line line -> is_line (quote_line line).
Proof. unfold quote_line. case_match; [|done]. intros (k & Hk & ->). exists (c_GT :: k). split; [by constructor|done]. Qed.

(** The text of a record. *)
Definition message_content (m : MessageBytes) : bytes := first_part m ++ second_part m.
Definition record_ending (ending : OutputEnding) (l : bytes) : bytes :=
  match ending with
  | Normalize => if ends_with l [c_LF; c_LF] then [] else (if ends_with l [c_LF] then [] else [c_LF]) ++ [c_LF]
  | Preserve => if bool_decide (l = []) || ends_with l [c_LF] then [] else [c_LF]
  end.
Definition record_text (postmark : Postmark) (ending : OutputEnding) (l : bytes) : bytes :=
  postmark_bytes postmark ++ concat (quote_line <$> lines l) ++ record_ending ending l.

(** * The writer of a record *)

Section writer.
Context {W E : Type} (good : W -> Prop) (view : W -> bytes).
#[local] Abbreviation adds := (adds good view).
Context (put : bytes -> M W E ()) (Hput : forall l, adds (put l) l).

(** The line the loop finds in the two parts, and what is left of them. *)
Lemma line_of_parts first second :
  first <> [] ->
  let '(line_first, line_second, first', second') :=
    match position (fun b => b =? c_LF) first with
    | Some index => (take (S index) first, [], drop (S index) first, second)
    | None =>
        let end_ := match position (fun b => b =? c_LF) second with Some index => S index | None => length second end in
        (first, take end_ second, [], drop end_ second)
    end in
  line_first ++ line_second = (take_line (first ++ second)).1 /\ first' ++ second' = (take_line (first ++ second)).2 /\
  (length first' + length second' < length first + length second)%nat.
Proof.
  intros Hne. unfold take_line. destruct (position _ first) as [i|] eqn:Ep.
  - apply position_Some in Ep as Ep'. destruct Ep' as (pre & x & post & -> & <- & Hpre & Hx).
    rewrite <- !app_assoc. cbn [app]. rewrite (position_app_cons _ pre x (post ++ second)) by done. cbn [fst snd].
    rewrite (snoc_app pre x post), (snoc_app pre x (post ++ second)), <- !(length_snoc pre x), !take_app_length, !drop_app_length, app_nil_r. rewrite length_app, length_snoc. split; [done|split; [done|lia]].
  - apply position_None in Ep. rewrite position_app_none by done.
    assert (0 < length first)%nat by (destruct first; [done|cbn; lia]).
    destruct (position _ second) as [i|]; cbn [fmap option_fmap option_map].
    + cbn [fst snd]. rewrite !take_app_ge, !drop_app_ge by lia. replace (S (length first + i) - length first)%nat with (S i) by lia.
      rewrite length_drop. cbn [length]. split; [done|split; [done|lia]].
    + cbn [fst snd]. rewrite drop_all, take_ge by done. cbn [length]. split; [done|split; [done|lia]].
Qed.

Lemma write_line_adds fuel f s :
  f <> [] ->
  (forall f' s', (length f' + length s' < length f + length s)%nat ->
     adds (write_lines put fuel f' s') (concat (quote_line <$> lines (f' ++ s')))) ->
  adds (let '(line_first, line_second, first, second) :=
          match position (fun b => b =? c_LF) f with
          | Some index => (take (S index) f, [], drop (S index) f, s)
          | None =>
              let end_ := match position (fun b => b =? c_LF) s with Some index => S index | None => length s end in
              (f, take end_ s, [], drop end_ s)
          end in
        (if looks_like_postmark (line_first ++ line_second) then put [c_GT] else mret tt) ≫= fun _ =>
        put line_first ≫= fun _ => put line_second ≫= fun _ => write_lines put fuel first second)
       (concat (quote_line <$> lines (f ++ s))).
Proof.
  intros Hne IH. pose proof (line_of_parts f s Hne) as Hparts. destruct (match position _ f with Some _ => _ | None => _ end) as [[[lf ls] f'] s'].
  destruct Hparts as (El & Er & Hlen). rewrite (lines_take_line (f ++ s)) by (by destruct f). rewrite <- El, <- Er. cbn [fmap list_fmap concat].
  eapply adds_eq.
  - apply adds_bind; [apply (adds_if _ _ _ [c_GT] []); [apply Hput|apply adds_ret]|intros _].
    apply adds_bind; [apply Hput|intros _]. apply adds_bind; [apply Hput|intros _; by apply IH].
  - unfold quote_line. case_match; by rewrite !app_assoc.
Qed.
Lemma write_lines_adds fuel first second :
  (length first + length second <= fuel)%nat -> adds (write_lines put fuel first second) (concat (quote_line <$> lines (first ++ second))).
Proof.
  revert first second. induction fuel as [|fuel IH]; intros first second Hf; cbn [write_lines].
  { destruct first, second; cbn in Hf; try lia. apply adds_ret. }
  destruct (decide (first = [])) as [->|H1].
  - destruct (decide (second = [])) as [->|H2]; [apply adds_ret|]. rewrite (bool_decide_true ([] = [])), bool_decide_false by done. cbn [andb].
    change (lines ([] ++ second)) with (lines second). rewrite <- (app_nil_r second) at 2. apply write_line_adds; [done|]. intros f' s' H. apply IH. cbn [length] in *. lia.
  - rewrite (bool_decide_false (first = [])) by done. cbn [andb]. apply write_line_adds; [done|]. intros f' s' H. apply IH. lia.
Qed.
Lemma write_record_adds postmark message ending :
  adds (write_record put postmark message ending) (record_text postmark ending (message_content message)).
Proof.
  destruct (message_bytes_ends_with_spec message [c_LF; c_LF]) as [E2 E0], (message_bytes_ends_with_spec message [c_LF]) as [E1 _].
  unfold write_record, record_text. apply adds_bind; [apply Hput|intros _]. apply adds_bind; [by apply write_lines_adds|intros _].
  rewrite E2, E1. fold (message_content message) in E0 |- *. unfold record_ending. destruct ending.
  - destruct (ends_with (message_content message) [c_LF; c_LF]); [apply adds_ret|]. apply adds_bind; [|intros _; apply Hput].
    destruct (ends_with (message_content message) [c_LF]); [apply adds_ret|apply Hput].
  - assert (message_bytes_is_empty message = bool_decide (message_content message = [])) as ->.
    { case_bool_decide as Hm; [by apply E0|]. apply not_true_iff_false. by rewrite E0. }
    destruct (bool_decide _); [apply adds_ret|]. destruct (ends_with (message_content message) [c_LF]); [apply adds_ret|apply Hput].
Qed.
End writer.

(** * Reading a mailbox *)

Lemma lines_concat ls : Forall is_line ls -> lines (concat ls) = ls.
Proof. induction 1 as [|l ls (k & Hk & ->) H IH]; [done|]. cbn [concat]. rewrite <- app_assoc. cbn [app]. by rewrite lines_line, IH. Qed.
Lemma last_line l : exists a k, l = a ++ k /\ (a = [] \/ ended a) /\ no_newline k.
Proof.
  induction l as [|b l (a & k & -> & Ha & Hk)]; [by exists [], []; repeat split; [left|constructor]|].
  destruct Ha as [->|[a' ->]]; [destruct (b =? c_LF) eqn:Hb|].
  - apply Z.eqb_eq in Hb as ->. exists [c_LF], k. split; [done|split; [right; by exists []|done]].
  - exists [], (b :: k). split; [done|split; [by left|by constructor]].
  - exists (b :: a' ++ [c_LF]), k. split; [done|split; [right; by exists (b :: a')|done]].
Qed.
Lemma quote_depth_newline k : quote_depth (k ++ [c_LF]) = quote_depth k.
Proof. induction k as [|b k IH]; [done|]. cbn [app quote_depth]. by rewrite IH. Qed.
Lemma quote_depth_le k : (quote_depth k <= length k)%nat.
Proof. induction k as [|b k IH]; cbn [quote_depth length]; [lia|case_match; lia]. Qed.
Lemma looks_newline k : looks_like_postmark (k ++ [c_LF]) = looks_like_postmark k.
Proof.
  unfold looks_like_postmark. rewrite quote_depth_newline, drop_app_le by apply quote_depth_le. set (r := drop _ k).
  do 5 (destruct r as [|? r];
    [unfold bytes_eqb; transitivity false; [|symmetry]; apply bool_decide_eq_false_2; intros H; cbn in H; by inversion H|]). done.
Qed.
Lemma quote_newline k : quote_line (k ++ [c_LF]) = quote_line k ++ [c_LF].
Proof. unfold quote_line. rewrite looks_newline. by case_match. Qed.
Lemma no_newline_quote k : no_newline k -> no_newline (quote_line k).
Proof. unfold quote_line. case_match; [by constructor|done]. Qed.

(** Quoting line by line, and then ending, is quoting the lines of what is ended. *)
Lemma lines_quoted l t n :
  t = replicate n c_LF -> l ++ t = [] \/ ended (l ++ t) -> lines (concat (quote_line <$> lines l) ++ t) = quote_line <$> lines (l ++ t).
Proof.
  intros Ht Hend. destruct (last_line l) as (a & k & -> & Ha & Hk).
  assert (forall n, quote_line <$> lines (replicate n c_LF) = lines (replicate n c_LF)) as Hnew.
  { induction n0 as [|m IH]; [done|]. cbn [replicate lines]. rewrite Z.eqb_refl. cbn [fmap list_fmap]. by rewrite IH. }
  assert (lines (concat (quote_line <$> lines k) ++ t) = quote_line <$> lines (k ++ t)) as Hlast.
  { destruct k as [|b k]; [by rewrite Ht; cbn [lines fmap list_fmap concat app]; rewrite Hnew|].
    rewrite (lines_open (b :: k)) by done. cbn [fmap list_fmap concat]. rewrite app_nil_r. destruct n as [|n]; subst t.
    - exfalso. rewrite app_nil_r in Hend. destruct Hend as [H|[k' H]]; [by destruct a|].
      apply (f_equal last) in H. rewrite last_snoc in H. rewrite last_app_cons in H.
      assert (exists x, last (b :: k) = Some x /\ x ∈ b :: k) as (x & Hx & Hin).
      { destruct (last (b :: k)) as [x|] eqn:E; [|by apply last_None in E]. exists x. split; [done|]. apply last_Some in E as [m ->]. apply elem_of_app. right. constructor. }
      rewrite Hx in H. injection H as ->. unfold no_newline in Hk. rewrite Forall_forall in Hk. by apply Hk in Hin.
    - cbn [replicate]. rewrite lines_line by by apply no_newline_quote. rewrite (lines_line (b :: k)) by done. cbn [fmap list_fmap].
      by rewrite quote_newline, Hnew. }
  destruct Ha as [->|Ha]; [done|]. rewrite <- (app_assoc a), (lines_app a k), (lines_app a (k ++ t)), !fmap_app, concat_app, <- app_assoc by done.
  pose proof (lines_are_lines a Ha) as Hal. assert (Forall is_line (quote_line <$> lines a)) as Hql by (apply Forall_fmap; eapply Forall_impl; [exact Hal|apply quote_is_line]).
  rewrite lines_app, lines_concat, Hlast; [done|done|]. apply ended_concat; [done|].
  intros E%fmap_nil_inv. apply lines_nil in E as ->. destruct Ha as [? ?]. by destruct x.
Qed.

(** What a reader of an mboxrd file finds: the text before the first postmark, and
    the messages with their postmarks. *)
Definition read_lines (ls : list bytes) : bytes * list (bytes * bytes) :=
  foldr (fun line '(text, records) => if is_postmark_line line then ([], (line, text) :: records) else (unquote_line line ++ text, records)) ([], []) ls.
Definition read_mailbox (file : bytes) : bytes * list (bytes * bytes) := read_lines (lines file).

Lemma read_quoted ls rest :
  read_lines ((quote_line <$> ls) ++ rest) = (concat ls ++ (read_lines rest).1, (read_lines rest).2).
Proof.
  induction ls as [|l ls IH]; [cbn [fmap list_fmap app concat]; by destruct (read_lines rest)|]. cbn [fmap list_fmap app read_lines foldr].
  change (foldr _ _ _) with (read_lines ((quote_line <$> ls) ++ rest)). rewrite IH, quoted_is_no_postmark, unquote_quote. cbn [concat]. by rewrite app_assoc.
Qed.
Lemma ending_newlines ending l : exists n, record_ending ending l = replicate n c_LF /\ (l ++ record_ending ending l = [] \/ ended (l ++ record_ending ending l)).
Proof.
  assert (forall k, ends_with l (k ++ [c_LF]) = true -> ended l) as Hends.
  { intros k H. unfold ends_with in H. apply andb_true_iff in H as [_ H%bytes_eqb_true].
    exists (take (length l - length (k ++ [c_LF])) l ++ k). rewrite <- app_assoc.
    rewrite <- (take_drop (length l - length (k ++ [c_LF])) l) at 1. by rewrite H. }
  unfold record_ending. destruct ending.
  - destruct (ends_with l [c_LF; c_LF]) eqn:E; [exists 0%nat; split; [done|right; rewrite app_nil_r; by apply (Hends [c_LF])]|].
    destruct (ends_with l [c_LF]); [exists 1%nat|exists 2%nat]; (split; [done|right]); [by exists l|exists (l ++ [c_LF])]. by rewrite <- app_assoc.
  - case_bool_decide as Hl; [exists 0%nat; split; [done|left; by subst]|]. cbn [orb].
    destruct (ends_with l [c_LF]) eqn:E; [exists 0%nat; split; [done|right; rewrite app_nil_r; by apply (Hends [])]|exists 1%nat; split; [done|right; by exists l]].
Qed.
Lemma postmark_line p l : new_postmark l = Ok p -> postmark_bytes p = l /\ is_postmark_line l = true /\ is_line l.
Proof.
  unfold new_postmark. destruct (_ <? _)%nat; [done|]. destruct (starts_with l FROM) eqn:Hf; [|done]. destruct (ends_with l [c_LF]) eqn:He; [|done].
  destruct (existsb _ _) eqn:Hn; [done|]. cbn [negb orb]. destruct (forallb _ _); [|done]. intros [= <-]. split; [done|]. split; [done|].
  unfold ends_with in He. apply andb_true_iff in He as [Hlen He%bytes_eqb_true]. cbn [length] in He. exists (take (length l - 1) l). split.
  - apply Forall_forall. intros x Hx. destruct (x =? c_LF) eqn:E; [|done]. exfalso. apply not_true_iff_false in Hn. apply Hn, existsb_exists. exists x.
    split; [by apply list_elem_of_In|done].
  - rewrite <- (take_drop (length l - 1) l) at 1. by rewrite He.
Qed.

Lemma lines_body ending l rest :
  lines ((concat (quote_line <$> lines l) ++ record_ending ending l) ++ rest) = (quote_line <$> lines (l ++ record_ending ending l)) ++ lines rest.
Proof.
  destruct (ending_newlines ending l) as (n & Hn & Hend). pose proof (lines_quoted l _ n Hn Hend) as H.
  set (body := concat _ ++ _) in *. rewrite <- H. destruct Hend as [E|E].
  - rewrite E in H. apply lines_nil in H. by rewrite H.
  - apply lines_app. rewrite <- (concat_lines body), H. apply ended_concat.
    + apply Forall_fmap. eapply Forall_impl; [by apply lines_are_lines|apply quote_is_line].
    + intros E'%fmap_nil_inv%lines_nil. rewrite E' in E. destruct E as [k E]. by destruct k.
Qed.

Lemma read_records ending (records : list (Postmark * bytes)) :
  Forall (fun r => exists l, new_postmark l = Ok r.1) records ->
  read_mailbox (concat ((fun r => record_text r.1 ending r.2) <$> records)) =
  ([], (fun r => (postmark_bytes r.1, r.2 ++ record_ending ending r.2)) <$> records).
Proof.
  unfold read_mailbox. induction 1 as [|[p l] records [q Hq] H IH]; [done|]. cbn [fst snd] in *.
  destruct (postmark_line _ _ Hq) as (Hp & Hm & k & Hk & ->). cbn [fmap list_fmap concat fst snd]. unfold record_text at 1. rewrite Hp.
  rewrite <- (app_assoc (k ++ [c_LF])), lines_app, lines_line, lines_body by first [done|by exists k]. cbn [lines app read_lines foldr].
  change (foldr _ _ _) with (read_lines ((quote_line <$> lines (l ++ record_ending ending l)) ++ lines (concat ((fun r => record_text r.1 ending r.2) <$> records)))).
  rewrite read_quoted, IH, Hm, concat_lines. cbn [fst snd]. by rewrite app_nil_r.
Qed.
(** A file in memory, and records written to it one after the other. *)
Definition put_memory (l : bytes) : M bytes Empty_set () := modify (fun file => file ++ l).
Definition write_mailbox (ending : OutputEnding) (records : list (Postmark * MessageBytes)) (file : bytes) : bytes :=
  foldl (fun file r => (run (write_record put_memory r.1 r.2 ending) file).2) file records.
Lemma write_mailbox_text ending records file :
  write_mailbox ending records file = file ++ concat ((fun r => record_text r.1 ending (message_content r.2)) <$> records).
Proof.
  revert file. induction records as [|[p m] records IH]; intros file; [by rewrite app_nil_r|]. cbn [write_mailbox foldl fmap list_fmap concat fst snd].
  unfold write_mailbox in IH. rewrite IH, app_assoc. f_equal.
  assert (adds (fun _ => True) (fun w => w) (write_record put_memory p m ending) (record_text p ending (message_content m))) as H.
  { apply write_record_adds. intros l w _. split; [done|]. by exists l. }
  destruct (H file I) as (_ & k & Hk & Hok). rewrite Hk. destruct (run _ file) as [[a|[]] w]. by rewrite Hok.
Qed.

(** C8: A mailbox gives its messages back.  However many records are written one
    after another, each with a postmark of its own and any bytes in two parts for
    its message, a reader that takes the lines that begin with [From ] for
    postmarks, and one [>] off the lines that are quoted, finds these records and no
    other, with the bytes of each message and only what ends the record after them:
    no line of a message is taken for the postmark of another. *)
Theorem mailbox_roundtrip ending (records : list (Postmark * MessageBytes)) :
  Forall (fun r => exists l, new_postmark l = Ok r.1) records ->
  read_mailbox (write_mailbox ending records []) =
  ([], (fun r => (postmark_bytes r.1, message_content r.2 ++ record_ending ending (message_content r.2))) <$> records).
Proof.
  intros H. rewrite write_mailbox_text. cbn [app]. pose proof (read_records ending ((fun r => (r.1, message_content r.2)) <$> records)) as Hr.
  rewrite <- !list_fmap_compose in Hr. apply Hr. by apply Forall_fmap.
Qed.
Definition sample_postmark : Postmark := {| postmark_bytes := B "From MAILER-DAEMON Thu Jan  1 00:00:00 1970" ++ [c_LF] |}.
Definition sample_record : Postmark * MessageBytes :=
  (sample_postmark, {| first_part := B "Subject: x" ++ [c_LF; c_LF] ++ B "Fr"; second_part := B "om here" ++ [c_LF] ++ B ">From there" |}).
Lemma mailbox_roundtrip_witness : (read_mailbox (write_mailbox Normalize [sample_record; sample_record] [])).1 = [].
Proof.
  rewrite (mailbox_roundtrip Normalize [sample_record; sample_record]); [done|].
  constructor; [|constructor; [|constructor]]; (exists (postmark_bytes sample_postmark); by vm_compute).
Defined.
Example sample_record_text :
  write_mailbox Preserve [sample_record] [] =
  postmark_bytes sample_postmark ++ B "Subject: x" ++ [c_LF; c_LF] ++ B ">From here" ++ [c_LF] ++ B ">>From there" ++ [c_LF].
Proof. by vm_compute. Qed.

(** * Postmarks *)

Definition postmark_byte (b : byte) : bool := is_ascii_graphic b || (b =? c_SP).
Lemma digits_fit l : forallb is_ascii_digit l = true -> forallb postmark_byte l = true.
Proof.
  rewrite !forallb_forall. intros H b Hb. specialize (H b Hb). unfold postmark_byte, is_ascii_graphic, is_ascii_digit, between in *. lia.
Qed.
Lemma padded_fits fill width n : postmark_byte fill = true -> 0 <= n < 2 ^ 63 -> (width <= 64)%nat ->
  forallb postmark_byte (padded fill width n) = true /\ (length (padded fill width n) <= 64)%nat.
Proof.
  intros Hf Hn Hw. unfold padded. rewrite forallb_app, length_app, length_replicate. pose proof (length_z_decimal n Hn) as Hl.
  split; [|lia]. apply andb_true_iff. split; [|rewrite z_decimal_nonneg by lia; apply digits_fit, decimal_digits].
  apply forallb_forall. intros b Hb. apply list_elem_of_In, elem_of_replicate in Hb as [-> _]. done.
Qed.
Lemma postmark_accepted l :
  forallb postmark_byte l = true -> (length l <= 506)%nat -> new_postmark (FROM ++ l ++ [c_LF]) = Ok {| postmark_bytes := FROM ++ l ++ [c_LF] |}.
Proof.
  intros Hb Hl. unfold new_postmark. rewrite !length_app. cbn [length].
  replace (length FROM + (length l + 1) - 1)%nat with (length (FROM ++ l)) by (rewrite length_app; lia).
  rewrite (app_assoc FROM), take_app_length. change (length FROM) with 5%nat.
  rewrite (proj2 (Nat.ltb_ge _ _)) by (unfold MAX_POSTMARK_LEN; lia).
  assert (starts_with ((FROM ++ l) ++ [c_LF]) FROM = true) as -> by (apply starts_with_true; exists (l ++ [c_LF]); by rewrite app_assoc).
  assert (ends_with ((FROM ++ l) ++ [c_LF]) [c_LF] = true) as ->.
  { unfold ends_with. rewrite length_app. cbn [length]. rewrite (proj2 (Nat.leb_le _ _)) by lia.
    replace (length (FROM ++ l) + 1 - 1)%nat with (length (FROM ++ l)) by lia. rewrite drop_app_length. apply bytes_eqb_refl. }
  assert (forallb postmark_byte (FROM ++ l) = true) as Hall by by rewrite forallb_app, Hb.
  fold (forallb postmark_byte (FROM ++ l)). change (forallb _ (FROM ++ l)) with (forallb postmark_byte (FROM ++ l)). rewrite Hall.
  destruct (existsb _ _) eqn:E; [|done]. exfalso. apply existsb_exists in E as (b & Hin & E). rewrite forallb_forall in Hall. apply Hall in Hin.
  apply Z.eqb_eq in E as ->. done.
Qed.

(** The clock always gives a postmark.  For every time from the epoch on that the
    system can represent, the generated line is within the limit, has the shape of a
    postmark and only printable bytes, and names the date of the calendar; before
    the epoch there is none. *)
Theorem generated_postmark_exact time :
  time < 2 ^ 63 * 1000000000 ->
  if time <? 0 then generated_postmark time = Err TimeBeforeEpoch
  else exists p y m d weekday month, generated_postmark time = Ok p /\ new_postmark (postmark_bytes p) = Ok p /\
    valid_date y m d /\ day_number y m d = time / 1000000000 / 86400 /\
    weekday_names !! Z.to_nat ((time / 1000000000 / 86400) mod 7) = Some weekday /\ month_names !! Z.to_nat (m - 1) = Some month /\
    starts_with (postmark_bytes p) (B "From MAILER-DAEMON " ++ weekday ++ B " " ++ month ++ B " " ++ padded c_SP 2 d) = true.
Proof.
  intros Ht. unfold generated_postmark. destruct (Z.ltb_spec time 0) as [|H0]; [done|].
  set (seconds := time / 1000000000). assert (0 <= seconds < 2 ^ 63) as Hs by (subst seconds; Z.to_euclidean_division_equations; lia).
  set (days := seconds / 86400). assert (0 <= days <= 2 ^ 62) as Hd by (subst days; Z.to_euclidean_division_equations; lia).
  unfold i64_checked. rewrite between_holds by lia. cbn [ok_or mbind result_bind].
  destruct (civil_date_found days Hd) as (y & m & d & -> & Hv & Hn & Hy). cbn [ok_or mbind result_bind].
  assert (0 <= days mod 7 < 7) as Hw by (apply Z.mod_pos_bound; lia).
  destruct (lookup_lt_is_Some_2 weekday_names (Z.to_nat (days mod 7))) as [weekday Hwd]; [cbn; lia|]. rewrite Hwd. cbn [ok_or mbind result_bind].
  pose proof Hv as [Hm Hday]. rewrite (proj2 (Z.eqb_neq m 0)) by lia.
  destruct (lookup_lt_is_Some_2 month_names (Z.to_nat (m - 1))) as [month Hmn]; [cbn; lia|]. rewrite Hmn. cbn [ok_or mbind result_bind].
  assert (forall l, l ∈ weekday_names ++ month_names -> forallb postmark_byte l = true /\ length l = 3%nat) as Hnames.
  { intros l Hl. repeat (apply elem_of_cons in Hl as [->|Hl]; [done|]). by apply elem_of_nil in Hl. }
  destruct (Hnames weekday) as [Hwb Hwl]; [apply elem_of_app; left; by apply list_elem_of_lookup_2 in Hwd|].
  destruct (Hnames month) as [Hmb Hml]; [apply elem_of_app; right; by apply list_elem_of_lookup_2 in Hmn|].
  assert (1 <= d <= 31) as Hd31 by (pose proof Hday; unfold month_days in *; repeat case_match; lia).
  destruct (padded_fits c_SP 2 d) as [Hdb Hdl]; [done|lia|lia|].
  destruct (padded_fits c_0 2 (seconds mod 86400 / 3600)) as [Hhb Hhl]; [done|Z.to_euclidean_division_equations; lia|lia|].
  destruct (padded_fits c_0 2 ((seconds mod 86400) mod 3600 / 60)) as [Hub Hul]; [done|Z.to_euclidean_division_equations; lia|lia|].
  destruct (padded_fits c_0 2 ((seconds mod 86400) mod 60)) as [Hsb Hsl]; [done|Z.to_euclidean_division_equations; lia|lia|].
  destruct (padded_fits c_0 4 y) as [Hyb Hyl]; [done|lia|lia|].
  set (hour := padded c_0 2 (seconds mod 86400 / 3600)) in *. set (minute := padded c_0 2 ((seconds mod 86400) mod 3600 / 60)) in *.
  set (second := padded c_0 2 ((seconds mod 86400) mod 60)) in *. set (year := padded c_0 4 y) in *.
  set (dd := padded c_SP 2 d) in *.
  set (middle := B "MAILER-DAEMON " ++ weekday ++ B " " ++ month ++ B " " ++ dd ++ B " " ++ hour ++ B ":" ++ minute ++ B ":" ++ second ++ B " " ++ year).
  assert (forallb postmark_byte middle = true) as Hmid.
  { subst middle. rewrite !forallb_app, Hwb, Hmb, Hdb, Hhb, Hub, Hsb, Hyb. done. }
  assert (length middle <= 506)%nat as Hlen.
  { subst middle. rewrite !length_app, Hwl, Hml. cbn [length B]. lia. }
  match goal with |- context [new_postmark ?l] => replace l with (FROM ++ middle ++ [c_LF]) end.
  2:{ subst middle. rewrite <- !app_assoc. done. }
  rewrite (postmark_accepted middle Hmid Hlen). eexists _, y, m, d, weekday, month. split; [done|]. cbn [postmark_bytes].
  split; [by apply postmark_accepted|]. split; [done|]. split; [done|]. split; [done|]. split; [done|].
  apply starts_with_true. exists (B " " ++ hour ++ B ":" ++ minute ++ B ":" ++ second ++ B " " ++ year ++ [c_LF]).
  subst middle. rewrite <- !app_assoc. done.
Qed.
Lemma generated_postmark_exact_witness : exists p, generated_postmark 1000000000000000000 = Ok p /\ new_postmark (postmark_bytes p) = Ok p.
Proof.
  assert (1000000000000000000 < 2 ^ 63 * 1000000000) as Ht by reflexivity.
  pose proof (generated_postmark_exact 1000000000000000000 Ht) as H. change (1000000000000000000 <? 0) with false in H. cbv iota in H.
  destruct H as (p & y & m & d & w & mo & H1 & H2 & _). exists p. split; [exact H1|exact H2].
Defined.

(** * Appending *)

Section append.
Context {P : Platform} {W Fd : Type} {OS : Os W Fd} (file parent : Fd) (path : bytes) (contents : W -> bytes) (at_end : W -> Prop).

(** What the system documents of a file that only its owner writes: a write at the
    end adds the bytes it took, a file is cut to a length, the end is found, and
    the other calls leave the bytes alone. *)
Record FileLaws : Prop := {
  law_write : forall l w, at_end w -> at_end (run (os_write file l) w).2 /\
    exists n, contents (run (os_write file l) w).2 = contents w ++ take n l /\
      match (run (os_write file l) w).1 with Ok k => n = k | Err _ => n = 0%nat end;
  law_truncate : forall n w, match run (os_ftruncate file n) w with
    | (Ok _, w') => contents w' = take (Z.to_nat n) (contents w)
    | (Err _, w') => contents w' = contents w
    end;
  law_seek : forall w, match run (os_seek_end file) w with
    | (Ok n, w') => contents w' = contents w /\ at_end w' /\ n = len (contents w)
    | (Err _, w') => contents w' = contents w
    end;
  law_sync : forall fd w, contents (run (os_fsync fd) w).2 = contents w;
  law_flock : forall o w, contents (run (os_flock file o) w).2 = contents w;
  law_time : forall w, contents (os_system_time w).2 = contents w /\ (at_end w -> at_end (os_system_time w).2);
}.
Context (laws : FileLaws).

Lemma write_all_adds fuel l : (length l <= fuel)%nat -> adds at_end contents (write_all_loop fuel file l) l.
Proof.
  revert l. induction fuel as [|fuel IH]; intros [|b l] Hl; cbn [length] in Hl; try lia; try apply adds_ret. cbn [write_all_loop].
  intros w Hw. destruct (law_write laws (b :: l) w Hw) as (Hg & n & Hn & Hr). rewrite run_bind, run_sys.
  destruct (run (os_write file (b :: l)) w) as [[k|e] w']; cbn [fst snd map_err] in *.
  - subst k. case_bool_decide as H0.
    + subst n. cbn [run stop_with refuse fst snd]. split; [done|]. exists []. rewrite Hn. by rewrite take_0.
    + destruct (IH (drop n (b :: l))) with w' as (Hg' & more & Hm & Hok); [rewrite length_drop; cbn [length]; lia|done|].
      split; [done|]. exists (take n (b :: l) ++ more). rewrite Hm, Hn, <- app_assoc. split; [done|]. intros H. by rewrite Hok, take_drop by done.
  - split; [done|]. exists []. subst n. rewrite Hn. by rewrite take_0.
Qed.
Lemma rollback_restores durability w old more :
  contents w = old ++ more ->
  let '(r, w') := run (rollback_with file (len old) durability (fun file length => sys (os_ftruncate file length)) (fun file => sys (os_fsync file))) w in
  (r = Ok tt -> contents w' = old) /\ exists more, contents w' = old ++ more.
Proof.
  intros Hw. unfold rollback_with. rewrite run_bind, run_sys. pose proof (law_truncate laws (len old) w) as Ht.
  destruct (run (os_ftruncate file (len old)) w) as [[[]|e] w1]; cbn [fst snd map_err]; [|split; [done|exists more; by rewrite Ht]].
  rewrite Nat2Z.id, Hw, take_app_length in Ht. rewrite run_bind, run_sys. pose proof (law_seek laws w1) as Hs.
  destruct (run (os_seek_end file) w1) as [[n|e] w2]; cbn [fst snd map_err]; [destruct Hs as [Hs _]|split; [done|exists []; by rewrite Hs, Ht, app_nil_r]].
  destruct durability; cbn [run mret M_ret]; [split; [by rewrite Hs|exists []; by rewrite Hs, Ht, app_nil_r]| |];
    rewrite run_sys; (split; [|exists []]); rewrite ?app_nil_r; intros; by rewrite (law_sync laws), Hs.
Qed.
Lemma undo_restores durability source operation w old more :
  contents w = old ++ more ->
  let '(r, w') := run (undo_append {| lm_file := file; lm_parent := parent; lm_path := path |} (len old) durability (fun file => sys (os_fsync file))
    (fun file length => sys (os_ftruncate file length)) source operation) w in
  exists e, r = Err e /\ mae_published e = false /\ (mae_rollback e = None -> contents w' = old) /\ exists more, contents w' = old ++ more.
Proof.
  intros Hw. unfold undo_append. cbn [lm_file]. pose proof (rollback_restores durability w old more Hw) as H. rewrite run_bind, run_outcome.
  destruct (run (rollback_with _ _ _ _ _) w) as [r w1]. cbn [fst snd]. rewrite run_bind, run_outcome. cbn [run stop_with fst snd].
  eexists. split; [done|]. split; [done|]. rewrite (law_flock laws). cbn [append_before_publication mae_rollback]. destruct H as [H1 H2]. split; [|done].
  destruct r as [[]|e]; [by intros _; apply H1|done].
Qed.

(** What the writing of a record does. *)
Definition record_writer (message : MessageBytes) (ending : OutputEnding) (file : Fd) : M W IoError () :=
  time ← system_time;
  postmark ← of_result (map_err (fun e => io_other (postmark_error_text e)) (generated_postmark time));
  write_record (fd_write_all file) postmark message ending.
Lemma record_writer_adds message ending w :
  at_end w ->
  let '(r, w') := run (record_writer message ending file) w in
  exists more, contents w' = contents w ++ more /\
    (r = Ok tt -> exists time postmark, generated_postmark time = Ok postmark /\ more = record_text postmark ending (message_content message)).
Proof.
  intros Hw. unfold record_writer. rewrite run_bind. unfold system_time. cbn [run]. destruct (law_time laws w) as [Hc He].
  destruct (os_system_time w) as [time w1]. cbn [snd] in Hc, He. rewrite run_bind, run_of_result.
  destruct (generated_postmark time) as [p|e] eqn:Ep; cbn [map_err]; [|exists []; by rewrite app_nil_r].
  pose proof (write_record_adds at_end contents (fd_write_all file) (fun l => write_all_adds (length l) l (le_n _)) p message ending) as H.
  destruct (H w1 (He Hw)) as (_ & k & Hk & Hok). destruct (run (write_record _ _ _ _) w1) as [r w2]. cbn [fst snd] in *. exists k.
  split; [by rewrite Hk, Hc|]. intros ->. exists time, p. by rewrite Hok.
Qed.

(** What an append may leave of a file. *)
#[local] Abbreviation locked := {| lm_file := file; lm_parent := parent; lm_path := path |}.
#[local] Abbreviation os_sync := (fun file => sys (os_fsync file)).
#[local] Abbreviation os_truncate := (fun file length => sys (os_ftruncate file length)).
Definition appended (message : MessageBytes) (ending : OutputEnding) (w w' : W) : Prop :=
  exists time postmark, generated_postmark time = Ok postmark /\
    contents w' = contents w ++ record_text postmark ending (message_content message).
Definition append_outcome (message : MessageBytes) (ending : OutputEnding) (w w' : W) (r : result MboxAppendError PublishedDelivery) : Prop :=
  match r with
  | Ok published => appended message ending w w' /\ pub_last_folder published = path
  | Err e =>
      if mae_published e then appended message ending w w'
      else (mae_rollback e = None -> contents w' = contents w) /\ exists more, contents w' = contents w ++ more
  end.
Lemma undo_outcome durability message ending source operation w0 w more :
  contents w = contents w0 ++ more ->
  append_outcome message ending w0 (run (undo_append locked (len (contents w0)) durability os_sync os_truncate source operation) w).2
    (run (undo_append locked (len (contents w0)) durability os_sync os_truncate source operation) w).1.
Proof.
  intros Hc. pose proof (undo_restores durability source operation w (contents w0) more Hc) as Hu. destruct (run _ w) as [r w'].
  destruct Hu as (e & -> & He & Hu). cbn [fst snd append_outcome]. by rewrite He.
Qed.
(** The end of an append whose record is in the file. *)
Lemma publish_outcome message ending w0 w :
  appended message ending w0 w ->
  let m : M W MboxAppendError PublishedDelivery :=
    _ ← with_error append_after_publication (sys (os_flock file Unlock)); mret {| pub_last_folder := path |} in
  append_outcome message ending w0 (run m w).2 (run m w).1.
Proof.
  intros Ha. cbv zeta. rewrite run_bind, run_with_error, run_sys. pose proof (law_flock laws Unlock w) as Hc.
  destruct (run (os_flock file Unlock) w) as [[[]|e] w']; cbn [fst snd map_err run mret M_ret append_outcome append_after_publication mae_published pub_last_folder] in *;
    unfold appended in *; by rewrite Hc.
Qed.
Lemma directory_synced durability w :
  contents (run (match durability with DP_Full => sys (os_fsync parent) | _ => mret tt end : M W IoError ()) w).2 = contents w.
Proof. destruct durability; [done|done|]. rewrite run_sys. apply (law_sync laws). Qed.
Lemma file_synced {F} (f : IoError -> F) durability w :
  contents (run (match durability with DP_None => mret tt | _ => with_error f (sys (os_fsync file)) end) w).2 = contents w.
Proof. destruct durability; [done|..]; rewrite run_with_error, run_sys; apply (law_sync laws). Qed.

(** C7: An append is all or nothing.  Whatever the calls of the system answer, an
    append that succeeds has added exactly one record to the file, with a postmark of
    the time and the message quoted; one that fails leaves the file as it was, unless
    the failure is that of the unlocking after the record was complete, or it reports
    that the file could not be put back - and even then nothing of what was in the file
    is lost. *)
Theorem append_all_or_nothing message ending durability w r w' :
  run (append locked message ending durability) w = (r, w') -> append_outcome message ending w w' r.
Proof.
  change (append locked message ending durability) with (append_with_operations locked durability (record_writer message ending) os_sync os_truncate).
  unfold append_with_operations. cbn [lm_file lm_parent lm_path].
  rewrite run_bind, run_with_error, run_sys. pose proof (law_seek laws w) as Hs. destruct (run (os_seek_end file) w) as [[n|e] w1]; cbn [fst snd map_err].
  2:{ intros [= <- <-]. split; [done|exists []; by rewrite app_nil_r]. }
  destruct Hs as (Hc1 & He1 & ->). rewrite run_bind, run_outcome, run_bind, run_with_error.
  pose proof (record_writer_adds message ending w1 He1) as Hrec. destruct (run (record_writer message ending file) w1) as [wr w2].
  destruct Hrec as (more & Hm & Hrec). rewrite Hc1 in Hm. cbn [fst snd]. destruct wr as [[]|e]; cbn [map_err fst snd].
  2:{ intros E. pose proof (undo_outcome durability message ending e DO_Write w w2 more Hm) as H. by rewrite E in H. }
  pose proof (file_synced (fun e => (e, DO_SyncFile)) durability w2) as Hc3. destruct (run _ w2) as [[[]|[e o]] w3]; cbn [fst snd] in *.
  2:{ intros E. pose proof (undo_outcome durability message ending e o w w3 more) as H. rewrite E in H. apply H. by rewrite Hc3. }
  rewrite run_bind, run_outcome. pose proof (directory_synced durability w3) as Hc4. destruct (run (match durability with DP_Full => _ | _ => _ end) w3) as [[[]|e] w4];
    cbn [fst snd] in *; intros E.
  - destruct (Hrec eq_refl) as (time & p & Hp & ->). pose proof (publish_outcome message ending w w4) as H. cbv zeta in H. rewrite E in H. apply H.
    exists time, p. split; [done|]. by rewrite Hc4, Hc3, Hm.
  - pose proof (undo_outcome durability message ending e DO_SyncDirectory w w4 more) as H. rewrite E in H. apply H. by rewrite Hc4, Hc3, Hm.
Qed.
End append.

(** A file of a small system: a write takes seven bytes at most, and a sync can be
    made to fail. *)
#[local] Existing Instance linux_numbers.
Record disk := { disk_bytes : bytes; disk_syncs : bool }.
Definition no_answer {A} : M disk Z A := stop_with 38.
#[local] Instance disk_os : Os disk () := {|
  os_openat := fun _ _ _ _ => no_answer; os_fstat := fun _ => no_answer; os_statat := fun _ _ => no_answer; os_mkdirat := fun _ _ _ => no_answer;
  os_link_fd := fun _ _ _ => no_answer; os_linkat := fun _ _ _ _ => no_answer; os_unlinkat := fun _ _ => no_answer; os_dupfd := fun _ => no_answer;
  os_flock := fun _ _ => mret tt;
  os_fsync := fun _ => Comp (fun w => (if disk_syncs w then Ok tt else Err 5, w));
  os_ftruncate := fun _ n => Comp (fun w => (Ok tt, {| disk_bytes := take (Z.to_nat n) (disk_bytes w); disk_syncs := disk_syncs w |}));
  os_seek_end := fun _ => Comp (fun w => (Ok (len (disk_bytes w)), w));
  os_write := fun _ l => Comp (fun w => (Ok (length (take 7 l)), {| disk_bytes := disk_bytes w ++ take 7 l; disk_syncs := disk_syncs w |}));
  os_read := fun _ _ => no_answer; os_getrandom := fun _ => no_answer; os_mapped := fun _ _ => no_answer;
  os_getuid := fun _ => 1000; os_pid := fun _ => 1; os_system_time := fun w => (0, w); os_instant := fun w => (0, w); os_sleep := fun _ w => w; os_signal := fun _ => 0;
|}.
Lemma disk_laws : FileLaws tt disk_bytes (fun _ => True).
Proof.
  split; try done.
  intros l w _. split; [done|]. exists (length (take 7 l)). cbn [os_write disk_os run fst snd disk_bytes]. split; [|done].
  by rewrite length_take, <- (firstn_all (take 7 l)) at 1; rewrite length_take, take_take; f_equal; f_equal; lia.
Qed.
Definition sample_message : MessageBytes := {| first_part := B "From me" ++ [c_LF]; second_part := B "x" |}.
Definition sample_disk (syncs : bool) : disk := {| disk_bytes := B "old" ++ [c_LF]; disk_syncs := syncs |}.
Definition sample_append (syncs : bool) :=
  run (append {| lm_file := tt; lm_parent := tt; lm_path := B "inbox" |} sample_message Normalize DP_File) (sample_disk syncs).
Example sample_appended :
  disk_bytes (sample_append true).2 =
  B "old" ++ [c_LF] ++ B "From MAILER-DAEMON Thu Jan  1 00:00:00 1970" ++ [c_LF] ++ B ">From me" ++ [c_LF] ++ B "x" ++ [c_LF; c_LF].
Proof. by vm_compute. Qed.
Lemma append_all_or_nothing_witness :
  append_outcome (B "inbox") disk_bytes sample_message Normalize (sample_disk false) (sample_append false).2 (sample_append false).1 /\
  is_ok (sample_append false).1 = false.
Proof.
  split; [|by vm_compute].
  exact (append_all_or_nothing tt tt (B "inbox") disk_bytes (fun _ => True) disk_laws sample_message Normalize DP_File (sample_disk false) _ _ (surjective_pairing _)).
Defined.

(** A file name without a directory is refused, with or without the file being
    there: its parent is the empty path, which is not taken for the directory the
    process is in. *)
Lemma split_on_none (l : bytes) : c_SLASH ∉ l -> split_on (Z.eqb c_SLASH) l = [l].
Proof.
  induction l as [|b l IH]; [done|]. intros H. apply not_elem_of_cons in H as [Hb Hl]. cbn [split_on]. rewrite IH by done.
  destruct (Z.eqb_spec c_SLASH b); congruence.
Qed.
Lemma bare_name_refused {W Fd} {OS : Os W Fd} name mask (w : W) :
  name <> [] -> c_SLASH ∉ name -> name <> [c_DOT] -> name <> [c_DOT; c_DOT] ->
  run (open_mbox name mask) w = (Err (io_error EK_InvalidInput (B "Maildir path is empty")), w).
Proof.
  intros H0 Hs H1 H2. assert (path_components name = [Normal name]) as E.
  { unfold path_components. rewrite (split_on_none name Hs). cbn [head List.filter].
    assert (starts_with name [c_SLASH] = false) as ->.
    { apply not_true_iff_false. intros [r ->]%starts_with_true. apply Hs. by constructor. }
    rewrite bool_decide_eq_false_2 by congruence. unfold bytes_eqb. rewrite (bool_decide_eq_false_2 (name = [])), (bool_decide_eq_false_2 (name = [c_DOT])) by done.
    cbn [negb andb fmap list_fmap app]. by rewrite bool_decide_eq_false_2. }
  unfold open_mbox. by rewrite E.
Qed.
