(* ===== verification/Maildir.v ===== *)
(** Delivery into a Maildir: [src/src/delivery/maildir.rs] with its two backends,
    [src/src/delivery/maildir/linux.rs], where a message has no name until it is
    published, and [src/src/delivery/maildir/portable.rs], where it has one in
    [tmp]; and [src/src/delivery/discard.rs].  A backend is an interface that both
    files implement. *)
From S2P Require Import Prelude Effects Numbers Config Variables Delivery Startup Files LocalLock.
#[local] Open Scope Z_scope.

(** Source: delivery/maildir.rs `const MAX_NAME_ATTEMPTS` *)
Definition MAX_NAME_ATTEMPTS : nat := 128.
(** Source: delivery/maildir.rs `const MAILDIR_NAME_PREFIX` *)
Definition MAILDIR_NAME_PREFIX : bytes := B "procmail-rs.".
(** Source: delivery/maildir.rs `const MAILDIR_RANDOM_BYTES` *)
Definition MAILDIR_RANDOM_BYTES : nat := 16.
(** Source: delivery/maildir.rs `const MAILDIR_FILE_MODE` *)
Definition MAILDIR_FILE_MODE : Z := 384.
(** Source: delivery/maildir.rs `struct PlatformPublishError` *)
Record PlatformPublishError := { ppe_source : IoError; ppe_published_name : option bytes }.
(** Source: delivery/maildir.rs `fn before(source` *)
Definition publish_before (source : IoError) : PlatformPublishError := {| ppe_source := source; ppe_published_name := None |}.
(** Source: delivery/maildir.rs `fn after(source` *)
Definition publish_after (source : IoError) (name : bytes) : PlatformPublishError := {| ppe_source := source; ppe_published_name := Some name |}.

Definition hex_lower (n : Z) : byte := if n <? 10 then c_0 + n else c_a + (n - 10).
Definition hex_byte (b : byte) : bytes := [hex_lower (b / 16); hex_lower (b mod 16)].
Definition name_attempts_text : bytes := B "cannot allocate a unique Maildir name after 128 attempts".

(** What a backend does with a message that is not published yet ([PF]); [pf_drop]
    is what dropping it leaves to do. *)
Class MaildirBackend (W Fd PF : Type) := {
  pf_create : Fd -> Z -> M W IoError bytes -> M W IoError PF;
  pf_file : PF -> Fd;
  pf_publish : PF -> Fd -> Fd -> bytes -> M W IoError bytes -> M W PlatformPublishError bytes;
  pf_abort : PF -> Fd -> M W IoError ();
  pf_drop : PF -> W -> W;
  fill_random : nat -> M W IoError bytes;
  validate_directories : Fd -> Fd -> Fd -> Fd -> M W IoError ();
}.

(** A computation after which, if it failed, a value is dropped; and one after
    which it is dropped in any case. *)
Definition dropping_on_error {W E A} (drop : W -> W) (m : M W E A) : M W E A :=
  Comp (fun w => match run m w with (Ok a, w) => (Ok a, w) | (Err e, w) => (Err e, drop w) end).

(** * The sink *)

Section sink.
Context {P : Platform} {W Fd PF : Type} {OS : Os W Fd} {MB : MaildirBackend W Fd PF}.

(** Source: delivery/maildir.rs `fn unique_name` *)
Definition unique_name : M W IoError bytes :=
  random ← fill_random MAILDIR_RANDOM_BYTES;
  mret (MAILDIR_NAME_PREFIX ++ (random ≫= hex_byte)).

(** Source: delivery/maildir.rs `pub struct MaildirSink` *)
Record MaildirSink := {
  ms_pending : PF; ms_tmp_dir : Fd; ms_target_dir : Fd; ms_target_subdir : bytes; ms_info_suffix : bytes; ms_maildir : bytes;
  ms_durability : DurabilityPolicy;
}.
(** Source: delivery/maildir.rs `pub fn create(` *)
Definition create_maildir (path : bytes) (durability : DurabilityPolicy) (mask : Z) (status : MessageStatus) : M W IoError MaildirSink :=
  maildir ← open_directory_path (path_components path);
  tmp_dir ← open_directory_at (At maildir) (B "tmp");
  new_dir ← open_directory_at (At maildir) (B "new");
  cur_dir ← open_directory_at (At maildir) (B "cur");
  _ ← validate_directories maildir tmp_dir new_dir cur_dir;
  pending ← pf_create tmp_dir mask unique_name;
  let '(target_dir, target_subdir, info_suffix) :=
    if status_is_empty status then (new_dir, B "new", []) else (cur_dir, B "cur", maildir_suffix status) in
  mret {| ms_pending := pending; ms_tmp_dir := tmp_dir; ms_target_dir := target_dir; ms_target_subdir := target_subdir;
          ms_info_suffix := info_suffix; ms_maildir := path; ms_durability := durability |}.

(** [self.maildir.join(self.target_subdir).join(name)] *)
Definition published_path (sink : MaildirSink) (name : bytes) : PublishedDelivery :=
  {| pub_last_folder := path_join (path_join (ms_maildir sink) (ms_target_subdir sink)) name |}.
(** Source: delivery/maildir.rs:188-195 `commit_with (sync directories)` *)
Fixpoint sync_directories (sync : Fd -> M W IoError ()) (directories : list Fd) (published : PublishedDelivery) : M W SinkCommitError PublishedDelivery :=
  match directories with
  | [] => mret published
  | directory :: rest =>
      _ ← with_error (fun e => with_operation DO_SyncDirectory (after_publication e published)) (sync directory);
      sync_directories sync rest published
  end.
(** Source: delivery/maildir.rs `fn commit_with` *)
Definition commit_with (sink : MaildirSink) (sync : Fd -> M W IoError ()) : M W SinkCommitError PublishedDelivery :=
  _ ← match ms_durability sink with
      | DP_None => mret tt
      | _ => dropping_on_error (pf_drop (ms_pending sink))
               (with_error (fun e => with_operation DO_SyncFile (before_publication e)) (sync (pf_file (ms_pending sink))))
      end;
  name ← with_error (fun e => match ppe_published_name e with
                              | Some name => after_publication (ppe_source e) (published_path sink name)
                              | None => before_publication (ppe_source e)
                              end)
           (pf_publish (ms_pending sink) (ms_tmp_dir sink) (ms_target_dir sink) (ms_info_suffix sink) unique_name);
  let published := published_path sink name in
  match ms_durability sink with
  | DP_Full => sync_directories sync [ms_tmp_dir sink; ms_target_dir sink] published
  | _ => mret published
  end.

(** ** The sinks of a delivery *)

(** Source: delivery/discard.rs `pub struct DiscardSink` *)
Record DiscardSink := { ds_path : bytes }.
(** Source: delivery/discard.rs `pub fn null()` *)
Definition null_sink : DiscardSink := {| ds_path := B "/dev/null" |}.
(** A [Box<dyn PendingSink>] of the program. *)
Inductive Sink := SK_Maildir (sink : MaildirSink) | SK_Discard (sink : DiscardSink).
(** A method that takes [&mut self] and leaves the sink itself as it is. *)
Definition keeping {A} (a : A) (m : M W IoError ()) (w : W) : result IoError A * W := let '(r, w) := run m w in ((fun _ => a) <$> r, w).
(** Source: delivery/maildir.rs `impl PendingSink for MaildirSink` *)
#[export] Instance sink_methods : PendingSink W Sink := {|
  sink_write s l := match s with SK_Maildir m => keeping s (fd_write_all (pf_file (ms_pending m)) l) | SK_Discard _ => fun w => (Ok s, w) end;
  sink_flush s := fun w => (Ok s, w);
  sink_commit s :=
    match s with
    | SK_Maildir m => commit_with m (fun fd => sys (os_fsync fd))
    | SK_Discard d => mret {| pub_last_folder := ds_path d |}
    end;
  sink_abort s := match s with SK_Maildir m => pf_abort (ms_pending m) (ms_tmp_dir m) | SK_Discard _ => mret tt end;
|}.
(** A sink that is dropped. *)
Definition drop_sink (s : Sink) (w : W) : W := match s with SK_Maildir m => pf_drop (ms_pending m) w | SK_Discard _ => w end.
End sink.
Arguments MaildirSink : clear implicits.
Arguments Sink : clear implicits.

(** * Linux *)

Section linux.
Context {P : Platform} {W Fd : Type} {OS : Os W Fd}.

(** Source: delivery/maildir/linux.rs `pub(super) struct PendingFile` *)
Record LinuxFile := { lf_file : Fd }.
(** Source: delivery/maildir/linux.rs `pub(super) fn create(` *)
Definition linux_create (directory : Fd) (mask : Z) (next_name : M W IoError bytes) : M W IoError LinuxFile :=
  file ← sys (os_openat (At directory) [c_DOT] [WRONLY; TMPFILE; CLOEXEC] (creation_mode MAILDIR_FILE_MODE mask));
  mret {| lf_file := file |}.
(** Source: delivery/maildir/linux.rs `fn link_unique` *)
Fixpoint link_unique (attempts : nat) (file directory : Fd) (next_name : M W IoError bytes) : M W PlatformPublishError bytes :=
  match attempts with
  | O => stop_with (publish_before (io_error EK_AlreadyExists name_attempts_text))
  | S attempts =>
      name ← with_error publish_before next_name;
      linked ← outcome_of (os_link_fd file directory name);
      match linked with
      | Ok _ => mret name
      | Err error =>
          if error =? errno_EXIST then link_unique attempts file directory next_name
          else stop_with (publish_before (io_of_errno error))
      end
  end.
(** Source: delivery/maildir/linux.rs `pub(super) fn publish(` *)
Definition linux_publish (pending : LinuxFile) (tmp_dir target_dir : Fd) (info_suffix : bytes) (next_name : M W IoError bytes)
    : M W PlatformPublishError bytes :=
  link_unique MAX_NAME_ATTEMPTS (lf_file pending) target_dir (base ← next_name; mret (base ++ info_suffix)).
(** Every call gives a byte at least, so the bytes that are asked for bound the
    loop.
    Source: delivery/maildir/linux.rs:86-96 `fill_random (loop)` *)
Fixpoint linux_fill (fuel count : nat) (filled : bytes) : M W IoError bytes :=
  match fuel with
  | O => mret filled
  | S fuel =>
      if (length filled <? count)%nat then
        more ← sys (os_getrandom (count - length filled));
        if bool_decide (more = []) then refuse EK_UnexpectedEof (B "Linux random source returned no data")
        else linux_fill fuel count (filled ++ more)
      else mret filled
  end.
(** Source: delivery/maildir/linux.rs `pub(super) fn fill_random` *)
Definition linux_fill_random (count : nat) : M W IoError bytes := linux_fill count count [].
(** [abort] and [validate_directories] do nothing here.
    Source: delivery/maildir/linux.rs `pub(super) fn abort` *)
#[local] Instance linux_backend : MaildirBackend W Fd LinuxFile := {|
  pf_create := linux_create; pf_file := lf_file; pf_publish := linux_publish; pf_abort := fun _ _ => mret tt; pf_drop := fun _ w => w;
  fill_random := linux_fill_random; validate_directories := fun _ _ _ _ => mret tt;
|}.
End linux.
Arguments LinuxFile : clear implicits.

(** * Other systems *)

Section portable.
Context {P : Platform} {W Fd : Type} {OS : Os W Fd} (patience : nat).

(** [name] is gone once the name is removed from [tmp].
    Source: delivery/maildir/portable.rs `pub(super) struct PendingFile` *)
Record PortableFile := { pp_file : Fd; pp_directory : Fd; pp_name : option bytes }.
(** Source: delivery/maildir/portable.rs:23-42 `create (loop)` *)
Fixpoint create_named (attempts : nat) (directory owned_directory : Fd) (mask : Z) (next_name : M W IoError bytes) : M W IoError PortableFile :=
  match attempts with
  | O => refuse EK_AlreadyExists name_attempts_text
  | S attempts =>
      name ← next_name;
      opened ← outcome_of (os_openat (At directory) name [WRONLY; CREATE; EXCL; CLOEXEC; NOFOLLOW] (creation_mode MAILDIR_FILE_MODE mask));
      match opened with
      | Ok file => mret {| pp_file := file; pp_directory := owned_directory; pp_name := Some name |}
      | Err error => if error =? errno_EXIST then create_named attempts directory owned_directory mask next_name else stop_with (io_of_errno error)
      end
  end.
(** Source: delivery/maildir/portable.rs `pub(super) fn create(` *)
Definition portable_create (directory : Fd) (mask : Z) (next_name : M W IoError bytes) : M W IoError PortableFile :=
  owned_directory ← sys (os_dupfd directory);
  create_named MAX_NAME_ATTEMPTS directory owned_directory mask next_name.
(** Source: delivery/maildir/portable.rs `fn verify_named_file` *)
Definition verify_named_file (file directory : Fd) (name : bytes) : M W IoError () :=
  opened ← sys (os_fstat file);
  named ← sys (os_statat directory name);
  if negb (bool_decide (file_type (st_mode named) = RegularFile)) || negb (st_dev named =? st_dev opened) || negb (st_ino named =? st_ino opened) then
    refuse EK_PermissionDenied (B "Maildir temporary file was replaced concurrently")
  else mret tt.
(** The result says whether the name is gone.
    Source: delivery/maildir/portable.rs `fn cleanup` *)
Definition cleanup_named (pending : PortableFile) : M W IoError () :=
  match pp_name pending with
  | None => mret tt
  | Some name =>
      _ ← verify_named_file (pp_file pending) (pp_directory pending) name;
      sys (os_unlinkat (pp_directory pending) name)
  end.
(** Source: delivery/maildir/portable.rs `impl Drop for PendingFile` *)
Definition portable_drop (pending : PortableFile) (w : W) : W := (run (cleanup_named pending) w).2.
(** A cleanup that fails is tried once more when the file is dropped.
    Source: delivery/maildir/portable.rs `pub(super) fn publish(` *)
Definition portable_publish (pending : PortableFile) (tmp_dir target_dir : Fd) (info_suffix : bytes) (next_name : M W IoError bytes)
    : M W PlatformPublishError bytes :=
  dropping_on_error (portable_drop pending)
    (name ← of_result (ok_or (publish_before (io_other (B "Maildir temporary name was already consumed"))) (pp_name pending));
     _ ← with_error publish_before (verify_named_file (pp_file pending) (pp_directory pending) name);
     let published_name := name ++ info_suffix in
     _ ← with_error publish_before (sys (os_linkat (pp_directory pending) name target_dir published_name));
     _ ← with_error (fun e => publish_after e published_name) (verify_named_file (pp_file pending) target_dir published_name);
     _ ← with_error (fun e => publish_after e published_name) (cleanup_named pending);
     mret published_name).
(** Source: delivery/maildir/portable.rs `pub(super) fn abort` *)
Definition portable_abort (pending : PortableFile) (tmp_dir : Fd) : M W IoError () := dropping_on_error (portable_drop pending) (cleanup_named pending).
(** Source: delivery/maildir/portable.rs:146-162 `fill_random (loop)` *)
Fixpoint portable_fill (steps : nat) (random : Fd) (count : nat) (filled : bytes) : M W IoError bytes :=
  match steps with
  | O => stop_with out_of_patience
  | S steps =>
      if (length filled <? count)%nat then
        read ← outcome_of (os_read random (count - length filled));
        match read with
        | Ok [] => refuse EK_UnexpectedEof (B "system random source returned end of file")
        | Ok more => portable_fill steps random count (filled ++ more)
        | Err error => if error =? errno_INTR then portable_fill steps random count filled else stop_with (io_of_errno error)
        end
      else mret filled
  end.
(** Source: delivery/maildir/portable.rs `pub(super) fn fill_random` *)
Definition portable_fill_random (count : nat) : M W IoError bytes :=
  random ← sys (os_openat CWD (B "/dev/random") [RDONLY; CLOEXEC; NOFOLLOW] 0);
  metadata ← sys (os_fstat random);
  if negb (bool_decide (file_type (st_mode metadata) = CharacterDevice)) then
    refuse EK_InvalidData (B "system random source is not a character device")
  else portable_fill patience random count [].
(** Source: delivery/maildir/portable.rs:171-192 `validate_directories (loop)` *)
Fixpoint validate_each (directories : list (Fd * bytes)) : M W IoError () :=
  match directories with
  | [] => mret tt
  | (directory, name) :: rest =>
      metadata ← sys (os_fstat directory);
      uid ← gets os_getuid;
      if negb (bool_decide (file_type (st_mode metadata) = Directory)) then refuse EK_InvalidInput (name ++ B " is not a directory")
      else if negb (st_uid metadata =? uid) || negb (Z.land (st_mode metadata) 18 =? 0) then
        refuse EK_PermissionDenied (name ++ B " must be owned by the current uid and not writable by other users")
      else validate_each rest
  end.
(** Source: delivery/maildir/portable.rs `pub(super) fn validate_directories` *)
Definition portable_validate (maildir tmp new cur : Fd) : M W IoError () :=
  validate_each [(maildir, B "Maildir"); (tmp, B "Maildir/tmp"); (new, B "Maildir/new"); (cur, B "Maildir/cur")].
#[local] Instance portable_backend : MaildirBackend W Fd PortableFile := {|
  pf_create := portable_create; pf_file := pp_file; pf_publish := portable_publish; pf_abort := portable_abort; pf_drop := portable_drop;
  fill_random := portable_fill_random; validate_directories := portable_validate;
|}.
End portable.
Arguments PortableFile : clear implicits.
