(* ===== verification/MaildirFacts.v ===== *)
(** What a Maildir delivery makes visible: nothing until it is committed, then one
    new name, and its report is right also when a later step fails.  The same on
    both backends, whose promise is an interface; and what a fanout of such sinks
    shows. *)
From stdpp Require Import gmap.
From S2P Require Import Prelude Effects Numbers Config Variables Delivery Startup Files LocalLock Maildir.
#[local] Open Scope Z_scope.

Section seen.
Context {P : Platform} {W Fd : Type} {OS : Os W Fd}.

(** The paths that readers of the Maildirs see, the directory a descriptor stands
    for, and the descriptors of the private directories [tmp]. *)
Context (seen : W -> gset bytes) (place : Fd -> bytes) (private : Fd -> Prop).
(** A path that became visible, and was not before. *)
Definition added (path : bytes) (w w' : W) : Prop := (path ∉ seen w) /\ seen w' = {[path]} ∪ seen w.
(** A computation that shows nothing. *)
Definition quiet {E A} (m : M W E A) : Prop := forall w, seen (run m w).2 = seen w.

(** What the system documents of its links: a link to a name that is there fails, and
    only links show anything, since files are created and removed in [tmp] alone. *)
Record LinkLaws : Prop := {
  law_link_fd : forall file dir name w, match run (os_link_fd file dir name) w with
    | (Ok _, w') => added (path_join (place dir) name) w w' | (Err _, w') => seen w' = seen w end;
  law_linkat : forall old old_name dir name w, match run (os_linkat old old_name dir name) w with
    | (Ok _, w') => added (path_join (place dir) name) w w' | (Err _, w') => seen w' = seen w end;
  law_open : forall base name flags mode, CREATE ∉ flags \/ (exists dir, base = At dir /\ private dir) -> quiet (os_openat base name flags mode);
  law_unlink : forall dir name, private dir -> quiet (os_unlinkat dir name);
  law_dup : forall dir w, private dir -> match run (os_dupfd dir) w with (Ok fd, w') => private fd /\ seen w' = seen w | (Err _, w') => seen w' = seen w end;
  law_fstat : forall fd, quiet (os_fstat fd);
  law_statat : forall fd name, quiet (os_statat fd name);
  law_fsync : forall fd, quiet (os_fsync fd);
  law_write : forall fd l, quiet (os_write fd l);
  law_read : forall fd n, quiet (os_read fd n);
  law_random : forall n, quiet (os_getrandom n);
}.
Context (links : LinkLaws).

Lemma silent_ret {E A} (a : A) : quiet (E := E) (mret a).
Proof. by intros w. Qed.
Lemma silent_stop {E A} (e : E) : quiet (A := A) (stop_with e).
Proof. by intros w. Qed.
Lemma silent_gets {E A} (f : W -> A) : quiet (E := E) (gets f).
Proof. by intros w. Qed.
Lemma silent_bind {E A C} (m : M W E A) (f : A -> M W E C) : quiet m -> (forall a, quiet (f a)) -> quiet (m ≫= f).
Proof. intros Hm Hf w. rewrite run_bind. specialize (Hm w). destruct (run m w) as [[a|e] w1]; cbn [snd] in *; [by rewrite (Hf a w1)|done]. Qed.
Lemma quiet_sys {A} (m : M W Z A) : quiet m -> quiet (sys m).
Proof. intros Hm w. specialize (Hm w). unfold sys. cbn [run]. by destruct (run m w). Qed.
Lemma quiet_with_error {E F A} (f : E -> F) (m : M W E A) : quiet m -> quiet (with_error f m).
Proof. intros Hm w. specialize (Hm w). unfold with_error. cbn [run]. by destruct (run m w). Qed.
Lemma quiet_outcome {E F A} (m : M W E A) : quiet m -> quiet (outcome_of (F := F) m).
Proof. intros Hm w. specialize (Hm w). unfold outcome_of. cbn [run]. by destruct (run m w). Qed.
Lemma quiet_if {E A} (c : bool) (m n : M W E A) : quiet m -> quiet n -> quiet (if c then m else n).
Proof. by destruct c. Qed.
Create HintDb quiet.
#[local] Hint Resolve silent_ret silent_stop silent_gets silent_bind quiet_sys quiet_with_error quiet_outcome quiet_if : quiet.
#[local] Hint Resolve law_fstat law_statat law_fsync law_write law_read law_random law_unlink : quiet.

Lemma write_all_quiet fuel fd l : quiet (write_all_loop fuel fd l).
Proof. revert l. induction fuel as [|fuel IH]; intros [|b l]; cbn [write_all_loop]; unfold refuse; auto 6 with quiet. Qed.

(** * Backends *)

(** What a backend promises of a file in [tmp]. *)
Class BackendLaws (PF : Type) (backend : MaildirBackend W Fd PF) := {
  pf_ok : PF -> Prop;
  random_quiet : forall n, quiet (fill_random n);
  validate_quiet : forall maildir tmp new cur, quiet (validate_directories maildir tmp new cur);
  create_quiet : forall tmp mask next, private tmp -> quiet next -> quiet (pf_create tmp mask next);
  create_ok : forall tmp mask next w p w', private tmp -> run (pf_create tmp mask next) w = (Ok p, w') -> pf_ok p;
  drop_quiet : forall p w, pf_ok p -> seen (pf_drop p w) = seen w;
  abort_quiet : forall p dir, pf_ok p -> quiet (pf_abort p dir);
  publish_added : forall p tmp target suffix next w, pf_ok p -> quiet next ->
    match run (pf_publish p tmp target suffix next) w with
    | (Ok name, w') => added (path_join (place target) name) w w'
    | (Err e, w') => match ppe_published_name e with Some name => added (path_join (place target) name) w w' | None => seen w' = seen w end
    end;
}.

Lemma linux_fill_quiet fuel count filled : quiet (linux_fill fuel count filled).
Proof. revert filled. induction fuel as [|fuel IH]; intros filled; cbn [linux_fill]; unfold refuse; auto 8 with quiet. Qed.
Lemma link_unique_added attempts file target next w : quiet next ->
  match run (link_unique attempts file target next) w with
  | (Ok name, w') => added (path_join (place target) name) w w'
  | (Err e, w') => ppe_published_name e = None /\ seen w' = seen w
  end.
Proof.
  intros Hnext. revert w. induction attempts as [|attempts IH]; intros w; [done|]. cbn [link_unique]. rewrite run_bind.
  pose proof (quiet_with_error publish_before next Hnext w) as H1. unfold with_error in *. cbn [run] in *.
  destruct (run next w) as [[name|e] w1]; cbn [map_err snd] in *; [|done]. rewrite run_bind. unfold outcome_of at 1. cbn [run].
  pose proof (law_link_fd links file target name w1) as H2. destruct (run (os_link_fd file target name) w1) as [[[]|e] w2].
  - unfold added in *. cbn. by rewrite <- H1.
  - destruct (e =? errno_EXIST); [|cbn; by rewrite H2]. specialize (IH w2). unfold added in *. rewrite H2, H1 in IH. exact IH.
Qed.
#[export] Instance linux_laws : BackendLaws (LinuxFile Fd) linux_backend.
Proof.
  refine {| pf_ok := fun _ => True |}.
  - intros n. apply linux_fill_quiet.
  - intros maildir tmp new cur. apply silent_ret.
  - intros tmp mask next _ Hnext. apply silent_bind; [|intros file; apply silent_ret]. apply quiet_sys, (law_open links). left. set_solver.
  - done.
  - done.
  - intros p dir _ w. done.
  - intros p tmp target suffix next w _ Hnext. cbn [pf_publish linux_backend]. unfold linux_publish.
    pose proof (link_unique_added MAX_NAME_ATTEMPTS (lf_file p) target (base ← next; mret (base ++ suffix)) w) as H.
    destruct (run (link_unique _ _ _ _) w) as [[name|e] w']; [apply H; auto with quiet|]. destruct H as [-> H]; [auto with quiet|done].
Defined.

Lemma verify_quiet file dir name : quiet (verify_named_file file dir name).
Proof. unfold verify_named_file, refuse. auto 8 with quiet. Qed.
Lemma cleanup_quiet p : private (pp_directory p) -> quiet (cleanup_named p).
Proof. intros H. unfold cleanup_named. destruct (pp_name p); [|apply silent_ret]. apply silent_bind; [apply verify_quiet|auto with quiet]. Qed.
Lemma portable_drop_quiet p w : private (pp_directory p) -> seen (portable_drop p w) = seen w.
Proof. intros H. by apply cleanup_quiet. Qed.
(** A step that shows nothing, before what follows it. *)
Lemma quiet_first {E A C} (m : M W E A) (f : A -> M W E C) w (Q : result E C -> W -> Prop) :
  quiet m ->
  (forall e w', (run m w).1 = Err e -> seen w' = seen w -> Q (Err e) w') ->
  (forall a w', seen w' = seen w -> Q (run (f a) w').1 (run (f a) w').2) ->
  Q (run (m ≫= f) w).1 (run (m ≫= f) w).2.
Proof.
  intros Hm He Hf. rewrite run_bind. specialize (Hm w). destruct (run m w) as [[a|e] w1]; cbn [fst snd] in *; [by apply Hf|by apply He].
Qed.
Definition published_as (target : Fd) (w : W) (r : result PlatformPublishError bytes) (w' : W) : Prop :=
  match r with
  | Ok name => added (path_join (place target) name) w w'
  | Err e => match ppe_published_name e with Some name => added (path_join (place target) name) w w' | None => seen w' = seen w end
  end.
Lemma portable_steps p tmp target suffix next w : private (pp_directory p) ->
  published_as target w (run (portable_publish p tmp target suffix next) w).1 (run (portable_publish p tmp target suffix next) w).2.
Proof.
  intros Hp. unfold portable_publish, dropping_on_error. cbn [run].
  match goal with |- context [run ?m w] => set (steps := m) end.
  assert (published_as target w (run steps w).1 (run steps w).2) as H.
  2:{ destruct (run steps w) as [[name|e] w']; [done|]. cbn [fst snd published_as] in *. case_match; unfold added in *; by rewrite portable_drop_quiet. }
  subst steps. destruct (pp_name p) as [name|]; [|done]. cbn [ok_or]. change (of_result (Ok name)) with (mret name : M W PlatformPublishError bytes).
  rewrite run_bind, run_ret. apply quiet_first; [apply quiet_with_error, verify_quiet| |].
  { intros e w' E Hs. unfold with_error in E. cbn [run] in E. destruct (run (verify_named_file _ _ _) w) as [[[]|e'] w1]; cbn in E; [done|]. by injection E as <-. }
  intros [] w1 H1. rewrite run_bind, run_with_error, run_sys.
  pose proof (law_linkat links (pp_directory p) name target (name ++ suffix) w1) as Hl. destruct (run (os_linkat _ _ _ _) w1) as [[[]|e] w2]; cbn [map_err fst snd].
  2:{ cbn. by rewrite Hl. }
  assert (forall r w', seen w' = seen w2 -> r = Ok (name ++ suffix) \/ (exists e, r = Err (publish_after e (name ++ suffix))) -> published_as target w r w') as Hdone.
  { intros r w' Hw' [->|[e ->]]; cbn; unfold added in *; by rewrite Hw', <- H1. }
  assert (forall (m : M W IoError ()) w e, (run (with_error (fun e => publish_after e (name ++ suffix)) m) w).1 = Err e -> exists e', e = publish_after e' (name ++ suffix)) as Herr.
  { intros m w0 e E. unfold with_error in E. cbn [run] in E. destruct (run m w0) as [[[]|e'] ?]; [done|]. injection E as <-. by eexists. }
  apply (quiet_first _ _ _ (published_as target w)); [apply quiet_with_error, verify_quiet| |].
  { intros e w' E Hs. apply Hdone; [done|]. right. destruct (Herr _ _ _ E) as [e' ->]. by eexists. }
  intros [] w3 H3. apply (quiet_first _ _ _ (published_as target w)); [by apply quiet_with_error, cleanup_quiet| |].
  { intros e w' E Hs. apply Hdone; [by rewrite Hs|]. right. destruct (Herr _ _ _ E) as [e' ->]. by eexists. }
  intros [] w4 H4. rewrite run_ret. cbn [fst snd]. apply Hdone; [by rewrite H4, H3|by left].
Qed.
Lemma portable_fill_quiet steps random count filled : quiet (portable_fill steps random count filled).
Proof.
  revert filled. induction steps as [|steps IH]; intros filled; cbn [portable_fill]; [auto with quiet|]. apply quiet_if; [|auto with quiet].
  apply silent_bind; [auto with quiet|]. intros [[|b l]|e]; unfold refuse; auto with quiet.
Qed.
Lemma create_named_quiet attempts tmp owned mask next : private tmp -> quiet next -> quiet (create_named attempts tmp owned mask next).
Proof.
  intros Htmp Hnext. induction attempts as [|attempts IH]; cbn [create_named]; [unfold refuse; auto with quiet|].
  apply silent_bind; [done|]. intros name. apply silent_bind; [apply quiet_outcome, (law_open links); right; by eexists|].
  intros [file|e]; auto with quiet.
Qed.
Lemma create_named_directory attempts tmp owned mask next w p w' :
  run (create_named attempts tmp owned mask next) w = (Ok p, w') -> pp_directory p = owned.
Proof.
  revert w. induction attempts as [|attempts IH]; intros w; cbn [create_named]; [done|].
  intros (name & w1 & _ & (opened & w2 & _ & H)%run_bind_Ok)%run_bind_Ok. destruct opened as [file|e]; [by injection H as <- _|].
  destruct (e =? errno_EXIST); [by eapply IH|done].
Qed.
Lemma validate_each_quiet directories : quiet (validate_each directories).
Proof.
  induction directories as [|[directory name] rest IH]; cbn [validate_each]; unfold refuse; [auto with quiet|].
  apply silent_bind; [auto with quiet|]. intros stat. apply silent_bind; auto with quiet.
Qed.
#[export] Instance portable_laws patience : BackendLaws (PortableFile Fd) (portable_backend patience).
Proof.
  refine {| pf_ok := fun p => private (pp_directory p) |}.
  - intros n. cbn [fill_random portable_backend]. unfold portable_fill_random, refuse. apply silent_bind; [apply quiet_sys, (law_open links); left; set_solver|].
    intros fd. apply silent_bind; [auto with quiet|]. intros st. apply quiet_if; [auto with quiet|apply portable_fill_quiet].
  - intros maildir tmp new cur. apply validate_each_quiet.
  - intros tmp mask next Htmp Hnext w. cbn [pf_create portable_backend]. unfold portable_create. rewrite run_bind, run_sys.
    pose proof (law_dup links tmp w Htmp) as H. destruct (run (os_dupfd tmp) w) as [[owned|e] w1]; cbn [fst snd map_err]; [|done].
    destruct H as [_ <-]. by apply create_named_quiet.
  - intros tmp mask next w p w' Htmp. cbn [pf_create portable_backend]. unfold portable_create. intros (owned & w1 & E & H)%run_bind_Ok.
    apply create_named_directory in H as ->. rewrite run_sys in E. pose proof (law_dup links tmp w Htmp) as Hd.
    destruct (run (os_dupfd tmp) w) as [[fd|e] w2]; [|done]. by injection E as -> _; destruct Hd.
  - intros p w Hp. by apply portable_drop_quiet.
  - intros p dir Hp w. cbn [pf_abort portable_backend]. unfold portable_abort, dropping_on_error. cbn [run]. pose proof (cleanup_quiet p Hp w) as H.
    destruct (run (cleanup_named p) w) as [[[]|e] w1]; cbn [snd] in *; [done|]. by rewrite portable_drop_quiet.
  - intros p tmp target suffix next w Hp _. pose proof (portable_steps p tmp target suffix next w Hp) as H. cbn [pf_publish portable_backend].
    by destruct (run (portable_publish _ _ _ _ _) w) as [[name|e] w'].
Defined.

(** * A sink *)

Section sink.
Context {PF : Type} {backend : MaildirBackend W Fd PF} {blaws : BackendLaws PF backend}.

(** A sink of the Maildir whose directory it was opened in. *)
Definition maildir_ok (s : MaildirSink Fd PF) : Prop :=
  pf_ok (ms_pending s) /\ place (ms_target_dir s) = path_join (ms_maildir s) (ms_target_subdir s).
Lemma unique_name_quiet : quiet unique_name.
Proof. unfold unique_name. apply silent_bind; [apply random_quiet|intros r; apply silent_ret]. Qed.
Lemma sync_directories_quiet dirs published : quiet (sync_directories (fun fd => sys (os_fsync fd)) dirs published).
Proof. induction dirs as [|d dirs IH]; cbn [sync_directories]; auto 6 with quiet. Qed.
Lemma sync_directories_error dirs published w e w' :
  run (sync_directories (fun fd => sys (os_fsync fd)) dirs published) w = (Err e, w') -> sce_published e = Some published.
Proof.
  revert w. induction dirs as [|d dirs IH]; intros w; cbn [sync_directories]; [done|]. rewrite run_bind, run_with_error.
  destruct (run (sys (os_fsync d)) w) as [[[]|e'] w1]; cbn [fst snd map_err]; [apply IH|by intros [= <- _]].
Qed.
Lemma sync_directories_Ok dirs published w d w' :
  run (sync_directories (fun fd => sys (os_fsync fd)) dirs published) w = (Ok d, w') -> d = published.
Proof.
  revert w. induction dirs as [|dir dirs IH]; intros w; cbn [sync_directories]; [by intros [= <- _]|]. intros ([] & w1 & _ & H)%run_bind_Ok. by eapply IH.
Qed.

(** What a commit reports as visible. *)
Definition reported (r : result SinkCommitError PublishedDelivery) : option PublishedDelivery :=
  match r with Ok d => Some d | Err e => sce_published e end.
Lemma maildir_commit_steps (s : MaildirSink Fd PF) w :
  maildir_ok s ->
  let '(r, w') := run (sink_commit (SK_Maildir s)) w in
  match reported r with Some d => added (pub_last_folder d) w w' | None => seen w' = seen w end.
Proof.
  intros [Hpf Hplace]. cbn [sink_commit sink_methods]. unfold commit_with.
  match goal with |- context [run (?m ≫= ?f) w] => set (first := m); set (rest := f) end.
  assert (match run first w with (Ok _, w1) => seen w1 = seen w | (Err e, w1) => sce_published e = None /\ seen w1 = seen w end) as Hfirst.
  { subst first. destruct (ms_durability s); [done|..]; unfold dropping_on_error; cbn [run]; rewrite run_with_error, run_sys;
      pose proof (law_fsync links (pf_file (ms_pending s)) w) as H; destruct (run (os_fsync _) w) as [[[]|e] w1]; cbn in *; rewrite ?drop_quiet; done. }
  rewrite run_bind. destruct (run first w) as [[[]|e] w1]; [|by destruct Hfirst as [E H]; cbn [reported]; rewrite E].
  subst rest. cbv beta. rewrite run_bind, run_with_error.
  pose proof (publish_added (ms_pending s) (ms_tmp_dir s) (ms_target_dir s) (ms_info_suffix s) unique_name w1 Hpf unique_name_quiet) as Hp.
  destruct (run (pf_publish _ _ _ _ _) w1) as [[name|e] w2]; cbn [fst snd map_err]; rewrite ?Hplace in Hp.
  - assert (forall r w', seen w' = seen w2 -> reported r = Some (published_path s name) ->
      match reported r with Some d => added (pub_last_folder d) w w' | None => seen w' = seen w end) as Hdone.
    { intros r w' Hw' ->. unfold added in *. by rewrite Hw', <- Hfirst. }
    destruct (ms_durability s); [exact (Hdone (Ok (published_path s name)) w2 eq_refl eq_refl)..|].
    pose proof (sync_directories_quiet [ms_tmp_dir s; ms_target_dir s] (published_path s name) w2) as Hq.
    destruct (run (sync_directories _ _ _) w2) as [[d|e] w3] eqn:E; apply Hdone; try done.
    + apply sync_directories_Ok in E as ->. done.
    + by apply sync_directories_error in E.
  - cbn [reported]. destruct (ppe_published_name e); cbn; unfold added in *; by rewrite <- Hfirst.
Qed.

(** C32: A commit to a Maildir reports the truth.  On either backend, with any
    durability, of a sink that was opened in its directories: where a link makes its
    name visible or fails - as it does when the name is there - and no other call
    shows anything, a commit that succeeds has made one path visible that was not
    there before, and it is the path of the report; when it fails,
    a path is visible if and only if the error carries it, and it is that one - also
    when what failed is the sync of a directory, or the removal of the private name,
    after the message was linked.  No message that was there is replaced. *)
Theorem maildir_commit_reports (s : MaildirSink Fd PF) w :
  maildir_ok s ->
  let '(r, w') := run (sink_commit (SK_Maildir s)) w in
  match reported r with Some d => added (pub_last_folder d) w w' | None => seen w' = seen w end.
Proof. exact (maildir_commit_steps s w). Qed.

(** ** A sink that is opened *)

(** The directories of a Maildir, as descriptors: one is named by the path it was
    opened with, those in it by their names, and [tmp] is the private one. *)
Record MaildirPlace (path : bytes) : Prop := {
  maildir_place : forall w maildir w', run (open_directory_path (path_components path)) w = (Ok maildir, w') -> place maildir = path;
  directory_place : forall base name w fd w', run (open_directory_at (At base) name) w = (Ok fd, w') -> place fd = path_join (place base) name;
  tmp_private : forall base w fd w', run (open_directory_at (At base) (B "tmp")) w = (Ok fd, w') -> private fd;
}.
Lemma open_at_quiet base name : quiet (open_directory_at base name).
Proof. apply quiet_sys, (law_open links). left. set_solver. Qed.
Lemma open_path_quiet base name : quiet (open_path_directory_at base name).
Proof. apply quiet_if; [|apply open_at_quiet]. apply quiet_sys, (law_open links). left. set_solver. Qed.
Lemma open_components_quiet directory path : quiet (open_components directory path).
Proof.
  revert directory. induction path as [|[] path IH]; intros directory; cbn [open_components]; unfold refuse; auto with quiet.
  apply silent_bind; [apply open_path_quiet|auto].
Qed.
Lemma open_directory_path_quiet path : quiet (open_directory_path path).
Proof.
  unfold open_directory_path, refuse. repeat (apply quiet_if; [auto with quiet|]).
  apply silent_bind; [apply open_path_quiet|intros directory; apply open_components_quiet].
Qed.
(** The part of opening that follows the directory [tmp]. *)
Lemma create_rest_quiet maildir tmp path durability mask status : private tmp ->
  quiet (new_dir ← open_directory_at (At maildir) (B "new");
         cur_dir ← open_directory_at (At maildir) (B "cur");
         _ ← validate_directories maildir tmp new_dir cur_dir;
         pending ← pf_create tmp mask unique_name;
         let '(target_dir, target_subdir, info_suffix) :=
           if status_is_empty status then (new_dir, B "new", []) else (cur_dir, B "cur", maildir_suffix status) in
         mret {| ms_pending := pending; ms_tmp_dir := tmp; ms_target_dir := target_dir; ms_target_subdir := target_subdir;
                 ms_info_suffix := info_suffix; ms_maildir := path; ms_durability := durability |}).
Proof.
  intros Htmp. apply silent_bind; [apply open_at_quiet|intros new_dir]. apply silent_bind; [apply open_at_quiet|intros cur_dir].
  apply silent_bind; [apply validate_quiet|intros _]. apply silent_bind; [apply create_quiet; [done|apply unique_name_quiet]|].
  intros pending. destruct (status_is_empty status); apply silent_ret.
Qed.
Lemma create_maildir_quiet path durability mask status : MaildirPlace path -> quiet (create_maildir path durability mask status).
Proof.
  intros Hplace w. unfold create_maildir. rewrite run_bind. pose proof (open_directory_path_quiet (path_components path) w) as H1.
  destruct (run (open_directory_path _) w) as [[maildir|e] w1]; [cbn [snd] in H1; rewrite <- H1|done].
  rewrite run_bind. pose proof (open_at_quiet (At maildir) (B "tmp") w1) as H2.
  destruct (run (open_directory_at _ _) w1) as [[tmp|e] w2] eqn:E2; [cbn [snd] in H2; rewrite <- H2|done].
  apply create_rest_quiet. by eapply tmp_private.
Qed.
Lemma create_maildir_ok path durability mask status w s w' :
  MaildirPlace path -> run (create_maildir path durability mask status) w = (Ok s, w') -> maildir_ok s.
Proof.
  intros Hplace (maildir & w1 & E1 & (tmp & w2 & E2 & (new & w3 & E3 & (cur & w4 & E4 & (u & w5 & E5 & (pending & w6 & E6 & E)%run_bind_Ok)%run_bind_Ok)%run_bind_Ok)
    %run_bind_Ok)%run_bind_Ok)%run_bind_Ok.
  apply (maildir_place _ Hplace) in E1. pose proof (tmp_private _ Hplace _ _ _ _ E2) as Htmp. apply create_ok in E6; [|done].
  apply (directory_place _ Hplace) in E3. apply (directory_place _ Hplace) in E4. destruct (status_is_empty status); injection E as <- _; split; cbn; by rewrite ?E3, ?E4, ?E1.
Qed.

(** ** The sinks of a fanout *)

(** Deliveries that became visible one after the other, those that are discarded
    apart. *)
Inductive deliveries : W -> list PublishedDelivery -> W -> Prop :=
| no_delivery w w' : seen w' = seen w -> deliveries w [] w'
| visible_delivery d l w w1 w' : added (pub_last_folder d) w w1 -> deliveries w1 l w' -> deliveries w (d :: l) w'
| discarded_delivery d l w w1 w' : pub_last_folder d = B "/dev/null" -> seen w1 = seen w -> deliveries w1 l w' -> deliveries w (d :: l) w'.
Lemma deliveries_app w1 w2 w3 l k : deliveries w1 l w2 -> deliveries w2 k w3 -> deliveries w1 (l ++ k) w3.
Proof.
  induction 1 as [w w' E|d l w w1' w' Ha H IH|d l w w1' w' Hd E H IH]; intros Hk.
  - destruct Hk as [w0 w'' E'|d k w0 w1' w'' Ha H|d k w0 w1' w'' Hd E' H].
    + apply no_delivery. congruence.
    + eapply visible_delivery; [|exact H]. unfold added in *. by rewrite <- E.
    + eapply discarded_delivery; [done| |exact H]. congruence.
  - eapply visible_delivery; [exact Ha|by apply IH].
  - eapply discarded_delivery; [done|exact E|by apply IH].
Qed.
Definition box_ok (s : Sink Fd PF) : Prop := match s with SK_Maildir m => maildir_ok m | SK_Discard d => ds_path d = B "/dev/null" end.
#[export] Instance maildir_sink_laws : SinkLaws W (Sink Fd PF) sink_methods.
Proof.
  refine {| sink_ok := box_ok; shows := deliveries; shows_app := deliveries_app |}.
  - intros w. by apply no_delivery.
  - intros [m|d] l w Hs; cbn [sink_write sink_methods]; [|by split; [apply no_delivery|intros s' [= <-]]].
    unfold keeping. pose proof (write_all_quiet (length l) (pf_file (ms_pending m)) l w) as H. unfold fd_write_all.
    destruct (run (write_all_loop _ _ _) w) as [[[]|e] w1]; cbn [fst snd]; (split; [by apply no_delivery|]); [by intros s' [= <-]|done].
  - intros s w Hs. split; [by apply no_delivery|by intros s' [= <-]].
  - intros [m|d] w Hs; apply no_delivery; [|done]. apply abort_quiet, Hs.
  - intros [m|d] w Hs.
    + pose proof (maildir_commit_steps m w Hs) as H. destruct (run (sink_commit (SK_Maildir m)) w) as [[d|e] w']; cbn [fst snd reported] in *.
      * eapply visible_delivery; [exact H|by apply no_delivery].
      * destruct (sce_published e) as [d|]; cbn; [eapply visible_delivery; [exact H|by apply no_delivery]|by apply no_delivery].
    + cbn. eapply discarded_delivery; [exact Hs|done|by apply no_delivery].
Defined.
End sink.
End seen.

(** A system of one Maildir whose random source repeats itself, so that the second
    message finds its name taken; a directory cannot be synced. *)
Definition mail_os : Os (gset bytes) bytes := {|
  os_openat := fun _ _ _ _ => mret (B "file"); os_fstat := fun _ => stop_with 38; os_statat := fun _ _ => stop_with 38; os_mkdirat := fun _ _ _ => stop_with 38;
  os_link_fd := fun _ dir name => Comp (fun w => if decide (path_join dir name ∈ w) then (Err 17, w) else (Ok tt, {[path_join dir name]} ∪ w));
  os_linkat := fun _ _ dir name => Comp (fun w => if decide (path_join dir name ∈ w) then (Err 17, w) else (Ok tt, {[path_join dir name]} ∪ w));
  os_unlinkat := fun _ _ => mret tt; os_dupfd := fun fd => mret fd; os_flock := fun _ _ => mret tt;
  os_fsync := fun fd => if bool_decide (fd = B "file") then mret tt else stop_with 5;
  os_ftruncate := fun _ _ => stop_with 38; os_seek_end := fun _ => stop_with 38; os_write := fun _ l => mret (length l); os_read := fun _ _ => stop_with 38;
  os_getrandom := fun n => mret (replicate n 171); os_mapped := fun _ _ => stop_with 38; os_getuid := fun _ => 1000; os_pid := fun _ => 1;
  os_system_time := fun w => (0, w); os_instant := fun w => (0, w); os_sleep := fun _ w => w; os_signal := fun _ => 0;
|}.
#[local] Existing Instance linux_numbers.
#[local] Existing Instance mail_os.
#[local] Existing Instance linux_backend.
Lemma mail_links : LinkLaws id id (fun _ => True).
Proof.
  assert (forall path (w : gset bytes), match (if decide (path ∈ w) then (Err 17, w) else (Ok tt : result Z (), {[path]} ∪ w)) with
    | (Ok _, w') => added id path w w' | (Err _, w') => id w' = id w end) as Hlink by (intros path w; by case_decide).
  split; try (intros; intros w; done); [intros; apply Hlink|intros; apply Hlink|done|intros fd w; cbn; by case_bool_decide].
Qed.
Definition sample_sink : MaildirSink bytes (LinuxFile bytes) :=
  {| ms_pending := {| lf_file := B "file" |}; ms_tmp_dir := B "mail/tmp"; ms_target_dir := B "mail/new"; ms_target_subdir := B "new";
     ms_info_suffix := []; ms_maildir := B "mail"; ms_durability := DP_Full |}.
Lemma maildir_commit_reports_witness :
  let '(r, w') := run (sink_commit (SK_Maildir sample_sink)) (∅ : gset bytes) in
  match reported r with Some d => added id (pub_last_folder d) ∅ w' | None => id w' = ∅ end.
Proof.
  exact (maildir_commit_reports id id (fun _ => True) mail_links (blaws := linux_laws id id (fun _ => True) mail_links) sample_sink ∅ (conj I eq_refl)).
Defined.
Example sample_commit : reported (run (sink_commit (SK_Maildir sample_sink)) ∅).1 =
  Some {| pub_last_folder := B "mail/new/procmail-rs.abababababababababababababababab" |}.
Proof. by vm_compute. Qed.
