(* ===== verification/Staging.v ===== *)
(** The private copy of a message that is evaluated whole:
    [src/src/delivery/staging.rs] with the part of [src/src/mapped_file.rs] that
    does not map memory.  The file loses its name before its bytes are looked at,
    and when it is dropped. *)
From S2P Require Import Prelude Effects Numbers Config Limits Delivery Startup Files Maildir.
#[local] Open Scope Z_scope.

(** Source: delivery/staging.rs `const DIRECTORY_NAME` *)
Definition DIRECTORY_NAME : bytes := B ".procmail-rs-staging".
(** The counter of the process.
    Source: delivery/staging.rs:18-18 `NEXT_NAME` *)
Class NameCounter (W : Type) := { next_name : W -> Z; set_next_name : Z -> W -> W }.

(** Source: delivery/staging.rs `pub struct StagingFile` *)
Record StagingFile (Fd : Type) := { sf_file : option Fd; sf_directory : Fd; sf_name : bytes; sf_pending : bool }.
Arguments Build_StagingFile {Fd}.
Arguments sf_file {Fd}. Arguments sf_directory {Fd}. Arguments sf_name {Fd}. Arguments sf_pending {Fd}.
(** The bytes of the file as they are mapped.
    Source: delivery/staging.rs `pub struct StagedMessage` *)
Record StagedMessage := { st_bytes : bytes; st_header_len : nat }.

Section staging.
Context {T : Target} {P : Platform} {W Fd : Type} {OS : Os W Fd} {N : NameCounter W}.

(** Source: delivery/staging.rs `fn unique_name` *)
Definition unique_staging_name {E} (attempt : nat) : M W E bytes :=
  sequence ← gets next_name;
  _ ← modify (set_next_name ((sequence + 1) mod 2 ^ 64));
  pid ← gets os_pid;
  time ← system_time;
  mret (B "message." ++ z_decimal pid ++ B "." ++ z_decimal (Z.max 0 time) ++ B "." ++ z_decimal sequence ++ B "." ++ decimal attempt).
(** Source: delivery/staging.rs:54-73 `create (loop)` *)
Fixpoint create_staging_file (attempts attempt : nat) (directory : Fd) : M W IoError (StagingFile Fd) :=
  match attempts with
  | O => refuse EK_AlreadyExists (B "cannot allocate a staging name after 128 attempts")
  | S attempts =>
      name ← unique_staging_name attempt;
      opened ← outcome_of (os_openat (At directory) name [RDWR; CREATE; EXCL; CLOEXEC; NOFOLLOW] 384);
      match opened with
      | Ok file => mret {| sf_file := Some file; sf_directory := directory; sf_name := name; sf_pending := true |}
      | Err error => if error =? errno_EXIST then create_staging_file attempts (S attempt) directory else stop_with (io_of_errno error)
      end
  end.
(** Source: delivery/staging.rs `pub fn create(` *)
Definition create_staging (maildir : bytes) : M W IoError (StagingFile Fd) :=
  base ← open_directory_path (path_components maildir);
  made ← outcome_of (os_mkdirat base DIRECTORY_NAME 448);
  _ ← match made with
      | Ok _ => mret tt
      | Err error => if error =? errno_EXIST then mret tt else stop_with (io_of_errno error)
      end;
  directory ← open_directory_at (At base) DIRECTORY_NAME;
  metadata ← sys (os_fstat directory);
  if negb (Z.land (st_mode metadata) 63 =? 0) then
    refuse EK_PermissionDenied (DIRECTORY_NAME ++ B " must not grant access to group or other users")
  else create_staging_file MAX_NAME_ATTEMPTS 0 directory.

(** Source: delivery/staging.rs `impl Write for StagingFile` *)
Definition staging_write (staging : StagingFile Fd) (l : bytes) : M W IoError () :=
  match sf_file staging with
  | Some file => fd_write_all file l
  | None => if bool_decide (l = []) then mret tt else stop_with (io_other (B "cannot write a consumed staging file"))
  end.
(** Source: delivery/staging.rs `fn cleanup` *)
Definition cleanup_staging (staging : StagingFile Fd) : M W IoError () :=
  if negb (sf_pending staging) then mret tt
  else
    removed ← outcome_of (os_unlinkat (sf_directory staging) (sf_name staging));
    match removed with
    | Ok _ => mret tt
    | Err error => if error =? errno_NOENT then mret tt else stop_with (io_of_errno error)
    end.
(** Source: delivery/staging.rs `impl Drop for StagingFile` *)
Definition drop_staging (staging : StagingFile Fd) (w : W) : W := (run (cleanup_staging staging) w).2.

(** A file of no bytes is not mapped.
    Source: mapped_file.rs `pub(crate) fn unlink_and_map` *)
Definition unlink_and_map (file directory : Fd) (name : bytes) (maximum_len : nat) : M W IoError bytes :=
  metadata ← sys (os_fstat file);
  if (st_size metadata <? 0) || (usize_max <? st_size metadata) then
    refuse EK_InvalidData (B "staging file size does not fit in usize")
  else
    let length_ := Z.to_nat (st_size metadata) in
    if (maximum_len <? length_)%nat then
      refuse EK_InvalidData (B "staging file has " ++ decimal length_ ++ B " bytes, limit is " ++ decimal maximum_len)
    else
      _ ← sys (os_unlinkat directory name);
      if (length_ =? 0)%nat then mret [] else sys (os_mapped file length_).
(** A map that fails drops the file, which removes its name if it is there.
    Source: delivery/staging.rs `pub fn map(mut self` *)
Definition map_staging (staging : StagingFile Fd) (maximum_len header_len : nat) : M W IoError StagedMessage :=
  mapping ← dropping_on_error (drop_staging staging)
    (file ← of_result (ok_or (io_other (B "staging file was already consumed before mapping")) (sf_file staging));
     unlink_and_map file (sf_directory staging) (sf_name staging) maximum_len);
  if (length mapping <? header_len)%nat then refuse EK_InvalidData (B "staging header length exceeds the message size")
  else mret {| st_bytes := mapping; st_header_len := header_len |}.
End staging.
