(* ===== verification/Streaming.v ===== *)
(** The message on its way to the sinks: the second half of [src/src/message.rs]
    over a writer that does something, and how [src/src/delivery.rs] writes it to
    all the sinks of a fanout, and to the staging file beside them, in one pass. *)
From S2P Require Import Prelude Effects Numbers Config Limits Settings HeaderValue HeaderFields HeaderStore EditedHeader StructuredHeader HeaderEdit Message Expand Conditions RcFile Delivery.
#[local] Open Scope Z_scope.

Section stream.
Context {T : Target} {W : Type} (put : bytes -> M W IoError ()).

(** [write_all] of no bytes does not write. *)
Definition put_all (l : bytes) : M W IoError () := if bool_decide (l = []) then mret tt else put l.
(** The loop of [read_body] when nothing is retained.
    Source: message.rs `fn read_body(` *)
Fixpoint stream_body_loop (fuel : nat) (r : Reader IoError) (limits : MessageLimits) (total_size body_size_ : nat)
    : M W (MessageReadError IoError) (nat * Reader IoError) :=
  match fuel with
  | O => mret (total_size, r)
  | S fuel =>
      filled ← of_result (map_err Io (fill_buf r));
      let '(available, r) := filled in
      match available with
      | [] => mret (total_size, r)
      | _ :: _ =>
          next_body_size ← of_result (ok_or (LimitExceeded ML_Body (body_size limits)) (checked_add body_size_ (length available)));
          next_total_size ← of_result (ok_or (LimitExceeded ML_Message (message_size limits)) (checked_add total_size (length available)));
          _ ← of_result (check_size (Z.of_nat next_body_size) (body_size limits) ML_Body);
          _ ← of_result (check_size (Z.of_nat next_total_size) (message_size limits) ML_Message);
          _ ← with_error Io (put_all available);
          stream_body_loop fuel (consume r (length available)) limits next_total_size next_body_size
      end
  end.
(** Source: message.rs `pub fn stream_to` *)
Definition stream_message (h : MessageHead) (r : Reader IoError) : M W (MessageReadError IoError) (StreamedMessage * Reader IoError) :=
  let '(raw, matching, limits) := into_serialized_parts h in
  _ ← with_error Io (put_all raw);
  streamed ← stream_body_loop (S (pending r)) r limits (length raw) 0;
  let '(total, r) := streamed in
  mret ({| sm_header := raw; sm_matching := matching; sm_len := total |}, r).
End stream.

(** * Fanouts *)

(** Source: delivery.rs `pub struct StreamDeliveryError` *)
Record StreamDeliveryError := {
  sde_source : MessageReadError IoError; sde_abort_failures : nat; sde_delivery_failure : option (nat * DeliveryFailure);
  sde_staging_failure : option DeliveryFailure;
}.

Section fanout.
Context {T : Target} {P : Platform} {W S : Type} {sinks : PendingSink W S}.

Definition fanout_put (l : bytes) : M (PendingFanout * W) IoError () :=
  Comp (fun '(f, w) => let '(r, f, w) := fanout_write f l w in (r, (f, w))).
(** Source: delivery.rs `pub fn stream(` *)
Definition fanout_stream (f : PendingFanout) (h : MessageHead) (r : Reader IoError) : M W StreamDeliveryError (ValidatedFanout * StreamedMessage * Reader IoError) :=
  Comp (fun w =>
    match run (stream_message fanout_put h r) (f, w) with
    | (Ok (message, r), (f, w)) => (Ok ({| vf_sinks := pf_sinks f |}, message, r), w)
    | (Err source, (f, w)) =>
        let '(abort_failures, w) := abort_all (pf_sinks f) w in
        (Err {| sde_source := source; sde_abort_failures := abort_failures; sde_delivery_failure := pf_failure f; sde_staging_failure := None |}, w)
    end).

(** The writer of a fanout and of a staging file beside it, with the failure of the
    latter.
    Source: delivery.rs `struct TeeWriter` *)
Record TeeWriter := { tee_fanout : PendingFanout (S := S); tee_failure : option DeliveryFailure }.
(** Source: delivery.rs `impl<W: Write> Write for TeeWriter` *)
Definition tee_put (staging : bytes -> M W IoError ()) (l : bytes) : M (TeeWriter * W) IoError () := Comp (fun '(t, w) =>
  let '(r, f, w) := fanout_write (tee_fanout t) l w in
  match r with
  | Err e => (Err e, ({| tee_fanout := f; tee_failure := tee_failure t |}, w))
  | Ok _ =>
      match run (staging l) w with
      | (Ok _, w) => (Ok tt, ({| tee_fanout := f; tee_failure := tee_failure t |}, w))
      | (Err e, w) => (Err e, ({| tee_fanout := f; tee_failure := Some (failure_from_io DO_Write e false) |}, w))
      end
  end).
(** Source: delivery.rs `pub fn stage(` *)
Definition fanout_stage (f : PendingFanout) (h : MessageHead) (r : Reader IoError) (staging : bytes -> M W IoError ())
    : M W StreamDeliveryError (ValidatedFanout * StreamedMessage * Reader IoError) :=
  Comp (fun w =>
    match run (stream_message (tee_put staging) h r) ({| tee_fanout := f; tee_failure := None |}, w) with
    | (Ok (message, r), (t, w)) => (Ok ({| vf_sinks := pf_sinks (tee_fanout t) |}, message, r), w)
    | (Err source, (t, w)) =>
        let '(abort_failures, w) := abort_all (pf_sinks (tee_fanout t)) w in
        (Err {| sde_source := source; sde_abort_failures := abort_failures; sde_delivery_failure := pf_failure (tee_fanout t);
                sde_staging_failure := tee_failure t |}, w)
    end).
End fanout.

(** What errors say: the [Display] of the errors that reach the user through the
    delivery of a message. *)

(** Source: message.rs `impl fmt::Display for MessageLimit` *)
Definition message_limit_text (k : MessageLimitKind) : bytes :=
  match k with
  | ML_Message => B "LIMIT_MSG_SIZE" | ML_Headers => B "LIMIT_MSG_HEADERS" | ML_Body => B "LIMIT_MSG_BODY"
  | ML_HeaderLine => B "LIMIT_HEADER_LINE" | ML_HeaderField => B "LIMIT_HEADER_FIELD"
  end.
(** Source: message.rs `impl fmt::Display for MessageReadError` *)
Definition message_read_error_text (e : MessageReadError IoError) : bytes :=
  match e with
  | Io error => B "input error: " ++ ie_text error
  | Message.LimitExceeded kind limit => B "message exceeds " ++ message_limit_text kind ++ B " (" ++ z_decimal limit ++ B " bytes)"
  end.
(** Source: header_value.rs `pub fn description(self)` *)
Definition decoded_error_text (e : DecodedHeaderError) : bytes :=
  match e with
  | MalformedWord => B "malformed RFC 2047 encoded-word" | UnsupportedCharset => B "unsupported RFC 2047 charset"
  | UnsupportedEncoding => B "unsupported RFC 2047 encoding" | InvalidText => B "decoded header value is not valid text"
  | TooLong => B "decoded header value exceeds MAX_ASSIGNMENT_VALUE_LEN"
  end.
(** Source: header_edit.rs `impl fmt::Display for HeaderEditError` *)
Definition header_edit_error_text (e : HeaderEditError) : bytes :=
  match e with
  | SizeOverflow => B "edited header size overflows usize"
  | HeaderStore.LimitExceeded kind limit => B "edited message exceeds " ++ message_limit_text kind ++ B " (" ++ z_decimal limit ++ B " bytes)"
  | InvalidGeneratedValue => B "generated header value contains a control character that cannot be represented"
  | InvalidKeywordValue empty => B "keywords header value " ++ keyword_reason (if empty then CK_Empty else CK_InvalidToken)
  | KeywordLimitExceeded limit => B "structured header value count exceeds the hard limit of " ++ z_decimal limit
  | InvalidStatusValue reason => B "status header value " ++ status_reason reason
  | GeneratedLineTooLong limit => B "generated header line exceeds RFC 5322 limit (" ++ z_decimal limit ++ B " bytes)"
  | Decode error => decoded_error_text error
  | ExtractedValueTooLong limit => B "extracted header value exceeds MAX_ASSIGNMENT_VALUE_LEN (" ++ z_decimal limit ++ B " bytes)"
  end.
Definition size_reason_text (r : SizeReason) : bytes :=
  match r with
  | SR_Malformed => B "expected a non-negative byte count with an optional K, M, or G suffix"
  | SR_UnknownSuffix => B "unknown size suffix; use K, M, or G"
  | SR_NotInteger => B "expected a non-negative integer before the size suffix"
  | SR_Overflow => B "size overflows the supported range"
  | SR_Ceiling ceiling => B "value exceeds the hard ceiling of " ++ z_decimal ceiling ++ B " bytes"
  end.
Definition line_prefix (line : nat) : bytes := B "line " ++ decimal line ++ B ": ".
(** Source: limits.rs `impl fmt::Display for LimitConfigError` *)
Definition limit_config_error_text (e : LimitConfigError) : bytes :=
  line_prefix (lce_line e) ++ B "invalid " ++ lce_name e ++ B ": " ++ size_reason_text (lce_reason e).
(** Source: runtime/settings.rs `impl fmt::Display for RuntimeSettingError` *)
Definition runtime_setting_error_text (e : RuntimeSettingError) : bytes :=
  match rse_line e with Some line => line_prefix line ++ rse_message e | None => rse_message e end.
(** Source: structured_header.rs `impl fmt::Display for StructuredHeaderError` *)
Definition structured_error_text (e : StructuredHeaderError) : bytes :=
  B "structured header value count exceeds the hard limit of " ++ decimal MAX_STRUCTURED_HEADER_VALUES.
(** Source: eval/result.rs `impl fmt::Display for EvalError` *)
Definition eval_error_text (e : EvalError) : bytes :=
  match e with
  | E_BodyWasNotBuffered => B "execution plan requires body contents that were not buffered"
  | E_VariableValueTooLarge name size =>
      B "variable " ++ name ++ B " has " ++ z_decimal size ++ B " bytes, exceeding the hard limit of " ++ z_decimal MAX_ASSIGNMENT_VALUE_LEN ++ B " bytes"
  | E_MatchValueIsNotUtf8 => B "regular expression capture is not valid UTF-8"
  | E_DestinationCommandOutputIsNotUtf8 line => line_prefix line ++ B "destination command output is not valid UTF-8"
  | E_RuntimeCondition line message => line_prefix line ++ B "cannot reparse expanded condition: " ++ message
  | E_StructuredHeader line error => line_prefix line ++ B "cannot inspect structured header: " ++ structured_error_text error
  | E_MatchValuesTooLarge size =>
      B "regular expression captures require " ++ z_decimal size ++ B " bytes, exceeding the hard limit of " ++ z_decimal MAX_MATCH_BYTES ++ B " bytes"
  | E_Expansion error => B "cannot expand configuration value: " ++ expansion_error_text error
  | E_RuntimeRcLoaderUnavailable line statement => line_prefix line ++ statement ++ B " requires the runtime rc loader"
  | E_RuntimeSettingUnavailable line name => line_prefix line ++ name ++ B " requires runtime setting support"
  | E_LocalLockExecutorUnavailable line => line_prefix line ++ B "recipe block requires local lock support"
  | E_BackgroundCopyUnavailable line reason => line_prefix line ++ B "cannot start copy branch: " ++ reason
  | E_RuntimeRc message => message
  | E_ExternalActionUnsupported line => line_prefix line ++ B "external action is not executable yet"
  | E_HeaderActionUnsupported line => line_prefix line ++ B "headers action is not executable yet"
  | E_HeaderEdit line error => line_prefix line ++ B "cannot edit headers: " ++ header_edit_error_text error
  | E_MessageLimits error => B "invalid message limits: " ++ limit_config_error_text error
  | E_ExternalConditionUnsupported line => line_prefix line ++ B "program condition is not executable in this evaluation mode"
  | E_InvalidExternalActionResult line reason => line_prefix line ++ B "invalid external action result: " ++ reason
  end.

(** ** Deliveries *)

Definition abort_text (failures : nat) (what : bytes) : bytes :=
  if (failures =? 0)%nat then [] else B "; failed to abort " ++ decimal failures ++ B " " ++ what ++ B " sink(s)".
(** Source: delivery.rs `impl fmt::Display for StreamDeliveryError` *)
Definition stream_error_text (e : StreamDeliveryError) : bytes :=
  B "cannot validate message: " ++ message_read_error_text (sde_source e) ++ abort_text (sde_abort_failures e) (B "pending").
(** Source: delivery.rs `impl fmt::Display for CommitError` *)
Definition commit_error_text (e : CommitError) : bytes :=
  B "cannot commit delivery after publishing " ++ decimal (length (ce_published e)) ++ B " sink(s): " ++ ie_text (sce_source (ce_source e)) ++
  abort_text (ce_abort_failures e) (B "remaining").
(** Source: delivery.rs `impl fmt::Display for AppendError` *)
Definition buffered_error_text (e : AppendError) : bytes :=
  B "cannot append buffered delivery: " ++ ie_text (ae_source e) ++ abort_text (ae_abort_failures e) (B "pending").
