(* ===== verification/Environment.v ===== *)
(** The environment of a child and the shell it is given: [src/src/environment.rs].
    It is built anew from the variables of the run; nothing of the environment of
    the program itself reaches a child. *)
From stdpp Require Import gmap.
From S2P Require Import Prelude Numbers Config Utf8 Variables Runtime.
#[local] Open Scope Z_scope.

(** How the end of an external command is judged: [src/src/external_command.rs].
    Every form of a command has its own policy; the exit of the child and the write
    of its input are all that it sees. *)

(** Source: external_command.rs `pub enum ChildExit` *)
Inductive ChildExit := CE_Success | CE_ExitFailure | CE_Signaled | CE_TimedOut.
#[export] Instance ChildExit_eq_dec : EqDecision ChildExit.
Proof. solve_decision. Defined.
(** Source: external_command.rs `pub enum InputWrite` *)
Inductive InputWrite := IW_Complete | IW_Failed.
#[export] Instance InputWrite_eq_dec : EqDecision InputWrite.
Proof. solve_decision. Defined.
(** Source: external_command.rs `pub enum FilterOutput` *)
Inductive FilterOutput := FO_CompleteAndValid | FO_Failed.
#[export] Instance FilterOutput_eq_dec : EqDecision FilterOutput.
Proof. solve_decision. Defined.
(** Source: external_command.rs `pub enum CommandOutcomePolicy` *)
Inductive CommandOutcomePolicy :=
| CP_Condition
| CP_ExpansionCapture
| CP_RecipeCapture (status : ChildStatusMode) (errors : WriteErrorMode)
| CP_Pipe (status : ChildStatusMode) (errors : WriteErrorMode)
| CP_Filter (status : ChildStatusMode) (errors : WriteErrorMode) (output : FilterOutput)
| CP_Trap.
(** Source: external_command.rs `pub struct CommandOutcome ` *)
Record CommandOutcome := { co_input_write : InputWrite; co_child_exit : ChildExit }.
(** Source: external_command.rs `pub struct CommandDecision` *)
Record CommandDecision := { accepted : bool; replace_message : bool; report_child_failure : bool }.

Definition new_decision (accepted_ replace_ report : bool) : CommandDecision :=
  {| accepted := accepted_; replace_message := replace_; report_child_failure := report |}.
(** Source: external_command.rs `fn recipe_decision` *)
Definition recipe_decision (o : CommandOutcome) (status : ChildStatusMode) (errors : WriteErrorMode) : CommandDecision :=
  let write_succeeded := bool_decide (co_input_write o = IW_Complete) || bool_decide (errors = WE_Ignore) in
  let status_succeeded := bool_decide (co_child_exit o = CE_Success) || bool_decide (status = CS_Ignore) in
  new_decision (write_succeeded && status_succeeded) false
    (negb (bool_decide (co_child_exit o = CE_Success)) && bool_decide (status = CS_Wait)).
(** Source: external_command.rs `pub fn decide` *)
Definition decide_outcome (o : CommandOutcome) (policy : CommandOutcomePolicy) : CommandDecision :=
  match policy with
  | CP_Condition => new_decision (bool_decide (co_child_exit o = CE_Success)) false false
  | CP_ExpansionCapture =>
      new_decision (negb (bool_decide (co_child_exit o = CE_TimedOut))) false (bool_decide (co_child_exit o = CE_TimedOut))
  | CP_RecipeCapture status errors =>
      let d := recipe_decision o status errors in
      if bool_decide (co_child_exit o = CE_TimedOut) then new_decision false (replace_message d) true else d
  | CP_Pipe status errors => recipe_decision o status errors
  | CP_Filter status errors output =>
      let d := recipe_decision o status errors in
      let taken := accepted d && bool_decide (output = FO_CompleteAndValid) in
      new_decision taken taken (report_child_failure d)
  | CP_Trap => new_decision (bool_decide (co_child_exit o = CE_Success)) false false
  end.

(** ** What is accepted *)

(** A message is only replaced by output that was accepted, and only a filter
    replaces one. *)
Lemma replaced_is_accepted o policy :
  replace_message (decide_outcome o policy) = true ->
  accepted (decide_outcome o policy) = true /\ exists status errors, policy = CP_Filter status errors FO_CompleteAndValid.
Proof.
  destruct policy as [| |status errors|status errors|status errors output|]; cbn; try done; [by destruct (bool_decide _)|].
  intros H. split; [done|]. apply andb_true_iff in H as [_ H]. apply bool_decide_eq_true in H as ->. eauto.
Qed.
(** The flags [w] and [i] of a recipe, in one line: what a recipe accepts. *)
Lemma pipe_accepts o status errors :
  accepted (decide_outcome o (CP_Pipe status errors)) = true <->
  (co_input_write o = IW_Complete \/ errors = WE_Ignore) /\ (co_child_exit o = CE_Success \/ status = CS_Ignore).
Proof. cbn. by rewrite andb_true_iff, !orb_true_iff, !bool_decide_eq_true. Qed.

(** * The environment of a child *)

(** Source: environment.rs `pub const DEFAULT_SHELL:` *)
Definition DEFAULT_SHELL : bytes := B "/bin/sh".
(** Source: environment.rs `pub const DEFAULT_SHELL_FLAGS` *)
Definition DEFAULT_SHELL_FLAGS : bytes := B "-c".
(** Source: environment.rs `pub const DEFAULT_PATH` *)
Definition DEFAULT_PATH : bytes := B "/usr/bin:/bin".
(** Source: environment.rs `pub const MAX_CHILD_ENVIRONMENT_VARIABLES` *)
Definition MAX_CHILD_ENVIRONMENT_VARIABLES : nat := Z.to_nat 512.
(** Source: environment.rs `pub const MAX_CHILD_ENVIRONMENT_BYTES` *)
Definition MAX_CHILD_ENVIRONMENT_BYTES : Z := 256 * 1024.

(** [BTreeMap::iter]: the entries by their names. *)
Fixpoint bytes_le (a b : bytes) : bool :=
  match a, b with
  | [], _ => true
  | _ :: _, [] => false
  | x :: a, y :: b => (x <? y) || ((x =? y) && bytes_le a b)
  end.
Definition by_name {A} (m : gmap (list Z) A) : list (bytes * A) := merge_sort (fun a b => Is_true (bytes_le a.1 b.1)) (map_to_list m).

(** Source: environment.rs `pub struct ProcessEnvironment ` *)
Record ProcessEnvironment := { env_values : gmap (list Z) bytes; env_arguments : list bytes }.
(** [None] is a shell that may not be used.
    Source: environment.rs `pub struct ShellPolicy ` *)
Record ShellPolicy := { approved_path : option bytes }.
(** Source: environment.rs `pub struct ShellInvocation` *)
Record ShellInvocation := { shell_path : bytes; shell_flags : bytes }.

Section environment.
Context {T : Target}.

(** Source: environment.rs `fn validate_entry` *)
Definition validate_entry (name value : bytes) : result bytes () :=
  if bool_decide (name = []) || (MAX_ASSIGNMENT_NAME_LEN <? len name) || negb (valid_name name) then
    Err (B "child environment contains an invalid variable name")
  else if existsb (Z.eqb 0) value then Err (B "child environment variable " ++ name ++ B " contains NUL")
  else
    let limit := default MAX_ASSIGNMENT_VALUE_LEN (value_limit <$> assignment_target (variable_policy name) VS_RcFile) in
    if limit <? len value then Err (B "child environment variable " ++ name ++ B " exceeds the hard limit of " ++ z_decimal limit ++ B " bytes")
    else Ok tt.
(** Source: environment.rs:59-75 `from_runtime (values)` *)
Fixpoint validate_entries (entries : list (bytes * bytes)) (values : gmap (list Z) bytes) : result bytes (gmap (list Z) bytes) :=
  match entries with
  | [] => Ok values
  | (name, value) :: rest =>
      if is_positional_parameter_name name then validate_entries rest values
      else _ ← validate_entry name value; validate_entries rest (<[name := value]> values)
  end.
Definition or_insert (values : gmap (list Z) bytes) (entry : bytes * bytes) : gmap (list Z) bytes :=
  match values !! entry.1 with Some _ => values | None => <[entry.1 := entry.2]> values end.
Definition shell_defaults : list (bytes * bytes) :=
  [(B "SHELL", DEFAULT_SHELL); (B "SHELLFLAGS", DEFAULT_SHELL_FLAGS); (B "PATH", DEFAULT_PATH)].
(** Source: environment.rs:219-232 `validate_aggregate (loop)` *)
Fixpoint aggregate_size (entries : list (bytes * bytes)) (size : nat) : result bytes nat :=
  match entries with
  | [] => Ok size
  | (name, value) :: rest =>
      size ← ok_or (B "child environment size overflows")
               (size ← checked_add size (length name); size ← checked_add size (length value); checked_add size 2);
      if MAX_CHILD_ENVIRONMENT_BYTES <? Z.of_nat size then
        Err (B "child environment exceeds the hard limit of " ++ z_decimal MAX_CHILD_ENVIRONMENT_BYTES ++ B " bytes")
      else aggregate_size rest size
  end.
(** Source: environment.rs `fn validate_aggregate` *)
Definition validate_aggregate (values : gmap (list Z) bytes) : result bytes () :=
  if (MAX_CHILD_ENVIRONMENT_VARIABLES <? size values)%nat then
    Err (B "child environment variable count exceeds the hard limit of " ++ decimal MAX_CHILD_ENVIRONMENT_VARIABLES)
  else (fun _ => tt) <$> aggregate_size (by_name values) 0.
(** Source: environment.rs:95-101 `from_runtime (arguments)` *)
Fixpoint positional_values (runtime : RuntimeVariables) (indices : list nat) : result bytes (list bytes) :=
  match indices with
  | [] => Ok []
  | index :: rest =>
      let value := default [] (get_bytes runtime (decimal index)) in
      if existsb (Z.eqb 0) value then Err (B "positional argument contains NUL")
      else cons value <$> positional_values runtime rest
  end.
(** The reservation of the arguments does not fail.
    Source: environment.rs `pub fn from_runtime` *)
Definition environment_from_runtime (runtime : RuntimeVariables) : result bytes ProcessEnvironment :=
  values ← validate_entries (by_name (byte_values runtime)) ∅;
  let values := foldl or_insert values shell_defaults in
  _ ← validate_aggregate values;
  count ← ok_or (B "invalid positional argument count") (parse_usize (default (B "0") (get runtime (B "#"))));
  if Z.of_nat MAX_POSITIONAL_ARGUMENTS <? count then Err (B "positional argument count exceeds its hard limit")
  else
    arguments ← positional_values runtime (seq 1 (Z.to_nat count));
    Ok {| env_values := values; env_arguments := arguments |}.
(** Source: environment.rs `pub fn get(&self` *)
Definition environment_get (e : ProcessEnvironment) (name : bytes) : option bytes :=
  match env_values e !! name with Some value => if valid_utf8 value then Some value else None | None => None end.

(** Source: environment.rs `fn validate_shell_path` *)
Definition validate_shell_path (path : bytes) : result bytes () :=
  if bool_decide (path = []) || (MAX_SHELL_SETTING_LEN <? len path) || existsb (Z.eqb 0) path then
    Err (B "approved shell must be a non-empty bounded path without NUL")
  else if negb (starts_with path [c_SLASH]) || ends_with path [c_SLASH] ||
          existsb (fun c => bool_decide (c = []) || bytes_eqb c [c_DOT] || bytes_eqb c [c_DOT; c_DOT]) (split_on (Z.eqb c_SLASH) (drop 1 path)) then
    Err (B "approved shell must be an absolute path without '.' or '..' components")
  else Ok tt.
(** Source: environment.rs `pub fn disabled` *)
Definition disabled_shell : ShellPolicy := {| approved_path := None |}.
(** Source: environment.rs `pub fn approve` *)
Definition approve (path : bytes) : result bytes ShellPolicy := _ ← validate_shell_path path; Ok {| approved_path := Some path |}.
(** [None] is the panic of an [expect].
    Source: environment.rs `pub fn authorize` *)
Definition authorize (policy : ShellPolicy) (e : ProcessEnvironment) : option (result bytes ShellInvocation) :=
  match approved_path policy with
  | None => Some (Err (B "shell execution is disabled by operator policy"))
  | Some approved =>
      configured ← environment_get e (B "SHELL");
      if negb (bytes_eqb configured approved) then Some (Err (B "configured SHELL does not match the operator-approved shell"))
      else flags ← environment_get e (B "SHELLFLAGS"); Some (Ok {| shell_path := configured; shell_flags := flags |})
  end.
End environment.

(** What a child can see: exactly the variables of the run, within their ceilings,
    over the three defaults; and when the shell of the run may be started. *)

Section facts.
Context {T : Target}.

Lemma by_name_Permutation {A} (m : gmap (list Z) A) : by_name m ≡ₚ map_to_list m.
Proof. apply merge_sort_Permutation. Qed.
Lemma by_name_lookup {A} (m : gmap (list Z) A) : list_to_map (by_name m) = m.
Proof.
  rewrite <-(list_to_map_to_list m) at 2. apply list_to_map_proper; [|apply by_name_Permutation].
  rewrite by_name_Permutation. apply NoDup_fst_map_to_list.
Qed.

(** What an entry of the environment is. *)
Record entry_ok (name value : bytes) : Prop := {
  eo_name : valid_name name = true; eo_name_len : len name <= MAX_ASSIGNMENT_NAME_LEN;
  eo_value : Forall (fun b => b <> 0) value; eo_value_len : len value <= MAX_ASSIGNMENT_VALUE_LEN;
}.
Lemma no_nul l : existsb (Z.eqb 0) l = false -> Forall (fun b => b <> 0) l.
Proof.
  intros H. apply Forall_forall. intros b Hb ->. assert (existsb (Z.eqb 0) l = true); [|congruence].
  apply existsb_exists. exists 0. split; [by apply list_elem_of_In|done].
Qed.
Lemma value_limit_most t : value_limit t <= MAX_ASSIGNMENT_VALUE_LEN.
Proof. by destruct t. Qed.
Lemma validate_entry_ok name value : validate_entry name value = Ok tt -> entry_ok name value.
Proof.
  unfold validate_entry. destruct (bool_decide (name = []) || _) eqn:Hn; cbn [orb]; [done|]. destruct (negb (valid_name name)) eqn:Hv; [done|].
  destruct (existsb _ value) eqn:H0; [done|]. destruct (Z.ltb_spec (default MAX_ASSIGNMENT_VALUE_LEN (value_limit <$> assignment_target (variable_policy name) VS_RcFile)) (len value)) as [|Hl]; [done|].
  intros _. apply orb_false_iff in Hn as [_ Hn]. apply negb_false_iff in Hv. apply Z.ltb_ge in Hn.
  split; [done|done|by apply no_nul|]. destruct (assignment_target _ _) as [t|]; cbn in Hl; [|done]. pose proof (value_limit_most t). lia.
Qed.
Lemma validate_entries_lookup entries m m' :
  NoDup entries.*1 -> validate_entries entries m = Ok m' ->
  forall name, m' !! name = if is_positional_parameter_name name then m !! name
                            else match (list_to_map entries : gmap _ _) !! name with Some v => Some v | None => m !! name end.
Proof.
  revert m. induction entries as [|[n v] entries IH]; intros m Hnd; cbn [validate_entries list_to_map foldr fmap list_fmap fst snd].
  { intros [= <-] name. rewrite lookup_empty. by destruct (is_positional_parameter_name name). }
  cbn in Hnd. apply NoDup_cons in Hnd as [Hn Hnd]. intros H name. unfold list_to_map. cbn [foldr fst snd]. fold (list_to_map (M := gmap (list Z) bytes) entries).
  destruct (is_positional_parameter_name n) eqn:Hp.
  - rewrite (IH _ Hnd H name). destruct (is_positional_parameter_name name) eqn:Hp'; [done|].
    rewrite lookup_insert_ne; [done|]. intros ->. congruence.
  - apply result_bind_Ok in H as ([] & _ & H). rewrite (IH _ Hnd H name). destruct (decide (n = name)) as [->|Hne].
    + rewrite Hp. rewrite lookup_insert_eq. assert ((list_to_map entries : gmap (list Z) bytes) !! name = None) as ->; [by apply not_elem_of_list_to_map_1|].
      by rewrite lookup_insert_eq.
    + by rewrite !lookup_insert_ne.
Qed.
Lemma validate_entries_ok entries m m' :
  validate_entries entries m = Ok m' -> map_Forall entry_ok m -> map_Forall entry_ok m'.
Proof.
  revert m. induction entries as [|[n v] entries IH]; intros m; cbn [validate_entries]; [by intros [= <-]|].
  destruct (is_positional_parameter_name n); [by apply IH|]. intros ([] & Hv & H)%result_bind_Ok Hm. apply (IH _ H).
  apply map_Forall_insert_2; [by apply validate_entry_ok|done].
Qed.

(** ** Sizes *)

Definition entry_bytes (entry : bytes * bytes) : nat := (length entry.1 + length entry.2 + 2)%nat.
Definition environment_bytes (values : gmap (list Z) bytes) : nat := sum_list_with entry_bytes (map_to_list values).
Lemma aggregate_size_Ok entries size n :
  aggregate_size entries size = Ok n -> Z.of_nat size <= MAX_CHILD_ENVIRONMENT_BYTES ->
  n = (size + sum_list_with entry_bytes entries)%nat /\ Z.of_nat n <= MAX_CHILD_ENVIRONMENT_BYTES.
Proof.
  revert size. induction entries as [|[name value] entries IH]; intros size; cbn [aggregate_size sum_list_with foldr]; [intros [= <-]; split; [cbn; lia|done]|].
  intros (size1 & H1 & H)%result_bind_Ok Hs. apply ok_or_Ok in H1.
  destruct (checked_add size (length name)) as [a|] eqn:Ha; [|done]. cbn [mbind option_bind] in H1.
  destruct (checked_add a (length value)) as [b|] eqn:Hb; [|done]. cbn [mbind option_bind] in H1.
  apply checked_add_Some in Ha as [-> _], Hb as [-> _], H1 as [-> _].
  destruct (Z.ltb_spec MAX_CHILD_ENVIRONMENT_BYTES (Z.of_nat (size + length name + length value + 2))) as [|Hle]; [done|].
  destruct (IH _ H Hle) as [-> ?]. split; [|done]. unfold entry_bytes at 2. cbn [fst snd]. lia.
Qed.
Lemma validate_aggregate_Ok values :
  validate_aggregate values = Ok tt -> (size values <= MAX_CHILD_ENVIRONMENT_VARIABLES)%nat /\ Z.of_nat (environment_bytes values) <= MAX_CHILD_ENVIRONMENT_BYTES.
Proof.
  unfold validate_aggregate. destruct (Nat.ltb_spec MAX_CHILD_ENVIRONMENT_VARIABLES (size values)); [done|].
  intros (n & Hn & _)%result_fmap_Ok. apply aggregate_size_Ok in Hn as [-> Hn]; [|done]. split; [done|].
  unfold environment_bytes. by rewrite <-(by_name_Permutation values).
Qed.
Lemma positional_values_Ok runtime indices l :
  positional_values runtime indices = Ok l ->
  l = (fun index => default [] (get_bytes runtime (decimal index))) <$> indices /\ Forall (Forall (fun b => b <> 0)) l.
Proof.
  revert l. induction indices as [|i indices IH]; intros l; cbn [positional_values]; [by intros [= <-]|].
  destruct (existsb _ _) eqn:H0; [done|]. intros (l' & H' & ->)%result_fmap_Ok. destruct (IH _ H') as [-> Hl].
  split; [done|]. constructor; [by apply no_nul|done].
Qed.
Lemma or_insert_lookup entries values name :
  NoDup entries.*1 ->
  foldl or_insert values entries !! name = match values !! name with Some v => Some v | None => (list_to_map entries : gmap _ _) !! name end.
Proof.
  revert values. induction entries as [|[n v] entries IH]; intros values; [intros _; cbn; by destruct (values !! name)|].
  cbn. intros [Hn Hnd]%NoDup_cons. rewrite (IH _ Hnd). unfold or_insert. cbn [fst snd]. destruct (values !! n) as [w|] eqn:Hw.
  - destruct (values !! name) eqn:Hname; [done|]. rewrite lookup_insert_ne; [done|]. intros ->. congruence.
  - destruct (decide (n = name)) as [->|Hne]; [by rewrite !lookup_insert_eq, Hw|]. by rewrite !lookup_insert_ne.
Qed.

(** The variables of the run that a child is given. *)
Definition exported (runtime : RuntimeVariables) : gmap (list Z) bytes :=
  filter (fun entry => is_positional_parameter_name entry.1 = false) (byte_values runtime).
Lemma environment_Ok runtime e :
  environment_from_runtime runtime = Ok e ->
  exists values count,
    validate_entries (by_name (byte_values runtime)) ∅ = Ok values /\ env_values e = foldl or_insert values shell_defaults /\
    validate_aggregate (env_values e) = Ok tt /\ parse_usize (default (B "0") (get runtime (B "#"))) = Some count /\
    count <= Z.of_nat MAX_POSITIONAL_ARGUMENTS /\ positional_values runtime (seq 1 (Z.to_nat count)) = Ok (env_arguments e).
Proof.
  unfold environment_from_runtime. generalize shell_defaults as defaults. intros defaults (values & Hv & H)%result_bind_Ok.
  apply result_bind_Ok in H as ([] & Ha & H). apply result_bind_Ok in H as (count & Hc & H). apply ok_or_Ok in Hc.
  destruct (Z.ltb_spec (Z.of_nat MAX_POSITIONAL_ARGUMENTS) count) as [|Hle]; [done|]. apply result_bind_Ok in H as (arguments & Hp & [= <-]).
  by exists values, count.
Qed.
Lemma defaults_NoDup : NoDup shell_defaults.*1.
Proof. apply (bool_decide_unpack _). by vm_compute. Qed.
Lemma environment_values runtime e :
  environment_from_runtime runtime = Ok e -> env_values e = exported runtime ∪ list_to_map shell_defaults.
Proof.
  intros (values & count & Hv & -> & _)%environment_Ok.
  apply map_eq. intros name. rewrite (or_insert_lookup _ _ _ defaults_NoDup), lookup_union.
  apply validate_entries_lookup with (name := name) in Hv; [|rewrite by_name_Permutation; apply NoDup_fst_map_to_list].
  rewrite by_name_lookup, lookup_empty in Hv. rewrite Hv. unfold exported. rewrite map_lookup_filter. clear Hv.
  generalize (list_to_map shell_defaults : gmap (list Z) bytes) as defaults. intros defaults.
  destruct (is_positional_parameter_name name) eqn:Hp, (byte_values runtime !! name) as [v|]; cbn [mbind option_bind].
  - rewrite option_guard_False by (cbn; congruence). by destruct (defaults !! name).
  - by destruct (defaults !! name).
  - rewrite option_guard_True by done. by destruct (defaults !! name).
  - by destruct (defaults !! name).
Qed.
Lemma defaults_ok : map_Forall entry_ok (list_to_map shell_defaults : gmap (list Z) bytes).
Proof.
  apply map_Forall_insert_2; [|apply map_Forall_insert_2; [|apply map_Forall_insert_2; [|apply map_Forall_empty]]];
    (split; [by vm_compute|by vm_compute|repeat constructor; done|by vm_compute]).
Qed.
Lemma or_insert_ok entries values :
  Forall (fun entry => entry_ok entry.1 entry.2) entries -> map_Forall entry_ok values -> map_Forall entry_ok (foldl or_insert values entries).
Proof.
  revert values. induction entries as [|[n v] entries IH]; intros values H Hv; [done|]. apply Forall_cons in H as [Hn H]. cbn. apply IH; [done|].
  unfold or_insert. cbn [fst snd]. destruct (values !! n); [done|]. by apply map_Forall_insert_2.
Qed.

(** C19: The environment of a child is the variables of the run, without the
    positional ones, over the defaults of SHELL, SHELLFLAGS and PATH, and nothing
    else: the environment of the program does not reach it.  It has at most 512
    variables and 256 KiB; every name is a name, no value has a NUL or is longer
    than 64 KiB; and the arguments are those the run counts, at most 256, without a
    NUL. *)
Theorem environment_exact runtime e :
  environment_from_runtime runtime = Ok e ->
  env_values e = exported runtime ∪ list_to_map shell_defaults /\
  (size (env_values e) <= MAX_CHILD_ENVIRONMENT_VARIABLES)%nat /\ Z.of_nat (environment_bytes (env_values e)) <= MAX_CHILD_ENVIRONMENT_BYTES /\
  map_Forall entry_ok (env_values e) /\
  exists count, parse_usize (default (B "0") (get runtime (B "#"))) = Some count /\ count <= Z.of_nat MAX_POSITIONAL_ARGUMENTS /\
    env_arguments e = (fun index => default [] (get_bytes runtime (decimal index))) <$> seq 1 (Z.to_nat count) /\
    Forall (Forall (fun b => b <> 0)) (env_arguments e).
Proof.
  intros H. split; [by apply environment_values|]. apply environment_Ok in H as (values & count & Hv & He & Ha & Hc & Hle & Hp).
  apply validate_aggregate_Ok in Ha as [Ha1 Ha2]. split; [done|]. split; [done|]. split.
  - rewrite He. apply or_insert_ok; [|by eapply validate_entries_ok, map_Forall_empty]. apply Forall_forall. intros [n v] Hnv.
    apply (defaults_ok n v). by apply elem_of_list_to_map_1; [apply defaults_NoDup|].
  - apply positional_values_Ok in Hp as [? Hp]. by exists count.
Qed.

(** ** The shell *)

(** A run may start the shell it names itself: an environment built from a run
    whose SHELL is an absolute path without dot components is authorised by the
    policy of that path, with the flags of the environment - and otherwise it is
    never refused but panics, which happens exactly when the run gave SHELLFLAGS a
    value that is not UTF-8. *)
Theorem own_shell_authorized runtime e shell policy :
  environment_from_runtime runtime = Ok e -> environment_get e (B "SHELL") = Some shell -> approve shell = Ok policy ->
  (authorize policy e = None <-> exists raw, byte_values runtime !! B "SHELLFLAGS" = Some raw /\ valid_utf8 raw = false) /\
  (forall r, authorize policy e = Some r -> exists flags, environment_get e (B "SHELLFLAGS") = Some flags /\ r = Ok {| shell_path := shell; shell_flags := flags |}).
Proof.
  intros He Hs (? & _ & [= <-])%result_bind_Ok. apply environment_values in He. unfold authorize. cbn [approved_path]. rewrite Hs. cbn [mbind option_bind].
  rewrite bytes_eqb_refl. cbn [negb]. assert (environment_get e (B "SHELLFLAGS") =
    match byte_values runtime !! B "SHELLFLAGS" with Some raw => if valid_utf8 raw then Some raw else None | None => Some DEFAULT_SHELL_FLAGS end) as Hf.
  { unfold environment_get. rewrite He, lookup_union. unfold exported. rewrite map_lookup_filter.
    destruct (byte_values runtime !! B "SHELLFLAGS") as [raw|]; cbn [mbind option_bind].
    - rewrite option_guard_True by by vm_compute. cbn. done.
    - by vm_compute. }
  rewrite Hf. destruct (byte_values runtime !! B "SHELLFLAGS") as [raw|]; [destruct (valid_utf8 raw) eqn:Hr|]; cbn; (split; [split|]).
  - done.
  - intros (raw' & [= <-] & H'). congruence.
  - intros r [= <-]. by eexists.
  - intros _. by exists raw.
  - done.
  - done.
  - done.
  - by intros (raw' & ? & _).
  - intros r [= <-]. by eexists.
Qed.
End facts.

(** A run with a variable, an argument and a SHELLFLAGS that is not text. *)
Definition sample_run : RuntimeVariables :=
  set (set (set (default_runtime (B "7")) (B "FROM") (B "me")) (B "#") (B "1")) (B "1") (B "list").
Definition sample_environment : ProcessEnvironment :=
  match environment_from_runtime sample_run with Ok e => e | Err _ => {| env_values := ∅; env_arguments := [] |} end.
Lemma environment_exact_witness :
  environment_from_runtime sample_run = Ok sample_environment /\ env_values sample_environment = exported sample_run ∪ list_to_map shell_defaults.
Proof.
  assert (environment_from_runtime sample_run = Ok sample_environment) as H by (vm_compute; reflexivity).
  split; [exact H|]. exact (proj1 (environment_exact sample_run sample_environment H)).
Defined.
Definition raw_flags_run : RuntimeVariables := set_bytes sample_run (B "SHELLFLAGS") [255].
Definition raw_flags_environment : ProcessEnvironment :=
  match environment_from_runtime raw_flags_run with Ok e => e | Err _ => {| env_values := ∅; env_arguments := [] |} end.
Lemma own_shell_authorized_witness : authorize {| approved_path := Some DEFAULT_SHELL |} raw_flags_environment = None.
Proof.
  assert (environment_from_runtime raw_flags_run = Ok raw_flags_environment) as H by (vm_compute; reflexivity).
  assert (environment_get raw_flags_environment (B "SHELL") = Some DEFAULT_SHELL) as Hs by (vm_compute; reflexivity).
  assert (approve DEFAULT_SHELL = Ok {| approved_path := Some DEFAULT_SHELL |}) as Ha by (vm_compute; reflexivity).
  apply (proj2 (proj1 (own_shell_authorized raw_flags_run raw_flags_environment DEFAULT_SHELL _ H Hs Ha))).
  exists [255]. split; vm_compute; reflexivity.
Defined.
