(* ===== verification/ExternalProcess.v ===== *)
(** External commands: [src/src/external_process.rs].  A command is started with
    the shell of the run in a process group of its own, its input is written while
    it is waited for, its output is read within a bound, and a command that outlives
    its time is terminated with its group.

    What the system does with processes is an interface.  [pr_beside] runs two
    threads of one scope and gives what both end with; a thread that panics is not
    modelled.  The waiter of a command in the background runs beside the rest of
    the program; here it goes when it is joined, with the time it was started at.
    The loops follow a poll for every ten milliseconds of their time, and [patience]
    more; that is enough ([ExternalProcessFacts]). *)
From stdpp Require Import gmap.
From S2P Require Import Prelude Effects Numbers Config Limits Utf8 Variables Runtime Message Delivery Startup Files LocalLock Streaming Environment.
#[local] Open Scope Z_scope.

(** Source: external_process.rs `const PROCESS_POLL_INTERVAL` *)
Definition PROCESS_POLL_INTERVAL : Z := 10000000.
(** Source: external_process.rs `const TERMINATION_GRACE` *)
Definition TERMINATION_GRACE : Z := 250000000.

(** * What the system offers *)

(** [std::process::Stdio]; [SI_Stderr] is the error output of the program. *)
Inductive Stdio (Fd : Type) := SI_Inherit | SI_Null | SI_Piped | SI_Stderr | SI_File (file : Fd).
Arguments SI_Inherit {Fd}. Arguments SI_Null {Fd}. Arguments SI_Piped {Fd}. Arguments SI_Stderr {Fd}. Arguments SI_File {Fd}.
(** [std::process::ExitStatus] *)
Record ChildStatus := { cs_code : option Z; cs_signal : option Z }.
Definition status_success (s : ChildStatus) : bool := bool_decide (cs_code s = Some 0).
(** A [std::process::Command] whose environment is cleared, whose input is a pipe
    and which leads a group of its own. *)
Record SpawnRequest (Fd : Type) := {
  sr_program : bytes; sr_arguments : list bytes; sr_environment : gmap (list Z) bytes; sr_directory : option bytes;
  sr_stdout : Stdio Fd; sr_stderr : Stdio Fd;
}.
Arguments Build_SpawnRequest {Fd}.
Arguments sr_program {Fd}. Arguments sr_arguments {Fd}. Arguments sr_environment {Fd}. Arguments sr_directory {Fd}.
Arguments sr_stdout {Fd}. Arguments sr_stderr {Fd}.
Inductive GroupSignal := GS_Term | GS_Kill.

Class Processes (W Fd Child : Type) := {
  pr_spawn : SpawnRequest Fd -> M W IoError Child;
  pr_id : Child -> Z;
  pr_write_stdin : Child -> bytes -> M W IoError ();
  pr_close_stdin : Child -> W -> W;
  (** what the reads of a piped output give, up to its end *)
  pr_stdout : Child -> W -> list (result IoError bytes);
  pr_try_wait : Child -> M W IoError (option ChildStatus);
  pr_wait : Child -> M W IoError ChildStatus;
  (** [kill_process_group], which may answer that there is no such group *)
  pr_kill_group : Z -> GroupSignal -> M W Z ();
  pr_no_group : Z;
  pr_socket_pair : M W IoError (Fd * Fd);
  pr_set_read_timeout : Fd -> Z -> M W IoError ();
  pr_read : Fd -> nat -> M W IoError bytes;
  (** [thread::Builder::spawn] *)
  pr_start_thread : M W IoError ();
  pr_beside : forall E A F B, M W E A -> M W F B -> W -> (result E A * result F B) * W;
}.
Arguments pr_beside {W Fd Child _} {E A F B}.

(** * Commands *)

(** What a command fails with, or the panic of an [expect], which ends the
    program.
    Source: external_process.rs `pub struct ExternalProcessError` *)
Inductive ProcessFailure := PF_Error (message : bytes) | PF_Panic.
(** [Display] of the error; a panic has none. *)
Definition process_failure_text (e : ProcessFailure) : bytes := match e with PF_Error message => message | PF_Panic => [] end.
(** Adds to the text of an error. *)
Definition with_prefix (prefix : bytes) (e : ProcessFailure) : ProcessFailure :=
  match e with PF_Error message => PF_Error (prefix ++ message) | PF_Panic => PF_Panic end.
Definition io_failure (prefix : bytes) (e : IoError) : ProcessFailure := PF_Error (prefix ++ ie_text e).

(** ** Arguments *)

(** Source: external_process.rs `fn is_shell_word_boundary` *)
Definition is_shell_word_boundary (b : byte) : bool := is_ascii_whitespace b || existsb (Z.eqb b) (B ";&|()<>").
(** The word that stands for the arguments. *)
Definition special_word : bytes := [c_QUOTE] ++ B "$@" ++ [c_QUOTE].
(** The rightmost word of the kind.
    Source: external_process.rs:430-464 `prepare_special_positional_argument (selection)` *)
Fixpoint find_special (fuel : nat) (rest : bytes) (index : nat) (at_word_boundary : bool) (selected : option nat) : option nat :=
  match fuel, rest with
  | O, _ | _, [] => selected
  | S fuel, b :: tail =>
      if b =? c_BSLASH then find_special fuel (drop 2 rest) (index + 2) false selected
      else if b =? c_APOS then
        let skipped := match position (Z.eqb c_APOS) tail with Some i => S i | None => S (length tail) end in
        find_special fuel (drop skipped tail) (index + 1 + skipped) false selected
      else if (b =? c_QUOTE) && at_word_boundary && bytes_eqb (take 4 rest) special_word &&
              match rest !! 4%nat with None => true | Some b => is_shell_word_boundary b end then
        find_special fuel (drop 4 rest) (index + 4) true (Some (index + 1)%nat)
      else find_special fuel tail (index + 1) (is_shell_word_boundary b) selected
  end.
(** The text without the other references; what the code copies in ranges is kept
    byte by byte.
    Source: external_process.rs:469-503 `prepare_special_positional_argument (rewriting)` *)
Fixpoint drop_references (fuel : nat) (rest : bytes) (index selected : nat) (quote : option byte) : bytes :=
  match fuel, rest with
  | O, _ | _, [] => rest
  | S fuel, b :: tail =>
      if (b =? c_BSLASH) && negb (bool_decide (quote = Some c_APOS)) then take 2 rest ++ drop_references fuel (drop 2 rest) (index + 2) selected quote
      else
        let quote :=
          if ((b =? c_APOS) || (b =? c_QUOTE)) && match quote with None => true | Some active => active =? b end
          then if bool_decide (quote = Some b) then None else Some b else quote in
        if starts_with rest (B "$@") && negb (bool_decide (quote = Some c_APOS)) && negb (index =? selected)%nat then
          drop_references fuel (drop 2 rest) (index + 2) selected quote
        else b :: drop_references fuel tail (index + 1) selected quote
  end.
(** [None] is a command that is left as it is.
    Source: external_process.rs `fn prepare_special_positional_argument` *)
Definition prepare_special_positional_argument (command : bytes) : option bytes :=
  selected ← find_special (length command) command 0 true None;
  Some (drop_references (length command) command 0 selected None).

(** ** Runs *)

(** Source: external_process.rs `pub struct FilterRun` *)
Record FilterRun := { fr_input_write : InputWrite; fr_output : result (MessageReadError IoError) Message; fr_child_exit : ChildExit; fr_exit_code : option Z }.
(** Source: external_process.rs `pub struct ProgramRun` *)
Record ProgramRun := { pg_input_write : InputWrite; pg_child_exit : ChildExit; pg_exit_code : option Z }.
(** Source: external_process.rs `pub struct CaptureRun` *)
Record CaptureRun := { ct_input_write : InputWrite; ct_output : result IoError bytes; ct_child_exit : ChildExit; ct_exit_code : option Z }.
(** Source: external_process.rs `struct CompletedChild` *)
Record CompletedChild := { cc_input_write : InputWrite; cc_child_exit : ChildExit; cc_exit_code : option Z }.
(** The waiter is the child, its time and when the waiting began.
    Source: external_process.rs `pub struct BackgroundProgramRun` *)
Record BackgroundProgramRun (Child : Type) := { bg_input_write : InputWrite; bg_child : Child; bg_timeout : Z; bg_started : Z }.
Arguments Build_BackgroundProgramRun {Child}.
Arguments bg_input_write {Child}. Arguments bg_child {Child}. Arguments bg_timeout {Child}. Arguments bg_started {Child}.
(** Source: external_process.rs `struct ProcessInput` *)
Record ProcessInput := { pi_bytes : MessageBytes; pi_output_ending : OutputEnding; pi_append_lf : bool; pi_body_input : bool }.
(** Source: external_process.rs `struct OutputConsumption` *)
Record OutputConsumption (A : Type) := { oc_value : A; oc_failed : bool; oc_timed_out : bool }.
Arguments Build_OutputConsumption {A}.
Arguments oc_value {A}. Arguments oc_failed {A}. Arguments oc_timed_out {A}.
(** Source: external_process.rs `struct ChildLifecycle` *)
Record ChildLifecycle (Child : Type) := { lc_child : Child; lc_timeout : Z }.
Arguments Build_ChildLifecycle {Child}.
Arguments lc_child {Child}. Arguments lc_timeout {Child}.
(** Source: external_process.rs `pub struct FilterOptions` *)
Record FilterOptions := { fo_output_ending : OutputEnding; fo_action_input : ActionInput; fo_limits : MessageLimits; fo_timeout : Z }.
(** Source: external_process.rs `pub struct CaptureOptions` *)
Record CaptureOptions := { cp_output_ending : OutputEnding; cp_timeout : Z; cp_output_limit : Z; cp_action_input : ActionInput }.
(** Source: external_process.rs `pub struct ProgramOptions` *)
Record ProgramOptions := { po_output_ending : OutputEnding; po_action_input : ActionInput; po_timeout : Z }.
(** Source: external_process.rs `struct ProgramIoOptions` *)
Record ProgramIoOptions (Fd : Type) := {
  io_output_ending : OutputEnding; io_timeout : Z; io_stdout : Stdio Fd; io_stderr : Stdio Fd; io_append_lf : bool; io_body_input : bool;
}.
Arguments Build_ProgramIoOptions {Fd}.
Arguments io_output_ending {Fd}. Arguments io_timeout {Fd}. Arguments io_stdout {Fd}. Arguments io_stderr {Fd}.
Arguments io_append_lf {Fd}. Arguments io_body_input {Fd}.

(** Source: external_process.rs `pub fn output_state` *)
Definition output_state (r : FilterRun) : FilterOutput := match fr_output r with Ok _ => FO_CompleteAndValid | Err _ => FO_Failed end.
(** Source: external_process.rs `pub fn outcome(self)` *)
Definition program_outcome (r : ProgramRun) : CommandOutcome := {| co_input_write := pg_input_write r; co_child_exit := pg_child_exit r |}.
(** Source: external_process.rs `pub fn outcome(&self)@1` *)
Definition capture_outcome (r : CaptureRun) : CommandOutcome := {| co_input_write := ct_input_write r; co_child_exit := ct_child_exit r |}.
(** Source: external_process.rs `pub fn outcome(&self)@2` *)
Definition filter_outcome (r : FilterRun) : CommandOutcome := {| co_input_write := fr_input_write r; co_child_exit := fr_child_exit r |}.

(** Source: external_process.rs `fn classify_child_exit` *)
Definition classify_child_exit (status : ChildStatus) (timed_out : bool) : ChildExit :=
  if timed_out then CE_TimedOut else if status_success status then CE_Success
  else if bool_decide (is_Some (cs_signal status)) then CE_Signaled else CE_ExitFailure.
(** Source: external_process.rs `fn complete_child` *)
Definition complete_child (input : InputWrite) (status : ChildStatus) (timed_out : bool) : CompletedChild :=
  {| cc_input_write := input; cc_child_exit := classify_child_exit status timed_out;
     cc_exit_code := code ← cs_code status; if between 0 255 code then Some code else None |}.
Definition input_written {E} (r : result E ()) : InputWrite := match r with Ok _ => IW_Complete | Err _ => IW_Failed end.

Section processes.
Context {T : Target} {P : Platform} {W Fd Child : Type} {OS : Os W Fd} {PR : Processes W Fd Child} (patience : Patience).
Abbreviation Running := (M W ProcessFailure) (only parsing).

Definition beside {X E A F B} (m : M W E A) (n : M W F B) : M W X (result E A * result F B) :=
  Comp (fun w => let '(both, w) := pr_beside m n w in (Ok both, w)).

(** ** Input *)

(** Source: external_process.rs `fn write_action_input` *)
Definition write_action_input (put : bytes -> M W IoError ()) (input : MessageBytes) (ending : OutputEnding) (append_lf body_input : bool) : M W IoError () :=
  _ ← put_all put (first_part input);
  _ ← put_all put (second_part input);
  let needs_normalized_lf := negb (message_bytes_ends_with input (if body_input then [c_LF; c_LF] else [c_LF])) in
  if append_lf || ((match ending with Normalize => true | Preserve => false end) && needs_normalized_lf) then put [c_LF] else mret tt.
(** The pipe is closed when the writing ends.
    Source: external_process.rs `fn write_process_input` *)
Definition write_process_input (child : Child) (input : ProcessInput) : M W IoError () :=
  always (write_action_input (pr_write_stdin child) (pi_bytes input) (pi_output_ending input) (pi_append_lf input) (pi_body_input input))
    (pr_close_stdin child).

(** ** Waiting *)

(** Source: external_process.rs `fn terminate_process_group` *)
Definition terminate_process_group (child : Child) : Running ChildStatus :=
  if negb (between 1 2147483647 (pr_id child)) then stop_with (PF_Error (B "external command returned an invalid process id"))
  else
    let group := pr_id child in
    let reap := with_error (io_failure (B "cannot reap timed-out command: ")) (pr_wait child) in
    terminated ← outcome_of (pr_kill_group group GS_Term);
    match terminated with
    | Err error =>
        if error =? pr_no_group then reap
        else stop_with (PF_Error (B "cannot terminate timed-out process group: " ++ errno_text error))
    | Ok _ =>
        _ ← sleep TERMINATION_GRACE;
        killed ← outcome_of (pr_kill_group group GS_Kill);
        match killed with
        | Err error =>
            if error =? pr_no_group then reap else stop_with (PF_Error (B "cannot kill timed-out process group: " ++ errno_text error))
        | Ok _ => reap
        end
    end.
(** Source: external_process.rs:838-857 `wait_for_process_group (loop)` *)
Fixpoint wait_loop (steps : nat) (child : Child) (started timeout : Z) : Running (ChildStatus * bool) :=
  match steps with
  | O => stop_with (PF_Error (ie_text (gives_up patience)))
  | S steps =>
      signal ← gets received;
      if bool_decide (is_Some signal) then status ← terminate_process_group child; mret (status, false)
      else
        exited ← with_error (io_failure (B "cannot wait for external command: ")) (pr_try_wait child);
        match exited with
        | Some status => mret (status, false)
        | None =>
            now ← instant;
            let elapsed := Z.max 0 (now - started) in
            if timeout <=? elapsed then status ← terminate_process_group child; mret (status, true)
            else _ ← sleep (Z.min PROCESS_POLL_INTERVAL (timeout - elapsed)); wait_loop steps child started timeout
        end
  end.
(** The polls that are followed: one for every ten milliseconds, and [patience]. *)
Definition polls (time : Z) : nat := (Z.to_nat (time / PROCESS_POLL_INTERVAL) + followed patience)%nat.
(** Source: external_process.rs `fn wait_for_process_group` *)
Definition wait_for_process_group (child : Child) (timeout : Z) : Running (ChildStatus * bool) :=
  started ← instant; wait_loop (polls timeout) child started timeout.

(** ** Starting *)

(** The input of a child that was started is the pipe that was asked for.
    Source: external_process.rs `fn spawn(` *)
Definition spawn_child (policy : ShellPolicy) (environment : ProcessEnvironment) (command : bytes) (timeout : Z) (stdout stderr : Stdio Fd)
    : Running (ChildLifecycle Child) :=
  _ ← with_error (io_failure []) check_io;
  invocation ← of_result (match authorize policy environment with None => Err PF_Panic | Some r => map_err PF_Error r end);
  let prepared := prepare_special_positional_argument command in
  let arguments := match prepared with Some _ => B "procmail-rs" :: env_arguments environment | None => [] end in
  child ← with_error (io_failure (B "cannot start external command: ")) (pr_spawn {|
    sr_program := shell_path invocation; sr_arguments := [shell_flags invocation; default command prepared] ++ arguments;
    sr_environment := env_values environment;
    sr_directory := match environment_get environment (B "MAILDIR") with Some (b :: path) => Some (b :: path) | _ => None end;
    sr_stdout := stdout; sr_stderr := stderr |});
  mret {| lc_child := child; lc_timeout := timeout |}.

(** ** Input, output and time together *)

(** Source: external_process.rs `fn run_with_piped_output` *)
Definition run_with_piped_output {A} (l : ChildLifecycle Child) (input : ProcessInput) (consume : M W ProcessFailure A) : Running (CompletedChild * A) :=
  ended ← beside (write_process_input (lc_child l) input)
            (beside (X := ProcessFailure) (wait_for_process_group (lc_child l) (lc_timeout l)) consume);
  both ← of_result ended.2;
  waited ← of_result both.1;
  output ← of_result both.2;
  mret (complete_child (input_written ended.1) waited.1 waited.2, output).
(** Source: external_process.rs `fn run_with_timed_output` *)
Definition run_with_timed_output {A} (l : ChildLifecycle Child) (input : ProcessInput) (consume : Z -> Running (OutputConsumption A))
    : Running (CompletedChild * A) :=
  ended ← beside (write_process_input (lc_child l) input)
    (started ← instant;
     consumed ← consume started;
     waited ← outcome_of (if oc_failed consumed then status ← terminate_process_group (lc_child l); mret (status, oc_timed_out consumed)
                          else now ← instant; wait_for_process_group (lc_child l) (Z.max 0 (lc_timeout l - Z.max 0 (now - started))));
     mret (consumed, waited));
  both ← of_result ended.2;
  waited ← of_result (map_err (with_prefix (B "cannot wait for external command: ")) both.2);
  mret (complete_child (input_written ended.1) waited.1 (oc_timed_out both.1 || waited.2), oc_value both.1).
(** Source: external_process.rs `fn run_without_output` *)
Definition run_without_output (l : ChildLifecycle Child) (input : ProcessInput) : Running CompletedChild :=
  ended ← beside (wait_for_process_group (lc_child l) (lc_timeout l)) (write_process_input (lc_child l) input);
  waited ← of_result ended.1;
  mret (complete_child (input_written ended.2) waited.1 waited.2).

(** ** Forms of a command *)

(** Source: external_process.rs `pub fn run_filter` *)
Definition run_filter (policy : ShellPolicy) (environment : ProcessEnvironment) (command : bytes) (input : MessageBytes) (options : FilterOptions)
    (stderr : Stdio Fd) : Running FilterRun :=
  lifecycle ← spawn_child policy environment command (fo_timeout options) SI_Piped stderr;
  let body := bool_decide (fo_action_input options = AI_Body) in
  ran ← run_with_piped_output lifecycle
    {| pi_bytes := input; pi_output_ending := fo_output_ending options; pi_append_lf := false; pi_body_input := body |}
    (parts ← gets (pr_stdout (lc_child lifecycle));
     let parts := if body then Ok [c_LF] :: parts else parts in
     mret (fst <$> read_from {| buffer := []; incoming := parts |} (fo_limits options)));
  let '(completed, output) := ran in
  mret {| fr_input_write := cc_input_write completed; fr_output := output; fr_child_exit := cc_child_exit completed; fr_exit_code := cc_exit_code completed |}.

(** Source: external_process.rs `fn run_program_with_streams` *)
Definition run_program_with_streams (policy : ShellPolicy) (environment : ProcessEnvironment) (command : bytes) (input : MessageBytes)
    (options : ProgramIoOptions Fd) : Running ProgramRun :=
  lifecycle ← spawn_child policy environment command (io_timeout options) (io_stdout options) (io_stderr options);
  completed ← run_without_output lifecycle
    {| pi_bytes := input; pi_output_ending := io_output_ending options; pi_append_lf := io_append_lf options; pi_body_input := io_body_input options |};
  mret {| pg_input_write := cc_input_write completed; pg_child_exit := cc_child_exit completed; pg_exit_code := cc_exit_code completed |}.
(** Source: external_process.rs `pub fn run_program_with_timeout` *)
Definition run_program_with_timeout (policy : ShellPolicy) (environment : ProcessEnvironment) (command : bytes) (input : MessageBytes)
    (options : ProgramOptions) (stderr : Stdio Fd) : Running ProgramRun :=
  run_program_with_streams policy environment command input
    {| io_output_ending := po_output_ending options; io_timeout := po_timeout options; io_stdout := SI_Null; io_stderr := stderr;
       io_append_lf := false; io_body_input := bool_decide (po_action_input options = AI_Body) |}.
(** Source: external_process.rs `pub fn run_trap_with_timeout` *)
Definition run_trap_with_timeout (policy : ShellPolicy) (environment : ProcessEnvironment) (command : bytes) (input : MessageBytes) (timeout : Z)
    (stdout stderr : Stdio Fd) : Running ProgramRun :=
  run_program_with_streams policy environment command input
    {| io_output_ending := Normalize; io_timeout := timeout; io_stdout := stdout; io_stderr := stderr; io_append_lf := true; io_body_input := false |}.

(** The waiter has its child as soon as it was started.
    Source: external_process.rs `pub fn run_program_in_background` *)
Definition run_program_in_background (policy : ShellPolicy) (environment : ProcessEnvironment) (command : bytes) (input : MessageBytes)
    (options : ProgramOptions) (stderr : Stdio Fd) : Running (BackgroundProgramRun Child) :=
  _ ← with_error (io_failure (B "cannot start command wait worker: ")) pr_start_thread;
  lifecycle ← spawn_child policy environment command (po_timeout options) SI_Null stderr;
  started ← instant;
  written ← outcome_of (write_process_input (lc_child lifecycle)
    {| pi_bytes := input; pi_output_ending := po_output_ending options; pi_append_lf := false;
       pi_body_input := bool_decide (po_action_input options = AI_Body) |});
  mret {| bg_input_write := input_written written; bg_child := lc_child lifecycle; bg_timeout := lc_timeout lifecycle; bg_started := started |}.
(** The polls that are followed are those of its time, and those that a clock behind
    the start of the waiting would take to come to it.
    Source: external_process.rs `pub fn wait(self)` *)
Definition wait_background (r : BackgroundProgramRun Child) : Running ProgramRun :=
  let behind := Z.to_nat (bg_started r / Z.max 1 (Z.min PROCESS_POLL_INTERVAL (bg_timeout r))) in
  waited ← wait_loop (behind + polls (bg_timeout r))%nat (bg_child r) (bg_started r) (bg_timeout r);
  let completed := complete_child (bg_input_write r) waited.1 waited.2 in
  mret {| pg_input_write := cc_input_write completed; pg_child_exit := cc_child_exit completed; pg_exit_code := cc_exit_code completed |}.

(** ** Captured output *)

Definition capture_limit_text (limit : Z) : bytes := B "captured command output exceeds the hard limit of " ++ z_decimal limit ++ B " bytes".
Definition capture_accounting : IoError := io_other (B "captured command output size accounting overflowed").
(** The chunk that was read, within the bound.
    Source: external_process.rs:739-757 `read_bounded_output_until (chunk)` *)
Definition add_output (output : BoundedBytes) (chunk : bytes) (limit : Z) : result IoError BoundedBytes :=
  remaining ← map_err (fun _ => capture_accounting) (bb_remaining output);
  if remaining <? len chunk then Err (io_error EK_InvalidData (capture_limit_text limit))
  else map_err (fun e => match e with LengthOverflow => capture_accounting | BB_LimitExceeded _ => io_error EK_InvalidData (capture_limit_text limit) end)
         (try_extend output chunk).
Definition is_timeout (kind : ErrorKind) : bool := match kind with EK_WouldBlock | EK_TimedOut => true | _ => false end.
(** Source: external_process.rs:713-759 `read_bounded_output_until (loop)` *)
Fixpoint read_output_loop (steps : nat) (fd : Fd) (limit timeout started : Z) (output : BoundedBytes) : M W IoError bytes :=
  match steps with
  | O => stop_with (gives_up patience)
  | S steps =>
      _ ← check_io;
      read ← outcome_of (pr_read fd (Z.to_nat 8192));
      match read with
      | Err error =>
          if is_timeout (ie_kind error) then
            now ← instant;
            if timeout <=? Z.max 0 (now - started) then refuse EK_TimedOut (B "captured command output exceeded TIMEOUT")
            else read_output_loop steps fd limit timeout started output
          else stop_with error
      | Ok [] => mret (into_vec output)
      | Ok chunk => output ← of_result (add_output output chunk limit); read_output_loop steps fd limit timeout started output
      end
  end.
(** Source: external_process.rs `fn read_bounded_output_until` *)
Definition read_bounded_output_until (fd : Fd) (limit timeout started : Z) : M W IoError bytes :=
  read_output_loop (Z.to_nat limit + polls timeout)%nat fd limit timeout started (with_capacity limit).
(** Source: external_process.rs `pub fn run_capture_with_timeout` *)
Definition run_capture_with_timeout (policy : ShellPolicy) (environment : ProcessEnvironment) (command : bytes) (input : MessageBytes)
    (options : CaptureOptions) (stderr : Stdio Fd) : Running CaptureRun :=
  sockets ← with_error (io_failure (B "cannot create command output channel: ")) pr_socket_pair;
  let '(reader, writer) := (sockets : Fd * Fd) in
  _ ← with_error (io_failure (B "cannot bound command output wait: ")) (pr_set_read_timeout reader PROCESS_POLL_INTERVAL);
  lifecycle ← spawn_child policy environment command (cp_timeout options) (SI_File writer) stderr;
  ran ← run_with_timed_output lifecycle
    {| pi_bytes := input; pi_output_ending := cp_output_ending options; pi_append_lf := false;
       pi_body_input := bool_decide (cp_action_input options = AI_Body) |}
    (fun started =>
       output ← outcome_of (read_bounded_output_until reader (cp_output_limit options) (cp_timeout options) started);
       mret {| oc_value := output; oc_failed := negb (is_ok output);
               oc_timed_out := match output with Err e => match ie_kind e with EK_TimedOut => true | _ => false end | Ok _ => false end |});
  let '(completed, output) := ran in
  mret {| ct_input_write := cc_input_write completed; ct_output := output; ct_child_exit := cc_child_exit completed; ct_exit_code := cc_exit_code completed |}.
End processes.
