(* ===== verification/ExternalProcessFacts.v ===== *)
(** A command is waited for no longer than its time: the wait ends, a command that
    has not exited by then is gone with its group, and what is read of its output
    stays within the bound. *)
From Stdlib Require Import FunctionalExtensionality.
From stdpp Require Import gmap.
From S2P Require Import Prelude Effects Numbers Config Limits Utf8 Variables Runtime Message Delivery Startup Files LocalLock Streaming Environment ExternalProcess.
#[local] Open Scope Z_scope.

(** The polls of a time, and one more, last as long as it. *)
Lemma polls_last (patience : Patience) time : time < (Z.of_nat (polls patience time) - Z.of_nat (followed patience) + 1) * PROCESS_POLL_INTERVAL.
Proof.
  unfold polls. pose proof (Z.mul_succ_div_gt time PROCESS_POLL_INTERVAL ltac:(done)). set (n := time / PROCESS_POLL_INTERVAL) in *.
  unfold PROCESS_POLL_INTERVAL in *. lia.
Qed.

Section wait.
Context {T : Target} {P : Platform} {W Fd Child : Type} {OS : Os W Fd} {PR : Processes W Fd Child} (clock : W -> Z) (interruptions : W -> nat).
Context (laws : ClockLaws clock interruptions) (child : Child) (gone : W -> Prop).

(** What the system documents of processes: looking at a child does not set the
    clock back; once the group was killed, or is not there, it is gone for good. *)
Record GroupLaws : Prop := {
  gl_try_wait : forall w, clock w <= clock (run (pr_try_wait child) w).2;
  gl_kill : forall w w', run (pr_kill_group (pr_id child) GS_Kill) w = (Ok tt, w') -> gone w';
  gl_absent : forall signal w w', run (pr_kill_group (pr_id child) signal) w = (Err pr_no_group, w') -> gone w';
  gl_wait : forall w, gone w -> gone (run (pr_wait child) w).2;
}.
Context (group : GroupLaws).

(** The error that the model gives up with. *)
Definition gave_up : ProcessFailure := PF_Error (ie_text out_of_patience).
Lemma not_gave_up message : head message <> Some 116 -> PF_Error message <> gave_up.
Proof. intros Hm [= ->]. apply Hm. by vm_compute. Qed.
Ltac not_gave_up := cbn [run stop_with]; apply not_gave_up; cbn; intros [= ?]; discriminate.

Lemma terminated_is_gone w :
  match run (terminate_process_group child) w with (Ok _, w') => gone w' | (Err e, _) => e <> gave_up end.
Proof.
  assert (forall w, gone w -> match run (with_error (io_failure (B "cannot reap timed-out command: ")) (pr_wait child)) w with
                              | (Ok _, w') => gone w' | (Err e, _) => e <> gave_up end) as Hreap.
  { intros v Hv. rewrite run_with_error. pose proof (gl_wait group v Hv) as Hg. destruct (run (pr_wait child) v) as [[s|e] v']; [done|]. not_gave_up. }
  unfold terminate_process_group. destruct (negb _); [not_gave_up|]. rewrite run_bind, run_outcome.
  destruct (run (pr_kill_group (pr_id child) GS_Term) w) as [[[]|e] w1] eqn:E1; cbn [fst snd].
  - rewrite run_bind. cbn [run sleep]. rewrite run_bind, run_outcome.
    destruct (run (pr_kill_group (pr_id child) GS_Kill) _) as [[[]|e] w2] eqn:E2; cbn [fst snd]; [by eapply Hreap, gl_kill|].
    destruct (Z.eqb_spec e pr_no_group) as [->|]; [by eapply Hreap, gl_absent|]. not_gave_up.
  - destruct (Z.eqb_spec e pr_no_group) as [->|]; [by eapply Hreap, gl_absent|]. not_gave_up.
Qed.

(** How a wait may end. *)
Definition wait_ended (deadline : Z) (r : result ProcessFailure (ChildStatus * bool)) (w' : W) : Prop :=
  match r with
  | Ok (status, true) => gone w' /\ exists w1, run (terminate_process_group child) w1 = (Ok status, w') /\ deadline <= clock w1
  | Ok (status, false) => (gone w' /\ exists w1, run (terminate_process_group child) w1 = (Ok status, w') /\ is_Some (received w1)) \/
                          exists w0, run (pr_try_wait child) w0 = (Ok (Some status), w')
  | Err e => e <> gave_up
  end.
Lemma wait_loop_ends (patience : nat) steps started timeout w :
  started <= clock w -> Z.max 0 (started + timeout - clock w) + PROCESS_POLL_INTERVAL <= Z.of_nat steps * PROCESS_POLL_INTERVAL ->
  (0 < steps)%nat ->
  wait_ended (started + timeout) (run (wait_loop patience steps child started timeout) w).1 (run (wait_loop patience steps child started timeout) w).2.
Proof.
  revert w. induction steps as [|steps IH]; intros w Hst Hs H0; [lia|]. cbn [wait_loop]. rewrite run_bind, run_gets.
  case_bool_decide as Hsig.
  { rewrite run_bind. pose proof (terminated_is_gone w) as Ht. destruct (run (terminate_process_group child) w) as [[s|e] w'] eqn:E; [|done].
    left. split; [done|]. by exists w. }
  rewrite run_bind, run_with_error. pose proof (gl_try_wait group w) as Hc.
  destruct (run (pr_try_wait child) w) as [[[s|]|e] w1] eqn:E1; cbn [map_err fst snd] in *; [right; by exists w| |not_gave_up].
  rewrite run_bind, run_instant. destruct (law_instant _ _ laws w1) as (Ht & Hc2 & _). rewrite Ht. set (w2 := (os_instant w1).2) in *.
  destruct (Z.leb_spec timeout (Z.max 0 (clock w2 - started))) as [Hle|Hlt].
  { rewrite run_bind. pose proof (terminated_is_gone w2) as Hg. destruct (run (terminate_process_group child) w2) as [[s|e] w'] eqn:E; [|done].
    split; [done|]. exists w2. split; [done|lia]. }
  rewrite run_bind. cbn [run sleep]. set (d := Z.min _ _). destruct (law_sleep _ _ laws d w2) as [Hs2 _]; [unfold d, PROCESS_POLL_INTERVAL; lia|].
  apply IH; unfold PROCESS_POLL_INTERVAL in *; lia.
Qed.

(** C16: A command is not waited for without end.  With a clock that is never set back
    and is moved on by sleeping, the wait comes to an answer in a poll for every ten
    milliseconds of its time: the child had exited; or a signal arrived, or the
    time was over - which is said only when it is - and then the whole group of the
    child is gone; or the system refused a call. *)
Theorem command_wait_ends (patience : nat) timeout w :
  0 <= timeout -> (2 <= patience)%nat ->
  wait_ended (clock w + timeout) (run (wait_for_process_group patience child timeout) w).1 (run (wait_for_process_group patience child timeout) w).2.
Proof.
  intros Ht Hp. unfold wait_for_process_group. rewrite run_bind, run_instant. destruct (law_instant _ _ laws w) as (E & Hc & _). rewrite E.
  set (w1 := (os_instant w).2) in *. pose proof (wait_loop_ends patience (polls patience timeout) (clock w1) timeout w1) as H.
  pose proof (polls_last patience timeout). change (followed patience) with patience in *. specialize (H ltac:(lia) ltac:(unfold PROCESS_POLL_INTERVAL in *; lia) ltac:(unfold polls; cbn; lia)).
  destruct (run (wait_loop _ _ _ _ _) w1) as [[[s []]|e] w']; cbn [fst snd wait_ended] in *; [|done|done].
  destruct H as (Hg & v & Hv & Hd). split; [done|]. exists v. split; [done|lia].
Qed.
End wait.

(** * Captured output *)

Section capture.
Context {T : Target} {P : Platform} {W Fd Child : Type} {OS : Os W Fd} {PR : Processes W Fd Child} (clock : W -> Z) (interruptions : W -> nat).
Context (laws : ClockLaws clock interruptions) (fd : Fd) (seen : W -> bytes).

(** What the system documents of a read with a timeout: it gives data, the end, or
    an error of its own that carries a number; one that times out has taken its
    time.  [seen] is what was read so far. *)
Record ReadLaws : Prop := {
  rl_clock : forall n w, clock w <= clock (run (pr_read fd n) w).2;
  rl_error : forall n w e w', run (pr_read fd n) w = (Err e, w') ->
    seen w' = seen w /\ is_Some (ie_raw e) /\ (is_timeout (ie_kind e) = true -> clock w + PROCESS_POLL_INTERVAL <= clock w');
  rl_data : forall n w chunk w', run (pr_read fd n) w = (Ok chunk, w') -> seen w' = seen w ++ chunk;
  rl_instant : forall w, seen (os_instant w).2 = seen w;
}.
Context (reads : ReadLaws).

Lemma add_output_run output chunk limit :
  match add_output output chunk limit with
  | Ok output' => bb_bytes output' = bb_bytes output ++ chunk /\ bb_limit output' = bb_limit output /\ bb_ok output'
  | Err e => e <> out_of_patience /\ ie_kind e <> EK_TimedOut
  end.
Proof.
  unfold add_output. destruct (bb_remaining output) as [n|]; cbn [map_err mbind result_bind]; [|done]. destruct (n <? len chunk); [done|].
  destruct (try_extend output chunk) as [o|e] eqn:E; [by apply try_extend_ok|]. by destruct e.
Qed.

(** How reading the output may end: the last read gave the end, and what is answered is all that was read, within the
    bound; or the time is over, or it is refused. *)
Definition capture_ended (deadline limit : Z) (before : bytes) (r : result IoError bytes) (w' : W) : Prop :=
  match r with
  | Ok l => (exists w0, run (pr_read fd (Z.to_nat 8192)) w0 = (Ok [], w')) /\ seen w' = before ++ l /\ len l <= limit
  | Err e => e <> out_of_patience /\ (ie_raw e = None -> ie_kind e = EK_TimedOut -> deadline <= clock w')
  end.
Lemma read_output_ends (patience : nat) steps limit timeout started before output w :
  bb_ok output -> bb_limit output = limit -> seen w = before ++ bb_bytes output -> started <= clock w ->
  (limit - len (bb_bytes output) + 2) * PROCESS_POLL_INTERVAL + Z.max 0 (started + timeout - clock w) <= Z.of_nat steps * PROCESS_POLL_INTERVAL ->
  capture_ended (started + timeout) limit before (run (read_output_loop patience steps fd limit timeout started output) w).1
    (run (read_output_loop patience steps fd limit timeout started output) w).2.
Proof.
  revert output w. induction steps as [|steps IH]; intros output w Hok Hlim Hseen Hst Hsteps; unfold bb_ok in *; [unfold PROCESS_POLL_INTERVAL in *; lia|].
  cbn [read_output_loop]. rewrite run_bind. destruct (check_io_run w) as [->|[text ->]]; [|by split].
  rewrite run_bind, run_outcome. pose proof (rl_clock reads (Z.to_nat 8192) w) as Hc.
  destruct (run (pr_read fd (Z.to_nat 8192)) w) as [[chunk|e] w1] eqn:Er; cbn [fst snd] in *.
  - pose proof Er as Ew. apply (rl_data reads) in Er. destruct chunk as [|b chunk].
    { cbn [run mret M_ret fst snd capture_ended]. unfold into_vec. rewrite app_nil_r in Er. split; [by exists w|split; [congruence|lia]]. }
    rewrite run_bind, run_of_result. pose proof (add_output_run output (b :: chunk) limit) as Ha. destruct (add_output _ _ _) as [output'|e].
    + destruct Ha as (Hb & Hl & Hok'). unfold bb_ok in Hok'. apply IH; [done|congruence|rewrite Er, Hb, Hseen; by rewrite app_assoc|lia|].
      rewrite Hb, length_app. cbn [length]. unfold PROCESS_POLL_INTERVAL in *. lia.
    + destruct Ha as [Ha1 Ha2]. split; [done|]. intros _ ?. done.
  - destruct (rl_error reads _ _ _ _ Er) as (Hs & [n Hn] & Htime). destruct (is_timeout (ie_kind e)) eqn:Ek.
    + rewrite run_bind, run_instant. destruct (law_instant _ _ laws w1) as (Ht & Hc2 & _). rewrite Ht. specialize (Htime eq_refl).
      pose proof (rl_instant reads w1) as Hi. set (w2 := (os_instant w1).2) in *.
      destruct (Z.leb_spec timeout (Z.max 0 (clock w2 - started))); [cbn [run refuse stop_with fst snd capture_ended]; split; [done|lia]|].
      apply IH; [done|done|congruence|lia|]. unfold PROCESS_POLL_INTERVAL in *. lia.
    + cbn [run stop_with fst snd capture_ended]. split; [by intros ->|]. congruence.
Qed.

(** C17: What a command prints is read whole or not at all.  The reading comes to an
    answer, in a step for every byte of the bound and every ten milliseconds of the
    time.  It is a success only when the last read gave the end of the output; then it
    is all that was read from the start, not cut, and no more than the bound.  Anything
    else is an error - that the time is over only when it is. *)
Theorem captured_output_ends (patience : nat) limit timeout w :
  0 <= limit -> 0 <= timeout -> (3 <= patience)%nat ->
  capture_ended (clock w + timeout) limit (seen w) (run (read_bounded_output_until patience fd limit timeout (clock w)) w).1
    (run (read_bounded_output_until patience fd limit timeout (clock w)) w).2.
Proof.
  intros Hl Ht Hp. unfold read_bounded_output_until. apply read_output_ends; unfold bb_ok; cbn; [lia|done|by rewrite app_nil_r|lia|].
  pose proof (polls_last patience timeout). change (followed patience) with patience in *. unfold PROCESS_POLL_INTERVAL in *. lia.
Qed.
End capture.

(** * Enough polls *)

Section patience.
Context {T : Target} {P : Platform} {W Fd Child : Type} {OS : Os W Fd} {PR : Processes W Fd Child} (clock : W -> Z) (disturbances : W -> nat).
(** What the system documents of the clock and of the calls between two looks at it:
    no call sets it back, and a read that times out has taken its time. *)
Record CommandLaws : Prop := {
  cl_clock : ClockLaws clock disturbances;
  cl_try_wait : forall child w, clock w <= clock (run (pr_try_wait child) w).2;
  cl_read : forall fd n w, clock w <= clock (run (pr_read fd n) w).2;
  cl_timed_out : forall fd n w e w', run (pr_read fd n) w = (Err e, w') -> is_timeout (ie_kind e) = true -> clock w + PROCESS_POLL_INTERVAL <= clock w';
  cl_start : forall w, 0 <= clock w;
}.
Context (laws : CommandLaws) (p q : Patience) (Hp : (3 <= followed p)%nat) (Hq : (3 <= followed q)%nat).
#[local] Abbreviation step timeout := (Z.max 1 (Z.min PROCESS_POLL_INTERVAL timeout)).

Lemma wait_loop_same child started timeout before after a b w :
  0 <= before -> 0 <= after -> started - clock w <= before * step timeout -> started + timeout - Z.max started (clock w) <= after * PROCESS_POLL_INTERVAL ->
  before + after < Z.of_nat a -> before + after < Z.of_nat b -> run (wait_loop p a child started timeout) w = run (wait_loop q b child started timeout) w.
Proof.
  revert before after b w. induction a as [|a IH]; intros before after [|b] w H0 H0' H1 H2 Ha Hb; [lia..|]. cbn [wait_loop]. rewrite !run_bind, !run_gets.
  case_bool_decide; [done|]. rewrite !run_bind, !run_with_error. pose proof (cl_try_wait laws child w) as Hc.
  destruct (run (pr_try_wait child) w) as [[[status|]|e] w1]; cbn [map_err fst snd] in *; [done| |done].
  rewrite !run_bind, run_instant. destruct (law_instant _ _ (cl_clock laws) w1) as (Ht & Hc2 & _). rewrite Ht. set (w2 := (os_instant w1).2) in *.
  destruct (Z.leb_spec timeout (Z.max 0 (clock w2 - started))); [done|]. rewrite !run_bind. cbn [run sleep].
  set (d := Z.min PROCESS_POLL_INTERVAL _). destruct (law_sleep _ _ (cl_clock laws) d w2) as [Hs _]; [unfold d, PROCESS_POLL_INTERVAL; lia|].
  set (w3 := os_sleep d w2) in *. assert (step timeout = Z.min PROCESS_POLL_INTERVAL timeout) as Estep by (unfold PROCESS_POLL_INTERVAL; lia).
  destruct (Z.ltb_spec (clock w2) started).
  - assert (d = step timeout) as Hd by (unfold d; lia). assert (0 < before) by (rewrite Estep in *; unfold PROCESS_POLL_INTERVAL in *; nia).
    apply (IH (before - 1) after); rewrite ?Z.mul_sub_distr_r; lia.
  - assert (0 < after) by (unfold PROCESS_POLL_INTERVAL in *; lia). apply (IH before (after - 1)); rewrite ?Z.mul_sub_distr_r; unfold d, PROCESS_POLL_INTERVAL in *; lia.
Qed.
Lemma wait_for_process_group_same : wait_for_process_group p = wait_for_process_group (Child := Child) q.
Proof.
  extensionality child. extensionality timeout. unfold wait_for_process_group. apply bind_ext. intros w started w'. rewrite run_instant.
  destruct (law_instant _ _ (cl_clock laws) w) as (-> & _ & _). intros [= <- <-]. set (w1 := (os_instant w).2).
  pose proof (polls_last p timeout). pose proof (polls_last q timeout).
  apply (wait_loop_same _ _ _ 0 (Z.of_nat (Z.to_nat (timeout / PROCESS_POLL_INTERVAL)) + 1)); unfold polls in *; lia.
Qed.
Lemma wait_background_same : wait_background p = wait_background (Child := Child) q.
Proof.
  extensionality r. unfold wait_background. f_equal. apply M_ext. intros w. set (started := bg_started r). set (timeout := bg_timeout r).
  pose proof (polls_last p timeout). pose proof (polls_last q timeout). pose proof (cl_start laws w).
  pose proof (Z.mul_succ_div_gt started (step timeout) ltac:(lia)) as Hs. set (n := started / step timeout) in *.
  assert (started <= Z.of_nat (S (Z.to_nat n)) * step timeout) by nia.
  apply (wait_loop_same _ _ _ (Z.of_nat (S (Z.to_nat n))) (Z.of_nat (Z.to_nat (timeout / PROCESS_POLL_INTERVAL)) + 1)); unfold polls in *; lia.
Qed.

Lemma read_output_same fd limit timeout started after output a b w :
  started <= clock w -> 0 <= after -> bb_limit output = limit -> started + timeout - clock w <= after * PROCESS_POLL_INTERVAL ->
  Z.max 0 (limit - len (bb_bytes output)) + after < Z.of_nat a -> Z.max 0 (limit - len (bb_bytes output)) + after < Z.of_nat b ->
  run (read_output_loop p a fd limit timeout started output) w = run (read_output_loop q b fd limit timeout started output) w.
Proof.
  revert after output b w. induction a as [|a IH]; intros after output [|b] w Hst H0 Hl Ht Ha Hb; [lia..|]. cbn [read_output_loop]. rewrite !run_bind.
  destruct (check_io_run w) as [->|[text ->]]; [|done]. rewrite !run_bind, !run_outcome. pose proof (cl_read laws fd (Z.to_nat 8192) w) as Hc.
  destruct (run (pr_read fd (Z.to_nat 8192)) w) as [[[|byte chunk]|e] w1] eqn:Er; cbn [fst snd] in *; [done| |].
  - rewrite !run_bind, !run_of_result. pose proof (add_output_run output (byte :: chunk) limit) as Hadd. destruct (add_output _ _ _) as [output'|e]; [|done].
    destruct Hadd as (Hbytes & Hlimit & Hok). unfold bb_ok in Hok. rewrite Hbytes, length_app in Hok. cbn [length] in Hok.
    apply (IH after); rewrite ?Hbytes, ?length_app; cbn [length]; first [congruence|lia].
  - destruct (is_timeout (ie_kind e)) eqn:Ek; [|done]. rewrite !run_bind, run_instant. destruct (law_instant _ _ (cl_clock laws) w1) as (Hi & Hc2 & _). rewrite Hi.
    set (w2 := (os_instant w1).2) in *. pose proof (cl_timed_out laws _ _ _ _ _ Er Ek). destruct (Z.leb_spec timeout (Z.max 0 (clock w2 - started))); [done|].
    apply (IH (after - 1)); first [done|unfold PROCESS_POLL_INTERVAL in *; lia].
Qed.
Lemma read_bounded_same fd limit timeout started w :
  started <= clock w -> run (read_bounded_output_until p fd limit timeout started) w = run (read_bounded_output_until q fd limit timeout started) w.
Proof.
  intros Hst. pose proof (polls_last p timeout). pose proof (polls_last q timeout).
  apply (read_output_same _ _ _ _ (Z.of_nat (Z.to_nat (timeout / PROCESS_POLL_INTERVAL)) + 1)); unfold polls in *; cbn; lia.
Qed.

(** A command comes to the same, however many more polls are followed. *)
Lemma run_filter_same : run_filter p = run_filter (Fd := Fd) q.
Proof. unfold run_filter, run_with_piped_output. by rewrite wait_for_process_group_same. Qed.
Lemma run_program_with_timeout_same : run_program_with_timeout p = run_program_with_timeout (Fd := Fd) q.
Proof. unfold run_program_with_timeout, run_program_with_streams, run_without_output. by rewrite wait_for_process_group_same. Qed.
Lemma run_trap_with_timeout_same : run_trap_with_timeout p = run_trap_with_timeout (Fd := Fd) q.
Proof. unfold run_trap_with_timeout, run_program_with_streams, run_without_output. by rewrite wait_for_process_group_same. Qed.
Lemma run_capture_with_timeout_same : run_capture_with_timeout p = run_capture_with_timeout (Fd := Fd) q.
Proof.
  unfold run_capture_with_timeout, run_with_timed_output. rewrite wait_for_process_group_same.
  extensionality policy. extensionality environment. extensionality command. extensionality input. extensionality options. extensionality stderr.
  apply bind_ext. intros _ [reader writer] ? _. f_equal. apply bind_ext. intros _ _ ? _. f_equal. apply bind_ext. intros _ lifecycle ? _. do 4 f_equal.
  apply bind_ext. intros w started w'. rewrite run_instant. destruct (law_instant _ _ (cl_clock laws) w) as (-> & _ & _). intros [= <- <-].
  rewrite !run_bind, !run_outcome. by rewrite read_bounded_same.
Qed.
End patience.

(** A child that never exits by itself, on a system of a clock and whether it is
    alive. *)
Definition SampleProcess : Type := Z * bool.
#[local] Instance sample_clock : Os SampleProcess () :=
  clock_only fst (fun d w => (w.1 + Z.max 1 d, w.2)) (stop_with 38) (stop_with 38) (stop_with 38).
#[local] Instance sample_processes : Processes SampleProcess () () := {|
  pr_spawn _ := mret tt; pr_id _ := 5; pr_write_stdin _ _ := mret tt; pr_close_stdin _ w := w; pr_stdout _ _ := [];
  pr_try_wait _ := Comp (fun w => (Ok (if w.2 : bool then None else Some {| cs_code := None; cs_signal := Some 9 |}), w));
  pr_wait _ := mret {| cs_code := None; cs_signal := Some 9 |};
  pr_kill_group _ signal := Comp (fun w => (Ok tt, match signal with GS_Kill => (w.1, false) | GS_Term => w end)); pr_no_group := 3;
  pr_socket_pair := mret (tt, tt); pr_set_read_timeout _ _ := mret tt; pr_read _ _ := mret []; pr_start_thread := mret tt;
  pr_beside _ _ _ _ m n w := let '(r, w) := run m w in let '(s, w) := run n w in ((r, s), w);
|}.
Lemma command_wait_ends_witness :
  run (wait_for_process_group (P := linux_numbers) (Child := ()) 4 tt 15000000) (100, true) =
    (Ok ({| cs_code := None; cs_signal := Some 9 |}, true), (265000100, false)) /\
  wait_ended (P := linux_numbers) fst tt (fun w : SampleProcess => w.2 = false) (100 + 15000000)
    (run (wait_for_process_group (P := linux_numbers) (Child := ()) 4 tt 15000000) (100, true)).1
    (run (wait_for_process_group (P := linux_numbers) (Child := ()) 4 tt 15000000) (100, true)).2.
Proof.
  split; [vm_compute; reflexivity|].
  refine (command_wait_ends (P := linux_numbers) fst (fun _ => 0%nat) _ tt (fun w : SampleProcess => w.2 = false) _ 4 15000000 (100, true) _ _).
  - split; [intros w; cbn; repeat split; lia|intros d w Hd; cbn; split; lia].
  - split; [intros w; cbn; lia|intros w w' [= <-]; reflexivity|intros [] w w'; discriminate|intros w Hw; exact Hw].
  - lia.
  - unfold PROCESS_POLL_INTERVAL. lia.
Defined.

(** A child that writes two chunks, with a pause between them: what is still to come
    and what was read. *)
Definition SampleOutput : Type := Z * (list (option bytes) * bytes).
#[local] Instance output_clock : Os SampleOutput () :=
  clock_only fst (fun d w => (w.1 + Z.max 1 d, w.2)) (stop_with 38) (stop_with 38) (stop_with 38).
Definition sample_read : M SampleOutput IoError bytes := Comp (fun '(time, (coming, read)) =>
  match coming with
  | [] => (Ok [], (time, ([], read)))
  | Some chunk :: rest => (Ok chunk, (time, (rest, read ++ chunk)))
  | None :: rest => (Err {| ie_kind := EK_WouldBlock; ie_raw := Some 11; ie_text := [] |}, (time + PROCESS_POLL_INTERVAL, (rest, read)))
  end).
#[local] Instance output_processes : Processes SampleOutput () () := {|
  pr_spawn _ := mret tt; pr_id _ := 5; pr_write_stdin _ _ := mret tt; pr_close_stdin _ w := w; pr_stdout _ _ := [];
  pr_try_wait _ := mret None; pr_wait _ := mret {| cs_code := Some 0; cs_signal := None |}; pr_kill_group _ _ := mret tt; pr_no_group := 3;
  pr_socket_pair := mret (tt, tt); pr_set_read_timeout _ _ := mret tt; pr_read _ _ := sample_read; pr_start_thread := mret tt;
  pr_beside _ _ _ _ m n w := let '(r, w) := run m w in let '(s, w) := run n w in ((r, s), w);
|}.
Definition sample_reading : result IoError bytes * SampleOutput :=
  run (read_bounded_output_until 12 tt 6 30000000 100) (100, ([Some (B "one"); None; Some (B "two")], [])).
Lemma captured_output_ends_witness : sample_reading.1 = Ok (B "onetwo") /\ capture_ended (Child := ()) fst tt (fun w => w.2.2) (100 + 30000000) 6 [] sample_reading.1 sample_reading.2.
Proof.
  split; [vm_compute; reflexivity|].
  refine (captured_output_ends fst (fun _ => 0%nat) _ tt (fun w => w.2.2) _ 12 6 30000000 (100, ([Some (B "one"); None; Some (B "two")], [])) _ _ _).
  - split; [intros w; cbn; repeat split; lia|intros d w Hd; cbn; split; lia].
  - split.
    + intros n [time [[|[chunk|] rest] read]]; cbn; unfold PROCESS_POLL_INTERVAL; lia.
    + intros n [time [[|[chunk|] rest] read]] e w'; cbn; [discriminate|discriminate|]. intros [= <- <-]. cbn. repeat split; [by eexists|lia].
    + intros n [time [[|[chunk|] rest] read]] chunk' w'; cbn; [|intros [= <- <-]; reflexivity|discriminate]. intros [= <- <-]. cbn. by rewrite app_nil_r.
    + intros w; reflexivity.
  - lia.
  - lia.
  - unfold PROCESS_POLL_INTERVAL. lia.
Defined.
Example rewritten_arguments :
  prepare_special_positional_argument (B "printf %s " ++ special_word ++ B " | grep $@ " ++ special_word) =
  Some (B "printf %s " ++ [c_QUOTE; c_QUOTE] ++ B " | grep  " ++ special_word).
Proof. by vm_compute. Qed.
