(* ===== verification/Formail.v ===== *)
(** The program formail-rs: [src/src/bin/formail-rs.rs].  The command line, the
    quoting of the body while it is streamed, and the run that edits or extracts the
    header.  The standard output is a [Writer]; what goes to the standard error is
    kept as text. *)
From S2P Require Import Prelude Effects Numbers Calendar Config Limits Utf8 Variables HeaderValue HeaderFields HeaderStore HeaderStoreOps EditedHeader Message Delivery Identity Startup Files Mbox Staging Streaming.
#[local] Open Scope Z_scope.

(** Source: bin/formail-rs.rs `const EX_USAGE` *)
Definition EX_USAGE : Z := 64.
(** Source: bin/formail-rs.rs `const EX_DATAERR` *)
Definition EX_DATAERR : Z := 65.
(** Source: bin/formail-rs.rs `const EX_SOFTWARE` *)
Definition EX_SOFTWARE : Z := 70.
(** Source: bin/formail-rs.rs `const EX_IOERR` *)
Definition EX_IOERR : Z := 74.
(** The message of a failure and the status of the process. *)
Abbreviation Failure := (bytes * Z)%type (only parsing).

(** [String::from_utf8_lossy]: a replacement character for every maximal part that
    is the start of no character. *)
Definition invalid_len (l : bytes) : nat :=
  match l with
  | b0 :: b1 :: rest =>
      if between 224 239 b0 then
        if between (if b0 =? 224 then 160 else 128) (if b0 =? 237 then 159 else 191) b1 then 2 else 1
      else if between 240 244 b0 && between (if b0 =? 240 then 144 else 128) (if b0 =? 244 then 143 else 191) b1 then
        match rest with b2 :: _ => if cont_byte b2 then 3 else 2 | [] => 2 end
      else 1
  | _ => 1
  end.
Fixpoint lossy_fuel (fuel : nat) (l : bytes) : bytes :=
  match fuel, l with
  | S fuel, _ :: _ =>
      match next_char l with
      | Some (_, rest) => take (length l - length rest) l ++ lossy_fuel fuel rest
      | None => [239; 191; 189] ++ lossy_fuel fuel (drop (invalid_len l) l)
      end
  | _, _ => []
  end.
Definition from_utf8_lossy (l : bytes) : bytes := lossy_fuel (length l) l.

(** * The command line *)

(** Source: bin/formail-rs.rs `struct Options` *)
Record Options := {
  force_format : bool; escape_bogus : bool; quote_prefix : bytes; concatenate : bool; zap : bool; keep_body : bool;
  rename_rules : list (bytes * bytes); prefix_rules : list bytes; delete_rules : list bytes;
  unique_first : list bytes; unique_last : list bytes; add_if_not : list bytes; add_always : list bytes;
  extract_values : list bytes; extract_names : list bytes;
}.
(** Source: bin/formail-rs.rs `impl Default for Options` *)
Definition default_options : Options := {|
  force_format := false; escape_bogus := true; quote_prefix := [c_GT]; concatenate := false; zap := false; keep_body := false;
  rename_rules := []; prefix_rules := []; delete_rules := []; unique_first := []; unique_last := []; add_if_not := []; add_always := [];
  extract_values := []; extract_names := [];
|}.
Inductive Flag := ForceFormat | KeepBogus | Concatenate | Zap | KeepBody.
Definition with_flag (f : Flag) (o : Options) : Options := {|
  force_format := match f with ForceFormat => true | _ => force_format o end;
  escape_bogus := match f with KeepBogus => false | _ => escape_bogus o end;
  quote_prefix := quote_prefix o;
  concatenate := match f with Concatenate => true | _ => concatenate o end;
  zap := match f with Zap => true | _ => zap o end;
  keep_body := match f with KeepBody => true | _ => keep_body o end;
  rename_rules := rename_rules o; prefix_rules := prefix_rules o; delete_rules := delete_rules o;
  unique_first := unique_first o; unique_last := unique_last o; add_if_not := add_if_not o; add_always := add_always o;
  extract_values := extract_values o; extract_names := extract_names o;
|}.
Inductive Rule := QuotePrefix (l : bytes) | Rename (old new : bytes) | OldPrefix (l : bytes) | Delete (l : bytes) | UniqueFirst (l : bytes) | UniqueLast (l : bytes)
  | AddIfNot (l : bytes) | AddAlways (l : bytes) | ExtractValue (l : bytes) | ExtractName (l : bytes).
(** A rule goes to the end of its list. *)
Definition with_rule (r : Rule) (o : Options) : Options := {|
  force_format := force_format o; escape_bogus := escape_bogus o; concatenate := concatenate o; zap := zap o; keep_body := keep_body o;
  quote_prefix := match r with QuotePrefix l => l | _ => quote_prefix o end;
  rename_rules := rename_rules o ++ match r with Rename old new => [(old, new)] | _ => [] end;
  prefix_rules := prefix_rules o ++ match r with OldPrefix l => [l] | _ => [] end;
  delete_rules := delete_rules o ++ match r with Delete l => [l] | _ => [] end;
  unique_first := unique_first o ++ match r with UniqueFirst l => [l] | _ => [] end;
  unique_last := unique_last o ++ match r with UniqueLast l => [l] | _ => [] end;
  add_if_not := add_if_not o ++ match r with AddIfNot l => [l] | _ => [] end;
  add_always := add_always o ++ match r with AddAlways l => [l] | _ => [] end;
  extract_values := extract_values o ++ match r with ExtractValue l => [l] | _ => [] end;
  extract_names := extract_names o ++ match r with ExtractName l => [l] | _ => [] end;
|}.

(** Source: bin/formail-rs.rs `fn split_field_name_and_value` *)
Definition split_field_name_and_value (field : bytes) : bytes * option bytes :=
  match position (fun b => b =? c_COLON) field with
  | Some colon =>
      let value := drop (S colon) field in
      (take (S colon) field, if existsb (fun b => negb (b =? c_SP) && negb (b =? c_TAB)) (strip_line_ending value) then Some value else None)
  | None => (field, None)
  end.
(** Source: bin/formail-rs.rs `fn is_message_id_pattern` *)
Definition is_message_id_pattern (pattern : bytes) : bool :=
  let clean := default pattern (strip_suffix pattern [c_COLON]) in
  eq_ignore_ascii_case clean (B "Message-ID") || eq_ignore_ascii_case clean (B "Resent-Message-ID").

(** The value of an option: the rest of its argument, or the next one.
    Source: bin/formail-rs.rs:178-187 `parse_args (argument)` *)
Definition option_value (option : bytes) (rest : bytes) (args : list bytes) : result Failure (bytes * list bytes) :=
  match rest, args with
  | [], [] => Err (B "formail-rs: missing argument to " ++ option, EX_USAGE)
  | [], value :: args => Ok (value, args)
  | _, _ => Ok (rest, args)
  end.
(** An option that removes fields of a name, and adds the field it has.
    Source: bin/formail-rs.rs:295-299 `parse_args (field rule)` *)
Definition field_rule (rule : bytes -> Rule) (value : bytes) (o : Options) : Options :=
  let '(pattern, text) := split_field_name_and_value value in
  let o := with_rule (rule pattern) o in
  match text with Some _ => with_rule (AddAlways value) o | None => o end.

Inductive Parsed := P_Options (o : Options) | P_Help | P_Version.
(** An argument that starts with a dash, letter by letter.
    Source: bin/formail-rs.rs:161-351 `parse_args (letters)` *)
Fixpoint parse_letters (letters : bytes) (o : Options) (args : list bytes) : result Failure (Parsed * list bytes) :=
  match letters with
  | [] => Ok (P_Options o, args)
  | c :: rest =>
      let letter l := bytes_eqb [c] (B l) in
      let value rule := '(v, args) ← option_value (B "-" ++ [c]) rest args; Ok (P_Options (with_rule (rule v) o), args) in
      if letter "f" then parse_letters rest (with_flag ForceFormat o) args
      else if letter "b" then parse_letters rest (with_flag KeepBogus o) args
      else if letter "c" then parse_letters rest (with_flag Concatenate o) args
      else if letter "z" then parse_letters rest (with_flag Zap o) args
      else if letter "k" then parse_letters rest (with_flag KeepBody o) args
      else if letter "h" || letter "?" then Ok (P_Help, args)
      else if letter "v" then Ok (P_Version, args)
      else if letter "p" then value QuotePrefix
      else if letter "x" then value ExtractValue
      else if letter "X" then value ExtractName
      else if letter "u" then value UniqueFirst
      else if letter "U" then value UniqueLast
      else if letter "A" then
        '(v, args) ← option_value (B "-A") rest args;
        if existsb (fun b => b =? c_COLON) v then Ok (P_Options (with_rule (AddAlways v) o), args)
        else Err (B "formail-rs: invalid field '" ++ from_utf8_lossy v ++ B "': missing colon", EX_USAGE)
      else if letter "a" then value AddIfNot
      else if letter "i" then '(v, args) ← option_value (B "-i") rest args; Ok (P_Options (field_rule OldPrefix v o), args)
      else if letter "I" then '(v, args) ← option_value (B "-I") rest args; Ok (P_Options (field_rule Delete v o), args)
      else if letter "R" then
        '(old, args) ← option_value (B "-R") rest args;
        match args with
        | [] => Err (B "formail-rs: missing second argument to -R", EX_USAGE)
        | new :: args => Ok (P_Options (with_rule (Rename old new) o), args)
        end
      else Err (B "formail-rs: unsupported option '-" ++ encode_small c ++ B "'", EX_USAGE)
  end.
(** Every round takes an argument.
    Source: bin/formail-rs.rs:141-352 `parse_args (loop)` *)
Fixpoint parse_arguments (fuel : nat) (args : list bytes) (o : Options) : result Failure Parsed :=
  match fuel, args with
  | S fuel, arg :: args =>
      let named l := bytes_eqb arg (B l) in
      if named "-h" || named "-?" || named "--help" then Ok P_Help
      else if named "-v" || named "--version" then Ok P_Version
      else if negb (starts_with arg (B "-")) || named "-" then Err (B "formail-rs: unexpected argument: " ++ from_utf8_lossy arg, EX_USAGE)
      else
        '(parsed, args) ← parse_letters (drop 1 arg) o args;
        match parsed with P_Options o => parse_arguments fuel args o | _ => Ok parsed end
  | _, _ => Ok (P_Options o)
  end.
(** Source: bin/formail-rs.rs `fn parse_args` *)
Definition parse_args (args : list bytes) : result Failure Parsed := parse_arguments (length args) args default_options.

(** * The body *)

Section body.
Context (quote : bytes).
Abbreviation Out := (M (Writer IoError) Failure) (only parsing).

Definition write_error (e : IoError) : Failure := (B "formail-rs: write error: " ++ ie_text e, EX_IOERR).
Definition read_error (e : IoError) : Failure := (B "formail-rs: read error: " ++ ie_text e, EX_IOERR).
Definition emit (l : bytes) : Out () := Comp (fun w => match write_all w l with Ok w' => (Ok tt, w') | Err e => (Err (write_error e), w) end).

(** Whether a line begins, and what was read of it that may still be the start of a
    postmark. *)
Record LineState := { at_line_start : bool; line_prefix : bytes }.
Definition MAX_QUOTES : nat := 1024.
(** The bytes of a buffer from an offset on.
    Source: bin/formail-rs.rs:384-448 `stream_body (buffer)` *)
Fixpoint escape_buffer (fuel : nat) (l : bytes) (st : LineState) : Out LineState :=
  match fuel, l with
  | S fuel, byte :: rest =>
      let in_line (st : LineState) :=
        match position (fun b => b =? c_LF) l with
        | Some pos => _ ← emit (take (S pos) l); escape_buffer fuel (drop (S pos) l) {| at_line_start := true; line_prefix := line_prefix st |}
        | None => _ ← emit l; mret st
        end in
      let prefix := line_prefix st in
      if at_line_start st then
        let non_quote := quote_depth prefix in
        if (non_quote =? length prefix)%nat && (byte =? c_GT) then
          if (length prefix <? MAX_QUOTES)%nat then escape_buffer fuel rest {| at_line_start := true; line_prefix := prefix ++ [byte] |}
          else _ ← emit prefix; in_line {| at_line_start := false; line_prefix := [] |}
        else
          let matched_so_far := (length prefix - non_quote)%nat in
          if bool_decide (FROM !! matched_so_far = Some byte) then
            let prefix := prefix ++ [byte] in
            if (length prefix - non_quote =? length FROM)%nat then
              _ ← emit quote;
              _ ← emit prefix;
              escape_buffer fuel rest {| at_line_start := false; line_prefix := [] |}
            else escape_buffer fuel rest {| at_line_start := true; line_prefix := prefix |}
          else
            _ ← (if bool_decide (prefix = []) then mret tt else emit prefix);
            in_line {| at_line_start := false; line_prefix := [] |}
      else in_line st
  | _, _ => mret st
  end.

(** The standard input and the standard output. *)
Abbreviation Piped := (M (Reader IoError * Writer IoError) Failure) (only parsing).
Definition to_output {A} (m : Out A) : Piped A := Effects.on snd (fun w s => (s.1, w)) m.
Definition lend (failure : IoError -> Failure) : Piped bytes := Comp (fun s =>
  match fill_buf s.1 with Ok (l, r) => (Ok l, (r, s.2)) | Err e => (Err (failure e), s) end).
Definition consumed (count : nat) : Piped () := modify (fun s => (consume s.1 count, s.2)).

(** [io::copy]; an interrupted read is repeated by the reader. *)
Fixpoint copy (fuel : nat) : Piped () :=
  match fuel with
  | O => mret tt
  | S fuel =>
      available ← lend write_error;
      match available with
      | [] => mret tt
      | _ :: _ => _ ← to_output (emit available); _ ← consumed (length available); copy fuel
      end
  end.
(** The loop of [stream_body]; what the last line began with is written at the end.
    Source: bin/formail-rs.rs:371-451 `stream_body (loop)` *)
Fixpoint escape_body (fuel : nat) (st : LineState) : Piped () :=
  match fuel with
  | O => mret tt
  | S fuel =>
      available ← lend read_error;
      match available with
      | [] => if bool_decide (line_prefix st = []) then mret tt else to_output (emit (line_prefix st))
      | _ :: _ =>
          st ← to_output (escape_buffer (length available) available st);
          _ ← consumed (length available);
          escape_body fuel st
      end
  end.
(** Source: bin/formail-rs.rs `fn stream_body` *)
Definition stream_body (escape : bool) : Piped () := Comp (fun s =>
  let fuel := S (pending s.1) in
  run (if escape then escape_body fuel {| at_line_start := true; line_prefix := [] |} else copy fuel) s).
End body.

(** * The run *)

Section run.
Context {T : Target} {W Fd : Type} {OS : Os W Fd}.
(** The name of the node, as [uname] gives it, and the version of the package. *)
Context (nodename version : bytes).

Record Formail := { f_streams : Reader IoError * Writer IoError; f_counter : Z; f_world : W; f_stderr : bytes }.
Abbreviation Running := (M Formail Failure) (only parsing).
Definition with_streams (io : Reader IoError * Writer IoError) (s : Formail) : Formail :=
  {| f_streams := io; f_counter := f_counter s; f_world := f_world s; f_stderr := f_stderr s |}.
Definition piped {A} (m : M (Reader IoError * Writer IoError) Failure A) : Running A := Effects.on f_streams with_streams m.
Definition output (l : bytes) : Running () := piped (to_output (emit l)).
Definition now : Running Z := Comp (fun s =>
  let '(t, w) := os_system_time (f_world s) in (Ok t, {| f_streams := f_streams s; f_counter := f_counter s; f_world := w; f_stderr := f_stderr s |})).
(** [MSGID_COUNTER.fetch_add] *)
Definition next_counter : Running Z := Comp (fun s =>
  (Ok (f_counter s), {| f_streams := f_streams s; f_counter := (f_counter s + 1) mod (usize_max + 1); f_world := f_world s; f_stderr := f_stderr s |})).
Definition complain (l : bytes) (s : Formail) : Formail :=
  {| f_streams := f_streams s; f_counter := f_counter s; f_world := f_world s; f_stderr := f_stderr s ++ l ++ [c_LF] |}.

(** Source: bin/formail-rs.rs `fn generate_message_id` *)
Definition generate_message_id (pattern : bytes) : Running bytes :=
  let header_name := if starts_with (to_ascii_lowercase <$> pattern) (B "resent-") then B "Resent-Message-ID" else B "Message-ID" in
  t ← now;
  let time := if t <? 0 then 0 else t / 1000000000 in
  pid ← gets (fun s => os_pid (f_world s));
  counter ← next_counter;
  let hostname := match current_hostname nodename with Ok name => name | Err _ => B "localhost" end in
  mret (header_name ++ B ": <" ++ z_decimal time ++ B "." ++ z_decimal pid ++ B "." ++ z_decimal counter ++ B "@" ++ hostname ++ B ">" ++ [c_LF]).

(** A step of the edit, with the text of its failure. *)
Definition editing {A} (what : bytes) (r : result HeaderEditError A) : Running A :=
  of_result (map_err (fun e => (B "formail-rs: " ++ what ++ B ": " ++ header_edit_error_text e, EX_DATAERR)) r).
Definition edit_with (what : bytes) (edits : list header_edit) (h : EditedHeader) : Running EditedHeader :=
  editing what (foldl (fun h e => h ← h; edit_store (store_edit e) h) (Ok h) edits).
(** Source: bin/formail-rs.rs:515-536 `run (add if not present)` *)
Fixpoint add_missing (fields : list bytes) (h : EditedHeader) : Running EditedHeader :=
  match fields with
  | [] => mret h
  | raw :: rest =>
      let '(pattern, value) := split_field_name_and_value raw in
      h ← (if has_matching_pattern (store (storage h)) pattern then mret h
           else if match value with None => true | Some _ => false end && is_message_id_pattern pattern then
             generated ← generate_message_id pattern;
             editing (B "failed to add message-id") (add_raw_field h generated)
           else editing (B "failed to add header") (add_raw_field h raw));
      add_missing rest h
  end.
(** The steps of the edit in their order.
    Source: bin/formail-rs.rs:478-575 `run (edits)` *)
Definition edit_header (o : Options) (h : EditedHeader) : Running EditedHeader :=
  h ← edit_with (B "header rename failed") ((fun '(old, new) => RenameMatchingPattern old new) <$> rename_rules o) h;
  h ← edit_with (B "header rename failed") ((fun pattern => PrependPrefixToMatching pattern (B "Old-")) <$> prefix_rules o) h;
  h ← edit_with [] (RemoveMatchingPattern <$> delete_rules o) h;
  h ← edit_with [] (MakeUniqueFirst <$> unique_first o) h;
  h ← edit_with [] (MakeUniqueLast <$> unique_last o) h;
  h ← add_missing (add_if_not o) h;
  h ← editing (B "failed to add header") (foldl (fun h raw => h ← h; add_raw_field h raw) (Ok h) (add_always o));
  h ← edit_with (B "failed to concatenate headers") (if concatenate o then [ConcatenateContinued] else []) h;
  h ← edit_with (B "failed to zap whitespace") (if zap o then [ZapWhitespace] else []) h;
  editing (B "invalid header after modification") (finish h 0).
Fixpoint output_all (parts : list bytes) : Running () :=
  match parts with [] => mret tt | l :: rest => _ ← output l; output_all rest end.
Definition body (o : Options) : Running () := piped (stream_body (quote_prefix o) (escape_bogus o)).
(** Source: bin/formail-rs.rs:578-605 `run (extraction)` *)
Definition extract (o : Options) (h : EditedHeader) : Running () :=
  let fields names pattern := extract_fields h pattern names (concatenate o) (zap o) in
  _ ← output_all (extract_values o ≫= fields false);
  _ ← output_all (extract_names o ≫= fields true);
  if keep_body o then _ ← output [c_LF]; body o else mret tt.
(** Source: bin/formail-rs.rs:606-637 `run (message)` *)
Definition pass_message (o : Options) (h : EditedHeader) : Running () :=
  let has_from := match fields (store (storage h)) with [] => false | _ => starts_with (stored_bytes (store (storage h)) 0) FROM end in
  _ ← (if has_from || force_format o then mret tt
       else
         t ← now;
         postmark ← of_result (map_err (fun e => (B "formail-rs: failed to generate postmark: " ++
           match e with TimeBeforeEpoch => B "TimeBeforeEpoch" | TimeOutOfRange => B "TimeOutOfRange" | Mbox.TooLong => B "TooLong" | InvalidShape => B "InvalidShape" | NonAscii => B "NonAscii" end,
           EX_SOFTWARE)) (generated_postmark t));
         output (postmark_bytes postmark));
  let '(header, h) := as_bytes h in
  _ ← output header;
  _ ← (if ends_with header [c_LF; c_LF] || ends_with header [c_CR; c_LF; c_CR; c_LF] then mret tt else output [c_LF]);
  body o.
(** Source: bin/formail-rs.rs:461-476 `run (header)` *)
Definition read_header : Running EditedHeader := Comp (fun s =>
  match read_headers (f_streams s).1 default_limits with
  | Err e => (Err (B "formail-rs: failed to read message: " ++ message_read_error_text e, EX_DATAERR), s)
  | Ok (head, reader) =>
      let s := with_streams (reader, (f_streams s).2) s in
      (map_err (fun e => (B "formail-rs: failed to parse headers: " ++ header_edit_error_text e, EX_DATAERR)) (new_raw (head_as_bytes head) default_limits), s)
  end).
Definition lines_text (l : list string) : bytes := l ≫= fun line => B line ++ [c_LF].
(** Source: bin/formail-rs.rs `fn print_help` *)
Definition help_text : bytes := lines_text [
  "Usage: formail-rs [-bczfk] [-p prefix] [-A header] [-a header] [-i header]";
  "       [-I header] [-u header] [-U header] [-R old new]";
  "       [-x header] [-X header] [-v] [-h]";
  "";
  "Options:";
  "  -A header        Append headerfield onto the header in any case";
  "  -a header        Append headerfield if not present (generates Message-ID if empty)";
  "  -i header        Rename existing matching fields to Old- and append header";
  "  -I header        Delete existing matching fields and append header";
  "  -u header        Make first occurrence of header unique, delete later ones";
  "  -U header        Make last occurrence of header unique, delete earlier ones";
  "  -R old new       Rename occurrences of old fieldname into new fieldname";
  "  -x header        Extract contents of this headerfield";
  "  -X header        Extract field name and contents of this headerfield";
  "  -c               Concatenate continued fields in header (unfold)";
  "  -z               Zap whitespace / ensure whitespace after colon";
  "  -f               Pass along non-mailbox format (do not generate 'From ' line)";
  "  -b               Don't escape bogus mailbox 'From ' lines";
  "  -p prefix        Define quotation prefix (default '>')";
  "  -k               Keep body when extracting fields";
  "  -v               Print version and exit";
  "  -h, -?, --help   Print this help and exit"]%string.
(** Source: bin/formail-rs.rs `fn print_version` *)
Definition version_text : bytes := B "formail-rs " ++ version ++ B " (procmail-rs " ++ version ++ B ")".
(** The flush of the output at the end is part of the writes; help that cannot be
    written is a failure here, where [println!] panics.
    Source: bin/formail-rs.rs `fn run()` *)
Definition run_formail (args : list bytes) : Running () :=
  parsed ← of_result (parse_args args);
  match parsed with
  | P_Help => output help_text
  | P_Version => modify (complain version_text)
  | P_Options o =>
      h ← read_header;
      h ← edit_header o h;
      if negb (bool_decide (extract_values o = [])) || negb (bool_decide (extract_names o = [])) then extract o h else pass_message o h
  end.
(** The status of the process.
    Source: bin/formail-rs.rs `fn main()` *)
Definition formail_main (args : list bytes) (s : Formail) : Z * Formail :=
  match run (run_formail args) s with
  | (Ok _, s) => (0, s)
  | (Err (text, code), s) => (code, complain text s)
  end.
End run.
