(* ===== verification/FormailFacts.v ===== *)
(** What formail-rs writes: the body it streams is the text with its lines quoted,
    however the input arrives in pieces; and the command line is read to its end. *)
From S2P Require Import Prelude Effects Numbers Calendar Config Limits Utf8 Variables HeaderValue HeaderFields HeaderStore HeaderStoreOps EditedHeader Message Delivery Startup Files Mbox MboxFacts Staging Streaming Formail.
#[local] Open Scope Z_scope.

(** * Quoting *)

Section quoting.
Context (q : bytes).

(** A line that could be taken for a postmark, up to the number of [>] that are
    looked at. *)
Definition bogus (line : bytes) : bool := (quote_depth line <=? MAX_QUOTES)%nat && looks_like_postmark line.
Definition escape_line (line : bytes) : bytes := if bogus line then q ++ line else line.
(** The body, line by line. *)
Definition escape_text (l : bytes) : bytes := concat (escape_line <$> lines l).

(** The first line of a text, and what follows it. *)
Definition rest_of_line (l : bytes) : bytes := match position (fun b => b =? c_LF) l with Some pos => take (S pos) l | None => l end.
Definition after_line (l : bytes) : bytes := match position (fun b => b =? c_LF) l with Some pos => drop (S pos) l | None => [] end.
Lemma split_line l : rest_of_line l ++ after_line l = l.
Proof. unfold rest_of_line, after_line. case_match; [apply take_drop|apply app_nil_r]. Qed.
Lemma position_app_line l more pos : position (fun b => b =? c_LF) l = Some pos -> position (fun b => b =? c_LF) (l ++ more) = Some pos.
Proof.
  revert pos. induction l as [|b l IH]; intros pos; [done|]. cbn [position app]. destruct (b =? c_LF); [done|].
  destruct (position _ l) as [p|]; [|done]. intros [= <-]. by rewrite (IH p eq_refl).
Qed.
Lemma position_app_open l more : no_newline l ->
  position (fun b => b =? c_LF) (l ++ more) = (fun p => length l + p)%nat <$> position (fun b => b =? c_LF) more.
Proof.
  induction 1 as [|b l Hb Hl IH]; [cbn [app]; by destruct (position _ more)|]. cbn [position app]. rewrite Hb, IH. by destruct (position _ more).
Qed.
Lemma line_app_open p s : no_newline p -> rest_of_line (p ++ s) = p ++ rest_of_line s /\ after_line (p ++ s) = after_line s.
Proof.
  intros Hp. unfold rest_of_line, after_line. rewrite (position_app_open p s Hp). destruct (position _ s) as [pos|]; cbn; [|done].
  rewrite take_app_ge, drop_app_ge by lia. by replace (S (length p + pos) - length p)%nat with (S pos) by lia.
Qed.
Lemma lines_first l : l <> [] -> lines l = rest_of_line l :: lines (after_line l).
Proof. intros H. rewrite lines_take_line by done. unfold take_line, rest_of_line, after_line. by destruct (position _ l). Qed.
Lemma escape_text_first l : escape_text l = match l with [] => [] | _ => escape_line (rest_of_line l) ++ escape_text (after_line l) end.
Proof. destruct l as [|b l]; [done|]. unfold escape_text. by rewrite lines_first. Qed.
Lemma escape_open p s : no_newline p -> p <> [] ->
  escape_text (p ++ s) = escape_line (p ++ rest_of_line s) ++ escape_text (after_line s).
Proof.
  intros Hp Hn. rewrite escape_text_first. destruct (line_app_open p s Hp) as [-> ->]. by destruct p.
Qed.

(** * The states of a line *)

(** What is still to be written of a text that follows a state. *)
Definition to_write (st : LineState) (l : bytes) : bytes :=
  if at_line_start st then escape_text (line_prefix st ++ l) else rest_of_line l ++ escape_text (after_line l).
Definition start_of (k m : nat) : bytes := replicate k c_GT ++ take m FROM.
Definition state_ok (st : LineState) : Prop :=
  if at_line_start st then exists k m, (k <= MAX_QUOTES)%nat /\ (m < 5)%nat /\ line_prefix st = start_of k m else line_prefix st = [].

Lemma quote_depth_quotes k l : quote_depth (replicate k c_GT ++ l) = (k + quote_depth l)%nat.
Proof. induction k as [|k IH]; [done|]. cbn. by rewrite IH. Qed.
Lemma start_of_open k m : no_newline (start_of k m).
Proof.
  apply Forall_app. split; [by apply Forall_replicate|]. apply Forall_take. by repeat constructor.
Qed.
Lemma length_start_of k m : (m <= 5)%nat -> length (start_of k m) = (k + m)%nat.
Proof. intros H. unfold start_of. rewrite length_app, length_replicate, length_take. change (length FROM) with 5%nat. lia. Qed.
Lemma take_postmark m : take (S m) FROM = 70 :: take m (B "rom ").
Proof. done. Qed.
Lemma depth_start_of k m : quote_depth (start_of k m) = k.
Proof. unfold start_of. rewrite quote_depth_quotes. destruct m; [cbn; lia|]. rewrite take_postmark. cbn. lia. Qed.
Lemma depth_start_of_app k m b l : (m < 5)%nat -> (m = 0%nat -> b <> c_GT) -> quote_depth (start_of k m ++ b :: l) = k.
Proof.
  intros Hm Hb. unfold start_of. rewrite <- app_assoc, quote_depth_quotes. destruct m as [|m]; [cbn|rewrite take_postmark; cbn; lia].
  rewrite (proj2 (Z.eqb_neq _ _) (Hb eq_refl)). lia.
Qed.
(** A start that the next byte does not continue is no postmark. *)
Lemma not_bogus k m b l : (m < 5)%nat -> (m = 0%nat -> b <> c_GT) -> FROM !! m <> Some b -> bogus (start_of k m ++ b :: l) = false.
Proof.
  intros Hm Hb Hf. unfold bogus, looks_like_postmark. rewrite depth_start_of_app by done. apply andb_false_intro2.
  unfold start_of, bytes_eqb. rewrite <- app_assoc, drop_app_length' by (by rewrite length_replicate). apply bool_decide_eq_false. intros E. apply Hf.
  rewrite <- E, lookup_take_lt by done. rewrite lookup_app_r by (rewrite length_take; lia). rewrite length_take. change (length FROM) with 5%nat.
  by replace (m - min m 5)%nat with 0%nat by lia.
Qed.
Lemma full_bogus k l : (k <= MAX_QUOTES)%nat -> bogus (start_of k 5 ++ l) = true.
Proof.
  intros Hk. assert (quote_depth (start_of k 5 ++ l) = k) as E.
  { unfold start_of. rewrite <- app_assoc, quote_depth_quotes, take_postmark. cbn. lia. }
  unfold bogus, looks_like_postmark. rewrite E. apply andb_true_intro. split; [by apply Nat.leb_le|].
  unfold start_of, bytes_eqb. rewrite <- app_assoc, drop_app_length' by (by rewrite length_replicate). done.
Qed.
Lemma deep_not_bogus l : bogus (replicate MAX_QUOTES c_GT ++ c_GT :: l) = false.
Proof. unfold bogus. apply andb_false_intro1. rewrite quote_depth_quotes. apply Nat.leb_gt. cbn [quote_depth]. rewrite Z.eqb_refl. lia. Qed.
End quoting.

(** * Buffers *)

Section buffers.
Context (q : bytes).

Lemma wrote_nil (w : Writer IoError) : wrote w [] = w.
Proof. unfold wrote. rewrite app_nil_r. by destruct w. Qed.
Lemma wrote_app (w : Writer IoError) a b : wrote (wrote w a) b = wrote w (a ++ b).
Proof. unfold wrote. cbn. by rewrite app_assoc. Qed.
Lemma emit_run l w : willing w -> run (emit l) w = (Ok tt, wrote w l).
Proof. intros Hw. unfold emit. cbn [run]. by rewrite write_all_willing. Qed.
Lemma emit_bind {A} l (f : () -> M (Writer IoError) (bytes * Z) A) w : willing w -> run (emit l ≫= f) w = run (f tt) (wrote w l).
Proof. intros Hw. by rewrite run_bind, emit_run. Qed.

(** A computation that writes what [st] still had to write of a buffer, and leaves
    the state for what comes after it. *)
Definition writes_buffer (st : LineState) (l : bytes) (m : M (Writer IoError) (bytes * Z) LineState) : Prop :=
  forall w, willing w -> exists st' o, run m w = (Ok st', wrote w o) /\ state_ok st' /\ forall more, to_write q st (l ++ more) = o ++ to_write q st' more.
Lemma writes_first st st1 l1 l o1 (m k : M (Writer IoError) (bytes * Z) LineState) :
  (forall more, to_write q st (l ++ more) = o1 ++ to_write q st1 (l1 ++ more)) ->
  writes_buffer st1 l1 k -> m = (_ ← emit o1; k) -> writes_buffer st l m.
Proof.
  intros Ht Hk -> w Hw. destruct (Hk (wrote w o1)) as (st' & o & Hr & Hok & Hm); [done|]. exists st', (o1 ++ o).
  rewrite emit_bind, Hr, wrote_app by done. split; [done|]. split; [done|]. intros more. by rewrite Ht, Hm, app_assoc.
Qed.
Lemma writes_as st st1 l l1 m :
  (forall more, to_write q st (l ++ more) = to_write q st1 (l1 ++ more)) -> writes_buffer st1 l1 m -> writes_buffer st l m.
Proof. intros Ht Hm w Hw. destruct (Hm w Hw) as (st' & o & Hr & Hok & H). exists st', o. split; [done|]. split; [done|]. intros more. by rewrite Ht. Qed.

Definition mid_line : LineState := {| at_line_start := false; line_prefix := [] |}.
Definition line_start (p : bytes) : LineState := {| at_line_start := true; line_prefix := p |}.
Lemma writes_in_line l (rest : bytes -> M (Writer IoError) (bytes * Z) LineState) :
  l <> [] -> (forall k, (length k < length l)%nat -> writes_buffer (line_start []) k (rest k)) ->
  writes_buffer mid_line l
    match position (fun b => b =? c_LF) l with
    | Some pos => _ ← emit (take (S pos) l); rest (drop (S pos) l)
    | None => _ ← emit l; mret mid_line
    end.
Proof.
  intros Hl Hrest. destruct (position (fun b => b =? c_LF) l) as [pos|] eqn:E.
  - eapply (writes_first _ (line_start []) (drop (S pos) l)); [|apply Hrest; rewrite length_drop; destruct l; [done|cbn; lia]|done].
    intros more. unfold to_write. cbn [at_line_start mid_line line_start line_prefix app]. unfold rest_of_line, after_line.
    rewrite (position_app_line l more pos E). apply position_Some in E as (pre & x & post & -> & <- & _).
    by rewrite !take_app_le, !drop_app_le by (rewrite length_app; cbn; lia).
  - eapply (writes_first _ mid_line [] l l _ (mret mid_line)); [|intros w Hw; exists mid_line, []; rewrite wrote_nil; split; [done|]; split; done|done].
    intros more. unfold to_write. cbn [at_line_start mid_line app].
    assert (no_newline l) as Hn by (apply position_None in E; done). destruct (line_app_open l more Hn) as [-> ->]. by rewrite app_assoc.
Qed.
(** A start of a line that turns out to be no postmark. *)
Lemma leaves_start p l :
  no_newline p -> l <> [] -> (forall k, bogus (p ++ rest_of_line (l ++ k)) = false) ->
  forall more, to_write q (line_start p) (l ++ more) = p ++ to_write q mid_line (l ++ more).
Proof.
  intros Hp Hl Hb more. unfold to_write. cbn [at_line_start line_start mid_line line_prefix]. destruct (decide (p = [])) as [->|Hn].
  - cbn [app]. rewrite escape_text_first. specialize (Hb more). cbn [app] in Hb. destruct (l ++ more) eqn:E; [by apply app_eq_nil in E as [? _]|].
    unfold escape_line. by rewrite Hb.
  - rewrite escape_open by done. unfold escape_line. by rewrite Hb, app_assoc.
Qed.
(** A start of a line that is complete. *)
Lemma writes_postmark k rest (next : M (Writer IoError) (bytes * Z) LineState) :
  (k <= MAX_QUOTES)%nat -> writes_buffer mid_line rest next ->
  writes_buffer (line_start (start_of k 5)) rest (_ ← emit q; _ ← emit (start_of k 5); next).
Proof.
  intros Hk Hnext w Hw. destruct (Hnext (wrote (wrote w q) (start_of k 5))) as (st' & o & Hr & Hok & Hm); [done|]. exists st', (q ++ start_of k 5 ++ o).
  rewrite !emit_bind, Hr, !wrote_app by done. split; [done|]. split; [done|]. intros more. specialize (Hm more). unfold to_write at 1.
  cbn [at_line_start line_start line_prefix]. rewrite escape_open by (apply start_of_open || by rewrite <- length_zero_iff_nil, length_start_of by lia; lia).
  unfold escape_line. rewrite full_bogus by done. unfold to_write at 1 in Hm. cbn [at_line_start mid_line] in Hm. by rewrite <- !app_assoc, Hm.
Qed.
Lemma rest_of_line_cons b l : exists k, rest_of_line (b :: l) = b :: k.
Proof. unfold rest_of_line. cbn [position]. destruct (b =? c_LF); [by eexists|]. destruct (position _ l); by eexists. Qed.

Lemma escape_buffer_writes fuel l st : (length l <= fuel)%nat -> state_ok st -> writes_buffer st l (escape_buffer q fuel l st).
Proof.
  revert l st. induction fuel as [|fuel IH]; intros l st Hf Hst.
  { destruct l; [|cbn in Hf; lia]. intros w Hw. exists st, []. rewrite wrote_nil. split; [done|]. by split. }
  destruct l as [|byte rest]; [intros w Hw; exists st, []; rewrite wrote_nil; split; [done|]; by split|].
  assert (forall more, rest_of_line ((byte :: rest) ++ more) = byte :: tail (rest_of_line (byte :: rest ++ more))) as Hcons.
  { intros more. cbn [app]. by destruct (rest_of_line_cons byte (rest ++ more)) as [k ->]. }
  assert (writes_buffer mid_line (byte :: rest)
    match position (fun b => b =? c_LF) (byte :: rest) with
    | Some pos => _ ← emit (take (S pos) (byte :: rest)); escape_buffer q fuel (drop (S pos) (byte :: rest)) (line_start [])
    | None => _ ← emit (byte :: rest); mret mid_line
    end) as Hin.
  { apply (writes_in_line (byte :: rest) (fun k => escape_buffer q fuel k (line_start []))); [done|]. intros k Hk. apply IH; [cbn in Hk, Hf; lia|].
    exists 0%nat, 0%nat. split; [unfold MAX_QUOTES; lia|]. split; [lia|done]. }
  cbn [escape_buffer]. unfold state_ok in Hst. destruct st as [start p]. cbn [at_line_start line_prefix] in *. destruct start; [|subst p; exact Hin].
  destruct Hst as (k & m & Hk & Hm & ->). rewrite depth_start_of, length_start_of by lia.
  destruct ((k =? k + m)%nat && (byte =? c_GT)) eqn:Egt.
  - apply andb_prop in Egt as [Em Eb]. apply Nat.eqb_eq in Em. apply Z.eqb_eq in Eb as ->. assert (m = 0%nat) as -> by lia. rewrite Nat.add_0_r.
    assert (forall a, start_of a 0 = replicate a c_GT) as Hq by (intros a; apply app_nil_r). rewrite Hq.
    destruct (k <? MAX_QUOTES)%nat eqn:Elt.
    + apply Nat.ltb_lt in Elt. apply (writes_as _ (line_start (replicate k c_GT ++ [c_GT])) _ rest).
      { intros more. unfold to_write. cbn [at_line_start line_start line_prefix]. by rewrite <- app_assoc. }
      apply IH; [cbn in Hf; lia|]. exists (S k), 0%nat. split; [lia|]. split; [lia|]. by rewrite Hq, replicate_S_end.
    + apply Nat.ltb_ge in Elt. assert (k = MAX_QUOTES) as -> by lia. eapply (writes_first _ mid_line); [|exact Hin|done].
      apply leaves_start; [by apply Forall_replicate|done|]. intros more. rewrite Hcons. apply deep_not_bogus.
  - replace (k + m - k)%nat with m by lia. case_bool_decide as Ebyte.
    + assert (start_of k m ++ [byte] = start_of k (S m)) as Enext.
      { unfold start_of. by rewrite <- app_assoc, <- (take_S_r FROM m byte Ebyte). }
      rewrite Enext, length_start_of by lia. replace (k + S m - k)%nat with (S m) by lia. change (length FROM) with 5%nat.
      assert (forall more, to_write q (line_start (start_of k m)) ((byte :: rest) ++ more) = to_write q (line_start (start_of k (S m))) (rest ++ more)) as Hnext.
      { intros more. unfold to_write. cbn [at_line_start line_start line_prefix]. by rewrite <- Enext, <- app_assoc. }
      destruct (S m =? 5)%nat eqn:E5.
      * apply Nat.eqb_eq in E5. assert (m = 4%nat) as -> by lia. apply (writes_as _ _ _ _ _ Hnext).
        apply writes_postmark; [done|]. apply IH; [cbn in Hf; lia|done].
      * apply Nat.eqb_neq in E5. apply (writes_as _ _ _ _ _ Hnext). apply IH; [cbn in Hf; lia|]. exists k, (S m). split; [done|]. split; [lia|done].
    + assert (forall more, to_write q (line_start (start_of k m)) ((byte :: rest) ++ more) = start_of k m ++ to_write q mid_line ((byte :: rest) ++ more)) as Hleave.
      { apply leaves_start; [apply start_of_open|done|]. intros more. rewrite Hcons. apply not_bogus; [done| |done].
        intros -> ->. by rewrite Nat.add_0_r, Nat.eqb_refl, Z.eqb_refl in Egt. }
      case_bool_decide as En; [|eapply (writes_first _ mid_line); [exact Hleave|exact Hin|done]].
      apply (writes_as _ mid_line _ (byte :: rest)); [|exact Hin]. intros more. etransitivity; [apply Hleave|by rewrite En].
Qed.

(** * The whole body *)

Lemma to_write_end st : state_ok st -> to_write q st [] = line_prefix st.
Proof.
  unfold state_ok, to_write. destruct st as [[] p]; cbn [at_line_start line_prefix]; [|by intros ->]. intros (k & m & Hk & Hm & ->).
  destruct (decide (start_of k m = [])) as [E|E]; [by rewrite E|]. rewrite escape_open by (done || apply start_of_open).
  change (rest_of_line []) with (@nil byte). change (after_line []) with (@nil byte). rewrite !app_nil_r. unfold escape_line, bogus, looks_like_postmark.
  rewrite depth_start_of. unfold start_of at 1. rewrite drop_app_length' by (by rewrite length_replicate). unfold bytes_eqb.
  rewrite bool_decide_eq_false_2, andb_false_r; [done|]. intros H. apply (f_equal length) in H. rewrite !length_take in H. change (length FROM) with 5%nat in H. lia.
Qed.
Lemma output_run {A} (m : M (Writer IoError) (bytes * Z) A) r w : run (to_output m) (r, w) = let '(a, w') := run m w in (a, (r, w')).
Proof. done. Qed.
Lemma escape_body_run fuel r w l st :
  contents r l -> (buffers r < fuel)%nat -> willing w -> state_ok st ->
  exists r', run (escape_body q fuel st) (r, w) = (Ok tt, (r', wrote w (to_write q st l))) /\ contents r' [].
Proof.
  revert r w l st. induction fuel as [|fuel IH]; intros r w l st Hc Hf Hw Hst; [lia|]. cbn [escape_body]. rewrite run_bind.
  destruct (fill_buf_spec r l Hc) as (available & r1 & Hfill & Hb & Hc1 & Hnil & Hle). unfold lend at 1. cbn [run fst snd]. rewrite Hfill. cbn [run].
  destruct available as [|b available].
  - rewrite (proj1 Hnil eq_refl) in *. rewrite to_write_end by done. exists r1. split; [|done].
    case_bool_decide as E; [by rewrite E, wrote_nil|]. by rewrite output_run, emit_run.
  - set (chunk := b :: available) in *. rewrite run_bind, output_run.
    destruct (escape_buffer_writes (length chunk) chunk st (le_n _) Hst w Hw) as (st' & o & Hr & Hst' & Hm). rewrite Hr, run_bind.
    unfold consumed. rewrite run_modify. cbn [fst snd].
    destruct Hc1 as (chunks & Hi & Hne & El). rewrite Hb in El.
    assert (contents (consume r1 (length chunk)) (concat chunks)) as Hc2.
    { exists chunks. split; [done|]. split; [done|]. cbn [consume buffer]. by rewrite Hb, drop_all. }
    destruct (IH (consume r1 (length chunk)) (wrote w o) (concat chunks) st' Hc2) as (r2 & Hrun & Hc3); [|done|done|].
    + unfold buffers in *. cbn [consume incoming buffer]. rewrite Hb, drop_all in *. subst chunk. cbn in Hle, Hf |- *. lia.
    + exists r2. rewrite Hrun, wrote_app, El, Hm. done.
Qed.
Lemma copy_run fuel r w l :
  contents r l -> (buffers r < fuel)%nat -> willing w -> exists r', run (copy fuel) (r, w) = (Ok tt, (r', wrote w l)) /\ contents r' [].
Proof.
  revert r w l. induction fuel as [|fuel IH]; intros r w l Hc Hf Hw; [lia|]. cbn [copy]. rewrite run_bind.
  destruct (fill_buf_spec r l Hc) as (available & r1 & Hfill & Hb & Hc1 & Hnil & Hle). unfold lend at 1. cbn [run fst snd]. rewrite Hfill. cbn [run].
  destruct available as [|b available]; [rewrite (proj1 Hnil eq_refl) in *; exists r1; by rewrite wrote_nil|].
  set (chunk := b :: available) in *. rewrite run_bind, output_run, emit_run by done. rewrite run_bind. unfold consumed. rewrite run_modify. cbn [fst snd].
  destruct Hc1 as (chunks & Hi & Hne & El). rewrite Hb in El.
  destruct (IH (consume r1 (length chunk)) (wrote w chunk) (concat chunks)) as (r2 & Hrun & Hc3); [| |done|].
  - exists chunks. split; [done|]. split; [done|]. cbn [consume buffer]. by rewrite Hb, drop_all.
  - unfold buffers in *. cbn [consume incoming buffer]. rewrite Hb, drop_all in *. subst chunk. cbn in Hle, Hf |- *. lia.
  - exists r2. by rewrite Hrun, wrote_app, El.
Qed.
Lemma stream_body_run escape r w l :
  contents r l -> willing w ->
  exists r', run (stream_body q escape) (r, w) = (Ok tt, (r', wrote w (if escape then escape_text q l else l))) /\ contents r' [].
Proof.
  intros Hc Hw. unfold stream_body. cbn [run fst]. assert (buffers r < S (pending r))%nat as Hf by (pose proof (buffers_pending r); lia).
  destruct escape; [|by apply copy_run]. apply (escape_body_run _ r w l (line_start [])); [done..|].
  exists 0%nat, 0%nat. split; [unfold MAX_QUOTES; lia|]. split; [lia|done].
Qed.

(** C20: The body that formail-rs streams is the text with its lines quoted.  Whatever
    the pieces in which the input arrives - a line, the [>] it begins with, or the word
    [From] can be cut anywhere - the whole of it is read and written, the prefix being
    put before the lines that begin with up to 1024 [>] and then a postmark, and
    before no other; without quoting the body is passed as it is. *)
Theorem stream_body_exact escape r w l :
  contents r l -> willing w ->
  exists r', run (stream_body q escape) (r, w) = (Ok tt, (r', wrote w (if escape then escape_text q l else l))) /\ contents r' [].
Proof. exact (stream_body_run escape r w l). Qed.
End buffers.

(** * The text that comes out *)

Lemma escape_lines q l : no_newline q -> lines (escape_text q l) = escape_line q <$> lines l.
Proof.
  intros Hq. unfold escape_text. destruct (last_line l) as (a & k & -> & Ha & Hk).
  assert (Forall is_line (lines a)) as Hls by (destruct Ha as [->|Ha]; [constructor|by apply lines_are_lines]).
  assert (lines (a ++ k) = lines a ++ lines k) as -> by (destruct Ha as [->|Ha]; [done|by apply lines_app]).
  assert (forall k, no_newline k -> no_newline (escape_line q k)) as Hopen.
  { intros k' Hk'. unfold escape_line. destruct (bogus k'); [|done]. by apply Forall_app. }
  assert (Forall is_line (escape_line q <$> lines a)) as He.
  { apply Forall_fmap. eapply Forall_impl; [exact Hls|]. intros line (k' & Hk' & ->). unfold escape_line. cbn. destruct (bogus _); [|by exists k'].
    exists (q ++ k'). split; [by apply Forall_app|by rewrite app_assoc]. }
  rewrite fmap_app, concat_app. destruct (decide (k = [])) as [->|Hn]; [cbn [fmap list_fmap lines concat]; rewrite !app_nil_r; by apply lines_concat|].
  rewrite (lines_open k) by done. cbn [fmap list_fmap concat]. rewrite app_nil_r.
  assert (escape_line q k <> []) as Hne by (unfold escape_line; destruct (bogus k); [by intros [_ ?]%app_eq_nil|done]).
  rewrite <- (lines_open _ (Hopen k Hk) Hne). destruct (decide (lines a = [])) as [->|Ha']; [done|].
  assert (ended (concat (escape_line q <$> lines a))) as Hend by (apply ended_concat; [done|by intros ?%fmap_nil_inv]).
  by rewrite (lines_app _ (escape_line q k) Hend), (lines_concat _ He).
Qed.
Lemma escape_is_quote line : (quote_depth line <= MAX_QUOTES)%nat -> escape_line [c_GT] line = quote_line line.
Proof. intros H. unfold escape_line, bogus, quote_line. by rewrite (proj2 (Nat.leb_le _ _) H). Qed.

(** No line of a streamed body is taken for the postmark of a message.  With a prefix
    that is a part of a line and does not begin as a postmark, no line that comes out
    begins with one, so that a mailbox is divided where its messages are.  With the
    prefix [>], which is the default, the lines that come out are those that a delivery
    to a mailbox writes, unless one has more than 1024 [>], and taking one [>] off the
    quoted lines gives the body back. *)
Theorem streamed_body_divides q r w l :
  contents r l -> willing w -> no_newline q -> q <> [] -> head q <> head FROM ->
  exists r' out, run (stream_body q true) (r, w) = (Ok tt, (r', wrote w out)) /\ Forall (fun line => is_postmark_line line = false) (lines out) /\
    (q = [c_GT] -> Forall (fun line => (quote_depth line <= MAX_QUOTES)%nat) (lines l) ->
     out = concat (quote_line <$> lines l) /\ concat (unquote_line <$> lines out) = l).
Proof.
  intros Hc Hw Hq Hn Hh. destruct (stream_body_run q true r w l Hc Hw) as (r' & Hr & _). exists r', (escape_text q l). split; [done|].
  rewrite escape_lines by done. split.
  - apply Forall_fmap, Forall_forall. intros line _. cbn. unfold escape_line. destruct (bogus line) eqn:E.
    + destruct q as [|b q]; [done|]. apply not_true_iff_false. intros [k E']%starts_with_true. injection E' as -> _. by apply Hh.
    + apply not_true_iff_false. intros H. apply postmark_line_looks in H as Hl. apply andb_false_iff in E as [E|E]; [|congruence].
      apply starts_with_true in H as [k ->]. apply Nat.leb_gt in E. change (quote_depth (FROM ++ k)) with 0%nat in E. lia.
  - intros -> Hd. assert (escape_line [c_GT] <$> lines l = quote_line <$> lines l) as Hq'.
    { apply list_fmap_ext. intros i line Hi. apply escape_is_quote. exact (Forall_lookup_1 _ _ _ _ Hd Hi). }
    unfold escape_text. rewrite Hq'. split; [done|]. rewrite <- list_fmap_compose. transitivity (concat (lines l)); [|apply concat_lines]. f_equal.
    rewrite <- (list_fmap_id (lines l)) at 2. apply list_fmap_ext. intros i line _. apply unquote_quote.
Qed.

(** A body whose pieces cut the postmarks it has. *)
Definition body_reader : Reader IoError := {| buffer := B "a" ++ [c_LF] ++ B ">Fr"; incoming := [Ok (B "om b" ++ [c_LF] ++ B "Fro"); Ok (B "m" ++ [c_LF] ++ B "From "); Ok (B "me")] |}.
Definition body_text : bytes := B "a" ++ [c_LF] ++ B ">From b" ++ [c_LF] ++ B "From" ++ [c_LF] ++ B "From me".
Definition quoted_text : bytes := B "a" ++ [c_LF] ++ B ">>From b" ++ [c_LF] ++ B "From" ++ [c_LF] ++ B ">From me".
Lemma body_contents : contents body_reader body_text.
Proof. exists [B "om b" ++ [c_LF] ++ B "Fro"; B "m" ++ [c_LF] ++ B "From "; B "me"]. split; [done|]. split; [by repeat constructor|done]. Qed.
Lemma stream_body_exact_witness :
  exists r', run (stream_body [c_GT] true) (body_reader, sink) = (Ok tt, (r', wrote sink quoted_text)) /\ contents r' [].
Proof.
  assert (quoted_text = escape_text [c_GT] body_text) as -> by (by vm_compute).
  exact (stream_body_exact [c_GT] true body_reader sink body_text body_contents (sink_willing)).
Defined.
Lemma streamed_body_divides_witness :
  exists r' out, run (stream_body [c_GT] true) (body_reader, sink) = (Ok tt, (r', wrote sink out)) /\ Forall (fun line => is_postmark_line line = false) (lines out) /\
    concat (unquote_line <$> lines out) = body_text.
Proof.
  destruct (streamed_body_divides [c_GT] body_reader sink body_text body_contents sink_willing) as (r' & out & H1 & H2 & H3);
    [by constructor|done|done|]. exists r', out. split; [exact H1|]. split; [exact H2|]. apply H3; [done|].
  assert (forallb (fun line => quote_depth line <=? MAX_QUOTES)%nat (lines body_text) = true) as E by (by vm_compute).
  apply Forall_forall. intros line Hl. apply Nat.leb_le. eapply forallb_forall in E; [exact E|by apply list_elem_of_In].
Defined.

(** * The command line *)

Lemma option_value_args option rest args value args' :
  option_value option rest args = Ok (value, args') -> (length args' <= length args)%nat.
Proof. destruct rest as [|b rest], args as [|a args]; cbn; try done; intros [= _ <-]; cbn; lia. Qed.
Lemma parse_letters_args letters o args parsed args' :
  parse_letters letters o args = Ok (parsed, args') -> (length args' <= length args)%nat.
Proof.
  revert o. induction letters as [|c letters IH]; intros o; [by intros [= _ <-]|]. cbn [parse_letters].
  assert (forall option (k : bytes * list bytes -> result Failure (Parsed * list bytes)) parsed,
    (forall v args1, k (v, args1) = Ok (parsed, args') -> (length args' <= length args1)%nat) ->
    (p ← option_value option letters args; k p) = Ok (parsed, args') -> (length args' <= length args)%nat) as Hvalue.
  { intros option k p Hk ([v args1] & Hv%option_value_args & H)%result_bind_Ok. apply Hk in H. lia. }
  repeat (case_match; [first [by apply IH|by intros [= _ <-]|apply Hvalue; intros v args1; repeat case_match; intros; simplify_eq; cbn; lia]|]).
  done.
Qed.
(** Every round of the command line takes an argument, so that one round for each
    argument reads all of it: more rounds change nothing. *)
Theorem command_line_read fuel args o : (length args <= fuel)%nat -> parse_arguments fuel args o = parse_arguments (length args) args o.
Proof.
  enough (forall fuel n args o, (length args <= fuel)%nat -> (length args <= n)%nat -> parse_arguments fuel args o = parse_arguments n args o) as H
    by (intros Hf; by apply H). clear. induction fuel as [|fuel IH]; intros n args o Hf Hn; [destruct args; [by destruct n|cbn in Hf; lia]|].
  destruct args as [|arg args]; [by destruct n|]. destruct n as [|n]; [cbn in Hn; lia|]. cbn [parse_arguments].
  repeat (case_match; [done|]). destruct (parse_letters (drop 1 arg) o args) as [[[o'| |] args']|e] eqn:E; cbn [mbind result_bind]; try done.
  apply parse_letters_args in E. apply IH; cbn in *; lia.
Qed.
