(* ===== verification/HeaderPlan.v ===== *)
(** Planning: [src/src/eval/header.rs].  A plan selects deliveries either from a
    complete message or from the header alone.  Header planning stops where an
    answer needs the message, and leaves frames from which [resume] goes on.

    Sequences are run by their recipes; a block and a loaded file are entered
    through a function for the level below, and [levels] bounds that nesting
    ([HeaderPlanFacts] shows how much is enough).  Trace records are left out. *)
From stdpp Require Import gmap pretty.
From S2P Require Import Prelude Numbers Config Limits Utf8 HeaderValue Variables Runtime Settings ShellPattern ShellEval ExprParser Expand Effects.
From S2P Require Import HeaderFields HeaderStore EditedHeader HeaderEdit StructuredHeader Message EvalMessage Mime Binding Conditions Plan RcFile RuntimeRc.
#[local] Open Scope Z_scope.

(** * Plans *)

(** Source: eval/result.rs `pub(super) enum DeliveryContinuation` *)
Inductive DeliveryContinuation := DC_Stop | DC_Continue.
(** Source: eval/result.rs `pub struct PlannedDelivery` *)
Record PlannedDelivery := {
  pd_destination : Destination; pd_continuation : DeliveryContinuation; pd_output_ending : OutputEnding;
  pd_lock : option bytes; pd_umask : Z; pd_status : MessageStatus;
}.
(** Source: eval/result.rs `pub fn is_copy` *)
Definition is_copy (d : PlannedDelivery) : bool := match pd_continuation d with DC_Continue => true | DC_Stop => false end.
(** Source: eval/result.rs `pub struct DeliveryPlan` *)
Record DeliveryPlan := { dp_deliveries : list PlannedDelivery; dp_original_delivered : bool }.
(** Source: eval/header.rs `pub(super) struct FanoutPlanState` *)
Record FanoutPlanState := { fp_deliveries : list PlannedDelivery; fp_original_delivered : bool }.
Definition empty_fanout : FanoutPlanState := {| fp_deliveries := []; fp_original_delivered := false |}.

(** Source: eval/result.rs `pub(super) struct ContinuationFrame` *)
Record ContinuationFrame := {
  recipe_index : nat; frame_state : SequenceState; condition_results : list (option bool); assignments_applied : bool;
}.
(** Source: eval/result.rs `pub struct Continuation` *)
Record Continuation := {
  ct_frames : list ContinuationFrame; ct_execution : FanoutPlanState; ct_runtime : RuntimeVariables;
  ct_requirements : InputRequirements; ct_restart : bool;
}.
(** Source: eval/result.rs `pub enum HeaderEvaluation` *)
Inductive HeaderEvaluation := HE_Decided (plan : DeliveryPlan) | HE_NeedsMessage (c : Continuation).
(** Source: eval/header.rs `pub(super) enum HeaderControl` *)
Inductive HeaderControl := HC_Continue | HC_Stop | HC_EndRcFile | HC_Deferred.
(** Source: eval/header.rs `fn from(control` *)
Definition header_control (c : SequenceControl) : HeaderControl :=
  match c with SC_Continue => HC_Continue | SC_Stop => HC_Stop | SC_EndRcFile => HC_EndRcFile | SC_SequenceComplete => HC_Deferred end.
#[export] Instance HeaderControl_eq_dec : EqDecision HeaderControl.
Proof. solve_decision. Defined.

(** Source: eval/result.rs `pub enum DeliveryAttemptError` *)
Inductive DeliveryAttemptError (D : Type) := Recoverable (e : D) | Fatal (e : D).
Arguments Recoverable {D} _.
Arguments Fatal {D} _.

(** Source: eval.rs `fn runtime_setting_eval_error` *)
Definition runtime_setting_eval_error (e : RuntimeSettingError) : EvalError := E_RuntimeSettingUnavailable (default 0%nat (rse_line e)) (rse_name e).

Section planning.
Context {T : Target} {R : RegexEngine} {X : ConditionExpander} {L D : Type} {loader_impl : RuntimeRcLoader L}.

(** Source: eval/ordered.rs `pub(super) fn active_command_value_limit` *)
Definition active_command_value_limit (runtime : RuntimeVariables) (target : AssignmentTarget) (line : nat) : result (stop EvalError D) Z :=
  linebuf ← map_err (fun e => Evaluation (runtime_setting_eval_error e)) (linebuf (settings_at_line runtime line));
  Ok (Z.min linebuf (value_limit target)).

(** Source: eval/header.rs `fn plan_delivery` *)
Definition plan_delivery (n : CompiledNode) (message_status : MessageStatus) (runtime : RuntimeVariables) (execution : FanoutPlanState)
    (error_handler : bool) : result EvalError (SequenceControl * FanoutPlanState) :=
  match node_action n with
  | CA_Deliver destination continuation output_ending =>
      destination ← map_err E_Expansion (bind_with destination (get runtime));
      lock ← map_err E_Expansion (resolve_lock n runtime);
      let copy := bool_decide (continuation = CM_Continue) in
      umask ← map_err runtime_setting_eval_error (umask (settings_at_line runtime (node_line n)));
      let delivery := {| pd_destination := destination; pd_continuation := if copy then DC_Continue else DC_Stop;
                         pd_output_ending := output_ending; pd_lock := lock; pd_umask := umask; pd_status := message_status |} in
      Ok (if copy || error_handler then SC_Continue else SC_Stop,
          {| fp_deliveries := fp_deliveries execution ++ [delivery];
             fp_original_delivered := fp_original_delivered execution || negb copy |})
  | _ => Ok (SC_Continue, execution)
  end.

(** Source: eval/header.rs `fn delivery_defers_header` *)
Definition delivery_defers_header (n : CompiledNode) (capture_available : bool) : bool :=
  match node_action n with
  | CA_Pipe _ _ => true
  | CA_Capture _ options => negb capture_available || negb (bool_decide (action_input options = AI_Headers))
  | CA_Deliver destination _ _ => needs_runtime_variables destination || requires_ordered_delivery destination
  | CA_Block _ | CA_Headers _ => false
  end.

(** * Planning with the complete message *)

(** Source: eval/header.rs `struct CompletePlanContext` *)
Record CompleteState := { cp_runtime : RuntimeVariables; cp_execution : FanoutPlanState; cp_rc : @RuntimeRcState R L }.
Abbreviation Planning := (M CompleteState (stop EvalError D)) (only parsing).

Definition with_runtime (r : RuntimeVariables) (s : CompleteState) : CompleteState :=
  {| cp_runtime := r; cp_execution := cp_execution s; cp_rc := cp_rc s |}.
Definition with_execution (e : FanoutPlanState) (s : CompleteState) : CompleteState :=
  {| cp_runtime := cp_runtime s; cp_execution := e; cp_rc := cp_rc s |}.
Definition with_rc (rc : RuntimeRcState) (s : CompleteState) : CompleteState :=
  {| cp_runtime := cp_runtime s; cp_execution := cp_execution s; cp_rc := rc |}.
Definition delivered (e : FanoutPlanState) : FanoutPlanState :=
  {| fp_deliveries := fp_deliveries e; fp_original_delivered := true |}.

Definition on_runtime {A} (m : M RuntimeVariables (stop EvalError D) A) : Planning A := on cp_runtime with_runtime m.
Definition evaluated {A} (r : result EvalError A) : Planning A := of_result (map_err Evaluation r).
(** [include.enter] and [switch.enter]. *)
Definition enter (kind : RcStatementKind) (e : RcFileExpression) (rc : RcExecutionContext) : Planning EnteredRuntimeRc :=
  Comp (fun s =>
    let '(r, rc_state) := run (enter_runtime_rc kind e rc (cp_runtime s)) (cp_rc s) in (map_err Evaluation r, with_rc rc_state s)).

Section complete.
Context (message : CompleteMessage).
(** The sequences of the level below. *)
Context (plan_below : CompiledSequence -> RcExecutionContext -> Planning SequenceControl).

(** Source: eval/header.rs `fn execute_runtime_rc@1` *)
Definition execute_runtime_rc (sequence : CompiledSequence) (path : bytes) (child : RcExecutionContext) : Planning SequenceControl :=
  caller ← Comp (fun s => let '(runtime, caller) := replace_current_rc_file (cp_runtime s) (Some path) in (Ok caller, with_runtime runtime s));
  always (plan_below sequence child) (fun s => with_runtime (replace_current_rc_file (cp_runtime s) caller).1 s).

(** Source: eval/header.rs:858-908 `plan_statements_complete (loop body)` *)
Definition plan_statement_complete (rc : RcExecutionContext) (s : CompiledStatement) : Planning SequenceControl :=
  match s with
  | CSt_CommandAssignment a => stop_with (Evaluation (E_ExternalActionUnsupported (loc_line (cca_location a))))
  | CSt_Assignment a => _ ← on_runtime (run_assignment a); mret SC_Continue
  | CSt_Unset u => _ ← modify (fun s => with_runtime (execute_unset u (cp_runtime s)) s); mret SC_Continue
  | CSt_Host a =>
      here ← on_runtime (execute_host_assignment a);
      if here : bool then mret SC_Continue
      else _ ← modify (fun s => with_execution (delivered (cp_execution s)) s); mret SC_EndRcFile
  | CSt_Include e =>
      entered ← enter RK_Include e rc;
      found ← evaluated (entered_sequence entered);
      match found with
      | None => mret SC_Continue
      | Some (sequence, path, child) =>
          control ← execute_runtime_rc sequence path child;
          mret (match control with SC_Stop => SC_Stop | _ => SC_Continue end)
      end
  | CSt_Switch e =>
      entered ← enter RK_Switch e rc;
      if entered_is_empty entered then mret SC_EndRcFile
      else
        found ← evaluated (entered_sequence entered);
        match found with
        | None => mret SC_Continue
        | Some (sequence, path, child) =>
            control ← execute_runtime_rc sequence path child;
            mret (match control with SC_Stop => SC_Stop | _ => SC_EndRcFile end)
        end
  end.
(** Source: eval/header.rs `fn plan_statements_complete` *)
Fixpoint plan_statements_complete (rc : RcExecutionContext) (ss : list CompiledStatement) : Planning SequenceControl :=
  match ss with
  | [] => mret SC_Continue
  | s :: rest =>
      control ← plan_statement_complete rc s;
      match control with SC_Continue => plan_statements_complete rc rest | other => mret other end
  end.

(** Source: eval/header.rs `fn plan_action` *)
Definition plan_action (n : CompiledNode) (rc : RcExecutionContext) (error_handler : bool) : Planning SequenceControl :=
  match node_action n with
  | CA_Pipe _ _ | CA_Capture _ _ => stop_with (Evaluation (E_ExternalActionUnsupported (node_line n)))
  | CA_Deliver _ _ _ =>
      Comp (fun s =>
        match plan_delivery n (complete_status message) (cp_runtime s) (cp_execution s) error_handler with
        | Ok (control, execution) => (Ok control, with_execution execution s)
        | Err e => (Err (Evaluation e), s)
        end)
  | CA_Block children =>
      if bool_decide (is_Some (node_lock n)) then stop_with (Evaluation (E_LocalLockExecutorUnavailable (node_line n)))
      else plan_below children rc
  | CA_Headers _ => stop_with (Evaluation (E_HeaderActionUnsupported (node_line n)))
  end.

(** The action of a recipe whose conditions were decided, and the state after
    it. *)
Definition decide_recipe (s : CompiledSequence) (rc : RcExecutionContext) (index : nat) (n : CompiledNode) (state : SequenceState)
    (matched : bool) : Planning (SequenceControl * SequenceState) :=
  control ← (if matched then plan_action n rc (has_error_handler s index) else mret SC_Continue);
  mret (control, record state (node_control n) matched (if matched then Succeeded else NotAttempted)
                   (else_handled (node_control n) state matched)).

(** The loop of [plan_complete_from] and what follows it.
    Source: eval/header.rs `fn plan_complete_from` *)
Fixpoint plan_recipes_complete (s : CompiledSequence) (rc : RcExecutionContext) (index : nat) (rs : list CompiledNode) (state : SequenceState)
    : Planning SequenceControl :=
  match rs with
  | [] => plan_statements_complete rc (trailing_statements s)
  | n :: rest =>
      control ← plan_statements_complete rc (preceding_statements n);
      match control with
      | SC_Continue =>
          matched ← (if planning_gate (node_control n) state then on_runtime (node_matches_complete n message) else mret false);
          '(control, state) ← decide_recipe s rc index n state matched;
          match control with SC_Continue => plan_recipes_complete s rc (S index) rest state | other => mret other end
      | other => mret other
      end
  end.
Definition plan_complete_from (s : CompiledSequence) (rc : RcExecutionContext) (index : nat) (state : SequenceState) : Planning SequenceControl :=
  plan_recipes_complete s rc index (drop index (recipes s)) state.
End complete.

(** Source: eval/header.rs `fn plan_complete<T` *)
Fixpoint plan_complete (levels : nat) (message : CompleteMessage) (s : CompiledSequence) (rc : RcExecutionContext) : Planning SequenceControl :=
  match levels with
  | O => stop_with OutOfFuel
  | S levels' => plan_complete_from message (plan_complete levels' message) s rc 0 initial_state
  end.

(** * Going on from the header's frames *)

(** Source: eval/header.rs `fn matches_resumed` *)
Fixpoint conditions_match_resumed (cs : list CompiledCondition) (message : CompleteMessage) (results : list (option bool))
    : M RuntimeVariables (stop EvalError D) bool :=
  match cs with
  | [] => mret true
  | c :: rest =>
      matched ← match mjoin (head results) with
                | Some matched => mret matched
                | None => conditions_match_complete [c] message
                end;
      if matched : bool then conditions_match_resumed rest message (tail results) else mret false
  end.

Section resume.
Context (levels : nat) (message : CompleteMessage).

(** The deepest pending recipe, and the recipe a block is pending in.
    Source: eval/header.rs `fn resume_from_frames` *)
Fixpoint resume_from_frames (frames : list ContinuationFrame) (s : CompiledSequence) (rc : RcExecutionContext) : Planning SequenceControl :=
  match frames with
  | [] => stop_with (Evaluation E_BodyWasNotBuffered)
  | frame :: deeper =>
      match recipes s !! recipe_index frame with
      | None => stop_with (Evaluation E_BodyWasNotBuffered)
      | Some n =>
          control ← (if assignments_applied frame then mret SC_Continue else on_runtime (execute_statements (preceding_statements n)));
          match control with
          | SC_Continue =>
              '(matched, control) ←
                match deeper with
                | _ :: _ =>
                    match node_action n with
                    | CA_Block children => control ← resume_from_frames deeper children rc; mret (true, control)
                    | _ => stop_with (Evaluation E_BodyWasNotBuffered)
                    end
                | [] =>
                    matched ← (if planning_gate (node_control n) (frame_state frame)
                               then on_runtime (conditions_match_resumed (node_conditions n) message (condition_results frame)) else mret false);
                    control ← (if matched : bool
                               then plan_action message (plan_complete levels message) n rc (has_error_handler s (recipe_index frame))
                               else mret SC_Continue);
                    mret (matched, control)
                end;
              match control with
              | SC_Continue =>
                  plan_complete_from message (plan_complete levels message) s rc (S (recipe_index frame))
                    (record (frame_state frame) (node_control n) matched (if matched : bool then Succeeded else NotAttempted)
                       (else_handled (node_control n) (frame_state frame) matched))
              | other => mret other
              end
          | other => mret other
          end
      end
  end.
End resume.

Definition delivery_plan (e : FanoutPlanState) : DeliveryPlan :=
  {| dp_deliveries := fp_deliveries e; dp_original_delivered := fp_original_delivered e |}.

(** The input is the message as it was staged.
    Source: eval/header.rs `pub(super) fn resume_input` *)
Definition resume (levels : nat) (p : ExecutionPlan) (c : Continuation) (input : MappedMessageInput) (rc : @RuntimeRcState R L)
    : result (stop EvalError D) (DeliveryPlan * CompleteState) :=
  message ← ok_or (Evaluation E_BodyWasNotBuffered) (complete_message input (plan_needs_full_matching p rc));
  if bool_decide (ct_frames c = []) && negb (ct_restart c) then Err (Evaluation E_BodyWasNotBuffered)
  else
    let state := {| cp_runtime := ct_runtime c; cp_execution := ct_execution c; cp_rc := rc |} in
    let '(r, state) :=
      if ct_restart c then run (plan_complete levels message (root p) root_context) (with_rc (reset_transitions rc) state)
      else run (resume_from_frames levels message (ct_frames c) (root p) root_context) state in
    _ ← r;
    Ok (delivery_plan (cp_execution state), state).

(** * Planning with the header *)

Section headers.
(** The executor of header captures and its state. *)
Context {K : Type}.
Definition CaptureExecutor : Type :=
  bytes -> bytes -> OutputEnding -> option RecipeOptions -> Z -> M (RuntimeVariables * K) (DeliveryAttemptError D) bytes.
Context (capture : option CaptureExecutor).

(** [HeaderPlanContext] with its [HeaderPlanState].
    Source: eval/header.rs `pub(super) struct HeaderPlanState` *)
Record HeaderState := {
  hp_head : MessageHead; hp_runtime : RuntimeVariables;
  hp_frames : list ContinuationFrame; hp_requirements : InputRequirements; hp_restart : bool; hp_pending_error : option D;
  hp_execution : FanoutPlanState; hp_rc : @RuntimeRcState R L; hp_capture : K;
}.
Abbreviation HPlanning := (M HeaderState (stop EvalError D)) (only parsing).

Definition head_runtime (r : RuntimeVariables) (s : HeaderState) : HeaderState :=
  {| hp_head := hp_head s; hp_runtime := r; hp_frames := hp_frames s; hp_requirements := hp_requirements s; hp_restart := hp_restart s;
     hp_pending_error := hp_pending_error s; hp_execution := hp_execution s; hp_rc := hp_rc s; hp_capture := hp_capture s |}.
Definition head_planning (frames : list ContinuationFrame) (q : InputRequirements) (restart : bool) (s : HeaderState) : HeaderState :=
  {| hp_head := hp_head s; hp_runtime := hp_runtime s; hp_frames := frames; hp_requirements := q; hp_restart := restart;
     hp_pending_error := hp_pending_error s; hp_execution := hp_execution s; hp_rc := hp_rc s; hp_capture := hp_capture s |}.
Definition head_frames (frames : list ContinuationFrame) (s : HeaderState) : HeaderState := head_planning frames (hp_requirements s) (hp_restart s) s.
Definition head_pending (e : option D) (s : HeaderState) : HeaderState :=
  {| hp_head := hp_head s; hp_runtime := hp_runtime s; hp_frames := hp_frames s; hp_requirements := hp_requirements s; hp_restart := hp_restart s;
     hp_pending_error := e; hp_execution := hp_execution s; hp_rc := hp_rc s; hp_capture := hp_capture s |}.
Definition head_execution (e : FanoutPlanState) (s : HeaderState) : HeaderState :=
  {| hp_head := hp_head s; hp_runtime := hp_runtime s; hp_frames := hp_frames s; hp_requirements := hp_requirements s; hp_restart := hp_restart s;
     hp_pending_error := hp_pending_error s; hp_execution := e; hp_rc := hp_rc s; hp_capture := hp_capture s |}.
Definition head_rc (rc : RuntimeRcState) (s : HeaderState) : HeaderState :=
  {| hp_head := hp_head s; hp_runtime := hp_runtime s; hp_frames := hp_frames s; hp_requirements := hp_requirements s; hp_restart := hp_restart s;
     hp_pending_error := hp_pending_error s; hp_execution := hp_execution s; hp_rc := rc; hp_capture := hp_capture s |}.
Definition head_head (h : MessageHead) (s : HeaderState) : HeaderState :=
  {| hp_head := h; hp_runtime := hp_runtime s; hp_frames := hp_frames s; hp_requirements := hp_requirements s; hp_restart := hp_restart s;
     hp_pending_error := hp_pending_error s; hp_execution := hp_execution s; hp_rc := hp_rc s; hp_capture := hp_capture s |}.
Definition head_capture (r : RuntimeVariables) (k : K) (s : HeaderState) : HeaderState :=
  {| hp_head := hp_head s; hp_runtime := r; hp_frames := hp_frames s; hp_requirements := hp_requirements s; hp_restart := hp_restart s;
     hp_pending_error := hp_pending_error s; hp_execution := hp_execution s; hp_rc := hp_rc s; hp_capture := k |}.

Definition on_head_runtime {A} (m : M RuntimeVariables (stop EvalError D) A) : HPlanning A := on hp_runtime head_runtime m.
Definition head_evaluated {A} (r : result EvalError A) : HPlanning A := of_result (map_err Evaluation r).
Definition head_enter (kind : RcStatementKind) (e : RcFileExpression) (rc : RcExecutionContext) : HPlanning EnteredRuntimeRc :=
  Comp (fun s =>
    let '(r, rc_state) := run (enter_runtime_rc kind e rc (hp_runtime s)) (hp_rc s) in (map_err Evaluation r, head_rc rc_state s)).
(** A plan that is replayed from the root with the complete message. *)
Definition restart_with (q : InputRequirements) : HPlanning HeaderControl :=
  _ ← modify (head_planning [] q true); mret HC_Deferred.

(** The loop of [matches_headers]; it goes on after a condition whose answer is
    put off.
    Source: eval/header.rs `fn matches_headers` *)
Fixpoint conditions_match_headers (head : MessageHead) (cs : list CompiledCondition) (so_far : PartialMatch) (results : list (option bool))
    : M RuntimeVariables (stop EvalError D) (PartialMatch * list (option bool)) :=
  match cs with
  | [] => mret (so_far, results)
  | c :: rest =>
      matched ← Comp (fun runtime =>
        match matches_headers c head runtime with Ok (p, runtime') => (Ok p, runtime') | Err e => (Err (Evaluation e), runtime) end);
      match matched with
      | PM_False => mret (PM_False, results ++ [Some false])
      | PM_Deferred => conditions_match_headers head rest PM_Deferred (results ++ [None])
      | PM_True => conditions_match_headers head rest so_far (results ++ [Some true])
      end
  end.

Section level.
Context (plan_below : CompiledSequence -> RcExecutionContext -> InputRequirements -> HPlanning HeaderControl).

(** Source: eval/header.rs `fn execute_runtime_rc@2` *)
Definition head_execute_rc (sequence : CompiledSequence) (path : bytes) (child : RcExecutionContext) (following : InputRequirements)
    : HPlanning HeaderControl :=
  caller ← Comp (fun s => let '(runtime, caller) := replace_current_rc_file (hp_runtime s) (Some path) in (Ok caller, head_runtime runtime s));
  always (plan_below sequence child following) (fun s => head_runtime (replace_current_rc_file (hp_runtime s) caller).1 s).

Definition preemptive (s : CompiledSequence) : bool := pp_preemptive (sequence_properties s).

(** Source: eval/header.rs:921-1030 `plan_statements_headers (loop body)` *)
Definition plan_statement_headers (rc : RcExecutionContext) (following : InputRequirements) (s : CompiledStatement) : HPlanning HeaderControl :=
  match s with
  | CSt_CommandAssignment a => stop_with (Evaluation (E_ExternalActionUnsupported (loc_line (cca_location a))))
  | CSt_Assignment a => _ ← on_head_runtime (run_assignment a); mret HC_Continue
  | CSt_Unset u => _ ← modify (fun s => head_runtime (execute_unset u (hp_runtime s)) s); mret HC_Continue
  | CSt_Host a =>
      here ← on_head_runtime (execute_host_assignment a);
      if here : bool then mret HC_Continue
      else _ ← modify (fun s => head_execution (delivered (hp_execution s)) s); mret HC_EndRcFile
  | CSt_Include e =>
      entered ← head_enter RK_Include e rc;
      found ← head_evaluated (entered_sequence entered);
      match found with
      | None => mret HC_Continue
      | Some (sequence, path, child) =>
          let q := requirements (sequence_properties sequence) in
          if preemptive sequence then restart_with (requirements_union (requirements_union q following) end_requirement)
          else
            control ← head_execute_rc sequence path child following;
            match control with
            | HC_Deferred => planned ← gets hp_requirements; restart_with (requirements_union (requirements_union planned q) following)
            | HC_Stop => mret HC_Stop
            | _ => mret HC_Continue
            end
      end
  | CSt_Switch e =>
      entered ← head_enter RK_Switch e rc;
      if entered_is_empty entered then mret HC_EndRcFile
      else
        found ← head_evaluated (entered_sequence entered);
        match found with
        | None => mret HC_Continue
        | Some (sequence, path, child) =>
            let q := requirements (sequence_properties sequence) in
            if preemptive sequence then restart_with (requirements_union q end_requirement)
            else
              control ← head_execute_rc sequence path child no_requirements;
              match control with
              | HC_Deferred => planned ← gets hp_requirements; restart_with (requirements_union planned q)
              | HC_Stop => mret HC_Stop
              | _ => mret HC_EndRcFile
              end
        end
  end.
(** Source: eval/header.rs `fn plan_statements_headers` *)
Fixpoint plan_statements_headers (rc : RcExecutionContext) (following : InputRequirements) (ss : list CompiledStatement) : HPlanning HeaderControl :=
  match ss with
  | [] => mret HC_Continue
  | s :: rest =>
      control ← plan_statement_headers rc following s;
      match control with HC_Continue => plan_statements_headers rc following rest | other => mret other end
  end.

(** A recipe whose answer, or whose action, needs the message. *)
Definition defer_recipe (s : CompiledSequence) (following : InputRequirements) (index : nat) (state : SequenceState) (results : list (option bool))
    : HPlanning HeaderControl :=
  _ ← modify (fun h => head_planning
        (hp_frames h ++ [{| recipe_index := index; frame_state := state; condition_results := results; assignments_applied := true |}])
        (requirements_union (requirements_from s index) following) (hp_restart h) h);
  mret HC_Deferred.

(** Source: eval/header.rs:478-535 `plan_headers (Capture)` *)
Definition capture_header (n : CompiledNode) (action : CaptureAction) (options : RecipeOptions) : HPlanning ActionExecution :=
  h ← gets id;
  limit ← of_result (active_command_value_limit (hp_runtime h) (cap_target action) (cap_line action));
  match capture with
  | None => stop_with (Evaluation (E_ExternalActionUnsupported (node_line n)))
  | Some executor =>
      let '(captured, (runtime, k)) :=
        run (executor (cap_command action) (head_as_bytes (hp_head h)) (output_ending options) (Some options) limit) (hp_runtime h, hp_capture h) in
      _ ← modify (head_capture runtime k);
      match captured with
      | Ok output =>
          value ← head_evaluated (validate_captured_value output limit (cap_name action) StripOne);
          _ ← modify (fun h => head_pending None (head_runtime (set_bytes (hp_runtime h) (cap_name action) value) h));
          mret Succeeded
      | Err (Recoverable e) => _ ← modify (head_pending (Some e)); mret Failed
      | Err (Fatal e) => stop_with (Delivery e)
      end
  end.

Definition extraction_pair (e : HeaderExtraction) : bytes * bytes := (he_target e, he_value e).

(** Source: eval/header.rs:536-566 `plan_headers (Headers)` *)
Definition edit_header (n : CompiledNode) (action : HeaderAction) : HPlanning () :=
  h ← gets id;
  action ← head_evaluated (map_err E_Expansion (resolve_header_action action (get (hp_runtime h))));
  applied ← head_evaluated (map_err (E_HeaderEdit (node_line n))
              (apply_header_action (header_view (hp_head h)) 0 action (head_limits (hp_head h))));
  _ ← modify (fun h => head_head (replace_edited_header (hp_head h) (ap_header applied)) h);
  modify (fun h => head_runtime (apply_header_extractions (hp_runtime h) (extraction_pair <$> ap_extractions applied)) h).

(** Source: eval/header.rs:470-600 `plan_headers (the action)` *)
Definition plan_header_action (s : CompiledSequence) (rc : RcExecutionContext) (following : InputRequirements) (index : nat)
    (n : CompiledNode) (state : SequenceState) : HPlanning (HeaderControl * ActionExecution) :=
  match node_action n with
  | CA_Pipe _ _ => stop_with (Evaluation (E_ExternalActionUnsupported (node_line n)))
  | CA_Capture action options => execution ← capture_header n action options; mret (HC_Continue, execution)
  | CA_Headers action => _ ← edit_header n action; mret (HC_Continue, Succeeded)
  | CA_Deliver _ _ _ =>
      control ← Comp (fun h =>
        match plan_delivery n (head_status (hp_head h)) (hp_runtime h) (hp_execution h) (has_error_handler s index) with
        | Ok (control, execution) => (Ok control, head_execution execution h)
        | Err e => (Err (Evaluation e), h)
        end);
      mret (header_control control, Succeeded)
  | CA_Block children =>
      _ ← modify (fun h => head_frames
            (hp_frames h ++ [{| recipe_index := index; frame_state := state; condition_results := []; assignments_applied := true |}]) h);
      child ← plan_below children rc (requirements_union (requirements_from s (S index)) following);
      _ ← (if bool_decide (child = HC_Deferred) then mret tt else modify (fun h => head_frames (removelast (hp_frames h)) h));
      mret (child, Succeeded)
  end.

(** Source: eval/header.rs `fn plan_headers<E` *)
Fixpoint plan_recipes_headers (s : CompiledSequence) (rc : RcExecutionContext) (following : InputRequirements) (index : nat)
    (rs : list CompiledNode) (state : SequenceState) : HPlanning HeaderControl :=
  match rs with
  | [] => plan_statements_headers rc following (trailing_statements s)
  | n :: rest =>
      control ← plan_statements_headers rc (requirements_union (requirements_from s index) following) (preceding_statements n);
      match control with
      | HC_Continue =>
          head ← gets hp_head;
          '(matched, results) ← (if planning_gate (node_control n) state
                                 then on_head_runtime (conditions_match_headers head (node_conditions n) PM_True [])
                                 else mret (PM_False, []));
          let conditions_matched := bool_decide (matched = PM_True) in
          if bool_decide (matched = PM_Deferred)
             || (conditions_matched && delivery_defers_header n (bool_decide (is_Some capture)))
          then defer_recipe s following index state results
          else
            '(control, execution) ← (if conditions_matched then plan_header_action s rc following index n state
                                     else mret (HC_Continue, NotAttempted));
            match control with
            | HC_Deferred => mret HC_Deferred
            | _ =>
                _ ← (if bool_decide (execution = Succeeded) then modify (head_pending None) else mret tt);
                match control with
                | HC_Continue =>
                    plan_recipes_headers s rc following (S index) rest
                      (record state (node_control n) conditions_matched execution (else_handled (node_control n) state conditions_matched))
                | other => mret other
                end
            end
      | other => mret other
      end
  end.
End level.

Fixpoint plan_headers (levels : nat) (s : CompiledSequence) (rc : RcExecutionContext) (following : InputRequirements) : HPlanning HeaderControl :=
  match levels with
  | O => stop_with OutOfFuel
  | S levels' => plan_recipes_headers (plan_headers levels') s rc following 0 (recipes s) initial_state
  end.

Definition initial_header_state (head : MessageHead) (runtime : RuntimeVariables) (rc : RuntimeRcState) (k : K) : HeaderState := {|
  hp_head := head; hp_runtime := runtime; hp_frames := []; hp_requirements := no_requirements; hp_restart := false;
  hp_pending_error := None; hp_execution := empty_fanout; hp_rc := rc; hp_capture := k |}.

(** The plan of the whole file; the state says what became of the head, of the
    variables and of the loaded files.
    Source: eval/header.rs `pub(super) fn evaluate_headers_editing_inner` *)
Definition evaluate_headers (levels : nat) (p : ExecutionPlan) (head : MessageHead) (runtime : RuntimeVariables) (rc : @RuntimeRcState R L) (k : K)
    : result (stop EvalError D) HeaderEvaluation * HeaderState :=
  let start := initial_header_state head runtime rc k in
  if preemptive (root p) then
    (Ok (HE_NeedsMessage {|
       ct_frames := [{| recipe_index := 0; frame_state := initial_state; condition_results := []; assignments_applied := false |}];
       ct_execution := empty_fanout; ct_runtime := runtime; ct_requirements := plan_requirements p rc; ct_restart := false |}), start)
  else
    let '(r, h) := run (plan_headers levels (root p) root_context no_requirements) start in
    (match r with
     | Ok HC_Deferred =>
         Ok (HE_NeedsMessage {|
           ct_frames := hp_frames h;
           ct_execution := if hp_restart h then empty_fanout else hp_execution h;
           ct_runtime := if hp_restart h then runtime else hp_runtime h;
           ct_requirements := hp_requirements h; ct_restart := hp_restart h |})
     | Ok _ => match hp_pending_error h with
               | Some error => Err (Delivery error)
               | None => Ok (HE_Decided (delivery_plan (hp_execution h)))
               end
     | Err e => Err e
     end, h).
End headers.
End planning.
