(* ===== verification/HeaderPlanFacts.v ===== *)
(** Facts about planning ([HeaderPlan]): more fuel does not change an answer, and
    planning with the header and then with the rest of the message is planning
    with the complete message. *)
From stdpp Require Import gmap.
From S2P Require Import Prelude Config Limits Utf8 HeaderValue Variables Runtime Settings ShellEval Expand Effects HeaderFields HeaderStore EditedHeader HeaderEdit.
From S2P Require Import StructuredHeader Message EvalMessage Mime Binding Conditions Plan PlanFacts RcFile RuntimeRc RuntimeRcFacts HeaderPlan.
#[local] Open Scope Z_scope.

Section facts.
Context {T : Target} {R : RegexEngine} {X : ConditionExpander} {L D : Type} {loader_impl : RuntimeRcLoader L}.
Abbreviation Planning := (M (CompleteState (R := R) (L := L)) (stop EvalError D)) (only parsing).

(** * Fuel *)

Section below.
Context (message : CompleteMessage) (below below' : CompiledSequence -> RcExecutionContext -> Planning SequenceControl).
Context (Hbelow : forall s rc, extends (below s rc) (below' s rc)).

Lemma statement_extends rc s : extends (plan_statement_complete below rc s) (plan_statement_complete below' rc s).
Proof.
  assert (forall sequence path child, extends (execute_runtime_rc below sequence path child) (execute_runtime_rc below' sequence path child)) as Hrc.
  { intros. apply extends_bind; [apply extends_refl|]. intros caller. by apply extends_always. }
  destruct s; cbn [plan_statement_complete]; auto with extends.
  - apply extends_bind; [auto with extends|]. intros en. apply extends_bind; [auto with extends|]. intros [[[sequence path] child]|]; [|auto with extends].
    apply extends_bind; [apply Hrc|auto with extends].
  - apply extends_bind; [auto with extends|]. intros en. destruct (entered_is_empty en); [auto with extends|].
    apply extends_bind; [auto with extends|]. intros [[[sequence path] child]|]; [|auto with extends]. apply extends_bind; [apply Hrc|auto with extends].
Qed.
Lemma statements_extend rc ss : extends (plan_statements_complete below rc ss) (plan_statements_complete below' rc ss).
Proof.
  induction ss as [|s ss IH]; cbn [plan_statements_complete]; [auto with extends|].
  apply extends_bind; [apply statement_extends|]. intros []; auto with extends.
Qed.
Lemma action_extends n rc b : extends (plan_action message below n rc b) (plan_action message below' n rc b).
Proof. unfold plan_action. destruct (node_action n); auto with extends. case_bool_decide; auto with extends. Qed.
Lemma recipes_extend s rc index rs state :
  extends (plan_recipes_complete message below s rc index rs state) (plan_recipes_complete message below' s rc index rs state).
Proof.
  revert index state. induction rs as [|n rs IH]; intros index state; cbn [plan_recipes_complete]; [apply statements_extend|].
  apply extends_bind; [apply statements_extend|]. intros []; try apply extends_refl.
  apply extends_bind; [apply extends_refl|]. intros matched. apply extends_bind.
  { unfold decide_recipe. apply extends_bind; [|auto with extends]. destruct matched; [apply action_extends|apply extends_refl]. }
  intros [[] st]; auto with extends.
Qed.
End below.

Lemma plan_complete_extends levels message s rc : extends (D := D) (plan_complete levels message s rc) (plan_complete (S levels) message s rc).
Proof.
  revert s rc. induction levels as [|levels IH]; intros s rc; [apply extends_fuel|].
  exact (recipes_extend message (plan_complete levels message) (plan_complete (S levels) message) IH s rc 0 (drop 0 (recipes s)) initial_state).
Qed.

Lemma plan_complete_more levels levels' message s rc : (levels <= levels')%nat -> extends (D := D) (plan_complete levels message s rc) (plan_complete levels' message s rc).
Proof.
  induction 1 as [|levels' _ IH]; [apply extends_refl|]. eapply extends_trans; [exact IH|apply plan_complete_extends].
Qed.

(** * The controls of a complete plan *)

(** A complete plan has no [SequenceComplete]: only a copy branch of ordered
    execution ends with it. *)
Definition no_sequence_complete (m : Planning SequenceControl) : Prop := forall c control c', run m c = (Ok control, c') -> control <> SC_SequenceComplete.

Section controls.
Context (message : CompleteMessage) (below : CompiledSequence -> RcExecutionContext -> Planning SequenceControl).
Context (Hbelow : forall s rc, no_sequence_complete (below s rc)).

Lemma ret_control control : control <> SC_SequenceComplete -> no_sequence_complete (mret control).
Proof. by intros H c control' c' [= <- _]. Qed.
Lemma stop_control e : no_sequence_complete (stop_with e).
Proof. by intros c control c' H. Qed.
Lemma bind_control {A} (x : Planning A) f : (forall a, no_sequence_complete (f a)) -> no_sequence_complete (x ≫= f).
Proof. intros Hf c control c' (a & c1 & _ & H)%run_bind_Ok. by eapply Hf. Qed.

Lemma statement_control rc s : no_sequence_complete (plan_statement_complete below rc s).
Proof.
  destruct s; cbn [plan_statement_complete];
    repeat first [apply stop_control | apply ret_control; by repeat case_match | apply bind_control; intros ? | case_match].
Qed.
Lemma statements_control rc ss : no_sequence_complete (plan_statements_complete below rc ss).
Proof.
  induction ss as [|s ss IH]; cbn [plan_statements_complete]; [by apply ret_control|].
  intros c control c' (control1 & c1 & H1 & H)%run_bind_Ok. apply statement_control in H1.
  destruct control1; [by eapply IH|injection H as <- _; done..].
Qed.
Lemma plan_delivery_control n st r e b control e' :
  plan_delivery n st r e b = Ok (control, e') -> control = SC_Continue \/ control = SC_Stop.
Proof.
  unfold plan_delivery. destruct (node_action n); try (intros [= <- _]; by left).
  intros H. inv_ok. subst. case_match; auto.
Qed.
Lemma action_control n rc b : no_sequence_complete (plan_action message below n rc b).
Proof.
  unfold plan_action. destruct (node_action n); try apply stop_control.
  - intros c control c'. cbn. destruct (plan_delivery _ _ _ _ _) as [[control1 e]|e] eqn:Hd; [|done]. intros [= <- _].
    by apply plan_delivery_control in Hd as [->| ->].
  - case_bool_decide; [apply stop_control|apply Hbelow].
Qed.
Lemma recipes_control s rc index rs state : no_sequence_complete (plan_recipes_complete message below s rc index rs state).
Proof.
  revert index state. induction rs as [|n rs IH]; intros index state; cbn [plan_recipes_complete]; [apply statements_control|].
  intros c control c' (control1 & c1 & H1 & H)%run_bind_Ok. apply statements_control in H1.
  destruct control1; [|injection H as <- _; done..]. apply run_bind_Ok in H as (matched & c2 & _ & H).
  apply run_bind_Ok in H as ([control2 st] & c3 & H2 & H). unfold decide_recipe in H2. apply run_bind_Ok in H2 as (control3 & c4 & H3 & H2).
  assert (control3 <> SC_SequenceComplete) as Hc3 by (destruct matched; [by eapply action_control|by injection H3 as <- _]).
  injection H2 as <- _ _. destruct control3; [by eapply IH|injection H as <- _; done..].
Qed.
End controls.

Lemma plan_complete_control levels message s rc : no_sequence_complete (plan_complete (D := D) levels message s rc).
Proof.
  revert s rc. induction levels as [|levels IH]; intros s rc; cbn [plan_complete]; [apply stop_control|]. by apply recipes_control.
Qed.

(** * Conditions that may be split between the header and the message *)

(** A condition the header may leave open. *)
Definition may_defer (c : CompiledCondition) : bool :=
  match cc_kind c with
  | CC_HeaderRegex _ | CC_AddressRegex _ _ | CC_IdentifierRegex _ _ | CC_KeywordRegex _ _ | CC_VariableRegex _ _ => false
  | _ => true
  end.
(** A condition that neither reads nor writes a variable and cannot fail. *)
Definition harmless (c : CompiledCondition) : bool :=
  captures_nothing c &&
  match cc_kind c with CC_HeaderRegex _ | CC_BodyRegex _ | CC_MessageRegex _ | CC_SmallerThan _ | CC_LargerThan _ => true | _ => false end.
(** Once the header may leave a condition open, it is the last one or only
    harmless conditions follow. *)
Fixpoint settled (cs : list CompiledCondition) : bool :=
  match cs with
  | [] => true
  | c :: rest => if may_defer c then bool_decide (rest = []) || forallb harmless (c :: rest) else settled rest
  end.

Section conditions.
Context (mh : MessageHead) (m : CompleteMessage) (Hm : completes mh m).
Abbreviation On := (M RuntimeVariables (stop EvalError D)) (only parsing).

Lemma harmless_complete c : harmless c = true -> exists b, forall r, matches_complete c m r = Ok (b, r).
Proof.
  unfold harmless. rewrite andb_true_iff. intros [Hc Hk]. unfold matches_complete, matches_plain, regex_matches. rewrite Hc.
  destruct (cc_kind c); try discriminate Hk; eexists; intros r; cbn; reflexivity.
Qed.

Lemma harmless_headers c b r : harmless c = true -> matches_complete c m r = Ok (b, r) ->
  matches_headers c mh r = Ok (PM_Deferred, r) \/ matches_headers c mh r = Ok (from_bool b, r).
Proof.
  intros Hh Hc. pose proof (header_answer_confirms c mh m r Hm) as H. unfold confirms in H.
  destruct (matches_headers c mh r) as [[[] r']|e]; [| |by left; rewrite H|]; rewrite H in Hc; try discriminate Hc; injection Hc as <- ->; by right.
Qed.

Lemma run_conditions_cons c cs r :
  run (conditions_match_complete (D := D) (c :: cs) m) r =
  match matches_complete c m r with
  | Ok (true, r') => run (conditions_match_complete (D := D) cs m) r'
  | Ok (false, r') => (Ok false, r')
  | Err e => (Err (Evaluation e), r)
  end.
Proof. cbn [conditions_match_complete]. rewrite run_bind. cbn [run]. by destruct (matches_complete c m r) as [[[] r']|e]. Qed.

Lemma run_headers_cons c cs so_far results r :
  run (conditions_match_headers (D := D) mh (c :: cs) so_far results) r =
  match matches_headers c mh r with
  | Ok (PM_False, r') => (Ok (PM_False, results ++ [Some false]), r')
  | Ok (PM_Deferred, r') => run (conditions_match_headers (D := D) mh cs PM_Deferred (results ++ [None])) r'
  | Ok (PM_True, r') => run (conditions_match_headers (D := D) mh cs so_far (results ++ [Some true])) r'
  | Err e => (Err (Evaluation e), r)
  end.
Proof. cbn [conditions_match_headers]. rewrite run_bind. cbn [run]. by destruct (matches_headers c mh r) as [[[] r']|e]. Qed.

(** What the header finds, against the complete evaluation [(b, r2)]. *)
Definition header_finds (cs : list CompiledCondition) (results : list (option bool)) (b : bool) (r2 : RuntimeVariables)
    (found : result (stop EvalError D) (PartialMatch * list (option bool)) * RuntimeVariables) : Prop :=
  exists p more r1, found = (Ok (p, results ++ more), r1) /\
    match p with
    | PM_True => b = true /\ r1 = r2 /\ run (conditions_match_resumed (D := D) cs m more) r1 = (Ok true, r1)
    | PM_False => b = false /\ r1 = r2
    | PM_Deferred => run (conditions_match_resumed (D := D) cs m more) r1 = (Ok b, r2)
    end.

(** An answer that was kept is not asked for again. *)
Lemma finds_after_true c cs results b r2 found :
  header_finds cs (results ++ [Some true]) b r2 found -> header_finds (c :: cs) results b r2 found.
Proof.
  intros (p & more & r1 & -> & H). exists p, (Some true :: more), r1. split; [by rewrite <-app_assoc|]. by destruct p.
Qed.
Lemma harmless_conditions cs so_far results r :
  forallb harmless cs = true ->
  exists b, run (conditions_match_complete (D := D) cs m) r = (Ok b, r) /\
    exists p more, run (conditions_match_headers (D := D) mh cs so_far results) r = (Ok (p, results ++ more), r) /\
      match p with
      | PM_True => b = true /\ so_far = PM_True /\ run (conditions_match_resumed (D := D) cs m more) r = (Ok true, r)
      | PM_False => b = false \/ so_far = PM_False
      | PM_Deferred => run (conditions_match_resumed (D := D) cs m more) r = (Ok b, r)
      end.
Proof.
  revert so_far results. induction cs as [|c cs IH]; intros so_far results; cbn [forallb].
  - intros _. exists true. split; [done|]. exists so_far, []. split; [by rewrite app_nil_r|]. destruct so_far; auto.
  - rewrite andb_true_iff. intros [Hc Hcs]. destruct (harmless_complete c Hc) as [b Hb]. rewrite run_conditions_cons, Hb.
    rewrite run_headers_cons. destruct (harmless_headers c b r Hc (Hb r)) as [->| ->].
    + destruct (IH PM_Deferred (results ++ [None]) Hcs) as (b' & Hb' & p & more & -> & Hp). exists (b && b').
      split; [by destruct b|]. exists p, (None :: more). split; [by rewrite <-app_assoc|]. destruct p; [by destruct Hp as (_ & ? & _)| |].
      * destruct Hp as [->|?]; [|done]. left. by destruct b.
      * cbn [conditions_match_resumed head mjoin option_join]. rewrite run_bind, run_conditions_cons, Hb. destruct b; [by cbn|done].
    + destruct b; cbn [from_bool].
      * destruct (IH so_far (results ++ [Some true]) Hcs) as (b' & Hb' & p & more & -> & Hp). exists b'. split; [done|].
        exists p, (Some true :: more). split; [by rewrite <-app_assoc|]. by destruct p.
      * exists false. split; [done|]. exists PM_False, [Some false]. auto.
Qed.

Lemma settled_conditions cs results r b r2 :
  settled cs = true -> run (conditions_match_complete (D := D) cs m) r = (Ok b, r2) ->
  header_finds cs results b r2 (run (conditions_match_headers (D := D) mh cs PM_True results) r).
Proof.
  revert results r. induction cs as [|c cs IH]; intros results r; cbn [settled].
  { intros _ [= <- <-]. exists PM_True, [], r. by rewrite app_nil_r. }
  intros Hs. destruct (may_defer c) eqn:Hd; [destruct (bool_decide (cs = [])) eqn:Hcs|].
  - apply bool_decide_eq_true in Hcs as ->. rewrite run_conditions_cons, run_headers_cons.
    pose proof (header_answer_confirms c mh m r Hm) as H. unfold confirms in H. intros Hc.
    destruct (matches_headers c mh r) as [[[] r']|e].
    + rewrite H in Hc. injection Hc as <- <-. exists PM_True, [Some true], r'. done.
    + rewrite H in Hc. injection Hc as <- <-. exists PM_False, [Some false], r'. done.
    + subst r'. exists PM_Deferred, [None], r. split; [done|]. cbn [conditions_match_resumed head mjoin option_join tail].
      rewrite run_bind, run_conditions_cons. destruct (matches_complete c m r) as [[[] r']|e]; cbn in *; congruence.
    + rewrite H in Hc. discriminate Hc.
  - cbn [orb] in Hs. destruct (harmless_conditions (c :: cs) PM_True results r Hs) as (b' & -> & p & more & -> & Hp).
    intros [= <- <-]. exists p, more, r. split; [done|]. destruct p; [by destruct Hp as (-> & _ & ?)|by destruct Hp as [->|?]|done].
  - rewrite run_conditions_cons, run_headers_cons. pose proof (header_answer_confirms c mh m r Hm) as H. unfold confirms in H. intros Hc.
    destruct (matches_headers c mh r) as [[[] r']|e] eqn:Hh.
    + rewrite H in Hc. apply finds_after_true. by apply IH.
    + rewrite H in Hc. injection Hc as <- <-. by exists PM_False, [Some false], r'.
    + exfalso. unfold matches_headers in Hh. unfold may_defer in Hd. destruct (cc_kind c); try discriminate Hd; by apply decided_not_deferred in Hh.
    + rewrite H in Hc. discriminate Hc.
Qed.
End conditions.

(** * Plans that may be split *)

Definition plain_statement (s : CompiledStatement) : Prop := match s with CSt_Include _ | CSt_Switch _ => False | _ => True end.
(** No file is loaded while the plan runs, and every recipe's conditions may be
    split. *)
Inductive steady : CompiledSequence -> Prop :=
| steady_sequence s : Forall steady_node (recipes s) -> Forall plain_statement (trailing_statements s) -> steady s
with steady_node : CompiledNode -> Prop :=
| steady_of n :
    Forall plain_statement (preceding_statements n) -> settled (node_conditions n) = true ->
    (forall children, node_action n = CA_Block children -> steady children) -> steady_node n.

Section agreement.
Context {K : Type} (capture : option (CaptureExecutor (D := D) (K := K))).
Context (mh : MessageHead) (m : CompleteMessage) (Hm : completes mh m) (Hstatus : head_status mh = complete_status m).
Context (levels : nat).
Abbreviation HState := (HeaderState (R := R) (L := L) (D := D) (K := K)) (only parsing).
Abbreviation CState := (CompleteState (R := R) (L := L)) (only parsing).

(** The header's plan is where the complete one is. *)
Record same_place (h : HState) (c : CState) : Prop := {
  sp_runtime : hp_runtime h = cp_runtime c; sp_execution : hp_execution h = cp_execution c; sp_rc : hp_rc h = cp_rc c;
  sp_head : hp_head h = mh; sp_restart : hp_restart h = false; sp_pending : hp_pending_error h = None;
}.
Definition resumed (h : HState) : CState := {| cp_runtime := hp_runtime h; cp_execution := hp_execution h; cp_rc := hp_rc h |}.
Lemma same_place_resumed h c : same_place h c -> resumed h = c.
Proof. intros []. destruct c. unfold resumed. cbn in *. congruence. Qed.

(** What a part of the header's plan comes to, when the complete plan ends with
    [(control, c')]; [resume] goes on from the frames. *)
Definition follows (h : HState) (resume : list ContinuationFrame -> Planning SequenceControl)
    (found : result (stop EvalError D) HeaderControl * HState) (control : SequenceControl) (c' : CState) : Prop :=
  exists hc h', found = (Ok hc, h') /\ hp_head h' = mh /\ hp_restart h' = false /\ hp_pending_error h' = None /\
    if bool_decide (hc = HC_Deferred) then
      exists fr, fr <> [] /\ hp_frames h' = hp_frames h ++ fr /\ run (resume fr) (resumed h') = (Ok control, c')
    else hc = header_control control /\ hp_frames h' = hp_frames h /\ same_place h' c'.

Lemma follows_here h h' resume control c' :
  control <> SC_SequenceComplete -> hp_frames h' = hp_frames h -> same_place h' c' ->
  follows h resume (Ok (header_control control), h') control c'.
Proof.
  intros Hc Hf Hs. exists (header_control control), h'. destruct Hs. split_and!; try done.
  rewrite bool_decide_eq_false_2 by (by destruct control). by split_and!.
Qed.

(** A step of the variables, taken on both sides. *)
Lemma on_both {A} (x : M RuntimeVariables (stop EvalError D) A) h c a c' :
  same_place h c -> run (on_runtime x) c = (Ok a, c') ->
  exists h', run (on_head_runtime x) h = (Ok a, h') /\ hp_frames h' = hp_frames h /\ same_place h' c'.
Proof.
  intros [Hr He Hrc Hh Hrs Hp]. unfold on_runtime, on_head_runtime, on. cbn [run]. rewrite <-Hr.
  destruct (run x (hp_runtime h)) as [r runtime]. intros [= -> <-].
  eexists. split; [done|]. split; [done|]. by split.
Qed.

Lemma statement_follows below hbelow rc following s h c control c' :
  plain_statement s -> same_place h c -> run (plan_statement_complete (D := D) below rc s) c = (Ok control, c') ->
  control <> SC_SequenceComplete /\
  exists h', run (plan_statement_headers (D := D) (K := K) hbelow rc following s) h = (Ok (header_control control), h') /\
    hp_frames h' = hp_frames h /\ same_place h' c'.
Proof.
  intros Hpl Hs. destruct s as [a|u|a|a|e|e]; try done; cbn [plan_statement_complete plan_statement_headers].
  - intros ([] & c1 & H1 & [= <- <-])%run_bind_Ok. split; [done|]. destruct (on_both _ _ _ _ _ Hs H1) as (h1 & Hh1 & Hf & Hs1).
    exists h1. rewrite run_bind, Hh1. by split_and!.
  - rewrite run_bind, run_modify. intros [= <- <-]. split; [done|]. eexists. rewrite run_bind, run_modify. split; [done|].
    split; [done|]. destruct Hs as [Hr ? ? ? ? ?]. split; try done. cbn. by rewrite Hr.
  - intros (here & c1 & H1 & H2)%run_bind_Ok. destruct (on_both _ _ _ _ _ Hs H1) as (h1 & Hh1 & Hf & Hs1).
    rewrite run_bind, Hh1. destruct here.
    + injection H2 as <- <-. split; [done|]. exists h1. by split_and!.
    + rewrite run_bind, run_modify in H2. injection H2 as <- <-. split; [done|]. eexists. rewrite run_bind, run_modify. split; [done|].
      split; [done|]. destruct Hs1 as [? He ? ? ? ?]. split; try done. cbn. by rewrite He.
Qed.

Lemma statements_follow below hbelow rc following ss h c control c' :
  Forall plain_statement ss -> same_place h c -> run (plan_statements_complete (D := D) below rc ss) c = (Ok control, c') ->
  control <> SC_SequenceComplete /\
  exists h', run (plan_statements_headers (D := D) (K := K) hbelow rc following ss) h = (Ok (header_control control), h') /\
    hp_frames h' = hp_frames h /\ same_place h' c'.
Proof.
  intros Hpl. revert h c. induction Hpl as [|s ss Hpl _ IH]; intros h c Hs; cbn [plan_statements_complete plan_statements_headers].
  - intros [= <- <-]. split; [done|]. by exists h.
  - intros (control1 & c1 & H1 & H2)%run_bind_Ok.
    destruct (statement_follows below hbelow rc following s h c control1 c1 Hpl Hs H1) as (Hn & h1 & Hh1 & Hf1 & Hs1).
    rewrite run_bind, Hh1. destruct control1; cbn [header_control].
    + destruct (IH _ _ Hs1 H2) as (Hn' & h' & Hh' & Hf' & Hs'). split; [done|]. exists h'. split_and!; try done. congruence.
    + injection H2 as <- <-. split; [done|]. by exists h1.
    + injection H2 as <- <-. split; [done|]. by exists h1.
    + done.
Qed.

(** The part of the loop after the conditions of the recipe at [index]. *)
Definition loop_tail (below : CompiledSequence -> RcExecutionContext -> Planning SequenceControl) (s : CompiledSequence)
    (rc : RcExecutionContext) (index : nat) (n : CompiledNode) (state : SequenceState) (b : bool) : Planning SequenceControl :=
  '(control, state) ← decide_recipe m below s rc index n state b;
  match control with SC_Continue => plan_complete_from m below s rc (S index) state | other => mret other end.

Lemma loop_tail_extends l s rc index n state b :
  (l <= levels)%nat -> extends (loop_tail (plan_complete l m) s rc index n state b) (loop_tail (plan_complete levels m) s rc index n state b).
Proof.
  intros Hl. pose proof (fun s rc => plan_complete_more l levels m s rc Hl) as Hbelow. apply extends_bind.
  - unfold decide_recipe. apply extends_bind; [|auto with extends]. destruct b; [by apply action_extends|apply extends_refl].
  - intros [[] st]; auto with extends. by apply recipes_extend.
Qed.

Lemma drop_cons_lookup {A} (l : list A) i x rest : drop i l = x :: rest -> l !! i = Some x /\ drop (S i) l = rest.
Proof.
  intros H. split.
  - rewrite <-(Nat.add_0_r i), <-lookup_drop, H. done.
  - replace (S i) with (i + 1)%nat by lia. by rewrite <-drop_drop, H.
Qed.

(** Going on at a recipe whose conditions were left open. *)
Lemma resume_recipe l s rc index n rest state results c1 b c2 control c' :
  (l <= levels)%nat -> drop index (recipes s) = n :: rest -> planning_gate (node_control n) state = true ->
  run (on_runtime (D := D) (conditions_match_resumed (node_conditions n) m results)) c1 = (Ok b, c2) ->
  run (loop_tail (plan_complete l m) s rc index n state b) c2 = (Ok control, c') ->
  run (resume_from_frames (D := D) levels m
        [{| recipe_index := index; frame_state := state; condition_results := results; assignments_applied := true |}] s rc) c1 = (Ok control, c').
Proof.
  intros Hl (Hn & Hrest)%drop_cons_lookup Hg Hres Htail.
  assert (run (loop_tail (plan_complete levels m) s rc index n state b) c2 = (Ok control, c')) as H.
  { rewrite (loop_tail_extends l); [done|done|by rewrite Htail]. }
  cbn [resume_from_frames recipe_index assignments_applied frame_state condition_results]. rewrite Hn, run_bind, run_ret, Hg.
  rewrite run_bind, run_bind, Hres, run_bind. unfold loop_tail, decide_recipe in H. rewrite run_bind, run_bind in H.
  destruct (run (if b then _ else _) c2) as [[control1|e] c3]; [|discriminate H]. rewrite !run_ret in *. by destruct control1.
Qed.

(** Going on in a block and then behind it. *)
Lemma resume_block l s rc index n children rest state fr c1 control1 c2 control c' :
  (l <= levels)%nat -> drop index (recipes s) = n :: rest -> node_action n = CA_Block children -> fr <> [] ->
  run (resume_from_frames (D := D) levels m fr children rc) c1 = (Ok control1, c2) ->
  match control1 with
  | SC_Continue => run (plan_complete_from (D := D) m (plan_complete l m) s rc (S index)
                     (record state (node_control n) true Succeeded (else_handled (node_control n) state true))) c2 = (Ok control, c')
  | other => control = other /\ c' = c2
  end ->
  run (resume_from_frames (D := D) levels m
        ({| recipe_index := index; frame_state := state; condition_results := []; assignments_applied := true |} :: fr) s rc) c1 = (Ok control, c').
Proof.
  intros Hl (Hn & Hrest)%drop_cons_lookup Ha Hfr Hres Htail.
  cbn [resume_from_frames recipe_index assignments_applied frame_state]. rewrite Hn, run_bind, run_ret, Ha.
  destruct fr as [|f fr]; [done|]. rewrite run_bind, run_bind, Hres, run_ret.
  destruct control1; [|by destruct Htail as [-> ->]..].
  assert (forall s rc, extends (plan_complete (D := D) l m s rc) (plan_complete levels m s rc)) as Hbelow by (intros; by apply plan_complete_more).
  unfold plan_complete_from in *. rewrite (recipes_extend m _ _ Hbelow); [done|by rewrite Htail].
Qed.

Definition plans_follow (l : nat) : Prop := forall s rc following h c control c',
  steady s -> same_place h c -> run (plan_complete (D := D) l m s rc) c = (Ok control, c') ->
  follows h (fun fr => resume_from_frames levels m fr s rc) (run (plan_headers capture l s rc following) h) control c'.

Section loop.
Context (l : nat) (Hl : (l <= levels)%nat) (IHl : plans_follow l) (s : CompiledSequence) (rc : RcExecutionContext) (following : InputRequirements).
Context (Htrailing : Forall plain_statement (trailing_statements s)).
Abbreviation complete_loop := (plan_recipes_complete (D := D) m (plan_complete l m) s rc) (only parsing).
Abbreviation header_loop := (plan_recipes_headers capture (plan_headers capture l) s rc following) (only parsing).
Abbreviation resume_here := (fun fr => resume_from_frames (D := D) levels m fr s rc) (only parsing).

(** The frames of a part of the plan that kept those before it. *)
Lemma follows_frames h h1 resume found control c' :
  hp_frames h1 = hp_frames h -> follows h1 resume found control c' -> follows h resume found control c'.
Proof. intros Hf. unfold follows. by rewrite Hf. Qed.

Lemma same_place_pending h c : same_place h c -> same_place (head_pending None h) c.
Proof. by intros []. Qed.

(** Putting a recipe off is right when going on from it is. *)
Lemma defer_follows h index state results r1 control c' :
  hp_head h = mh -> hp_restart h = false -> hp_pending_error h = None ->
  run (resume_from_frames (D := D) levels m
        [{| recipe_index := index; frame_state := state; condition_results := results; assignments_applied := true |}] s rc)
      (with_runtime r1 (resumed h)) = (Ok control, c') ->
  follows h resume_here (run (defer_recipe s following index state results) (head_runtime r1 h)) control c'.
Proof.
  intros Hh Hr Hp Hres. unfold defer_recipe. rewrite run_bind, run_modify, run_ret. exists HC_Deferred. eexists. split; [done|].
  split_and!; try done. rewrite bool_decide_eq_true_2 by done. eexists [_]. split; [done|]. split; [reflexivity|]. exact Hres.
Qed.

(** What follows a selected recipe, in both plans. *)
Definition complete_after (n : CompiledNode) (index : nat) (state : SequenceState) (control : SequenceControl) : Planning SequenceControl :=
  match control with
  | SC_Continue => plan_complete_from m (plan_complete l m) s rc (S index)
                     (record state (node_control n) true Succeeded (else_handled (node_control n) state true))
  | other => mret other
  end.
Definition header_after (n : CompiledNode) (rest : list CompiledNode) (index : nat) (state : SequenceState) (control : HeaderControl)
    : M HState (stop EvalError D) HeaderControl :=
  _ ← modify (head_pending None);
  match control with
  | HC_Continue => header_loop (S index) rest (record state (node_control n) true Succeeded (else_handled (node_control n) state true))
  | other => mret other
  end.

(** A recipe that was selected: its action, and the loop behind it. *)
Lemma action_follows n rest index state h c control c' :
  (forall index state h c control c', rest = drop index (recipes s) -> same_place h c -> run (complete_loop index rest state) c = (Ok control, c') ->
     follows h resume_here (run (header_loop index rest state) h) control c') ->
  steady_node n -> drop index (recipes s) = n :: rest -> delivery_defers_header n (bool_decide (is_Some capture)) = false ->
  same_place h c -> run (loop_tail (plan_complete l m) s rc index n state true) c = (Ok control, c') ->
  follows h resume_here
    (run ('(control, execution) ← plan_header_action capture (plan_headers capture l) s rc following index n state;
          match control with
          | HC_Deferred => mret HC_Deferred
          | _ =>
              _ ← (if bool_decide (execution = Succeeded) then modify (head_pending None) else mret tt);
              match control with
              | HC_Continue => header_loop (S index) rest (record state (node_control n) true execution (else_handled (node_control n) state true))
              | other => mret other
              end
          end) h) control c'.
Proof.
  intros IH [n' _ _ Hblock] Hdrop Hdefers Hs. pose proof (drop_cons_lookup _ _ _ _ Hdrop) as [Hn Hrest].
  (* what follows an action that ended *)
  assert (forall control1 h1 c1, control1 <> SC_SequenceComplete -> hp_frames h1 = hp_frames h -> same_place h1 c1 ->
    run (complete_after n' index state control1) c1 = (Ok control, c') ->
    follows h resume_here (run (header_after n' rest index state (header_control control1)) h1) control c') as Hend.
  { intros control1 h1 c1 Hc1 Hf1 Hs1 Htail. unfold header_after. rewrite run_bind, run_modify. apply same_place_pending in Hs1. destruct control1; cbn [header_control].
    - unfold complete_after, plan_complete_from in Htail. rewrite Hrest in Htail. eapply (follows_frames _ (head_pending None h1)); [exact Hf1|]. eapply IH; [done|exact Hs1|exact Htail].
    - injection Htail as <- <-. by apply (follows_here h (head_pending None h1) resume_here SC_Stop).
    - injection Htail as <- <-. by apply (follows_here h (head_pending None h1) resume_here SC_EndRcFile).
    - done. }
  unfold loop_tail, decide_recipe, plan_action, plan_header_action. rewrite !run_bind.
  destruct (node_action n') as [destination continuation ending|a o|a o|children|a] eqn:Ha; try done.
  - rewrite run_bind. cbn [run]. destruct Hs as [Hr He Hrc Hh Hrs Hp]. rewrite <-Hr, <-He, <-Hstatus, <-Hh.
    destruct (plan_delivery n' _ _ _ _) as [[control1 execution]|e] eqn:Hd; [|done]. rewrite !run_ret.
    intros Htail. apply plan_delivery_control in Hd.
    specialize (Hend control1 (head_execution execution h) (with_execution execution c)).
    destruct Hd as [->| ->]; (exact (Hend ltac:(done) ltac:(done) ltac:(by split) Htail)).
  - clear Hdefers. case_bool_decide; [done|]. destruct (run (plan_complete l m children rc) c) as [[control1|e] c1] eqn:Hc; [|done].
    rewrite run_ret. intros Htail. rewrite run_bind, run_modify.
    set (frame := {| recipe_index := index; frame_state := state; condition_results := []; assignments_applied := true |}).
    set (h1 := head_frames (hp_frames h ++ [frame]) h).
    assert (same_place h1 c) as Hs1 by (destruct Hs; by split).
    destruct (IHl children rc (requirements_union (requirements_from s (S index)) following) h1 c control1 c1) as (hc & h2 & Hrun & Hh2 & Hr2 & Hp2 & Hcase);
      [by apply Hblock|done|done|]. rewrite run_bind, Hrun. rewrite run_bind.
    destruct (bool_decide (hc = HC_Deferred)) eqn:Hdef.
    + apply bool_decide_eq_true in Hdef as ->. rewrite !run_ret. exists HC_Deferred, h2. split_and!; try done.
      rewrite bool_decide_eq_true_2 by done. destruct Hcase as (fr & Hfr & Hframes & Hres). exists (frame :: fr). split; [done|].
      split; [rewrite Hframes; cbn; by rewrite <-app_assoc|].
      eapply resume_block; try done. by destruct control1; [|injection Htail as <- <-..].
    + destruct Hcase as (-> & Hf2 & Hs2). rewrite run_modify, run_ret.
      specialize (Hend control1 (head_frames (removelast (hp_frames h2)) h2) c1).
      apply plan_complete_control in Hc. cbn [fst snd] in *.
      assert (hp_frames (head_frames (removelast (hp_frames h2)) h2) = hp_frames h) as Hf by (cbn; rewrite Hf2; cbn; by rewrite removelast_last).
      assert (same_place (head_frames (removelast (hp_frames h2)) h2) c1) as Hs3 by (destruct Hs2; by split).
      specialize (Hend Hc Hf Hs3 Htail). by destruct control1.
Qed.

Lemma loop_follows rs index state h c control c' :
  Forall steady_node rs -> rs = drop index (recipes s) -> same_place h c ->
  run (complete_loop index rs state) c = (Ok control, c') ->
  follows h resume_here (run (header_loop index rs state) h) control c'.
Proof.
  intros Hrs. revert index state h c control c'. induction Hrs as [|n rest Hn _ IH]; intros index state h c control c' Hdrop Hs Hc.
  { cbn [plan_recipes_complete] in Hc. cbn [plan_recipes_headers].
    destruct (statements_follow _ (plan_headers capture l) rc following _ _ _ _ _ Htrailing Hs Hc) as (Hctl & h' & Hrun & Hf & Hs').
    rewrite Hrun. by apply follows_here. }
  cbn [plan_recipes_complete plan_recipes_headers] in *. apply run_bind_Ok in Hc as (control1 & c1 & H1 & Hc).
  assert (Forall plain_statement (preceding_statements n) /\ settled (node_conditions n) = true) as [Hpre Hset] by (by destruct Hn).
  destruct (statements_follow _ (plan_headers capture l) rc (requirements_union (requirements_from s index) following) _ _ _ _ _ Hpre Hs H1)
    as (Hctl & h1 & Hrun & Hf & Hs1).
  rewrite run_bind, Hrun. apply (follows_frames h h1); [done|].
  destruct control1; cbn [header_control];
    [|injection Hc as <- <-; first [by apply (follows_here h1 h1 _ SC_Stop) | by apply (follows_here h1 h1 _ SC_EndRcFile) | done]..].
  apply run_bind_Ok in Hc as (b & c2 & H2 & Hc). rewrite run_bind, run_gets, (sp_head _ _ Hs1), run_bind.
  assert (run (loop_tail (plan_complete l m) s rc index n state b) c2 = (Ok control, c')) as Htail.
  { unfold loop_tail, plan_complete_from. by rewrite (proj2 (drop_cons_lookup _ _ _ _ (eq_sym Hdrop))). }
  (* the recipe is skipped *)
  assert (forall h2, b = false -> hp_frames h2 = hp_frames h1 -> same_place h2 c2 ->
    follows h1 resume_here (run (header_loop (S index) rest
      (record state (node_control n) false NotAttempted (else_handled (node_control n) state false))) h2) control c') as Hskip.
  { intros h2 -> Hf2 Hs2. apply (follows_frames h1 h2); [done|]. eapply IH; [|exact Hs2|].
    - by rewrite (proj2 (drop_cons_lookup _ _ _ _ (eq_sym Hdrop))).
    - unfold loop_tail, decide_recipe, plan_complete_from in Htail. rewrite (proj2 (drop_cons_lookup _ _ _ _ (eq_sym Hdrop))) in Htail. exact Htail. }
  destruct (planning_gate (node_control n) state) eqn:Hg.
  2: { injection H2 as <- <-. rewrite run_ret. exact (Hskip h1 eq_refl eq_refl Hs1). }
  unfold on_runtime, on in H2. cbn [run] in H2. unfold on_head_runtime, on. cbn [run]. rewrite (sp_runtime _ _ Hs1).
  destruct (run (node_matches_complete n m) (cp_runtime c1)) as [rb r2] eqn:Hcond. injection H2 as -> <-.
  apply (settled_conditions mh m Hm _ [] _ _ _ Hset) in Hcond as (p & results & r1 & Hfound & Hp). rewrite Hfound. cbn [app].
  assert (forall r, same_place (head_runtime r h1) (with_runtime r c1)) as Hs2 by (intros r; destruct Hs1; by split).
  assert (forall r, with_runtime r (resumed h1) = with_runtime r c1) as Hres.
  { intros r. destruct Hs1. unfold resumed, with_runtime. cbn. congruence. }
  destruct p.
  - (* decided, selected *)
    destruct Hp as (-> & -> & Hkept).
    rewrite (bool_decide_eq_false_2 (PM_True = PM_Deferred)), (bool_decide_eq_true_2 (PM_True = PM_True)) by done.
    cbn [andb orb]. destruct (delivery_defers_header n _) eqn:Hdefers.
    + apply defer_follows; try apply Hs1. eapply resume_recipe; [exact Hl|by rewrite <-Hdrop|done| |exact Htail].
      rewrite Hres. unfold on_runtime, on. cbn [run]. cbn [cp_runtime with_runtime]. by rewrite Hkept.
    + apply (follows_frames h1 (head_runtime r2 h1)); [done|]. by eapply action_follows.
  - destruct Hp as (-> & ->). exact (Hskip (head_runtime r2 h1) eq_refl eq_refl (Hs2 r2)).
  - rewrite (bool_decide_eq_true_2 (PM_Deferred = PM_Deferred)) by done. cbn [orb].
    apply defer_follows; try apply Hs1. eapply resume_recipe; [exact Hl|by rewrite <-Hdrop|done| |exact Htail].
    rewrite Hres. unfold on_runtime, on. cbn [run]. cbn [cp_runtime with_runtime]. by rewrite Hp.
Qed.
End loop.

Lemma plans_follow_all l : (l <= levels)%nat -> plans_follow l.
Proof.
  induction l as [|l IH]; intros Hl s rc following h c control c' Hsteady Hs; [done|]. cbn [plan_complete plan_headers].
  destruct Hsteady as [s' Hrs Htr]. intros Hc. eapply (loop_follows l); [lia|apply IH; lia|done|done|by rewrite drop_0|exact Hs|].
  unfold plan_complete_from in Hc. by rewrite drop_0 in Hc.
Qed.
End agreement.

(** C2: Planning in two steps.  For a plan that loads no file while it runs and
    whose conditions may be split, whenever planning with the complete message
    selects deliveries, planning with the header alone either selects the same
    deliveries with the same variables, or stops and, resumed from its frames with
    the message, ends in the same state as planning with the complete message. *)
Theorem header_planning_agrees {K : Type} (capture : option (CaptureExecutor (D := D) (K := K))) (levels : nat) (p : ExecutionPlan)
    (head : MessageHead) (m : CompleteMessage) (runtime : RuntimeVariables) (rc : @RuntimeRcState R L) (k : K)
    (control : SequenceControl) (final : CompleteState)
    (Hm : completes head m) (Hstatus : head_status head = complete_status m)
    (Hsteady : steady (root p)) (Hstreaming : preemptive (root p) = false)
    (Hcomplete : run (plan_complete (D := D) levels m (root p) root_context)
                   {| cp_runtime := runtime; cp_execution := empty_fanout; cp_rc := rc |} = (Ok control, final)) :
  match evaluate_headers capture levels p head runtime rc k with
  | (Ok (HE_Decided plan), h) => plan = delivery_plan (cp_execution final) /\ hp_runtime h = cp_runtime final
  | (Ok (HE_NeedsMessage c), h) =>
      forall input, complete_message input (plan_needs_full_matching p (hp_rc h)) = Some m ->
        resume (D := D) levels p c input (hp_rc h) = Ok (delivery_plan (cp_execution final), final)
  | (Err _, _) => False
  end.
Proof.
  unfold evaluate_headers. rewrite Hstreaming.
  assert (same_place head (initial_header_state (D := D) head runtime rc k) {| cp_runtime := runtime; cp_execution := empty_fanout; cp_rc := rc |})
    as Hstart by by split.
  destruct (plans_follow_all capture head m Hm Hstatus levels levels (le_n _) (root p) root_context no_requirements
    _ _ control final Hsteady Hstart Hcomplete) as (hc & h & Hrun & Hh & Hr & Hp & Hcase).
  rewrite Hrun. destruct (bool_decide (hc = HC_Deferred)) eqn:Hdef.
  - apply bool_decide_eq_true in Hdef as ->. rewrite Hr. intros input Hinput. destruct Hcase as (fr & Hfr & Hframes & Hres). cbn in Hframes.
    unfold resume. cbn [ct_frames ct_restart ct_runtime ct_execution]. rewrite Hinput, Hframes. cbn [ok_or mbind result_bind].
    rewrite bool_decide_eq_false_2 by done. cbn [andb]. unfold resumed in Hres. by rewrite Hres.
  - destruct Hcase as (-> & _ & [Hrt Hex _ _ _ _]). rewrite Hp. apply bool_decide_eq_false in Hdef.
    unfold delivery_plan. destruct control; cbn [header_control] in *; rewrite ?Hex; done.
Qed.
End facts.

(** * A sample plan: mail below a size goes to a folder *)

#[local] Existing Instance front_engine.
Definition small_mail : Recipe := MkRecipe 1 2 (sample_options Independent) None
  [{| cond_line := 1; cond_negated := false; cond_kind := CK_SmallerThan 100 |}] (RA_Deliver (sample_maildir (B "/home/me/small/"))).
Definition small_plan : ExecutionPlan :=
  {| root := compile [S_Recipe small_mail] [] sample_location; message_limits := Ok default_limits |}.
Definition small_start : CompleteState :=
  {| cp_runtime := default_runtime (B "7"); cp_execution := empty_fanout; cp_rc := new_rc_state (Some tt) |}.

Lemma small_plan_steady : steady (root small_plan).
Proof. repeat constructor; discriminate. Qed.

Abbreviation small_run := (run (plan_complete (X := no_expander) (D := Empty_set) (loader_impl := empty_loader) 2 front_message (root small_plan) root_context) small_start) (only parsing).
Abbreviation small_headers := (evaluate_headers (D := Empty_set) (K := unit) (loader_impl := empty_loader) None 2 small_plan front_head
  (default_runtime (B "7")) (new_rc_state (Some tt)) tt) (only parsing).

Lemma header_planning_agrees_witness :
  exists control final h c, small_run = (Ok control, final) /\ length (fp_deliveries (cp_execution final)) = 1%nat /\
    small_headers = (Ok (HE_NeedsMessage c), h) /\
    resume (X := no_expander) (D := Empty_set) (loader_impl := empty_loader) 2 small_plan c
      {| mi_raw := B "A: b" ++ [10; 10] ++ B "text"; mi_header_len := 6; mi_matching := None |} (hp_rc h)
      = Ok (delivery_plan (cp_execution final), final).
Proof.
  eassert (small_run = (Ok _, _)) as Hrun by (vm_compute; reflexivity).
  pose proof (header_planning_agrees (X := no_expander) (D := Empty_set) (loader_impl := empty_loader) (K := unit) None 2 small_plan front_head front_message
    (default_runtime (B "7")) (new_rc_state (Some tt)) tt _ _ (input_completes (B "A: b" ++ [10; 10]) (B "text") default_limits)
    eq_refl small_plan_steady eq_refl Hrun) as H.
  eassert (small_headers = (Ok (HE_NeedsMessage _), _)) as Hh by (vm_compute; reflexivity). rewrite Hh in H.
  do 4 eexists. split; [exact Hrun|]. split; [reflexivity|]. split; [exact Hh|]. apply H. reflexivity.
Defined.
