(* ===== verification/HeaderPlanFuel.v ===== *)
(** Planning ends ([HeaderPlan]): with the nesting of the plan, of the files that
    may be loaded and the bound on transitions, a number of levels is known that
    is enough for every message. *)
From stdpp Require Import gmap.
From S2P Require Import Prelude Config Limits Utf8 HeaderValue Variables Runtime Settings ShellEval Expand Effects HeaderFields HeaderStore EditedHeader HeaderEdit.
From S2P Require Import StructuredHeader Message EvalMessage Mime Binding Conditions Plan PlanFacts RcFile RuntimeRc RuntimeRcFacts HeaderPlan.
#[local] Open Scope Z_scope.

Section fuel.
Context {T : Target} {R : RegexEngine} {X : ConditionExpander} {L D : Type} {loader_impl : RuntimeRcLoader L} {invariant : LoaderInvariant L}.
Context (bound : nat) (Hbound : bounded_loader bound).

(** Levels that are enough for a sequence when [b] transitions are left. *)
Definition levels_for (s : CompiledSequence) (b : nat) : nat := nesting s + b * bound.

(** The files that were loaded nest as they may, and at most [b] transitions are
    left. *)
Definition rc_budget (b : nat) (s : @RuntimeRcState R L) : Prop :=
  bounded_files bound s /\ (MAX_RC_TRANSITIONS - transitions s <= b)%nat.
Lemma rc_budget_more b b' s : (b <= b')%nat -> rc_budget b s -> rc_budget b' s.
Proof. intros ? []. split; [done|lia]. Qed.

Lemma enter_budget b kind e context runtime s r s' :
  rc_budget b s -> run (enter_runtime_rc kind e context runtime) s = (r, s') ->
  rc_budget b s' /\
  forall en sequence path child, r = Ok en -> entered_sequence en = Ok (Some (sequence, path, child)) ->
    (1 <= b)%nat /\ rc_budget (b - 1) s' /\ (nesting sequence <= bound)%nat.
Proof.
  intros [Hf Hb] Hr. apply (enter_loads bound) in Hr as [[Hf' Ht] H]; [|done|done]. split; [split; [done|lia]|].
  intros en sequence path child -> He. destruct (H en sequence path child eq_refl He) as (Ht' & Hm & Hn).
  split_and!; [lia|split; [done|lia]|done].
Qed.

Lemma run_assignment_fuel a : no_fuel_needed (D := D) (run_assignment a).
Proof. intros s. unfold run_assignment. cbn. by destruct (execute_assignment a s). Qed.
Lemma host_fuel a : no_fuel_needed (D := D) (execute_host_assignment a).
Proof. apply no_fuel_bind; [apply run_assignment_fuel|]. intros _ s. cbn. by destruct (matches_host _ _). Qed.
Lemma conditions_fuel cs m : no_fuel_needed (D := D) (conditions_match_complete cs m).
Proof.
  induction cs as [|c cs IH]; [by intros s|]. cbn [conditions_match_complete]. apply no_fuel_bind.
  - intros s. cbn. by destruct (matches_complete c m s) as [[b r]|e].
  - intros []; [apply IH|by intros s].
Qed.
Lemma header_conditions_fuel mh cs so_far results : no_fuel_needed (D := D) (conditions_match_headers mh cs so_far results).
Proof.
  revert so_far results. induction cs as [|c cs IH]; intros so_far results; [by intros s|]. cbn [conditions_match_headers]. apply no_fuel_bind.
  - intros s. cbn. by destruct (matches_headers c mh s) as [[b r]|e].
  - intros []; [apply IH|by intros s|apply IH].
Qed.

(** * With the complete message *)

Definition budget (b : nat) (c : @CompleteState R L) : Prop := rc_budget b (cp_rc c).

Section complete.
Context (message : CompleteMessage) (levels : nat).
Context (below : CompiledSequence -> RcExecutionContext -> M (@CompleteState R L) (stop EvalError D) SequenceControl).
Context (Hbelow : forall s rc b c, (levels_for s b <= levels)%nat -> budget b c -> fine_at (budget b) c (below s rc)).

Lemma on_runtime_fine {A} b c (x : M RuntimeVariables (stop EvalError D) A) : no_fuel_needed x -> budget b c -> fine_at (budget b) c (on_runtime x).
Proof. intros Hx Hc. by apply fine_on. Qed.

Lemma execute_rc_fine b c sequence path child :
  (nesting sequence <= bound)%nat -> (1 <= b)%nat -> (b * bound <= levels)%nat -> budget (b - 1) c ->
  fine_at (budget b) c (execute_runtime_rc below sequence path child).
Proof.
  intros Hn Hb Hl Hc. apply (fine_weaken _ (budget (b - 1))); [intros c'; apply rc_budget_more; lia|].
  apply fine_bind; [by split|]. intros caller c' Hc' _. apply fine_always; [by intros c''|]. apply Hbelow; [|done].
  unfold levels_for. replace (b * bound)%nat with (bound + (b - 1) * bound)%nat in Hl by nia. lia.
Qed.

Lemma rc_statement_fine kind e rc b c (answer : SequenceControl -> SequenceControl) :
  (b * bound <= levels)%nat -> budget b c ->
  fine_at (budget b) c (entered ← enter kind e rc;
    if is_switch kind && entered_is_empty entered then mret SC_EndRcFile
    else
      found ← evaluated (entered_sequence entered);
      match found with
      | None => mret SC_Continue
      | Some (sequence, path, child) => control ← execute_runtime_rc below sequence path child; mret (answer control)
      end).
Proof.
  intros Hl Hc. unfold enter, fine_at. rewrite run_bind. cbn [run].
  destruct (run (enter_runtime_rc kind e rc (cp_runtime c)) (cp_rc c)) as [r rcs] eqn:Hr.
  apply (enter_budget b) in Hr as [Hc' H]; [|done]. destruct r as [en|error]; cbn [map_err]; [|by split].
  destruct (is_switch kind && _); [by split|]. fold (fine_at (budget b) (with_rc rcs c)
    (found ← evaluated (entered_sequence en); match found with None => mret SC_Continue
      | Some (sequence, path, child) => control ← execute_runtime_rc below sequence path child; mret (answer control) end)).
  apply fine_bind; [by apply fine_evaluated|]. intros found c1 Hc1 Hf. unfold evaluated in Hf. rewrite run_of_result in Hf.
  destruct (entered_sequence en) as [f|] eqn:He; [|discriminate Hf]. injection Hf as <- <-.
  destruct f as [[[sequence path] child]|]; [|by apply fine_ret].
  destruct (H en sequence path child eq_refl He) as (Hb & Hc2 & Hn).
  apply fine_bind; [by apply execute_rc_fine|]. intros. by apply fine_ret.
Qed.

Lemma statement_fine rc s b c : (b * bound <= levels)%nat -> budget b c -> fine_at (budget b) c (plan_statement_complete below rc s).
Proof.
  intros Hl Hc. destruct s as [a|u|a|a|e|e]; cbn [plan_statement_complete].
  - apply fine_bind; [by apply on_runtime_fine, Hc; apply run_assignment_fuel|]. intros. by apply fine_ret.
  - apply fine_bind; [by apply fine_modify|]. intros. by apply fine_ret.
  - by apply fine_stop.
  - apply fine_bind; [apply on_runtime_fine, Hc; apply host_fuel|]. intros [] c1 Hc1 _; [by apply fine_ret|].
    apply fine_bind; [by apply fine_modify|]. intros. by apply fine_ret.
  - exact (rc_statement_fine RK_Include e rc b c (fun control => match control with SC_Stop => SC_Stop | _ => SC_Continue end) Hl Hc).
  - exact (rc_statement_fine RK_Switch e rc b c (fun control => match control with SC_Stop => SC_Stop | _ => SC_EndRcFile end) Hl Hc).
Qed.
Lemma statements_fine rc ss b c : (b * bound <= levels)%nat -> budget b c -> fine_at (budget b) c (plan_statements_complete below rc ss).
Proof.
  intros Hl. revert c. induction ss as [|s ss IH]; intros c Hc; cbn [plan_statements_complete]; [by apply fine_ret|].
  apply fine_bind; [by apply statement_fine|]. intros [] c1 Hc1 _; try (by apply fine_ret). by apply IH.
Qed.
Lemma plan_action_fine s n rc handled b c :
  (levels_for s b <= S levels)%nat -> n ∈ recipes s -> budget b c -> fine_at (budget b) c (plan_action message below n rc handled).
Proof.
  intros Hl Hn Hc. unfold plan_action. destruct (node_action n) eqn:Ha; try (by apply fine_stop).
  - unfold fine_at. cbn. by destruct (plan_delivery _ _ _ _ _) as [[control e]|e].
  - case_bool_decide; [by apply fine_stop|]. apply Hbelow; [|done]. pose proof (nesting_block s n children Hn Ha). unfold levels_for in *. lia.
Qed.
Lemma recipes_fine s rc index rs state b c :
  (levels_for s b <= S levels)%nat -> (forall n, n ∈ rs -> n ∈ recipes s) -> budget b c ->
  fine_at (budget b) c (plan_recipes_complete message below s rc index rs state).
Proof.
  intros Hl Hin. assert (b * bound <= levels)%nat as Hl' by (pose proof (nesting_pos s); unfold levels_for in Hl; lia).
  revert index state c. induction rs as [|n rs IH]; intros index state c Hc; cbn [plan_recipes_complete]; [by apply statements_fine|].
  apply fine_bind; [by apply statements_fine|]. intros [] c1 Hc1 _; try (by apply fine_ret).
  apply fine_bind; [destruct (planning_gate _ _); [apply on_runtime_fine, Hc1; apply conditions_fuel|by apply fine_ret]|].
  intros matched c2 Hc2 _. apply fine_bind.
  - unfold decide_recipe. apply fine_bind; [|intros; by apply fine_ret]. destruct matched; [|by apply fine_ret].
    apply (plan_action_fine s); [done| |done]. apply Hin. by left.
  - intros [control st] c3 Hc3 _. destruct control; try (by apply fine_ret). apply IH; [|done]. intros n' Hn'. apply Hin. by right.
Qed.
End complete.

Lemma plan_complete_fine levels message s rc b c :
  (levels_for s b <= levels)%nat -> budget b c -> fine_at (D := D) (budget b) c (plan_complete levels message s rc).
Proof.
  revert s rc b c. induction levels as [|levels IH]; intros s rc b c Hl Hc.
  { unfold levels_for in Hl. pose proof (nesting_pos s). lia. }
  cbn [plan_complete]. unfold plan_complete_from. rewrite drop_0. by apply (recipes_fine message levels).
Qed.

Lemma resumed_conditions_fuel cs m results : no_fuel_needed (D := D) (conditions_match_resumed cs m results).
Proof.
  revert results. induction cs as [|c cs IH]; intros results; [by intros s|]. cbn [conditions_match_resumed].
  apply no_fuel_bind; [destruct (mjoin _); [by intros s|apply conditions_fuel]|]. intros []; [apply IH|by intros s].
Qed.
Lemma statements_run_fuel ss : no_fuel_needed (D := D) (execute_statements ss).
Proof.
  induction ss as [|s ss IH]; [by intros r|]. cbn [execute_statements]. apply no_fuel_bind; [|by intros []].
  destruct s as [a|u|a|a|e|e]; cbn [execute_statement]; [| |by intros r| |by intros r..].
  - apply no_fuel_bind; [apply run_assignment_fuel|by intros _ r].
  - by intros r.
  - apply no_fuel_bind; [apply host_fuel|by intros [] r].
Qed.
(** Going on from where the header was left. *)
Lemma resume_fine levels message frames s rc b c :
  (levels_for s b <= levels)%nat -> budget b c -> fine_at (D := D) (budget b) c (resume_from_frames levels message frames s rc).
Proof.
  revert s c. induction frames as [|frame deeper IH]; intros s c Hl Hc; cbn [resume_from_frames]; [by apply fine_stop|].
  destruct (recipes s !! recipe_index frame) as [n|] eqn:Hn; [|by apply fine_stop]. apply list_elem_of_lookup_2 in Hn.
  apply fine_bind; [destruct (assignments_applied frame); [by apply fine_ret|apply on_runtime_fine, Hc; apply statements_run_fuel]|].
  intros [] c1 Hc1 _; try (by apply fine_ret). apply fine_bind.
  - destruct deeper as [|next deeper].
    + apply fine_bind; [destruct (planning_gate _ _); [apply on_runtime_fine, Hc1; apply resumed_conditions_fuel|by apply fine_ret]|].
      intros matched c2 Hc2 _. apply fine_bind; [|intros; by apply fine_ret]. destruct matched; [|by apply fine_ret].
      apply (plan_action_fine message levels (plan_complete levels message) (fun s rc b c => plan_complete_fine levels message s rc b c) s); [lia|done|done].
    + destruct (node_action n) as [| | |children|] eqn:Ha; try (by apply fine_stop). apply fine_bind; [|intros; by apply fine_ret]. apply IH; [|done].
      pose proof (nesting_block s n children Hn Ha). unfold levels_for in *. lia.
  - intros [matched []] c2 Hc2 _; try (by apply fine_ret). unfold plan_complete_from.
    apply (recipes_fine message levels (plan_complete levels message) (fun s rc b c => plan_complete_fine levels message s rc b c) s); [lia| |done].
    intros n' Hn'. rewrite <- (take_drop (S (recipe_index frame)) (recipes s)). apply elem_of_app. by right.
Qed.

(** * With the header *)

Section headers.
Context {K : Type} (capture : option (CaptureExecutor (D := D) (K := K))).
Abbreviation HState := (HeaderState (R := R) (L := L) (D := D) (K := K)) (only parsing).
Definition head_budget (b : nat) (h : HState) : Prop := rc_budget b (hp_rc h).

Section level.
Context (levels : nat) (below : CompiledSequence -> RcExecutionContext -> InputRequirements -> M HState (stop EvalError D) HeaderControl).
Context (Hbelow : forall s rc following b h, (levels_for s b <= levels)%nat -> head_budget b h -> fine_at (head_budget b) h (below s rc following)).

Lemma on_head_runtime_fine {A} b (h : HState) (x : M RuntimeVariables (stop EvalError D) A) :
  no_fuel_needed x -> head_budget b h -> fine_at (head_budget b) h (on_head_runtime x).
Proof. intros Hx Hc. by apply fine_on. Qed.

Lemma head_execute_fine b h sequence path child following :
  (nesting sequence <= bound)%nat -> (1 <= b)%nat -> (b * bound <= levels)%nat -> head_budget (b - 1) h ->
  fine_at (head_budget b) h (head_execute_rc below sequence path child following).
Proof.
  intros Hn Hb Hl Hc. apply (fine_weaken _ (head_budget (b - 1))); [intros c'; apply rc_budget_more; lia|].
  apply fine_bind; [by split|]. intros caller c' Hc' _. apply fine_always; [by intros c''|]. apply Hbelow; [|done].
  unfold levels_for. replace (b * bound)%nat with (bound + (b - 1) * bound)%nat in Hl by nia. lia.
Qed.

Lemma restart_fine b (h : HState) q : head_budget b h -> fine_at (head_budget b) h (restart_with (D := D) q).
Proof. intros Hh. apply fine_bind; [by apply fine_modify|]. intros. by apply fine_ret. Qed.

Lemma head_rc_statement_fine kind e rc b h following (early : CompiledSequence -> InputRequirements)
    (late : CompiledSequence -> InputRequirements -> InputRequirements) (answer : HeaderControl -> HeaderControl) :
  (b * bound <= levels)%nat -> head_budget b h ->
  fine_at (head_budget b) h (entered ← head_enter kind e rc;
    if is_switch kind && entered_is_empty entered then mret HC_EndRcFile
    else
      found ← head_evaluated (entered_sequence entered);
      match found with
      | None => mret HC_Continue
      | Some (sequence, path, child) =>
          if preemptive sequence then restart_with (early sequence)
          else
            control ← head_execute_rc below sequence path child following;
            match control with
            | HC_Deferred => planned ← gets hp_requirements; restart_with (late sequence planned)
            | HC_Continue => mret (answer HC_Continue) | HC_Stop => mret (answer HC_Stop) | HC_EndRcFile => mret (answer HC_EndRcFile)
            end
      end).
Proof.
  intros Hl Hc. unfold head_enter, fine_at. rewrite run_bind. cbn [run].
  destruct (run (enter_runtime_rc kind e rc (hp_runtime h)) (hp_rc h)) as [r rcs] eqn:Hr.
  apply (enter_budget b) in Hr as [Hc' H]; [|done]. destruct r as [en|error]; cbn [map_err]; [|by split].
  destruct (is_switch kind && _); [by split|].
  apply (fine_bind (head_budget b) (head_rc rcs h) (head_evaluated (entered_sequence en))); [by apply fine_evaluated|].
  intros found c1 Hc1 Hf. unfold head_evaluated in Hf. rewrite run_of_result in Hf.
  destruct (entered_sequence en) as [f|] eqn:He; [|discriminate Hf]. injection Hf as <- <-.
  destruct f as [[[sequence path] child]|]; [|by apply fine_ret].
  destruct (H en sequence path child eq_refl He) as (Hb & Hc2 & Hn). destruct (preemptive sequence); [by apply restart_fine|].
  apply fine_bind; [by apply head_execute_fine|]. intros [] c2 Hc3 _; try (by apply fine_ret).
Qed.

Lemma head_statement_fine rc following s b h :
  (b * bound <= levels)%nat -> head_budget b h -> fine_at (head_budget b) h (plan_statement_headers below rc following s).
Proof.
  intros Hl Hc. destruct s as [a|u|a|a|e|e]; cbn [plan_statement_headers].
  - apply fine_bind; [apply on_head_runtime_fine, Hc; apply run_assignment_fuel|]. intros. by apply fine_ret.
  - apply fine_bind; [by apply fine_modify|]. intros. by apply fine_ret.
  - by apply fine_stop.
  - apply fine_bind; [apply on_head_runtime_fine, Hc; apply host_fuel|]. intros [] c1 Hc1 _; [by apply fine_ret|].
    apply fine_bind; [by apply fine_modify|]. intros. by apply fine_ret.
  - exact (head_rc_statement_fine RK_Include e rc b h following
      (fun s => requirements_union (requirements_union (requirements (sequence_properties s)) following) end_requirement)
      (fun s planned => requirements_union (requirements_union planned (requirements (sequence_properties s))) following)
      (fun control => match control with HC_Stop => HC_Stop | _ => HC_Continue end) Hl Hc).
  - exact (head_rc_statement_fine RK_Switch e rc b h no_requirements
      (fun s => requirements_union (requirements (sequence_properties s)) end_requirement)
      (fun s planned => requirements_union planned (requirements (sequence_properties s)))
      (fun control => match control with HC_Stop => HC_Stop | _ => HC_EndRcFile end) Hl Hc).
Qed.
Lemma head_statements_fine rc following ss b h :
  (b * bound <= levels)%nat -> head_budget b h -> fine_at (head_budget b) h (plan_statements_headers below rc following ss).
Proof.
  intros Hl. revert h. induction ss as [|s ss IH]; intros h Hc; cbn [plan_statements_headers]; [by apply fine_ret|].
  apply fine_bind; [by apply head_statement_fine|]. intros [] c1 Hc1 _; try (by apply fine_ret). by apply IH.
Qed.

Lemma capture_fine n action options b h : head_budget b h -> fine_at (head_budget b) h (capture_header capture n action options).
Proof.
  intros Hh. apply fine_bind; [by apply fine_gets|]. intros h1 h2 Hh2 [= -> ->].
  apply fine_bind.
  { apply fine_of_result; [|done]. unfold active_command_value_limit. by destruct (linebuf _). }
  intros limit h3 Hh3 _. destruct capture as [executor|]; [|by apply fine_stop].
  destruct (run (executor _ _ _ _ _) _) as [captured [runtime k]]. apply fine_bind; [by apply fine_modify|].
  intros _ h4 Hh4 _. destruct captured as [output|[e|e]]; [|apply fine_bind; [by apply fine_modify|intros; by apply fine_ret]|by apply fine_stop].
  apply fine_bind; [by apply fine_evaluated|]. intros value h5 Hh5 _. apply fine_bind; [by apply fine_modify|]. intros. by apply fine_ret.
Qed.
Lemma edit_fine n action b h : head_budget b h -> fine_at (head_budget b) h (edit_header (D := D) (K := K) n action).
Proof.
  intros Hh. apply fine_bind; [by apply fine_gets|]. intros h1 h2 Hh2 _.
  apply fine_bind; [by apply fine_evaluated|]. intros resolved h3 Hh3 _.
  apply fine_bind; [by apply fine_evaluated|]. intros applied h4 Hh4 _. apply fine_bind; [by apply fine_modify|]. intros. by apply fine_modify.
Qed.

Lemma head_action_fine s rc following index n state b h :
  (levels_for s b <= S levels)%nat -> n ∈ recipes s -> head_budget b h ->
  fine_at (head_budget b) h (plan_header_action capture below s rc following index n state).
Proof.
  intros Hl Hn Hh. unfold plan_header_action. destruct (node_action n) as [destination continuation ending|a o|a o|children|a] eqn:Ha.
  - apply fine_bind; [|intros; by apply fine_ret]. unfold fine_at. cbn. by destruct (plan_delivery _ _ _ _ _) as [[control e]|e].
  - by apply fine_stop.
  - apply fine_bind; [by apply capture_fine|]. intros. by apply fine_ret.
  - apply fine_bind; [by apply fine_modify|]. intros _ h1 Hh1 _. apply fine_bind.
    + apply Hbelow; [|done]. pose proof (nesting_block s n children Hn Ha). unfold levels_for in *. lia.
    + intros child h2 Hh2 _. apply fine_bind; [case_bool_decide; [by apply fine_ret|by apply fine_modify]|]. intros. by apply fine_ret.
  - apply fine_bind; [by apply edit_fine|]. intros. by apply fine_ret.
Qed.

Lemma head_recipes_fine s rc following index rs state b h :
  (levels_for s b <= S levels)%nat -> (forall n, n ∈ rs -> n ∈ recipes s) -> head_budget b h ->
  fine_at (head_budget b) h (plan_recipes_headers capture below s rc following index rs state).
Proof.
  intros Hl Hin. assert (b * bound <= levels)%nat as Hl' by (pose proof (nesting_pos s); unfold levels_for in Hl; lia).
  revert index state h. induction rs as [|n rs IH]; intros index state h Hc; cbn [plan_recipes_headers]; [by apply head_statements_fine|].
  apply fine_bind; [by apply head_statements_fine|]. intros [] c1 Hc1 _; try (by apply fine_ret).
  apply fine_bind; [by apply fine_gets|]. intros mh c2 Hc2 _.
  apply fine_bind; [destruct (planning_gate _ _); [apply on_head_runtime_fine, Hc2; apply header_conditions_fuel|by apply fine_ret]|].
  intros [matched results] c3 Hc3 _. destruct (bool_decide (matched = PM_Deferred) || _).
  { apply fine_bind; [by apply fine_modify|]. intros. by apply fine_ret. }
  apply fine_bind.
  { destruct (bool_decide (matched = PM_True)); [|by apply fine_ret]. apply head_action_fine; [done| |done]. apply Hin. by left. }
  intros [control execution] c4 Hc4 _. assert (forall n', n' ∈ rs -> n' ∈ recipes s) as Hrs by (intros; apply Hin; by right).
  assert (fine_at (head_budget b) c4 (if bool_decide (execution = Succeeded) then modify (head_pending None) else mret tt : M HState (stop EvalError D) ())) as Hpend
    by (case_bool_decide; [by apply fine_modify|by apply fine_ret]).
  destruct control; try (by apply fine_ret); (apply fine_bind; [exact Hpend|]; intros _ c5 Hc5 _; try (by apply fine_ret)). by apply IH.
Qed.
End level.

Lemma plan_headers_fine levels s rc following b h :
  (levels_for s b <= levels)%nat -> head_budget b h -> fine_at (head_budget b) h (plan_headers capture levels s rc following).
Proof.
  revert s rc following b h. induction levels as [|levels IH]; intros s rc following b h Hl Hh.
  { unfold levels_for in Hl. pose proof (nesting_pos s). lia. }
  cbn [plan_headers]. by apply (head_recipes_fine levels).
Qed.
End headers.

(** What planning with the header loads nests as the rest does. *)
Lemma headers_keep_bounded {K : Type} (capture : option (CaptureExecutor (D := D) (K := K))) (p : ExecutionPlan) head runtime (rc : @RuntimeRcState R L) k
    (Hfiles : bounded_files bound rc) :
  let levels := levels_for (root p) MAX_RC_TRANSITIONS in
  (evaluate_headers capture levels p head runtime rc k).1 <> Err OutOfFuel /\ bounded_files bound (hp_rc (evaluate_headers capture levels p head runtime rc k).2).
Proof.
  intros levels. assert (rc_budget MAX_RC_TRANSITIONS rc) as Hrc by (split; [done|lia]). unfold evaluate_headers. destruct (preemptive (root p)); [done|].
  pose proof (plan_headers_fine capture levels (root p) root_context no_requirements MAX_RC_TRANSITIONS
    (initial_header_state head runtime rc k) (le_n _) Hrc) as [H1 [H2 _]].
  destruct (run _ _) as [[[]|e] h]; cbn in *; (split; [|done]); try done; try (by destruct (hp_pending_error h)). by intros [= ->].
Qed.

(** Planning ends.  Where every file the loader gives nests at most [bound]
    sequences, a number of levels that depends on the plan and on [bound] alone
    is enough: planning with the complete message, planning with the header and
    going on from it never need more, whatever the message, the variables and
    the files. *)
Theorem planning_ends {K : Type} (capture : option (CaptureExecutor (D := D) (K := K))) (p : ExecutionPlan) (rc : @RuntimeRcState R L)
    (Hfiles : bounded_files bound rc) :
  let levels := levels_for (root p) MAX_RC_TRANSITIONS in
  (forall m runtime, exists r c, run (plan_complete (D := D) levels m (root p) root_context)
     {| cp_runtime := runtime; cp_execution := empty_fanout; cp_rc := rc |} = (r, c) /\ r <> Err OutOfFuel) /\
  (forall head runtime k, (evaluate_headers capture levels p head runtime rc k).1 <> Err OutOfFuel).
Proof.
  intros levels. assert (rc_budget MAX_RC_TRANSITIONS rc) as Hrc by (split; [done|lia]). split.
  - intros m runtime. destruct (run _ _) as [r c] eqn:Hr. exists r, c. split; [done|].
    pose proof (plan_complete_fine levels m (root p) root_context MAX_RC_TRANSITIONS
      {| cp_runtime := runtime; cp_execution := empty_fanout; cp_rc := rc |} (le_n _) Hrc) as [H _]. by rewrite Hr in H.
  - intros head runtime k. by apply headers_keep_bounded.
Qed.
End fuel.
