(* ===== verification/Ordered.v ===== *)
(** Ordered execution: [src/src/eval/ordered.rs] and [src/src/eval/services.rs].
    Recipes run one after the other and their actions at once: deliveries, pipes,
    captures, header edits, blocks under a lock, and copy blocks, which go on with
    the rest of their sequence on a branch of the state.

    What is done outside the evaluator is the host's, an interface.  A copy block
    that is not waited for runs beside the rest of the sequence; here one of the
    two goes first, as [branch_first] says, and what they share is the state of the
    loaded files, the number of branches and the world outside.  Trace records are left out. *)
From stdpp Require Import gmap pretty.
From S2P Require Import Prelude Effects Numbers Config Limits Utf8 HeaderValue Variables Runtime Settings ShellPattern ShellEval ExprParser Expand.
From S2P Require Import HeaderFields HeaderStore EditedHeader HeaderEdit StructuredHeader Message EvalMessage Mime Binding Conditions Plan RcFile RuntimeRc HeaderPlan.
#[local] Open Scope Z_scope.

(** Source: eval/ordered.rs `pub(super) const MAX_BACKGROUND_COPY_BRANCHES` *)
Definition MAX_BACKGROUND_COPY_BRANCHES : nat := 128.

(** Source: eval/result.rs `pub struct DeliveryOutcome` *)
Record DeliveryOutcome := { do_published : nat; do_original_delivered : bool }.

Section ordered.
Context {T : Target} {R : RegexEngine} {X : ConditionExpander} {L : Type} {loader_impl : RuntimeRcLoader L}.

(** Source: eval/result.rs `pub enum CompletionState` *)
Inductive CompletionState (D : Type) := Completed (outcome : DeliveryOutcome) | Failed_ (error : stop EvalError D).

(** The state of a host is [H], its errors are [D], a lock it holds is a [G] that
    is released when it is dropped.  [spawn_branch] is the start of the thread of
    a branch, which may fail with a reason.  [share_outside from to] is [to] with what
    it shares with [from], the world outside, as [from] left it, and [end_branch] is the end of the thread, where the host of
    the branch is dropped.
    Source: eval/services.rs `pub trait OrderedExecutionHost` *)
Class OrderedExecutionHost (H D G : Type) := {
  host_deliver : Destination -> FinalMessage -> OutputEnding -> option bytes -> M (RuntimeVariables * H) (DeliveryAttemptError D) ();
  external_action : PipeAction -> RecipeOptions -> option bytes -> ExternalActionInput ->
    M (RuntimeVariables * H) (DeliveryAttemptError D) (option Message);
  host_capture : bytes -> MessageBytes -> OutputEnding -> option RecipeOptions -> Z -> M (RuntimeVariables * H) (DeliveryAttemptError D) bytes;
  external_condition : bytes -> MessageBytes -> M (RuntimeVariables * H) (DeliveryAttemptError D) bool;
  replace_global_lock : bytes -> M (RuntimeVariables * H) D ();
  acquire_local_lock : bytes -> M (RuntimeVariables * H) (DeliveryAttemptError D) G;
  release_local_lock : G -> H -> H;
  enter_copy_branch : H -> H;
  leave_copy_branch : H -> H;
  fork_copy_branch : H -> option H * H;
  spawn_branch : H -> option bytes * H;
  share_outside : H -> H -> H;
  end_branch : H -> H;
  finish_background : M H D ();
  complete : MessageBytes -> CompletionState D -> RuntimeVariables * H -> RuntimeVariables * H;
  (** an error that stands for a panic, which unwinds past everything that looks at
      errors, up to the end of its thread *)
  host_panicked : D -> bool;
}.
Context {H D G : Type} {host_impl : OrderedExecutionHost H D G}.

(** The number of branches that were started is shared by all branches.
    Source: eval/ordered.rs `struct OrderedTreeExecution` *)
Record OrderedState := {
  os_current : CurrentMessage; os_runtime : RuntimeVariables; os_host : H; os_published : nat; os_original_delivered : bool;
  os_pending_error : option D; os_rc : @RuntimeRcState R L; os_branches : nat;
}.
Abbreviation Executing := (M OrderedState (stop EvalError D)) (only parsing).

Definition os_with_current (c : CurrentMessage) (s : OrderedState) : OrderedState :=
  {| os_current := c; os_runtime := os_runtime s; os_host := os_host s; os_published := os_published s;
     os_original_delivered := os_original_delivered s; os_pending_error := os_pending_error s; os_rc := os_rc s; os_branches := os_branches s |}.
Definition os_with_runtime (r : RuntimeVariables) (s : OrderedState) : OrderedState :=
  {| os_current := os_current s; os_runtime := r; os_host := os_host s; os_published := os_published s;
     os_original_delivered := os_original_delivered s; os_pending_error := os_pending_error s; os_rc := os_rc s; os_branches := os_branches s |}.
Definition os_with_host (h : H) (s : OrderedState) : OrderedState :=
  {| os_current := os_current s; os_runtime := os_runtime s; os_host := h; os_published := os_published s;
     os_original_delivered := os_original_delivered s; os_pending_error := os_pending_error s; os_rc := os_rc s; os_branches := os_branches s |}.
Definition os_with_published (n : nat) (s : OrderedState) : OrderedState :=
  {| os_current := os_current s; os_runtime := os_runtime s; os_host := os_host s; os_published := n;
     os_original_delivered := os_original_delivered s; os_pending_error := os_pending_error s; os_rc := os_rc s; os_branches := os_branches s |}.
Definition os_with_delivered (b : bool) (s : OrderedState) : OrderedState :=
  {| os_current := os_current s; os_runtime := os_runtime s; os_host := os_host s; os_published := os_published s;
     os_original_delivered := b; os_pending_error := os_pending_error s; os_rc := os_rc s; os_branches := os_branches s |}.
Definition os_with_pending (e : option D) (s : OrderedState) : OrderedState :=
  {| os_current := os_current s; os_runtime := os_runtime s; os_host := os_host s; os_published := os_published s;
     os_original_delivered := os_original_delivered s; os_pending_error := e; os_rc := os_rc s; os_branches := os_branches s |}.
Definition os_with_rc (rc : RuntimeRcState) (s : OrderedState) : OrderedState :=
  {| os_current := os_current s; os_runtime := os_runtime s; os_host := os_host s; os_published := os_published s;
     os_original_delivered := os_original_delivered s; os_pending_error := os_pending_error s; os_rc := rc; os_branches := os_branches s |}.
Definition os_with_branches (n : nat) (s : OrderedState) : OrderedState :=
  {| os_current := os_current s; os_runtime := os_runtime s; os_host := os_host s; os_published := os_published s;
     os_original_delivered := os_original_delivered s; os_pending_error := os_pending_error s; os_rc := os_rc s; os_branches := n |}.
Definition os_host_part (s : OrderedState) : RuntimeVariables * H := (os_runtime s, os_host s).
Definition os_with_host_part (p : RuntimeVariables * H) (s : OrderedState) : OrderedState := os_with_host p.2 (os_with_runtime p.1 s).

Definition on_variables {A} (m : M RuntimeVariables (stop EvalError D) A) : Executing A := Effects.on os_runtime os_with_runtime m.
Definition evaluation {A} (r : result EvalError A) : Executing A := of_result (map_err Evaluation r).
(** A call of the host, its error as a value. *)
Definition call {A E} (m : M (RuntimeVariables * H) E A) : Executing (result E A) :=
  Comp (fun s => let '(r, p) := run m (os_host_part s) in (Ok r, os_with_host_part p s)).

(** Source: eval/ordered.rs `pub(super) fn reserve` *)
Definition reserve (line : nat) : Executing () :=
  Comp (fun s =>
    if (os_branches s <? MAX_BACKGROUND_COPY_BRANCHES)%nat then (Ok tt, os_with_branches (S (os_branches s)) s)
    else (Err (Evaluation (E_BackgroundCopyUnavailable line
            (B "the limit of " ++ decimal MAX_BACKGROUND_COPY_BRANCHES ++ B " branches per message was reached"))), s)).

Abbreviation Acting := (M OrderedState (stop EvalError D) (ActionExecution * SequenceControl)) (only parsing).
(** Source: eval/ordered.rs `fn action_succeeded` *)
Definition action_succeeded (control : SequenceControl) : Acting := _ ← modify (os_with_pending None); mret (Succeeded, control).
(** Source: eval/ordered.rs `fn action_failed(` *)
Definition action_failed (e : D) : Acting := _ ← modify (os_with_pending (Some e)); mret (Failed, SC_Continue).
(** Source: eval/ordered.rs `fn action_failed_fatally` *)
Definition action_failed_fatally (e : D) : Acting := stop_with (Delivery e).
(** The two arms every action has for an error of the host. *)
Definition attempted {A} (r : result (DeliveryAttemptError D) A) (succeeded : A -> Acting) : Acting :=
  match r with
  | Ok a => succeeded a
  | Err (Recoverable e) => action_failed e
  | Err (Fatal e) => action_failed_fatally e
  end.

(** * Expressions *)

(** Source: eval/ordered.rs `struct OrderedExpressionEvaluation` *)
Record OrderedExpressionEvaluation := { oe_line : nat; oe_value_name : bytes; oe_message : MessageBytes; oe_runtime : RuntimeVariables; oe_host : H }.
Definition oe_expansion (c : OrderedExpressionEvaluation) (message : bytes) : stop EvalError D :=
  Evaluation (E_Expansion {| ex_line := oe_line c; ex_message := message |}).

(** Source: eval/ordered.rs `fn command(&mut self` *)
Definition ordered_command (c : OrderedExpressionEvaluation) (command : bytes) (remaining : Z)
    : result (stop EvalError D) bytes * OrderedExpressionEvaluation :=
  let '(captured, (runtime, host)) := run (host_capture command (oe_message c) Preserve None remaining) (oe_runtime c, oe_host c) in
  (match captured with
   | Ok output => map_err Evaluation (validate_captured_value output remaining (oe_value_name c) StripAll)
   | Err (Recoverable e) | Err (Fatal e) => Err (Delivery e)
   end,
   {| oe_line := oe_line c; oe_value_name := oe_value_name c; oe_message := oe_message c; oe_runtime := runtime; oe_host := host |}).
(** Source: eval/ordered.rs `fn regex_quoted` *)
Definition ordered_regex_quoted (c : OrderedExpressionEvaluation) (name : bytes) (remaining : Z) : result (stop EvalError D) bytes :=
  source ← ok_or (oe_expansion c (B "variable " ++ name ++ B " is not defined")) (get_bytes (oe_runtime c) name);
  map_err (fun e => Evaluation (E_Expansion e)) (push_regex_escaped [] source remaining (oe_line c)).

(** Source: eval/ordered.rs `impl<E, T> EvaluationContext for OrderedExpressionEvaluation` *)
#[export] Instance ordered_context : EvaluationContext OrderedExpressionEvaluation (stop EvalError D) := {|
  depth_mode _ := ED_None;
  variable c name := (Ok ((fun b => {| vv_bytes := b; vv_depth := 0 |}) <$> get_bytes (oe_runtime c) name), c);
  command := ordered_command;
  regex_quoted c name remaining := (ordered_regex_quoted c name remaining, c);
  missing_variable c name := oe_expansion c (B "variable " ++ name ++ B " is not defined");
  required_parameter c name := oe_expansion c (B "parameter " ++ name ++ B " is unset or empty");
  pattern_error c error := oe_expansion c (pattern_error_text error);
  unsupported_part c _ := oe_expansion c (B "expression part is not supported during ordered evaluation");
  depth_exceeded c := Evaluation (E_Expansion (expansion_depth_error (oe_line c)));
  depth_overflow c := oe_expansion c (B "variable expansion depth overflows");
  length_error c error current _ :=
    Evaluation (E_VariableValueTooLarge (oe_value_name c)
      match error with LengthOverflow => usize_max | BB_LimitExceeded attempted => Z.of_nat (Nat.max attempted current) end);
|}.

(** Source: eval/ordered.rs `fn evaluate_shell_expression` *)
Definition evaluate_shell_expression (expression : ShellExpression) (line : nat) (value_name : bytes) (message : MessageBytes) (limit : Z)
    : M (RuntimeVariables * H) (stop EvalError D) bytes :=
  Comp (fun '(runtime, host) =>
    let '(evaluated, c) := evaluate expression limit
      {| oe_line := line; oe_value_name := value_name; oe_message := message; oe_runtime := runtime; oe_host := host |} in
    match evaluated with
    | Err e => (Err e, (oe_runtime c, oe_host c))
    | Ok evaluated =>
        (Ok (er_bytes evaluated),
         (foldl (fun r '(name, value) => set_bytes r name value) (oe_runtime c) (er_assignments evaluated), oe_host c))
    end).
(** On the whole state. *)
Definition evaluate_here (expression : ShellExpression) (line : nat) (value_name : bytes) (message : MessageBytes) (limit : Z) : Executing bytes :=
  Effects.on os_host_part os_with_host_part (evaluate_shell_expression expression line value_name message limit).

(** * Conditions *)

Section message.
(** The message as it was staged, and the limits of the plan. *)
Context (message : CompleteMessage) (limits : MessageLimits).

Definition current_view (s : OrderedState) : CompleteMessage := view_message (os_current s) message.

(** Source: eval/ordered.rs:380-428 `matches_ordered (the expansion)` *)
Definition expand_condition_here (shell : ShellExpandedCondition) (line : nat) : Executing bytes :=
  view ← gets current_view;
  expression ← of_result (map_err (fun e => Evaluation (E_Expansion e))
    (compiled_or_parsed parse_shell_condition_expression (se_expansion shell) (se_source shell) line));
  runtime ← gets os_runtime;
  limit ← of_result (map_err (fun e => Evaluation (runtime_setting_eval_error e)) (linebuf (settings_at_line runtime line)));
  expanded ← evaluate_here expression line (B "shell-expanded condition") (final_bytes view) limit;
  if valid_utf8 expanded then mret expanded
  else stop_with (Evaluation (E_RuntimeCondition line (B "shell-expanded condition contains non-UTF-8 data"))).

(** The rest of one iteration, with the resolved condition. *)
Definition matches_resolved (c : CompiledCondition) : Executing bool :=
  view ← gets current_view;
  match program c with
  | Some (command, input) =>
      answer ← call (external_condition command (program_input view input));
      match answer with
      | Ok matched => mret (apply_negation c matched)
      | Err (Recoverable e) | Err (Fatal e) => stop_with (Delivery e)
      end
  | None =>
      Comp (fun s => match matches_complete c view (os_runtime s) with
                     | Ok (matched, runtime) => (Ok matched, os_with_runtime runtime s)
                     | Err e => (Err (Evaluation e), s)
                     end)
  end.

(** Source: eval/ordered.rs `fn matches_ordered` *)
Fixpoint conditions_match_ordered (cs : list CompiledCondition) : Executing bool :=
  match cs with
  | [] => mret true
  | c :: rest =>
      resolved ← resolve_shell_expansion_with parse_reparsed_condition expand_condition_here Evaluation c;
      matched ← matches_resolved (default c resolved);
      if matched : bool then conditions_match_ordered rest else mret false
  end.

(** * Actions *)

(** Source: eval/ordered.rs:470-513 `execute_ordered_action (Capture)` *)
Definition capture_ordered (action : CaptureAction) (options : RecipeOptions) : Acting :=
  s ← gets id;
  limit ← of_result (active_command_value_limit (os_runtime s) (cap_target action) (cap_line action));
  captured ← call (host_capture (cap_command action) (action_input_bytes (current_view s) (action_input options)) (output_ending options) (Some options) limit);
  attempted captured (fun output =>
    value ← evaluation (validate_captured_value output limit (cap_name action) StripOne);
    _ ← modify (fun s => os_with_runtime (set_bytes (os_runtime s) (cap_name action) value) s);
    action_succeeded SC_Continue).

(** Source: eval/ordered.rs:514-566 `execute_ordered_action (Headers)` *)
Definition headers_ordered (n : CompiledNode) (action : HeaderAction) : Acting :=
  s ← gets id;
  let view := current_view s in
  action ← evaluation (map_err E_Expansion (resolve_header_action action (get (os_runtime s))));
  applied ← evaluation (map_err (E_HeaderEdit (node_line n))
              (apply_header_action (complete_header_view view) (length (complete_body view)) action limits));
  _ ← (if changed_from applied (complete_header_view view) then
         current ← evaluation (map_err (E_HeaderEdit (node_line n))
                     (replace_header (os_current s) (ap_header applied) (complete_body message) limits));
         modify (os_with_current current)
       else mret tt);
  _ ← modify (fun s => os_with_runtime (apply_header_extractions (os_runtime s) (extraction_pair <$> ap_extractions applied)) s);
  action_succeeded SC_Continue.

(** Source: eval/ordered.rs:567-643 `execute_ordered_action (Pipe)` *)
Definition pipe_ordered (n : CompiledNode) (action : PipeAction) (options : RecipeOptions) : Acting :=
  s ← gets id;
  let view := current_view s in
  let input := {| ea_selected := action_input_bytes view (action_input options); ea_header := raw_header view; ea_body := complete_body view |} in
  lock ← evaluation (map_err E_Expansion (resolve_lock n (os_runtime s)));
  answer ← call (external_action action options lock input);
  attempted answer (fun replacement =>
    if bool_decide (action_mode options = Filter_) then
      filtered ← evaluation (ok_or (E_InvalidExternalActionResult (node_line n) (B "filter completed without a replacement message")) replacement);
      _ ← modify (fun s => os_with_current (replace (os_current s) filtered (action_input options)) s);
      action_succeeded SC_Continue
    else if bool_decide (is_Some replacement) then
      stop_with (Evaluation (E_InvalidExternalActionResult (node_line n) (B "non-filter pipe returned a replacement message")))
    else if bool_decide (continuation options = CM_Stop) then
      _ ← modify (os_with_delivered true); action_succeeded SC_Stop
    else action_succeeded SC_Continue).

(** Source: eval/ordered.rs:649-688 `execute_ordered_action (the destination)` *)
Definition ordered_destination (destination : Destination) : Executing Destination :=
  s ← gets id;
  match command_expression destination with
  | Some parts =>
      value_limit ← of_result (active_command_value_limit (os_runtime s) User (destination_line destination));
      let limit := Z.min value_limit MAX_PATH_EXPRESSION_LEN in
      output ← evaluate_here parts (destination_line destination) (B "destination") (final_bytes (current_view s)) limit;
      if valid_utf8 output then
        s ← gets id;
        evaluation (map_err E_Expansion (resolve_ordered_output destination output (settings_maildir (new_settings (os_runtime s)))))
      else stop_with (Evaluation (E_DestinationCommandOutputIsNotUtf8 (destination_line destination)))
  | None => evaluation (map_err E_Expansion (bind_with destination (get (os_runtime s))))
  end.

(** Source: eval/ordered.rs:644-714 `execute_ordered_action (Deliver)` *)
Definition deliver_ordered (n : CompiledNode) (destination : Destination) (mode : ContinuationMode) (ending : OutputEnding) : Acting :=
  view ← gets current_view;
  destination ← ordered_destination destination;
  s ← gets id;
  lock ← evaluation (map_err E_Expansion (resolve_lock n (os_runtime s)));
  answer ← call (host_deliver destination (final_message view) ending lock);
  attempted answer (fun _ =>
    _ ← modify (fun s => os_with_published (S (os_published s)) s);
    if bool_decide (mode = CM_Stop) then
      _ ← modify (os_with_delivered true); action_succeeded SC_Stop
    else action_succeeded SC_Continue).

(** * Statements and sequences *)

Definition ordered_enter (kind : RcStatementKind) (e : RcFileExpression) (rc : RcExecutionContext) : Executing EnteredRuntimeRc :=
  Comp (fun s =>
    let '(r, rc_state) := run (enter_runtime_rc kind e rc (os_runtime s)) (os_rc s) in (map_err Evaluation r, os_with_rc rc_state s)).
Definition ordered_global_lock (path : bytes) : Executing () :=
  answer ← call (replace_global_lock path);
  of_result (map_err Delivery answer).

(** Source: eval/ordered.rs `fn execute_command_assignment` *)
Definition execute_command_assignment (a : CompiledCommandAssignment) : Executing () :=
  let assignment := cca_assignment a in
  s ← gets id;
  limit ← of_result (active_command_value_limit (os_runtime s) (ca_target assignment) (ca_line assignment));
  value ← evaluate_here (ca_expression assignment) (loc_line (cca_location a)) (ca_name assignment) (final_bytes (current_view s)) limit;
  s ← gets id;
  runtime ← evaluation (apply_assignment {| ra_name := ca_name assignment; ra_target := ca_target assignment; ra_value := value; ra_line := ca_line assignment |}
                          (os_runtime s));
  modify (os_with_runtime runtime).

Section level.
Context (execute_below : CompiledSequence -> RcExecutionContext -> Acting).

(** Source: eval/ordered.rs `fn execute_runtime_rc` *)
Definition ordered_execute_rc (sequence : CompiledSequence) (path : bytes) (child : RcExecutionContext) : Acting :=
  caller ← Comp (fun s => let '(runtime, caller) := replace_current_rc_file (os_runtime s) (Some path) in (Ok caller, os_with_runtime runtime s));
  always (execute_below sequence child) (fun s => os_with_runtime (replace_current_rc_file (os_runtime s) caller).1 s).

(** Source: eval/ordered.rs:757-832 `execute_statements_ordered (loop body)` *)
Definition execute_statement_ordered (rc : RcExecutionContext) (s : CompiledStatement) : Executing SequenceControl :=
  match s with
  | CSt_CommandAssignment a => _ ← execute_command_assignment a; mret SC_Continue
  | CSt_Assignment a =>
      _ ← on_variables (run_assignment a);
      _ ← (if bool_decide (as_target (cas_assignment a) = LockFile)
           then s ← gets id; ordered_global_lock (default [] (get (os_runtime s) (B "LOCKFILE"))) else mret tt);
      mret SC_Continue
  | CSt_Unset u =>
      _ ← modify (fun s => os_with_runtime (execute_unset u (os_runtime s)) s);
      _ ← (if bool_decide (un_target (cun_unset u) = LockFile) then ordered_global_lock [] else mret tt);
      mret SC_Continue
  | CSt_Host a =>
      here ← on_variables (execute_host_assignment a);
      if here : bool then mret SC_Continue
      else _ ← modify (fun s => os_with_pending None (os_with_delivered true s)); mret SC_EndRcFile
  | CSt_Include e =>
      entered ← ordered_enter RK_Include e rc;
      found ← evaluation (entered_sequence entered);
      match found with
      | None => mret SC_Continue
      | Some (sequence, path, child) =>
          '(_, control) ← ordered_execute_rc sequence path child;
          mret (match control with SC_Stop => SC_Stop | _ => SC_Continue end)
      end
  | CSt_Switch e =>
      entered ← ordered_enter RK_Switch e rc;
      if entered_is_empty entered then mret SC_EndRcFile
      else
        found ← evaluation (entered_sequence entered);
        match found with
        | None => mret SC_Continue
        | Some (sequence, path, child) =>
            '(_, control) ← ordered_execute_rc sequence path child;
            mret (match control with SC_Stop => SC_Stop | _ => SC_EndRcFile end)
        end
  end.
(** Source: eval/ordered.rs `fn execute_statements_ordered` *)
Fixpoint execute_statements_ordered (rc : RcExecutionContext) (ss : list CompiledStatement) : Executing SequenceControl :=
  match ss with
  | [] => mret SC_Continue
  | s :: rest =>
      control ← execute_statement_ordered rc s;
      match control with SC_Continue => execute_statements_ordered rc rest | other => mret other end
  end.

(** * Blocks *)

(** The lock of a block is held while its recipes run, however they end.
    Source: eval/ordered.rs:715-751 `execute_ordered_action (Block)` *)
Definition execute_block (n : CompiledNode) (children : CompiledSequence) (rc : RcExecutionContext) : Acting :=
  _ ← modify (os_with_pending None);
  s ← gets id;
  lock ← evaluation (map_err E_Expansion (resolve_lock n (os_runtime s)));
  let body :=
    '(action, control) ← execute_below children rc;
    mret (action, if bool_decide (control = SC_SequenceComplete) then SC_Continue else control) in
  match lock with
  | None => body
  | Some path =>
      acquired ← call (acquire_local_lock path);
      attempted acquired (fun guard => always body (fun s => os_with_host (release_local_lock guard (os_host s)) s))
  end.

(** Source: eval/ordered.rs `fn execute_ordered_action` *)
Definition execute_ordered_action (n : CompiledNode) (rc : RcExecutionContext) : Acting :=
  match node_action n with
  | CA_Capture action options => capture_ordered action options
  | CA_Headers action => headers_ordered n action
  | CA_Pipe action options => pipe_ordered n action options
  | CA_Deliver destination mode ending => deliver_ordered n destination mode ending
  | CA_Block children => execute_block n children rc
  end.

Definition is_copy_block (n : CompiledNode) : bool :=
  match node_action n with CA_Block _ => bool_decide (node_continuation n = CM_Continue) | _ => false end.
Definition waited (n : CompiledNode) : bool :=
  negb (bool_decide (node_child_status n = CS_Ignore)) || bool_decide (is_Some (node_lock n)).
(** Source: eval/ordered.rs `fn is_waited_copy_block` *)
Definition is_waited_copy_block (n : CompiledNode) : bool := is_copy_block n && waited n.
(** Source: eval/ordered.rs `fn is_unwaited_copy_block` *)
Definition is_unwaited_copy_block (n : CompiledNode) : bool := is_copy_block n && negb (waited n).

(** What a branch does: the block, and the rest of the sequence after it.
    Source: eval/ordered.rs:218-227 `execute_waited_copy_block (branch)` *)
Definition copy_branch (n : CompiledNode) (rc : RcExecutionContext) (state : SequenceState) (rest : SequenceState -> Acting) : Acting :=
  '(action, control) ← execute_ordered_action n rc;
  match control with
  | SC_Continue => rest (record state (node_control n) true action false)
  | _ => mret (action, control)
  end.

(** What the parent has back after a branch it waited for: its variables, its
    message, its pending error and its delivery, not the host nor what the
    branch published. *)
Definition restore_parent (parent branch : OrderedState) : OrderedState :=
  {| os_current := os_current parent; os_runtime := (fork (os_runtime parent)).1; os_host := leave_copy_branch (os_host branch);
     os_published := os_published branch; os_original_delivered := os_original_delivered parent;
     os_pending_error := os_pending_error parent; os_rc := os_rc branch; os_branches := os_branches branch |}.
Definition enter_branch (s : OrderedState) : OrderedState :=
  os_with_host (enter_copy_branch (os_host s)) (os_with_pending None (os_with_runtime (fork (os_runtime s)).2 s)).

(** Source: eval/ordered.rs `fn execute_waited_copy_block` *)
Definition execute_waited_copy_block (n : CompiledNode) (rc : RcExecutionContext) (state : SequenceState) (rest : SequenceState -> Acting)
    : Acting :=
  Comp (fun parent =>
    let '(r, branch) := run (copy_branch n rc state rest) (enter_branch parent) in
    let parent := restore_parent parent branch in
    match r with
    | Err e => (Err e, parent)
    | Ok _ =>
        match os_pending_error branch with
        | Some e => run (action_failed e) parent
        | None => run (action_succeeded SC_Continue) parent
        end
    end).

(** Which of a branch and its parent goes first, by the line of the block. *)
Context (branch_first : nat -> bool).

Definition branch_unavailable (n : CompiledNode) (reason : bytes) : stop EvalError D := Evaluation (E_BackgroundCopyUnavailable (node_line n) reason).

(** The state a branch starts with. *)
Definition new_branch (s : OrderedState) (branch_host : H) : OrderedState :=
  {| os_current := os_current s; os_runtime := (fork (os_runtime s)).2; os_host := branch_host; os_published := 0;
     os_original_delivered := false; os_pending_error := None; os_rc := os_rc s; os_branches := os_branches s |}.
(** What a branch and its parent share, as [from] left it. *)
Definition share (from to : OrderedState) : OrderedState :=
  os_with_host (share_outside (os_host from) (os_host to)) (os_with_branches (os_branches from) (os_with_rc (os_rc from) to)).

Definition panicking {A} (r : result (stop EvalError D) A) : bool := match r with Err (Delivery e) => host_panicked e | _ => false end.
(** The thread of a branch; a panic leaves it at once, and drops its host.
    Source: eval/ordered.rs:299-327 `execute_unwaited_copy_block (thread)` *)
Definition run_branch (branch : Acting) (s : OrderedState)
    : result (stop EvalError D) (ActionExecution * SequenceControl) * result D () * OrderedState :=
  let '(execution, s) := run branch s in
  if panicking execution then (execution, Ok tt, os_with_host (end_branch (os_host s)) s)
  else
    let '(supervision, host) := run finish_background (os_host s) in
    (execution, supervision, os_with_host (end_branch host) s).
Definition branch_panicked (execution : result (stop EvalError D) (ActionExecution * SequenceControl)) (supervision : result D ()) : bool :=
  panicking execution || match supervision with Err e => host_panicked e | Ok _ => false end.

(** The result of the parent after the join.  A panic of the parent goes on when its
    scope has waited for the branch; one of the branch is what the join says.
    Source: eval/ordered.rs:337-368 `execute_unwaited_copy_block (join)` *)
Definition joined (n : CompiledNode) (published : nat) (execution : result (stop EvalError D) (ActionExecution * SequenceControl))
    (supervision : result D ()) (parent : result (stop EvalError D) (ActionExecution * SequenceControl))
    : result (stop EvalError D) (ActionExecution * SequenceControl) :=
  if panicking parent then parent
  else if branch_panicked execution supervision then Err (branch_unavailable n (B "the branch worker terminated unexpectedly"))
  else if usize_max <? Z.of_nat published then Err (branch_unavailable n (B "published destination count overflows"))
  else
    match supervision, execution with
    | Err e, _ => Err (Delivery e)
    | Ok _, Err (Evaluation e) => Err (Evaluation e)
    | Ok _, Err OutOfFuel => Err OutOfFuel
    | Ok _, _ => '(action, _) ← parent; Ok (action, SC_SequenceComplete)
    end.

(** Source: eval/ordered.rs `fn execute_unwaited_copy_block` *)
Definition execute_unwaited_copy_block (n : CompiledNode) (rc : RcExecutionContext) (state : SequenceState) (rest : SequenceState -> Acting)
    : Acting :=
  _ ← reserve (node_line n);
  forked ← Comp (fun s => let '(forked, host) := fork_copy_branch (os_host s) in (Ok forked, os_with_host host s));
  branch_host ← of_result (ok_or (branch_unavailable n (B "the execution host cannot create an isolated branch")) forked);
  branch ← Comp (fun s => (Ok (new_branch s branch_host), os_with_runtime (fork (os_runtime s)).1 s));
  refused ← Comp (fun s => let '(refused, host) := spawn_branch (os_host s) in (Ok refused, os_with_host host s));
  match refused with
  | Some reason => stop_with (branch_unavailable n reason)
  | None =>
      let parent := rest (record state (node_control n) true Succeeded false) in
      Comp (fun s =>
        let '(execution, supervision, branch, result, s) :=
          if branch_first (node_line n) then
            let '(execution, supervision, branch) := run_branch (copy_branch n rc state rest) (share s branch) in
            let '(result, s) := run parent (share branch s) in (execution, supervision, branch, result, s)
          else
            let '(result, s) := run parent s in
            let '(execution, supervision, branch) := run_branch (copy_branch n rc state rest) (share s branch) in
            (execution, supervision, branch, result, share branch s) in
        let published := if branch_panicked execution supervision then os_published s else (os_published s + os_published branch)%nat in
        (joined n published execution supervision result, os_with_published published s))
  end.

(** * The loop *)

Definition selected_action (n : CompiledNode) (rc : RcExecutionContext) (state : SequenceState) (rest : SequenceState -> Acting) : Acting :=
  if is_waited_copy_block n then execute_waited_copy_block n rc state rest
  else if is_unwaited_copy_block n then execute_unwaited_copy_block n rc state rest
  else execute_ordered_action n rc.

Definition latest_action (so_far latest : ActionExecution) : ActionExecution :=
  match latest with NotAttempted => so_far | _ => latest end.

(** [sequence_action] starts anew where a copy block goes on with the sequence.
    Source: eval/ordered.rs `fn execute_ordered_from` *)
Fixpoint execute_ordered_from (trailing : list CompiledStatement) (rc : RcExecutionContext) (sequence_action : ActionExecution)
    (rs : list CompiledNode) (state : SequenceState) : Acting :=
  match rs with
  | [] => control ← execute_statements_ordered rc trailing; mret (sequence_action, control)
  | n :: rest =>
      control ← execute_statements_ordered rc (preceding_statements n);
      match control with
      | SC_Continue =>
          matched ← (if execution_gate (node_control n) state then conditions_match_ordered (node_conditions n) else mret false);
          '(action, control) ← (if matched : bool then selected_action n rc state (execute_ordered_from trailing rc Succeeded rest)
                                else mret (NotAttempted, SC_Continue));
          let sequence_action := latest_action sequence_action action in
          match control with
          | SC_Continue =>
              execute_ordered_from trailing rc sequence_action rest
                (record state (node_control n) matched action (else_handled (node_control n) state matched))
          | other => mret (sequence_action, other)
          end
      | other => mret (sequence_action, other)
      end
  end.
End level.

(** Source: eval/ordered.rs `fn execute_ordered<H>@1` *)
Fixpoint execute_ordered (branch_first : nat -> bool) (levels : nat) (s : CompiledSequence) (rc : RcExecutionContext) : Acting :=
  match levels with
  | O => stop_with OutOfFuel
  | S levels' =>
      execute_ordered_from (execute_ordered branch_first levels') branch_first (trailing_statements s) rc Succeeded (recipes s) initial_state
  end.
End message.

(** * The plan *)

Definition new_execution (limits : MessageLimits) (runtime : RuntimeVariables) (host : H) (rc : RuntimeRcState) : OrderedState :=
  {| os_current := no_replacement; os_runtime := runtime; os_host := host; os_published := 0; os_original_delivered := false;
     os_pending_error := None; os_rc := rc; os_branches := 0 |}.

(** The result of the execution and of the processes it left running.
    Source: eval/ordered.rs:1053-1065 `ExecutionPlan::execute_ordered (result)` *)
Definition execution_result (execution : result (stop EvalError D) (ActionExecution * SequenceControl)) (background : result D ())
    (s : OrderedState) : result (stop EvalError D) DeliveryOutcome :=
  match background, execution with
  | Err e, _ => Err (Delivery e)
  | Ok _, Err e => Err e
  | Ok _, Ok _ =>
      match os_pending_error s with
      | Some e => Err (Delivery e)
      | None => Ok {| do_published := os_published s; do_original_delivered := os_original_delivered s |}
      end
  end.

(** The state is the one before the call where nothing was run.  A panic goes on
    past the end of the execution.
    Source: eval/ordered.rs:1022-1087 `execute_ordered (ExecutionPlan)` *)
Definition plan_execute_ordered (branch_first : nat -> bool) (levels : nat) (p : ExecutionPlan) (input : MappedMessageInput)
    (runtime : RuntimeVariables) (host : H) (rc : RuntimeRcState) : result (stop EvalError D) DeliveryOutcome * option OrderedState :=
  match complete_message input (plan_needs_full_matching p rc), RuntimeRc.message_limits p with
  | None, _ => (Err (Evaluation E_BodyWasNotBuffered), None)
  | Some _, Err e => (Err (Evaluation (E_MessageLimits e)), None)
  | Some message, Ok limits =>
      let '(execution, s) := run (execute_ordered message limits branch_first levels (root p) root_context) (new_execution limits runtime host rc) in
      if panicking execution then (execution_result execution (Ok tt) s, Some s)
      else
        let '(background, host) := run finish_background (os_host s) in
        let s := os_with_host host s in
        let result := execution_result execution background s in
        let completion := match result with Ok outcome => Completed D outcome | Err e => Failed_ D e end in
        (result, if panicking result then Some s
                 else Some (os_with_host_part (complete (final_bytes (view_message (os_current s) message)) completion (os_host_part s)) s))
  end.
End ordered.
