(* ===== verification/OrderedFacts.v ===== *)
(** Facts about ordered execution ([Ordered]): what its parts leave alone, the
    locks and the branches of a whole execution, and what a branch that is waited
    for leaves of its parent's state. *)
From stdpp Require Import gmap pretty.
From S2P Require Import Prelude Effects Config Limits Utf8 HeaderValue Variables Runtime Settings ShellPattern ShellEval ShellEvalKeeps ExprParser Expand.
From S2P Require Import HeaderFields HeaderStore EditedHeader HeaderEdit StructuredHeader Message EvalMessage Mime Binding Conditions Plan PlanFacts RcFile RuntimeRc RuntimeRcFacts HeaderPlan Ordered.
#[local] Open Scope Z_scope.

(** * Steps that keep to a relation of hosts *)

Section steps.
Context {T : Target} {R : RegexEngine} {X : ConditionExpander} {L : Type} {loader_impl : RuntimeRcLoader L}.
Context {H D G : Type} {host_impl : OrderedExecutionHost H D G}.
Abbreviation State := (OrderedState (H := H) (D := D) (L := L)) (only parsing).
Abbreviation Executing := (M State (stop EvalError D)) (only parsing).

(** What a call may do to the host. *)
Context (HR : H -> H -> Prop) {HR_preorder : PreOrder HR}.

Definition call_keeps {A E} (m : M (RuntimeVariables * H) E A) : Prop := forall p, HR p.2 (run m p).2.2.
Record host_keeps : Prop := {
  hk_deliver : forall d bytes ending lock, call_keeps (host_deliver d bytes ending lock);
  hk_action : forall action options lock input, call_keeps (external_action action options lock input);
  hk_capture : forall command input ending options limit, call_keeps (host_capture command input ending options limit);
  hk_condition : forall command input, call_keeps (external_condition command input);
  hk_global_lock : forall path, call_keeps (replace_global_lock path);
  hk_fork : forall h, HR h (fork_copy_branch h).2;
  hk_spawn : forall h, HR h (spawn_branch h).2;
  hk_share : forall from h, HR h (share_outside from h);
  hk_finish : forall h, HR h (run finish_background h).2;
  hk_branch : forall h h', HR (enter_copy_branch h) h' -> HR h (leave_copy_branch h');
}.
Context (Hhost : host_keeps).

(** A step that leaves the files and the count of branches, keeps to the
    relation and asks for no levels. *)
Definition quiet {A} (m : Executing A) : Prop := forall s,
  (run m s).1 <> Err OutOfFuel /\ os_rc (run m s).2 = os_rc s /\ os_branches (run m s).2 = os_branches s /\ HR (os_host s) (os_host (run m s).2).

Lemma quiet_ret {A} (a : A) : quiet (mret a).
Proof. by intros s. Qed.
Lemma quiet_gets {A} (f : State -> A) : quiet (gets f).
Proof. by intros s. Qed.
Lemma quiet_modify (f : State -> State) :
  (forall s, os_rc (f s) = os_rc s /\ os_branches (f s) = os_branches s /\ os_host (f s) = os_host s) -> quiet (modify f).
Proof. intros Hf s. destruct (Hf s) as (Hrc & Hb & Hh). cbn. by rewrite Hh. Qed.
Lemma quiet_stop {A} e : e <> OutOfFuel -> quiet (stop_with (A := A) e).
Proof. intros He s. by split; [intros [= ->]|]. Qed.
Lemma quiet_of_result {A} (r : result (stop EvalError D) A) : r <> Err OutOfFuel -> quiet (of_result r).
Proof. by intros Hr s. Qed.
Lemma quiet_mapped {A E} (f : E -> stop EvalError D) (r : result E A) : (forall e, f e <> OutOfFuel) -> quiet (of_result (map_err f r)).
Proof. intros Hf. apply quiet_of_result. destruct r; [done|]. intros [= He]. by eapply Hf. Qed.
Lemma quiet_evaluation {A} (r : result EvalError A) : quiet (evaluation r).
Proof. by apply quiet_mapped. Qed.
Lemma quiet_bind {A C} (m : Executing A) (f : A -> Executing C) : quiet m -> (forall a, quiet (f a)) -> quiet (m ≫= f).
Proof.
  intros Hm Hf s. rewrite run_bind. destruct (Hm s) as (Hr & Hrc & Hb & Hh). destruct (run m s) as [[a|e] s1]; cbn in *.
  - destruct (Hf a s1) as (Hr' & Hrc' & Hb' & Hh'). rewrite Hrc', Hb'. split_and!; [done|done|done|by etransitivity].
  - split_and!; [by intros [= ->]|done..].
Qed.
Lemma quiet_call {A E} (m : M (RuntimeVariables * H) E A) : call_keeps m -> quiet (call m).
Proof. intros Hm s. unfold call. cbn. specialize (Hm (os_host_part s)). by destruct (run m _) as [r p]. Qed.
Lemma quiet_on_variables {A} (m : M RuntimeVariables (stop EvalError D) A) : (forall r, (run m r).1 <> Err OutOfFuel) -> quiet (on_variables m).
Proof. intros Hm s. unfold on_variables, Effects.on. cbn. specialize (Hm (os_runtime s)). by destruct (run m _) as [r p]. Qed.
Lemma quiet_runtime {A} (f : RuntimeVariables -> result EvalError (A * RuntimeVariables)) :
  quiet (Comp (fun s => match f (os_runtime s) with Ok (a, r) => (Ok a, os_with_runtime r s) | Err e => (Err (Evaluation e), s) end)).
Proof. intros s. cbn. by destruct (f (os_runtime s)) as [[a r]|e]. Qed.

(** ** Expressions *)

Lemma ordered_context_keeps h : keeping (C := OrderedExpressionEvaluation (H := H)) (E := stop EvalError D)
  (fun c => HR h (oe_host c)) (fun e => e <> OutOfFuel).
Proof.
  constructor; try done.
  - intros c text limit Hc. unfold answers, command. cbn. unfold ordered_command.
    pose proof (hk_capture Hhost text (oe_message c) Preserve None limit (oe_runtime c, oe_host c)) as Hk.
    destruct (run _ _) as [captured [r h']]. cbn in *. split; [by etransitivity|].
    destruct captured as [o|[e|e]]; cbn; try (by intros ? [= <-]). destruct (validate_captured_value _ _ _ _); [done|]. by intros ? [= <-].
  - intros c name limit Hc. split; [done|]. cbn. unfold ordered_regex_quoted. intros e.
    destruct (get_bytes _ _); cbn; [|by intros [= <-]]. destruct (push_regex_escaped _ _ _ _); [done|]. by intros [= <-].
Qed.
Lemma quiet_evaluate expression line name message limit : quiet (evaluate_here expression line name message limit).
Proof.
  intros s. unfold evaluate_here, Effects.on. cbn.
  destruct (evaluate_keeps (C := OrderedExpressionEvaluation (H := H)) (E := stop EvalError D) _ _ (ordered_context_keeps (os_host s)) expression limit
    {| oe_line := line; oe_value_name := name; oe_message := message; oe_runtime := os_runtime s; oe_host := os_host s |} ltac:(cbn; reflexivity)) as [Hh He].
  destruct (evaluate _ _ _) as [[v|e] c]; cbn in *; [done|]. split_and!; [|done..]. intros [= ->]. by apply (He OutOfFuel).
Qed.
Lemma quiet_limit runtime target line : quiet (of_result (active_command_value_limit runtime target line)).
Proof. apply quiet_of_result. unfold active_command_value_limit. by destruct (linebuf _). Qed.

Create HintDb quiet.
#[local] Hint Resolve quiet_ret quiet_gets quiet_evaluation quiet_evaluate quiet_limit : quiet.
#[local] Hint Extern 1 (quiet (stop_with _)) => by apply quiet_stop : quiet.
#[local] Hint Extern 1 (quiet (modify _)) => by apply quiet_modify : quiet.
#[local] Hint Extern 1 (quiet (of_result (map_err _ _))) => apply quiet_mapped; by intros ? : quiet.
#[local] Hint Extern 1 (quiet (call _)) => apply quiet_call; apply Hhost : quiet.
#[local] Hint Extern 2 (quiet (_ ≫= _)) => apply quiet_bind; [|intros ?] : quiet.
#[local] Hint Extern 3 (quiet (match ?x with _ => _ end)) => destruct x : quiet.
#[local] Hint Extern 3 (quiet (if ?x then _ else _)) => destruct x : quiet.
Ltac quiet := solve [auto 30 with quiet].

(** ** Conditions *)

Context (message : CompleteMessage) (limits : MessageLimits).

Lemma quiet_expand shell line : quiet (expand_condition_here message shell line).
Proof. unfold expand_condition_here. quiet. Qed.
Lemma quiet_expansion_loop fuel c condition area case_sensitive negated :
  quiet (expansion_loop parse_reparsed_condition (expand_condition_here message) Evaluation fuel c condition area case_sensitive negated).
Proof.
  revert condition negated. induction fuel as [|fuel IH]; intros condition negated; cbn [expansion_loop]; [quiet|].
  apply quiet_bind; [apply quiet_expand|]. intros text. apply quiet_bind; [apply quiet_mapped; by intros []|]. intros parsed. destruct (cond_kind parsed); auto with quiet.
Qed.
Lemma quiet_resolve c : quiet (resolve_shell_expansion_with parse_reparsed_condition (expand_condition_here message) Evaluation c).
Proof. unfold resolve_shell_expansion_with. generalize (S MAX_EXPANSION_DEPTH). intros fuel. destruct (cc_kind c); [apply quiet_expansion_loop|quiet..]. Qed.
Lemma quiet_resolved c : quiet (matches_resolved message c).
Proof.
  unfold matches_resolved. apply quiet_bind; [quiet|]. intros view. destruct (program c) as [[command input]|].
  - apply quiet_bind; [quiet|]. intros [|[]]; quiet.
  - apply (quiet_runtime (matches_complete c view)).
Qed.
Lemma quiet_conditions cs : quiet (conditions_match_ordered message cs).
Proof.
  induction cs as [|c cs IH]; cbn [conditions_match_ordered]; [quiet|]. apply quiet_bind; [apply quiet_resolve|]. intros found.
  apply quiet_bind; [apply quiet_resolved|]. intros []; [done|quiet].
Qed.

(** ** Actions *)

Lemma quiet_attempted {A} (r : result (DeliveryAttemptError D) A) f : (forall a, quiet (f a)) -> quiet (attempted r f).
Proof. intros Hf. destruct r as [a|[e|e]]; [apply Hf| |]; unfold attempted, action_failed, action_failed_fatally; quiet. Qed.
#[local] Hint Resolve quiet_attempted : quiet.
#[local] Hint Extern 1 (quiet (action_succeeded _)) => unfold action_succeeded : quiet.

Lemma quiet_destination d : quiet (ordered_destination message d).
Proof. unfold ordered_destination. quiet. Qed.
Lemma quiet_action n : (forall children, node_action n <> CA_Block children) -> quiet (
  match node_action n with
  | CA_Capture action options => capture_ordered message action options
  | CA_Headers action => headers_ordered message limits n action
  | CA_Pipe action options => pipe_ordered message n action options
  | CA_Deliver destination mode ending => deliver_ordered message n destination mode ending
  | CA_Block children => stop_with OutOfFuel
  end).
Proof.
  intros Hn. destruct (node_action n) as [d mode ending|action options|action options|children|action]; [| | |by destruct (Hn children)|].
  - unfold deliver_ordered. apply quiet_bind; [quiet|]. intros view. apply quiet_bind; [apply quiet_destination|]. quiet.
  - unfold pipe_ordered. quiet.
  - unfold capture_ordered. quiet.
  - unfold headers_ordered. quiet.
Qed.

(** ** Whole executions *)

(** A step, levels or not, that keeps to the relation and to the bound on
    branches. *)
Definition kept {A} (m : Executing A) : Prop := forall s,
  HR (os_host s) (os_host (run m s).2) /\ ((os_branches s <= MAX_BACKGROUND_COPY_BRANCHES)%nat -> (os_branches (run m s).2 <= MAX_BACKGROUND_COPY_BRANCHES)%nat).

Lemma kept_quiet {A} (m : Executing A) : quiet m -> kept m.
Proof. intros Hm s. destruct (Hm s) as (_ & _ & -> & Hh). done. Qed.
Lemma kept_bind {A C} (m : Executing A) (f : A -> Executing C) : kept m -> (forall a, kept (f a)) -> kept (m ≫= f).
Proof.
  intros Hm Hf s. rewrite run_bind. destruct (Hm s) as [Hh Hb]. destruct (run m s) as [[a|e] s1]; cbn in *; [|done].
  destruct (Hf a s1) as [Hh' Hb']. split; [by etransitivity|auto].
Qed.
Lemma kept_stop {A} e : kept (stop_with (A := A) e).
Proof. by intros s. Qed.
(** A change of the state that leaves the host and the branches. *)
Lemma kept_comp {A} (f : State -> result (stop EvalError D) A * State) :
  (forall s, os_host (f s).2 = os_host s /\ os_branches (f s).2 = os_branches s) -> kept (Comp f).
Proof. intros Hf s. cbn. by destruct (Hf s) as [-> ->]. Qed.
Lemma kept_always {A} (m : Executing A) after :
  kept m -> (forall s, os_host (after s) = os_host s /\ os_branches (after s) = os_branches s) -> kept (always m after).
Proof. intros Hm Ha s. unfold always. cbn. destruct (Hm s) as [Hh Hb]. destruct (run m s) as [r s1]. cbn in *. by destruct (Ha s1) as [-> ->]. Qed.

(** A lock that was acquired is given back when it is released. *)
Definition locks_given_back : Prop := forall path p,
  match run (acquire_local_lock path) p with
  | (Ok guard, p') => forall h, HR p'.2 h -> HR p.2 (release_local_lock guard h)
  | (Err _, p') => HR p.2 p'.2
  end.
Context (Hlock : locks_given_back) (branch_first : nat -> bool).

Section level.
Context (below : CompiledSequence -> RcExecutionContext -> Executing (ActionExecution * SequenceControl)).
Context (Hbelow : forall s rc, kept (below s rc)).

Lemma kept_enter kind e rc : kept (ordered_enter kind e rc).
Proof. apply kept_comp. intros s. by destruct (run _ (os_rc s)). Qed.
Lemma kept_rc sequence path child : kept (ordered_execute_rc below sequence path child).
Proof. apply kept_bind; [by apply kept_comp|]. intros caller. by apply kept_always. Qed.
Lemma quiet_global_lock path : quiet (ordered_global_lock path).
Proof. unfold ordered_global_lock. quiet. Qed.
#[local] Hint Resolve quiet_global_lock : quiet.
Lemma quiet_assignment a : quiet (on_variables (run_assignment a)).
Proof. apply quiet_on_variables. intros r. unfold run_assignment. cbn. by destruct (execute_assignment a r). Qed.
Lemma quiet_host_assignment a : quiet (on_variables (execute_host_assignment a)).
Proof.
  apply quiet_on_variables. intros r. unfold execute_host_assignment. rewrite run_bind. unfold run_assignment. cbn.
  destruct (execute_assignment a r); [|done]. cbn. by destruct (matches_host _ _).
Qed.
#[local] Hint Resolve quiet_assignment quiet_host_assignment : quiet.

(** The statements that do not load a file. *)
Lemma quiet_statement rc st : (forall e, st <> CSt_Include e /\ st <> CSt_Switch e) -> quiet (execute_statement_ordered message below rc st).
Proof.
  intros Hst. destruct st as [a|u|a|a|e|e]; cbn [execute_statement_ordered]; try (by destruct (Hst e)).
  - apply quiet_bind; [quiet|]. quiet.
  - quiet.
  - unfold execute_command_assignment. quiet.
  - quiet.
Qed.
Lemma kept_statement rc st : kept (execute_statement_ordered message below rc st).
Proof.
  destruct st as [a|u|a|a|e|e].
  1-4: apply kept_quiet, quiet_statement; by intros.
  all: cbn [execute_statement_ordered]; apply kept_bind; [apply kept_enter|]; intros entered.
  2: destruct (entered_is_empty entered); [apply kept_quiet; quiet|].
  all: (apply kept_bind; [apply kept_quiet; quiet|]; intros [[[sequence path] child]|]; [|apply kept_quiet; quiet];
        apply kept_bind; [apply kept_rc|]; intros [action control]; apply kept_quiet; quiet).
Qed.
Lemma kept_statements rc ss : kept (execute_statements_ordered message below rc ss).
Proof.
  induction ss as [|st ss IH]; cbn [execute_statements_ordered]; [apply kept_quiet; quiet|].
  apply kept_bind; [apply kept_statement|]. intros []; [done|apply kept_quiet; quiet..].
Qed.

Lemma kept_block n children rc : kept (execute_block below n children rc).
Proof.
  unfold execute_block. apply kept_bind; [apply kept_quiet; quiet|]. intros _. apply kept_bind; [apply kept_quiet; quiet|]. intros s0.
  apply kept_bind; [apply kept_quiet; quiet|]. intros lock. cbv zeta.
  set (body := '(action, control) ← below children rc; _ : Executing (ActionExecution * SequenceControl)).
  assert (kept body) as Hbody.
  { apply kept_bind; [apply Hbelow|]. intros [action control]. apply kept_quiet; quiet. }
  destruct lock as [path|]; [|done]. intros s. rewrite run_bind. unfold call. cbn [run].
  pose proof (Hlock path (os_host_part s)) as Hp. destruct (run (acquire_local_lock path) (os_host_part s)) as [[guard|error] p'].
  - cbn [attempted]. unfold always. cbn [run]. destruct (Hbody (os_with_host_part p' s)) as [Hh Hb].
    destruct (run body _) as [r s1]. cbn in *. split; [by apply Hp|done].
  - pose proof (quiet_attempted (A := G) (Err error) (fun _ => stop_with OutOfFuel)) as Hq.
    destruct error as [e|e]; cbn; split; try done.
Qed.
Lemma kept_action n rc : kept (execute_ordered_action message limits below n rc).
Proof.
  unfold execute_ordered_action. pose proof (quiet_action n) as Hn.
  destruct (node_action n); [apply kept_quiet, Hn; by intros..|apply kept_block|apply kept_quiet, Hn; by intros].
Qed.

Section rest.
Context (rest : SequenceState -> Executing (ActionExecution * SequenceControl)) (Hrest : forall state, kept (rest state)).

Lemma kept_copy_branch n rc state : kept (copy_branch message limits below n rc state rest).
Proof. apply kept_bind; [apply kept_action|]. intros [action []]; [apply Hrest|apply kept_quiet; quiet..]. Qed.
Lemma kept_waited n rc state : kept (execute_waited_copy_block message limits below n rc state rest).
Proof.
  intros s. unfold execute_waited_copy_block. cbn [run]. destruct (kept_copy_branch n rc state (enter_branch s)) as [Hh Hb].
  destruct (run _ (enter_branch s)) as [r b]. cbn in *. apply (hk_branch Hhost) in Hh.
  destruct r as [r|e]; [|done]. by destruct (os_pending_error b).
Qed.
Lemma kept_run_branch n rc state s r1 r2 s' :
  run_branch (copy_branch message limits below n rc state rest) s = (r1, r2, s') ->
  (os_branches s <= MAX_BACKGROUND_COPY_BRANCHES)%nat -> (os_branches s' <= MAX_BACKGROUND_COPY_BRANCHES)%nat.
Proof.
  unfold run_branch. pose proof (kept_copy_branch n rc state s) as [_ Hb]. destruct (run _ s) as [e s1].
  destruct (panicking e); [by intros [= <- <- <-]|]. destruct (run finish_background _) as [v h]. by intros [= <- <- <-].
Qed.
Lemma kept_unwaited n rc state : kept (execute_unwaited_copy_block message limits below branch_first n rc state rest).
Proof.
  unfold execute_unwaited_copy_block. apply kept_bind.
  { intros s. unfold reserve. cbn [run]. destruct (Nat.ltb_spec (os_branches s) MAX_BACKGROUND_COPY_BRANCHES) as [Hlt|_]; [|done].
    split; [done|]. intros _. exact Hlt. }
  intros _. apply kept_bind.
  { intros s. cbn. pose proof (hk_fork Hhost (os_host s)) as Hf. by destruct (fork_copy_branch (os_host s)). }
  intros forked. apply kept_bind; [apply kept_quiet, quiet_of_result; by destruct forked|]. intros branch_host.
  apply kept_bind; [by apply kept_comp|]. intros branch. apply kept_bind.
  { intros s. cbn. pose proof (hk_spawn Hhost (os_host s)) as Hf. by destruct (spawn_branch (os_host s)). }
  intros [reason|]; [apply kept_stop|]. cbv zeta. set (parent := rest _).
  assert (kept parent) as Hparent by apply Hrest. intros s. cbn [run]. destruct (branch_first (node_line n)).
  - destruct (run_branch _ _) as [[r1 r2] b] eqn:Hb. pose proof (kept_run_branch _ _ _ _ _ _ _ Hb) as Hbr. clear Hb.
    destruct (Hparent (share b s)) as [Hh Hp]. destruct (run parent (share b s)) as [r s1]. cbn in *.
    split; [by etransitivity; [apply (hk_share Hhost)|]|]. auto.
  - destruct (Hparent s) as [Hh Hp]. destruct (run parent s) as [r s1]. cbn in *.
    destruct (run_branch _ _) as [[r1 r2] b] eqn:Hb. pose proof (kept_run_branch _ _ _ _ _ _ _ Hb) as Hbr. clear Hb. cbn in *.
    split; [by etransitivity; [|apply (hk_share Hhost)]|]. auto.
Qed.
End rest.

Lemma kept_from trailing rc sequence_action rs state :
  kept (execute_ordered_from message limits below branch_first trailing rc sequence_action rs state).
Proof.
  revert sequence_action state. induction rs as [|n rs IH]; intros sequence_action state; cbn [execute_ordered_from].
  { apply kept_bind; [apply kept_statements|]. intros control. apply kept_quiet; quiet. }
  apply kept_bind; [apply kept_statements|]. intros []; [|apply kept_quiet; quiet..].
  apply kept_bind; [apply kept_quiet; destruct (execution_gate _ _); [apply quiet_conditions|quiet]|]. intros matched.
  apply kept_bind.
  - destruct matched; [|apply kept_quiet; quiet]. unfold selected_action.
    destruct (is_waited_copy_block n); [apply kept_waited, IH|]. destruct (is_unwaited_copy_block n); [apply kept_unwaited, IH|apply kept_action].
  - intros [action []]; [apply IH|apply kept_quiet; quiet..].
Qed.
End level.

Lemma execution_kept levels s rc : kept (execute_ordered message limits branch_first levels s rc).
Proof. revert s rc. induction levels as [|levels IH]; intros s rc; cbn [execute_ordered]; [apply kept_stop|by apply kept_from]. Qed.
End steps.

(** * Locks and branches *)

Section resources.
Context {T : Target} {R : RegexEngine} {X : ConditionExpander} {L : Type} {loader_impl : RuntimeRcLoader L}.
Context {H D G : Type} {host_impl : OrderedExecutionHost H D G}.

(** A count of the recipe locks that are held: one more where a lock is
    acquired, one less where it is released, and the same elsewhere. *)
Record counts_locks (held : H -> nat) : Prop := {
  cl_ordinary : host_keeps (fun h h' => held h' = held h);
  cl_acquire : forall path p,
    match run (acquire_local_lock path) p with
    | (Ok _, p') => held p'.2 = S (held p.2)
    | (Err _, p') => held p'.2 = held p.2
    end;
  cl_release : forall guard h, held (release_local_lock guard h) = pred (held h);
}.

#[local] Instance same_count_preorder (held : H -> nat) : PreOrder (fun h h' => held h' = held h).
Proof. split; [by intros h|]. intros h1 h2 h3 H1 H2. by rewrite H2. Qed.

(** C6: The resources of an execution.  However an execution ends, with an
    error of the evaluation or of the host, with levels that were not enough,
    after copy blocks, loaded files and blocks under locks, every recipe lock it
    took is released; and no message starts more branches than the limit. *)
Theorem execution_releases_locks (held : H -> nat) (message : CompleteMessage) (limits : MessageLimits) (branch_first : nat -> bool) (levels : nat)
    (s : CompiledSequence) (rc : RcExecutionContext) (runtime : RuntimeVariables) (host : H) (files : RuntimeRcState) (Hcounts : counts_locks held) :
  let '(_, s') := run (execute_ordered (D := D) message limits branch_first levels s rc) (new_execution limits runtime host files) in
  held (os_host s') = held host /\ (os_branches s' <= MAX_BACKGROUND_COPY_BRANCHES)%nat.
Proof.
  destruct Hcounts as [Hordinary Hacquire Hrelease].
  assert (locks_given_back (fun h h' => held h' = held h)) as Hlock.
  { intros path p. specialize (Hacquire path p). destruct (run (acquire_local_lock path) p) as [[guard|e] p']; [|done].
    intros h Hh. by rewrite Hrelease, Hh, Hacquire. }
  pose proof (execution_kept _ Hordinary message limits Hlock branch_first levels s rc (new_execution limits runtime host files)) as [Hh Hb].
  destruct (run _ _) as [r s']. cbn in *. split; [done|]. apply Hb. lia.
Qed.
End resources.

(** * Branches that are waited for *)

Section isolation.
Context {T : Target} {R : RegexEngine} {X : ConditionExpander} {L : Type} {loader_impl : RuntimeRcLoader L}.
Context {H D G : Type} {host_impl : OrderedExecutionHost H D G}.

(** Whatever the branch does, the parent goes on with its own message, delivery
    and variables; of the branch's errors it sees the pending one, as the failure
    of the block. *)
Lemma waited_branch_isolated message limits below n rc state rest (s : OrderedState (H := H) (D := D) (L := L)) :
  let '(r, s') := run (execute_waited_copy_block message limits below n rc state rest) s in
  os_current s' = os_current s /\ os_original_delivered s' = os_original_delivered s /\
  (forall name, get (os_runtime s') name = get (os_runtime s) name /\ get_bytes (os_runtime s') name = get_bytes (os_runtime s) name) /\
  match r with
  | Err _ => os_pending_error s' = os_pending_error s
  | Ok (action, control) => control = SC_Continue /\ action = (if os_pending_error s' is Some _ then Failed else Succeeded)
  end.
Proof.
  assert (forall name, get (fork (os_runtime s)).1 name = get (os_runtime s) name /\ get_bytes (fork (os_runtime s)).1 name = get_bytes (os_runtime s) name) as Hget.
  { intros name. unfold get, get_bytes. by rewrite <-!(special_flatten _ (fork (os_runtime s)).1), (proj1 (flatten_fork _)), !special_flatten. }
  unfold execute_waited_copy_block. cbn [run]. destruct (run (copy_branch _ _ _ _ _ _ _) (enter_branch s)) as [[r|e] b]; [|done].
  destruct (os_pending_error b); done.
Qed.
End isolation.

(** * A host that keeps a record *)

(** What a delivery was asked to do, with the mask in force. *)
Record Performed := { pf_destination : Destination; pf_message : FinalMessage; pf_ending : OutputEnding; pf_lock : option bytes; pf_umask : Z }.
Record SampleHost := { sh_held : nat; sh_performed : list Performed }.

Definition sample_perform (d : Destination) (message : FinalMessage) (ending : OutputEnding) (lock : option bytes)
    : M (RuntimeVariables * SampleHost) (DeliveryAttemptError ()) () :=
  Comp (fun '(runtime, h) =>
    match umask (new_settings runtime) with
    | Ok mask =>
        (Ok tt, (runtime, {| sh_held := sh_held h;
                             sh_performed := sh_performed h ++ [{| pf_destination := d; pf_message := message; pf_ending := ending; pf_lock := lock; pf_umask := mask |}] |}))
    | Err _ => (Err (Recoverable tt), (runtime, h))
    end).
(** Every delivery succeeds, no command runs, and a branch has a record of its
    own. *)
#[export] Instance sample_host : OrderedExecutionHost SampleHost () () := {|
  host_deliver d message ending lock := sample_perform d message ending lock;
  external_action _ _ _ _ := stop_with (Recoverable tt);
  host_capture _ _ _ _ _ := stop_with (Recoverable tt);
  external_condition _ _ := stop_with (Recoverable tt);
  replace_global_lock _ := mret tt;
  acquire_local_lock _ := Comp (fun p => (Ok tt, (p.1, {| sh_held := S (sh_held p.2); sh_performed := sh_performed p.2 |})));
  release_local_lock _ h := {| sh_held := pred (sh_held h); sh_performed := sh_performed h |};
  enter_copy_branch h := h;
  leave_copy_branch h := h;
  fork_copy_branch h := (Some {| sh_held := 0; sh_performed := [] |}, h);
  spawn_branch h := (None, h);
  share_outside _ h := h;
  end_branch h := h;
  finish_background := mret tt;
  complete _ _ p := p;
  host_panicked _ := false;
|}.

Lemma sample_counts : counts_locks sh_held.
Proof.
  split; [|done|done]. split; try done. intros d message ending lock [runtime h]. cbn. by destruct (umask _).
Qed.

Definition sample_path (path : bytes) : PathExpression := {|
  pe_source := path; pe_base := None; pe_location := sample_location; pe_runtime_dependent := false; pe_runtime_base := false;
  pe_typed_destination := false; pe_expansion := None |}.
(** A block under a lock with one delivery, as a copy. *)
Definition locked_block {R : RegexEngine} : Statement :=
  S_Recipe (MkRecipe 1 1 (sample_options Independent) (Some (sample_path (B "/tmp/block.lock"))) []
    (RA_Block [S_Recipe (MkRecipe 2 2 (sample_options Independent) None [] (RA_Deliver (sample_maildir (B "/mail/in"))))])).
Definition no_expander : ConditionExpander := Build_ConditionExpander Settings.no_regex (fun _ _ _ => Ok []) (fun _ _ _ => Err (0%nat, [])).
Definition locked_execution : result (stop EvalError ()) (ActionExecution * SequenceControl) * OrderedState (R := Settings.no_regex) (L := ()) (H := SampleHost) (D := ()) :=
  run (execute_ordered (X := no_expander) (loader_impl := empty_loader) (Mapped [] 0 None None) default_limits (fun _ => true) 3
         (compile (R := Settings.no_regex) [locked_block] [] sample_location) root_context)
      (new_execution default_limits (default_runtime (B "7")) {| sh_held := 4; sh_performed := [] |} (new_rc_state (Some tt))).

Lemma execution_releases_locks_witness :
  (sh_held (os_host locked_execution.2) = 4%nat /\ (os_branches locked_execution.2 <= MAX_BACKGROUND_COPY_BRANCHES)%nat) /\
  length (sh_performed (os_host locked_execution.2)) = 1%nat.
Proof.
  pose proof (execution_releases_locks (X := no_expander) (loader_impl := empty_loader) sh_held (Mapped [] 0 None None) default_limits (fun _ => true) 3
    (compile (R := Settings.no_regex) [locked_block] [] sample_location) root_context (default_runtime (B "7"))
    {| sh_held := 4; sh_performed := [] |} (new_rc_state (Some tt)) sample_counts) as H.
  split; [|vm_compute; reflexivity]. change (let '(_, s') := locked_execution in
    sh_held (os_host s') = 4%nat /\ (os_branches s' <= MAX_BACKGROUND_COPY_BRANCHES)%nat) in H.
  destruct locked_execution as [r s']. exact H.
Defined.
