(* ===== verification/OrderedFuel.v ===== *)
(** Ordered execution ends ([Ordered]): the levels that are enough for planning
    are enough for execution, whatever the host answers. *)
From stdpp Require Import gmap.
From S2P Require Import Prelude Config Limits Utf8 HeaderValue Variables Runtime Settings ShellEval Expand Effects HeaderFields HeaderStore EditedHeader HeaderEdit.
From S2P Require Import StructuredHeader Message EvalMessage Mime Binding Conditions Plan PlanFacts RcFile RuntimeRc RuntimeRcFacts HeaderPlan HeaderPlanFuel Ordered OrderedFacts.
#[local] Open Scope Z_scope.

Section fuel.
Context {T : Target} {R : RegexEngine} {X : ConditionExpander} {L : Type} {loader_impl : RuntimeRcLoader L} {invariant : LoaderInvariant L}.
Context {H D G : Type} {host_impl : OrderedExecutionHost H D G}.
Context (bound : nat) (Hbound : bounded_loader bound).
Context (message : CompleteMessage) (limits : MessageLimits) (branch_first : nat -> bool).
Abbreviation State := (OrderedState (H := H) (D := D) (L := L)) (only parsing).
Abbreviation Executing := (M State (stop EvalError D)) (only parsing).
Abbreviation quiet := (OrderedFacts.quiet (D := D) (L := L) (fun (_ _ : H) => True)).

#[local] Instance any_preorder : PreOrder (fun _ _ : H => True).
Proof. by split. Qed.
Lemma any_host : host_keeps (fun _ _ : H => True).
Proof. by constructor. Qed.
#[local] Hint Resolve any_host : core.

Definition ordered_budget (b : nat) (s : State) : Prop := rc_budget bound b (os_rc s).

Lemma quiet_fine {A} (m : Executing A) b s : quiet m -> ordered_budget b s -> fine_at (ordered_budget b) s m.
Proof. intros Hm Hs. destruct (Hm s) as (Hr & Hrc & _). split; [done|]. unfold ordered_budget in *. by rewrite Hrc. Qed.

Section level.
Context (levels : nat) (below : CompiledSequence -> RcExecutionContext -> Executing (ActionExecution * SequenceControl)).
Context (Hbelow : forall s rc b c, (levels_for bound s b <= levels)%nat -> ordered_budget b c -> fine_at (ordered_budget b) c (below s rc)).

Lemma ordered_rc_fine b c sequence path child :
  (nesting sequence <= bound)%nat -> (1 <= b)%nat -> (b * bound <= levels)%nat -> ordered_budget (b - 1) c ->
  fine_at (ordered_budget b) c (ordered_execute_rc below sequence path child).
Proof.
  intros Hn Hb Hl Hc. apply (fine_weaken _ (ordered_budget (b - 1))); [intros c'; apply rc_budget_more; lia|].
  apply fine_bind; [by split|]. intros caller c' Hc' _. apply fine_always; [by intros c''|]. apply Hbelow; [|done].
  unfold levels_for. replace (b * bound)%nat with (bound + (b - 1) * bound)%nat in Hl by nia. lia.
Qed.

Lemma ordered_rc_statement_fine kind e rc b c (answer : SequenceControl -> SequenceControl) :
  (b * bound <= levels)%nat -> ordered_budget b c ->
  fine_at (ordered_budget b) c (entered ← ordered_enter kind e rc;
    if is_switch kind && entered_is_empty entered then mret SC_EndRcFile
    else
      found ← evaluation (entered_sequence entered);
      match found with
      | None => mret SC_Continue
      | Some (sequence, path, child) => '(_, control) ← ordered_execute_rc below sequence path child; mret (answer control)
      end).
Proof.
  intros Hl Hc. unfold ordered_enter, fine_at. rewrite run_bind. cbn [run].
  destruct (run (enter_runtime_rc kind e rc (os_runtime c)) (os_rc c)) as [r rcs] eqn:Hr.
  apply (enter_budget bound Hbound b) in Hr as [Hc' Hen]; [|done]. destruct r as [en|error]; cbn [map_err]; [|by split].
  destruct (is_switch kind && _); [by split|].
  apply (fine_bind (ordered_budget b) (os_with_rc rcs c) (evaluation (entered_sequence en))); [by apply fine_evaluated|].
  intros found c1 Hc1 Hf. unfold evaluation in Hf. rewrite run_of_result in Hf.
  destruct (entered_sequence en) as [f|] eqn:He; [|discriminate Hf]. injection Hf as <- <-.
  destruct f as [[[sequence path] child]|]; [|by apply fine_ret].
  destruct (Hen en sequence path child eq_refl He) as (Hb & Hc2 & Hn).
  apply fine_bind; [by apply ordered_rc_fine|]. intros [action control] c2 Hc3 _. by apply fine_ret.
Qed.

Lemma ordered_statement_fine rc st b c :
  (b * bound <= levels)%nat -> ordered_budget b c -> fine_at (ordered_budget b) c (execute_statement_ordered message below rc st).
Proof.
  intros Hl Hc. destruct st as [a|u|a|a|e|e].
  1-4: apply quiet_fine; [|done]; apply quiet_statement; auto; by intros.
  - exact (ordered_rc_statement_fine RK_Include e rc b c (fun control => match control with SC_Stop => SC_Stop | _ => SC_Continue end) Hl Hc).
  - exact (ordered_rc_statement_fine RK_Switch e rc b c (fun control => match control with SC_Stop => SC_Stop | _ => SC_EndRcFile end) Hl Hc).
Qed.
Lemma ordered_statements_fine rc ss b c :
  (b * bound <= levels)%nat -> ordered_budget b c -> fine_at (ordered_budget b) c (execute_statements_ordered message below rc ss).
Proof.
  intros Hl. revert c. induction ss as [|st ss IH]; intros c Hc; cbn [execute_statements_ordered]; [by apply fine_ret|].
  apply fine_bind; [by apply ordered_statement_fine|]. intros [] c1 Hc1 _; try (by apply fine_ret). by apply IH.
Qed.

Lemma block_fine n children rc b c :
  (levels_for bound children b <= levels)%nat -> ordered_budget b c -> fine_at (ordered_budget b) c (execute_block below n children rc).
Proof.
  intros Hl Hc. unfold execute_block. apply fine_bind; [by apply fine_modify|]. intros _ c1 Hc1 _.
  apply fine_bind; [by apply fine_gets|]. intros s c2 Hc2 _. apply fine_bind; [by apply fine_evaluated|]. intros lock c3 Hc3 _.
  assert (forall c', ordered_budget b c' -> fine_at (ordered_budget b) c'
    ('(action, control) ← below children rc; mret (action, if bool_decide (control = SC_SequenceComplete) then SC_Continue else control))) as Hbody.
  { intros c' Hc'. apply fine_bind; [by apply Hbelow|]. intros [action control] c4 Hc4 _. by apply fine_ret. }
  cbv zeta. destruct lock as [path|]; [|by apply Hbody].
  apply fine_bind; [apply quiet_fine; [|done]; by apply quiet_call|]. intros [guard|[e|e]] c4 Hc4 _; [|by split..].
  cbn [attempted]. apply fine_always; [by intros|by apply Hbody].
Qed.
Lemma action_fine n rc b c :
  (forall children, node_action n = CA_Block children -> (levels_for bound children b <= levels)%nat) -> ordered_budget b c ->
  fine_at (ordered_budget b) c (execute_ordered_action message limits below n rc).
Proof.
  intros Hn Hc. unfold execute_ordered_action. pose proof (quiet_action (D := D) (L := L) (fun _ _ : H => True) any_host message limits n) as Hq.
  destruct (node_action n); [apply quiet_fine; [|done]; apply Hq; by intros..|by apply block_fine; [apply Hn|]|apply quiet_fine; [|done]; apply Hq; by intros].
Qed.

Section rest.
Context (b : nat) (rest : SequenceState -> Executing (ActionExecution * SequenceControl)).
Context (Hrest : forall state c, ordered_budget b c -> fine_at (ordered_budget b) c (rest state)).
Context (n : CompiledNode) (Hn : forall children, node_action n = CA_Block children -> (levels_for bound children b <= levels)%nat).

Lemma copy_branch_fine rc state c : ordered_budget b c -> fine_at (ordered_budget b) c (copy_branch message limits below n rc state rest).
Proof. intros Hc. apply fine_bind; [by apply action_fine|]. intros [action []] c1 Hc1 _; [by apply Hrest|by apply fine_ret..]. Qed.
Lemma waited_fine rc state c : ordered_budget b c -> fine_at (ordered_budget b) c (execute_waited_copy_block message limits below n rc state rest).
Proof.
  intros Hc. unfold fine_at, execute_waited_copy_block. cbn [run].
  destruct (copy_branch_fine rc state (enter_branch c) Hc) as [Hr Hb]. destruct (run _ (enter_branch c)) as [[r|e] c1]; cbn in *.
  - by destruct (os_pending_error c1).
  - split; [by intros [= ->]|done].
Qed.
Lemma run_branch_fine rc state c execution supervision c' :
  ordered_budget b c -> run_branch (copy_branch message limits below n rc state rest) c = (execution, supervision, c') ->
  execution <> Err OutOfFuel /\ ordered_budget b c'.
Proof.
  intros Hc. unfold run_branch. destruct (copy_branch_fine rc state c Hc) as [Hr Hb]. destruct (run _ c) as [e c1].
  destruct (panicking e); [by intros [= <- <- <-]|]. destruct (run finish_background _) as [v h]. by intros [= <- <- <-].
Qed.
Lemma joined_fuel published execution supervision parent :
  execution <> Err OutOfFuel -> parent <> Err OutOfFuel -> joined (D := D) n published execution supervision parent <> Err OutOfFuel.
Proof.
  intros He Hp. unfold joined. destruct (panicking parent); [done|]. destruct (branch_panicked _ _); [by unfold branch_unavailable|].
  destruct (usize_max <? _); [by unfold branch_unavailable|].
  destruct supervision; [|done]. destruct execution as [x|[]]; try done; destruct parent as [[]|[]]; cbn; congruence.
Qed.
Lemma unwaited_fine rc state c :
  ordered_budget b c -> fine_at (ordered_budget b) c (execute_unwaited_copy_block message limits below branch_first n rc state rest).
Proof.
  intros Hc. unfold execute_unwaited_copy_block. apply fine_bind.
  { unfold fine_at, reserve. cbn [run]. by destruct (_ <? _)%nat. }
  intros _ c1 Hc1 _. apply fine_bind; [unfold fine_at; cbn; by destruct (fork_copy_branch _)|]. intros forked c2 Hc2 _.
  apply fine_bind; [apply fine_of_result; [by destruct forked|done]|]. intros branch_host c3 Hc3 _.
  apply fine_bind; [by split|]. intros branch c4 Hc4 _.
  apply fine_bind; [unfold fine_at; cbn; by destruct (spawn_branch _)|]. intros [reason|] c5 Hc5 _; [by apply fine_stop|]. cbv zeta.
  set (parent := rest _). assert (forall c, ordered_budget b c -> fine_at (ordered_budget b) c parent) as Hparent by (intros; by apply Hrest).
  unfold fine_at. cbn [run]. destruct (branch_first (node_line n)).
  - destruct (run_branch _ _) as [[r1 r2] c6] eqn:Hb. apply run_branch_fine in Hb as [Hr1 Hc6]; [|done].
    destruct (Hparent (share c6 c5) Hc6) as [Hr Hc7]. destruct (run parent _) as [r c7]. cbn in *. split; [by apply joined_fuel|done].
  - destruct (Hparent c5 Hc5) as [Hr Hc6]. destruct (run parent c5) as [r c6]. cbn in *.
    destruct (run_branch _ _) as [[r1 r2] c7] eqn:Hb. apply run_branch_fine in Hb as [Hr1 Hc7]; [|done]. cbn. split; [by apply joined_fuel|done].
Qed.
End rest.

Lemma ordered_from_fine s trailing rc sequence_action rs state b c :
  (levels_for bound s b <= S levels)%nat -> (forall n, n ∈ rs -> n ∈ recipes s) -> ordered_budget b c ->
  fine_at (ordered_budget b) c (execute_ordered_from message limits below branch_first trailing rc sequence_action rs state).
Proof.
  intros Hl Hin. assert (b * bound <= levels)%nat as Hl' by (pose proof (nesting_pos s); unfold levels_for in Hl; lia).
  revert sequence_action state c. induction rs as [|n rs IH]; intros sequence_action state c Hc; cbn [execute_ordered_from].
  { apply fine_bind; [by apply ordered_statements_fine|]. intros. by apply fine_ret. }
  assert (forall n', n' ∈ rs -> n' ∈ recipes s) as Hrs by (intros; apply Hin; by right). specialize (IH Hrs).
  assert (forall children, node_action n = CA_Block children -> (levels_for bound children b <= levels)%nat) as Hn.
  { intros children Ha. pose proof (nesting_block s n children (Hin n ltac:(left)) Ha). unfold levels_for in *. lia. }
  apply fine_bind; [by apply ordered_statements_fine|]. intros [] c1 Hc1 _; try (by apply fine_ret).
  apply fine_bind; [apply quiet_fine; [|done]; destruct (execution_gate _ _); [by apply quiet_conditions|by apply quiet_ret]|].
  intros matched c2 Hc2 _. apply fine_bind.
  - destruct matched; [|by apply fine_ret]. unfold selected_action.
    destruct (is_waited_copy_block n); [apply waited_fine; [intros; by apply IH|done|done]|].
    destruct (is_unwaited_copy_block n); [apply unwaited_fine; [intros; by apply IH|done|done]|by apply action_fine].
  - intros [action []] c3 Hc3 _; [by apply IH|by apply fine_ret..].
Qed.
End level.

Lemma ordered_fine levels s rc b c :
  (levels_for bound s b <= levels)%nat -> ordered_budget b c -> fine_at (ordered_budget b) c (execute_ordered message limits branch_first levels s rc).
Proof.
  revert s rc b c. induction levels as [|levels IH]; intros s rc b c Hl Hc.
  { unfold levels_for in Hl. pose proof (nesting_pos s). lia. }
  cbn [execute_ordered]. by apply (ordered_from_fine levels _ IH s).
Qed.
End fuel.

(** Execution ends.  Where every file the loader gives nests at most [bound]
    sequences, a number of levels that depends on the plan and on [bound] alone
    is enough to execute the plan: whatever the message, the variables, the
    loaded files, the answers of the host and the order of the branches. *)
Theorem execution_ends {T : Target} {R : RegexEngine} {X : ConditionExpander} {L H D G : Type} {loader_impl : RuntimeRcLoader L} {invariant : LoaderInvariant L}
    {host_impl : OrderedExecutionHost H D G} (bound : nat) (Hbound : bounded_loader bound) (p : ExecutionPlan) (files : @RuntimeRcState R L)
    (Hfiles : bounded_files bound files) (branch_first : nat -> bool) (input : MappedMessageInput) (runtime : RuntimeVariables) (host : H) :
  (plan_execute_ordered (D := D) branch_first (levels_for bound (root p) MAX_RC_TRANSITIONS) p input runtime host files).1 <> Err OutOfFuel.
Proof.
  unfold plan_execute_ordered. destruct (complete_message _ _) as [message|]; [|done]. destruct (message_limits p) as [limits|e]; [|done].
  pose proof (ordered_fine bound Hbound message limits branch_first (levels_for bound (root p) MAX_RC_TRANSITIONS) (root p) root_context MAX_RC_TRANSITIONS
    (new_execution limits runtime host files) (le_n _) (conj Hfiles (Nat.le_sub_l _ _))) as [Hr _].
  destruct (run (execute_ordered _ _ _ _ _ _) _) as [execution s]. cbn [fst] in Hr.
  unfold execution_result. destruct (panicking execution).
  - destruct execution as [x|e]; [by destruct (os_pending_error s)|]. by intros [= ->].
  - destruct (run finish_background _) as [[background|] h]; [|done]. destruct execution as [x|e]; [by destruct (os_pending_error _)|]. by intros [= ->].
Qed.
