(* ===== verification/OrderedAgree.v ===== *)
(** Execution follows the plan.  A plan that does not need ordered delivery is
    carried out by planning ([HeaderPlan]) and then delivering; the same tree can
    be executed in order ([Ordered]).  The two agree: where planning answers and
    nothing it read needs ordered delivery, execution makes exactly the planned
    deliveries. *)
From stdpp Require Import gmap.
From S2P Require Import Prelude Config Limits Utf8 HeaderValue Variables Runtime Settings ShellEval Expand Effects HeaderFields HeaderStore EditedHeader HeaderEdit.
From S2P Require Import StructuredHeader Message EvalMessage Mime Binding Conditions Plan PlanFacts RcFile RuntimeRc RuntimeRcFacts HeaderPlan Ordered OrderedFacts.
#[local] Open Scope Z_scope.

(** * Trees that need no ordered delivery *)

Section trees.
Context {R : RegexEngine}.

(** [CM_BranchBlock] is a mode that nothing builds: a delivery stops or goes on. *)
Definition stops_or_continues (s : CompiledSequence) : Prop :=
  forall destination mode ending, within s (PP_Action (CA_Deliver destination mode ending)) -> mode <> CM_BranchBlock.
Definition sound (s : CompiledSequence) : Prop := coherent s /\ stops_or_continues s.
Definition unordered (s : CompiledSequence) : Prop := sound s /\ pp_ordered (sequence_properties s) = false.

Lemma not_above p q : properties_below p q -> pp_ordered q = false -> pp_ordered p = false.
Proof. intros [_ H _ _ _] Hq. destruct (pp_ordered p) eqn:Hp; [|done]. by rewrite (H eq_refl) in Hq. Qed.

Record unordered_node (n : CompiledNode) : Prop := {
  un_lock : node_lock n = None;
  un_copy : is_copy_block n = false;
  un_conditions : forall c, c ∈ node_conditions n -> pp_ordered (condition_properties c) = false;
  un_statements : forall st, st ∈ preceding_statements n -> pp_ordered (statement_properties st) = false;
  un_mode : forall destination mode ending, node_action n = CA_Deliver destination mode ending -> mode <> CM_BranchBlock;
  un_children : forall children, node_action n = CA_Block children -> unordered children;
}.

Lemma unordered_recipe s n : unordered s -> n ∈ recipes s -> unordered_node n.
Proof.
  intros [[Hc Hm] Ho] Hn. pose proof (within_action s n Hn) as Hact. pose proof (within_block s n) as Hblock. pose proof (recipe_below s n Hc Hn) as Hbelow. apply (coherent_recipe s n Hc) in Hn as Hcn.
  apply (not_above _ _ Hbelow) in Ho. clear Hbelow. assert (node_lock n = None /\ is_copy_block n = false) as [Hl Hcopy].
  { destruct Hcn as [n Hp _]. rewrite Hp in Ho. unfold compiled_properties in Ho. cbn in Ho. apply orb_false_iff in Ho as [Ho Hl].
    split; [by destruct (node_lock n)|]. destruct (is_copy_block n) eqn:Hcopy; [|done]. unfold is_copy_block in Hcopy.
    apply orb_false_iff in Ho as [Ho _]. destruct (node_action n) as [| | |children|]; try done. cbv zeta in Ho. rewrite Hcopy in Ho.
    match type of Ho with pp_ordered (foldl _ ?p _) = _ => pose proof (fold_union_start condition_properties (node_conditions n) p) as Hs end.
    apply (not_above _ _ Hs) in Ho. cbn in Ho. by rewrite orb_true_r in Ho. }
  split; [done|done|..].
  - intros c Hc'. by eapply not_above; [apply node_condition_below|].
  - intros st Hst. by eapply not_above; [apply node_statement_below|].
  - intros d mode ending Ha. rewrite Ha in Hact. by eapply Hm.
  - intros children Ha. split; [split; [destruct Hcn as [n _ H]; by apply H|intros d mode ending Hd; eapply Hm; by eapply Hblock]|]. pose proof (node_action_below n Hcn) as Hb. rewrite Ha in Hb.
    by eapply (not_above _ _ Hb).
Qed.
Lemma unordered_trailing s st : unordered s -> st ∈ trailing_statements s -> pp_ordered (statement_properties st) = false.
Proof. intros [[Hc _] Ho] Hst. by eapply not_above; [apply trailing_below|]. Qed.
Lemma unordered_tail s n : unordered s -> n ∈ tail (recipes s) -> after_previous (node_control n) = false.
Proof.
  intros [[[s' Hp _] _] Ho] Hn. rewrite Hp in Ho. cbn in Ho. apply orb_false_iff in Ho as [_ Ho].
  destruct (after_previous (node_control n)) eqn:Ha; [|done]. rewrite <-Ho. symmetry. apply existsb_exists. exists n. split; [by apply list_elem_of_In|done].
Qed.
End trees.

(** * Loaded files *)

Section files.
Context {T : Target} {R : RegexEngine} {L : Type} {loader_impl : RuntimeRcLoader L} {invariant : LoaderInvariant L}.
Abbreviation Files := (@RuntimeRcState R L) (only parsing).

(** The files a loader gives. *)
Definition sound_loader : Prop := loader_gives sound.
Context (Hloader : sound_loader).

(** No file that was loaded needs ordered delivery. *)
Definition settled (s : Files) : Prop := dynamic_ordered_delivery s = false.
(** The flag knows the files that were loaded. *)
Definition flagged (s : Files) : Prop := fit_loader s /\ forall key files path name sequence instance,
  loaded_files s !! key = Some files -> files !! path = Some (LR_Sequence name sequence instance) ->
  sound sequence /\ (pp_ordered (sequence_properties sequence) = true -> dynamic_ordered_delivery s = true).

Lemma keep_loaded_flagged kind e context path loaded (s : Files) :
  flagged s ->
  (forall name sequence instance, loaded = LR_Sequence name sequence instance ->
     sound sequence /\ (pp_ordered (sequence_properties sequence) = true -> dynamic_ordered_delivery s = true)) ->
  flagged (keep_loaded kind e context path loaded s).
Proof.
  intros [Hfit Hs] Hl. split; [exact Hfit|]. intros key files path' name sequence instance. unfold keep_loaded. cbn. intros [[<- <-]|[_ Hk]]%lookup_insert_Some; [|by eapply Hs].
  intros [[<- H]|[_ H]]%lookup_insert_Some; [by eapply Hl|]. unfold loaded_states in H.
  destruct (loaded_files s !! _) as [old|] eqn:Ho; [by eapply Hs|done].
Qed.

Lemma warnings_fold_ordered path ws (s : Files) :
  loaded_files (foldl (fun s w => push_rc_warning (warning_text path w) s) s ws) = loaded_files s /\
  dynamic_ordered_delivery (foldl (fun s w => push_rc_warning (warning_text path w) s) s ws) = dynamic_ordered_delivery s /\
  loader (foldl (fun s w => push_rc_warning (warning_text path w) s) s ws) = loader s.
Proof.
  revert s. induction ws as [|w ws IH]; intros s; cbn [foldl]; [done|].
  destruct (IH (push_rc_warning (warning_text path w) s)) as (-> & -> & ->). unfold push_rc_warning. by destruct (_ <? _)%nat.
Qed.

(** What an entry that succeeds does to the files: the flag is only raised, and
    a sequence that is entered is known to it. *)
Record flags (s s' : Files) : Prop := { fl_flagged : flagged s -> flagged s'; fl_raised : settled s' -> settled s }.
Definition known_sequence (s : Files) (loaded : LoadedRuntimeRc) : Prop :=
  forall name sequence instance, loaded = LR_Sequence name sequence instance -> flagged s -> settled s -> unordered sequence.

Lemma flagged_unordered (s : Files) key files path name sequence instance :
  loaded_files s !! key = Some files -> files !! path = Some (LR_Sequence name sequence instance) -> flagged s -> settled s -> unordered sequence.
Proof.
  intros Hk Hf [_ Hs] Hd. destruct (Hs _ _ _ _ _ _ Hk Hf) as [Hc Ho]. split; [done|].
  destruct (pp_ordered _); [|done]. unfold settled in Hd. by rewrite (Ho eq_refl) in Hd.
Qed.

Lemma load_flags kind e context runtime (s s' : Files) loaded :
  run (load_runtime_rc kind e context runtime) s = (Ok loaded, s') -> flags s s' /\ known_sequence s' loaded.
Proof.
  unfold load_runtime_rc. intros ([] & s1 & Ht & H)%run_bind_Ok. unfold record_transition in Ht. cbn [run] in Ht.
  destruct (S (transitions s) <=? MAX_RC_TRANSITIONS)%nat; [|done]. injection Ht as <-.
  set (s1 := with_transitions (S (transitions s)) s) in *. assert (flags s s1) as H1 by by split.
  apply run_bind_Ok in H as (path & s2 & Hp & H). injection Hp as _ <-. rewrite run_bind, run_gets in H.
  destruct (loaded_states kind e context s1 !! path) as [known|] eqn:Hk.
  { rewrite run_ret in H. injection H as <- <-. split; [done|]. intros name sequence instance ->. unfold loaded_states in Hk.
    destruct (loaded_files s1 !! _) as [files|] eqn:Hf; [|done]. by eapply flagged_unordered. }
  assert (forall l s2, (forall n q i, l <> LR_Sequence n q i) -> flags s s2 ->
    run (_ ← modify (keep_loaded kind e context path l); mret l : M Files EvalError LoadedRuntimeRc) s2 = (Ok loaded, s') ->
    flags s s' /\ known_sequence s' loaded) as Hkeep.
  { intros l s2 Hl [Hf Hr] Hrun. rewrite run_bind, run_modify, run_ret in Hrun. injection Hrun as <- <-. split.
    - split; [|done]. intros Hs. apply keep_loaded_flagged; [by apply Hf|]. intros n q i ->. by destruct (Hl n q i).
    - intros n q i ->. by destruct (Hl n q i). }
  destruct (is_switch kind && _); [by apply (Hkeep LR_Empty s1)|].
  apply run_bind_Ok in H as (child & s2 & Hd & H). injection Hd as _ <-.
  apply run_bind_Ok in H as (answer & s2 & Hcall & H). unfold call_loader in Hcall. cbn [run] in Hcall.
  destruct (loader s1) as [l|] eqn:Hload; [|done]. destruct (run (load_runtime_config e runtime child) l) as [r l'] eqn:Hrun. injection Hcall as <- <-.
  assert (fit_loader s1 -> loader_ok l' /\ forall c, r = Ok (Some c) -> sound (compile (statements (lc_config c)) [] (cfg_source_location (lc_config c)))) as Hgives
    by (intros Hfit; apply (Hloader e runtime child l r l'); [by apply Hfit|done]).
  assert (flags s (with_loader (Some l') s1)) as H2.
  { split; [|done]. intros [Hfit Hs]. split; [|exact Hs]. intros ? [= <-]. by apply Hgives. }
  destruct r as [[c|]|error].
  - unfold keep_config in H. cbn [run] in H. injection H as <- <-.
    destruct (warnings_fold_ordered (lc_path c) (config_warnings (lc_config c)) (with_loader (Some l') s1)) as (Hf & Ho & Hlo).
    set (s3 := foldl _ _ _) in *. set (sequence := compile (statements (lc_config c)) [] _) in *. split.
    + split.
      * intros [Hfit Hs]. destruct (Hgives Hfit) as [Hl' Hsound]. apply keep_loaded_flagged.
        -- split; [unfold fit_loader; cbn; rewrite Hlo; by intros ? [= <-]|].
           intros key files path' name q i. cbn. rewrite Hf, Ho. intros Hkey Hq. destruct (Hs key files path' name q i Hkey Hq) as [? Hd].
           split; [done|]. intros Hq'. cbn. by rewrite (Hd Hq').
        -- intros n q i [= <- <- <-]. split; [by apply Hsound|]. intros Hq. cbn. rewrite Hq. by rewrite orb_true_r.
      * unfold settled. cbn. rewrite Ho. by intros [? _]%orb_false_iff.
    + intros n q i [= <- <- <-]. eapply flagged_unordered; [unfold keep_loaded; cbn; apply lookup_insert_eq|apply lookup_insert_eq].
  - by apply (Hkeep LR_Empty (with_loader (Some l') s1)).
  - destruct (resource_limit error); [done|]. rewrite run_bind, run_modify in H. refine (Hkeep LR_Failed _ _ _ H); [done|by destruct H2].
Qed.

Lemma enter_flags kind e context runtime (s s' : Files) en :
  run (enter_runtime_rc kind e context runtime) s = (Ok en, s') ->
  flags s s' /\ forall sequence path child, entered_sequence en = Ok (Some (sequence, path, child)) -> flagged s' -> settled s' -> unordered sequence.
Proof.
  unfold enter_runtime_rc. intros (loaded & s1 & [Hf Hk]%load_flags & (child & s2 & Hc & [= <- <-])%run_bind_Ok)%run_bind_Ok.
  rewrite run_of_result in Hc. injection Hc as _ <-. split; [done|]. intros sequence path child' He. unfold entered_sequence in He. cbn in He.
  destruct loaded as [| |name q i]; [by destruct child..|]. destruct child; [|done]. injection He as <- _ _. by eapply Hk.
Qed.
End files.

(** * Planning only raises the flag *)

Section settles.
Context {T : Target} {R : RegexEngine} {X : ConditionExpander} {L D : Type} {loader_impl : RuntimeRcLoader L} {invariant : LoaderInvariant L}.
Context (Hloader : sound_loader).
Abbreviation Planning := (M (@CompleteState R L) (stop EvalError D)) (only parsing).

Definition settles {A} (m : Planning A) : Prop := forall c a c', run m c = (Ok a, c') -> settled (cp_rc c') -> settled (cp_rc c).
Lemma settles_ret {A} (a : A) : settles (mret a).
Proof. by intros c x c' [= _ <-]. Qed.
Lemma settles_stop {A} e : settles (stop_with (A := A) e).
Proof. by intros c x c'. Qed.
Lemma settles_bind {A B} (m : Planning A) (f : A -> Planning B) : settles m -> (forall a, settles (f a)) -> settles (m ≫= f).
Proof. intros Hm Hf c b c' (a & c1 & H1 & H2)%run_bind_Ok Hc'. eapply Hm; [done|]. by eapply Hf. Qed.
Lemma settles_comp {A} (f : @CompleteState R L -> result (stop EvalError D) A * @CompleteState R L) :
  (forall c, cp_rc (f c).2 = cp_rc c) -> settles (Comp f).
Proof. intros Hf c a c'. cbn. specialize (Hf c). destruct (f c) as [r c1]. intros [= _ <-]. cbn in Hf. by rewrite Hf. Qed.
Lemma settles_on_runtime {A} (m : M RuntimeVariables (stop EvalError D) A) : settles (on_runtime m).
Proof. apply settles_comp. intros c. by destruct (run m _). Qed.
Lemma settles_modify f : (forall c : @CompleteState R L, cp_rc (f c) = cp_rc c) -> settles (modify f).
Proof. intros Hf. by apply settles_comp. Qed.
Lemma settles_evaluated {A} (r : result EvalError A) : settles (evaluated r).
Proof. by apply settles_comp. Qed.
Lemma settles_enter kind e rc : settles (enter kind e rc).
Proof.
  intros c a c'. unfold enter. cbn [run]. destruct (run (enter_runtime_rc kind e rc (cp_runtime c)) (cp_rc c)) as [[en|error] files] eqn:Hr; cbn [map_err]; [|done].
  apply (enter_flags Hloader) in Hr as [[_ Hf] _]. intros [= <- <-]. apply Hf.
Qed.
Create HintDb settles.
#[local] Hint Resolve settles_ret settles_stop settles_bind settles_on_runtime settles_evaluated settles_enter : settles.
#[local] Hint Extern 1 (settles (modify _)) => by apply settles_modify : settles.

Section level.
Context (message : CompleteMessage) (below : CompiledSequence -> RcExecutionContext -> Planning SequenceControl).
Context (Hbelow : forall s rc, settles (below s rc)).

Lemma settles_rc sequence path child : settles (execute_runtime_rc below sequence path child).
Proof.
  apply settles_bind; [by apply settles_comp|]. intros caller c a c'. unfold always. cbn [run].
  destruct (run (below sequence child) c) as [r c1] eqn:Hr. intros [= -> <-]. by apply (Hbelow _ _ _ _ _ Hr).
Qed.
#[local] Hint Resolve settles_rc : settles.
Lemma settles_statement rc st : settles (plan_statement_complete below rc st).
Proof.
  destruct st as [a|u|a|a|e|e]; cbn [plan_statement_complete]; auto with settles.
  - apply settles_bind; [auto with settles|]. intros []; auto with settles.
  - apply settles_bind; [auto with settles|]. intros en. apply settles_bind; [auto with settles|]. intros [[[q path] child]|]; auto with settles.
  - apply settles_bind; [auto with settles|]. intros en. destruct (entered_is_empty en); [auto with settles|].
    apply settles_bind; [auto with settles|]. intros [[[q path] child]|]; auto with settles.
Qed.
Lemma settles_statements rc ss : settles (plan_statements_complete below rc ss).
Proof.
  induction ss as [|st ss IH]; cbn [plan_statements_complete]; [auto with settles|].
  apply settles_bind; [apply settles_statement|]. intros []; auto with settles.
Qed.
Lemma settles_action n rc handler : settles (plan_action message below n rc handler).
Proof.
  unfold plan_action. destruct (node_action n); auto with settles.
  - apply settles_comp. intros c. by destruct (plan_delivery _ _ _ _ _) as [[control e]|e].
  - case_bool_decide; auto with settles.
Qed.
Lemma settles_decide s rc index n state (matched : bool) : settles (decide_recipe message below s rc index n state matched).
Proof. apply settles_bind; [destruct matched; [apply settles_action|apply settles_ret]|]. intros control. apply settles_ret. Qed.
Lemma settles_recipes s rc index rs state : settles (plan_recipes_complete message below s rc index rs state).
Proof.
  revert index state. induction rs as [|n rs IH]; intros index state; cbn [plan_recipes_complete]; [apply settles_statements|].
  apply settles_bind; [apply settles_statements|]. intros []; auto with settles.
  apply settles_bind; [destruct (planning_gate _ _); auto with settles|]. intros matched.
  apply settles_bind; [apply settles_decide|]. intros [[] st]; auto with settles.
Qed.
End level.

Lemma settles_plan levels message s rc : settles (plan_complete levels message s rc).
Proof.
  revert s rc. induction levels as [|levels IH]; intros s rc; cbn [plan_complete]; [apply settles_stop|]. by apply settles_recipes.
Qed.
End settles.

(** * The simulation *)

Lemma umask_line `{Target} r line mask : umask (settings_at_line r line) = Ok mask -> umask (new_settings r) = Ok mask.
Proof. unfold umask, read_setting. cbn. destruct (get r _); [|done]. by destruct (parse_umask _). Qed.

Section agree.
Context {T : Target} {R : RegexEngine} {X : ConditionExpander} {L : Type} {loader_impl : RuntimeRcLoader L} {invariant : LoaderInvariant L}.
Context {H D G : Type} {host_impl : OrderedExecutionHost H D G}.
Context (Hloader : sound_loader).
(** What the host has done, and that its deliveries succeed. *)
Context (performed : H -> list Performed).
Definition delivers : Prop := forall d message ending lock runtime h mask, umask (new_settings runtime) = Ok mask ->
  exists h', run (host_deliver d message ending lock) (runtime, h) = (Ok tt, (runtime, h')) /\
    performed h' = performed h ++ [{| pf_destination := d; pf_message := message; pf_ending := ending; pf_lock := lock; pf_umask := mask |}].
Context (Hdelivers : delivers).
Context (message : CompleteMessage) (limits : MessageLimits) (branch_first : nat -> bool) (before : list Performed).

(** What is performed for a planned delivery: the bytes of the message, with the
    status the plan has for it. *)
Definition perform (d : PlannedDelivery) : Performed := {|
  pf_destination := pd_destination d; pf_message := {| fm_bytes := final_bytes message; fm_status := pd_status d |}; pf_ending := pd_output_ending d; pf_lock := pd_lock d; pf_umask := pd_umask d |}.

Record related (c : @CompleteState R L) (s : OrderedState (H := H) (D := D)) : Prop := {
  rl_runtime : os_runtime s = cp_runtime c;
  rl_files : os_rc s = cp_rc c;
  rl_flagged : flagged (cp_rc c);
  rl_current : os_current s = no_replacement;
  rl_pending : os_pending_error s = None;
  rl_performed : performed (os_host s) = before ++ (perform <$> fp_deliveries (cp_execution c));
  rl_published : os_published s = length (fp_deliveries (cp_execution c));
  rl_delivered : os_original_delivered s = fp_original_delivered (cp_execution c);
}.

Abbreviation Planning := (M (@CompleteState R L) (stop EvalError D)) (only parsing).
Abbreviation Executing := (M (OrderedState (H := H) (D := D) (L := L)) (stop EvalError D)) (only parsing).

(** Where planning answers and settles, execution answers as well. *)
Definition agrees {A B} (V : A -> B -> Prop) (m1 : Planning A) (m2 : Executing B) : Prop := forall c s a c',
  related c s -> run m1 c = (Ok a, c') -> settled (cp_rc c') -> exists b s', run m2 s = (Ok b, s') /\ V a b /\ related c' s'.

Lemma agrees_ret {A B} (V : A -> B -> Prop) a b : V a b -> agrees V (mret a) (mret b).
Proof. intros Hv c s x c' Hr [= <- <-] _. by exists b, s. Qed.
Lemma agrees_stop {A B} (V : A -> B -> Prop) e (m : Executing B) : agrees V (stop_with (A := A) e) m.
Proof. by intros c s x c'. Qed.
Lemma agrees_bind {A B A' B'} (V : A -> B -> Prop) (W : A' -> B' -> Prop) m1 m2 f1 f2 :
  agrees V m1 m2 -> (forall a, settles (f1 a)) -> (forall a b, V a b -> agrees W (f1 a) (f2 b)) -> agrees W (m1 ≫= f1) (m2 ≫= f2).
Proof.
  intros Hm Hs Hf c s a' c' Hrel (a & c1 & H1 & H2)%run_bind_Ok Hc'.
  destruct (Hm _ _ _ _ Hrel H1 (Hs a _ _ _ H2 Hc')) as (b & s1 & Hb & Hv & Hrel1). destruct (Hf a b Hv _ _ _ _ Hrel1 H2 Hc') as (b' & s' & Hb' & Hw & Hrel').
  exists b', s'. split_and!; [|done|done]. by rewrite run_bind, Hb.
Qed.
(** A change of the variables alone. *)
Lemma related_runtime c s r : related c s -> related (with_runtime r c) (os_with_runtime r s).
Proof. intros []. by split. Qed.
Lemma agrees_variables {A} (m : M RuntimeVariables (stop EvalError D) A) : agrees eq (on_runtime m) (on_variables m).
Proof.
  unfold on_runtime, on_variables, Effects.on. intros c s a c' Hrel. cbn. rewrite (rl_runtime _ _ Hrel).
  destruct (run m (cp_runtime c)) as [r p]. intros [= -> <-] _.
  exists a, (os_with_runtime p s). split_and!; [done|done|]. by apply related_runtime.
Qed.

(** ** Conditions *)

Lemma agrees_conditions cs : (forall c, c ∈ cs -> pp_ordered (condition_properties c) = false) ->
  agrees eq (on_runtime (conditions_match_complete cs message)) (conditions_match_ordered message cs).
Proof.
  intros Hcs c s a c' Hrel Hrun _. unfold on_runtime, Effects.on in Hrun. cbn in Hrun. destruct (run _ (cp_runtime c)) as [r p] eqn:Hm. injection Hrun as -> <-.
  exists a, (os_with_runtime p s). split_and!; [|done|by apply related_runtime].
  destruct Hrel as [Hr _ _ Hcur _ _ _ _]. rewrite <-Hr in Hm. clear Hr c. revert s Hcur Hm. induction cs as [|c cs IH]; intros s Hcur Hm.
  { cbn in Hm. injection Hm as <- <-. by destruct s. }
  cbn [conditions_match_complete] in Hm. apply run_bind_Ok in Hm as (matched & r1 & H1 & H2). cbn [run] in H1.
  destruct (matches_complete c message (os_runtime s)) as [[b r]|e] eqn:Hmc; [|done]. injection H1 as -> ->.
  cbn [conditions_match_ordered]. assert (pp_ordered (condition_properties c) = false) as Hc by (apply Hcs; left).
  assert (resolve_shell_expansion_with parse_reparsed_condition (expand_condition_here message) Evaluation c = (mret None : Executing (option CompiledCondition))) as ->.
  { unfold resolve_shell_expansion_with. unfold condition_properties in Hc. by destruct (cc_kind c). }
  rewrite run_bind, run_ret, run_bind. cbn [default]. unfold matches_resolved. rewrite run_bind, run_gets.
  assert (program c = None) as -> by (unfold program; unfold condition_properties in Hc; by destruct (cc_kind c)).
  cbn [run]. assert (current_view message s = message) as -> by (unfold current_view; by rewrite Hcur). rewrite Hmc.
  destruct matched; [|rewrite run_ret in H2; rewrite run_ret; by injection H2 as <- <-].
  apply (IH ltac:(intros; apply Hcs; by right) (os_with_runtime r1 s)); [done|]. done.
Qed.

(** ** Statements *)

(** The controls a sequence answers with. *)
Definition same_control (control control' : SequenceControl) : Prop := control' = control /\ control <> SC_SequenceComplete.
Definition same_outcome (control : SequenceControl) (p : ActionExecution * SequenceControl) : Prop := p.1 = Succeeded /\ same_control control p.2.
Lemma agrees_control control : control <> SC_SequenceComplete -> agrees same_control (mret control) (mret control).
Proof. intros Hc. by apply agrees_ret. Qed.

Section level.
Context (plan_below : CompiledSequence -> RcExecutionContext -> Planning SequenceControl).
Context (below : CompiledSequence -> RcExecutionContext -> Executing (ActionExecution * SequenceControl)).
Context (Hsettles : forall s rc, settles (plan_below s rc)).
Context (Hbelow : forall s rc, unordered s -> agrees same_outcome (plan_below s rc) (below s rc)).

Lemma agrees_rc sequence path child : unordered sequence ->
  agrees same_outcome (execute_runtime_rc plan_below sequence path child) (ordered_execute_rc below sequence path child).
Proof.
  intros Hu c s a c' Hrel. unfold execute_runtime_rc, ordered_execute_rc, always. rewrite !run_bind. cbn [run]. rewrite (rl_runtime _ _ Hrel).
  destruct (replace_current_rc_file (cp_runtime c) (Some path)) as [r caller]. intros Hrun Hset.
  destruct (run (plan_below sequence child) (with_runtime r c)) as [x c1] eqn:Hx. injection Hrun as -> <-.
  destruct (Hbelow sequence child Hu _ _ _ _ (related_runtime _ _ r Hrel) Hx Hset) as (b & s' & -> & Hb & Hrel').
  eexists b, _. split_and!; [done|done|]. rewrite (rl_runtime _ _ Hrel'). by apply related_runtime.
Qed.

Lemma agrees_rc_statement kind e rc (answer : SequenceControl -> SequenceControl) :
  (forall control, control <> SC_SequenceComplete -> answer control <> SC_SequenceComplete) ->
  agrees same_control
    (entered ← enter kind e rc;
     if is_switch kind && entered_is_empty entered then mret SC_EndRcFile
     else
       found ← evaluated (entered_sequence entered);
       match found with
       | None => mret SC_Continue
       | Some (sequence, path, child) => control ← execute_runtime_rc plan_below sequence path child; mret (answer control)
       end)
    (entered ← ordered_enter kind e rc;
     if is_switch kind && entered_is_empty entered then mret SC_EndRcFile
     else
       found ← evaluation (entered_sequence entered);
       match found with
       | None => mret SC_Continue
       | Some (sequence, path, child) => '(_, control) ← ordered_execute_rc below sequence path child; mret (answer control)
       end).
Proof.
  intros Hanswer c s a c' Hrel. unfold enter, ordered_enter. rewrite !run_bind. cbn [run]. rewrite (rl_runtime _ _ Hrel), (rl_files _ _ Hrel).
  destruct (run (enter_runtime_rc kind e rc (cp_runtime c)) (cp_rc c)) as [[en|error] files] eqn:Hr; cbn [map_err]; [|done].
  apply (enter_flags Hloader) in Hr as [[Hflag Hraised] Hknown]. intros Hrun Hset.
  assert (related (with_rc files c) (os_with_rc files s)) as Hrel1 by (destruct Hrel; split; auto).
  destruct (is_switch kind && _); [by apply (agrees_control SC_EndRcFile ltac:(done) _ _ _ _ Hrel1 Hrun Hset)|].
  rewrite run_bind in Hrun. rewrite run_bind. unfold evaluated, evaluation in *. rewrite run_of_result in Hrun. rewrite run_of_result.
  destruct (entered_sequence en) as [[[[sequence path] child]|]|] eqn:He; cbn [map_err] in *; [| |done].
  - assert (unordered sequence) as Hu.
    { eapply Hknown; [done|apply Hflag, (rl_flagged _ _ Hrel)|]. apply (settles_bind _ _ (settles_rc plan_below Hsettles sequence path child)
        (fun control => settles_ret (answer control)) _ _ _ Hrun Hset). }
    refine (agrees_bind same_outcome same_control _ _ _ _ (agrees_rc sequence path child Hu) (fun control => settles_ret (answer control)) _ _ _ _ _ Hrel1 Hrun Hset).
    intros control [action control'] (_ & Hsame & Hc). cbn in Hsame. subst control'. by apply agrees_control, Hanswer.
  - by apply (agrees_control SC_Continue ltac:(done) _ _ _ _ Hrel1 Hrun Hset).
Qed.

Lemma agrees_statement rc st : pp_ordered (statement_properties st) = false ->
  agrees same_control (plan_statement_complete plan_below rc st) (execute_statement_ordered message below rc st).
Proof.
  intros Ho. destruct st as [a|u|a|a|e|e]; cbn [plan_statement_complete execute_statement_ordered].
  - apply (agrees_bind eq); [apply agrees_variables|intros; apply settles_ret|]. intros _ [] _.
    cbn in Ho. apply orb_false_iff in Ho as [Ho _]. rewrite Ho. by apply agrees_control.
  - cbn in Ho. rewrite Ho. intros c s x c' Hrel [= <- <-] _. eexists SC_Continue, _. split_and!; [done|done|].
    rewrite (rl_runtime _ _ Hrel). by apply related_runtime.
  - apply agrees_stop.
  - apply (agrees_bind eq); [apply agrees_variables|intros []; [apply settles_ret|by apply settles_bind; [apply settles_modify|intros; apply settles_ret]]|].
    intros here _ <-. destruct here; [by apply agrees_control|]. intros c s x c' Hrel [= <- <-] _. eexists SC_EndRcFile, _.
    split_and!; [done|done|]. by destruct Hrel; split.
  - apply (agrees_rc_statement RK_Include e rc (fun control => match control with SC_Stop => SC_Stop | _ => SC_Continue end)). by intros [].
  - apply (agrees_rc_statement RK_Switch e rc (fun control => match control with SC_Stop => SC_Stop | _ => SC_EndRcFile end)). by intros [].
Qed.
Lemma agrees_statements rc ss : (forall st, st ∈ ss -> pp_ordered (statement_properties st) = false) ->
  agrees same_control (plan_statements_complete plan_below rc ss) (execute_statements_ordered message below rc ss).
Proof.
  induction ss as [|st ss IH]; intros Hss; cbn [plan_statements_complete execute_statements_ordered]; [by apply agrees_control|].
  apply (agrees_bind same_control); [apply agrees_statement, Hss; left| |].
  - intros []; first [by apply settles_statements|apply settles_ret].
  - intros control _ [-> Hc]. destruct control; try (by apply agrees_control). apply IH. intros. apply Hss. by right.
Qed.

(** ** Recipes *)

Lemma agrees_delivery n rc destination mode ending : unordered_node n -> node_action n = CA_Deliver destination mode ending ->
  agrees (fun control p => p.1 = Succeeded /\ p.2 = control /\ control <> SC_SequenceComplete)
    (plan_action message plan_below n rc false) (deliver_ordered message n destination mode ending).
Proof.
  intros Hn Ha c s a c' Hrel. unfold plan_action. rewrite Ha. cbn [run]. unfold plan_delivery. rewrite Ha.
  destruct (bind_with destination (get (cp_runtime c))) as [bound|e] eqn:Hb; [|done].
  destruct (resolve_lock n (cp_runtime c)) as [lock|e] eqn:Hl; [|done].
  destruct (umask (settings_at_line (cp_runtime c) (node_line n))) as [mask|e] eqn:Hu; [|done]. intros Hrun _.
  assert (command_expression destination = None) as Hc.
  { unfold bind_with in Hb. by destruct (command_expression destination). }
  unfold deliver_ordered. rewrite run_bind, run_gets. rewrite run_bind. unfold ordered_destination. rewrite run_bind, run_gets, Hc.
  cbn [id]. rewrite (rl_runtime _ _ Hrel), Hb. cbn [map_err]. unfold evaluation. rewrite run_of_result. cbn [map_err].
  rewrite run_bind, run_gets. cbn [id]. rewrite (rl_runtime _ _ Hrel), Hl, run_bind, run_of_result. cbn [map_err].
  assert (current_view message s = message) as -> by (unfold current_view; by rewrite (rl_current _ _ Hrel)).
  rewrite run_bind. unfold call, os_host_part. cbn [run]. rewrite (rl_runtime _ _ Hrel).
  destruct (Hdelivers bound (final_message message) ending lock (cp_runtime c) (os_host s) mask (umask_line _ _ _ Hu)) as (h & Hdone & Hlog).
  rewrite Hdone. cbn [attempted]. rewrite run_bind, run_modify. cbn in Hrun. injection Hrun as <- <-.
  destruct Hrel as [Hr Hf Hfl Hcur Hp Hperf Hpub Hdel]. destruct (bool_decide (mode = CM_Stop)) eqn:Hm.
  - apply bool_decide_eq_true in Hm as ->. rewrite run_bind, run_modify. unfold action_succeeded. rewrite run_bind, run_modify, run_ret.
    eexists _, _. split_and!; [done|done|done|done|]. split; cbn; [done|done|done|done|done| | |by rewrite orb_true_r].
    + rewrite Hlog, Hperf, fmap_app, <-app_assoc. done.
    + rewrite Hpub, length_app. cbn. lia.
  - assert (mode = CM_Continue) as -> by (pose proof (un_mode n Hn _ _ _ Ha); apply bool_decide_eq_false in Hm; by destruct mode). unfold action_succeeded.
    rewrite run_bind, run_modify, run_ret. eexists _, _. split_and!; [done|done|done|done|]. split; cbn; [done|done|done|done|done| | |by rewrite orb_false_r].
    + rewrite Hlog, Hperf, fmap_app, <-app_assoc. done.
    + rewrite Hpub, length_app. cbn. lia.
Qed.

Lemma agrees_action n rc : unordered_node n ->
  agrees same_outcome (plan_action message plan_below n rc false) (execute_ordered_action message limits below n rc).
Proof.
  intros Hn. unfold execute_ordered_action. destruct (node_action n) as [d mode ending|action options|action options|children|action] eqn:Ha.
  - intros c s a c' Hrel Hrun Hset. destruct (agrees_delivery n rc d mode ending Hn Ha c s a c' Hrel Hrun Hset) as (b & s' & H1 & (H2 & H3 & H4) & H5).
    by exists b, s'.
  - unfold plan_action. rewrite Ha. apply agrees_stop.
  - unfold plan_action. rewrite Ha. apply agrees_stop.
  - unfold plan_action, execute_block. rewrite Ha, (un_lock n Hn).
    intros c s a c' Hrel Hrun Hset. rewrite bool_decide_eq_false_2 in Hrun by (by intros [? ?]).
    rewrite run_bind, run_modify, run_bind, run_gets, run_bind. unfold evaluation, resolve_lock. rewrite run_of_result, (un_lock n Hn). cbn [map_err].
    rewrite run_bind. assert (related c (os_with_pending None s)) as Hrel1 by (by destruct Hrel; split).
    destruct (Hbelow children rc (un_children n Hn children Ha) _ _ _ _ Hrel1 Hrun Hset) as ([action control] & s' & -> & (Hact & Hctl & Hseq) & Hrel').
    cbn in Hact, Hctl. subst action control. rewrite run_ret, bool_decide_eq_false_2 by done.
    exists (Succeeded, a), s'. split_and!; [done|split; [done|by split]|done].
  - unfold plan_action. rewrite Ha. apply agrees_stop.
Qed.

(** Only the first recipe of a sequence that needs no ordered delivery may
    follow the previous one. *)
Definition settled_gates (rs : list CompiledNode) (state : SequenceState) : Prop :=
  forall n, n ∈ (match previous state with None => tail rs | Some _ => rs end) -> after_previous (node_control n) = false.

Lemma gates_agree n rs state : settled_gates (n :: rs) state -> planning_gate (node_control n) state = execution_gate (node_control n) state.
Proof.
  intros Hg. destruct (node_control n) eqn:Hc; try done. cbn. destruct (previous state) eqn:Hp; [|done].
  specialize (Hg n). rewrite Hp, Hc in Hg. discriminate Hg. left.
Qed.

Lemma settled_gates_next n rs state matched action handled :
  settled_gates (n :: rs) state -> settled_gates rs (record state (node_control n) matched action handled).
Proof. intros Hg n' Hn'. cbn in Hn'. apply Hg. destruct (previous state); [by right|done]. Qed.
Lemma no_error_handler s index n rs : unordered s -> n :: rs = drop index (recipes s) -> has_error_handler s index = false.
Proof.
  intros Hu Hrs. unfold has_error_handler. destruct (recipes s !! S index) as [next|] eqn:Hl; [|done].
  assert (after_previous (node_control next) = false) as Hnext.
  { apply (unordered_tail s next Hu). apply list_elem_of_lookup. exists index. destruct (recipes s); [done|]. exact Hl. }
  apply bool_decide_eq_false. intros Hc. by rewrite Hc in Hnext.
Qed.

Lemma agrees_recipes s rc index rs state :
  unordered s -> rs = drop index (recipes s) -> settled_gates rs state ->
  agrees same_outcome (plan_recipes_complete message plan_below s rc index rs state)
    (execute_ordered_from message limits below branch_first (trailing_statements s) rc Succeeded rs state).
Proof.
  intros Hu. revert index state. induction rs as [|n rs IH]; intros index state Hrs Hg; cbn [plan_recipes_complete execute_ordered_from].
  { intros c x a c' Hrel Hrun Hset.
    destruct (agrees_statements rc (trailing_statements s) (fun st => unordered_trailing s st Hu) c x a c' Hrel Hrun Hset) as (b & x' & Hb & Hv & Hrel').
    exists (Succeeded, b), x'. split_and!; [by rewrite run_bind, Hb|done|by apply Hv..|done]. }
  assert (n ∈ recipes s /\ rs = drop (S index) (recipes s)) as [Hn Hrest].
  { split; [|by rewrite drop_S', <-Hrs || (rewrite <-Nat.add_1_r, <-drop_drop, <-Hrs)].
    apply list_elem_of_lookup. exists index. rewrite <-(Nat.add_0_r index), <-lookup_drop, <-Hrs. done. }
  pose proof (unordered_recipe s n Hu Hn) as Hun.
  assert (forall index state, settles (plan_recipes_complete message plan_below s rc index rs state)) as Hsr by (intros; by apply settles_recipes).
  apply (agrees_bind same_control); [by apply agrees_statements, (un_statements n Hun)| |].
  { intros []; try (apply settles_ret). apply settles_bind; [destruct (planning_gate _ _); [apply settles_on_runtime|apply settles_ret]|].
    intros matched. apply settles_bind; [by apply settles_decide|]. intros [[] st]; [apply Hsr|apply settles_ret..]. }
  intros control _ [-> Hc]. destruct control; try (by apply agrees_ret).
  rewrite (gates_agree n rs state Hg). apply (agrees_bind eq).
  { destruct (execution_gate _ _); [by apply agrees_conditions, (un_conditions n Hun)|by apply agrees_ret]. }
  { intros matched. apply settles_bind; [by apply settles_decide|]. intros [[] st]; [apply Hsr|apply settles_ret..]. }
  intros matched _ <-. unfold decide_recipe. rewrite (no_error_handler s index n rs Hu Hrs).
  apply (agrees_bind (fun p q => same_control p.1 q.2 /\ q.1 = (if matched then Succeeded else NotAttempted) /\
    p.2 = record state (node_control n) matched (if matched then Succeeded else NotAttempted) (else_handled (node_control n) state matched))).
  - destruct matched; cbn beta iota; [|by apply agrees_ret]. unfold selected_action, is_waited_copy_block, is_unwaited_copy_block. rewrite (un_copy n Hun). cbn [andb].
    intros c x a c' Hrel Hrun Hset. apply run_bind_Ok in Hrun as (control & c1 & H1 & H2). injection H2 as <- <-.
    destruct (agrees_action n rc Hun c x control c1 Hrel H1 Hset) as ([action control'] & x' & H3 & (Hact & Hv) & Hrel').
    by exists (action, control'), x'.
  - intros [[] st]; [apply Hsr|apply settles_ret..].
  - intros [control st] [action control'] ([Hctl Hseq] & Hact & Hst). cbn in Hctl, Hseq, Hact, Hst. subst control' st action.
    assert (latest_action Succeeded (if matched then Succeeded else NotAttempted) = Succeeded) as -> by (by destruct matched).
    destruct control; try (by apply agrees_ret). apply (IH (S index)); [done|]. by apply (settled_gates_next n).
Qed.
End level.

Lemma agrees_plan levels s rc : unordered s -> agrees same_outcome (plan_complete levels message s rc) (execute_ordered message limits branch_first levels s rc).
Proof.
  revert s rc. induction levels as [|levels IH]; intros s rc Hu; cbn [plan_complete execute_ordered]; [apply agrees_stop|].
  unfold plan_complete_from. rewrite drop_0. apply agrees_recipes; [by apply settles_plan|done|done|done|].
  intros n Hn. by apply (unordered_tail s).
Qed.
End agree.

(** Execution follows the plan.  Take a plan whose tree was compiled, a host
    whose deliveries succeed, and a message for which planning answers without
    having read a file that needs ordered delivery.  Executing the plan in order
    then succeeds; it makes the planned deliveries and no other, each in its
    turn, to the same destination, with the same bytes, ending, lock and mask;
    and it reports their number and whether the message was disposed of as the
    plan does. *)
Theorem execution_agrees {T : Target} {R : RegexEngine} {X : ConditionExpander} {L H D G : Type} {loader_impl : RuntimeRcLoader L} {invariant : LoaderInvariant L}
    {host_impl : OrderedExecutionHost H D G} (performed : H -> list Performed) (Hdelivers : delivers (D := D) performed)
    (Hfinish : forall h, exists h', run finish_background h = (Ok tt, h') /\ performed h' = performed h)
    (Hcomplete : forall bytes completion p, performed (complete (D := D) bytes completion p).2 = performed p.2)
    (Hloader : sound_loader) (p : ExecutionPlan) (Hroot : sound (root p))
    (levels : nat) (branch_first : nat -> bool) (input : MappedMessageInput) (message : CompleteMessage) (limits : MessageLimits)
    (runtime : RuntimeVariables) (host : H) (files : @RuntimeRcState R L) (Hfiles : flagged files)
    (Hmessage : complete_message input (plan_needs_full_matching p files) = Some message) (Hlimits : RuntimeRc.message_limits p = Ok limits)
    (control : SequenceControl) (planned : CompleteState)
    (Hplan : run (plan_complete (D := D) levels message (root p) root_context)
               {| cp_runtime := runtime; cp_execution := empty_fanout; cp_rc := files |} = (Ok control, planned))
    (Hunordered : plan_requires_ordered p (cp_rc planned) = false) :
  exists s', plan_execute_ordered (D := D) branch_first levels p input runtime host files =
    (Ok {| do_published := length (fp_deliveries (cp_execution planned)); do_original_delivered := fp_original_delivered (cp_execution planned) |}, Some s') /\
    performed (os_host s') = performed host ++ (perform message <$> fp_deliveries (cp_execution planned)).
Proof.
  unfold plan_requires_ordered in Hunordered. apply orb_false_iff in Hunordered as [Hordered Hsettled].
  set (c := {| cp_runtime := runtime; cp_execution := empty_fanout; cp_rc := files |}) in *.
  assert (related performed message (performed host) c (new_execution (D := D) limits runtime host files)) as Hrel
    by (split; cbn; rewrite ?app_nil_r; done).
  destruct (agrees_plan Hloader performed Hdelivers message limits branch_first (performed host) levels (root p) root_context (conj Hroot Hordered)
    _ _ _ _ Hrel Hplan Hsettled) as ([action control'] & s & Hs & _ & [_ _ _ _ Hp Hperf Hpub Hdel]).
  unfold plan_execute_ordered. rewrite Hmessage, Hlimits, Hs. destruct (Hfinish (os_host s)) as (h & Hh & Hlog). cbn [panicking]. rewrite Hh.
  unfold execution_result. cbn [os_pending_error os_with_host os_published os_original_delivered]. rewrite Hp, Hpub, Hdel. eexists. split; [done|].
  unfold os_with_host_part. cbn [os_host os_with_host]. rewrite Hcomplete. cbn. by rewrite Hlog, Hperf.
Qed.
