(* ===== verification/CommandRunner.v ===== *)
(** The commands of a run: [src/src/command_runner.rs].  Conditions, captures,
    pipes, filters and the TRAP are requests that are prepared, run and judged in
    one way each; what they leave in the variables - the status of the last command,
    LASTFOLDER, EXITCODE - is set here.  A command that is not waited for is kept
    with the lock of its recipe until the end of the message. *)
From stdpp Require Import gmap.
From S2P Require Import Prelude Effects Numbers Calendar Config Limits Utf8 Variables Runtime Settings Message EvalMessage Delivery Startup Files LocalLock Maildir Streaming Environment ExternalProcess HeaderPlan.
#[local] Open Scope Z_scope.

(** Where commands write their diagnostics: [src/src/command_log.rs].  The log is
    opened anew for every command, and only a regular file is one. *)

(** The standard output and error of the program. *)
Class Terminal (W : Type) := {
  stdout_write : bytes -> M W IoError ();
  stdout_flush : M W IoError ();
  stderr_write : bytes -> M W IoError ();
}.

(** Source: command_log.rs `pub enum TrapOutputError` *)
Inductive TrapOutputError := TO_Open (e : IoError) | TO_Duplicate (e : IoError).
(** Source: command_log.rs `pub enum DiagnosticWriteError` *)
Inductive DiagnosticWriteError := DW_Open (e : IoError) | DW_Write (e : IoError).
(** Source: command_log.rs `pub fn into_io_error` *)
Definition into_io_error (e : DiagnosticWriteError) : IoError := match e with DW_Open e | DW_Write e => e end.

Section log.
Context {T : Target} {P : Platform} {W Fd : Type} {OS : Os W Fd} {TM : Terminal W}.

(** [OpenOptions::open] adds [CLOEXEC].
    Source: command_log.rs `fn open(&self)` *)
Definition open_log (runtime : RuntimeVariables) : M W IoError (option Fd) :=
  match settings_logfile (new_settings runtime) with
  | None => mret None
  | Some path =>
      mask ← of_result (map_err (fun e => io_error EK_InvalidInput (runtime_setting_error_text e)) (umask (new_settings runtime)));
      file ← sys (os_openat CWD path [WRONLY; CREATE; APPEND; CLOEXEC; NOFOLLOW] (Z.land 384 (Z.land (Z.lnot mask) (2 ^ 32 - 1))));
      metadata ← sys (os_fstat file);
      if bool_decide (file_type (st_mode metadata) = RegularFile) then mret (Some file)
      else refuse EK_InvalidInput (B "LOGFILE is not a regular file")
  end.
(** Source: command_log.rs `pub fn stderr(&self)` *)
Definition log_stderr (runtime : RuntimeVariables) : M W IoError (Stdio Fd) :=
  file ← open_log runtime;
  mret (match file with Some file => SI_File file | None => SI_Inherit end).
(** Source: command_log.rs `pub fn write_diagnostic` *)
Definition write_diagnostic (runtime : RuntimeVariables) (line : bytes) : M W DiagnosticWriteError () :=
  file ← with_error DW_Open (open_log runtime);
  match file with
  | Some file => with_error DW_Write (fd_write_all file line)
  | None => with_error DW_Write (put_all stderr_write line)
  end.
(** Source: command_log.rs `pub fn inherited_trap_output` *)
Definition inherited_trap_output : Stdio Fd * Stdio Fd := (SI_Stderr, SI_Stderr).
(** Source: command_log.rs `pub fn trap_output` *)
Definition log_trap_output (runtime : RuntimeVariables) : M W TrapOutputError (Stdio Fd * Stdio Fd) :=
  file ← with_error TO_Open (open_log runtime);
  match file with
  | None => mret inherited_trap_output
  | Some file => stdout ← with_error TO_Duplicate (sys (os_dupfd file)); mret (SI_File stdout, SI_File file)
  end.
End log.

(** * The runner *)

(** Source: command_runner.rs `pub const MAX_BACKGROUND_COMMANDS` *)
Definition MAX_BACKGROUND_COMMANDS : nat := 128.
(** The errors of a host: those of the program, and a panic, which nothing handles. *)
Inductive HostError := HE_Error (e : OperationalError) | HE_Panic.

(** Source: command_runner.rs `enum InputSelection` *)
Inductive InputSelection := IS_Message | IS_Recipe (input : ActionInput).
(** Source: command_runner.rs `fn action_input` *)
Definition selected_action_input (s : InputSelection) : ActionInput := match s with IS_Message => AI_Message | IS_Recipe input => input end.
(** Source: command_runner.rs `enum OutputHandling` *)
Inductive OutputHandling := OH_Discard | OH_Capture (limit : Z) | OH_Filter (limits : MessageLimits).
(** Source: command_runner.rs `enum ChildStatusPolicy` *)
Inductive ChildStatusPolicy := SP_Condition | SP_Capture | SP_Recipe.
(** Source: command_runner.rs `struct CommandRequest` *)
Record CommandRequest := {
  rq_command : bytes; rq_input : MessageBytes; rq_selection : InputSelection; rq_ending : OutputEnding; rq_output : OutputHandling;
  rq_status : ChildStatusPolicy;
}.
(** Source: command_runner.rs `enum CommandRun` *)
Inductive CommandRun := CR_Program (run : ProgramRun) | CR_Capture (run : CaptureRun) | CR_Filter (run : FilterRun).
(** Source: command_runner.rs `struct ProcessedCommand` *)
Record ProcessedCommand (A : Type) := { pc_run : A; pc_decision : CommandDecision; pc_outcome : CommandOutcome }.
Arguments Build_ProcessedCommand {A}.
Arguments pc_run {A}. Arguments pc_decision {A}. Arguments pc_outcome {A}.
(** Source: command_runner.rs `struct PreparedCommand` *)
Record PreparedCommand (Fd : Type) := { pr_environment : ProcessEnvironment; pr_policy : ShellPolicy; pr_timeout : Z; pr_stderr : Stdio Fd }.
Arguments Build_PreparedCommand {Fd}.
Arguments pr_environment {Fd}. Arguments pr_policy {Fd}. Arguments pr_timeout {Fd}. Arguments pr_stderr {Fd}.
(** Source: command_runner.rs `struct PreparedEnvironment` *)
Record PreparedEnvironment := { pe_environment : ProcessEnvironment; pe_policy : ShellPolicy; pe_timeout : Z }.
(** Source: command_runner.rs `struct BackgroundCommand ` *)
Record BackgroundCommand (Fd Child : Type) := { bc_run : BackgroundProgramRun Child; bc_lock : option (LocalLock Fd) }.
Arguments Build_BackgroundCommand {Fd Child}.
Arguments bc_run {Fd Child}. Arguments bc_lock {Fd Child}.
(** The count of the commands that were started is shared by all the runners of a
    message.
    Source: command_runner.rs `struct BackgroundCommandBudget` *)
Class CommandBudget (W : Type) := { started_commands : W -> nat; set_started_commands : nat -> W -> W }.
(** Source: command_runner.rs `pub struct CommandRunner` *)
Record CommandRunner (Fd Child : Type) := { cr_limits : MessageLimits; cr_background : list (BackgroundCommand Fd Child) }.
Arguments Build_CommandRunner {Fd Child}.
Arguments cr_limits {Fd Child}. Arguments cr_background {Fd Child}.

(** Source: command_runner.rs `fn recoverable_error` *)
Definition recoverable_error (message : bytes) : DeliveryAttemptError HostError := Recoverable (HE_Error (OE_TemporaryDelivery message)).
(** Source: command_runner.rs `fn internal_runner_error` *)
Definition internal_runner_error (message : bytes) : DeliveryAttemptError HostError := Fatal (HE_Error (OE_Internal message)).
(** Source: command_runner.rs `fn process_error` *)
Definition process_error (e : ProcessFailure) : DeliveryAttemptError HostError :=
  match e with PF_Error message => recoverable_error message | PF_Panic => Fatal HE_Panic end.
(** Source: command_runner.rs `fn log_error` *)
Definition log_error (e : IoError) : DeliveryAttemptError HostError :=
  recoverable_error (B "cannot write external command failure diagnostic: " ++ ie_text e).

(** Source: command_runner.rs `fn require` *)
Definition require {A} (p : ProcessedCommand A) (is_accepted : CommandDecision -> bool) (failure : CommandOutcome -> bytes)
    : result (DeliveryAttemptError HostError) A :=
  if is_accepted (pc_decision p) then Ok (pc_run p) else Err (recoverable_error (failure (pc_outcome p))).

Section runner.
Context {T : Target} {P : Platform} {W Fd Child : Type} {OS : Os W Fd} {PR : Processes W Fd Child} {TM : Terminal W} {BG : CommandBudget W}.
Context (patience : Patience).

(** The methods of a runner change it, the variables and the world. *)
Abbreviation Commanding := (RuntimeVariables * (CommandRunner Fd Child * W))%type (only parsing).
Abbreviation Attempt := (M Commanding (DeliveryAttemptError HostError)) (only parsing).
Definition in_world {E A} (m : M W E A) : M Commanding E A := on (fun s => s.2.2) (fun w s => (s.1, (s.2.1, w))) m.
Definition the_runtime {E} : M Commanding E RuntimeVariables := gets fst.
Definition the_runner {E} : M Commanding E (CommandRunner Fd Child) := gets (fun s => s.2.1).
Definition update_runtime {E} (f : RuntimeVariables -> RuntimeVariables) : M Commanding E () := modify (fun s => (f s.1, s.2)).
Definition set_background {E} (l : list (BackgroundCommand Fd Child)) : M Commanding E () :=
  modify (fun s => (s.1, ({| cr_limits := cr_limits s.2.1; cr_background := l |}, s.2.2))).
Definition drop_guard (lock : option (LocalLock Fd)) (w : W) : W := match lock with Some lock => drop_lock lock w | None => w end.
Definition drop_guard_here (lock : option (LocalLock Fd)) (s : Commanding) : Commanding := (s.1, (s.2.1, drop_guard lock s.2.2)).

(** Source: command_runner.rs `fn reserve` *)
Definition reserve_command : M W bytes () := Comp (fun w =>
  if (started_commands w <? MAX_BACKGROUND_COMMANDS)%nat then (Ok tt, set_started_commands (S (started_commands w)) w)
  else (Err (B "background external commands exceed the hard limit of " ++ decimal MAX_BACKGROUND_COMMANDS ++ B " per message"), w)).
(** Source: command_runner.rs `pub fn new(` *)
Definition new_runner (limits : MessageLimits) : CommandRunner Fd Child := {| cr_limits := limits; cr_background := [] |}.
(** Source: command_runner.rs `pub fn fork(` *)
Definition fork_runner (r : CommandRunner Fd Child) : CommandRunner Fd Child := new_runner (cr_limits r).

(** ** Preparation *)

(** Source: command_runner.rs `fn prepare_environment` *)
Definition prepare_environment (runtime : RuntimeVariables) (purpose : bytes) : result bytes PreparedEnvironment :=
  timeout ← map_err runtime_setting_error_text (process_timeout (new_settings runtime));
  environment ← map_err (fun e => B "cannot build " ++ purpose ++ B " environment: " ++ e) (environment_from_runtime runtime);
  configured ← ok_or (B "bounded " ++ purpose ++ B " environment does not contain SHELL") (environment_get environment (B "SHELL"));
  policy ← approve configured;
  Ok {| pe_environment := environment; pe_policy := policy; pe_timeout := timeout * SECOND |}.
(** Source: command_runner.rs `fn prepare(` *)
Definition prepare_command (runtime : RuntimeVariables) : M W (DeliveryAttemptError HostError) (PreparedCommand Fd) :=
  prepared ← of_result (map_err recoverable_error (prepare_environment runtime (B "external command")));
  stderr ← with_error (fun e => recoverable_error (B "cannot open external command log: " ++ ie_text e)) (log_stderr runtime);
  mret {| pr_environment := pe_environment prepared; pr_policy := pe_policy prepared; pr_timeout := pe_timeout prepared; pr_stderr := stderr |}.

Definition policies_match (output : OutputHandling) (status : ChildStatusPolicy) : bool :=
  match output, status with
  | OH_Discard, SP_Condition | OH_Capture _, SP_Capture | OH_Discard, SP_Recipe | OH_Filter _, SP_Recipe => true
  | _, _ => false
  end.
(** Source: command_runner.rs `fn run(` *)
Definition run_command (request : CommandRequest) (runtime : RuntimeVariables) : M W (DeliveryAttemptError HostError) CommandRun :=
  prepared ← prepare_command runtime;
  if negb (policies_match (rq_output request) (rq_status request)) then
    stop_with (internal_runner_error (B "command output and child-status policies do not match"))
  else
    let input := selected_action_input (rq_selection request) in
    with_error process_error
      match rq_output request with
      | OH_Discard =>
          ran ← run_program_with_timeout patience (pr_policy prepared) (pr_environment prepared) (rq_command request) (rq_input request)
                  {| po_output_ending := rq_ending request; po_action_input := input; po_timeout := pr_timeout prepared |} (pr_stderr prepared);
          mret (CR_Program ran)
      | OH_Capture limit =>
          ran ← run_capture_with_timeout patience (pr_policy prepared) (pr_environment prepared) (rq_command request) (rq_input request)
                  {| cp_output_ending := rq_ending request; cp_timeout := pr_timeout prepared; cp_output_limit := limit; cp_action_input := input |}
                  (pr_stderr prepared);
          mret (CR_Capture ran)
      | OH_Filter limits =>
          ran ← run_filter patience (pr_policy prepared) (pr_environment prepared) (rq_command request) (rq_input request)
                  {| fo_output_ending := rq_ending request; fo_action_input := input; fo_limits := limits; fo_timeout := pr_timeout prepared |}
                  (pr_stderr prepared);
          mret (CR_Filter ran)
      end.
Definition run_here (request : CommandRequest) : Attempt CommandRun := runtime ← the_runtime; in_world (run_command request runtime).

(** ** Judging *)

(** Source: command_runner.rs `fn record_command_status` *)
Definition record_command_status (runtime : RuntimeVariables) (exit_code : option Z) (outcome : CommandOutcome) : RuntimeVariables :=
  set_last_command_status runtime
    (Z.to_nat (default (match co_child_exit outcome with CE_Success => 0 | CE_ExitFailure | CE_Signaled | CE_TimedOut => 1 end) exit_code)).
(** Source: command_runner.rs `fn report_child_failure` *)
Definition report_failure (runtime : RuntimeVariables) (exit : ChildExit) : M W IoError () :=
  let report text := with_error into_io_error (write_diagnostic runtime (text ++ [c_LF])) in
  match exit with
  | CE_Success => mret tt
  | CE_ExitFailure => report (B "procmail-rs: external command exited unsuccessfully")
  | CE_Signaled => report (B "procmail-rs: external command terminated by a signal")
  | CE_TimedOut => report (B "procmail-rs: external command exceeded TIMEOUT")
  end.
(** Source: command_runner.rs `fn process_command` *)
Definition process_command {A} (ran : A) (outcome : CommandOutcome) (policy : CommandOutcomePolicy) (runtime : RuntimeVariables)
    : M W (DeliveryAttemptError HostError) (ProcessedCommand A) :=
  let decision := decide_outcome outcome policy in
  _ ← (if report_child_failure decision then with_error log_error (report_failure runtime (co_child_exit outcome)) else mret tt);
  mret {| pc_run := ran; pc_decision := decision; pc_outcome := outcome |}.
Definition process_here {A} (ran : A) (outcome : CommandOutcome) (policy : CommandOutcomePolicy) : Attempt (ProcessedCommand A) :=
  runtime ← the_runtime; in_world (process_command ran outcome policy runtime).

(** ** Requests *)

(** Source: command_runner.rs `pub fn condition` *)
Definition runner_condition (command : bytes) (input : MessageBytes) : Attempt bool :=
  ran ← run_here {| rq_command := command; rq_input := input; rq_selection := IS_Message; rq_ending := Preserve; rq_output := OH_Discard; rq_status := SP_Condition |};
  match ran with
  | CR_Program ran =>
      _ ← update_runtime (fun r => record_command_status r (pg_exit_code ran) (program_outcome ran));
      mret (accepted (decide_outcome (program_outcome ran) CP_Condition))
  | _ => stop_with (internal_runner_error (B "condition returned non-program output"))
  end.

(** Source: command_runner.rs `pub fn capture` *)
Definition runner_capture (command : bytes) (input : MessageBytes) (ending : OutputEnding) (options : option RecipeOptions) (limit : Z) : Attempt bytes :=
  ran ← run_here {| rq_command := command; rq_input := input; rq_selection := IS_Recipe (default AI_Message (action_input <$> options));
                   rq_ending := ending; rq_output := OH_Capture limit; rq_status := SP_Capture |};
  match ran with
  | CR_Capture ran =>
      let policy := match options with Some o => CP_RecipeCapture (child_status o) (write_errors o) | None => CP_ExpansionCapture end in
      let outcome := capture_outcome ran in
      _ ← update_runtime (fun r => record_command_status r (ct_exit_code ran) outcome);
      processed ← process_here ran outcome policy;
      ran ← of_result (require processed accepted (fun outcome =>
        if bool_decide (co_child_exit outcome = CE_TimedOut) then B "command assignment exceeded TIMEOUT"
        else B "command capture did not complete successfully"));
      of_result (map_err (fun e => recoverable_error (B "command returned invalid captured output: " ++ ie_text e)) (ct_output ran))
  | _ => stop_with (internal_runner_error (B "capture returned non-capture output"))
  end.

(** Source: command_runner.rs `fn write_stdout` *)
Definition write_stdout (input : MessageBytes) (options : RecipeOptions) : Attempt (option Message) :=
  written ← outcome_of (in_world (
    _ ← put_all stdout_write (first_part input);
    _ ← put_all stdout_write (second_part input);
    _ ← (if match output_ending options with Normalize => true | Preserve => false end && negb (message_bytes_ends_with input [c_LF])
         then stdout_write [c_LF] else mret tt);
    stdout_flush));
  match write_errors options, written with
  | WE_Fail, Err e => stop_with (recoverable_error (B "cannot write message to stdout: " ++ ie_text e))
  | _, _ => _ ← update_runtime (fun r => set r (B "LASTFOLDER") (B "|")); mret None
  end.

(** The lock is dropped where the command was not started.
    Source: command_runner.rs `fn start_unwaited_action` *)
Definition start_unwaited_action (command : bytes) (options : RecipeOptions) (input : MessageBytes) (lock : option (LocalLock Fd)) : Attempt (option Message) :=
  ran ← dropping_on_error (drop_guard_here lock)
    (_ ← with_error recoverable_error (in_world reserve_command);
     runtime ← the_runtime;
     prepared ← in_world (prepare_command runtime);
     in_world (with_error process_error (run_program_in_background (pr_policy prepared) (pr_environment prepared) command input
       {| po_output_ending := output_ending options; po_action_input := action_input options; po_timeout := pr_timeout prepared |} (pr_stderr prepared))));
  let outcome := {| co_input_write := bg_input_write ran; co_child_exit := CE_Success |} in
  runner ← the_runner;
  _ ← set_background (cr_background runner ++ [{| bc_run := ran; bc_lock := lock |}]);
  _ ← update_runtime (fun r => set_last_command_status r 0);
  if accepted (decide_outcome outcome (CP_Pipe (child_status options) (write_errors options))) then
    _ ← update_runtime (fun r => set r (B "LASTFOLDER") command); mret None
  else stop_with (recoverable_error (B "cannot write complete message to external program")).

(** The error of a body filter whose output lost its separator. *)
Definition lost_separator : IoError := io_other (B "body filter output lost its private separator").
(** Source: command_runner.rs `fn finish_filter` *)
Definition finish_filter (ran : FilterRun) (input : ExternalActionInput) (options : RecipeOptions) (limits : MessageLimits) : Attempt (option Message) :=
  let outcome := filter_outcome ran in
  _ ← update_runtime (fun r => record_command_status r (fr_exit_code ran) outcome);
  processed ← process_here ran outcome (CP_Filter (child_status options) (write_errors options) (output_state ran));
  if bool_decide (output_state ran = FO_Failed) then
    match fr_output (pc_run processed) with
    | Err e => stop_with (recoverable_error (B "external filter returned an invalid message: " ++ message_read_error_text e))
    | Ok _ => stop_with (internal_runner_error (B "failed filter output did not retain its validation error"))
    end
  else
    ran ← of_result (require processed replace_message (fun _ => B "external filter did not complete successfully"));
    output ← of_result (map_err (fun e => internal_runner_error (B "validated filter output retained an unexpected error: " ++ message_read_error_text e)) (fr_output ran));
    replaced ← of_result (map_err (fun e => recoverable_error (B "external filter returned an invalid replacement message: " ++ message_read_error_text e))
                  (from_filter_output lost_separator (ea_header input) (ea_body input) output (action_input options) limits));
    mret (Some replaced).

(** A command that is waited for holds the lock while it runs.
    Source: command_runner.rs `pub fn action` *)
Definition runner_action (command : bytes) (options : RecipeOptions) (input : ExternalActionInput) (lock : option (LocalLock Fd)) : Attempt (option Message) :=
  if bool_decide (command = []) then always (write_stdout (ea_selected input) options) (drop_guard_here lock)
  else if bool_decide (action_mode options = Deliver_) && bool_decide (child_status options = CS_Ignore) then
    start_unwaited_action command options (ea_selected input) lock
  else
    always (
      runner ← the_runner;
      ran ← run_here {|
        rq_command := command; rq_input := ea_selected input; rq_selection := IS_Recipe (action_input options); rq_ending := output_ending options;
        rq_output := if bool_decide (action_mode options = Deliver_) then OH_Discard else OH_Filter (cr_limits runner); rq_status := SP_Recipe |};
      match ran with
      | CR_Program ran =>
          let outcome := program_outcome ran in
          _ ← update_runtime (fun r => record_command_status r (pg_exit_code ran) outcome);
          processed ← process_here ran outcome (CP_Pipe (child_status options) (write_errors options));
          _ ← of_result (require processed accepted (fun _ => B "external program did not complete successfully"));
          _ ← update_runtime (fun r => set r (B "LASTFOLDER") command);
          mret None
      | CR_Filter ran => finish_filter ran input options (cr_limits runner)
      | CR_Capture _ => stop_with (internal_runner_error (B "pipe action returned captured command output"))
      end) (drop_guard_here lock).

(** ** The end of a message *)

Definition background_error (e : ProcessFailure) : HostError :=
  match e with PF_Error message => HE_Error (OE_Internal (B "cannot supervise background external command: " ++ message)) | PF_Panic => HE_Panic end.
(** The commands after one that cannot be waited for are dropped with their locks.
    Source: command_runner.rs:363-370 `finish_background (loop)` *)
Fixpoint wait_all (commands : list (BackgroundCommand Fd Child)) : M W HostError () :=
  match commands with
  | [] => mret tt
  | command :: rest =>
      _ ← dropping_on_error (fun w => foldl (fun w c => drop_guard (bc_lock c) w) w (command :: rest))
            (with_error background_error (wait_background patience (bc_run command)));
      _ ← modify (drop_guard (bc_lock command));
      wait_all rest
  end.
(** Source: command_runner.rs `pub fn finish_background` *)
Definition runner_finish_background : M (CommandRunner Fd Child * W) HostError () := Comp (fun '(runner, w) =>
  let '(r, w) := run (wait_all (cr_background runner)) w in (r, ({| cr_limits := cr_limits runner; cr_background := [] |}, w))).

(** What is printed where nothing else can be told; failing to print it is not
    modelled. *)
Definition eprintln (text : bytes) : M W Empty_set () := _ ← outcome_of (stderr_write (text ++ [c_LF])); mret tt.
(** Source: command_runner.rs `fn report_trap_diagnostic` *)
Definition report_trap_diagnostic (runtime : RuntimeVariables) (message : bytes) : M W Empty_set () :=
  written ← outcome_of (write_diagnostic runtime (B "procmail-rs: " ++ message ++ [c_LF]));
  match written with
  | Ok _ => mret tt
  | Err (DW_Open e) => eprintln (B "procmail-rs: cannot write TRAP diagnostic to LOGFILE: " ++ ie_text e)
  | Err (DW_Write e) => eprintln (B "procmail-rs: cannot write TRAP diagnostic: " ++ ie_text e)
  end.
(** Source: command_runner.rs `fn trap_output` *)
Definition trap_output (runtime : RuntimeVariables) : M W Empty_set (Stdio Fd * Stdio Fd) :=
  output ← outcome_of (log_trap_output runtime);
  match output with
  | Ok output => mret output
  | Err (TO_Open e) => _ ← eprintln (B "procmail-rs: cannot open LOGFILE for TRAP output: " ++ ie_text e); mret inherited_trap_output
  | Err (TO_Duplicate e) => _ ← eprintln (B "procmail-rs: cannot duplicate LOGFILE for TRAP output: " ++ ie_text e); mret inherited_trap_output
  end.
Definition never_fails {E A} (m : M W Empty_set A) : M W E A := with_error (fun e : Empty_set => match e with end) m.
(** Source: command_runner.rs `fn run_trap` *)
Definition run_trap (command : bytes) (message : MessageBytes) (runtime : RuntimeVariables) : M W ProcessFailure ProgramRun :=
  prepared ← of_result (map_err PF_Error (prepare_environment runtime (B "TRAP")));
  output ← never_fails (trap_output runtime);
  let '(stdout, stderr) := output in
  run_trap_with_timeout patience (pe_policy prepared) (pe_environment prepared) command message (pe_timeout prepared) stdout stderr.
Definition EXITCODE : bytes := B "EXITCODE".
(** Errors are reported and no more; a panic goes on.
    Source: command_runner.rs `pub fn trap` *)
Definition runner_trap (message : MessageBytes) (provisional_status : Z) : M Commanding HostError () :=
  runtime ← the_runtime;
  match get runtime (B "TRAP") with
  | None | Some [] => mret tt
  | Some command =>
      let was_absent := bool_decide (get runtime EXITCODE = None) in
      let was_empty := bool_decide (get runtime EXITCODE = Some []) in
      _ ← (if was_absent then update_runtime (fun r => set r EXITCODE (z_decimal provisional_status)) else mret tt);
      runtime ← the_runtime;
      ended ← outcome_of (in_world (run_trap command message runtime));
      match ended with
      | Ok ran =>
          _ ← (if bool_decide (pg_child_exit ran = CE_TimedOut) then in_world (never_fails (report_trap_diagnostic runtime (B "TRAP exceeded TIMEOUT"))) else mret tt);
          if was_empty then
            match pg_exit_code ran with
            | Some code =>
                if negb (code =? 0) then update_runtime (fun r => set r EXITCODE (z_decimal code))
                else if negb (accepted (decide_outcome (program_outcome ran) CP_Trap)) then
                  update_runtime (fun r => set r EXITCODE (z_decimal (status_code ES_TemporaryDelivery)))
                else mret tt
            | None =>
                if negb (accepted (decide_outcome (program_outcome ran) CP_Trap)) then
                  update_runtime (fun r => set r EXITCODE (z_decimal (status_code ES_TemporaryDelivery)))
                else mret tt
            end
          else mret tt
      | Err PF_Panic => stop_with HE_Panic
      | Err (PF_Error error) =>
          _ ← in_world (never_fails (report_trap_diagnostic runtime (B "TRAP failed: " ++ error)));
          if was_empty then update_runtime (fun r => set r EXITCODE (z_decimal (status_code ES_TemporaryDelivery))) else mret tt
      end
  end.
End runner.

(** What a TRAP leaves: the exit status of the program. *)

Section trap.
Context {T : Target} {P : Platform} {W Fd Child : Type} {OS : Os W Fd} {PR : Processes W Fd Child} {TM : Terminal W}.
Context (patience : Patience).
Abbreviation Commanding := (RuntimeVariables * (CommandRunner Fd Child * W))%type (only parsing).

(** Computations that may only change the world. *)
Definition worldly {E A} (m : M Commanding E A) : Prop := forall s, (run m s).2.1 = s.1 /\ (run m s).2.2.1 = s.2.1.
Lemma run_in_world {E A} (m : M W E A) r (c : CommandRunner Fd Child) w : run (in_world m) (r, (c, w)) = ((run m w).1, (r, (c, (run m w).2))).
Proof. unfold in_world, on. cbn [run fst snd]. by destruct (run m w). Qed.
Lemma worldly_in_world {E A} (m : M W E A) : worldly (in_world m).
Proof. intros [r [c w]]. unfold in_world, on. cbn [run fst snd]. by destruct (run m w). Qed.
Lemma worldly_ret {E A} (a : A) : worldly (E := E) (mret a).
Proof. by intros s. Qed.

Definition never_stops {E A} (m : M Commanding E A) : Prop := forall s, is_ok (run m s).1 = true.
Lemma never_stops_world {E A} (m : M W Empty_set A) : never_stops (in_world (E := E) (never_fails m)).
Proof. intros [r [c w]]. rewrite run_in_world. unfold never_fails. rewrite run_with_error. by destruct (run m w) as [[a|[]] w']. Qed.

Lemma run_runtime {E} (s : Commanding) : run (the_runtime (E := E)) s = (Ok s.1, s).
Proof. done. Qed.

Lemma completed_code input status timed_out code : cc_exit_code (complete_child input status timed_out) = Some code -> 0 <= code <= 255.
Proof.
  cbn. destruct (cs_code status) as [c|]; [|done]. cbn. unfold between. destruct (Z.leb_spec 0 c), (Z.leb_spec c 255); cbn; intros [= <-]; lia.
Qed.
Lemma trap_code command message runtime w ran w' code :
  run (run_trap patience command message runtime) w = (Ok ran, w') -> pg_exit_code ran = Some code -> 0 <= code <= 255.
Proof.
  unfold run_trap. intros (prepared & w1 & _ & H)%run_bind_Ok. apply run_bind_Ok in H as ([o e] & w2 & _ & H).
  unfold run_trap_with_timeout, run_program_with_streams in H. apply run_bind_Ok in H as (l & w3 & _ & H).
  apply run_bind_Ok in H as (completed & w4 & Hc & H). rewrite run_ret in H. injection H as <- <-. cbn [pg_exit_code].
  unfold run_without_output in Hc. apply run_bind_Ok in Hc as (both & w5 & _ & Hc). apply run_bind_Ok in Hc as (waited & w6 & _ & Hc).
  rewrite run_ret in Hc. injection Hc as <- <-. apply completed_code.
Qed.

(** What the TRAP makes of an EXITCODE that was set to nothing. *)
Definition trapped_status (ended : result ProcessFailure ProgramRun) : option Z :=
  match ended with
  | Err PF_Panic => None
  | Err (PF_Error _) => Some 75
  | Ok ran =>
      match pg_exit_code ran with
      | Some code => if code =? 0 then if bool_decide (pg_child_exit ran = CE_Success) then None else Some 75 else Some code
      | None => if bool_decide (pg_child_exit ran = CE_Success) then None else Some 75
      end
  end.
Definition trap_runtime (runtime : RuntimeVariables) (provisional : Z) : RuntimeVariables :=
  match get runtime EXITCODE with None => set runtime EXITCODE (z_decimal provisional) | Some _ => runtime end.
Definition trapped_runtime (runtime : RuntimeVariables) (provisional : Z) (ended : result ProcessFailure ProgramRun) : RuntimeVariables :=
  match get runtime EXITCODE, trapped_status ended with
  | Some [], Some code => set runtime EXITCODE (z_decimal code)
  | _, _ => trap_runtime runtime provisional
  end.

(** Only a panic of the TRAP is seen by the caller. *)
Definition trap_result (ended : result ProcessFailure ProgramRun) : result HostError () :=
  match ended with Err PF_Panic => Err HE_Panic | _ => Ok tt end.
Lemma trap_runs message provisional (s : Commanding) :
  match get s.1 (B "TRAP") with
  | None | Some [] => run (runner_trap patience message provisional) s = (Ok tt, s)
  | Some command =>
      let '(r, s') := run (runner_trap patience message provisional) s in
      let ended := (run (run_trap patience command message (trap_runtime s.1 provisional)) s.2.2).1 in
      s'.1 = trapped_runtime s.1 provisional ended /\ s'.2.1 = s.2.1 /\ r = trap_result ended
  end.
Proof.
  unfold runner_trap. destruct s as [r [c w]]. cbn [fst snd]. destruct (get r (B "TRAP")) as [[|b command]|] eqn:Ht;
    [by rewrite run_bind, run_runtime; cbn [fst]; rewrite Ht| |by rewrite run_bind, run_runtime; cbn [fst]; rewrite Ht].
  rewrite run_bind, run_runtime. cbn [fst]. rewrite Ht. rewrite run_bind.
  assert (run (if bool_decide (get r EXITCODE = None) then update_runtime (fun r => set r EXITCODE (z_decimal provisional)) else mret tt) (r, (c, w)) =
    (Ok tt : result HostError (), (trap_runtime r provisional, (c, w)))) as ->.
  { unfold trap_runtime. case_bool_decide as He; [by rewrite He|]. by destruct (get r EXITCODE). }
  rewrite run_bind, run_runtime. cbn [fst]. rewrite run_bind, run_outcome, run_in_world. cbn [fst snd].
  destruct (run (run_trap patience (b :: command) message (trap_runtime r provisional)) w) as [ended w1]. cbn [fst snd].
  assert (forall (m k : M Commanding HostError ()), worldly m -> never_stops m ->
    (forall c w, run k (trap_runtime r provisional, (c, w)) = (Ok tt, (trapped_runtime r provisional ended, (c, w)))) ->
    let '(r', s') := run (m ≫= fun _ => k) (trap_runtime r provisional, (c, w1)) in
    s'.1 = trapped_runtime r provisional ended /\ s'.2.1 = c /\ r' = Ok tt) as Hthen.
  { intros m k Hm Hns Hk. rewrite run_bind. destruct (Hm (trap_runtime r provisional, (c, w1))) as [H1 H2]. specialize (Hns (trap_runtime r provisional, (c, w1))).
    destruct (run m _) as [[[]|e] [r' [c' w']]]; cbn [fst snd] in *; [|done]. subst. by rewrite Hk. }
  destruct ended as [ran|[error|]]; cbn beta iota.
  - apply Hthen; [by case_bool_decide; [apply worldly_in_world|apply worldly_ret]|by case_bool_decide; [apply never_stops_world|]|]. unfold trapped_runtime, trapped_status. cbn [program_outcome decide_outcome accepted new_decision co_child_exit].
    case_bool_decide as He.
    + rewrite He. unfold trap_runtime. rewrite He. destruct (pg_exit_code ran) as [code|]; [destruct (code =? 0)|]; cbn [negb]; (try case_bool_decide); cbn [negb]; reflexivity.
    + intros c' w'. by destruct (get r EXITCODE) as [[|]|].
  - apply Hthen; [apply worldly_in_world|apply never_stops_world|]. unfold trapped_runtime, trapped_status. case_bool_decide as He.
    + rewrite He. unfold trap_runtime. rewrite He. reflexivity.
    + intros c' w'. by destruct (get r EXITCODE) as [[|]|].
  - cbn [run stop_with fst snd]. unfold trapped_runtime, trapped_status. by destruct (get r EXITCODE) as [[|]|].
Qed.

Lemma requested_code runtime code : 0 <= code <= 255 -> parse_requested_exit_code (set runtime EXITCODE (z_decimal code)) = Ok (Some code).
Proof.
  intros Hc. unfold parse_requested_exit_code. rewrite get_set_plain by by vm_compute. rewrite z_decimal_nonneg by lia.
  pose proof (parse_unsigned_decimal 255 (Z.to_nat code) ltac:(lia)) as Hp. rewrite Z2Nat.id in Hp by lia.
  case_bool_decide as Hn; [by rewrite Hn in Hp|]. rewrite decimal_digits. cbn [negb]. by rewrite Hp.
Qed.

(** C18: The TRAP and the status of the program.  Without a TRAP, or with an empty one,
    nothing changes at all.  With one, an EXITCODE that was set to something is left
    as it was, byte for byte, whatever the command does; one that was not set becomes the status the run
    would end with; and one that was set to nothing becomes the status of the command if
    that is not zero, or 75 where the command could not be run to a success, and stays
    empty after a success.  What is set is what the program then reads back as its
    exit status.  No other variable changes, and the commands that are still running are
    the same.  The errors of the TRAP stay here; only a panic of it goes on to the
    caller, to end the program with the status of a panic. *)
Theorem trap_decides_exit_code message provisional (s : Commanding) :
  0 <= provisional <= 255 ->
  let '(r, s') := run (runner_trap patience message provisional) s in
  match get s.1 (B "TRAP") with
  | None | Some [] => r = Ok tt /\ s' = s
  | Some command =>
      let ended := (run (run_trap patience command message (trap_runtime s.1 provisional)) s.2.2).1 in
      r = trap_result ended /\ s'.2.1 = s.2.1 /\
      (forall name, name <> EXITCODE -> get_bytes s'.1 name = get_bytes s.1 name) /\
      match get s.1 EXITCODE, trapped_status ended with
      | None, _ => parse_requested_exit_code s'.1 = Ok (Some provisional)
      | Some [], Some code => parse_requested_exit_code s'.1 = Ok (Some code)
      | Some [], None | Some _, _ => s'.1 = s.1
      end
  end.
Proof.
  intros Hp. pose proof (trap_runs message provisional s) as H. destruct (get s.1 (B "TRAP")) as [[|b command]|] eqn:Ht; [by rewrite H| |by rewrite H].
  destruct (run (runner_trap patience message provisional) s) as [r s']. destruct H as (-> & Hc & ->). cbv zeta.
  destruct (run (run_trap patience (b :: command) message (trap_runtime s.1 provisional)) s.2.2) as [ended w'] eqn:E. cbn [fst].
  assert (forall name value, name <> EXITCODE -> get_bytes (set s.1 EXITCODE value) name = get_bytes s.1 name) as Hkeep.
  { intros name value Hn. unfold get_bytes, special, read_with, set. rewrite !find_with_insert, !bool_decide_false by done. done. }
  split; [done|]. split; [done|]. unfold trapped_runtime, trap_runtime. destruct (get s.1 EXITCODE) as [[|x value]|] eqn:He.
  - destruct (trapped_status ended) as [code|] eqn:Hs; [|done]. split; [by intros name Hn; apply Hkeep|].
    apply requested_code. destruct ended as [ran|[error|]]; cbn in Hs; [|injection Hs as <-; lia|done].
    destruct (pg_exit_code ran) as [c|] eqn:Hcode.
    + pose proof (trap_code _ _ _ _ _ _ _ E Hcode). destruct (c =? 0); [case_bool_decide; [done|]; injection Hs as <-; lia|by injection Hs as <-].
    + case_bool_decide; [done|]. injection Hs as <-. lia.
  - done.
  - split; [by intros name Hn; apply Hkeep|]. by apply requested_code.
Qed.
End trap.

(** A system of a clock, on which every command exits at once with status 3. *)
#[local] Instance trap_clock : Os Z () := clock_only (fun w => w) (fun d w => w + Z.max 1 d) (stop_with 38) (stop_with 38) (stop_with 38).
#[local] Instance trap_processes : Processes Z () () := {|
  pr_spawn _ := mret tt; pr_id _ := 5; pr_write_stdin _ _ := mret tt; pr_close_stdin _ w := w; pr_stdout _ _ := [];
  pr_try_wait _ := mret (Some {| cs_code := Some 3; cs_signal := None |}); pr_wait _ := mret {| cs_code := Some 3; cs_signal := None |};
  pr_kill_group _ _ := mret tt; pr_no_group := 3;
  pr_socket_pair := mret (tt, tt); pr_set_read_timeout _ _ := mret tt; pr_read _ _ := mret []; pr_start_thread := mret tt;
  pr_beside _ _ _ _ m n w := let '(r, w) := run m w in let '(s, w) := run n w in ((r, s), w);
|}.
#[local] Instance trap_terminal : Terminal Z := {| stdout_write _ := mret tt; stdout_flush := mret tt; stderr_write _ := mret tt |}.
Definition trap_sample : RuntimeVariables := set (set (default_runtime (B "7")) (B "TRAP") (B "exit 3")) EXITCODE [].
Definition trap_message : MessageBytes := {| first_part := B "a: b"; second_part := [] |}.
Lemma trap_decides_exit_code_witness :
  let '(r, s') := run (runner_trap (P := linux_numbers) (Fd := ()) (Child := ()) 4 trap_message 0) (trap_sample, (new_runner default_limits, 100)) in
  r = Ok tt /\ parse_requested_exit_code s'.1 = Ok (Some 3).
Proof.
  pose proof (trap_decides_exit_code (P := linux_numbers) (Fd := ()) (Child := ()) 4 trap_message 0 (trap_sample, (new_runner default_limits, 100)) ltac:(lia)) as H.
  assert (get trap_sample (B "TRAP") = Some (B "exit 3")) as H1 by (vm_compute; reflexivity).
  assert (get trap_sample EXITCODE = Some []) as H2 by (vm_compute; reflexivity). cbn [fst] in H. rewrite H1, H2 in H.
  set (ended := run (run_trap _ _ _ _) _) in H. assert (ended.1 = Ok {| pg_input_write := IW_Complete; pg_child_exit := CE_ExitFailure; pg_exit_code := Some 3 |}) as E
    by (vm_compute; reflexivity).
  destruct (run (runner_trap _ _ _) _) as [r s']. destruct H as (Hr & _ & _ & H). cbv zeta in *. cbn [snd] in *. fold ended in Hr, H. rewrite E in Hr, H.
  split; [exact Hr|exact H].
Defined.
