(* ===== verification/DeliveryRuntime.v ===== *)
(** Deliveries as the program makes them: [src/src/delivery_runtime.rs] with
    [src/src/delivery_runtime/preparation.rs] and
    [src/src/delivery_runtime/execution.rs].  Destinations are resolved and their
    sinks opened, the message is streamed or staged, and what was published is
    applied; one that is executed in order has the host of this file, which is the
    [OrderedExecutionHost] of the program.

    [patience] are the steps of a wait that are followed.  The hosts of the branches share
    the world; the order of their calls is that of [Ordered].  Allocations do not
    fail. *)
From stdpp Require Import gmap.
From S2P Require Import Prelude Effects Numbers Config Limits Utf8 Variables Runtime Settings Message EvalMessage ShellPattern ShellEval ExprParser Expand Binding Conditions Plan RcFile RuntimeRc Delivery Trace.
From S2P Require Import Startup Files LocalLock Mbox Maildir Staging Streaming Environment ExternalProcess HeaderPlan Ordered CommandRunner.
#[local] Open Scope Z_scope.

(** What a publication changes: [src/src/delivery_runtime/publication.rs].  Only a
    backend knows whether a destination became visible; from its report follow the
    trace, LASTFOLDER and the count of deliveries.  The world also holds the sink of
    the trace. *)

(** Source: trace.rs `pub trait TraceSink` *)
Class TraceSink (W : Type) := { trace_detail : W -> TraceDetail; trace_record : TraceRecord -> W -> W }.

(** Source: runtime.rs `pub enum PublicationResult` *)
Inductive PublicationResult := PR_Delivery (delivery : PublishedDelivery) | PR_Fanout (report : list PublishedDelivery) | PR_PartialFanout (error : CommitError).
(** Source: runtime.rs `pub fn len(self)` *)
Definition publication_len (r : PublicationResult) : nat :=
  match r with PR_Delivery _ => 1 | PR_Fanout report => length report | PR_PartialFanout e => length (ce_published e) end.
(** Source: runtime.rs `fn last_folder(self)` *)
Definition publication_last_folder (r : PublicationResult) : option bytes :=
  match r with
  | PR_Delivery delivery => Some (pub_last_folder delivery)
  | PR_Fanout report => report_last_folder report
  | PR_PartialFanout e => report_last_folder (ce_published e)
  end.

(** Source: delivery_runtime/publication.rs `pub(super) struct PublicationTracker` *)
Record PublicationTracker := { pt_published : nat; pt_original_delivered : bool }.
Definition no_publications : PublicationTracker := {| pt_published := 0; pt_original_delivered := false |}.
(** Source: delivery_runtime/publication.rs `pub(super) struct OrderedStepError` *)
Record OrderedStepError := { ose_error : OperationalError; ose_can_handle : bool }.
(** Source: delivery_runtime/publication.rs `pub(super) fn before_publication` *)
Definition step_before (e : OperationalError) : OrderedStepError := {| ose_error := e; ose_can_handle := true |}.
(** Source: delivery_runtime/publication.rs `pub(super) fn after_publication` *)
Definition step_after (e : OperationalError) : OrderedStepError := {| ose_error := e; ose_can_handle := false |}.
(** Source: delivery_runtime/publication.rs `pub(super) enum PublicationDestinations` *)
Inductive PublicationDestinations := PD_One (d : Destination) | PD_Plan (deliveries : list PlannedDelivery).
(** Source: delivery_runtime/publication.rs `fn get(&self` *)
Definition destination_at (d : PublicationDestinations) (index : nat) : option Destination :=
  match d with
  | PD_One d => if (index =? 0)%nat then Some d else None
  | PD_Plan deliveries => pd_destination <$> deliveries !! index
  end.
(** Source: delivery_runtime/publication.rs `struct PublicationFailure` *)
Record PublicationFailure := { pf_cause : DeliveryFailure; pf_failed_index : nat; pf_error : OperationalError }.
(** Source: delivery_runtime/publication.rs `pub(super) struct PublicationAttempt` *)
Record PublicationAttempt := { pa_published : option PublicationResult; pa_failure : option PublicationFailure }.
(** Source: delivery_runtime/publication.rs `pub(super) fn published(result` *)
Definition attempt_published (r : PublicationResult) : PublicationAttempt := {| pa_published := Some r; pa_failure := None |}.
(** Source: delivery_runtime/publication.rs `pub(super) fn failed(` *)
Definition attempt_failed (published : option PublicationResult) (failure : DeliveryFailure) (failed_index : nat) (message : bytes) : PublicationAttempt :=
  {| pa_published := published; pa_failure := Some {| pf_cause := failure; pf_failed_index := failed_index; pf_error := OE_Delivery failure message |} |}.

Section publication.
Context {T : Target} {W : Type} {TS : TraceSink W}.
(** The methods of a delivery change the variables and the world. *)
Abbreviation Delivering := (M (RuntimeVariables * W)) (only parsing).

(** Source: delivery_runtime.rs `fn record_delivery` *)
Definition record_delivery (d : Destination) (stage : DeliveryStage) (w : W) : W :=
  let path := if includes_variable_values (trace_detail w) then Some (trace_value (destination_path d)) else None in
  trace_record (event_at (TE_Delivery (destination_line d) (kind d) stage path) (pe_location (destination_expression d)) (trace_detail w)) w.
Definition record_here {E} (d : Destination) (stage : DeliveryStage) : Delivering E () := modify (fun s => (s.1, record_delivery d stage s.2)).
Definition resolve_in (runtime : RuntimeVariables) (d : Destination) : result ExpansionError Destination := resolve_destination d (get runtime).

(** Source: delivery_runtime/publication.rs `pub(super) fn record(` *)
Definition record_published (t : PublicationTracker) (published : nat) (original_delivered : bool) : result OperationalError PublicationTracker :=
  total ← ok_or (OE_Internal (B "published destination count overflows")) (checked_add (pt_published t) published);
  Ok {| pt_published := total; pt_original_delivered := pt_original_delivered t || original_delivered |}.
(** The tracker starts anew.
    Source: delivery_runtime/publication.rs `pub(super) fn finish` *)
Definition finish_publications (t : PublicationTracker) : result OperationalError () * PublicationTracker :=
  (if pt_original_delivered t then Ok tt
   else Err (OE_Undelivered (B "original message was not delivered (published " ++ decimal (pt_published t) ++ B " copy destination(s))")),
   no_publications).

(** [record_publication] with the trace of it. *)
Definition record_publication_here (r : PublicationResult) : Delivering bytes () := Comp (fun '(runtime, w) =>
  match Runtime.record_publication runtime (publication_last_folder r) with
  | Err e => (Err e, (runtime, w))
  | Ok runtime =>
      (Ok tt, (runtime, match publication_last_folder r with Some _ => trace_record (of_event TE_LastFolderUpdated) w | None => w end))
  end).
(** Source: delivery_runtime/publication.rs:143-154 `apply_publication (published)` *)
Fixpoint record_each (indices : list nat) (destinations : PublicationDestinations) : Delivering OrderedStepError () :=
  match indices with
  | [] => mret tt
  | index :: rest =>
      destination ← of_result (ok_or (step_after (OE_Internal (B "published destination has no matching delivery plan entry"))) (destination_at destinations index));
      s ← gets id;
      _ ← record_here (match resolve_in s.1 destination with Ok resolved => resolved | Err _ => destination end) DS_Published;
      record_each rest destinations
  end.
(** The failed destination is bound before LASTFOLDER changes.
    Source: delivery_runtime/publication.rs `pub(super) fn apply_publication` *)
Definition apply_publication (attempt : PublicationAttempt) (destinations : PublicationDestinations) : Delivering OrderedStepError nat :=
  let published := default 0%nat (publication_len <$> pa_published attempt) in
  s ← gets id;
  let failed := (fun failure =>
    destination ← ok_or (OE_Internal (B "failed sink has no delivery plan entry")) (destination_at destinations (pf_failed_index failure));
    map_err (fun e => OE_Internal (expansion_error_text e)) (resolve_in s.1 destination)) <$> pa_failure attempt in
  _ ← record_each (seq 0 published) destinations;
  _ ← match pa_published attempt with
      | Some result => with_error (fun e => step_after (OE_Internal e)) (record_publication_here result)
      | None => mret tt
      end;
  match pa_failure attempt with
  | Some failure =>
      destination ← of_result (ok_or (step_after (OE_Internal (B "failed sink has no bound destination"))) failed);
      destination ← of_result (map_err step_after destination);
      _ ← record_here destination (DS_Failure (pf_cause failure));
      stop_with (if (published =? 0)%nat then step_before (pf_error failure) else step_after (pf_error failure))
  | None => mret published
  end.

(** A signal that was received ends a delivery before its next step.
    Source: delivery_runtime.rs `fn check_signal` *)
Definition check_signal {Fd} {OS : Os W Fd} : M W OperationalError () := Comp (fun w =>
  match received w with Some signal => (Err (OE_Signaled signal), w) | None => (Ok tt, w) end).
(** A computation of the world, within a delivery. *)
Definition outside {E A} (m : M W E A) : Delivering E A := Effects.on snd (fun w s => (s.1, w)) m.

Context {P : Platform} {S : Type} {sinks : PendingSink W S} {Fd : Type} {OS : Os W Fd}.
(** A fanout that is dropped aborts its sinks.
    Source: delivery.rs `impl Drop for ValidatedFanout` *)
Definition drop_fanout (sinks : list S) (w : W) : W := (abort_all sinks w).2.
(** Source: delivery_runtime/publication.rs `pub(super) fn commit_delivery` *)
Definition commit_delivery (validated : ValidatedFanout) (deliveries : list PlannedDelivery) : Delivering OperationalError nat :=
  checked ← outcome_of (outside check_signal);
  match checked with
  | Err e => _ ← modify (fun s => (s.1, drop_fanout (vf_sinks validated) s.2)); stop_with e
  | Ok _ =>
      committed ← Comp (fun s => let '(r, w) := commit_fanout validated s.2 in (Ok r, (s.1, w)));
      with_error ose_error
        match committed with
        | Ok report => apply_publication (attempt_published (PR_Fanout report)) (PD_Plan deliveries)
        | Err e =>
            let published := if bool_decide (ce_published e = []) then None else Some (PR_PartialFanout e) in
            apply_publication (attempt_failed published (commit_failure (ce_source e)) (ce_failed_index e)
                                 (B "cannot publish Maildir delivery: " ++ commit_error_text e))
              (PD_Plan deliveries)
        end
  end.
End publication.

(** * Deliveries *)

(** Source: delivery_runtime.rs `pub struct DeliveryRuntime` *)
Record DeliveryRuntime (Fd : Type) := {
  dr_staging_directory : option bytes; dr_durability : DurabilityPolicy; dr_limits : MessageLimits; dr_uid : Z;
  dr_global_lock : option (LocalLock Fd); dr_publications : PublicationTracker; dr_dry_run : bool;
}.
Arguments Build_DeliveryRuntime {Fd}.
Arguments dr_staging_directory {Fd}. Arguments dr_durability {Fd}. Arguments dr_limits {Fd}. Arguments dr_uid {Fd}.
Arguments dr_global_lock {Fd}. Arguments dr_publications {Fd}. Arguments dr_dry_run {Fd}.
(** Source: delivery_runtime.rs `pub fn new(` *)
Definition new_delivery_runtime {Fd} (staging : option bytes) (durability : DurabilityPolicy) (limits : MessageLimits) (uid : Z) (dry_run : bool) : DeliveryRuntime Fd :=
  {| dr_staging_directory := staging; dr_durability := durability; dr_limits := limits; dr_uid := uid; dr_global_lock := None;
     dr_publications := no_publications; dr_dry_run := dry_run |}.

(** Source: delivery_runtime.rs `struct OrderedDeliveryHost` *)
Record DeliveryHost (Fd Child W : Type) := {
  dh_runner : CommandRunner Fd Child; dh_durability : DurabilityPolicy; dh_uid : Z; dh_global_lock : option (LocalLock Fd);
  dh_suspended : list (option (LocalLock Fd)); dh_dry_run : bool;
  (** the program is unwinding, from a panic that its caller has not seen yet *)
  dh_panicked : bool;
  dh_world : W;
}.
Arguments Build_DeliveryHost {Fd Child W}.
Arguments dh_runner {Fd Child W}. Arguments dh_durability {Fd Child W}. Arguments dh_uid {Fd Child W}. Arguments dh_global_lock {Fd Child W}.
Arguments dh_suspended {Fd Child W}. Arguments dh_dry_run {Fd Child W}. Arguments dh_panicked {Fd Child W}. Arguments dh_world {Fd Child W}.

(** A limit of the model is the error [OutOfFuel]. *)
Abbreviation Ended := (stop Empty_set HostError) (only parsing).
Definition failing (e : OperationalError) : Ended := Effects.Delivery (HE_Error e).
(** Source: delivery_runtime.rs `fn classify_execution_error` *)
Definition classify_execution_error (e : OperationalError) : DeliveryAttemptError HostError :=
  match e with OE_Signaled _ => Fatal (HE_Error e) | _ => Recoverable (HE_Error e) end.
Definition fatal_error (e : OperationalError) : DeliveryAttemptError HostError := Fatal (HE_Error e).

(** Source: delivery_runtime.rs `fn derive_implicit_lockfile_path` *)
Definition derive_implicit_lockfile_path {T : Target} (destination extension : bytes) : result OperationalError bytes :=
  _ ← map_err OE_PermanentDestination (validate_lock_ext extension);
  derived_len ← ok_or (OE_PermanentDestination (B "implicit lockfile path length overflows")) (checked_add (length destination) (length extension));
  if MAX_PATH_EXPRESSION_LEN <? Z.of_nat derived_len then
    Err (OE_PermanentDestination (B "implicit lockfile path exceeds the hard limit of " ++ z_decimal MAX_PATH_EXPRESSION_LEN ++ B " bytes"))
  else Ok (destination ++ extension).

Section delivery.
Context {T : Target} {P : Platform} {W Fd Child PF : Type} {OS : Os W Fd} {N : NameCounter W} {MB : MaildirBackend W Fd PF} {TS : TraceSink W}.
Context {PR : Processes W Fd Child} {TM : Terminal W} {BG : CommandBudget W}.
Context (patience : Patience).
Abbreviation Delivering := (M (RuntimeVariables * W)) (only parsing).
Abbreviation Host := (DeliveryHost Fd Child W) (only parsing).

(** * Reports *)

(** Source: delivery_runtime.rs `fn report_delivery_failure` *)
Definition report_delivery_failure (d : Destination) (failure : DeliveryFailure) (message : bytes) (w : W) : OperationalError * W :=
  (OE_Delivery failure message, record_delivery d (DS_Failure failure) w).
(** A computation whose errors are reported. *)
Definition reporting {E A} (report : E -> W -> OperationalError * W) (m : M W E A) : M W OperationalError A :=
  Comp (fun w => match run m w with (Ok a, w) => (Ok a, w) | (Err e, w) => let '(e, w) := report e w in (Err e, w) end).
(** Source: delivery_runtime.rs `fn report_indexed_failure` *)
Definition report_indexed_failure (index : nat) (failure : DeliveryFailure) (deliveries : list PlannedDelivery) (message : bytes) (w : W)
    : OperationalError * W :=
  match deliveries !! index with
  | Some delivery => report_delivery_failure (pd_destination delivery) failure message w
  | None => (OE_Internal (B "failed sink has no delivery plan entry"), w)
  end.
(** Source: delivery_runtime.rs `fn report_stream_failure` *)
Definition report_stream_failure (e : StreamDeliveryError) (deliveries : list PlannedDelivery) (w : W) : OperationalError * W :=
  match sde_delivery_failure e with
  | Some (index, failure) => report_indexed_failure index failure deliveries (stream_error_text e) w
  | None =>
      (match sde_staging_failure e with
       | Some failure => OE_Delivery failure (stream_error_text e)
       | None => OE_Input (B "cannot validate message from stdin: " ++ stream_error_text e)
       end, w)
  end.
Definition setting {A} (r : result RuntimeSettingError A) : result OperationalError A := map_err (fun e => OE_PermanentDestination (runtime_setting_error_text e)) r.

(** * Preparation *)

(** Source: delivery_runtime/preparation.rs `pub(super) fn resolve_destination` *)
Definition resolve_or_report (unresolved : Destination) (runtime : RuntimeVariables) : M W OperationalError Destination :=
  match resolve_in runtime unresolved with
  | Ok d => mret d
  | Err e => _ ← modify (record_delivery unresolved (DS_Failed FC_Permanent)); stop_with (OE_PermanentDestination (expansion_error_text e))
  end.
(** Source: delivery_runtime/preparation.rs `pub(super) fn prepare_mbox` *)
Definition prepare_mbox (d : Destination) (runtime : RuntimeVariables) : M W OperationalError (LockedMbox Fd) :=
  let path := destination_path d in
  let settings := new_settings runtime in
  timeout ← of_result (setting (lock_timeout settings));
  retry ← of_result (setting (lock_sleep settings));
  mask ← of_result (setting (umask settings));
  mbox ← reporting (fun e => report_delivery_failure d (failure_from_io DO_Open e false) (B "cannot open mbox " ++ path ++ B ": " ++ ie_text e))
           (open_mbox path mask);
  reporting (fun e => report_delivery_failure d (failure_from_io DO_Lock e false) (B "cannot lock mbox " ++ path ++ B ": " ++ ie_text e))
    (lock_mbox patience mbox (timeout * SECOND) (retry * SECOND)).
(** Source: delivery_runtime/preparation.rs `pub(super) fn open_sink(` *)
Definition open_sink (unresolved : Destination) (durability : DurabilityPolicy) (mask : Z) (status : MessageStatus) (runtime : RuntimeVariables)
    : M W OperationalError (Sink Fd PF) :=
  _ ← modify (record_delivery unresolved DS_Preparing);
  d ← resolve_or_report unresolved runtime;
  match kind d with
  | DK_Maildir =>
      let path := destination_path d in
      sink ← reporting (fun e => report_delivery_failure d (failure_from_io DO_Open e false) (B "cannot open Maildir " ++ path ++ B ": " ++ ie_text e))
               (create_maildir path durability mask status);
      mret (SK_Maildir sink)
  | DK_Mbox =>
      _ ← modify (record_delivery unresolved (DS_Failed FC_Permanent));
      stop_with (OE_Internal (B "internal error: mbox destination reached streaming delivery: " ++ destination_path d))
  | DK_Discard => mret (SK_Discard null_sink)
  | DK_File =>
      _ ← modify (record_delivery unresolved (DS_Failed FC_Permanent));
      stop_with (OE_Internal (B "internal error: ordered destination reached streaming delivery: " ++ destination_path d))
  end.
Definition drop_sinks (sinks : list (Sink Fd PF)) (w : W) : W := foldl (fun w s => drop_sink s w) w sinks.
(** The sinks that are open are dropped where one cannot be.
    Source: delivery_runtime/preparation.rs `pub(super) fn open_sinks` *)
Fixpoint open_sinks (deliveries : list PlannedDelivery) (durability : DurabilityPolicy) (runtime : RuntimeVariables) (opened : list (Sink Fd PF))
    : M W OperationalError (list (Sink Fd PF)) :=
  match deliveries with
  | [] => mret opened
  | d :: rest =>
      sink ← dropping_on_error (drop_sinks opened) (open_sink (pd_destination d) durability (pd_umask d) (pd_status d) runtime);
      open_sinks rest durability runtime (opened ++ [sink])
  end.
(** [PendingFanout::new] with the error of its callers; the sinks it refuses are
    dropped. *)
Definition fanout_of (sinks : list (Sink Fd PF)) : M W OperationalError (PendingFanout (S := Sink Fd PF)) :=
  match new_fanout sinks with
  | Ok f => mret f
  | Err e => _ ← modify (drop_sinks sinks); stop_with (OE_Internal (fanout_limit_text e))
  end.

(** * Execution *)

(** [write_to] a sink, part by part.
    Source: message.rs `pub fn write_to` *)
Definition write_parts (sink : Sink Fd PF) (message : MessageBytes) : M W IoError (Sink Fd PF) :=
  let write sink l := if bool_decide (l = []) then mret sink else Comp (sink_write sink l) in
  sink ← write sink (first_part message); write sink (second_part message).
(** Source: delivery_runtime/execution.rs `pub(super) fn deliver_one_sink` *)
Definition deliver_one_sink (d : Destination) (message : FinalMessage) (durability : DurabilityPolicy) : Delivering OrderedStepError () :=
  s ← gets id;
  let runtime : RuntimeVariables := s.1 in
  mask ← of_result (map_err step_before (setting (umask (new_settings runtime))));
  sink ← with_error step_before (outside (open_sink d durability mask (fm_status message) runtime));
  sink ← with_error step_before (outside (dropping_on_error (drop_sink sink)
    (reporting (fun e => report_delivery_failure d (failure_from_io DO_Write e false) (B "cannot write staged delivery: " ++ ie_text e))
       (write_parts sink (fm_bytes message)))));
  committed ← outcome_of (outside (sink_commit sink));
  _ ← match committed with
      | Ok published => apply_publication (attempt_published (PR_Delivery published)) (PD_One d)
      | Err e =>
          apply_publication (attempt_failed (PR_Delivery <$> sce_published e) (commit_failure e) 0 (B "cannot publish Maildir delivery: " ++ ie_text (sce_source e)))
            (PD_One d)
      end;
  mret tt.
(** Source: delivery_runtime/execution.rs `pub(super) fn deliver_file_destination` *)
Definition deliver_file_destination (unresolved : Destination) (message : FinalMessage) (ending : OutputEnding) (durability : DurabilityPolicy)
    : Delivering OrderedStepError () :=
  s ← gets id;
  let runtime : RuntimeVariables := s.1 in
  d ← with_error step_before (outside (resolve_or_report unresolved runtime));
  _ ← record_here d DS_Preparing;
  let path := destination_path d in
  match kind d with
  | DK_Discard =>
      _ ← apply_publication (attempt_published (PR_Delivery {| pub_last_folder := path |})) (PD_One d); mret tt
  | DK_Mbox =>
      locked ← with_error step_before (outside (prepare_mbox d runtime));
      appended ← outcome_of (outside (append locked (fm_bytes message) ending durability));
      _ ← match appended with
          | Ok published => apply_publication (attempt_published (PR_Delivery published)) (PD_One d)
          | Err e =>
              let published := if mae_published e then Some (PR_Delivery {| pub_last_folder := path |}) else None in
              apply_publication (attempt_failed published (append_failure e) 0 (B "cannot deliver to mbox " ++ path ++ B ": " ++ append_error_text e)) (PD_One d)
          end;
      mret tt
  | _ => stop_with (step_before (OE_Internal (B "internal error: file delivery resolved to another destination type")))
  end.

(** * Locks of recipes *)

(** Source: delivery_runtime.rs `fn acquire_configured_lock` *)
Definition acquire_configured_lock (path : bytes) (runtime : RuntimeVariables) (uid : Z) : M W OperationalError (LocalLock Fd) :=
  let settings := new_settings runtime in
  method ← of_result (setting (lock_method settings));
  timeout ← of_result (setting (lock_timeout settings));
  retry ← of_result (setting (lock_sleep settings));
  mask ← of_result (setting (umask settings));
  Comp (fun w =>
    match run (acquire_lock patience path method uid (timeout * SECOND) (retry * SECOND) mask) w with
    | (Ok lock, w) => (Ok lock, w)
    | (Err e, w) =>
        (Err match received w with
             | Some signal => OE_Signaled signal
             | None => operational_delivery (class_from_io_error e) (B "cannot acquire local lockfile: " ++ ie_text e)
             end, w)
    end).
(** Source: delivery_runtime.rs `fn acquire_recipe_lock` *)
Definition acquire_recipe_lock (lock : option bytes) (d : option Destination) (runtime : RuntimeVariables) (uid : Z)
    : M W OperationalError (option (LocalLock Fd)) :=
  match lock with
  | None => mret None
  | Some lock =>
      path ← of_result (
        if bool_decide (lock = []) then
          d ← ok_or (OE_PermanentDestination (B "an implicit local lockfile requires a filesystem destination")) d;
          d ← map_err (fun e => OE_PermanentDestination (expansion_error_text e)) (resolve_in runtime d);
          derive_implicit_lockfile_path (destination_path d) (default DEFAULT_LOCK_EXT (get runtime (B "LOCKEXT")))
        else Ok lock);
      held ← acquire_configured_lock path runtime uid;
      mret (Some held)
  end.

(** * Dry runs *)

(** Source: delivery_runtime.rs `fn simulate_delivery` *)
Definition simulate_delivery (unresolved : Destination) : Delivering OperationalError () :=
  s ← gets id;
  d ← of_result (map_err (fun e => OE_PermanentDestination (expansion_error_text e)) (resolve_in (s.1 : RuntimeVariables) unresolved));
  _ ← record_here d DS_DryRun;
  modify (fun s => (set s.1 (B "LASTFOLDER") (destination_path d), trace_record (of_event TE_LastFolderUpdated) s.2)).
Fixpoint simulate_deliveries (deliveries : list PlannedDelivery) : Delivering OperationalError () :=
  match deliveries with [] => mret tt | d :: rest => _ ← simulate_delivery (pd_destination d); simulate_deliveries rest end.
(** Source: delivery_runtime.rs `fn simulate_plan` *)
Definition simulate_plan (plan : DeliveryPlan) : Delivering OperationalError () :=
  _ ← simulate_deliveries (dp_deliveries plan);
  if dp_original_delivered plan then mret tt
  else stop_with (OE_Undelivered (B "original message was not delivered (dry-run selected " ++ decimal (length (dp_deliveries plan)) ++ B " copy destination(s))")).
End delivery.
