(* ===== verification/DeliveryHost.v ===== *)
(** The host of an execution in order and the two ways to deliver:
    [OrderedDeliveryHost], [deliver_decided] and [deliver_staged] of
    [src/src/delivery_runtime.rs].  A copy branch has a slot of its own for the
    LOCKFILE lock; a branch beside its parent has a host of its own, whose locks are
    released when it ends. *)
From stdpp Require Import gmap.
From S2P Require Import Prelude Effects Numbers Config Limits Utf8 Variables Runtime Settings Message EvalMessage ShellPattern ShellEval ExprParser Expand Binding Conditions Plan RcFile RuntimeRc HeaderPlan Ordered.
From S2P Require Import Delivery Trace Startup Files LocalLock Mbox Maildir Staging Streaming Environment ExternalProcess CommandRunner DeliveryRuntime.
#[local] Open Scope Z_scope.

Section host.
Context {T : Target} {P : Platform} {W Fd Child PF : Type} {OS : Os W Fd} {N : NameCounter W} {MB : MaildirBackend W Fd PF} {TS : TraceSink W}.
Context {PR : Processes W Fd Child} {TM : Terminal W} {BG : CommandBudget W}.
Context (patience : Patience).
Abbreviation Host := (DeliveryHost Fd Child W) (only parsing).
Abbreviation Hosting := (M (RuntimeVariables * Host)) (only parsing).

Definition dh_with_world (w : W) (h : Host) : Host :=
  {| dh_runner := dh_runner h; dh_durability := dh_durability h; dh_uid := dh_uid h; dh_global_lock := dh_global_lock h;
     dh_suspended := dh_suspended h; dh_dry_run := dh_dry_run h; dh_panicked := dh_panicked h; dh_world := w |}.
Definition dh_with_runner (r : CommandRunner Fd Child) (h : Host) : Host :=
  {| dh_runner := r; dh_durability := dh_durability h; dh_uid := dh_uid h; dh_global_lock := dh_global_lock h;
     dh_suspended := dh_suspended h; dh_dry_run := dh_dry_run h; dh_panicked := dh_panicked h; dh_world := dh_world h |}.
Definition dh_with_locks (global : option (LocalLock Fd)) (suspended : list (option (LocalLock Fd))) (h : Host) : Host :=
  {| dh_runner := dh_runner h; dh_durability := dh_durability h; dh_uid := dh_uid h; dh_global_lock := global;
     dh_suspended := suspended; dh_dry_run := dh_dry_run h; dh_panicked := dh_panicked h; dh_world := dh_world h |}.
Definition dh_unwinding (h : Host) : Host :=
  {| dh_runner := dh_runner h; dh_durability := dh_durability h; dh_uid := dh_uid h; dh_global_lock := dh_global_lock h;
     dh_suspended := dh_suspended h; dh_dry_run := dh_dry_run h; dh_panicked := true; dh_world := dh_world h |}.
(** What the world does, what a delivery does, and what the runner does. *)
Definition of_world {E A} (m : M W E A) : Hosting E A := Effects.on (fun s => dh_world s.2) (fun w s => (s.1, dh_with_world w s.2)) m.
Definition of_delivery {E A} (m : M (RuntimeVariables * W) E A) : Hosting E A :=
  Effects.on (fun s => (s.1, dh_world s.2)) (fun p s => (p.1, dh_with_world p.2 s.2)) m.
Definition of_runner {E A} (m : M (RuntimeVariables * (CommandRunner Fd Child * W)) E A) : Hosting E A :=
  Effects.on (fun s => (s.1, (dh_runner s.2, dh_world s.2))) (fun p s => (p.1, dh_with_runner p.2.1 (dh_with_world p.2.2 s.2))) m.
Definition fatal_check : Hosting (DeliveryAttemptError HostError) () := with_error fatal_error (of_world check_signal).
Definition release_guard (guard : option (LocalLock Fd)) (h : Host) : Host := dh_with_world (drop_guard guard (dh_world h)) h.
Definition drop_global (h : Host) : Host := dh_with_locks None (dh_suspended h) (release_guard (dh_global_lock h) h).
Definition is_panic (e : HostError) : bool := match e with HE_Panic => true | HE_Error _ => false end.
(** A result that is looked at after the check for a signal; a panic goes past it. *)
Definition checked {A} (m : Hosting (DeliveryAttemptError HostError) A) : Hosting (DeliveryAttemptError HostError) A :=
  result ← outcome_of m;
  match result with
  | Err (Fatal HE_Panic) => of_result result
  | _ => _ ← fatal_check; of_result result
  end.

(** Source: delivery_runtime.rs `fn deliver(` *)
Definition ordered_deliver (d : Destination) (message : FinalMessage) (ending : OutputEnding) (lock : option bytes) : Hosting (DeliveryAttemptError HostError) () :=
  _ ← fatal_check;
  s ← gets id;
  let host : Host := s.2 in
  if dh_dry_run host then with_error fatal_error (of_delivery (simulate_delivery d))
  else
    guard ← with_error classify_execution_error (of_world (acquire_recipe_lock patience lock (Some d) (s.1 : RuntimeVariables) (dh_uid host)));
    always
      (checked (with_error (fun e => if ose_can_handle e then Recoverable (HE_Error (ose_error e)) else Fatal (HE_Error (ose_error e)))
        (of_delivery (if supports_fanout_delivery d then deliver_one_sink d message (dh_durability host)
                      else deliver_file_destination patience d message ending (dh_durability host)))))
      (fun s => (s.1, release_guard guard s.2)).
(** Source: delivery_runtime.rs `fn external_action` *)
Definition ordered_external_action (action : PipeAction) (options : RecipeOptions) (lock : option bytes) (input : ExternalActionInput)
    : Hosting (DeliveryAttemptError HostError) (option Message) :=
  _ ← fatal_check;
  s ← gets id;
  let host : Host := s.2 in
  if dh_dry_run host && bool_decide (action_mode options = Deliver_) then
    _ ← modify (fun s => (set s.1 (B "LASTFOLDER") (pipe_command action), dh_with_world (trace_record (of_event TE_LastFolderUpdated) (dh_world s.2)) s.2));
    mret None
  else
    guard ← with_error classify_execution_error (of_world (acquire_recipe_lock patience lock None (s.1 : RuntimeVariables) (dh_uid host)));
    checked (of_runner (runner_action patience (pipe_command action) options input guard)).
(** Source: delivery_runtime.rs `fn capture(` *)
Definition ordered_capture (command : bytes) (input : MessageBytes) (ending : OutputEnding) (options : option RecipeOptions) (limit : Z)
    : Hosting (DeliveryAttemptError HostError) bytes :=
  _ ← fatal_check; checked (of_runner (runner_capture patience command input ending options limit)).
(** Source: delivery_runtime.rs `fn external_condition` *)
Definition ordered_condition (command : bytes) (input : MessageBytes) : Hosting (DeliveryAttemptError HostError) bool :=
  _ ← fatal_check; checked (of_runner (runner_condition patience command input)).
(** Source: delivery_runtime.rs `fn replace_global_lock` *)
Definition ordered_replace_lock (path : bytes) : Hosting HostError () :=
  _ ← with_error HE_Error (of_world check_signal);
  _ ← modify (fun s => (s.1, drop_global s.2));
  s ← gets id;
  let host : Host := s.2 in
  if dh_dry_run host || bool_decide (path = []) then mret tt
  else
    acquired ← outcome_of (of_world (acquire_configured_lock patience path (s.1 : RuntimeVariables) (dh_uid host)));
    match acquired with
    | Ok lock => modify (fun s => (s.1, dh_with_locks (Some lock) (dh_suspended s.2) s.2))
    | Err e => _ ← modify (fun s => (set s.1 (B "LOCKFILE") [], s.2)); stop_with (HE_Error e)
    end.
(** A guard of a dry run holds nothing.
    Source: delivery_runtime.rs `fn acquire_local_lock` *)
Definition ordered_local_lock (path : bytes) : Hosting (DeliveryAttemptError HostError) (option (LocalLock Fd)) :=
  _ ← fatal_check;
  s ← gets id;
  let host : Host := s.2 in
  if dh_dry_run host then mret None
  else lock ← with_error classify_execution_error (of_world (acquire_configured_lock patience path (s.1 : RuntimeVariables) (dh_uid host))); mret (Some lock).
(** Source: delivery_runtime.rs `fn enter_copy_branch` *)
Definition ordered_enter_branch (h : Host) : Host := dh_with_locks None (dh_global_lock h :: dh_suspended h) h.
(** Source: delivery_runtime.rs `fn leave_copy_branch` *)
Definition ordered_leave_branch (h : Host) : Host :=
  let h := drop_global h in
  match dh_suspended h with
  | [] => h
  | lock :: rest => dh_with_locks lock rest h
  end.
(** Source: delivery_runtime.rs `fn fork_copy_branch` *)
Definition ordered_fork_branch (h : Host) : option Host :=
  Some {| dh_runner := fork_runner (dh_runner h); dh_durability := dh_durability h; dh_uid := dh_uid h; dh_global_lock := None;
          dh_suspended := []; dh_dry_run := dh_dry_run h; dh_panicked := false; dh_world := dh_world h |}.
(** A host that is dropped releases what it holds: the locks of its background
    commands, the one of LOCKFILE, and those that were set aside. *)
Definition drop_host (h : Host) : Host :=
  let w := foldl (fun w c => drop_guard (bc_lock c) w) (dh_world h) (cr_background (dh_runner h)) in
  let w := drop_guard (dh_global_lock h) w in
  let w := foldl (fun w lock => drop_guard lock w) w (rev (dh_suspended h)) in
  dh_with_runner (new_runner (cr_limits (dh_runner h))) (dh_with_locks None [] (dh_with_world w h)).

(** The status of an execution that came to a result.
    Source: delivery_runtime.rs `fn completion_exit_status` *)
Definition completion_exit_status (state : CompletionState HostError) : option Z :=
  match state with
  | Completed _ outcome => Some (status_code (if do_original_delivered outcome then ES_Success else ES_Undelivered))
  | Failed_ _ (Evaluation _) => Some (status_code ES_PermanentDestination)
  | Failed_ _ (Effects.Delivery (HE_Error e)) => Some (exit_code e)
  | Failed_ _ (Effects.Delivery HE_Panic) | Failed_ _ OutOfFuel => None
  end.
(** A panic of the TRAP is kept in the host, for who called the execution.
    Source: delivery_runtime.rs `fn complete(` *)
Definition ordered_complete (message : MessageBytes) (state : CompletionState HostError) (s : RuntimeVariables * Host) : RuntimeVariables * Host :=
  match received (dh_world s.2), completion_exit_status state with
  | None, Some status => if dh_dry_run s.2 then s
      else
        let '(r, s) := run (of_runner (runner_trap patience message status)) s in
        match r with Ok _ => s | Err _ => (s.1, dh_unwinding s.2) end
  | _, _ => s
  end.

(** Source: delivery_runtime.rs `impl<'a, T: TraceSink + Send> OrderedExecutionHost for OrderedDeliveryHost` *)
#[export] Instance ordered_delivery_host : OrderedExecutionHost Host HostError (option (LocalLock Fd)) := {|
  host_deliver := ordered_deliver;
  external_action := ordered_external_action;
  host_capture := ordered_capture;
  external_condition := ordered_condition;
  replace_global_lock := ordered_replace_lock;
  acquire_local_lock := ordered_local_lock;
  release_local_lock := release_guard;
  enter_copy_branch := ordered_enter_branch;
  leave_copy_branch := ordered_leave_branch;
  fork_copy_branch h := (ordered_fork_branch h, h);
  spawn_branch h := let '(started, w) := run pr_start_thread (dh_world h) in (match started with Ok _ => None | Err e => Some (ie_text e) end, dh_with_world w h);
  share_outside from to := dh_with_world (dh_world from) to;
  end_branch := drop_host;
  finish_background := Comp (fun h =>
    let '(r, (runner, w)) := run (runner_finish_background patience) (dh_runner h, dh_world h) in (r, dh_with_runner runner (dh_with_world w h)));
  complete := ordered_complete;
  host_panicked := is_panic;
|}.

(** * Deliveries *)

Context {R : RegexEngine} {X : ConditionExpander} {L : Type} {loader_impl : RuntimeRcLoader L} (branch_first : nat -> bool) (levels : nat).
Abbreviation Runtime_ := (DeliveryRuntime Fd) (only parsing).
Abbreviation Ended := (stop Empty_set HostError) (only parsing).
Definition dr_with (global : option (LocalLock Fd)) (t : PublicationTracker) (d : Runtime_) : Runtime_ :=
  {| dr_staging_directory := dr_staging_directory d; dr_durability := dr_durability d; dr_limits := dr_limits d; dr_uid := dr_uid d;
     dr_global_lock := global; dr_publications := t; dr_dry_run := dr_dry_run d |}.
(** A delivery has a part of its own beside the variables and the world. *)
Abbreviation Delivered D := (M (D * (RuntimeVariables * W)) Ended) (only parsing).
Definition delivering {D E A} (f : E -> Ended) (m : M (RuntimeVariables * W) E A) : Delivered D A :=
  with_error f (Effects.on snd (fun p s => (s.1, p)) m).
Definition in_delivery {D A} (m : M (RuntimeVariables * W) OperationalError A) : Delivered D A := delivering failing m.
Definition in_system {D A} (m : M W OperationalError A) : Delivered D A := in_delivery (outside m).
Definition drop_world {D} (drop : W -> W) (s : D * (RuntimeVariables * W)) : D * (RuntimeVariables * W) := (s.1, (s.2.1, drop s.2.2)).
(** [record] and then [finish]. *)
Definition record_and_finish (published : nat) (original_delivered : bool) : Delivered Runtime_ () := Comp (fun s =>
  match record_published (dr_publications s.1) published original_delivered with
  | Err e => (Err (failing e), s)
  | Ok t => let '(r, t) := finish_publications t in (map_err failing r, (dr_with (dr_global_lock s.1) t s.1, s.2))
  end).

(** Source: delivery_runtime.rs `pub fn deliver_decided` *)
Definition deliver_decided (head : MessageHead) (reader : Reader IoError) (plan : DeliveryPlan) : Delivered Runtime_ () :=
  _ ← in_system check_signal;
  s ← gets id;
  let runtime : Runtime_ := s.1 in
  let variables : RuntimeVariables := s.2.1 in
  if dr_dry_run runtime then
    _ ← of_result (map_err (fun e => failing (OE_Input (B "cannot validate message from stdin: " ++ message_read_error_text e))) (stream_to head reader sink));
    in_delivery (simulate_plan plan)
  else
    sinks ← in_system (open_sinks (dp_deliveries plan) (dr_durability runtime) variables []);
    pending ← in_system (fanout_of sinks);
    streamed ← in_system (reporting (fun e => report_stream_failure e (dp_deliveries plan)) (fanout_stream pending head reader));
    let validated := streamed.1.1 in
    _ ← dropping_on_error (drop_world (drop_fanout (vf_sinks validated))) (in_system check_signal);
    published ← in_delivery (commit_delivery validated (dp_deliveries plan));
    record_and_finish published (dp_original_delivered plan).

(** The part of the file is written before the next is.
    Source: delivery_runtime.rs `fn stage_matching_message` *)
Definition stage_matching_message (directory matching_header : bytes) (staged : StagedMessage) : M W OperationalError StagedMessage :=
  matching ← with_error (fun e => OE_TemporaryDelivery (B "cannot create private regex staging file: " ++ ie_text e)) (create_staging directory);
  _ ← dropping_on_error (drop_staging matching)
    (_ ← with_error (fun e => OE_TemporaryDelivery (B "cannot write normalized headers to regex staging file: " ++ ie_text e)) (staging_write matching matching_header);
     with_error (fun e => OE_TemporaryDelivery (B "cannot write message body to regex staging file: " ++ ie_text e))
       (staging_write matching (drop (st_header_len staged) (st_bytes staged))));
  with_error (fun e => OE_Internal (B "cannot map normalized message for regex matching: " ++ ie_text e))
    (map_staging matching (Z.to_nat MAX_MESSAGE_SIZE) (length matching_header)).

Definition evaluation_failed (e : EvalError) : OperationalError := OE_PermanentDestination (B "cannot evaluate message: " ++ eval_error_text e).
(** A staged delivery has the files the plan has loaded, too. *)
Abbreviation Files := (@RuntimeRcState R L) (only parsing).
Definition staged {A} (m : Delivered Runtime_ A) : Delivered (Runtime_ * Files) A := Effects.on (fun s => (s.1.1, s.2)) (fun t s => ((t.1, s.1.2), t.2)) m.
(** The execution in order; the host is dropped at its end.
    Source: delivery_runtime.rs:493-528 `deliver_staged (ordered)` *)
Definition deliver_ordered_plan (execution : ExecutionPlan) (input : MappedMessageInput) : Delivered (Runtime_ * Files) () :=
  _ ← in_system check_signal;
  outcome ← Comp (fun s =>
    let runtime : Runtime_ := s.1.1 in
    let host := {| dh_runner := new_runner (dr_limits runtime); dh_durability := dr_durability runtime; dh_uid := dr_uid runtime;
                   dh_global_lock := dr_global_lock runtime; dh_suspended := []; dh_dry_run := dr_dry_run runtime; dh_panicked := false; dh_world := s.2.2 |} in
    let '(r, ended) := plan_execute_ordered branch_first levels execution input s.2.1 host s.1.2 in
    let '(variables, host) := match ended with Some ended => os_host_part ended | None => (s.2.1, host) end in
    let files := match ended with Some ended => os_rc ended | None => s.1.2 end in
    (if dh_panicked host then Err (Effects.Delivery HE_Panic) else
     match r with
     | Ok outcome => Ok outcome
     | Err (Evaluation e) => Err (failing (evaluation_failed e))
     | Err (Effects.Delivery e) => Err (Effects.Delivery e)
     | Err OutOfFuel => Err OutOfFuel
     end, ((dr_with None (dr_publications runtime) runtime, files), (variables, dh_world (drop_host host)))));
  _ ← in_system check_signal;
  staged (record_and_finish (do_published outcome) (do_original_delivered outcome)).

(** [resume] with what it leaves also where it fails.
    Source: eval/header.rs `pub(super) fn resume_input` *)
Definition resume_run (p : ExecutionPlan) (c : Continuation) (input : MappedMessageInput) (rc : @RuntimeRcState R L)
    : result (stop EvalError Empty_set) DeliveryPlan * option (RuntimeVariables * Files) :=
  match complete_message input (plan_needs_full_matching p rc) with
  | None => (Err (Evaluation E_BodyWasNotBuffered), None)
  | Some message =>
      if bool_decide (ct_frames c = []) && negb (ct_restart c) then (Err (Evaluation E_BodyWasNotBuffered), None)
      else
        let state := {| cp_runtime := ct_runtime c; cp_execution := ct_execution c; cp_rc := rc |} in
        let '(r, state) :=
          if ct_restart c then run (plan_complete levels message (root p) root_context) (with_rc (reset_transitions rc) state)
          else run (resume_from_frames levels message (ct_frames c) (root p) root_context) state in
        ((fun _ => delivery_plan (cp_execution state)) <$> r, Some (cp_runtime state, cp_rc state))
  end.
Lemma resume_run_plan p c input rc :
  (resume_run p c input rc).1 = fst <$> resume (D := Empty_set) levels p c input rc.
Proof.
  unfold resume_run, resume. destruct (complete_message _ _) as [message|]; cbn [ok_or mbind result_bind]; [|done]. case_match; [done|].
  destruct (if ct_restart c then _ else _) as [[control|e] state]; done.
Qed.

Definition resume_failed (e : stop EvalError Empty_set) : Ended :=
  match e with
  | Evaluation e => failing (evaluation_failed e)
  | Effects.Delivery e => match e with end
  | OutOfFuel => OutOfFuel
  end.

(** The deliveries that the header decided come before those of the rest.
    Source: delivery_runtime.rs:529-581 `deliver_staged (planned)` *)
Definition deliver_resumed_plan (execution : ExecutionPlan) (continuation : Continuation) (early : nat)
    (validated : ValidatedFanout (S := Sink Fd PF)) (message : StagedMessage) (input : MappedMessageInput) : Delivered (Runtime_ * Files) () :=
  late ← dropping_on_error (drop_world (drop_fanout (vf_sinks validated)))
    (s ← gets id;
     let '(planned, remaining) := resume_run execution continuation input s.1.2 in
     _ ← modify (fun s => match remaining with Some (variables, files) => ((s.1.1, files), (variables, s.2.2)) | None => s end);
     plan ← of_result (map_err resume_failed planned);
     _ ← in_system check_signal;
     s ← gets id;
     let runtime : Runtime_ := s.1.1 in
     let variables : RuntimeVariables := s.2.1 in
     if dr_dry_run runtime then _ ← in_delivery (simulate_plan plan); mret (inl tt)
     else if (length (dp_deliveries plan) <? early)%nat then
       stop_with (failing (OE_Internal (B "internal error: deferred delivery discarded an early copy destination")))
     else
       sinks ← in_system (open_sinks (drop early (dp_deliveries plan)) (dr_durability runtime) variables []);
       pending ← in_system (fanout_of sinks);
       mret (inr (plan, pending)));
  match late with
  | inl _ => modify (drop_world (drop_fanout (vf_sinks validated)))
  | inr (plan, pending) =>
      appended ← in_system (reporting (fun e => match ae_delivery_failure e with
          | Some (index, failure) => report_indexed_failure index failure (drop early (dp_deliveries plan)) (buffered_error_text e)
          | None => fun w => (operational_delivery (class_from_io_error (ae_source e)) (buffered_error_text e), w)
          end) (Comp (append_bytes validated pending (st_bytes message))));
      _ ← dropping_on_error (drop_world (drop_fanout (vf_sinks appended))) (in_system check_signal);
      published ← in_delivery (commit_delivery appended (dp_deliveries plan));
      staged (record_and_finish published (dp_original_delivered plan))
  end.

(** Source: delivery_runtime.rs `pub fn deliver_staged` *)
Definition deliver_staged (head : MessageHead) (reader : Reader IoError) (execution : ExecutionPlan) (continuation : Continuation) : Delivered (Runtime_ * Files) () :=
  _ ← in_system check_signal;
  s ← gets id;
  let runtime : Runtime_ := s.1.1 in
  let rc : Files := s.1.2 in
  let variables : RuntimeVariables := s.2.1 in
  let early := fp_deliveries (ct_execution continuation) in
  let ordered := plan_requires_ordered execution rc in
  directory ← of_result (ok_or (failing (OE_Internal (B "internal error: deferred evaluation has no staging directory")))
    (match settings_maildir (new_settings variables) with Some d => Some d | None => dr_staging_directory runtime end));
  sinks ← (if dr_dry_run runtime || ordered then mret [] else in_system (open_sinks early (dr_durability runtime) variables []));
  pending ← in_system (fanout_of sinks);
  staging ← dropping_on_error (drop_world (drop_fanout (pf_sinks pending)))
    (in_system (with_error (fun e => OE_TemporaryDelivery (B "cannot create private staging file: " ++ ie_text e)) (create_staging directory)));
  let header_len := head_len head in
  let '(matching_header, head) := take_matching_header head in
  written ← dropping_on_error (drop_world (drop_staging staging))
    (in_system (reporting (fun e => report_stream_failure e early) (fanout_stage pending head reader (staging_write staging))));
  let validated := written.1.1 in
  _ ← dropping_on_error (drop_world (fun w => drop_staging staging (drop_fanout (vf_sinks validated) w))) (in_system check_signal);
  prepared ← dropping_on_error (drop_world (drop_fanout (vf_sinks validated)))
    (message ← in_system (with_error (fun e => OE_Internal (B "cannot map staged message: " ++ ie_text e)) (map_staging staging (Z.to_nat MAX_MESSAGE_SIZE) header_len));
     matching_raw ← (if plan_needs_full_matching execution rc then
                       match matching_header with
                       | Some header => matching ← in_system (stage_matching_message directory header message); mret (Some (st_bytes matching))
                       | None => mret None
                       end
                     else mret None);
     mret (message, {| mi_raw := st_bytes message; mi_header_len := st_header_len message;
                      mi_matching := (fun header => {| mm_header := header; mm_full := matching_raw |}) <$> matching_header |}));
  let '(message, input) := (prepared : StagedMessage * MappedMessageInput) in
  if ordered then always (deliver_ordered_plan execution input) (drop_world (drop_fanout (vf_sinks validated)))
  else deliver_resumed_plan execution continuation (length early) validated message input.
End host.
