(* ===== verification/DeliveryHostFacts.v ===== *)
(** The host of an execution in order keeps what the interface asks of it, and the
    lock of LOCKFILE is local to a copy branch. *)
From stdpp Require Import gmap.
From S2P Require Import Prelude Effects Numbers Config Limits Utf8 Variables Runtime Settings Message EvalMessage ShellPattern ShellEval ExprParser Expand Binding Conditions Plan RcFile RuntimeRc HeaderPlan Ordered OrderedFacts.
From S2P Require Import Delivery Trace Startup Files LocalLock Mbox Maildir Staging Streaming Environment ExternalProcess CommandRunner DeliveryRuntime DeliveryHost.
#[local] Open Scope Z_scope.

Section host.
Context {T : Target} {P : Platform} {W Fd Child PF : Type} {OS : Os W Fd} {N : NameCounter W} {MB : MaildirBackend W Fd PF} {TS : TraceSink W}.
Context {PR : Processes W Fd Child} {TM : Terminal W} {BG : CommandBudget W}.
Context (patience : Patience).
Abbreviation Host := (DeliveryHost Fd Child W) (only parsing).
Abbreviation Hosting := (M (RuntimeVariables * Host)) (only parsing).
#[local] Existing Instance ordered_delivery_host.

(** What the calls of an execution leave alone: the locks that were set aside and the
    settings of the host. *)
Record scoped (h h' : Host) : Prop := {
  sc_suspended : dh_suspended h' = dh_suspended h;
  sc_dry_run : dh_dry_run h' = dh_dry_run h;
  sc_uid : dh_uid h' = dh_uid h;
  sc_durability : dh_durability h' = dh_durability h;
}.
#[export] Instance scoped_preorder : PreOrder scoped.
Proof. split; [by intros h|]. intros h1 h2 h3 [] []. split; congruence. Qed.

Definition stays {A E} (m : Hosting E A) : Prop := call_keeps scoped m.
Lemma stays_ret {A E} (a : A) : stays (E := E) (mret a).
Proof. by intros p. Qed.
Lemma stays_stop {A E} (e : E) : stays (A := A) (stop_with e).
Proof. by intros p. Qed.
Lemma stays_gets {A E} (f : RuntimeVariables * Host -> A) : stays (E := E) (gets f).
Proof. by intros p. Qed.
Lemma stays_of_result {A E} (r : result E A) : stays (of_result r).
Proof. by intros p. Qed.
Lemma stays_modify {E} f : (forall p, scoped p.2 (f p).2) -> stays (E := E) (modify f).
Proof. intros Hf p. apply Hf. Qed.
Lemma stays_bind {A C E} (m : Hosting E A) (f : A -> Hosting E C) : stays m -> (forall a, stays (f a)) -> stays (m ≫= f).
Proof. intros Hm Hf p. rewrite run_bind. specialize (Hm p). destruct (run m p) as [[a|e] p1]; cbn in *; [etransitivity; [exact Hm|apply Hf]|done]. Qed.
Lemma stays_with_error {A E F} (f : E -> F) (m : Hosting E A) : stays m -> stays (with_error f m).
Proof. intros Hm p. rewrite run_with_error. apply Hm. Qed.
Lemma stays_outcome {A E F} (m : Hosting E A) : stays m -> stays (outcome_of (F := F) m).
Proof. intros Hm p. rewrite run_outcome. apply Hm. Qed.
Lemma stays_always {A E} (m : Hosting E A) after : stays m -> (forall p, scoped p.2 (after p).2) -> stays (always m after).
Proof. intros Hm Ha p. unfold always. cbn [run]. specialize (Hm p). destruct (run m p) as [r p1]. cbn in *. etransitivity; [exact Hm|apply Ha]. Qed.
Lemma stays_world {A E} (m : M W E A) : stays (of_world m).
Proof. intros p. unfold of_world, Effects.on. cbn. by destruct (run m _). Qed.
Lemma stays_delivery {A E} (m : M (RuntimeVariables * W) E A) : stays (of_delivery m).
Proof. intros p. unfold of_delivery, Effects.on. cbn. by destruct (run m _). Qed.
Lemma stays_runner {A E} (m : M (RuntimeVariables * (CommandRunner Fd Child * W)) E A) : stays (of_runner m).
Proof. intros p. unfold of_runner, Effects.on. cbn. by destruct (run m _). Qed.
Create HintDb stays.
#[local] Hint Resolve stays_ret stays_stop stays_gets stays_of_result stays_with_error stays_outcome stays_world stays_delivery stays_runner : stays.
#[local] Hint Extern 1 (stays (modify _)) => apply stays_modify; by intros [] : stays.
#[local] Hint Extern 2 (stays (_ ≫= _)) => apply stays_bind; [|intros ?] : stays.
#[local] Hint Extern 2 (stays (always _ _)) => apply stays_always; [|by intros []] : stays.
#[local] Hint Extern 3 (stays (if ?x then _ else _)) => destruct x : stays.
#[local] Hint Extern 3 (stays (match ?x with _ => _ end)) => destruct x : stays.
#[local] Hint Extern 1 (stays fatal_check) => unfold fatal_check : stays.
#[local] Hint Extern 1 (stays (checked _)) => unfold checked : stays.
#[local] Hint Extern 4 (stays _) => progress cbv zeta : stays.

Lemma delivery_host_keeps : host_keeps (host_impl := ordered_delivery_host patience) scoped.
Proof.
  split.
  - intros d message ending lock. change (stays (ordered_deliver patience d message ending lock)). unfold ordered_deliver. auto 20 with stays.
  - intros action options lock input. change (stays (ordered_external_action patience action options lock input)). unfold ordered_external_action. auto 20 with stays.
  - intros command input ending options limit. change (stays (ordered_capture patience command input ending options limit)). unfold ordered_capture. auto 20 with stays.
  - intros command input. change (stays (ordered_condition patience command input)). unfold ordered_condition. auto 20 with stays.
  - intros path. change (stays (ordered_replace_lock patience path)). unfold ordered_replace_lock. auto 20 with stays.
  - done.
  - intros h. cbn. by destruct (run pr_start_thread _).
  - done.
  - intros h. cbn. by repeat case_match.
  - intros h h' [Hs Hd Hu Hy]. cbn in *. unfold ordered_leave_branch. cbn. rewrite Hs. by split.
Qed.
Lemma delivery_host_locks : locks_given_back (host_impl := ordered_delivery_host patience) scoped.
Proof.
  intros path p. assert (stays (ordered_local_lock patience path)) as H by (unfold ordered_local_lock; auto 20 with stays).
  specialize (H p). cbn [acquire_local_lock ordered_delivery_host]. destruct (run (ordered_local_lock patience path) p) as [[guard|e] p']; cbn [snd] in *; [|done].
  intros h Hh. etransitivity; [exact H|]. etransitivity; [exact Hh|]. done.
Qed.
End host.

Section copies.
Context {T : Target} {P : Platform} {W Fd Child PF : Type} {OS : Os W Fd} {N : NameCounter W} {MB : MaildirBackend W Fd PF} {TS : TraceSink W}.
Context {PR : Processes W Fd Child} {TM : Terminal W} {BG : CommandBudget W}.
Context {R : RegexEngine} {X : ConditionExpander} {L : Type} {loader_impl : RuntimeRcLoader L}.
Context (patience : Patience) (message : CompleteMessage) (limits : MessageLimits) (branch_first : nat -> bool) (levels : nat).
#[local] Hint Extern 0 (OrderedExecutionHost _ _ _) => exact (ordered_delivery_host patience) : typeclass_instances.
#[local] Abbreviation below := (execute_ordered message limits branch_first levels).

(** C11: The lock of LOCKFILE is local to a copy branch.  While a copy block that is
    waited for runs - with the recipes after it, whatever locks these take and set
    aside in blocks of their own, whatever files they load, and however it ends - the
    lock its parent holds is kept: the branch starts without one, the one it ends with
    is released, and the parent goes on with the lock it had, and with those that were
    set aside before. *)
Theorem copy_block_keeps_lockfile n rc state trailing rs (s : OrderedState (H := DeliveryHost Fd Child W) (D := HostError) (L := L)) :
  let rest := execute_ordered_from message limits below branch_first trailing rc Succeeded rs in
  let branch := (run (copy_branch message limits below n rc state rest) (enter_branch s)).2 in
  let '(_, s') := run (execute_waited_copy_block message limits below n rc state rest) s in
  dh_global_lock (os_host (enter_branch s)) = None /\
  dh_world (os_host s') = drop_guard (dh_global_lock (os_host branch)) (dh_world (os_host branch)) /\
  dh_global_lock (os_host s') = dh_global_lock (os_host s) /\ dh_suspended (os_host s') = dh_suspended (os_host s).
Proof.
  intros rest branch. pose proof (delivery_host_keeps patience) as Hk. pose proof (delivery_host_locks patience) as Hl.
  assert (kept scoped (copy_branch message limits below n rc state rest)) as Hb.
  { assert (PreOrder (scoped (Fd := Fd) (Child := Child) (W := W))) as Hpre by apply _.
    assert (forall s rc, kept scoped (below s rc)) as Hbelow by (intros; by apply execution_kept).
    apply kept_copy_branch; try done. intros. by apply kept_from. }
  destruct (Hb (enter_branch s)) as [Hs _]. fold branch in Hs. unfold execute_waited_copy_block. cbn [run].
  assert (os_host (restore_parent s branch) = ordered_leave_branch (os_host branch)) as Hh by done.
  subst branch. destruct (run (copy_branch _ _ _ _ _ _ _) (enter_branch s)) as [r b]. cbn [snd] in *.
  assert (dh_suspended (os_host b) = dh_global_lock (os_host s) :: dh_suspended (os_host s)) as E by apply (sc_suspended _ _ Hs).
  assert (dh_world (ordered_leave_branch (os_host b)) = drop_guard (dh_global_lock (os_host b)) (dh_world (os_host b)) /\
    dh_global_lock (ordered_leave_branch (os_host b)) = dh_global_lock (os_host s) /\
    dh_suspended (ordered_leave_branch (os_host b)) = dh_suspended (os_host s)) as Hleave.
  { unfold ordered_leave_branch, drop_global, release_guard. cbn. by rewrite E. }
  destruct r as [u|e]; [|by rewrite Hh]. by destruct (os_pending_error b); cbn [run action_failed action_succeeded]; rewrite ?Hh.
Qed.
End copies.
