(* ===== verification/DeliveryRuntimeFacts.v ===== *)
(** What a delivery leaves behind: the paths that readers see, the report it applies
    and LASTFOLDER agree, whatever the system answers; and a failure that a recipe
    may handle has published nothing.  The laws of the files are those of
    [MaildirFacts]. *)
From stdpp Require Import gmap relations.
From S2P Require Import Prelude Effects Numbers Config Limits Utf8 Variables Runtime Settings HeaderValue HeaderFields HeaderStore EditedHeader HeaderEdit Message EvalMessage ShellPattern ShellEval ExprParser Expand Binding Conditions Plan PlanFacts RcFile RuntimeRc HeaderPlan Ordered.
From S2P Require Import Delivery Trace Startup Files LocalLock Mbox Maildir MaildirFacts Staging Streaming Environment ExternalProcess CommandRunner DeliveryRuntime DeliveryHost.
#[local] Open Scope Z_scope.

(** * Publications *)

Section publication.
Context {T : Target} {W : Type} {TS : TraceSink W}.

(** What recording events, and nothing else, leaves of the world. *)
Definition traced : W -> W -> Prop := rtc (fun a b => exists record, b = trace_record record a).
Lemma traced_once record w : traced w (trace_record record w).
Proof. apply rtc_once. by exists record. Qed.
(** LASTFOLDER after a publication that could be recorded. *)
Definition after_folder (runtime : RuntimeVariables) (folder : option bytes) : RuntimeVariables :=
  match Runtime.record_publication runtime folder with Ok runtime' => runtime' | Err _ => runtime end.

Lemma record_each_traced indices destinations runtime w :
  let '(r, (runtime', w')) := run (record_each indices destinations) (runtime, w) in
  traced w w' /\ runtime' = runtime /\
  match r with Ok _ => True | Err e => ose_can_handle e = false /\ exists i, i ∈ indices /\ destination_at destinations i = None end.
Proof.
  revert w. induction indices as [|i indices IH]; intros w; cbn [record_each]; [done|]. rewrite run_bind, run_of_result.
  destruct (destination_at destinations i) as [d|] eqn:E; cbn [ok_or map_err].
  2:{ split; [done|]. split; [done|]. split; [done|]. exists i. split; [left|done]. }
  cbn. set (w1 := record_delivery _ _ _). specialize (IH w1). destruct (run (record_each indices destinations) (runtime, w1)) as [r [rt w2]].
  destruct IH as (H1 & H2 & H3). split; [etrans; [apply traced_once|exact H1]|]. split; [done|].
  destruct r as [|e]; [done|]. destruct H3 as (H3 & j & Hj & Hn). split; [done|]. exists j. split; [by right|done].
Qed.
Lemma record_publication_traced result runtime w :
  let '(r, (runtime', w')) := run (record_publication_here result) (runtime, w) in
  traced w w' /\ runtime' = after_folder runtime (publication_last_folder result).
Proof.
  unfold record_publication_here, after_folder. cbn [run]. destruct (Runtime.record_publication _ _) as [rt|e]; [|done].
  split; [|done]. case_match; [apply traced_once|done].
Qed.

(** The number an attempt published, and the folder it ends with. *)
Definition attempt_count (attempt : PublicationAttempt) : nat := default 0%nat (publication_len <$> pa_published attempt).
Definition attempt_folder (attempt : PublicationAttempt) : option bytes := pa_published attempt ≫= publication_last_folder.
Lemma attempt_folder_none attempt : attempt_count attempt = 0%nat -> attempt_folder attempt = None.
Proof.
  unfold attempt_count, attempt_folder. destruct (pa_published attempt) as [[d|l|e]|]; cbn; try done; unfold report_last_folder;
    intros E; apply nil_length_inv in E; by rewrite E.
Qed.
Lemma after_folder_none runtime : after_folder runtime None = runtime.
Proof. done. Qed.
End publication.

Section applied.
Context {T : Target} {W : Type} {TS : TraceSink W}.

(** What [apply_publication] does. *)
Definition publication_outcome (attempt : PublicationAttempt) (runtime : RuntimeVariables) (w : W)
    (r : result OrderedStepError nat) (runtime' : RuntimeVariables) (w' : W) : Prop :=
  traced w w' /\ runtime' = after_folder runtime (attempt_folder attempt) /\
  match r with
  | Ok count => count = attempt_count attempt /\ pa_failure attempt = None
  | Err e => (ose_can_handle e = true -> attempt_count attempt = 0%nat /\ exists f, pa_failure attempt = Some f /\ ose_error e = pf_error f)
  end.
Lemma apply_publication_outcome attempt destinations runtime w :
  (forall i, (i < attempt_count attempt)%nat -> is_Some (destination_at destinations i)) ->
  let '(r, (runtime', w')) := run (apply_publication attempt destinations) (runtime, w) in
  publication_outcome attempt runtime w r runtime' w'.
Proof.
  intros Hd. unfold apply_publication. rewrite run_bind, run_gets. fold (attempt_count attempt). rewrite run_bind. cbn [id fst].
  pose proof (record_each_traced (seq 0 (attempt_count attempt)) destinations runtime w) as H.
  destruct (run (record_each _ _) (runtime, w)) as [[[]|e] [rt w1]].
  2:{ destruct H as (_ & _ & _ & i & Hi & Hn). apply elem_of_seq in Hi. destruct (Hd i) as [d Hs]; [lia|]. congruence. }
  destruct H as (Ht1 & -> & _). rewrite run_bind.
  set (applied := match pa_published attempt with Some result => _ | None => mret tt end).
  assert (let '(r, (rt, w2)) := run applied (runtime, w1) in traced w w2 /\ rt = after_folder runtime (attempt_folder attempt) /\
    match r with Ok _ => True | Err e => ose_can_handle e = false end) as Ha.
  { subst applied. unfold attempt_folder. destruct (pa_published attempt) as [result|]; [|done]. rewrite run_with_error.
    pose proof (record_publication_traced result runtime w1) as H. destruct (run (record_publication_here result) (runtime, w1)) as [r [rt w2]].
    destruct H as [H1 H2]. cbn. split; [by etrans|]. split; [done|]. by destruct r. }
  destruct (run applied (runtime, w1)) as [[[]|e] [rt w2]]; destruct Ha as (Ht2 & -> & Hr).
  2:{ split; [done|]. split; [done|]. congruence. }
  destruct (pa_failure attempt) as [failure|] eqn:Ef; [|by repeat split].
  cbn [fmap option_fmap option_map ok_or]. rewrite run_bind, run_of_result.
  destruct (destination_at destinations (pf_failed_index failure)) as [d|]; cbn [ok_or mbind result_bind map_err]; [|by repeat split].
  rewrite run_bind, run_of_result. destruct (resolve_in runtime d) as [d'|e]; cbn [map_err]; [|by repeat split].
  cbn. split; [etrans; [exact Ht2|apply traced_once]|]. split; [done|].
  destruct (attempt_count attempt =? 0)%nat eqn:E; [|done]. intros _. apply Nat.eqb_eq in E. split; [done|by exists failure].
Qed.
End applied.

(** * Deliveries to Maildirs *)

Section seen.
Context {T : Target} {P : Platform} {W Fd PF : Type} {OS : Os W Fd} {N : NameCounter W} {TS : TraceSink W}.
Context (seen : W -> gset bytes) (place : Fd -> bytes) (private : Fd -> Prop).
Context (links : LinkLaws seen place private).
Context {MB : MaildirBackend W Fd PF} {blaws : BackendLaws seen place private PF MB}.
Context (law_trace : forall record w, seen (trace_record record w) = seen w).
Context (patience : Patience).

#[local] Abbreviation shown := (deliveries seen).
#[local] Abbreviation ok := (box_ok seen place private).
#[local] Instance laws : SinkLaws W (Sink Fd PF) sink_methods := maildir_sink_laws seen place private links.

Lemma traced_seen w w' : traced w w' -> seen w' = seen w.
Proof. induction 1 as [|w w1 w' [record ->] _ IH]; [done|]. by rewrite IH. Qed.
Lemma shown_seen w w' l w'' : shown w l w' -> seen w'' = seen w' -> shown w l w''.
Proof. intros H E. rewrite <- (app_nil_r l). eapply deliveries_app; [exact H|by apply no_delivery]. Qed.
Lemma shown_none w w' : shown w [] w' -> seen w' = seen w.
Proof. by inversion 1. Qed.
Lemma seen_shown w w' l w'' : seen w' = seen w -> shown w' l w'' -> shown w l w''.
Proof. intros E H. change l with ([] ++ l). eapply deliveries_app; [by apply no_delivery|exact H]. Qed.
Lemma record_delivery_seen d stage w : seen (record_delivery d stage w) = seen w.
Proof. apply law_trace. Qed.
Lemma drop_sink_seen s w : ok s -> seen (drop_sink s w) = seen w.
Proof. destruct s as [m|d]; intros H; [|done]. apply (drop_quiet seen place private), H. Qed.
Lemma drop_sinks_seen ss w : Forall ok ss -> seen (drop_sinks ss w) = seen w.
Proof. intros H. revert w. induction H as [|s ss Hs H IH]; intros w; [done|]. change (drop_sinks (s :: ss) w) with (drop_sinks ss (drop_sink s w)). rewrite IH. by apply drop_sink_seen. Qed.
Lemma drop_fanout_seen ss w : Forall ok ss -> seen (drop_fanout ss w) = seen w.
Proof. intros H. apply shown_none. exact (abort_all_shows (laws := laws) ss w H). Qed.

(** A destination whose Maildir is where its path says. *)
Definition placed (runtime : RuntimeVariables) (d : Destination) : Prop :=
  forall d', resolve_in runtime d = Ok d' -> kind d' = DK_Maildir -> MaildirPlace place private (destination_path d').

Lemma reporting_seen {E A} (report : E -> W -> OperationalError * W) (m : M W E A) :
  (forall e w, seen (report e w).2 = seen w) -> (forall w, seen (run m w).2 = seen w) -> forall w, seen (run (reporting report m) w).2 = seen w.
Proof.
  intros Hr Hm w. unfold reporting. cbn [run]. specialize (Hm w). destruct (run m w) as [[a|e] w1]; [done|].
  specialize (Hr e w1). destruct (report e w1) as [e' w2]. cbn [snd] in *. congruence.
Qed.
Lemma run_reporting_Ok {E A} (report : E -> W -> OperationalError * W) (m : M W E A) w a w' :
  run (reporting report m) w = (Ok a, w') -> run m w = (Ok a, w').
Proof. unfold reporting. cbn [run]. destruct (run m w) as [[a'|e] w1]; [by intros [= <- <-]|]. by destruct (report e w1). Qed.
Lemma resolve_or_report_spec d runtime w :
  seen (run (resolve_or_report d runtime) w).2 = seen w /\ forall d' w', run (resolve_or_report d runtime) w = (Ok d', w') -> resolve_in runtime d = Ok d'.
Proof.
  unfold resolve_or_report. destruct (resolve_in runtime d) as [d'|e]; [split; [done|by intros ? ? [= <- _]]|]. split; [cbn; apply law_trace|done].
Qed.
Lemma open_sink_spec d durability mask status runtime w :
  placed runtime d ->
  let '(r, w') := run (open_sink d durability mask status runtime) w in
  seen w' = seen w /\ match r with Ok s => ok s /\ is_ok (resolve_in runtime d) = true | Err _ => True end.
Proof.
  intros Hd. unfold open_sink. rewrite run_bind, run_modify, run_bind. set (w0 := record_delivery _ _ w).
  assert (seen w0 = seen w) as <- by apply law_trace. destruct (resolve_or_report_spec d runtime w0) as [H1 H2].
  destruct (run (resolve_or_report d runtime) w0) as [[d'|e] w1]; cbn [snd] in H1; [|done]. specialize (H2 d' w1 eq_refl). rewrite H2. rewrite <- H1.
  destruct (kind d') eqn:Ek; [|by split; [apply law_trace|]..|by repeat split; rewrite H2].
  specialize (Hd _ H2 Ek). rewrite run_bind. set (opening := reporting _ _).
  pose proof (reporting_seen (fun e => report_delivery_failure d' (failure_from_io DO_Open e false) (B "cannot open Maildir " ++ destination_path d' ++ B ": " ++ ie_text e))
    (create_maildir (destination_path d') durability mask status) (fun e w => law_trace _ w)
    (create_maildir_quiet seen place private links _ durability mask status Hd) w1) as Hs.
  fold opening in Hs. destruct (run opening w1) as [[s|e] w2] eqn:Eo; [|done]. cbn. split; [done|]. split; [|done].
  apply run_reporting_Ok in Eo. by eapply (create_maildir_ok seen place private).
Qed.
Lemma open_sinks_spec ds durability runtime opened w :
  Forall (fun d => placed runtime (pd_destination d)) ds -> Forall ok opened ->
  let '(r, w') := run (open_sinks ds durability runtime opened) w in
  seen w' = seen w /\ match r with Ok ss => Forall ok ss /\ length ss = (length opened + length ds)%nat | Err _ => True end.
Proof.
  intros Hds. revert opened w. induction Hds as [|d ds Hd Hds IH]; intros opened w Ho; cbn [open_sinks]; [cbn; split; [done|split; [done|lia]]|].
  rewrite run_bind. unfold dropping_on_error. cbn [run].
  pose proof (open_sink_spec (pd_destination d) durability (pd_umask d) (pd_status d) runtime w Hd) as H.
  destruct (run (open_sink _ _ _ _ _) w) as [[s|e] w1]; destruct H as [H1 H2].
  - specialize (IH (opened ++ [s]) w1 (Forall_app_2 _ _ _ Ho (Forall_cons_2 _ _ _ (proj1 H2) (Forall_nil_2 _)))).
    destruct (run (open_sinks ds _ _ _) w1) as [r w2]. destruct IH as [H3 H4]. split; [congruence|]. destruct r; [|done].
    rewrite length_app in H4. cbn [length] in *. split; [apply H4|lia].
  - split; [by rewrite drop_sinks_seen|done].
Qed.

(** ** The message on its way *)

(** The sinks of a fanout to which something is written. *)
Definition streams (w0 : W) (count : nat) (s : PendingFanout (S := Sink Fd PF) * W) : Prop :=
  Forall ok (pf_sinks s.1) /\ length (pf_sinks s.1) = count /\ seen s.2 = seen w0.
Lemma fanout_put_streams w0 count l : keeps_state (streams w0 count) (fanout_put l).
Proof.
  intros [f w] (H1 & H2 & H3). unfold fanout_put. cbn [run].
  pose proof (fanout_each_shows (laws := laws) (fun s => sink_write s l) f w (fun s w => write_shows (SinkLaws := laws) s l w) H1) as H.
  fold (fanout_write f l) in H. unfold fanout_write in *. destruct (fanout_each _ f w) as [[r f'] w']. destruct H as (Hw & Hs & Hl & _).
  apply shown_none in Hw. repeat split; cbn in *; congruence.
Qed.
Lemma stream_streams head reader w0 count : keeps_state (streams w0 count) (stream_message fanout_put head reader).
Proof.
  assert (forall l, keeps_state (streams w0 count) (with_error Io (put_all fanout_put l))) as Hput.
  { intros l s Hs. rewrite run_with_error. unfold put_all. case_bool_decide; [done|by apply fanout_put_streams]. }
  unfold stream_message. destruct (into_serialized_parts head) as [[raw matching] limits]. apply keeps_bind; [apply Hput|intros _].
  apply keeps_bind; [|intros [total r]; apply keeps_ret].
  generalize (S (pending reader)), (length raw), 0%nat. intros fuel total body. revert reader total body.
  induction fuel as [|fuel IH]; intros reader total body; cbn [stream_body_loop]; [apply keeps_ret|].
  apply keeps_bind; [apply keeps_of_result|intros [[|b available] r]]; [apply keeps_ret|].
  do 4 (apply keeps_bind; [apply keeps_of_result|intros ?]). apply keeps_bind; [apply Hput|intros _; apply IH].
Qed.
Lemma fanout_stream_spec f head reader w :
  Forall ok (pf_sinks f) ->
  let '(r, w') := run (fanout_stream f head reader) w in
  seen w' = seen w /\ match r with Ok (v, _, _) => Forall ok (vf_sinks v) /\ length (vf_sinks v) = length (pf_sinks f) | Err _ => True end.
Proof.
  intros Hf. unfold fanout_stream. cbn [run].
  pose proof (stream_streams head reader w (length (pf_sinks f)) (f, w) (conj Hf (conj eq_refl eq_refl))) as H.
  destruct (run (stream_message fanout_put head reader) (f, w)) as [[[message r]|e] [f' w']]; destruct H as (H1 & H2 & H3); cbn [fst snd] in *; [done|].
  pose proof (drop_fanout_seen (pf_sinks f') w' H1) as Hd. unfold drop_fanout in Hd. destruct (abort_all (pf_sinks f') w') as [n w2]. cbn in *.
  split; [congruence|done].
Qed.

(** ** What is published *)

(** The destinations that became visible between two worlds, and the variables that
    follow them. *)
Definition delivered (report : list PublishedDelivery) (runtime : RuntimeVariables) (w : W) (runtime' : RuntimeVariables) (w' : W) : Prop :=
  shown w report w' /\ runtime' = after_folder runtime (report_last_folder report).
Lemma nothing_delivered runtime w w' : seen w' = seen w -> delivered [] runtime w runtime w'.
Proof. intros H. split; [by apply no_delivery|done]. Qed.
Lemma delivered_from report runtime w w1 runtime' w' : seen w1 = seen w -> delivered report runtime w1 runtime' w' -> delivered report runtime w runtime' w'.
Proof. intros E [H1 H2]. split; [by eapply seen_shown|done]. Qed.

(** The commit of the sinks of a message, one for each delivery: all of them became
    visible, in their order; or those before the one that failed did, and that one's own
    if its error carries it, and then there is no success. *)
Definition committed (validated : ValidatedFanout (S := Sink Fd PF)) (count : nat) (runtime : RuntimeVariables) (w : W) (success : bool)
    (runtime' : RuntimeVariables) (w' : W) : Prop :=
  match commit_fanout validated w with
  | (Ok report, _) => delivered report runtime w runtime' w' /\ length report = count
  | (Err e, _) => delivered (ce_published e) runtime w runtime' w' /\ success = false /\ (ce_failed_index e < count)%nat /\
      length (ce_published e) = (ce_failed_index e + length (option_list (sce_published (ce_source e))))%nat
  end.
Definition unchanged (runtime : RuntimeVariables) (w : W) (success : bool) (runtime' : RuntimeVariables) (w' : W) : Prop :=
  seen w' = seen w /\ runtime' = runtime /\ success = false.
Lemma commit_delivery_exact validated ds runtime w :
  Forall ok (vf_sinks validated) -> length (vf_sinks validated) = length ds ->
  let '(r, (runtime', w')) := run (commit_delivery validated ds) (runtime, w) in
  (unchanged runtime w (is_ok r) runtime' w' \/ committed validated (length ds) runtime w (is_ok r) runtime' w') /\
  forall count, r = Ok count -> count = length ds.
Proof.
  intros Hv Hl. unfold commit_delivery, committed. rewrite run_bind, run_outcome. unfold outside, Effects.on, check_signal. cbn [run fst snd].
  destruct (received w) as [signal|]; cbn [fst snd]; [split; [left; split; [by apply drop_fanout_seen|done]|done]|].
  rewrite run_bind. cbn [run fst snd].
  pose proof (commit_sinks_shows (laws := laws) (vf_sinks validated) [] w w Hv (shows_nil (SinkLaws := laws) w)) as Hc.
  unfold commit_fanout. destruct (commit_sinks [] (vf_sinks validated) w) as [[report|e] w1]; cbn [length] in Hc; rewrite run_with_error.
  - destruct Hc as [Hs Hn]. pose proof (apply_publication_outcome (attempt_published (PR_Fanout report)) (PD_Plan ds) runtime w1) as Ha.
    destruct (run (apply_publication _ _) (runtime, w1)) as [r [rt w2]].
    destruct Ha as (Ht & -> & Hr). { intros i Hi. cbn in *. apply fmap_is_Some, lookup_lt_is_Some. lia. }
    split; [right; split; [split; [eapply shown_seen; [exact Hs|by apply traced_seen]|done]|lia]|]. intros count E. destruct r as [n|]; [|done].
    injection E as <-. destruct Hr as [-> _]. cbn. lia.
  - destruct Hc as (Hs & Hi & Hn). set (attempt := attempt_failed _ _ _ _).
    assert (attempt_count attempt = length (ce_published e) /\ attempt_folder attempt = report_last_folder (ce_published e)) as [E1 E2].
    { subst attempt. unfold attempt_count, attempt_folder. cbn [attempt_failed pa_published]. case_bool_decide as Hp; [by rewrite Hp|done]. }
    pose proof (apply_publication_outcome attempt (PD_Plan ds) runtime w1) as Ha. rewrite E1 in Ha.
    assert (length (ce_published e) <= length ds)%nat as Hle by (destruct (sce_published (ce_source e)); cbn in Hn; lia).
    destruct (run (apply_publication _ _) (runtime, w1)) as [r [rt w2]].
    destruct Ha as (Ht & -> & Hr). { intros i Hi'. cbn in *. apply fmap_is_Some, lookup_lt_is_Some. lia. }
    rewrite E2. destruct r as [n|e']; [by destruct Hr as [_ Hr]|]. split; [right|done].
    split; [split; [eapply shown_seen; [exact Hs|by apply traced_seen]|done]|]. split; [done|]. split; [lia|done].
Qed.
Lemma commit_delivery_spec validated ds runtime w :
  Forall ok (vf_sinks validated) -> length (vf_sinks validated) = length ds ->
  let '(r, (runtime', w')) := run (commit_delivery validated ds) (runtime, w) in
  exists report, delivered report runtime w runtime' w' /\ (length report <= length ds)%nat /\ forall count, r = Ok count -> count = length ds /\ length report = length ds.
Proof.
  intros Hv Hl. pose proof (commit_delivery_exact validated ds runtime w Hv Hl) as H. destruct (run (commit_delivery _ _) _) as [r [rt w']].
  destruct H as [[(H1 & -> & H3)|H] Hcount]; [exists []; split; [by apply nothing_delivered|]; split; [cbn; lia|by intros count ->]|].
  unfold committed in H. destruct (commit_fanout validated w) as [[report|e] w2].
  - destruct H as [H1 H2]. exists report. split; [done|]. split; [lia|]. intros count E. split; [by apply Hcount|done].
  - destruct H as (H1 & H2 & H3 & H4). exists (ce_published e). split; [done|]. split; [destruct (sce_published (ce_source e)); cbn in H4; lia|].
    by intros count ->.
Qed.

(** ** One destination *)

Lemma run_outside {E A} (m : M W E A) (runtime : RuntimeVariables) w :
  run (outside m) (runtime, w) = ((run m w).1, (runtime, (run m w).2)).
Proof. unfold outside, Effects.on. cbn. by destruct (run m w). Qed.

Lemma write_parts_spec s message w :
  ok s -> seen (run (write_parts s message) w).2 = seen w /\ forall s' w', run (write_parts s message) w = (Ok s', w') -> ok s'.
Proof.
  intros Hs. assert (forall s l w, ok s -> let '(r, w') := run (if bool_decide (l = []) then mret s else Comp (sink_write s l)) w in
    seen w' = seen w /\ forall s', r = Ok s' -> ok s') as Hw.
  { intros s' l w0 Hs'. case_bool_decide; [by split; [|intros s1 [= <-]]|]. cbn [run].
    destruct (write_shows (SinkLaws := laws) s' l w0 Hs') as [H1 H2]. apply shown_none in H1. by destruct (sink_write s' l w0) as [r w1]. }
  unfold write_parts. rewrite run_bind. specialize (Hw s (first_part message) w Hs) as H1.
  destruct (run (if bool_decide (first_part message = []) then _ else _) w) as [[s'|e] w1]; [|by destruct H1]. destruct H1 as [E1 H1].
  specialize (Hw s' (second_part message) w1 (H1 s' eq_refl)) as H2. destruct (run (if bool_decide (second_part message = []) then _ else _) w1) as [r w2].
  destruct H2 as [E2 H2]. split; [cbn; congruence|]. intros s1 w3 [= -> _]. by apply H2.
Qed.
Lemma dropping_spec {E A} (drop : W -> W) (m : M W E A) w :
  (forall w, seen (drop w) = seen w) -> seen (run m w).2 = seen w ->
  seen (run (dropping_on_error drop m) w).2 = seen w /\ forall a w', run (dropping_on_error drop m) w = (Ok a, w') -> run m w = (Ok a, w').
Proof.
  intros Hd Hm. unfold dropping_on_error. cbn [run]. destruct (run m w) as [[a|e] w1]; [split; [done|by intros ? ? [= <- <-]]|].
  split; [|done]. cbn in *. by rewrite Hd.
Qed.
(** What a sink that is committed makes of the attempt it reports. *)
Lemma commit_attempt s d runtime w :
  ok s -> is_ok (resolve_in runtime d) = true ->
  let '(r, w1) := run (sink_commit s) w in
  let attempt := match r with
    | Ok published => attempt_published (PR_Delivery published)
    | Err e => attempt_failed (PR_Delivery <$> sce_published e) (commit_failure e) 0 (B "cannot publish Maildir delivery: " ++ ie_text (sce_source e))
    end in
  let '(r', (runtime', w')) := run (apply_publication attempt (PD_One d)) (runtime, w1) in
  exists report, delivered report runtime w runtime' w' /\ (length report <= 1)%nat /\
    match r' with Ok _ => length report = 1%nat | Err e => ose_can_handle e = true -> report = [] end.
Proof.
  intros Hs Hd. pose proof (commit_shows (SinkLaws := laws) s w Hs) as Hc. destruct (run (sink_commit s) w) as [r w1]. cbn [fst snd] in Hc.
  set (report := match r with Ok d => [d] | Err e => option_list (sce_published e) end) in Hc. intros attempt.
  assert (attempt_count attempt = length report /\ attempt_folder attempt = report_last_folder report /\ (length report <= 1)%nat /\
    (pa_failure attempt = None -> length report = 1%nat)) as (E1 & E2 & E3 & E4).
  { subst attempt report. destruct r as [d'|e]; [done|]. unfold attempt_count, attempt_folder. cbn. destruct (sce_published e); cbn; repeat split; (lia || done). }
  pose proof (apply_publication_outcome attempt (PD_One d) runtime w1) as Ha. destruct (run (apply_publication _ _) _) as [r' [rt w2]].
  destruct Ha as (Ht & -> & Hr). { intros i Hi. rewrite E1 in Hi. exists d. cbn. destruct i; [done|lia]. }
  rewrite E2. exists report. split; [split; [eapply shown_seen; [exact Hc|by apply traced_seen]|done]|]. split; [done|].
  destruct r' as [n|e]; [by apply E4; destruct Hr|]. intros Hh. apply Hr in Hh as [Hn _]. rewrite E1 in Hn. by apply nil_length_inv.
Qed.

(** C12: A delivery to one destination ends as its caller is told.  Whatever the system
    answers - at the opening, at the writing, at the commit, at a sync after the
    commit - what became visible is at most one message, and LASTFOLDER names it if
    its path is text and is what it was if there is none.  A delivery that succeeds
    made one visible.  One that fails with an error that the recipes may handle, by
    trying another destination, made none visible and left the variables alone, so
    that a message is never delivered twice by a fallback. *)
Theorem handled_failure_published_nothing d message durability runtime w :
  placed runtime d ->
  let '(r, (runtime', w')) := run (deliver_one_sink d message durability) (runtime, w) in
  exists report, delivered report runtime w runtime' w' /\ (length report <= 1)%nat /\
    match r with Ok _ => length report = 1%nat | Err e => ose_can_handle e = true -> report = [] end.
Proof.
  intros Hd. assert (forall (w1 : W) (e : OrderedStepError), seen w1 = seen w -> exists report, delivered report runtime w runtime w1 /\ (length report <= 1)%nat /\
    (ose_can_handle e = true -> report = [])) as Hnone.
  { intros w1 e E. exists []. split; [by apply nothing_delivered|]. split; [cbn; lia|done]. }
  unfold deliver_one_sink. rewrite run_bind, run_gets, run_bind, run_of_result. cbn [id fst]. destruct (setting _) as [mask|e]; cbn [map_err]; [|by apply Hnone].
  rewrite run_bind, run_with_error, run_outside.
  pose proof (open_sink_spec d durability mask (fm_status message) runtime w Hd) as Ho.
  destruct (run (open_sink _ _ _ _ _) w) as [[s|e] w1]; destruct Ho as [E1 Ho]; cbn [fst snd map_err]; [destruct Ho as [Hs Hres]|by apply Hnone].
  rewrite run_bind, run_with_error, run_outside.
  set (writing := reporting _ (write_parts s (fm_bytes message))).
  assert (seen (run writing w1).2 = seen w1) as Hq
    by (apply reporting_seen; [intros e w0; apply law_trace|intros w0; by apply write_parts_spec]).
  destruct (dropping_spec (drop_sink s) writing w1 (fun w => drop_sink_seen s w Hs) Hq) as [E2 Hw].
  destruct (run (dropping_on_error _ _) w1) as [[s'|e] w2]; cbn [fst snd map_err] in *; [|apply Hnone; congruence].
  specialize (Hw s' w2 eq_refl). apply run_reporting_Ok in Hw. apply (proj2 (write_parts_spec s (fm_bytes message) w1 Hs)) in Hw.
  rewrite run_bind, run_outcome, run_outside.
  pose proof (commit_attempt s' d runtime w2 Hw Hres) as Hc. destruct (run (sink_commit s') w2) as [[published|e] w3]; cbn [fst snd] in *;
    rewrite run_bind; destruct (run (apply_publication _ _) (runtime, w3)) as [[n|e'] [rt w4]]; destruct Hc as (report & Hr & Hl & Hn); exists report;
    (split; [eapply delivered_from; [|exact Hr]; congruence|done]).
Qed.

(** ** The deliveries of a plan *)

Lemma in_system_run {D A} (m : M W OperationalError A) (dr : D) runtime w :
  run (in_system m) (dr, (runtime, w)) = let '(r, w') := run m w in (map_err failing r, (dr, (runtime, w'))).
Proof. unfold in_system, in_delivery, delivering, outside, with_error, Effects.on. cbn. by destruct (run m w). Qed.
Lemma check_signal_run (w : W) : (run check_signal w).2 = w.
Proof. unfold check_signal. cbn. by destruct (received w). Qed.
Lemma simulate_deliveries_seen ds runtime w : seen (run (simulate_deliveries ds) (runtime, w)).2.2 = seen w.
Proof.
  revert runtime w. induction ds as [|d ds IH]; intros runtime w; [done|]. cbn [simulate_deliveries]. rewrite run_bind. unfold simulate_delivery.
  rewrite run_bind, run_gets, run_bind, run_of_result. cbn [id fst]. destruct (resolve_in runtime (pd_destination d)) as [d'|e]; [|done].
  cbn. fold (simulate_deliveries ds). rewrite IH, law_trace. apply law_trace.
Qed.

Lemma dropping_fanout_run {D} validated (m : M W OperationalError ()) (dr : D) runtime w :
  run (dropping_on_error (drop_world (drop_fanout (S := Sink Fd PF) validated)) (in_system m)) (dr, (runtime, w)) =
  let '(r, w') := run m w in (map_err failing r, (dr, (runtime, match r with Ok _ => w' | Err _ => drop_fanout validated w' end))).
Proof. unfold dropping_on_error. cbn [run]. rewrite in_system_run. by destruct (run m w) as [[?|?] ?]. Qed.
Lemma fanout_of_spec ss w :
  Forall ok ss ->
  let '(r, w') := run (fanout_of ss) w in seen w' = seen w /\ match r with Ok f => pf_sinks f = ss | Err _ => True end.
Proof.
  intros H. unfold fanout_of, new_fanout. destruct (_ <? _)%nat; [|done]. split; [|done]. cbn. by apply drop_sinks_seen.
Qed.
Lemma report_stream_seen e ds w : seen (report_stream_failure e ds w).2 = seen w.
Proof.
  unfold report_stream_failure, report_indexed_failure. destruct (sde_delivery_failure e) as [[i failure]|]; [|done].
  destruct (ds !! i); [apply law_trace|done].
Qed.
Lemma record_and_finish_run published original (dr : DeliveryRuntime Fd) runtime w :
  dr_publications dr = no_publications ->
  let '(r, (_, (runtime', w'))) := run (record_and_finish (W := W) (Fd := Fd) published original) (dr, (runtime, w)) in
  runtime' = runtime /\ w' = w /\ (r = Ok tt -> original = true).
Proof.
  intros E. unfold record_and_finish, record_published, finish_publications. cbn [run fst snd]. rewrite E. cbn [no_publications pt_published pt_original_delivered].
  destruct (checked_add 0 published) as [total|]; cbn [ok_or mbind result_bind orb]; [|done]. by destruct original.
Qed.
(** What may have happened when a delivery of a plan ends. *)
Definition plan_outcome (plan : DeliveryPlan) (runtime : RuntimeVariables) (w : W) (success : bool) (runtime' : RuntimeVariables) (w' : W) : Prop :=
  exists report, delivered report runtime w runtime' w' /\ (length report <= length (dp_deliveries plan))%nat /\
    (success = true -> length report = length (dp_deliveries plan) /\ dp_original_delivered plan = true).
Lemma plan_failed plan runtime w w' : seen w' = seen w -> plan_outcome plan runtime w false runtime w'.
Proof. intros E. exists []. split; [by apply nothing_delivered|]. split; [cbn; lia|done]. Qed.

(** The end of a delivery, and a part of its state where nothing was published. *)
Definition finishes {D} (fresh : D -> Prop) (finish : nat -> bool -> M (D * (RuntimeVariables * W)) (stop Empty_set HostError) ()) : Prop :=
  forall published original d runtime w, fresh d ->
    let '(r, (_, (runtime', w'))) := run (finish published original) (d, (runtime, w)) in runtime' = runtime /\ w' = w /\ (r = Ok tt -> original = true).
(** The validated message and the commit of its sinks. *)
Lemma commit_plan_spec {D} (fresh : D -> Prop) finish plan validated (d : D) runtime w :
  finishes fresh finish -> fresh d ->
  Forall ok (vf_sinks validated) -> length (vf_sinks validated) = length (dp_deliveries plan) ->
  let '(r, (_, (runtime', w'))) := run (
    _ ← dropping_on_error (drop_world (drop_fanout (vf_sinks validated))) (in_system check_signal);
    published ← in_delivery (commit_delivery validated (dp_deliveries plan));
    finish published (dp_original_delivered plan)) (d, (runtime, w)) in
  plan_outcome plan runtime w (is_ok r) runtime' w'.
Proof.
  intros Hfin Hp Hv Hl. rewrite run_bind, dropping_fanout_run. pose proof (check_signal_run w) as Hs. destruct (run check_signal w) as [[[]|e] w1]; cbn [snd] in Hs; subst w1;
    cbn [map_err]; [|apply plan_failed; by apply drop_fanout_seen].
  rewrite run_bind. unfold in_delivery, delivering. rewrite run_with_error. unfold Effects.on. cbn [run fst snd].
  pose proof (commit_delivery_spec validated (dp_deliveries plan) runtime w Hv Hl) as Hc.
  destruct (run (commit_delivery _ _) (runtime, w)) as [[count|e] [rt w2]]; destruct Hc as (report & Hr & Hle & Hn); cbn [fst snd map_err];
    [|by exists report].
  pose proof (Hfin count (dp_original_delivered plan) d rt w2 Hp) as Hf.
  destruct (run (finish _ _) _) as [r [d' [rt' w']]]. destruct Hf as (-> & -> & Hf). exists report. split; [done|]. split; [done|].
  intros E. destruct r as [[]|]; [|done]. split; [by eapply Hn|by apply Hf].
Qed.
Lemma record_finishes : finishes (fun dr : DeliveryRuntime Fd => dr_publications dr = no_publications) record_and_finish.
Proof. intros published original dr runtime w. apply record_and_finish_run. Qed.

(** How a delivery that the header decided may end.  Either it stopped before the first
    commit: nothing is visible, the variables are what they were, and it is a failure.
    Or the whole message had been written to a sink of every destination, none of which was
    visible then, and those were committed. *)
Definition decided_outcome (head : MessageHead) (reader : Reader IoError) (plan : DeliveryPlan) (runtime : RuntimeVariables) (w : W) (success : bool)
    (runtime' : RuntimeVariables) (w' : W) : Prop :=
  unchanged runtime w success runtime' w' \/
  exists fanout w0 validated message rest w1,
    run (fanout_stream fanout head reader) w0 = (Ok (validated, message, rest), w1) /\ seen w1 = seen w /\
    length (vf_sinks validated) = length (dp_deliveries plan) /\
    committed validated (length (dp_deliveries plan)) runtime w1 success runtime' w' /\ (success = true -> dp_original_delivered plan = true).
Lemma decided_stops head reader plan runtime w w' : seen w' = seen w -> decided_outcome head reader plan runtime w false runtime w'.
Proof. intros E. by left. Qed.
Lemma commit_decided head reader plan fanout w0 validated message rest (dr : DeliveryRuntime Fd) runtime w1 :
  run (fanout_stream fanout head reader) w0 = (Ok (validated, message, rest), w1) ->
  dr_publications dr = no_publications -> Forall ok (vf_sinks validated) -> length (vf_sinks validated) = length (dp_deliveries plan) ->
  let '(r, (_, (runtime', w'))) := run (
    _ ← dropping_on_error (drop_world (drop_fanout (vf_sinks validated))) (in_system check_signal);
    published ← in_delivery (commit_delivery validated (dp_deliveries plan));
    record_and_finish published (dp_original_delivered plan)) (dr, (runtime, w1)) in
  decided_outcome head reader plan runtime w1 (is_ok r) runtime' w'.
Proof.
  intros Hw Hp Hv Hl. rewrite run_bind, dropping_fanout_run. pose proof (check_signal_run w1) as Hs. destruct (run check_signal w1) as [[[]|e] w2]; cbn [snd] in Hs; subst w2;
    cbn [map_err]; [|apply decided_stops; by apply drop_fanout_seen].
  rewrite run_bind. unfold in_delivery, delivering. rewrite run_with_error. unfold Effects.on. cbn [run fst snd].
  pose proof (commit_delivery_exact validated (dp_deliveries plan) runtime w1 Hv Hl) as Hc.
  destruct (run (commit_delivery _ _) (runtime, w1)) as [[count|e] [rt w2]]; destruct Hc as (Hr & Hn); cbn [fst snd map_err].
  - destruct Hr as [(_ & _ & [=])|Hr]. pose proof (record_and_finish_run count (dp_original_delivered plan) dr rt w2 Hp) as Hf.
    destruct (run (record_and_finish _ _) _) as [r [d' [rt' w']]]. destruct Hf as (-> & -> & Hf). right. exists fanout, w0, validated, message, rest, w1.
    split_and!; [done..| |]; [|intros E; destruct r as [[]|]; [by apply Hf|done]]. unfold committed in *. destruct (commit_fanout validated w1) as [[report|e] w3]; [done|].
    by destruct Hr as (_ & [=] & _).
  - destruct Hr as [Hr|Hr]; [by left|]. right. by exists fanout, w0, validated, message, rest, w1.
Qed.


(** ** A plan that is resumed *)

Section resumed.
Context {R : RegexEngine} {X : ConditionExpander} {L : Type} {loader_impl : RuntimeRcLoader L} (levels : nat).

Lemma staged_finishes : finishes (fun d : DeliveryRuntime Fd * @RuntimeRcState R L => dr_publications d.1 = no_publications)
  (fun published original => staged (record_and_finish published original)).
Proof.
  intros published original [dr files] runtime w Hp. unfold staged, Effects.on. cbn [run fst snd].
  pose proof (record_and_finish_run published original dr runtime w Hp) as H. by destruct (run (record_and_finish _ _) _) as [r [dr' [rt w']]].
Qed.
(** The second half of a delivery that is resumed: the sinks that were open, and
    those of the deliveries that follow, to which the message is written. *)
Lemma append_late_spec plan early validated pending message (d : DeliveryRuntime Fd * @RuntimeRcState R L) runtime w :
  dr_publications d.1 = no_publications -> (early <= length (dp_deliveries plan))%nat ->
  Forall ok (vf_sinks validated) -> length (vf_sinks validated) = early ->
  Forall ok (pf_sinks pending) -> length (pf_sinks pending) = (length (dp_deliveries plan) - early)%nat ->
  let '(r, (_, (runtime', w'))) := run (
      appended ← in_system (reporting (fun e => match ae_delivery_failure e with
          | Some (index, failure) => report_indexed_failure index failure (drop early (dp_deliveries plan)) (buffered_error_text e)
          | None => fun w => (operational_delivery (class_from_io_error (ae_source e)) (buffered_error_text e), w)
          end) (Comp (append_bytes validated pending message)));
      _ ← dropping_on_error (drop_world (drop_fanout (vf_sinks appended))) (in_system check_signal);
      published ← in_delivery (commit_delivery appended (dp_deliveries plan));
      staged (record_and_finish published (dp_original_delivered plan))) (d, (runtime, w)) in
  plan_outcome plan runtime w (is_ok r) runtime' w'.
Proof.
  intros Hd Hle Hv Hvl Hp Hpl. rewrite run_bind, in_system_run. set (appending := reporting _ _).
  assert (forall w0, let '(r, w') := append_bytes validated pending message w0 in seen w' = seen w0 /\ match r with
    | Ok v => Forall ok (vf_sinks v) /\ length (vf_sinks v) = length (dp_deliveries plan) | Err _ => True end) as Ha.
  { intros w0. pose proof (append_bytes_shows (laws := laws) validated pending message w0 Hv Hp) as Ha.
    destruct (append_bytes validated pending message w0) as [[v|e] w1]; destruct Ha as [Hs Ha]; apply shown_none in Hs; [|done].
    split; [done|]. destruct Ha as [-> Ha]. split; [done|lia]. }
  assert (seen (run appending w).2 = seen w) as E1.
  { apply reporting_seen; [|intros w0; cbn [run]; specialize (Ha w0); by destruct (append_bytes _ _ _ w0) as [r w1]; destruct Ha].
    intros e w0. destruct (ae_delivery_failure e) as [[i failure]|]; [|done]. unfold report_indexed_failure. destruct (_ !! i); [apply law_trace|done]. }
  destruct (run appending w) as [[v|e] w1] eqn:Er; cbn [map_err]; [|by apply plan_failed].
  apply run_reporting_Ok in Er. cbn [run] in Er. specialize (Ha w). rewrite Er in Ha. destruct Ha as (_ & Hvs & Hvl'). cbn [snd] in E1.
  pose proof (commit_plan_spec _ _ plan v d runtime w1 staged_finishes Hd Hvs Hvl') as Hc.
  destruct (run (_ ≫= _) _) as [r [d' [rt w2]]]. destruct Hc as (report & Hr & Hrest). exists report. split; [by eapply delivered_from|done].
Qed.

(** The first half: planning goes on, and the sinks of what it adds are opened. *)
Lemma resumed_plan_spec execution continuation early input (dr : DeliveryRuntime Fd) (files : @RuntimeRcState R L) runtime w
    (Hplaced : forall plan variables files', resume_run levels execution continuation input files = (Ok plan, Some (variables, files')) ->
       Forall (fun d => placed variables (pd_destination d)) (drop early (dp_deliveries plan))) :
  let '(r, ((dr', _), (runtime', w'))) := run
    (s ← gets id;
     let '(planned, remaining) := resume_run levels execution continuation input s.1.2 in
     _ ← modify (fun s => match remaining with Some (variables, files) => ((s.1.1, files), (variables, s.2.2)) | None => s end);
     plan ← of_result (map_err resume_failed planned);
     _ ← in_system check_signal;
     s ← gets id;
     let runtime : DeliveryRuntime Fd := s.1.1 in
     let variables : RuntimeVariables := s.2.1 in
     if dr_dry_run runtime then _ ← in_delivery (simulate_plan plan); mret (inl tt)
     else if (length (dp_deliveries plan) <? early)%nat then
       stop_with (failing (OE_Internal (B "internal error: deferred delivery discarded an early copy destination")))
     else
       sinks ← in_system (open_sinks (drop early (dp_deliveries plan)) (dr_durability runtime) variables []);
       pending ← in_system (fanout_of sinks);
       mret (inr (plan, pending)) : M (DeliveryRuntime Fd * @RuntimeRcState R L * (RuntimeVariables * W)) (stop Empty_set HostError) (() + DeliveryPlan * PendingFanout (S := Sink Fd PF))) ((dr, files), (runtime, w)) in
  seen w' = seen w /\ dr' = dr /\
  match resume_run levels execution continuation input files with
  | (Ok plan, Some (variables, _)) =>
      match r with
      | Ok (inl _) => dr_dry_run dr = true
      | Ok (inr (plan', pending)) => dr_dry_run dr = false /\ plan' = plan /\ runtime' = variables /\ (early <= length (dp_deliveries plan))%nat /\
          Forall ok (pf_sinks pending) /\ length (pf_sinks pending) = (length (dp_deliveries plan) - early)%nat
      | Err _ => dr_dry_run dr = true \/ runtime' = variables
      end
  | _ => is_ok r = false
  end.
Proof.
  rewrite run_bind, run_gets. cbn [id fst snd]. destruct (resume_run levels execution continuation input files) as [planned remaining] eqn:Eres.
  rewrite run_bind, run_modify, run_bind, run_of_result. destruct planned as [plan|e]; cbn [map_err]; [|by destruct remaining as [[variables files']|]].
  assert (exists variables files', remaining = Some (variables, files')) as (variables & files' & ->).
  { revert Eres. unfold resume_run. destruct (complete_message _ _); [|done]. destruct (_ && _); [done|].
    destruct (if ct_restart continuation then _ else _) as [[?|?] ?]; intros [= _ <-]; by eexists _, _. }
  rewrite run_bind, in_system_run. pose proof (check_signal_run w) as Hs. cbn [fst snd].
  destruct (run check_signal w) as [[[]|e] w1]; cbn [snd] in Hs; subst w1; cbn [map_err]; [|split; [done|]; split; [done|by right]].
  rewrite run_bind, run_gets. cbn [id fst snd]. destruct (dr_dry_run dr) eqn:Edry.
  { rewrite run_bind. unfold in_delivery, delivering. rewrite run_with_error. unfold Effects.on, simulate_plan. cbn [run fst snd]. rewrite run_bind.
    pose proof (simulate_deliveries_seen (dp_deliveries plan) variables w) as H.
    destruct (run (simulate_deliveries _) _) as [[[]|e] [rt w1]]; cbn [fst snd] in H; [|split; [done|]; split; [done|by left]].
    destruct (dp_original_delivered plan); (split; [done|]; split; [done|]; (done || by left)). }
  destruct (Nat.ltb_spec (length (dp_deliveries plan)) early) as [Hlt|Hle]; [split; [done|]; split; [done|by right]|].
  rewrite run_bind, in_system_run.
  pose proof (open_sinks_spec (drop early (dp_deliveries plan)) (dr_durability dr) variables [] w (Hplaced _ _ _ eq_refl) (Forall_nil_2 _)) as Ho.
  destruct (run (open_sinks _ _ _ _) w) as [[ss|e] w1]; destruct Ho as [E1 Ho]; cbn [map_err]; [destruct Ho as [Hss Hl]|split; [done|]; split; [done|by right]].
  rewrite run_bind, in_system_run. pose proof (fanout_of_spec ss w1 Hss) as Hf.
  destruct (run (fanout_of ss) w1) as [[f|e] w2]; destruct Hf as [E2 Hf]; cbn [map_err];
    [|split; [congruence|]; split; [done|by right]].
  cbn [run mret M_ret]. rewrite Hf. split; [congruence|]. repeat split; try done. rewrite Hl, length_drop. done.
Qed.

End resumed.
End seen.

(** * A small system *)

(** Two Maildirs; the descriptor of a directory is its path, a directory cannot be
    synced, and the random source repeats itself. *)
Definition box_os : Os (gset bytes) bytes := {|
  os_openat := fun base name flags _ => mret (if existsb (fun flag => match flag with TMPFILE => true | _ => false end) flags then B "file" else match base with CWD => name | At dir => path_join dir name end);
  os_fstat := fun _ => stop_with 38; os_statat := fun _ _ => stop_with 38; os_mkdirat := fun _ _ _ => stop_with 38;
  os_link_fd := os_link_fd (Os := mail_os); os_linkat := os_linkat (Os := mail_os); os_unlinkat := fun _ _ => mret tt; os_dupfd := fun fd => mret fd;
  os_flock := fun _ _ => mret tt; os_fsync := os_fsync (Os := mail_os); os_ftruncate := fun _ _ => stop_with 38; os_seek_end := fun _ => stop_with 38;
  os_write := fun _ l => mret (length l); os_read := fun _ _ => stop_with 38; os_getrandom := fun n => mret (replicate n 171); os_mapped := fun _ _ => stop_with 38;
  os_getuid := fun _ => 1000; os_pid := fun _ => 1; os_system_time := fun w => (0, w); os_instant := fun w => (0, w); os_sleep := fun _ w => w; os_signal := fun _ => 0;
|}.
#[local] Existing Instance linux_numbers.
#[local] Existing Instance box_os.
#[local] Existing Instance linux_backend.
#[local] Existing Instance target64.
#[local] Instance silent_trace : TraceSink (gset bytes) := {| trace_detail := fun _ => Metadata; trace_record := fun _ w => w |}.
Lemma box_links : LinkLaws id id (fun _ => True).
Proof.
  destruct mail_links. split; try (intros; intros w; done); [exact law_link_fd|exact law_linkat|done|exact law_fsync].
Qed.
Definition box_laws : BackendLaws id id (fun _ => True) (LinuxFile bytes) linux_backend := linux_laws id id (fun _ => True) box_links.
Definition sample_delivery (path : bytes) (continuation : DeliveryContinuation) : PlannedDelivery :=
  {| pd_destination := sample_maildir path; pd_continuation := continuation; pd_output_ending := Normalize; pd_lock := None; pd_umask := 63;
     pd_status := {| st_read := true; st_flagged := false; st_replied := false |} |}.
Definition sample_plan : DeliveryPlan :=
  {| dp_deliveries := [sample_delivery (B "/copy") DC_Continue; sample_delivery (B "/mail") DC_Stop]; dp_original_delivered := true |}.
Definition sample_runtime : DeliveryRuntime bytes := new_delivery_runtime None DP_File default_limits 1000 false.
Definition sample_variables : RuntimeVariables := default_runtime (B "7").
Lemma box_place path : path = B "/mail" \/ path = B "/copy" -> MaildirPlace id (fun _ : bytes => True) path.
Proof. intros [-> | ->]; (split; [by intros w fd w' [= <- _]|by intros base name w fd w' [= <- _]|done]). Qed.
Lemma box_placed path : path = B "/mail" \/ path = B "/copy" -> placed id (fun _ : bytes => True) sample_variables (sample_maildir path).
Proof. intros H d' E _. assert (destination_path d' = path) as ->; [|by apply box_place]. destruct H as [-> | ->]; vm_compute in E; by injection E as <-. Qed.
Definition sample_decided := run (deliver_decided (MB := linux_backend) sample_head (cursor (B "text")) sample_plan) (sample_runtime, (sample_variables, ∅)).
Example sample_decided_ends :
  sample_decided.1 = Ok tt /\ sample_decided.2.2.2 = {[B "/copy/cur/procmail-rs.abababababababababababababababab:2,S"; B "/mail/cur/procmail-rs.abababababababababababababababab:2,S"]} /\
  get sample_decided.2.2.1 (B "LASTFOLDER") = Some (B "/mail/cur/procmail-rs.abababababababababababababababab:2,S").
Proof. by vm_compute. Qed.
(** The name of the message is taken, so that its delivery fails. *)
Definition taken_name : gset bytes := {[B "/mail/new/procmail-rs.abababababababababababababababab"]}.
Definition sample_text : FinalMessage := {| fm_bytes := one_part (B "text"); fm_status := {| st_read := false; st_flagged := false; st_replied := false |} |}.
Definition refused_delivery := run (deliver_one_sink (MB := linux_backend) (sample_maildir (B "/mail")) sample_text DP_File) (sample_variables, taken_name).
Lemma handled_failure_published_nothing_witness :
  (match refused_delivery.1 with Ok _ => false | Err e => ose_can_handle e end) = true /\
  exists report, delivered (W := gset bytes) id report sample_variables taken_name refused_delivery.2.1 refused_delivery.2.2 /\ report = [].
Proof.
  pose proof (handled_failure_published_nothing id id (fun _ => True) box_links (blaws := box_laws) (fun _ _ => eq_refl) (sample_maildir (B "/mail")) sample_text DP_File
    sample_variables taken_name (box_placed _ (or_introl eq_refl))) as H.
  fold refused_delivery in H. assert ((match refused_delivery.1 with Ok _ => false | Err e => ose_can_handle e end) = true) as E by (by vm_compute).
  split; [exact E|]. destruct refused_delivery as [[u|e] [rt w]]; [done|]. destruct H as (report & H1 & _ & H2). exists report. split; [exact H1|by apply H2].
Defined.

(** A plan that is taken up with the complete message: a copy, and a delivery. *)
#[local] Existing Instance Settings.no_regex.
Definition sample_node (path : bytes) (continuation : ContinuationMode) : CompiledNode (R := Settings.no_regex) :=
  MkNode (R := Settings.no_regex) sample_location [] None Independent continuation CS_Ignore [] (CA_Deliver (sample_maildir path) continuation Normalize) no_properties.
Definition sample_execution : ExecutionPlan (R := Settings.no_regex) :=
  {| root := MkSequence (R := Settings.no_regex) [sample_node (B "/copy") CM_Continue; sample_node (B "/mail") CM_Stop] [] no_properties; message_limits := Ok default_limits |}.
Definition sample_continuation : Continuation :=
  {| ct_frames := []; ct_execution := empty_fanout; ct_runtime := sample_variables; ct_requirements := no_requirements; ct_restart := true |}.
Definition sample_message : StagedMessage := {| st_bytes := B "A: b" ++ [c_LF; c_LF] ++ B "text"; st_header_len := 6 |}.
Definition sample_input : MappedMessageInput := {| mi_raw := st_bytes sample_message; mi_header_len := 6; mi_matching := None |}.
Definition no_loader : RuntimeRcLoader (R := Settings.no_regex) () := Build_RuntimeRcLoader () (fun _ _ _ => mret None).
#[local] Existing Instance no_loader.
#[local] Instance no_expander : ConditionExpander := Build_ConditionExpander Settings.no_regex (fun _ _ _ => Ok []) (fun _ _ _ => Err (0%nat, [])).
Definition no_files : @RuntimeRcState Settings.no_regex () := new_rc_state (Some tt).
Definition sample_resumed := run (deliver_resumed_plan (MB := linux_backend) 4 sample_execution sample_continuation 0 {| vf_sinks := [] |} sample_message sample_input)
  ((sample_runtime, no_files), (sample_variables, ∅)).
Example sample_resumed_ends :
  sample_resumed.1 = Ok tt /\ sample_resumed.2.2.2 = {[B "/copy/new/procmail-rs.abababababababababababababababab"; B "/mail/new/procmail-rs.abababababababababababababababab"]}.
Proof. by vm_compute. Qed.
Definition resumed_variables : RuntimeVariables :=
  match resume_run 4 sample_execution sample_continuation sample_input no_files with (_, Some (variables, _)) => variables | _ => sample_variables end.
Definition bound_maildir (path : bytes) : Destination :=
  match sample_maildir path with
  | D_Maildir e => D_Maildir {| pe_source := pe_source e; pe_base := pe_base e; pe_location := pe_location e; pe_runtime_dependent := pe_runtime_dependent e;
      pe_runtime_base := pe_runtime_base e; pe_typed_destination := pe_typed_destination e; pe_expansion := Some (MkShellExpression [Literal path]) |}
  | d => d
  end.
Lemma resumed_placed path : path = B "/mail" \/ path = B "/copy" -> placed id (fun _ : bytes => True) resumed_variables (bound_maildir path).
Proof. intros H d' E _. assert (destination_path d' = path) as ->; [|by apply box_place]. destruct H as [-> | ->]; vm_compute in E; by injection E as <-. Qed.
Definition resumed_plan : DeliveryPlan :=
  match resume_run 4 sample_execution sample_continuation sample_input no_files with (Ok plan, _) => plan | _ => sample_plan end.
