(* ===== verification/Program.v ===== *)
(** The parts put together: the loader of rc files reads with the parser of
    [RcParser] and prepares with [Prepare], the conditions of a run are expanded and
    parsed again by the same code.  What planning and execution ask of a loader
    ([RuntimeRcFacts], [OrderedAgree]) holds of this one, so that their theorems
    hold of the program with no assumption on the files. *)
From stdpp Require Import gmap.
From S2P Require Import Prelude Numbers Config Limits Utf8 HeaderValue StructuredHeader Variables Runtime Settings ShellPattern ShellEval ExprParser Expand Effects Binding Syntax RegexSyntax ConditionSyntax RcParser RcParserFacts Prepare.
From S2P Require Import HeaderFields HeaderStore EditedHeader HeaderEdit Message EvalMessage Mime Conditions Plan PlanFacts RcFile RcFileFacts RuntimeRc RuntimeRcFacts PrepareFacts Delivery Trace Startup HeaderPlan HeaderPlanFuel Ordered OrderedFacts OrderedFuel OrderedAgree.
#[local] Open Scope Z_scope.

(** What opening a file asks of the operating system: [os_open_root] follows a
    symbolic link, [os_open_rc] refuses one. *)
Class RcFiles := { os_open_root : bytes -> result OsError OpenFile; os_open_rc : bytes -> result OsError OpenFile }.

Section instances.
Context {T : Target} {R : RegexEngine} {RC : RegexCompiler} (pid : bytes) {O : RcFiles}.

(** The loader's files, read by the parser and prepared. *)
#[local] Instance program_source : RcSource := {|
  open_root := os_open_root; open_rc := os_open_rc;
  RcFile.parse_with_state := RcParser.parse_with_state;
  RcFile.expand_with_runtime_values := Prepare.expand_with_runtime_values pid;
  RcFile.prepare_for_check := Prepare.prepare_for_check pid |}.

(** Conditions that are expanded while a message is evaluated. *)
#[local] Instance program_expander : ConditionExpander := {|
  Conditions.expand_shell_condition := Expand.expand_shell_condition;
  Conditions.parse_reparsed_condition := fun value line sensitive =>
    map_err (fun error => (perr_line error, perr_message error)) (ConditionSyntax.parse_reparsed_condition value line sensitive) |}.

(** A loader that counts within the ceilings. *)
#[local] Instance program_invariant : LoaderInvariant RcFileLoader := fun l => budget_ok (parse_state l).

Lemma activate_limits_ok runtime path kinds limits limits' :
  limits_ok limits -> activate_limits runtime path kinds limits = Ok limits' -> limits_ok limits'.
Proof.
  revert limits. induction kinds as [|[name kind] kinds IH]; intros limits Hl H; cbn [activate_limits] in H; [by injection H as <-|].
  apply result_bind_Ok in H as (next & Hn & H). apply (IH next); [|done]. unfold activate_limit in Hn.
  destruct (get runtime name); [|by injection Hn as <-]. apply result_bind_Ok in Hn as (value & _ & Hn).
  unfold set_rc_limit in Hn. destruct (Z.ltb_spec (rc_hard_limit kind) value); [done|]. injection Hn as <-. by apply with_rc_limit_ok.
Qed.

(** What a file is once it was parsed: it nests within the limit and a recipe of
    it stops or goes on. *)
Record well_parsed (l : list Statement) : Prop := {
  wp_depth : Z.of_nat (blocks_depth l) <= rc_hard_limit RLV_NestingDepth;
  wp_modes : forall r, recipe_in r l -> goes_on (recipe_mode r);
}.
Lemma well_parsed_outline l l' : outline <$> l' = outline <$> l -> well_parsed l -> well_parsed l'.
Proof.
  intros Ho [Hd Hm]. split; [by rewrite (blocks_outline _ _ Ho)|]. intros r Hr. destruct (recipe_in_outlines _ _ _ Ho Hr) as (r0 & H0 & <-).
  by apply Hm.
Qed.
Lemma parsed_well input s c s' : budget_ok s -> RcParser.parse_with_state input s = Ok (c, s') -> budget_ok s' /\ well_parsed (statements c).
Proof.
  intros Hs (Hp & _ & _)%parse_with_state_Ok. pose proof (Parsed_tree _ _ _ _ _ Hp Hs) as (H1 & H2 & H3). split; [done|].
  split; [by apply H3|]. intros r (d & b & head & b' & _ & [_ _ Hgo _] & _ & ->)%H2. exact Hgo.
Qed.

(** The levels of a file within the limit. *)
Definition FILE_LEVELS : nat := S (Z.to_nat (rc_hard_limit RLV_NestingDepth)).
Lemma well_parsed_levels l preceding source : well_parsed l -> (nesting (compile l preceding source) <= FILE_LEVELS)%nat.
Proof. intros [Hd _]. rewrite compile_nesting. unfold FILE_LEVELS. lia. Qed.
Lemma well_parsed_sound l preceding source : well_parsed l -> sound (compile l preceding source).
Proof.
  intros [_ Hm]. split; [apply compile_coherent|]. intros d mode ending Hw ->.
  destruct (compile_delivery _ _ _ _ Hw l preceding source eq_refl) as (r & Hr & Hc). by apply (Hm r Hr).
Qed.

Lemma load_program e runtime depth preparation l r l' :
  loader_ok l -> run (load_prepared_config e runtime depth preparation) l = (r, l') ->
  loader_ok l' /\ forall c, r = Ok (Some c) -> well_parsed (statements (lc_config c)).
Proof.
  intros Hl. unfold load_prepared_config. rewrite run_bind, run_of_result. destruct (map_err _ (resolve_rc_file _ _)) as [path|]; [|by intros [= <- <-]].
  case_bool_decide; [by intros [= <- <-]|]. rewrite run_bind. destruct (run (load path depth) l) as [loaded l1] eqn:Hload.
  assert (parse_state l1 = parse_state l) as H1.
  { revert Hload. unfold load. destruct (MAX_RC_INCLUDE_DEPTH <? depth)%nat; [by intros [= _ <-]|]. rewrite run_bind, run_gets. cbn [id].
    destruct (_ <=? _)%nat; [by intros [= _ <-]|]. destruct (_ <? _); [by intros [= _ <-]|]. rewrite run_bind, run_modify.
    rewrite run_bind, run_of_result. destruct (map_err _ (open_rc path)); [|by intros [= _ <-]].
    rewrite run_bind, run_of_result. destruct (check_descriptor _ _ _); [|by intros [= _ <-]].
    rewrite run_bind, run_of_result. destruct (read_bounded _ _ _ _); [|by intros [= _ <-]]. rewrite run_bind, run_modify.
    rewrite run_bind, run_of_result. by destruct (as_source _ _); intros [= _ <-]. }
  assert (loader_ok l1) as Hl1 by (unfold loader_ok, program_invariant; by rewrite H1). clear H1 Hload Hl.
  destruct loaded as [loaded|]; [|by intros [= <- <-]]. rewrite run_bind. unfold activate_runtime_limits at 1. rewrite run_bind, run_of_result.
  destruct (activate_limits _ _ _ _) as [limits|] eqn:Hlim; [|by intros [= <- <-]]. apply activate_limits_ok in Hlim; [|apply default_limits_ok].
  rewrite run_modify. set (l2 := with_parse_state _ l1). assert (loader_ok l2) as Hl2 by (destruct Hl1; by split).
  rewrite run_bind, run_gets. cbn [id]. rewrite run_bind, run_of_result.
  destruct (map_err _ (RcFile.parse_with_state _ _)) as [[c next]|] eqn:Hp; [|by intros [= <- <-]].
  assert (RcParser.parse_with_state (lf_source loaded) (parse_state l2) = Ok (c, next)) as Hparse
    by (revert Hp; cbn; by destruct (RcParser.parse_with_state _ _) as [[? ?]|]; cbn; intros [= <- <-]).
  apply parsed_well in Hparse as [Hnext Hc]; [|done].
  rewrite run_bind, run_of_result. destruct (map_err _ (set_source_file _ _)) as [c1|] eqn:Hset; [|by intros [= <- <-]].
  rewrite run_bind, run_modify. set (l3 := with_parse_state next l2). assert (loader_ok l3) as Hl3 by done.
  rewrite run_bind, run_of_result. destruct (map_err _ (validate_runtime_settings _)); [|by intros [= <- <-]].
  rewrite run_bind, run_of_result. destruct (map_err _ (prepare _ _ _)) as [c2|] eqn:Hprep; [|by intros [= <- <-]].
  rewrite run_ret. intros [= <- <-]. split; [done|]. intros ? [= <-]. cbn [lc_config].
  apply (well_parsed_outline (statements c)); [|done]. transitivity (outline <$> statements c1).
  - destruct preparation; cbn in Hprep.
    + destruct (Prepare.expand_with_runtime_values pid c1 (values runtime)) as [c3|] eqn:He; [|done]. injection Hprep as <-. by eapply runtime_values_outline.
    + destruct (Prepare.prepare_for_check pid c1 (values runtime)) as [c3|] eqn:He; [|done]. injection Hprep as <-. by eapply prepare_check_outline.
  - destruct (set_source_file c (lf_path loaded)) as [c3|] eqn:He; [|done]. injection Hset as <-. by eapply outline_set_source_file.
Qed.
Lemma program_bounded : bounded_loader FILE_LEVELS.
Proof.
  intros e runtime depth l r l' Hl Hr. destruct (load_program e runtime depth Prepare_Expand l r l' Hl Hr) as [? Hc].
  split; [done|]. intros c Hrc. by apply well_parsed_levels, Hc.
Qed.
Lemma program_sound : sound_loader.
Proof.
  intros e runtime depth l r l' Hl Hr. destruct (load_program e runtime depth Prepare_Expand l r l' Hl Hr) as [? Hc].
  split; [done|]. intros c Hrc. by apply well_parsed_sound, Hc.
Qed.

(** ** The root file *)

Lemma subtract_empty counts c : subtract_counts counts empty_counts = Ok c -> c = counts.
Proof.
  unfold subtract_counts. repeat match goal with |- context [if ?b then _ else _] => destruct b; [done|] end.
  intros [= <-]. destruct counts. cbn. by rewrite !Z.sub_0_r.
Qed.
Lemma empty_budget_fits : budget_ok empty_budget.
Proof. split; [apply default_limits_ok|done..]. Qed.
Lemma for_root_parse_state path l root : for_root path = Ok (l, root) -> parse_state l = empty_budget.
Proof.
  unfold for_root. intros H. apply result_bind_Ok in H as (file & _ & H). destruct (negb _); [done|].
  apply result_bind_Ok in H as (source & _ & H). apply result_bind_Ok in H as (text & _ & H). by injection H as <- <-.
Qed.
Lemma load_root_for explicit home path l root : load_root_config explicit home = Ok (path, l, root) -> for_root path = Ok (l, root).
Proof.
  unfold load_root_config. destruct explicit as [explicit|].
  - intros H. apply result_bind_Ok in H as ([l' root'] & Hr & H). injection H as -> -> ->.
    unfold configuration_error in Hr. destruct (for_root path) as [[? ?]|]; [|done]. by injection Hr as <- <-.
  - assert (forall candidates r, first_candidate candidates = Some r -> r = Ok (path, l, root) -> for_root path = Ok (l, root)) as H.
    { induction candidates as [|x rest IH]; cbn [first_candidate]; [done|]. intros r. destruct (for_root x) as [[? ?]|e] eqn:Hx.
      - intros [= <-] [= -> -> ->]. done.
      - destruct (not_found e); [apply IH|by intros [= <-]]. }
    destruct (first_candidate _) as [r|] eqn:Hr; [|done]. cbn [default]. intros Hd. by apply (H _ _ Hr).
Qed.

(** A configuration the program starts with is well parsed, and so is every file
    its loader gives. *)
Lemma root_configuration_well explicit home supplied arguments path l c :
  root_configuration pid explicit home supplied arguments = Ok (path, l, c) -> loader_ok l /\ well_parsed (statements c).
Proof.
  unfold root_configuration. intros H. apply result_bind_Ok in H as ([[path' l'] root] & Hroot & H). apply load_root_for in Hroot.
  apply result_bind_Ok in H as (parsed & Hp & H). apply result_bind_Ok in H as (expanded & He & H). injection H as -> <- ->.
  unfold configuration_error, parse_loaded in Hp.
  destruct (map_err _ (RcParser.parse _)) as [c0|] eqn:Hc0; [|done]. cbn [mbind result_bind] in Hp.
  assert (RcParser.parse (lf_source root) = Ok c0) as Hparse by (destruct (RcParser.parse _); [by injection Hc0 as <-|done]).
  assert (set_source_file c0 (lf_path root) = Ok parsed) as Hset by (destruct (set_source_file _ _); [by injection Hp as <-|done]).
  assert (Prepare.expand_with_arguments pid parsed supplied arguments = Ok c) as Hexp by (destruct (Prepare.expand_with_arguments _ _ _ _); [by injection He as <-|done]).
  unfold RcParser.parse in Hparse. apply result_fmap_Ok in Hparse as ([c1 s'] & Hps & Hparse). cbn in Hparse. subst c1.
  pose proof (parsed_well _ _ _ _ empty_budget_fits Hps) as [Hs' Hw]. split.
  - apply parse_with_state_Ok in Hps as (_ & _ & Hcounts). apply subtract_empty in Hcounts.
    change (budget_ok (reset_budget (parse_state l') (parse_counts c))). unfold reset_budget.
    assert (parse_counts c = parse_counts c0) as ->.
    { unfold set_source_file in Hset. apply result_bind_Ok in Hset as (source & _ & Hset). injection Hset as <-.
      unfold Prepare.expand_with_arguments in Hexp. apply result_bind_Ok in Hexp as ([variables initial] & _ & Hexp).
      destruct (expand_arguments _ _ _). unfold expand_config in Hexp. apply result_bind_Ok in Hexp as ([? ?] & _ & Hexp). by injection Hexp as <-. }
    destruct Hs' as [? ? ? ? ?]. rewrite Hcounts. split; try done. apply default_limits_ok.
  - apply (well_parsed_outline (statements c0)); [|done]. transitivity (outline <$> statements parsed).
    + by eapply expand_arguments_outline.
    + by eapply outline_set_source_file.
Qed.

(** ** Runs *)

Context {H D G : Type} {host_impl : OrderedExecutionHost H D G}.
#[local] Instance program_loader : RuntimeRcLoader RcFileLoader := rc_file_loader.
Abbreviation Files := (@RuntimeRcState R RcFileLoader) (only parsing).

(** The files of a run that has loaded none. *)
Lemma new_files_bounded l : loader_ok l -> bounded_files FILE_LEVELS (new_rc_state (Some l) : Files).
Proof. intros Hl. split; [by intros ? [= <-]|]. by intros key files path name sequence instance H'. Qed.
Lemma new_files_flagged l : loader_ok l -> flagged (new_rc_state (Some l) : Files).
Proof. intros Hl. split; [by intros ? [= <-]|]. by intros key files path name sequence instance H'. Qed.

(** C1: Execution follows the plan.  Start the program with a configuration that
    is found, parses and is prepared; take a host whose deliveries succeed and a
    message for which planning answers without having read a file that needs
    ordered delivery.  Executing the plan in order then succeeds; it makes the
    planned deliveries and no other, each in its turn, to the same destination,
    with the same bytes, ending, lock and mask; and it reports their number and
    whether the message was disposed of as the plan does. *)
Theorem execution_follows_plan (performed : H -> list Performed) (Hdelivers : delivers (D := D) performed)
    (Hfinish : forall h, exists h', run finish_background h = (Ok tt, h') /\ performed h' = performed h)
    (Hcomplete : forall bytes completion p, performed (complete (D := D) bytes completion p).2 = performed p.2)
    (explicit : option bytes) (home : bytes) (supplied : list SuppliedVariable) (arguments : PositionalArguments) (path : bytes) (l : RcFileLoader) (c : Config)
    (Hstart : root_configuration pid explicit home supplied arguments = Ok (path, l, c))
    (levels : nat) (branch_first : nat -> bool) (input : MappedMessageInput) (message : CompleteMessage) (limits : MessageLimits)
    (runtime : RuntimeVariables) (host : H)
    (Hmessage : complete_message input (plan_needs_full_matching (compile_plan c) (new_rc_state (Some l))) = Some message)
    (Hlimits : from_config c = Ok limits) (control : SequenceControl) (planned : CompleteState)
    (Hplan : run (plan_complete (D := D) levels message (root (compile_plan c)) root_context)
               {| cp_runtime := runtime; cp_execution := empty_fanout; cp_rc := new_rc_state (Some l) |} = (Ok control, planned))
    (Hunordered : plan_requires_ordered (compile_plan c) (cp_rc planned) = false) :
  exists s', plan_execute_ordered (D := D) branch_first levels (compile_plan c) input runtime host (new_rc_state (Some l)) =
    (Ok {| do_published := length (fp_deliveries (cp_execution planned)); do_original_delivered := fp_original_delivered (cp_execution planned) |}, Some s') /\
    performed (os_host s') = performed host ++ (perform message <$> fp_deliveries (cp_execution planned)).
Proof.
  destruct (root_configuration_well _ _ _ _ _ _ _ Hstart) as [Hl Hw].
  by apply (execution_agrees performed Hdelivers Hfinish Hcomplete program_sound (compile_plan c) (well_parsed_sound _ _ _ Hw) levels branch_first input message
    limits runtime host (new_rc_state (Some l)) (new_files_flagged l Hl) Hmessage Hlimits control planned).
Qed.

(** Execution ends.  Whatever plan is executed, with a loader that counts
    within the ceilings: a number of levels that depends on the plan alone is
    enough, whatever the message, the variables, the files, the answers of the host
    and the order of the branches. *)
Theorem execution_terminates (p : ExecutionPlan) (l : RcFileLoader) (Hl : budget_ok (parse_state l))
    (branch_first : nat -> bool) (input : MappedMessageInput) (runtime : RuntimeVariables) (host : H) :
  (plan_execute_ordered (D := D) branch_first (levels_for FILE_LEVELS (root p) MAX_RC_TRANSITIONS) p input runtime host (new_rc_state (Some l))).1
    <> Err OutOfFuel.
Proof. apply execution_ends; [apply program_bounded|by apply new_files_bounded]. Qed.

(** Planning ends.  So does planning with the complete message, planning with
    the header and going on from it. *)
Theorem planning_terminates {K : Type} (capture : option (CaptureExecutor (D := D) (K := K))) (p : ExecutionPlan) (l : RcFileLoader)
    (Hl : budget_ok (parse_state l)) :
  let levels := levels_for FILE_LEVELS (root p) MAX_RC_TRANSITIONS in
  (forall m runtime, exists r c, run (plan_complete (D := D) levels m (root p) root_context)
     {| cp_runtime := runtime; cp_execution := empty_fanout; cp_rc := new_rc_state (Some l) |} = (r, c) /\ r <> Err OutOfFuel) /\
  (forall head runtime k, (evaluate_headers capture levels p head runtime (new_rc_state (Some l)) k).1 <> Err OutOfFuel).
Proof. apply (planning_ends FILE_LEVELS program_bounded capture p). by apply new_files_bounded. Qed.
End instances.

(** * A sample *)

(** A copy, a block that matches and delivers, and a recipe that is not reached. *)
Definition sample_root : bytes := rc_text
  [B ":0 c"; B "/mail/copy/"; B ":0"; B "{"; B " :0"; B " /mail/in/"; B "}"; B ":0"; B "/mail/rest/"].
Definition sample_files : RcFiles := {|
  os_open_root path := if bytes_eqb path (B "/home/me/.procmailrc") then Ok {| of_regular := true; of_uid := 1000; of_mode := 384; of_read := Ok sample_root |}
                       else Err {| os_message := []; os_not_found := true |};
  os_open_rc _ := Err {| os_message := []; os_not_found := true |} |}.
Definition sample_start : result OperationalError (bytes * RcFileLoader * Config) :=
  root_configuration (R := plain_engine) (RC := plain_compiler) (F := program_source (R := plain_engine) (RC := plain_compiler) (O := sample_files) (B "7"))
    (B "7") None (B "/home/me") [] no_arguments.
Definition sample_config : Config := 
  match sample_start with
  | Ok (_, _, c) => c
  | Err _ => {| statements := []; cfg_source_location := unknown_location 0; initial_variables := []; parse_counts := empty_counts; initial_linebuf := 0 |}
  end.
Definition sample_loader : RcFileLoader := 
  match sample_start with Ok (_, l, _) => l | Err _ => {| trusted_uid := 0; files_read := 0; bytes_read := 0; parse_state := empty_budget |} end.
Definition sample_source : RcSource (R := plain_engine) := program_source (R := plain_engine) (RC := plain_compiler) (O := sample_files) (B "7").
Definition sample_expander : ConditionExpander (R := plain_engine) := program_expander (R := plain_engine) (RC := plain_compiler).
Definition sample_rc_loader : RuntimeRcLoader (R := plain_engine) RcFileLoader := rc_file_loader (F := sample_source).
Definition sample_input : MappedMessageInput := {| mi_raw := B "text"; mi_header_len := 0; mi_matching := None |}.

Lemma sample_delivers : delivers (D := ()) (host_impl := sample_host) sh_performed.
Proof. intros d message ending lock runtime h mask Hmask. eexists. cbn. rewrite Hmask. by split. Qed.
Lemma sample_loader_fits : budget_ok (parse_state sample_loader).
Proof. split; [split; [intros [] |]|..]; vm_compute; try (by split); discriminate. Qed.

Lemma execution_follows_plan_witness :
  exists s', plan_execute_ordered (X := sample_expander) (loader_impl := sample_rc_loader) (host_impl := sample_host) (fun _ => true) 3 (compile_plan sample_config)
    sample_input (default_runtime (B "7")) {| sh_held := 0; sh_performed := [] |} (new_rc_state (Some sample_loader)) =
    (Ok {| do_published := 2; do_original_delivered := true |}, Some s') /\ length (sh_performed (os_host s')) = 2%nat.
Proof.
  set (planned := (run (plan_complete (X := sample_expander) (D := ()) (loader_impl := sample_rc_loader) 3 (Mapped (B "text") 0 None None)
      (root (compile_plan sample_config)) root_context)
    {| cp_runtime := default_runtime (B "7"); cp_execution := empty_fanout; cp_rc := new_rc_state (Some sample_loader) |}).2).
  destruct (execution_follows_plan (RC := plain_compiler) (B "7") (O := sample_files) (host_impl := sample_host) sh_performed sample_delivers
    ltac:(by intros h; exists h) ltac:(done) None (B "/home/me") [] no_arguments (B "/home/me/.procmailrc") sample_loader sample_config
    ltac:(vm_compute; reflexivity) 3 (fun _ => true) sample_input (Mapped (B "text") 0 None None) default_limits (default_runtime (B "7"))
    {| sh_held := 0; sh_performed := [] |} ltac:(vm_compute; reflexivity) ltac:(vm_compute; reflexivity) SC_Stop planned
    ltac:(vm_compute; reflexivity) ltac:(vm_compute; reflexivity)) as (s' & H1 & H2).
  exists s'. split; [exact H1|]. rewrite H2. vm_compute. reflexivity.
Defined.

Lemma execution_terminates_witness :
  (plan_execute_ordered (X := sample_expander) (loader_impl := sample_rc_loader) (host_impl := sample_host) (D := ()) (fun _ => false)
     (levels_for FILE_LEVELS (root (compile_plan sample_config)) MAX_RC_TRANSITIONS) (compile_plan sample_config)
     sample_input (default_runtime (B "7")) {| sh_held := 0; sh_performed := [] |} (new_rc_state (Some sample_loader))).1 <> Err OutOfFuel.
Proof.
  exact (execution_terminates (RC := plain_compiler) (B "7") (O := sample_files) (host_impl := sample_host) (compile_plan sample_config) sample_loader
    sample_loader_fits (fun _ => false) sample_input (default_runtime (B "7")) {| sh_held := 0; sh_performed := [] |}).
Defined.

Lemma planning_terminates_witness :
  exists r c, run (plan_complete (X := sample_expander) (D := Empty_set) (loader_impl := sample_rc_loader)
      (levels_for FILE_LEVELS (root (compile_plan sample_config)) MAX_RC_TRANSITIONS) (Mapped [] 0 None None) (root (compile_plan sample_config)) root_context)
    {| cp_runtime := default_runtime (B "7"); cp_execution := empty_fanout; cp_rc := new_rc_state (Some sample_loader) |} = (r, c) /\ r <> Err OutOfFuel.
Proof.
  exact (proj1 (planning_terminates (RC := plain_compiler) (B "7") (O := sample_files) (D := Empty_set) (K := unit) None
    (compile_plan sample_config) sample_loader sample_loader_fits) (Mapped [] 0 None None) (default_runtime (B "7"))).
Defined.
