(* ===== verification/Session.v ===== *)
(** A run of the program, from its arguments to its status: [run] and [main] of
    [src/src/bin/procmail-rs.rs].  The configuration is read and checked before a
    byte of the message is; a check ends there, a run that filters evaluates the
    header, delivers, and then lets EXITCODE and a signal have their say. *)
From stdpp Require Import gmap.
From S2P Require Import Prelude Effects Numbers Calendar Config Limits Utf8 Variables Runtime Settings Message EvalMessage ShellPattern ShellEval ExprParser Expand Binding Syntax RegexSyntax RcParser Prepare Conditions Plan RcFile RuntimeRc HeaderPlan HeaderPlanFuel Ordered.
From S2P Require Import Delivery Trace Identity Explanation Startup Files LocalLock Mbox Maildir Staging Streaming Environment ExternalProcess CommandRunner DeliveryRuntime DeliveryHost Program.
#[local] Open Scope Z_scope.

(** * Texts *)

Definition lines_of (l : list Strings.String.string) : bytes := l ≫= fun line => B line ++ [c_LF].
(** Source: bin/procmail-rs.rs `const HELP` *)
Definition HELP : bytes := lines_of [
  "procmail-rs - bounded procmail-compatible mail filtering"; "";
  "Usage: procmail-rs check [OPTION]...";
  "  or:  procmail-rs filter [OPTION]...";
  "  or:  procmail-rs --help";
  "  or:  procmail-rs --version"; "";
  "Commands:";
  "  check    validate the statically reachable configuration without reading stdin";
  "  filter   read one message from stdin and deliver it to explicit destinations"; "";
  "Options:";
  "  --explain         print the value-free static plan for check";
  "  --dry-run         evaluate filter without publishing delivery destinations";
  "  --format FORMAT   output format: text (default) or json";
  "  --detail DETAIL   override LOGDETAIL: metadata or values";
  "  --config PATH     override the automatically selected root rc file";
  "  --set NAME=VALUE  provide one policy-checked external value (maximum 256)";
  "  -a, --argument VALUE";
  "                    set the next positional parameter ($1, $2, and so on)";
  "  -h, --help        print this help text";
  "  -V, --version     print the program version"]%string.
(** Source: trace/config.rs `impl fmt::Display for TraceConfigError` *)
Definition trace_config_error_text (e : TraceConfigError) : bytes :=
  line_prefix (tce_line e) ++ B "invalid " ++ tce_name e ++ B ": " ++ tce_reason e.
Definition configuration_error_text (e : ConfigurationError) : bytes :=
  match e with CE_Limits e => limit_config_error_text e | CE_Text message => message | CE_Trace e => trace_config_error_text e end.
Definition trace_stop_text (r : TraceStopReason) (debug : ErrorKind -> bytes) : bytes :=
  match r with
  | TS_EventSizeLimit => B "EventSizeLimit" | TS_EventLimit => B "EventLimit" | TS_ByteLimit => B "ByteLimit" | TS_Io kind => B "Io(" ++ debug kind ++ B ")"
  end.

(** * What a run asks of the system *)

(** The output of a trace: the standard error, or the file LOGFILE names. *)
Inductive TraceOutput (Fd : Type) := TO_Stderr | TO_Logfile (file : Fd).
Arguments TO_Stderr {Fd}.
Arguments TO_Logfile {Fd} file.
(** The world has a slot for the trace of the run, which is [None] where it is
    disabled.  The reads of the standard input are those of an
    [InterruptibleReader]: one that a signal interrupts is an error. *)
Class SessionWorld (W Fd : Type) := {
  sw_trace : W -> option (@BoundedTraceWriter (TraceOutput Fd));
  sw_set_trace : option (@BoundedTraceWriter (TraceOutput Fd)) -> W -> W;
  sw_stdin : W -> Reader IoError;
  sw_install_handlers : M W IoError ();
  sw_getpwuid : W -> Z -> Z -> PasswdAnswer;
  sw_nodename : W -> bytes;
  sw_kind_debug : ErrorKind -> bytes;
}.

Section session.
Context {T : Target} {P : Platform} {W Fd Child PF : Type} {OS : Os W Fd} {N : NameCounter W} {MB : MaildirBackend W Fd PF}.
Context {PR : Processes W Fd Child} {TM : Terminal W} {BG : CommandBudget W} {SW : SessionWorld W Fd}.
Context {R : RegexEngine} {RC : RegexCompiler} {O : RcFiles}.
(** The number of the error ERANGE, the version of the program, the text of the
    process number, the waits that are followed, and the branches that go first. *)
Context (errno_RANGE : Z) (version pid : bytes) (patience : Patience) (branch_first : nat -> bool).
#[local] Instance session_source : RcSource := program_source pid.
#[local] Instance session_expander : ConditionExpander := program_expander.
#[local] Instance session_loader : RuntimeRcLoader RcFileLoader := program_loader pid.
Abbreviation Files := (@RuntimeRcState R RcFileLoader) (only parsing).

(** ** The trace of a run *)

(** The writer with another output. *)
Definition tw_over {A C} (c : C) (t : @BoundedTraceWriter A) : @BoundedTraceWriter C := {|
  tw_writer := c; tw_events := tw_events t; tw_bytes := tw_bytes t; tw_stopped := tw_stopped t; tw_detail := tw_detail t; tw_format := tw_format t;
  tw_verbose := tw_verbose t; tw_abstract := tw_abstract t; tw_last := tw_last t |}.
Definition trace_output_write (text : bytes) (o : TraceOutput Fd * W) : option ErrorKind * (TraceOutput Fd * W) :=
  let '(r, w) := run (match o.1 with TO_Stderr => put_all stderr_write text | TO_Logfile file => fd_write_all file text end) o.2 in
  (match r with Ok _ => None | Err e => Some (ie_kind e) end, (o.1, w)).
(** A method of the trace: a disabled one does nothing.
    Source: bin/procmail-rs.rs `impl FilterTrace` *)
Definition on_filter_trace (f : @BoundedTraceWriter (TraceOutput Fd * W) -> @BoundedTraceWriter (TraceOutput Fd * W)) (w : W) : W :=
  match sw_trace w with
  | None => w
  | Some t => let t := f (tw_over (tw_writer t, w) t) in sw_set_trace (Some (tw_over (tw_writer t).1 t)) (tw_writer t).2
  end.
(** Source: bin/procmail-rs.rs `impl TraceSink for FilterTrace` *)
#[export] Instance filter_trace : TraceSink W := {|
  trace_detail := fun w => match sw_trace w with Some t => tw_detail t | None => Metadata end;
  trace_record := fun r => on_filter_trace (Trace.trace_record trace_output_write r);
|}.
Definition stderr_line (text : bytes) (w : W) : W := (run (put_all stderr_write (B "procmail-rs: " ++ text ++ [c_LF])) w).2.
(** Opening adds [CLOEXEC]; the creation mode of the file is not masked here.
    Source: bin/procmail-rs.rs `fn create_filter_trace` *)
Definition create_filter_trace (dry_run : bool) (format : TraceFormat) (detail : TraceDetail) (config : TraceConfig) (w : W) : W :=
  let enabled output verbose := sw_set_trace (Some (runtime_formatted output detail format verbose LA_No)) in
  if negb dry_run && negb (trace_enabled config) then sw_set_trace None w
  else if dry_run || bool_decide (tc_logfile config = None) then enabled TO_Stderr (dry_run || tc_verbose config) w
  else
    let '(opened, w) := run (
      file ← sys (os_openat CWD (default [] (tc_logfile config)) [WRONLY; CREATE; APPEND; CLOEXEC; NOFOLLOW] 384);
      metadata ← sys (os_fstat file);
      if bool_decide (file_type (st_mode metadata) = RegularFile) then mret file
      else refuse EK_InvalidInput (B "LOGFILE is not a regular file")) w in
    match opened with
    | Ok file => enabled (TO_Logfile file) (tc_verbose config) w
    | Err e => sw_set_trace None (stderr_line (B "cannot open LOGFILE for trace: " ++ ie_text e) w)
    end.
(** Source: trace.rs `pub fn record_session_start` *)
Definition record_session_start (w : W) : W :=
  let '(now, w) := os_system_time w in
  let seconds := if now <? 0 then None else Some (now / 1000000000) in
  trace_record (of_event (TE_SessionStarted (os_pid w) (format_session_timestamp seconds))) w.

(** ** Messages to the user *)

(** Source: delivery_runtime.rs `impl std::fmt::Display for OperationalError` *)
Definition operational_error_text (e : OperationalError) : bytes :=
  match e with
  | OE_Delivery _ message | OE_Configuration message | OE_Input message | OE_TemporaryDelivery message | OE_PermanentDestination message
  | OE_Undelivered message | OE_Internal message => message
  | OE_Signaled signal => B "interrupted by " ++ signal_name signal
  end.
Abbreviation Running := (M W Ended) (only parsing).
Definition saying (text : bytes) : Running () := modify (stderr_line text).
Fixpoint say_all (lines : list bytes) : Running () :=
  match lines with [] => mret tt | line :: rest => _ ← saying line; say_all rest end.
Definition operational {A} (r : result OperationalError A) : Running A := of_result (map_err failing r).
(** Source: bin/procmail-rs.rs `fn print_stdout` *)
Definition print_stdout (what text : bytes) : Running () :=
  with_error (fun e => failing (OE_Internal (B "cannot write " ++ what ++ B ": " ++ ie_text e))) (put_all stdout_write text).

(** ** Before a message is read *)

(** What a run works with. *)
Record Prepared := {
  pp_path : bytes; pp_loader : RcFileLoader; pp_config : Config; pp_staging : option bytes; pp_settings : ConfigurationSettings;
  pp_identity : UserIdentity; pp_hostname : bytes;
}.
(** Source: bin/procmail-rs.rs:147-153 `run (identity and hostname)` *)
Definition run_identity : Running (UserIdentity * bytes) :=
  w ← gets id;
  identity ← match current_identity errno_RANGE (os_getuid w) (sw_getpwuid w) with
             | None => stop_with OutOfFuel
             | Some r => operational (map_err (fun e => OE_Configuration (B "cannot determine current user identity: " ++ e)) r)
             end;
  hostname ← operational (map_err (fun e => OE_Configuration (B "cannot determine current hostname: " ++ e)) (current_hostname (sw_nodename w)));
  mret (identity, hostname).
(** Source: bin/procmail-rs.rs:147-193 `run (before the action)` *)
Definition prepare_run (command : Command) : Running Prepared :=
  '(identity, hostname) ← run_identity;
  supplied ← operational (supplied_variables (id_home identity) (id_logname identity) hostname version (cl_supplied command));
  '(path, loader, config) ← operational (root_configuration pid (cl_config command) (id_home identity) supplied (cl_arguments command));
  staging ← operational (check_staging path config);
  settings ← operational (map_err (fun e => OE_Configuration (path ++ B ":" ++ configuration_error_text e)) (validate_configuration config));
  _ ← say_all ((fun warning => B "warning: " ++ path ++ B ":" ++ decimal warning.1 ++ B ": recipe flag '" ++ [warning.2] ++ B "' has no effect on a block") <$>
        config_warnings config);
  mret {| pp_path := path; pp_loader := loader; pp_config := config; pp_staging := staging; pp_settings := settings;
          pp_identity := identity; pp_hostname := hostname |}.

(** A check reads no message and runs no command.
    Source: bin/procmail-rs.rs:198-222 `run (check)` *)
Definition run_check (command : Command) (p : Prepared) : Running () :=
  warnings ← of_result (map_err (fun e : stop RcFileError Empty_set => match e with
      | Evaluation e => failing (OE_Configuration (rc_file_error_text e))
      | Effects.Delivery e => match e with end
      | OutOfFuel => OutOfFuel
      end) (run (check_resolvable_files pid (pp_config p)) (pp_loader p)).1);
  _ ← say_all ((fun warning => B "warning: " ++ warning) <$> warnings);
  let plan := compile_plan (pp_config p) in
  _ ← (if plan_has_external plan then saying (B "warning: configuration contains external shell actions; no command was executed") else mret tt);
  if cl_explain command
  then print_stdout (B "plan explanation") (plan_explanation (cl_trace_format command) (explain plan (new_rc_state (L := RcFileLoader) None)))
  else mret tt.

(** ** The filter *)

(** The executor of the captures that the header is planned with; the trace is in
    the world. *)
Definition header_capture : @CaptureExecutor HostError (CommandRunner Fd Child * W) :=
  fun command input ending options limit => runner_capture patience command (one_part input) ending options limit.
(** A run that filters carries the files it has loaded, the variables and the world. *)
Abbreviation Filtering := (M (Files * (RuntimeVariables * W)) Ended) (only parsing).
Definition filtering {A} (m : Running A) : Filtering A := Effects.on (fun s => s.2.2) (fun w s => (s.1, (s.2.1, w))) m.
(** The header is evaluated, then the message is delivered; the runner of the header
    and the delivery end with the result.
    Source: bin/procmail-rs.rs:287-329 `run (header_evaluation, delivery_result)` *)
Definition evaluate_and_deliver (dr : DeliveryRuntime Fd) (plan : ExecutionPlan) (levels : nat) (head : MessageHead) (reader : Reader IoError) : Filtering () :=
  Comp (fun s =>
    let '(files, (runtime, w)) := s in
    let '(evaluated, h) := evaluate_headers (Some header_capture) levels plan head runtime files (new_runner (dr_limits dr), w) in
    let s := (hp_rc h, (hp_runtime h, (hp_capture h).2)) in
    match evaluated with
    | Err (Evaluation e) => (Err (failing (evaluation_failed e)), s)
    | Err (Effects.Delivery e) => (Err (Effects.Delivery e), s)
    | Err OutOfFuel => (Err OutOfFuel, s)
    | Ok (HE_Decided delivery) => let '(r, (_, s2)) := run (deliver_decided (hp_head h) reader delivery) (dr, s.2) in (r, (s.1, s2))
    | Ok (HE_NeedsMessage continuation) =>
        let '(r, (delivered, s2)) := run (deliver_staged patience branch_first levels (hp_head h) reader plan continuation) ((dr, s.1), s.2) in
        (r, (delivered.2, s2))
    end).
(** [trace.finish()], and what is said about a trace that was stopped.
    Source: bin/procmail-rs.rs:330-333 `run (the end of the trace)` *)
Definition finish_trace (w : W) : W :=
  let w := on_filter_trace (trace_finish trace_output_write) w in
  match sw_trace w ≫= tw_stopped with
  | Some reason => stderr_line (B "warning: trace stopped: " ++ trace_stop_text reason sw_kind_debug) w
  | None => w
  end.
(** A panic goes past everything that looks at results. *)
Definition unwinding {A} (r : result Ended A) : bool := match r with Err (Effects.Delivery HE_Panic) => true | _ => false end.
(** The attempt: the message is read, evaluated and delivered; a valid EXITCODE
    replaces what the delivery says.
    Source: bin/procmail-rs.rs:254-345 `run (the attempt)` *)
Definition filter_attempt (command : Command) (p : Prepared) (plan : ExecutionPlan) (levels : nat) : Filtering (option Z) :=
  let limits := cs_message_limits (pp_settings p) in
  _ ← (if valid_utf8 (pp_path p) then mret tt else filtering (operational (Err (OE_Configuration (B "root rc path cannot be represented as UTF-8")))));
  _ ← modify (fun s => (s.1, (set_current_rc_file s.2.1 (pp_path p), s.2.2)));
  let dr := new_delivery_runtime (pp_staging p) (cs_durability (pp_settings p)) limits (id_uid (pp_identity p)) (cl_dry_run command) in
  let detail := default (tc_detail (cs_trace (pp_settings p))) (cl_trace_detail command) in
  _ ← filtering (modify (create_filter_trace (cl_dry_run command) (cl_trace_format command) detail (cs_trace (pp_settings p))));
  _ ← filtering (modify record_session_start);
  stdin ← filtering (gets sw_stdin);
  '(head, stdin) ← filtering (operational (map_err (fun e => OE_Input (B "cannot read message headers from stdin: " ++ message_read_error_text e))
                     (read_headers stdin limits)));
  delivered ← outcome_of (evaluate_and_deliver dr plan levels head stdin);
  _ ← (if unwinding delivered then of_result delivered else mret tt);
  _ ← filtering (modify finish_trace);
  runtime ← gets (fun s => s.2.1);
  requested ← filtering (operational (parse_requested_exit_code runtime));
  match requested with Some status => mret (Some status) | None => _ ← of_result delivered; mret None end.
(** A signal decides over the result of the attempt, whatever it was; then the
    diagnostics of the files that were loaded are said.
    Source: bin/procmail-rs.rs:224-363 `run (filter)` *)
Definition run_filter (command : Command) (p : Prepared) : Running Z :=
  let plan := compile_plan (pp_config p) in
  let files := new_rc_state (Some (pp_loader p)) in
  if needs_end_of_message (plan_requirements plan files) && bool_decide (pp_staging p = None) then
    operational (Err (OE_Configuration (pp_path p ++ B ": MAILDIR is required when a recipe needs the body or final message size")))
  else
    _ ← with_error (fun e => failing (OE_Internal (B "cannot install signal handlers: " ++ ie_text e))) sw_install_handlers;
    '(result, files) ← Comp (fun w =>
      let levels := levels_for FILE_LEVELS (root plan) MAX_RC_TRANSITIONS in
      let runtime := set_system_hostname (default_runtime pid) (pp_hostname p) in
      let '(r, (files, (_, w))) := run (filter_attempt command p plan levels) (files, (runtime, w)) in
      (if unwinding r then Err (Effects.Delivery HE_Panic) else
       Ok (match received w with Some signal => Err (failing (OE_Signaled signal)) | None => r end, files), w));
    _ ← say_all (take_diagnostics files).1;
    requested ← of_result result;
    mret (default (status_code ES_Success) requested).

(** ** The program *)

(** Source: bin/procmail-rs.rs `fn run()` *)
Definition run_session (args : list bytes) : Running Z :=
  invocation ← operational (map_err OE_Configuration (parse_args args));
  match invocation with
  | IV_Help => _ ← print_stdout (B "stdout") HELP; mret (status_code ES_Success)
  | IV_Version => _ ← print_stdout (B "stdout") (B "procmail-rs " ++ version ++ [c_LF]); mret (status_code ES_Success)
  | IV_Run command =>
      prepared ← prepare_run command;
      match cl_action command with
      | A_Check => _ ← run_check command prepared; mret (status_code ES_Success)
      | A_Filter => run_filter command prepared
      end
  end.
(** The status of the process; that of a panic is 101, and what it prints is not
    modelled.
    Source: bin/procmail-rs.rs `fn main` *)
Definition main_program (args : list bytes) (w : W) : option Z * W :=
  match run (run_session args) w with
  | (Ok status, w) => (Some status, w)
  | (Err (Effects.Delivery (HE_Error e)), w) => (Some (exit_code e), stderr_line (operational_error_text e) w)
  | (Err (Effects.Delivery HE_Panic), w) => (Some 101, w)
  | (Err (Evaluation e), w) => match e with end
  | (Err OutOfFuel, w) => (None, w)
  end.
End session.
