(* ===== verification/SessionFacts.v ===== *)
(** What a run of the program comes to: it ends, with a status. *)
From Stdlib Require Import FunctionalExtensionality.
From stdpp Require Import gmap.
From S2P Require Import Prelude Effects Numbers Calendar Config Limits Utf8 Variables Runtime Settings Message EvalMessage ShellPattern ShellEval ExprParser Expand Binding Syntax RegexSyntax RcParser RcParserFacts Prepare Conditions Plan RcFile RcFileFacts RuntimeRc RuntimeRcFacts HeaderPlan HeaderPlanFuel Ordered OrderedFacts OrderedFuel.
From S2P Require Import Delivery Trace Identity Explanation Startup Files LocalLock Mbox Maildir Staging Streaming Environment ExternalProcess ExternalProcessFacts CommandRunner DeliveryRuntime DeliveryHost Program Session.
#[local] Open Scope Z_scope.

(** * Computations that end *)

(** Where the computation ends, there is a value as [Q] says, or an error that is
    not the model's own. *)
Definition ends {St V D A} (Q : A -> Prop) (m : M St (stop V D) A) : Prop :=
  forall s, match (run m s).1 with Ok a => Q a | Err e => e <> OutOfFuel end.
Lemma ends_bind {St V D A C} (Q : A -> Prop) (Q' : C -> Prop) (m : M St (stop V D) A) f :
  ends Q m -> (forall a, Q a -> ends Q' (f a)) -> ends Q' (m ≫= f).
Proof. intros Hm Hf s. rewrite run_bind. specialize (Hm s). destruct (run m s) as [[a|e] s1]; cbn in *; [by apply Hf|done]. Qed.
Lemma ends_ret {St V D A} (Q : A -> Prop) a : Q a -> ends Q (mret a : M St (stop V D) A).
Proof. by intros H s. Qed.
Lemma ends_modify {St V D} (f : St -> St) : ends (fun _ => True) (modify f : M St (stop V D) ()).
Proof. by intros s. Qed.
Lemma ends_operational {W A} (Q : A -> Prop) (r : result OperationalError A) : (forall a, r = Ok a -> Q a) -> ends Q (operational (W := W) r).
Proof. intros H s. destruct r; [by apply H|done]. Qed.

Lemma failing_ends {A} (r : result OperationalError A) : map_err failing r <> Err OutOfFuel.
Proof. by destruct r. Qed.

Section delivered.
Context {T : Target} {P : Platform} {W Fd Child PF : Type} {OS : Os W Fd} {N : NameCounter W} {MB : MaildirBackend W Fd PF} {TS : TraceSink W}.
Context {PR : Processes W Fd Child} {TM : Terminal W} {BG : CommandBudget W}.
Context {R : RegexEngine} {X : ConditionExpander} {L : Type} {loader_impl : RuntimeRcLoader L} {invariant : LoaderInvariant L}.
Context (patience : Patience) (branch_first : nat -> bool) (bound : nat) (Hbound : bounded_loader bound).
Abbreviation Files := (@RuntimeRcState R L) (only parsing).

(** What a delivery asks of the system has no fuel. *)
Lemma in_delivery_ends {D A} (m : M (RuntimeVariables * W) OperationalError A) : no_fuel_needed (in_delivery (D := D) m).
Proof. intros s. unfold in_delivery, delivering. rewrite run_with_error. apply failing_ends. Qed.
Lemma dropping_no_fuel {St A} drop (m : M St Ended A) : no_fuel_needed m -> no_fuel_needed (dropping_on_error drop m).
Proof. intros Hm s. specialize (Hm s). cbn [dropping_on_error run]. by destruct (run m s) as [[a|e] s1]. Qed.
Lemma record_and_finish_ends published original : no_fuel_needed (record_and_finish (W := W) (Fd := Fd) published original).
Proof. intros s. cbn. destruct (record_published _ _ _) as [t|]; [|discriminate]. destruct (finish_publications t) as [r t']. apply failing_ends. Qed.
Lemma deliver_decided_ends head reader plan : no_fuel_needed (deliver_decided (Fd := Fd) head reader plan).
Proof.
  unfold deliver_decided. apply no_fuel_bind; [apply in_delivery_ends|]. intros _. apply no_fuel_bind; [by intros s|]. intros s.
  destruct (dr_dry_run _).
  - apply no_fuel_bind; [intros s1; rewrite run_of_result; by destruct (stream_to _ _ _)|]. intros _. apply in_delivery_ends.
  - do 3 (apply no_fuel_bind; [apply in_delivery_ends|intros ?]). apply no_fuel_bind; [apply dropping_no_fuel, in_delivery_ends|]. intros _.
    apply no_fuel_bind; [apply in_delivery_ends|]. intros published. apply record_and_finish_ends.
Qed.

(** A staged delivery keeps the files it has loaded. *)
Definition fit_files (s : DeliveryRuntime Fd * Files * (RuntimeVariables * W)) : Prop := bounded_files bound s.1.2.
Abbreviation Staged A := (M (DeliveryRuntime Fd * Files * (RuntimeVariables * W)) Ended A) (only parsing).
Lemma in_delivery_fine {A} s (m : M (RuntimeVariables * W) OperationalError A) : fit_files s -> fine_at fit_files s (in_delivery m).
Proof.
  intros Hs. split; [apply in_delivery_ends|]. unfold in_delivery, delivering. rewrite run_with_error. cbn. by destruct (run m s.2).
Qed.
Lemma dropping_fine {A} s drop (m : Staged A) : fine_at fit_files s m -> fine_at fit_files s (dropping_on_error (drop_world drop) m).
Proof. intros [Hm Hs]. unfold fine_at. cbn [dropping_on_error run]. by destruct (run m s) as [[a|e] s1]. Qed.
Lemma staged_fine s published original : fit_files s -> fine_at fit_files s (staged (record_and_finish published original)).
Proof. intros Hs. apply (fine_on fit_files); [apply record_and_finish_ends|done]. Qed.

Context (execution : ExecutionPlan).
#[local] Abbreviation levels := (levels_for bound (root execution) MAX_RC_TRANSITIONS).
#[local] Abbreviation anywhere := (fun _ : DeliveryRuntime Fd * Files * (RuntimeVariables * W) => True).
Lemma lasts_bind {St V D A C} s (m : M St (stop V D) A) (f : A -> M St (stop V D) C) :
  (run m s).1 <> Err OutOfFuel -> (forall a s', run m s = (Ok a, s') -> (run (f a) s').1 <> Err OutOfFuel) -> (run (m ≫= f) s).1 <> Err OutOfFuel.
Proof. intros Hm Hf. rewrite run_bind. destruct (run m s) as [[a|e] s1]; cbn in *; [by apply Hf|by intros [= ->]]. Qed.
Lemma fine_then {A C} s (m : Staged A) (f : A -> Staged C) :
  fine_at fit_files s m -> (forall a s', fit_files s' -> (run (f a) s').1 <> Err OutOfFuel) -> (run (m ≫= f) s).1 <> Err OutOfFuel.
Proof. intros [Hm Hs] Hf. apply lasts_bind; [done|]. intros a s' E. rewrite E in Hs. by apply Hf. Qed.
Lemma deliver_ordered_ends input s : fit_files s -> (run (deliver_ordered_plan patience branch_first levels execution input) s).1 <> Err OutOfFuel.
Proof.
  intros Hs. unfold deliver_ordered_plan. apply fine_then; [by apply in_delivery_fine|]. intros _ s1 Hs1. apply lasts_bind.
  - cbn [run]. match goal with |- context [plan_execute_ordered _ _ _ _ _ ?h _] => pose proof (execution_ends (host_impl := ordered_delivery_host patience) bound Hbound execution s1.1.2 Hs1 branch_first input s1.2.1 h) as H end.
    destruct (plan_execute_ordered _ _ _ _ _ _ _) as [r ended]; cbn [fst] in H. destruct (match ended with Some _ => _ | None => _ end) as [variables host].
    destruct (dh_panicked host), r as [outcome|[e|e|]]; cbn [fst]; (discriminate || done).
  - intros outcome s2 _. apply lasts_bind; [apply in_delivery_ends|]. intros _ s3 _. unfold staged, Effects.on. cbn [run].
    pose proof (record_and_finish_ends (do_published outcome) (do_original_delivered outcome) (s3.1.1, s3.2)) as H.
    by destruct (run (record_and_finish _ _) _).
Qed.

Lemma resume_run_ends continuation input rc : bounded_files bound rc -> (resume_run levels execution continuation input rc).1 <> Err OutOfFuel.
Proof.
  intros Hf. assert (forall rc', bounded_files bound rc' -> rc_budget bound MAX_RC_TRANSITIONS rc') as Hb by (intros; split; [done|lia]).
  unfold resume_run. destruct (complete_message _ _) as [message|]; [|done]. destruct (_ && _); [done|].
  match goal with |- context [if ct_restart _ then run ?a ?x else run ?b ?y] => set (restarted := a); set (start := x); set (resumed := b); set (rest := y) end.
  assert ((if ct_restart continuation then run restarted start else run resumed rest).1 <> Err OutOfFuel) as H.
  { destruct (ct_restart continuation).
    - apply (plan_complete_fine bound Hbound levels message (root execution) root_context MAX_RC_TRANSITIONS start); [done|]. apply Hb. exact Hf.
    - apply (resume_fine bound Hbound levels message (ct_frames continuation) (root execution) root_context MAX_RC_TRANSITIONS rest); [done|]. apply Hb. exact Hf. }
  destruct (if ct_restart continuation then _ else _) as [[control|e] state]; cbn in H |- *; [done|by intros [= ->]].
Qed.

Lemma deliver_resumed_ends continuation early validated message input s :
  fit_files s -> (run (deliver_resumed_plan levels execution continuation early validated message input) s).1 <> Err OutOfFuel.
Proof.
  intros Hs. unfold deliver_resumed_plan. apply lasts_bind.
  - cbn [dropping_on_error run]. match goal with |- context [run ?m s] => set (first := m) end.
    assert ((run first s).1 <> Err OutOfFuel) as H; [|by destruct (run first s) as [[late|e] s1]].
    subst first. apply lasts_bind; [done|]. intros s1 s2 [= <- <-]. pose proof (resume_run_ends continuation input s.1.2 Hs) as H.
    cbn [id]. destruct (resume_run levels execution continuation input s.1.2) as [planned remaining]. cbn [fst] in H.
    apply lasts_bind; [done|]. intros _ s3 _. apply lasts_bind.
    { rewrite run_of_result. destruct planned as [plan|[e|[]|]]; [done..|]. done. }
    intros plan s4 _. apply lasts_bind; [apply in_delivery_ends|]. intros _ s5 _. apply lasts_bind; [done|]. intros s6 s7 _.
    destruct (dr_dry_run _); [apply lasts_bind; [apply in_delivery_ends|done]|]. destruct (_ <? _)%nat; [done|].
    apply lasts_bind; [apply in_delivery_ends|]. intros sinks s8 _. apply lasts_bind; [apply in_delivery_ends|done].
  - intros [[]|[plan pending]] s1 _; [done|]. apply lasts_bind; [apply in_delivery_ends|]. intros appended s2 _.
    apply lasts_bind; [apply dropping_no_fuel, in_delivery_ends|]. intros _ s3 _. apply lasts_bind; [apply in_delivery_ends|]. intros published s4 _.
    apply (fine_on (fun _ => True) s4); [apply record_and_finish_ends|done].
Qed.
Lemma deliver_staged_ends head reader continuation s :
  fit_files s -> (run (deliver_staged patience branch_first levels head reader execution continuation) s).1 <> Err OutOfFuel.
Proof.
  intros Hs. unfold deliver_staged. apply fine_then; [by apply in_delivery_fine|]. intros _ s1 Hs1.
  apply fine_then; [by apply fine_gets|]. intros rc s2 Hs2. apply fine_then; [apply fine_of_result; [by destruct (match settings_maildir _ with Some _ => _ | None => _ end)|done]|].
  intros directory s3 Hs3. apply fine_then; [destruct (_ || _); [by apply fine_ret|by apply in_delivery_fine]|]. intros sinks s4 Hs4.
  apply fine_then; [by apply in_delivery_fine|]. intros pending s5 Hs5. apply fine_then; [by apply dropping_fine, in_delivery_fine|]. intros staging s6 Hs6.
  destruct (take_matching_header head) as [matching_header head']. apply fine_then; [by apply dropping_fine, in_delivery_fine|]. intros written s7 Hs7.
  apply fine_then; [by apply dropping_fine, in_delivery_fine|]. intros _ s8 Hs8. apply fine_then.
  - apply dropping_fine. apply fine_bind; [by apply in_delivery_fine|]. intros message s9 Hs9 _. apply fine_bind.
    + destruct (plan_needs_full_matching _ _); [|by apply fine_ret]. destruct matching_header; [|by apply fine_ret].
      apply fine_bind; [by apply in_delivery_fine|]. intros. by apply fine_ret.
    + intros. by apply fine_ret.
  - intros [message input] s9 Hs9. destruct (plan_requires_ordered _ _); [|by apply deliver_resumed_ends].
    pose proof (deliver_ordered_ends input s9 Hs9) as H. unfold always. cbn [run]. by destruct (run (deliver_ordered_plan _ _ _ _ _) s9).
Qed.
End delivered.

(** * Runs *)

Lemma status_code_byte s : 0 <= status_code s <= 255.
Proof. destruct s; cbn; lia. Qed.
Lemma exit_code_byte e : 0 <= exit_code e <= 255.
Proof.
  destruct e; cbn [exit_code]; try apply status_code_byte. unfold signal_exit_code. destruct (between _ _ _) eqn:E; [|lia].
  unfold between in E. lia.
Qed.
Lemma requested_status_byte {T : Target} runtime status : parse_requested_exit_code runtime = Ok (Some status) -> 0 <= status <= 255.
Proof.
  unfold parse_requested_exit_code. destruct (get runtime _) as [value|]; [|done]. case_bool_decide; [done|].
  destruct (forallb is_ascii_digit value) eqn:Hd; [|done]. cbn [negb]. rewrite parse_unsigned_digits by done. destruct (Z.leb_spec (decimal_value value) 255); [|done].
  intros [= <-]. pose proof (decimal_value_nonneg value Hd). lia.
Qed.

(** Every option takes an argument off the list, so that as many rounds as there
    are arguments read them all. *)
Section arguments.
Context {T : Target}.
Lemma parse_option_shorter action option args o next rest : parse_option action option args o = Ok (inr (next, rest)) -> (length rest <= length args)%nat.
Proof.
  assert (length (tail args) <= length args)%nat as Ht by (destruct args; cbn; lia).
  assert (forall A (r : result bytes A) f, (forall a, f a = Ok (inr (next, rest)) -> (length rest <= length args)%nat) ->
    r ≫= f = Ok (inr (next, rest) : Invocation + ParsedOptions * list bytes) -> (length rest <= length args)%nat) as Hb.
  { intros A [a|e] f Hf; [apply Hf|done]. }
  unfold parse_option. repeat (first [done | intros [= _ <-]; (done || lia) | match goal with
    | |- (_ ≫= _) = _ -> _ => apply Hb; intros ?
    | |- (if ?b then _ else _) = _ -> _ => destruct b
    | |- match ?x with Some _ => _ | None => _ end = _ -> _ => destruct x
    end]).
Qed.
Lemma parse_options_enough n m action args o :
  (length args <= n)%nat -> (length args <= m)%nat -> parse_options n action args o = parse_options m action args o.
Proof.
  revert m args o. induction n as [|n IH]; intros m args o Hn Hm; [by destruct args, m; cbn in Hn; (lia || done)|].
  destruct args as [|option args]; [by destruct m|]. destruct m as [|m]; cbn in Hn, Hm; [lia|]. cbn [parse_options].
  destruct (parse_option action option args o) as [[invocation|[next rest]]|e] eqn:E; [done| |done]. apply parse_option_shorter in E. apply IH; lia.
Qed.
End arguments.

Section session.
Context {T : Target} {P : Platform} {W Fd Child PF : Type} {OS : Os W Fd} {N : NameCounter W} {MB : MaildirBackend W Fd PF}.
Context {PR : Processes W Fd Child} {TM : Terminal W} {BG : CommandBudget W} {SW : SessionWorld W Fd}.
Context {R : RegexEngine} {RC : RegexCompiler} {O : RcFiles}.
Context (errno_RANGE : Z) (version pid : bytes) (patience : Patience) (branch_first : nat -> bool).
#[local] Existing Instance session_expander.
#[local] Hint Extern 0 (RcSource) => exact (session_source pid) : typeclass_instances.
#[local] Hint Extern 0 (RuntimeRcLoader RcFileLoader) => exact (session_loader pid) : typeclass_instances.
#[local] Existing Instance program_invariant.
#[local] Abbreviation any := (fun _ => True).

Lemma say_all_ends lines : ends any (say_all (W := W) lines).
Proof. induction lines as [|line lines IH]; [by intros s|]. cbn [say_all]. eapply ends_bind; [apply ends_modify|]. intros _ _. exact IH. Qed.
Lemma print_stdout_ends what text : ends any (print_stdout (W := W) what text).
Proof. intros s. unfold print_stdout. rewrite run_with_error. cbn [fst]. by destruct (run (put_all _ _) s).1. Qed.

Definition fit_prepared (p : Prepared) : Prop := loader_ok (pp_loader p).
Lemma prepare_run_ends command : ends fit_prepared (prepare_run (Fd := Fd) errno_RANGE version pid command).
Proof.
  unfold prepare_run. apply (ends_bind any).
  { unfold run_identity. apply (ends_bind any); [by intros s|]. intros w _. apply (ends_bind any).
    - destruct (identity_sound errno_RANGE (os_getuid w) (sw_getpwuid w)) as (r & -> & _). by apply ends_operational.
    - intros identity _. apply (ends_bind any); [by apply ends_operational|]. by intros. }
  intros [identity hostname] _. apply (ends_bind any); [by apply ends_operational|]. intros supplied _.
  apply (ends_bind (fun r => loader_ok r.1.2)).
  { apply ends_operational. intros [[path loader] config] H. by apply root_configuration_well in H as [H _]. }
  intros [[path loader] config] Hl. apply (ends_bind any); [by apply ends_operational|]. intros staging _.
  apply (ends_bind any); [by apply ends_operational|]. intros settings _. apply (ends_bind any); [apply say_all_ends|]. intros _ _. by apply ends_ret.
Qed.
Lemma run_check_ends command p : ends any (run_check (W := W) pid command p).
Proof.
  unfold run_check. apply (ends_bind any).
  { intros s. rewrite run_of_result. destruct (check_terminates pid (pp_config p) (pp_loader p)) as (r & l & -> & H). cbn [fst].
    by destruct r as [warnings|[e|[]|]]. }
  intros warnings _. apply (ends_bind any); [apply say_all_ends|]. intros _ _. apply (ends_bind any); [by destruct (plan_has_external _); intros s|].
  intros _ _. destruct (cl_explain command); [apply print_stdout_ends|by intros s].
Qed.

#[local] Abbreviation bounded := (bounded_files FILE_LEVELS).
Lemma evaluate_and_deliver_ends dr config head reader s :
  bounded s.1 -> (run (evaluate_and_deliver pid patience branch_first dr (compile_plan config) (levels_for FILE_LEVELS (root (compile_plan config)) MAX_RC_TRANSITIONS) head reader) s).1
    <> Err OutOfFuel.
Proof.
  intros Hs. destruct s as [files [runtime w]]. set (plan := compile_plan config). unfold evaluate_and_deliver. cbn [run].
  destruct (headers_keep_bounded FILE_LEVELS (program_bounded pid) (Some (header_capture patience)) plan head runtime files (new_runner (dr_limits dr), w) Hs) as [H1 H2].
  destruct (evaluate_headers _ _ _ _ _ _ _) as [[[delivery|continuation]|[e|e|]] h]; cbn [fst snd] in *; try done.
  - pose proof (deliver_decided_ends (hp_head h) reader delivery (dr, (hp_runtime h, (hp_capture h).2))) as H. cbn [snd].
    by destruct (run (deliver_decided _ _ _) _) as [r [d s2]].
  - pose proof (deliver_staged_ends patience branch_first FILE_LEVELS (program_bounded pid) plan (hp_head h) reader continuation
      ((dr, hp_rc h), (hp_runtime h, (hp_capture h).2)) H2) as H. cbn [fst snd].
    by destruct (run (deliver_staged _ _ _ _ _ _ _) _) as [r [d s2]].
Qed.
Definition status_byte (requested : option Z) : Prop := match requested with Some status => 0 <= status <= 255 | None => True end.
(** From a state as [Pre] says, the computation ends as [Post] says or with an error
    that is not the model's own. *)
Definition lasts {St V D A} (Pre : St -> Prop) (m : M St (stop V D) A) (Post : A -> St -> Prop) : Prop :=
  forall s, Pre s -> match run m s with (Ok a, s') => Post a s' | (Err e, _) => e <> OutOfFuel end.
Lemma lasts_then {St V D A C} Pre Mid Post (m : M St (stop V D) A) (f : A -> M St (stop V D) C) :
  lasts Pre m Mid -> (forall a, lasts (Mid a) (f a) Post) -> lasts Pre (m ≫= f) Post.
Proof. intros Hm Hf s Hs. rewrite run_bind. specialize (Hm s Hs). destruct (run m s) as [[a|e] s1]; [by apply Hf|done]. Qed.
#[local] Abbreviation Filters A := (M (@RuntimeRcState R RcFileLoader * (RuntimeVariables * W)) Ended A).
#[local] Abbreviation kept := (fun s : @RuntimeRcState R RcFileLoader * (RuntimeVariables * W) => bounded s.1).
Lemma filtering_lasts {A} (I : @RuntimeRcState R RcFileLoader * (RuntimeVariables * W) -> Prop) Q (m : M W Ended A) :
  (forall s w, I s -> I (s.1, (s.2.1, w))) -> ends Q m -> lasts I (filtering m : Filters A) (fun a s => Q a /\ I s).
Proof.
  intros HI Hm s Hs. unfold filtering, Effects.on. cbn [run]. specialize (Hm s.2.2). destruct (run m s.2.2) as [[a|e] w]; cbn in *; [|done].
  split; [done|by apply HI].
Qed.
Lemma filter_attempt_ends command p :
  lasts kept (filter_attempt (Fd := Fd) pid patience branch_first command p (compile_plan (pp_config p))
               (levels_for FILE_LEVELS (root (compile_plan (pp_config p))) MAX_RC_TRANSITIONS)) (fun requested _ => status_byte requested).
Proof.
  assert (forall A Q (m : M W Ended A), ends Q m -> lasts kept (filtering m : Filters A) (fun a s => Q a /\ kept s)) as Hstep by (intros; by apply filtering_lasts).
  unfold filter_attempt. apply (lasts_then _ (fun _ => kept)).
  { destruct (valid_utf8 (pp_path p)); [by intros s Hs|]. intros s Hs. by destruct s as [files [runtime w]]. }
  intros _. apply (lasts_then _ (fun _ => kept)); [by intros s Hs|]. intros _.
  apply (lasts_then _ (fun _ s => True /\ kept s)); [apply Hstep, ends_modify|]. intros _.
  apply (lasts_then _ (fun _ s => True /\ kept s)); [intros s [_ Hs]; revert s Hs; apply Hstep, ends_modify|]. intros _.
  apply (lasts_then _ (fun _ s => True /\ kept s)); [intros s [_ Hs]; revert s Hs; apply Hstep; by intros s|]. intros stdin.
  apply (lasts_then _ (fun _ s => True /\ kept s)); [intros s [_ Hs]; revert s Hs; apply Hstep, ends_operational; done|]. intros [head reader].
  apply (lasts_then _ (fun delivered _ => delivered <> Err OutOfFuel)).
  { intros s [_ Hs]. rewrite run_outcome. by apply evaluate_and_deliver_ends. }
  intros delivered. apply (lasts_then _ (fun _ _ => delivered <> Err OutOfFuel)).
  { intros s Hs. destruct (unwinding delivered); [|done]. rewrite run_of_result. destruct delivered as [u|e]; [done|]. by intros ->. }
  intros _. apply (lasts_then _ (fun _ _ => delivered <> Err OutOfFuel)); [by intros s Hs|]. intros _.
  apply (lasts_then _ (fun _ _ => delivered <> Err OutOfFuel)); [by intros s Hs|]. intros runtime.
  apply (lasts_then _ (fun requested _ => status_byte requested /\ delivered <> Err OutOfFuel)).
  - intros s Hs. apply (filtering_lasts (fun _ => delivered <> Err OutOfFuel)); [done| |done]. apply ends_operational. intros requested E.
    destruct requested; [|done]. by eapply requested_status_byte.
  - intros [status|]; [by intros s [Hs _]|]. apply (lasts_then _ (fun _ _ => True)); [|by intros ? s].
    intros s [_ Hd]. rewrite run_of_result. destruct delivered as [u|e]; [done|]. by intros ->.
Qed.
Abbreviation byte_status := (fun status : Z => 0 <= status <= 255).
Lemma run_filter_ends command p : fit_prepared p -> ends byte_status (run_filter (Fd := Fd) pid patience branch_first command p).
Proof.
  intros Hp. unfold run_filter. destruct (_ && _); [by apply ends_operational|]. apply (ends_bind any).
  { intros w. rewrite run_with_error. cbn [fst]. by destruct (run sw_install_handlers w).1. }
  intros _ _. apply (ends_bind (fun '(r, _) => match r with Ok requested => status_byte requested | Err e => e <> OutOfFuel end)).
  - intros w. cbn [run]. match goal with |- context [run (filter_attempt _ _ _ _ _ _ _) ?s] => pose proof (filter_attempt_ends command p s (new_files_bounded _ Hp)) as H end.
    destruct (run (filter_attempt _ _ _ _ _ _ _) _) as [r [files [runtime w']]]. cbn [fst]. destruct (unwinding r); [discriminate|].
    destruct (received w'); [discriminate|]. exact H.
  - intros [result files] H. apply (ends_bind any); [apply say_all_ends|]. intros _ _. apply (ends_bind status_byte); [by intros s|].
    intros [status|] Hb; apply ends_ret; [exact Hb|]. apply status_code_byte.
Qed.
Lemma run_session_ends args : ends byte_status (run_session (Fd := Fd) errno_RANGE version pid patience branch_first args).
Proof.
  unfold run_session. apply (ends_bind any); [by apply ends_operational|]. intros [command| |] _.
  2,3: apply (ends_bind any); [apply print_stdout_ends|]; intros _ _; apply ends_ret, status_code_byte.
  apply (ends_bind fit_prepared); [apply prepare_run_ends|]. intros p Hp. destruct (cl_action command).
  - apply (ends_bind any); [apply run_check_ends|]. intros _ _. apply ends_ret, status_code_byte.
  - by apply run_filter_ends.
Qed.

(** Whatever is followed of the waits, there is a status. *)
Lemma program_returns args w :
  exists status w', main_program (Fd := Fd) errno_RANGE version pid patience branch_first args w = (Some status, w') /\ 0 <= status <= 255.
Proof.
  unfold main_program. pose proof (run_session_ends args w) as H.
  destruct (run (run_session _ _ _ _ _ args) w) as [[status|[[]|[e|]|]] w']; cbn [fst] in H; [by eexists _, _| | |done].
  - eexists _, _. split; [done|apply exit_code_byte].
  - by eexists _, _.
Qed.
End session.

(** * Waits without a bound of the model *)

(** The times that are waited for a lock are bounded. *)
Section times.
Context {T : Target}.
Lemma read_seconds_range s name max def t : 1 <= def <= max -> read_setting s name (parse_seconds name max) def = Ok t -> 1 <= t <= max.
Proof.
  intros Hd. unfold read_setting. destruct (get _ _) as [value|]; [|by intros [= <-]]. unfold parse_seconds.
  destruct (parse_u64 value) as [seconds|]; cbn; [|done]. destruct (between 1 max seconds) eqn:E; cbn; [|done]. intros [= <-]. unfold between in E. lia.
Qed.
Lemma lock_timeout_range s t : lock_timeout s = Ok t -> 1 <= t <= MAX_LOCK_TIMEOUT_SECONDS.
Proof. by apply read_seconds_range. Qed.
Lemma lock_sleep_range s t : lock_sleep s = Ok t -> 1 <= t <= MAX_LOCK_SLEEP_SECONDS.
Proof. by apply read_seconds_range. Qed.
End times.

Section ending.
Context {T : Target} {P : Platform} {W Fd Child PF : Type} {OS : Os W Fd} {N : NameCounter W} {MB : MaildirBackend W Fd PF}.
Context {PR : Processes W Fd Child} {TM : Terminal W} {BG : CommandBudget W} {SW : SessionWorld W Fd}.
Context {R : RegexEngine} {RC : RegexCompiler} {O : RcFiles}.
Section same.
(** What the system documents of the calls that a wait makes. *)
Context (clock : W -> Z) (disturbances : W -> nat) (few : nat).
Record SystemLaws : Prop := { sl_waits : WaitLaws clock disturbances few; sl_commands : CommandLaws clock disturbances }.
Context (laws : SystemLaws).
(** The steps that are enough for every wait of a run: one for every nanosecond of
    the longest time that a lock is waited for. *)
Definition enough_patience (patience : Patience) : Prop := MAX_LOCK_TIMEOUT_SECONDS * SECOND + Z.of_nat few + 3 <= Z.of_nat (followed patience).
Context (p q : Patience) (Hp : enough_patience p) (Hq : enough_patience q).
Lemma enough_three n : enough_patience n -> (3 <= followed n)%nat.
Proof. unfold enough_patience, MAX_LOCK_TIMEOUT_SECONDS, SECOND. lia. Qed.

(** ** Commands *)

Lemma run_command_same : run_command p = run_command q.
Proof.
  unfold run_command. rewrite (run_filter_same clock disturbances (sl_commands laws) p q), (run_program_with_timeout_same clock disturbances (sl_commands laws) p q),
    (run_capture_with_timeout_same clock disturbances (sl_commands laws) p q) by (by apply enough_three). done.
Qed.
Lemma runner_condition_same : runner_condition p = runner_condition q.
Proof. unfold runner_condition, run_here. by rewrite run_command_same. Qed.
Lemma runner_capture_same : runner_capture p = runner_capture q.
Proof. unfold runner_capture, run_here. by rewrite run_command_same. Qed.
Lemma runner_action_same : runner_action p = runner_action q.
Proof. unfold runner_action, run_here. by rewrite run_command_same. Qed.
Lemma finish_background_same : runner_finish_background p = runner_finish_background q.
Proof.
  unfold runner_finish_background, wait_all. by rewrite (wait_background_same clock disturbances (sl_commands laws) p q) by (by apply enough_three).
Qed.
Lemma runner_trap_same : runner_trap p = runner_trap q.
Proof.
  unfold runner_trap, run_trap. by rewrite (run_trap_with_timeout_same clock disturbances (sl_commands laws) p q) by (by apply enough_three).
Qed.

(** ** Locks *)

Lemma lock_time_enough s timeout n : lock_timeout s = Ok timeout -> enough_patience n -> long_enough few (timeout * SECOND) n.
Proof. intros H%lock_timeout_range. unfold enough_patience, long_enough. unfold SECOND. lia. Qed.
Lemma setting_Ok {A} (r : result RuntimeSettingError A) a : setting r = Ok a -> r = Ok a.
Proof. unfold setting. destruct r; [|done]. by intros [= ->]. Qed.
Lemma acquire_configured_lock_same : acquire_configured_lock p = acquire_configured_lock q.
Proof.
  extensionality path. extensionality runtime. extensionality uid. unfold acquire_configured_lock. f_equal. extensionality method.
  apply bind_result_ext. intros timeout Ht%setting_Ok. apply bind_result_ext. intros retry Hr%setting_Ok. f_equal. extensionality mask.
  pose proof (lock_timeout_range _ _ Ht). pose proof (lock_sleep_range _ _ Hr).
  by rewrite (acquire_lock_same clock disturbances few (sl_waits laws) p q) by (first [by eapply lock_time_enough|unfold SECOND; lia]).
Qed.
Lemma acquire_recipe_lock_same : acquire_recipe_lock p = acquire_recipe_lock q.
Proof. unfold acquire_recipe_lock. by rewrite acquire_configured_lock_same. Qed.
Lemma prepare_mbox_same : prepare_mbox p = prepare_mbox q.
Proof.
  extensionality d. extensionality runtime. unfold prepare_mbox.
  apply bind_result_ext. intros timeout Ht%setting_Ok. apply bind_result_ext. intros retry Hr%setting_Ok. f_equal. extensionality mask. f_equal. extensionality mbox.
  pose proof (lock_timeout_range _ _ Ht). pose proof (lock_sleep_range _ _ Hr). unfold lock_mbox.
  by rewrite (acquire_flock_fd_same clock disturbances few (sl_waits laws) p q) by (first [by eapply lock_time_enough|unfold SECOND; lia]).
Qed.

(** ** Deliveries *)

Lemma ordered_delivery_host_same : ordered_delivery_host p = ordered_delivery_host q.
Proof.
  unfold ordered_delivery_host, ordered_deliver, ordered_external_action, ordered_capture, ordered_condition, ordered_replace_lock, ordered_local_lock, ordered_complete,
    deliver_file_destination.
  by rewrite acquire_recipe_lock_same, acquire_configured_lock_same, prepare_mbox_same, runner_action_same, runner_capture_same, runner_condition_same, runner_trap_same,
    finish_background_same.
Qed.
Context (errno_RANGE : Z) (version pid : bytes) (branch_first : nat -> bool).
#[local] Existing Instance session_expander.
#[local] Hint Extern 0 (RcSource) => exact (session_source pid) : typeclass_instances.
#[local] Hint Extern 0 (RuntimeRcLoader RcFileLoader) => exact (session_loader pid) : typeclass_instances.
Lemma deliver_staged_same : deliver_staged p branch_first = deliver_staged (loader_impl := session_loader pid) q branch_first.
Proof. unfold deliver_staged, deliver_ordered_plan. by rewrite ordered_delivery_host_same. Qed.
Lemma evaluate_and_deliver_same : evaluate_and_deliver pid p branch_first = evaluate_and_deliver pid q branch_first.
Proof. unfold evaluate_and_deliver, header_capture. rewrite runner_capture_same, deliver_staged_same. reflexivity. Qed.
Lemma main_program_same args w :
  main_program (Fd := Fd) errno_RANGE version pid p branch_first args w = main_program (Fd := Fd) errno_RANGE version pid q branch_first args w.
Proof. unfold main_program, run_session, Session.run_filter, filter_attempt. rewrite evaluate_and_deliver_same. reflexivity. Qed.
End same.

End ending.

(** * A plan that is executed again *)

(** A header action, then a file that is loaded while the header is planned and that
    has a delivery with a lock, which only execution in order can make. *)
Definition replayed_root : bytes := rc_text [B ":0"; B "headers {"; B "    add X-Seen yes"; B "}"; B "INCLUDERC=/rc/more"].
Definition replayed_more : bytes := rc_text [B ":0:/mail/lock"; B "/mail/in"].
Definition replayed_files : RcFiles := {|
  os_open_root path := Ok {| of_regular := true; of_uid := 1000; of_mode := 384; of_read := Ok replayed_root |};
  os_open_rc path := Ok {| of_regular := true; of_uid := 1000; of_mode := 384; of_read := Ok replayed_more |} |}.
Definition replayed_source : RcSource (R := plain_engine) := program_source (R := plain_engine) (RC := plain_compiler) (O := replayed_files) (B "7").
Definition replayed_loader : RuntimeRcLoader (R := plain_engine) RcFileLoader := rc_file_loader (F := replayed_source).
Definition replayed_start := root_configuration (R := plain_engine) (RC := plain_compiler) (F := replayed_source) (B "7") None (B "/home/me") [] no_arguments.
Definition replayed_config : Config := match replayed_start with Ok (_, _, c) => c | Err _ => sample_config end.
Definition replayed_l : RcFileLoader := match replayed_start with Ok (_, l, _) => l | Err _ => sample_loader end.
Definition replayed_evaluation := evaluate_headers (D := ()) (K := ()) (loader_impl := replayed_loader) None 4
  (compile_plan replayed_config) front_head (default_runtime (B "7")) (new_rc_state (Some replayed_l)) ().
Definition replayed_head := hp_head replayed_evaluation.2.
Definition replayed_input : MappedMessageInput := {| mi_raw := head_as_bytes replayed_head ++ B "text"; mi_header_len := length (head_as_bytes replayed_head); mi_matching := None |}.
Definition replayed_execution := plan_execute_ordered (X := sample_expander) (loader_impl := replayed_loader) (host_impl := sample_host) (fun _ => true) 4
  (compile_plan replayed_config) replayed_input (hp_runtime replayed_evaluation.2) {| sh_held := 0; sh_performed := [] |} (hp_rc replayed_evaluation.2).

(** The head has been edited when the message is staged, and the plan is executed
    from its beginning: the field is added a second time. *)
Example replay_edits_twice :
  head_as_bytes replayed_head = rc_text [B "A: b"; B "X-Seen: yes"; []] /\
  ((fun p => concat (message_bytes_parts (fm_bytes (pf_message p)))) <$> match replayed_execution.2 with Some s => sh_performed (os_host s) | None => [] end) =
  [rc_text [B "A: b"; B "X-Seen: yes"; B "X-Seen: yes"; []] ++ B "text"].
Proof. by vm_compute. Qed.

(** * A run that waits *)

(** A system of a clock, a file, and whether its name may be removed: the lock is
    held by another until one second, a command exits after ten. *)
Definition SlowWorld : Type := N * (bytes * bool).
Definition slow_time (w : SlowWorld) : Z := Z.of_N w.1.
Definition slow_stat (w : SlowWorld) : Stat :=
  {| st_dev := 0; st_ino := 0; st_mode := 33152; st_nlink := 1; st_uid := 1000; st_size := len w.2.1; st_mtime := 0 |}.
#[local] Instance slow_system : Os SlowWorld () := {|
  os_openat _ _ _ _ := mret tt; os_fstat _ := gets slow_stat; os_statat _ _ := gets slow_stat; os_mkdirat _ _ _ := mret tt;
  os_link_fd _ _ _ := stop_with 38; os_linkat _ _ _ _ := stop_with 38; os_dupfd _ := stop_with 38;
  os_unlinkat _ _ := Comp (fun w => if w.2.2 : bool then (Ok tt, (w.1, (w.2.1, false))) else (Err 2, w));
  os_flock _ _ := Comp (fun w => (if slow_time w <? SECOND then Err 11 else Ok tt, w)); os_fsync _ := mret tt; os_ftruncate _ _ := stop_with 38; os_seek_end _ := stop_with 38;
  os_write _ l := Comp (fun w => (Ok (length l), (w.1, (w.2.1 ++ l, w.2.2)))); os_read _ _ := stop_with 38; os_getrandom _ := stop_with 38;
  os_mapped _ _ := gets (fun w => w.2.1);
  os_getuid _ := 1000; os_pid _ := 1; os_system_time w := (slow_time w, w); os_instant w := (slow_time w, w); os_sleep d w := ((w.1 + Z.to_N (Z.max 1 d))%N, w.2); os_signal _ := 0;
|}.
#[local] Instance slow_processes : Processes SlowWorld () () := {|
  pr_spawn _ := mret tt; pr_id _ := 5; pr_write_stdin _ _ := mret tt; pr_close_stdin _ w := w; pr_stdout _ _ := [];
  pr_try_wait _ := gets (fun w => if slow_time w <? 10 * SECOND then None else Some {| cs_code := Some 0; cs_signal := None |});
  pr_wait _ := mret {| cs_code := Some 0; cs_signal := None |}; pr_kill_group _ _ := mret tt; pr_no_group := 3;
  pr_socket_pair := mret (tt, tt); pr_set_read_timeout _ _ := mret tt; pr_read _ _ := mret []; pr_start_thread := mret tt;
  pr_beside _ _ _ _ m n w := let '(r, w) := run m w in let '(s, w) := run n w in ((r, s), w);
|}.
#[local] Instance slow_terminal : Terminal SlowWorld := {| stdout_write _ := mret tt; stdout_flush := mret tt; stderr_write _ := mret tt |}.
#[local] Instance slow_budget : CommandBudget SlowWorld := {| started_commands _ := 0%nat; set_started_commands _ w := w |}.
#[local] Instance slow_counter : NameCounter SlowWorld := {| next_name _ := 0; set_next_name _ w := w |}.
#[local] Instance slow_session : SessionWorld SlowWorld () := {|
  sw_trace _ := None; sw_set_trace _ w := w; sw_stdin _ := cursor (rc_text [B "A: b"; []; B "text"]); sw_install_handlers := mret tt;
  sw_getpwuid _ _ _ := PW_Record (B "me" ++ [0] ++ B "/home/me" ++ [0]) 0 3; sw_nodename _ := B "host"; sw_kind_debug _ := [] |}.
Definition slow_files : RcFiles := {|
  os_open_root path := Ok {| of_regular := true; of_uid := 1000; of_mode := 384;
    of_read := Ok (rc_text [B "SHELL=/bin/sh"; B "MAILDIR=/mail"; B ":0 w:/mail/lock"; B "| wait"]) |};
  os_open_rc _ := Err {| os_message := []; os_not_found := true |} |}.
Definition slow_program (patience : Patience) : option Z * SlowWorld :=
  main_program (P := linux_numbers) (MB := linux_backend (P := linux_numbers)) (Child := ()) (R := plain_engine) (RC := plain_compiler) (O := slow_files) 34 (B "1") (B "7") patience
    (fun _ => true) [B "filter"; B "--config"; B "/rc"] (0%N, ([], true)).
Definition slow_disturbances (w : SlowWorld) : nat := if w.2.2 then 1 else 0.
Lemma slow_laws : SystemLaws (P := linux_numbers) (Child := ()) slow_time slow_disturbances 1.
Proof.
  assert (ClockLaws slow_time slow_disturbances) as Hclock.
  { split; [intros w; cbn; repeat split; lia|]. intros d [time w] Hd. unfold slow_time, slow_disturbances. cbn. lia. }
  split; split; try exact Hclock.
  - intros [time [data [|]]]; cbn; lia.
  - intros file [time [data removable]]. cbn. case_match; cbn; repeat split; (done || lia).
  - intros base name flags mode w; cbn; lia.
  - intros dir name w; cbn; lia.
  - intros w; cbn; lia.
  - intros dir name [time [data [|]]]; cbn; unfold slow_time; cbn; lia.
  - intros dir name [time [data [|]]] w'; cbn; [intros [= <-]; cbn; lia|discriminate].
  - intros child w; cbn; lia.
  - intros fd n w; cbn; lia.
  - intros fd n w e w'; cbn; discriminate.
  - intros w. unfold slow_time. lia.
Qed.
